(* ===== verification/_CoqProject ===== *)
-Q . S2P
Prelude.v
Types.v
Order.v
EngineSettlement.v
Market.v
MmConstraint.v
Account.v
Validation.v
OrderBook.v
Snapshots.v
BookInvariant.v
BookOps.v
BookSafety.v
Digest.v
BatchSettlement.v
Finalize.v
Conservation.v
Witness.v
Sidecar.v
SettlementVerifier.v
VerifierAgreement.v
MatchVerifier.v
OrdersVerifier.v
Solvency.v
L1Protocol.v
DepositFrontier.v
AccountKeys.v
WebAuthn.v
WebAuthnProofs.v
Signing.v
ClientAction.v
ClientActionProofs.v
KeyTransition.v
KeyTransitionProofs.v
ActionReplay.v
WitnessBytes.v
WitnessDecode.v
WitnessTyping.v
WitnessRoundtrip.v
WitnessExact.v
SystemVerifier.v
Oracle.v
Bridge.v
Sequencer.v
MarketLifecycle.v
MarketGroups.v
BridgeOps.v
SystemPhase.v
MarketRuns.v
SystemEffects.v
SystemAgreement.v
SystemInvariant.v
SystemVerified.v
BridgeSidecar.v
BridgeRuns.v
BridgeVerified.v
SidecarMarkets.v
MarketVerified.v
SidecarVerified.v
StateCommitment.v
StateBinding.v
BlockChain.v
Mmr.v
MmrProofs.v
EventsRoot.v
QmdbProof.v
ZkTransition.v
StatementExact.v
DepositCheckpoint.v
TransitionExact.v
EpochTransition.v
TransitionExample.v
EpochProofs.v
EpochExact.v
QmdbBinding.v
EscapeClaim.v
EscapeProofs.v
ProofProtocol.v
Admission.v
AdmissionProofs.v
