(* ===== verification/Prelude.v ===== *)
(** * Sybil: a verified model of a batch-auction prediction exchange

    Sybil is a prediction-market exchange.  A sequencer keeps accounts and a
    book of resting orders; every block it drains the queued system events,
    collects the orders of a batch, lets a solver propose fills and clearing
    prices, settles them, mints or burns complete sets through the MINT account
    and publishes a block with a witness.  A separate verifier recomputes the
    block from the witness.  Cash enters and leaves through an L1 bridge: a
    vault contract whose deposits form a Merkle log, and withdrawals identified
    by nullifiers.

    This library models the exchange's own logic: the arithmetic and order
    types ([matching-engine]), the sequencer's state and operations
    ([matching-sequencer], [sybil-oracle], [sybil-signing]), the verifier's
    layers and byte formats ([sybil-verifier]), the L1 protocol
    ([sybil-l1-protocol]), and the statements proved to the L1: state
    transitions and epochs ([sybil-zk]), proof jobs ([sybil-proof-protocol]) and
    escape claims ([sybil-escape-claim]).  Paths below are under [src/crates/].

    ** Conventions

    Rust integers are [Z] with the width written at each operation ([chk] for
    checked, [sat] for saturating, [wrap] for [as] casts, [arith] for plain
    operators: the release profile sets [overflow-checks], so they panic).
    [outcome] is a [Result] with a panic arm; [st] is a method on [&mut self]
    that keeps the state on its error arm.  Hash maps are [gmap]; where code
    iterates over one, the iteration order is an argument, with the hypothesis
    that it is a permutation of the entries.  blake3, sha256 and keccak256 are
    function parameters; theorems that need more than functionality say so
    (32-byte outputs, "or the hash has a collision").  P-256 verification, the
    Borsh encoders and the authenticated databases are third-party: a predicate,
    the class [BorshFormat] with its self-delimiting law, and the root functions
    [qmdb_root] and [keyless_root].  A rejected call's text message is dropped;
    the error value is kept.

    ** Files

    - [Prelude]: machine integers, outcomes, stateful outcomes, sums, maps.
    - [Types], [Order], [EngineSettlement], [Market], [MmConstraint]:
      matching-engine/src/ types.rs, order.rs, settlement.rs, market.rs with
      state.rs and order_builder.rs, mm_constraint.rs with midprice.rs.
    - [Account], [Validation], [OrderBook], [Snapshots]: matching-sequencer/src/
      account.rs (with error.rs), validation.rs and order_book.rs (operations,
      then snapshots and restore checks).  [BookInvariant], [BookOps] and
      [BookSafety] hold the invariant of the book and its preservation.
    - [Digest], [BatchSettlement], [Finalize]: digest.rs, settlement.rs,
      canonical_state.rs and sequencer/production/finalize.rs.
      [Conservation] lifts the per-order laws to whole blocks.
    - [Witness], [Sidecar], [SettlementVerifier], [MatchVerifier],
      [OrdersVerifier]: sybil-verifier/src/ types.rs and violations.rs (with
      matching-engine problem.rs), sidecar.rs (reservations and resting
      orders), settlement.rs, match_verifier.rs with arithmetic.rs, orders.rs.
      [VerifierAgreement] and [Solvency] relate them to the sequencer.
    - [L1Protocol], [DepositFrontier]: sybil-l1-protocol/src/lib.rs, the ABI
      and log-parsing half and the deposit-tree half.
    - [AccountKeys], [SystemVerifier]: sybil-verifier/src/ account_keys.rs and
      system.rs.
    - [Bridge], [Sequencer], [BridgeOps]: matching-sequencer/src/ bridge.rs;
      sequencer.rs, sequencer/accounts.rs, crypto.rs, system_event.rs with the
      cancellation of sequencer/admission.rs and the resolution of
      sequencer/markets.rs; sequencer/bridge_ops.rs.
    - [SystemPhase]: the system phase of sequencer/production/mod.rs and the
      conversions of production/witness.rs.  [SystemEffects],
      [SystemAgreement], [SystemInvariant] and [SystemVerified] relate it to
      the replay of [SystemVerifier].
    - [Oracle], [MarketLifecycle], [MarketGroups]: sybil-oracle/src/;
      matching-sequencer/src/ market_info.rs, market_lifecycle.rs and
      sequencer/markets.rs, with the invariant of markets and groups.
    - [BridgeSidecar], [SidecarMarkets]: the rest of sybil-verifier's sidecar.rs
      with quarantine.rs, and the committed sidecar of matching-sequencer
      block.rs and price_tracker.rs.  [BridgeRuns], [BridgeVerified],
      [MarketRuns], [MarketVerified] and [SidecarVerified] show that a run of
      the sequencer passes them.
    - [WebAuthn], [Signing], [ClientAction], [KeyTransition]: sybil-verifier/src/
      key_op_auth.rs, client_action.rs and key_transition.rs, and
      sybil-signing/src/lib.rs; [WebAuthnProofs], [ClientActionProofs],
      [KeyTransitionProofs] and [ActionReplay] hold their theorems.
    - [WitnessBytes], [WitnessDecode]: sybil-verifier/src/ canonical.rs,
      snapshot_schema.rs, event_schema.rs and witness_schema.rs, encoder and
      decoder; [WitnessTyping] says what each field may hold,
      [WitnessRoundtrip] and [WitnessExact] relate the two directions.
    - [StateCommitment]: state_schema.rs, block.rs, event_commitment.rs and the
      composition in lib.rs, with sybil-zk's header hash.  [StateBinding] and
      [BlockChain] say what a root and a chain of headers determine.
    - [Mmr], [QmdbProof]: sybil-zk/src/guest_commitments.rs, the mountain range
      with the events root, then the state proofs.  [MmrProofs], [EventsRoot]
      and [QmdbBinding] hold totality and binding.
    - [ZkTransition], [EpochTransition]: sybil-zk/src/ lib.rs and epoch.rs.
      [StatementExact], [DepositCheckpoint], [TransitionExact], [EpochProofs]
      and [EpochExact] characterise what they accept; [TransitionExample] builds
      two blocks with their state proofs.
    - [EscapeClaim], [EscapeProofs]: sybil-escape-claim/src/lib.rs.
    - [ProofProtocol]: sybil-proof-protocol/src/ job.rs and envelope.rs.
    - [Admission], [AdmissionProofs]: the submissions half of
      matching-sequencer/src/sequencer/admission.rs, with the complete-set tracker.

    ** What the theorems show

    - Arithmetic and orders: settlement of admitted fills never overflows and
      moves exactly price times quantity; the single-market fast path equals
      the generic payoff walk; minting restores complete sets; market-maker
      capital covers worst-case liability.
    - Order book: every reachable book keeps its aggregate reservations equal
      to the sum over its orders and within the owners' means; accept, cancel,
      revalidate, settle and restore have exact effects.
    - Admission: the incremental tracker refuses exactly the orders that complete a
      crossing set, and no sequence of submissions leaves an account's bids able to
      trade with each other; a deferred market-maker bundle keeps that too.
    - Blocks: finalising a block conserves cash and shares, with minting
      accounted for; a block that passes the match, settlement and order layers
      finalises, and only the owner of a market-maker order can end overdrawn.
    - Verifier agreement: what the settlement, order, sidecar and system layers
      say of the blocks the sequencer produces.  They accept them, with exceptions
      that each theorem states and that are theorems or examples of their own:
      layer 2 flags a surplus of shares worth less than a nanodollar and the
      negative balances a market maker can reach; the order layer flags a sell
      refused for shares reserved by other orders ([reserved_sell_flagged]); the
      sidecar layer flags evictions at block start that neither expiry nor a
      resolution explains ([zero_balance_eviction]) and group changes around a
      resolution ([group_hazard_rejected]); the system layer flags a key operation
      on an account opened in the block with a key
      ([same_block_key_operation_rejected]).  The match layer accepts exactly the
      batches its declarative specification allows.
    - Bridge: value is conserved across deposits, requests, refunds and
      finalisations; deposits are consumed in the order and with the roots of
      the L1 log; the incremental frontier computes the Merkle tree and a root
      determines its log; a withdrawal settles at most once, and does settle
      once its expiry has been observed; rejected calls change nothing.
    - Markets: a market has one group at most and one resolution; groups change
      only by recorded extensions and resolutions.
    - Authority: the key layer refines a replay of key sets, a key changes only
      with a signature of a committed key, an accepted assertion authorises one
      action of one account, every authorisation is bound to its effect, and the
      clientDataJSON parser always returns, and accepts exactly the texts that
      spell, in any of JSON's ways, an object with the members it needs.
    - Encodings: event digests, key-set digests, key-operation messages and L1
      logs are injective or parsed exactly, and no log panics the parser; a typed
      witness decodes to its normal form, and what decodes is typed.
    - Commitments: blocks that pass the full verifier chain on height, header and
      the contents of the state store; the guest's events root exists and
      determines the events; a state root fixes the operation at each location;
      each up to a collision of the hash or of the store's root.
    - Statements: a transition input is accepted exactly when its public part is
      derived from the witness, its roots open to the witness's states and every
      layer accepts; an epoch is accepted exactly when its blocks are, in
      sequence; the guest's deposit checkpoint agrees with the sidecar layer's; a
      guest input built from a job can fail only in the witness layers.
    - Escape claims: accepted exactly at the value of the account, signed by a
      committed key; one nullifier per account and root; no overflow in the sum.
    - [same_block_key_operation_rejected], [group_hazard_rejected],
      [zero_balance_eviction] and [full_frontier_reads_empty] document behaviours
      that look unintended.

    ** Bounds

    Block-level theorems assume at most 4000 (settlement) or 9000 (totals)
    fills and amounts within 10^18 nanodollars or share units, so that [i64]
    sums stay in range; resolutions assume balances within 4 * 10^18 and
    positions within 2 * 10^12.  The deposit tree has depth 32; proofs are by
    induction on the depth.

    Fuel appears where a Rust loop is not structural.  The clientDataJSON parser
    has one unit per unread byte (three and two more for nested values), and
    [client_data_parser_total] shows it is enough.  The loop over the peaks of a
    mountain range has 195 units, three for each of 65 levels, and
    [mmr_peaks_exact] shows that it ends with the peaks for up to 2^62 leaves; a
    32-bit length takes five varint bytes and a 64-bit value ten; the descent to
    a leaf halves its step at most 64 times.

    ** Not modelled

    The solver (floating-point optimisation; its output is checked by the
    modelled verifier), P-256 and the authenticated databases themselves, HTTP,
    persistence, actors and the write-ahead log, the proving system, indexer,
    simulators and market-making bots.  Serving analytics and off-chain account
    metadata (profiles, API keys, provisioning receipts) never enter the state
    root and are left out.

    Of the sequencer, batch assembly (the loop over deferred submissions) and the
    solver call of block production remain. *)
From stdpp Require Export prelude gmap list strings sorting.
From Stdlib Require Export ZArith Lia.

#[global] Open Scope Z_scope.

(** ** Machine integers

    Rust integers are modelled as [Z] together with the width of the Rust type
    at the point where an operation is performed.  The workspace's release
    profile sets [overflow-checks = true], so an unchecked [+], [-] or [*]
    that leaves the range of its type panics. *)

Inductive ity := U8 | U32 | U64 | U128 | I8 | I64 | I128.

Definition int_min (t : ity) : Z :=
  match t with
  | U8 | U32 | U64 | U128 => 0
  | I8 => -128
  | I64 => -9223372036854775808
  | I128 => -170141183460469231731687303715884105728
  end.

Definition int_max (t : ity) : Z :=
  match t with
  | U8 => 255
  | U32 => 4294967295
  | U64 => 18446744073709551615
  | U128 => 340282366920938463463374607431768211455
  | I8 => 127
  | I64 => 9223372036854775807
  | I128 => 170141183460469231731687303715884105727
  end.

(** Whether [z] is representable in [t]. *)
Definition fits (t : ity) (z : Z) : bool := (int_min t <=? z) && (z <=? int_max t).

(** [checked_*] and [try_from]: [None] outside the range. *)
Definition chk (t : ity) (z : Z) : option Z := if fits t z then Some z else None.

(** [as] casts: truncation to the width of [t], two's complement if signed. *)
Definition wrap (t : ity) (z : Z) : Z :=
  (z - int_min t) mod (int_max t - int_min t + 1) + int_min t.

(** [saturating_*]. *)
Definition sat (t : ity) (z : Z) : Z := Z.max (int_min t) (Z.min (int_max t) z).

(** [uN::div_ceil]. *)
Definition div_ceil (a b : Z) : Z := if a mod b =? 0 then a / b else a / b + 1.

(** ** Outcomes

    [Ok]/[Err] are the two arms of a Rust [Result]; [Panic] is a panic
    (arithmetic overflow, index out of range, failed [expect]/[assert]). *)

Inductive outcome (E A : Type) :=
  | Ok (a : A)
  | Err (e : E)
  | Panic.
Arguments Ok {E A} a.
Arguments Err {E A} e.
Arguments Panic {E A}.

#[global] Instance outcome_ret E : MRet (outcome E) := λ A a, Ok a.
#[global] Instance outcome_bind E : MBind (outcome E) := λ A B f m,
  match m with Ok a => f a | Err e => Err e | Panic => Panic end.
#[global] Instance outcome_fmap E : FMap (outcome E) := λ A B f m,
  match m with Ok a => Ok (f a) | Err e => Err e | Panic => Panic end.

(** [.ok_or(e)]. *)
Definition ok_or {E A} (o : option A) (e : E) : outcome E A :=
  match o with Some a => Ok a | None => Err e end.

(** [.map_err(f)]. *)
Definition map_err {E F A} (f : E → F) (m : outcome E A) : outcome F A :=
  match m with Ok a => Ok a | Err e => Err (f e) | Panic => Panic end.

(** [.expect(..)] and [.unwrap()]. *)
Definition expect {E A} (o : option A) : outcome E A :=
  match o with Some a => Ok a | None => Panic end.

(** [.ok().flatten()]-style: keep only the success value. *)
Definition ok {E A} (m : outcome E A) : outcome Empty_set (option A) :=
  match m with Ok a => Ok (Some a) | Err _ => Ok None | Panic => Panic end.

(** Unchecked arithmetic at width [t]. *)
Definition arith {E} (t : ity) (z : Z) : outcome E Z := if fits t z then Ok z else Panic.

(** [assert!(b)]. *)
Definition assert_ {E} (b : bool) : outcome E unit := if b then Ok () else Panic.

(** [if b { return Err(e); }] *)
Definition reject_if {E} (b : bool) (e : E) : outcome E unit := if b then Err e else Ok ().
Lemma reject_if_bind {E B} b (e : E) (f : unit → outcome E B) r : (reject_if b e ≫= f) = Ok r → b = false ∧ f () = Ok r.
Proof. unfold reject_if. destruct b; [discriminate|]. auto. Qed.
Lemma reject_if_Ok {E} b (e : E) : reject_if b e = Ok () → b = false.
Proof. by destruct b. Qed.

(** [v[i]] and [v[..n]]. *)
Definition idx {E A} (l : list A) (i : nat) : outcome E A := expect (l !! i).
Definition slice_to {E A} (l : list A) (n : nat) : outcome E (list A) :=
  if decide (n ≤ length l)%nat then Ok (take n l) else Panic.

(** [for x in l { a = f(a, x)?; }] *)
Fixpoint ofold {E A B} (f : A → B → outcome E A) (a : A) (l : list B) : outcome E A :=
  match l with
  | [] => Ok a
  | x :: l => a' ← f a x; ofold f a' l
  end.

(** ** Stateful outcomes

    A method on [&mut self] that returns a [Result].  The state is kept on the
    error arm, because Rust leaves whatever was mutated before the early return
    in place. *)

Inductive sres (S E A : Type) :=
  | SOk (s : S) (a : A)
  | SErr (s : S) (e : E)
  | SPanic.
Arguments SOk {S E A} s a.
Arguments SErr {S E A} s e.
Arguments SPanic {S E A}.

Definition st (S E A : Type) : Type := S → sres S E A.

#[global] Instance st_ret S E : MRet (st S E) := λ A a s, SOk s a.
#[global] Instance st_bind S E : MBind (st S E) := λ A B f m s,
  match m s with SOk s' a => f a s' | SErr s' e => SErr s' e | SPanic => SPanic end.

Definition sget {S E} : st S E S := λ s, SOk s s.
Definition smodify {S E} (f : S → S) : st S E unit := λ s, SOk (f s) ().
Definition sfail {S E A} (e : E) : st S E A := λ s, SErr s e.
Definition slift {S E A} (m : outcome E A) : st S E A := λ s,
  match m with Ok a => SOk s a | Err e => SErr s e | Panic => SPanic end.

(** [for x in l { f(x)?; }] *)
Fixpoint sforeach {S E A} (f : A → st S E unit) (l : list A) : st S E unit :=
  match l with
  | [] => mret ()
  | x :: l => f x;; sforeach f l
  end.

(** [for x in l { a = f(a, x)?; }] with mutable state besides the accumulator. *)
Fixpoint sfold {S E A B} (f : A → B → st S E A) (a : A) (l : list B) : st S E A :=
  match l with
  | [] => mret a
  | x :: l => a' ← f a x; sfold f a' l
  end.

(** [l.iter().map(f).collect::<Result<Vec<_>, _>>()?] *)
Fixpoint smap {S E A B} (f : A → st S E B) (l : list A) : st S E (list B) :=
  match l with
  | [] => mret []
  | x :: l => y ← f x; ys ← smap f l; mret (y :: ys)
  end.

(** [.map_err(f)] *)
Definition smap_err {S E F A} (f : E → F) (m : st S E A) : st S F A := λ s,
  match m s with SOk s' a => SOk s' a | SErr s' e => SErr s' (f e) | SPanic => SPanic end.

(** ** Maps with a default of zero

    [*map.entry(k).or_insert(0)] and [map.get(&k).copied().unwrap_or(0)]. *)
Definition get0 `{Countable K} (m : gmap K Z) (k : K) : Z := default 0 (m !! k).

(** [*map.entry(k).or_insert(0) += v] on an [i64]-valued map. *)
Definition add0 {E} `{Countable K} (t : ity) (m : gmap K Z) (k : K) (v : Z) : outcome E (gmap K Z) :=
  z ← arith t (get0 m k + v); Ok (<[k := z]> m).

(** ** Sums *)
Fixpoint sumZ {A} (f : A → Z) (l : list A) : Z :=
  match l with [] => 0 | x :: l => f x + sumZ f l end.

(** ** Sorting: [v.sort_by(..)] and [v.sort_by_key(..)] are stable *)
Fixpoint sorted_insert {A} (R : relation A) `{!RelDecision R} (x : A) (l : list A) : list A :=
  match l with
  | [] => [x]
  | y :: k => if decide (R x y) then x :: l else y :: sorted_insert R x k
  end.
Definition stable_sort {A} (R : relation A) `{!RelDecision R} (l : list A) : list A := foldr (sorted_insert R) [] l.

(** [v.sort_by_key(|(k, _)| *k)] *)
Definition key_le {A} (a b : Z * A) : Prop := a.1 ≤ b.1.
#[global] Instance key_le_dec {A} : RelDecision (@key_le A) := λ a b, Z_le_dec a.1 b.1.
Definition sort_by_key {A} (l : list (Z * A)) : list (Z * A) := stable_sort key_le l.

(** Ascending iteration of a [BTreeMap]. *)
Definition btree_iter {A} (m : gmap Z A) : list (Z * A) := sort_by_key (map_to_list m).

(** ** Automation *)

Create HintDb sybil discriminated.
Create Rewrite HintDb sybil_rw.

(** Decide the boolean comparisons that appear in the code. *)
Ltac bdestruct :=
  repeat match goal with
  | H : context [?a =? ?b] |- _ => destruct (Z.eqb_spec a b)
  | H : context [?a <=? ?b] |- _ => destruct (Z.leb_spec a b)
  | H : context [?a <? ?b] |- _ => destruct (Z.ltb_spec a b)
  | |- context [?a =? ?b] => destruct (Z.eqb_spec a b)
  | |- context [?a <=? ?b] => destruct (Z.leb_spec a b)
  | |- context [?a <? ?b] => destruct (Z.ltb_spec a b)
  end.

(** Expose the bounds of every machine type in sight and call [lia]. *)
Ltac int_lia := unfold fits, int_min, int_max in *; lia.

(** Step through a successful outcome computation in a hypothesis. *)
Ltac omonad H :=
  repeat (simpl in H; match type of H with
  | mbind _ ?m = Ok _ =>
      let E := fresh "E" in
      destruct m eqn:E; [| discriminate H | discriminate H]
  | context [match ?m with _ => _ end] =>
      let E := fresh "E" in destruct m eqn:E; try discriminate H
  end); simplify_eq/=.

(** ** Lemmas on integers *)

Lemma fits_iff t z : fits t z = true ↔ int_min t ≤ z ≤ int_max t.
Proof. unfold fits. rewrite andb_true_iff, !Z.leb_le. done. Qed.

Lemma fits_false_iff t z : fits t z = false ↔ z < int_min t ∨ int_max t < z.
Proof.
  unfold fits. rewrite andb_false_iff, !Z.leb_gt. done.
Qed.

Lemma chk_Some t z r : chk t z = Some r ↔ r = z ∧ int_min t ≤ z ≤ int_max t.
Proof.
  unfold chk. destruct (fits t z) eqn:Hf.
  - apply fits_iff in Hf. naive_solver.
  - apply fits_false_iff in Hf. split; [done | intros [_ ?]; lia].
Qed.

Lemma chk_None t z : chk t z = None ↔ z < int_min t ∨ int_max t < z.
Proof.
  unfold chk. destruct (fits t z) eqn:Hf.
  - apply fits_iff in Hf. split; [done | lia].
  - apply fits_false_iff in Hf. done.
Qed.

Lemma chk_in t z : int_min t ≤ z ≤ int_max t → chk t z = Some z.
Proof. intros H. unfold chk. by rewrite (proj2 (fits_iff t z) H). Qed.

Lemma arith_in {E} t z : int_min t ≤ z ≤ int_max t → @arith E t z = Ok z.
Proof. intros H. unfold arith. by rewrite (proj2 (fits_iff t z) H). Qed.

Lemma arith_Ok {E} t z r : @arith E t z = Ok r ↔ r = z ∧ int_min t ≤ z ≤ int_max t.
Proof.
  unfold arith. destruct (fits t z) eqn:Hf.
  - apply fits_iff in Hf. naive_solver.
  - apply fits_false_iff in Hf. split; [done | intros [_ ?]; lia].
Qed.

Lemma arith_not_Err {E} t z (e : E) : arith t z ≠ Err e.
Proof. unfold arith. by destruct (fits t z). Qed.

Lemma wrap_in t z : int_min t ≤ z ≤ int_max t → wrap t z = z.
Proof. intros H. unfold wrap. rewrite Z.mod_small; lia. Qed.

Lemma wrap_range t z : int_min t ≤ wrap t z ≤ int_max t.
Proof.
  unfold wrap.
  assert (0 < int_max t - int_min t + 1) by (destruct t; simpl; lia).
  pose proof (Z.mod_pos_bound (z - int_min t) (int_max t - int_min t + 1) ltac:(done)). lia.
Qed.

Lemma sat_in t z : int_min t ≤ z ≤ int_max t → sat t z = z.
Proof. unfold sat. lia. Qed.

(** Ceiling division is the lower adjoint of multiplication. *)
Lemma div_ceil_le a b c : 0 < b → (div_ceil a b ≤ c ↔ a ≤ c * b).
Proof.
  intros Hb. unfold div_ceil.
  pose proof (Z.div_mod a b ltac:(lia)). pose proof (Z.mod_pos_bound a b Hb).
  destruct (Z.eqb_spec (a mod b) 0); split; nia.
Qed.

Lemma div_ceil_lt a b c : 0 < b → (c < div_ceil a b ↔ c * b < a).
Proof. intros Hb. pose proof (div_ceil_le a b c Hb). lia. Qed.

Lemma div_ceil_ge a b : 0 < b → a ≤ div_ceil a b * b.
Proof. intros Hb. by apply div_ceil_le. Qed.

Lemma div_ceil_nonneg a b : 0 < b → 0 ≤ a → 0 ≤ div_ceil a b.
Proof. intros Hb Ha. pose proof (div_ceil_ge a b Hb). nia. Qed.

Lemma div_ceil_mono a a' b : 0 < b → a ≤ a' → div_ceil a b ≤ div_ceil a' b.
Proof. intros Hb Ha. apply div_ceil_le; [done |]. pose proof (div_ceil_ge a' b Hb). lia. Qed.

(** The other spelling of a ceiling in the source: [(n + (d - 1)) / d]. *)
Lemma div_ceil_add a b : 0 < b → (a + (b - 1)) / b = div_ceil a b.
Proof.
  intros Hb. unfold div_ceil.
  pose proof (Z.div_mod a b ltac:(lia)). pose proof (Z.mod_pos_bound a b Hb).
  destruct (Z.eqb_spec (a mod b) 0).
  - symmetry. apply (Z.div_unique _ _ _ (b - 1)); lia.
  - symmetry. apply (Z.div_unique _ _ _ (a mod b - 1)); lia.
Qed.

Lemma div_ceil_exact a b : 0 < b → div_ceil (a * b) b = a.
Proof. intros Hb. unfold div_ceil. rewrite Z.mod_mul, Z.div_mul by lia. done. Qed.

Lemma div_le_div_ceil a b : 0 < b → a / b ≤ div_ceil a b ≤ a / b + 1.
Proof. intros Hb. unfold div_ceil. destruct (a mod b =? 0); lia. Qed.

(** ** Lemmas on maps with default zero *)

Section get0.
Context `{Countable K}.
Implicit Types (m : gmap K Z) (k : K).

Lemma get0_empty k : get0 ∅ k = 0.
Proof. unfold get0. by rewrite lookup_empty. Qed.

Lemma get0_insert m k k' v :
    get0 (<[k := v]> m) k' = if decide (k = k') then v else get0 m k'.
Proof. unfold get0. rewrite lookup_insert. by case_decide. Qed.

Lemma get0_delete m k k' :
    get0 (delete k m) k' = if decide (k = k') then 0 else get0 m k'.
Proof. unfold get0. rewrite lookup_delete. by case_decide. Qed.

Lemma add0_Ok {E} t m k v m' :
    @add0 E _ _ _ t m k v = Ok m' →
    int_min t ≤ get0 m k + v ≤ int_max t ∧ m' = <[k := get0 m k + v]> m.
Proof.
    unfold add0. intros Hadd. destruct (arith t _) eqn:Ha; simplify_eq/=.
    by apply arith_Ok in Ha as [-> ?].
Qed.

Lemma add0_in {E} t m k v :
    int_min t ≤ get0 m k + v ≤ int_max t →
    @add0 E _ _ _ t m k v = Ok (<[k := get0 m k + v]> m).
Proof. intros Hin. unfold add0. by rewrite arith_in. Qed.

Lemma get0_add0 {E} t m k v m' k' :
    @add0 E _ _ _ t m k v = Ok m' →
    get0 m' k' = get0 m k' + (if decide (k = k') then v else 0).
Proof.
    intros [_ ->]%add0_Ok. rewrite get0_insert. case_decide; subst; lia.
Qed.
End get0.

(** ** Lemmas on sums *)

Lemma sumZ_app {A} (f : A → Z) l k : sumZ f (l ++ k) = sumZ f l + sumZ f k.
Proof. induction l; simpl; lia. Qed.

Lemma sumZ_perm {A} (f : A → Z) l k : l ≡ₚ k → sumZ f l = sumZ f k.
Proof. induction 1; simpl; lia. Qed.

Lemma sumZ_ext {A} (f g : A → Z) l : (∀ x, x ∈ l → f x = g x) → sumZ f l = sumZ g l.
Proof.
  induction l as [|x l IH]; intros Hfg; [done|]; simpl.
  rewrite (Hfg x), IH; [done| |]; set_solver.
Qed.

Lemma sumZ_nonneg {A} (f : A → Z) l : (∀ x, x ∈ l → 0 ≤ f x) → 0 ≤ sumZ f l.
Proof.
  induction l as [|x l IH]; intros Hf; [done|]; simpl.
  assert (0 ≤ f x) by (apply Hf; set_solver).
  assert (0 ≤ sumZ f l) by (apply IH; set_solver). lia.
Qed.

Lemma sumZ_le {A} (f g : A → Z) l : (∀ x, x ∈ l → f x ≤ g x) → sumZ f l ≤ sumZ g l.
Proof.
  induction l as [|x l IH]; simpl; [done|]. intros H. pose proof (H x ltac:(left)). pose proof (IH ltac:(intros; apply H; by right)). lia.
Qed.

Lemma sumZ_zero {A} (f : A → Z) l : (∀ x, x ∈ l → f x = 0) → sumZ f l = 0.
Proof.
  induction l as [|x l IH]; intros Hf; [done|]; simpl.
  rewrite (Hf x), IH; [done| |]; set_solver.
Qed.

Lemma sumZ_nonzero {A} (f : A → Z) l : sumZ f l ≠ 0 → ∃ x, x ∈ l ∧ f x ≠ 0.
Proof.
  induction l as [|x l IH]; simpl; [done|]. intros H. destruct (decide (f x = 0)) as [Hx|]; [|by exists x; split; [left|]].
  destruct IH as (y & ? & ?); [lia|]. exists y. split; [by right|done].
Qed.

Lemma sumZ_add {A} (f g : A → Z) l : sumZ (λ x, f x + g x) l = sumZ f l + sumZ g l.
Proof. induction l; simpl; lia. Qed.

Lemma sumZ_le_elem {A} (f : A → Z) l x :
  (∀ y, y ∈ l → 0 ≤ f y) → x ∈ l → f x ≤ sumZ f l.
Proof.
  intros Hf Hx. induction l as [|y l IH]; [set_solver|]; simpl.
  assert (0 ≤ f y) by (apply Hf; set_solver).
  assert (0 ≤ sumZ f l) by (apply sumZ_nonneg; set_solver).
  apply elem_of_cons in Hx as [->|Hx]; [lia|].
  assert (f x ≤ sumZ f l) by (apply IH; set_solver). lia.
Qed.

Lemma sumZ_fmap {A B} (f : B → Z) (g : A → B) l : sumZ f (g <$> l) = sumZ (λ x, f (g x)) l.
Proof. induction l as [|x l IH]; csimpl; [done|]. by rewrite IH. Qed.

(** ** Lemmas on sorting *)

Section StableSort.
Context {A} (R : relation A) `{!RelDecision R}.

Lemma sorted_insert_Permutation x l : sorted_insert R x l ≡ₚ x :: l.
Proof. induction l as [|y l IH]; cbn; [done|]. case_decide; [done|]. rewrite IH. apply Permutation_swap. Qed.
Lemma stable_sort_Permutation l : stable_sort R l ≡ₚ l.
Proof. induction l as [|x l IH]; cbn; [done|]. by rewrite sorted_insert_Permutation, IH. Qed.
Lemma Sorted_sorted_insert `{!Total R} x l : Sorted R l → Sorted R (sorted_insert R x l).
Proof.
  induction 1 as [|y l Hl IH Hy]; cbn; [by repeat constructor|]. case_decide as Hx; [by repeat constructor|].
  constructor; [done|]. destruct (total R x y) as [|Hyx]; [done|].
  destruct Hy as [|z l Hz]; cbn in *; [by constructor|]. case_decide; by constructor.
Qed.
Lemma Sorted_stable_sort `{!Total R} l : Sorted R (stable_sort R l).
Proof. induction l as [|x l IH]; cbn; [constructor|]. by apply Sorted_sorted_insert. Qed.
Lemma StronglySorted_stable_sort `{!Transitive R, !Total R} l : StronglySorted R (stable_sort R l).
Proof. apply Sorted_StronglySorted; [done|]. apply Sorted_stable_sort. Qed.
(** A sorted list is its own sort: equal keys keep their order. *)
Lemma stable_sort_sorted l : Sorted R l → stable_sort R l = l.
Proof.
  induction 1 as [|x l Hl IH Hx]; cbn; [done|]. fold (stable_sort R l). rewrite IH. destruct Hx as [|y l Hx]; cbn; [done|]. by rewrite decide_True.
Qed.
Lemma stable_sort_idemp `{!Total R} l : stable_sort R (stable_sort R l) = stable_sort R l.
Proof. apply stable_sort_sorted, Sorted_stable_sort. Qed.
End StableSort.

Lemma sort_by_key_perm {A} (l : list (Z * A)) : sort_by_key l ≡ₚ l.
Proof. apply stable_sort_Permutation. Qed.

(** ** Lemmas on folds of outcomes *)

Lemma ofold_app {E A B} (f : A → B → outcome E A) a l k :
  ofold f a (l ++ k) = (a' ← ofold f a l; ofold f a' k).
Proof. revert a. induction l as [|x l IH]; intros a; simpl; [done|]. destruct (f a x); simpl; eauto. Qed.

(** Inversion of a successful sequence. *)
Lemma obind_Ok {E A B} (m : outcome E A) (f : A → outcome E B) r : (m ≫= f) = Ok r → ∃ a, m = Ok a ∧ f a = Ok r.
Proof. destruct m; [eauto|discriminate..]. Qed.
Lemma map_err_Ok {E F A} (f : E → F) (m : outcome E A) a : map_err f m = Ok a → m = Ok a.
Proof. by destruct m; intros [=->] || discriminate. Qed.

(** A loop of checks passes only if every check does. *)
Lemma ofold_checks {E B} (f : unit → B → outcome E unit) l : ofold f () l = Ok () → ∀ x, x ∈ l → f () x = Ok ().
Proof.
  induction l as [|y l IH]; [by intros _ ? ?%not_elem_of_nil|]. cbn [ofold]. intros ([] & Hy & Hl)%obind_Ok x [->|Hx]%elem_of_cons; eauto.
Qed.

(** Loop-invariant rule for [ofold]. *)
Lemma ofold_inv {E A B} (I : A → list B → Prop) (f : A → B → outcome E A) a l r :
  I a l →
  (∀ a x k a', I a (x :: k) → f a x = Ok a' → I a' k) →
  ofold f a l = Ok r → I r [].
Proof.
  intros HI Hstep. revert a HI. induction l as [|x l IH]; intros a HI Hr; simplify_eq/=; [done|].
  destruct (f a x) as [a'| |] eqn:Hfx; simplify_eq/=. eauto.
Qed.

(** The loop runs to completion when every iteration preserves [I]. *)
Lemma ofold_total {E A B} (I : A → list B → Prop) (f : A → B → outcome E A) a l :
  I a l →
  (∀ a x k, I a (x :: k) → ∃ a', f a x = Ok a' ∧ I a' k) →
  ∃ r, ofold f a l = Ok r ∧ I r [].
Proof.
  intros HI Hstep. revert a HI. induction l as [|x l IH]; intros a HI; simpl; [eauto|].
  destruct (Hstep a x l HI) as (a' & -> & HI'). simpl. eauto.
Qed.

(** An [i64] running sum whose terms are bounded by [B] does not overflow. *)
Lemma ofold_i64_sum {E A} (step : Z → A → outcome E Z) (t : A → Z) B l a :
  (∀ a x, x ∈ l → step a x = arith I64 (a + t x)) →
  (∀ x, x ∈ l → Z.abs (t x) ≤ B) →
  Z.abs a + B * Z.of_nat (length l) ≤ int_max I64 →
  ofold step a l = Ok (a + sumZ t l).
Proof.
  revert a. induction l as [|x l IH]; intros a Hstep Hb Ha; simpl; [f_equal; lia|].
  assert (Z.abs (t x) ≤ B) by (apply Hb; set_solver). cbn [length] in Ha.
  assert (0 ≤ B * Z.of_nat (length l)) by nia.
  rewrite Hstep by set_solver. rewrite arith_in by (unfold int_min, int_max in *; lia). simpl.
  rewrite IH; [f_equal; lia|set_solver|set_solver|lia].
Qed.

(** The same with a bound on the sum of the absolute terms. *)
Lemma ofold_i64_sum_abs {E A} (t : A → Z) l a :
  Z.abs a + sumZ (λ x, Z.abs (t x)) l ≤ int_max I64 →
  ofold (λ a x, @arith E I64 (a + t x)) a l = Ok (a + sumZ t l).
Proof.
  revert a. induction l as [|x l IH]; intros a Ha; cbn [ofold sumZ] in *; [f_equal; lia|].
  assert (0 ≤ sumZ (λ x, Z.abs (t x)) l) by (apply sumZ_nonneg; intros; lia).
  rewrite arith_in by (unfold int_min, int_max in *; lia). cbn [mbind outcome_bind]. rewrite IH; [f_equal; lia|lia].
Qed.

Lemma sumZ_abs_le {A} (f g : A → Z) l :
  (∀ x, x ∈ l → Z.abs (f x) ≤ g x) → Z.abs (sumZ f l) ≤ sumZ g l.
Proof.
  induction l as [|x l IH]; intros Hfg; simpl; [lia|].
  assert (Z.abs (f x) ≤ g x) by (apply Hfg; set_solver).
  assert (Z.abs (sumZ f l) ≤ sumZ g l) by (apply IH; set_solver). lia.
Qed.

Lemma sumZ_const {A} (c : Z) (l : list A) : sumZ (λ _, c) l = c * Z.of_nat (length l).
Proof. induction l; simpl; lia. Qed.

(** Errors of scaled terms add up. *)
Lemma sumZ_scaled_error {A} (f g e : A → Z) c l :
  (∀ x, x ∈ l → Z.abs (c * f x - g x) ≤ e x) → Z.abs (c * sumZ f l - sumZ g l) ≤ sumZ e l.
Proof.
  induction l as [|x l IH]; intros Hl; simpl; [lia|].
  assert (Z.abs (c * f x - g x) ≤ e x) by (apply Hl; set_solver).
  assert (Z.abs (c * sumZ f l - sumZ g l) ≤ sumZ e l) by (apply IH; set_solver). lia.
Qed.

Lemma Forall_choose {A B} (R : A → B → Prop) l : Forall (λ x, ∃ y, R x y) l → ∃ k, Forall2 R l k.
Proof. induction 1 as [|x l [y Hy] _ [k IH]]; [by exists []|]. exists (y :: k). by constructor. Qed.

Lemma Forall_filter_keep {A} (Q P : A → Prop) `{∀ x, Decision (P x)} l : Forall Q l → Forall Q (filter P l).
Proof. rewrite !Forall_forall. intros Hl x [_ Hx]%list_elem_of_filter. auto. Qed.

Lemma Forall_omap_keep {A B} (Q : A → Prop) (R : B → Prop) (f : A → option B) l :
  (∀ x y, Q x → f x = Some y → R y) → Forall Q l → Forall R (omap f l).
Proof.
  intros Hf. rewrite !Forall_forall. intros H y (x & Hx & Hy)%list_elem_of_omap. eauto.
Qed.

Lemma sumZ_filter_le {A} (f g : A → Z) (P : A → Prop) `{∀ x, Decision (P x)} l :
  (∀ x, x ∈ l → 0 ≤ g x ∧ f x ≤ g x) → sumZ f (filter P l) ≤ sumZ g l.
Proof.
  induction l as [|x l IH]; intros Hl; [rewrite filter_nil; simpl; lia|].
  assert (sumZ f (filter P l) ≤ sumZ g l) by (apply IH; set_solver).
  destruct (Hl x) as [? ?]; [set_solver|]. rewrite filter_cons. case_decide; simpl; lia.
Qed.

Lemma sfold_app {S E A B} (f : A → B → st S E A) a l k s :
  sfold f a (l ++ k) s = (sfold f a l ≫= λ a', sfold f a' k) s.
Proof.
  revert a s. induction l as [|x l IH]; intros a s; simpl; [done|].
  unfold mbind, st_bind in *. destruct (f a x s); simpl; auto.
Qed.

Lemma filter_ext_in {A} (P Q : A → Prop) `{∀ x, Decision (P x), ∀ x, Decision (Q x)} (l : list A) :
  (∀ x, x ∈ l → (P x ↔ Q x)) → filter P l = filter Q l.
Proof.
  induction l as [|x l IH]; intros Hl; [by rewrite !filter_nil|].
  rewrite !filter_cons, IH by set_solver.
  destruct (Hl x) as [H1 H2]; [set_solver|]. destruct (decide (P x)), (decide (Q x)); tauto.
Qed.

(** ** Sums over the values of a map *)

Definition msum `{Countable K} {A} (f : A → Z) (m : gmap K A) : Z := sumZ (λ e, f e.2) (map_to_list m).

Section msum.
Context `{Countable K} {A : Type}.
Implicit Types (f : A → Z) (m : gmap K A).

Lemma msum_empty f : msum f (∅ : gmap K A) = 0.
Proof. unfold msum. by rewrite map_to_list_empty. Qed.

Lemma msum_insert f m k a : m !! k = None → msum f (<[k := a]> m) = f a + msum f m.
Proof. intros Hk. unfold msum. by rewrite (sumZ_perm _ _ _ (map_to_list_insert m k a Hk)). Qed.

Lemma msum_delete f m k a : m !! k = Some a → msum f m = f a + msum f (delete k m).
Proof.
    intros Hk. rewrite <- (insert_delete_id m k a Hk) at 1. apply msum_insert. apply lookup_delete_eq.
Qed.

  (** Replacing a value. *)
Lemma msum_update f m k a a' :
    m !! k = Some a → msum f (<[k := a']> m) = msum f m + (f a' - f a).
Proof.
    intros Hk. rewrite <- insert_delete_eq, msum_insert by apply lookup_delete_eq.
    rewrite (msum_delete f m k a Hk). lia.
Qed.

Lemma msum_perm f m l : l ≡ₚ map_to_list m → sumZ (λ e, f e.2) l = msum f m.
Proof. intros Hl. by apply sumZ_perm. Qed.

Lemma msum_fmap {B} (f : B → Z) (g : A → B) m : msum f (g <$> m) = msum (λ a, f (g a)) m.
Proof. unfold msum. rewrite map_to_list_fmap, sumZ_fmap. done. Qed.

Lemma msum_add f g m : msum (λ a, f a + g a) m = msum f m + msum g m.
Proof. apply sumZ_add. Qed.

Lemma msum_scaled_error f g c e m :
    (∀ k a, m !! k = Some a → Z.abs (c * f a - g a) ≤ e) →
    Z.abs (c * msum f m - msum g m) ≤ e * Z.of_nat (size m).
Proof.
    intros Hm. unfold msum. rewrite <- length_map_to_list, <- sumZ_const.
    apply sumZ_scaled_error. intros [k a] Hin%elem_of_map_to_list. by apply (Hm k).
Qed.

Lemma msum_mul c f m : msum (λ a, c * f a) m = c * msum f m.
Proof. unfold msum. induction (map_to_list m) as [|x l IH]; cbn [sumZ]; lia. Qed.

Lemma msum_ext f g m : (∀ k a, m !! k = Some a → f a = g a) → msum f m = msum g m.
Proof.
    intros Hfg. apply sumZ_ext. intros [k a] Hin%elem_of_map_to_list. by eapply Hfg.
Qed.

Lemma msum_abs_le f g m :
    (∀ k a, m !! k = Some a → Z.abs (f a) ≤ g a) → Z.abs (msum f m) ≤ msum g m.
Proof. intros Hfg. apply sumZ_abs_le. intros [k a] Hin%elem_of_map_to_list. by eapply Hfg. Qed.

Lemma msum_nonneg f m : (∀ k a, m !! k = Some a → 0 ≤ f a) → 0 ≤ msum f m.
Proof. intros Hf. apply sumZ_nonneg. intros [k a] Hin%elem_of_map_to_list. by eapply Hf. Qed.

Lemma msum_lookup_le f m k a : (∀ k a, m !! k = Some a → 0 ≤ f a) → m !! k = Some a → f a ≤ msum f m.
Proof.
  intros Hf Hk. rewrite (msum_delete f m k a Hk).
  assert (0 ≤ msum f (delete k m)); [|lia]. apply msum_nonneg. intros k' a' [_ Hk']%lookup_delete_Some. eauto.
Qed.
End msum.

(** A sum over the entries of a map that selects one key. *)
Lemma msum_select `{Countable K} {A : Type} (f : A → Z) (m : gmap K A) k :
  sumZ (λ e, if decide (e.1 = k) then f e.2 else 0) (map_to_list m) = from_option f 0 (m !! k).
Proof.
  destruct (m !! k) as [a|] eqn:Hk; simpl.
  - rewrite (sumZ_perm _ _ ((k, a) :: map_to_list (delete k m))).
    + cbn [sumZ fst snd]. rewrite decide_True by done. rewrite sumZ_zero; [lia|].
      intros [k' a'] Hin%elem_of_map_to_list. apply decide_False. simpl. intros ->. by rewrite lookup_delete_eq in Hin.
    + rewrite <- map_to_list_insert by apply lookup_delete_eq. by rewrite insert_delete_id.
  - apply sumZ_zero. intros [k' a'] Hin%elem_of_map_to_list. apply decide_False. simpl. intros ->. congruence.
Qed.

(** Adding to an entry increases the sum of absolute values by at most that. *)
Lemma msum_abs_add `{Countable K} (m : gmap K Z) k q :
  msum Z.abs (<[k := get0 m k + q]> m) ≤ msum Z.abs m + Z.abs q.
Proof.
  unfold get0. destruct (m !! k) as [v|] eqn:Hk; simpl.
  - rewrite (msum_update _ _ _ v) by done. lia.
  - rewrite msum_insert by done. lia.
Qed.

(** ** Stepping through stateful computations *)

Lemma sbind_SOk {S E A B} (m : st S E A) (f : A → st S E B) s s' a :
  m s = SOk s' a → (m ≫= f) s = f a s'.
Proof. unfold mbind, st_bind. by intros ->. Qed.

Lemma sbind_SErr {S E A B} (m : st S E A) (f : A → st S E B) s s' e :
  m s = SErr s' e → (m ≫= f) s = SErr s' e.
Proof. unfold mbind, st_bind. by intros ->. Qed.

Lemma sbind_SOk_inv {S E A B} (m : st S E A) (f : A → st S E B) s s' b :
  (m ≫= f) s = SOk s' b → ∃ s1 a, m s = SOk s1 a ∧ f a s1 = SOk s' b.
Proof. unfold mbind, st_bind. destruct (m s); naive_solver. Qed.

Lemma sget_bind {S E B} (f : S → st S E B) s : (sget ≫= f) s = f s s.
Proof. done. Qed.

Lemma smodify_bind {S E B} (g : S → S) (f : unit → st S E B) s : (smodify g ≫= f) s = f () (g s).
Proof. done. Qed.

Lemma smret_bind {S E A B} (a : A) (f : A → st S E B) s : (mret a ≫= f) s = f a s.
Proof. done. Qed.

Lemma slift_Ok_bind {S E A B} (a : A) (f : A → st S E B) s : (slift (Ok a) ≫= f) s = f a s.
Proof. done. Qed.

Lemma slift_Err_bind {S E A B} (e : E) (f : A → st S E B) s : (slift (Err e) ≫= f) s = SErr s e.
Proof. done. Qed.

(** Reduce the head of a stateful computation that is a primitive. *)
Ltac sstep := repeat first
  [rewrite sget_bind | rewrite smodify_bind | rewrite smret_bind | rewrite slift_Ok_bind | rewrite slift_Err_bind].

#[export] Hint Rewrite @sumZ_app @sumZ_fmap @get0_empty : sybil_rw.
#[export] Hint Resolve div_ceil_nonneg wrap_range arith_not_Err : sybil.

(** ** Sequences that succeed *)

Lemma reject_then {E A} b (e : E) (m : outcome E A) r : (reject_if b e;; m) = Ok r ↔ b = false ∧ m = Ok r.
Proof. unfold reject_if. destruct b; cbn; naive_solver. Qed.
Lemma reject_last {E} b (e : E) : reject_if b e = Ok () ↔ b = false.
Proof. destruct b; naive_solver. Qed.
Lemma Ok_then {E A C} (a : A) (f : A → outcome E C) : (x ← Ok a; f x) = f a.
Proof. done. Qed.
Lemma ok_or_then {E A C} (o : option A) (e : E) (f : A → outcome E C) r : (x ← ok_or o e; f x) = Ok r ↔ ∃ x, o = Some x ∧ f x = Ok r.
Proof. destruct o; cbn; naive_solver. Qed.
Lemma unit_then {E C} (m : outcome E unit) (k : outcome E C) r : (m;; k) = Ok r ↔ m = Ok () ∧ k = Ok r.
Proof. destruct m as [[]| |]; cbn; naive_solver. Qed.
Lemma map_err_const_Ok {E E' A} (e : E') (m : outcome E A) x : map_err (λ _, e) m = Ok x ↔ m = Ok x.
Proof. destruct m; cbn; split; congruence. Qed.
Lemma slift_Ok {S E A} (m : outcome E A) (s s' : S) a : slift m s = SOk s' a → s' = s ∧ m = Ok a.
Proof. unfold slift. destruct m; naive_solver. Qed.
Lemma slift_bind {S E A C} (m : outcome E A) (f : A → st S E C) s s' c : (slift m ≫= f) s = SOk s' c → ∃ a, m = Ok a ∧ f a s = SOk s' c.
Proof. intros (s1 & a & [-> H]%slift_Ok & Hf)%sbind_SOk_inv. by exists a. Qed.
Lemma first_then {E A C} (m : outcome E A) (k : outcome E C) r : (m;; k) = Ok r ↔ (∃ a, m = Ok a) ∧ k = Ok r.
Proof. destruct m; cbn; [|naive_solver..]. split; [intros H; split; [by eexists|done]|by intros [_ ?]]. Qed.
Lemma map_err_Ok_iff {E F A} (f : E → F) (m : outcome E A) a : map_err f m = Ok a ↔ m = Ok a.
Proof. destruct m; cbn; split; congruence. Qed.
