(* ===== verification/Types.v ===== *)
(** * Types: fixed-point money and quantities

    Models [crates/matching-engine/src/types.rs]: nanodollar prices ([Nanos]),
    share quantities ([Qty]), market identifiers, the floor/ceiling notional
    helpers with their checked variants, and [ceil_mul_ratio], the scaling rule
    for reservations.  [Nanos], [Qty] and [MarketId] are newtypes over unsigned
    integers in the source; here they are their [.0] field. *)
From S2P Require Import Prelude.

Definition NANOS_PER_DOLLAR : Z := 1000000000.
Definition SHARE_SCALE : Z := 1000.
Definition MAX_ORDER_QTY : Z := 1000000 * SHARE_SCALE.

(** ** Newtypes *)
Abbreviation Nanos := Z (only parsing).
Abbreviation Qty := Z (only parsing).
Abbreviation MarketId := Z (only parsing).

Definition Nanos_saturating_add (a b : Nanos) : Nanos := sat U64 (a + b).
Definition Nanos_checked_add (a b : Nanos) : option Nanos := chk U64 (a + b).
Definition Nanos_saturating_sub (a b : Nanos) : Nanos := sat U64 (a - b).
Definition Nanos_checked_sub (a b : Nanos) : option Nanos := chk U64 (a - b).
Definition Nanos_add {E} (a b : Nanos) : outcome E Nanos := arith U64 (a + b).
Definition Nanos_sub {E} (a b : Nanos) : outcome E Nanos := arith U64 (a - b).

Definition MarketId_NONE : MarketId := int_max U32.
Definition is_none (m : MarketId) : bool := m =? MarketId_NONE.

Inductive OrderDirection := BuyYes | SellYes | BuyNo | SellNo.

Definition OrderDirection_to_byte (d : OrderDirection) : Z :=
  match d with BuyYes => 0 | SellYes => 1 | BuyNo => 2 | SellNo => 3 end.

#[global] Instance OrderDirection_eq_dec : EqDecision OrderDirection.
Proof. solve_decision. Defined.

(** ** Notional helpers *)

Definition shares_to_qty (shares : Z) : Qty := sat U64 (shares * SHARE_SCALE).

(** [(price as u128 * qty as u128 / SHARE_SCALE) as u64]; the [u128] product of
    two [u64]s never overflows, the final cast may truncate. *)
Definition notional_nanos (price : Nanos) (qty : Qty) : Nanos :=
  wrap U64 (price * qty / SHARE_SCALE).

Definition checked_notional_nanos (price : Nanos) (qty : Qty) : option Nanos :=
  numerator ← chk I128 (price * qty);
  scaled ← chk I128 (numerator `quot` SHARE_SCALE);
  chk U64 scaled.

Definition checked_notional_i64 (price : Nanos) (qty : Qty) : option Z :=
  nanos ← checked_notional_nanos price qty; chk I64 nanos.

Definition notional_nanos_ceil (price : Nanos) (qty : Qty) : Nanos :=
  wrap U64 (div_ceil (price * qty) SHARE_SCALE).

Definition checked_notional_nanos_ceil (price : Nanos) (qty : Qty) : option Nanos :=
  numerator ← chk I128 (price * qty);
  sum ← chk I128 (numerator + (SHARE_SCALE - 1));
  chk U64 (sum `quot` SHARE_SCALE).

Definition checked_notional_ceil_i64 (price : Nanos) (qty : Qty) : option Z :=
  nanos ← checked_notional_nanos_ceil price qty; chk I64 nanos.

Definition ceil_mul_ratio {E} (value numer denom : Z) : outcome E Z :=
  assert_ (negb (denom =? 0));;
  Ok (wrap U64 (div_ceil (value * numer) denom)).

Definition signed_notional_nanos {E} (price : Nanos) (qty : Z) : outcome E Z :=
  let abs := wrap I64 (notional_nanos price (Z.abs qty)) in
  if qty <? 0 then arith I64 (- abs) else Ok abs.

Definition checked_signed_notional_nanos (price : Nanos) (qty : Z) : option Z :=
  abs ← checked_notional_i64 price (Z.abs qty);
  if qty <? 0 then chk I64 (- abs) else Some abs.

Definition signed_price_delta_notional {E} (price_delta : Z) (qty : Qty) : outcome E Z :=
  let abs := wrap I64 (Z.abs price_delta * qty / SHARE_SCALE) in
  if price_delta <? 0 then arith I64 (- abs) else Ok abs.

Definition checked_signed_price_delta_notional (price_delta : Z) (qty : Qty) : option Z :=
  abs ← checked_notional_i64 (Z.abs price_delta) qty;
  if price_delta <? 0 then chk I64 (- abs) else Some abs.

(** ** Lemmas *)

Definition u64 (z : Z) : Prop := 0 ≤ z ≤ int_max U64.
Definition i64 (z : Z) : Prop := int_min I64 ≤ z ≤ int_max I64.
#[global] Instance u64_dec z : Decision (u64 z) := ltac:(unfold u64; apply _).
#[global] Instance i64_dec z : Decision (i64 z) := ltac:(unfold i64; apply _).

(** Linear arithmetic with the protocol constants and type bounds exposed. *)
Ltac mlia :=
  unfold fits, u64, i64, MAX_ORDER_QTY, SHARE_SCALE, NANOS_PER_DOLLAR, int_min, int_max in *; first [lia | Z.div_mod_to_equations; lia].
Ltac mnia :=
  unfold fits, u64, i64, MAX_ORDER_QTY, SHARE_SCALE, NANOS_PER_DOLLAR, int_min, int_max in *; nia.

Lemma mul_u64_bound a b : u64 a → u64 b → 0 ≤ a * b ≤ int_max U64 * int_max U64.
Proof. unfold u64. intros. split; [nia|]. apply Z.mul_le_mono_nonneg; lia. Qed.

(** The product that the [i128] intermediates reject exceeds [u64] after
    scaling anyway, so the checked floor is exact whenever it fits. *)
Lemma checked_notional_nanos_iff p q r :
  u64 p → u64 q →
  (checked_notional_nanos p q = Some r ↔
   r = p * q / SHARE_SCALE ∧ p * q / SHARE_SCALE ≤ int_max U64).
Proof.
  intros Hp Hq. pose proof (mul_u64_bound p q Hp Hq) as Hb. unfold checked_notional_nanos.
  set (n := p * q) in *.
  destruct (chk I128 n) as [n'|] eqn:Hn; simpl.
  - apply chk_Some in Hn as [-> Hn]. rewrite Z.quot_div_nonneg by mlia.
    rewrite chk_in by mlia. simpl. rewrite chk_Some. mlia.
  - apply chk_None in Hn. split; [done|]. mlia.
Qed.

Lemma checked_notional_i64_iff p q r :
  u64 p → u64 q →
  (checked_notional_i64 p q = Some r ↔
   r = p * q / SHARE_SCALE ∧ p * q / SHARE_SCALE ≤ int_max I64).
Proof.
  intros Hp Hq. pose proof (mul_u64_bound p q Hp Hq) as Hb. unfold checked_notional_i64.
  destruct (checked_notional_nanos p q) as [n|] eqn:Hn; simpl.
  - apply checked_notional_nanos_iff in Hn as [-> Hn]; [|done..]. rewrite chk_Some. mlia.
  - split; [done|]. intros [-> Hle].
    assert (checked_notional_nanos p q = Some (p * q / SHARE_SCALE)); [|congruence].
    apply checked_notional_nanos_iff; [done..|]. mlia.
Qed.

Lemma checked_notional_nanos_ceil_iff p q r :
  u64 p → u64 q →
  (checked_notional_nanos_ceil p q = Some r ↔
   r = div_ceil (p * q) SHARE_SCALE ∧ div_ceil (p * q) SHARE_SCALE ≤ int_max U64).
Proof.
  intros Hp Hq. pose proof (mul_u64_bound p q Hp Hq) as Hb. unfold checked_notional_nanos_ceil.
  set (n := p * q) in *. rewrite <- (div_ceil_add n SHARE_SCALE) by done.
  destruct (chk I128 n) as [n'|] eqn:Hn; simpl.
  - apply chk_Some in Hn as [-> Hn].
    destruct (chk I128 _) as [s|] eqn:Hs; simpl.
    + apply chk_Some in Hs as [-> Hs]. rewrite Z.quot_div_nonneg by mlia. rewrite chk_Some. mlia.
    + apply chk_None in Hs. split; [done|]. mlia.
  - apply chk_None in Hn. split; [done|]. mlia.
Qed.

Lemma checked_notional_ceil_i64_iff p q r :
  u64 p → u64 q →
  (checked_notional_ceil_i64 p q = Some r ↔
   r = div_ceil (p * q) SHARE_SCALE ∧ div_ceil (p * q) SHARE_SCALE ≤ int_max I64).
Proof.
  intros Hp Hq. pose proof (mul_u64_bound p q Hp Hq) as Hb. unfold checked_notional_ceil_i64.
  assert (0 ≤ div_ceil (p * q) SHARE_SCALE) by (apply div_ceil_nonneg; [done|lia]).
  destruct (checked_notional_nanos_ceil p q) as [n|] eqn:Hn; simpl.
  - apply checked_notional_nanos_ceil_iff in Hn as [-> Hn]; [|done..]. rewrite chk_Some. mlia.
  - split; [done|]. intros [-> Hle].
    assert (checked_notional_nanos_ceil p q = Some (div_ceil (p * q) SHARE_SCALE)); [|congruence].
    apply checked_notional_nanos_ceil_iff; [done..|]. mlia.
Qed.

(** The unchecked helpers agree with the checked ones wherever these succeed. *)
Lemma notional_nanos_checked p q r :
  u64 p → u64 q → checked_notional_nanos p q = Some r → notional_nanos p q = r.
Proof.
  intros Hp Hq [-> Hle]%checked_notional_nanos_iff; [|done..].
  pose proof (mul_u64_bound p q Hp Hq). unfold notional_nanos. apply wrap_in. mlia.
Qed.

Lemma notional_nanos_ceil_checked p q r :
  u64 p → u64 q → checked_notional_nanos_ceil p q = Some r → notional_nanos_ceil p q = r.
Proof.
  intros Hp Hq [-> Hle]%checked_notional_nanos_ceil_iff; [|done..].
  pose proof (mul_u64_bound p q Hp Hq). unfold notional_nanos_ceil. apply wrap_in.
  split; [|done]. apply div_ceil_nonneg; [done|lia].
Qed.

(** Inside the admissible order range nothing overflows. *)
Lemma admissible_notional p q :
  0 ≤ p ≤ NANOS_PER_DOLLAR → 0 ≤ q ≤ MAX_ORDER_QTY →
  0 ≤ p * q / SHARE_SCALE ≤ div_ceil (p * q) SHARE_SCALE ∧
  div_ceil (p * q) SHARE_SCALE ≤ 1000000000000000.
Proof.
  intros Hp Hq. assert (0 ≤ p * q ≤ 1000000000000000000) by mnia.
  split; [|apply div_ceil_le; mlia].
  split; [apply Z.div_pos; mlia | apply div_le_div_ceil; done].
Qed.

Lemma checked_notional_admissible p q :
  0 ≤ p ≤ NANOS_PER_DOLLAR → 0 ≤ q ≤ MAX_ORDER_QTY →
  checked_notional_i64 p q = Some (p * q / SHARE_SCALE).
Proof.
  intros Hp Hq. pose proof (admissible_notional p q Hp Hq).
  apply checked_notional_i64_iff; [mlia..|]. split; [done|mlia].
Qed.

Lemma ceil_mul_ratio_Ok {E} v n d r :
  @ceil_mul_ratio E v n d = Ok r → d ≠ 0 ∧ r = wrap U64 (div_ceil (v * n) d).
Proof. unfold ceil_mul_ratio. destruct (Z.eqb_spec d 0); naive_solver. Qed.

(** Scaling by a fraction [n/d ≤ 1]: exact ceiling, between zero and [v]. *)
Lemma ceil_mul_ratio_frac {E} v n d :
  u64 v → 0 ≤ n ≤ d → 0 < d →
  @ceil_mul_ratio E v n d = Ok (div_ceil (v * n) d) ∧ 0 ≤ div_ceil (v * n) d ≤ v.
Proof.
  intros Hv Hn Hd.
  assert (0 ≤ div_ceil (v * n) d ≤ v) as Hr.
  { split; [apply div_ceil_nonneg; [done|mnia] | apply div_ceil_le; [done|mnia]]. }
  split; [|done]. unfold ceil_mul_ratio. destruct (Z.eqb_spec d 0); [lia|]. simpl.
  rewrite wrap_in; [done|]. mlia.
Qed.

(** A reservation that covers the worst case at quantity [d] still covers it
    after being scaled down to the remaining quantity [n]. *)
Lemma ceil_mul_ratio_covers v p n d :
  0 ≤ p → 0 ≤ n → 0 < d →
  div_ceil (p * d) SHARE_SCALE ≤ v →
  div_ceil (p * n) SHARE_SCALE ≤ div_ceil (v * n) d.
Proof.
  intros Hp Hn Hd Hv. apply div_ceil_le; [done|].
  apply div_ceil_le in Hv; [|done]. pose proof (div_ceil_ge (v * n) d Hd) as Hge.
  assert (p * n * d ≤ v * n * SHARE_SCALE) by nia.
  assert (p * n * d ≤ div_ceil (v * n) d * SHARE_SCALE * d) by (unfold SHARE_SCALE in *; nia).
  nia.
Qed.

#[export] Hint Resolve mul_u64_bound : sybil.
