(* ===== verification/Order.v ===== *)
(** * Order: payoff-vector orders and fills

    Models [crates/matching-engine/src/order.rs]: the [Order] and [Fill]
    structs, the admission shape check [validate_binary_one_hot], expiry,
    welfare, satisfaction, marginal payoffs and [derive_order_direction]; and
    [crates/matching-engine/src/order_builder.rs]'s binary constructors.
    Fixed-size arrays are lists whose length is part of [order_wf]. *)
From S2P Require Import Prelude Types.
#[local] Open Scope string_scope.
#[local] Open Scope list_scope.
#[local] Open Scope Z_scope.

Definition MAX_MARKETS_PER_ORDER : nat := 5.
Definition MAX_STATES : nat := 32.

Inductive ConditionDir := Above | Below.

Record PriceCondition := mkPriceCondition {
  pc_market : MarketId;
  pc_threshold : Nanos;
  pc_direction : ConditionDir;
}.

Record Order := mkOrder {
  ord_id : Z;
  ord_markets : list MarketId;
  ord_num_markets : Z;
  ord_payoffs : list Z;
  ord_num_states : Z;
  ord_limit_price : Nanos;
  ord_max_fill : Qty;
  ord_condition : option PriceCondition;
  ord_expires_at_block : option Z;
}.

#[global] Instance ConditionDir_eq_dec : EqDecision ConditionDir.
Proof. solve_decision. Defined.
#[global] Instance PriceCondition_eq_dec : EqDecision PriceCondition.
Proof. solve_decision. Defined.
#[global] Instance Order_eq_dec : EqDecision Order.
Proof. solve_decision. Defined.

Definition Order_new (id : Z) : Order := {|
  ord_id := id;
  ord_markets := replicate MAX_MARKETS_PER_ORDER MarketId_NONE;
  ord_num_markets := 0;
  ord_payoffs := replicate MAX_STATES 0;
  ord_num_states := 0;
  ord_limit_price := 0;
  ord_max_fill := 0;
  ord_condition := None;
  ord_expires_at_block := None;
|}.

(** [order.max_fill = q]. *)
Definition set_max_fill (q : Qty) (o : Order) : Order := {|
  ord_id := ord_id o; ord_markets := ord_markets o;
  ord_num_markets := ord_num_markets o; ord_payoffs := ord_payoffs o;
  ord_num_states := ord_num_states o; ord_limit_price := ord_limit_price o;
  ord_max_fill := q; ord_condition := ord_condition o;
  ord_expires_at_block := ord_expires_at_block o;
|}.

Definition num_markets (o : Order) : nat := Z.to_nat (ord_num_markets o).
Definition num_states (o : Order) : nat := Z.to_nat (ord_num_states o).

Definition effective_expires_at_block (o : Order) (created_at system_ttl_blocks : Z) : Z :=
  let system_expiry := sat U64 (created_at + system_ttl_blocks) in
  Z.min (default system_expiry (ord_expires_at_block o)) system_expiry.

Definition is_expired_at_block (o : Order) (current_height created_at ttl : Z) : bool :=
  effective_expires_at_block o created_at ttl <? current_height.

Definition is_conditional (o : Order) : bool := bool_decide (is_Some (ord_condition o)).

Definition active_markets (o : Order) : list MarketId := take (num_markets o) (ord_markets o).

Definition is_seller {E} (o : Order) : outcome E bool :=
  active ← slice_to (ord_payoffs o) (num_states o);
  Ok (existsb (λ p, p <? 0) active).

Definition welfare_contribution {E} (o : Order) (fill_price : Nanos) (fill_qty : Qty) : outcome E Z :=
  if fill_qty =? 0 then Ok 0 else
  seller ← is_seller o;
  surplus_per_unit ←
    (if (seller : bool) then arith I64 (wrap I64 fill_price - wrap I64 (ord_limit_price o))
     else arith I64 (wrap I64 (ord_limit_price o) - wrap I64 fill_price));
  signed_price_delta_notional surplus_per_unit fill_qty.

Definition gross_welfare_contribution {E} (o : Order) (fill_qty : Qty) : outcome E Z :=
  let value := wrap I64 (notional_nanos (ord_limit_price o) fill_qty) in
  seller ← is_seller o;
  if (seller : bool) then arith I64 (- value) else Ok value.

Definition is_satisfied_at_price {E} (o : Order) (price : Nanos) : outcome E bool :=
  seller ← is_seller o;
  Ok (if (seller : bool) then ord_limit_price o <=? price else price <=? ord_limit_price o).

Definition validate_binary_one_hot (o : Order) : outcome string unit :=
  if negb (ord_num_markets o =? 1) then Err "orders must span exactly one market" else
  if negb (ord_num_states o =? 2) then Err "orders must have exactly two binary states" else
  m0 ← idx (ord_markets o) 0;
  if is_none m0 then Err "orders must reference a concrete market" else
  if existsb (λ m, negb (is_none m)) (drop 1 (ord_markets o))
  then Err "inactive market entries must be NONE" else
  if NANOS_PER_DOLLAR <? ord_limit_price o then Err "limit price exceeds NANOS_PER_DOLLAR" else
  if MAX_ORDER_QTY <? ord_max_fill o then Err "order quantity exceeds MAX_ORDER_QTY" else
  active ← slice_to (ord_payoffs o) 2;
  let non_zero := length (filter (λ p, p ≠ 0) active) in
  if negb (non_zero =? 1)%nat then Err "orders must have exactly one non-zero payoff" else
  if negb (existsb (λ p, (p =? 1) || (p =? -1)) active)
  then Err "non-zero payoff must be +1 or -1" else
  if existsb (λ p, negb (p =? 0)) (drop 2 (ord_payoffs o))
  then Err "inactive payoff entries must be zero" else
  Ok ().

(** The outcome of market [m_idx] in atomic state [s]: [(s / stride) % 2] with
    [stride = 1 << m_idx]. *)
Definition state_outcome (m_idx s : nat) : nat := Nat.modulo (Nat.div s (2 ^ m_idx)) 2.

(** The sums over the states where market [m_idx] resolves to outcome 0 and to
    outcome 1; at most 255 [i8] terms, so the [i64] additions cannot overflow. *)
Definition payoff_sums {E} (o : Order) (m_idx : nat) : outcome E (Z * Z) :=
  ofold (λ '(sum_yes, sum_no) s,
    p ← idx (ord_payoffs o) s;
    if (state_outcome m_idx s =? 0)%nat then Ok (sum_yes + p, sum_no)
    else Ok (sum_yes, sum_no + p)) (0, 0) (seq 0 (num_states o)).

Definition marginal_payoffs_i64 {E} (o : Order) : outcome E (list (MarketId * Z)) :=
  ofold (λ result m_idx,
    market ← idx (ord_markets o) m_idx;
    if is_none market then Ok result else
    marginal ← ofold (λ marginal s,
      payoff ← idx (ord_payoffs o) s;
      if (state_outcome m_idx s =? 0)%nat then Ok (marginal + payoff)
      else Ok (marginal - payoff)) 0 (seq 0 (num_states o));
    let other_states := Z.of_nat (Nat.div (num_states o) 2) in
    if 0 <? other_states then
      let normalized := marginal `quot` other_states in
      if negb (normalized =? 0) then Ok (result ++ [(market, normalized)]) else Ok result
    else Ok result) [] (seq 0 (num_markets o)).

Definition derive_order_direction {E} (o : Order) (primary_market : MarketId)
    : outcome E OrderDirection :=
  let m_idx := default 0%nat (fst <$> list_find (λ m, m = primary_market) (active_markets o)) in
  '(sum_yes, sum_no) ← payoff_sums o m_idx;
  Ok (if Z.abs sum_no <=? Z.abs sum_yes then
        if 0 <=? sum_yes then BuyYes else SellYes
      else if 0 <=? sum_no then BuyNo else SellNo).

Record Fill := mkFill {
  fill_order_id : Z;
  fill_qty : Qty;
  fill_price : Nanos;
  fill_account_id : Z;
}.

#[global] Instance Fill_eq_dec : EqDecision Fill.
Proof. solve_decision. Defined.

Definition Fill_new (order_id : Z) (qty : Qty) (price : Nanos) : Fill := mkFill order_id qty price 0.

Definition Fill_welfare {E} (f : Fill) (o : Order) : outcome E Z :=
  welfare_contribution o (fill_price f) (fill_qty f).

(** ** Well-formed values of the Rust types *)

Record order_wf (o : Order) : Prop := {
  wf_markets : length (ord_markets o) = MAX_MARKETS_PER_ORDER;
  wf_payoffs : length (ord_payoffs o) = MAX_STATES;
  wf_payoffs_i8 : Forall (λ p, int_min I8 ≤ p ≤ int_max I8) (ord_payoffs o);
  wf_num_markets : 0 ≤ ord_num_markets o ≤ int_max U8;
  wf_num_states : 0 ≤ ord_num_states o ≤ int_max U8;
  wf_limit : u64 (ord_limit_price o);
  wf_max_fill : u64 (ord_max_fill o);
}.

Definition fill_wf (f : Fill) : Prop := u64 (fill_qty f) ∧ u64 (fill_price f).

(** ** The admitted shape *)

Definition is_sell (d : OrderDirection) : bool :=
  match d with SellYes | SellNo => true | BuyYes | BuyNo => false end.

(** The outcome a direction trades: 0 is YES, 1 is NO. *)
Definition dir_outcome (d : OrderDirection) : Z :=
  match d with BuyYes | SellYes => 0 | BuyNo | SellNo => 1 end.

Definition dir_sign (d : OrderDirection) : Z := if is_sell d then -1 else 1.

Definition dir_payoffs (d : OrderDirection) : list Z :=
  match d with
  | BuyYes => [1; 0] | SellYes => [-1; 0]
  | BuyNo => [0; 1] | SellNo => [0; -1]
  end.

(** A single-market order on [m] in direction [d], within the price and
    quantity limits of public admission. *)
Record one_hot (o : Order) (m : MarketId) (d : OrderDirection) : Prop := {
  oh_num_markets : ord_num_markets o = 1;
  oh_num_states : ord_num_states o = 2;
  oh_concrete : m ≠ MarketId_NONE;
  oh_markets : ord_markets o = m :: replicate 4 MarketId_NONE;
  oh_payoffs : ord_payoffs o = dir_payoffs d ++ replicate 30 0;
  oh_limit : ord_limit_price o ≤ NANOS_PER_DOLLAR;
  oh_max_fill : ord_max_fill o ≤ MAX_ORDER_QTY;
}.

Lemma existsb_false_Forall {A} (f : A → bool) l :
  existsb f l = false ↔ Forall (λ x, f x = false) l.
Proof.
  induction l as [|x l IH]; simpl; [by split|].
  rewrite orb_false_iff, Forall_cons, IH. done.
Qed.

Lemma Forall_eq_replicate {A} (x : A) l : Forall (x =.) l → l = replicate (length l) x.
Proof. intros H. by apply replicate_as_Forall_2 in H || (induction H; simpl; congruence). Qed.

Lemma rest_none l :
  existsb (λ m, negb (is_none m)) l = false ↔ l = replicate (length l) MarketId_NONE.
Proof.
  rewrite existsb_false_Forall. unfold is_none. split.
  - intros H. apply Forall_eq_replicate. eapply Forall_impl; [done|]. simpl. intros x Hx.
    bdestruct; naive_solver.
  - intros ->. apply Forall_replicate. by rewrite Z.eqb_refl.
Qed.

Lemma rest_zero l : existsb (λ p, negb (p =? 0)) l = false ↔ l = replicate (length l) 0.
Proof.
  rewrite existsb_false_Forall. split.
  - intros H. apply Forall_eq_replicate. eapply Forall_impl; [done|]. simpl. intros x Hx.
    bdestruct; naive_solver.
  - intros ->. by apply Forall_replicate.
Qed.

(** The two active payoffs that pass the one-hot tests are those of a direction. *)
Lemma active_one_hot y n :
  (length (filter (λ p : Z, p ≠ 0%Z) [y; n]) =? 1)%nat = true →
  existsb (λ p, (p =? 1) || (p =? -1)) [y; n] = true →
  ∃ d, [y; n] = dir_payoffs d.
Proof.
  rewrite !filter_cons, filter_nil. simpl. rewrite orb_false_r. intros H1 H2.
  destruct (decide (y ≠ 0)), (decide (n ≠ 0)); simplify_eq/=.
  - assert (n = 0) as -> by lia. assert (y = 1 ∨ y = -1) as [->| ->] by lia;
      [by exists BuyYes | by exists SellYes].
  - assert (y = 0) as -> by lia. assert (n = 1 ∨ n = -1) as [->| ->] by lia;
      [by exists BuyNo | by exists SellNo].
Qed.

Lemma validate_one_hot o m d : one_hot o m d → validate_binary_one_hot o = Ok ().
Proof.
  intros [Hnm Hns Hm Hms Hps Hl Hq]. unfold validate_binary_one_hot.
  rewrite Hnm, Hns, Hms, Hps. simpl. unfold is_none. simpl.
  rewrite (proj2 (Z.eqb_neq m MarketId_NONE) Hm).
  rewrite (proj2 (Z.ltb_ge _ _) Hl), (proj2 (Z.ltb_ge _ _) Hq).
  by destruct d.
Qed.

Lemma one_hot_validate o :
  order_wf o → validate_binary_one_hot o = Ok () → ∃ m d, one_hot o m d.
Proof.
  intros [Hlm Hlp _ _ _ _ _]. unfold validate_binary_one_hot.
  destruct (Z.eqb_spec (ord_num_markets o) 1) as [Hnm|]; [|done].
  destruct (Z.eqb_spec (ord_num_states o) 2) as [Hns|]; [|done]. simpl.
  destruct (ord_markets o) as [|m ms] eqn:Hms; [done|]. simpl.
  destruct (is_none m) eqn:Hm; [done|].
  destruct (existsb _ (drop 0 ms)) eqn:Hrest; [done|]. rewrite drop_0 in Hrest.
  destruct (Z.ltb_spec NANOS_PER_DOLLAR (ord_limit_price o)); [done|].
  destruct (Z.ltb_spec MAX_ORDER_QTY (ord_max_fill o)); [done|].
  destruct (ord_payoffs o) as [|y [|n ps]] eqn:Hps; [done..|].
  unfold slice_to. rewrite decide_True by (simpl; lia). change (take 2 (y :: n :: ps)) with [y; n]. cbn [mbind outcome_bind].
  destruct (Nat.eqb _ 1) eqn:Hcnt; [|done].
  destruct (existsb _ [y; n]) eqn:Hunit; [|done].
  change (drop 2 (y :: n :: ps)) with ps.
  destruct (existsb _ ps) eqn:Hz; [done|]. intros _.
  destruct (active_one_hot y n Hcnt Hunit) as [d Hd].
  apply rest_none in Hrest. apply rest_zero in Hz. simpl in Hlm, Hlp.
  exists m, d. split; [assumption..| | | |assumption|assumption].
  - unfold is_none in Hm. bdestruct; done.
  - rewrite Hms, Hrest. unfold MAX_MARKETS_PER_ORDER in Hlm. by replace (length ms) with 4%nat by lia.
  - rewrite Hps, <- Hd, Hz. unfold MAX_STATES in Hlp. by replace (length ps) with 30%nat by lia.
Qed.

Lemma validate_not_Panic o : order_wf o → validate_binary_one_hot o ≠ Panic.
Proof.
  unfold validate_binary_one_hot, slice_to, idx. intros [Hm Hp _ _ _ _ _].
  rewrite decide_True by (rewrite Hp; unfold MAX_STATES; lia).
  destruct (ord_markets o); [done|]. simpl. repeat case_match; done.
Qed.

Section one_hot.
Context (o : Order) (m : MarketId) (d : OrderDirection) (Hoh : one_hot o m d).

Lemma one_hot_is_seller {E} : @is_seller E o = Ok (is_sell d).
Proof. unfold is_seller, num_states. rewrite (oh_payoffs _ _ _ Hoh), (oh_num_states _ _ _ Hoh). by destruct d. Qed.

Lemma one_hot_active : active_markets o = [m].
Proof.
    unfold active_markets, num_markets. by rewrite (oh_markets _ _ _ Hoh), (oh_num_markets _ _ _ Hoh).
Qed.

Lemma one_hot_direction {E} p : @derive_order_direction E o p = Ok d.
Proof.
    unfold derive_order_direction. rewrite one_hot_active. simpl.
    assert (default 0%nat (fst <$> (if decide (m = p) then Some (0%nat, m) else None)) = 0%nat) as Hidx
      by (by case_decide).
    replace (default 0%nat _) with 0%nat by (by case_decide).
    unfold payoff_sums, num_states. rewrite (oh_payoffs _ _ _ Hoh), (oh_num_states _ _ _ Hoh). by destruct d.
Qed.

Lemma one_hot_marginal {E} :
    @marginal_payoffs_i64 E o =
      Ok [(m, if dir_outcome d =? 0 then dir_sign d else - dir_sign d)].
Proof.
    unfold marginal_payoffs_i64, num_markets, num_states.
    rewrite (oh_payoffs _ _ _ Hoh), (oh_num_states _ _ _ Hoh), (oh_markets _ _ _ Hoh), (oh_num_markets _ _ _ Hoh).
    pose proof (oh_concrete _ _ _ Hoh) as Hm. apply Z.eqb_neq in Hm.
    change (seq 0 (Z.to_nat 1)) with [0%nat]. simpl. unfold is_none. rewrite Hm. by destruct d.
Qed.
End one_hot.

(** The order in direction [d] on market [m]; [Market] proves that the
    constructors of order_builder.rs produce it. *)
Definition binary_order (id : Z) (m : MarketId) (d : OrderDirection) (limit : Nanos) (qty : Qty) : Order := {|
  ord_id := id;
  ord_markets := m :: replicate 4 MarketId_NONE;
  ord_num_markets := 1;
  ord_payoffs := dir_payoffs d ++ replicate 30 0;
  ord_num_states := 2;
  ord_limit_price := limit;
  ord_max_fill := qty;
  ord_condition := None;
  ord_expires_at_block := None;
|}.

Lemma binary_order_wf id m d limit qty : u64 limit → u64 qty → order_wf (binary_order id m d limit qty).
Proof.
  intros Hl Hq. split; cbn [ord_markets ord_payoffs ord_num_markets ord_num_states ord_limit_price
    ord_max_fill binary_order]; [done|by destruct d| |int_lia|int_lia|assumption|assumption].
  apply Forall_app. split; [destruct d; repeat apply Forall_cons_2; try apply Forall_nil_2; int_lia|].
  apply Forall_replicate. int_lia.
Qed.

Lemma binary_order_one_hot id m d limit qty :
  m ≠ MarketId_NONE → limit ≤ NANOS_PER_DOLLAR → qty ≤ MAX_ORDER_QTY →
  one_hot (binary_order id m d limit qty) m d.
Proof. by split. Qed.

(** ** Properties *)

(** [validate_binary_one_hot] accepts exactly the four one-market shapes
    (buy/sell of YES/NO with a unit payoff, unused slots empty, price at most
    one dollar and quantity at most [MAX_ORDER_QTY]), and never panics on a
    value of the Rust type. *)
Theorem validate_binary_one_hot_iff (o : Order) :
  order_wf o →
  (validate_binary_one_hot o = Ok () ↔ ∃ m d, one_hot o m d) ∧
  validate_binary_one_hot o ≠ Panic.
Proof.
  intros Hwf. split.
  - split; [by apply one_hot_validate|]. intros (m & d & Hoh). by eapply validate_one_hot.
  - by apply validate_not_Panic.
Qed.

Lemma validate_binary_one_hot_iff_witness :
  validate_binary_one_hot (binary_order 7 3 SellNo 400000000 5000) = Ok () ∧
  ∃ m d, one_hot (binary_order 7 3 SellNo 400000000 5000) m d.
Proof.
  assert (order_wf (binary_order 7 3 SellNo 400000000 5000)) as Hwf
    by (apply binary_order_wf; vm_compute; split; discriminate).
  split; [reflexivity|].
  apply (proj1 (validate_binary_one_hot_iff _ Hwf)). reflexivity.
Defined.

(** On an admitted order the derived direction, the seller flag and the
    integer marginal payoffs agree: the direction is the one the payoff vector
    encodes whatever primary market is asked for, the seller flag is its sell
    side, and the marginal is [+1]/[-1] on the traded market with NO payoffs
    counted as short YES. *)
Theorem admitted_order_views_agree (o : Order) (p : MarketId) :
  order_wf o → validate_binary_one_hot o = Ok () →
  ∃ m d, active_markets o = [m] ∧
    derive_order_direction (E := unit) o p = Ok d ∧
    is_seller (E := unit) o = Ok (is_sell d) ∧
    take 2 (ord_payoffs o) = dir_payoffs d ∧
    marginal_payoffs_i64 (E := unit) o =
      Ok [(m, match d with BuyYes | SellNo => 1 | SellYes | BuyNo => -1 end)].
Proof.
  intros Hwf (m & d & Hoh)%one_hot_validate; [|done]. exists m, d.
  split_and!; [by eapply one_hot_active | by eapply one_hot_direction | by eapply one_hot_is_seller
    | rewrite (oh_payoffs _ _ _ Hoh); by destruct d
    | rewrite (one_hot_marginal _ _ _ Hoh); by destruct d].
Qed.

Lemma admitted_order_views_agree_witness :
  ∃ m d, active_markets (binary_order 7 3 BuyNo 400000000 5000) = [m] ∧
    derive_order_direction (E := unit) (binary_order 7 3 BuyNo 400000000 5000) 9 = Ok d ∧
    is_seller (E := unit) (binary_order 7 3 BuyNo 400000000 5000) = Ok (is_sell d) ∧
    take 2 (ord_payoffs (binary_order 7 3 BuyNo 400000000 5000)) = dir_payoffs d ∧
    marginal_payoffs_i64 (E := unit) (binary_order 7 3 BuyNo 400000000 5000) =
      Ok [(m, match d with BuyYes | SellNo => 1 | SellYes | BuyNo => -1 end)].
Proof.
  apply (admitted_order_views_agree (binary_order 7 3 BuyNo 400000000 5000) 9); [|reflexivity].
  apply binary_order_wf; vm_compute; split; discriminate.
Defined.
