(* ===== verification/EngineSettlement.v ===== *)
(** * EngineSettlement: deltas of fills and complete-set minting

    Models [crates/matching-engine/src/settlement.rs]: the pure functions that
    turn fills into balance and position deltas, derive the MINT account's
    adjustments, and compute the welfare terms.  Sequencer and verifier share
    them. *)
From S2P Require Import Prelude Types Order.

Record SettlementDelta := mkSettlementDelta {
  sd_balance_delta : Z;
  sd_position_deltas : list (MarketId * Z * Z);
}.

Inductive SettlementArithmeticError :=
  | PriceQuantityOverflow
  | PositionQuantityOverflow
  | BalanceOverflow.

(** [payoff_units.checked_mul(fill_qty).and_then(|v| v.checked_div(divisor))] *)
Definition checked_position_delta (payoff_units fill_qty divisor : Z)
    : outcome SettlementArithmeticError Z :=
  ok_or (value ← chk I64 (payoff_units * fill_qty);
         if divisor =? 0 then None else chk I64 (value `quot` divisor))
    PositionQuantityOverflow.

(** The [match (yes_payoff, no_payoff)] of the fast path: outcome, payoff,
    [is_sell]. *)
Definition simple_outcome (yes_payoff no_payoff : Z) : option (Z * Z * bool) :=
  if (1 <=? yes_payoff) && (no_payoff =? 0) then Some (0, yes_payoff, false)
  else if (yes_payoff <=? -1) && (no_payoff =? 0) then Some (0, yes_payoff, true)
  else if (yes_payoff =? 0) && (1 <=? no_payoff) then Some (1, no_payoff, false)
  else if (yes_payoff =? 0) && (no_payoff <=? -1) then Some (1, no_payoff, true)
  else None.

(** Yes/no payoff sums with the number of states in each half. *)
Definition payoff_sums_counts (o : Order) (m_idx num_states : nat)
    : outcome SettlementArithmeticError (Z * Z * Z * Z) :=
  ofold (λ '(yes_sum, yes_count, no_sum, no_count) s,
    payoff ← idx (ord_payoffs o) s;
    if (state_outcome m_idx s =? 0)%nat
    then Ok (yes_sum + payoff, yes_count + 1, no_sum, no_count)
    else Ok (yes_sum, yes_count, no_sum + payoff, no_count + 1))
    (0, 0, 0, 0) (seq 0 num_states).

Definition compute_generic_settlement (o : Order) (f : Fill) (num_markets num_states : nat)
    : outcome SettlementArithmeticError (option SettlementDelta) :=
  cost ← ok_or (checked_notional_i64 (fill_price f) (fill_qty f)) PriceQuantityOverflow;
  qty ← ok_or (chk I64 (fill_qty f)) PositionQuantityOverflow;
  position_deltas ←
    (if (num_markets =? 1)%nat then
       market ← idx (ord_markets o) 0;
       yes_payoff ← idx (ord_payoffs o) 0;
       no_payoff ← idx (ord_payoffs o) 1;
       yes ← (if negb (yes_payoff =? 0)
              then d ← checked_position_delta yes_payoff qty 1; Ok [(market, 0, d)]
              else Ok []);
       no ← (if negb (no_payoff =? 0)
             then d ← checked_position_delta no_payoff qty 1; Ok [(market, 1, d)]
             else Ok []);
       Ok (yes ++ no)
     else
       ofold (λ deltas m_idx,
         market ← idx (ord_markets o) m_idx;
         '(yes_sum, yes_count, no_sum, no_count) ← payoff_sums_counts o m_idx num_states;
         yes ← (if negb (yes_sum =? 0)
                then d ← checked_position_delta yes_sum qty yes_count; Ok [(market, 0, d)]
                else Ok []);
         no ← (if negb (no_sum =? 0)
               then d ← checked_position_delta no_sum qty no_count; Ok [(market, 1, d)]
               else Ok []);
         Ok (deltas ++ yes ++ no)) [] (seq 0 num_markets));
  neg_cost ← arith I64 (- cost);
  Ok (Some (mkSettlementDelta neg_cost position_deltas)).

Definition compute_fill_settlement_checked (o : Order) (f : Fill)
    : outcome SettlementArithmeticError (option SettlementDelta) :=
  if fill_qty f =? 0 then Ok None else
  qty ← ok_or (chk I64 (fill_qty f)) PositionQuantityOverflow;
  if (num_markets o =? 1)%nat && (num_states o =? 2)%nat then
    market ← idx (ord_markets o) 0;
    yes_payoff ← idx (ord_payoffs o) 0;
    no_payoff ← idx (ord_payoffs o) 1;
    match simple_outcome yes_payoff no_payoff with
    | Some (out, payoff, sell) =>
        cost ← ok_or (checked_notional_i64 (fill_price f) (fill_qty f)) PriceQuantityOverflow;
        balance_delta ← (if (sell : bool) then Ok cost else arith I64 (- cost));
        d ← checked_position_delta payoff qty 1;
        Ok (Some (mkSettlementDelta balance_delta [(market, out, d)]))
    | None => compute_generic_settlement o f (num_markets o) (num_states o)
    end
  else compute_generic_settlement o f (num_markets o) (num_states o).

(** [.ok().flatten()] *)
Definition compute_fill_settlement {E} (o : Order) (f : Fill) : outcome E (option SettlementDelta) :=
  match compute_fill_settlement_checked o f with
  | Ok d => Ok d
  | Err _ => Ok None
  | Panic => Panic
  end.

(** ** Minting *)

Record MintAdjustment := mkMintAdjustment {
  ma_market_id : MarketId;
  ma_outcome : Z;
  ma_position_delta : Z;
  ma_balance_delta : Z;
}.

#[global] Instance MintAdjustment_eq_dec : EqDecision MintAdjustment.
Proof. solve_decision. Defined.

Abbreviation Prices := (gmap Z (list Z)) (only parsing).

(** [clearing_prices.get(&m).and_then(|p| p.get(i).copied()).unwrap_or(ZERO)] *)
Definition clearing_price (prices : Prices) (m : MarketId) (i : nat) : Nanos :=
  default 0 (ps ← prices !! m; ps !! i).

(** One iteration of the loop over [market_totals]. *)
Definition mint_adjustment (prices : Prices) (t : MarketId * Z * Z)
    : outcome SettlementArithmeticError (list MintAdjustment) :=
  let '(market_id, total_yes, total_no) := t in
  diff ← ok_or (chk I64 (total_yes - total_no)) PositionQuantityOverflow;
  if diff =? 0 then Ok [] else
  if 0 <? diff then
    let yes_price := clearing_price prices market_id 0 in
    balance_delta ← (if yes_price =? 0 then Ok 0
      else ok_or (checked_signed_notional_nanos yes_price diff) PriceQuantityOverflow);
    Ok [mkMintAdjustment market_id 0 (- diff) balance_delta]
  else
    let no_price := clearing_price prices market_id 1 in
    balance_delta ← (if no_price =? 0 then Ok 0
      else ok_or (checked_notional_i64 no_price (Z.abs diff)) PriceQuantityOverflow);
    Ok [mkMintAdjustment market_id 1 diff balance_delta].

Definition mint_step (prices : Prices) (adjustments : list MintAdjustment) (t : MarketId * Z * Z)
    : outcome SettlementArithmeticError (list MintAdjustment) :=
  adj ← mint_adjustment prices t; Ok (adjustments ++ adj).

Definition derive_minting_checked (market_totals : list (MarketId * Z * Z)) (prices : Prices)
    : outcome SettlementArithmeticError (list MintAdjustment) :=
  ofold (mint_step prices) [] market_totals.

(** [.unwrap_or_default()] *)
Definition derive_minting {E} (market_totals : list (MarketId * Z * Z)) (prices : Prices)
    : outcome E (list MintAdjustment) :=
  match derive_minting_checked market_totals prices with
  | Ok l => Ok l | Err _ => Ok [] | Panic => Panic
  end.

Definition minting_cost_from_fill_balance_delta_checked (fill_balance_delta : Z)
    : outcome SettlementArithmeticError Z :=
  ok_or (chk I64 (- fill_balance_delta)) BalanceOverflow.

Definition minting_cost_from_fill_balance_delta (fill_balance_delta : Z) : Z :=
  match minting_cost_from_fill_balance_delta_checked fill_balance_delta with
  | Ok z => z | _ => 0
  end.

Definition net_welfare {E} (gross_welfare minting_cost : Z) : outcome E Z :=
  arith I64 (gross_welfare - minting_cost).

(** ** Aggregates over fills *)

(** [orders.into_iter().map(|o| (o.id, o)).collect()]: later orders win. *)
Definition order_map (orders : list Order) : gmap Z Order :=
  foldl (λ m o, <[ord_id o := o]> m) ∅ orders.

Definition gross_welfare_from_fills {E} (orders : list Order) (fills : list Fill) : outcome E Z :=
  let om := order_map orders in
  ofold (λ acc f,
    match om !! fill_order_id f with
    | Some o => w ← gross_welfare_contribution o (fill_qty f); arith I64 (acc + w)
    | None => Ok acc
    end) 0 fills.

Definition fill_balance_delta_from_fills {E} (orders : list Order) (fills : list Fill) : outcome E Z :=
  let om := order_map orders in
  ofold (λ acc f,
    match om !! fill_order_id f with
    | Some o =>
        d ← compute_fill_settlement o f;
        match d with
        | Some delta => arith I64 (acc + sd_balance_delta delta)
        | None => Ok acc
        end
    | None => Ok acc
    end) 0 fills.

Definition minting_cost_from_fills {E} (orders : list Order) (fills : list Fill) : outcome E Z :=
  fill_balance_delta ← fill_balance_delta_from_fills orders fills;
  Ok (minting_cost_from_fill_balance_delta fill_balance_delta).

(** [totals.entry(market).or_insert((0, 0))] and the match on the outcome. *)
Definition add_total {E} (totals : gmap Z (Z * Z)) (d : MarketId * Z * Z)
    : outcome E (gmap Z (Z * Z)) :=
  let '(market, out, qty_delta) := d in
  let '(y, n) := default (0, 0) (totals !! market) in
  if out =? 0 then y' ← arith I64 (y + qty_delta); Ok (<[market := (y', n)]> totals)
  else if out =? 1 then n' ← arith I64 (n + qty_delta); Ok (<[market := (y, n')]> totals)
  else Ok (<[market := (y, n)]> totals).

(** The map's entries sorted by market id. *)
Definition sorted_totals (totals : gmap Z (Z * Z)) : list (MarketId * Z * Z) :=
  (λ '(m, (y, n)), (m, y, n)) <$> sort_by_key (map_to_list totals).

Definition market_totals_from_fills {E} (orders : list Order) (fills : list Fill)
    : outcome E (list (MarketId * Z * Z)) :=
  let om := order_map orders in
  totals ← ofold (λ totals f,
    match om !! fill_order_id f with
    | Some o =>
        d ← compute_fill_settlement o f;
        match d with
        | Some delta => ofold add_total totals (sd_position_deltas delta)
        | None => Ok totals
        end
    | None => Ok totals
    end) ∅ fills;
  Ok (sorted_totals totals).

(** ** Settlement of admitted orders *)

(** What a fill of [qty] at [price] means for an order in direction [d]. *)
Definition settle_spec (m : MarketId) (d : OrderDirection) (price qty : Z) : SettlementDelta :=
  mkSettlementDelta (- dir_sign d * (price * qty / SHARE_SCALE)) [(m, dir_outcome d, dir_sign d * qty)].

Lemma simple_outcome_dir d :
  match dir_payoffs d with
  | [y; n] => simple_outcome y n = Some (dir_outcome d, dir_sign d, is_sell d)
  | _ => False
  end.
Proof. by destruct d. Qed.

Lemma checked_position_delta_1 u q :
  i64 (u * q) → checked_position_delta u q 1 = Ok (u * q).
Proof.
  intros H. unfold checked_position_delta. rewrite chk_in by done. simpl.
  by rewrite Z.quot_1_r, chk_in.
Qed.

Lemma dir_sign_cases d : dir_sign d = 1 ∧ is_sell d = false ∨ dir_sign d = -1 ∧ is_sell d = true.
Proof. destruct d; auto. Qed.

Lemma one_hot_settlement o m d f :
  one_hot o m d → 0 < fill_qty f ≤ int_max I64 → u64 (fill_price f) →
  fill_price f * fill_qty f / SHARE_SCALE ≤ int_max I64 →
  compute_fill_settlement_checked o f = Ok (Some (settle_spec m d (fill_price f) (fill_qty f))).
Proof.
  intros Hoh Hq Hp Hc. unfold compute_fill_settlement_checked, num_markets, num_states.
  rewrite (oh_num_markets _ _ _ Hoh), (oh_num_states _ _ _ Hoh).
  rewrite (oh_markets _ _ _ Hoh), (oh_payoffs _ _ _ Hoh).
  destruct (Z.eqb_spec (fill_qty f) 0); [lia|]. rewrite chk_in by mlia.
  set (c := fill_price f * fill_qty f / SHARE_SCALE) in *.
  assert (0 ≤ c) by (apply Z.div_pos; [mnia|done]).
  assert (checked_notional_i64 (fill_price f) (fill_qty f) = Some c) as Hcost.
  { apply checked_notional_i64_iff; [done|mlia|done]. }
  assert (∀ E, @arith E I64 (- c) = Ok (- c)) as Hneg by (intros; apply arith_in; mlia).
  unfold settle_spec. fold c.
  destruct d; simpl; rewrite Hcost; simpl; rewrite ?Hneg; cbn [mbind outcome_bind];
    rewrite checked_position_delta_1 by mlia; cbn [mbind outcome_bind dir_sign is_sell dir_outcome];
    unfold settle_spec; repeat f_equal; lia.
Qed.

(** Every fill within an admitted order's own limits settles. *)
Lemma one_hot_settlement_admitted o m d f :
  one_hot o m d → 0 < fill_qty f ≤ MAX_ORDER_QTY → 0 ≤ fill_price f ≤ NANOS_PER_DOLLAR →
  compute_fill_settlement_checked o f = Ok (Some (settle_spec m d (fill_price f) (fill_qty f))).
Proof.
  intros Hoh Hq Hp. pose proof (admissible_notional (fill_price f) (fill_qty f) ltac:(lia) ltac:(lia)).
  apply one_hot_settlement; [done|mlia..].
Qed.

Lemma compute_fill_settlement_Ok {E} o f d :
  compute_fill_settlement_checked o f = Ok d → @compute_fill_settlement E o f = Ok d.
Proof. unfold compute_fill_settlement. by intros ->. Qed.

(** The fast path and the generic path agree on positions; on cash they agree
    exactly for buys. *)
Lemma generic_settlement_one_hot o m d f :
  one_hot o m d → 0 < fill_qty f ≤ MAX_ORDER_QTY → 0 ≤ fill_price f ≤ NANOS_PER_DOLLAR →
  compute_generic_settlement o f 1 2 =
    Ok (Some (mkSettlementDelta (- (fill_price f * fill_qty f / SHARE_SCALE))
      [(m, dir_outcome d, dir_sign d * fill_qty f)])).
Proof.
  intros Hoh Hq Hp. pose proof (admissible_notional (fill_price f) (fill_qty f) ltac:(lia) ltac:(lia)).
  unfold compute_generic_settlement.
  rewrite (oh_markets _ _ _ Hoh), (oh_payoffs _ _ _ Hoh).
  rewrite checked_notional_admissible by lia.
  rewrite (chk_in I64 (fill_qty f)) by mlia. simpl.
  destruct d; simpl; rewrite checked_position_delta_1 by mlia; cbn [mbind outcome_bind app];
    rewrite arith_in by mlia; cbn [mbind outcome_bind dir_sign is_sell dir_outcome]; repeat f_equal; lia.
Qed.

(** ** Minting restores the balance of complete sets *)

(** The total position change an adjustment list makes to one outcome. *)
Definition adj_total (adjs : list MintAdjustment) (m : MarketId) (out : Z) : Z :=
  sumZ (λ a, if decide (ma_market_id a = m ∧ ma_outcome a = out) then ma_position_delta a else 0) adjs.

Lemma adj_total_app l k m out : adj_total (l ++ k) m out = adj_total l m out + adj_total k m out.
Proof. apply sumZ_app. Qed.

Lemma mint_adjustment_Ok prices m y n l :
  mint_adjustment prices (m, y, n) = Ok l →
  y + adj_total l m 0 = n + adj_total l m 1 ∧
  Forall (λ a, ma_market_id a = m ∧ ma_position_delta a < 0) l ∧ (length l ≤ 1)%nat.
Proof.
  unfold mint_adjustment, adj_total. intros H.
  destruct (chk I64 (y - n)) as [diff|] eqn:Hd; [|done]. apply chk_Some in Hd as [-> Hd].
  simpl in H. destruct (Z.eqb_spec (y - n) 0); [simplify_eq; simpl; split_and!; [lia|constructor|lia]|].
  destruct (Z.ltb_spec 0 (y - n)).
  all: match type of H with mbind _ ?b = _ => destruct b as [bd| |]; simplify_eq/= end.
  all: split_and!; [repeat case_decide; naive_solver lia | apply Forall_singleton; simpl; lia | lia].
Qed.

Lemma mint_fold_acc prices k a :
  ofold (mint_step prices) a k = (b ← derive_minting_checked k prices; Ok (a ++ b)).
Proof.
  unfold derive_minting_checked. revert a.
  induction k as [|t k IH]; intros a; simpl; [by rewrite app_nil_r|].
  change (mint_step prices a t) with (adj ← mint_adjustment prices t; Ok (a ++ adj)).
  change (mint_step prices [] t) with (adj ← mint_adjustment prices t; Ok adj).
  destruct (mint_adjustment prices t) as [adj| |]; simpl; [|done..].
  rewrite IH, (IH adj). destruct (ofold _ [] k); simpl; [|done..]. by rewrite app_assoc.
Qed.

Lemma derive_minting_checked_cons t k prices :
  derive_minting_checked (t :: k) prices =
    (a ← mint_adjustment prices t; b ← derive_minting_checked k prices; Ok (a ++ b)).
Proof.
  unfold derive_minting_checked at 1. cbn [ofold].
  change (mint_step prices [] t) with (adj ← mint_adjustment prices t; Ok adj).
  destruct (mint_adjustment prices t); simpl; [|done..]. by rewrite mint_fold_acc.
Qed.

Lemma adj_total_other l m out : Forall (λ a, ma_market_id a ≠ m) l → adj_total l m out = 0.
Proof.
  intros Hl. apply sumZ_zero. intros a Ha. rewrite Forall_forall in Hl.
  apply decide_False. intros [? _]. by apply (Hl a).
Qed.

Lemma derive_minting_markets totals prices adjs a :
  derive_minting_checked totals prices = Ok adjs → a ∈ adjs →
  ma_position_delta a < 0 ∧ ma_market_id a ∈ (λ t : Z * Z * Z, t.1.1) <$> totals.
Proof.
  revert adjs. induction totals as [|[[m y] n] k IH]; intros adjs.
  { intros [= <-] Ha. set_solver. }
  rewrite derive_minting_checked_cons. intros H Ha.
  destruct (mint_adjustment _ _) as [l| |] eqn:Hl; simplify_eq/=.
  destruct (derive_minting_checked k prices) as [b| |]; simplify_eq/=.
  apply mint_adjustment_Ok in Hl as (_ & Hl & _). rewrite Forall_forall in Hl.
  apply elem_of_app in Ha as [Ha|Ha]; [specialize (Hl a Ha)|specialize (IH b eq_refl Ha)]; set_solver.
Qed.

Lemma derive_minting_balances totals prices adjs m y n :
  NoDup ((λ t : Z * Z * Z, t.1.1) <$> totals) →
  derive_minting_checked totals prices = Ok adjs → (m, y, n) ∈ totals →
  y + adj_total adjs m 0 = n + adj_total adjs m 1.
Proof.
  revert adjs. induction totals as [|[[m' y'] n'] k IH]; intros adjs Hnd; [set_solver|].
  rewrite derive_minting_checked_cons. intros H Hin.
  destruct (mint_adjustment _ _) as [l| |] eqn:Hl; simplify_eq/=.
  destruct (derive_minting_checked k prices) as [b| |] eqn:Hb; simplify_eq/=.
  apply NoDup_cons in Hnd as [Hni Hnd]. apply mint_adjustment_Ok in Hl as (Hbal & Hl & _).
  rewrite !adj_total_app. apply elem_of_cons in Hin as [[= -> -> ->]|Hin].
  - assert (Forall (λ a, ma_market_id a ≠ m') b).
    { apply Forall_forall. intros a Ha Hm. apply (derive_minting_markets k prices b a Hb) in Ha as [_ Ha].
      by rewrite Hm in Ha. }
    rewrite !(adj_total_other b) by done. lia.
  - assert (Forall (λ a, ma_market_id a ≠ m) l).
    { eapply Forall_impl; [done|]. intros a [Ha _] Hm. apply Hni.
      apply list_elem_of_fmap. exists (m, y, n). split; [simpl; congruence|done]. }
    rewrite !(adj_total_other l), !Z.add_0_l by done. by apply IH.
Qed.

(** ** Welfare accounting *)

(** [SHARE_SCALE] times the exact surplus of a fill: the trader's gain over the
    limit price, without rounding. *)
Definition exact_surplus (o : Order) (f : Fill) : Z :=
  match is_seller (E := unit) o with
  | Ok true => (fill_price f - ord_limit_price o) * fill_qty f
  | _ => (ord_limit_price o - fill_price f) * fill_qty f
  end.

(** A fill that the solver may legitimately return for an admitted order. *)
Definition admitted_fill (om : gmap Z Order) (f : Fill) : Prop :=
  ∃ o, om !! fill_order_id f = Some o ∧ order_wf o ∧ validate_binary_one_hot o = Ok () ∧
    0 < fill_qty f ≤ ord_max_fill o ∧ 0 ≤ fill_price f ≤ NANOS_PER_DOLLAR.

(** The gross-welfare and cash terms of one admitted fill. *)
Definition gross_term (om : gmap Z Order) (f : Fill) : Z :=
  match om !! fill_order_id f with
  | Some o => match gross_welfare_contribution (E := unit) o (fill_qty f) with Ok g => g | _ => 0 end
  | None => 0
  end.

Definition cash_term (om : gmap Z Order) (f : Fill) : Z :=
  match om !! fill_order_id f with
  | Some o => match compute_fill_settlement_checked o f with Ok (Some d) => sd_balance_delta d | _ => 0 end
  | None => 0
  end.

Definition surplus_term (om : gmap Z Order) (f : Fill) : Z :=
  match om !! fill_order_id f with Some o => exact_surplus o f | None => 0 end.

Lemma gross_welfare_one_hot {E} o m d q :
  one_hot o m d → u64 (ord_limit_price o) → 0 ≤ q ≤ MAX_ORDER_QTY →
  @gross_welfare_contribution E o q = Ok (dir_sign d * (ord_limit_price o * q / SHARE_SCALE)).
Proof.
  intros Hoh Hl Hq. unfold gross_welfare_contribution, notional_nanos.
  pose proof (oh_limit _ _ _ Hoh).
  pose proof (admissible_notional (ord_limit_price o) q ltac:(mlia) Hq).
  rewrite (wrap_in U64), (wrap_in I64) by mlia.
  rewrite (one_hot_is_seller _ _ _ Hoh). simpl.
  destruct (dir_sign_cases d) as [[-> ->]|[-> ->]]; [f_equal; lia|].
  rewrite arith_in by mlia. f_equal; lia.
Qed.

Lemma exact_surplus_one_hot o m d f :
  one_hot o m d →
  exact_surplus o f = dir_sign d * ((ord_limit_price o - fill_price f) * fill_qty f).
Proof.
  intros Hoh. unfold exact_surplus. rewrite (one_hot_is_seller _ _ _ Hoh).
  destruct (dir_sign_cases d) as [[-> ->]|[-> ->]]; lia.
Qed.

Lemma admitted_fill_terms om f :
  admitted_fill om f →
  ∃ o d, om !! fill_order_id f = Some o ∧
    (∀ E, @gross_welfare_contribution E o (fill_qty f) = Ok (gross_term om f)) ∧
    compute_fill_settlement_checked o f = Ok (Some d) ∧ sd_balance_delta d = cash_term om f ∧
    Z.abs (gross_term om f) ≤ 1000000000000000 ∧ Z.abs (cash_term om f) ≤ 1000000000000000 ∧
    Z.abs (SHARE_SCALE * (gross_term om f + cash_term om f) - surplus_term om f) ≤ SHARE_SCALE.
Proof.
  intros (o & Ho & Hwf & Hval & Hq & Hp).
  apply one_hot_validate in Hval as (m & d & Hoh); [|done].
  pose proof (oh_max_fill _ _ _ Hoh). pose proof (oh_limit _ _ _ Hoh). destruct (wf_limit _ Hwf).
  exists o, (settle_spec m d (fill_price f) (fill_qty f)). unfold gross_term, cash_term, surplus_term.
  rewrite Ho, (one_hot_settlement_admitted o m d), (exact_surplus_one_hot o m d) by (lia || assumption).
  rewrite (gross_welfare_one_hot o m d) by (mlia || assumption).
  pose proof (admissible_notional (ord_limit_price o) (fill_qty f) ltac:(lia) ltac:(lia)).
  pose proof (admissible_notional (fill_price f) (fill_qty f) ltac:(lia) ltac:(lia)).
  split; [done|]. split; [intros E; apply (gross_welfare_one_hot o m d); [exact Hoh|mlia|mlia]|].
  split; [done|]. split; [done|]. cbn [sd_balance_delta settle_spec].
  rewrite Z.mul_sub_distr_r.
  generalize dependent (ord_limit_price o * fill_qty f).
  generalize dependent (fill_price f * fill_qty f). intros.
  destruct (dir_sign_cases d) as [[-> _]|[-> _]]; split_and!; mlia.
Qed.

Lemma fills_aggregate orders fills :
  Forall (admitted_fill (order_map orders)) fills → Z.of_nat (length fills) ≤ 9000 →
  (∀ E, @gross_welfare_from_fills E orders fills = Ok (sumZ (gross_term (order_map orders)) fills)) ∧
  (∀ E, @fill_balance_delta_from_fills E orders fills = Ok (sumZ (cash_term (order_map orders)) fills)).
Proof.
  intros Hf Hlen. rewrite Forall_forall in Hf. split; intros E.
  - unfold gross_welfare_from_fills. rewrite (ofold_i64_sum _ (gross_term (order_map orders)) 1000000000000000).
    + done.
    + intros a f Hin. destruct (admitted_fill_terms _ f (Hf f Hin)) as (o & d & -> & Hg & _). by rewrite Hg.
    + intros f Hin. destruct (admitted_fill_terms _ f (Hf f Hin)) as (o & d & _ & _ & _ & _ & ? & _). done.
    + unfold int_max. lia.
  - unfold fill_balance_delta_from_fills. rewrite (ofold_i64_sum _ (cash_term (order_map orders)) 1000000000000000).
    + done.
    + intros a f Hin. destruct (admitted_fill_terms _ f (Hf f Hin)) as (o & d & -> & _ & Hd & <- & _).
      by rewrite (compute_fill_settlement_Ok _ _ _ Hd).
    + intros f Hin. destruct (admitted_fill_terms _ f (Hf f Hin)) as (o & d & _ & _ & _ & _ & _ & ? & _). done.
    + unfold int_max. lia.
Qed.

(** ** Properties *)

(** A fill of an admitted order, within the order's quantity and at a price
    of at most one dollar, settles without error or panic: a buy pays the
    floored notional and gains the shares of its outcome, a sell receives the
    floored notional and gives the shares up; nothing else changes. *)
Theorem admitted_fill_settles (o : Order) (f : Fill) :
  order_wf o → validate_binary_one_hot o = Ok () →
  0 < fill_qty f ≤ ord_max_fill o → 0 ≤ fill_price f ≤ NANOS_PER_DOLLAR →
  ∃ m d, active_markets o = [m] ∧ derive_order_direction (E := unit) o m = Ok d ∧
    compute_fill_settlement_checked o f = Ok (Some (mkSettlementDelta
      (if is_sell d then fill_price f * fill_qty f / SHARE_SCALE
       else - (fill_price f * fill_qty f / SHARE_SCALE))
      [(m, dir_outcome d, if is_sell d then - fill_qty f else fill_qty f)])).
Proof.
  intros Hwf (m & d & Hoh)%one_hot_validate Hq Hp; [|done]. exists m, d.
  pose proof (oh_max_fill _ _ _ Hoh).
  rewrite (one_hot_active _ _ _ Hoh), (one_hot_direction _ _ _ Hoh).
  rewrite (one_hot_settlement_admitted o m d) by (lia || assumption).
  split_and!; [done..|]. unfold settle_spec.
  destruct (dir_sign_cases d) as [[-> ->]|[-> ->]]; repeat f_equal; lia.
Qed.

Lemma admitted_fill_settles_witness :
  ∃ m d, active_markets (binary_order 7 3 SellNo 400000000 5000) = [m] ∧
    derive_order_direction (E := unit) (binary_order 7 3 SellNo 400000000 5000) m = Ok d ∧
    compute_fill_settlement_checked (binary_order 7 3 SellNo 400000000 5000) (Fill_new 7 2001 450000001)
    = Ok (Some (mkSettlementDelta
      (if is_sell d then 450000001 * 2001 / SHARE_SCALE else - (450000001 * 2001 / SHARE_SCALE))
      [(m, dir_outcome d, if is_sell d then - 2001 else 2001)])).
Proof.
  apply (admitted_fill_settles (binary_order 7 3 SellNo 400000000 5000) (Fill_new 7 2001 450000001)).
  - apply binary_order_wf; vm_compute; split; discriminate.
  - reflexivity.
  - vm_compute; split; [reflexivity|discriminate].
  - vm_compute; split; discriminate.
Defined.

(** The optimised single-binary-market path of
    [compute_fill_settlement_checked] and [compute_generic_settlement] produce
    the same position deltas for every admitted fill, and the same cash delta
    for buys; for sells the generic path debits what the fast path credits. *)
Theorem fast_path_matches_generic (o : Order) (f : Fill) :
  order_wf o → validate_binary_one_hot o = Ok () →
  0 < fill_qty f ≤ ord_max_fill o → 0 ≤ fill_price f ≤ NANOS_PER_DOLLAR →
  ∃ fast gen seller, compute_fill_settlement_checked o f = Ok (Some fast) ∧
    compute_generic_settlement o f (num_markets o) (num_states o) = Ok (Some gen) ∧
    is_seller (E := unit) o = Ok seller ∧
    sd_position_deltas fast = sd_position_deltas gen ∧
    sd_balance_delta fast = (if (seller : bool) then - sd_balance_delta gen else sd_balance_delta gen).
Proof.
  intros Hwf (m & d & Hoh)%one_hot_validate Hq Hp; [|done].
  pose proof (oh_max_fill _ _ _ Hoh).
  eexists _, _, (is_sell d). unfold num_markets, num_states.
  rewrite (oh_num_markets _ _ _ Hoh), (oh_num_states _ _ _ Hoh).
  rewrite (one_hot_settlement_admitted o m d) by (lia || assumption).
  change (Z.to_nat 1) with 1%nat. change (Z.to_nat 2) with 2%nat.
  rewrite (generic_settlement_one_hot o m d) by (lia || assumption).
  rewrite (one_hot_is_seller _ _ _ Hoh). split_and!; [done..|]. simpl sd_balance_delta.
  destruct (dir_sign_cases d) as [[-> ->]|[-> ->]]; lia.
Qed.

Lemma fast_path_matches_generic_witness :
  ∃ fast gen seller,
    compute_fill_settlement_checked (binary_order 7 3 SellYes 400000000 5000) (Fill_new 7 2001 450000001) = Ok (Some fast) ∧
    compute_generic_settlement (binary_order 7 3 SellYes 400000000 5000) (Fill_new 7 2001 450000001) 1 2 = Ok (Some gen) ∧
    is_seller (E := unit) (binary_order 7 3 SellYes 400000000 5000) = Ok seller ∧
    sd_position_deltas fast = sd_position_deltas gen ∧
    sd_balance_delta fast = (if (seller : bool) then - sd_balance_delta gen else sd_balance_delta gen).
Proof.
  apply (fast_path_matches_generic (binary_order 7 3 SellYes 400000000 5000) (Fill_new 7 2001 450000001)).
  - apply binary_order_wf; vm_compute; split; discriminate.
  - reflexivity.
  - vm_compute; split; [reflexivity|discriminate].
  - vm_compute; split; discriminate.
Defined.

(** Whenever minting succeeds on per-market totals with distinct markets,
    its adjustments restore [total_yes = total_no] in every market, each one
    shorts (never buys) an outcome, and no market outside the totals is
    touched. *)
Theorem minting_restores_complete_sets (totals : list (MarketId * Z * Z)) (prices : Prices)
    (adjs : list MintAdjustment) :
  NoDup ((λ t : Z * Z * Z, t.1.1) <$> totals) →
  derive_minting_checked totals prices = Ok adjs →
  (∀ m y n, (m, y, n) ∈ totals → y + adj_total adjs m 0 = n + adj_total adjs m 1) ∧
  (∀ a, a ∈ adjs → ma_position_delta a < 0 ∧ ma_market_id a ∈ (λ t : Z * Z * Z, t.1.1) <$> totals).
Proof.
  intros Hnd Hok. split; intros.
  - by eapply derive_minting_balances.
  - by eapply derive_minting_markets.
Qed.

Lemma minting_restores_complete_sets_witness :
  ∃ adjs,
    derive_minting_checked [(1, 5000, 2000); (2, -7, 40); (3, 9, 9)] {[1 := [600000000; 400000000]]} = Ok adjs ∧
    (∀ m y n, (m, y, n) ∈ [(1, 5000, 2000); (2, -7, 40); (3, 9, 9)] →
      y + adj_total adjs m 0 = n + adj_total adjs m 1).
Proof.
  eexists. split; [reflexivity|].
  apply (minting_restores_complete_sets [(1, 5000, 2000); (2, -7, 40); (3, 9, 9)]
    {[1 := [600000000; 400000000]]}); [|reflexivity].
  refine (bool_decide_unpack _ _). vm_compute. exact I.
Defined.

(** For a batch of admitted fills, the protocol's net welfare (gross order
    value minus the settlement-derived minting cost) is computed without
    overflow and equals the traders' exact surplus over their limits, up to one
    nanodollar of rounding per fill. *)
Theorem net_welfare_is_trader_surplus (orders : list Order) (fills : list Fill) :
  Forall (admitted_fill (order_map orders)) fills → Z.of_nat (length fills) ≤ 4000 →
  ∃ gross cost net, gross_welfare_from_fills (E := unit) orders fills = Ok gross ∧
    minting_cost_from_fills (E := unit) orders fills = Ok cost ∧
    net_welfare (E := unit) gross cost = Ok net ∧
    Z.abs (SHARE_SCALE * net - sumZ (surplus_term (order_map orders)) fills)
      ≤ SHARE_SCALE * Z.of_nat (length fills).
Proof.
  intros Hf Hlen. destruct (fills_aggregate orders fills Hf ltac:(lia)) as [Hg Hc].
  set (om := order_map orders) in *. rewrite Forall_forall in Hf.
  assert (Z.abs (sumZ (gross_term om) fills) ≤ 1000000000000000 * Z.of_nat (length fills)) as Bg.
  { rewrite <- sumZ_const. apply sumZ_abs_le. intros f Hin.
    by destruct (admitted_fill_terms _ f (Hf f Hin)) as (o & d & _ & _ & _ & _ & ? & _). }
  assert (Z.abs (sumZ (cash_term om) fills) ≤ 1000000000000000 * Z.of_nat (length fills)) as Bc.
  { rewrite <- sumZ_const. apply sumZ_abs_le. intros f Hin.
    by destruct (admitted_fill_terms _ f (Hf f Hin)) as (o & d & _ & _ & _ & _ & _ & ? & _). }
  unfold minting_cost_from_fills. rewrite Hc, Hg. cbn [mbind outcome_bind].
  unfold minting_cost_from_fill_balance_delta, minting_cost_from_fill_balance_delta_checked.
  rewrite chk_in by mlia. eexists _, _, _. split; [done|]. split; [done|].
  unfold net_welfare. rewrite arith_in by (simpl ok_or; mlia). split; [done|].
  rewrite <- sumZ_const. simpl. rewrite Z.sub_opp_r, <- sumZ_add.
  apply (sumZ_scaled_error _ _ _ SHARE_SCALE). intros f Hin.
  by destruct (admitted_fill_terms _ f (Hf f Hin)) as (o & d & _ & _ & _ & _ & _ & _ & ?).
Qed.

Lemma net_welfare_is_trader_surplus_witness :
  ∃ gross cost net,
    let orders := [binary_order 1 3 BuyYes 600000000 5000; binary_order 2 3 BuyNo 500000001 5000] in
    let fills := [Fill_new 1 1234 560000000; Fill_new 2 1234 440000000] in
    gross_welfare_from_fills (E := unit) orders fills = Ok gross ∧
    minting_cost_from_fills (E := unit) orders fills = Ok cost ∧
    net_welfare (E := unit) gross cost = Ok net ∧
    Z.abs (SHARE_SCALE * net - sumZ (surplus_term (order_map orders)) fills)
      ≤ SHARE_SCALE * Z.of_nat (length fills).
Proof.
  apply (net_welfare_is_trader_surplus
    [binary_order 1 3 BuyYes 600000000 5000; binary_order 2 3 BuyNo 500000001 5000]
    [Fill_new 1 1234 560000000; Fill_new 2 1234 440000000]); [|vm_compute; discriminate].
  repeat apply Forall_cons_2; [| |apply Forall_nil_2].
  - exists (binary_order 1 3 BuyYes 600000000 5000). split; [reflexivity|].
    split; [apply binary_order_wf; vm_compute; split; discriminate|].
    vm_compute. repeat split; discriminate.
  - exists (binary_order 2 3 BuyNo 500000001 5000). split; [reflexivity|].
    split; [apply binary_order_wf; vm_compute; split; discriminate|].
    vm_compute. repeat split; discriminate.
Defined.
