(* ===== verification/Market.v ===== *)
(** * Market: markets, atomic states and order construction

    Models [crates/matching-engine/src/market.rs] (the market set),
    [state.rs] (mixed-radix indexing of atomic states) and [order_builder.rs]
    (the payoff-vector constructors).  [usize] is 64 bits wide; the
    [debug_assert!]s are not compiled into the release build. *)
From S2P Require Import Prelude Types Order.

(** ** Markets *)

Record Market := mkMarket { mk_id : MarketId; mk_name : string }.

Record MarketSet := mkMarketSet {
  ms_markets : gmap Z Market;
  ms_next_id : Z;
}.

Definition MarketSet_new : MarketSet := mkMarketSet ∅ 0.

Definition add_binary {E} (name : string) : st MarketSet E MarketId :=
  s ← sget;
  let id := ms_next_id s in
  next ← slift (arith U32 (ms_next_id s + 1));
  smodify (λ s, mkMarketSet (<[id := mkMarket id name]> (ms_markets s)) next);;
  mret id.

Definition add_market {E} (market : Market) : st MarketSet E unit :=
  s ← sget;
  let id := mk_id market in
  next ← slift (if ms_next_id s <=? id then arith U32 (id + 1) else Ok (ms_next_id s));
  smodify (λ s, mkMarketSet (<[id := market]> (ms_markets s)) next).

Definition ms_get (s : MarketSet) (id : MarketId) : option Market :=
  if is_none id then None else ms_markets s !! id.

Definition num_outcomes (s : MarketSet) (id : MarketId) : Z :=
  match ms_get s id with Some _ => 2 | None => 0 end.

Definition ms_total_states {E} (market_ids : list MarketId) : outcome E Z :=
  let active_markets := Z.of_nat (length (filter (λ id, is_none id = false) market_ids)) in
  assert_ (active_markets <? 64);;
  Ok (Z.shiftl 1 active_markets).

(** ** Atomic states *)

(** [enumerate()] is the index argument [i]. *)
Fixpoint state_index_loop {E} (i : nat) (outcomes market_sizes : list Z) (idx mult : Z) : outcome E Z :=
  match outcomes with
  | [] => Ok idx
  | o :: outcomes =>
      p ← arith U64 (o * mult);
      idx' ← arith U64 (idx + p);
      mult' ← match market_sizes !! i with Some size => arith U64 (mult * size) | None => Ok mult end;
      state_index_loop (S i) outcomes market_sizes idx' mult'
  end.

Definition state_index {E} (outcomes market_sizes : list Z) : outcome E Z :=
  state_index_loop 0 outcomes market_sizes 0 1.

Fixpoint state_to_outcomes {E} (remaining : Z) (market_sizes : list Z) : outcome E (list Z) :=
  match market_sizes with
  | [] => Ok []
  | size :: sizes =>
      if size =? 0 then Panic else
      rest ← state_to_outcomes (remaining / size) sizes;
      Ok (wrap U8 (remaining mod size) :: rest)
  end.

Definition total_states {E} (market_sizes : list Z) : outcome E Z :=
  ofold (λ acc s, arith U64 (acc * s)) 1 market_sizes.

Record StateSpace := mkStateSpace { ss_market_sizes : list Z; ss_total : Z }.

Definition StateSpace_new {E} (market_sizes : list Z) : outcome E StateSpace :=
  total ← total_states market_sizes; Ok (mkStateSpace market_sizes total).

Definition has_outcome {E} (s : StateSpace) (state_idx : Z) (market_idx : nat) (out : Z) : outcome E bool :=
  if (length (ss_market_sizes s) <=? market_idx)%nat then Ok false else
  outcomes ← state_to_outcomes state_idx (ss_market_sizes s);
  Ok (match outcomes !! market_idx with Some o => o =? out | None => false end).

(** ** Order construction *)

Record OrderBuilder := mkOrderBuilder {
  bu_markets : MarketSet;
  bu_order : Order;
  bu_state_space : option StateSpace;
}.

Definition OrderBuilder_new (markets : MarketSet) (id : Z) : OrderBuilder :=
  mkOrderBuilder markets (Order_new id) None.

Definition with_payoffs (ps : list Z) (o : Order) : Order :=
  mkOrder (ord_id o) (ord_markets o) (ord_num_markets o) ps (ord_num_states o) (ord_limit_price o)
    (ord_max_fill o) (ord_condition o) (ord_expires_at_block o).

Definition spanning {E} (market_ids : list MarketId) (b : OrderBuilder) : outcome E OrderBuilder :=
  assert_ (length market_ids <=? MAX_MARKETS_PER_ORDER)%nat;;
  let o := bu_order b in
  let markets := imap (λ i m, default m (market_ids !! i)) (ord_markets o) in
  let sizes := num_outcomes (bu_markets b) <$> market_ids in
  space ← StateSpace_new sizes;
  Ok (mkOrderBuilder (bu_markets b)
    (mkOrder (ord_id o) markets (wrap U8 (Z.of_nat (length market_ids))) (ord_payoffs o)
       (wrap U8 (ss_total space)) (ord_limit_price o) (ord_max_fill o) (ord_condition o) (ord_expires_at_block o))
    (Some space)).

Definition limit (price : Nanos) (b : OrderBuilder) : OrderBuilder :=
  let o := bu_order b in
  mkOrderBuilder (bu_markets b)
    (mkOrder (ord_id o) (ord_markets o) (ord_num_markets o) (ord_payoffs o) (ord_num_states o) price
       (ord_max_fill o) (ord_condition o) (ord_expires_at_block o)) (bu_state_space b).

Definition quantity (qty : Qty) (b : OrderBuilder) : OrderBuilder :=
  mkOrderBuilder (bu_markets b) (set_max_fill qty (bu_order b)) (bu_state_space b).

Definition condition (market : MarketId) (threshold : Nanos) (direction : ConditionDir) (b : OrderBuilder)
    : OrderBuilder :=
  let o := bu_order b in
  mkOrderBuilder (bu_markets b)
    (mkOrder (ord_id o) (ord_markets o) (ord_num_markets o) (ord_payoffs o) (ord_num_states o) (ord_limit_price o)
       (ord_max_fill o) (Some (mkPriceCondition market threshold direction)) (ord_expires_at_block o))
    (bu_state_space b).

Definition payoff_at (state_idx : Z) (payoff : Z) (b : OrderBuilder) : OrderBuilder :=
  if state_idx <? Z.of_nat MAX_STATES then
    mkOrderBuilder (bu_markets b)
      (with_payoffs (<[Z.to_nat state_idx := payoff]> (ord_payoffs (bu_order b))) (bu_order b)) (bu_state_space b)
  else b.

Definition payoff_when {E} (outcomes : list Z) (payoff : Z) (b : OrderBuilder) : outcome E OrderBuilder :=
  match bu_state_space b with
  | None => Ok b
  | Some space => i ← state_index outcomes (ss_market_sizes space); Ok (payoff_at i payoff b)
  end.

Definition build (b : OrderBuilder) : Order := bu_order b.

(** [OrderBuilder::new(markets, id).spanning(ids).limit(..).quantity(..)] *)
Definition start {E} (markets : MarketSet) (id : Z) (ids : list MarketId) (lim qty : Z) : outcome E OrderBuilder :=
  b ← spanning ids (OrderBuilder_new markets id); Ok (quantity qty (limit lim b)).

Definition simple_yes_buy {E} (markets : MarketSet) (id : Z) (market : MarketId) (lim qty : Z) : outcome E Order :=
  b ← start markets id [market] lim qty; Ok (build (payoff_at 1 0 (payoff_at 0 1 b))).

Definition simple_no_buy {E} (markets : MarketSet) (id : Z) (market : MarketId) (lim qty : Z) : outcome E Order :=
  b ← start markets id [market] lim qty; Ok (build (payoff_at 1 1 (payoff_at 0 0 b))).

Definition spread_order {E} (markets : MarketSet) (id : Z) (a b : MarketId) (lim qty sign : Z) : outcome E Order :=
  neg ← arith I8 (- sign);
  bu ← start markets id [a; b] lim qty;
  bu ← payoff_when [0; 0] 0 bu;
  bu ← payoff_when [1; 0] neg bu;
  bu ← payoff_when [0; 1] sign bu;
  bu ← payoff_when [1; 1] 0 bu;
  Ok (build bu).

Definition spread {E} (markets : MarketSet) (id : Z) (a b : MarketId) (lim qty : Z) : outcome E Order :=
  spread_order markets id a b lim qty 1.
Definition spread_sell {E} (markets : MarketSet) (id : Z) (a b : MarketId) (lim qty : Z) : outcome E Order :=
  spread_order markets id a b lim qty (-1).

Definition butterfly {E} (markets : MarketSet) (id : Z) (a b c : MarketId) (lim qty : Z) : outcome E Order :=
  bu ← start markets id [a; b; c] lim qty;
  bu ← payoff_when [1; 1; 0] 1 bu;
  bu ← payoff_when [1; 0; 1] (-2) bu;
  bu ← payoff_when [0; 1; 1] 1 bu;
  Ok (build bu).

Definition bundle_order {E} (markets : MarketSet) (id : Z) (market_ids : list MarketId) (lim qty payoff_sign : Z)
    : outcome E Order :=
  let all_yes := replicate (length market_ids) 0 in
  b ← start markets id market_ids lim qty;
  space ← StateSpace_new (num_outcomes markets <$> market_ids);
  winning_state ← state_index all_yes (ss_market_sizes space);
  Ok (build (payoff_at winning_state payoff_sign b)).

Definition bundle_yes {E} (markets : MarketSet) (id : Z) (market_ids : list MarketId) (lim qty : Z) : outcome E Order :=
  bundle_order markets id market_ids lim qty 1.
Definition bundle_sell {E} (markets : MarketSet) (id : Z) (market_ids : list MarketId) (lim qty : Z) : outcome E Order :=
  bundle_order markets id market_ids lim qty (-1).

Definition outcome_buy {E} (markets : MarketSet) (id : Z) (market : MarketId) (outcome_idx lim qty : Z) : outcome E Order :=
  b ← start markets id [market] lim qty; Ok (build (payoff_at outcome_idx 1 b)).
Definition outcome_sell {E} (markets : MarketSet) (id : Z) (market : MarketId) (outcome_idx lim qty : Z) : outcome E Order :=
  b ← start markets id [market] lim qty; Ok (build (payoff_at outcome_idx (-1) b)).

Definition ratio_spread {E} (markets : MarketSet) (id : Z) (a : MarketId) (ratio_a : Z) (b : MarketId) (ratio_b : Z)
    (lim qty : Z) : outcome E Order :=
  bu ← start markets id [a; b] lim qty;
  both ← arith I8 (ratio_a - ratio_b);
  bu ← payoff_when [0; 0] both bu;
  neg ← arith I8 (- ratio_b);
  bu ← payoff_when [1; 0] neg bu;
  bu ← payoff_when [0; 1] ratio_a bu;
  bu ← payoff_when [1; 1] 0 bu;
  Ok (build bu).

Definition conditional_buy {E} (markets : MarketSet) (id : Z) (market : MarketId) (lim qty : Z)
    (condition_market : MarketId) (threshold : Nanos) (direction : ConditionDir) : outcome E Order :=
  b ← start markets id [market] lim qty;
  Ok (build (condition condition_market threshold direction (payoff_at 0 1 b))).

(** ** Mixed-radix indexing *)

(** The number that a list of digits denotes. *)
Fixpoint digits_value (outcomes sizes : list Z) : Z :=
  match outcomes, sizes with
  | o :: outcomes, s :: sizes => o + s * digits_value outcomes sizes
  | _, _ => 0
  end.

Definition sizes_product (sizes : list Z) : Z := foldr Z.mul 1 sizes.

(** Digits within their bases; bases are [u8]s. *)
Definition digits_ok (outcomes sizes : list Z) : Prop :=
  Forall2 (λ o s, 0 ≤ o < s ∧ s ≤ int_max U8) outcomes sizes.

Lemma digits_value_bound outcomes sizes :
  digits_ok outcomes sizes → 0 ≤ digits_value outcomes sizes < sizes_product sizes.
Proof.
  induction 1 as [|o s outs sizes [Ho Hs] H IH]; simpl; [lia|].
  fold (sizes_product sizes). nia.
Qed.

Lemma sizes_product_pos sizes : Forall (λ s, 0 < s) sizes → 0 < sizes_product sizes.
Proof. induction 1; simpl; [lia|]. fold (sizes_product l). nia. Qed.

(** The loop adds the remaining digits at weight [mult]. *)
Lemma state_index_loop_ok {E} outcomes sizes pre idx mult :
  digits_ok outcomes sizes → 0 ≤ idx < mult →
  mult * sizes_product sizes ≤ int_max U64 →
  @state_index_loop E (length pre) outcomes (pre ++ sizes) idx mult = Ok (idx + mult * digits_value outcomes sizes).
Proof.
  intros Hd. revert pre idx mult.
  induction Hd as [|o s outs sizes [Ho Hs] Hd IH]; intros pre idx mult Hi Hb; simpl; [f_equal; lia|].
  simpl in Hb. fold (sizes_product sizes) in Hb.
  assert (0 < sizes_product sizes) as Hpos.
  { apply sizes_product_pos. clear -Hd. induction Hd as [|o s ? ? [? ?]]; constructor; [lia|done]. }
  assert (o * mult + mult ≤ s * mult) by nia.
  assert (0 ≤ mult * s) by nia.
  assert (∀ t P, 0 ≤ t → 1 ≤ P → t ≤ t * P) as Hmono by (intros; nia).
  assert (mult * s ≤ mult * (s * sizes_product sizes)) by (rewrite Z.mul_assoc; apply Hmono; lia).
  assert (0 ≤ o * mult) by nia.
  rewrite arith_in by int_lia. simpl. rewrite arith_in by int_lia. simpl.
  rewrite list_lookup_middle by done. rewrite arith_in by int_lia. simpl.
  specialize (IH (pre ++ [s]) (idx + o * mult) (mult * s)).
  rewrite length_app, Nat.add_1_r, <- (assoc_L (++)) in IH. simpl in IH. rewrite IH; [f_equal; ring|lia|].
  by rewrite <- Z.mul_assoc.
Qed.

Lemma state_index_ok {E} outcomes sizes :
  digits_ok outcomes sizes → sizes_product sizes ≤ int_max U64 →
  @state_index E outcomes sizes = Ok (digits_value outcomes sizes).
Proof.
  intros Hd Hb. unfold state_index. rewrite (state_index_loop_ok outcomes sizes [] 0 1); [f_equal; lia|done|lia|lia].
Qed.

Lemma state_to_outcomes_ok {E} outcomes sizes :
  digits_ok outcomes sizes → @state_to_outcomes E (digits_value outcomes sizes) sizes = Ok outcomes.
Proof.
  induction 1 as [|o s outs sizes [Ho Hs] Hd IH]; simpl; [done|].
  destruct (Z.eqb_spec s 0); [lia|].
  replace (o + s * digits_value outs sizes) with (digits_value outs sizes * s + o) by lia.
  rewrite Z.div_add_l, Z.div_small, Z.add_0_r by lia. rewrite IH. simpl. do 2 f_equal.
  rewrite Z.add_comm, Z.mod_add, Z.mod_small by lia. apply wrap_in. int_lia.
Qed.

Lemma state_to_outcomes_digits {E} sizes idx :
  Forall (λ s, 0 < s ≤ int_max U8) sizes → 0 ≤ idx < sizes_product sizes →
  ∃ outcomes, @state_to_outcomes E idx sizes = Ok outcomes ∧ digits_ok outcomes sizes ∧
    digits_value outcomes sizes = idx.
Proof.
  intros Hs. revert idx. induction Hs as [|s sizes Hs Hsz IH]; intros idx Hi; simpl in *.
  { exists []. split; [done|]. split; [exact (List.Forall2_nil _)|simpl; lia]. }
  fold (sizes_product sizes) in Hi. destruct (Z.eqb_spec s 0); [lia|].
  destruct (IH (idx / s)) as (outs & Ho & Hd & Hv).
  { split; [apply Z.div_pos; lia|]. apply Z.div_lt_upper_bound; nia. }
  rewrite Ho. simpl. pose proof (Z.mod_pos_bound idx s ltac:(lia)).
  eexists. split; [done|]. rewrite wrap_in by int_lia. split.
  - constructor; [int_lia|done].
  - simpl. rewrite Hv. pose proof (Z.div_mod idx s ltac:(lia)). lia.
Qed.

(** ** Constructors *)

Lemma start_single {E} markets id m lim qty :
  is_Some (ms_get markets m) →
  @start E markets id [m] lim qty = Ok (mkOrderBuilder markets
    (mkOrder id (m :: replicate 4 MarketId_NONE) 1 (replicate 32 0) 2 lim qty None None)
    (Some (mkStateSpace [2] 2))).
Proof. intros [x Hx]. unfold start, spanning, num_outcomes. simpl. rewrite Hx. reflexivity. Qed.

(** ** Properties *)

(** The mixed-radix state index and its decoding are mutually inverse
    bijections between outcome vectors and the state numbers below
    [total_states], for any bases whose product fits the machine. *)
Theorem state_index_roundtrip (sizes : list Z) :
  Forall (λ s, 0 < s ≤ int_max U8) sizes → sizes_product sizes ≤ int_max U64 →
  (∀ outcomes, Forall2 (λ o s, 0 ≤ o < s) outcomes sizes →
     ∃ i, state_index (E := unit) outcomes sizes = Ok i ∧ 0 ≤ i < sizes_product sizes ∧
       state_to_outcomes (E := unit) i sizes = Ok outcomes) ∧
  (∀ i, 0 ≤ i < sizes_product sizes →
     ∃ outcomes, state_to_outcomes (E := unit) i sizes = Ok outcomes ∧
       Forall2 (λ o s, 0 ≤ o < s) outcomes sizes ∧ state_index (E := unit) outcomes sizes = Ok i).
Proof.
  intros Hs Hb. split.
  - intros outs Ho. assert (digits_ok outs sizes) as Hd.
    { clear Hb. induction Ho; [constructor|]. apply Forall_cons in Hs as [? ?]. constructor; [lia|]. by apply IHHo. }
    exists (digits_value outs sizes). split; [by apply state_index_ok|].
    split; [by apply digits_value_bound|by apply state_to_outcomes_ok].
  - intros i Hi. destruct (state_to_outcomes_digits (E := unit) sizes i Hs Hi) as (outs & Ho & Hd & Hv).
    exists outs. split; [done|]. split; [|rewrite state_index_ok by done; congruence].
    clear -Hd. induction Hd as [|? ? ? ? [? ?]]; constructor; done.
Qed.

Lemma state_index_roundtrip_witness :
  ∃ i, state_index (E := unit) [1; 0; 2] [2; 2; 3] = Ok i ∧ 0 ≤ i < sizes_product [2; 2; 3] ∧
    state_to_outcomes (E := unit) i [2; 2; 3] = Ok [1; 0; 2].
Proof.
  apply (state_index_roundtrip [2; 2; 3]).
  - repeat apply Forall_cons_2; try apply Forall_nil_2; vm_compute; split; (reflexivity || discriminate).
  - vm_compute. discriminate.
  - repeat constructor; vm_compute; (reflexivity || discriminate).
Defined.

(** On a market of the set, the binary constructors produce exactly the
    order of the direction they are named after, which passes the admission
    shape check when its price and quantity are within the limits. *)
Theorem constructors_build_directions (markets : MarketSet) (id m lim qty : Z) :
  is_Some (ms_get markets m) → lim ≤ NANOS_PER_DOLLAR → qty ≤ MAX_ORDER_QTY →
  simple_yes_buy (E := unit) markets id m lim qty = Ok (binary_order id m BuyYes lim qty) ∧
  simple_no_buy (E := unit) markets id m lim qty = Ok (binary_order id m BuyNo lim qty) ∧
  outcome_buy (E := unit) markets id m 0 lim qty = Ok (binary_order id m BuyYes lim qty) ∧
  outcome_buy (E := unit) markets id m 1 lim qty = Ok (binary_order id m BuyNo lim qty) ∧
  outcome_sell (E := unit) markets id m 0 lim qty = Ok (binary_order id m SellYes lim qty) ∧
  outcome_sell (E := unit) markets id m 1 lim qty = Ok (binary_order id m SellNo lim qty) ∧
  ∀ d, validate_binary_one_hot (binary_order id m d lim qty) = Ok ().
Proof.
  intros Hm Hl Hq.
  unfold simple_yes_buy, simple_no_buy, outcome_buy, outcome_sell. rewrite !(start_single _ _ _ _ _ Hm).
  split_and!; try reflexivity. intros d. eapply validate_one_hot, binary_order_one_hot; [|exact Hl|exact Hq].
  destruct Hm as [x Hx]. unfold ms_get, is_none in Hx. by destruct (Z.eqb_spec m MarketId_NONE).
Qed.

Lemma constructors_build_directions_witness :
  outcome_sell (E := unit) (mkMarketSet {[3 := mkMarket 3 "rain"]} 4) 7 3 1 400000000 5000
    = Ok (binary_order 7 3 SellNo 400000000 5000) ∧
  validate_binary_one_hot (binary_order 7 3 SellNo 400000000 5000) = Ok ().
Proof.
  destruct (constructors_build_directions (mkMarketSet {[3 := mkMarket 3 "rain"]} 4) 7 3 400000000 5000)
    as (_ & _ & _ & _ & _ & H & Hv).
  - vm_compute. eexists. reflexivity.
  - vm_compute. discriminate.
  - vm_compute. discriminate.
  - split; [exact H|exact (Hv SellNo)].
Defined.
