(* ===== verification/MmConstraint.v ===== *)
(** * MmConstraint: market-maker budgets and indicative prices

    Models [crates/matching-engine/src/mm_constraint.rs] (capital of a
    market-maker's fills against a shared budget) and [midprice.rs] (touch
    midpoints of the participating book).  [MmSide] has the four cases of
    [OrderDirection] and is represented by it. *)
From S2P Require Import Prelude Types Order EngineSettlement.

Definition MmSide : Set := OrderDirection.

Definition capital_needed (side : MmSide) (price : Nanos) (qty : Qty) : Nanos :=
  let price_per_share :=
    match side with
    | SellYes | SellNo => sat U64 (NANOS_PER_DOLLAR - price)
    | BuyYes | BuyNo => price
    end in
  notional_nanos_ceil price_per_share qty.

Definition checked_capital_needed (side : MmSide) (price : Nanos) (qty : Qty) : option Nanos :=
  price_per_share ←
    match side with
    | SellYes | SellNo => if NANOS_PER_DOLLAR <? price then None else Some (NANOS_PER_DOLLAR - price)
    | BuyYes | BuyNo => Some price
    end;
  checked_notional_nanos_ceil price_per_share qty.

Record MmConstraint := mkMmConstraint {
  mm_id : Z;
  mm_max_capital : Nanos;
  mm_order_ids : list Z;
  mm_order_sides : gmap Z OrderDirection;
}.

Definition MmConstraint_new (id : Z) (max_capital : Nanos) : MmConstraint :=
  mkMmConstraint id max_capital [] ∅.

(** [with_order] and [add_order]. *)
Definition add_order (order_id : Z) (side : MmSide) (c : MmConstraint) : MmConstraint :=
  mkMmConstraint (mm_id c) (mm_max_capital c) (mm_order_ids c ++ [order_id])
    (<[order_id := side]> (mm_order_sides c)).

Definition contains_order (c : MmConstraint) (order_id : Z) : bool :=
  bool_decide (order_id ∈ mm_order_ids c).

(** [fills]: order id to (price, quantity). *)
Definition capital_used {E} (c : MmConstraint) (fills : gmap Z (Z * Z)) : outcome E Nanos :=
  ofold (λ total order_id,
    match fills !! order_id, mm_order_sides c !! order_id with
    | Some (price, qty), Some side => Nanos_add total (capital_needed side price qty)
    | _, _ => Ok total
    end) 0 (mm_order_ids c).

(** [None] as soon as one step is not representable. *)
Fixpoint checked_capital_loop (c : MmConstraint) (fills : gmap Z (Z * Z)) (total : Nanos) (ids : list Z)
    : option Nanos :=
  match ids with
  | [] => Some total
  | order_id :: ids =>
      match fills !! order_id, mm_order_sides c !! order_id with
      | Some (price, qty), Some side =>
          need ← checked_capital_needed side price qty;
          total' ← Nanos_checked_add total need;
          checked_capital_loop c fills total' ids
      | _, _ => checked_capital_loop c fills total ids
      end
  end.

Definition checked_capital_used (c : MmConstraint) (fills : gmap Z (Z * Z)) : option Nanos :=
  checked_capital_loop c fills 0 (mm_order_ids c).

Definition is_satisfied {E} (c : MmConstraint) (fills : gmap Z (Z * Z)) : outcome E bool :=
  used ← capital_used c fills; Ok (used <=? mm_max_capital c).

(** ** Indicative prices *)

(** The YES-equivalent quote of a single-market order: bid or ask, and price. *)
Definition yes_quote (d : OrderDirection) (limit_price : Nanos) : bool * Nanos :=
  match d with
  | BuyYes => (true, limit_price)
  | SellNo => (true, sat U64 (NANOS_PER_DOLLAR - limit_price))
  | SellYes => (false, limit_price)
  | BuyNo => (false, sat U64 (NANOS_PER_DOLLAR - limit_price))
  end.

Definition book_touch {E} (acc : gmap Z Z * gmap Z Z) (o : Order) : outcome E (gmap Z Z * gmap Z Z) :=
  let '(best_bid, best_ask) := acc in
  if negb (ord_num_markets o =? 1) then Ok acc else
  market ← idx (ord_markets o) 0;
  if is_none market then Ok acc else
  d ← derive_order_direction o market;
  let '(is_bid, price) := yes_quote d (ord_limit_price o) in
  Ok (if (is_bid : bool) then
        (<[market := match best_bid !! market with Some b => if b <? price then price else b | None => price end]> best_bid,
         best_ask)
      else
        (best_bid,
         <[market := match best_ask !! market with Some a => if price <? a then price else a | None => price end]> best_ask)).

(** One iteration of the loop over [best_bid]. *)
Definition mid_step {E} (best_ask mids : gmap Z Z) (e : MarketId * Nanos) : outcome E (gmap Z Z) :=
  let '(market, bid) := e in
  match best_ask !! market with
  | Some ask =>
      if bid <? ask
      then gap ← arith U64 (ask - bid); mid ← Nanos_add bid (gap / 2); Ok (<[market := mid]> mids)
      else Ok mids
  | None => Ok mids
  end.

Definition book_midprices {E} (orders : list Order) : outcome E (gmap Z Z) :=
  '(best_bid, best_ask) ← ofold book_touch (∅, ∅) orders;
  ofold (mid_step best_ask) ∅ (map_to_list best_bid).

Definition mark_yes_no (had_fill : bool) (clearing : option (list Nanos)) (midpoint : option Nanos)
    (last_mark : option (list Nanos)) : list Nanos :=
  let half := NANOS_PER_DOLLAR / 2 in
  match had_fill, clearing with
  | true, Some c => c
  | _, _ =>
      match midpoint with
      | Some mid => [mid; sat U64 (NANOS_PER_DOLLAR - mid)]
      | None => match last_mark with
                | Some prev => prev
                | None => match clearing with Some c => c | None => [half; half] end
                end
      end
  end.

(** ** Lemmas *)

Lemma capital_needed_exact side price qty :
  0 ≤ price ≤ NANOS_PER_DOLLAR → 0 ≤ qty ≤ MAX_ORDER_QTY →
  let pps := if is_sell side then NANOS_PER_DOLLAR - price else price in
  checked_capital_needed side price qty = Some (div_ceil (pps * qty) SHARE_SCALE) ∧
  capital_needed side price qty = div_ceil (pps * qty) SHARE_SCALE.
Proof.
  intros Hp Hq pps.
  pose proof (admissible_notional pps qty ltac:(unfold pps; destruct (is_sell side); mlia) Hq).
  assert (checked_notional_nanos_ceil pps qty = Some (div_ceil (pps * qty) SHARE_SCALE)) as Hc.
  { apply checked_notional_nanos_ceil_iff; [unfold pps; destruct (is_sell side); mlia|mlia|]. split; [done|mlia]. }
  assert (capital_needed side price qty = notional_nanos_ceil pps qty ∧
          checked_capital_needed side price qty = checked_notional_nanos_ceil pps qty) as [Hn Hcn].
  { unfold capital_needed, checked_capital_needed, pps.
    destruct side; simpl; try done; rewrite sat_in by mlia;
      destruct (Z.ltb_spec NANOS_PER_DOLLAR price); done || lia. }
  rewrite Hn, Hcn. split; [done|]. apply notional_nanos_ceil_checked; [|mlia|done].
  unfold pps; destruct (is_sell side); mlia.
Qed.

(** Ceiling plus complementary floor make the whole. *)
Lemma ceil_floor_complement a b c : 0 < b → div_ceil (c * b - a) b + a / b = c.
Proof.
  intros Hb. assert (div_ceil (c * b - a) b = c - a / b); [|lia].
  apply Z.le_antisymm.
  - apply div_ceil_le; [done|]. pose proof (Z.mul_div_le a b Hb). nia.
  - apply Z.nlt_ge. intros Hlt. assert (div_ceil (c * b - a) b ≤ c - a / b - 1) as Hle by lia.
    apply div_ceil_le in Hle; [|done]. pose proof (Z.mul_succ_div_gt a b Hb). nia.
Qed.

(** The YES-equivalent quote an order contributes, if any. *)
Definition quote_of (o : Order) : option (MarketId * bool * Nanos) :=
  if negb (ord_num_markets o =? 1) then None else
  m ← ord_markets o !! 0%nat;
  if is_none m then None else
  match derive_order_direction (E := unit) o m with
  | Ok d => let '(b, p) := yes_quote d (ord_limit_price o) in Some (m, b, p)
  | _ => None
  end.

(** The quotes of one side. *)
Definition side_quotes (bid : bool) (orders : list Order) : list (MarketId * Nanos) :=
  omap (λ o, '(m, b, p) ← quote_of o; if Bool.eqb b bid then Some (m, p) else None) orders.

(** [best] holds the best quote per market: greatest for [sgn = 1], least for
    [sgn = -1]. *)
Definition best_inv (sgn : Z) (best : gmap Z Z) (qs : list (MarketId * Nanos)) : Prop :=
  (∀ m p, (m, p) ∈ qs → ∃ b, best !! m = Some b ∧ sgn * p ≤ sgn * b) ∧
  (∀ m b, best !! m = Some b → (m, b) ∈ qs).

Lemma best_inv_insert sgn best qs m p b' :
  best_inv sgn best qs →
  b' = match best !! m with Some b => if sgn * b <? sgn * p then p else b | None => p end →
  best_inv sgn (<[m := b']> best) (qs ++ [(m, p)]).
Proof.
  intros [H1 H2] ->. split.
  - intros m' p' [Hin|[= -> ->]%list_elem_of_singleton]%elem_of_app.
    + destruct (H1 m' p' Hin) as (b & Hb & Hle). rewrite lookup_insert. case_decide; [subst|eauto].
      rewrite Hb. eexists. split; [done|]. case_match; lia.
    + rewrite lookup_insert_eq. eexists. split; [done|]. repeat case_match; lia.
  - intros m' b. rewrite lookup_insert. case_decide as Hm; [subst|].
    + intros [= <-]. apply elem_of_app. destruct (best !! m') as [b|] eqn:Hb; [|set_solver].
      case_match; [set_solver|]. left. auto.
    + intros Hb. apply elem_of_app. auto.
Qed.

(** The direction does not depend on the error type it is computed in. *)
Lemma derive_direction_any {E F} o m d :
  @derive_order_direction E o m = Ok d → @derive_order_direction F o m = Ok d.
Proof.
  unfold derive_order_direction, payoff_sums. generalize (0, 0).
  set (mi := default 0%nat _). generalize (seq 0 (num_states o)). intros l.
  induction l as [|s l IH]; intros [y n]; cbn [ofold]; [by intros [= <-]|].
  unfold idx. destruct (ord_payoffs o !! s); simpl; [|done].
  destruct (state_outcome mi s =? 0)%nat; simpl; apply IH.
Qed.

Lemma book_touch_quote {E} bids asks o r :
  @book_touch E (bids, asks) o = Ok r →
  match quote_of o with
  | None => r = (bids, asks)
  | Some (m, true, p) =>
      r = (<[m := match bids !! m with Some b => if b <? p then p else b | None => p end]> bids, asks)
  | Some (m, false, p) =>
      r = (bids, <[m := match asks !! m with Some a => if p <? a then p else a | None => p end]> asks)
  end.
Proof.
  unfold book_touch, quote_of, idx. destruct (negb _); [naive_solver|].
  destruct (ord_markets o !! 0%nat) as [m|]; simpl; [|done].
  destruct (is_none m); [naive_solver|].
  destruct (derive_order_direction o m) as [d| |] eqn:Hd; [|done..].
  rewrite (derive_direction_any (F := unit) o m d Hd). simpl.
  destruct (yes_quote d (ord_limit_price o)) as [[] p]; naive_solver.
Qed.

Lemma side_quotes_app bid l o :
  side_quotes bid (l ++ [o]) = side_quotes bid l ++
    match quote_of o with Some (m, b, p) => if Bool.eqb b bid then [(m, p)] else [] | None => [] end.
Proof.
  unfold side_quotes. rewrite omap_app. f_equal. simpl. destruct (quote_of o) as [[[m b] p]|]; simpl; [|done].
  by destruct (Bool.eqb b bid).
Qed.

Lemma touch_loop {E} orders bids asks :
  ofold (@book_touch E) (∅, ∅) orders = Ok (bids, asks) →
  best_inv 1 bids (side_quotes true orders) ∧ best_inv (-1) asks (side_quotes false orders).
Proof.
  revert bids asks. induction orders as [|o orders IH] using rev_ind; intros bids asks H.
  { simplify_eq/=. split; split; intros ? ?; rewrite ?lookup_empty; set_solver. }
  rewrite ofold_app in H. destruct (ofold book_touch (∅, ∅) orders) as [[b0 a0]| |]; [|done..].
  destruct (IH b0 a0 eq_refl) as [Hb Ha]. cbn [mbind outcome_bind ofold] in H.
  destruct (book_touch (E := E) (b0, a0) o) as [r| |] eqn:Ht; [|done..]. cbn in H. simplify_eq.
  apply book_touch_quote in Ht. rewrite !side_quotes_app.
  destruct (quote_of o) as [[[m []] p]|]; simplify_eq/=; rewrite ?app_nil_r; split; try done.
  - eapply best_inv_insert; [done|]. destruct (b0 !! m); [|done]. by rewrite !Z.mul_1_l.
  - eapply best_inv_insert; [done|]. destruct (a0 !! m) as [a|]; [|done].
    destruct (Z.ltb_spec p a), (Z.ltb_spec (-1 * a) (-1 * p)); done || lia.
Qed.

Lemma mid_loop {E} (bids asks : gmap Z Z) l acc r :
  (∀ k v, (k, v) ∈ l → bids !! k = Some v) →
  (∀ k v, acc !! k = Some v → ∃ b a, bids !! k = Some b ∧ asks !! k = Some a ∧ b ≤ v < a) →
  ofold (@mid_step E asks) acc l = Ok r →
  ∀ k v, r !! k = Some v → ∃ b a, bids !! k = Some b ∧ asks !! k = Some a ∧ b ≤ v < a.
Proof.
  revert acc. induction l as [|[k v] l IH]; intros acc Hl Hacc Hr; [by simplify_eq/=|].
  cbn [ofold] in Hr. destruct (mid_step asks acc (k, v)) as [acc'| |] eqn:Hs; [|done..].
  cbn [mbind outcome_bind] in Hr. apply (IH acc'); [set_solver| |done]. unfold mid_step in Hs.
  destruct (asks !! k) as [ask|] eqn:Hask; [|by simplify_eq].
  destruct (Z.ltb_spec v ask); [|by simplify_eq].
  destruct (arith U64 (ask - v)) as [gap| |] eqn:Hg; simplify_eq/=. apply arith_Ok in Hg as [-> _].
  unfold Nanos_add in Hs. destruct (arith U64 (v + (ask - v) / 2)) as [md| |] eqn:Hmd; simplify_eq/=.
  apply arith_Ok in Hmd as [-> _].
  intros k' v'. rewrite lookup_insert. case_decide; [subst|apply Hacc].
  intros [= <-]. exists v, ask. split; [apply Hl; set_solver|]. split; [done|]. Z.div_mod_to_equations. lia.
Qed.

(** ** Properties *)

(** A market maker's capital requirement is exact and conservative: for a
    buy it is the ceiled cost, which covers the cash that settlement will
    debit; for a sell, capital plus sale proceeds are exactly the one-dollar
    liability per share; and the checked and unchecked computations agree. *)
Theorem mm_capital_backs_liability (o : Order) (m : MarketId) (d : OrderDirection) (f : Fill) :
  one_hot o m d → 0 < fill_qty f ≤ MAX_ORDER_QTY → 0 ≤ fill_price f ≤ NANOS_PER_DOLLAR →
  ∃ c delta, checked_capital_needed d (fill_price f) (fill_qty f) = Some c ∧
    capital_needed d (fill_price f) (fill_qty f) = c ∧
    compute_fill_settlement_checked o f = Ok (Some delta) ∧
    (if is_sell d
     then SHARE_SCALE * (c + sd_balance_delta delta) = NANOS_PER_DOLLAR * fill_qty f
     else - sd_balance_delta delta ≤ c).
Proof.
  intros Hoh Hq Hp. destruct (capital_needed_exact d (fill_price f) (fill_qty f) Hp ltac:(lia)) as [Hc Hn].
  eexists _, _. split; [exact Hc|]. split; [exact Hn|].
  split; [apply (one_hot_settlement_admitted o m d); lia || assumption|]. cbn [sd_balance_delta settle_spec].
  destruct (dir_sign_cases d) as [[-> Hs]|[-> Hs]]; rewrite Hs.
  - pose proof (div_le_div_ceil (fill_price f * fill_qty f) SHARE_SCALE ltac:(done)). lia.
  - pose proof (ceil_floor_complement (fill_price f * fill_qty f) SHARE_SCALE (1000000 * fill_qty f) ltac:(done)) as He.
    replace (1000000 * fill_qty f * SHARE_SCALE - fill_price f * fill_qty f)
      with ((NANOS_PER_DOLLAR - fill_price f) * fill_qty f) in He by (unfold NANOS_PER_DOLLAR, SHARE_SCALE; ring).
    unfold NANOS_PER_DOLLAR in *. unfold SHARE_SCALE at 1. lia.
Qed.

Lemma mm_capital_backs_liability_witness :
  ∃ c delta, checked_capital_needed SellYes 333333333 1001 = Some c ∧
    capital_needed SellYes 333333333 1001 = c ∧
    compute_fill_settlement_checked (binary_order 7 3 SellYes 300000000 5000) (Fill_new 7 1001 333333333) = Ok (Some delta) ∧
    SHARE_SCALE * (c + sd_balance_delta delta) = NANOS_PER_DOLLAR * 1001.
Proof.
  apply (mm_capital_backs_liability (binary_order 7 3 SellYes 300000000 5000) 3 SellYes (Fill_new 7 1001 333333333)).
  - apply binary_order_one_hot; vm_compute; discriminate.
  - vm_compute; split; [reflexivity|discriminate].
  - vm_compute; split; discriminate.
Defined.

(** An indicative midprice is reported only for a market whose best bid is
    below its best ask, and lies between them: no bid in the book is above it
    and no ask below it. *)
Theorem midprice_between_quotes (orders : list Order) (mids : gmap Z Z) (m mid : Z) :
  book_midprices (E := unit) orders = Ok mids → mids !! m = Some mid →
  (∃ b a, (m, b) ∈ side_quotes true orders ∧ (m, a) ∈ side_quotes false orders ∧ b ≤ mid < a) ∧
  (∀ p, (m, p) ∈ side_quotes true orders → p ≤ mid) ∧
  (∀ p, (m, p) ∈ side_quotes false orders → mid < p).
Proof.
  intros Hm Hlk. unfold book_midprices in Hm.
  destruct (ofold book_touch (∅, ∅) orders) as [[bids asks]| |] eqn:Ht; simplify_eq/=.
  destruct (touch_loop orders bids asks Ht) as [[B1 B2] [A1 A2]].
  assert (∃ b a, bids !! m = Some b ∧ asks !! m = Some a ∧ b ≤ mid < a) as (b & a & Hb & Ha & Hba).
  { eapply (mid_loop (E := unit) bids asks (map_to_list bids) ∅); [| |exact Hm|exact Hlk].
    - intros k v Hin. by apply elem_of_map_to_list.
    - intros k v. by rewrite lookup_empty. }
  split; [exists b, a; auto|]. split.
  - intros p Hin. destruct (B1 _ _ Hin) as (b' & Hb' & ?). simplify_eq. lia.
  - intros p Hin. destruct (A1 _ _ Hin) as (a' & Ha' & ?). simplify_eq. lia.
Qed.

Lemma midprice_between_quotes_witness :
  let orders := [binary_order 1 3 BuyYes 400000000 10; binary_order 2 3 BuyNo 300000000 10;
                 binary_order 3 3 SellYes 900000000 10] in
  book_midprices (E := unit) orders = Ok {[3 := 550000000]} ∧
  (∀ p, (3, p) ∈ side_quotes true orders → p ≤ 550000000) ∧
  (∀ p, (3, p) ∈ side_quotes false orders → 550000000 < p).
Proof.
  split; [vm_compute; reflexivity|].
  apply (midprice_between_quotes
    [binary_order 1 3 BuyYes 400000000 10; binary_order 2 3 BuyNo 300000000 10; binary_order 3 3 SellYes 900000000 10]
    {[3 := 550000000]}); vm_compute; reflexivity.
Defined.
