(* ===== verification/Account.v ===== *)
(** * Account: account records and the account store

    Models [crates/matching-sequencer/src/account.rs] and the rejection reasons
    of [error.rs].  An [AccountId] is its [u64]; positions and the store are
    maps.  The key-set digest of a fresh account is computed by a hash function
    of another crate and is an argument here. *)
From S2P Require Import Prelude Types.

Abbreviation AccountId := Z (only parsing).
Abbreviation Bytes := (list Z) (only parsing).
(** [(market, outcome)] *)
Abbreviation PositionKey := (Z * Z)%type (only parsing).

Definition AccountId_MINT : AccountId := int_max U64.

Inductive RejectionReason :=
  | InsufficientBalance (required available : Z)
  | InsufficientPosition (market : MarketId) (outcome : Z) (required available : Z)
  | AccountNotFound
  | CompleteSetFormation
  | AtomicBundle
  | InvalidOrder (reason : string)
  | Expired (current_block expires_at_block : Z).

(** [(required, available)], when the reason carries them. *)
Definition RejectionReason_amounts (r : RejectionReason) : option Z * option Z :=
  match r with
  | InsufficientBalance required available
  | InsufficientPosition _ _ required available => (Some required, Some available)
  | _ => (None, None)
  end.

Record Rejection := mkRejection {
  rej_order_id : Z;
  rej_account_id : AccountId;
  rej_reason : RejectionReason;
}.

Record AccountProfile := mkAccountProfile {
  ap_display_name : option string;
  ap_avatar_seed : option string;
}.

Definition AccountProfile_is_empty (p : AccountProfile) : bool :=
  match ap_display_name p, ap_avatar_seed p with None, None => true | _, _ => false end.

Record ApiKeyRecord := mkApiKeyRecord {
  ak_id : Z;
  ak_hash : Bytes;
  ak_label : option string;
  ak_created_at_ms : Z;
  ak_revoked_at_ms : option Z;
}.

Definition ApiKeyRecord_is_active (k : ApiKeyRecord) : bool :=
  match ak_revoked_at_ms k with None => true | Some _ => false end.

Record Account := mkAccount {
  acc_id : AccountId;
  acc_balance : Z;
  acc_positions : gmap (Z * Z) Z;
  acc_total_deposited : Z;
  acc_last_nonce : Z;
  acc_last_trading_nonce : Z;
  acc_events_digest : Bytes;
  acc_keys_digest : Bytes;
  acc_profile : AccountProfile;
  acc_api_keys : list ApiKeyRecord;
  acc_next_api_key_id : Z;
}.

(** [empty_keys_digest] is [sybil_verifier::empty_account_keys_digest]. *)
Definition Account_new (empty_keys_digest : Z → Bytes) (id : AccountId) (balance : Z) : Account := {|
  acc_id := id;
  acc_balance := balance;
  acc_positions := ∅;
  acc_total_deposited := balance;
  acc_last_nonce := 0;
  acc_last_trading_nonce := 0;
  acc_events_digest := replicate 32 0;
  acc_keys_digest := empty_keys_digest id;
  acc_profile := mkAccountProfile None None;
  acc_api_keys := [];
  acc_next_api_key_id := 0;
|}.

Definition acc_position (a : Account) (market : MarketId) (out : Z) : Z :=
  get0 (acc_positions a) (market, out).

(** Field updates. *)
Definition set_balance (z : Z) (a : Account) : Account :=
  mkAccount (acc_id a) z (acc_positions a) (acc_total_deposited a) (acc_last_nonce a)
    (acc_last_trading_nonce a) (acc_events_digest a) (acc_keys_digest a) (acc_profile a)
    (acc_api_keys a) (acc_next_api_key_id a).
Definition set_positions (p : gmap (Z * Z) Z) (a : Account) : Account :=
  mkAccount (acc_id a) (acc_balance a) p (acc_total_deposited a) (acc_last_nonce a)
    (acc_last_trading_nonce a) (acc_events_digest a) (acc_keys_digest a) (acc_profile a)
    (acc_api_keys a) (acc_next_api_key_id a).
Definition set_total_deposited (z : Z) (a : Account) : Account :=
  mkAccount (acc_id a) (acc_balance a) (acc_positions a) z (acc_last_nonce a)
    (acc_last_trading_nonce a) (acc_events_digest a) (acc_keys_digest a) (acc_profile a)
    (acc_api_keys a) (acc_next_api_key_id a).
Definition set_events_digest (d : Bytes) (a : Account) : Account :=
  mkAccount (acc_id a) (acc_balance a) (acc_positions a) (acc_total_deposited a) (acc_last_nonce a)
    (acc_last_trading_nonce a) d (acc_keys_digest a) (acc_profile a)
    (acc_api_keys a) (acc_next_api_key_id a).

(** ** The store *)

Record AccountStore := mkAccountStore {
  as_accounts : gmap Z Account;
  as_next_id : Z;
}.

Definition AccountStore_new (empty_keys_digest : Z → Bytes) : AccountStore :=
  mkAccountStore {[AccountId_MINT := Account_new empty_keys_digest AccountId_MINT 0]} 0.

Definition create_account {E} (empty_keys_digest : Z → Bytes) (balance : Z) : st AccountStore E AccountId :=
  s ← sget;
  let id := as_next_id s in
  next ← slift (arith U64 (as_next_id s + 1));
  smodify (λ s, mkAccountStore (<[id := Account_new empty_keys_digest id balance]> (as_accounts s)) next);;
  mret id.

Definition as_get (s : AccountStore) (id : AccountId) : option Account := as_accounts s !! id.

Definition as_insert (id : AccountId) (a : Account) (s : AccountStore) : AccountStore :=
  mkAccountStore (<[id := a]> (as_accounts s)) (as_next_id s).

(** [accounts.values().map(|a| a.balance).sum()], over an iteration order of the
    map. *)
Definition total_balance {E} (entries : list (Z * Account)) : outcome E Z :=
  ofold (λ acc e, arith I64 (acc + acc_balance e.2)) 0 entries.

Definition AccountStore_restore (accounts : gmap Z Account) (next_id : Z) : AccountStore :=
  mkAccountStore accounts next_id.

(** ** Invariant: ids below [next_id] are used, each account knows its own id,
    and the MINT account exists. *)
Record store_wf (s : AccountStore) : Prop := {
  sw_ids : ∀ id a, as_get s id = Some a → acc_id a = id ∧ (id = AccountId_MINT ∨ 0 ≤ id < as_next_id s);
  sw_mint : is_Some (as_get s AccountId_MINT);
  sw_next : 0 ≤ as_next_id s;
}.

Lemma store_wf_new ekd : store_wf (AccountStore_new ekd).
Proof.
  split; unfold as_get; simpl; [|rewrite lookup_singleton_eq; eauto|done].
  intros id a [<- <-]%lookup_singleton_Some. auto.
Qed.

Lemma create_account_spec {E} ekd balance s :
  store_wf s → as_next_id s < int_max U64 →
  let id := as_next_id s in
  as_get s id = None ∧
  ∃ s', @create_account E ekd balance s = SOk s' id ∧ store_wf s' ∧ as_next_id s' = id + 1 ∧
    as_get s' id = Some (Account_new ekd id balance) ∧
    ∀ id', id' ≠ id → as_get s' id' = as_get s id'.
Proof.
  intros Hwf Hn id. unfold id.
  assert (as_next_id s ≠ AccountId_MINT) as Hne by (unfold AccountId_MINT; lia).
  destruct Hwf as [Hids [a Ha] Hnext].
  assert (as_get s (as_next_id s) = None) as Hfresh.
  { destruct (as_get s (as_next_id s)) eqn:Hg; [|done]. apply Hids in Hg as [_ [?|?]]; lia. }
  split; [done|]. unfold create_account.
  eexists (mkAccountStore (<[as_next_id s := _]> (as_accounts s)) (as_next_id s + 1)). split_and!.
  - cbv [mbind st_bind sget slift smodify]. rewrite arith_in by int_lia. reflexivity.
  - split; unfold as_get in *; simpl; [|rewrite lookup_insert_ne by done; eauto|lia].
    intros id' b. rewrite lookup_insert. case_decide; [intros [= <-]; simpl; subst; split; [done|lia]|].
    intros Hb. apply Hids in Hb. lia.
  - done.
  - unfold as_get. simpl. by rewrite lookup_insert_eq.
  - intros id' Hid. unfold as_get. simpl. by rewrite lookup_insert_ne.
Qed.
