(* ===== verification/Validation.v ===== *)
(** * Validation: admission checks and reservations

    Models [crates/matching-sequencer/src/validation.rs]: the shape check, the
    worst-case balance reservation of a buy, the position reservation of a
    sell, and validation against an account's free balance and positions. *)
From S2P Require Import Prelude Types Order Account.
#[local] Open Scope string_scope.
#[local] Open Scope list_scope.
#[local] Open Scope Z_scope.

Abbreviation Reservations := (list (Z * Z * Z)) (only parsing).

Definition validate_order_shape (o : Order) : outcome RejectionReason unit :=
  map_err InvalidOrder (validate_binary_one_hot o).

(** [OrderDirection] stands for [MmSide], which has the same four cases. *)
Definition mm_side_for_order (o : Order) : outcome RejectionReason OrderDirection :=
  validate_order_shape o;;
  p0 ← idx (ord_payoffs o) 0;
  p1 ← idx (ord_payoffs o) 1;
  if (p0 =? 1) && (p1 =? 0) then Ok BuyYes
  else if (p0 =? 0) && (p1 =? 1) then Ok BuyNo
  else if (p0 =? -1) && (p1 =? 0) then Ok SellYes
  else if (p0 =? 0) && (p1 =? -1) then Ok SellNo
  else Err (InvalidOrder "MM order payoff does not identify one binary side").

(** The crate-local [checked_notional_ceil_i64]. *)
Definition v_checked_notional_ceil_i64 (price qty : Z) : outcome RejectionReason Z :=
  numerator ← ok_or (chk I128 (price * qty)) (InvalidOrder "price*quantity overflow");
  sum ← ok_or (chk I128 (numerator + (SHARE_SCALE - 1))) (InvalidOrder "price*quantity overflow");
  ok_or (chk I64 (sum `quot` SHARE_SCALE)) (InvalidOrder "order notional exceeds i64").

(** The rejection text quotes the two amounts; only its fixed part is kept. *)
Definition validate_resting_order_shape (o : Order) (min_notional_nanos : Z)
    : outcome RejectionReason unit :=
  validate_order_shape o;;
  if ord_max_fill o =? 0
  then Err (InvalidOrder "resting order quantity must be greater than zero") else
  if ord_limit_price o =? 0
  then Err (InvalidOrder "resting order price must be greater than zero") else
  n ← v_checked_notional_ceil_i64 (ord_limit_price o) (ord_max_fill o);
  let notional := wrap U64 n in
  if notional <? min_notional_nanos
  then Err (InvalidOrder "resting order notional is below minimum") else Ok ().

Definition checked_sell_qty_i64 (payoff max_fill : Z) : option Z :=
  if 0 <=? payoff then None else
  qty ← chk I128 (- payoff * max_fill);
  chk I64 qty.

#[global] Arguments checked_sell_qty_i64 : simpl never.

Definition has_positive {E} (o : Order) : outcome E bool :=
  active ← slice_to (ord_payoffs o) (num_states o); Ok (existsb (λ p, 0 <? p) active).
Definition has_negative {E} (o : Order) : outcome E bool :=
  active ← slice_to (ord_payoffs o) (num_states o); Ok (existsb (λ p, p <? 0) active).

Definition balance_reservation (o : Order) : outcome RejectionReason Z :=
  pos ← has_positive o;
  neg ← has_negative o;
  if (pos : bool) && negb neg
  then v_checked_notional_ceil_i64 (ord_limit_price o) (ord_max_fill o)
  else Ok 0.

Definition validate_order_with_reservation (o : Order) (a : Account) (reserved_balance : Z)
    (reserved_positions : gmap (Z * Z) Z) : outcome RejectionReason Z :=
  validate_order_shape o;;
  pos ← has_positive o;
  neg ← has_negative o;
  if (pos : bool) && negb neg then
    max_cost ← balance_reservation o;
    available ← arith I64 (acc_balance a - reserved_balance);
    if available <? max_cost then Err (InsufficientBalance max_cost available)
    else Ok max_cost
  else if (neg : bool) && negb pos then
    if ord_num_markets o =? 1 then
      market ← idx (ord_markets o) 0;
      ofold (λ r s,
        p ← idx (ord_payoffs o) s;
        if p <? 0 then
          let out := Z.of_nat s in
          sell_qty ← ok_or (checked_sell_qty_i64 p (ord_max_fill o)) (InvalidOrder "sell quantity overflow");
          available ← arith I64 (acc_position a market out - get0 reserved_positions (market, out));
          if available <? sell_qty
          then Err (InsufficientPosition market out sell_qty available) else Ok r
        else Ok r) 0 (seq 0 (num_states o))
    else Ok 0
  else Ok 0.

Definition validate_order (o : Order) (a : Account) (reserved_positions : gmap (Z * Z) Z)
    : outcome RejectionReason unit :=
  validate_order_with_reservation o a 0 reserved_positions;; Ok ().

Definition sell_reservations {E} (o : Order) : outcome E Reservations :=
  pos ← has_positive o;
  neg ← has_negative o;
  if negb neg || (pos : bool) || negb (ord_num_markets o =? 1) then Ok [] else
  market ← idx (ord_markets o) 0;
  ofold (λ reservations s,
    p ← idx (ord_payoffs o) s;
    if p <? 0 then
      match checked_sell_qty_i64 p (ord_max_fill o) with
      | Some sell_qty => Ok (reservations ++ [(market, Z.of_nat s, sell_qty)])
      | None => Ok reservations
      end
    else Ok reservations) [] (seq 0 (num_states o)).

(** ** Reservations of admitted orders *)

(** Worst-case cash a buy can spend; nothing for a sell. *)
Definition bal_res (d : OrderDirection) (limit qty : Z) : Z :=
  if is_sell d then 0 else div_ceil (limit * qty) SHARE_SCALE.

(** Shares a sell can give up; nothing for a buy. *)
Definition pos_res (m : MarketId) (d : OrderDirection) (qty : Z) : Reservations :=
  if is_sell d then [(m, dir_outcome d, qty)] else [].

Lemma bal_res_bounds d limit qty :
  0 ≤ limit ≤ NANOS_PER_DOLLAR → 0 ≤ qty ≤ MAX_ORDER_QTY →
  0 ≤ bal_res d limit qty ≤ 1000000000000000.
Proof.
  intros Hl Hq. pose proof (admissible_notional limit qty Hl Hq). unfold bal_res.
  destruct (is_sell d); lia.
Qed.

Lemma v_checked_notional_ceil_admissible p q :
  0 ≤ p ≤ NANOS_PER_DOLLAR → 0 ≤ q ≤ MAX_ORDER_QTY →
  v_checked_notional_ceil_i64 p q = Ok (div_ceil (p * q) SHARE_SCALE).
Proof.
  intros Hp Hq. pose proof (admissible_notional p q Hp Hq).
  assert (0 ≤ p * q ≤ 1000000000000000000) by mnia.
  unfold v_checked_notional_ceil_i64. rewrite chk_in by mlia. simpl.
  rewrite chk_in by mlia. cbn [mbind outcome_bind ok_or].
  rewrite Z.quot_div_nonneg by mlia. rewrite div_ceil_add by done. by rewrite chk_in by mlia.
Qed.

Section one_hot.
Context (o : Order) (m : MarketId) (d : OrderDirection) (Hoh : one_hot o m d).
Context (Hlim : 0 ≤ ord_limit_price o) (Hqty : 0 ≤ ord_max_fill o).

Lemma one_hot_has_positive {E} : @has_positive E o = Ok (negb (is_sell d)).
Proof using Hoh. unfold has_positive, num_states. rewrite (oh_payoffs _ _ _ Hoh), (oh_num_states _ _ _ Hoh). by destruct d. Qed.

Lemma one_hot_has_negative {E} : @has_negative E o = Ok (is_sell d).
Proof using Hoh. unfold has_negative, num_states. rewrite (oh_payoffs _ _ _ Hoh), (oh_num_states _ _ _ Hoh). by destruct d. Qed.

Lemma one_hot_bounds :
    0 ≤ ord_limit_price o ≤ NANOS_PER_DOLLAR ∧ 0 ≤ ord_max_fill o ≤ MAX_ORDER_QTY.
Proof using Hoh Hlim Hqty. pose proof (oh_limit _ _ _ Hoh). pose proof (oh_max_fill _ _ _ Hoh). lia. Qed.

Lemma one_hot_balance_reservation :
    balance_reservation o = Ok (bal_res d (ord_limit_price o) (ord_max_fill o)).
Proof using Hoh Hlim Hqty.
    unfold balance_reservation, bal_res. rewrite one_hot_has_positive, one_hot_has_negative. simpl.
    destruct (is_sell d); [done|]. simpl.
    destruct one_hot_bounds. apply v_checked_notional_ceil_admissible; lia.
Qed.

Lemma one_hot_checked_sell_qty :
    checked_sell_qty_i64 (-1) (ord_max_fill o) = Some (ord_max_fill o).
Proof using Hoh Hlim Hqty.
    pose proof one_hot_bounds. unfold checked_sell_qty_i64. change (0 <=? -1) with false. cbv iota.
    replace (- (-1) * ord_max_fill o) with (ord_max_fill o) by lia.
    rewrite chk_in by mlia. simpl. by rewrite chk_in by mlia.
Qed.

Lemma one_hot_sell_reservations {E} : @sell_reservations E o = Ok (pos_res m d (ord_max_fill o)).
Proof using Hoh Hlim Hqty.
    unfold sell_reservations, pos_res. rewrite one_hot_has_positive, one_hot_has_negative.
    rewrite (oh_num_markets _ _ _ Hoh), (oh_markets _ _ _ Hoh), (oh_payoffs _ _ _ Hoh).
    unfold num_states. rewrite (oh_num_states _ _ _ Hoh). change (seq 0 (Z.to_nat 2)) with [0%nat; 1%nat].
    pose proof one_hot_checked_sell_qty as Hsell.
    destruct d; simpl; rewrite ?Hsell; done.
Qed.

  (** Validation of a buy looks at the free balance, of a sell at the free shares. *)
Lemma one_hot_validate_with_reservation a rb rp :
    validate_order_with_reservation o a rb rp =
      (if is_sell d then
         available ← arith I64 (acc_position a m (dir_outcome d) - get0 rp (m, dir_outcome d));
         if available <? ord_max_fill o
         then Err (InsufficientPosition m (dir_outcome d) (ord_max_fill o) available) else Ok 0
       else
         available ← arith I64 (acc_balance a - rb);
         if available <? bal_res d (ord_limit_price o) (ord_max_fill o)
         then Err (InsufficientBalance (bal_res d (ord_limit_price o) (ord_max_fill o)) available)
         else Ok (bal_res d (ord_limit_price o) (ord_max_fill o))).
Proof using Hoh Hlim Hqty.
    unfold validate_order_with_reservation, validate_order_shape.
    rewrite (validate_one_hot _ _ _ Hoh), one_hot_balance_reservation.
    rewrite one_hot_has_positive, one_hot_has_negative.
    rewrite (oh_num_markets _ _ _ Hoh), (oh_markets _ _ _ Hoh), (oh_payoffs _ _ _ Hoh).
    unfold num_states. rewrite (oh_num_states _ _ _ Hoh). change (seq 0 (Z.to_nat 2)) with [0%nat; 1%nat].
    pose proof one_hot_checked_sell_qty as Hsell.
    destruct d; simpl; rewrite ?Hsell; simpl;
      change (Z.of_nat 0) with 0; change (Z.of_nat 1) with 1;
      try done; destruct (arith I64 _); simpl; try done; by case_match.
Qed.
End one_hot.

(** A successful validation tells the order's shape and that it is covered. *)
Lemma validate_with_reservation_Ok o a rb rp cost :
  order_wf o → validate_order_with_reservation o a rb rp = Ok cost →
  ∃ m d, one_hot o m d ∧ cost = bal_res d (ord_limit_price o) (ord_max_fill o) ∧
    (if is_sell d then ord_max_fill o ≤ acc_position a m (dir_outcome d) - get0 rp (m, dir_outcome d)
     else cost ≤ acc_balance a - rb).
Proof.
  intros Hwf Hval.
  assert (validate_binary_one_hot o = Ok ()) as Hs.
  { unfold validate_order_with_reservation, validate_order_shape in Hval.
    by destruct (validate_binary_one_hot o) as [[]| |]. }
  destruct (one_hot_validate o Hwf Hs) as (m & d & Hoh). exists m, d. split; [done|].
  rewrite (one_hot_validate_with_reservation o m d) in Hval; [|done|apply Hwf..].
  destruct (is_sell d) eqn:Hd.
  - destruct (arith _ _) as [av| |] eqn:Hav; [|done..]. apply arith_Ok in Hav as [-> ?]. simpl in Hval.
    case_match; simplify_eq. split; [by unfold bal_res; rewrite Hd|]. lia.
  - destruct (arith _ _) as [av| |] eqn:Hav; [|done..]. apply arith_Ok in Hav as [-> ?]. simpl in Hval.
    case_match; simplify_eq. split; [done|]. lia.
Qed.

Lemma validation_cannot_panic o a rb rp :
  order_wf o → i64 (acc_balance a - rb) → (∀ k, i64 (get0 (acc_positions a) k - get0 rp k)) →
  validate_order_with_reservation o a rb rp ≠ Panic.
Proof.
  intros Hwf Hb Hp. destruct (validate_binary_one_hot o) as [[]|e|] eqn:Hs.
  - destruct (one_hot_validate o Hwf Hs) as (m & d & Hoh).
    rewrite (one_hot_validate_with_reservation o m d); [|done|apply Hwf..].
    specialize (Hp (m, dir_outcome d)). unfold acc_position in *.
    destruct (is_sell d); rewrite arith_in by assumption; simpl; by case_match.
  - unfold validate_order_with_reservation, validate_order_shape. by rewrite Hs.
  - by destruct (validate_not_Panic o Hwf).
Qed.

(** ** Properties *)

(** An order passes [validate_order_with_reservation] exactly when it has
    the admitted shape and its worst case is covered: a buy by the balance left
    after existing balance reservations, a sell by the position left after
    existing position reservations; the returned cost is the ceiled worst-case
    cash outlay (zero for a sell).  The balance and position differences are
    assumed to be representable, as the unchecked subtractions need. *)
Theorem validation_is_collateral_check (o : Order) (a : Account) (rb : Z)
    (rp : gmap (Z * Z) Z) (cost : Z) :
  order_wf o → i64 (acc_balance a - rb) →
  (∀ k, i64 (get0 (acc_positions a) k - get0 rp k)) →
  (validate_order_with_reservation o a rb rp = Ok cost ↔
   ∃ m d, one_hot o m d ∧ cost = bal_res d (ord_limit_price o) (ord_max_fill o) ∧
     (if is_sell d then ord_max_fill o ≤ acc_position a m (dir_outcome d) - get0 rp (m, dir_outcome d)
      else cost ≤ acc_balance a - rb)) ∧
  validate_order_with_reservation o a rb rp ≠ Panic.
Proof.
  intros Hwf Hb Hp. split; [split; [by apply validate_with_reservation_Ok|]|].
  - intros (m & d & Hoh & Hcost & Hcov).
    rewrite (one_hot_validate_with_reservation o m d); [|done|apply Hwf..].
    specialize (Hp (m, dir_outcome d)). unfold acc_position in *.
    destruct (is_sell d) eqn:Hd; rewrite arith_in by assumption; simpl.
    + destruct (Z.ltb_spec (get0 (acc_positions a) (m, dir_outcome d) - get0 rp (m, dir_outcome d)) (ord_max_fill o));
        [lia|]. rewrite Hcost. unfold bal_res. by rewrite Hd.
    + rewrite <- Hcost. destruct (Z.ltb_spec (acc_balance a - rb) cost); [lia|done].
  - by apply validation_cannot_panic.
Qed.

Lemma validation_is_collateral_check_witness :
  let a := set_positions {[(3, 0) := 500]} (Account_new (λ _, []) 1 2500000000) in
  (validate_order_with_reservation (binary_order 7 3 BuyNo 400000000 5000) a 400000000 ∅ = Ok 2000000000 ↔
   ∃ m d, one_hot (binary_order 7 3 BuyNo 400000000 5000) m d ∧
     2000000000 = bal_res d 400000000 5000 ∧
     (if is_sell d then 5000 ≤ acc_position a m (dir_outcome d) - get0 ∅ (m, dir_outcome d)
      else 2000000000 ≤ acc_balance a - 400000000)) ∧
  validate_order_with_reservation (binary_order 7 3 BuyNo 400000000 5000) a 400000000 ∅ ≠ Panic.
Proof.
  apply (validation_is_collateral_check (binary_order 7 3 BuyNo 400000000 5000)
    (set_positions {[(3, 0) := 500]} (Account_new (λ _, []) 1 2500000000)) 400000000 ∅ 2000000000).
  - apply binary_order_wf; vm_compute; split; discriminate.
  - vm_compute; split; discriminate.
  - intros k. rewrite get0_empty, Z.sub_0_r. cbn [acc_positions set_positions]. unfold get0.
    destruct (decide (k = (3, 0))) as [->|Hk]; [vm_compute; split; discriminate|].
    rewrite lookup_singleton_ne by done. vm_compute; split; discriminate.
Defined.
