(* ===== verification/OrderBook.v ===== *)
(** * OrderBook: resting orders and aggregate reservations

    Models [crates/matching-sequencer/src/order_book.rs] in full: acceptance,
    expiry, revalidation, cancellation, settlement against fills, release of
    reservations, replay, snapshot/restore and restore-time validation.  Each
    method on [&mut self] is a computation in the state monad over [OrderBook];
    the state reached before an early return is kept, as in Rust. *)
From S2P Require Import Prelude Types Order Account Validation.

Inductive RestingExit := Settled | RExpired.

Inductive RestingRevalidationExit :=
  | MarketInactive
  | AccountGone
  | AccountInsolvent
  | Rejected (reason : RejectionReason).

Record RestingOrder := mkRestingOrder {
  ro_order : Order;
  ro_account_id : AccountId;
  ro_created_at : Z;
  ro_expires_at_block : Z;
  ro_reserved_balance : Z;
  ro_reserved_positions : Reservations;
  ro_has_been_matched : bool;
  ro_original_max_fill : Z;
  ro_created_at_ms : Z;
}.

#[global] Instance RestingOrder_eq_dec : EqDecision RestingOrder.
Proof. solve_decision. Defined.

Record OrderBook := mkOrderBook {
  ob_orders : list RestingOrder;
  ob_balance_reservations : gmap Z Z;
  ob_position_reservations : gmap (Z * (Z * Z)) Z;
  ob_ttl : Z;
}.

Record Accepted := mkAccepted {
  ac_order : Order;
  ac_account_id : AccountId;
  ac_resting_order : RestingOrder;
}.

Inductive ReservationError :=
  | NegativeReplayReservation (account_id order_id : Z)
  | BalanceOverRelease (account_id currently_reserved attempted_release : Z)
  | PositionOverRelease (account_id market outcome currently_reserved attempted_release : Z).

Inductive CancelError :=
  | CancelNotFound
  | CancelWrongOwner
  | CancelReservation (e : ReservationError).

Inductive ReservationRestoreError :=
  | BalanceMismatch (account_id stored recomputed : Z)
  | PositionMismatch (account_id market outcome stored recomputed : Z)
  | OrderBalanceMismatch (account_id order_id stored recomputed : Z)
  | OrderBalanceBelowMinimum (account_id order_id stored minimum : Z)
  | OrderBalanceAboveMaximum (account_id order_id stored maximum : Z)
  | OrderPositionsMismatch (account_id order_id : Z) (stored recomputed : Reservations)
  | RestoreInvalidOrder (account_id order_id : Z) (reason : RejectionReason).

(** ** Field updates *)

Definition set_orders (l : list RestingOrder) (b : OrderBook) : OrderBook :=
  mkOrderBook l (ob_balance_reservations b) (ob_position_reservations b) (ob_ttl b).
Definition set_bal (m : gmap Z Z) (b : OrderBook) : OrderBook :=
  mkOrderBook (ob_orders b) m (ob_position_reservations b) (ob_ttl b).
Definition set_pos (m : gmap (Z * (Z * Z)) Z) (b : OrderBook) : OrderBook :=
  mkOrderBook (ob_orders b) (ob_balance_reservations b) m (ob_ttl b).
Definition set_matched (b : bool) (ro : RestingOrder) : RestingOrder :=
  mkRestingOrder (ro_order ro) (ro_account_id ro) (ro_created_at ro) (ro_expires_at_block ro)
    (ro_reserved_balance ro) (ro_reserved_positions ro) b (ro_original_max_fill ro) (ro_created_at_ms ro).

(** ** Releasing reservations *)

Definition release_balance (account_id : AccountId) (amount : Z) : st OrderBook ReservationError unit :=
  b ← sget;
  let currently_reserved := get0 (ob_balance_reservations b) account_id in
  if currently_reserved <? amount
  then sfail (BalanceOverRelease account_id currently_reserved amount)
  else if amount =? currently_reserved
  then smodify (set_bal (delete account_id (ob_balance_reservations b)))
  else if 0 <? amount then
    v ← slift (expect (ob_balance_reservations b !! account_id));
    v' ← slift (arith I64 (v - amount));
    smodify (set_bal (<[account_id := v']> (ob_balance_reservations b)))
  else mret ().

Definition release_position (account_id : AccountId) (key : PositionKey) (amount : Z)
    : st OrderBook ReservationError unit :=
  b ← sget;
  let currently_reserved := get0 (ob_position_reservations b) (account_id, key) in
  if currently_reserved <? amount
  then sfail (PositionOverRelease account_id key.1 key.2 currently_reserved amount)
  else if amount =? currently_reserved
  then smodify (set_pos (delete (account_id, key) (ob_position_reservations b)))
  else if 0 <? amount then
    v ← slift (expect (ob_position_reservations b !! (account_id, key)));
    v' ← slift (arith I64 (v - amount));
    smodify (set_pos (<[(account_id, key) := v']> (ob_position_reservations b)))
  else mret ().

Definition release_reservations (ro : RestingOrder) : st OrderBook ReservationError unit :=
  b ← sget;
  let current_balance := get0 (ob_balance_reservations b) (ro_account_id ro) in
  if current_balance <? ro_reserved_balance ro
  then sfail (BalanceOverRelease (ro_account_id ro) current_balance (ro_reserved_balance ro)) else
  sforeach (λ '(key, qty),
    b ← sget;
    let currently_reserved := get0 (ob_position_reservations b) (ro_account_id ro, key) in
    if currently_reserved <? qty
    then sfail (PositionOverRelease (ro_account_id ro) key.1 key.2 currently_reserved qty)
    else mret ()) (ro_reserved_positions ro);;
  (if 0 <? ro_reserved_balance ro
   then release_balance (ro_account_id ro) (ro_reserved_balance ro) else mret ());;
  sforeach (λ '(key, qty), release_position (ro_account_id ro) key qty) (ro_reserved_positions ro).

(** ** Queries *)

Definition cancel_index (b : OrderBook) (account_id : AccountId) (order_id : Z) : outcome CancelError nat :=
  match list_find (λ ro, ord_id (ro_order ro) = order_id) (ob_orders b) with
  | None => Err CancelNotFound
  | Some (index, ro) =>
      if negb (ro_account_id ro =? account_id) then Err CancelWrongOwner else Ok index
  end.

Definition can_cancel (b : OrderBook) (account_id : AccountId) (order_id : Z) : outcome CancelError unit :=
  _ ← cancel_index b account_id order_id; Ok ().

Definition OrderBook_new (ttl : Z) : OrderBook := mkOrderBook [] ∅ ∅ ttl.

Definition snapshot (b : OrderBook) : list RestingOrder := ob_orders b.

Definition reserved_balance (b : OrderBook) (account_id : AccountId) : Z :=
  get0 (ob_balance_reservations b) account_id.

Definition acct_position_reservations (b : OrderBook) (account_id : AccountId) : gmap (Z * Z) Z :=
  list_to_map (omap (λ '((aid, key), qty), if aid =? account_id then Some (key, qty) else None)
    (map_to_list (ob_position_reservations b))).

Definition orders_for_account (b : OrderBook) (account_id : AccountId) : nat :=
  length (filter (λ ro, ro_account_id ro = account_id) (ob_orders b)).

(** ** Adding orders *)

(** Add one order's reservations to the aggregates. *)
Definition add_reservations {E} (account_id : AccountId) (cost : Z) (pos : Reservations)
    : st OrderBook E unit :=
  (if 0 <? cost then
     b ← sget;
     m ← slift (add0 I64 (ob_balance_reservations b) account_id cost);
     smodify (set_bal m)
   else mret ());;
  sforeach (λ '(key, qty),
    b ← sget;
    m ← slift (add0 I64 (ob_position_reservations b) (account_id, key) qty);
    smodify (set_pos m)) pos.

Definition invalid_reservation (ro : RestingOrder) : bool :=
  (ro_reserved_balance ro <? 0) || existsb (λ '(_, qty), qty <? 0) (ro_reserved_positions ro).

Definition push_order {E} (ro : RestingOrder) : st OrderBook E unit :=
  smodify (λ b, set_orders (ob_orders b ++ [ro]) b).

Definition restore {E} (orders : list RestingOrder) (ttl : Z) : outcome E OrderBook :=
  match sforeach (E := E) (λ ro,
    if invalid_reservation ro then mret () else
    add_reservations (ro_account_id ro) (ro_reserved_balance ro) (ro_reserved_positions ro);;
    push_order ro) orders (OrderBook_new ttl) with
  | SOk b _ => Ok b
  | SErr _ e => Err e
  | SPanic => Panic
  end.

Definition reinsert_for_replay (ro : RestingOrder) : st OrderBook ReservationError unit :=
  if invalid_reservation ro
  then sfail (NegativeReplayReservation (ro_account_id ro) (ord_id (ro_order ro))) else
  add_reservations (ro_account_id ro) (ro_reserved_balance ro) (ro_reserved_positions ro);;
  push_order ro.

Definition accept (o : Order) (account_id : AccountId) (account : Account)
    (current_height created_at_ms : Z) : st OrderBook RejectionReason Accepted :=
  b ← sget;
  let reserved := reserved_balance b account_id in
  let acct_positions := acct_position_reservations b account_id in
  cost ← slift (validate_order_with_reservation o account reserved acct_positions);
  pos_reservations ← slift (sell_reservations o);
  add_reservations account_id cost pos_reservations;;
  let resting := {|
    ro_order := o; ro_account_id := account_id; ro_created_at := current_height;
    ro_expires_at_block := effective_expires_at_block o current_height (ob_ttl b);
    ro_reserved_balance := cost; ro_reserved_positions := pos_reservations;
    ro_has_been_matched := false; ro_original_max_fill := ord_max_fill o;
    ro_created_at_ms := created_at_ms |} in
  push_order resting;;
  mret (mkAccepted o account_id resting).

(** ** Expiry *)

(** The loops that [drain(..)] the order list leave it empty until the kept
    orders are written back, also on an early return. *)
Definition expire_where (should_expire : RestingOrder → bool)
    : st OrderBook ReservationError (list RestingOrder) :=
  b ← sget;
  smodify (set_orders []);;
  '(removed, kept) ← sfold (λ '(removed, kept) ro,
    if should_expire ro then release_reservations ro;; mret (removed ++ [ro], kept)
    else mret (removed, kept ++ [ro])) ([], []) (ob_orders b);
  smodify (set_orders kept);;
  mret removed.

Definition expire (current_height : Z) : st OrderBook ReservationError (list RestingOrder) :=
  expire_where (λ ro, ro_expires_at_block ro <? current_height).

Definition expire_committed_through (current_height : Z)
    : st OrderBook ReservationError (list RestingOrder) :=
  expire_where (λ ro, ro_expires_at_block ro <=? current_height).

(** ** Revalidation *)

(** The reason, if any, for which [ro] must leave the book. *)
Definition revalidate_order {E} (b : OrderBook) (accounts : gmap Z Account) (active : gset Z)
    (ro : RestingOrder) : outcome E (option RestingRevalidationExit) :=
  if negb (forallb (λ m, bool_decide (m ∈ active)) (active_markets (ro_order ro)))
  then Ok (Some MarketInactive) else
  match accounts !! ro_account_id ro with
  | None => Ok (Some AccountGone)
  | Some account =>
      if acc_balance account <=? 0 then Ok (Some AccountInsolvent) else
      reserved_without_self ←
        arith I64 (get0 (ob_balance_reservations b) (ro_account_id ro) - ro_reserved_balance ro);
      positions_without_self ← ofold (λ pos '(key, qty),
        match pos !! key with
        | Some v => v' ← arith I64 (v - qty); Ok (<[key := v']> pos)
        | None => Ok pos
        end) (acct_position_reservations b (ro_account_id ro)) (ro_reserved_positions ro);
      match validate_order_with_reservation (ro_order ro) account
              reserved_without_self positions_without_self with
      | Ok _ => Ok None
      | Err reason => Ok (Some (Rejected reason))
      | Panic => Panic
      end
  end.

(** [self.orders.remove(i)] *)
Definition remove_order {E} (i : nat) : st OrderBook E RestingOrder :=
  b ← sget;
  ro ← slift (expect (ob_orders b !! i));
  smodify (set_orders (delete i (ob_orders b)));;
  mret ro.

Definition revalidate (accounts : gmap Z Account) (active : gset Z)
    : st OrderBook ReservationError (list (RestingOrder * RestingRevalidationExit)) :=
  b ← sget;
  '(_, to_remove) ← slift (ofold (λ '(i, to_remove) ro,
      r ← revalidate_order b accounts active ro;
      Ok (S i, match r with Some reason => to_remove ++ [(i, reason)] | None => to_remove end))
    (0%nat, []) (ob_orders b));
  sfold (λ removed '(i, reason),
    ro ← remove_order i;
    release_reservations ro;;
    mret (removed ++ [(ro, reason)])) [] (reverse to_remove).

(** ** Cancellation *)

Definition cancel (account_id : AccountId) (order_id : Z) : st OrderBook CancelError RestingOrder :=
  b ← sget;
  index ← slift (cancel_index b account_id order_id);
  ro ← slift (idx (ob_orders b) index);
  smap_err CancelReservation (release_reservations ro);;
  remove_order index.

Definition cancel_accepted (accepted : Accepted) : st OrderBook CancelError RestingOrder :=
  cancel (ac_account_id accepted) (ord_id (ac_order accepted)).

(** ** Settlement *)

(** The [u64] fill-quantity map: zero fills are skipped. *)
Definition filled_qty_map {E} (fills : list Fill) : outcome E (gmap Z Z) :=
  ofold (λ m f, if 0 <? fill_qty f then add0 U64 m (fill_order_id f) (fill_qty f) else Ok m) ∅ fills.

(** The partially filled branch: scale the reservations to the remainder. *)
Definition settle_partial (ro : RestingOrder) (filled : Z) : st OrderBook ReservationError RestingOrder :=
  let max_fill := ord_max_fill (ro_order ro) in
  remaining ← slift (arith U64 (max_fill - filled));
  let old_cost := ro_reserved_balance ro in
  c ← slift (ceil_mul_ratio (wrap U64 old_cost) remaining max_fill);
  let new_cost := wrap I64 c in
  released_balance ← slift (arith I64 (old_cost - new_cost));
  (if 0 <? released_balance then release_balance (ro_account_id ro) released_balance else mret ());;
  new_pos_reservations ← smap (λ '(key, qty),
    q ← slift (ceil_mul_ratio (wrap U64 qty) remaining max_fill);
    let new_qty := wrap I64 q in
    released ← slift (arith I64 (qty - new_qty));
    (if 0 <? released then release_position (ro_account_id ro) key released else mret ());;
    mret (key, new_qty)) (ro_reserved_positions ro);
  mret {|
    ro_order := set_max_fill remaining (ro_order ro); ro_account_id := ro_account_id ro;
    ro_created_at := ro_created_at ro; ro_expires_at_block := ro_expires_at_block ro;
    ro_reserved_balance := new_cost; ro_reserved_positions := new_pos_reservations;
    ro_has_been_matched := true; ro_original_max_fill := ro_original_max_fill ro;
    ro_created_at_ms := ro_created_at_ms ro |}.

Definition settle_step (filled_qty : gmap Z Z) (mm_order_ids : gset Z) (current_height : Z)
    (acc : list RestingOrder * list (RestingOrder * RestingExit)) (ro0 : RestingOrder)
    : st OrderBook ReservationError (list RestingOrder * list (RestingOrder * RestingExit)) :=
  let '(new_orders, removed) := acc in
  if bool_decide (ord_id (ro_order ro0) ∈ mm_order_ids) then
    release_reservations ro0;; mret (new_orders, removed ++ [(ro0, Settled)])
  else
  let filled := get0 filled_qty (ord_id (ro_order ro0)) in
  let ro := if 0 <? filled then set_matched true ro0 else ro0 in
  if ord_max_fill (ro_order ro) <=? filled then
    release_reservations ro;; mret (new_orders, removed ++ [(ro, Settled)])
  else if ro_expires_at_block ro <=? current_height then
    release_reservations ro;; mret (new_orders, removed ++ [(ro, RExpired)])
  else if 0 <? filled then
    remainder ← settle_partial ro filled;
    mret (new_orders ++ [remainder], removed)
  else mret (new_orders ++ [ro], removed).

Definition settle (fills : list Fill) (mm_order_ids : gset Z) (current_height : Z)
    : st OrderBook ReservationError (list (RestingOrder * RestingExit)) :=
  filled_qty ← slift (filled_qty_map fills);
  b ← sget;
  smodify (set_orders []);;
  '(new_orders, removed) ←
    sfold (settle_step filled_qty mm_order_ids current_height) ([], []) (ob_orders b);
  smodify (set_orders new_orders);;
  mret removed.
