(* ===== verification/Snapshots.v ===== *)
(** * Snapshots: canonical sidecar leaves and restore-time validation

    Models the second half of [crates/matching-sequencer/src/order_book.rs]: the
    canonical snapshots of resting orders and of aggregate reservations that are
    committed in the state root (types from [crates/sybil-verifier/src/types.rs]),
    and the two fail-closed checks run on persisted reservations at restore. *)
From S2P Require Import Prelude Types Order Account Validation OrderBook.

(** [(market, outcome, qty)] *)
Record RestingOrderSnapshot := mkRestingOrderSnapshot {
  ros_order : Order;
  ros_account_id : Z;
  ros_created_at : Z;
  ros_expires_at_block : Z;
  ros_reserved_balance : Z;
  ros_reserved_positions : list (Z * Z * Z);
}.

#[global] Instance RestingOrderSnapshot_eq_dec : EqDecision RestingOrderSnapshot.
Proof. solve_decision. Defined.

Record AccountReservationSnapshot := mkAccountReservationSnapshot {
  ars_account_id : Z;
  ars_reserved_balance : Z;
  ars_reserved_positions : list (Z * Z * Z);
}.

#[global] Instance AccountReservationSnapshot_eq_dec : EqDecision AccountReservationSnapshot.
Proof. solve_decision. Defined.

(** Lexicographic order on [(market, outcome)]. *)
Definition pos_key_le (a b : Z * Z * Z) : Prop :=
  a.1.1 < b.1.1 ∨ a.1.1 = b.1.1 ∧ a.1.2 ≤ b.1.2.
#[global] Instance pos_key_le_dec : RelDecision pos_key_le.
Proof. intros a b. unfold pos_key_le. apply _. Defined.
Definition sort_positions (l : list (Z * Z * Z)) : list (Z * Z * Z) := stable_sort pos_key_le l.

Definition resting_order_snapshot (ro : RestingOrder) : RestingOrderSnapshot := {|
  ros_order := ro_order ro;
  ros_account_id := ro_account_id ro;
  ros_created_at := ro_created_at ro;
  ros_expires_at_block := ro_expires_at_block ro;
  ros_reserved_balance := ro_reserved_balance ro;
  ros_reserved_positions := sort_positions (ro_reserved_positions ro);
|}.

Definition order_id_le (a b : RestingOrderSnapshot) : Prop :=
  ord_id (ros_order a) ≤ ord_id (ros_order b).
#[global] Instance order_id_le_dec : RelDecision order_id_le.
Proof. intros a b. unfold order_id_le. apply _. Defined.

Definition resting_order_snapshots (orders : list RestingOrder) : list RestingOrderSnapshot :=
  stable_sort order_id_le (resting_order_snapshot <$> orders).

Definition state_root_orders (b : OrderBook) : list RestingOrderSnapshot :=
  resting_order_snapshots (ob_orders b).

(** [by_account.entry(id).or_insert_with(..)] *)
Definition snapshot_entry (m : gmap Z AccountReservationSnapshot) (id : Z) : AccountReservationSnapshot :=
  default (mkAccountReservationSnapshot id 0 []) (m !! id).

(** The bodies of the loops over the two aggregate maps; zero entries are
    skipped. *)
Definition balance_leaf_step {E} (m : gmap Z AccountReservationSnapshot) (entry : Z * Z)
    : outcome E (gmap Z AccountReservationSnapshot) :=
  let '(account_id, reserved_balance) := entry in
  if reserved_balance =? 0 then Ok m else
  let e := snapshot_entry m account_id in
  z ← arith I64 (ars_reserved_balance e + reserved_balance);
  Ok (<[account_id := mkAccountReservationSnapshot (ars_account_id e) z (ars_reserved_positions e)]> m).

Definition position_leaf_step {E} (m : gmap Z AccountReservationSnapshot) (entry : Z * (Z * Z) * Z)
    : outcome E (gmap Z AccountReservationSnapshot) :=
  let '((account_id, (market, out)), qty) := entry in
  if qty =? 0 then Ok m else
  let e := snapshot_entry m account_id in
  Ok (<[account_id := mkAccountReservationSnapshot (ars_account_id e) (ars_reserved_balance e)
         (ars_reserved_positions e ++ [(market, out, qty)])]> m).

(** The leaf of an account with its positions in canonical order. *)
Definition sorted_leaf (e : AccountReservationSnapshot) : AccountReservationSnapshot :=
  mkAccountReservationSnapshot (ars_account_id e) (ars_reserved_balance e) (sort_positions (ars_reserved_positions e)).

(** The two aggregate maps are walked in some iteration order, given here as
    entry lists. *)
Definition reservation_snapshots_from_aggregates {E}
    (balance_entries : list (Z * Z)) (position_entries : list (Z * (Z * Z) * Z))
    : outcome E (list AccountReservationSnapshot) :=
  m1 ← ofold balance_leaf_step ∅ balance_entries;
  m2 ← ofold position_leaf_step m1 position_entries;
  Ok (sorted_leaf <$> (sort_by_key (map_to_list m2)).*2).

Definition state_root_reservations {E} (b : OrderBook) : outcome E (list AccountReservationSnapshot) :=
  reservation_snapshots_from_aggregates
    (map_to_list (ob_balance_reservations b)) (map_to_list (ob_position_reservations b)).

Definition reservation_snapshots_from_resting_orders {E} (orders : list RestingOrder)
    : outcome E (list AccountReservationSnapshot) :=
  '(bal, pos) ← ofold (λ '(bal, pos) ro,
    bal' ← (if 0 <? ro_reserved_balance ro
            then add0 I64 bal (ro_account_id ro) (ro_reserved_balance ro) else Ok bal);
    pos' ← ofold (λ pos '(key, qty),
      if negb (qty =? 0) then add0 I64 pos (ro_account_id ro, key) qty else Ok pos)
      pos (ro_reserved_positions ro);
    Ok (bal', pos')) (∅, ∅) orders;
  reservation_snapshots_from_aggregates (map_to_list bal) (map_to_list pos).

(** ** Restore-time validation *)

Definition validate_restored_order (ro : RestingOrder) : outcome ReservationRestoreError unit :=
  let invalid := RestoreInvalidOrder (ro_account_id ro) (ord_id (ro_order ro)) in
  map_err invalid (validate_order_shape (ro_order ro));;
  minimum ← map_err invalid (balance_reservation (ro_order ro));
  recomputed_positions ← sell_reservations (ro_order ro);
  if negb (bool_decide (ro_reserved_positions ro = recomputed_positions))
  then Err (OrderPositionsMismatch (ro_account_id ro) (ord_id (ro_order ro))
              (ro_reserved_positions ro) recomputed_positions) else
  if negb (ro_has_been_matched ro) then
    if negb (ro_reserved_balance ro =? minimum)
    then Err (OrderBalanceMismatch (ro_account_id ro) (ord_id (ro_order ro)) (ro_reserved_balance ro) minimum)
    else Ok ()
  else
  if ro_reserved_balance ro <? minimum
  then Err (OrderBalanceBelowMinimum (ro_account_id ro) (ord_id (ro_order ro)) (ro_reserved_balance ro) minimum) else
  if ord_max_fill (ro_order ro) <? ro_original_max_fill ro then
    let original := set_max_fill (ro_original_max_fill ro) (ro_order ro) in
    maximum ← map_err invalid (validate_order_shape original;; balance_reservation original);
    if maximum <? ro_reserved_balance ro
    then Err (OrderBalanceAboveMaximum (ro_account_id ro) (ord_id (ro_order ro)) (ro_reserved_balance ro) maximum)
    else Ok ()
  else Ok ().

Definition validate_restored_reservations (orders : list RestingOrder)
    : outcome ReservationRestoreError unit :=
  ofold (λ _ ro, validate_restored_order ro) () orders.

(** [totals.entry(k).or_default().0 += v] and [.1 += v] on [i128]s. *)
Definition bump_stored `{Countable K} (m : gmap K (Z * Z)) (k : K) (v : Z)
    : outcome ReservationRestoreError (gmap K (Z * Z)) :=
  let '(s, r) := default (0, 0) (m !! k) in z ← arith I128 (s + v); Ok (<[k := (z, r)]> m).
Definition bump_recomputed `{Countable K} (m : gmap K (Z * Z)) (k : K) (v : Z)
    : outcome ReservationRestoreError (gmap K (Z * Z)) :=
  let '(s, r) := default (0, 0) (m !! k) in z ← arith I128 (r + v); Ok (<[k := (s, z)]> m).

(** Lexicographic order on [(account, market, outcome)] keys. *)
Definition key3_le {A} (a b : (Z * Z * Z) * A) : Prop :=
  a.1.1.1 < b.1.1.1 ∨ a.1.1.1 = b.1.1.1 ∧
    (a.1.1.2 < b.1.1.2 ∨ a.1.1.2 = b.1.1.2 ∧ a.1.2 ≤ b.1.2).
#[global] Instance key3_le_dec {A} : RelDecision (@key3_le A).
Proof. intros a b. unfold key3_le. apply _. Defined.

Definition validate_restored_account_reservations (orders : list RestingOrder)
    (persisted : list AccountReservationSnapshot) : outcome ReservationRestoreError unit :=
  '(bt, pt) ← ofold (λ '(bt, pt) s,
    bt' ← bump_stored bt (ars_account_id s) (ars_reserved_balance s);
    pt' ← ofold (λ pt '(market, out, qty), bump_stored pt (ars_account_id s, market, out) qty)
            pt (ars_reserved_positions s);
    Ok (bt', pt')) (∅, ∅) persisted;
  '(bt, pt) ← ofold (λ '(bt, pt) ro,
    bt' ← bump_recomputed bt (ro_account_id ro) (ro_reserved_balance ro);
    pt' ← ofold (λ pt '((market, out), qty), bump_recomputed pt (ro_account_id ro, market, out) qty)
            pt (ro_reserved_positions ro);
    Ok (bt', pt')) (bt, pt) orders;
  ofold (λ _ '(account_id, (stored, recomputed)),
    if negb (stored =? recomputed) then Err (BalanceMismatch account_id stored recomputed) else Ok ())
    () (sort_by_key (map_to_list bt));;
  ofold (λ _ '((account_id, market, out), (stored, recomputed)),
    if negb (stored =? recomputed) then Err (PositionMismatch account_id market out stored recomputed) else Ok ())
    () (stable_sort key3_le (map_to_list pt)).
