(* ===== verification/BookInvariant.v ===== *)
(** * BookInvariant: aggregates always equal the resting orders' reservations

    Proofs about [OrderBook]: the aggregate reservation maps are the sums of the
    per-order reservations, every order is collateralised between its current
    and its original worst case, and no operation on a book in that state can
    fail or panic. *)
From S2P Require Import Prelude Types Order Account Validation OrderBook.

(** ** What one order contributes to the aggregates *)

Definition bal_of (a : AccountId) (ro : RestingOrder) : Z :=
  if decide (ro_account_id ro = a) then ro_reserved_balance ro else 0.

Definition key_sum (key : PositionKey) (l : Reservations) : Z :=
  sumZ (λ '(k, q), if decide (k = key) then q else 0) l.

Definition pos_of (k : AccountId * PositionKey) (ro : RestingOrder) : Z :=
  if decide (ro_account_id ro = k.1) then key_sum k.2 (ro_reserved_positions ro) else 0.

Definition res_nonneg (ro : RestingOrder) : Prop :=
  0 ≤ ro_reserved_balance ro ∧ Forall (λ '(_, q), 0 ≤ q) (ro_reserved_positions ro).

(** [b]'s aggregates read as the functions [B] and [P], within [i64]. *)
Record agg (b : OrderBook) (B : Z → Z) (P : Z * (Z * Z) → Z) : Prop := {
  agg_bal : ∀ a, get0 (ob_balance_reservations b) a = B a;
  agg_pos : ∀ k, get0 (ob_position_reservations b) k = P k;
  agg_bal_range : ∀ a, 0 ≤ B a ≤ int_max I64;
  agg_pos_range : ∀ k, 0 ≤ P k ≤ int_max I64;
}.

(** The aggregates are those of the orders [l]. *)
Definition agg_of (b : OrderBook) (l : list RestingOrder) : Prop :=
  agg b (λ a, sumZ (bal_of a) l) (λ k, sumZ (pos_of k) l).

Lemma agg_ext b B P B' P' :
  agg b B P → (∀ a, B a = B' a) → (∀ k, P k = P' k) → agg b B' P'.
Proof. intros [H1 H2 H3 H4] HB HP. split; intros x; rewrite <- ?HB, <- ?HP; auto. Qed.

Lemma agg_of_perm b l k : l ≡ₚ k → agg_of b l → agg_of b k.
Proof. intros Hp H. eapply agg_ext; [done|..]; intros; by apply sumZ_perm. Qed.

Lemma agg_set_orders b l B P : agg b B P ↔ agg (set_orders l b) B P.
Proof. split; intros [H1 H2 H3 H4]; split; auto. Qed.

(** Two books that differ at most in their order list and aggregates. *)
Definition same_orders (b b' : OrderBook) : Prop := ob_orders b' = ob_orders b ∧ ob_ttl b' = ob_ttl b.

Lemma same_orders_refl b : same_orders b b.
Proof. done. Qed.
Lemma same_orders_trans b1 b2 b3 : same_orders b1 b2 → same_orders b2 b3 → same_orders b1 b3.
Proof. unfold same_orders. intuition congruence. Qed.

Lemma key_sum_nonneg k l : Forall (λ '(_, q), 0 ≤ q) l → 0 ≤ key_sum k l.
Proof.
  intros Hl. apply sumZ_nonneg. intros [k' q] Hin. rewrite Forall_forall in Hl.
  specialize (Hl _ Hin). simpl in Hl. case_decide; lia.
Qed.

Lemma bal_of_nonneg a ro : res_nonneg ro → 0 ≤ bal_of a ro.
Proof. intros [? _]. unfold bal_of. case_decide; lia. Qed.

Lemma bal_of_self ro : bal_of (ro_account_id ro) ro = ro_reserved_balance ro.
Proof. unfold bal_of. by rewrite decide_True. Qed.

Lemma pos_of_nonneg k ro : res_nonneg ro → 0 ≤ pos_of k ro.
Proof. intros [_ ?]. unfold pos_of. case_decide; [by apply key_sum_nonneg|lia]. Qed.

(** ** Releases succeed on covered amounts *)

Lemma release_balance_ok b B P a amt :
  agg b B P → 0 ≤ amt ≤ B a →
  ∃ b', release_balance a amt b = SOk b' () ∧ same_orders b b' ∧
    agg b' (λ a', B a' - if decide (a = a') then amt else 0) P.
Proof.
  intros [HB HP RB RP] Hamt.
  unfold release_balance, sget, smodify, slift, mret, st_ret, mbind, st_bind.
  assert (∀ a', 0 ≤ B a' - (if decide (a = a') then amt else 0) ≤ int_max I64) as Hrange.
  { intros a'. pose proof (RB a'). case_decide; subst; lia. }
  rewrite HB. destruct (Z.ltb_spec (B a) amt); [lia|].
  destruct (Z.eqb_spec amt (B a)) as [->|Hne]; [|destruct (Z.ltb_spec 0 amt)].
  - eexists. split; [done|]. split; [done|]. split; [|done..]. intros a'. simpl.
    rewrite get0_delete, HB. case_decide; subst; lia.
  - assert (ob_balance_reservations b !! a = Some (B a)) as Hlk.
    { specialize (HB a). unfold get0 in HB. destruct (_ !! a); simpl in HB; [congruence|lia]. }
    rewrite Hlk. simpl. rewrite arith_in by (pose proof (RB a); int_lia).
    eexists. split; [done|]. split; [done|]. split; [|done..]. intros a'. simpl.
    rewrite get0_insert, HB. case_decide; subst; lia.
  - eexists. split; [done|]. split; [done|]. split; [|done..]. intros a'.
    rewrite HB. case_decide; lia.
Qed.

Lemma release_position_ok b B P a key amt :
  agg b B P → 0 ≤ amt ≤ P (a, key) →
  ∃ b', release_position a key amt b = SOk b' () ∧ same_orders b b' ∧
    agg b' B (λ k, P k - if decide ((a, key) = k) then amt else 0).
Proof.
  intros [HB HP RB RP] Hamt.
  unfold release_position, sget, smodify, slift, mret, st_ret, mbind, st_bind.
  assert (∀ k, 0 ≤ P k - (if decide ((a, key) = k) then amt else 0) ≤ int_max I64) as Hrange.
  { intros k. pose proof (RP k). case_decide; subst; lia. }
  rewrite HP. destruct (Z.ltb_spec (P (a, key)) amt); [lia|].
  destruct (Z.eqb_spec amt (P (a, key))) as [->|Hne]; [|destruct (Z.ltb_spec 0 amt)].
  - eexists. split; [done|]. split; [done|]. split; [done| |done..]. intros k. simpl.
    rewrite get0_delete, HP. case_decide; subst; lia.
  - assert (ob_position_reservations b !! (a, key) = Some (P (a, key))) as Hlk.
    { specialize (HP (a, key)). unfold get0 in HP. destruct (_ !! (a, key)); simpl in HP; [congruence|lia]. }
    rewrite Hlk. simpl. rewrite arith_in by (pose proof (RP (a, key)); int_lia).
    eexists. split; [done|]. split; [done|]. split; [done| |done..]. intros k. simpl.
    rewrite get0_insert, HP. case_decide; subst; lia.
  - eexists. split; [done|]. split; [done|]. split; [done| |done..]. intros k.
    rewrite HP. case_decide; lia.
Qed.

(** Releasing a list of position reservations of one account. *)
Definition pos_amount (a : AccountId) (l : Reservations) (k : AccountId * PositionKey) : Z :=
  if decide (a = k.1) then key_sum k.2 l else 0.

Lemma pos_amount_cons a key q l k :
  pos_amount a ((key, q) :: l) k = (if decide ((a, key) = k) then q else 0) + pos_amount a l k.
Proof.
  unfold pos_amount, key_sum. destruct k as [a' k']. cbn [fst snd sumZ].
  destruct (decide (a = a')), (decide (key = k')), (decide ((a, key) = (a', k'))); naive_solver lia.
Qed.

Lemma pos_amount_nonneg a l k : Forall (λ '(_, q), 0 ≤ q) l → 0 ≤ pos_amount a l k.
Proof. intros ?. unfold pos_amount. case_decide; [by apply key_sum_nonneg|lia]. Qed.

Lemma release_positions_ok a l b B P :
  agg b B P → Forall (λ '(_, q), 0 ≤ q) l → (∀ k, pos_amount a l k ≤ P k) →
  ∃ b', sforeach (λ '(key, qty), release_position a key qty) l b = SOk b' () ∧ same_orders b b' ∧
    agg b' B (λ k, P k - pos_amount a l k).
Proof.
  revert b P. induction l as [|[key q] l IH]; intros b P Hagg Hnn Hcov.
  - exists b. split; [done|]. split; [done|]. eapply agg_ext; [done|done|].
    intros k. unfold pos_amount, key_sum. simpl. case_decide; lia.
  - apply Forall_cons in Hnn as [Hq Hnn]. simpl in Hq.
    destruct (release_position_ok b B P a key q Hagg) as (b1 & Hr & Hs1 & Hagg1).
    { specialize (Hcov (a, key)). rewrite pos_amount_cons, decide_True in Hcov by done.
      pose proof (pos_amount_nonneg a l (a, key) Hnn). lia. }
    destruct (IH b1 _ Hagg1 Hnn) as (b2 & Hr2 & Hs2 & Hagg2).
    { intros k. specialize (Hcov k). rewrite pos_amount_cons in Hcov. lia. }
    exists b2. split; [|split; [by eapply same_orders_trans|]].
    + simpl. unfold mbind, st_bind. by rewrite Hr.
    + eapply agg_ext; [done|done|]. intros k. simpl. rewrite pos_amount_cons. lia.
Qed.

(** The pre-check loop of [release_reservations]. *)
Lemma precheck_ok a l b B P :
  agg b B P → (∀ key q, (key, q) ∈ l → q ≤ P (a, key)) →
  sforeach (λ '(key, qty),
    b ← sget;
    let currently_reserved := get0 (ob_position_reservations b) (a, key) in
    if currently_reserved <? qty
    then sfail (PositionOverRelease a key.1 key.2 currently_reserved qty)
    else mret ()) l b = SOk b ().
Proof.
  intros Hagg. induction l as [|[key q] l IH]; intros Hl; [done|].
  simpl. unfold mbind at 1, st_bind at 1. unfold mbind at 1, st_bind at 1. unfold sget at 1.
  rewrite (agg_pos _ _ _ Hagg). assert (q ≤ P (a, key)) by (apply Hl; set_solver).
  destruct (Z.ltb_spec (P (a, key)) q); [lia|]. simpl. apply IH. set_solver.
Qed.

Lemma key_sum_elem key q l : Forall (λ '(_, q), 0 ≤ q) l → (key, q) ∈ l → q ≤ key_sum key l.
Proof.
  intros Hnn Hin. unfold key_sum.
  pose proof (sumZ_le_elem (λ '(k, q), if decide (k = key) then q else 0) l (key, q)) as Hle.
  cbv beta iota in Hle. rewrite decide_True in Hle by done. apply Hle; [|done].
  intros [k q'] Hin'. rewrite Forall_forall in Hnn. specialize (Hnn _ Hin'). simpl in Hnn.
  case_decide; lia.
Qed.

Lemma release_reservations_agg ro b B P :
  agg b B P → res_nonneg ro → (∀ a, bal_of a ro ≤ B a) → (∀ k, pos_of k ro ≤ P k) →
  ∃ b', release_reservations ro b = SOk b' () ∧ same_orders b b' ∧
    agg b' (λ a, B a - bal_of a ro) (λ k, P k - pos_of k ro).
Proof.
  intros Hagg [Hb Hp] HB HP. unfold release_reservations.
  unfold mbind at 1, st_bind at 1, sget at 1. rewrite (agg_bal _ _ _ Hagg).
  pose proof (HB (ro_account_id ro)) as HBa. unfold bal_of in HBa. rewrite decide_True in HBa by done.
  destruct (Z.ltb_spec (B (ro_account_id ro)) (ro_reserved_balance ro)); [lia|].
  unfold mbind at 1, st_bind at 1. rewrite (precheck_ok _ _ _ _ _ Hagg); last first.
  { intros key q Hin. specialize (HP (ro_account_id ro, key)). unfold pos_of in HP. simpl in HP.
    rewrite decide_True in HP by done. pose proof (key_sum_elem _ _ _ Hp Hin). lia. }
  unfold mbind at 1, st_bind at 1.
  assert (∃ b1, (if 0 <? ro_reserved_balance ro then release_balance (ro_account_id ro) (ro_reserved_balance ro)
      else mret ()) b = SOk b1 () ∧ same_orders b b1 ∧ agg b1 (λ a, B a - bal_of a ro) P)
    as (b1 & -> & Hs1 & Hagg1).
  { destruct (Z.ltb_spec 0 (ro_reserved_balance ro)).
    - destruct (release_balance_ok b B P (ro_account_id ro) (ro_reserved_balance ro) Hagg) as (b1 & ? & ? & ?);
        [lia|]. eauto.
    - exists b. split; [done|]. split; [done|]. eapply agg_ext; [done| |done].
      intros a. unfold bal_of. case_decide; lia. }
  destruct (release_positions_ok (ro_account_id ro) _ b1 _ P Hagg1 Hp HP) as (b2 & Hr & Hs2 & Hagg2).
  exists b2. split; [done|]. split; [by eapply same_orders_trans|]. done.
Qed.

(** Releasing one of the orders leaves the aggregates of the others. *)
Lemma release_reservations_ok ro l b :
  agg_of b (ro :: l) → Forall res_nonneg (ro :: l) →
  ∃ b', release_reservations ro b = SOk b' () ∧ same_orders b b' ∧ agg_of b' l.
Proof.
  intros Hagg Hnn. apply Forall_cons in Hnn as [Hro Hl]. rewrite Forall_forall in Hl.
  destruct (release_reservations_agg ro b _ _ Hagg Hro) as (b' & ? & ? & Hagg').
  - intros a. simpl. pose proof (sumZ_nonneg (bal_of a) l ltac:(intros; apply bal_of_nonneg; auto)). lia.
  - intros k. simpl. pose proof (sumZ_nonneg (pos_of k) l ltac:(intros; apply pos_of_nonneg; auto)). lia.
  - exists b'. split; [done|]. split; [done|]. eapply agg_ext; [done|..]; intros; simpl; lia.
Qed.

(** ** The per-order collateral invariant *)

Record covered (ro : RestingOrder) (m : MarketId) (d : OrderDirection) : Prop := {
  cov_wf : order_wf (ro_order ro);
  cov_shape : one_hot (ro_order ro) m d;
  cov_original : ord_max_fill (ro_order ro) ≤ ro_original_max_fill ro ≤ MAX_ORDER_QTY;
  cov_min : bal_res d (ord_limit_price (ro_order ro)) (ord_max_fill (ro_order ro)) ≤ ro_reserved_balance ro;
  cov_max : ro_reserved_balance ro ≤ bal_res d (ord_limit_price (ro_order ro)) (ro_original_max_fill ro);
  cov_pos : ro_reserved_positions ro = pos_res m d (ord_max_fill (ro_order ro));
  cov_fresh : ro_has_been_matched ro = false →
    ro_reserved_balance ro = bal_res d (ord_limit_price (ro_order ro)) (ord_max_fill (ro_order ro));
}.

Definition ro_ok (ro : RestingOrder) : Prop := ∃ m d, covered ro m d.

Record book_inv (b : OrderBook) : Prop := {
  bi_orders : Forall ro_ok (ob_orders b);
  bi_agg : agg_of b (ob_orders b);
}.

Lemma covered_bounds ro m d :
  covered ro m d →
  0 ≤ ord_limit_price (ro_order ro) ≤ NANOS_PER_DOLLAR ∧
  0 ≤ ord_max_fill (ro_order ro) ≤ MAX_ORDER_QTY ∧
  0 ≤ ro_reserved_balance ro ≤ 1000000000000000.
Proof.
  intros H. destruct (wf_limit _ (cov_wf _ _ _ H)), (wf_max_fill _ (cov_wf _ _ _ H)).
  pose proof (oh_limit _ _ _ (cov_shape _ _ _ H)). pose proof (oh_max_fill _ _ _ (cov_shape _ _ _ H)).
  pose proof (cov_min _ _ _ H). pose proof (cov_max _ _ _ H). pose proof (cov_original _ _ _ H).
  pose proof (bal_res_bounds d (ord_limit_price (ro_order ro)) (ord_max_fill (ro_order ro)) ltac:(lia) ltac:(lia)).
  pose proof (bal_res_bounds d (ord_limit_price (ro_order ro)) (ro_original_max_fill ro) ltac:(lia) ltac:(lia)).
  lia.
Qed.

Lemma ro_ok_nonneg ro : ro_ok ro → res_nonneg ro.
Proof.
  intros (m & d & H). pose proof (covered_bounds _ _ _ H). split; [lia|].
  rewrite (cov_pos _ _ _ H). unfold pos_res. destruct (is_sell d); [|constructor].
  apply Forall_singleton. lia.
Qed.

Lemma ro_ok_all_nonneg l : Forall ro_ok l → Forall res_nonneg l.
Proof. intros H. eapply Forall_impl; [exact H|]. apply ro_ok_nonneg. Qed.

Lemma sumZ_bal_nonneg a l : Forall res_nonneg l → 0 ≤ sumZ (bal_of a) l.
Proof. rewrite Forall_forall. intros H. apply sumZ_nonneg. intros. apply bal_of_nonneg. auto. Qed.

Lemma sumZ_pos_nonneg k l : Forall res_nonneg l → 0 ≤ sumZ (pos_of k) l.
Proof. rewrite Forall_forall. intros H. apply sumZ_nonneg. intros. apply pos_of_nonneg. auto. Qed.

Lemma book_inv_new ttl : book_inv (OrderBook_new ttl).
Proof. split; [constructor|]. split; intros; simpl; rewrite ?get0_empty; int_lia. Qed.

Lemma acct_position_reservations_get b a k :
  get0 (acct_position_reservations b a) k = get0 (ob_position_reservations b) (a, k).
Proof.
  unfold get0. f_equal. unfold acct_position_reservations.
  set (l := map_to_list (ob_position_reservations b)).
  set (sel := λ '(aid, key, qty), if aid =? a then Some (key, qty) else None).
  assert (∀ k q, (k, q) ∈ omap sel l ↔ (a, k, q) ∈ l) as Hin.
  { intros k' q. rewrite list_elem_of_omap. split.
    - intros ([[a' k''] q''] & Hl & Hs). simpl in Hs. destruct (Z.eqb_spec a' a); naive_solver.
    - intros Hl. exists (a, k', q). split; [done|]. simpl. by rewrite Z.eqb_refl. }
  assert (NoDup (omap sel l).*1) as Hnd.
  { subst l. pose proof (NoDup_fst_map_to_list (ob_position_reservations b)) as Hnd. revert Hnd. clear.
    induction (map_to_list (ob_position_reservations b)) as [|[[a' k'] q] l IH]; csimpl; [intros; constructor|].
    intros [Hni Hnd]%NoDup_cons. destruct (Z.eqb_spec a' a) as [->|]; [|auto]. csimpl.
    apply NoDup_cons. split; [|auto]. intros ([k'' q''] & -> & Hel)%list_elem_of_fmap. apply Hni.
    apply list_elem_of_omap in Hel as ([[a3 k3] q3] & Hl3 & Hs). simpl in Hs.
    destruct (Z.eqb_spec a3 a); simplify_eq. apply list_elem_of_fmap. eexists (_, _). split; [|done]. done. }
  apply option_eq. intros q. rewrite <- elem_of_list_to_map by done. rewrite Hin.
  subst l. by rewrite elem_of_map_to_list.
Qed.

(** ** Accepting orders *)

(** Adding an order's reservations, when the sums stay within [i64]. *)
Lemma add_reservations_ok {E} a cost pos b B P :
  agg b B P → 0 ≤ cost → Forall (λ '(_, q), 0 ≤ q) pos →
  B a + cost ≤ int_max I64 → (∀ k, P k + pos_amount a pos k ≤ int_max I64) →
  ∃ b', @add_reservations E a cost pos b = SOk b' () ∧ same_orders b b' ∧
    agg b' (λ a', B a' + if decide (a = a') then cost else 0) (λ k, P k + pos_amount a pos k).
Proof.
  intros Hagg Hc Hp HB HP. unfold add_reservations. unfold mbind at 1, st_bind at 1.
  assert (∃ b1, (if 0 <? cost then
     b ← sget; m ← slift (add0 I64 (ob_balance_reservations b) a cost); smodify (set_bal m)
     else @mret (st OrderBook E) _ _ ()) b = SOk b1 () ∧ same_orders b b1 ∧
     agg b1 (λ a', B a' + if decide (a = a') then cost else 0) P) as (b1 & -> & Hs1 & Hagg1).
  { destruct Hagg as [H1 H2 H3 H4]. pose proof (H3 a). destruct (Z.ltb_spec 0 cost).
    - unfold mbind, st_bind, sget, slift. rewrite add0_in by (rewrite H1; int_lia).
      eexists. split; [done|]. split; [done|]. split; [|done| |done].
      + intros a'. simpl. rewrite get0_insert, !H1. case_decide; subst; lia.
      + intros a'. pose proof (H3 a'). case_decide; subst; lia.
    - exists b. split; [done|]. split; [done|]. eapply agg_ext; [done| |done].
      intros a'. case_decide; lia. }
  clear Hagg. revert b1 P Hagg1 Hs1 HP. induction pos as [|[key q] pos IH]; intros b1 P Hagg1 Hs1 HP.
  - exists b1. split; [done|]. split; [done|]. eapply agg_ext; [done|done|].
    intros k. unfold pos_amount, key_sum. simpl. case_decide; lia.
  - apply Forall_cons in Hp as [Hq Hp]. simpl in Hq. simpl. unfold mbind, st_bind, sget, slift.
    pose proof (agg_pos_range _ _ _ Hagg1 (a, key)) as Hr. pose proof (HP (a, key)) as Hk.
    rewrite pos_amount_cons, decide_True in Hk by done. pose proof (pos_amount_nonneg a pos (a, key) Hp).
    rewrite add0_in by (rewrite (agg_pos _ _ _ Hagg1); int_lia). unfold smodify at 1.
    destruct (IH Hp (set_pos (<[(a, key) := get0 (ob_position_reservations b1) (a, key) + q]>
      (ob_position_reservations b1)) b1) (λ k, P k + if decide ((a, key) = k) then q else 0)) as (b2 & Hb2 & Hs2 & Hagg2).
    + destruct Hagg1 as [H1 H2 H3 H4]. split; [done| |done|].
      * intros k. simpl. rewrite get0_insert, !H2. case_decide; subst; lia.
      * intros k. pose proof (H4 k). case_decide; subst; lia.
    + destruct Hs1. by split.
    + intros k. specialize (HP k). rewrite pos_amount_cons in HP. lia.
    + exists b2. split; [done|]. split; [done|]. eapply agg_ext; [done|done|].
      intros k. simpl. rewrite pos_amount_cons. lia.
Qed.

(** Appending an order together with its reservations preserves the invariant. *)
Lemma push_reserved_ok {E} ro b :
  book_inv b → ro_ok ro →
  sumZ (bal_of (ro_account_id ro)) (ob_orders b) + ro_reserved_balance ro ≤ int_max I64 →
  (∀ k, sumZ (pos_of k) (ob_orders b) + pos_of k ro ≤ int_max I64) →
  ∃ b', (add_reservations (ro_account_id ro) (ro_reserved_balance ro) (ro_reserved_positions ro);;
         push_order ro) b = @SOk _ E _ b' () ∧ book_inv b' ∧ ob_orders b' = ob_orders b ++ [ro] ∧
         ob_ttl b' = ob_ttl b.
Proof.
  intros [Hall Hagg] Hok HB HP. destruct (ro_ok_nonneg _ Hok) as [Hb Hp].
  destruct (add_reservations_ok (E := E) _ _ _ b _ _ Hagg Hb Hp HB HP) as (b1 & Hadd & [Ho Ht] & Hagg1).
  eexists. unfold mbind, st_bind. rewrite Hadd. split; [done|]. simpl. rewrite Ho.
  split; [|done]. split; simpl.
  - apply Forall_app. split; [done|]. by apply Forall_singleton.
  - apply agg_set_orders. eapply agg_ext; [done|..]; intros; simpl; rewrite sumZ_app; cbn [sumZ];
      by rewrite Z.add_0_r.
Qed.

(** An account whose balance and positions are in [i64] and not below -1. *)
Definition acct_ok (a : Account) : Prop :=
  -1 ≤ acc_balance a ≤ int_max I64 ∧ ∀ k, -1 ≤ get0 (acc_positions a) k ≤ int_max I64.

Lemma pos_of_pos_res k ro m d :
  ro_reserved_positions ro = pos_res m d (ord_max_fill (ro_order ro)) →
  pos_of k ro = if decide (is_sell d = true ∧ k = (ro_account_id ro, (m, dir_outcome d)))
                then ord_max_fill (ro_order ro) else 0.
Proof.
  intros Hp. unfold pos_of. rewrite Hp. unfold pos_res, key_sum. destruct k as [a key]. cbn [fst snd].
  destruct (is_sell d); cbn [sumZ].
  - destruct (decide (ro_account_id ro = a)), (decide ((m, dir_outcome d) = key)),
      (decide (true = true ∧ (a, key) = (ro_account_id ro, (m, dir_outcome d)))); naive_solver lia.
  - rewrite (decide_False (P := false = true ∧ _)) by naive_solver. by case_decide.
Qed.

(** [accept] rejects without touching the book, or appends the order with
    exactly its worst case reserved; the account still covers everything
    reserved in its name. *)
Lemma accept_ok b o aid a h ms :
  book_inv b → order_wf o → acct_ok a →
  (∃ e, validate_order_with_reservation o a (reserved_balance b aid) (acct_position_reservations b aid) = Err e ∧ 
     accept o aid a h ms b = SErr b e) ∨
  (∃ b' acc, accept o aid a h ms b = SOk b' acc ∧ book_inv b' ∧
     ob_orders b' = ob_orders b ++ [ac_resting_order acc] ∧ ob_ttl b' = ob_ttl b ∧
     ac_order acc = o ∧ ac_account_id acc = aid ∧ ro_order (ac_resting_order acc) = o ∧
     ro_account_id (ac_resting_order acc) = aid ∧
     (0 < ro_reserved_balance (ac_resting_order acc) → reserved_balance b' aid ≤ acc_balance a) ∧
     (∀ key, (aid, key) ∈ (λ '(k, _), (aid, k)) <$> ro_reserved_positions (ac_resting_order acc) →
        get0 (ob_position_reservations b') (aid, key) ≤ get0 (acc_positions a) key)).
Proof.
  intros Hinv Hwf [Hbal Hpos]. pose proof Hinv as [Hall Hagg].
  pose proof (agg_bal_range _ _ _ Hagg aid) as RB. cbv beta in RB.
  assert (reserved_balance b aid = sumZ (bal_of aid) (ob_orders b)) as Hres by apply (agg_bal _ _ _ Hagg).
  destruct (validate_order_with_reservation o a (sumZ (bal_of aid) (ob_orders b))
    (acct_position_reservations b aid)) as [cost|e|] eqn:Hval.
  - destruct (validate_with_reservation_Ok _ _ _ _ _ Hwf Hval) as (m & d & Hoh & Hcost & Hcov).
    destruct (wf_limit _ Hwf) as [Hl0 _], (wf_max_fill _ Hwf) as [Hq0 _].
    right.
    set (ro := mkRestingOrder o aid h (effective_expires_at_block o h (ob_ttl b)) cost
      (pos_res m d (ord_max_fill o)) false (ord_max_fill o) ms).
    pose proof (oh_max_fill _ _ _ Hoh). pose proof (oh_limit _ _ _ Hoh).
    pose proof (bal_res_bounds d (ord_limit_price o) (ord_max_fill o) ltac:(lia) ltac:(lia)).
    assert (covered ro m d) as Hc.
    { split; [exact Hwf|exact Hoh|simpl; lia|simpl; lia|simpl; lia|done|done]. }
    rewrite acct_position_reservations_get, (agg_pos _ _ _ Hagg) in Hcov. unfold acc_position in Hcov.
    assert (cost = 0 ∧ is_sell d = true ∨ cost ≤ acc_balance a - sumZ (bal_of aid) (ob_orders b) ∧ is_sell d = false)
      as Hcost'. { destruct (is_sell d) eqn:Hd; [left; unfold bal_res in Hcost; rewrite Hd in Hcost; lia|right; lia]. }
    destruct (push_reserved_ok (E := RejectionReason) ro b Hinv) as (b' & Hpush & Hinv' & Ho' & Ht'); [by exists m, d|..].
    { cbn [ro_account_id ro_reserved_balance ro]. lia. }
    { intros k. rewrite (pos_of_pos_res k ro m d) by done. pose proof (agg_pos_range _ _ _ Hagg k) as RP. cbv beta in RP.
      case_decide as Hk; [|lia]. destruct Hk as [Hd ->]. rewrite Hd in Hcov. simpl ord_max_fill. cbn [ro_order ro_account_id ro] in *.
      pose proof (Hpos (m, dir_outcome d)). lia. }
    exists b', (mkAccepted o aid ro). split.
    { unfold accept. sstep. cbv zeta. rewrite Hres, Hval. sstep.
      rewrite (one_hot_sell_reservations o m d) by assumption. sstep.
      apply sbind_SOk_inv in Hpush as (b1 & [] & Hadd & Hpush).
      erewrite sbind_SOk by exact Hadd. by erewrite sbind_SOk by exact Hpush. }
    split; [done|]. split_and!; [done..| |].
    + intros Hpos0. simpl in Hpos0. unfold reserved_balance. rewrite (agg_bal _ _ _ (bi_agg _ Hinv')), Ho', sumZ_app.
      simpl. unfold bal_of at 2. rewrite decide_True by done. simpl. lia.
    + intros key Hkey. rewrite (agg_pos _ _ _ (bi_agg _ Hinv')), Ho', sumZ_app. simpl in *.
      rewrite (pos_of_pos_res _ ro m d) by done. unfold pos_res in Hkey.
      destruct (is_sell d) eqn:Hd; [|set_solver]. simpl in Hkey. apply list_elem_of_singleton in Hkey.
      simplify_eq. rewrite decide_True by done. simpl. lia.
  - left. exists e. rewrite Hres. split; [done|]. unfold accept. sstep. cbv zeta. by rewrite Hres, Hval.
  - exfalso. destruct (validation_cannot_panic o a (sumZ (bal_of aid) (ob_orders b))
      (acct_position_reservations b aid) Hwf) as []; [mlia| |done].
    intros k. rewrite acct_position_reservations_get, (agg_pos _ _ _ Hagg).
    pose proof (agg_pos_range _ _ _ Hagg (aid, k)) as RP. cbv beta in RP. specialize (Hpos k). mlia.
Qed.
