(* ===== verification/BookOps.v ===== *)
(** * BookOps: the operations of a book in its invariant never fail

    Expiry, cancellation, settlement, replay, restore and revalidation applied
    to a book that satisfies [book_inv] succeed, have the stated functional
    effect on the order list, and re-establish [book_inv]. *)
From S2P Require Import Prelude Types Order Account Validation OrderBook BookInvariant.

(** ** Expiry *)

Lemma expire_loop_ok (p : RestingOrder → bool) l b removed kept :
  agg_of b (kept ++ l) → Forall res_nonneg (kept ++ l) →
  ∃ b', sfold (λ '(removed, kept) ro,
      if p ro then release_reservations ro;; mret (removed ++ [ro], kept)
      else mret (removed, kept ++ [ro])) (removed, kept) l b =
    SOk b' (removed ++ filter (λ ro, p ro = true) l, kept ++ filter (λ ro, p ro = false) l) ∧
    same_orders b b' ∧ agg_of b' (kept ++ filter (λ ro, p ro = false) l).
Proof.
  revert b removed kept. induction l as [|ro l IH]; intros b removed kept Hagg Hnn.
  { exists b. rewrite !filter_nil, !app_nil_r in *. by split. }
  simpl. destruct (p ro) eqn:Hp.
  - destruct (release_reservations_ok ro (kept ++ l) b) as (b1 & Hr & Hs & Hagg1).
    { eapply agg_of_perm; [|done]. apply Permutation_sym, Permutation_middle. }
    { by rewrite Permutation_middle. }
    destruct (IH b1 (removed ++ [ro]) kept Hagg1) as (b2 & Hf & Hs2 & Hagg2).
    { rewrite <- Permutation_middle in Hnn. by apply Forall_cons in Hnn as [_ ?]. }
    exists b2. rewrite filter_cons_True, filter_cons_False by (done || congruence).
    rewrite <- (assoc_L (++)) in Hf.
    erewrite sbind_SOk; [|erewrite sbind_SOk by exact Hr; reflexivity].
    split; [done|]. split; [by eapply same_orders_trans|done].
  - sstep. rewrite filter_cons_False, filter_cons_True by (done || congruence).
    destruct (IH b removed (kept ++ [ro])) as (b2 & Hf & Hs2 & Hagg2); rewrite <- ?(assoc_L (++)) in *; [done..|].
    exists b2. rewrite <- ?(assoc_L (++)) in *. done.
Qed.

Lemma expire_where_ok p b :
  book_inv b →
  ∃ b', expire_where p b = SOk b' (filter (λ ro, p ro = true) (ob_orders b)) ∧
    ob_orders b' = filter (λ ro, p ro = false) (ob_orders b) ∧ ob_ttl b' = ob_ttl b ∧ book_inv b'.
Proof.
  intros [Hall Hagg]. unfold expire_where. sstep.
  destruct (expire_loop_ok p (ob_orders b) (set_orders [] b) [] []) as (b1 & Hf & Hs & Hagg1).
  { by apply agg_set_orders. }
  { by apply ro_ok_all_nonneg. }
  erewrite sbind_SOk by exact Hf. simpl. sstep. eexists. split; [done|].
  split; [done|]. split; [apply Hs|]. split; [by apply Forall_filter_keep|by apply agg_set_orders].
Qed.

(** ** Cancellation *)

Lemma cancel_ok b aid oid :
  book_inv b →
  match cancel_index b aid oid with
  | Ok i => ∃ ro b', ob_orders b !! i = Some ro ∧ ord_id (ro_order ro) = oid ∧ ro_account_id ro = aid ∧
      cancel aid oid b = SOk b' ro ∧ ob_orders b' = delete i (ob_orders b) ∧
      ob_ttl b' = ob_ttl b ∧ book_inv b'
  | Err e => cancel aid oid b = SErr b e
  | Panic => False
  end.
Proof.
  intros [Hall Hagg]. destruct (cancel_index b aid oid) as [i|e|] eqn:Hci.
  - pose proof Hci as Hfind. unfold cancel_index in Hfind.
    destruct (list_find _ (ob_orders b)) as [[i' ro]|] eqn:Hlf; [|done].
    apply list_find_Some in Hlf as (Hi & Hid & _).
    destruct (Z.eqb_spec (ro_account_id ro) aid) as [Ha|]; simplify_eq/=.
    pose proof (delete_Permutation _ _ _ Hi) as Hperm.
    destruct (release_reservations_ok ro (delete i (ob_orders b)) b) as (b1 & Hr & [Ho Ht] & Hagg1).
    { by eapply agg_of_perm. }
    { rewrite <- Hperm. by apply ro_ok_all_nonneg. }
    exists ro, (set_orders (delete i (ob_orders b)) b1). split_and!; try done.
    + unfold cancel. sstep. rewrite Hci. sstep. unfold idx. rewrite Hi. simpl expect. sstep.
      erewrite sbind_SOk by (unfold smap_err; rewrite Hr; reflexivity).
      unfold remove_order. sstep. rewrite Ho, Hi. reflexivity.
    + split; simpl; [|by apply agg_set_orders].
      rewrite Hperm in Hall. by apply Forall_cons in Hall as [_ ?].
  - unfold cancel. sstep. by rewrite Hci.
  - unfold cancel_index in Hci. repeat case_match; done.
Qed.

(** ** Settlement *)

(** The order left after a partial fill: quantity reduced, reservations scaled
    by [remaining / max_fill] and rounded up. *)
Definition remainder_of (ro : RestingOrder) (filled : Z) : RestingOrder :=
  let max_fill := ord_max_fill (ro_order ro) in
  let remaining := max_fill - filled in
  {| ro_order := set_max_fill remaining (ro_order ro); ro_account_id := ro_account_id ro;
     ro_created_at := ro_created_at ro; ro_expires_at_block := ro_expires_at_block ro;
     ro_reserved_balance := div_ceil (ro_reserved_balance ro * remaining) max_fill;
     ro_reserved_positions :=
       (λ '(key, qty), (key, div_ceil (qty * remaining) max_fill)) <$> ro_reserved_positions ro;
     ro_has_been_matched := true; ro_original_max_fill := ro_original_max_fill ro;
     ro_created_at_ms := ro_created_at_ms ro |}.

Lemma set_max_fill_wf q o : order_wf o → u64 q → order_wf (set_max_fill q o).
Proof. intros [H1 H2 H3 H4 H5 H6 H7] Hq. exact (Build_order_wf (set_max_fill q o) H1 H2 H3 H4 H5 H6 Hq). Qed.

Lemma set_max_fill_one_hot q o m d :
  one_hot o m d → q ≤ MAX_ORDER_QTY → one_hot (set_max_fill q o) m d.
Proof. intros [H1 H2 H3 H4 H5 H6 H7] Hq. exact (Build_one_hot (set_max_fill q o) m d H1 H2 H3 H4 H5 H6 Hq). Qed.

Lemma remainder_covered ro m d filled :
  covered ro m d → 0 < filled < ord_max_fill (ro_order ro) → covered (remainder_of ro filled) m d.
Proof.
  intros Hc Hf. destruct (covered_bounds _ _ _ Hc) as (Hl & Hq & Hrb).
  pose proof (cov_original _ _ _ Hc). pose proof (cov_min _ _ _ Hc) as Hmin. pose proof (cov_max _ _ _ Hc).
  destruct (ceil_mul_ratio_frac (E := unit) (ro_reserved_balance ro)
    (ord_max_fill (ro_order ro) - filled) (ord_max_fill (ro_order ro))) as [_ Hr]; [mlia|lia|lia|].
  split; simpl; [| |lia| |lia| |done].
  - apply set_max_fill_wf; [apply Hc|mlia].
  - apply set_max_fill_one_hot; [apply Hc|lia].
  - unfold bal_res in *. destruct (is_sell d); [lia|].
    apply ceil_mul_ratio_covers; [lia|lia|lia|done].
  - rewrite (cov_pos _ _ _ Hc). unfold pos_res. destruct (is_sell d); [|done]. simpl.
    repeat f_equal. rewrite Z.mul_comm. apply div_ceil_exact. lia.
Qed.

(** Both scaled amounts of a partial fill are exact ceilings. *)
Lemma scaled_exact {E} v filled max :
  0 ≤ v ≤ 1000000000000000 → 0 < filled < max →
  @ceil_mul_ratio E (wrap U64 v) (max - filled) max = Ok (div_ceil (v * (max - filled)) max) ∧
  wrap I64 (div_ceil (v * (max - filled)) max) = div_ceil (v * (max - filled)) max ∧
  0 ≤ div_ceil (v * (max - filled)) max ≤ v.
Proof.
  intros Hv Hf. rewrite (wrap_in U64) by int_lia.
  destruct (ceil_mul_ratio_frac (E := E) v (max - filled) max) as [-> Hr]; [mlia|lia|lia|].
  split; [done|]. split; [|done]. apply wrap_in. int_lia.
Qed.

Lemma settle_partial_ok ro m d filled l b :
  covered ro m d → 0 < filled < ord_max_fill (ro_order ro) →
  agg_of b (ro :: l) → Forall res_nonneg l →
  ∃ b', settle_partial ro filled b = SOk b' (remainder_of ro filled) ∧ same_orders b b' ∧
    agg_of b' (remainder_of ro filled :: l).
Proof.
  intros Hc Hf Hagg Hnn. destruct (covered_bounds _ _ _ Hc) as (Hl & Hq & Hrb).
  pose proof (cov_pos _ _ _ Hc) as Hpos. pose proof (cov_min _ _ _ Hc) as Hmin. pose proof (cov_max _ _ _ Hc) as Hmax.
  unfold settle_partial. cbv zeta. rewrite arith_in by mlia. sstep.
  destruct (scaled_exact (E := ReservationError) (ro_reserved_balance ro) filled (ord_max_fill (ro_order ro)) Hrb Hf)
    as (Hs1 & Hs2 & Hnew). rewrite Hs1. sstep. cbv zeta. rewrite Hs2. clear Hs1 Hs2.
  destruct (wf_max_fill _ (cov_wf _ _ _ Hc)).
  destruct (scaled_exact (E := ReservationError) (ord_max_fill (ro_order ro)) filled (ord_max_fill (ro_order ro)))
    as (Hq1 & Hq2 & Hq3); [mlia|done|].
  set (new := div_ceil (ro_reserved_balance ro * _) _) in *.
  assert (∀ E, @arith E I64 (ro_reserved_balance ro - new) = Ok (ro_reserved_balance ro - new)) as ->
    by (intros; apply arith_in; int_lia). sstep.
  assert (∃ b1, (if 0 <? ro_reserved_balance ro - new
      then release_balance (ro_account_id ro) (ro_reserved_balance ro - new) else mret ()) b = SOk b1 () ∧
      same_orders b b1 ∧
      agg b1 (λ a, sumZ (bal_of a) (ro :: l) - if decide (ro_account_id ro = a) then ro_reserved_balance ro - new else 0)
             (λ k, sumZ (pos_of k) (ro :: l))) as (b1 & Hrel & Hs1 & Hagg1).
  { destruct (Z.ltb_spec 0 (ro_reserved_balance ro - new)).
    - apply release_balance_ok; [done|]. simpl. pose proof (sumZ_bal_nonneg (ro_account_id ro) l Hnn).
      unfold bal_of at 1. rewrite decide_True by done. lia.
    - exists b. split; [done|]. split; [done|]. eapply agg_ext; [done| |done]. intros a. case_decide; lia. }
  erewrite sbind_SOk by exact Hrel.
  assert (∃ b2, smap (λ '(key, qty),
      q ← slift (ceil_mul_ratio (wrap U64 qty) (ord_max_fill (ro_order ro) - filled) (ord_max_fill (ro_order ro)));
      released ← slift (arith I64 (qty - wrap I64 q));
      (if 0 <? released then release_position (ro_account_id ro) key released else mret ());;
      mret (key, wrap I64 q)) (ro_reserved_positions ro) b1 =
      SOk b2 (ro_reserved_positions (remainder_of ro filled)) ∧ same_orders b1 b2 ∧
      agg_of b2 (remainder_of ro filled :: l)) as (b2 & Hpr & Hs2 & Hagg2).
  { simpl ro_reserved_positions. rewrite Hpos. unfold pos_res.
    assert (∀ a, sumZ (bal_of a) (ro :: l) - (if decide (ro_account_id ro = a) then ro_reserved_balance ro - new else 0)
      = sumZ (bal_of a) (remainder_of ro filled :: l)) as HBeq.
    { intros a. simpl. unfold bal_of at 1 3. simpl. fold new. case_decide; lia. }
    destruct (is_sell d) eqn:Hd; simpl smap.
    - assert (div_ceil (ord_max_fill (ro_order ro) * (ord_max_fill (ro_order ro) - filled)) (ord_max_fill (ro_order ro))
        = ord_max_fill (ro_order ro) - filled) as Hex
        by (rewrite (Z.mul_comm (ord_max_fill _)); apply div_ceil_exact; lia).
      rewrite Hex in *.
      destruct (release_position_ok b1 _ _ (ro_account_id ro) (m, dir_outcome d)
        (ord_max_fill (ro_order ro) - (ord_max_fill (ro_order ro) - filled)) Hagg1) as (b2 & Hr & Hs2 & Hagg2).
      { simpl. pose proof (sumZ_pos_nonneg (ro_account_id ro, (m, dir_outcome d)) l Hnn).
        rewrite (pos_of_pos_res _ ro m d) by done. rewrite decide_True by done. lia. }
      exists b2. split; [|split; [done|]].
      + erewrite sbind_SOk; last first.
        { rewrite Hq1. sstep. rewrite Hq2. rewrite arith_in by mlia. sstep.
          rewrite (proj2 (Z.ltb_lt _ _)) by lia. erewrite sbind_SOk by exact Hr. reflexivity. }
        simpl. by rewrite Hex.
      + eapply agg_ext; [exact Hagg2|exact HBeq|]. intros k. cbn [sumZ].
        rewrite (pos_of_pos_res k ro m d) by done.
        rewrite (pos_of_pos_res k (remainder_of ro filled) m d) by apply (cov_pos _ _ _ (remainder_covered _ _ _ _ Hc Hf)).
        simpl. rewrite Hd. destruct k as [ka kk].
        destruct (decide (true = true ∧ (ka, kk) = (ro_account_id ro, (m, dir_outcome d)))),
          (decide ((ro_account_id ro, (m, dir_outcome d)) = (ka, kk))); naive_solver lia.
    - exists b1. split; [done|]. split; [done|]. eapply agg_ext; [exact Hagg1|exact HBeq|].
      intros k. cbn [sumZ]. rewrite (pos_of_pos_res k ro m d) by done.
      rewrite (pos_of_pos_res k (remainder_of ro filled) m d) by apply (cov_pos _ _ _ (remainder_covered _ _ _ _ Hc Hf)).
      rewrite Hd. rewrite !decide_False by naive_solver. done. }
  erewrite sbind_SOk by exact Hpr.
  exists b2. split; [done|]. split; [by eapply same_orders_trans|done].
Qed.

(** What settlement does to one resting order: the order that stays, if any. *)
Definition settle_keep (filled_qty : gmap Z Z) (mm_order_ids : gset Z) (h : Z) (ro : RestingOrder)
    : option RestingOrder :=
  if bool_decide (ord_id (ro_order ro) ∈ mm_order_ids) then None else
  let filled := get0 filled_qty (ord_id (ro_order ro)) in
  if ord_max_fill (ro_order ro) <=? filled then None
  else if ro_expires_at_block ro <=? h then None
  else if 0 <? filled then Some (remainder_of ro filled) else Some ro.

(** ... and the record of its exit, if it leaves. *)
Definition settle_exit (filled_qty : gmap Z Z) (mm_order_ids : gset Z) (h : Z) (ro : RestingOrder)
    : option (RestingOrder * RestingExit) :=
  if bool_decide (ord_id (ro_order ro) ∈ mm_order_ids) then Some (ro, Settled) else
  let filled := get0 filled_qty (ord_id (ro_order ro)) in
  let ro' := if 0 <? filled then set_matched true ro else ro in
  if ord_max_fill (ro_order ro) <=? filled then Some (ro', Settled)
  else if ro_expires_at_block ro <=? h then Some (ro', RExpired) else None.

Lemma release_matched x ro : release_reservations (set_matched x ro) = release_reservations ro.
Proof. done. Qed.

Lemma settle_keep_ok fq mm h ro ro' : ro_ok ro → settle_keep fq mm h ro = Some ro' → ro_ok ro'.
Proof.
  unfold settle_keep. intros (m & d & Hc) Hk. repeat case_match; simplify_eq; [|by exists m, d].
  exists m, d. apply remainder_covered; [done|]. lia.
Qed.

(** One iteration of the settlement loop. *)
Lemma settle_step_ok fq mm h ro l news removed b :
  ro_ok ro → agg_of b (ro :: l) → Forall res_nonneg l →
  ∃ b', settle_step fq mm h (news, removed) ro b =
      SOk b' (news ++ option_list (settle_keep fq mm h ro), removed ++ option_list (settle_exit fq mm h ro)) ∧
    same_orders b b' ∧ agg_of b' (option_list (settle_keep fq mm h ro) ++ l).
Proof.
  intros Hok Hagg Hnn. destruct Hok as (m & d & Hc).
  assert (Forall res_nonneg (ro :: l)) as Hnn'
    by (apply Forall_cons; split; [apply ro_ok_nonneg; by exists m, d|done]).
  destruct (release_reservations_ok ro l b Hagg Hnn') as (b1 & Hr & Hs & Hagg1).
  unfold settle_step, settle_keep, settle_exit. cbv zeta.
  case_bool_decide.
  { exists b1. erewrite sbind_SOk by exact Hr. by rewrite app_nil_r. }
  set (filled := get0 fq _).
  assert (ord_max_fill (ro_order (if 0 <? filled then set_matched true ro else ro)) = ord_max_fill (ro_order ro)
    ∧ ro_expires_at_block (if 0 <? filled then set_matched true ro else ro) = ro_expires_at_block ro
    ∧ release_reservations (if 0 <? filled then set_matched true ro else ro) = release_reservations ro)
    as (Hm & He & Hrel) by (by destruct (0 <? filled)).
  rewrite Hm, He.
  destruct (Z.leb_spec (ord_max_fill (ro_order ro)) filled).
  { exists b1. rewrite Hrel. erewrite sbind_SOk by exact Hr. by rewrite app_nil_r. }
  destruct (Z.leb_spec (ro_expires_at_block ro) h).
  { exists b1. rewrite Hrel. erewrite sbind_SOk by exact Hr. by rewrite app_nil_r. }
  destruct (Z.ltb_spec 0 filled).
  - destruct (settle_partial_ok ro m d filled l b) as (b2 & Hp & Hs2 & Hagg2); [done|lia|done|done|].
    exists b2. erewrite sbind_SOk by exact Hp. by rewrite app_nil_r.
  - exists b. rewrite app_nil_r. done.
Qed.

Lemma settle_loop_ok fq mm h l news removed b :
  Forall ro_ok l → agg_of b (news ++ l) → Forall res_nonneg news →
  ∃ b', sfold (settle_step fq mm h) (news, removed) l b =
      SOk b' (news ++ omap (settle_keep fq mm h) l, removed ++ omap (settle_exit fq mm h) l) ∧
    same_orders b b' ∧ agg_of b' (news ++ omap (settle_keep fq mm h) l).
Proof.
  revert news removed b. induction l as [|ro l IH]; intros news removed b Hl Hagg Hn.
  { exists b. rewrite !app_nil_r in *. done. }
  apply Forall_cons in Hl as [Hok Hl]. pose proof (ro_ok_all_nonneg _ Hl) as Hlnn.
  destruct (settle_step_ok fq mm h ro (news ++ l) news removed b) as (b1 & Hst & Hs1 & Hagg1).
  { done. }
  { eapply agg_of_perm; [|done]. by rewrite Permutation_middle. }
  { by apply Forall_app. }
  set (k := option_list (settle_keep fq mm h ro)) in *.
  destruct (IH (news ++ k) (removed ++ option_list (settle_exit fq mm h ro)) b1) as (b2 & Hf & Hs2 & Hagg2).
  { done. }
  { eapply agg_of_perm; [|done]. rewrite (assoc_L (++)). f_equiv. apply Permutation_app_comm. }
  { apply Forall_app. split; [done|]. unfold k. destruct (settle_keep fq mm h ro) eqn:Hk; [|constructor].
    apply Forall_singleton. apply ro_ok_nonneg. by eapply settle_keep_ok. }
  exists b2. cbn [sfold]. erewrite sbind_SOk by exact Hst. rewrite Hf.
  assert (∀ A (f : RestingOrder → option A), omap f (ro :: l) = option_list (f ro) ++ omap f l) as Hom
    by (intros; simpl; by destruct (f ro)).
  rewrite !Hom, <- !(assoc_L (++)) in *. split; [done|]. split; [by eapply same_orders_trans|done].
Qed.

Lemma settle_ok fills fq mm h b :
  book_inv b → filled_qty_map (E := ReservationError) fills = Ok fq →
  ∃ b', settle fills mm h b = SOk b' (omap (settle_exit fq mm h) (ob_orders b)) ∧
    ob_orders b' = omap (settle_keep fq mm h) (ob_orders b) ∧ ob_ttl b' = ob_ttl b ∧ book_inv b'.
Proof.
  intros [Hall Hagg] Hfq. unfold settle. rewrite Hfq. sstep.
  destruct (settle_loop_ok fq mm h (ob_orders b) [] [] (set_orders [] b)) as (b1 & Hf & Hs & Hagg1);
    [done|by apply agg_set_orders|constructor|].
  erewrite sbind_SOk by exact Hf. simpl. sstep. eexists. split; [done|]. split; [done|].
  split; [apply Hs|]. split; [|by apply agg_set_orders].
  eapply Forall_omap_keep; [|done]. intros ? ? ? ?. by eapply settle_keep_ok.
Qed.

(** ** Replay and restore *)

Lemma res_nonneg_valid ro : res_nonneg ro → invalid_reservation ro = false.
Proof.
  intros [Hb Hp]. unfold invalid_reservation. apply orb_false_iff. split; [lia|].
  apply existsb_false_Forall. eapply Forall_impl; [done|]. intros [? q]. simpl. lia.
Qed.

Lemma reinsert_ok ro b :
  book_inv b → ro_ok ro →
  sumZ (bal_of (ro_account_id ro)) (ob_orders b) + ro_reserved_balance ro ≤ int_max I64 →
  (∀ k, sumZ (pos_of k) (ob_orders b) + pos_of k ro ≤ int_max I64) →
  ∃ b', reinsert_for_replay ro b = SOk b' () ∧ book_inv b' ∧ ob_orders b' = ob_orders b ++ [ro] ∧
    ob_ttl b' = ob_ttl b.
Proof.
  intros Hinv Hok HB HP. unfold reinsert_for_replay.
  rewrite res_nonneg_valid by (by apply ro_ok_nonneg). by apply push_reserved_ok.
Qed.

Lemma restore_loop_ok {E} l b :
  book_inv b → Forall ro_ok l →
  (∀ a, sumZ (bal_of a) (ob_orders b ++ l) ≤ int_max I64) →
  (∀ k, sumZ (pos_of k) (ob_orders b ++ l) ≤ int_max I64) →
  ∃ b', sforeach (E := E) (λ ro,
      if invalid_reservation ro then mret () else
      add_reservations (ro_account_id ro) (ro_reserved_balance ro) (ro_reserved_positions ro);;
      push_order ro) l b = SOk b' () ∧
    book_inv b' ∧ ob_orders b' = ob_orders b ++ l ∧ ob_ttl b' = ob_ttl b.
Proof.
  revert b. induction l as [|ro l IH]; intros b Hinv Hl HB HP.
  { exists b. by rewrite app_nil_r. }
  apply Forall_cons in Hl as [Hok Hl]. pose proof (ro_ok_all_nonneg _ Hl) as Hnn. simpl.
  destruct (push_reserved_ok (E := E) ro b) as (b1 & Hp & Hinv1 & Ho1 & Ht1); [done..| | |].
  - specialize (HB (ro_account_id ro)). rewrite sumZ_app in HB. cbn [sumZ] in HB. rewrite bal_of_self in HB. pose proof (sumZ_bal_nonneg (ro_account_id ro) l Hnn). lia.
  - intros k. specialize (HP k). rewrite sumZ_app in HP. cbn [sumZ] in HP.
    pose proof (sumZ_pos_nonneg k l Hnn). lia.
  - destruct (IH b1) as (b2 & Hf & Hinv2 & Ho2 & Ht2); [done|done|..].
    { intros a. rewrite Ho1, <- (assoc_L (++)). apply HB. }
    { intros k. rewrite Ho1, <- (assoc_L (++)). apply HP. }
    exists b2. rewrite res_nonneg_valid by (by apply ro_ok_nonneg).
    erewrite sbind_SOk by exact Hp. split; [done|]. split; [done|].
    rewrite Ho2, Ho1, Ht2, Ht1, <- (assoc_L (++)). done.
Qed.

(** Books with the same orders, TTL and reservation amounts (a zero entry and an
    absent entry of an aggregate map are the same amount). *)
Record book_equiv (b1 b2 : OrderBook) : Prop := {
  be_orders : ob_orders b1 = ob_orders b2;
  be_ttl : ob_ttl b1 = ob_ttl b2;
  be_bal : ∀ a, get0 (ob_balance_reservations b1) a = get0 (ob_balance_reservations b2) a;
  be_pos : ∀ k, get0 (ob_position_reservations b1) k = get0 (ob_position_reservations b2) k;
}.

#[global] Instance book_equiv_equivalence : Equivalence book_equiv.
Proof.
  split.
  - intros b. by split.
  - intros b1 b2 [H1 H2 H3 H4]. split; intros; by symmetry.
  - intros b1 b2 b3 [H1 H2 H3 H4] [G1 G2 G3 G4]. split; intros; etrans; eauto.
Qed.

#[global] Instance book_inv_proper : Proper (book_equiv ==> iff) book_inv.
Proof.
  assert (∀ b1 b2, book_equiv b1 b2 → book_inv b1 → book_inv b2) as Himp.
  { intros b1 b2 [H1 H2 H3 H4] [G1 [A1 A2 A3 A4]]. split; [by rewrite <- H1|].
    unfold agg_of. rewrite <- H1. split; intros; rewrite <- ?H3, <- ?H4; auto. }
  intros b1 b2 H. split; apply Himp; by try symmetry.
Qed.

Lemma restore_ok {E} b :
  book_inv b →
  ∃ b', @restore E (snapshot b) (ob_ttl b) = Ok b' ∧ book_equiv b' b.
Proof.
  intros Hinv. pose proof Hinv as [Hall [A1 A2 A3 A4]].
  destruct (restore_loop_ok (E := E) (ob_orders b) (OrderBook_new (ob_ttl b))) as (b' & Hf & [_ [C1 C2 C3 C4]] & Ho & Ht).
  { apply book_inv_new. }
  { done. }
  { intros a. simpl. apply A3. }
  { intros k. simpl. apply A4. }
  exists b'. unfold restore, snapshot. rewrite Hf. split; [done|]. simpl in Ho.
  split; [done|done|intros a; by rewrite C1, A1, Ho|intros k; by rewrite C2, A2, Ho].
Qed.
