(* ===== verification/BookSafety.v ===== *)
(** * BookSafety: revalidation, reachable books and their properties

    Revalidation removes exactly the orders whose check fails and leaves a book
    whose worst case every account can pay; a step relation over all mutating
    operations; the order-book properties. *)
From S2P Require Import Prelude Types Order Account Validation OrderBook Snapshots BookInvariant BookOps.

(** ** Revalidation *)

(** The accounts that own resting orders hold representable, non-negative
    amounts. *)
Definition accounts_ok (b : OrderBook) (accounts : gmap Z Account) : Prop :=
  ∀ ro a, ro ∈ ob_orders b → accounts !! ro_account_id ro = Some a → acct_ok a.

(** The verdict on one order, as a total function. *)
Definition verdict (b : OrderBook) (accounts : gmap Z Account) (active : gset Z) (ro : RestingOrder)
    : option RestingRevalidationExit :=
  match revalidate_order (E := unit) b accounts active ro with Ok r => r | _ => None end.

(** What a surviving order knows about its account. *)
Definition survives (b : OrderBook) (accounts : gmap Z Account) (ro : RestingOrder) : Prop :=
  ∃ a m d, accounts !! ro_account_id ro = Some a ∧ 0 < acc_balance a ∧ covered ro m d ∧
    if is_sell d
    then get0 (ob_position_reservations b) (ro_account_id ro, (m, dir_outcome d)) ≤ acc_position a m (dir_outcome d)
    else bal_res d (ord_limit_price (ro_order ro)) (ord_max_fill (ro_order ro)) +
         (get0 (ob_balance_reservations b) (ro_account_id ro) - ro_reserved_balance ro) ≤ acc_balance a.

(** Taking an order's own shares out of its account's reservations. *)
Definition without_self {E} (b : OrderBook) (ro : RestingOrder) : outcome E (gmap (Z * Z) Z) :=
  ofold (λ pos '(key, qty),
    match pos !! key with
    | Some v => v' ← arith I64 (v - qty); Ok (<[key := v']> pos)
    | None => Ok pos
    end) (acct_position_reservations b (ro_account_id ro)) (ro_reserved_positions ro).

Lemma own_share b ro k :
  book_inv b → ro ∈ ob_orders b →
  ro_reserved_balance ro ≤ get0 (ob_balance_reservations b) (ro_account_id ro) ∧
  pos_of k ro ≤ get0 (ob_position_reservations b) k.
Proof.
  intros [Hall Hagg] Hin. pose proof (ro_ok_all_nonneg _ Hall) as Hnn. rewrite Forall_forall in Hnn.
  rewrite (agg_bal _ _ _ Hagg), (agg_pos _ _ _ Hagg). split.
  - rewrite <- bal_of_self at 1. apply sumZ_le_elem; [|done]. intros. apply bal_of_nonneg. auto.
  - apply sumZ_le_elem; [|done]. intros. apply pos_of_nonneg. auto.
Qed.

Lemma without_self_ok {E} b ro m d :
  book_inv b → ro ∈ ob_orders b → covered ro m d →
  ∃ pos, @without_self E b ro = Ok pos ∧
    (∀ key, 0 ≤ get0 pos key ≤ int_max I64) ∧
    (is_sell d = true → get0 pos (m, dir_outcome d) =
       get0 (ob_position_reservations b) (ro_account_id ro, (m, dir_outcome d)) - ord_max_fill (ro_order ro)).
Proof.
  intros Hinv Hin Hc. destruct (covered_bounds _ _ _ Hc) as (_ & Hq & _).
  unfold without_self. rewrite (cov_pos _ _ _ Hc). unfold pos_res.
  assert (∀ key, 0 ≤ get0 (acct_position_reservations b (ro_account_id ro)) key ≤ int_max I64) as Hr.
  { intros key. rewrite acct_position_reservations_get, (agg_pos _ _ _ (bi_agg _ Hinv)).
    apply (agg_pos_range _ _ _ (bi_agg _ Hinv)). }
  destruct (is_sell d) eqn:Hd; simpl; [|by eexists].
  destruct (own_share b ro (ro_account_id ro, (m, dir_outcome d)) Hinv Hin) as [_ Hown].
  rewrite (pos_of_pos_res _ ro m d), decide_True in Hown by (by try apply (cov_pos _ _ _ Hc)).
  pose proof (acct_position_reservations_get b (ro_account_id ro) (m, dir_outcome d)) as Hget.
  pose proof (Hr (m, dir_outcome d)) as Hrk.
  set (P := acct_position_reservations b (ro_account_id ro)) in *.
  destruct (P !! (m, dir_outcome d)) as [v|] eqn:Hv.
  - assert (get0 P (m, dir_outcome d) = v) as Hgv by (unfold get0; by rewrite Hv).
    rewrite arith_in by mlia. simpl. eexists. split; [done|]. split.
    + intros key. rewrite get0_insert. case_decide; [mlia|apply Hr].
    + intros _. rewrite get0_insert, decide_True by done. lia.
  - assert (get0 P (m, dir_outcome d) = 0) as Hgv by (unfold get0; by rewrite Hv).
    eexists. split; [done|]. split; [done|]. intros _. lia.
Qed.

Lemma revalidate_order_ok {E} b accounts active ro :
  book_inv b → accounts_ok b accounts → ro ∈ ob_orders b →
  @revalidate_order E b accounts active ro = Ok (verdict b accounts active ro) ∧
  (verdict b accounts active ro = None → survives b accounts ro).
Proof.
  intros Hinv Hacc Hin. unfold verdict, revalidate_order.
  assert (ro_ok ro) as (m & d & Hc) by (eapply Forall_forall; [apply (bi_orders _ Hinv)|done]).
  destruct (negb _); [done|].
  destruct (accounts !! ro_account_id ro) as [a|] eqn:Ha; [|done].
  destruct (Z.leb_spec (acc_balance a) 0); [done|].
  destruct (Hacc _ _ Hin Ha) as [Hbal Hpos].
  destruct (own_share b ro (ro_account_id ro, (m, dir_outcome d)) Hinv Hin) as [Hob _].
  pose proof (agg_bal_range _ _ _ (bi_agg _ Hinv) (ro_account_id ro)) as RB. cbv beta in RB.
  rewrite <- (agg_bal _ _ _ (bi_agg _ Hinv)) in RB.
  destruct (covered_bounds _ _ _ Hc) as (Hl & Hq & Hrb).
  rewrite !arith_in by mlia. cbn [mbind outcome_bind].
  destruct (without_self_ok (E := E) b ro m d Hinv Hin Hc) as (pos & Hw & Hr & Hself).
  destruct (without_self_ok (E := unit) b ro m d Hinv Hin Hc) as (pos' & Hw' & _ & _).
  assert (pos' = pos) as ->.
  { assert (∀ E F (p q : gmap (Z * Z) Z), @without_self E b ro = Ok p → @without_self F b ro = Ok q → p = q) as Hdet.
    { unfold without_self, arith. clear. intros E F. generalize (acct_position_reservations b (ro_account_id ro)).
      induction (ro_reserved_positions ro) as [|[key qty] l IH]; simpl; intros P p q; [naive_solver|].
      destruct (P !! key); [destruct (fits I64 _); simpl; [apply IH|done]|apply IH]. }
    by eapply Hdet. }
  unfold without_self in Hw, Hw'. rewrite Hw, Hw'. cbn [mbind outcome_bind].
  destruct (validate_order_with_reservation _ _ _ _) as [c|e|] eqn:Hval.
  - split; [done|]. intros _. exists a, m, d. split; [done|]. split; [done|]. split; [done|].
    rewrite (one_hot_validate_with_reservation _ m d) in Hval; [|apply Hc|lia|lia].
    unfold acc_position in *.
    destruct (is_sell d) eqn:Hd.
    + rewrite (Hself eq_refl) in Hval. rewrite arith_in in Hval.
      { simpl in Hval. case_match; simplify_eq. lia. }
      pose proof (Hpos (m, dir_outcome d)). pose proof (Hr (m, dir_outcome d)) as Hrm. rewrite (Hself eq_refl) in Hrm. mlia.
    + rewrite arith_in in Hval by mlia. simpl in Hval. case_match; simplify_eq. lia.
  - done.
  - exfalso. eapply validation_cannot_panic; [apply Hc| | |exact Hval]; [mlia|].
    intros k. specialize (Hpos k). specialize (Hr k). mlia.
Qed.

(** The list of marked indices built by the first loop of [revalidate]. *)
Fixpoint marks (f : RestingOrder → option RestingRevalidationExit) (i : nat) (l : list RestingOrder)
    : list (nat * RestingRevalidationExit) :=
  match l with
  | [] => []
  | ro :: l => option_list ((i,.) <$> f ro) ++ marks f (S i) l
  end.

Lemma marks_loop {E} b accounts active l i acc :
  (∀ ro, ro ∈ l → @revalidate_order E b accounts active ro = Ok (verdict b accounts active ro)) →
  ofold (λ '(i, to_remove) ro,
      r ← @revalidate_order E b accounts active ro;
      Ok (S i, match r with Some reason => to_remove ++ [(i, reason)] | None => to_remove end)) (i, acc) l
  = Ok ((i + length l)%nat, acc ++ marks (verdict b accounts active) i l).
Proof.
  revert i acc. induction l as [|ro l IH]; intros i acc Hl; simpl; [by rewrite Nat.add_0_r, app_nil_r|].
  rewrite Hl by set_solver. simpl. rewrite IH by set_solver. do 2 f_equal; [lia|].
  destruct (verdict _ _ _ _); simpl; [by rewrite <- (assoc_L (++))|done].
Qed.

Lemma removal_loop_ok f l pre b removed :
  ob_orders b = pre ++ l → agg_of b (pre ++ l) → Forall res_nonneg (pre ++ l) →
  ∃ b', sfold (λ removed '(i, reason),
      ro ← remove_order i;
      release_reservations ro;;
      mret (removed ++ [(ro, reason)])) removed (reverse (marks f (length pre) l)) b =
    SOk b' (removed ++ reverse (omap (λ ro, (ro,.) <$> f ro) l)) ∧
    ob_orders b' = pre ++ filter (λ ro, f ro = None) l ∧ ob_ttl b' = ob_ttl b ∧
    agg_of b' (pre ++ filter (λ ro, f ro = None) l).
Proof.
  revert pre b removed. induction l as [|ro l IH]; intros pre b removed Ho Hagg Hnn.
  { exists b. rewrite filter_nil. split; [by rewrite app_nil_r|]. done. }
  destruct (IH (pre ++ [ro]) b removed) as (b1 & Hf & Ho1 & Ht1 & Hagg1); rewrite <- ?(assoc_L (++)); [done..|].
  rewrite length_app, Nat.add_1_r in Hf. rewrite <- (assoc_L (++)) in Ho1, Hagg1. simpl in Ho1, Hagg1.
  cbn [marks]. rewrite reverse_app. 
  assert (omap (λ ro, (ro,.) <$> f ro) (ro :: l) = option_list ((ro,.) <$> f ro) ++ omap (λ ro, (ro,.) <$> f ro) l) as ->
    by (simpl; by destruct (f ro)).
  rewrite reverse_app. rewrite filter_cons. destruct (f ro) as [reason|] eqn:Hfr.
  - rewrite decide_False by done.
    change (reverse (option_list ((length pre,.) <$> Some reason))) with [(length pre, reason)].
    change (reverse (option_list ((ro,.) <$> Some reason))) with [(ro, reason)].
    destruct (release_reservations_ok ro (pre ++ filter (λ ro, f ro = None) l)
      (set_orders (pre ++ filter (λ ro, f ro = None) l) b1)) as (b2 & Hr & [Ho2 Ht2] & Hagg2).
    { apply agg_set_orders. eapply agg_of_perm; [|done]. by rewrite Permutation_middle. }
    { rewrite <- Permutation_middle in Hnn. apply Forall_cons in Hnn as [Hro Hnn].
      apply Forall_cons. split; [done|]. apply Forall_app in Hnn as [? ?]. apply Forall_app.
      split; [done|by apply Forall_filter_keep]. }
    exists b2. split_and!; [|done|by rewrite Ht2|done].
    rewrite sfold_app. erewrite sbind_SOk by exact Hf. cbn [sfold].
    erewrite sbind_SOk; last first.
    { unfold remove_order. erewrite sbind_SOk; last first.
      { sstep. rewrite Ho1, list_lookup_middle by done. cbn [expect]. sstep.
        rewrite delete_middle. reflexivity. }
      erewrite sbind_SOk by exact Hr. reflexivity. }
    by rewrite <- (assoc_L (++)).
  - rewrite decide_True by done. exists b1. simpl. rewrite !app_nil_r. done.
Qed.

Lemma revalidate_ok b accounts active :
  book_inv b → accounts_ok b accounts →
  ∃ b', revalidate accounts active b =
      SOk b' (reverse (omap (λ ro, (ro,.) <$> verdict b accounts active ro) (ob_orders b))) ∧
    ob_orders b' = filter (λ ro, verdict b accounts active ro = None) (ob_orders b) ∧
    ob_ttl b' = ob_ttl b ∧ book_inv b'.
Proof.
  intros Hinv Hacc. pose proof Hinv as [Hall Hagg]. unfold revalidate. sstep.
  rewrite (marks_loop b accounts active (ob_orders b) 0 []).
  2:{ intros ro Hin. by apply revalidate_order_ok. }
  sstep. cbv beta iota. rewrite app_nil_l.
  destruct (removal_loop_ok (verdict b accounts active) (ob_orders b) [] b []) as (b' & Hf & Ho & Ht & Hagg');
    [done|done|by apply ro_ok_all_nonneg|].
  exists b'. split; [exact Hf|]. split; [done|]. split; [done|]. split; [rewrite Ho; by apply Forall_filter_keep|by rewrite Ho].
Qed.

(** ** Collateral after revalidation *)

(** The worst-case cash cost of a resting order at its current size. *)
Definition worst_cost (ro : RestingOrder) : Z :=
  match balance_reservation (ro_order ro) with Ok c => c | _ => 0 end.

Definition worst_of (a : AccountId) (ro : RestingOrder) : Z :=
  if decide (ro_account_id ro = a) then worst_cost ro else 0.

Lemma worst_cost_covered ro m d :
  covered ro m d → worst_cost ro = bal_res d (ord_limit_price (ro_order ro)) (ord_max_fill (ro_order ro)).
Proof.
  intros Hc. destruct (covered_bounds _ _ _ Hc) as (Hl & Hq & _). unfold worst_cost.
  by rewrite (one_hot_balance_reservation _ m d) by (apply Hc || lia).
Qed.

Lemma worst_of_le a ro : ro_ok ro → 0 ≤ worst_of a ro ≤ bal_of a ro.
Proof.
  intros (m & d & Hc). unfold worst_of, bal_of. case_decide; [|lia].
  destruct (covered_bounds _ _ _ Hc) as (Hl & Hq & _). rewrite (worst_cost_covered _ _ _ Hc).
  pose proof (cov_min _ _ _ Hc).
  pose proof (bal_res_bounds d (ord_limit_price (ro_order ro)) (ord_max_fill (ro_order ro)) Hl Hq). lia.
Qed.

Lemma collateral_after_revalidation b b' accounts active aid a :
  book_inv b → accounts_ok b accounts → accounts !! aid = Some a → 0 ≤ acc_balance a →
  book_inv b' →
  ob_orders b' = filter (λ ro, verdict b accounts active ro = None) (ob_orders b) →
  sumZ (worst_of aid) (ob_orders b') ≤ acc_balance a ∧
  ∀ key, 0 ≤ get0 (acc_positions a) key →
    get0 (ob_position_reservations b') (aid, key) ≤ get0 (acc_positions a) key.
Proof.
  intros Hinv Hacc Ha Hbal Hinv' Ho. pose proof Hinv as [Hall Hagg]. rewrite Forall_forall in Hall.
  assert (∀ ro, ro ∈ ob_orders b' → ro ∈ ob_orders b ∧ survives b accounts ro) as Hsurv.
  { intros ro. rewrite Ho. intros [Hv Hin]%list_elem_of_filter. split; [done|].
    by apply (revalidate_order_ok (E := unit) b accounts active ro). }
  split.
  - destruct (decide (Exists (λ ro, worst_of aid ro ≠ 0) (ob_orders b'))) as [Hex|Hno].
    + apply Exists_exists in Hex as (ro & Hin & Hw). destruct (Hsurv _ Hin) as (Hinb & a' & m & d & Ha' & _ & Hc & Hs).
      assert (ro_account_id ro = aid) as Haid by (unfold worst_of in Hw; by case_decide).
      subst aid. assert (a' = a) as -> by congruence.
      assert (is_sell d = false) as Hd.
      { unfold worst_of in Hw. rewrite decide_True, (worst_cost_covered _ _ _ Hc) in Hw by done.
        unfold bal_res in Hw. by destruct (is_sell d). }
      rewrite Hd in Hs. apply elem_of_Permutation in Hinb as [rest Hperm].
      rewrite Ho in Hin |- *. apply list_elem_of_filter in Hin as [Hv _].
      rewrite (sumZ_perm _ _ (ro :: filter (λ ro, verdict b accounts active ro = None) rest)).
      2:{ rewrite Hperm, filter_cons_True by done. done. }
      cbn [sumZ]. unfold worst_of at 1. rewrite decide_True by done. rewrite (worst_cost_covered _ _ _ Hc).
      rewrite (agg_bal _ _ _ Hagg), (sumZ_perm _ _ _ Hperm) in Hs. cbn [sumZ] in Hs.
      unfold bal_of at 1 in Hs. rewrite decide_True in Hs by done.
      assert (sumZ (worst_of (ro_account_id ro)) (filter (λ ro, verdict b accounts active ro = None) rest)
        ≤ sumZ (bal_of (ro_account_id ro)) rest); [|lia].
      apply sumZ_filter_le. intros x Hx. assert (ro_ok x) as Hx' by (apply Hall; rewrite Hperm; set_solver).
      pose proof (worst_of_le (ro_account_id ro) x Hx'). lia.
    + rewrite sumZ_zero; [done|]. intros ro Hin. destruct (decide (worst_of aid ro = 0)) as [|Hne]; [done|].
      exfalso. apply Hno. apply Exists_exists. eauto.
  - intros key Hkey. rewrite (agg_pos _ _ _ (bi_agg _ Hinv')).
    destruct (decide (Exists (λ ro, pos_of (aid, key) ro ≠ 0) (ob_orders b'))) as [Hex|Hno].
    + apply Exists_exists in Hex as (ro & Hin & Hw). destruct (Hsurv _ Hin) as (Hinb & a' & m & d & Ha' & _ & Hc & Hs).
      rewrite (pos_of_pos_res _ ro m d) in Hw by apply (cov_pos _ _ _ Hc).
      case_decide as Hk; [|done]. destruct Hk as [Hd Hk]. rewrite Hd in Hs. simplify_eq.
      unfold acc_position in Hs. rewrite (agg_pos _ _ _ Hagg) in Hs. etrans; [|exact Hs].
      rewrite Ho. apply sumZ_filter_le. intros x Hx. split; [|done].
      apply pos_of_nonneg, ro_ok_nonneg. auto.
    + rewrite sumZ_zero; [done|]. intros ro Hin. destruct (decide (pos_of (aid, key) ro = 0)) as [|Hne]; [done|].
      exfalso. apply Hno. apply Exists_exists. eauto.
Qed.

(** ** Restore-time validation accepts what the book can contain *)

Lemma validate_restored_order_ok ro : ro_ok ro → validate_restored_order ro = Ok ().
Proof.
  intros (m & d & Hc). destruct (covered_bounds _ _ _ Hc) as (Hl & Hq & Hrb).
  pose proof (cov_original _ _ _ Hc) as Horig. unfold validate_restored_order. cbv zeta.
  assert (∀ o, one_hot o m d → validate_order_shape o = Ok ()) as Hshape.
  { intros o Ho. unfold validate_order_shape. by rewrite (validate_one_hot _ _ _ Ho). }
  pose proof (cov_shape _ _ _ Hc) as Hoh.
  rewrite (Hshape (ro_order ro)) by done.
  rewrite (one_hot_balance_reservation (ro_order ro) m d), (one_hot_sell_reservations (ro_order ro) m d)
    by (assumption || lia).
  cbn [map_err mbind outcome_bind].
  rewrite bool_decide_eq_true_2 by apply (cov_pos _ _ _ Hc). cbn [negb].
  destruct (ro_has_been_matched ro) eqn:Hm; cbn [negb].
  - pose proof (cov_min _ _ _ Hc). destruct (Z.ltb_spec (ro_reserved_balance ro)
      (bal_res d (ord_limit_price (ro_order ro)) (ord_max_fill (ro_order ro)))); [lia|].
    destruct (Z.ltb_spec (ord_max_fill (ro_order ro)) (ro_original_max_fill ro)); [|done].
    assert (one_hot (set_max_fill (ro_original_max_fill ro) (ro_order ro)) m d) as Hoh'
      by (apply set_max_fill_one_hot; [done|lia]).
    rewrite Hshape by done. rewrite (one_hot_balance_reservation _ m d) by (assumption || simpl; lia).
    cbn [map_err mbind outcome_bind ord_limit_price ord_max_fill set_max_fill]. pose proof (cov_max _ _ _ Hc). destruct (Z.ltb_spec
      (bal_res d (ord_limit_price (ro_order ro)) (ro_original_max_fill ro)) (ro_reserved_balance ro)); [lia|done].
  - rewrite (cov_fresh _ _ _ Hc Hm), Z.eqb_refl. done.
Qed.

Lemma validate_restored_reservations_ok l : Forall ro_ok l → validate_restored_reservations l = Ok ().
Proof.
  unfold validate_restored_reservations. induction 1 as [|ro l Hro Hl IH]; simpl; [done|].
  rewrite validate_restored_order_ok by done. done.
Qed.

(** ** The book as a state machine *)

(** The state a computation leaves behind, on success or error. *)
Definition left_state {S E A} (r : sres S E A) : option S :=
  match r with SOk s _ | SErr s _ => Some s | SPanic => None end.

Inductive book_step : OrderBook → OrderBook → Prop :=
  | step_accept b b' o aid a h ms : order_wf o → acct_ok a →
      left_state (accept o aid a h ms b) = Some b' → book_step b b'
  | step_cancel b b' aid oid : left_state (cancel aid oid b) = Some b' → book_step b b'
  | step_expire b b' h : left_state (expire h b) = Some b' → book_step b b'
  | step_expire_committed b b' h : left_state (expire_committed_through h b) = Some b' → book_step b b'
  | step_revalidate b b' accounts active : accounts_ok b accounts →
      left_state (revalidate accounts active b) = Some b' → book_step b b'
  | step_settle b b' fills mm h : left_state (settle fills mm h b) = Some b' → book_step b b'
  | step_restore b b' : restore (E := unit) (snapshot b) (ob_ttl b) = Ok b' → book_step b b'.

Lemma filled_qty_map_not_Err {E} fills (e : E) : filled_qty_map fills ≠ Err e.
Proof.
  unfold filled_qty_map. generalize (∅ : gmap Z Z). induction fills as [|f fills IH]; intros m; simpl; [done|].
  destruct (0 <? fill_qty f); simpl; [|apply IH]. unfold add0.
  destruct (arith U64 _) eqn:Ha; simpl; [apply IH| |done]. by apply arith_not_Err in Ha.
Qed.

Lemma book_step_inv b b' : book_inv b → book_step b b' → book_inv b'.
Proof.
  intros Hinv Hst. destruct Hst as [b b' o aid a h ms Hwf Ha Hs|b b' aid oid Hs|b b' h Hs|b b' h Hs
    |b b' accounts active Hacc Hs|b b' fills mm h Hs|b b' Hs].
  - destruct (accept_ok b o aid a h ms Hinv Hwf Ha) as [(e & _ & He)|(b1 & acc & Hok & Hinv1 & _)].
    + rewrite He in Hs. by simplify_eq/=.
    + rewrite Hok in Hs. by simplify_eq/=.
  - pose proof (cancel_ok b aid oid Hinv) as Hc. destruct (cancel_index b aid oid) as [i|e|]; [|by rewrite Hc in Hs; simplify_eq/=|done].
    destruct Hc as (ro & b1 & _ & _ & _ & Hok & _ & _ & Hinv1). rewrite Hok in Hs. by simplify_eq/=.
  - unfold expire in Hs. destruct (expire_where_ok (λ ro, ro_expires_at_block ro <? h) b Hinv) as (b1 & Hok & _ & _ & ?).
    rewrite Hok in Hs. by simplify_eq/=.
  - unfold expire_committed_through in Hs.
    destruct (expire_where_ok (λ ro, ro_expires_at_block ro <=? h) b Hinv) as (b1 & Hok & _ & _ & ?).
    rewrite Hok in Hs. by simplify_eq/=.
  - destruct (revalidate_ok b accounts active Hinv Hacc) as (b1 & Hok & _ & _ & ?). rewrite Hok in Hs. by simplify_eq/=.
  - destruct (filled_qty_map (E := ReservationError) fills) as [fq|e|] eqn:Hfq.
    + destruct (settle_ok fills fq mm h b Hinv Hfq) as (b1 & Hok & _ & _ & ?). rewrite Hok in Hs. by simplify_eq/=.
    + by apply filled_qty_map_not_Err in Hfq.
    + unfold settle in Hs. rewrite Hfq in Hs. done.
  - destruct (restore_ok (E := unit) b Hinv) as (b1 & Hok & Heq). rewrite Hok in Hs. simplify_eq. by rewrite Heq.
Qed.

Lemma reachable_book_inv ttl b : rtc book_step (OrderBook_new ttl) b → book_inv b.
Proof.
  remember (OrderBook_new ttl) as b0 eqn:Hb0. assert (book_inv b0) by (subst; apply book_inv_new).
  clear Hb0. induction 1; eauto using book_step_inv.
Qed.

(** ** A concrete book, for the witnesses *)

Definition ex_acct : Account := Account_new (λ _, []) 1 5000000000.
Definition ex_order : Order := binary_order 7 3 BuyYes 600000001 5001.
Definition ex_book : OrderBook :=
  default (OrderBook_new 100) (left_state (accept ex_order 1 ex_acct 10 0 (OrderBook_new 100))).

Lemma ex_order_wf : order_wf ex_order.
Proof. apply binary_order_wf; vm_compute; split; discriminate. Qed.

Lemma ex_acct_ok : acct_ok ex_acct.
Proof.
  split; [vm_compute; split; discriminate|]. intros k. cbn [acc_positions ex_acct Account_new].
  rewrite get0_empty. int_lia.
Qed.

Lemma ex_book_reachable : rtc book_step (OrderBook_new 100) ex_book.
Proof.
  apply rtc_once. apply (step_accept _ _ ex_order 1 ex_acct 10 0); [apply ex_order_wf|apply ex_acct_ok|].
  vm_compute. reflexivity.
Qed.

Lemma ex_book_inv : book_inv ex_book.
Proof. exact (reachable_book_inv 100 ex_book ex_book_reachable). Qed.

(** ** Properties *)

(** C1: in every book reachable from an empty one by any sequence of accepts,
    cancels, expiries, revalidations, settlements and restores, whether they
    succeed or return an error, the aggregate reservations of every account and
    position are exactly the sums over the resting orders, stay within [i64],
    and the restore-time check accepts the persisted orders.  The accounts passed to
    accept and revalidate have balances and positions not below -1 ([acct_ok]). *)
Theorem reachable_book_consistent (ttl : Z) (b : OrderBook) :
  rtc book_step (OrderBook_new ttl) b →
  (∀ a, reserved_balance b a = sumZ (bal_of a) (ob_orders b) ∧ 0 ≤ reserved_balance b a ≤ int_max I64) ∧
  (∀ k, get0 (ob_position_reservations b) k = sumZ (pos_of k) (ob_orders b) ∧
        0 ≤ get0 (ob_position_reservations b) k ≤ int_max I64) ∧
  validate_restored_reservations (snapshot b) = Ok ().
Proof.
  intros [Hall [H1 H2 H3 H4]]%reachable_book_inv. split_and!.
  - intros a. unfold reserved_balance. rewrite H1. auto.
  - intros k. rewrite H2. auto.
  - by apply validate_restored_reservations_ok.
Qed.

Lemma reachable_book_consistent_witness :
  length (ob_orders ex_book) = 1%nat ∧ validate_restored_reservations (snapshot ex_book) = Ok () ∧
  (∀ a, reserved_balance ex_book a = sumZ (bal_of a) (ob_orders ex_book) ∧
        0 ≤ reserved_balance ex_book a ≤ int_max I64).
Proof.
  split; [reflexivity|]. split; [exact (proj2 (proj2 (reachable_book_consistent 100 ex_book ex_book_reachable)))|].
  exact (proj1 (reachable_book_consistent 100 ex_book ex_book_reachable)).
Defined.

(** C23: settlement of a consistent book against any fills whose per-order
    totals fit [u64] succeeds, leaves the book consistent, and does to every
    order exactly what the pure per-order rule says: fully filled, expired and
    market-maker orders leave with their tag, partially filled ones stay with
    the remaining quantity and reservations scaled up-rounded, the others stay
    unchanged, in order. *)
Theorem settle_refines_per_order_rule (b : OrderBook) (fills : list Fill) (fq : gmap Z Z)
    (mm : gset Z) (h : Z) :
  book_inv b → filled_qty_map (E := ReservationError) fills = Ok fq →
  ∃ b', settle fills mm h b = SOk b' (omap (settle_exit fq mm h) (ob_orders b)) ∧
    ob_orders b' = omap (settle_keep fq mm h) (ob_orders b) ∧ ob_ttl b' = ob_ttl b ∧ book_inv b'.
Proof. apply settle_ok. Qed.

Lemma settle_refines_per_order_rule_witness :
  ∃ fq b', filled_qty_map (E := ReservationError) [Fill_new 7 2000 500000000] = Ok fq ∧
    settle [Fill_new 7 2000 500000000] ∅ 11 ex_book = SOk b' [] ∧
    ob_orders b' = omap (settle_keep fq ∅ 11) (ob_orders ex_book) ∧
    (ro_reserved_balance <$> ob_orders b') = [1800600004] ∧ book_inv b'.
Proof.
  exists {[7 := 2000]}. destruct (settle_refines_per_order_rule ex_book [Fill_new 7 2000 500000000] {[7 := 2000]} ∅ 11
    ex_book_inv) as (b' & Hs & Ho & _ & Hinv); [vm_compute; reflexivity|].
  exists b'. split; [vm_compute; reflexivity|]. split; [rewrite Hs; vm_compute; reflexivity|].
  split; [exact Ho|]. split; [rewrite Ho; vm_compute; reflexivity|exact Hinv].
Defined.

(** Accepting an order never panics; it is rejected exactly when validation
    against the account's other reservations fails, which leaves the book
    untouched, and an acceptance appends exactly that order, keeps the book consistent and
    leaves the account able to pay everything reserved in its name (all its
    buys, or all its sells of that outcome). *)
Theorem accept_reserves_within_means (b : OrderBook) (o : Order) (aid : AccountId) (a : Account) (h ms : Z) :
  book_inv b → order_wf o → acct_ok a →
  (∃ e, validate_order_with_reservation o a (reserved_balance b aid) (acct_position_reservations b aid) = Err e ∧ 
     accept o aid a h ms b = SErr b e) ∨
  (∃ b' acc, accept o aid a h ms b = SOk b' acc ∧ book_inv b' ∧
     ob_orders b' = ob_orders b ++ [ac_resting_order acc] ∧ ob_ttl b' = ob_ttl b ∧
     ac_order acc = o ∧ ac_account_id acc = aid ∧ ro_order (ac_resting_order acc) = o ∧
     ro_account_id (ac_resting_order acc) = aid ∧
     (0 < ro_reserved_balance (ac_resting_order acc) → reserved_balance b' aid ≤ acc_balance a) ∧
     (∀ key, (aid, key) ∈ (λ '(k, _), (aid, k)) <$> ro_reserved_positions (ac_resting_order acc) →
        get0 (ob_position_reservations b') (aid, key) ≤ get0 (acc_positions a) key)).
Proof. apply accept_ok. Qed.

Lemma accept_reserves_within_means_witness :
  let o := binary_order 8 3 BuyNo 300000000 2000 in
  (∃ e, validate_order_with_reservation o ex_acct (reserved_balance ex_book 1) (acct_position_reservations ex_book 1) = Err e ∧
     accept o 1 ex_acct 11 0 ex_book = SErr ex_book e) ∨
  (∃ b' acc, accept o 1 ex_acct 11 0 ex_book = SOk b' acc ∧ book_inv b' ∧
     ob_orders b' = ob_orders ex_book ++ [ac_resting_order acc] ∧ ob_ttl b' = ob_ttl ex_book ∧
     ac_order acc = o ∧ ac_account_id acc = 1 ∧ ro_order (ac_resting_order acc) = o ∧
     ro_account_id (ac_resting_order acc) = 1 ∧
     (0 < ro_reserved_balance (ac_resting_order acc) → reserved_balance b' 1 ≤ acc_balance ex_acct) ∧
     (∀ key, (1, key) ∈ (λ '(k, _), (1, k)) <$> ro_reserved_positions (ac_resting_order acc) →
        get0 (ob_position_reservations b') (1, key) ≤ get0 (acc_positions ex_acct) key)).
Proof.
  apply (accept_reserves_within_means ex_book (binary_order 8 3 BuyNo 300000000 2000) 1 ex_acct 11 0).
  - exact ex_book_inv.
  - apply binary_order_wf; vm_compute; split; discriminate.
  - exact ex_acct_ok.
Defined.

(** Revalidation of a consistent book succeeds and removes exactly the
    orders whose own check fails; afterwards every account with a non-negative
    balance can pay the sum of the worst-case costs of all its remaining buys,
    and every non-negative position covers all remaining sells of it. *)
Theorem revalidate_leaves_collateralised (b : OrderBook) (accounts : gmap Z Account) (active : gset Z) :
  book_inv b → accounts_ok b accounts →
  ∃ b' removed, revalidate accounts active b = SOk b' removed ∧ book_inv b' ∧
    ob_orders b' = filter (λ ro, verdict b accounts active ro = None) (ob_orders b) ∧
    ∀ aid a, accounts !! aid = Some a → 0 ≤ acc_balance a →
      sumZ (worst_of aid) (ob_orders b') ≤ acc_balance a ∧
      ∀ key, 0 ≤ get0 (acc_positions a) key →
        get0 (ob_position_reservations b') (aid, key) ≤ get0 (acc_positions a) key.
Proof.
  intros Hinv Hacc. destruct (revalidate_ok b accounts active Hinv Hacc) as (b' & Hr & Ho & _ & Hinv').
  eexists b', _. split; [exact Hr|]. split; [done|]. split; [done|]. intros aid a Ha Hbal.
  apply (collateral_after_revalidation b b' accounts active aid a); assumption.
Qed.

Lemma revalidate_leaves_collateralised_witness :
  ∃ b' removed, revalidate {[1 := ex_acct]} {[3]} ex_book = SOk b' removed ∧ book_inv b' ∧
    ob_orders b' = filter (λ ro, verdict ex_book {[1 := ex_acct]} {[3]} ro = None) (ob_orders ex_book) ∧
    ∀ aid a, ({[1 := ex_acct]} : gmap Z Account) !! aid = Some a → 0 ≤ acc_balance a →
      sumZ (worst_of aid) (ob_orders b') ≤ acc_balance a ∧
      ∀ key, 0 ≤ get0 (acc_positions a) key →
        get0 (ob_position_reservations b') (aid, key) ≤ get0 (acc_positions a) key.
Proof.
  apply (revalidate_leaves_collateralised ex_book {[1 := ex_acct]} {[3]} ex_book_inv).
  intros ro a _ [_ <-]%lookup_singleton_Some. exact ex_acct_ok.
Defined.

(** Cancelling is safe and precise: on a consistent book it fails only
    because the order is absent or owned by someone else, leaving the book
    untouched; otherwise it removes that one order and the book stays
    consistent.  The read-only preflight [can_cancel] gives the same verdict. *)
Theorem cancel_removes_one_order (b : OrderBook) (aid oid : Z) :
  book_inv b →
  (∃ e, can_cancel b aid oid = Err e ∧ cancel aid oid b = SErr b e ∧
     (e = CancelNotFound ∨ e = CancelWrongOwner)) ∨
  (∃ i ro b', can_cancel b aid oid = Ok () ∧ cancel aid oid b = SOk b' ro ∧
     ob_orders b !! i = Some ro ∧ ord_id (ro_order ro) = oid ∧ ro_account_id ro = aid ∧
     ob_orders b' = delete i (ob_orders b) ∧ book_inv b').
Proof.
  intros Hinv. pose proof (cancel_ok b aid oid Hinv) as Hc. unfold can_cancel.
  destruct (cancel_index b aid oid) as [i|e|] eqn:Hi; [right|left|done].
  - destruct Hc as (ro & b' & ? & ? & ? & ? & ? & _ & ?). exists i, ro, b'. done.
  - exists e. split; [done|]. split; [done|]. unfold cancel_index in Hi. repeat case_match; naive_solver.
Qed.

Lemma cancel_removes_one_order_witness :
  (∃ e, can_cancel ex_book 1 7 = Err e ∧ cancel 1 7 ex_book = SErr ex_book e ∧
     (e = CancelNotFound ∨ e = CancelWrongOwner)) ∨
  (∃ i ro b', can_cancel ex_book 1 7 = Ok () ∧ cancel 1 7 ex_book = SOk b' ro ∧
     ob_orders ex_book !! i = Some ro ∧ ord_id (ro_order ro) = 7 ∧ ro_account_id ro = 1 ∧
     ob_orders b' = delete i (ob_orders ex_book) ∧ book_inv b').
Proof. exact (cancel_removes_one_order ex_book 1 7 ex_book_inv). Defined.

(** Rolling back an acceptance restores the book: if no resting order had
    the new order's id, [cancel_accepted] after [accept] succeeds and gives back
    the same orders, TTL and reservation amounts. *)
Theorem accept_then_rollback (b b' : OrderBook) (o : Order) (aid : AccountId) (a : Account) (h ms : Z) (acc : Accepted) :
  book_inv b → order_wf o → acct_ok a →
  (∀ ro, ro ∈ ob_orders b → ord_id (ro_order ro) ≠ ord_id o) →
  accept o aid a h ms b = SOk b' acc →
  ∃ b'', cancel_accepted acc b' = SOk b'' (ac_resting_order acc) ∧ book_equiv b'' b.
Proof.
  intros Hinv Hwf Ha Hfresh Hacc.
  destruct (accept_ok b o aid a h ms Hinv Hwf Ha) as [(e & _ & He)|(b1 & acc1 & Hok & Hinv1 & Ho1 & Ht1 & Hao & Haa & Hro & Hra & _)];
    [congruence|]. rewrite Hacc in Hok. simplify_eq.
  set (ro := ac_resting_order acc1) in *.
  assert (cancel_index b1 (ac_account_id acc1) (ord_id (ac_order acc1)) = Ok (length (ob_orders b))) as Hci.
  { unfold cancel_index. rewrite Ho1, list_find_app_r.
    2:{ apply list_find_None. apply Forall_forall. auto. }
    simpl. rewrite decide_True by (by rewrite Hro). simpl. rewrite Hra, Z.eqb_refl. simpl; f_equal; lia. }
  pose proof (cancel_ok b1 (ac_account_id acc1) (ord_id (ac_order acc1)) Hinv1) as Hc. rewrite Hci in Hc.
  destruct Hc as (ro' & b2 & Hlk & _ & _ & Hcan & Ho2 & Ht2 & [_ [C1 C2 _ _]]).
  rewrite Ho1, list_lookup_middle in Hlk by done. simplify_eq.
  rewrite Ho1, delete_middle, app_nil_r in Ho2. destruct Hinv as [_ [A1 A2 _ _]].
  exists b2. split; [done|]. split; [done|congruence|intros x; by rewrite C1, A1, Ho2|intros x; by rewrite C2, A2, Ho2].
Qed.

Lemma accept_then_rollback_witness :
  ∃ acc b'', accept ex_order 1 ex_acct 10 0 (OrderBook_new 100) = SOk ex_book acc ∧
    cancel_accepted acc ex_book = SOk b'' (ac_resting_order acc) ∧ book_equiv b'' (OrderBook_new 100).
Proof.
  exists (mkAccepted ex_order 1 (mkRestingOrder ex_order 1 10 110 3000600006 [] false 5001 0)).
  destruct (accept_then_rollback (OrderBook_new 100) ex_book ex_order 1 ex_acct 10 0
    (mkAccepted ex_order 1 (mkRestingOrder ex_order 1 10 110 3000600006 [] false 5001 0))) as (b'' & Hc & He).
  - apply book_inv_new.
  - exact ex_order_wf.
  - exact ex_acct_ok.
  - intros ro Hin. by apply not_elem_of_nil in Hin.
  - vm_compute. reflexivity.
  - exists b''. split; [|split; [exact Hc|exact He]]. vm_compute. reflexivity.
Defined.

(** Persistence round trip: restoring the snapshot of a consistent book
    succeeds, drops no order, and reproduces the same orders, TTL and
    reservation amounts (the aggregates are rebuilt, not stored). *)
Theorem restore_snapshot_roundtrip (b : OrderBook) :
  book_inv b → ∃ b', restore (E := unit) (snapshot b) (ob_ttl b) = Ok b' ∧ book_equiv b' b.
Proof. apply restore_ok. Qed.

Lemma restore_snapshot_roundtrip_witness :
  ∃ b', restore (E := unit) (snapshot ex_book) (ob_ttl ex_book) = Ok b' ∧ book_equiv b' ex_book.
Proof. exact (restore_snapshot_roundtrip ex_book ex_book_inv). Defined.
