(* ===== verification/Digest.v ===== *)
(** * Digest: the per-account event log encodings

    Models [crates/matching-sequencer/src/digest.rs]: the byte encodings of the
    events chained into an account's [events_digest].  The hash is a parameter
    of [update_digest]; what the digest needs from this file is that distinct
    events have distinct encodings. *)
From S2P Require Import Prelude Types Order EngineSettlement Account.

(** [to_le_bytes] of an [8 * n]-bit integer, two's complement if negative. *)
Fixpoint le_bytes (n : nat) (z : Z) : Bytes :=
  match n with O => [] | S n => z mod 256 :: le_bytes n (z / 256) end.

(** The blake3 hash of the concatenation of the two slices. *)
Definition update_digest (blake3 : Bytes → Bytes) (current event_bytes : Bytes) : Bytes :=
  blake3 (current ++ event_bytes).

Inductive WithdrawalRefundReason :=
  | L1Cancelled
  | L1Expired (observed_l1_height : Z).

Record KeyRecord := mkKeyRecord {
  kr_auth_scheme : Z;
  kr_pubkey_sec1 : Bytes;
  kr_capability_mask : Z;
}.

Definition encode_fill_event (order_id : Z) (qty : Qty) (price : Nanos) (block_height : Z) : Bytes :=
  [1] ++ le_bytes 8 order_id ++ le_bytes 8 qty ++ le_bytes 8 price ++ le_bytes 8 block_height.

Definition encode_deposit_event (amount block_height : Z) : Bytes :=
  [2] ++ le_bytes 8 amount ++ le_bytes 8 block_height.

Definition encode_l1_deposit_event (deposit_id amount : Z) (deposit_root : Bytes) (block_height : Z) : Bytes :=
  [6] ++ le_bytes 8 deposit_id ++ le_bytes 8 amount ++ deposit_root ++ le_bytes 8 block_height.

Definition encode_withdrawal_created_event (withdrawal_id amount : Z) (nullifier : Bytes) (block_height : Z) : Bytes :=
  [7] ++ le_bytes 8 withdrawal_id ++ le_bytes 8 amount ++ nullifier ++ le_bytes 8 block_height.

Definition encode_withdrawal_refunded_event (withdrawal_id amount : Z)
    (reason : WithdrawalRefundReason) (block_height : Z) : Bytes :=
  [9] ++ le_bytes 8 withdrawal_id ++ le_bytes 8 amount ++
  match reason with
  | L1Cancelled => [0]
  | L1Expired observed_l1_height => [1] ++ le_bytes 8 observed_l1_height
  end ++ le_bytes 8 block_height.

Definition encode_quarantine_claimed_event (amount block_height : Z) : Bytes :=
  [12] ++ le_bytes 8 amount ++ le_bytes 8 block_height.

Definition encode_resolution_event (market_id : MarketId) (payout_nanos : Nanos) (block_height : Z) : Bytes :=
  [3] ++ le_bytes 4 market_id ++ le_bytes 8 payout_nanos ++ le_bytes 8 block_height.

Definition encode_create_account_event (initial_balance block_height : Z) : Bytes :=
  [4] ++ le_bytes 8 initial_balance ++ le_bytes 8 block_height.

Definition encode_order_cancelled_event (order_id : Z) (market_ids : list MarketId)
    (side : OrderDirection) (remaining_quantity block_height : Z) : Bytes :=
  [8] ++ le_bytes 8 order_id ++ le_bytes 8 (Z.of_nat (length market_ids)) ++
  concat (le_bytes 4 <$> market_ids) ++
  [OrderDirection_to_byte side] ++ le_bytes 8 remaining_quantity ++ le_bytes 8 block_height.

Definition encode_adjustment (a : MintAdjustment) : Bytes :=
  le_bytes 4 (ma_market_id a) ++ [ma_outcome a] ++
  le_bytes 8 (ma_position_delta a) ++ le_bytes 8 (ma_balance_delta a).

Definition encode_mint_event (adjustments : list MintAdjustment) (block_height : Z) : Bytes :=
  [5] ++ le_bytes 8 (Z.of_nat (length adjustments)) ++
  concat (encode_adjustment <$> adjustments) ++ le_bytes 8 block_height.

Definition encode_key_event (tag : Z) (key : KeyRecord) (block_height : Z) : Bytes :=
  [tag] ++ [kr_auth_scheme key] ++ kr_pubkey_sec1 key ++
  le_bytes 4 (kr_capability_mask key) ++ le_bytes 8 block_height.

Definition encode_key_registered_event (key : KeyRecord) (block_height : Z) : Bytes :=
  encode_key_event 10 key block_height.
Definition encode_key_revoked_event (key : KeyRecord) (block_height : Z) : Bytes :=
  encode_key_event 11 key block_height.

(** ** One type for all the events of an account's log *)

Inductive AcctEvent :=
  | EvFill (order_id qty price h : Z)
  | EvDeposit (amount h : Z)
  | EvResolution (market_id payout h : Z)
  | EvCreateAccount (balance h : Z)
  | EvMint (adjs : list MintAdjustment) (h : Z)
  | EvL1Deposit (deposit_id amount : Z) (root : Bytes) (h : Z)
  | EvWithdrawalCreated (id amount : Z) (nullifier : Bytes) (h : Z)
  | EvOrderCancelled (order_id : Z) (markets : list Z) (side : OrderDirection) (remaining h : Z)
  | EvWithdrawalRefunded (id amount : Z) (reason : WithdrawalRefundReason) (h : Z)
  | EvKeyRegistered (key : KeyRecord) (h : Z)
  | EvKeyRevoked (key : KeyRecord) (h : Z)
  | EvQuarantineClaimed (amount h : Z).

Definition encode_event (e : AcctEvent) : Bytes :=
  match e with
  | EvFill o q p h => encode_fill_event o q p h
  | EvDeposit a h => encode_deposit_event a h
  | EvResolution m p h => encode_resolution_event m p h
  | EvCreateAccount b h => encode_create_account_event b h
  | EvMint l h => encode_mint_event l h
  | EvL1Deposit d a r h => encode_l1_deposit_event d a r h
  | EvWithdrawalCreated i a n h => encode_withdrawal_created_event i a n h
  | EvOrderCancelled o ms s r h => encode_order_cancelled_event o ms s r h
  | EvWithdrawalRefunded i a r h => encode_withdrawal_refunded_event i a r h
  | EvKeyRegistered k h => encode_key_registered_event k h
  | EvKeyRevoked k h => encode_key_revoked_event k h
  | EvQuarantineClaimed a h => encode_quarantine_claimed_event a h
  end.

(** The values are of their Rust types. *)
Definition u32 (z : Z) : Prop := 0 ≤ z ≤ int_max U32.
#[global] Instance u32_dec z : Decision (u32 z) := ltac:(unfold u32; apply _).

Definition adj_wf (a : MintAdjustment) : Prop :=
  u32 (ma_market_id a) ∧ i64 (ma_position_delta a) ∧ i64 (ma_balance_delta a).

Definition key_wf (k : KeyRecord) : Prop := length (kr_pubkey_sec1 k) = 33%nat ∧ u32 (kr_capability_mask k).

Definition event_wf (e : AcctEvent) : Prop :=
  match e with
  | EvFill o q p h => u64 o ∧ u64 q ∧ u64 p ∧ u64 h
  | EvDeposit a h => i64 a ∧ u64 h
  | EvResolution m p h => u32 m ∧ u64 p ∧ u64 h
  | EvCreateAccount b h => i64 b ∧ u64 h
  | EvMint l h => Forall adj_wf l ∧ u64 (Z.of_nat (length l)) ∧ u64 h
  | EvL1Deposit d a r h => u64 d ∧ i64 a ∧ length r = 32%nat ∧ u64 h
  | EvWithdrawalCreated i a n h => u64 i ∧ i64 a ∧ length n = 32%nat ∧ u64 h
  | EvOrderCancelled o ms s r h => u64 o ∧ Forall u32 ms ∧ u64 (Z.of_nat (length ms)) ∧ u64 r ∧ u64 h
  | EvWithdrawalRefunded i a r h =>
      u64 i ∧ i64 a ∧ match r with L1Cancelled => True | L1Expired x => u64 x end ∧ u64 h
  | EvKeyRegistered k h | EvKeyRevoked k h => key_wf k ∧ u64 h
  | EvQuarantineClaimed a h => i64 a ∧ u64 h
  end.

(** ** Injectivity *)

Lemma le_bytes_length n z : length (le_bytes n z) = n.
Proof. revert z. induction n; simpl; auto. Qed.

Lemma le_bytes_inj n z z' : le_bytes n z = le_bytes n z' → z mod 256 ^ Z.of_nat n = z' mod 256 ^ Z.of_nat n.
Proof.
  revert z z'. induction n as [|n IH]; intros z z'; [by rewrite !Z.mod_1_r|].
  cbn [le_bytes]. intros [= H0 Hr]. apply IH in Hr.
  rewrite Nat2Z.inj_succ, Z.pow_succ_r by lia.
  rewrite (Z.rem_mul_r z), (Z.rem_mul_r z') by lia. rewrite H0, Hr. done.
Qed.

(** Equal encodings of two [u64]s, [i64]s or [u32]s. *)
Lemma le_u64_inj z z' : u64 z → u64 z' → le_bytes 8 z = le_bytes 8 z' → z = z'.
Proof.
  intros Hz Hz' H%le_bytes_inj. change (256 ^ Z.of_nat 8) with 18446744073709551616 in H.
  unfold u64 in *. simpl in *. rewrite !Z.mod_small in H by lia. done.
Qed.

Lemma le_i64_inj z z' : i64 z → i64 z' → le_bytes 8 z = le_bytes 8 z' → z = z'.
Proof.
  intros Hz Hz' H%le_bytes_inj. change (256 ^ Z.of_nat 8) with 18446744073709551616 in H.
  unfold i64 in *. simpl in *. Z.div_mod_to_equations. lia.
Qed.

Lemma le_u32_inj z z' : u32 z → u32 z' → le_bytes 4 z = le_bytes 4 z' → z = z'.
Proof.
  intros Hz Hz' H%le_bytes_inj. change (256 ^ Z.of_nat 4) with 4294967296 in H.
  unfold u32 in *. simpl in *. rewrite !Z.mod_small in H by lia. done.
Qed.

(** Fixed-width fields can be compared one after the other. *)
Lemma field_inj {A} (x x' : list A) y y' :
  length x = length x' → x ++ y = x' ++ y' → x = x' ∧ y = y'.
Proof. intros Hl H. by apply app_inj_1. Qed.

Lemma concat_fields_inj {A} (P : A → Prop) (f : A → Bytes) w l l' y y' :
  (∀ x, length (f x) = w) → (∀ x x', P x → P x' → f x = f x' → x = x') →
  Forall P l → Forall P l' → length l = length l' →
  concat (f <$> l) ++ y = concat (f <$> l') ++ y' → l = l' ∧ y = y'.
Proof.
  intros Hw Hinj Hl. revert l'. induction Hl as [|x l Hx Hl IH]; intros [|x' l'] Hl' Hlen H; simplify_eq/=; [done|].
  apply Forall_cons in Hl' as [Hx' Hl']. rewrite <- !(assoc_L (++)) in H.
  apply field_inj in H as [Hf H]; [|by rewrite !Hw].
  apply Hinj in Hf; [|done..]. apply IH in H as [-> ->]; [|done..]. by subst.
Qed.

Lemma encode_adjustment_inj a a' : adj_wf a → adj_wf a' → encode_adjustment a = encode_adjustment a' → a = a'.
Proof.
  destruct a as [m o p b], a' as [m' o' p' b']. unfold adj_wf, encode_adjustment. simpl ma_market_id.
  intros (Hm & Hp & Hb) (Hm' & Hp' & Hb') H. cbn [ma_market_id ma_outcome ma_position_delta ma_balance_delta] in *.
  apply field_inj in H as [H1 H]; [|by rewrite !le_bytes_length].
  apply field_inj in H as [H2 H]; [|done].
  apply field_inj in H as [H3 H]; [|by rewrite !le_bytes_length].
  apply le_u32_inj in H1; [|done..]. apply le_i64_inj in H3; [|done..]. apply le_i64_inj in H; [|done..].
  by simplify_eq.
Qed.

Lemma encode_adjustment_length a : length (encode_adjustment a) = 21%nat.
Proof. unfold encode_adjustment. by rewrite !length_app, !le_bytes_length. Qed.

(** Peel the next fixed-width field off both sides of an equation of encodings. *)
Ltac peel H :=
  let H1 := fresh "Hf" in
  apply field_inj in H as [H1 H]; [|by rewrite ?le_bytes_length];
  first [apply le_u64_inj in H1; [|done..] | apply le_i64_inj in H1; [|done..]
        | apply le_u32_inj in H1; [|done..] | idtac].
Ltac peel_last H := first [apply le_u64_inj in H; [|done..]].

Lemma encode_key_event_inj t k k' h h' :
  key_wf k → key_wf k' → u64 h → u64 h' → encode_key_event t k h = encode_key_event t k' h' → k = k' ∧ h = h'.
Proof.
  destruct k as [s p c], k' as [s' p' c']. unfold key_wf, encode_key_event.
  cbn [kr_auth_scheme kr_pubkey_sec1 kr_capability_mask]. intros [Hp Hc] [Hp' Hc'] Hh Hh' H.
  apply field_inj in H as [_ H]; [|done]. apply field_inj in H as [H1 H]; [|done].
  apply field_inj in H as [H2 H]; [|congruence]. peel H. peel_last H. by simplify_eq.
Qed.

Lemma encode_mint_inj l l' h h' :
  event_wf (EvMint l h) → event_wf (EvMint l' h') → encode_mint_event l h = encode_mint_event l' h' → l = l' ∧ h = h'.
Proof.
  intros (Hl & Hn & Hh) (Hl' & Hn' & Hh') H. unfold encode_mint_event in H.
  apply field_inj in H as [_ H]; [|done]. peel H.
  apply (concat_fields_inj adj_wf encode_adjustment 21) in H as [-> H];
    [|apply encode_adjustment_length|apply encode_adjustment_inj|done|done|lia].
  peel_last H. done.
Qed.

Lemma OrderDirection_to_byte_inj d d' : OrderDirection_to_byte d = OrderDirection_to_byte d' → d = d'.
Proof. by destruct d, d'. Qed.

Lemma encode_cancelled_inj o o' ms ms' s s' r r' h h' :
  event_wf (EvOrderCancelled o ms s r h) → event_wf (EvOrderCancelled o' ms' s' r' h') →
  encode_order_cancelled_event o ms s r h = encode_order_cancelled_event o' ms' s' r' h' →
  o = o' ∧ ms = ms' ∧ s = s' ∧ r = r' ∧ h = h'.
Proof.
  intros (Ho & Hm & Hn & Hr & Hh) (Ho' & Hm' & Hn' & Hr' & Hh') H. unfold encode_order_cancelled_event in H.
  apply field_inj in H as [_ H]; [|done]. peel H. peel H.
  apply (concat_fields_inj u32 (le_bytes 4) 4) in H as [-> H];
    [|apply le_bytes_length|apply le_u32_inj|done|done|lia].
  apply field_inj in H as [Hs H]; [|done]. injection Hs as Hs%OrderDirection_to_byte_inj.
  peel H. peel_last H. done.
Qed.

Lemma encode_refunded_inj i i' a a' r r' h h' :
  event_wf (EvWithdrawalRefunded i a r h) → event_wf (EvWithdrawalRefunded i' a' r' h') →
  encode_withdrawal_refunded_event i a r h = encode_withdrawal_refunded_event i' a' r' h' →
  i = i' ∧ a = a' ∧ r = r' ∧ h = h'.
Proof.
  intros (Hi & Ha & Hr & Hh) (Hi' & Ha' & Hr' & Hh') H. unfold encode_withdrawal_refunded_event in H.
  apply field_inj in H as [_ H]; [|done]. peel H. peel H.
  destruct r as [|x], r' as [|x']; cbn [app] in H.
  - apply (field_inj [0] [0]) in H as [_ H]; [|done]. peel_last H. done.
  - discriminate H.
  - discriminate H.
  - apply (field_inj [1] [1]) in H as [_ H]; [|done]. peel H. peel_last H. by subst.
Qed.

(** ** Properties *)

(** The encodings chained into an account's event digest are injective:
    two well-typed events of any kinds with the same bytes are the same event,
    so a digest cannot confuse a fill with a deposit, nor two events of a kind
    that differ in any field. *)
Theorem event_encoding_injective (e e' : AcctEvent) :
  event_wf e → event_wf e' → encode_event e = encode_event e' → e = e'.
Proof.
  intros He He' H. destruct e, e'; try discriminate H; cbn [encode_event] in H.
  - destruct He as (?&?&?&?), He' as (?&?&?&?). unfold encode_fill_event in H.
    apply field_inj in H as [_ H]; [|done]. do 3 peel H. peel_last H. by subst.
  - destruct He, He'. unfold encode_deposit_event in H.
    apply field_inj in H as [_ H]; [|done]. peel H. peel_last H. by subst.
  - destruct He as (?&?&?), He' as (?&?&?). unfold encode_resolution_event in H.
    apply field_inj in H as [_ H]; [|done]. do 2 peel H. peel_last H. by subst.
  - destruct He, He'. unfold encode_create_account_event in H.
    apply field_inj in H as [_ H]; [|done]. peel H. peel_last H. by subst.
  - by apply encode_mint_inj in H as [-> ->].
  - destruct He as (?&?&?&?), He' as (?&?&?&?). unfold encode_l1_deposit_event in H.
    apply field_inj in H as [_ H]; [|done]. do 2 peel H.
    apply field_inj in H as [-> H]; [|congruence]. peel_last H. by subst.
  - destruct He as (?&?&?&?), He' as (?&?&?&?). unfold encode_withdrawal_created_event in H.
    apply field_inj in H as [_ H]; [|done]. do 2 peel H.
    apply field_inj in H as [-> H]; [|congruence]. peel_last H. by subst.
  - apply encode_cancelled_inj in H as (-> & -> & -> & -> & ->); [done..].
  - apply encode_refunded_inj in H as (-> & -> & -> & ->); [done..].
  - destruct He, He'. by apply encode_key_event_inj in H as [-> ->].
  - destruct He, He'. by apply encode_key_event_inj in H as [-> ->].
  - destruct He, He'. unfold encode_quarantine_claimed_event in H.
    apply field_inj in H as [_ H]; [|done]. peel H. peel_last H. by subst.
Qed.

Lemma event_encoding_injective_witness :
  EvDeposit (-5) 12 = EvDeposit (int_max U64 - 4 - 18446744073709551616) 12.
Proof.
  apply (event_encoding_injective (EvDeposit (-5) 12) (EvDeposit (int_max U64 - 4 - 18446744073709551616) 12)).
  - vm_compute. repeat split; discriminate.
  - vm_compute. repeat split; discriminate.
  - reflexivity.
Defined.
