(* ===== verification/BatchSettlement.v ===== *)
(** * BatchSettlement: applying fills, minting and resolutions to accounts

    Models [crates/matching-sequencer/src/settlement.rs].  The account store is
    its map of accounts; [blake3] is the hash behind [digest::update_digest].
    Loops over a [HashMap] take the iteration order as a list argument. *)
From S2P Require Import Prelude Types Order EngineSettlement Account Digest.

Inductive UnsettleableFillReason := MissingOrder | MissingAccount | SettlementOverflow.

(** The failures that block production can report about accounts (the two
    variants raised by later verification stages are not produced here). *)
Inductive BlockInvariantFailure :=
  | UnsettleableFill (order_id account_id : Z) (reason : UnsettleableFillReason)
  | NegativeBalance (account_id : AccountId) (balance : Z)
  | BalanceDeltaMismatch (balance_delta expected_balance_delta : Z)
  | PositionImbalance (market_id : MarketId) (total_yes total_no : Z).

#[global] Instance UnsettleableFillReason_eq_dec : EqDecision UnsettleableFillReason.
Proof. solve_decision. Defined.
#[global] Instance BlockInvariantFailure_eq_dec : EqDecision BlockInvariantFailure.
Proof. solve_decision. Defined.

Section settlement.
Context (blake3 : Bytes → Bytes).

(** [*positions.entry((market, outcome)).or_insert(0) += qty_delta] for each delta. *)
Definition apply_positions {E : Type} (p : gmap (Z * Z) Z) (deltas : list (MarketId * Z * Z))
    : outcome E (gmap (Z * Z) Z) :=
  ofold (λ p '(market, out, qty_delta), add0 I64 p (market, out) qty_delta) p deltas.

Definition settle_fill_with_delta {E : Type} (a : Account) (o : Order) (f : Fill)
    : outcome E (option (Account * SettlementDelta)) :=
  d ← compute_fill_settlement o f;
  match d with
  | None => Ok None
  | Some delta =>
      balance ← arith I64 (acc_balance a + sd_balance_delta delta);
      positions ← apply_positions (acc_positions a) (sd_position_deltas delta);
      Ok (Some (set_positions positions (set_balance balance a), delta))
  end.

Definition settle_fill {E : Type} (a : Account) (o : Order) (f : Fill) : outcome E (Account * bool) :=
  r ← settle_fill_with_delta a o f;
  Ok (match r with Some (a', _) => (a', true) | None => (a, false) end).

Record BatchState := mkBatchState {
  bs_accounts : gmap Z Account;
  bs_failures : list BlockInvariantFailure;
  bs_position_deltas : list (MarketId * Z * Z);
}.

Definition fail_fill (s : BatchState) (f : Fill) (r : UnsettleableFillReason) : BatchState :=
  mkBatchState (bs_accounts s)
    (bs_failures s ++ [UnsettleableFill (fill_order_id f) (fill_account_id f) r]) (bs_position_deltas s).

(** One iteration of the loop over fills. *)
Definition settle_batch_step {E : Type} (om : gmap Z Order) (block_height : Z) (s : BatchState) (f : Fill)
    : outcome E BatchState :=
  if fill_qty f =? 0 then Ok s else
  match om !! fill_order_id f with
  | None => Ok (fail_fill s f MissingOrder)
  | Some o =>
      match bs_accounts s !! fill_account_id f with
      | None => Ok (fail_fill s f MissingAccount)
      | Some a =>
          r ← settle_fill_with_delta a o f;
          match r with
          | None => Ok (fail_fill s f SettlementOverflow)
          | Some (a', delta) =>
              let event := encode_fill_event (fill_order_id f) (fill_qty f) (fill_price f) block_height in
              let a'' := set_events_digest (update_digest blake3 (acc_events_digest a') event) a' in
              Ok (mkBatchState (<[fill_account_id f := a'']> (bs_accounts s)) (bs_failures s)
                    (bs_position_deltas s ++ sd_position_deltas delta))
          end
      end
  end.

Definition settle_batch_with_position_deltas {E : Type} (accounts : gmap Z Account) (fills : list Fill)
    (orders : list Order) (block_height : Z) : outcome E BatchState :=
  ofold (settle_batch_step (order_map orders) block_height) (mkBatchState accounts [] []) fills.

Definition settle_batch {E : Type} (accounts : gmap Z Account) (fills : list Fill) (orders : list Order)
    (block_height : Z) : outcome E (gmap Z Account * list BlockInvariantFailure) :=
  s ← settle_batch_with_position_deltas accounts fills orders block_height;
  Ok (bs_accounts s, bs_failures s).

(** The loop body of [apply_minting]. *)
Definition apply_adjustment {E : Type} (mint : Account) (adj : MintAdjustment) : outcome E Account :=
  positions ← add0 I64 (acc_positions mint) (ma_market_id adj, ma_outcome adj) (ma_position_delta adj);
  balance ← arith I64 (acc_balance mint + ma_balance_delta adj);
  Ok (set_balance balance (set_positions positions mint)).

Definition apply_minting {E : Type} (mint : Account) (adjustments : list MintAdjustment) (block_height : Z)
    : outcome E Account :=
  mint' ← ofold apply_adjustment mint adjustments;
  match adjustments with
  | [] => Ok mint'
  | _ => let event := encode_mint_event adjustments block_height in
         Ok (set_events_digest (update_digest blake3 (acc_events_digest mint') event) mint')
  end.

End settlement.

(** ** Market resolution *)

(** [notional_nanos(payout, |pos|).0 as i64 * pos.signum()] added to a balance. *)
Definition credit_payout {E : Type} (balance payout pos : Z) : outcome E Z :=
  if pos =? 0 then Ok balance else
  v ← arith I64 (wrap I64 (notional_nanos payout (Z.abs pos)) * Z.sgn pos);
  arith I64 (balance + v).

(** The loop body for one account: the new record and whether it was affected. *)
Definition resolve_account {E : Type} (market : MarketId) (yes_payout no_payout : Nanos) (a : Account)
    : outcome E (Account * bool) :=
  let yes_pos := get0 (acc_positions a) (market, 0) in
  let no_pos := get0 (acc_positions a) (market, 1) in
  let positions := delete (market, 1) (delete (market, 0) (acc_positions a)) in
  b1 ← credit_payout (acc_balance a) yes_payout yes_pos;
  b2 ← credit_payout b1 no_payout no_pos;
  Ok (set_balance b2 (set_positions positions a), negb (yes_pos =? 0) || negb (no_pos =? 0)).

(** One iteration of the loop over account ids. *)
Definition resolve_step {E : Type} (market : MarketId) (yes no : Nanos)
    (acc : gmap Z Account * list AccountId) (id : AccountId) : outcome E (gmap Z Account * list AccountId) :=
  let '(accounts, affected) := acc in
  a ← expect (accounts !! id);
  '(a', hit) ← resolve_account market yes no a;
  Ok (<[id := a']> accounts, if (hit : bool) then affected ++ [id] else affected).

Definition resolve_market {E : Type} (accounts : gmap Z Account) (account_ids : list AccountId)
    (market : MarketId) (yes_payout_nanos : Nanos) : outcome E (gmap Z Account * list AccountId) :=
  let no_payout_nanos := sat U64 (NANOS_PER_DOLLAR - yes_payout_nanos) in
  ofold (resolve_step market yes_payout_nanos no_payout_nanos) (accounts, []) account_ids.

(** ** Effects on totals *)

(** Total change a delta list makes to one position. *)
Definition delta_total (k : Z * Z) (deltas : list (MarketId * Z * Z)) : Z :=
  sumZ (λ '(k', q), if decide (k' = k) then q else 0) deltas.

Definition bal_total (accounts : gmap Z Account) : Z := msum acc_balance accounts.
Definition pos_total (k : Z * Z) (accounts : gmap Z Account) : Z :=
  msum (λ a, get0 (acc_positions a) k) accounts.

Lemma apply_positions_Ok {E : Type} p ds p' k :
  @apply_positions E p ds = Ok p' → get0 p' k = get0 p k + delta_total k ds.
Proof.
  unfold apply_positions, delta_total. revert p.
  induction ds as [|[[m o] q] ds IH]; intros p H; simplify_eq/=; [lia|].
  destruct (add0 I64 p (m, o) q) as [p1| |] eqn:Hadd; simplify_eq/=.
  rewrite (IH _ H), (get0_add0 _ _ _ _ _ k Hadd). lia.
Qed.

Lemma apply_positions_in {E : Type} p m o q :
  int_min I64 ≤ get0 p (m, o) + q ≤ int_max I64 →
  @apply_positions E p [(m, o, q)] = Ok (<[(m, o) := get0 p (m, o) + q]> p).
Proof. intros H. unfold apply_positions. simpl. by rewrite add0_in. Qed.

(** Bounds on every account: [B] on balances, [P] on positions. *)
Definition bounded (B P : Z) (accounts : gmap Z Account) : Prop :=
  ∀ id a, accounts !! id = Some a →
    Z.abs (acc_balance a) ≤ B ∧ ∀ k, Z.abs (get0 (acc_positions a) k) ≤ P.

(** The sums of the absolute balances and of the absolute positions. *)
Definition cash_volume (accounts : gmap Z Account) : Z := msum (λ a, Z.abs (acc_balance a)) accounts.
Definition share_volume (accounts : gmap Z Account) : Z :=
  msum (λ a, msum Z.abs (acc_positions a)) accounts.

Lemma volume_bounded accounts : bounded (cash_volume accounts) (share_volume accounts) accounts.
Proof.
  assert (∀ id a, accounts !! id = Some a → 0 ≤ msum Z.abs (acc_positions a)) as Hnn
    by (intros; apply msum_nonneg; intros; lia).
  intros id a Ha. split.
  - apply (msum_lookup_le (λ a, Z.abs (acc_balance a)) accounts id a); [intros; lia|done].
  - intros k. transitivity (msum Z.abs (acc_positions a)).
    + unfold get0. destruct (acc_positions a !! k) as [q|] eqn:Hk; simpl; [|by apply (Hnn id)].
      apply (msum_lookup_le Z.abs (acc_positions a) k q); [intros; lia|done].
    + apply (msum_lookup_le (λ a, msum Z.abs (acc_positions a)) accounts id a); done.
Qed.

(** The share movements of a fill. *)
Definition share_term (om : gmap Z Order) (f : Fill) : list (MarketId * Z * Z) :=
  match om !! fill_order_id f with
  | Some o => match compute_fill_settlement_checked o f with Ok (Some d) => sd_position_deltas d | _ => [] end
  | None => []
  end.

Section batch.
Context (blake3 : Bytes → Bytes) (om : gmap Z Order) (h : Z).

(** A fill is settled by adding its cash and share deltas to its account. *)
Lemma settle_batch_step_ok {E : Type} B P (s : BatchState) f :
  admitted_fill om f → is_Some (bs_accounts s !! fill_account_id f) → bounded B P (bs_accounts s) →
  B ≤ 8000000000000000000 → P ≤ 8000000000000000000 →
  ∃ s' d, @settle_batch_step blake3 E om h s f = Ok s' ∧
    sd_balance_delta d = cash_term om f ∧
    (∃ o, om !! fill_order_id f = Some o ∧ compute_fill_settlement_checked o f = Ok (Some d)) ∧
    bs_failures s' = bs_failures s ∧
    bs_position_deltas s' = bs_position_deltas s ++ sd_position_deltas d ∧
    bal_total (bs_accounts s') = bal_total (bs_accounts s) + cash_term om f ∧
    (∀ k, pos_total k (bs_accounts s') = pos_total k (bs_accounts s) + delta_total k (sd_position_deltas d)) ∧
    (∀ id, is_Some (bs_accounts s' !! id) ↔ is_Some (bs_accounts s !! id)) ∧
    (cash_volume (bs_accounts s') ≤ cash_volume (bs_accounts s) + 1000000000000000 ∧
     share_volume (bs_accounts s') ≤ share_volume (bs_accounts s) + MAX_ORDER_QTY) ∧
    bounded (B + 1000000000000000) (P + MAX_ORDER_QTY) (bs_accounts s').
Proof.
  intros Hadm [a Ha] Hb HB HP. pose proof (admitted_fill_terms om f Hadm) as (o & d & Ho & _ & Hset & Hcash & _ & Hcb & _).
  destruct Hadm as (o' & Ho' & Hwf & Hval & Hq & Hp). rewrite Ho in Ho'. simplify_eq.
  destruct (one_hot_validate o' Hwf Hval) as (m & dir & Hoh). pose proof (oh_max_fill _ _ _ Hoh).
  rewrite (one_hot_settlement_admitted o' m dir) in Hset by (lia || assumption). simplify_eq.
  set (d := settle_spec m dir (fill_price f) (fill_qty f)) in *.
  destruct (Hb _ _ Ha) as [Hbal Hpos]. specialize (Hpos (m, dir_outcome dir)).
  assert (Z.abs (dir_sign dir * fill_qty f) ≤ MAX_ORDER_QTY) as Hqb by (destruct (dir_sign_cases dir) as [[-> _]|[-> _]]; lia).
  set (p' := <[(m, dir_outcome dir) := get0 (acc_positions a) (m, dir_outcome dir) + dir_sign dir * fill_qty f]> (acc_positions a)).
  assert (∀ k, get0 p' k = get0 (acc_positions a) k + delta_total k (sd_position_deltas d)) as Hp'.
  { intros k. apply (apply_positions_Ok (E := E) (acc_positions a)). apply apply_positions_in. mlia. }
  set (a2 := set_events_digest (update_digest blake3 (acc_events_digest a)
    (encode_fill_event (fill_order_id f) (fill_qty f) (fill_price f) h))
    (set_positions p' (set_balance (acc_balance a + cash_term om f) a))).
  exists (mkBatchState (<[fill_account_id f := a2]> (bs_accounts s)) (bs_failures s)
    (bs_position_deltas s ++ sd_position_deltas d)), d.
  split.
  { unfold settle_batch_step. destruct (Z.eqb_spec (fill_qty f) 0); [lia|]. rewrite Ho, Ha.
    unfold settle_fill_with_delta.
    rewrite (compute_fill_settlement_Ok o' f (Some d)) by (apply one_hot_settlement_admitted; lia || assumption).
    cbn [mbind outcome_bind]. rewrite Hcash, arith_in by mlia. cbn [mbind outcome_bind].
    unfold d, settle_spec. cbn [sd_position_deltas]. rewrite apply_positions_in by mlia. reflexivity. }
  split; [done|]. split; [exists o'; split; [done|]; apply one_hot_settlement_admitted; lia || assumption|].
  split; [done|]. split; [done|]. cbn [bs_accounts]. split_and!.
  - unfold bal_total. rewrite (msum_update _ _ _ a) by done.
    assert (acc_balance a2 = acc_balance a + cash_term om f) as -> by done. lia.
  - intros k. unfold pos_total. rewrite (msum_update _ _ _ a) by done. cbv beta.
    assert (acc_positions a2 = p') as -> by done. rewrite Hp'. lia.
  - intros id. rewrite lookup_insert. case_decide; subst; [|done]. rewrite Ha. split; eauto.
  - unfold cash_volume. rewrite (msum_update _ _ _ a) by done.
    assert (acc_balance a2 = acc_balance a + cash_term om f) as -> by done. lia.
  - unfold share_volume. rewrite (msum_update _ _ _ a) by done. assert (acc_positions a2 = p') as -> by done.
    pose proof (msum_abs_add (acc_positions a) (m, dir_outcome dir) (dir_sign dir * fill_qty f)). unfold p'. lia.
  - intros id b. rewrite lookup_insert. case_decide; [intros [= <-]|intros Hlk; specialize (Hb _ _ Hlk)].
    + assert (acc_balance a2 = acc_balance a + cash_term om f) as -> by done.
      assert (acc_positions a2 = p') as -> by done. split; [lia|].
      intros k. rewrite Hp'. destruct (Hb _ _ Ha) as [_ Hk]. specialize (Hk k).
      unfold delta_total, d, settle_spec. simpl sumZ. case_decide; mlia.
    + destruct Hb as [? Hk]. split; [lia|]. intros k. specialize (Hk k). mlia.
Qed.

(** The whole batch: no failures, and the totals move by the fills' deltas. *)
Lemma settle_batch_loop_ok {E : Type} fills B P s :
  Forall (admitted_fill om) fills → (∀ f, f ∈ fills → is_Some (bs_accounts s !! fill_account_id f)) →
  bounded B P (bs_accounts s) →
  B + 1000000000000000 * Z.of_nat (length fills) ≤ 8000000000000000000 →
  P + MAX_ORDER_QTY * Z.of_nat (length fills) ≤ 8000000000000000000 →
  ∃ s' ds, ofold (@settle_batch_step blake3 E om h) s fills = Ok s' ∧ ds = fills ≫= share_term om ∧
    bs_failures s' = bs_failures s ∧ bs_position_deltas s' = bs_position_deltas s ++ ds ∧
    bal_total (bs_accounts s') = bal_total (bs_accounts s) + sumZ (cash_term om) fills ∧
    (∀ k, pos_total k (bs_accounts s') = pos_total k (bs_accounts s) + delta_total k ds) ∧
    (∀ id, is_Some (bs_accounts s' !! id) ↔ is_Some (bs_accounts s !! id)) ∧
    Forall (λ '(_, q), Z.abs q ≤ MAX_ORDER_QTY) ds ∧ length ds = length fills ∧
    (cash_volume (bs_accounts s') ≤ cash_volume (bs_accounts s) + 1000000000000000 * Z.of_nat (length fills) ∧
     share_volume (bs_accounts s') ≤ share_volume (bs_accounts s) + MAX_ORDER_QTY * Z.of_nat (length fills)) ∧
    bounded (B + 1000000000000000 * Z.of_nat (length fills)) (P + MAX_ORDER_QTY * Z.of_nat (length fills)) (bs_accounts s').
Proof.
  revert B P s. induction fills as [|f fills IH]; intros B P s Hf Hacc Hb HB HP.
  { exists s, []. cbn [length sumZ ofold]. rewrite app_nil_r, !Z.mul_0_r, !Z.add_0_r.
    split_and!; try done; [|lia..]. intros k. unfold delta_total. simpl. lia. }
  apply Forall_cons in Hf as [Hadm Hf]. cbn [length] in *. unfold MAX_ORDER_QTY, SHARE_SCALE in HP.
  destruct (settle_batch_step_ok (E := E) B P s f Hadm) as (s1 & d & Hst & Hcash & Hset & Hfail & Hds & Hbt & Hpt & Hdom & Hv1 & Hb1);
    [apply Hacc; set_solver|done|lia|lia|].
  destruct (IH (B + 1000000000000000) (P + MAX_ORDER_QTY) s1) as (s2 & ds & Hl & Hterm2 & Hfail2 & Hds2 & Hbt2 & Hpt2 & Hdom2 & Hq2 & Hlen2 & Hv2 & Hb2).
  { done. }
  { intros f' Hin. apply Hdom, Hacc. set_solver. }
  { done. }
  { lia. }
  { unfold MAX_ORDER_QTY, SHARE_SCALE. lia. }
  assert (length (sd_position_deltas d) = 1%nat ∧ Forall (λ '(_, q), Z.abs q ≤ MAX_ORDER_QTY) (sd_position_deltas d)) as [Hd1 Hdq].
  { destruct Hadm as (o & Ho & Hwf & Hval & Hq & Hp). destruct Hset as (o1 & Ho1 & Hset). simplify_eq.
    destruct (one_hot_validate o Hwf Hval) as (m & dir & Hoh). pose proof (oh_max_fill _ _ _ Hoh).
    rewrite (one_hot_settlement_admitted o m dir) in Hset by (lia || assumption). simplify_eq.
    split; [done|]. apply Forall_singleton. destruct (dir_sign_cases dir) as [[-> _]|[-> _]]; lia. }
  exists s2, (sd_position_deltas d ++ ds). cbn [ofold sumZ]. rewrite Hst. cbn [mbind outcome_bind].
  split; [done|]. split.
  { cbn [mbind list_bind]. destruct Hset as (o & Ho & Hset). unfold share_term at 1. by rewrite Ho, Hset, Hterm2. }
  split; [congruence|]. split; [rewrite Hds2, Hds; by rewrite (assoc_L (++))|].
  split; [lia|]. split; [intros k; rewrite Hpt2, Hpt; unfold delta_total; rewrite sumZ_app; lia|].
  split; [intros id; by rewrite Hdom2|]. split; [by apply Forall_app|].
  split; [rewrite length_app; lia|]. split; [unfold MAX_ORDER_QTY, SHARE_SCALE in *; lia|].
  intros id a Hlk. destruct (Hb2 id a Hlk) as [Hx Hy]. rewrite Nat2Z.inj_succ. split; [lia|].
  intros k. specialize (Hy k). unfold MAX_ORDER_QTY, SHARE_SCALE in *. lia.
Qed.
End batch.

(** ** Minting *)

Lemma apply_minting_Ok {E : Type} blake3 mint adjs h mint' :
  @apply_minting blake3 E mint adjs h = Ok mint' →
  acc_balance mint' = acc_balance mint + sumZ ma_balance_delta adjs ∧
  ∀ m o, get0 (acc_positions mint') (m, o) = get0 (acc_positions mint) (m, o) + adj_total adjs m o.
Proof.
  unfold apply_minting. intros H.
  assert (∀ l a r, ofold (E := E) apply_adjustment a l = Ok r → acc_balance r = acc_balance a + sumZ ma_balance_delta l ∧
    ∀ m o, get0 (acc_positions r) (m, o) = get0 (acc_positions a) (m, o) + adj_total l m o) as Hfold.
  { clear. induction l as [|adj l IH]; intros a r Hr.
    { simplify_eq/=. split; [lia|]. intros. unfold adj_total. simpl. lia. }
    cbn [ofold] in Hr. destruct (apply_adjustment a adj) as [a1| |] eqn:Hadj; simplify_eq/=.
    unfold apply_adjustment in Hadj.
    destruct (add0 I64 (acc_positions a) (ma_market_id adj, ma_outcome adj) (ma_position_delta adj)) as [p| |] eqn:Hadd; simplify_eq/=.
    destruct (arith I64 (acc_balance a + ma_balance_delta adj)) as [b| |] eqn:Hbal; simplify_eq/=. apply arith_Ok in Hbal as [-> _].
    destruct (IH _ _ Hr) as [Hb Hp]. split; [rewrite Hb; simpl; lia|]. intros m o. rewrite Hp. simpl.
    rewrite (get0_add0 _ _ _ _ _ (m, o) Hadd). unfold adj_total. cbn [sumZ].
    destruct (decide ((ma_market_id adj, ma_outcome adj) = (m, o))), (decide (ma_market_id adj = m ∧ ma_outcome adj = o));
      naive_solver lia. }
  destruct (ofold apply_adjustment mint adjs) as [r| |] eqn:Hr; simplify_eq/=. destruct (Hfold _ _ _ Hr).
  destruct adjs; simplify_eq/=; done.
Qed.

(** ** Resolution *)

(** What resolution does to one account. *)
Definition payout_of (payout pos : Z) : Z := (payout * pos) `quot` SHARE_SCALE.

Definition resolved (m : MarketId) (y : Nanos) (a : Account) : Account :=
  set_balance
    (acc_balance a + payout_of y (get0 (acc_positions a) (m, 0))
                   + payout_of (NANOS_PER_DOLLAR - y) (get0 (acc_positions a) (m, 1)))
    (set_positions (delete (m, 1) (delete (m, 0) (acc_positions a))) a).

Definition holds (m : MarketId) (a : Account) : bool :=
  negb (get0 (acc_positions a) (m, 0) =? 0) || negb (get0 (acc_positions a) (m, 1) =? 0).

Lemma payout_of_abs y p : 0 ≤ y → payout_of y p = Z.sgn p * (y * Z.abs p / SHARE_SCALE).
Proof.
  intros Hy. unfold payout_of. destruct (Z.abs_eq_or_opp p) as [Hp|Hp].
  - destruct (Z.eq_dec p 0) as [->|Hne]; [by rewrite Z.mul_0_r|].
    rewrite Z.quot_div_nonneg by mnia. rewrite Z.sgn_pos by lia. rewrite Hp. lia.
  - destruct (Z.eq_dec p 0) as [->|Hne]; [by rewrite Z.mul_0_r|].
    rewrite Z.sgn_neg by lia. rewrite Hp. replace (y * p) with (- (y * - p)) by lia.
    rewrite Z.quot_opp_l by done. rewrite Z.quot_div_nonneg by mnia. lia.
Qed.

Lemma credit_payout_ok {E : Type} b y p :
  0 ≤ y ≤ NANOS_PER_DOLLAR → Z.abs p ≤ 2000000000000 → Z.abs b ≤ 6000000000000000000 →
  @credit_payout E b y p = Ok (b + payout_of y p) ∧ Z.abs (payout_of y p) ≤ 2000000000000000000.
Proof.
  intros Hy Hp Hb. rewrite payout_of_abs by lia.
  assert (0 ≤ y * Z.abs p / SHARE_SCALE ≤ 2000000000000000000) as Hq.
  { split; [apply Z.div_pos; mnia|]. apply Z.div_le_upper_bound; mnia. }
  assert (Z.abs (Z.sgn p * (y * Z.abs p / SHARE_SCALE)) ≤ 2000000000000000000) as Hs
    by (destruct (Z.sgn_spec p) as [[? ->]|[[? ->]|[? ->]]]; lia).
  split; [|done]. unfold credit_payout. destruct (Z.eqb_spec p 0) as [->|Hne]; [simpl; f_equal; lia|].
  unfold notional_nanos. rewrite (wrap_in U64), (wrap_in I64) by mlia. rewrite Z.mul_comm, arith_in by mlia.
  simpl. rewrite arith_in by mlia. done.
Qed.

Lemma resolve_account_ok {E : Type} m y a :
  0 ≤ y ≤ NANOS_PER_DOLLAR → Z.abs (acc_balance a) ≤ 4000000000000000000 →
  (∀ k, Z.abs (get0 (acc_positions a) k) ≤ 2000000000000) →
  @resolve_account E m y (sat U64 (NANOS_PER_DOLLAR - y)) a = Ok (resolved m y a, holds m a).
Proof.
  intros Hy Hb Hp. unfold resolve_account. rewrite sat_in by mlia.
  destruct (credit_payout_ok (E := E) (acc_balance a) y (get0 (acc_positions a) (m, 0)) Hy (Hp _)) as [-> H1]; [lia|].
  cbn [mbind outcome_bind].
  destruct (credit_payout_ok (E := E) (acc_balance a + payout_of y (get0 (acc_positions a) (m, 0)))
    (NANOS_PER_DOLLAR - y) (get0 (acc_positions a) (m, 1))) as [-> H2]; [mlia|apply Hp|lia|].
  done.
Qed.

Lemma resolve_loop_ok {E : Type} m y ids accounts affected :
  0 ≤ y ≤ NANOS_PER_DOLLAR → NoDup ids →
  (∀ id, id ∈ ids → ∃ a, accounts !! id = Some a ∧ Z.abs (acc_balance a) ≤ 4000000000000000000 ∧
     ∀ k, Z.abs (get0 (acc_positions a) k) ≤ 2000000000000) →
  ∃ accounts', ofold (resolve_step (E := E) m y (sat U64 (NANOS_PER_DOLLAR - y))) (accounts, affected) ids =
      Ok (accounts', affected ++ filter (λ id, holds m <$> accounts !! id = Some true) ids) ∧
    ∀ id, accounts' !! id = if decide (id ∈ ids) then resolved m y <$> accounts !! id else accounts !! id.
Proof.
  intros Hy. revert accounts affected. induction ids as [|id ids IH]; intros accounts affected Hnd Hb.
  { exists accounts. rewrite filter_nil, app_nil_r. split; [done|]. intros id. by rewrite decide_False by set_solver. }
  apply NoDup_cons in Hnd as [Hni Hnd]. destruct (Hb id) as (a & Ha & Hbal & Hpos); [set_solver|].
  destruct (IH (<[id := resolved m y a]> accounts) (if holds m a then affected ++ [id] else affected)) as (accounts' & Hl & Hlk).
  { done. }
  { intros id' Hin. rewrite lookup_insert_ne by set_solver. apply Hb. set_solver. }
  exists accounts'. split.
  - assert (resolve_step (E := E) m y (sat U64 (NANOS_PER_DOLLAR - y)) (accounts, affected) id =
      Ok (<[id := resolved m y a]> accounts, if holds m a then affected ++ [id] else affected)) as Hstep.
    { unfold resolve_step. rewrite Ha. cbn [expect mbind outcome_bind]. by rewrite resolve_account_ok. }
    cbn [ofold]. rewrite Hstep. cbn [mbind outcome_bind]. rewrite Hl. do 2 f_equal.
    rewrite filter_cons, Ha. simpl.
    assert (filter (λ id', holds m <$> <[id:=resolved m y a]> accounts !! id' = Some true) ids =
            filter (λ id', holds m <$> accounts !! id' = Some true) ids) as ->.
    { apply filter_ext_in. intros i Hin. by rewrite lookup_insert_ne by set_solver. }
    destruct (holds m a); simpl; [by rewrite <- (assoc_L (++))|done].
  - intros id'. rewrite Hlk. destruct (decide (id' = id)) as [->|Hne].
    + rewrite decide_False by done. rewrite decide_True by set_solver. by rewrite lookup_insert_eq, Ha.
    + rewrite lookup_insert_ne by done. destruct (decide (id' ∈ ids)), (decide (id' ∈ id :: ids)); set_solver.
Qed.

Lemma resolve_market_ok {E : Type} m y ids accounts :
  0 ≤ y ≤ NANOS_PER_DOLLAR → ids ≡ₚ (map_to_list accounts).*1 →
  bounded 4000000000000000000 2000000000000 accounts →
  @resolve_market E accounts ids m y =
    Ok (resolved m y <$> accounts, filter (λ id, holds m <$> accounts !! id = Some true) ids).
Proof.
  intros Hy Hids Hb.
  assert (NoDup ids) as Hnd by (rewrite Hids; apply NoDup_fst_map_to_list).
  assert (∀ id, id ∈ ids ↔ is_Some (accounts !! id)) as Hdom.
  { intros id. rewrite Hids, list_elem_of_fmap. split.
    - intros ([k a] & -> & Hin%elem_of_map_to_list). eauto.
    - intros [a Ha]. exists (id, a). split; [done|]. by apply elem_of_map_to_list. }
  destruct (resolve_loop_ok (E := E) m y ids accounts [] Hy Hnd) as (accounts' & Hl & Hlk).
  { intros id [a Ha]%Hdom. exists a. split; [done|]. by apply (Hb id). }
  unfold resolve_market. rewrite Hl. do 2 f_equal. apply map_eq. intros id. rewrite Hlk, lookup_fmap.
  destruct (decide (id ∈ ids)) as [|Hn]; [done|].
  destruct (accounts !! id) eqn:Ha; [|done]. exfalso. apply Hn, Hdom. by rewrite Ha.
Qed.

Lemma payout_of_error y p : Z.abs (SHARE_SCALE * payout_of y p - y * p) ≤ SHARE_SCALE.
Proof.
  unfold payout_of. pose proof (Z.quot_rem' (y * p) SHARE_SCALE).
  pose proof (Z.rem_bound_abs (y * p) SHARE_SCALE ltac:(done)). mlia.
Qed.

Lemma payout_of_exact c p : SHARE_SCALE * payout_of (SHARE_SCALE * c) p = SHARE_SCALE * c * p.
Proof. unfold payout_of. replace (SHARE_SCALE * c * p) with (c * p * SHARE_SCALE) by lia. rewrite Z.quot_mul by done. lia. Qed.

Lemma resolved_balance_total m y accounts :
  bal_total (resolved m y <$> accounts) - bal_total accounts =
  msum (λ a, payout_of y (get0 (acc_positions a) (m, 0)) +
             payout_of (NANOS_PER_DOLLAR - y) (get0 (acc_positions a) (m, 1))) accounts.
Proof.
  unfold bal_total. rewrite msum_fmap.
  rewrite (msum_ext _ (λ a, acc_balance a + (payout_of y (get0 (acc_positions a) (m, 0)) +
     payout_of (NANOS_PER_DOLLAR - y) (get0 (acc_positions a) (m, 1))))).
  - rewrite msum_add. lia.
  - intros k a _. simpl. lia.
Qed.

Lemma resolved_clears m y accounts o :
  o = 0 ∨ o = 1 → pos_total (m, o) (resolved m y <$> accounts) = 0.
Proof.
  intros Ho. unfold pos_total. rewrite msum_fmap.
  rewrite (msum_ext _ (λ _, 0)); [unfold msum; by rewrite sumZ_zero|].
  intros k a _. simpl. rewrite !get0_delete. repeat case_decide; naive_solver.
Qed.

(** ** Properties *)

(** Resolving a market whose YES and NO totals are both [T] succeeds for
    amounts in range, leaves no position in that market and every other
    position unchanged, and pays out one dollar per complete set in total:
    exactly if the market resolves to YES or NO, and within one nanodollar of
    rounding per position otherwise. *)
Theorem resolution_pays_complete_sets (m y T : Z) (ids : list AccountId) (accounts : gmap Z Account) :
  0 ≤ y ≤ NANOS_PER_DOLLAR → ids ≡ₚ (map_to_list accounts).*1 →
  bounded 4000000000000000000 2000000000000 accounts →
  pos_total (m, 0) accounts = T → pos_total (m, 1) accounts = T →
  ∃ accounts' affected, resolve_market (E := unit) accounts ids m y = Ok (accounts', affected) ∧
    pos_total (m, 0) accounts' = 0 ∧ pos_total (m, 1) accounts' = 0 ∧
    (∀ id k, k.1 ≠ m → (λ a, get0 (acc_positions a) k) <$> accounts' !! id =
                       (λ a, get0 (acc_positions a) k) <$> accounts !! id) ∧
    Z.abs (SHARE_SCALE * (bal_total accounts' - bal_total accounts) - NANOS_PER_DOLLAR * T)
      ≤ 2 * SHARE_SCALE * Z.of_nat (size accounts) ∧
    (y = 0 ∨ y = NANOS_PER_DOLLAR →
       SHARE_SCALE * (bal_total accounts' - bal_total accounts) = NANOS_PER_DOLLAR * T).
Proof.
  intros Hy Hids Hb HY HN. eexists _, _. split; [by apply resolve_market_ok|].
  split; [apply resolved_clears; auto|]. split; [apply resolved_clears; auto|]. split.
  { intros id [k1 k2] Hk. simpl in Hk. rewrite lookup_fmap. destruct (accounts !! id); [|done]. simpl.
    rewrite !get0_delete. repeat case_decide; naive_solver. }
  rewrite resolved_balance_total.
  assert (NANOS_PER_DOLLAR * T = msum (λ a, y * get0 (acc_positions a) (m, 0) +
    (NANOS_PER_DOLLAR - y) * get0 (acc_positions a) (m, 1)) accounts) as ->.
  { rewrite msum_add, !msum_mul. fold (pos_total (m, 0) accounts). fold (pos_total (m, 1) accounts). lia. }
  split.
  - apply msum_scaled_error. intros k a _.
    pose proof (payout_of_error y (get0 (acc_positions a) (m, 0))).
    pose proof (payout_of_error (NANOS_PER_DOLLAR - y) (get0 (acc_positions a) (m, 1))). lia.
  - intros Hyy. rewrite <- msum_mul. apply msum_ext. intros k a _. rewrite Z.mul_add_distr_l.
    destruct Hyy as [->| ->].
    + pose proof (payout_of_exact 0 (get0 (acc_positions a) (m, 0))) as H0.
      pose proof (payout_of_exact 1000000 (get0 (acc_positions a) (m, 1))) as H1.
      change (SHARE_SCALE * 1000000) with (NANOS_PER_DOLLAR - 0) in H1. change (SHARE_SCALE * 0) with 0 in H0. lia.
    + pose proof (payout_of_exact 0 (get0 (acc_positions a) (m, 1))) as H0.
      pose proof (payout_of_exact 1000000 (get0 (acc_positions a) (m, 0))) as H1.
      change (SHARE_SCALE * 1000000) with NANOS_PER_DOLLAR in H1. change (SHARE_SCALE * 0) with 0 in H0.
      change (NANOS_PER_DOLLAR - NANOS_PER_DOLLAR) with 0. lia.
Qed.

Definition ex_holders : gmap Z Account :=
  {[1 := set_positions {[(3, 0) := 1500; (9, 1) := 4]} (Account_new (λ _, []) 1 10);
    2 := set_positions {[(3, 1) := 1500]} (Account_new (λ _, []) 2 20)]}.

Lemma ex_holders_bounded : bounded 4000000000000000000 2000000000000 ex_holders.
Proof.
  intros id a. unfold ex_holders. rewrite lookup_insert. case_decide as H1; [intros [= <-]|].
  - split; [vm_compute; discriminate|]. intros k. cbn [acc_positions set_positions].
    rewrite <- insert_empty, !get0_insert, get0_empty. repeat case_decide; lia.
  - intros [_ <-]%lookup_singleton_Some. split; [vm_compute; discriminate|].
    intros k. cbn [acc_positions set_positions].
    rewrite <- insert_empty, !get0_insert, get0_empty. repeat case_decide; lia.
Qed.

Lemma resolution_pays_complete_sets_witness :
  ∃ accounts' affected, resolve_market (E := unit) ex_holders [2; 1] 3 NANOS_PER_DOLLAR = Ok (accounts', affected) ∧
    affected = [2; 1] ∧
    SHARE_SCALE * (bal_total accounts' - bal_total ex_holders) = NANOS_PER_DOLLAR * 1500.
Proof.
  destruct (resolution_pays_complete_sets 3 NANOS_PER_DOLLAR 1500 [2; 1] ex_holders) as (acc' & aff & Hr & _ & _ & _ & _ & He).
  - vm_compute; split; discriminate.
  - refine (bool_decide_unpack _ _). vm_compute. exact I.
  - exact ex_holders_bounded.
  - reflexivity.
  - reflexivity.
  - exists acc', aff. split; [exact Hr|]. split; [|apply He; right; reflexivity].
    assert (resolve_market (E := unit) ex_holders [2; 1] 3 NANOS_PER_DOLLAR = Ok (acc', aff)) as Hr2 by exact Hr.
    vm_compute in Hr2. injection Hr2 as _ <-. reflexivity.
Defined.
