(* ===== verification/Finalize.v ===== *)
(** * Finalize: the state phase of block production

    Models [crates/matching-sequencer/src/canonical_state.rs] and
    [sequencer/production/finalize.rs]: settle the batch, derive and apply the
    MINT adjustments, take the canonical post-state and collect the invariant
    failures.  Serving-only analytics of the same function are left out; they
    do not touch accounts.  [iter] is the iteration order of the account map. *)
From S2P Require Import Prelude Types Order EngineSettlement Market Account Digest BatchSettlement Snapshots.

(** ** Canonical account snapshots *)

Record AccountSnapshot := mkAccountSnapshot {
  asn_id : Z;
  asn_balance : Z;
  asn_total_deposited : Z;
  asn_positions : list (MarketId * Z * Z);
  asn_events_digest : Bytes;
  asn_keys_digest : Bytes;
  asn_last_trading_nonce : Z;
}.

#[global] Instance AccountSnapshot_eq_dec : EqDecision AccountSnapshot.
Proof. solve_decision. Defined.

Definition canonicalize_snapshot (s : AccountSnapshot) : AccountSnapshot :=
  mkAccountSnapshot (asn_id s) (asn_balance s) (asn_total_deposited s)
    (sort_positions (filter (λ p, p.2 ≠ 0) (asn_positions s)))
    (asn_events_digest s) (asn_keys_digest s) (asn_last_trading_nonce s).

Definition snapshot_account (a : Account) : AccountSnapshot :=
  canonicalize_snapshot (mkAccountSnapshot (acc_id a) (acc_balance a) (acc_total_deposited a)
    (map_to_list (acc_positions a))
    (acc_events_digest a) (acc_keys_digest a) (acc_last_trading_nonce a)).

Definition snapshot_id_le (a b : AccountSnapshot) : Prop := asn_id a ≤ asn_id b.
#[global] Instance snapshot_id_le_dec : RelDecision snapshot_id_le.
Proof. intros a b. unfold snapshot_id_le. apply _. Defined.

Definition from_snapshot_iter (l : list AccountSnapshot) : list AccountSnapshot :=
  stable_sort snapshot_id_le (canonicalize_snapshot <$> l).

Definition CanonicalState_from_accounts (entries : list (Z * Account)) : list AccountSnapshot :=
  from_snapshot_iter ((λ e, snapshot_account e.2) <$> entries).

(** [MarketPositionTotals::from_snapshots] and its queries. *)
Definition totals_from_snapshots {E} (accounts : list AccountSnapshot) : outcome E (gmap Z (Z * Z)) :=
  ofold (λ t a, ofold add_total t (asn_positions a)) ∅ accounts.

Definition totals_for (totals : gmap Z (Z * Z)) (m : MarketId) : Z * Z := default (0, 0) (totals !! m).

(** ** Aggregates *)

Record AccountAggregates := mkAccountAggregates {
  ag_total_balance : Z;
  ag_market_position_totals : gmap Z (Z * Z);
  ag_negative_balances : list (AccountId * Z);
}.

(** [apply_position_delta] is the same entry update as in [market_totals_from_fills]. *)
Definition apply_position_delta {E} (totals : gmap Z (Z * Z)) (d : MarketId * Z * Z) : outcome E (gmap Z (Z * Z)) :=
  add_total totals d.

Definition observe_account {E} (g : AccountAggregates) (e : Z * Account) : outcome E AccountAggregates :=
  let '(account_id, account) := e in
  total ← arith I64 (ag_total_balance g + acc_balance account);
  let negative :=
    if negb (account_id =? AccountId_MINT) && (acc_balance account <? 0)
    then ag_negative_balances g ++ [(account_id, acc_balance account)] else ag_negative_balances g in
  totals ← ofold (λ t d, if d.2 =? 0 then Ok t else apply_position_delta t d)
    (ag_market_position_totals g) (map_to_list (acc_positions account));
  Ok (mkAccountAggregates total totals negative).

Definition from_accounts {E} (entries : list (Z * Account)) : outcome E AccountAggregates :=
  ofold observe_account (mkAccountAggregates 0 ∅ []) entries.

(** A [BTreeMap] is iterated in key order. *)
Definition minting_inputs (totals : gmap Z (Z * Z)) : list (MarketId * Z * Z) := sorted_totals totals.

Definition expected_balance_delta_from_fills {E} (fills : list Fill) (om : gmap Z Order)
    (mint_adjustments : list MintAdjustment) : outcome E Z :=
  fill_delta ← ofold (λ net_delta f,
    if fill_qty f =? 0 then Ok net_delta else
    match om !! fill_order_id f with
    | None => Ok net_delta
    | Some o =>
        d ← compute_fill_settlement o f;
        match d with
        | None => Ok net_delta
        | Some delta => arith I64 (net_delta + sd_balance_delta delta)
        end
    end) 0 fills;
  mint_delta ← ofold (λ acc adj, arith I64 (acc + ma_balance_delta adj)) 0 mint_adjustments;
  arith I64 (fill_delta + mint_delta).

Definition collect_account_invariant_failures_from_aggregates (g : AccountAggregates) (markets : list MarketId)
    : list BlockInvariantFailure :=
  ((λ e, NegativeBalance e.1 e.2) <$> ag_negative_balances g) ++
  omap (λ m, let '(y, n) := totals_for (ag_market_position_totals g) m in
             if negb (y =? n) then Some (PositionImbalance m y n) else None) markets.

Definition collect_account_invariant_failures {E} (entries : list (Z * Account)) (markets : list MarketId)
    : outcome E (list BlockInvariantFailure) :=
  g ← from_accounts entries; Ok (collect_account_invariant_failures_from_aggregates g markets).

Record FinalizedBlockState := mkFinalizedBlockState {
  fbs_accounts : gmap Z Account;
  fbs_post_state : list AccountSnapshot;
  fbs_minting_cost : Z;
  fbs_invariant_failures : list BlockInvariantFailure;
}.

Section finalize.
Context (blake3 : Bytes → Bytes) (iter : gmap Z Account → list (Z * Account)).

(** The MINT account takes the adjustments, if there are any. *)
Definition mint_phase {E} (accounts : gmap Z Account) (adjs : list MintAdjustment) (height : Z)
    : outcome E (gmap Z Account) :=
  match adjs with
  | [] => Ok accounts
  | _ => mint ← expect (accounts !! AccountId_MINT);
         mint' ← apply_minting blake3 mint adjs height;
         Ok (<[AccountId_MINT := mint']> accounts)
  end.

Definition finalize_block_state_phase {E} (accounts : gmap Z Account) (markets : list MarketId)
    (orders : list Order) (fills : list Fill) (clearing_prices : Prices) (height : Z)
    : outcome E FinalizedBlockState :=
  pre ← from_accounts (iter accounts);
  let pre_total_balance := ag_total_balance pre in
  s ← settle_batch_with_position_deltas blake3 accounts fills orders height;
  totals ← ofold apply_position_delta (ag_market_position_totals pre) (bs_position_deltas s);
  mint_adjustments ← derive_minting (minting_inputs totals) clearing_prices;
  fill_balance_delta ← fill_balance_delta_from_fills orders fills;
  let minting_cost := minting_cost_from_fill_balance_delta fill_balance_delta in
  accounts' ← mint_phase (bs_accounts s) mint_adjustments height;
  post ← from_accounts (iter accounts');
  balance_delta ← arith I64 (ag_total_balance post - pre_total_balance);
  mismatch ← (if negb (balance_delta =? 0) then
      expected ← expected_balance_delta_from_fills fills (order_map orders) mint_adjustments;
      Ok (if negb (balance_delta =? expected) then [BalanceDeltaMismatch balance_delta expected] else [])
    else Ok []);
  Ok (mkFinalizedBlockState accounts' (CanonicalState_from_accounts (iter accounts')) minting_cost
        (bs_failures s ++ mismatch ++ collect_account_invariant_failures_from_aggregates post markets)).

End finalize.

(** ** Aggregates describe the accounts *)

Lemma add_total_get {E} t m o q t' k :
  @add_total E t (m, o, q) = Ok t' →
  (totals_for t' k).1 = (totals_for t k).1 + (if decide ((m, o) = (k, 0)) then q else 0) ∧
  (totals_for t' k).2 = (totals_for t k).2 + (if decide ((m, o) = (k, 1)) then q else 0).
Proof.
  unfold add_total, totals_for. intros H. destruct (default (0, 0) (t !! m)) as [y n] eqn:Hd.
  assert (∀ v, default (0, 0) (<[m := v]> t !! k) = if decide (m = k) then v else default (0, 0) (t !! k)) as Hl
    by (intros v; rewrite lookup_insert; by case_decide).
  destruct (Z.eqb_spec o 0); [|destruct (Z.eqb_spec o 1)].
  - destruct (arith I64 (y + q)) as [z| |] eqn:Hz; simplify_eq/=. apply arith_Ok in Hz as [-> _]. rewrite Hl.
    destruct (decide (m = k)) as [<-|]; [rewrite Hd|]; repeat case_decide; simplify_eq/=; lia.
  - destruct (arith I64 (n + q)) as [z| |] eqn:Hz; simplify_eq/=. apply arith_Ok in Hz as [-> _]. rewrite Hl.
    destruct (decide (m = k)) as [<-|]; [rewrite Hd|]; repeat case_decide; simplify_eq/=; lia.
  - simplify_eq. rewrite Hl.
    destruct (decide (m = k)) as [<-|]; [rewrite Hd|]; repeat case_decide; simplify_eq/=; lia.
Qed.

(** Both components of the totals after a list of deltas. *)
Lemma add_totals_get {E} l t t' k :
  ofold (λ t d, if d.2 =? 0 then Ok t else @apply_position_delta E t d) t l = Ok t' ∨
  ofold (@apply_position_delta E) t l = Ok t' →
  (totals_for t' k).1 = (totals_for t k).1 + delta_total (k, 0) l ∧
  (totals_for t' k).2 = (totals_for t k).2 + delta_total (k, 1) l.
Proof.
  revert t. induction l as [|[[m o] q] l IH]; intros t H.
  { unfold delta_total. simpl in *. assert (t' = t) as -> by naive_solver. lia. }
  unfold delta_total. cbn [sumZ]. fold (delta_total (k, 0) l). fold (delta_total (k, 1) l).
  assert ((∃ t1, @add_total E t (m, o, q) = Ok t1 ∧
      (ofold (λ t d, if d.2 =? 0 then Ok t else @apply_position_delta E t d) t1 l = Ok t' ∨
       ofold (@apply_position_delta E) t1 l = Ok t')) ∨
    q = 0 ∧ ofold (λ t d, if d.2 =? 0 then Ok t else @apply_position_delta E t d) t l = Ok t') as Hc.
  { cbn [ofold snd] in H. destruct H as [H|H].
    - destruct (Z.eqb_spec q 0); [right; done|]. left.
      destruct (apply_position_delta (E := E) t (m, o, q)) as [t1| |] eqn:H1; [|done..]. exists t1. split; [done|]. by left.
    - left.
      destruct (apply_position_delta (E := E) t (m, o, q)) as [t1| |] eqn:H1; [|done..]. exists t1. split; [done|]. by right. }
  destruct Hc as [(t1 & H1 & H2)|[-> H2]].
  - destruct (IH t1 H2) as [-> ->]. destruct (add_total_get _ _ _ _ _ k H1) as [-> ->]. lia.
  - destruct (IH t (or_introl H2)) as [-> ->]. split; case_decide; lia.
Qed.

Lemma delta_total_map (p : gmap (Z * Z) Z) k : delta_total k (map_to_list p) = get0 p k.
Proof.
  unfold delta_total, get0. rewrite <- (msum_select (λ q, q) p k : _ = default 0 (p !! k)).
  apply sumZ_ext. by intros [k' q] _.
Qed.

Lemma from_accounts_Ok {E} entries g0 g :
  ofold (@observe_account E) g0 entries = Ok g →
  ag_total_balance g = ag_total_balance g0 + sumZ (λ e, acc_balance e.2) entries ∧
  ∀ m, (totals_for (ag_market_position_totals g) m).1 = (totals_for (ag_market_position_totals g0) m).1
         + sumZ (λ e, get0 (acc_positions e.2) (m, 0)) entries ∧
       (totals_for (ag_market_position_totals g) m).2 = (totals_for (ag_market_position_totals g0) m).2
         + sumZ (λ e, get0 (acc_positions e.2) (m, 1)) entries.
Proof.
  revert g0. induction entries as [|[id a] entries IH]; intros g0 H.
  { simplify_eq/=. split; [lia|]. intros; lia. }
  cbn [ofold] in H. destruct (observe_account g0 (id, a)) as [g1| |] eqn:Ho; simplify_eq/=.
  destruct (IH g1 H) as [Hb Ht]. unfold observe_account in Ho.
  destruct (arith I64 _) as [tot| |] eqn:Htot; simplify_eq/=. apply arith_Ok in Htot as [-> _].
  destruct (ofold _ (ag_market_position_totals g0) _) as [t1| |] eqn:Hp; simplify_eq/=.
  split; [lia|]. intros m. specialize (Ht m). pose proof (add_totals_get _ _ _ m (or_introl Hp)) as [H1 H2].
  rewrite !delta_total_map in *. lia.
Qed.

(** ** Settlement of arbitrary fills, when it returns *)

(** The cash a fill moves, given the accounts that exist. *)
Definition settled_cash (om : gmap Z Order) (accounts : gmap Z Account) (f : Fill) : Z :=
  match accounts !! fill_account_id f with Some _ => cash_term om f | None => 0 end.

Lemma cash_term_zero om f : fill_qty f = 0 → cash_term om f = 0.
Proof.
  intros Hq. unfold cash_term, compute_fill_settlement_checked. rewrite Hq. simpl. by destruct (om !! _).
Qed.

(** An iteration that settles nothing moves no position. *)
Ltac no_deltas := exists []; rewrite app_nil_r; split; [done|]; intros; unfold delta_total; simpl; lia.

Lemma settle_step_Ok {E} blake3 om h s f s' :
  @settle_batch_step blake3 E om h s f = Ok s' →
  bal_total (bs_accounts s') = bal_total (bs_accounts s) + settled_cash om (bs_accounts s) f ∧
  (∃ ds, bs_position_deltas s' = bs_position_deltas s ++ ds ∧
     ∀ k, pos_total k (bs_accounts s') = pos_total k (bs_accounts s) + delta_total k ds) ∧
  (∀ id, is_Some (bs_accounts s' !! id) ↔ is_Some (bs_accounts s !! id)) ∧
  (∃ l, bs_failures s' = bs_failures s ++ l ∧ (Forall (λ x, ∃ o a r, x = UnsettleableFill o a r) l) ∧
     (bs_accounts s !! fill_account_id f = None → cash_term om f ≠ 0 → l ≠ [])).
Proof.
  intros H. unfold settle_batch_step in H. unfold settled_cash.
  destruct (Z.eqb_spec (fill_qty f) 0) as [Hq|Hq].
  { simplify_eq. rewrite (cash_term_zero om f Hq). split; [case_match; lia|]. split; [no_deltas|].
    split; [done|]. exists []. rewrite app_nil_r. done. }
  destruct (om !! fill_order_id f) as [o|] eqn:Ho.
  2:{ simplify_eq/=. assert (cash_term om f = 0) as Hc by (unfold cash_term; by rewrite Ho). rewrite Hc.
      split; [case_match; lia|]. split; [no_deltas|].
      split; [done|]. eexists. split; [done|]. split; [apply Forall_singleton; eauto|done]. }
  destruct (bs_accounts s !! fill_account_id f) as [a|] eqn:Ha.
  2:{ simplify_eq/=. split; [lia|]. split; [no_deltas|].
      split; [done|]. eexists. split; [done|]. split; [apply Forall_singleton; eauto|done]. }
  unfold settle_fill_with_delta, compute_fill_settlement in H.
  destruct (compute_fill_settlement_checked o f) as [[d|]|e|] eqn:Hd; simplify_eq/=.
  - assert (cash_term om f = sd_balance_delta d) as Hc by (unfold cash_term; by rewrite Ho, Hd). rewrite Hc.
    destruct (arith I64 _) as [b| |] eqn:Hb; simplify_eq/=. apply arith_Ok in Hb as [-> _].
    destruct (apply_positions _ _) as [p| |] eqn:Hp; simplify_eq/=. split_and!.
    + unfold bal_total. rewrite (msum_update _ _ _ a) by done. simpl. lia.
    + eexists. split; [done|]. intros k. unfold pos_total. rewrite (msum_update _ _ _ a) by done. simpl.
      rewrite (apply_positions_Ok _ _ _ k Hp). lia.
    + intros id. rewrite lookup_insert. case_decide; subst; [|done]. rewrite Ha. split; eauto.
    + exists []. rewrite app_nil_r. done.
  - assert (cash_term om f = 0) as Hc by (unfold cash_term; by rewrite Ho, Hd). rewrite Hc.
    split; [lia|]. split; [no_deltas|].
    split; [done|]. eexists. split; [done|]. split; [apply Forall_singleton; eauto|done].
  - assert (cash_term om f = 0) as Hc by (unfold cash_term; by rewrite Ho, Hd). rewrite Hc.
    split; [lia|]. split; [no_deltas|].
    split; [done|]. eexists. split; [done|]. split; [apply Forall_singleton; eauto|done].
Qed.

Lemma settle_loop_Ok {E} blake3 om h fills s s' :
  ofold (@settle_batch_step blake3 E om h) s fills = Ok s' →
  bal_total (bs_accounts s') = bal_total (bs_accounts s) + sumZ (settled_cash om (bs_accounts s)) fills ∧
  (∃ ds, bs_position_deltas s' = bs_position_deltas s ++ ds ∧
     ∀ k, pos_total k (bs_accounts s') = pos_total k (bs_accounts s) + delta_total k ds) ∧
  (∀ id, is_Some (bs_accounts s' !! id) ↔ is_Some (bs_accounts s !! id)) ∧
  (∃ l, bs_failures s' = bs_failures s ++ l ∧ (Forall (λ x, ∃ o a r, x = UnsettleableFill o a r) l) ∧
     (l = [] → sumZ (settled_cash om (bs_accounts s)) fills = sumZ (cash_term om) fills)).
Proof.
  revert s. induction fills as [|f fills IH]; intros s H.
  { simplify_eq/=. split; [lia|]. split; [no_deltas|]. split; [done|]. exists []. by rewrite app_nil_r. }
  cbn [ofold] in H. destruct (settle_batch_step blake3 om h s f) as [s1| |] eqn:Hst; simplify_eq/=.
  apply settle_step_Ok in Hst as (Hb & (ds & Hds & Hp) & Hdom & (l & Hl & Hun & Hne)).
  destruct (IH s1 H) as (Hb' & (ds' & Hds' & Hp') & Hdom' & (l' & Hl' & Hun' & Heq')).
  assert (∀ g, settled_cash om (bs_accounts s1) g = settled_cash om (bs_accounts s) g) as Hsc.
  { intros g. unfold settled_cash. specialize (Hdom (fill_account_id g)).
    destruct (bs_accounts s1 !! _), (bs_accounts s !! _); [done| | |done];
      exfalso; [destruct (proj1 Hdom)|destruct (proj2 Hdom)]; eauto; done. }
  rewrite (sumZ_ext _ (settled_cash om (bs_accounts s))) in Hb', Heq' by auto.
  split; [lia|]. split.
  { exists (ds ++ ds'). rewrite Hds', Hds, <- (assoc_L (++)). split; [done|]. intros k.
    rewrite Hp', Hp. unfold delta_total. rewrite sumZ_app. lia. }
  split; [intros id; by rewrite Hdom'|].
  exists (l ++ l'). rewrite Hl', Hl, <- (assoc_L (++)). split; [done|]. split; [by apply Forall_app|].
  intros [-> ->]%app_eq_nil. rewrite Heq' by done. f_equal. unfold settled_cash.
  destruct (bs_accounts s !! fill_account_id f) eqn:Ha; [done|].
  destruct (Z.eq_dec (cash_term om f) 0) as [->|Hc]; [done|]. by destruct (Hne eq_refl Hc).
Qed.

(** ** The MINT phase balances every market *)

Lemma sorted_totals_spec totals :
  NoDup ((λ t : Z * Z * Z, t.1.1) <$> sorted_totals totals) ∧
  (∀ m y n, (m, y, n) ∈ sorted_totals totals ↔ totals !! m = Some (y, n)).
Proof.
  unfold sorted_totals. set (l := sort_by_key (map_to_list totals)).
  assert (l ≡ₚ map_to_list totals) as Hperm by apply sort_by_key_perm. split.
  - rewrite <- list_fmap_compose.
    assert ((λ t : Z * Z * Z, t.1.1) ∘ (λ '(m, (y, n)), (m, y, n)) <$> l = l.*1) as ->.
    { apply list_fmap_ext. by intros i [m [y n]] _. }
    rewrite Hperm. apply NoDup_fst_map_to_list.
  - intros m y n. rewrite list_elem_of_fmap. split.
    + intros ([m' [y' n']] & [= -> -> ->] & Hin). rewrite Hperm in Hin. by apply elem_of_map_to_list.
    + intros Hlk. exists (m, (y, n)). split; [done|]. rewrite Hperm. by apply elem_of_map_to_list.
Qed.

Lemma minting_balances_totals totals prices adjs m :
  derive_minting_checked (minting_inputs totals) prices = Ok adjs →
  (totals_for totals m).1 + adj_total adjs m 0 = (totals_for totals m).2 + adj_total adjs m 1.
Proof.
  intros Hd. destruct (sorted_totals_spec totals) as [Hnd Hin]. unfold totals_for.
  destruct (totals !! m) as [[y n]|] eqn:Hm; simpl.
  - eapply derive_minting_balances; [exact Hnd|exact Hd|]. by apply Hin.
  - assert (∀ o, adj_total adjs m o = 0) as Hz.
    { intros o. apply adj_total_other. apply Forall_forall. intros a Ha Heq.
      apply (derive_minting_markets _ _ _ a Hd) in Ha as [_ Ha]. rewrite Heq in Ha.
      apply list_elem_of_fmap in Ha as ([[m' y] n] & -> & Hel). apply Hin in Hel. simpl in Hm. congruence. }
    rewrite !Hz. lia.
Qed.

Lemma mint_phase_Ok {E} blake3 accounts adjs h accounts' :
  @mint_phase blake3 E accounts adjs h = Ok accounts' →
  bal_total accounts' = bal_total accounts + sumZ ma_balance_delta adjs ∧
  ∀ m o, pos_total (m, o) accounts' = pos_total (m, o) accounts + adj_total adjs m o.
Proof.
  unfold mint_phase. destruct adjs as [|adj adjs].
  { intros [= ->]. unfold adj_total. simpl. split; [lia|]. intros; lia. }
  destruct (accounts !! AccountId_MINT) as [mint|] eqn:Hm; [|done]. cbn [expect mbind outcome_bind].
  destruct (apply_minting blake3 mint (adj :: adjs) h) as [mint'| |] eqn:Ha; [|done..]. intros [= <-].
  apply apply_minting_Ok in Ha as [Hb Hp]. unfold bal_total, pos_total. split.
  - rewrite (msum_update _ _ _ mint) by done. lia.
  - intros m o. rewrite (msum_update _ _ _ mint) by done. rewrite Hp. lia.
Qed.

Lemma expected_delta_Ok {E} fills om adjs z :
  @expected_balance_delta_from_fills E fills om adjs = Ok z →
  z = sumZ (cash_term om) fills + sumZ ma_balance_delta adjs.
Proof.
  unfold expected_balance_delta_from_fills. intros H.
  match type of H with mbind _ (ofold ?f 0 fills) = _ => set (step := f) in H end.
  assert (∀ l a r, ofold step a l = Ok r → r = a + sumZ (cash_term om) l) as Hf.
  { clear. induction l as [|f l IH]; intros a r Hr; [simplify_eq/=; lia|]. cbn [ofold] in Hr.
    destruct (step a f) as [a1| |] eqn:Hs; [|done..]. cbn [mbind outcome_bind] in Hr. apply IH in Hr as ->.
    assert (a1 = a + cash_term om f) as ->; [|simpl; lia]. unfold step in Hs.
    destruct (Z.eqb_spec (fill_qty f) 0) as [Hq|]; [simplify_eq; rewrite cash_term_zero by done; lia|].
    unfold cash_term, compute_fill_settlement in *. destruct (om !! fill_order_id f) as [o|]; [|simplify_eq; lia].
    destruct (compute_fill_settlement_checked o f) as [[d|]| |]; simplify_eq/=; try lia.
    by apply arith_Ok in Hs as [-> _]. }
  destruct (ofold step 0 fills) as [a| |] eqn:Ha; [|done..]. apply Hf in Ha as ->. cbn [mbind outcome_bind] in H.
  assert (∀ l b r, ofold (λ acc adj, @arith E I64 (acc + ma_balance_delta adj)) b l = Ok r → r = b + sumZ ma_balance_delta l) as Hg.
  { clear. induction l as [|adj l IH]; intros b r Hr; [simplify_eq/=; lia|]. cbn [ofold] in Hr.
    destruct (arith I64 (b + ma_balance_delta adj)) as [b1| |] eqn:Hb; [|done..]. apply arith_Ok in Hb as [-> _].
    cbn [mbind outcome_bind] in Hr. apply IH in Hr as ->. simpl. lia. }
  destruct (ofold _ 0 adjs) as [b| |] eqn:Hb; [|done..]. apply Hg in Hb as ->. cbn [mbind outcome_bind] in H.
  apply arith_Ok in H as [-> _]. lia.
Qed.

(** The aggregates of an iteration of the whole map are the map's totals. *)
Lemma from_accounts_totals {E} (iter : gmap Z Account → list (Z * Account)) accounts g :
  iter accounts ≡ₚ map_to_list accounts → @from_accounts E (iter accounts) = Ok g →
  ag_total_balance g = bal_total accounts ∧
  ∀ m, totals_for (ag_market_position_totals g) m = (pos_total (m, 0) accounts, pos_total (m, 1) accounts).
Proof.
  intros Hiter [Hb Ht]%from_accounts_Ok. cbn [ag_total_balance ag_market_position_totals] in *. split.
  - rewrite Hb. unfold bal_total. rewrite (msum_perm acc_balance accounts _ Hiter). lia.
  - intros m. destruct (Ht m) as [T1 T2]. rewrite (surjective_pairing (totals_for _ m)), T1, T2.
    rewrite (msum_perm (λ a, get0 (acc_positions a) (m, 0)) accounts _ Hiter).
    rewrite (msum_perm (λ a, get0 (acc_positions a) (m, 1)) accounts _ Hiter). done.
Qed.

(** The failure reports an account of the store that is overdrawn. *)
Definition overdrawn (accounts : gmap Z Account) (x : BlockInvariantFailure) : Prop :=
  ∃ id a, x = NegativeBalance id (acc_balance a) ∧ accounts !! id = Some a ∧ acc_balance a < 0 ∧ id ≠ AccountId_MINT.

Lemma from_accounts_negative {E} (iter : gmap Z Account → list (Z * Account)) accounts g e :
  iter accounts ≡ₚ map_to_list accounts → @from_accounts E (iter accounts) = Ok g →
  e ∈ ag_negative_balances g → overdrawn accounts (NegativeBalance e.1 e.2).
Proof.
  intros Hiter Hg. revert e.
  enough (∀ e, e ∈ ag_negative_balances g → ∃ a, (e.1, a) ∈ iter accounts ∧ e.2 = acc_balance a ∧ acc_balance a < 0 ∧ e.1 ≠ AccountId_MINT) as H.
  { intros e He. destruct (H e He) as (a & Hin & -> & ? & ?). rewrite Hiter in Hin. apply elem_of_map_to_list in Hin. by exists e.1, a. }
  destruct (ofold_inv (λ g l, ∃ k, iter accounts = k ++ l ∧ ∀ e, e ∈ ag_negative_balances g →
    ∃ a, (e.1, a) ∈ k ∧ e.2 = acc_balance a ∧ acc_balance a < 0 ∧ e.1 ≠ AccountId_MINT)
    (@observe_account E) (mkAccountAggregates 0 ∅ []) (iter accounts) g) as (k & Hk & Hneg); [|..|exact Hg|].
  - exists []. split; [done|]. intros e He. by apply not_elem_of_nil in He.
  - intros g1 [id a] l g2 (k & Hk & Hneg) Hobs. exists (k ++ [(id, a)]). split; [by rewrite <- app_assoc|].
    unfold observe_account in Hobs. destruct (arith I64 _); [|done..]. cbn [mbind outcome_bind] in Hobs.
    destruct (ofold _ _ _); [|done..]. cbn [mbind outcome_bind] in Hobs. injection Hobs as <-. cbn [ag_negative_balances].
    intros e He. destruct (negb _ && _) eqn:Hcond in He.
    + apply elem_of_app in He as [He|He]; [destruct (Hneg e He) as (b & ? & ?); exists b; set_solver|].
      apply list_elem_of_singleton in He as ->.
      exists a. apply andb_true_iff in Hcond as [Hid%negb_true_iff%Z.eqb_neq Hb%Z.ltb_lt]. set_solver.
    + destruct (Hneg e He) as (b & ? & ?). exists b. set_solver.
  - intros e He. destruct (Hneg e He) as (a & ? & ?). exists a. by rewrite Hk, app_nil_r.
Qed.

(** Kinds of failures in the account part. *)
Lemma account_failures_kind g markets x :
  x ∈ collect_account_invariant_failures_from_aggregates g markets →
  (∃ e, e ∈ ag_negative_balances g ∧ x = NegativeBalance e.1 e.2) ∨
  (∃ m, let t := totals_for (ag_market_position_totals g) m in t.1 ≠ t.2 ∧ x = PositionImbalance m t.1 t.2).
Proof.
  unfold collect_account_invariant_failures_from_aggregates. intros [Hx|Hx]%elem_of_app.
  - apply list_elem_of_fmap in Hx as (e & -> & ?). left. eauto.
  - apply list_elem_of_omap in Hx as (m & _ & Hm). right. exists m. simpl.
    destruct (totals_for _ m) as [y n]. destruct (Z.eqb_spec y n); simplify_eq/=. done.
Qed.

(** A run of the phase, taken apart: the settled accounts [s], the totals the
    minting is derived from, the adjustments, and the origin of each failure. *)
Record finalize_trace (blake3 : Bytes → Bytes) (iter : gmap Z Account → list (Z * Account)) (accounts : gmap Z Account) (markets : list MarketId)
    (orders : list Order) (fills : list Fill) (prices : Prices) (h : Z) (r : FinalizedBlockState)
    (s : BatchState) (totals : gmap Z (Z * Z)) (adjs : list MintAdjustment) : Prop := {
  ft_settled : settle_batch_with_position_deltas (E := unit) blake3 accounts fills orders h = Ok s;
  ft_fold : ∃ pre, from_accounts (E := unit) (iter accounts) = Ok pre ∧
    ofold apply_position_delta (ag_market_position_totals pre) (bs_position_deltas s) = @Ok unit _ totals;
  ft_totals m : totals_for totals m = (pos_total (m, 0) (bs_accounts s), pos_total (m, 1) (bs_accounts s));
  ft_adjs : derive_minting (E := unit) (minting_inputs totals) prices = Ok adjs;
  ft_minted : mint_phase (E := unit) blake3 (bs_accounts s) adjs h = Ok (fbs_accounts r);
  ft_failures x : x ∈ fbs_invariant_failures r →
    x ∈ bs_failures s ∨
    (∃ d e, x = BalanceDeltaMismatch d e ∧ d = bal_total (fbs_accounts r) - bal_total accounts ∧
       d ≠ e ∧ expected_balance_delta_from_fills (E := unit) fills (order_map orders) adjs = Ok e) ∨
    overdrawn (fbs_accounts r) x ∨
    (∃ m, x = PositionImbalance m (pos_total (m, 0) (fbs_accounts r)) (pos_total (m, 1) (fbs_accounts r)) ∧
       pos_total (m, 0) (fbs_accounts r) ≠ pos_total (m, 1) (fbs_accounts r));
  ft_unsettled x : x ∈ bs_failures s → x ∈ fbs_invariant_failures r;
}.
Arguments ft_settled {_ _ _ _ _ _ _ _ _ _ _ _} _.
Arguments ft_fold {_ _ _ _ _ _ _ _ _ _ _ _} _.
Arguments ft_totals {_ _ _ _ _ _ _ _ _ _ _ _} _ m.
Arguments ft_adjs {_ _ _ _ _ _ _ _ _ _ _ _} _.
Arguments ft_minted {_ _ _ _ _ _ _ _ _ _ _ _} _.
Arguments ft_failures {_ _ _ _ _ _ _ _ _ _ _ _} _ x _.
Arguments ft_unsettled {_ _ _ _ _ _ _ _ _ _ _ _} _ x _.

Lemma finalize_traced blake3 iter accounts markets orders fills prices h r :
  (∀ m, iter m ≡ₚ map_to_list m) →
  finalize_block_state_phase (E := unit) blake3 iter accounts markets orders fills prices h = Ok r →
  ∃ s totals adjs, finalize_trace blake3 iter accounts markets orders fills prices h r s totals adjs.
Proof.
  intros Hiter H. unfold finalize_block_state_phase in H.
  destruct (from_accounts (iter accounts)) as [pre| |] eqn:Hpre; [|done..]. cbn [mbind outcome_bind] in H.
  destruct (settle_batch_with_position_deltas _ _ _ _ _) as [s| |] eqn:Hset; [|done..]. cbn [mbind outcome_bind] in H.
  destruct (ofold apply_position_delta _ _) as [totals| |] eqn:Htot; [|done..]. cbn [mbind outcome_bind] in H.
  destruct (derive_minting _ _) as [adjs| |] eqn:Hmint; [|done..]. cbn [mbind outcome_bind] in H.
  destruct (fill_balance_delta_from_fills _ _) as [fbd| |]; [|done..]. cbn [mbind outcome_bind] in H.
  destruct (mint_phase _ _ _ _) as [acc'| |] eqn:Hmp; [|done..]. cbn [mbind outcome_bind] in H.
  destruct (from_accounts (iter acc')) as [post| |] eqn:Hpost; [|done..]. cbn [mbind outcome_bind] in H.
  destruct (arith I64 _) as [bd| |] eqn:Hbd; [|done..]. cbn [mbind outcome_bind] in H. apply arith_Ok in Hbd as [-> _].
  match type of H with mbind _ ?mm = _ => destruct mm as [mismatch| |] eqn:Hmm; [|done..] end.
  cbn [mbind outcome_bind] in H. injection H as <-. exists s, totals, adjs.
  pose proof Hpre as Hpre'. apply from_accounts_totals in Hpre as [Bpre Tpre]; [|apply Hiter].
  pose proof (λ e, from_accounts_negative iter acc' post e (Hiter acc') Hpost) as Hneg.
  apply from_accounts_totals in Hpost as [Bpost Tp]; [|apply Hiter].
  constructor; cbn [fbs_accounts fbs_invariant_failures]; [done|by exists pre| |done|done| |set_solver].
  - intros m. pose proof (settle_loop_Ok _ _ _ _ _ _ Hset) as (_ & (ds & Hds & Hsp) & _).
    rewrite (surjective_pairing (totals_for totals m)).
    destruct (add_totals_get _ _ _ m (or_intror Htot)) as [-> ->]. rewrite Tpre, Hds, !Hsp. done.
  - intros x. rewrite !elem_of_app. intros [Hx|[Hx|Hx]]; [by left| |].
    + right; left. rewrite Bpre, Bpost in Hmm. destruct (negb _); [|simplify_eq; set_solver].
      destruct (expected_balance_delta_from_fills _ _ _) as [ex| |] eqn:Hex; [|done..].
      cbn [mbind outcome_bind] in Hmm. injection Hmm as <-. destruct (negb _) eqn:Hne; [|set_solver].
      apply list_elem_of_singleton in Hx as ->. apply negb_true_iff, Z.eqb_neq in Hne. eauto 10.
    + apply account_failures_kind in Hx as [(e & He & ->)|(m & Hne & ->)]; [right; right; left; by apply Hneg|].
      right; right; right. exists m. rewrite Tp in *. done.
Qed.

Section trace.
Context {blake3 iter accounts markets orders fills prices h r s totals adjs}
  (T : finalize_trace blake3 iter accounts markets orders fills prices h r s totals adjs).

(** The MINT phase balances every market unless its arithmetic overflows. *)
Lemma trace_balanced adjs' m :
  derive_minting_checked (minting_inputs totals) prices = Ok adjs' →
  pos_total (m, 0) (fbs_accounts r) = pos_total (m, 1) (fbs_accounts r).
Proof.
  intros Hadj. pose proof (ft_adjs T) as Hd. unfold derive_minting in Hd. rewrite Hadj in Hd.
  simplify_eq. destruct (mint_phase_Ok _ _ _ _ _ (ft_minted T)) as [_ Hp].
  pose proof (minting_balances_totals totals prices _ m Hadj) as Hb.
  rewrite (ft_totals T) in Hb. simpl in Hb. rewrite !Hp. lia.
Qed.

Lemma trace_unsettled : Forall (λ x, ∃ o a why, x = UnsettleableFill o a why) (bs_failures s).
Proof.
  pose proof (settle_loop_Ok _ _ _ _ _ _ (ft_settled T)) as (_ & _ & _ & (l & Hl & Hun & _)).
  by rewrite Hl.
Qed.

(** If every fill settles, cash moves by exactly the fills and adjustments. *)
Lemma trace_cash : bs_failures s = [] →
  bal_total (fbs_accounts r) = bal_total accounts + sumZ (cash_term (order_map orders)) fills + sumZ ma_balance_delta adjs.
Proof.
  intros Hnil. pose proof (settle_loop_Ok _ _ _ _ _ _ (ft_settled T)) as (Hb & _ & _ & (l & Hl & _ & Heq)).
  cbn [bs_failures bs_accounts] in *. rewrite Hl in Hnil. rewrite (Heq Hnil) in Hb.
  destruct (mint_phase_Ok _ _ _ _ _ (ft_minted T)) as [Hm _]. lia.
Qed.

Lemma trace_no_mismatch d e : bs_failures s = [] → BalanceDeltaMismatch d e ∉ fbs_invariant_failures r.
Proof.
  intros Hnil Hin. apply (ft_failures T) in Hin.
  rewrite Hnil in Hin. destruct Hin as [Hx|[(d' & e' & ? & Hd & Hne & He)|[(? & ? & ? & _)|(? & ? & _)]]]; simplify_eq; [set_solver|].
  apply expected_delta_Ok in He. rewrite (trace_cash Hnil) in Hne. lia.
Qed.

Lemma trace_no_imbalance adjs' m y n :
  derive_minting_checked (minting_inputs totals) prices = Ok adjs' →
  PositionImbalance m y n ∉ fbs_invariant_failures r.
Proof.
  intros Hadj Hin. apply (ft_failures T) in Hin.
  destruct Hin as [Hx|[(? & ? & ? & _)|[(? & ? & ? & _)|(m' & ? & Hne)]]]; simplify_eq.
  - pose proof trace_unsettled as Hun. rewrite Forall_forall in Hun. by destruct (Hun _ Hx) as (? & ? & ? & ?).
  - by apply Hne, (trace_balanced adjs').
Qed.
End trace.

(** ** Properties *)

(** C2: whenever block finalisation returns, its conservation checks can only
    fail for the reasons they exist: a balance-delta mismatch is reported only
    next to a fill that could not be settled, and a YES/NO imbalance only if
    the minting arithmetic on the totals of the settled accounts overflowed.
    In particular, if all fills settle and minting does not overflow, cash
    moves by exactly the fills' and the adjustments' deltas and every market
    ends with equal YES and NO totals. *)
Theorem finalize_conserves (blake3 : Bytes → Bytes) (iter : gmap Z Account → list (Z * Account))
    (accounts : gmap Z Account) (markets : list MarketId) (orders : list Order) (fills : list Fill)
    (prices : Prices) (h : Z) (r : FinalizedBlockState) :
  (∀ m, iter m ≡ₚ map_to_list m) →
  finalize_block_state_phase (E := unit) blake3 iter accounts markets orders fills prices h = Ok r →
  ∃ s totals,
    settle_batch_with_position_deltas (E := unit) blake3 accounts fills orders h = Ok s ∧
    Forall (λ x, ∃ o a why, x = UnsettleableFill o a why) (bs_failures s) ∧
    (∀ x, x ∈ bs_failures s → x ∈ fbs_invariant_failures r) ∧
    (bs_failures s = [] → ∀ d e, BalanceDeltaMismatch d e ∉ fbs_invariant_failures r) ∧
    (∀ m, totals_for totals m = (pos_total (m, 0) (bs_accounts s), pos_total (m, 1) (bs_accounts s))) ∧
    (∀ adjs, derive_minting_checked (minting_inputs totals) prices = Ok adjs →
       (∀ m, pos_total (m, 0) (fbs_accounts r) = pos_total (m, 1) (fbs_accounts r)) ∧
       (∀ m y n, PositionImbalance m y n ∉ fbs_invariant_failures r) ∧
       (bs_failures s = [] → bal_total (fbs_accounts r) =
          bal_total accounts + sumZ (cash_term (order_map orders)) fills + sumZ ma_balance_delta adjs)).
Proof.
  intros Hiter H. destruct (finalize_traced _ _ _ _ _ _ _ _ _ Hiter H) as (s & totals & adjs & T).
  exists s, totals. split; [apply T|]. split; [apply (trace_unsettled T)|]. split; [apply T|].
  split; [intros Hnil d e; by apply (trace_no_mismatch T)|]. split; [apply T|].
  intros adjs' Hadj. split; [intros m; by apply (trace_balanced T adjs')|].
  split; [intros m y n; by apply (trace_no_imbalance T adjs')|].
  intros Hnil. pose proof (ft_adjs T) as Hd. unfold derive_minting in Hd. rewrite Hadj in Hd.
  simplify_eq. by apply (trace_cash T).
Qed.

Definition ex_accounts : gmap Z Account :=
  {[AccountId_MINT := Account_new (λ _, []) AccountId_MINT 0;
    1 := Account_new (λ _, []) 1 5000000000; 2 := Account_new (λ _, []) 2 5000000000]}.
Definition ex_orders : list Order :=
  [binary_order 1 3 BuyYes 600000000 5000; binary_order 2 3 BuyNo 500000000 4000].
Definition ex_fills : list Fill := [mkFill 1 2500 560000000 1; mkFill 2 2000 440000000 2].
Definition ex_prices : Prices := {[3 := [560000000; 440000000]]}.
Definition ex_finalized : FinalizedBlockState :=
  match finalize_block_state_phase (E := unit) (λ l, l) map_to_list ex_accounts [3] ex_orders ex_fills ex_prices 9 with
  | Ok r => r
  | _ => mkFinalizedBlockState ∅ [] 0 []
  end.

Lemma finalize_conserves_witness :
  fbs_invariant_failures ex_finalized = [] ∧
  ∃ s totals,
    settle_batch_with_position_deltas (E := unit) (λ l, l) ex_accounts ex_fills ex_orders 9 = Ok s ∧
    (∀ m, totals_for totals m = (pos_total (m, 0) (bs_accounts s), pos_total (m, 1) (bs_accounts s))) ∧
    (∀ adjs, derive_minting_checked (minting_inputs totals) ex_prices = Ok adjs →
       (∀ m, pos_total (m, 0) (fbs_accounts ex_finalized) = pos_total (m, 1) (fbs_accounts ex_finalized))).
Proof.
  split; [vm_compute; reflexivity|].
  destruct (finalize_conserves (λ l, l) map_to_list ex_accounts [3] ex_orders ex_fills ex_prices 9 ex_finalized)
    as (s & totals & Hs & _ & _ & _ & Ht & Ha).
  - intros m. reflexivity.
  - vm_compute. reflexivity.
  - exists s, totals. split; [exact Hs|]. split; [exact Ht|]. intros adjs Hadj. apply (Ha adjs Hadj).
Defined.
