(* ===== verification/Conservation.v ===== *)
(** * Conservation: finalisation of an admitted block succeeds and keeps the exchange solvent

    Proofs about [Finalize]: on accounts of bounded volume whose markets are
    balanced, finalising a batch of admitted fills always returns, raises no
    conservation failure and leaves every market balanced; with uniform,
    complementary clearing prices it also conserves value, counting one dollar
    for every complete set. *)
From S2P Require Import Prelude Types Order EngineSettlement Account Digest BatchSettlement Finalize.

(** ** Aggregation cannot overflow on bounded volumes *)

(** Total imbalance of the per-market totals. *)
Definition skew (t : gmap Z (Z * Z)) : Z := msum (λ p, Z.abs (p.1 - p.2)) t.

(** Every total is at most [B] in absolute value. *)
Definition totals_le (B : Z) (t : gmap Z (Z * Z)) : Prop :=
  ∀ k, Z.abs (totals_for t k).1 ≤ B ∧ Z.abs (totals_for t k).2 ≤ B.

Lemma add_total_total {E} t m o q B :
  totals_le B t → B + Z.abs q ≤ int_max I64 →
  ∃ t', @add_total E t (m, o, q) = Ok t' ∧ totals_le (B + Z.abs q) t' ∧ skew t' ≤ skew t + Z.abs q.
Proof.
  intros Hb HB. assert (∃ t', @add_total E t (m, o, q) = Ok t' ∧ skew t' ≤ skew t + Z.abs q) as (t' & Ht & Hs).
  { assert (∀ y n, Z.abs (y - n) ≤ Z.abs ((totals_for t m).1 - (totals_for t m).2) + Z.abs q →
      skew (<[m := (y, n)]> t) ≤ skew t + Z.abs q) as Hskew.
    { intros y n. unfold totals_for, skew. destruct (t !! m) as [[y0 n0]|] eqn:Hm; simpl; intros.
      - rewrite (msum_update _ _ _ (y0, n0)) by done. simpl. lia.
      - rewrite msum_insert by done. simpl. lia. }
    destruct (Hb m) as [Hy Hn]. unfold add_total, totals_for in *. destruct (default (0, 0) (t !! m)) as [y n]. simpl in *.
    destruct (o =? 0); [|destruct (o =? 1)]; rewrite ?arith_in by int_lia; eexists; (split; [done|]); apply Hskew; lia. }
  exists t'. split; [done|]. split; [|done]. intros k. destruct (Hb k).
  destruct (add_total_get _ _ _ _ _ k Ht) as [-> ->]. repeat case_decide; lia.
Qed.

(** Both delta loops of the phase, the one that skips zero quantities included. *)
Lemma add_totals_total {E} (step : gmap Z (Z * Z) → MarketId * Z * Z → outcome E (gmap Z (Z * Z))) l t B :
  (∀ t d, step t d = apply_position_delta t d ∨ (d.2 = 0 ∧ step t d = Ok t)) →
  totals_le B t → B + sumZ (λ d, Z.abs d.2) l ≤ int_max I64 →
  ∃ t', ofold step t l = Ok t' ∧ totals_le (B + sumZ (λ d, Z.abs d.2) l) t' ∧
    skew t' ≤ skew t + sumZ (λ d, Z.abs d.2) l.
Proof.
  intros Hstep. revert t B. induction l as [|[[m o] q] l IH]; intros t B Hb HB; simpl in *.
  { exists t. rewrite !Z.add_0_r. done. }
  assert (0 ≤ sumZ (λ d : Z * Z * Z, Z.abs d.2) l) by (apply sumZ_nonneg; intros; lia).
  destruct (Hstep t (m, o, q)) as [->|[Hq ->]].
  - destruct (add_total_total (E := E) t m o q B Hb) as (t1 & Ht1 & Hb1 & Hs1); [int_lia|].
    change (apply_position_delta t (m, o, q)) with (@add_total E t (m, o, q)). rewrite Ht1. simpl.
    destruct (IH t1 (B + Z.abs q) Hb1) as (t' & -> & Hb' & Hs'); [lia|].
    exists t'. split; [done|]. rewrite (Z.add_assoc B). split; [done|lia].
  - simpl in *. subst q. destruct (IH t B Hb) as (t' & -> & Hb' & Hs'); [lia|]. exists t'. done.
Qed.

Lemma position_loop_total {E : Type} (p : gmap (Z * Z) Z) t B :
  totals_le B t → B + msum Z.abs p ≤ int_max I64 →
  ∃ t', ofold (λ t d, if d.2 =? 0 then Ok t else @apply_position_delta E t d) t (map_to_list p) = Ok t' ∧
    totals_le (B + msum Z.abs p) t'.
Proof.
  intros Hb HB. destruct (add_totals_total (E := E)
    (λ t d, if d.2 =? 0 then Ok t else apply_position_delta t d) (map_to_list p) t B) as (t' & Ht & Hb' & _).
  - intros t1 d. destruct (Z.eqb_spec d.2 0); auto.
  - done.
  - done.
  - exists t'. done.
Qed.

Lemma from_accounts_total {E} entries :
  sumZ (λ e : Z * Account, Z.abs (acc_balance e.2)) entries ≤ int_max I64 →
  sumZ (λ e : Z * Account, msum Z.abs (acc_positions e.2)) entries ≤ int_max I64 →
  ∃ g, @from_accounts E entries = Ok g ∧
    totals_le (sumZ (λ e : Z * Account, msum Z.abs (acc_positions e.2)) entries) (ag_market_position_totals g).
Proof.
  intros Hc Hs. set (vol := λ e : Z * Account, msum Z.abs (acc_positions e.2)) in *.
  assert (∀ e, 0 ≤ vol e) as Hvol by (intros; apply msum_nonneg; intros; lia).
  destruct (ofold_total (λ g l, Z.abs (ag_total_balance g) + sumZ (λ e : Z * Account, Z.abs (acc_balance e.2)) l ≤ int_max I64 ∧
      totals_le (sumZ vol entries - sumZ vol l) (ag_market_position_totals g))
    (@observe_account E) (mkAccountAggregates 0 ∅ []) entries) as (g & Hg & _ & Hb).
  - simpl. split; [int_lia|]. intros k. unfold totals_for. rewrite lookup_empty. simpl. lia.
  - intros g [id a] l [Hbal Hb]. cbn [sumZ snd] in Hbal, Hb. unfold observe_account.
    assert (0 ≤ sumZ (λ e : Z * Account, Z.abs (acc_balance e.2)) l) by (apply sumZ_nonneg; intros; lia).
    assert (0 ≤ sumZ vol l) by (apply sumZ_nonneg; auto).
    rewrite arith_in by int_lia. cbn [mbind outcome_bind].
    assert (vol (id, a) = msum Z.abs (acc_positions a)) as Hva by done.
    destruct (position_loop_total (E := E) (acc_positions a) _ _ Hb) as (t' & -> & Hb'); [lia|].
    cbn [mbind outcome_bind]. eexists. split; [done|]. cbn [ag_total_balance ag_market_position_totals]. split; [int_lia|].
    replace (sumZ vol entries - sumZ vol l) with (sumZ vol entries - (vol (id, a) + sumZ vol l) + msum Z.abs (acc_positions a)) by lia.
    done.
  - exists g. split; [done|]. simpl in Hb. by rewrite Z.sub_0_r in Hb.
Qed.

Lemma from_accounts_map_total {E} (iter : gmap Z Account → list (Z * Account)) accounts :
  iter accounts ≡ₚ map_to_list accounts →
  cash_volume accounts ≤ int_max I64 → share_volume accounts ≤ int_max I64 →
  ∃ g, @from_accounts E (iter accounts) = Ok g ∧ ag_total_balance g = bal_total accounts ∧
    totals_le (share_volume accounts) (ag_market_position_totals g) ∧
    ∀ m, totals_for (ag_market_position_totals g) m = (pos_total (m, 0) accounts, pos_total (m, 1) accounts).
Proof.
  intros Hiter Hc Hs. unfold cash_volume, share_volume in Hc, Hs.
  rewrite <- (msum_perm (λ a, Z.abs (acc_balance a)) accounts _ Hiter) in Hc.
  rewrite <- (msum_perm (λ a, msum Z.abs (acc_positions a)) accounts _ Hiter) in Hs.
  destruct (from_accounts_total (E := E) (iter accounts) Hc Hs) as (g & Hg & Hb).
  destruct (from_accounts_totals iter accounts g Hiter Hg) as [Ht Hp].
  exists g. split; [done|]. split; [done|]. split; [|done]. unfold share_volume.
  by rewrite <- (msum_perm (λ a, msum Z.abs (acc_positions a)) accounts _ Hiter).
Qed.

(** ** Minting a bounded imbalance cannot overflow *)

Definition prices_ok (prices : Prices) : Prop :=
  ∀ m ps p, prices !! m = Some ps → p ∈ ps → 0 ≤ p ≤ NANOS_PER_DOLLAR.

Lemma clearing_price_range prices m i : prices_ok prices → 0 ≤ clearing_price prices m i ≤ NANOS_PER_DOLLAR.
Proof.
  intros Hp. unfold clearing_price. destruct (prices !! m) as [ps|] eqn:Hm; cbn -[NANOS_PER_DOLLAR]; [|mlia].
  destruct (ps !! i) as [p|] eqn:Hi; cbn -[NANOS_PER_DOLLAR]; [|mlia]. apply (Hp m ps p Hm). by eapply list_elem_of_lookup_2.
Qed.

(** What one market's minting does: nothing if balanced, otherwise the larger
    side is shorted by the difference for its floored value. *)
Lemma mint_adjustment_total prices m y n :
  prices_ok prices → Z.abs (y - n) ≤ 9000000000000 →
  mint_adjustment prices (m, y, n) = Ok (if decide (y = n) then [] else
    let o := if decide (n < y) then 0 else 1 in
    [mkMintAdjustment m o (- Z.abs (y - n)) (clearing_price prices m (Z.to_nat o) * Z.abs (y - n) / SHARE_SCALE)]).
Proof.
  intros Hp Hd. unfold mint_adjustment. rewrite chk_in by int_lia. cbn [ok_or mbind outcome_bind].
  assert (∀ i, checked_notional_i64 (clearing_price prices m i) (Z.abs (y - n)) =
    Some (clearing_price prices m i * Z.abs (y - n) / SHARE_SCALE)) as Hn.
  { intros i. pose proof (clearing_price_range prices m i Hp). apply checked_notional_i64_iff; [mlia..|].
    split; [done|]. apply Z.div_le_upper_bound; mnia. }
  destruct (decide (y = n)); [by destruct (Z.eqb_spec (y - n) 0); [|lia]|].
  destruct (Z.eqb_spec (y - n) 0); [lia|]. destruct (Z.ltb_spec 0 (y - n)), (decide (n < y)); try lia.
  - unfold checked_signed_notional_nanos. rewrite Hn. cbn [mbind option_bind].
    destruct (Z.ltb_spec (y - n) 0); [lia|]. rewrite (Z.abs_eq (y - n)) by lia.
    change (Z.to_nat 0) with 0%nat. destruct (Z.eqb_spec (clearing_price prices m 0) 0) as [Hp0|]; [by rewrite Hp0|done].
  - rewrite Hn.
    assert (∀ z, mkMintAdjustment m 1 (y - n) z = mkMintAdjustment m 1 (- Z.abs (y - n)) z) as Hmk by (intros; f_equal; lia).
    change (Z.to_nat 1) with 1%nat. destruct (Z.eqb_spec (clearing_price prices m 1) 0) as [Hp0|]; [by rewrite Hp0, <- Hmk|by rewrite <- Hmk].
Qed.

(** An adjustment exists because of an imbalance, and sells its shares at the
    floored clearing price. *)
Definition minted (prices : Prices) (l : list (MarketId * Z * Z)) (a : MintAdjustment) : Prop :=
  ∃ o : nat, (o < 2)%nat ∧ ma_outcome a = Z.of_nat o ∧
    ma_balance_delta a = clearing_price prices (ma_market_id a) o * - ma_position_delta a / SHARE_SCALE ∧
    ∃ y n, (ma_market_id a, y, n) ∈ l ∧ y ≠ n.

Definition imbalance (t : MarketId * Z * Z) : Z := Z.abs (t.1.2 - t.2).

Lemma derive_minting_total prices l :
  prices_ok prices → sumZ imbalance l ≤ 9000000000000 →
  ∃ adjs, derive_minting_checked l prices = Ok adjs ∧
    sumZ (λ a, Z.abs (ma_position_delta a)) adjs = sumZ imbalance l ∧
    sumZ (λ a, Z.abs (ma_balance_delta a)) adjs ≤ 1000000 * sumZ imbalance l ∧
    Forall (minted prices l) adjs.
Proof.
  intros Hp. induction l as [|[[m y] n] l IH]; intros Hl; cbn [sumZ] in Hl.
  { exists []. split_and!; done. }
  assert (0 ≤ sumZ imbalance l) by (apply sumZ_nonneg; unfold imbalance; intros; lia).
  assert (imbalance (m, y, n) = Z.abs (y - n)) as Him by done.
  destruct IH as (adjs & Ha & Hpos & Hbal & Hf); [lia|].
  rewrite derive_minting_checked_cons, mint_adjustment_total by (done || lia). cbn [mbind outcome_bind]. rewrite Ha.
  assert (Forall (minted prices l) adjs → Forall (minted prices ((m, y, n) :: l)) adjs) as Hmono.
  { intros HF. eapply Forall_impl; [exact HF|]. intros a (o & ? & ? & ? & y' & n' & Hin & ?). exists o. split_and!; [done..|].
    exists y', n'. split; [by right|done]. }
  cbn [mbind outcome_bind]. eexists. split; [done|]. cbn [sumZ].
  destruct (decide (y = n)); [cbn [app]; split_and!; [lia..|by apply Hmono]|].
  set (o := if decide (n < y) then 0 else 1). cbn [app sumZ ma_position_delta ma_balance_delta].
  pose proof (clearing_price_range prices m (Z.to_nat o) Hp) as Hr.
  assert (0 ≤ clearing_price prices m (Z.to_nat o) * Z.abs (y - n) / SHARE_SCALE ≤ 1000000 * Z.abs (y - n)) as Hc.
  { split; [apply Z.div_pos; mnia|]. apply Z.div_le_upper_bound; mnia. }
  split_and!; [lia..|]. constructor; [|by apply Hmono]. exists (Z.to_nat o).
  cbn [ma_outcome ma_balance_delta ma_market_id ma_position_delta]. rewrite Z.opp_involutive.
  split; [unfold o; case_decide; lia|]. split; [unfold o; case_decide; lia|]. split; [done|].
  exists y, n. split; [left|done].
Qed.

Lemma sorted_imbalance totals : sumZ imbalance (sorted_totals totals) = skew totals.
Proof.
  unfold sorted_totals, skew, msum. rewrite sumZ_fmap, (sumZ_perm _ _ _ (sort_by_key_perm _)).
  apply sumZ_ext. by intros [m [y n]] _.
Qed.

(** Minting entries of a MINT account of bounded volume cannot overflow. *)
Lemma apply_adjustments_total {E : Type} adjs mint :
  Z.abs (acc_balance mint) + sumZ (λ a, Z.abs (ma_balance_delta a)) adjs ≤ int_max I64 →
  msum Z.abs (acc_positions mint) + sumZ (λ a, Z.abs (ma_position_delta a)) adjs ≤ int_max I64 →
  ∃ mint', ofold (@apply_adjustment E) mint adjs = Ok mint' ∧
    Z.abs (acc_balance mint') ≤ Z.abs (acc_balance mint) + sumZ (λ a, Z.abs (ma_balance_delta a)) adjs ∧
    msum Z.abs (acc_positions mint') ≤ msum Z.abs (acc_positions mint) + sumZ (λ a, Z.abs (ma_position_delta a)) adjs.
Proof.
  revert mint. induction adjs as [|a adjs IH]; intros mint Hb Hp; cbn [sumZ] in *.
  { exists mint. split_and!; [done|lia..]. }
  assert (0 ≤ sumZ (λ a, Z.abs (ma_balance_delta a)) adjs) by (apply sumZ_nonneg; intros; lia).
  assert (0 ≤ sumZ (λ a, Z.abs (ma_position_delta a)) adjs) by (apply sumZ_nonneg; intros; lia).
  set (k := (ma_market_id a, ma_outcome a)).
  assert (Z.abs (get0 (acc_positions mint) k) ≤ msum Z.abs (acc_positions mint)).
  { unfold get0. destruct (acc_positions mint !! k) as [q|] eqn:Hk; simpl.
    - apply (msum_lookup_le Z.abs _ k q); [intros; lia|done].
    - apply msum_nonneg. intros; lia. }
  pose proof (msum_abs_add (acc_positions mint) k (ma_position_delta a)).
  cbn [ofold]. unfold apply_adjustment at 2. fold k. rewrite add0_in by int_lia. cbn [mbind outcome_bind].
  rewrite arith_in by int_lia. cbn [mbind outcome_bind].
  edestruct IH as (mint' & Hm & Hb' & Hp'); [| |exists mint'; split; [exact Hm|]];
    cbn [acc_balance acc_positions set_balance set_positions] in *; split_and?; lia.
Qed.

Lemma mint_phase_total blake3 accounts adjs h mint :
  accounts !! AccountId_MINT = Some mint →
  cash_volume accounts + sumZ (λ a, Z.abs (ma_balance_delta a)) adjs ≤ int_max I64 →
  share_volume accounts + sumZ (λ a, Z.abs (ma_position_delta a)) adjs ≤ int_max I64 →
  ∃ accounts', mint_phase (E := unit) blake3 accounts adjs h = Ok accounts' ∧
    cash_volume accounts' ≤ cash_volume accounts + sumZ (λ a, Z.abs (ma_balance_delta a)) adjs ∧
    share_volume accounts' ≤ share_volume accounts + sumZ (λ a, Z.abs (ma_position_delta a)) adjs.
Proof.
  intros Hmint Hc Hs. destruct (volume_bounded accounts AccountId_MINT mint Hmint) as [Hmb _].
  assert (msum Z.abs (acc_positions mint) ≤ share_volume accounts) as Hmp.
  { apply (msum_lookup_le (λ a, msum Z.abs (acc_positions a)) _ AccountId_MINT mint); [|done].
    intros. apply msum_nonneg. intros; lia. }
  destruct (apply_adjustments_total (E := unit) adjs mint) as (mint' & Hm' & Hmb' & Hmp'); [lia..|].
  unfold mint_phase, apply_minting. destruct adjs as [|a adjs']; [exists accounts; cbn [sumZ]; split_and!; [done|lia..]|].
  rewrite Hmint. cbn [expect mbind outcome_bind]. rewrite Hm'. cbn [mbind outcome_bind].
  eexists. split; [done|]. unfold cash_volume, share_volume in *.
  rewrite !(msum_update _ _ _ mint) by done. cbn [acc_balance acc_positions set_events_digest]. lia.
Qed.

(** ** Finalising an admitted block *)

(** What the phases before finalisation establish about a block. *)
Record admissible_block (accounts : gmap Z Account) (orders : list Order) (fills : list Fill)
    (prices : Prices) : Prop := {
  ab_fills : Forall (admitted_fill (order_map orders)) fills;
  ab_count : Z.of_nat (length fills) ≤ 4000;
  ab_accounts f : f ∈ fills → is_Some (accounts !! fill_account_id f);
  ab_mint : is_Some (accounts !! AccountId_MINT);
  ab_cash : cash_volume accounts ≤ 1000000000000000000;
  ab_shares : share_volume accounts ≤ 1000000000000000000;
  ab_balanced m : pos_total (m, 0) accounts = pos_total (m, 1) accounts;
  ab_prices : prices_ok prices;
}.
Arguments ab_fills {_ _ _ _} _.
Arguments ab_count {_ _ _ _} _.
Arguments ab_accounts {_ _ _ _} _ f _.
Arguments ab_mint {_ _ _ _} _.
Arguments ab_cash {_ _ _ _} _.
Arguments ab_shares {_ _ _ _} _.
Arguments ab_balanced {_ _ _ _} _ m.
Arguments ab_prices {_ _ _ _} _.

Lemma skew_balanced (accounts : gmap Z Account) t :
  (∀ m, totals_for t m = (pos_total (m, 0) accounts, pos_total (m, 1) accounts)) →
  (∀ m, pos_total (m, 0) accounts = pos_total (m, 1) accounts) → skew t = 0.
Proof.
  intros Ht Hb. apply sumZ_zero. intros [m [y n]] Hin%elem_of_map_to_list. specialize (Ht m).
  unfold totals_for in Ht. rewrite Hin in Ht. simpl in Ht. injection Ht as -> ->. simpl. rewrite Hb. lia.
Qed.

Lemma sumZ_le_const {A} (f : A → Z) c l : Forall (λ x, f x ≤ c) l → sumZ f l ≤ c * Z.of_nat (length l).
Proof. induction 1; cbn [sumZ length]; lia. Qed.

Section admissible.
Context {accounts : gmap Z Account} {orders : list Order} {fills : list Fill} {prices : Prices}.
Context (AB : admissible_block accounts orders fills prices).
Context (blake3 : Bytes → Bytes) (iter : gmap Z Account → list (Z * Account)).
Context (Hiter : ∀ m, iter m ≡ₚ map_to_list m) (h : Z) (markets : list MarketId).

(** Settlement runs, leaves no failure and keeps volumes bounded. *)
Lemma admissible_settles :
  ∃ s, settle_batch_with_position_deltas (E := unit) blake3 accounts fills orders h = Ok s ∧
    bs_failures s = [] ∧ is_Some (bs_accounts s !! AccountId_MINT) ∧
    cash_volume (bs_accounts s) ≤ 5000000000000000000 ∧ share_volume (bs_accounts s) ≤ 2000000000000000000 ∧
    bs_position_deltas s = fills ≫= share_term (order_map orders) ∧
    sumZ (λ d, Z.abs d.2) (bs_position_deltas s) ≤ 4000000000000.
Proof.
  pose proof (ab_cash AB). pose proof (ab_shares AB). pose proof (ab_count AB).
  destruct (settle_batch_loop_ok blake3 (order_map orders) h (E := unit) fills _ _ (mkBatchState accounts [] []) (ab_fills AB)
    (ab_accounts AB) (volume_bounded accounts)) as (s & ds & Hs & Hterm & Hf & Hds & _ & _ & Hdom & Hq & Hlen & [Hc Hsh] & _);
    [lia|mlia|].
  exists s. cbn [bs_accounts bs_failures bs_position_deltas app] in *. split; [done|]. split; [done|].
  split; [apply Hdom, AB|]. split; [lia|]. split; [mlia|]. rewrite Hds. split; [done|].
  transitivity (MAX_ORDER_QTY * Z.of_nat (length ds)); [|rewrite Hlen; mlia].
  apply sumZ_le_const. eapply Forall_impl; [exact Hq|]. by intros [k q].
Qed.

(** So do the aggregation and the minting that follow it. *)
Lemma admissible_mints s :
  settle_batch_with_position_deltas (E := unit) blake3 accounts fills orders h = Ok s →
  ∃ pre totals adjs accounts',
    from_accounts (E := unit) (iter accounts) = Ok pre ∧ ag_total_balance pre = bal_total accounts ∧
    ofold apply_position_delta (ag_market_position_totals pre) (bs_position_deltas s) = @Ok unit _ totals ∧
    derive_minting_checked (minting_inputs totals) prices = Ok adjs ∧
    sumZ (λ a, Z.abs (ma_balance_delta a)) adjs ≤ 4000000000000000000 ∧
    Forall (minted prices (minting_inputs totals)) adjs ∧
    mint_phase (E := unit) blake3 (bs_accounts s) adjs h = Ok accounts' ∧
    cash_volume accounts' ≤ 9000000000000000000 ∧ share_volume accounts' ≤ 3000000000000000000.
Proof.
  intros Hs. pose proof (ab_cash AB) as Hcash. pose proof (ab_shares AB) as Hshares.
  destruct (from_accounts_map_total (E := unit) iter accounts (Hiter _)) as (pre & Hpre & Bpre & Lpre & Tpre); [int_lia..|].
  destruct admissible_settles as (s' & Hs' & _ & [mint Hmint] & Hcs & Hss & _ & Hds).
  rewrite Hs in Hs'. injection Hs' as <-.
  destruct (add_totals_total (E := unit) apply_position_delta (bs_position_deltas s) _ _ (λ _ _, or_introl eq_refl) Lpre)
    as (totals & Htot & _ & Hskew); [int_lia|].
  rewrite (skew_balanced accounts _ Tpre (ab_balanced AB)) in Hskew.
  destruct (derive_minting_total prices (minting_inputs totals) (ab_prices AB)) as (adjs & Hadj & Hap & Hab & Hform);
    unfold minting_inputs in *; rewrite sorted_imbalance in *; [lia|].
  destruct (mint_phase_total blake3 (bs_accounts s) adjs h mint Hmint) as (acc' & Hmph & Hcv & Hsv); [int_lia..|].
  exists pre, totals, adjs, acc'. split_and!; (done || lia).
Qed.

Lemma admissible_cash : Z.abs (sumZ (cash_term (order_map orders)) fills) ≤ 4000000000000000000.
Proof.
  pose proof (ab_count AB). pose proof (ab_fills AB) as Hf. rewrite Forall_forall in Hf.
  transitivity (sumZ (λ _, 1000000000000000) fills); [|rewrite sumZ_const; lia].
  apply sumZ_abs_le. intros f Hin. by destruct (admitted_fill_terms _ f (Hf f Hin)) as (o & d & _ & _ & _ & _ & _ & ? & _).
Qed.

Lemma admissible_expected adjs :
  sumZ (λ a, Z.abs (ma_balance_delta a)) adjs ≤ 4000000000000000000 →
  ∃ e, expected_balance_delta_from_fills (E := unit) fills (order_map orders) adjs = Ok e.
Proof.
  intros Ha. pose proof (ab_count AB). pose proof (ab_fills AB) as Hf. rewrite Forall_forall in Hf.
  unfold expected_balance_delta_from_fills.
  rewrite (ofold_i64_sum _ (cash_term (order_map orders)) 1000000000000000); cbn [mbind outcome_bind].
  - rewrite ofold_i64_sum_abs by int_lia. cbn [mbind outcome_bind]. eexists. apply arith_in.
    pose proof admissible_cash.
    assert (Z.abs (sumZ ma_balance_delta adjs) ≤ sumZ (λ a, Z.abs (ma_balance_delta a)) adjs) by (apply sumZ_abs_le; intros; lia).
    int_lia.
  - intros a f Hin. destruct (admitted_fill_terms _ f (Hf f Hin)) as (o & d & Ho & _ & Hd & <- & _).
    destruct (Hf f Hin) as (o' & _ & _ & _ & Hq & _). destruct (Z.eqb_spec (fill_qty f) 0); [lia|].
    by rewrite Ho, (compute_fill_settlement_Ok _ _ _ Hd).
  - intros f Hin. by destruct (admitted_fill_terms _ f (Hf f Hin)) as (o & d & _ & _ & _ & _ & _ & ? & _).
  - int_lia.
Qed.

(** Every stage of the phase runs to completion. *)
Lemma admissible_finalizes :
  ∃ r s totals adjs,
    finalize_block_state_phase (E := unit) blake3 iter accounts markets orders fills prices h = Ok r ∧
    finalize_trace blake3 iter accounts markets orders fills prices h r s totals adjs ∧
    bs_failures s = [] ∧ derive_minting_checked (minting_inputs totals) prices = Ok adjs ∧
    Forall (minted prices (minting_inputs totals)) adjs ∧
    fbs_minting_cost r = - sumZ (cash_term (order_map orders)) fills.
Proof.
  destruct admissible_settles as (s & Hs & Hfail & _).
  destruct (admissible_mints s Hs) as (pre & totals & adjs & acc' & Hpre & Bpre & Htot & Hadj & Hab & Hform & Hmph & Hcv & Hsv).
  destruct (from_accounts_map_total (E := unit) iter acc' (Hiter _)) as (post & Hpost & Bpost & _ & _); [int_lia..|].
  destruct (fills_aggregate orders fills (ab_fills AB)) as [_ Hfbd]; [pose proof (ab_count AB); lia|].
  destruct (admissible_expected adjs Hab) as [e He].
  assert (bal_total acc' - bal_total accounts = sumZ (cash_term (order_map orders)) fills + sumZ ma_balance_delta adjs) as Hbd.
  { destruct (mint_phase_Ok _ _ _ _ _ Hmph) as [-> _].
    destruct (settle_loop_Ok _ _ _ _ _ _ Hs) as (-> & _ & _ & (l & Hl & _ & Heq)). cbn [bs_failures bs_accounts app] in *.
    rewrite Hfail in Hl. rewrite Heq by done. lia. }
  pose proof admissible_cash.
  assert (Z.abs (sumZ ma_balance_delta adjs) ≤ sumZ (λ a, Z.abs (ma_balance_delta a)) adjs) by (apply sumZ_abs_le; intros; lia).
  assert (∃ r, finalize_block_state_phase (E := unit) blake3 iter accounts markets orders fills prices h = Ok r ∧
    fbs_minting_cost r = - sumZ (cash_term (order_map orders)) fills) as (r & Hr & Hcost).
  { unfold finalize_block_state_phase. rewrite Hpre. cbn [mbind outcome_bind]. rewrite Hs. cbn [mbind outcome_bind].
    rewrite Htot. cbn [mbind outcome_bind]. unfold derive_minting. rewrite Hadj. cbn [mbind outcome_bind].
    rewrite Hfbd. cbn [mbind outcome_bind]. rewrite Hmph. cbn [mbind outcome_bind]. rewrite Hpost. cbn [mbind outcome_bind].
    rewrite Bpre, Bpost, arith_in by int_lia. cbn [mbind outcome_bind]. rewrite He. cbn [mbind outcome_bind].
    destruct (negb _); cbn [mbind outcome_bind]; (eexists; split; [reflexivity|]); cbn [fbs_minting_cost];
      unfold minting_cost_from_fill_balance_delta, minting_cost_from_fill_balance_delta_checked; by rewrite chk_in by int_lia. }
  destruct (finalize_traced _ _ _ _ _ _ _ _ _ Hiter Hr) as (s2 & totals2 & adjs2 & T).
  pose proof (ft_settled T) as E1. rewrite Hs in E1. injection E1 as <-.
  destruct (ft_fold T) as (pre2 & E2 & E3). rewrite Hpre in E2. injection E2 as <-. rewrite Htot in E3. injection E3 as <-.
  pose proof (ft_adjs T) as E4. unfold derive_minting in E4. rewrite Hadj in E4. injection E4 as <-.
  exists r, s, totals, adjs. done.
Qed.
End admissible.

(** ** Value at clearing prices *)

Section value.
Context (prices : Prices) (M : list MarketId) (HM : NoDup M).

(** Shares of [M] moved by a list of deltas, at clearing prices. *)
Definition priced_deltas (ds : list (MarketId * Z * Z)) : Z :=
  sumZ (λ m, clearing_price prices m 0 * delta_total (m, 0) ds + clearing_price prices m 1 * delta_total (m, 1) ds) M.

Lemma priced_deltas_app ds ds' : priced_deltas (ds ++ ds') = priced_deltas ds + priced_deltas ds'.
Proof.
  unfold priced_deltas. rewrite <- sumZ_add. apply sumZ_ext. intros m _. unfold delta_total. rewrite !sumZ_app. lia.
Qed.

Lemma priced_deltas_one m o q : m ∈ M → (o < 2)%nat →
  priced_deltas [(m, Z.of_nat o, q)] = clearing_price prices m o * q.
Proof.
  unfold priced_deltas, delta_total. cbn [sumZ]. intros Hin Ho. induction HM as [|m' l Hn Hnd IH]; [set_solver|].
  cbn [sumZ]. destruct (decide (m = m')) as [<-|Hne].
  - rewrite (sumZ_zero _ l).
    + assert (o = 0%nat ∨ o = 1%nat) as [->| ->] by lia; repeat case_decide; simplify_eq; lia.
    + intros m2 Hm2. rewrite !decide_False by (intros [= -> ?]; done). lia.
  - rewrite IH by set_solver. rewrite !decide_False by (intros [= -> ?]; done). lia.
Qed.

(** Trades at clearing prices move no value beyond rounding. *)
Lemma priced_moves {A} (cash : A → Z) (shares : A → list (MarketId * Z * Z)) l :
  (∀ x, x ∈ l → Z.abs (SHARE_SCALE * cash x + priced_deltas (shares x)) ≤ SHARE_SCALE) →
  Z.abs (SHARE_SCALE * sumZ cash l + priced_deltas (l ≫= shares)) ≤ SHARE_SCALE * Z.of_nat (length l).
Proof.
  induction l as [|x l IH]; intros Hl.
  { cbn [sumZ length]. unfold priced_deltas. rewrite sumZ_zero; [lia|]. intros m _. unfold delta_total. cbn. lia. }
  cbn [mbind list_bind sumZ length]. rewrite priced_deltas_app.
  assert (Z.abs (SHARE_SCALE * cash x + priced_deltas (shares x)) ≤ SHARE_SCALE) by (apply Hl; set_solver).
  assert (Z.abs (SHARE_SCALE * sumZ cash l + priced_deltas (l ≫= shares)) ≤ SHARE_SCALE * Z.of_nat (length l))
    by (apply IH; set_solver). lia.
Qed.

(** A fill at the clearing price of its outcome, in one of the markets [M]. *)
Definition at_clearing (om : gmap Z Order) (f : Fill) : Prop :=
  ∀ o m d, om !! fill_order_id f = Some o → one_hot o m d →
    m ∈ M ∧ fill_price f = clearing_price prices m (Z.to_nat (dir_outcome d)).

Lemma fill_move om f : admitted_fill om f → at_clearing om f →
  Z.abs (SHARE_SCALE * cash_term om f + priced_deltas (share_term om f)) ≤ SHARE_SCALE.
Proof.
  intros (o & Ho & Hwf & Hval & Hq & Hp) Hat. destruct (one_hot_validate o Hwf Hval) as (m & d & Hoh).
  pose proof (oh_max_fill _ _ _ Hoh). destruct (Hat o m d Ho Hoh) as [Hm Hcp]. unfold cash_term, share_term.
  rewrite Ho, (one_hot_settlement_admitted o m d) by (lia || assumption). unfold settle_spec. cbn [sd_balance_delta sd_position_deltas].
  assert (dir_outcome d = Z.of_nat (Z.to_nat (dir_outcome d))) as -> by (by destruct d).
  assert (Z.to_nat (dir_outcome d) < 2)%nat by (destruct d; simpl; lia).
  rewrite priced_deltas_one, <- Hcp by done.
  pose proof (Z.div_mod (fill_price f * fill_qty f) SHARE_SCALE ltac:(mlia)).
  pose proof (Z.mod_pos_bound (fill_price f * fill_qty f) SHARE_SCALE ltac:(mlia)).
  destruct (dir_sign_cases d) as [[-> _]|[-> _]]; lia.
Qed.

Lemma mint_move l a : minted prices l a → ma_market_id a ∈ M →
  Z.abs (SHARE_SCALE * ma_balance_delta a + priced_deltas [(ma_market_id a, ma_outcome a, ma_position_delta a)]) ≤ SHARE_SCALE.
Proof.
  intros (o & Ho & -> & -> & _) Hm. rewrite priced_deltas_one by done.
  set (v := clearing_price prices (ma_market_id a) o * - ma_position_delta a).
  pose proof (Z.div_mod v SHARE_SCALE ltac:(mlia)). pose proof (Z.mod_pos_bound v SHARE_SCALE ltac:(mlia)).
  unfold v in *. lia.
Qed.

(** Cash plus one dollar for every complete set of the markets [M], in
    nanodollars per [SHARE_SCALE]. *)
Definition value (accounts : gmap Z Account) : Z :=
  SHARE_SCALE * bal_total accounts + NANOS_PER_DOLLAR * sumZ (λ m, pos_total (m, 0) accounts) M.

(** Between balanced states, value changes by the cash and the priced shares. *)
Lemma value_change accounts accounts' ds :
  (∀ m, m ∈ M → clearing_price prices m 0 + clearing_price prices m 1 = NANOS_PER_DOLLAR) →
  (∀ m, pos_total (m, 0) accounts = pos_total (m, 1) accounts) →
  (∀ m, pos_total (m, 0) accounts' = pos_total (m, 1) accounts') →
  (∀ k, pos_total k accounts' = pos_total k accounts + delta_total k ds) →
  value accounts' - value accounts = SHARE_SCALE * (bal_total accounts' - bal_total accounts) + priced_deltas ds.
Proof.
  intros Hcomp Hb Hb' Hd. unfold value.
  assert (priced_deltas ds = NANOS_PER_DOLLAR * sumZ (λ m, delta_total (m, 0) ds) M) as ->.
  { unfold priced_deltas. clear HM. induction M as [|m l IH]; [done|]. cbn [sumZ]. rewrite IH by set_solver.
    assert (delta_total (m, 0) ds = delta_total (m, 1) ds) as -> by (pose proof (Hd (m, 0)); pose proof (Hd (m, 1)); rewrite <- Hb, <- Hb' in *; lia).
    pose proof (Hcomp m ltac:(set_solver)). nia. }
  rewrite (sumZ_ext (λ m, pos_total (m, 0) accounts') (λ m, pos_total (m, 0) accounts + delta_total (m, 0) ds)) by auto.
  rewrite sumZ_add. lia.
Qed.
End value.

(** At most one adjustment per market. *)
Lemma minting_markets_sublist prices l adjs :
  derive_minting_checked l prices = Ok adjs → (ma_market_id <$> adjs) `sublist_of` ((λ t : Z * Z * Z, t.1.1) <$> l).
Proof.
  revert adjs. induction l as [|[[m y] n] l IH]; intros adjs H.
  { injection H as <-. done. }
  rewrite derive_minting_checked_cons in H. destruct (mint_adjustment prices (m, y, n)) as [a| |] eqn:Ha; [|done..].
  cbn [mbind outcome_bind] in H. destruct (derive_minting_checked l prices) as [b| |] eqn:Hb; [|done..].
  cbn [mbind outcome_bind] in H. injection H as <-. apply mint_adjustment_Ok in Ha as (_ & Hm & Hlen).
  rewrite fmap_app, fmap_cons. destruct a as [|a [|]]; cbn in Hlen; [|apply Forall_singleton in Hm as [<- _]|lia].
  - by apply sublist_cons, IH.
  - by apply sublist_skip, IH.
Qed.

Lemma delta_adj_total adjs m o :
  delta_total (m, o) (adjs ≫= λ a, [(ma_market_id a, ma_outcome a, ma_position_delta a)]) = adj_total adjs m o.
Proof.
  unfold delta_total, adj_total. induction adjs as [|a adjs IH]; [done|]. cbn [mbind list_bind app sumZ].
  rewrite <- IH. f_equal. destruct (decide (_ = (m, o))), (decide (_ ∧ _)); naive_solver.
Qed.

Section admissible_value.
Context {blake3 iter accounts markets orders fills prices h r s totals adjs}
  (T : finalize_trace blake3 iter accounts markets orders fills prices h r s totals adjs).
Context (AB : admissible_block accounts orders fills prices) (Hiter : ∀ m, iter m ≡ₚ map_to_list m).
Context (M : list MarketId) (HM : NoDup M).
Context (Hat : Forall (at_clearing prices M (order_map orders)) fills).
Context (Hadj : derive_minting_checked (minting_inputs totals) prices = Ok adjs).
Context (Hminted : Forall (minted prices (minting_inputs totals)) adjs).
Notation om := (order_map orders).
Notation adj_deltas := (adjs ≫= λ a, [(ma_market_id a, ma_outcome a, ma_position_delta a)]).

Lemma trace_settled_positions k : pos_total k (bs_accounts s) = pos_total k accounts + delta_total k (fills ≫= share_term om).
Proof.
  destruct (admissible_settles AB blake3 h) as (s' & Hs' & _ & _ & _ & _ & Hds & _).
  rewrite (ft_settled T) in Hs'. injection Hs' as <-.
  destruct (settle_loop_Ok _ _ _ _ _ _ (ft_settled T)) as (_ & (ds & Hds2 & Hp) & _).
  cbn [bs_accounts bs_position_deltas app] in *. rewrite <- Hds, Hds2. apply Hp.
Qed.

Lemma trace_positions k : pos_total k (fbs_accounts r) = pos_total k accounts + delta_total k (fills ≫= share_term om) + delta_total k adj_deltas.
Proof.
  destruct (mint_phase_Ok _ _ _ _ _ (ft_minted T)) as [_ Hp]. destruct k as [m o].
  by rewrite Hp, trace_settled_positions, delta_adj_total.
Qed.

(** Markets without fills stay balanced, so minting touches only traded ones. *)
Lemma trace_adj_markets a : a ∈ adjs → ma_market_id a ∈ M.
Proof.
  intros Ha. rewrite Forall_forall in Hminted. destruct (Hminted a Ha) as (_ & _ & _ & _ & y & n & Hin & Hne).
  apply sorted_totals_spec in Hin. pose proof (ft_totals T (ma_market_id a)) as Ht. unfold totals_for in Ht. rewrite Hin in Ht.
  simpl in Ht. injection Ht as -> ->. rewrite !trace_settled_positions, (ab_balanced AB) in Hne.
  destruct (decide (ma_market_id a ∈ M)) as [|Hn]; [done|]. exfalso. apply Hne. f_equal.
  assert (∀ o, delta_total (ma_market_id a, o) (fills ≫= share_term om) = 0) as Hz; [|by rewrite !Hz].
  intros o. apply sumZ_zero. intros [[m' o'] q] Hd. apply decide_False. intros [= -> ->].
  apply list_elem_of_bind in Hd as (f & Hd & Hf). pose proof (ab_fills AB) as HF. rewrite Forall_forall in HF, Hat.
  destruct (HF f Hf) as (ord & Ho & Hwf & Hval & Hq & Hp). destruct (one_hot_validate ord Hwf Hval) as (m & d & Hoh).
  pose proof (oh_max_fill _ _ _ Hoh). destruct (Hat f Hf ord m d Ho Hoh) as [Hm _]. unfold share_term in Hd.
  rewrite Ho, (one_hot_settlement_admitted ord m d) in Hd by (lia || assumption).
  apply list_elem_of_singleton in Hd. naive_solver.
Qed.

Lemma trace_adjs_count : (length adjs ≤ length M)%nat.
Proof.
  rewrite <- (length_fmap ma_market_id). apply submseteq_length, NoDup_submseteq.
  - eapply sublist_NoDup; [apply sorted_totals_spec|]. by apply (minting_markets_sublist prices).
  - intros m (a & -> & Ha)%list_elem_of_fmap. by apply trace_adj_markets.
Qed.

Lemma trace_value :
  (∀ m, m ∈ M → clearing_price prices m 0 + clearing_price prices m 1 = NANOS_PER_DOLLAR) → bs_failures s = [] →
  Z.abs (value M (fbs_accounts r) - value M accounts) ≤ SHARE_SCALE * (Z.of_nat (length fills) + Z.of_nat (length M)).
Proof.
  intros Hcomp Hnil.
  rewrite (value_change prices M accounts (fbs_accounts r) ((fills ≫= share_term om) ++ adj_deltas)); [|done|apply AB| |].
  2:{ intros m. by apply (trace_balanced T adjs). }
  2:{ intros k. rewrite trace_positions. unfold delta_total. rewrite sumZ_app. lia. }
  rewrite (trace_cash T Hnil), priced_deltas_app.
  pose proof trace_adjs_count. pose proof (ab_fills AB) as HF.
  assert (Z.abs (SHARE_SCALE * sumZ (cash_term om) fills + priced_deltas prices M (fills ≫= share_term om))
    ≤ SHARE_SCALE * Z.of_nat (length fills)).
  { apply (priced_moves prices M HM). intros f Hin. apply fill_move; [done|by eapply Forall_forall..]. }
  assert (Z.abs (SHARE_SCALE * sumZ ma_balance_delta adjs + priced_deltas prices M adj_deltas) ≤ SHARE_SCALE * Z.of_nat (length adjs)).
  { apply (priced_moves prices M HM). intros a Hin.
    eapply mint_move; [done|by eapply Forall_forall|by apply trace_adj_markets]. }
  mlia.
Qed.
End admissible_value.

(** All of it together: what finalising an admissible block gives. *)
Lemma admissible_outcome {accounts : gmap Z Account} {orders : list Order} {fills : list Fill} {prices : Prices}
    (AB : admissible_block accounts orders fills prices) blake3 iter (Hiter : ∀ m, iter m ≡ₚ map_to_list m) h markets :
  ∃ r, finalize_block_state_phase (E := unit) blake3 iter accounts markets orders fills prices h = Ok r ∧
    (∀ x, x ∈ fbs_invariant_failures r → overdrawn (fbs_accounts r) x) ∧
    (∀ m, pos_total (m, 0) (fbs_accounts r) = pos_total (m, 1) (fbs_accounts r)) ∧
    fbs_minting_cost r = - sumZ (cash_term (order_map orders)) fills ∧
    ∀ M, NoDup M → Forall (at_clearing prices M (order_map orders)) fills →
      (∀ m, m ∈ M → clearing_price prices m 0 + clearing_price prices m 1 = NANOS_PER_DOLLAR) →
      Z.abs (value M (fbs_accounts r) - value M accounts) ≤ SHARE_SCALE * (Z.of_nat (length fills) + Z.of_nat (length M)).
Proof.
  destruct (admissible_finalizes AB blake3 iter Hiter h markets) as (r & s & totals & adjs & Hr & T & Hnil & Hadj & Hmint & Hcost).
  exists r. split; [done|]. split_and!; [|intros m; by apply (trace_balanced T adjs)|done|].
  2: { intros M HM Hat Hcomp. by apply (trace_value T AB M HM Hat Hadj Hmint). }
  intros x Hx. pose proof Hx as Hx'. apply (ft_failures T) in Hx'. rewrite Hnil in Hx'.
  destruct Hx' as [?|[(d & e & -> & _)|[?|(m & -> & _)]]]; [set_solver| |done|].
  - by destruct (trace_no_mismatch T d e Hnil).
  - by apply (trace_no_imbalance T adjs) in Hx.
Qed.

(** ** Properties *)

(** Finalising an admissible block always returns: no stage overflows or
    panics, every fill settles, cash is conserved and every market ends
    balanced, so the only failures it can report are negative balances; the
    reported minting cost is the negated sum of the fills' cash.  An admissible
    block has at most 4000 admitted fills of existing accounts, prices in
    range, balanced markets and total volumes of at most 10^18. *)
Theorem finalize_admissible_block (accounts : gmap Z Account) (markets : list MarketId) (orders : list Order)
    (fills : list Fill) (prices : Prices) (blake3 : Bytes → Bytes) (iter : gmap Z Account → list (Z * Account)) (h : Z) :
  admissible_block accounts orders fills prices → (∀ m, iter m ≡ₚ map_to_list m) →
  ∃ r, finalize_block_state_phase (E := unit) blake3 iter accounts markets orders fills prices h = Ok r ∧
    (∀ x, x ∈ fbs_invariant_failures r → overdrawn (fbs_accounts r) x) ∧
    (∀ m, pos_total (m, 0) (fbs_accounts r) = pos_total (m, 1) (fbs_accounts r)) ∧
    fbs_minting_cost r = - sumZ (cash_term (order_map orders)) fills.
Proof.
  intros AB Hiter. destruct (admissible_outcome AB blake3 iter Hiter h markets) as (r & Hr & Hf & Hb & Hc & _). by exists r.
Qed.

(** C3: finalising an admissible block at uniform, complementary clearing
    prices conserves value: all cash plus one dollar for each complete set
    outstanding in the traded markets is the same before and after, up to one
    nanodollar of rounding per fill and per traded market.  Cash leaves traders
    only to back the complete sets their fills create. *)
Theorem finalize_conserves_value (accounts : gmap Z Account) (markets M : list MarketId) (orders : list Order)
    (fills : list Fill) (prices : Prices) (blake3 : Bytes → Bytes) (iter : gmap Z Account → list (Z * Account)) (h : Z) :
  admissible_block accounts orders fills prices → (∀ m, iter m ≡ₚ map_to_list m) →
  NoDup M → Forall (at_clearing prices M (order_map orders)) fills →
  (∀ m, m ∈ M → clearing_price prices m 0 + clearing_price prices m 1 = NANOS_PER_DOLLAR) →
  ∃ r, finalize_block_state_phase (E := unit) blake3 iter accounts markets orders fills prices h = Ok r ∧
    Z.abs (value M (fbs_accounts r) - value M accounts) ≤ SHARE_SCALE * (Z.of_nat (length fills) + Z.of_nat (length M)).
Proof.
  intros AB Hiter HM Hat Hcomp. destruct (admissible_outcome AB blake3 iter Hiter h markets) as (r & Hr & _ & _ & _ & Hv).
  exists r. split; [done|]. by apply Hv.
Qed.

Lemma ex_admissible : admissible_block ex_accounts ex_orders ex_fills ex_prices.
Proof.
  constructor.
  - repeat apply Forall_cons_2; [..|constructor].
    + exists (binary_order 1 3 BuyYes 600000000 5000). split; [vm_compute; reflexivity|].
      split; [apply binary_order_wf; vm_compute; split_and?; (done || discriminate)|].
      split; [vm_compute; reflexivity|]. split; cbn; mlia.
    + exists (binary_order 2 3 BuyNo 500000000 4000). split; [vm_compute; reflexivity|].
      split; [apply binary_order_wf; vm_compute; split_and?; (done || discriminate)|].
      split; [vm_compute; reflexivity|]. split; cbn; mlia.
  - vm_compute. discriminate.
  - intros f Hf. unfold ex_fills in Hf. rewrite !elem_of_cons in Hf.
    destruct Hf as [->|[->|Hf]]; [vm_compute; eauto..|by apply not_elem_of_nil in Hf].
  - vm_compute. eauto.
  - vm_compute. discriminate.
  - vm_compute. discriminate.
  - intros m. vm_compute. reflexivity.
  - intros m ps p Hm Hp. unfold ex_prices in Hm. apply lookup_singleton_Some in Hm as [<- <-]. rewrite !elem_of_cons in Hp.
    destruct Hp as [->|[->|Hp]]; [mlia..|by apply not_elem_of_nil in Hp].
Qed.

Lemma finalize_admissible_block_witness :
  admissible_block ex_accounts ex_orders ex_fills ex_prices ∧
  ∃ r, finalize_block_state_phase (E := unit) (λ l, l) map_to_list ex_accounts [3] ex_orders ex_fills ex_prices 9 = Ok r ∧
    (∀ m, pos_total (m, 0) (fbs_accounts r) = pos_total (m, 1) (fbs_accounts r)) ∧ fbs_minting_cost r = 2280000000.
Proof.
  split; [exact ex_admissible|].
  destruct (finalize_admissible_block ex_accounts [3] ex_orders ex_fills ex_prices (λ l, l) map_to_list 9 ex_admissible)
    as (r & Hr & _ & Hb & Hc); [intros m; reflexivity|].
  exists r. split; [exact Hr|]. split; [exact Hb|]. rewrite Hc. vm_compute. reflexivity.
Defined.

Lemma ex_at_clearing : Forall (at_clearing ex_prices [3] (order_map ex_orders)) ex_fills.
Proof.
  repeat apply Forall_cons_2; [..|constructor]; intros o m d Ho Hoh; vm_compute in Ho; injection Ho as <-;
    pose proof (oh_markets _ _ _ Hoh) as Hm; injection Hm as <-;
    pose proof (oh_payoffs _ _ _ Hoh) as Hd; destruct d; try discriminate Hd;
    (split; [by left|vm_compute; reflexivity]).
Qed.

Lemma finalize_conserves_value_witness :
  ∃ r, finalize_block_state_phase (E := unit) (λ l, l) map_to_list ex_accounts [3] ex_orders ex_fills ex_prices 9 = Ok r ∧
    Z.abs (value [3] (fbs_accounts r) - value [3] ex_accounts) ≤ 3 * SHARE_SCALE.
Proof.
  apply (finalize_conserves_value ex_accounts [3] [3] ex_orders ex_fills ex_prices (λ l, l) map_to_list 9 ex_admissible).
  - intros m. reflexivity.
  - apply NoDup_singleton.
  - exact ex_at_clearing.
  - intros m ->%list_elem_of_singleton. vm_compute. reflexivity.
Defined.
