(* ===== verification/Witness.v ===== *)
(** * Witness: what the sequencer hands to the verifier

    Models the data of [crates/sybil-verifier/src/types.rs] and
    [violations.rs], and [MarketGroup] and the problem invariants of
    [crates/matching-engine/src/problem.rs].  Fixed-size byte arrays are byte
    lists; the human-readable [details] of a violation are left out. *)
From S2P Require Import Prelude Types Order Market MmConstraint Account Digest Snapshots Finalize.

(** ** Problem instances *)

Definition MAX_OPERATOR_CREATION_KEY_BYTES : Z := 128.

(** ASCII letters and digits, and the five accepted punctuation bytes. *)
Definition creation_key_byte (b : Z) : bool :=
  ((48 <=? b) && (b <=? 57)) || ((65 <=? b) && (b <=? 90)) || ((97 <=? b) && (b <=? 122)) ||
  (b =? 45) || (b =? 95) || (b =? 58) || (b =? 46) || (b =? 47).

Definition string_bytes (s : string) : Bytes :=
  (λ c, Z.of_N (Ascii.N_of_ascii c)) <$> String.list_ascii_of_string s.

Definition operator_creation_key_is_valid (key : string) : bool :=
  negb (bool_decide (string_bytes key = [])) &&
  (Z.of_nat (length (string_bytes key)) <=? MAX_OPERATOR_CREATION_KEY_BYTES) &&
  forallb creation_key_byte (string_bytes key).

Record MarketGroup := mkMarketGroup {
  mg_name : string;
  mg_creation_key : option string;
  mg_markets : list MarketId;
}.

Record Problem := mkProblem {
  pb_name : string;
  pb_markets : MarketSet;
  pb_orders : list Order;
  pb_mm_constraints : list MmConstraint;
  pb_market_groups : list MarketGroup;
}.

Inductive ProblemError :=
  | DuplicateOrderIdError (id : Z)
  | UnknownOrderMarket (id : Z) (m : MarketId)
  | UnknownMmOrder (mm id : Z)
  | InvalidGroupKey (group : string)
  | DuplicateGroupKey (key : string)
  | UnknownGroupMarket (group : string) (m : MarketId).

(** Inserting each element into a fresh set, collecting what [dup] says about
    those already in it. *)
Fixpoint collect_dups {A B} `{Countable B} {V} (key : A → B) (dup : A → V) (seen : gset B) (l : list A) : list V :=
  match l with
  | [] => []
  | x :: l => (if decide (key x ∈ seen) then [dup x] else []) ++ collect_dups key dup ({[key x]} ∪ seen) l
  end.

(** The loop over the market groups, with the creation keys seen so far. *)
Fixpoint group_errors (markets : MarketSet) (seen : gset string) (l : list MarketGroup) : list ProblemError :=
  match l with
  | [] => []
  | g :: l =>
      let '(key_errors, seen') :=
        match mg_creation_key g with
        | None => ([], seen)
        | Some key =>
            if negb (operator_creation_key_is_valid key) then ([InvalidGroupKey (mg_name g)], seen)
            else if decide (key ∈ seen) then ([DuplicateGroupKey key], seen)
            else ([], {[key]} ∪ seen)
        end in
      key_errors ++
      omap (λ m, match ms_get markets m with None => Some (UnknownGroupMarket (mg_name g) m) | Some _ => None end)
        (mg_markets g) ++
      group_errors markets seen' l
  end.

Definition Problem_validate (p : Problem) : outcome (list ProblemError) () :=
  let order_ids : gset Z := list_to_set (ord_id <$> pb_orders p) in
  let errors :=
    collect_dups ord_id (λ o, DuplicateOrderIdError (ord_id o)) ∅ (pb_orders p) ++
    (o ← pb_orders p;
     omap (λ m, if negb (is_none m) && bool_decide (ms_get (pb_markets p) m = None)
                then Some (UnknownOrderMarket (ord_id o) m) else None)
       (take (num_markets o) (ord_markets o))) ++
    (mm ← pb_mm_constraints p;
     omap (λ id, if decide (id ∈ order_ids) then None else Some (UnknownMmOrder (mm_id mm) id)) (mm_order_ids mm)) ++
    group_errors (pb_markets p) ∅ (pb_market_groups p) in
  match errors with [] => Ok () | _ => Err errors end.

(** ** Authorisations and system events *)

Inductive KeyOpAuth :=
  | RawP256 (signer_pubkey signature : Bytes)
  | WebAuthn (signer_pubkey authenticator_data client_data_json signature : Bytes).

Abbreviation ClientActionAuth := KeyOpAuth (only parsing).

Module Action.
Inductive ClientActionWitness :=
  | Order (account_id : Z) (order : Order.Order) (nonce : Z) (authorization : ClientActionAuth)
  | Cancel (account_id order_id nonce : Z) (authorization : ClientActionAuth)
  | MmBundle (account_id : Z) (bundle_id : Bytes) (revision : Z) (orders : list Order.Order)
      (order_sides : list MmSide) (max_capital : Nanos) (nonce : Z) (authorization : ClientActionAuth)
  | MmBundleReplace (account_id : Z) (bundle_id : Bytes) (expected_revision new_revision : Z)
      (orders : list Order.Order) (order_sides : list MmSide) (max_capital : Nanos) (nonce : Z)
      (authorization : ClientActionAuth)
  | MmBundleCancel (account_id : Z) (bundle_id : Bytes) (expected_revision nonce : Z)
      (authorization : ClientActionAuth).
End Action.

Module Event.
Inductive SystemEventWitness :=
  | CreateAccount (account_id initial_balance : Z) (initial_keys : list KeyRecord)
  | Deposit (account_id amount : Z)
  | L1Deposit (account_id amount deposit_id : Z) (deposit_root sybil_account_key : Bytes)
  | WithdrawalCreated (account_id amount withdrawal_id : Z) (recipient token : Bytes)
      (amount_token_units expiry_height : Z) (nullifier : Bytes)
  | WithdrawalRefunded (account_id withdrawal_id amount : Z) (reason : WithdrawalRefundReason)
  | WithdrawalFinalized (account_id withdrawal_id amount : Z)
  | L1BlockObserved (height : Z)
  | MarketResolved (market_id : MarketId) (payout_nanos : Nanos) (affected_accounts : list Z)
  | OrderCancelled (account_id order_id : Z) (market_ids : list MarketId) (side : OrderDirection)
      (remaining_quantity : Z)
  | MarketGroupExtended (group_id : Z) (market_id : MarketId)
  | KeyRegistered (account_id : Z) (key : KeyRecord) (authorization : KeyOpAuth)
  | KeyRevoked (account_id : Z) (key : KeyRecord) (authorization : KeyOpAuth)
  | DepositQuarantined (amount deposit_id : Z) (deposit_root sybil_account_key : Bytes)
  | QuarantineClaimed (account_id amount : Z) (sybil_account_key : Bytes)
  | ClientActionAuthorized (action : Action.ClientActionWitness).
End Event.

Module Reason.
Inductive RejectionReason :=
  | InsufficientBalance (required available : Z)
  | InsufficientPosition (market : MarketId) (out required available : Z)
  | AccountNotFound
  | CompleteSetFormation
  | AtomicBundle
  | InvalidOrder (why : string)
  | Expired (current_block expires_at_block : Z).
End Reason.

Record WitnessOrder := mkWitnessOrder { wo_order : Order; wo_account_id : Z; wo_is_mm : bool }.

Record WitnessRejection := mkWitnessRejection {
  wr_order : Order;
  wr_account_id : Z;
  wr_reason : Reason.RejectionReason;
}.

(** ** Sidecar state *)

Record L1DepositWitness := mkL1DepositWitness {
  dw_deposit_id : Z;
  dw_chain_id : Z;
  dw_vault_address : Bytes;
  dw_token_address : Bytes;
  dw_sender : Bytes;
  dw_sybil_account_key : Bytes;
  dw_amount_token_units : Z;
  dw_deposit_root : Bytes;
}.

Record DepositAccumulatorWitness := mkDepositAccumulatorWitness {
  da_pre_frontier : list Bytes;
  da_pre_count : Z;
  da_new_deposits : list L1DepositWitness;
}.

Inductive OracleSourceSnapshot := SourceAdmin | SourceDataFeed (id : Z).

Record ResolutionRecordSnapshot := mkResolutionRecordSnapshot {
  rr_payout_nanos : Nanos;
  rr_resolved_by : OracleSourceSnapshot;
  rr_resolved_at_ms : Z;
}.

Inductive MarketStatusSnapshot := StatusActive | StatusResolved (record : ResolutionRecordSnapshot).

Record MarketSnapshot := mkMarketSnapshot {
  msn_market_id : MarketId;
  msn_name : string;
  msn_num_outcomes : Z;
  msn_status : MarketStatusSnapshot;
  msn_metadata_digest : Bytes;
  msn_resolution_template : string;
  msn_last_clearing_prices : list Nanos;
}.

Record MarketGroupSnapshot := mkMarketGroupSnapshot {
  mgs_group_id : Z;
  mgs_name : string;
  mgs_creation_key : option string;
  mgs_markets : list MarketId;
}.

Record WithdrawalSnapshot := mkWithdrawalSnapshot {
  ws_withdrawal_id : Z;
  ws_account_id : Z;
  ws_recipient : Bytes;
  ws_token : Bytes;
  ws_amount_token_units : Z;
  ws_amount_nanos : Z;
  ws_expiry_height : Z;
  ws_nullifier : Bytes;
}.

Record QuarantineEntrySnapshot := mkQuarantineEntrySnapshot { qe_sybil_account_key : Bytes; qe_amount : Z }.

Record BridgeStateSnapshot := mkBridgeStateSnapshot {
  br_deposit_cursor : Z;
  br_deposit_root : Bytes;
  br_observed_l1_height : Z;
  br_next_withdrawal_id : Z;
  br_withdrawals : list WithdrawalSnapshot;
  br_quarantine : list QuarantineEntrySnapshot;
}.

Record StateSidecarSnapshot := mkStateSidecarSnapshot {
  ss_bridge : BridgeStateSnapshot;
  ss_markets : list MarketSnapshot;
  ss_market_groups : list MarketGroupSnapshot;
  ss_resting_orders : list RestingOrderSnapshot;
  ss_account_reservations : list AccountReservationSnapshot;
}.

(** ** The block witness *)

Record WitnessBlockHeader := mkWitnessBlockHeader {
  hd_height : Z;
  hd_parent_hash : Bytes;
  hd_state_root : Bytes;
  hd_events_root : Bytes;
  hd_order_count : Z;
  hd_fill_count : Z;
  hd_timestamp_ms : Z;
}.

Record BlockWitness := mkBlockWitness {
  bw_header : WitnessBlockHeader;
  bw_previous_header : option WitnessBlockHeader;
  bw_genesis_hash : Bytes;
  bw_orders : list WitnessOrder;
  bw_rejections : list WitnessRejection;
  bw_system_events : list Event.SystemEventWitness;
  bw_deposit_accumulator : DepositAccumulatorWitness;
  bw_fills : list Fill;
  bw_clearing_prices : gmap Z (list Nanos);
  bw_total_welfare : Z;
  bw_minting_cost : Z;
  bw_mm_constraints : list MmConstraint;
  bw_market_groups : list MarketGroup;
  bw_pre_state : list AccountSnapshot;
  bw_post_system_state : list AccountSnapshot;
  bw_post_state : list AccountSnapshot;
  bw_account_keys : list (Z * list KeyRecord);
  bw_state_sidecar : StateSidecarSnapshot;
  bw_pre_state_sidecar : StateSidecarSnapshot;
  bw_resolved_markets : list MarketId;
}.

(** ** Violations *)

Module VK.
Inductive ViolationKind :=
  | OrderNotFound | QuantityExceedsMax | PriceExceedsLimit | DuplicateFill | NegativeWelfare
  | WelfareMismatch | MmBudgetExceeded | ZeroQuantityFill
  | UniformClearingPriceViolation | PriceComplementarityViolation | ResolvedMarketViolation
  | DuplicateOrderId | ConditionalActivationViolation
  | NegativeBalance | NegativePosition | SettlementBalanceMismatch | SettlementPositionMismatch
  | SettlementOverflow | FillAccountMismatch | SettlementAccountMismatch | SystemStateMismatch
  | KeyTransitionMismatch | ClientActionMismatch | MintingWithoutClearingPrice
  | StateRootMismatch | EventRootMismatch | ParentHashMismatch | HeightNotConsecutive
  | OrderCountMismatch | FillCountMismatch | GenesisParentHashNonZero
  | InsufficientBalance | InsufficientPosition | IntraBatchDoubleSpend | AcceptedOrderMissingAccount
  | OrderExpiryViolation | InvalidOrder | FalseRejection | IncorrectRejectionReason
  | SidecarReservationMismatch | SidecarRestingOrderMismatch | SidecarWithdrawalMismatch
  | SidecarDepositCursorMismatch | SidecarDepositRootMismatch | SidecarMarketStatusMismatch
  | SidecarMarketGroupMismatch | PreStateRootMismatch.
End VK.

Abbreviation Violation := VK.ViolationKind (only parsing).

#[global] Instance ViolationKind_eq_dec : EqDecision VK.ViolationKind.
Proof. solve_decision. Defined.

Record VerificationStats := mkVerificationStats {
  vs_fills_checked : Z;
  vs_orders_checked : Z;
  vs_mm_constraints_checked : Z;
  vs_computed_welfare : Z;
  vs_reported_welfare : Z;
  vs_minting_cost_nanos : Z;
  vs_accounts_checked : Z;
  vs_market_group_avg_delta : option Z;
}.

Definition VerificationStats_default : VerificationStats := mkVerificationStats 0 0 0 0 0 0 0 None.

Record VerificationResult := mkVerificationResult {
  vr_valid : bool;
  vr_violations : list Violation;
  vr_stats : VerificationStats;
}.

Definition from_violations (l : list Violation) : VerificationResult :=
  mkVerificationResult (bool_decide (l = [])) l VerificationStats_default.

(** Counters add up; welfare and metrics keep the last set value. *)
Definition stats_merge (a b : VerificationStats) : VerificationStats :=
  mkVerificationStats (vs_fills_checked a + vs_fills_checked b) (vs_orders_checked a + vs_orders_checked b)
    (vs_mm_constraints_checked a + vs_mm_constraints_checked b)
    (if vs_computed_welfare b =? 0 then vs_computed_welfare a else vs_computed_welfare b)
    (if vs_reported_welfare b =? 0 then vs_reported_welfare a else vs_reported_welfare b)
    (if vs_minting_cost_nanos b =? 0 then vs_minting_cost_nanos a else vs_minting_cost_nanos b)
    (vs_accounts_checked a + vs_accounts_checked b)
    (match vs_market_group_avg_delta b with None => vs_market_group_avg_delta a | d => d end).

Definition VerificationResult_merge (self other : VerificationResult) : VerificationResult :=
  mkVerificationResult (if vr_valid other then vr_valid self else false)
    (vr_violations self ++ vr_violations other) (stats_merge (vr_stats self) (vr_stats other)).
