(* ===== verification/Sidecar.v ===== *)
(** * Sidecar: the verifier's view of resting orders and reservations

    Models the resting-order part of [crates/sybil-verifier/src/sidecar.rs]: the
    roll-up of reservations from order leaves, its comparison with the committed
    account leaves, and the deterministic transition of each resting order.  The
    verifier recomputes these independently of the sequencer's [OrderBook]; the
    theorems say that a consistent book always passes. *)
From S2P Require Import Prelude Types Order Account Validation OrderBook Snapshots BookInvariant BookOps BookSafety Witness.

(** ** Reservation totals *)

Record ReservationTotals := mkReservationTotals {
  rt_reserved_balance : Z;
  rt_reserved_positions : gmap (Z * Z) Z;
}.

#[global] Instance ReservationTotals_eq_dec : EqDecision ReservationTotals.
Proof. solve_decision. Defined.

Definition ReservationTotals_default : ReservationTotals := mkReservationTotals 0 ∅.

Definition add_balance (t : ReservationTotals) (delta : Z) : outcome unit ReservationTotals :=
  z ← ok_or (chk I64 (rt_reserved_balance t + delta)) ();
  Ok (mkReservationTotals z (rt_reserved_positions t)).

Definition add_position (t : ReservationTotals) (market : MarketId) (out delta : Z)
    : outcome unit ReservationTotals :=
  if delta =? 0 then Ok t else
  q ← ok_or (chk I64 (get0 (rt_reserved_positions t) (market, out) + delta)) ();
  Ok (mkReservationTotals (rt_reserved_balance t)
        (if q =? 0 then delete (market, out) (rt_reserved_positions t)
         else <[(market, out) := q]> (rt_reserved_positions t))).

Definition is_zero (t : ReservationTotals) : bool :=
  (rt_reserved_balance t =? 0) && bool_decide (rt_reserved_positions t = ∅).

(** [by_account.entry(id).or_default()] *)
Definition totals_at (m : gmap Z ReservationTotals) (id : Z) : ReservationTotals :=
  default ReservationTotals_default (m !! id).

Definition add_positions (t : ReservationTotals) (l : list (Z * Z * Z)) : outcome unit ReservationTotals :=
  ofold (λ t '(market, out, qty), add_position t market out qty) t l.

(** The loop body: an order id may appear only once. *)
Definition rollup_step (acc : gmap Z ReservationTotals * gset Z) (resting : RestingOrderSnapshot)
    : outcome unit (gmap Z ReservationTotals * gset Z) :=
  let '(by_account, seen_orders) := acc in
  if decide (ord_id (ros_order resting) ∈ seen_orders) then Err () else
  t ← add_balance (totals_at by_account (ros_account_id resting)) (ros_reserved_balance resting);
  t' ← add_positions t (ros_reserved_positions resting);
  Ok (<[ros_account_id resting := t']> by_account, {[ord_id (ros_order resting)]} ∪ seen_orders).

Definition reservations_from_resting_orders (resting_orders : list RestingOrderSnapshot)
    : outcome unit (gmap Z ReservationTotals) :=
  '(by_account, _) ← ofold rollup_step (∅, ∅) resting_orders;
  Ok (filter (λ e, is_zero e.2 = false) by_account).

Definition leaf_step (by_account : gmap Z ReservationTotals) (reservation : AccountReservationSnapshot)
    : outcome Violation (gmap Z ReservationTotals) :=
  match by_account !! ars_account_id reservation with
  | Some _ => Err VK.SidecarReservationMismatch
  | None =>
      t ← map_err (λ _, VK.SettlementOverflow)
            (add_positions (mkReservationTotals (ars_reserved_balance reservation) ∅) (ars_reserved_positions reservation));
      Ok (if is_zero t then by_account else <[ars_account_id reservation := t]> by_account)
  end.

Definition reservations_from_account_snapshots (reservations : list AccountReservationSnapshot)
    : outcome Violation (gmap Z ReservationTotals) :=
  ofold leaf_step ∅ reservations.

Definition verify_resting_order_reservations {E} (resting_orders : list RestingOrderSnapshot)
    (reservations : list AccountReservationSnapshot) : outcome E (list Violation) :=
  match reservations_from_resting_orders resting_orders with
  | Panic => Panic
  | Err _ => Ok [VK.SettlementOverflow]
  | Ok expected =>
      match reservations_from_account_snapshots reservations with
      | Panic => Panic
      | Err v => Ok [v]
      | Ok claimed => Ok (if decide (expected = claimed) then [] else [VK.SidecarReservationMismatch])
      end
  end.

(** ** Transition of resting orders *)

(** [collect] into a map keyed by id: the last entry wins. *)
Definition keyed {A} (key : A → Z) (l : list A) : gmap Z A := foldl (λ m x, <[key x := x]> m) ∅ l.

Definition keyed_resting_orders (l : list RestingOrderSnapshot) : gmap Z RestingOrderSnapshot * list Violation :=
  (keyed (λ r, ord_id (ros_order r)) l,
   collect_dups (λ r, ord_id (ros_order r)) (λ _, VK.SidecarRestingOrderMismatch) ∅ l).

(** A sum that overflows keeps the previous total and records a violation. *)
Definition fill_qty_step (acc : gmap Z Z * list Violation) (f : Fill) : gmap Z Z * list Violation :=
  let '(out, violations) := acc in
  let entry := get0 out (fill_order_id f) in
  match chk U64 (entry + fill_qty f) with
  | Some qty => (<[fill_order_id f := qty]> out, violations)
  | None => (<[fill_order_id f := entry]> out, violations ++ [VK.SettlementOverflow])
  end.

Definition fill_qty_by_order (fills : list Fill) : gmap Z Z * list Violation :=
  foldl fill_qty_step (∅, []) fills.

Definition resolved_market_events (events : list Event.SystemEventWitness) : gset Z :=
  list_to_set (omap (λ e, match e with Event.MarketResolved m _ _ => Some m | _ => None end) events).

Definition cancelled_orders (events : list Event.SystemEventWitness) : gset Z :=
  list_to_set (omap (λ e, match e with Event.OrderCancelled _ id _ _ _ => Some id | _ => None end) events).

Fixpoint omapM {E A B} (f : A → outcome E B) (l : list A) : outcome E (list B) :=
  match l with
  | [] => Ok []
  | x :: l => y ← f x; k ← omapM f l; Ok (y :: k)
  end.

Definition expected_post_resting {E} (pre : RestingOrderSnapshot) (filled height : Z)
    : outcome E (option RestingOrderSnapshot) :=
  let max_fill := ord_max_fill (ros_order pre) in
  if (max_fill <=? filled) || (ros_expires_at_block pre <=? height) then Ok None else
  if filled =? 0 then Ok (Some pre) else
  remaining ← arith U64 (max_fill - filled);
  c ← ceil_mul_ratio (wrap U64 (ros_reserved_balance pre)) remaining max_fill;
  reserved_positions ← omapM (λ '(market, out, qty),
    q ← ceil_mul_ratio (wrap U64 qty) remaining max_fill; Ok (market, out, wrap I64 q))
    (ros_reserved_positions pre);
  Ok (Some (mkRestingOrderSnapshot (set_max_fill remaining (ros_order pre)) (ros_account_id pre)
    (ros_created_at pre) (ros_expires_at_block pre) (wrap I64 c) reserved_positions)).

Definition order_shape_matches_except_qty (l r : Order) : bool :=
  (ord_id l =? ord_id r) && bool_decide (ord_markets l = ord_markets r) &&
  (ord_num_markets l =? ord_num_markets r) && bool_decide (ord_payoffs l = ord_payoffs r) &&
  (ord_num_states l =? ord_num_states r) && (ord_limit_price l =? ord_limit_price r) &&
  bool_decide (ord_condition l = ord_condition r) &&
  bool_decide (ord_expires_at_block l = ord_expires_at_block r).

Definition orders_equal (l r : Order) : bool :=
  order_shape_matches_except_qty l r && (ord_max_fill l =? ord_max_fill r).

Definition resting_orders_equal (l r : RestingOrderSnapshot) : bool :=
  (ros_account_id l =? ros_account_id r) && (ros_created_at l =? ros_created_at r) &&
  (ros_expires_at_block l =? ros_expires_at_block r) && (ros_reserved_balance l =? ros_reserved_balance r) &&
  bool_decide (ros_reserved_positions l = ros_reserved_positions r) &&
  orders_equal (ros_order l) (ros_order r).

(** The first loop: what became of a pre-existing resting order. *)
Definition check_pre_order {E} (post_orders : gmap Z RestingOrderSnapshot) (fill_qty : gmap Z Z)
    (cancelled resolved : gset Z) (height : Z) (e : Z * RestingOrderSnapshot) : outcome E (list Violation) :=
  let '(order_id, pre) := e in
  let filled := get0 fill_qty order_id in
  match post_orders !! order_id with
  | Some post =>
      expected ← expected_post_resting pre filled height;
      Ok (match expected with
          | Some ex => if resting_orders_equal ex post then [] else [VK.SidecarRestingOrderMismatch]
          | None => [VK.SidecarRestingOrderMismatch]
          end)
  | None =>
      let explained := bool_decide (order_id ∈ cancelled) || (ord_max_fill (ros_order pre) <=? filled) ||
        (ros_expires_at_block pre <=? height) ||
        existsb (λ m, bool_decide (m ∈ resolved)) (active_markets (ros_order pre)) in
      Ok (if explained then [] else [VK.SidecarRestingOrderMismatch])
  end.

(** The second loop: where a new resting order comes from. *)
Definition check_post_order (pre_orders : gmap Z RestingOrderSnapshot) (accepted_orders : gmap Z WitnessOrder)
    (e : Z * RestingOrderSnapshot) : list Violation :=
  let '(order_id, post) := e in
  match pre_orders !! order_id with
  | Some _ => []
  | None =>
      match accepted_orders !! order_id with
      | None => [VK.SidecarRestingOrderMismatch]
      | Some accepted =>
          (if wo_is_mm accepted then [VK.SidecarRestingOrderMismatch] else []) ++
          (if negb (ros_account_id post =? wo_account_id accepted) ||
              negb (order_shape_matches_except_qty (ros_order post) (wo_order accepted))
           then [VK.SidecarRestingOrderMismatch] else [])
      end
  end.

Definition verify_resting_order_transition {E} (w : BlockWitness) : outcome E (list Violation) :=
  match bw_previous_header w with
  | None => Ok []
  | Some _ =>
      let '(pre_orders, v1) := keyed_resting_orders (ss_resting_orders (bw_pre_state_sidecar w)) in
      let '(post_orders, v2) := keyed_resting_orders (ss_resting_orders (bw_state_sidecar w)) in
      let accepted_orders := keyed (λ o, ord_id (wo_order o)) (bw_orders w) in
      let '(fill_qty, v3) := fill_qty_by_order (bw_fills w) in
      v4 ← omapM (check_pre_order post_orders fill_qty (cancelled_orders (bw_system_events w))
                   (resolved_market_events (bw_system_events w)) (hd_height (bw_header w)))
             (sort_by_key (map_to_list pre_orders));
      Ok (v1 ++ v2 ++ v3 ++ concat v4 ++
          (e ← sort_by_key (map_to_list post_orders); check_post_order pre_orders accepted_orders e))
  end.

(** ** Roll-ups compute sums *)

(** No zero entries are stored. *)
Definition nonzero {K} `{Countable K} (p : gmap K Z) : Prop := ∀ k q, p !! k = Some q → q ≠ 0.

Lemma nonzero_ext `{Countable K} (p1 p2 : gmap K Z) :
  nonzero p1 → nonzero p2 → (∀ k, get0 p1 k = get0 p2 k) → p1 = p2.
Proof.
  intros H1 H2 Heq. apply map_eq. intros k. specialize (Heq k). unfold get0 in Heq.
  destruct (p1 !! k) eqn:E1, (p2 !! k) eqn:E2; simpl in Heq; subst; try done; exfalso; [by apply (H1 k 0)|by apply (H2 k 0)].
Qed.

Lemma add_position_ok t m o d :
  int_min I64 ≤ get0 (rt_reserved_positions t) (m, o) + d ≤ int_max I64 → nonzero (rt_reserved_positions t) →
  ∃ t', add_position t m o d = Ok t' ∧ rt_reserved_balance t' = rt_reserved_balance t ∧ nonzero (rt_reserved_positions t') ∧
    ∀ k, get0 (rt_reserved_positions t') k = get0 (rt_reserved_positions t) k + if decide ((m, o) = k) then d else 0.
Proof.
  intros Hr Hnz. unfold add_position. destruct (Z.eqb_spec d 0) as [->|Hd].
  { exists t. split_and!; [done..|]. intros k. case_decide; lia. }
  rewrite chk_in by done. cbn [ok_or mbind outcome_bind]. eexists. split; [done|]. cbn [rt_reserved_balance rt_reserved_positions].
  split; [done|]. destruct (Z.eqb_spec (get0 (rt_reserved_positions t) (m, o) + d) 0) as [Hz|Hz]; split.
  - intros k q [_ Hk]%lookup_delete_Some. by eapply Hnz.
  - intros k. rewrite get0_delete. case_decide; subst; lia.
  - intros k q [[<- <-]|[_ Hk]]%lookup_insert_Some; [done|by eapply Hnz].
  - intros k. rewrite get0_insert. case_decide; subst; lia.
Qed.

Lemma add_positions_ok l t :
  nonzero (rt_reserved_positions t) → Forall (λ '(_, q), 0 ≤ q) l →
  (∀ k, 0 ≤ get0 (rt_reserved_positions t) k ∧ get0 (rt_reserved_positions t) k + key_sum k l ≤ int_max I64) →
  ∃ t', add_positions t l = Ok t' ∧ rt_reserved_balance t' = rt_reserved_balance t ∧ nonzero (rt_reserved_positions t') ∧
    ∀ k, get0 (rt_reserved_positions t') k = get0 (rt_reserved_positions t) k + key_sum k l.
Proof.
  revert t. induction l as [|[[m o] q] l IH]; intros t Hnz Hl Hk.
  { exists t. split_and!; [done..|]. intros k. unfold key_sum. simpl. lia. }
  apply Forall_cons in Hl as [Hq Hl]. unfold key_sum in Hk. cbn [sumZ] in Hk. fold key_sum in Hk.
  assert (∀ k, 0 ≤ key_sum k l) as Hnn by (intros k; by apply key_sum_nonneg).
  destruct (add_position_ok t m o q) as (t1 & Ht1 & Hb1 & Hnz1 & Hk1).
  { destruct (Hk (m, o)) as [H1 H2]. rewrite decide_True in H2 by done. pose proof (Hnn (m, o)). unfold key_sum in *. int_lia. }
  { done. }
  destruct (IH t1 Hnz1 Hl) as (t' & Ht' & Hb' & Hnz' & Hk').
  { intros k. destruct (Hk k) as [H1 H2]. rewrite Hk1. unfold key_sum in *. case_decide; lia. }
  exists t'. unfold add_positions. cbn [ofold]. rewrite Ht1. cbn [mbind outcome_bind].
  split; [done|]. split; [congruence|]. split; [done|]. intros k. rewrite Hk', Hk1. unfold key_sum. cbn [sumZ]. lia.
Qed.

(** What one order leaf contributes. *)
Definition leaf_bal (a : Z) (s : RestingOrderSnapshot) : Z :=
  if decide (ros_account_id s = a) then ros_reserved_balance s else 0.
Definition leaf_pos (k : Z * (Z * Z)) (s : RestingOrderSnapshot) : Z :=
  if decide (ros_account_id s = k.1) then key_sum k.2 (ros_reserved_positions s) else 0.

(** The map holds exactly the totals [B] and [P]. *)
Record rolled (m : gmap Z ReservationTotals) (B : Z → Z) (P : Z * (Z * Z) → Z) : Prop := {
  rl_bal a : rt_reserved_balance (totals_at m a) = B a;
  rl_pos a k : get0 (rt_reserved_positions (totals_at m a)) k = P (a, k);
  rl_nonzero a : nonzero (rt_reserved_positions (totals_at m a));
}.

Lemma totals_at_insert m a t a' : totals_at (<[a := t]> m) a' = if decide (a = a') then t else totals_at m a'.
Proof. unfold totals_at. rewrite lookup_insert. by case_decide. Qed.

(** Canonical maps with the same totals are equal. *)
Lemma rolled_eq m1 m2 B P :
  rolled m1 B P → rolled m2 B P →
  (∀ a t, m1 !! a = Some t → is_zero t = false) → (∀ a t, m2 !! a = Some t → is_zero t = false) → m1 = m2.
Proof.
  intros [B1 P1 N1] [B2 P2 N2] Z1 Z2. assert (∀ a, totals_at m1 a = totals_at m2 a) as Heq.
  { intros a. specialize (B1 a). specialize (B2 a).
    assert (rt_reserved_positions (totals_at m1 a) = rt_reserved_positions (totals_at m2 a)) as Hp.
    { apply nonzero_ext; [done..|]. intros k. by rewrite P1, P2. }
    destruct (totals_at m1 a), (totals_at m2 a); simpl in *; congruence. }
  apply map_eq. intros a. specialize (Heq a). unfold totals_at in Heq.
  destruct (m1 !! a) as [t1|] eqn:E1, (m2 !! a) as [t2|] eqn:E2; simpl in Heq; subst; try done; exfalso.
  - apply Z1 in E1. done.
  - apply Z2 in E2. done.
Qed.

Lemma rolled_filter m B P : rolled m B P → rolled (filter (λ e, is_zero e.2 = false) m) B P.
Proof.
  assert (∀ a, totals_at (filter (λ e, is_zero e.2 = false) m) a = totals_at m a) as Heq.
  { intros a. unfold totals_at. rewrite map_lookup_filter. destruct (m !! a) as [t|]; simpl; [|done].
    case_guard as Hz; simpl in *; [done|]. apply not_false_iff_true in Hz.
    unfold is_zero in Hz. apply andb_true_iff in Hz as [Hb Hp].
    apply Z.eqb_eq in Hb. apply bool_decide_eq_true in Hp. destruct t; simpl in *. by subst. }
  intros [HB HP HN]. constructor; intros; rewrite Heq; auto.
Qed.

Definition leaf_nonneg (s : RestingOrderSnapshot) : Prop :=
  0 ≤ ros_reserved_balance s ∧ Forall (λ '(_, q), 0 ≤ q) (ros_reserved_positions s).

Lemma rollup_ok L m seen B P :
  rolled m B P → NoDup ((λ s, ord_id (ros_order s)) <$> L) → (∀ s, s ∈ L → ord_id (ros_order s) ∉ seen) →
  Forall leaf_nonneg L → (∀ a, 0 ≤ B a) → (∀ k, 0 ≤ P k) →
  (∀ a, B a + sumZ (leaf_bal a) L ≤ int_max I64) → (∀ k, P k + sumZ (leaf_pos k) L ≤ int_max I64) →
  ∃ m' seen', ofold rollup_step (m, seen) L = Ok (m', seen') ∧
    rolled m' (λ a, B a + sumZ (leaf_bal a) L) (λ k, P k + sumZ (leaf_pos k) L).
Proof.
  revert m seen B P. induction L as [|s L IH]; intros m seen B P Hm Hnd Hseen Hnn HB HP HBL HPL.
  { exists m, seen. split; [done|]. destruct Hm. constructor; intros; simpl; rewrite ?Z.add_0_r; auto. }
  apply NoDup_cons in Hnd as [Hni Hnd]. apply Forall_cons in Hnn as [[Hb0 Hp0] Hnn].
  cbn [sumZ] in HBL, HPL. set (a0 := ros_account_id s).
  assert (∀ a, 0 ≤ sumZ (leaf_bal a) L) as HbL.
  { intros a. apply sumZ_nonneg. intros s' Hs'. rewrite Forall_forall in Hnn. destruct (Hnn s' Hs'). unfold leaf_bal. case_decide; lia. }
  assert (∀ k, 0 ≤ sumZ (leaf_pos k) L) as HpL.
  { intros k. apply sumZ_nonneg. intros s' Hs'. rewrite Forall_forall in Hnn. destruct (Hnn s' Hs').
    unfold leaf_pos. case_decide; [by apply key_sum_nonneg|lia]. }
  assert (leaf_bal a0 s = ros_reserved_balance s) as Hlb by (unfold leaf_bal; by rewrite decide_True).
  assert (∀ k, leaf_pos (a0, k) s = key_sum k (ros_reserved_positions s)) as Hlp
    by (intros k; unfold leaf_pos; simpl; by rewrite decide_True).
  destruct (add_positions_ok (ros_reserved_positions s)
    (mkReservationTotals (B a0 + ros_reserved_balance s) (rt_reserved_positions (totals_at m a0)))) as (t' & Ht' & Hb' & Hnz' & Hk').
  { apply (rl_nonzero _ _ _ Hm). }
  { done. }
  { intros k. cbn [rt_reserved_positions]. rewrite (rl_pos _ _ _ Hm). pose proof (HPL (a0, k)). rewrite Hlp in *.
    pose proof (HpL (a0, k)). pose proof (HP (a0, k)). lia. }
  destruct (IH (<[a0 := t']> m) ({[ord_id (ros_order s)]} ∪ seen) (λ a, B a + leaf_bal a s) (λ k, P k + leaf_pos k s))
    as (m' & seen' & Hf & Hr).
  - constructor.
    + intros a. rewrite totals_at_insert. case_decide as Ha; [subst a; rewrite Hb', Hlb; done|].
      rewrite (rl_bal _ _ _ Hm). unfold leaf_bal. rewrite decide_False by done. lia.
    + intros a k. rewrite totals_at_insert. case_decide as Ha.
      * subst a. rewrite Hk', Hlp. cbn [rt_reserved_positions]. by rewrite (rl_pos _ _ _ Hm).
      * rewrite (rl_pos _ _ _ Hm). unfold leaf_pos. simpl. rewrite decide_False by done. lia.
    + intros a. rewrite totals_at_insert. case_decide; [done|apply (rl_nonzero _ _ _ Hm)].
  - done.
  - intros s' Hs'. rewrite elem_of_union, elem_of_singleton. intros [Heq|Hin]; [|by apply (Hseen s'); [right|]].
    apply Hni. apply list_elem_of_fmap. eauto.
  - done.
  - intros a. pose proof (HB a). unfold leaf_bal. case_decide; lia.
  - intros k. pose proof (HP k). unfold leaf_pos. case_decide; [|lia]. pose proof (key_sum_nonneg k.2 _ Hp0). lia.
  - intros a. specialize (HBL a). lia.
  - intros k. specialize (HPL k). lia.
  - exists m', seen'. cbn [ofold]. unfold rollup_step at 2. rewrite decide_False by (apply Hseen; left).
    unfold add_balance. fold a0. rewrite (rl_bal _ _ _ Hm), chk_in by (specialize (HBL a0); specialize (HB a0); specialize (HbL a0); int_lia).
    cbn [ok_or mbind outcome_bind]. rewrite Ht'. cbn [mbind outcome_bind]. split; [done|].
    destruct Hr. constructor; intros; cbn [sumZ]; rewrite ?Z.add_assoc; auto.
Qed.

(** ** The account leaves of the sequencer *)

Definition acct_bal (a : Z) (e : AccountReservationSnapshot) : Z :=
  if decide (ars_account_id e = a) then ars_reserved_balance e else 0.
Definition acct_pos (k : Z * (Z * Z)) (e : AccountReservationSnapshot) : Z :=
  if decide (ars_account_id e = k.1) then key_sum k.2 (ars_reserved_positions e) else 0.

Definition acct_leaf_ok (e : AccountReservationSnapshot) : Prop :=
  Forall (λ '(_, q), 0 < q) (ars_reserved_positions e) ∧ 0 ≤ ars_reserved_balance e ∧
  (∀ k, key_sum k (ars_reserved_positions e) ≤ int_max I64) ∧
  (ars_reserved_balance e ≠ 0 ∨ ars_reserved_positions e ≠ []).

Lemma leaf_totals e :
  acct_leaf_ok e → ∃ t, add_positions (mkReservationTotals (ars_reserved_balance e) ∅) (ars_reserved_positions e) = Ok t ∧
    rt_reserved_balance t = ars_reserved_balance e ∧ nonzero (rt_reserved_positions t) ∧ is_zero t = false ∧
    ∀ k, get0 (rt_reserved_positions t) k = key_sum k (ars_reserved_positions e).
Proof.
  intros (Hq & Hb & Hk & Hne).
  destruct (add_positions_ok (ars_reserved_positions e) (mkReservationTotals (ars_reserved_balance e) ∅)) as (t & Ht & Hbt & Hnz & Hkt).
  - intros k q. cbn. by rewrite lookup_empty.
  - eapply Forall_impl; [exact Hq|]. intros [k q]. lia.
  - intros k. cbn [rt_reserved_positions]. rewrite get0_empty. specialize (Hk k). lia.
  - assert (∀ k, get0 (rt_reserved_positions t) k = key_sum k (ars_reserved_positions e)) as Hget
      by (intros k; rewrite Hkt; cbn [rt_reserved_positions]; rewrite get0_empty; lia).
    exists t. split_and!; [done..| |done]. unfold is_zero. rewrite Hbt. cbn [rt_reserved_balance].
    destruct (Z.eqb_spec (ars_reserved_balance e) 0) as [Hz|]; [|done]. destruct Hne as [|Hne]; [done|].
    apply bool_decide_eq_false. intros Hemp. destruct (ars_reserved_positions e) as [|[k q] l] eqn:El; [done|].
    specialize (Hget k). rewrite Hemp, get0_empty in Hget. apply Forall_cons in Hq as [Hq Hl].
    assert (0 ≤ key_sum k l) by (apply key_sum_nonneg; eapply Forall_impl; [exact Hl|]; intros [? ?]; lia).
    unfold key_sum in *. cbn [sumZ] in Hget. rewrite decide_True in Hget by done. lia.
Qed.

Lemma leaves_ok l m B P :
  rolled m B P → (∀ a t, m !! a = Some t → is_zero t = false) →
  NoDup (ars_account_id <$> l) → (∀ e, e ∈ l → m !! ars_account_id e = None) → Forall acct_leaf_ok l →
  ∃ m', ofold leaf_step m l = Ok m' ∧ (∀ a t, m' !! a = Some t → is_zero t = false) ∧
    rolled m' (λ a, B a + sumZ (acct_bal a) l) (λ k, P k + sumZ (acct_pos k) l).
Proof.
  revert m B P. induction l as [|e l IH]; intros m B P Hm Hz Hnd Hfresh Hok.
  { exists m. split_and!; [done..|]. destruct Hm. constructor; intros; simpl; rewrite ?Z.add_0_r; auto. }
  apply NoDup_cons in Hnd as [Hni Hnd]. apply Forall_cons in Hok as [He Hok].
  destruct (leaf_totals e He) as (t & Ht & Hbt & Hnz & Hzt & Hkt).
  assert (m !! ars_account_id e = None) as Hnone by (apply Hfresh; left).
  assert (totals_at m (ars_account_id e) = ReservationTotals_default) as Hd by (unfold totals_at; by rewrite Hnone).
  destruct (IH (<[ars_account_id e := t]> m) (λ a, B a + acct_bal a e) (λ k, P k + acct_pos k e)) as (m' & Hf & Hz' & Hr).
  - constructor.
    + intros a. rewrite totals_at_insert. unfold acct_bal. case_decide as Ha.
      * subst a. rewrite <- (rl_bal _ _ _ Hm), Hd, Hbt. simpl. lia.
      * rewrite (rl_bal _ _ _ Hm). lia.
    + intros a k. rewrite totals_at_insert. unfold acct_pos. simpl. case_decide as Ha.
      * subst a. rewrite <- (rl_pos _ _ _ Hm), Hd, Hkt. simpl. rewrite get0_empty. lia.
      * rewrite (rl_pos _ _ _ Hm). lia.
    + intros a. rewrite totals_at_insert. case_decide; [done|apply (rl_nonzero _ _ _ Hm)].
  - intros a t' [[<- <-]|[_ Ha]]%lookup_insert_Some; [done|by eapply Hz].
  - done.
  - intros e' He'. rewrite lookup_insert_None. split; [by apply Hfresh; right|].
    intros Heq. apply Hni. apply list_elem_of_fmap. eauto.
  - done.
  - exists m'. cbn [ofold]. unfold leaf_step at 2. rewrite Hnone, Ht. cbn [map_err mbind outcome_bind]. rewrite Hzt.
    split; [done|]. split; [done|]. destruct Hr. constructor; intros; cbn [sumZ]; rewrite ?Z.add_assoc; auto.
Qed.

(** Invariant of the two loops that build the leaves: balances [B] and position
    lists [L], with no empty leaf. *)
Definition leaves_inv (m : gmap Z AccountReservationSnapshot) (B : Z → Z) (L : Z → list (Z * Z * Z)) : Prop :=
  ∀ a, snapshot_entry m a = mkAccountReservationSnapshot a (B a) (L a) ∧
    (is_Some (m !! a) → B a ≠ 0 ∨ L a ≠ []).

Lemma snapshot_entry_insert m a e a' :
  snapshot_entry (<[a := e]> m) a' = if decide (a = a') then e else snapshot_entry m a'.
Proof. unfold snapshot_entry. rewrite lookup_insert. by case_decide. Qed.

Lemma balance_loop_ok {E} lb m B L :
  leaves_inv m B L → (∀ a, 0 ≤ B a) → Forall (λ e, 0 ≤ e.2) lb →
  (∀ a, B a + sumZ (λ e, if decide (e.1 = a) then e.2 else 0) lb ≤ int_max I64) →
  ∃ m', ofold (@balance_leaf_step E) m lb = Ok m' ∧
    leaves_inv m' (λ a, B a + sumZ (λ e, if decide (e.1 = a) then e.2 else 0) lb) L.
Proof.
  revert m B. induction lb as [|[a0 z] lb IH]; intros m B Hinv HB Hnn Hr.
  { exists m. split; [done|]. intros a. simpl. rewrite Z.add_0_r. apply Hinv. }
  apply Forall_cons in Hnn as [Hz Hnn]. cbn [fst snd] in Hz. cbn [sumZ fst snd] in Hr.
  assert (∀ a, 0 ≤ sumZ (λ e : Z * Z, if decide (e.1 = a) then e.2 else 0) lb) as Hs.
  { intros a. apply sumZ_nonneg. intros e He. rewrite Forall_forall in Hnn. specialize (Hnn e He). case_decide; lia. }
  cbn [ofold balance_leaf_step]. destruct (Z.eqb_spec z 0) as [->|Hz0].
  - destruct (IH m B Hinv HB Hnn) as (m' & Hf & Hm').
    { intros a. specialize (Hr a). case_decide; lia. }
    exists m'. split; [done|]. intros a. destruct (Hm' a) as [H1 H2]. cbn [sumZ fst snd].
    replace (B a + _) with (B a + sumZ (λ e : Z * Z, if decide (e.1 = a) then e.2 else 0) lb) by (case_decide; lia). done.
  - destruct (Hinv a0) as [He0 _]. rewrite He0. cbn [ars_reserved_balance ars_account_id ars_reserved_positions].
    rewrite arith_in by (specialize (Hr a0); rewrite decide_True in Hr by done; specialize (Hs a0); specialize (HB a0); int_lia).
    cbn [mbind outcome_bind].
    destruct (IH (<[a0 := mkAccountReservationSnapshot a0 (B a0 + z) (L a0)]> m) (λ a, B a + if decide (a0 = a) then z else 0))
      as (m' & Hf & Hm').
    + intros a. rewrite snapshot_entry_insert, lookup_insert. destruct (Hinv a) as [H1 H2].
      case_decide as Ha; [subst a; split; [done|]; left; specialize (HB a0); lia|]. rewrite Z.add_0_r. done.
    + intros a. specialize (HB a). case_decide; lia.
    + done.
    + intros a. specialize (Hr a). lia.
    + exists m'. split; [done|]. intros a. destruct (Hm' a) as [H1 H2]. cbn [sumZ fst snd]. rewrite Z.add_assoc. done.
Qed.

(** The position entries of an account, in iteration order. *)
Definition entries_of (a : Z) (lp : list (Z * (Z * Z) * Z)) : list (Z * Z * Z) :=
  omap (λ '((a', k), q), if decide (a' = a ∧ q ≠ 0) then Some (k, q) else None) lp.

Lemma position_leaf_loop_ok {E} lp m B L :
  leaves_inv m B L →
  ∃ m', ofold (@position_leaf_step E) m lp = Ok m' ∧
    leaves_inv m' B (λ a, L a ++ entries_of a lp).
Proof.
  revert m L. induction lp as [|[[a0 [mk o]] q] lp IH]; intros m L Hinv.
  { exists m. split; [done|]. intros a. simpl. rewrite app_nil_r. apply Hinv. }
  cbn [ofold position_leaf_step]. destruct (Z.eqb_spec q 0) as [->|Hq].
  - destruct (IH m L Hinv) as (m' & Hf & Hm'). exists m'. split; [done|]. intros a. destruct (Hm' a).
    unfold entries_of. cbn [omap list_omap]. rewrite decide_False by tauto. done.
  - destruct (Hinv a0) as [He0 _]. rewrite He0. cbn [ars_reserved_balance ars_account_id ars_reserved_positions mbind outcome_bind].
    destruct (IH (<[a0 := mkAccountReservationSnapshot a0 (B a0) (L a0 ++ [(mk, o, q)])]> m)
      (λ a, L a ++ if decide (a0 = a) then [(mk, o, q)] else [])) as (m' & Hf & Hm').
    + intros a. rewrite snapshot_entry_insert, lookup_insert. destruct (Hinv a) as [H1 H2].
      case_decide as Ha; [subst a; split; [done|]; right; by destruct (L a0)|]. rewrite app_nil_r. done.
    + exists m'. split; [done|]. intros a. destruct (Hm' a) as [H1 H2]. rewrite <- (assoc_L (++)) in H1, H2.
      assert (entries_of a (((a0, (mk, o)), q) :: lp) = (if decide (a0 = a) then [(mk, o, q)] else []) ++ entries_of a lp) as ->; [|done].
      unfold entries_of. cbn [omap list_omap]. destruct (decide (a0 = a)); [rewrite decide_True by done|rewrite decide_False by tauto]; done.
Qed.

Lemma sort_positions_perm l : sort_positions l ≡ₚ l.
Proof. apply stable_sort_Permutation. Qed.

Lemma key_sum_perm k l l' : l ≡ₚ l' → key_sum k l = key_sum k l'.
Proof. intros H. by apply sumZ_perm. Qed.

Lemma key_sum_entries a k lp :
  key_sum k (entries_of a lp) = sumZ (λ e, if decide (e.1 = (a, k)) then e.2 else 0) lp.
Proof.
  unfold entries_of, key_sum. induction lp as [|[[a' k'] q] lp IH]; [done|]. cbn [omap list_omap sumZ fst snd].
  destruct (decide (a' = a ∧ q ≠ 0)) as [[-> Hq]|Hn]; cbn [sumZ]; rewrite IH.
  - f_equal. destruct (decide (k' = k)), (decide ((a, k') = (a, k))); naive_solver.
  - destruct (decide ((a', k') = (a, k))); [|lia]. simplify_eq. assert (q = 0) by (destruct (decide (q = 0)); tauto). lia.
Qed.

Lemma entries_of_pos a lp : Forall (λ e, 0 ≤ e.2) lp → Forall (λ '(_, q), 0 < q) (entries_of a lp).
Proof.
  intros Hl. apply (Forall_omap_keep (λ e, 0 ≤ e.2)); [|done]. intros [[a' k'] q] [k2 q2] Hq Hs.
  simpl in Hq. case_decide; simplify_eq. lia.
Qed.

Lemma sorted_leaf_ok a z l :
  Forall (λ '(_, q), 0 < q) l → 0 ≤ z → (∀ k, key_sum k l ≤ int_max I64) → z ≠ 0 ∨ l ≠ [] →
  acct_leaf_ok (sorted_leaf (mkAccountReservationSnapshot a z l)).
Proof.
  intros Hl Hz Hk Hne. unfold acct_leaf_ok, sorted_leaf.
  cbn [ars_account_id ars_reserved_positions ars_reserved_balance]. split_and!; [|done| |].
  - by rewrite sort_positions_perm.
  - intros k. by rewrite (key_sum_perm k _ _ (sort_positions_perm l)).
  - destruct Hne as [|Hne]; [by left|right]. intros Heq. apply Hne, Permutation_nil. by rewrite <- Heq, sort_positions_perm.
Qed.

Lemma leaves_select m B L (f : AccountReservationSnapshot → Z) a :
  leaves_inv m B L → f (mkAccountReservationSnapshot a 0 []) = 0 →
  sumZ (λ e, if decide (ars_account_id e.2 = a) then f e.2 else 0) (map_to_list m) = f (mkAccountReservationSnapshot a (B a) (L a)).
Proof.
  intros Hinv Hf. rewrite (sumZ_ext _ (λ e, if decide (e.1 = a) then f e.2 else 0)).
  - rewrite (msum_select f m a). destruct (Hinv a) as [He _]. rewrite <- He. unfold snapshot_entry.
    destruct (m !! a); simpl; [done|]. done.
  - intros [a' e] Hin%elem_of_map_to_list. destruct (Hinv a') as [He _]. unfold snapshot_entry in He. rewrite Hin in He.
    simpl in He. subst e. done.
Qed.

Lemma aggregates_leaves {E : Type} (bal : gmap Z Z) (pos : gmap (Z * (Z * Z)) Z) :
  (∀ a z, bal !! a = Some z → 0 ≤ z ≤ int_max I64) → (∀ k z, pos !! k = Some z → 0 ≤ z ≤ int_max I64) →
  ∃ l, reservation_snapshots_from_aggregates (E := E) (map_to_list bal) (map_to_list pos) = Ok l ∧
    NoDup (ars_account_id <$> l) ∧ Forall acct_leaf_ok l ∧
    (∀ a, sumZ (acct_bal a) l = get0 bal a) ∧ (∀ k, sumZ (acct_pos k) l = get0 pos k).
Proof.
  intros Hb Hp. unfold reservation_snapshots_from_aggregates.
  assert (∀ a, sumZ (λ e, if decide (e.1 = a) then e.2 else 0) (map_to_list bal) = get0 bal a) as Hbs
    by (intros a; apply (msum_select (λ z, z))).
  assert (∀ k, sumZ (λ e, if decide (e.1 = k) then e.2 else 0) (map_to_list pos) = get0 pos k) as Hps
    by (intros k; apply (msum_select (λ z, z))).
  assert (∀ a, 0 ≤ get0 bal a ≤ int_max I64) as Hbr.
  { intros a. unfold get0. destruct (bal !! a) eqn:Ha; simpl; [by eapply Hb|int_lia]. }
  assert (∀ k, 0 ≤ get0 pos k ≤ int_max I64) as Hpr.
  { intros k. unfold get0. destruct (pos !! k) eqn:Hk; simpl; [by eapply Hp|int_lia]. }
  assert (Forall (λ e, 0 ≤ e.2) (map_to_list pos)) as Hpnn.
  { apply Forall_forall. intros [k z] Hin%elem_of_map_to_list. simpl. apply Hp in Hin. lia. }
  destruct (balance_loop_ok (E := E) (map_to_list bal) ∅ (λ _, 0) (λ _, [])) as (m1 & -> & H1).
  { intros a. unfold snapshot_entry. rewrite lookup_empty. split; [done|]. by intros [? ?]. }
  { done. }
  { apply Forall_forall. intros [a z] Hin%elem_of_map_to_list. simpl. apply Hb in Hin. lia. }
  { intros a. rewrite Hbs. specialize (Hbr a). lia. }
  cbn [mbind outcome_bind]. destruct (position_leaf_loop_ok (E := E) (map_to_list pos) m1 _ _ H1) as (m2 & -> & H2).
  cbn [mbind outcome_bind app] in *. eexists. split; [reflexivity|].
  assert (∀ a e, m2 !! a = Some e → e = mkAccountReservationSnapshot a (get0 bal a) (entries_of a (map_to_list pos)) ∧
    (get0 bal a ≠ 0 ∨ entries_of a (map_to_list pos) ≠ [])) as Hm2.
  { intros a e Ha. destruct (H2 a) as [He Hne]. unfold snapshot_entry in He. rewrite Ha in He, Hne. simpl in He. rewrite Hbs in *.
    split; [done|]. apply Hne. eauto. }
  assert (sorted_leaf <$> (sort_by_key (map_to_list m2)).*2 ≡ₚ sorted_leaf <$> (map_to_list m2).*2) as Hperm
    by (by rewrite sort_by_key_perm).
  assert (∀ f, sumZ f (sorted_leaf <$> (sort_by_key (map_to_list m2)).*2) = sumZ (λ e, f (sorted_leaf e.2)) (map_to_list m2)) as Hsum.
  { intros f. rewrite (sumZ_perm _ _ _ Hperm), !sumZ_fmap. done. }
  split; [|split; [|split]].
  - rewrite Hperm, <- !list_fmap_compose. erewrite list_fmap_ext; [apply (NoDup_fst_map_to_list m2)|].
    intros i [a e] Hi%list_elem_of_lookup_2%elem_of_map_to_list. by apply Hm2 in Hi as [-> _].
  - rewrite Hperm. apply Forall_fmap, Forall_fmap, Forall_forall. intros [a e] Hin%elem_of_map_to_list.
    apply Hm2 in Hin as [-> Hne]. apply sorted_leaf_ok; [by apply entries_of_pos|apply Hbr| |done].
    intros k. rewrite key_sum_entries, Hps. apply Hpr.
  - intros a. rewrite Hsum. unfold acct_bal, sorted_leaf. cbn [ars_account_id ars_reserved_balance].
    rewrite (leaves_select m2 _ _ ars_reserved_balance a H2) by done. simpl. by rewrite Hbs.
  - intros [a k]. rewrite Hsum. unfold acct_pos, sorted_leaf. cbn [ars_account_id ars_reserved_positions fst snd].
    rewrite (leaves_select m2 _ _ (λ e, key_sum k (sort_positions (ars_reserved_positions e))) a H2) by done. cbn [ars_reserved_positions].
    by rewrite (key_sum_perm k _ _ (sort_positions_perm _)), key_sum_entries, Hps.
Qed.

Lemma rolled_empty : rolled ∅ (λ _, 0) (λ _, 0).
Proof.
  constructor; intros; unfold totals_at; rewrite lookup_empty; cbn; [done|by rewrite get0_empty|].
  intros k q. by rewrite lookup_empty.
Qed.

(** ** Leaves of a consistent book *)

Abbreviation resting_id ro := (ord_id (ro_order ro)).

Lemma state_root_orders_perm b : state_root_orders b ≡ₚ resting_order_snapshot <$> ob_orders b.
Proof. apply stable_sort_Permutation. Qed.

Lemma leaf_bal_snapshot a ro : leaf_bal a (resting_order_snapshot ro) = bal_of a ro.
Proof. done. Qed.

Lemma leaf_pos_snapshot k ro : leaf_pos k (resting_order_snapshot ro) = pos_of k ro.
Proof.
  unfold leaf_pos, pos_of. cbn [resting_order_snapshot ros_account_id ros_reserved_positions].
  by rewrite (key_sum_perm k.2 _ _ (sort_positions_perm _)).
Qed.

Lemma book_rollup b :
  book_inv b → NoDup ((λ ro, resting_id ro) <$> ob_orders b) →
  ∃ m, reservations_from_resting_orders (state_root_orders b) = Ok m ∧
    rolled m (λ a, sumZ (bal_of a) (ob_orders b)) (λ k, sumZ (pos_of k) (ob_orders b)) ∧
    ∀ a t, m !! a = Some t → is_zero t = false.
Proof.
  intros [Hall Hagg] Hnd. set (L := state_root_orders b).
  assert (∀ a, sumZ (leaf_bal a) L = sumZ (bal_of a) (ob_orders b)) as HB
    by (intros a; unfold L; rewrite (sumZ_perm _ _ _ (state_root_orders_perm b)), sumZ_fmap; done).
  assert (∀ k, sumZ (leaf_pos k) L = sumZ (pos_of k) (ob_orders b)) as HP.
  { intros k. unfold L. rewrite (sumZ_perm _ _ _ (state_root_orders_perm b)), sumZ_fmap.
    apply sumZ_ext. intros ro _. apply leaf_pos_snapshot. }
  destruct (rollup_ok L ∅ ∅ _ _ rolled_empty) as (m & seen & Hf & Hr).
  - unfold L. rewrite state_root_orders_perm, <- list_fmap_compose. exact Hnd.
  - intros s _. apply not_elem_of_empty.
  - unfold L. rewrite state_root_orders_perm. apply Forall_fmap. eapply Forall_impl; [exact Hall|].
    intros ro [Hb Hp]%ro_ok_nonneg. split; [done|]. simpl. by rewrite sort_positions_perm.
  - done.
  - done.
  - intros a. rewrite HB. pose proof (agg_bal_range _ _ _ Hagg a). cbv beta in *. lia.
  - intros k. rewrite HP. pose proof (agg_pos_range _ _ _ Hagg k). cbv beta in *. lia.
  - exists (filter (λ e, is_zero e.2 = false) m). unfold reservations_from_resting_orders. fold L. rewrite Hf.
    split; [done|]. split.
    + apply rolled_filter. destruct Hr as [H1 H2 H3]. constructor; [|intros a k; rewrite <- HP; apply H2|done].
      intros a. rewrite <- HB. apply H1.
    + by intros a t [_ Hz]%map_lookup_filter_Some.
Qed.

Lemma book_leaves {E} b :
  book_inv b → ∃ leaves m, state_root_reservations (E := E) b = Ok leaves ∧
    reservations_from_account_snapshots leaves = Ok m ∧
    rolled m (λ a, sumZ (bal_of a) (ob_orders b)) (λ k, sumZ (pos_of k) (ob_orders b)) ∧
    ∀ a t, m !! a = Some t → is_zero t = false.
Proof.
  intros [Hall Hagg].
  destruct (aggregates_leaves (E := E) (ob_balance_reservations b) (ob_position_reservations b)) as (l & Hl & Hnd & Hok & HB & HP).
  - intros a z Ha. pose proof (agg_bal _ _ _ Hagg a) as Hz. pose proof (agg_bal_range _ _ _ Hagg a).
    unfold get0 in Hz. rewrite Ha in Hz. simpl in Hz. by rewrite Hz.
  - intros k z Hk. pose proof (agg_pos _ _ _ Hagg k) as Hz. pose proof (agg_pos_range _ _ _ Hagg k).
    unfold get0 in Hz. rewrite Hk in Hz. simpl in Hz. by rewrite Hz.
  - destruct (leaves_ok l ∅ _ _ rolled_empty) as (m & Hf & Hz & [H1 H2 H3]).
    + intros a t. by rewrite lookup_empty.
    + done.
    + intros e _. apply lookup_empty.
    + done.
    + exists l, m. split; [done|]. split; [done|]. split; [|done]. constructor; [| |done].
      * intros a. rewrite H1, HB. apply (agg_bal _ _ _ Hagg).
      * intros a k. rewrite H2, HP. apply (agg_pos _ _ _ Hagg).
Qed.

(** ** The transition of one order *)

Lemma expected_post_resting_ok {E} ro filled h :
  ro_ok ro → 0 ≤ filled →
  @expected_post_resting E (resting_order_snapshot ro) filled h =
    Ok (resting_order_snapshot <$> settle_keep {[resting_id ro := filled]} ∅ h ro).
Proof.
  intros (m & d & Hc) Hf. destruct (covered_bounds _ _ _ Hc) as (Hl & Hq & Hrb).
  unfold expected_post_resting, settle_keep. rewrite bool_decide_eq_false_2 by set_solver. cbv zeta.
  assert (get0 {[resting_id ro := filled]} (resting_id ro) = filled) as -> by (unfold get0; by rewrite lookup_singleton_eq).
  cbn [resting_order_snapshot ros_order ros_expires_at_block].
  destruct (Z.leb_spec (ord_max_fill (ro_order ro)) filled); [done|]. cbn [orb].
  destruct (Z.leb_spec (ro_expires_at_block ro) h); [done|]. cbn [orb].
  destruct (Z.eqb_spec filled 0), (Z.ltb_spec 0 filled); try lia; [done|].
  rewrite arith_in by mlia. cbn [mbind outcome_bind ros_reserved_balance resting_order_snapshot].
  destruct (scaled_exact (E := E) (ro_reserved_balance ro) filled (ord_max_fill (ro_order ro))) as (-> & Hw & _); [done|lia|].
  cbn [mbind outcome_bind ros_reserved_positions resting_order_snapshot fmap option_fmap option_map]. rewrite Hw.
  unfold resting_order_snapshot, remainder_of.
  cbn [ro_order ro_account_id ro_created_at ro_expires_at_block ro_reserved_balance ro_reserved_positions ros_account_id ros_created_at ros_expires_at_block].
  rewrite (cov_pos _ _ _ Hc). unfold pos_res. destruct (is_sell d); [|done].
  destruct (scaled_exact (E := E) (ord_max_fill (ro_order ro)) filled (ord_max_fill (ro_order ro))) as (Hs1 & Hs2 & _); [mlia|lia|].
  change (sort_positions [(m, dir_outcome d, ord_max_fill (ro_order ro))]) with [(m, dir_outcome d, ord_max_fill (ro_order ro))].
  cbn [omapM]. rewrite Hs1. cbn [mbind outcome_bind]. by rewrite Hs2.
Qed.

(** ** Keyed collections *)

Lemma foldl_insert_lookup {A K V} `{Countable K} (key : A → K) (val : A → V) L (m : gmap K V) i v :
  NoDup (key <$> L) → (∀ y, y ∈ L → m !! key y = None) →
  foldl (λ m x, <[key x := val x]> m) m L !! i = Some v ↔ (∃ x, x ∈ L ∧ key x = i ∧ val x = v) ∨ m !! i = Some v.
Proof.
  revert m. induction L as [|y L IH]; intros m Hnd Hm; cbn [foldl].
  { split; [by right|]. intros [(x & Hx & _)|]; [by apply not_elem_of_nil in Hx|done]. }
  apply NoDup_cons in Hnd as [Hni Hnd]. rewrite IH; [|done|].
  - rewrite lookup_insert_Some. setoid_rewrite elem_of_cons. split.
    + intros [(x & ? & ? & ?)|[[? ?]|[? ?]]]; subst; eauto 8.
    + intros [(x & [->|?] & ? & ?)|Hi]; eauto 8. right. right. split; [|done]. intros <-. rewrite Hm in Hi by left. done.
  - intros z Hz. rewrite lookup_insert_None. split; [by apply Hm; right|].
    intros Heq. apply Hni. rewrite Heq. by apply list_elem_of_fmap_2.
Qed.

Lemma keyed_lookup {A} (key : A → Z) L i x : NoDup (key <$> L) → keyed key L !! i = Some x ↔ x ∈ L ∧ key x = i.
Proof.
  intros Hnd. unfold keyed. rewrite (foldl_insert_lookup key (λ x, x)); [|done|intros; apply lookup_empty].
  rewrite lookup_empty. naive_solver.
Qed.

Lemma collect_dups_nil {A B V} `{Countable B} (key : A → B) (dup : A → V) seen L :
  NoDup (key <$> L) → (∀ x, x ∈ L → key x ∉ seen) → collect_dups key dup seen L = [].
Proof.
  revert seen. induction L as [|x L IH]; intros seen Hnd Hs; [done|]. apply NoDup_cons in Hnd as [Hni Hnd].
  cbn [collect_dups]. rewrite decide_False by (apply Hs; left). rewrite IH; [done..|].
  intros y Hy. rewrite elem_of_union, elem_of_singleton. intros [Heq|Hin]; [|by apply (Hs y); [right|]].
  apply Hni. rewrite <- Heq. by apply list_elem_of_fmap_2.
Qed.

Lemma omapM_nil {E A V} (f : A → outcome E (list V)) l :
  (∀ x, x ∈ l → f x = Ok []) → ∃ v, omapM f l = Ok v ∧ concat v = [].
Proof.
  induction l as [|x l IH]; intros Hf; [by exists []|]. destruct IH as (v & Hv & Hc); [by intros; apply Hf; right|].
  exists ([] :: v). cbn [omapM]. rewrite Hf by left. cbn [mbind outcome_bind]. by rewrite Hv.
Qed.

(** The verifier's fill totals agree with the sequencer's. *)
Lemma fill_qty_agrees_from {E : Type} fills (fq m m' : gmap Z Z) v :
  (∀ k, get0 m k = get0 m' k) → Forall (λ f, 0 ≤ fill_qty f) fills → (∀ k, 0 ≤ get0 m k ≤ int_max U64) →
  ofold (λ m f, if 0 <? fill_qty f then add0 U64 m (fill_order_id f) (fill_qty f) else @Ok E _ m) m fills = Ok fq →
  ∃ fq', foldl fill_qty_step (m', v) fills = (fq', v) ∧ ∀ k, get0 fq' k = get0 fq k ∧ 0 ≤ get0 fq k.
Proof.
  revert m m'. induction fills as [|f fills IH]; intros m m' Heq Hnn Hr Hf.
  { simplify_eq/=. exists m'. split; [done|]. intros k. rewrite Heq. specialize (Hr k). rewrite Heq in Hr. lia. }
  apply Forall_cons in Hnn as [Hq Hnn]. cbn [ofold foldl fill_qty_step] in *. pose proof (Hr (fill_order_id f)) as Hrf.
  destruct (Z.ltb_spec 0 (fill_qty f)).
  - destruct (add0 U64 m (fill_order_id f) (fill_qty f)) as [m1| |] eqn:Ha; [|done..]. cbn [mbind outcome_bind] in Hf.
    apply add0_Ok in Ha as [Hrange ->]. rewrite <- Heq, chk_in by int_lia.
    apply (IH _ (<[fill_order_id f := get0 m (fill_order_id f) + fill_qty f]> m')) in Hf; [done|..].
    + intros k. rewrite !get0_insert. by case_decide.
    + done.
    + intros k. rewrite get0_insert. case_decide; [int_lia|apply Hr].
  - assert (fill_qty f = 0) as Hz by lia. cbn [mbind outcome_bind] in Hf. rewrite <- Heq, chk_in by int_lia.
    apply (IH m (<[fill_order_id f := get0 m (fill_order_id f) + fill_qty f]> m')) in Hf; [done| |done..].
    intros k. rewrite get0_insert. case_decide; [subst; lia|apply Heq].
Qed.

Lemma fill_qty_agrees {E : Type} fills fq :
  Forall (λ f, 0 ≤ fill_qty f) fills → filled_qty_map (E := E) fills = Ok fq →
  ∃ fq', fill_qty_by_order fills = (fq', []) ∧ ∀ k, get0 fq' k = get0 fq k ∧ 0 ≤ get0 fq k.
Proof.
  intros Hnn Hf. apply (fill_qty_agrees_from fills fq ∅ ∅ []) in Hf; [done|done|done|].
  intros k. rewrite get0_empty. int_lia.
Qed.

(** Equality of leaves is reflexive. *)
Lemma order_shape_refl o q : order_shape_matches_except_qty (set_max_fill q o) o = true.
Proof.
  unfold order_shape_matches_except_qty, set_max_fill. simpl.
  by rewrite !Z.eqb_refl, !bool_decide_eq_true_2.
Qed.

Lemma resting_orders_equal_refl s : resting_orders_equal s s = true.
Proof.
  unfold resting_orders_equal, orders_equal, order_shape_matches_except_qty.
  by rewrite !Z.eqb_refl, !bool_decide_eq_true_2.
Qed.

(** ** The transition of the whole book *)

(** The books a block goes through: the committed book [bk_pre]; the book [bk_live]
    when the block is produced, without the orders their owners cancelled and with
    the orders admitted directly; the book without the expired orders; the book
    after revalidation against the accounts and the tradeable markets; the book
    with the orders the batch accepted; and the settled book. *)
Record block_books := mkBlockBooks {
  bk_pre : OrderBook; bk_live : OrderBook; bk_unexpired : OrderBook; bk_valid : OrderBook; bk_batch : OrderBook; bk_post : OrderBook;
  bk_direct : list RestingOrder;
  bk_accepted : list RestingOrder;
  bk_evicted : list (RestingOrder * RestingRevalidationExit);
  bk_accounts : gmap Z Account;
  bk_active : gset Z;
  bk_mm : gset Z;
}.
Definition bk_news (k : block_books) : list RestingOrder := bk_direct k ++ bk_accepted k.

(** A block's effect on the book.  The witness commits to the book before and after,
    and lists the new orders that are not a market maker's; only orders of the
    batch are filled. *)
Record block_transition (k : block_books) (w : BlockWitness) : Prop := {
  bt_prev : is_Some (bw_previous_header w);
  bt_pre : ss_resting_orders (bw_pre_state_sidecar w) = state_root_orders (bk_pre k);
  bt_post : ss_resting_orders (bw_state_sidecar w) = state_root_orders (bk_post k);
  bt_pre_inv : book_inv (bk_pre k);
  bt_live_inv : book_inv (bk_live k);
  bt_batch_inv : book_inv (bk_batch k);
  bt_live : ob_orders (bk_live k) =
    filter (λ ro, resting_id ro ∉ cancelled_orders (bw_system_events w)) (ob_orders (bk_pre k)) ++ bk_direct k;
  bt_expire : ∃ stale, expire (hd_height (bw_header w)) (bk_live k) = SOk (bk_unexpired k) stale;
  bt_accounts : accounts_ok (bk_unexpired k) (bk_accounts k);
  bt_revalidate : revalidate (bk_accounts k) (bk_active k) (bk_unexpired k) = SOk (bk_valid k) (bk_evicted k);
  bt_batch : ob_orders (bk_batch k) = ob_orders (bk_valid k) ++ bk_accepted k;
  bt_settle : ∃ exits, settle (bw_fills w) (bk_mm k) (hd_height (bw_header w)) (bk_batch k) = SOk (bk_post k) exits;
  bt_fills : Forall (λ f, 0 ≤ fill_qty f) (bw_fills w);
  bt_filled f : f ∈ bw_fills w → fill_order_id f ∈ bk_mm k ∨ ∃ ro, ro ∈ ob_orders (bk_batch k) ∧ resting_id ro = fill_order_id f;
  bt_ids : NoDup ((λ ro, resting_id ro) <$> ob_orders (bk_pre k) ++ bk_news k);
  bt_mm ro : ro ∈ ob_orders (bk_pre k) → resting_id ro ∉ bk_mm k;
  bt_accepted ro : ro ∈ bk_news k → ro ∈ ob_orders (bk_batch k) → resting_id ro ∉ bk_mm k →
    keyed (λ o, ord_id (wo_order o)) (bw_orders w) !! resting_id ro =
      Some (mkWitnessOrder (ro_order ro) (ro_account_id ro) false);
}.
Arguments bt_prev {_ _} _.
Arguments bt_pre {_ _} _.
Arguments bt_post {_ _} _.
Arguments bt_pre_inv {_ _} _.
Arguments bt_live_inv {_ _} _.
Arguments bt_batch_inv {_ _} _.
Arguments bt_live {_ _} _.
Arguments bt_expire {_ _} _.
Arguments bt_accounts {_ _} _.
Arguments bt_revalidate {_ _} _.
Arguments bt_batch {_ _} _.
Arguments bt_settle {_ _} _.
Arguments bt_fills {_ _} _.
Arguments bt_filled {_ _} _ f _.
Arguments bt_ids {_ _} _.
Arguments bt_mm {_ _} _ ro _.
Arguments bt_accepted {_ _} _ ro _ _ _.

(** Revalidation drops a committed order only if it has nothing left to fill, expires
    with this block, or one of its markets resolves in it. *)
Definition evictions_explained (k : block_books) (w : BlockWitness) : Prop :=
  ∀ ro why, (ro, why) ∈ bk_evicted k → ro ∈ ob_orders (bk_pre k) →
    ord_max_fill (ro_order ro) ≤ 0 ∨ ro_expires_at_block ro ≤ hd_height (bw_header w) ∨
    ∃ m, m ∈ active_markets (ro_order ro) ∧ m ∈ resolved_market_events (bw_system_events w).

Lemma settle_keep_id fq mm h ro ro' : settle_keep fq mm h ro = Some ro' →
  resting_id ro' = resting_id ro ∧ ro_account_id ro' = ro_account_id ro ∧
  order_shape_matches_except_qty (ro_order ro') (ro_order ro) = true.
Proof.
  assert (∀ o, order_shape_matches_except_qty o o = true) as Hrefl.
  { intros o. pose proof (order_shape_refl o (ord_max_fill o)) as Hs. by destruct o. }
  unfold settle_keep. case_bool_decide; [done|]. cbv zeta.
  repeat case_match; intros; simplify_eq/=; split_and!; auto using order_shape_refl.
Qed.

(** Only the order's own filled quantity and membership matter. *)
Lemma settle_keep_local fq mm h ro : resting_id ro ∉ mm →
  settle_keep {[resting_id ro := get0 fq (resting_id ro)]} ∅ h ro = settle_keep fq mm h ro.
Proof.
  intros Hmm. unfold settle_keep. rewrite (bool_decide_eq_false_2 (_ ∈ mm)), bool_decide_eq_false_2 by set_solver.
  assert (get0 {[resting_id ro := get0 fq (resting_id ro)]} (resting_id ro) = get0 fq (resting_id ro)) as ->; [|done].
  unfold get0 at 1. by rewrite lookup_singleton_eq.
Qed.

Lemma snapshot_ids_perm b : (λ s, ord_id (ros_order s)) <$> state_root_orders b ≡ₚ (λ ro, resting_id ro) <$> ob_orders b.
Proof. rewrite state_root_orders_perm, <- list_fmap_compose. done. Qed.

Lemma keyed_state_root b i s : NoDup ((λ ro, resting_id ro) <$> ob_orders b) →
  keyed (λ s, ord_id (ros_order s)) (state_root_orders b) !! i = Some s ↔
  ∃ ro, ro ∈ ob_orders b ∧ resting_id ro = i ∧ s = resting_order_snapshot ro.
Proof.
  intros Hnd. rewrite keyed_lookup by (by rewrite snapshot_ids_perm). rewrite state_root_orders_perm, list_elem_of_fmap.
  split; [intros ((ro & -> & Hro) & <-); eauto|intros (ro & Hro & <- & ->); eauto].
Qed.

(** Orders without a fill have no filled quantity. *)
Lemma filled_qty_absent {E} fills (fq : gmap Z Z) i : filled_qty_map (E := E) fills = Ok fq → (∀ f, f ∈ fills → fill_order_id f ≠ i) → get0 fq i = 0.
Proof.
  unfold filled_qty_map. intros H Hi. apply (ofold_inv (λ m l, get0 m i = 0 ∧ ∀ f, f ∈ l → fill_order_id f ≠ i)) in H as [? _]; [done|done|].
  intros m f l m' [Hm Hf] Hs. split; [|intros; apply Hf; by right]. revert Hs. destruct (0 <? fill_qty f); [|by intros [= <-]]. unfold add0. intros (z & _ & [= <-])%obind_Ok.
  unfold get0. rewrite lookup_insert_ne; [done|]. apply Hf. left.
Qed.

(** A loop of checks is silent exactly when each one is. *)
Lemma omapM_exact {E A V} (f : A → outcome E (list V)) (P : A → Prop) l :
  (∀ x, x ∈ l → ∃ vs, f x = Ok vs ∧ (vs = [] ↔ P x)) → ∃ v, omapM f l = Ok v ∧ (concat v = [] ↔ ∀ x, x ∈ l → P x).
Proof.
  induction l as [|x l IH]; intros Hf; [exists []; split; [done|]; split; [by intros _ x ?%not_elem_of_nil|done]|].
  destruct IH as (v & Hv & Hc); [by intros; apply Hf; right|]. destruct (Hf x ltac:(left)) as (vs & Hx & Hvs).
  exists (vs :: v). cbn [omapM]. rewrite Hx. cbn [mbind outcome_bind]. rewrite Hv. split; [done|]. cbn [concat]. split.
  - intros [H1 H2]%app_eq_nil. intros y [->|Hy]%elem_of_cons; [by apply Hvs|by apply Hc].
  - intros H. rewrite (proj2 Hvs), (proj2 Hc); [done|intros; apply H; by right|apply H; left].
Qed.

Section transition.
Context {k : block_books} {w : BlockWitness} (T : block_transition k w).
Notation h := (hd_height (bw_header w)).
Notation cancelled := (cancelled_orders (bw_system_events w)).
Notation b := (bk_pre k).
Notation b' := (bk_post k).
Notation bm := (bk_batch k).
Notation mm := (bk_mm k).
Notation news := (bk_news k).

Lemma transition_settled : ∃ fq, filled_qty_map (E := ReservationError) (bw_fills w) = Ok fq ∧
  ob_orders b' = omap (settle_keep fq mm h) (ob_orders bm).
Proof.
  destruct (bt_settle T) as [exits Hs]. destruct (filled_qty_map (E := ReservationError) (bw_fills w)) as [fq|e|] eqn:Hfq.
  - destruct (settle_ok _ fq mm h bm (bt_batch_inv T) Hfq) as (b1 & Hok & Ho & _). rewrite Hs in Hok. simplify_eq. eauto.
  - by apply filled_qty_map_not_Err in Hfq.
  - unfold settle in Hs. by rewrite Hfq in Hs.
Qed.

Lemma transition_unexpired : ob_orders (bk_unexpired k) = filter (λ ro, (ro_expires_at_block ro <? h) = false) (ob_orders (bk_live k)) ∧ book_inv (bk_unexpired k).
Proof.
  destruct (bt_expire T) as [stale Hs]. destruct (expire_where_ok (λ ro, ro_expires_at_block ro <? h) (bk_live k) (bt_live_inv T)) as (b1 & He & Ho & _ & Hinv).
  unfold expire in Hs. rewrite Hs in He. injection He as <- _. done.
Qed.
Lemma transition_valid : ob_orders (bk_valid k) = filter (λ ro, verdict (bk_unexpired k) (bk_accounts k) (bk_active k) ro = None) (ob_orders (bk_unexpired k)) ∧
  bk_evicted k = reverse (omap (λ ro, (ro,.) <$> verdict (bk_unexpired k) (bk_accounts k) (bk_active k) ro) (ob_orders (bk_unexpired k))).
Proof.
  destruct transition_unexpired as [_ Hinv]. destruct (revalidate_ok _ _ (bk_active k) Hinv (bt_accounts T)) as (b1 & Hr & Ho & _). rewrite (bt_revalidate T) in Hr. by injection Hr as <- ->.
Qed.
Lemma evicted_elem ro why : (ro, why) ∈ bk_evicted k ↔ ro ∈ ob_orders (bk_unexpired k) ∧ verdict (bk_unexpired k) (bk_accounts k) (bk_active k) ro = Some why.
Proof.
  rewrite (proj2 transition_valid), elem_of_reverse, list_elem_of_omap. split.
  - intros (x & Hx & (v & Hv & [= <- <-])%fmap_Some). done.
  - intros [Hx Hv]. exists ro. by rewrite Hv.
Qed.

Lemma transition_pre_ids : NoDup ((λ ro, resting_id ro) <$> ob_orders b).
Proof. pose proof (bt_ids T) as H. rewrite fmap_app in H. by apply NoDup_app in H as [? _]. Qed.

Lemma transition_mid_ids : NoDup ((λ ro, resting_id ro) <$> ob_orders bm).
Proof.
  rewrite (bt_batch T), (proj1 transition_valid), (proj1 transition_unexpired), (bt_live T). eapply sublist_NoDup; [exact (bt_ids T)|]. unfold bk_news.
  apply fmap_sublist. rewrite (assoc_L (++)). apply sublist_app; [|done]. etrans; [apply sublist_filter|]. etrans; [apply sublist_filter|]. apply sublist_app; [apply sublist_filter|done].
Qed.

Lemma omap_ids_sublist fq l : ((λ ro, resting_id ro) <$> omap (settle_keep fq mm h) l) `sublist_of` ((λ ro, resting_id ro) <$> l).
Proof.
  induction l as [|ro l IH]; [done|]. cbn [omap list_omap]. destruct (settle_keep fq mm h ro) as [ro'|] eqn:Hk.
  - rewrite !fmap_cons. apply settle_keep_id in Hk as [-> _]. by apply sublist_skip.
  - rewrite fmap_cons. by apply sublist_cons.
Qed.

Lemma transition_post_ids : NoDup ((λ ro, resting_id ro) <$> ob_orders b').
Proof.
  destruct transition_settled as (fq & _ & ->). eapply sublist_NoDup; [exact transition_mid_ids|]. apply omap_ids_sublist.
Qed.

(** The orders of the block are determined by their id. *)
Lemma transition_unique ro ro2 : ro ∈ ob_orders b ++ news → ro2 ∈ ob_orders b ++ news → resting_id ro = resting_id ro2 → ro = ro2.
Proof.
  intros [i Hi]%list_elem_of_lookup [j Hj]%list_elem_of_lookup Heq. pose proof (bt_ids T) as Hnd.
  rewrite NoDup_alt in Hnd. assert (i = j) as ->; [|congruence].
  apply (Hnd i j (resting_id ro)); rewrite list_lookup_fmap; [by rewrite Hi|rewrite Hj; simpl; by rewrite Heq].
Qed.

Lemma transition_mid_elem ro : ro ∈ ob_orders bm → ro ∈ ob_orders b ∨ ro ∈ news.
Proof.
  unfold bk_news. rewrite (bt_batch T), (proj1 transition_valid), (proj1 transition_unexpired), (bt_live T), !elem_of_app, !list_elem_of_filter, elem_of_app, list_elem_of_filter. tauto.
Qed.
(** A committed order stays in the batch unless it is cancelled, expired or evicted. *)
Lemma transition_carried ro : ro ∈ ob_orders b → resting_id ro ∉ cancelled → h ≤ ro_expires_at_block ro →
  (∀ why, (ro, why) ∉ bk_evicted k) → ro ∈ ob_orders bm.
Proof.
  intros Hro Hc He Hev. rewrite (bt_batch T). apply elem_of_app. left. rewrite (proj1 transition_valid). apply list_elem_of_filter.
  assert (ro ∈ ob_orders (bk_unexpired k)) as Hin.
  { rewrite (proj1 transition_unexpired), (bt_live T). apply list_elem_of_filter. split; [by apply Z.ltb_ge|]. apply elem_of_app. left. by apply list_elem_of_filter. }
  split; [|done]. destruct (verdict _ _ _ ro) as [why|] eqn:Hv; [|done]. exfalso. apply (Hev why). by apply evicted_elem.
Qed.

(** What the layer says of one committed order. *)
Lemma check_pre_exact {E} fq fq' ro :
  filled_qty_map (E := ReservationError) (bw_fills w) = Ok fq →
  (∀ i, get0 fq' i = get0 fq i ∧ 0 ≤ get0 fq i) → ro ∈ ob_orders b →
  ∃ vs, @check_pre_order E (keyed (λ s, ord_id (ros_order s)) (state_root_orders b')) fq' cancelled
    (resolved_market_events (bw_system_events w)) h (resting_id ro, resting_order_snapshot ro) = Ok vs ∧
  (vs = [] ↔ ∀ why, (ro, why) ∈ bk_evicted k → ord_max_fill (ro_order ro) ≤ 0 ∨ ro_expires_at_block ro ≤ h ∨
    ∃ m, m ∈ active_markets (ro_order ro) ∧ m ∈ resolved_market_events (bw_system_events w)).
Proof.
  intros Hfq Hfq' Hro. pose proof (bt_mm T ro Hro) as Hmm. destruct transition_settled as (fq2 & Hfq2 & Hpost).
  rewrite Hfq in Hfq2. simplify_eq. unfold check_pre_order. destruct (Hfq' (resting_id ro)) as [-> Hnn].
  assert (ro_ok ro) as Hok by (pose proof (bi_orders _ (bt_pre_inv T)) as Hf; rewrite Forall_forall in Hf; auto).
  assert (∀ x, x ∈ ob_orders bm → resting_id x = resting_id ro → x = ro) as Huniq.
  { intros x Hx Hid. apply transition_unique; [|set_solver|done]. apply elem_of_app. by apply transition_mid_elem. }
  assert (∀ why, (ro, why) ∈ bk_evicted k → ro ∉ ob_orders bm ∧ resting_id ro ∉ cancelled ∧ h ≤ ro_expires_at_block ro) as Hev.
  { intros why [Hin Hv]%evicted_elem. rewrite (proj1 transition_unexpired), (bt_live T), list_elem_of_filter, elem_of_app, list_elem_of_filter in Hin.
    pose proof (bt_ids T) as Hnd. unfold bk_news in Hnd. rewrite fmap_app in Hnd. apply NoDup_app in Hnd as (_ & Hdis & _).
    assert (ro ∉ bk_direct k ∧ ro ∉ bk_accepted k) as [Hd Ha].
    { split; intros Hx; (apply (Hdis (resting_id ro)); [by apply (list_elem_of_fmap_2 (λ ro, resting_id ro))|]); apply (list_elem_of_fmap_2 (λ ro, resting_id ro)), elem_of_app; auto. }
    destruct Hin as [Hexp%Z.ltb_ge [[Hc _]|?]]; [|done]. split; [|done]. rewrite (bt_batch T), (proj1 transition_valid), elem_of_app, list_elem_of_filter. intros [[Hv' _]|?]; congruence. }
  destruct (keyed _ _ !! _) as [s|] eqn:Hs.
  - apply keyed_state_root in Hs as (ro' & Hro' & Hid & ->); [|apply transition_post_ids].
    rewrite Hpost in Hro'. apply list_elem_of_omap in Hro' as (ro2 & Hro2 & Hk).
    destruct (settle_keep_id _ _ _ _ _ Hk) as (Hid2 & _). assert (ro2 = ro) as -> by (apply Huniq; [done|congruence]).
    rewrite expected_post_resting_ok, (settle_keep_local fq2 mm h), Hk by done. cbn [fmap option_fmap option_map mbind outcome_bind].
    rewrite resting_orders_equal_refl. exists []. split; [done|]. split; [|done]. intros _ why Hin. by destruct (Hev why Hin) as [? _].
  - cbv zeta. cbn [resting_order_snapshot ros_order ros_expires_at_block]. eexists. split; [reflexivity|].
    assert ((∃ why, (ro, why) ∈ bk_evicted k) ∨ ∀ why, (ro, why) ∉ bk_evicted k) as [[why Hin]|Hno].
    { destruct (verdict (bk_unexpired k) (bk_accounts k) (bk_active k) ro) as [why|] eqn:Hv.
      - destruct (decide (ro ∈ ob_orders (bk_unexpired k))); [left; exists why; by apply evicted_elem|]. right. intros why' [? _]%evicted_elem. done.
      - right. intros why' [_ ?]%evicted_elem. congruence. }
    + destruct (Hev why Hin) as (Hnb & Hc & Hexp). rewrite bool_decide_eq_false_2 by done.
      assert (get0 fq2 (resting_id ro) = 0) as ->.
      { apply (filled_qty_absent _ _ _ Hfq). intros f Hf Hid. destruct (bt_filled T f Hf) as [Hm|(x & Hx & Hxid)]; [congruence|].
        apply Hnb. rewrite <- (Huniq x); [done..|congruence]. }
      cbn [orb]. split.
      * intros Hx why' _. destruct (Z.leb_spec (ord_max_fill (ro_order ro)) 0); [by left|]. destruct (Z.leb_spec (ro_expires_at_block ro) h); [by right; left|].
        cbn [orb] in Hx. destruct (existsb _ _) eqn:Ex; [|done]. apply existsb_exists in Ex as (m & Hm%list_elem_of_In & Hr%bool_decide_eq_true). right. right. by exists m.
      * intros Hx. destruct (Hx why Hin) as [Hz|[Hle|(m & Hm & Hr)]].
        -- by rewrite (proj2 (Z.leb_le _ _) Hz).
        -- by rewrite (proj2 (Z.leb_le _ _) Hle), orb_true_r.
        -- assert (existsb (λ m, bool_decide (m ∈ resolved_market_events (bw_system_events w))) (active_markets (ro_order ro)) = true) as ->; [|by rewrite orb_true_r].
           apply existsb_exists. exists m. split; [by apply list_elem_of_In|by apply bool_decide_eq_true].
    + split; [intros _ why Hin; by destruct (Hno why)|]. intros _. case_bool_decide as Hc; [done|]. cbn [orb].
      destruct (Z.leb_spec (ro_expires_at_block ro) h) as [|Hexp]; [by rewrite orb_true_r|].
      destruct (settle_keep fq2 mm h ro) as [ro'|] eqn:Hk.
      * destruct (settle_keep_id _ _ _ _ _ Hk) as (Hid & _). exfalso.
        assert (keyed (λ s, ord_id (ros_order s)) (state_root_orders b') !! resting_id ro = Some (resting_order_snapshot ro')); [|congruence].
        apply keyed_state_root; [apply transition_post_ids|]. exists ro'. split; [|done].
        rewrite Hpost. apply list_elem_of_omap. exists ro. split; [|done]. apply transition_carried; [done..|lia|done].
      * unfold settle_keep in Hk. rewrite bool_decide_eq_false_2 in Hk by done. cbv zeta in Hk.
        destruct (ord_max_fill (ro_order ro) <=? get0 fq2 (resting_id ro)); [done|].
        rewrite (proj2 (Z.leb_gt _ _) Hexp) in Hk. by destruct (0 <? _).
Qed.

Lemma check_post_ok s i :
  keyed (λ s, ord_id (ros_order s)) (state_root_orders b') !! i = Some s →
  check_post_order (keyed (λ s, ord_id (ros_order s)) (state_root_orders b))
    (keyed (λ o, ord_id (wo_order o)) (bw_orders w)) (i, s) = [].
Proof.
  intros Hs. apply keyed_state_root in Hs as (ro' & Hro' & <- & ->); [|apply transition_post_ids].
  destruct transition_settled as (fq & _ & Hpost). rewrite Hpost in Hro'.
  apply list_elem_of_omap in Hro' as (ro & Hro & Hk). destruct (settle_keep_id _ _ _ _ _ Hk) as (Hid & Hacc & Hshape).
  unfold check_post_order. rewrite Hid. pose proof Hro as Hbatch. apply transition_mid_elem in Hro as [Hro|Hro].
  - assert (keyed (λ s, ord_id (ros_order s)) (state_root_orders b) !! resting_id ro = Some (resting_order_snapshot ro)) as ->; [|done].
    apply keyed_state_root; [apply transition_pre_ids|]. eauto.
  - destruct (keyed _ (state_root_orders b) !! _); [done|].
    rewrite (bt_accepted T ro Hro Hbatch) by (unfold settle_keep in Hk; by case_bool_decide).
    cbn [wo_is_mm wo_account_id wo_order resting_order_snapshot ros_account_id ros_order app].
    by rewrite Hacc, Z.eqb_refl, Hshape.
Qed.

(** The check returns, and is silent exactly when every eviction is explained. *)
Lemma resting_transition_exact {E} : ∃ vs, @verify_resting_order_transition E w = Ok vs ∧ (vs = [] ↔ evictions_explained k w).
Proof.
  unfold verify_resting_order_transition. destruct (bt_prev T) as [ph ->]. rewrite (bt_pre T), (bt_post T).
  destruct transition_settled as (fq & Hfq & _). destruct (fill_qty_agrees _ fq (bt_fills T) Hfq) as (fq' & Hfq' & Heq).
  unfold keyed_resting_orders.
  rewrite !collect_dups_nil by (try (intros; apply not_elem_of_empty); rewrite snapshot_ids_perm; apply transition_pre_ids || apply transition_post_ids).
  rewrite Hfq'. set (pre := keyed (λ s, ord_id (ros_order s)) (state_root_orders b)).
  assert (∀ e, e ∈ sort_by_key (map_to_list pre) ↔ ∃ ro, ro ∈ ob_orders b ∧ e = (resting_id ro, resting_order_snapshot ro)) as Hpre.
  { intros [i s]. rewrite sort_by_key_perm, elem_of_map_to_list. unfold pre. rewrite keyed_state_root by apply transition_pre_ids.
    split; [intros (ro & ? & <- & ->); eauto|intros (ro & ? & [= -> ->]); eauto]. }
  set (check := check_pre_order (E := E) (keyed (λ s, ord_id (ros_order s)) (state_root_orders b')) fq' cancelled (resolved_market_events (bw_system_events w)) h).
  destruct (omapM_exact check (λ e, ∀ ro, ro ∈ ob_orders b → e = (resting_id ro, resting_order_snapshot ro) → ∀ why, (ro, why) ∈ bk_evicted k →
    ord_max_fill (ro_order ro) ≤ 0 ∨ ro_expires_at_block ro ≤ h ∨ ∃ m, m ∈ active_markets (ro_order ro) ∧ m ∈ resolved_market_events (bw_system_events w)) (sort_by_key (map_to_list pre))) as (v & -> & Hv).
  - intros e (ro & Hro & ->)%Hpre. destruct (check_pre_exact (E := E) fq fq' ro Hfq Heq Hro) as (vs & Hc & Hiff). exists vs. split; [exact Hc|]. rewrite Hiff. split.
    + intros H ro2 Hro2 [= Hid _]. assert (ro2 = ro) as -> by (apply transition_unique; [set_solver..|done]). exact H.
    + intros H. by apply (H ro).
  - cbn [mbind outcome_bind app]. eexists. split; [reflexivity|]. 
    assert ((e ← sort_by_key (map_to_list (keyed (λ s, ord_id (ros_order s)) (state_root_orders b'))); check_post_order pre (keyed (λ o, ord_id (wo_order o)) (bw_orders w)) e) = []) as ->.
    { apply elem_of_nil_inv. intros x (e & Hx & Hin)%list_elem_of_bind. destruct e as [i s].
      rewrite sort_by_key_perm in Hin. apply elem_of_map_to_list in Hin. unfold pre in Hx. rewrite check_post_ok in Hx by done. by apply not_elem_of_nil in Hx. }
    rewrite app_nil_r, Hv. unfold evictions_explained. split.
    + intros H ro why Hin Hro. eapply (H (resting_id ro, resting_order_snapshot ro)); [apply Hpre; eauto|done|reflexivity|done].
    + intros H e _ ro Hro -> why Hin. by eapply H.
Qed.
End transition.

(** ** Properties *)

(** The reservation leaves a reachable book commits to always pass the
    verifier's roll-up check: aggregating the order leaves gives exactly the
    account leaves the sequencer derives from its running aggregates, provided
    order ids are distinct. *)
Theorem book_reservations_verify (ttl : Z) (b : OrderBook) :
  rtc book_step (OrderBook_new ttl) b → NoDup ((λ ro, resting_id ro) <$> ob_orders b) →
  ∃ leaves, state_root_reservations (E := unit) b = Ok leaves ∧
    verify_resting_order_reservations (E := unit) (state_root_orders b) leaves = Ok [].
Proof.
  intros Hr%reachable_book_inv Hnd. destruct (book_rollup b Hr Hnd) as (m1 & H1 & R1 & Z1).
  destruct (book_leaves (E := unit) b Hr) as (leaves & m2 & Hl & H2 & R2 & Z2). exists leaves. split; [done|].
  unfold verify_resting_order_reservations. by rewrite H1, H2, (rolled_eq m1 m2 _ _ R1 R2 Z1 Z2), decide_True.
Qed.

(** The verifier and the sequencer's treatment of resting orders: after a block
    that loses cancelled, expired and evicted orders, accepts new ones and settles
    fills, the transition check, which recomputes remainders, expiries and
    reservations on its own, is silent exactly when each eviction of a committed
    order is explained by its expiry or by a resolved market. *)
Theorem resting_transition_verifies (k : block_books) (w : BlockWitness) :
  block_transition k w → ∃ vs, verify_resting_order_transition (E := unit) w = Ok vs ∧ (vs = [] ↔ evictions_explained k w).
Proof. intros T. exact (resting_transition_exact T). Qed.

(** A resting order of an account without cash, say a sell whose owner has withdrawn
    the balance, is evicted at the start of the block, and the transition check
    reports the eviction, unless something else explains it. *)
Theorem zero_balance_eviction (k : block_books) (w : BlockWitness) (ro : RestingOrder) (a : Account) :
  block_transition k w → ro ∈ ob_orders (bk_pre k) → bk_accounts k !! ro_account_id ro = Some a → acc_balance a ≤ 0 →
  resting_id ro ∉ cancelled_orders (bw_system_events w) → 0 < ord_max_fill (ro_order ro) → hd_height (bw_header w) < ro_expires_at_block ro →
  (∀ m, m ∈ active_markets (ro_order ro) → m ∉ resolved_market_events (bw_system_events w)) →
  ∃ vs, verify_resting_order_transition (E := unit) w = Ok vs ∧ vs ≠ [].
Proof.
  intros T Hro Ha Hbal Hc Hq Hexp Hres. destruct (resting_transition_exact (E := unit) T) as (vs & Hvs & Hiff). exists vs. split; [done|]. rewrite Hiff. intros Hex.
  assert (ro ∈ ob_orders (bk_unexpired k)) as Hin.
  { rewrite (proj1 (transition_unexpired T)), (bt_live T). apply list_elem_of_filter. split; [apply Z.ltb_ge; lia|]. apply elem_of_app. left. by apply list_elem_of_filter. }
  assert (∃ why, verdict (bk_unexpired k) (bk_accounts k) (bk_active k) ro = Some why) as [why Hv].
  { unfold verdict, revalidate_order. destruct (negb _); [by eexists|]. rewrite Ha, (proj2 (Z.leb_le _ _) Hbal). by eexists. }
  destruct (Hex ro why) as [?|[?|(m & Hm & Hr)]]; [by apply (evicted_elem T)|done|lia|lia|by apply (Hres m)].
Qed.

Definition ex_order2 : Order := binary_order 8 3 BuyNo 450000000 3000.
Definition ex_mid : OrderBook := default ex_book (left_state (accept ex_order2 1 ex_acct 11 0 ex_book)).
Definition ex_mid_fills : list Fill := [mkFill 7 2001 560000000 1; mkFill 8 1000 440000000 1].
Definition ex_post : OrderBook := default ex_mid (left_state (settle ex_mid_fills ∅ 11 ex_mid)).
Definition ex_sidecar (b : OrderBook) : StateSidecarSnapshot :=
  mkStateSidecarSnapshot (mkBridgeStateSnapshot 0 [] 0 0 [] []) [] [] (state_root_orders b) [].
Definition ex_header (h : Z) : WitnessBlockHeader := mkWitnessBlockHeader h [] [] [] 1 2 0.
Definition ex_witness : BlockWitness :=
  mkBlockWitness (ex_header 11) (Some (ex_header 10)) [] [mkWitnessOrder ex_order2 1 false] [] []
    (mkDepositAccumulatorWitness [] 0 []) ex_mid_fills {[3 := [560000000; 440000000]]} 0 0 [] [] [] [] [] []
    (ex_sidecar ex_post) (ex_sidecar ex_book) [].

Lemma ex_order2_wf : order_wf ex_order2.
Proof. apply binary_order_wf; vm_compute; split; discriminate. Qed.

Lemma book_reservations_verify_witness :
  ob_orders ex_book ≠ [] ∧ ∃ leaves, state_root_reservations (E := unit) ex_book = Ok leaves ∧
    verify_resting_order_reservations (E := unit) (state_root_orders ex_book) leaves = Ok [].
Proof.
  split; [vm_compute; discriminate|]. apply (book_reservations_verify 100 ex_book).
  - exact ex_book_reachable.
  - vm_compute. apply NoDup_singleton.
Defined.

Definition ex_books : block_books :=
  mkBlockBooks ex_book ex_book ex_book ex_book ex_mid ex_post [] (drop 1 (ob_orders ex_mid)) [] {[1 := ex_acct]} {[3]} ∅.
Lemma ex_transition : block_transition ex_books ex_witness.
Proof.
  assert (book_inv ex_mid) as Hmid.
  { apply (book_step_inv ex_book); [exact ex_book_inv|].
    apply (step_accept _ _ ex_order2 1 ex_acct 11 0 ex_order2_wf ex_acct_ok). vm_compute. reflexivity. }
  constructor.
  - vm_compute. eauto.
  - reflexivity.
  - reflexivity.
  - exact ex_book_inv.
  - exact ex_book_inv.
  - exact Hmid.
  - vm_compute. reflexivity.
  - eexists. vm_compute. reflexivity.
  - intros ro a _ Ha. unfold ex_books in Ha. cbn [bk_accounts] in Ha. apply lookup_singleton_Some in Ha as [_ <-]. exact ex_acct_ok.
  - vm_compute. reflexivity.
  - vm_compute. reflexivity.
  - eexists. vm_compute. reflexivity.
  - repeat constructor; vm_compute; discriminate.
  - intros f Hf. right. assert (Forall (λ f, fill_order_id f ∈ (λ ro, resting_id ro) <$> ob_orders ex_mid) ex_mid_fills) as H.
    { apply (bool_decide_unpack (Forall _ _)). vm_compute. exact I. }
    rewrite Forall_forall in H. apply H in Hf as (ro & -> & Hro)%list_elem_of_fmap. by exists ro.
  - apply (bool_decide_unpack (NoDup _)). vm_compute. exact I.
  - intros ro _. apply not_elem_of_empty.
  - intros ro Hro _ _. vm_compute in Hro. apply list_elem_of_singleton in Hro as ->. vm_compute. reflexivity.
Qed.

Lemma resting_transition_verifies_witness :
  length (ob_orders ex_post) = 2%nat ∧ ∃ vs, verify_resting_order_transition (E := unit) ex_witness = Ok vs ∧ (vs = [] ↔ evictions_explained ex_books ex_witness).
Proof.
  split; [vm_compute; reflexivity|]. apply (resting_transition_verifies ex_books ex_witness). exact ex_transition.
Defined.

(** A seller of 300 shares with an empty balance. *)
Definition ex_broke (balance : Z) : Account := set_positions {[(3, 0) := 500]} (Account_new (λ _, []) 1 balance).
Definition ex_sell_book : OrderBook := default (OrderBook_new 100) (left_state (accept (binary_order 5 3 SellYes 400000000 300) 1 (ex_broke 1000) 10 0 (OrderBook_new 100))).
Definition ex_evicted_book : OrderBook := default ex_sell_book (left_state (revalidate {[1 := ex_broke 0]} {[3]} ex_sell_book)).
Definition ex_evicting : BlockWitness :=
  mkBlockWitness (ex_header 11) (Some (ex_header 10)) [] [] [] [] (mkDepositAccumulatorWitness [] 0 []) [] ∅ 0 0 [] [] [] [] [] []
    (ex_sidecar ex_evicted_book) (ex_sidecar ex_sell_book) [].
Example seller_without_cash_evicted : length (ob_orders ex_sell_book) = 1%nat ∧ ob_orders ex_evicted_book = [] ∧
  verify_resting_order_transition (E := unit) ex_evicting = Ok [VK.SidecarRestingOrderMismatch].
Proof. split_and!; vm_compute; reflexivity. Qed.
