(* ===== verification/SettlementVerifier.v ===== *)
(** * SettlementVerifier: layer 2 re-derives the post-state

    Models [crates/sybil-verifier/src/settlement.rs]: the verifier replays the
    fills and the minting on the snapshots after system events and compares the
    result with the claimed post-state.  It works on its own account records with
    checked arithmetic and records violations instead of panicking.  [iter] is
    the iteration order of its account map. *)
From S2P Require Import Prelude Types Order EngineSettlement Account Digest BatchSettlement Snapshots Finalize Witness Sidecar.

(** ** Derivation *)

Record DerivedAccountState := mkDerivedAccountState {
  das_balance : Z;
  das_total_deposited : Z;
  das_positions : gmap (Z * Z) Z;
  das_events_digest : Bytes;
  das_last_trading_nonce : Z;
}.

(** [Default::default()] *)
Definition das_default : DerivedAccountState := mkDerivedAccountState 0 0 ∅ (replicate 32 0) 0.

Record DerivedSettlement := mkDerivedSettlement {
  dse_accounts : gmap Z DerivedAccountState;
  dse_violations : list Violation;
  dse_accounts_checked : Z;
  dse_minting_cost : Z;
  dse_fill_balance_delta : Z;
}.

Definition push_violations (vs : list Violation) (r : DerivedSettlement) : DerivedSettlement :=
  mkDerivedSettlement (dse_accounts r) (dse_violations r ++ vs) (dse_accounts_checked r) (dse_minting_cost r)
    (dse_fill_balance_delta r).
Definition push_overflow (r : DerivedSettlement) : DerivedSettlement := push_violations [VK.SettlementOverflow] r.
Definition set_derived (id : Z) (a : DerivedAccountState) (r : DerivedSettlement) : DerivedSettlement :=
  mkDerivedSettlement (<[id := a]> (dse_accounts r)) (dse_violations r) (dse_accounts_checked r) (dse_minting_cost r)
    (dse_fill_balance_delta r).
Definition set_fill_balance_delta (z : Z) (r : DerivedSettlement) : DerivedSettlement :=
  mkDerivedSettlement (dse_accounts r) (dse_violations r) (dse_accounts_checked r) (dse_minting_cost r) z.
Definition set_minting_cost (z : Z) (r : DerivedSettlement) : DerivedSettlement :=
  mkDerivedSettlement (dse_accounts r) (dse_violations r) (dse_accounts_checked r) z (dse_fill_balance_delta r).

(** Positions keyed by [(market, outcome)]: later duplicates of a key win. *)
Definition positions_map (l : list (MarketId * Z * Z)) : gmap (Z * Z) Z := foldl (λ m p, <[p.1 := p.2]> m) ∅ l.

(** A snapshot as a working account. *)
Definition derived_of_snapshot (s : AccountSnapshot) : DerivedAccountState :=
  mkDerivedAccountState (asn_balance s) (asn_total_deposited s)
    (positions_map (asn_positions s))
    (asn_events_digest s) (asn_last_trading_nonce s).

Definition load_snapshot (r : DerivedSettlement) (s : AccountSnapshot) : DerivedSettlement :=
  mkDerivedSettlement (<[asn_id s := derived_of_snapshot s]> (dse_accounts r)) (dse_violations r)
    (dse_accounts_checked r + 1) (dse_minting_cost r) (dse_fill_balance_delta r).

(** Position deltas, each skipped with a violation if it overflows. *)
Definition derive_position_step (acc : gmap (Z * Z) Z * list Violation) (d : MarketId * Z * Z)
    : gmap (Z * Z) Z * list Violation :=
  let '(pos, vs) := acc in
  let '(key, qty_delta) := d in
  match chk I64 (get0 pos key + qty_delta) with
  | Some updated => (<[key := updated]> pos, vs)
  | None => (<[key := get0 pos key]> pos, vs ++ [VK.SettlementOverflow])
  end.

Section derive.
Context (blake3 : Bytes → Bytes) (iter : gmap Z DerivedAccountState → list (Z * DerivedAccountState)).

Definition derive_fill_step {E : Type} (om : gmap Z WitnessOrder) (h : Z) (r : DerivedSettlement) (f : Fill)
    : outcome E DerivedSettlement :=
  if fill_qty f =? 0 then Ok r else
  match om !! fill_order_id f with
  | None => Ok r
  | Some wo =>
      let r := if negb (fill_account_id f =? 0) && negb (fill_account_id f =? wo_account_id wo)
               then push_violations [VK.FillAccountMismatch] r else r in
      let account_id := if negb (fill_account_id f =? 0) then fill_account_id f else wo_account_id wo in
      let order := wo_order wo in
      if NANOS_PER_DOLLAR <? ord_limit_price order then Ok (push_overflow r) else
      if NANOS_PER_DOLLAR <? fill_price f then Ok (push_overflow r) else
      let account := default das_default (dse_accounts r !! account_id) in
      let r := set_derived account_id account r in
      match compute_fill_settlement_checked order f with
      | Panic => Panic
      | Err _ => Ok (push_overflow r)
      | Ok None => Ok r
      | Ok (Some delta) =>
          match chk I64 (dse_fill_balance_delta r + sd_balance_delta delta) with
          | None => Ok (push_overflow r)
          | Some fbd =>
              let r := set_fill_balance_delta fbd r in
              match chk I64 (das_balance account + sd_balance_delta delta) with
              | None => Ok (push_overflow r)
              | Some balance =>
                  let '(pos, vs) := foldl derive_position_step (das_positions account, []) (sd_position_deltas delta) in
                  let event := encode_fill_event (fill_order_id f) (fill_qty f) (fill_price f) h in
                  Ok (push_violations vs (set_derived account_id
                        (mkDerivedAccountState balance (das_total_deposited account) pos
                           (update_digest blake3 (das_events_digest account) event) (das_last_trading_nonce account)) r))
              end
          end
      end
  end.

(** [values().try_fold(0, checked_add)] of one outcome's positions. *)
Definition position_total (accounts : gmap Z DerivedAccountState) (key : Z * Z) : option Z :=
  foldl (λ acc e, sum ← acc; chk I64 (sum + get0 (das_positions e.2) key)) (Some 0) (iter accounts).

Definition market_total_for_accounts (accounts : gmap Z DerivedAccountState) (market_id : MarketId)
    : option (MarketId * Z * Z) :=
  total_yes ← position_total accounts (market_id, 0);
  total_no ← position_total accounts (market_id, 1);
  Some (market_id, total_yes, total_no).

(** The set of markets with any position entry, in order. *)
Definition all_markets (accounts : gmap Z DerivedAccountState) : list MarketId :=
  stable_sort Z.le (elements (list_to_set (C := gset Z)
    (e ← map_to_list accounts; (λ p, p.1.1) <$> map_to_list (das_positions e.2)))).

(** One adjustment on the MINT account; an overflow skips the rest of it. *)
Definition derive_mint_step (acc : DerivedAccountState * list Violation) (adj : MintAdjustment)
    : DerivedAccountState * list Violation :=
  let '(mint, vs) := acc in
  let key := (ma_market_id adj, ma_outcome adj) in
  match chk I64 (get0 (das_positions mint) key + ma_position_delta adj) with
  | None => (mkDerivedAccountState (das_balance mint) (das_total_deposited mint)
               (<[key := get0 (das_positions mint) key]> (das_positions mint))
               (das_events_digest mint) (das_last_trading_nonce mint), vs ++ [VK.SettlementOverflow])
  | Some pos =>
      let positions := <[key := pos]> (das_positions mint) in
      match chk I64 (das_balance mint + ma_balance_delta adj) with
      | None => (mkDerivedAccountState (das_balance mint) (das_total_deposited mint) positions
                   (das_events_digest mint) (das_last_trading_nonce mint), vs ++ [VK.SettlementOverflow])
      | Some balance => (mkDerivedAccountState balance (das_total_deposited mint) positions
                           (das_events_digest mint) (das_last_trading_nonce mint), vs)
      end
  end.

(** The minting block at the end of the derivation. *)
Definition derive_mint_phase {E : Type} (clearing_prices : Prices) (h : Z) (r : DerivedSettlement)
    : outcome E DerivedSettlement :=
  let totals := mapM (market_total_for_accounts (dse_accounts r)) (all_markets (dse_accounts r)) in
  let r := match totals with Some _ => r | None => push_overflow r end in
  let market_totals := default [] totals in
  '(adjustments, r) ← match derive_minting_checked market_totals clearing_prices with
    | Ok l => Ok (l, r)
    | Err _ => Ok ([], push_overflow r)
    | Panic => Panic
    end;
  let r := match minting_cost_from_fill_balance_delta_checked (dse_fill_balance_delta r) with
           | Ok cost => set_minting_cost cost r
           | _ => set_minting_cost 0 (push_overflow r)
           end in
  match adjustments with
  | [] => Ok r
  | _ =>
      let mint := default das_default (dse_accounts r !! AccountId_MINT) in
      let r := push_violations ((λ _, VK.MintingWithoutClearingPrice) <$> filter (λ a, ma_balance_delta a = 0) adjustments) r in
      let '(mint, vs) := foldl derive_mint_step (mint, []) adjustments in
      let event := encode_mint_event adjustments h in
      Ok (set_derived AccountId_MINT (mkDerivedAccountState (das_balance mint) (das_total_deposited mint) (das_positions mint)
            (update_digest blake3 (das_events_digest mint) event) (das_last_trading_nonce mint)) (push_violations vs r))
  end.

Definition derive_post_state {E : Type} (post_system_state : list AccountSnapshot) (orders : list WitnessOrder)
    (fills : list Fill) (clearing_prices : Prices) (block_height : Z) : outcome E DerivedSettlement :=
  let r := foldl load_snapshot (mkDerivedSettlement ∅ [] 0 0 0) post_system_state in
  r ← ofold (derive_fill_step (keyed (λ o, ord_id (wo_order o)) orders) block_height) r fills;
  derive_mint_phase clearing_prices block_height r.

(** ** Comparison with the claimed post-state *)

Definition position_mismatches (derived claimed : gmap (Z * Z) Z) : list Violation :=
  omap (λ k, if (get0 derived k =? 0) && (get0 claimed k =? 0) then None
             else if get0 derived k =? get0 claimed k then None else Some VK.SettlementPositionMismatch)
    (elements (dom derived ∪ dom claimed)).

Definition compare_account (derived : option DerivedAccountState) (claimed : option AccountSnapshot) : list Violation :=
  let derived_balance := from_option das_balance 0 derived in
  match claimed with
  | Some c =>
      (if derived_balance =? asn_balance c then [] else [VK.SettlementBalanceMismatch]) ++
      match derived with
      | None => []
      | Some d =>
          (if das_total_deposited d =? asn_total_deposited c then [] else [VK.SettlementAccountMismatch]) ++
          (if decide (das_events_digest d = asn_events_digest c) then [] else [VK.SettlementAccountMismatch]) ++
          (if das_last_trading_nonce d =? asn_last_trading_nonce c then [] else [VK.SettlementAccountMismatch])
      end ++
      position_mismatches (from_option das_positions ∅ derived)
        (positions_map (asn_positions c))
  | None =>
      let has_positions := match derived with
                           | Some d => existsb (λ e, negb (e.2 =? 0)) (map_to_list (das_positions d))
                           | None => false
                           end in
      if negb (derived_balance =? 0) || has_positions then [VK.SettlementAccountMismatch] else []
  end.

(** The two sign assertions; the MINT account is exempt. *)
Definition negative_balances (accounts : gmap Z DerivedAccountState) : list Violation :=
  omap (λ e, if (das_balance e.2 <? 0) && negb (e.1 =? AccountId_MINT) then Some VK.NegativeBalance else None) (iter accounts).
Definition negative_positions (accounts : gmap Z DerivedAccountState) : list Violation :=
  e ← iter accounts;
  if e.1 =? AccountId_MINT then [] else
  omap (λ p, if p.2 <? 0 then Some VK.NegativePosition else None) (map_to_list (das_positions e.2)).

(** Violations are listed in some order of the account ids. *)
Definition verify_settlement {E : Type} (w : BlockWitness) : outcome E VerificationResult :=
  derived ← derive_post_state (bw_post_system_state w) (bw_orders w) (bw_fills w) (bw_clearing_prices w)
              (hd_height (bw_header w));
  let post_map := keyed asn_id (bw_post_state w) in
  let violations :=
    dse_violations derived ++
    (if dse_minting_cost derived =? bw_minting_cost w then [] else [VK.WelfareMismatch]) ++
    negative_balances (dse_accounts derived) ++ negative_positions (dse_accounts derived) ++
    (id ← elements (dom (dse_accounts derived) ∪ dom post_map);
     compare_account (dse_accounts derived !! id) (post_map !! id)) in
  Ok (mkVerificationResult (bool_decide (violations = [])) violations
        (mkVerificationStats 0 0 0 0 0 0 (dse_accounts_checked derived) None)).
End derive.
