(* ===== verification/VerifierAgreement.v ===== *)
(** * VerifierAgreement: the verifier reproduces the sequencer's settlement

    Relates [Finalize] (the sequencer's state phase over its account store) and
    [SettlementVerifier] (the verifier's independent re-derivation from
    snapshots): a simulation over the fills and the minting, and the theorem
    that layer 2 accepts what the sequencer produced. *)
From S2P Require Import Prelude Types Order EngineSettlement Account Digest BatchSettlement Snapshots Finalize BookSafety Conservation Witness Sidecar SettlementVerifier.

(** ** The simulation relation *)

(** A working account of the verifier stands for an account of the store: the
    same values, and the same quantity at every position key (explicit zero
    entries may differ). *)
Record sim (a : Account) (d : DerivedAccountState) : Prop := {
  sim_balance : das_balance d = acc_balance a;
  sim_deposited : das_total_deposited d = acc_total_deposited a;
  sim_positions k : get0 (das_positions d) k = get0 (acc_positions a) k;
  sim_digest : das_events_digest d = acc_events_digest a;
  sim_nonce : das_last_trading_nonce d = acc_last_trading_nonce a;
}.

Definition sims (accounts : gmap Z Account) (derived : gmap Z DerivedAccountState) : Prop :=
  ∀ id, option_Forall2 sim (accounts !! id) (derived !! id).

Lemma sims_insert accounts derived id a d :
  sims accounts derived → sim a d → sims (<[id := a]> accounts) (<[id := d]> derived).
Proof. intros Hs Hd i. rewrite !lookup_insert. case_decide; [by constructor|apply Hs]. Qed.

Lemma sims_lookup accounts derived id a :
  sims accounts derived → accounts !! id = Some a → ∃ d, derived !! id = Some d ∧ sim a d.
Proof. intros Hs Ha. specialize (Hs id). rewrite Ha in Hs. inversion Hs; subst. eauto. Qed.

(** ** Loading the snapshots *)

Lemma positions_map_lookup l k q : NoDup l.*1 → positions_map l !! k = Some q ↔ (k, q) ∈ l.
Proof.
  intros Hnd. unfold positions_map. rewrite (foldl_insert_lookup fst snd); [|done|intros; apply lookup_empty].
  rewrite lookup_empty. split.
  - intros [([k' q'] & Hin & <- & <-)|]; [done|done].
  - intros Hin. left. by exists (k, q).
Qed.

(** Canonical positions are the non-zero entries. *)
Lemma canonical_positions_get0 (p : gmap (Z * Z) Z) l k :
  l ≡ₚ filter (λ e, e.2 ≠ 0) (map_to_list p) → get0 (positions_map l) k = get0 p k.
Proof.
  intros Hl. assert (NoDup l.*1) as Hnd.
  { rewrite Hl. eapply sublist_NoDup; [apply (NoDup_fst_map_to_list p)|]. apply fmap_sublist, sublist_filter. }
  unfold get0. destruct (positions_map l !! k) as [q|] eqn:Hk.
  - apply positions_map_lookup in Hk; [|done]. rewrite Hl in Hk. apply list_elem_of_filter in Hk as [_ Hk].
    apply elem_of_map_to_list in Hk. by rewrite Hk.
  - destruct (p !! k) as [q|] eqn:Hp; [|done]. simpl. destruct (decide (q = 0)) as [->|Hq]; [done|].
    exfalso. assert (positions_map l !! k = Some q); [|congruence]. apply positions_map_lookup; [done|]. rewrite Hl.
    apply list_elem_of_filter. split; [done|]. by apply elem_of_map_to_list.
Qed.

Lemma snapshot_positions_perm a :
  asn_positions (canonicalize_snapshot (snapshot_account a)) ≡ₚ filter (λ e, e.2 ≠ 0) (map_to_list (acc_positions a)).
Proof.
  unfold snapshot_account, canonicalize_snapshot. cbn [asn_positions]. rewrite !sort_positions_perm.
  rewrite list_filter_filter. by rewrite (filter_ext_in _ (λ e, e.2 ≠ 0)) by tauto.
Qed.

Lemma sim_snapshot a : sim a (derived_of_snapshot (canonicalize_snapshot (snapshot_account a))).
Proof.
  constructor; try done. intros k. unfold derived_of_snapshot. cbn [das_positions].
  apply canonical_positions_get0, snapshot_positions_perm.
Qed.

Lemma load_snapshots_accounts L r :
  dse_accounts (foldl load_snapshot r L) = foldl (λ m s, <[asn_id s := derived_of_snapshot s]> m) (dse_accounts r) L ∧
  dse_violations (foldl load_snapshot r L) = dse_violations r ∧
  dse_fill_balance_delta (foldl load_snapshot r L) = dse_fill_balance_delta r.
Proof. revert r. induction L as [|s L IH]; intros r; [done|]. cbn [foldl]. destruct (IH (load_snapshot r s)) as (-> & -> & ->). done. Qed.

(** The accounts of a store whose keys are the accounts' ids. *)
Section canonical.
Context (iter : gmap Z Account → list (Z * Account)) (Hiter : ∀ m, iter m ≡ₚ map_to_list m).
Context (accounts : gmap Z Account) (Hids : ∀ id a, accounts !! id = Some a → acc_id a = id).

Lemma canonical_perm : CanonicalState_from_accounts (iter accounts) ≡ₚ
  (λ e, canonicalize_snapshot (snapshot_account e.2)) <$> map_to_list accounts.
Proof.
  unfold CanonicalState_from_accounts, from_snapshot_iter. rewrite stable_sort_Permutation, <- list_fmap_compose.
  by rewrite Hiter.
Qed.

Lemma canonical_ids : NoDup (asn_id <$> CanonicalState_from_accounts (iter accounts)).
Proof.
  rewrite canonical_perm, <- list_fmap_compose. erewrite list_fmap_ext; [apply (NoDup_fst_map_to_list accounts)|].
  intros i [id a] Hi%list_elem_of_lookup_2%elem_of_map_to_list. simpl. by apply Hids.
Qed.

Lemma canonical_elem s : s ∈ CanonicalState_from_accounts (iter accounts) ↔
  ∃ id a, accounts !! id = Some a ∧ s = canonicalize_snapshot (snapshot_account a).
Proof.
  rewrite canonical_perm, list_elem_of_fmap. split.
  - intros ([id a] & -> & Hin%elem_of_map_to_list). eauto.
  - intros (id & a & Ha & ->). exists (id, a). split; [done|]. by apply elem_of_map_to_list.
Qed.

Lemma canonical_lookup id : keyed asn_id (CanonicalState_from_accounts (iter accounts)) !! id =
  (λ a, canonicalize_snapshot (snapshot_account a)) <$> accounts !! id.
Proof.
  apply option_eq. intros s. rewrite keyed_lookup by apply canonical_ids. rewrite canonical_elem, fmap_Some. split.
  - intros ((id' & a & Ha & ->) & <-). simpl. rewrite (Hids _ _ Ha). eauto.
  - intros (a & Ha & ->). split; [eauto|]. simpl. by apply Hids.
Qed.

Lemma load_sims r : dse_accounts r = ∅ →
  sims accounts (dse_accounts (foldl load_snapshot r (CanonicalState_from_accounts (iter accounts)))).
Proof.
  intros Hr id. destruct (load_snapshots_accounts (CanonicalState_from_accounts (iter accounts)) r) as (-> & _). rewrite Hr.
  set (m := foldl _ ∅ _).
  assert (∀ v, m !! id = Some v ↔ ∃ a, accounts !! id = Some a ∧ v = derived_of_snapshot (canonicalize_snapshot (snapshot_account a))) as Hm.
  { intros v. unfold m. rewrite (foldl_insert_lookup asn_id derived_of_snapshot); [|apply canonical_ids|intros; apply lookup_empty].
    rewrite lookup_empty. split.
    - intros [(s & Hs & <- & <-)|]; [|done]. apply canonical_elem in Hs as (id' & a & Ha & ->). simpl. rewrite (Hids _ _ Ha). eauto.
    - intros (a & Ha & ->). left. eexists. split; [apply canonical_elem; eauto|]. split; [|done]. simpl. by apply Hids. }
  destruct (accounts !! id) as [a|] eqn:Ha.
  - assert (m !! id = Some (derived_of_snapshot (canonicalize_snapshot (snapshot_account a)))) as -> by (apply Hm; eauto).
    constructor. apply sim_snapshot.
  - destruct (m !! id) as [v|] eqn:Hv; [|constructor]. by destruct (proj1 (Hm v) eq_refl) as (a & ? & _).
Qed.
End canonical.

(** ** Replaying the fills *)

Lemma derive_positions_sim {E : Type} (ds : list (MarketId * Z * Z)) (p pos p' : gmap (Z * Z) Z) (vs : list Violation) :
  (∀ k, get0 pos k = get0 p k) → apply_positions (E := E) p ds = Ok p' →
  ∃ pos', foldl derive_position_step (pos, vs) ds = (pos', vs) ∧ ∀ k, get0 pos' k = get0 p' k.
Proof.
  revert p pos. induction ds as [|[[m o] q] ds IH]; intros p pos Heq H; [injection H as <-; by exists pos|].
  unfold apply_positions in H. cbn [ofold] in H. destruct (add0 I64 p (m, o) q) as [p1| |] eqn:Ha; [|done..].
  apply add0_Ok in Ha as [Hr ->]. cbn [mbind outcome_bind] in H. cbn [foldl derive_position_step].
  rewrite Heq, chk_in by done. eapply IH; [|exact H].
  intros k. rewrite !get0_insert. case_decide; [done|apply Heq].
Qed.

(** The order of a fill, as the witness and the batch know it. *)
Definition witnessed (omw : gmap Z WitnessOrder) (om : gmap Z Order) (f : Fill) : Prop :=
  ∃ wo, omw !! fill_order_id f = Some wo ∧ om !! fill_order_id f = Some (wo_order wo) ∧
    wo_account_id wo = fill_account_id f.

Lemma derive_fill_sim (blake3 : Bytes → Bytes) omw om h s f s' r :
  settle_batch_step (E := unit) blake3 om h s f = Ok s' → admitted_fill om f → witnessed omw om f →
  is_Some (bs_accounts s !! fill_account_id f) → sims (bs_accounts s) (dse_accounts r) →
  int_min I64 ≤ dse_fill_balance_delta r + cash_term om f ≤ int_max I64 →
  ∃ r', derive_fill_step (E := unit) blake3 omw h r f = Ok r' ∧ sims (bs_accounts s') (dse_accounts r') ∧
    dse_violations r' = dse_violations r ∧ dse_fill_balance_delta r' = dse_fill_balance_delta r + cash_term om f.
Proof.
  intros Hst Hadm (wo & Hwo & Ho & Hacc) [a Ha] Hs Hfbd. destruct (sims_lookup _ _ _ _ Hs Ha) as (d & Hd & Hsim).
  destruct (admitted_fill_terms om f Hadm) as (o & delta & Ho2 & _ & Hset & Hcash & _).
  destruct Hadm as (o3 & Ho3 & Hwf & Hval & Hq & Hp). rewrite Ho in Ho2, Ho3. simplify_eq.
  assert (ord_limit_price (wo_order wo) ≤ NANOS_PER_DOLLAR) as Hlim.
  { destruct (one_hot_validate _ Hwf Hval) as (m & dir & Hoh). apply (oh_limit _ _ _ Hoh). }
  unfold settle_batch_step, settle_fill_with_delta in Hst. rewrite Ho, Ha, (compute_fill_settlement_Ok _ _ _ Hset) in Hst.
  cbn [mbind outcome_bind] in Hst. destruct (Z.eqb_spec (fill_qty f) 0); [lia|].
  destruct (arith I64 _) as [b| |] eqn:Hb; [|done..]. apply arith_Ok in Hb as [-> Hbr]. cbn [mbind outcome_bind] in Hst.
  destruct (apply_positions _ _) as [p'| |] eqn:Hpos; [|done..]. cbn [mbind outcome_bind] in Hst. injection Hst as <-.
  destruct (derive_positions_sim _ _ (das_positions d) _ [] (sim_positions _ _ Hsim) Hpos) as (pos' & Hfold & Hpos').
  unfold derive_fill_step. rewrite Hwo, Hacc. destruct (Z.eqb_spec (fill_qty f) 0); [lia|]. cbv zeta.
  rewrite Z.eqb_refl, andb_false_r. destruct (Z.ltb_spec NANOS_PER_DOLLAR (ord_limit_price (wo_order wo))); [lia|].
  destruct (Z.ltb_spec NANOS_PER_DOLLAR (fill_price f)); [lia|].
  replace (if negb (fill_account_id f =? 0) then fill_account_id f else fill_account_id f) with (fill_account_id f) by (by case_match).
  rewrite Hd, Hset. cbn [default from_option dse_fill_balance_delta set_derived]. rewrite Hcash, chk_in by done.
  cbn [id]. rewrite (sim_balance _ _ Hsim), chk_in by (by rewrite Hcash in Hbr). rewrite Hfold.
  eexists. split; [done|]. cbn [push_violations set_derived set_fill_balance_delta dse_accounts dse_violations dse_fill_balance_delta bs_accounts].
  rewrite app_nil_r, insert_insert_eq. split; [|done]. apply sims_insert; [done|]. destruct Hsim. constructor; cbn; congruence || auto.
Qed.

Lemma derive_fills_sim (blake3 : Bytes → Bytes) omw om h fills s s' r :
  ofold (settle_batch_step (E := unit) blake3 om h) s fills = Ok s' → Forall (admitted_fill om) fills →
  Forall (witnessed omw om) fills → (∀ f, f ∈ fills → is_Some (bs_accounts s !! fill_account_id f)) →
  sims (bs_accounts s) (dse_accounts r) →
  Z.abs (dse_fill_balance_delta r) + 1000000000000000 * Z.of_nat (length fills) ≤ int_max I64 →
  ∃ r', ofold (derive_fill_step (E := unit) blake3 omw h) r fills = Ok r' ∧ sims (bs_accounts s') (dse_accounts r') ∧
    dse_violations r' = dse_violations r ∧
    dse_fill_balance_delta r' = dse_fill_balance_delta r + sumZ (cash_term om) fills.
Proof.
  revert s r. induction fills as [|f fills IH]; intros s r Hset Hadm Hwit Hacc Hs Hb.
  { simplify_eq/=. exists r. split_and!; [done..|lia]. }
  apply Forall_cons in Hadm as [Hf Hadm]. apply Forall_cons in Hwit as [Hw Hwit]. cbn [length] in Hb.
  cbn [ofold] in Hset. destruct (settle_batch_step blake3 om h s f) as [s1| |] eqn:Hst; [|done..]. cbn [mbind outcome_bind] in Hset.
  destruct (admitted_fill_terms om f Hf) as (_ & _ & _ & _ & _ & _ & _ & Hc & _).
  destruct (derive_fill_sim _ _ _ _ _ _ _ r Hst Hf Hw) as (r1 & Hr1 & Hs1 & Hv1 & Hfb1); [apply Hacc; left|done|int_lia|].
  destruct (settle_step_Ok _ _ _ _ _ _ Hst) as (_ & _ & Hdom & _).
  destruct (IH s1 r1 Hset Hadm Hwit) as (r' & Hr' & Hs' & Hv' & Hfb'); [|done|int_lia|].
  { intros g Hg. apply Hdom, Hacc. by right. }
  exists r'. cbn [ofold]. rewrite Hr1. cbn [mbind outcome_bind sumZ]. split_and!; [done|done|congruence|lia].
Qed.

(** ** Totals of related accounts *)

Lemma sims_msum accounts derived (f : Account → Z) (g : DerivedAccountState → Z) :
  sims accounts derived → (∀ a d, sim a d → f a = g d) → msum f accounts = msum g derived.
Proof.
  intros Hs Hfg. revert derived Hs. induction accounts as [|id a accounts Hid IH] using map_ind; intros derived Hs.
  - assert (derived = ∅) as ->; [|by rewrite !msum_empty]. apply map_empty. intros i. specialize (Hs i). rewrite lookup_empty in Hs.
    by inversion Hs.
  - destruct (sims_lookup _ _ id a Hs) as (d & Hd & Hsim); [by rewrite lookup_insert_eq|].
    rewrite msum_insert, (msum_delete g derived id d), (Hfg a d), (IH (delete id derived)); try done.
    intros i. destruct (decide (i = id)) as [->|Hne]; [rewrite Hid, lookup_delete_eq; constructor|].
    rewrite lookup_delete_ne by done. specialize (Hs i). by rewrite lookup_insert_ne in Hs.
Qed.

Lemma sims_pos_total accounts derived key :
  sims accounts derived → msum (λ d, get0 (das_positions d) key) derived = pos_total key accounts.
Proof. intros Hs. symmetry. apply (sims_msum _ _ _ _ Hs). intros a d Hsim. by rewrite (sim_positions _ _ Hsim). Qed.

Lemma sims_pos_volume accounts derived key :
  sims accounts derived → msum (λ d, Z.abs (get0 (das_positions d) key)) derived ≤ share_volume accounts.
Proof.
  intros Hs. rewrite <- (sims_msum accounts derived (λ a, Z.abs (get0 (acc_positions a) key))); [|done|].
  - unfold msum, share_volume. rewrite <- (Z.abs_eq (sumZ _ _)) by (apply sumZ_nonneg; intros; lia).
    apply sumZ_abs_le. intros [id a] _. cbn [snd]. rewrite Z.abs_idemp. unfold get0.
    destruct (acc_positions a !! key) as [q|] eqn:Hk; simpl; [|apply msum_nonneg; intros; lia].
    apply (msum_lookup_le Z.abs _ key q); [intros; lia|done].
  - intros a d Hsim. by rewrite (sim_positions _ _ Hsim).
Qed.

Lemma checked_sum_ok {A} (f : A → Z) l acc :
  Z.abs acc + sumZ (λ x, Z.abs (f x)) l ≤ int_max I64 →
  foldl (λ acc x, sum ← acc; chk I64 (sum + f x)) (Some acc) l = Some (acc + sumZ f l).
Proof.
  revert acc. induction l as [|x l IH]; intros acc Ha; cbn [foldl sumZ] in *; [f_equal; lia|].
  assert (0 ≤ sumZ (λ x, Z.abs (f x)) l) by (apply sumZ_nonneg; intros; lia).
  cbn [mbind option_bind]. rewrite chk_in by int_lia. rewrite IH by lia. f_equal. lia.
Qed.

Section mint.
Context (iter : gmap Z DerivedAccountState → list (Z * DerivedAccountState)) (Hiter : ∀ m, iter m ≡ₚ map_to_list m).
Context (accounts : gmap Z Account) (derived : gmap Z DerivedAccountState) (Hs : sims accounts derived).
Context (Hvol : share_volume accounts ≤ int_max I64).

Lemma market_total_ok m :
  market_total_for_accounts iter derived m = Some (m, pos_total (m, 0) accounts, pos_total (m, 1) accounts).
Proof.
  unfold market_total_for_accounts, position_total.
  assert (∀ key, foldl (λ acc e, sum ← acc; chk I64 (sum + get0 (das_positions e.2) key)) (Some 0) (iter derived)
    = Some (pos_total key accounts)) as Ht.
  { intros key. rewrite (checked_sum_ok (λ e, get0 (das_positions e.2) key)).
    - rewrite (msum_perm (λ d, get0 (das_positions d) key) derived _ (Hiter derived)), (sims_pos_total _ _ _ Hs). done.
    - rewrite (msum_perm (λ d, Z.abs (get0 (das_positions d) key)) derived _ (Hiter derived)).
      pose proof (sims_pos_volume _ _ key Hs). lia. }
  by rewrite !Ht.
Qed.

Lemma all_markets_sorted : StronglySorted Z.le (all_markets derived) ∧ NoDup (all_markets derived).
Proof.
  unfold all_markets. split; [apply StronglySorted_stable_sort; apply _|]. rewrite stable_sort_Permutation. apply NoDup_elements.
Qed.

(** Markets the verifier does not list have no positions. *)
Lemma all_markets_complete m o : m ∉ all_markets derived → pos_total (m, o) accounts = 0.
Proof.
  intros Hm. rewrite <- (sims_pos_total _ _ _ Hs). apply sumZ_zero. intros [id d] Hd. cbn [snd]. unfold get0.
  destruct (das_positions d !! (m, o)) as [q|] eqn:Hq; [|done]. exfalso. apply Hm. unfold all_markets.
  rewrite stable_sort_Permutation, elem_of_elements, elem_of_list_to_set, list_elem_of_bind.
  exists (id, d). split; [|done]. apply list_elem_of_fmap. exists ((m, o), q). split; [done|]. by apply elem_of_map_to_list.
Qed.

Definition verifier_totals : list (MarketId * Z * Z) :=
  (λ m, (m, pos_total (m, 0) accounts, pos_total (m, 1) accounts)) <$> all_markets derived.

Lemma verifier_totals_ok : mapM (market_total_for_accounts iter derived) (all_markets derived) = Some verifier_totals.
Proof.
  unfold verifier_totals. induction (all_markets derived) as [|m l IH]; [done|]. cbn [mapM]. by rewrite market_total_ok, IH.
Qed.
End mint.

(** Minting depends only on the imbalanced entries. *)
Lemma derive_minting_imbalanced l prices :
  derive_minting_checked l prices = derive_minting_checked (filter (λ t, t.1.2 ≠ t.2) l) prices.
Proof.
  induction l as [|[[m y] n] l IH]; [done|]. rewrite filter_cons. cbn [fst snd]. destruct (decide (y ≠ n)) as [Hne|Heq].
  - rewrite !derive_minting_checked_cons. by rewrite IH.
  - assert (y = n) as -> by (destruct (decide (y = n)); tauto). rewrite derive_minting_checked_cons. unfold mint_adjustment.
    rewrite Z.sub_diag, chk_in by int_lia. cbn [ok_or mbind outcome_bind Z.eqb]. rewrite IH. clear IH. by destruct (derive_minting_checked _ _).
Qed.

Lemma StronglySorted_filter_keep {A} (R : relation A) (P : A → Prop) `{∀ x, Decision (P x)} l :
  StronglySorted R l → StronglySorted R (filter P l).
Proof.
  induction 1 as [|x l Hl IH Hx]; [by rewrite filter_nil; constructor|]. rewrite filter_cons. case_decide; [|done].
  apply StronglySorted_cons. split; [by apply Forall_filter_keep|done].
Qed.

(** Two sorted lists of totals with the same imbalanced markets mint alike. *)
Lemma derive_minting_agree (T : Z → Z * Z) l1 l2 prices :
  StronglySorted (λ a b : Z * Z * Z, a.1.1 ≤ b.1.1) l1 → StronglySorted (λ a b : Z * Z * Z, a.1.1 ≤ b.1.1) l2 →
  NoDup l1 → NoDup l2 → (∀ m y n, (m, y, n) ∈ l1 ∨ (m, y, n) ∈ l2 → T m = (y, n)) →
  (∀ m y n, y ≠ n → (m, y, n) ∈ l1 ↔ (m, y, n) ∈ l2) →
  derive_minting_checked l1 prices = derive_minting_checked l2 prices.
Proof.
  intros S1 S2 N1 N2 HT Hin. rewrite (derive_minting_imbalanced l1), (derive_minting_imbalanced l2). f_equal.
  apply (StronglySorted_unique_strong (λ a b : Z * Z * Z, a.1.1 ≤ b.1.1)).
  - intros [[m1 y1] n1] [[m2 y2] n2] [_ H1]%list_elem_of_filter [_ H2]%list_elem_of_filter Hle1 Hle2. cbn in Hle1, Hle2.
    assert (m1 = m2) as -> by lia. assert (T m2 = (y1, n1)) as HT1 by auto. assert (T m2 = (y2, n2)) as HT2 by auto. congruence.
  - by apply StronglySorted_filter_keep.
  - by apply StronglySorted_filter_keep.
  - apply NoDup_Permutation; [by apply NoDup_filter..|]. intros [[m y] n]. rewrite !list_elem_of_filter. cbn.
    split; intros [Hne Hx]; (split; [done|]); by apply (Hin m y n Hne).
Qed.

Lemma minting_inputs_sorted totals : StronglySorted (λ a b : Z * Z * Z, a.1.1 ≤ b.1.1) (minting_inputs totals).
Proof.
  unfold minting_inputs, sorted_totals. eapply StronglySorted_fmap; [|apply StronglySorted_stable_sort].
  - intros [m1 [y1 n1]] [m2 [y2 n2]] H. exact H.
  - intros a b c. unfold key_le. lia.
  - intros a b. unfold key_le. lia.
Qed.

(** The verifier derives the sequencer's adjustments. *)
Lemma verifier_minting accounts derived totals prices :
  sims accounts derived → (∀ m, totals_for totals m = (pos_total (m, 0) accounts, pos_total (m, 1) accounts)) →
  derive_minting_checked (verifier_totals accounts derived) prices = derive_minting_checked (minting_inputs totals) prices.
Proof.
  intros Hs Ht. destruct (all_markets_sorted derived) as [HS HN]. destruct (sorted_totals_spec totals) as [HN2 Hin].
  set (T := λ m, (pos_total (m, 0) accounts, pos_total (m, 1) accounts)).
  assert (∀ m y n, (m, y, n) ∈ verifier_totals accounts derived ↔ T m = (y, n) ∧ m ∈ all_markets derived) as Hv.
  { intros m y n. unfold verifier_totals, T. rewrite list_elem_of_fmap. split.
    - intros (m' & [= -> -> ->] & ?). done.
    - intros [[= <- <-] ?]. eauto. }
  assert (∀ m y n, (m, y, n) ∈ minting_inputs totals → T m = (y, n)) as Hm.
  { intros m y n Hx%Hin. unfold T. rewrite <- Ht. unfold totals_for. by rewrite Hx. }
  apply (derive_minting_agree T).
  - unfold verifier_totals. eapply StronglySorted_fmap; [|exact HS]. done.
  - apply minting_inputs_sorted.
  - unfold verifier_totals. apply NoDup_fmap_2; [|done]. intros m1 m2 [= -> _ _]. done.
  - by eapply (NoDup_fmap_1 (λ t : Z * Z * Z, t.1.1)).
  - intros m y n [[? _]%Hv|?%Hm]; done.
  - intros m y n Hne. rewrite Hv. split.
    + intros [HT _]. apply Hin. specialize (Ht m). unfold totals_for in Ht. destruct (totals !! m) as [p|] eqn:Hp; simpl in Ht.
      * unfold T in HT. congruence.
      * unfold T in HT. congruence.
    + intros Hx. pose proof (Hm _ _ _ Hx) as HT. split; [done|]. destruct (decide (m ∈ all_markets derived)) as [|Hn]; [done|].
      unfold T in HT. rewrite !(all_markets_complete accounts derived Hs) in HT by done. congruence.
Qed.

Lemma derive_mint_sim {E : Type} adjs (a a' : Account) d vs :
  ofold (apply_adjustment (E := E)) a adjs = Ok a' → sim a d →
  ∃ d', foldl derive_mint_step (d, vs) adjs = (d', vs) ∧ sim a' d'.
Proof.
  revert a d. induction adjs as [|adj adjs IH]; intros a d H Hsim; [simplify_eq/=; eauto|].
  cbn [ofold] in H. destruct (apply_adjustment a adj) as [a1| |] eqn:Ha; [|done..]. cbn [mbind outcome_bind] in H.
  unfold apply_adjustment in Ha. destruct (add0 I64 (acc_positions a) _ _) as [p| |] eqn:Hp; [|done..]. apply add0_Ok in Hp as [Hr ->].
  cbn [mbind outcome_bind] in Ha. destruct (arith I64 _) as [b| |] eqn:Hb; [|done..]. apply arith_Ok in Hb as [-> Hbr].
  cbn [mbind outcome_bind] in Ha. injection Ha as <-. cbn [foldl derive_mint_step].
  rewrite (sim_positions _ _ Hsim), chk_in by done. rewrite (sim_balance _ _ Hsim), chk_in by done.
  eapply IH; [exact H|]. destruct Hsim as [H1 H2 H3 H4 H5]. constructor; cbn; try done.
  intros k. rewrite !get0_insert. case_decide; [done|apply H3].
Qed.

(** ** The minting phase *)

Lemma derive_mint_phase_sim blake3 iter accounts r totals adjs prices h accounts' :
  (∀ m, iter m ≡ₚ map_to_list m) → sims accounts (dse_accounts r) → share_volume accounts ≤ int_max I64 →
  (∀ m, totals_for totals m = (pos_total (m, 0) accounts, pos_total (m, 1) accounts)) →
  derive_minting_checked (minting_inputs totals) prices = Ok adjs →
  mint_phase (E := unit) blake3 accounts adjs h = Ok accounts' →
  int_min I64 ≤ - dse_fill_balance_delta r ≤ int_max I64 →
  ∃ r', derive_mint_phase (E := unit) blake3 iter prices h r = Ok r' ∧ sims accounts' (dse_accounts r') ∧
    dse_minting_cost r' = - dse_fill_balance_delta r ∧
    dse_violations r' = dse_violations r ++ ((λ _, VK.MintingWithoutClearingPrice) <$> filter (λ a, ma_balance_delta a = 0) adjs).
Proof.
  intros Hiter Hs Hvol Ht Hadj Hmint Hfbd. unfold derive_mint_phase.
  rewrite (verifier_totals_ok iter Hiter accounts _ Hs Hvol). cbn [default from_option id].
  rewrite (verifier_minting accounts (dse_accounts r) totals prices Hs Ht), Hadj. cbn [mbind outcome_bind].
  unfold minting_cost_from_fill_balance_delta_checked. rewrite chk_in by done. cbn [ok_or]. cbv zeta.
  destruct adjs as [|adj adjs].
  { cbn in Hmint. injection Hmint as <-. eexists. split; [done|]. rewrite filter_nil. cbn. rewrite app_nil_r. done. }
  unfold mint_phase in Hmint. destruct (accounts !! AccountId_MINT) as [mint|] eqn:Hm; [|done]. cbn [expect mbind outcome_bind] in Hmint.
  unfold apply_minting in Hmint. destruct (ofold apply_adjustment mint (adj :: adjs)) as [mint'| |] eqn:Hfold; [|done..].
  cbn [mbind outcome_bind] in Hmint. injection Hmint as <-.
  destruct (sims_lookup _ _ _ _ Hs Hm) as (d & Hd & Hsim).
  destruct (derive_mint_sim (adj :: adjs) mint mint' d [] Hfold Hsim) as (d' & Hd' & Hsim').
  cbn [set_minting_cost dse_accounts]. rewrite Hd. cbn [default from_option id]. rewrite Hd'.
  eexists. split; [done|]. cbn [set_derived push_violations dse_accounts dse_minting_cost dse_violations]. rewrite app_nil_r.
  split; [|done]. apply sims_insert; [done|]. destruct Hsim'. constructor; cbn; congruence || auto.
Qed.

(** ** Ids are stable *)

Definition ids_ok (accounts : gmap Z Account) : Prop := ∀ id a, accounts !! id = Some a → acc_id a = id.

Lemma settle_ids {E : Type} blake3 om h fills s s' :
  ofold (settle_batch_step (E := E) blake3 om h) s fills = Ok s' → ids_ok (bs_accounts s) → ids_ok (bs_accounts s').
Proof.
  intros H Hids. refine (ofold_inv (λ s _, ids_ok (bs_accounts s)) _ s fills s' Hids _ H).
  clear. intros s f k s' Hids H. unfold settle_batch_step in H.
  destruct (fill_qty f =? 0); [by simplify_eq|]. destruct (om !! _) as [o|]; [|by simplify_eq].
  destruct (bs_accounts s !! fill_account_id f) as [a|] eqn:Ha; [|by simplify_eq].
  unfold settle_fill_with_delta in H. destruct (compute_fill_settlement o f) as [[d|]| |]; [|by simplify_eq/=|done..].
  cbn [mbind outcome_bind] in H. destruct (arith I64 _); [|done..]. cbn [mbind outcome_bind] in H.
  destruct (apply_positions _ _); [|done..]. cbn [mbind outcome_bind] in H. injection H as <-. cbn [bs_accounts].
  intros id b [[<- <-]|[_ Hb]]%lookup_insert_Some; [|by apply Hids]. cbn. by apply Hids.
Qed.

Lemma mint_ids {E : Type} blake3 accounts adjs h accounts' :
  mint_phase (E := E) blake3 accounts adjs h = Ok accounts' → ids_ok accounts → ids_ok accounts'.
Proof.
  unfold mint_phase. destruct adjs as [|adj adjs]; [by intros [= <-]|]. intros H Hids.
  destruct (accounts !! AccountId_MINT) as [mint|] eqn:Hm; [|done]. cbn [expect mbind outcome_bind] in H. unfold apply_minting in H.
  destruct (ofold apply_adjustment mint (adj :: adjs)) as [mint'| |] eqn:Hf; [|done..]. cbn [mbind outcome_bind] in H. injection H as <-.
  assert (acc_id mint' = acc_id mint) as Hid.
  { refine (ofold_inv (λ a _, acc_id a = acc_id mint) _ mint (adj :: adjs) mint' eq_refl _ Hf).
    clear. intros a x k a' Heq H. unfold apply_adjustment in H. destruct (add0 _ _ _ _); [|done..]. cbn [mbind outcome_bind] in H.
    destruct (arith _ _); [|done..]. cbn [mbind outcome_bind] in H. by injection H as <-. }
  intros id b [[<- <-]|[_ Hb]]%lookup_insert_Some; [|by apply Hids]. cbn. rewrite Hid. by apply Hids.
Qed.

(** ** Comparison *)

Lemma compare_sim (oa : option Account) od :
  option_Forall2 sim oa od →
  compare_account od ((λ a, canonicalize_snapshot (snapshot_account a)) <$> oa) = [].
Proof.
  intros [a d Hsim|]; [|done]. cbn [fmap option_fmap option_map compare_account]. destruct Hsim as [H1 H2 H3 H4 H5].
  set (c := canonicalize_snapshot (snapshot_account a)). cbn [from_option].
  assert (asn_balance c = acc_balance a) as -> by done. assert (asn_total_deposited c = acc_total_deposited a) as -> by done.
  assert (asn_events_digest c = acc_events_digest a) as -> by done.
  assert (asn_last_trading_nonce c = acc_last_trading_nonce a) as -> by done.
  rewrite H1, H2, H5, !Z.eqb_refl, decide_True by done. cbn [app].
  unfold position_mismatches. apply elem_of_nil_inv. intros v (k & _ & Hk)%list_elem_of_omap.
  pose proof (canonical_positions_get0 _ _ k (snapshot_positions_perm a)) as Hg. fold c in Hg.
  rewrite Hg, H3, Z.eqb_refl in Hk. by destruct (_ && _).
Qed.

Lemma sims_negative_balance iter accounts derived v :
  (∀ m, iter m ≡ₚ map_to_list m) → sims accounts derived → v ∈ negative_balances iter derived →
  v = VK.NegativeBalance ∧ ∃ id a, accounts !! id = Some a ∧ id ≠ AccountId_MINT ∧ acc_balance a < 0.
Proof.
  intros Hiter Hs ([id d] & Hin & Hv)%list_elem_of_omap. rewrite Hiter in Hin. apply elem_of_map_to_list in Hin.
  cbn [fst snd] in Hv. destruct (Z.ltb_spec (das_balance d) 0); [|done]. destruct (Z.eqb_spec id AccountId_MINT); [done|].
  simplify_eq/=. split; [done|]. specialize (Hs id). rewrite Hin in Hs. inversion Hs as [a ? Hsim Ha|]; subst.
  exists id, a. rewrite <- (sim_balance _ _ Hsim). done.
Qed.

Lemma sims_negative_position iter accounts derived v :
  (∀ m, iter m ≡ₚ map_to_list m) → sims accounts derived → v ∈ negative_positions iter derived →
  v = VK.NegativePosition ∧ ∃ id a k, accounts !! id = Some a ∧ id ≠ AccountId_MINT ∧ get0 (acc_positions a) k < 0.
Proof.
  intros Hiter Hs ([id d] & Hv & Hin)%list_elem_of_bind. rewrite Hiter in Hin. apply elem_of_map_to_list in Hin.
  cbn [fst snd] in Hv. destruct (Z.eqb_spec id AccountId_MINT); [by apply not_elem_of_nil in Hv|].
  apply list_elem_of_omap in Hv as ([k q] & Hk%elem_of_map_to_list & Hv). cbn [snd] in Hv. destruct (Z.ltb_spec q 0); [|done].
  simplify_eq. split; [done|]. specialize (Hs id). rewrite Hin in Hs. inversion Hs as [a ? Hsim Ha|]; subst.
  exists id, a, k. rewrite <- (sim_positions _ _ Hsim). unfold get0. rewrite Hk. done.
Qed.

(** ** Properties *)

(** What the sequencer puts in the witness of a finalised block. *)
Record settled_witness (iter : gmap Z Account → list (Z * Account)) (accounts : gmap Z Account) (orders : list Order)
    (fills : list Fill) (prices : Prices) (h : Z) (r : FinalizedBlockState) (w : BlockWitness) : Prop := {
  sw_pre : bw_post_system_state w = CanonicalState_from_accounts (iter accounts);
  sw_post : bw_post_state w = CanonicalState_from_accounts (iter (fbs_accounts r));
  sw_fills : bw_fills w = fills;
  sw_prices : bw_clearing_prices w = prices;
  sw_height : hd_height (bw_header w) = h;
  sw_cost : bw_minting_cost w = fbs_minting_cost r;
  sw_orders : Forall (witnessed (keyed (λ o, ord_id (wo_order o)) (bw_orders w)) (order_map orders)) fills;
}.

(** ** Imbalances worth nothing *)

(** How many more shares of outcome [o] than of the other the fills create. *)
Definition fill_surplus (orders : list Order) (fills : list Fill) (m o : Z) : Z :=
  let ds := fills ≫= share_term (order_map orders) in delta_total (m, o) ds - delta_total (m, 1 - o) ds.
Definition worthless_surplus (orders : list Order) (fills : list Fill) (prices : Prices) (m o : Z) : Prop :=
  (o = 0 ∨ o = 1) ∧ 0 < fill_surplus orders fills m o ∧ clearing_price prices m (Z.to_nat o) * fill_surplus orders fills m o < SHARE_SCALE.

Definition adjustment_of (prices : Prices) (t : MarketId * Z * Z) : list MintAdjustment :=
  let '(m, y, n) := t in
  if decide (y = n) then [] else
  let o := if decide (n < y) then 0 else 1 in
  [mkMintAdjustment m o (- Z.abs (y - n)) (clearing_price prices m (Z.to_nat o) * Z.abs (y - n) / SHARE_SCALE)].
Lemma derive_minting_eq prices l : prices_ok prices → (∀ t, t ∈ l → imbalance t ≤ 9000000000000) →
  derive_minting_checked l prices = Ok (l ≫= adjustment_of prices).
Proof.
  intros Hp. induction l as [|[[m y] n] l IH]; intros Hl; [done|].
  rewrite derive_minting_checked_cons, mint_adjustment_total; [|done|by apply (Hl (m, y, n)); left].
  cbn [mbind outcome_bind]. rewrite IH by (intros; apply Hl; by right). done.
Qed.
Lemma worthless_adjustment prices m y n : prices_ok prices →
  (∃ a, a ∈ adjustment_of prices (m, y, n) ∧ ma_balance_delta a = 0) ↔
  ∃ o, (o = 0 ∨ o = 1) ∧ let q := if decide (o = 0) then y - n else n - y in 0 < q ∧ clearing_price prices m (Z.to_nat o) * q < SHARE_SCALE.
Proof.
  intros Hp. unfold adjustment_of. assert (∀ i q, 0 ≤ q → clearing_price prices m i * q / SHARE_SCALE = 0 ↔ clearing_price prices m i * q < SHARE_SCALE) as Hdiv.
  { intros i q Hq. pose proof (clearing_price_range prices m i Hp). rewrite Z.div_small_iff by mlia. mnia. }
  destruct (decide (y = n)) as [->|Hne].
  { split; [by intros (a & ?%not_elem_of_nil & _)|]. intros (o & _ & H & _). destruct (decide (o = 0)); lia. }
  cbn zeta. split.
  - intros (a & ->%list_elem_of_singleton & Hz). cbn [ma_balance_delta] in Hz. apply Hdiv in Hz; [|lia].
    destruct (decide (n < y)); [exists 0|exists 1]; (split; [auto|]); cbn [decide] in *.
    + rewrite decide_True by done. rewrite Z.abs_eq in Hz by lia. split; [lia|done].
    + rewrite decide_False by done. rewrite Z.abs_neq in Hz by lia. replace (n - y) with (- (y - n)) by lia. split; [lia|done].
  - intros (o & Ho & Hq & Hlt). eexists. split; [apply list_elem_of_singleton; reflexivity|]. cbn [ma_balance_delta]. apply Hdiv; [lia|].
    destruct Ho as [->| ->]; [rewrite decide_True in Hq, Hlt by done|rewrite decide_False in Hq, Hlt by done].
    + rewrite decide_True by lia. rewrite Z.abs_eq by lia. done.
    + rewrite decide_False by lia. rewrite Z.abs_neq by lia. by replace (- (y - n)) with (n - y) by lia.
Qed.

Lemma delta_total_abs k ds : Z.abs (delta_total k ds) ≤ sumZ (λ d, Z.abs d.2) ds.
Proof.
  unfold delta_total. induction ds as [|[k' q] ds IH]; cbn [sumZ]; [lia|]. cbn [snd]. destruct (decide _); lia.
Qed.

(** The layer reports a worthless adjustment exactly when the fills have one. *)
Lemma zero_adjustments blake3 iter accounts markets orders fills prices h r s totals adjs :
  admissible_block accounts orders fills prices → finalize_trace blake3 iter accounts markets orders fills prices h r s totals adjs →
  derive_minting_checked (minting_inputs totals) prices = Ok adjs →
  (∃ a, a ∈ adjs ∧ ma_balance_delta a = 0) ↔ ∃ m o, worthless_surplus orders fills prices m o.
Proof.
  intros AB T Hadj. destruct (admissible_settles AB blake3 h) as (s' & Hs' & _ & _ & _ & _ & Hds & Hvol). rewrite (ft_settled T) in Hs'. injection Hs' as <-.
  assert (∀ k, pos_total k (bs_accounts s) = pos_total k accounts + delta_total k (fills ≫= share_term (order_map orders))) as Hpos by exact (trace_settled_positions T AB).
  rewrite Hds in Hvol. assert (∀ m, (totals_for totals m).1 - (totals_for totals m).2 = fill_surplus orders fills m 0) as Hsur.
  { intros m. rewrite (ft_totals T). cbn [fst snd]. rewrite !Hpos, (ab_balanced AB). unfold fill_surplus. change (1 - 0) with 1. lia. }
  assert (∀ m, fill_surplus orders fills m 1 = - fill_surplus orders fills m 0) as Hneg by (intros m; unfold fill_surplus; change (1 - 1) with 0; change (1 - 0) with 1; lia).
  assert (∀ m y n, (m, y, n) ∈ minting_inputs totals → y - n = fill_surplus orders fills m 0) as Hin.
  { intros m y n Hm. apply sorted_totals_spec in Hm. rewrite <- Hsur. unfold totals_for. by rewrite Hm. }
  rewrite derive_minting_eq in Hadj by (apply AB || (intros [[m y] n] Hm; unfold imbalance; cbn [fst snd]; rewrite (Hin _ _ _ Hm); unfold fill_surplus;
    pose proof (delta_total_abs (m, 0) (fills ≫= share_term (order_map orders))); pose proof (delta_total_abs (m, 1 - 0) (fills ≫= share_term (order_map orders))); lia)).
  injection Hadj as <-. split.
  - intros (a & ([[m y] n] & Ha & Hm)%list_elem_of_bind & Hz). pose proof (Hin _ _ _ Hm) as Hyn.
    destruct (proj1 (worthless_adjustment prices m y n (ab_prices AB)) (ex_intro _ a (conj Ha Hz))) as (o & Ho & Hq). exists m, o. split; [done|].
    destruct Ho as [->| ->]; cbn in Hq; [by rewrite <- Hyn|]. rewrite Hneg, <- Hyn. by replace (- (y - n)) with (n - y) by lia.
  - intros (m & o & Ho & Hq). destruct (totals !! m) as [[y n]|] eqn:Hm.
    + assert ((m, y, n) ∈ minting_inputs totals) as Hmi by (by apply sorted_totals_spec). pose proof (Hin _ _ _ Hmi) as Hyn.
      destruct (proj2 (worthless_adjustment prices m y n (ab_prices AB))) as (a & Ha & Hz).
      { exists o. split; [done|]. destruct Ho as [->| ->]; cbn; [by rewrite Hyn|]. replace (n - y) with (- (y - n)) by lia. by rewrite Hyn, <- Hneg. }
      exists a. split; [|done]. apply list_elem_of_bind. by exists (m, y, n).
    + exfalso. specialize (Hsur m). unfold totals_for in Hsur. rewrite Hm in Hsur. cbn in Hsur. destruct Ho as [->| ->]; rewrite ?Hneg in Hq; lia.
Qed.

(** C6: layer 2 accepts what the sequencer settles: on an admissible block, the
    verifier's replay of the witness reproduces every balance, deposit total,
    position, digest and nonce of the sequencer's post-state and its minting
    cost.  The only violations it can report are a genuinely negative balance or
    position of a user account, and [MintingWithoutClearingPrice], which it reports
    exactly when the fills of the block create more shares of one outcome of a
    market than of the other and that surplus, at the outcome's clearing price (zero
    when there is none), is worth less than one nanodollar.  Admissible: at most 4000
    fills, each within its order's limit and at a price up to a dollar, on existing
    accounts of bounded volume whose markets are balanced before the block. *)
Theorem settlement_verifier_accepts (blake3 : Bytes → Bytes) (iter : gmap Z Account → list (Z * Account))
    (iterd : gmap Z DerivedAccountState → list (Z * DerivedAccountState)) (accounts : gmap Z Account)
    (markets : list MarketId) (orders : list Order) (fills : list Fill) (prices : Prices) (h : Z)
    (r : FinalizedBlockState) (w : BlockWitness) :
  (∀ m, iter m ≡ₚ map_to_list m) → (∀ m, iterd m ≡ₚ map_to_list m) →
  admissible_block accounts orders fills prices → ids_ok accounts →
  finalize_block_state_phase (E := unit) blake3 iter accounts markets orders fills prices h = Ok r →
  settled_witness iter accounts orders fills prices h r w →
  ∃ res, verify_settlement (E := unit) blake3 iterd w = Ok res ∧
    (∀ v, v ∈ vr_violations res →
      (v = VK.NegativeBalance ∧ ∃ id a, fbs_accounts r !! id = Some a ∧ id ≠ AccountId_MINT ∧ acc_balance a < 0) ∨
      (v = VK.NegativePosition ∧ ∃ id a k, fbs_accounts r !! id = Some a ∧ id ≠ AccountId_MINT ∧ get0 (acc_positions a) k < 0) ∨
      v = VK.MintingWithoutClearingPrice) ∧
    (VK.MintingWithoutClearingPrice ∈ vr_violations res ↔ ∃ m o, worthless_surplus orders fills prices m o).
Proof.
  intros Hiter Hiterd AB Hids Hr W.
  destruct (admissible_finalizes AB blake3 iter Hiter h markets) as (r' & s & totals & adjs & Hr' & T & Hnil & Hadj & Hminted & Hcost).
  rewrite Hr in Hr'. injection Hr' as <-.
  pose proof (admissible_cash AB) as Hcash. pose proof (ab_count AB) as Hcount.
  destruct (admissible_settles AB blake3 h) as (s' & Hs' & _ & _ & _ & Hvol & _). rewrite (ft_settled T) in Hs'. injection Hs' as <-.
  set (omw := keyed (λ o, ord_id (wo_order o)) (bw_orders w)). set (L := CanonicalState_from_accounts (iter accounts)).
  set (r0 := foldl load_snapshot (mkDerivedSettlement ∅ [] 0 0 0) L).
  destruct (load_snapshots_accounts L (mkDerivedSettlement ∅ [] 0 0 0)) as (_ & Hv0 & Hf0). fold r0 in Hv0, Hf0.
  destruct (derive_fills_sim blake3 omw (order_map orders) h fills (mkBatchState accounts [] []) s r0) as (r1 & Hr1 & Hs1 & Hv1 & Hfb1).
  { exact (ft_settled T). } { apply AB. } { apply (sw_orders _ _ _ _ _ _ _ _ W). } { apply AB. }
  { by apply load_sims. } { rewrite Hf0. cbn. int_lia. }
  rewrite Hf0, Hv0 in *. cbn [dse_fill_balance_delta dse_violations Z.add] in *.
  destruct (derive_mint_phase_sim blake3 iterd (bs_accounts s) r1 totals adjs prices h (fbs_accounts r)) as (r2 & Hr2 & Hs2 & Hc2 & Hv2);
    [done|done|int_lia|apply T|done|apply T|int_lia|].
  rewrite Hv1 in Hv2. cbn [app] in Hv2.
  unfold verify_settlement, derive_post_state. rewrite (sw_pre _ _ _ _ _ _ _ _ W), (sw_fills _ _ _ _ _ _ _ _ W),
    (sw_prices _ _ _ _ _ _ _ _ W), (sw_height _ _ _ _ _ _ _ _ W), (sw_post _ _ _ _ _ _ _ _ W). fold L omw r0.
  rewrite Hr1. cbn [mbind outcome_bind]. rewrite Hr2. cbn [mbind outcome_bind]. cbv zeta. eexists. split; [done|]. cbn [vr_violations].
  rewrite (sw_cost _ _ _ _ _ _ _ _ W), Hc2, Hcost, Hfb1, Z.eqb_refl. cbn [app].
  rewrite Hv2. pose proof (zero_adjustments _ _ _ _ _ _ _ _ _ _ _ _ AB T Hadj) as Hzero.
  assert (VK.MintingWithoutClearingPrice ∈ (λ _ : MintAdjustment, VK.MintingWithoutClearingPrice) <$> filter (λ a, ma_balance_delta a = 0) adjs ↔
    ∃ a, a ∈ adjs ∧ ma_balance_delta a = 0) as Hflag.
  { rewrite list_elem_of_fmap. split; [intros (a & _ & [? ?]%list_elem_of_filter); by exists a|]. intros (a & ? & ?). exists a. split; [done|]. by apply list_elem_of_filter. }
  match goal with |- _ ∧ (_ ∈ _ ++ ?rest ↔ _) => assert (∀ v, v ∈ rest → (v = VK.NegativeBalance ∧ ∃ id a, fbs_accounts r !! id = Some a ∧ id ≠ AccountId_MINT ∧ acc_balance a < 0) ∨
      (v = VK.NegativePosition ∧ ∃ id a k, fbs_accounts r !! id = Some a ∧ id ≠ AccountId_MINT ∧ get0 (acc_positions a) k < 0)) as Hrest end; [|split].
  2: { intros v [(a & -> & _)%list_elem_of_fmap|Hv]%elem_of_app; [by right; right|]. destruct (Hrest v Hv) as [?|?]; auto. }
  2: { rewrite elem_of_app, Hflag, Hzero. split; [|by left]. intros [?|Hv]; [done|]. by destruct (Hrest _ Hv) as [[? _]|[? _]]. }
  intros v. rewrite !elem_of_app. intros [Hv|[Hv|Hv]].
  - left. by eapply sims_negative_balance.
  - right. by eapply sims_negative_position.
  - exfalso. apply list_elem_of_bind in Hv as (id & Hv & _). rewrite (canonical_lookup iter Hiter) in Hv.
    + rewrite compare_sim in Hv by apply Hs2. by apply not_elem_of_nil in Hv.
    + apply (mint_ids _ _ _ _ _ (ft_minted T)). by apply (settle_ids _ _ _ _ _ _ (ft_settled T)).
Qed.

Definition ex_settled_witness : BlockWitness :=
  mkBlockWitness (ex_header 9) (Some (ex_header 8)) []
    [mkWitnessOrder (binary_order 1 3 BuyYes 600000000 5000) 1 false; mkWitnessOrder (binary_order 2 3 BuyNo 500000000 4000) 2 false]
    [] [] (mkDepositAccumulatorWitness [] 0 []) ex_fills ex_prices 0 (fbs_minting_cost ex_finalized) [] [] []
    (CanonicalState_from_accounts (map_to_list ex_accounts)) (CanonicalState_from_accounts (map_to_list (fbs_accounts ex_finalized))) []
    (ex_sidecar ex_post) (ex_sidecar ex_book) [].

Lemma settlement_verifier_accepts_witness :
  (vr_valid <$> verify_settlement (E := unit) (λ l, l) map_to_list ex_settled_witness) = Ok true ∧
  ∃ res, verify_settlement (E := unit) (λ l, l) map_to_list ex_settled_witness = Ok res ∧
    (∀ v, v ∈ vr_violations res →
      (v = VK.NegativeBalance ∧ ∃ id a, fbs_accounts ex_finalized !! id = Some a ∧ id ≠ AccountId_MINT ∧ acc_balance a < 0) ∨
      (v = VK.NegativePosition ∧ ∃ id a k, fbs_accounts ex_finalized !! id = Some a ∧ id ≠ AccountId_MINT ∧ get0 (acc_positions a) k < 0) ∨
      v = VK.MintingWithoutClearingPrice) ∧
    (VK.MintingWithoutClearingPrice ∈ vr_violations res ↔ ∃ m o, worthless_surplus ex_orders ex_fills ex_prices m o).
Proof.
  split; [vm_compute; reflexivity|].
  apply (settlement_verifier_accepts (λ l, l) map_to_list map_to_list ex_accounts [3] ex_orders ex_fills ex_prices 9).
  - intros m. reflexivity.
  - intros m. reflexivity.
  - exact ex_admissible.
  - intros id a Ha. unfold ex_accounts in Ha. rewrite !lookup_insert_Some, lookup_singleton_Some in Ha. naive_solver.
  - vm_compute. reflexivity.
  - constructor; try reflexivity. repeat apply Forall_cons_2; [..|constructor];
      (eexists; split; [vm_compute; reflexivity|]; split; vm_compute; reflexivity).
Defined.
