(* ===== verification/MatchVerifier.v ===== *)
(** * MatchVerifier: layer 1 checks fills and clearing prices

    Models [crates/sybil-verifier/src/match_verifier.rs] and [arithmetic.rs]: the
    per-fill checks, market-maker budgets, order-id uniqueness, price
    complementarity, resolved markets, conditional activation and uniform
    clearing prices.  Details of violations are left out; loops over hash maps
    list their violations in some order. *)
From S2P Require Import Prelude Types Order EngineSettlement MmConstraint Account Digest BatchSettlement Finalize Conservation Witness Sidecar.

(** ** Overflow-safe arithmetic *)

Definition checked_price_qty (price : Nanos) (qty : Qty) : option Z := checked_notional_i64 price qty.
Definition checked_price_qty_ceil (price : Nanos) (qty : Qty) : option Z := checked_notional_ceil_i64 price qty.
Definition price_qty (price : Nanos) (qty : Qty) : Z := wrap I64 (notional_nanos price qty).

Definition checked_welfare (limit_price fill_price : Nanos) (fill_qty : Qty) (is_seller : bool) : option Z :=
  if fill_qty =? 0 then Some 0 else
  surplus_per_unit ←
    (if is_seller then
       f ← chk I64 fill_price; l ← chk I64 limit_price; chk I64 (f - l)
     else
       l ← chk I64 limit_price; f ← chk I64 fill_price; chk I64 (l - f));
  checked_signed_price_delta_notional surplus_per_unit fill_qty.

Definition welfare (limit_price fill_price : Nanos) (fill_qty : Qty) (is_seller : bool) : Z :=
  default 0 (checked_welfare limit_price fill_price fill_qty is_seller).

Definition checked_position_qty (payoff : Z) (qty : Qty) : option Z :=
  q ← chk I64 qty; chk I64 (payoff * q).

(** ** Per-fill checks *)

(** The order map of the witness: the last order of an id wins. *)
Definition witness_order_map (w : BlockWitness) : gmap Z Order :=
  wo_order <$> keyed (λ o, ord_id (wo_order o)) (bw_orders w).

(** [push] the violation if the condition holds. *)
Definition flag (b : bool) (v : Violation) : list Violation := if b then [v] else [].

(** The loop body: violations, filled order ids and the gross welfare so far. *)
Definition verify_fill_step {E} (om : gmap Z Order) (acc : list Violation * gset Z * Z) (f : Fill)
    : outcome E (list Violation * gset Z * Z) :=
  let '(vs, filled, gross) := acc in
  match om !! fill_order_id f with
  | None => Ok (vs ++ [VK.OrderNotFound], filled, gross)
  | Some o =>
      seller ← is_seller o;
      let price_violated := if (seller : bool) then fill_price f <? ord_limit_price o else ord_limit_price o <? fill_price f in
      let vs := vs ++ flag (bool_decide (fill_order_id f ∈ filled)) VK.DuplicateFill ++
        flag (ord_max_fill o <? fill_qty f) VK.QuantityExceedsMax ++
        flag (fill_qty f =? 0) VK.ZeroQuantityFill ++
        flag (NANOS_PER_DOLLAR <? ord_limit_price o) VK.SettlementOverflow ++
        flag (NANOS_PER_DOLLAR <? fill_price f) VK.SettlementOverflow ++
        flag price_violated VK.PriceExceedsLimit in
      let filled := {[fill_order_id f]} ∪ filled in
      match checked_welfare (ord_limit_price o) (fill_price f) (fill_qty f) seller with
      | None => Ok (vs ++ [VK.SettlementOverflow], filled, gross)
      | Some fill_welfare =>
          let vs := vs ++ flag (fill_welfare <? 0) VK.NegativeWelfare in
          match checked_price_qty (ord_limit_price o) (fill_qty f) with
          | None => Ok (vs ++ [VK.SettlementOverflow], filled, gross)
          | Some gross_value =>
              match (if seller then chk I64 (- gross_value) else Some gross_value) with
              | None => Ok (vs ++ [VK.SettlementOverflow], filled, gross)
              | Some contribution =>
                  match chk I64 (gross + contribution) with
                  | None => Ok (vs ++ [VK.SettlementOverflow], filled, gross)
                  | Some updated => Ok (vs, filled, updated)
                  end
              end
          end
      end
  end.

(** The violations and the computed net welfare. *)
Definition verify_fills {E} (fills : list Fill) (om : gmap Z Order) (reported_welfare minting_cost : Z)
    : outcome E (list Violation * Z) :=
  '(vs, _, gross) ← ofold (verify_fill_step om) ([], ∅, 0) fills;
  match chk I64 (gross - minting_cost) with
  | None => Ok (vs ++ [VK.SettlementOverflow], 0)
  | Some expected_welfare =>
      let vs := vs ++ flag (expected_welfare <? 0) VK.NegativeWelfare in
      match chk I64 (expected_welfare - reported_welfare) with
      | None => Ok (vs ++ [VK.SettlementOverflow], expected_welfare)
      | Some welfare_delta => Ok (vs ++ flag (0 <? Z.abs welfare_delta) VK.WelfareMismatch, expected_welfare)
      end
  end.

(** ** Market-maker budgets *)

(** The market maker's fills with a positive quantity. *)
Definition mm_fills (fills : list Fill) (mm : MmConstraint) : gmap Z (Nanos * Qty) :=
  let fill_map := keyed fill_order_id fills in
  foldl (λ m order_id,
    match fill_map !! order_id with
    | Some f => if 0 <? fill_qty f then <[order_id := (fill_price f, fill_qty f)]> m else m
    | None => m
    end) ∅ (mm_order_ids mm).

Definition verify_mm_constraint (fills : list Fill) (mm : MmConstraint) : list Violation :=
  match checked_capital_used mm (mm_fills fills mm) with
  | None => [VK.SettlementOverflow]
  | Some capital_used => flag (mm_max_capital mm <? capital_used) VK.MmBudgetExceeded
  end.

(** ** Market-level checks *)

Definition verify_order_id_uniqueness (w : BlockWitness) : list Violation :=
  collect_dups (λ o, ord_id (wo_order o)) (λ _, VK.DuplicateOrderId) ∅ (bw_orders w).

Definition price_is_in_protocol_range (price : Nanos) : bool := price <=? NANOS_PER_DOLLAR.

Definition market_price_violations (prices : list Nanos) : list Violation :=
  (p ← prices; flag (negb (price_is_in_protocol_range p)) VK.SettlementOverflow) ++
  match prices with
  | [yes; no] =>
      match Nanos_checked_add yes no with
      | None => [VK.SettlementOverflow]
      | Some sum => flag (negb (sum =? NANOS_PER_DOLLAR)) VK.PriceComplementarityViolation
      end
  | _ => []
  end.

Definition verify_price_complementarity (w : BlockWitness) : list Violation :=
  e ← map_to_list (bw_clearing_prices w); market_price_violations e.2.

Definition verify_resolved_markets (w : BlockWitness) (om : gmap Z Order) : list Violation :=
  match bw_resolved_markets w with
  | [] => []
  | _ =>
      let resolved : gset Z := list_to_set (bw_resolved_markets w) in
      f ← bw_fills w;
      if fill_qty f =? 0 then [] else
      match om !! fill_order_id f with
      | None => []
      | Some o => m ← active_markets o; flag (bool_decide (m ∈ resolved)) VK.ResolvedMarketViolation
      end
  end.

Definition verify_conditional_activation (w : BlockWitness) (om : gmap Z Order) : list Violation :=
  f ← bw_fills w;
  if fill_qty f =? 0 then [] else
  match om !! fill_order_id f with
  | None => []
  | Some o =>
      match ord_condition o with
      | None => []
      | Some c =>
          match bw_clearing_prices w !! pc_market c with
          | None => [VK.ConditionalActivationViolation]
          | Some prices =>
              let yes_price := default 0 (head prices) in
              let condition_met := match pc_direction c with
                                   | Above => pc_threshold c <? yes_price
                                   | Below => yes_price <? pc_threshold c
                                   end in
              flag (negb condition_met) VK.ConditionalActivationViolation
          end
      end
  end.

(** The outcome a one-hot payoff pair is about. *)
Definition expected_outcome (yes_payoff no_payoff : Z) : option nat :=
  if ((yes_payoff =? 1) || (yes_payoff =? -1)) && (no_payoff =? 0) then Some 0%nat
  else if (yes_payoff =? 0) && ((no_payoff =? 1) || (no_payoff =? -1)) then Some 1%nat
  else None.

Definition verify_fill_price {E} (w : BlockWitness) (om : gmap Z Order) (f : Fill) : outcome E (list Violation) :=
  if fill_qty f =? 0 then Ok [] else
  match om !! fill_order_id f with
  | None => Ok []
  | Some o =>
      if negb (ord_num_markets o =? 1) then Ok [] else
      market ← idx (ord_markets o) 0;
      if negb (ord_num_states o =? 2) then Ok [] else
      yes_payoff ← idx (ord_payoffs o) 0;
      no_payoff ← idx (ord_payoffs o) 1;
      match expected_outcome yes_payoff no_payoff with
      | None => Ok []
      | Some out =>
          match (prices ← bw_clearing_prices w !! market; prices !! out) with
          | None => Ok [VK.UniformClearingPriceViolation]
          | Some expected => Ok (flag (negb (fill_price f =? expected)) VK.UniformClearingPriceViolation)
          end
      end
  end.

Definition verify_uniform_clearing_prices {E} (w : BlockWitness) (om : gmap Z Order) : outcome E (list Violation) :=
  vs ← omapM (verify_fill_price w om) (bw_fills w); Ok (concat vs).

(** The group price quality metric, a statistic. *)
Definition market_group_avg_delta (w : BlockWitness) : Z :=
  let group_delta g :=
    let sum := foldl (λ sum m, match (prices ← bw_clearing_prices w !! m; head prices) with
                               | Some yes_price => sat U64 (sum + yes_price) | None => sum end) 0 (mg_markets g) in
    Z.abs (sum - NANOS_PER_DOLLAR) in
  foldl (λ total g, sat U64 (total + group_delta g)) 0 (bw_market_groups w) / Z.of_nat (length (bw_market_groups w)).

Definition verify_match {E} (w : BlockWitness) (diagnostics : bool) : outcome E VerificationResult :=
  let om := witness_order_map w in
  '(v_fills, computed_welfare) ← verify_fills (bw_fills w) om (bw_total_welfare w) (bw_minting_cost w);
  v_ucp ← verify_uniform_clearing_prices w om;
  let violations := v_fills ++ (mm ← bw_mm_constraints w; verify_mm_constraint (bw_fills w) mm) ++
    verify_order_id_uniqueness w ++ verify_price_complementarity w ++ verify_resolved_markets w om ++
    verify_conditional_activation w om ++ v_ucp in
  Ok (mkVerificationResult (bool_decide (violations = [])) violations
        (mkVerificationStats (Z.of_nat (length (bw_fills w))) (Z.of_nat (size om)) (Z.of_nat (length (bw_mm_constraints w)))
           computed_welfare (bw_total_welfare w) 0 0
           (if diagnostics && negb (bool_decide (bw_market_groups w = [])) then Some (market_group_avg_delta w) else None))).

(** ** What the layer promises *)

(** The fill trades at or better than the order's limit. *)
Definition within_limit (o : Order) (d : OrderDirection) (f : Fill) : Prop :=
  if is_sell d then ord_limit_price o ≤ fill_price f else fill_price f ≤ ord_limit_price o.

(** A positive part of a known order, in protocol range and within its limit. *)
Definition fill_within_order (om : gmap Z Order) (f : Fill) : Prop :=
  ∃ o m d, om !! fill_order_id f = Some o ∧ one_hot o m d ∧ 0 < fill_qty f ≤ ord_max_fill o ∧
    fill_price f ≤ NANOS_PER_DOLLAR ∧ within_limit o d f.

(** The market condition of a conditional order, at the block's own prices. *)
Definition condition_holds (prices : gmap Z (list Nanos)) (o : Order) : Prop :=
  match ord_condition o with
  | None => True
  | Some c => ∃ ps, prices !! pc_market c = Some ps ∧
      match pc_direction c with
      | Above => pc_threshold c < default 0 (head ps)
      | Below => default 0 (head ps) < pc_threshold c
      end
  end.

(** The fill is at its outcome's clearing price, in a market still open, and the
    order's condition holds. *)
Definition fill_at_market (w : BlockWitness) (om : gmap Z Order) (f : Fill) : Prop :=
  ∀ o m d, om !! fill_order_id f = Some o → one_hot o m d →
    (ps ← bw_clearing_prices w !! m; ps !! Z.to_nat (dir_outcome d)) = Some (fill_price f) ∧
    m ∉ bw_resolved_markets w ∧ condition_holds (bw_clearing_prices w) o.

Definition prices_complementary (prices : gmap Z (list Nanos)) : Prop :=
  ∀ m ps, prices !! m = Some ps →
    Forall (λ p, p ≤ NANOS_PER_DOLLAR) ps ∧ ∀ y n, ps = [y; n] → y + n = NANOS_PER_DOLLAR.

Definition mm_within_budget (fills : list Fill) (mm : MmConstraint) : Prop :=
  ∃ used, checked_capital_used mm (mm_fills fills mm) = Some used ∧ used ≤ mm_max_capital mm.

Record match_valid (w : BlockWitness) : Prop := {
  mv_fills : Forall (fill_within_order (witness_order_map w)) (bw_fills w);
  mv_once : NoDup (fill_order_id <$> bw_fills w);
  mv_welfare : bw_total_welfare w = sumZ (gross_term (witness_order_map w)) (bw_fills w) - bw_minting_cost w;
  mv_gain : 0 ≤ bw_total_welfare w;
  mv_budgets : Forall (mm_within_budget (bw_fills w)) (bw_mm_constraints w);
  mv_ids : NoDup ((λ o, ord_id (wo_order o)) <$> bw_orders w);
  mv_prices : prices_complementary (bw_clearing_prices w);
  mv_market : Forall (fill_at_market w (witness_order_map w)) (bw_fills w);
}.

(** A witness whose values are in range and whose orders were admitted; 9000
    fills of admitted orders cannot overflow the welfare sum. *)
Record match_input (w : BlockWitness) : Prop := {
  mi_orders : Forall (λ o, order_wf (wo_order o) ∧ validate_binary_one_hot (wo_order o) = Ok ()) (bw_orders w);
  mi_fills : Forall fill_wf (bw_fills w);
  mi_count : Z.of_nat (length (bw_fills w)) ≤ 9000;
  mi_welfare : i64 (bw_total_welfare w);
  mi_prices m ps : bw_clearing_prices w !! m = Some ps → Forall u64 ps;
}.

(** ** Empty violation lists *)

Lemma flag_nil b v : flag b v = [] ↔ b = false.
Proof. by destruct b. Qed.

Lemma bind_nil {A B} (f : A → list B) l : l ≫= f = [] ↔ Forall (λ x, f x = []) l.
Proof.
  induction l as [|x l IH]; cbn [mbind list_bind]; [by split; constructor|]. rewrite Forall_cons, <- IH.
  split; [apply app_eq_nil|by intros [-> ->]].
Qed.

Lemma collect_dups_nil_iff {A B V} `{Countable B} (key : A → B) (dup : A → V) seen L :
  collect_dups key dup seen L = [] ↔ NoDup (key <$> L) ∧ ∀ x, x ∈ L → key x ∉ seen.
Proof.
  split; [|intros [? ?]; by apply collect_dups_nil].
  revert seen. induction L as [|x L IH]; intros seen; cbn [collect_dups]; [intros _; split; [constructor|set_solver]|].
  intros [Hd [Hnd Hs]%IH]%app_eq_nil. case_decide; [done|]. split.
  - cbn. apply NoDup_cons. split; [|done]. intros (y & Heq & Hy)%list_elem_of_fmap. specialize (Hs y Hy). set_solver.
  - intros y [->|Hy]%elem_of_cons; [done|]. specialize (Hs y Hy). set_solver.
Qed.

Lemma keyed_elem {A} (key : A → Z) L i x : keyed key L !! i = Some x → x ∈ L.
Proof.
  unfold keyed. enough (∀ m : gmap Z A, foldl (λ m x, <[key x := x]> m) m L !! i = Some x → x ∈ L ∨ m !! i = Some x) as H.
  { intros [?|?]%H; [done|]. by rewrite lookup_empty in *. }
  induction L as [|y L IH]; intros m; cbn [foldl]; [by right|].
  intros [?|[[_ ->]|[_ ?]]%lookup_insert_Some]%IH; [left; by right|left; by left|by right].
Qed.

(** ** The per-fill loop *)

Section fills.
Context {om : gmap Z Order}.
Context (Hom : ∀ i o, om !! i = Some o → order_wf o ∧ ∃ m d, one_hot o m d).

Lemma checked_welfare_in (l p q : Z) (s : bool) :
  0 ≤ l ≤ NANOS_PER_DOLLAR → 0 ≤ p ≤ NANOS_PER_DOLLAR → 0 ≤ q ≤ MAX_ORDER_QTY →
  (if s then l ≤ p else p ≤ l) → ∃ x, checked_welfare l p q s = Some x ∧ 0 ≤ x.
Proof.
  intros Hl Hp Hq Hs. unfold checked_welfare. destruct (Z.eqb_spec q 0); [by exists 0|].
  assert (∃ δ, 0 ≤ δ ≤ NANOS_PER_DOLLAR ∧ (if s then f ← chk I64 p; l0 ← chk I64 l; chk I64 (f - l0)
    else l0 ← chk I64 l; f ← chk I64 p; chk I64 (l0 - f)) = Some δ) as (δ & Hδ & ->).
  { rewrite (chk_in I64 p), (chk_in I64 l) by mlia. cbn [mbind option_bind].
    destruct s; rewrite chk_in by mlia; eexists; (split; [|reflexivity]); mlia. }
  cbn [mbind option_bind]. unfold checked_signed_price_delta_notional.
  rewrite Z.abs_eq, checked_notional_admissible by lia. cbn [mbind option_bind].
  destruct (Z.ltb_spec δ 0); [lia|]. eexists. split; [reflexivity|]. apply Z.div_pos; mnia.
Qed.

Lemma fill_step_good {E} filled gross f :
  fill_within_order om f → fill_wf f → fill_order_id f ∉ filled →
  Z.abs gross + 1000000000000000 ≤ int_max I64 →
  Z.abs (gross_term om f) ≤ 1000000000000000 ∧
  @verify_fill_step E om ([], filled, gross) f = Ok ([], {[fill_order_id f]} ∪ filled, gross + gross_term om f).
Proof.
  intros (o & m & d & Ho & Hoh & Hq & Hp & Hlim) [Hfq Hfp] Hni Hg. destruct (Hom _ _ Ho) as [Hwf _].
  pose proof (oh_max_fill _ _ _ Hoh). pose proof (oh_limit _ _ _ Hoh). pose proof (wf_limit _ Hwf).
  destruct (checked_welfare_in (ord_limit_price o) (fill_price f) (fill_qty f) (is_sell d)) as (x & Hx & Hx0);
    [mlia..| |].
  { unfold within_limit in Hlim. by destruct (is_sell d). }
  pose proof (admissible_notional (ord_limit_price o) (fill_qty f) ltac:(mlia) ltac:(mlia)).
  unfold verify_fill_step, gross_term. rewrite Ho, (one_hot_is_seller _ _ _ Hoh). cbn [mbind outcome_bind].
  rewrite Hx, (gross_welfare_one_hot o m d) by (mlia || assumption). unfold checked_price_qty. rewrite checked_notional_admissible by mlia.
  set (c := ord_limit_price o * fill_qty f / SHARE_SCALE) in *.
  assert ((if is_sell d then chk I64 (- c) else Some c) = Some (dir_sign d * c)) as ->.
  { destruct (dir_sign_cases d) as [[-> ->]|[-> ->]]; [f_equal; lia|]. rewrite chk_in by int_lia. f_equal; lia. }
  assert (Z.abs (dir_sign d * c) ≤ 1000000000000000) by (destruct (dir_sign_cases d) as [[-> _]|[-> _]]; lia).
  split; [done|]. rewrite chk_in by int_lia. do 3 f_equal.
  rewrite bool_decide_eq_false_2 by done. unfold within_limit in Hlim.
  repeat match goal with |- context [?a <? ?b] => destruct (Z.ltb_spec a b); try lia | |- context [?a =? ?b] => destruct (Z.eqb_spec a b); try lia end;
    destruct (is_sell d); done || lia.
Qed.

(** A step that adds no violation saw a good, new fill. *)
Lemma fill_step_clean {E} vs filled gross f : fill_wf f →
  ∃ vs' filled' gross', @verify_fill_step E om (vs, filled, gross) f = Ok (vs ++ vs', filled', gross') ∧
    (vs' = [] → fill_within_order om f ∧ fill_order_id f ∉ filled).
Proof.
  intros [Hfq Hfp]. unfold verify_fill_step. destruct (om !! fill_order_id f) as [o|] eqn:Ho; [|eexists _, _, _; split; [reflexivity|done]].
  destruct (Hom _ _ Ho) as [Hwf (m & d & Hoh)]. rewrite (one_hot_is_seller _ _ _ Hoh). cbn [mbind outcome_bind].
  repeat case_match; rewrite <- ?app_assoc; eexists _, _, _; (split; [reflexivity|]).
  all: rewrite ?app_nil; cbn [app]; rewrite ?flag_nil; try (intros; destruct_and?; done).
  all: rewrite bool_decide_eq_false, !Z.ltb_ge, Z.eqb_neq; intros (? & ? & ? & ? & ? & Hlim & ?).
  all: split; [|done]; exists o, m, d; split_and!; try done; [mlia|].
  all: unfold within_limit; by match goal with H : is_sell _ = _ |- _ => rewrite H end.
Qed.

Lemma fill_loop_grows {E} fills vs filled gross : Forall fill_wf fills →
  ∃ vs' filled' gross', ofold (@verify_fill_step E om) (vs, filled, gross) fills = Ok (vs ++ vs', filled', gross').
Proof.
  intros Hf. revert vs filled gross. induction Hf as [|f fills Hf _ IH]; intros vs filled gross.
  { exists [], filled, gross. by rewrite app_nil_r. }
  destruct (fill_step_clean (E := E) vs filled gross f Hf) as (v1 & f1 & g1 & Hs & _). cbn [ofold]. rewrite Hs. cbn [mbind outcome_bind].
  destruct (IH (vs ++ v1) f1 g1) as (v2 & f2 & g2 & ->). rewrite <- app_assoc. eauto.
Qed.

Lemma fill_loop {E} fills filled gross : Forall fill_wf fills →
  Z.abs gross + 1000000000000000 * Z.of_nat (length fills) ≤ int_max I64 →
  ∃ vs filled' gross', ofold (@verify_fill_step E om) ([], filled, gross) fills = Ok (vs, filled', gross') ∧
    (vs = [] ↔ Forall (fill_within_order om) fills ∧ NoDup (fill_order_id <$> fills) ∧ ∀ f, f ∈ fills → fill_order_id f ∉ filled) ∧
    (vs = [] → gross' = gross + sumZ (gross_term om) fills).
Proof.
  intros Hf. revert filled gross. induction Hf as [|f fills Hf Hfs IH]; intros filled gross Hg.
  { exists [], filled, gross. split; [done|]. split; [|cbn; lia]. split; [intros _|done]. split_and!; [constructor..|]. intros f Hf. by apply not_elem_of_nil in Hf. }
  rewrite length_cons in Hg. destruct (fill_step_clean (E := E) [] filled gross f Hf) as (v1 & f1 & g1 & Hs & Hclean). cbn [app] in Hs.
  destruct v1 as [|v v1].
  - destruct (Hclean eq_refl) as [Hgood Hni]. destruct (fill_step_good (E := E) filled gross f) as [Hb Hs']; [done..|lia|].
    cbn [ofold]. rewrite Hs'. cbn [mbind outcome_bind].
    destruct (IH ({[fill_order_id f]} ∪ filled) (gross + gross_term om f)) as (v2 & f2 & g2 & -> & Hiff & Hsum); [lia|].
    exists v2, f2, g2. split; [done|]. split; [|intros ->; rewrite Hsum by done; cbn; lia].
    rewrite Hiff, Forall_cons, fmap_cons, NoDup_cons. split.
    + intros (? & ? & Hn). split_and!; [done..| |done|].
      * intros (y & Heq & Hy)%list_elem_of_fmap. specialize (Hn y Hy). set_solver.
      * intros y [->|Hy]%elem_of_cons; [done|]. specialize (Hn y Hy). set_solver.
    + intros ([_ ?] & [Hnew ?] & Hn). split_and!; [done..|]. intros y Hy.
      rewrite elem_of_union, elem_of_singleton. intros [Heq|Hin]; [|by apply (Hn y); [right|]].
      apply Hnew. rewrite <- Heq. by apply list_elem_of_fmap_2.
  - cbn [ofold]. rewrite Hs. cbn [mbind outcome_bind].
    destruct (fill_loop_grows (E := E) fills (v :: v1) f1 g1 Hfs) as (v2 & f2 & g2 & ->).
    eexists _, _, _. split; [reflexivity|]. split; [|done]. split; [done|].
    intros (Hall & _ & Hn). apply Forall_cons in Hall as [Hgood _].
    destruct (fill_step_good (E := E) filled gross f) as [_ Hs']; [done..| |lia|]; [apply Hn; left|]. congruence.
Qed.
End fills.

(** ** Each check against its part of the contract *)

Section checks.
Context {w : BlockWitness} (HI : match_input w).
Notation om := (witness_order_map w).

Lemma witness_orders_admitted i o : om !! i = Some o → order_wf o ∧ ∃ m d, one_hot o m d.
Proof.
  intros (wo & <- & Hwo%keyed_elem)%lookup_fmap_Some.
  destruct (proj1 (Forall_forall _ _) (mi_orders _ HI) wo Hwo) as [? ?]. split; [done|by apply one_hot_validate].
Qed.

Lemma verify_fills_iff {E} :
  ∃ vs net, @verify_fills E (bw_fills w) om (bw_total_welfare w) (bw_minting_cost w) = Ok (vs, net) ∧
    (vs = [] ↔ Forall (fill_within_order om) (bw_fills w) ∧ NoDup (fill_order_id <$> bw_fills w) ∧
      bw_total_welfare w = sumZ (gross_term om) (bw_fills w) - bw_minting_cost w ∧ 0 ≤ bw_total_welfare w) ∧
    (vs = [] → net = bw_total_welfare w).
Proof.
  destruct (fill_loop (E := E) witness_orders_admitted (bw_fills w) ∅ 0 (mi_fills _ HI)) as (v & filled & gross & Hl & Hiff & Hsum).
  { pose proof (mi_count _ HI). int_lia. }
  unfold verify_fills. rewrite Hl. cbn [mbind outcome_bind].
  assert (v = [] ↔ Forall (fill_within_order om) (bw_fills w) ∧ NoDup (fill_order_id <$> bw_fills w)) as Hv by (rewrite Hiff; set_solver).
  pose proof (mi_welfare _ HI) as Hw. clear Hiff Hl.
  destruct (chk I64 (gross - bw_minting_cost w)) as [net|] eqn:Hnet.
  - apply chk_Some in Hnet as [-> Hnet]. destruct (chk I64 (_ - bw_total_welfare w)) as [δ|] eqn:Hδ.
    + apply chk_Some in Hδ as [-> Hδ]. eexists _, _. split; [reflexivity|]. rewrite !app_nil, !flag_nil, !Z.ltb_ge, Hv. split; [|intros; lia].
      split; [intros [[HA ?] ?]|intros (? & ? & ? & ?); assert (v = []) as HA%Hv by (by apply Hv)]; destruct HA; specialize (Hsum (proj2 Hv ltac:(done))); split_and!; done || lia.
    + apply chk_None in Hδ. eexists _, _. split; [reflexivity|]. rewrite !app_nil. split; [|naive_solver].
      split; [naive_solver|]. intros (? & ? & ? & ?). specialize (Hsum (proj2 Hv ltac:(done))). int_lia.
  - apply chk_None in Hnet. eexists _, _. split; [reflexivity|]. rewrite !app_nil. split; [|naive_solver].
    split; [naive_solver|]. intros (? & ? & ? & ?). specialize (Hsum (proj2 Hv ltac:(done))). unfold i64 in Hw. int_lia.
Qed.

Lemma verify_mm_iff : (mm ← bw_mm_constraints w; verify_mm_constraint (bw_fills w) mm) = [] ↔
  Forall (mm_within_budget (bw_fills w)) (bw_mm_constraints w).
Proof.
  rewrite bind_nil. apply Forall_iff. intros mm. unfold verify_mm_constraint, mm_within_budget.
  destruct (checked_capital_used _ _) as [u|]; [|naive_solver]. rewrite flag_nil, Z.ltb_ge. naive_solver.
Qed.

Lemma verify_prices_iff : verify_price_complementarity w = [] ↔ prices_complementary (bw_clearing_prices w).
Proof.
  unfold verify_price_complementarity, prices_complementary. rewrite bind_nil, Forall_forall.
  assert (∀ m ps, bw_clearing_prices w !! m = Some ps → market_price_violations ps = [] ↔
    Forall (λ p, p ≤ NANOS_PER_DOLLAR) ps ∧ ∀ y n, ps = [y; n] → y + n = NANOS_PER_DOLLAR) as H.
  { intros m ps Hps. pose proof (mi_prices _ HI m ps Hps) as Hu. unfold market_price_violations.
    rewrite app_nil, bind_nil. assert (∀ p, flag (negb (price_is_in_protocol_range p)) VK.SettlementOverflow = [] ↔ p ≤ NANOS_PER_DOLLAR) as Hp.
    { intros p. rewrite flag_nil, negb_false_iff. apply Z.leb_le. }
    rewrite (Forall_iff _ _ _ Hp). destruct ps as [|y [|n [|? ?]]]; [naive_solver..| |naive_solver].
    apply Forall_cons in Hu as [Hy [Hn _]%Forall_cons]. rewrite !Forall_cons. unfold Nanos_checked_add.
    destruct (chk U64 (y + n)) as [z|] eqn:Hz; [apply chk_Some in Hz as [-> _]|apply chk_None in Hz].
    - rewrite flag_nil, negb_false_iff, Z.eqb_eq. naive_solver.
    - split; [naive_solver|]. intros [(? & ? & _) _]. mlia. }
  split.
  - intros Hall m ps Hps. apply (H m ps Hps). by apply (Hall (m, ps)), elem_of_map_to_list.
  - intros Hall [m ps] Hps%elem_of_map_to_list. by apply (H m ps Hps), (Hall m).
Qed.

(** The three checks that skip empty fills and unknown orders. *)
Lemma verify_resolved_iff : Forall (fill_within_order om) (bw_fills w) →
  verify_resolved_markets w om = [] ↔
  Forall (λ f, ∀ o m d, om !! fill_order_id f = Some o → one_hot o m d → m ∉ bw_resolved_markets w) (bw_fills w).
Proof.
  intros Hin. unfold verify_resolved_markets. destruct (bw_resolved_markets w) as [|r rs] eqn:Hr.
  { split; [intros _|done]. apply Forall_forall. intros. apply not_elem_of_nil. }
  rewrite <- Hr, bind_nil, !Forall_forall. rewrite Forall_forall in Hin.
  enough (∀ f, f ∈ bw_fills w → _ = [] ↔ ∀ o m d, om !! fill_order_id f = Some o → one_hot o m d → m ∉ bw_resolved_markets w) as H by
    (split; intros Ha f Hf; by apply (H f Hf), Ha).
  intros f Hf. destruct (Hin f Hf) as (o & m & d & -> & Hoh & Hq & _). destruct (Z.eqb_spec (fill_qty f) 0); [lia|].
  rewrite (one_hot_active _ _ _ Hoh), bind_nil, Forall_singleton, flag_nil, bool_decide_eq_false, elem_of_list_to_set.
  split; [|naive_solver]. intros ? ? m' d' [= <-] Hoh'.
  pose proof (one_hot_active _ _ _ Hoh) as H1. rewrite (one_hot_active _ _ _ Hoh') in H1. by injection H1 as ->.
Qed.

Lemma verify_conditional_iff : Forall (fill_within_order om) (bw_fills w) →
  verify_conditional_activation w om = [] ↔
  Forall (λ f, ∀ o, om !! fill_order_id f = Some o → condition_holds (bw_clearing_prices w) o) (bw_fills w).
Proof.
  intros Hin. unfold verify_conditional_activation. rewrite bind_nil, !Forall_forall. rewrite Forall_forall in Hin.
  enough (∀ f, f ∈ bw_fills w → _ = [] ↔ ∀ o, om !! fill_order_id f = Some o → condition_holds (bw_clearing_prices w) o) as H by
    (split; intros Ha f Hf; by apply (H f Hf), Ha).
  intros f Hf. destruct (Hin f Hf) as (o & m & d & -> & Hoh & Hq & _). destruct (Z.eqb_spec (fill_qty f) 0); [lia|].
  unfold condition_holds. destruct (ord_condition o) as [c|] eqn:Hc; [|split; [intros _ ? [= <-]; by rewrite Hc|done]].
  destruct (bw_clearing_prices w !! pc_market c) as [ps|] eqn:Hps.
  - rewrite flag_nil, negb_false_iff. split.
    + intros Hcond ? [= <-]. rewrite Hc. exists ps. split; [done|]. destruct (pc_direction c); by apply Z.ltb_lt.
    + intros H. specialize (H o eq_refl). rewrite Hc in H. destruct H as (ps' & Hps' & H). simplify_eq.
      destruct (pc_direction c); by apply Z.ltb_lt.
  - split; [done|]. intros H. specialize (H o eq_refl). rewrite Hc in H. destruct H as (ps' & Hps' & _). congruence.
Qed.

Lemma expected_outcome_dir d :
  match dir_payoffs d with [y; n] => expected_outcome y n = Some (Z.to_nat (dir_outcome d)) | _ => False end.
Proof. by destruct d. Qed.

Lemma verify_fill_price_iff {E} f : fill_wf f →
  ∃ vs, @verify_fill_price E w om f = Ok vs ∧ (fill_within_order om f →
    (vs = [] ↔ ∀ o m d, om !! fill_order_id f = Some o → one_hot o m d →
      (ps ← bw_clearing_prices w !! m; ps !! Z.to_nat (dir_outcome d)) = Some (fill_price f))).
Proof.
  intros Hwf. unfold verify_fill_price. destruct (om !! fill_order_id f) as [o|] eqn:Ho.
  2: { exists []. split; [by case_match|]. intros (? & ? & ? & ? & _). congruence. }
  destruct (witness_orders_admitted _ _ Ho) as [_ (m & d & Hoh)].
  destruct (Z.eqb_spec (fill_qty f) 0). { exists []. split; [done|]. intros (? & ? & ? & _ & _ & ? & _). lia. }
  rewrite (oh_num_markets _ _ _ Hoh), (oh_markets _ _ _ Hoh), (oh_num_states _ _ _ Hoh), (oh_payoffs _ _ _ Hoh).
  pose proof (expected_outcome_dir d) as Hexp. destruct (dir_payoffs d) as [|y [|no [|? ?]]] eqn:Hd; [done..| |done].
  cbn [idx lookup app list_lookup mbind outcome_bind negb Z.eqb Pos.eqb expect]. cbn. rewrite Hexp.
  assert (∀ m' d', one_hot o m' d' → m' = m ∧ d' = d) as Huniq.
  { intros m' d' Hoh'. split; [pose proof (oh_markets _ _ _ Hoh') as H; rewrite (oh_markets _ _ _ Hoh) in H; by injection H|].
    pose proof (one_hot_direction _ _ _ Hoh' (E := unit) 0) as H. rewrite (one_hot_direction _ _ _ Hoh) in H. by injection H. }
  destruct (_ ≫= _) as [p|] eqn:Hp.
  - eexists. split; [reflexivity|]. intros _. rewrite flag_nil, negb_false_iff, Z.eqb_eq. split.
    + intros -> ? m' d' [= <-] Hoh'. by destruct (Huniq m' d' Hoh') as [-> ->].
    + intros H. specialize (H o m d eq_refl Hoh). congruence.
  - eexists. split; [reflexivity|]. intros _. split; [done|]. intros H. specialize (H o m d eq_refl Hoh). congruence.
Qed.

Lemma verify_ucp_iff {E} :
  ∃ vs, @verify_uniform_clearing_prices E w om = Ok vs ∧ (Forall (fill_within_order om) (bw_fills w) →
    (vs = [] ↔ Forall (λ f, ∀ o m d, om !! fill_order_id f = Some o → one_hot o m d →
      (ps ← bw_clearing_prices w !! m; ps !! Z.to_nat (dir_outcome d)) = Some (fill_price f)) (bw_fills w))).
Proof.
  unfold verify_uniform_clearing_prices. pose proof (mi_fills _ HI) as Hwf.
  enough (∃ vs, omapM (@verify_fill_price E w om) (bw_fills w) = Ok vs ∧ (Forall (fill_within_order om) (bw_fills w) →
    (concat vs = [] ↔ Forall (λ f, ∀ o m d, om !! fill_order_id f = Some o → one_hot o m d →
      (ps ← bw_clearing_prices w !! m; ps !! Z.to_nat (dir_outcome d)) = Some (fill_price f)) (bw_fills w)))) as (vs & -> & H).
  { exists (concat vs). done. }
  induction Hwf as [|f fills Hf _ (vs & Hvs & IH)]; [by exists []|].
  destruct (verify_fill_price_iff (E := E) f Hf) as (v & Hv & Hiff). exists (v :: vs). cbn [omapM]. rewrite Hv. cbn [mbind outcome_bind].
  rewrite Hvs. split; [done|]. intros [Hg Hgs]%Forall_cons. rewrite Forall_cons, <- (Hiff Hg), <- (IH Hgs). cbn [concat]. apply app_nil.
Qed.

Lemma fill_at_market_split :
  Forall (fill_within_order om) (bw_fills w) →
  Forall (fill_at_market w om) (bw_fills w) ↔
  Forall (λ f, ∀ o m d, om !! fill_order_id f = Some o → one_hot o m d →
    (ps ← bw_clearing_prices w !! m; ps !! Z.to_nat (dir_outcome d)) = Some (fill_price f)) (bw_fills w) ∧
  Forall (λ f, ∀ o m d, om !! fill_order_id f = Some o → one_hot o m d → m ∉ bw_resolved_markets w) (bw_fills w) ∧
  Forall (λ f, ∀ o, om !! fill_order_id f = Some o → condition_holds (bw_clearing_prices w) o) (bw_fills w).
Proof.
  rewrite !Forall_forall. unfold fill_at_market. intros Hin. split; [|naive_solver].
  intros H. split_and!; intros f Hf; [intros; by eapply H..|]. intros o' Ho'.
  destruct (Hin f Hf) as (o & m & d & Ho & Hoh & _). simplify_eq. by eapply H.
Qed.
End checks.

(** ** From an accepted witness to an admissible block *)

Lemma witness_order_map_eq w : witness_order_map w = order_map (wo_order <$> bw_orders w).
Proof.
  unfold witness_order_map, keyed, order_map. rewrite foldl_fmap.
  enough (∀ m : gmap Z WitnessOrder, wo_order <$> foldl (λ m x, <[ord_id (wo_order x) := x]> m) m (bw_orders w) =
    foldl (λ m o, <[ord_id (wo_order o) := wo_order o]> m) (wo_order <$> m) (bw_orders w)) as H
    by (by rewrite H, fmap_empty).
  induction (bw_orders w) as [|o l IH]; intros m; [done|]. cbn [foldl]. by rewrite IH, fmap_insert.
Qed.

Section accepted.
Context {w : BlockWitness} (HI : match_input w) (HV : match_valid w).
Notation orders := (wo_order <$> bw_orders w).

Lemma accepted_fills : Forall (admitted_fill (order_map orders)) (bw_fills w).
Proof.
  rewrite <- witness_order_map_eq. pose proof (mv_fills _ HV) as Hf. rewrite !Forall_forall in *. intros f Hin.
  destruct (Hf f Hin) as (o & m & d & Ho & Hoh & Hq & Hp & _). exists o.
  destruct (witness_orders_admitted HI _ _ Ho) as [Hwf _]. pose proof (proj1 (Forall_forall _ _) (mi_fills _ HI) f Hin) as [_ Hu].
  split_and!; [done..|by eapply validate_one_hot| | |mlia|done]; lia.
Qed.

Lemma accepted_prices : prices_ok (bw_clearing_prices w).
Proof.
  intros m ps p Hm Hp. destruct (mv_prices _ HV m ps Hm) as [Hle _]. rewrite Forall_forall in Hle. specialize (Hle p Hp).
  pose proof (proj1 (Forall_forall _ _) (mi_prices _ HI m ps Hm) p Hp). mlia.
Qed.

Lemma accepted_at_clearing :
  Forall (at_clearing (bw_clearing_prices w) (map_to_list (bw_clearing_prices w)).*1 (order_map orders)) (bw_fills w).
Proof.
  rewrite <- witness_order_map_eq. pose proof (mv_market _ HV) as Hf. rewrite !Forall_forall in *. intros f Hin o m d Ho Hoh.
  destruct (Hf f Hin o m d Ho Hoh) as [Hp _]. destruct (bw_clearing_prices w !! m) as [ps|] eqn:Hps; [|done]. cbn in Hp.
  split; [|unfold clearing_price; rewrite Hps; cbn; by rewrite Hp].
  apply list_elem_of_fmap. exists (m, ps). split; [done|]. by apply elem_of_map_to_list.
Qed.
(** Finalising the block of an accepted witness. *)
Lemma accepted_outcome blake3 iter (Hiter : ∀ m, iter m ≡ₚ map_to_list m) (accounts : gmap Z Account) (markets : list MarketId) :
  let M := (map_to_list (bw_clearing_prices w)).*1 in
  (∀ m ps, bw_clearing_prices w !! m = Some ps → length ps = 2%nat) →
  Z.of_nat (length (bw_fills w)) ≤ 4000 → (∀ f, f ∈ bw_fills w → is_Some (accounts !! fill_account_id f)) →
  is_Some (accounts !! AccountId_MINT) → cash_volume accounts ≤ 1000000000000000000 →
  share_volume accounts ≤ 1000000000000000000 → (∀ m, pos_total (m, 0) accounts = pos_total (m, 1) accounts) →
  ∃ r, finalize_block_state_phase (E := unit) blake3 iter accounts markets orders (bw_fills w) (bw_clearing_prices w) (hd_height (bw_header w)) = Ok r ∧
    (∀ m, pos_total (m, 0) (fbs_accounts r) = pos_total (m, 1) (fbs_accounts r)) ∧
    (∀ x, x ∈ fbs_invariant_failures r → overdrawn (fbs_accounts r) x) ∧
    Z.abs (value M (fbs_accounts r) - value M accounts) ≤ SHARE_SCALE * (Z.of_nat (length (bw_fills w)) + Z.of_nat (length M)).
Proof.
  intros M Hbin Hcnt Hacc Hmint Hcash Hsh Hbal.
  assert (admissible_block accounts orders (bw_fills w) (bw_clearing_prices w)) as AB.
  { constructor; [by apply accepted_fills|done..|by apply accepted_prices]. }
  destruct (admissible_outcome AB blake3 iter Hiter (hd_height (bw_header w)) markets) as (r & Hr & Hfail & Hb & _ & Hval).
  exists r. split; [done|]. split; [done|]. split; [done|].
  apply Hval; [apply NoDup_fst_map_to_list|by apply accepted_at_clearing|].
  intros m ([? ps] & -> & Hps%elem_of_map_to_list)%list_elem_of_fmap. cbn in *.
  pose proof (Hbin _ _ Hps). destruct (mv_prices _ HV _ _ Hps) as [_ Hc]. unfold clearing_price. rewrite Hps.
  destruct ps as [|y [|n [|? ?]]]; [done..|by apply Hc|done].
Qed.
End accepted.

Lemma verify_match_iff {E} (w : BlockWitness) (diagnostics : bool) :
  match_input w →
  ∃ res, verify_match (E := E) w diagnostics = Ok res ∧ (vr_valid res = true ↔ match_valid w) ∧
    (vr_valid res = true → vs_computed_welfare (vr_stats res) = bw_total_welfare w).
Proof.
  intros HI. destruct (verify_fills_iff (E := E) HI) as (v1 & net & H1 & Hv1 & Hnet).
  destruct (verify_ucp_iff (E := E) HI) as (v2 & H2 & Hv2).
  unfold verify_match. rewrite H1. cbn [mbind outcome_bind]. rewrite H2. cbn [mbind outcome_bind].
  eexists. split; [reflexivity|]. cbn [vr_valid vr_stats vs_computed_welfare]. rewrite bool_decide_eq_true, !app_nil.
  split; [|naive_solver]. unfold verify_order_id_uniqueness.
  rewrite (verify_mm_iff (w := w)), collect_dups_nil_iff, (verify_prices_iff HI), Hv1. clear Hnet H1 H2 Hv1. split.
  - intros ((Hin & ? & ? & ?) & ? & (? & _) & ? & Hres & Hcond & Hucp).
    rewrite verify_resolved_iff in Hres by done. rewrite verify_conditional_iff in Hcond by done. apply Hv2 in Hucp; [|done].
    constructor; [done..|]. by apply fill_at_market_split.
  - intros [Hin ? ? ? ? ? ? Hmk]. apply fill_at_market_split in Hmk as (Hucp & Hres & Hcond); [|done].
    rewrite verify_resolved_iff, verify_conditional_iff by done. split_and!; try done; by apply Hv2.
Qed.

(** ** Properties *)

(** C4: the match layer always returns a verdict on a well-formed witness of
    admitted orders, and accepts exactly when every fill is a positive part of
    one known order filled once, at its outcome's clearing price and within its
    limit, in an open market and with its condition met; order ids are distinct,
    prices lie in range and complement to one dollar, market makers are within
    budget, and the reported welfare is gross welfare less minting cost and not
    negative. *)
Theorem match_layer_exact (w : BlockWitness) (diagnostics : bool) :
  match_input w →
  ∃ res, verify_match (E := unit) w diagnostics = Ok res ∧ (vr_valid res = true ↔ match_valid w) ∧
    (vr_valid res = true → vs_computed_welfare (vr_stats res) = bw_total_welfare w).
Proof. apply verify_match_iff. Qed.

(** A block the match layer accepts is safe to finalise: with binary
    markets, existing accounts of bounded volume and balanced markets before,
    the sequencer's finalisation of its orders and fills returns, reports no
    failure but negative balances, leaves every market balanced and conserves
    cash plus one dollar per complete set up to rounding. *)
Theorem accepted_match_conserves (w : BlockWitness) (diagnostics : bool) (res : VerificationResult)
    (accounts : gmap Z Account) (markets : list MarketId) (blake3 : Bytes → Bytes) (iter : gmap Z Account → list (Z * Account)) :
  let orders := wo_order <$> bw_orders w in
  let M := (map_to_list (bw_clearing_prices w)).*1 in
  match_input w → verify_match (E := unit) w diagnostics = Ok res → vr_valid res = true →
  (∀ m ps, bw_clearing_prices w !! m = Some ps → length ps = 2%nat) →
  Z.of_nat (length (bw_fills w)) ≤ 4000 → (∀ f, f ∈ bw_fills w → is_Some (accounts !! fill_account_id f)) →
  is_Some (accounts !! AccountId_MINT) → cash_volume accounts ≤ 1000000000000000000 →
  share_volume accounts ≤ 1000000000000000000 →
  (∀ m, pos_total (m, 0) accounts = pos_total (m, 1) accounts) → (∀ m, iter m ≡ₚ map_to_list m) →
  ∃ r, finalize_block_state_phase (E := unit) blake3 iter accounts markets orders (bw_fills w) (bw_clearing_prices w) (hd_height (bw_header w)) = Ok r ∧
    (∀ m, pos_total (m, 0) (fbs_accounts r) = pos_total (m, 1) (fbs_accounts r)) ∧
    (∀ x, x ∈ fbs_invariant_failures r → overdrawn (fbs_accounts r) x) ∧
    Z.abs (value M (fbs_accounts r) - value M accounts) ≤ SHARE_SCALE * (Z.of_nat (length (bw_fills w)) + Z.of_nat (length M)).
Proof.
  intros orders M HI Hm Hvalid Hbin Hcnt Hacc Hmint Hcash Hsh Hbal Hiter.
  destruct (verify_match_iff (E := unit) w diagnostics HI) as (res' & Hm' & Hv & _). rewrite Hm in Hm'. injection Hm' as <-. apply Hv in Hvalid.
  by apply (accepted_outcome HI Hvalid).
Qed.

(** Two traders buy both sides of a market; the second is a market maker. *)
Definition ex_matched : BlockWitness :=
  mkBlockWitness (ex_header 9) (Some (ex_header 8)) []
    [mkWitnessOrder (binary_order 1 3 BuyYes 600000000 5000) 1 false; mkWitnessOrder (binary_order 2 3 BuyNo 500000000 4000) 2 true]
    [] [] (mkDepositAccumulatorWitness [] 0 []) ex_fills ex_prices 220000000 2280000000
    [add_order 2 BuyNo (MmConstraint_new 2 1000000000)] [] [] [] [] [] (ex_sidecar ex_post) (ex_sidecar ex_post) [7].

Lemma ex_match_input : match_input ex_matched.
Proof.
  constructor.
  - repeat apply Forall_cons_2; [..|constructor]; (split; [|vm_compute; reflexivity]);
      apply binary_order_wf; vm_compute; split_and?; (done || discriminate).
  - repeat apply Forall_cons_2; [..|constructor]; vm_compute; split_and!; discriminate.
  - vm_compute. discriminate.
  - vm_compute. split; discriminate.
  - intros m ps Hm. cbn [bw_clearing_prices ex_matched] in Hm. unfold ex_prices in Hm. apply lookup_singleton_Some in Hm as [<- <-].
    repeat apply Forall_cons_2; [..|constructor]; vm_compute; split; discriminate.
Qed.

Lemma match_layer_exact_witness :
  (vr_valid <$> verify_match (E := unit) ex_matched true) = Ok true ∧
  ∃ res, verify_match (E := unit) ex_matched true = Ok res ∧ (vr_valid res = true ↔ match_valid ex_matched).
Proof.
  split; [vm_compute; reflexivity|].
  destruct (match_layer_exact ex_matched true ex_match_input) as (res & Hres & Hiff & _). exists res. split; [exact Hres|exact Hiff].
Defined.

Lemma accepted_match_conserves_witness :
  ∃ r, finalize_block_state_phase (E := unit) (λ l, l) map_to_list ex_accounts [3] ex_orders ex_fills ex_prices 9 = Ok r ∧
    Z.abs (value [3] (fbs_accounts r) - value [3] ex_accounts) ≤ SHARE_SCALE * 3.
Proof.
  destruct (verify_match (E := unit) ex_matched true) as [res| |] eqn:Hm; [|vm_compute in Hm; discriminate Hm..].
  destruct (accepted_match_conserves ex_matched true res ex_accounts [3] (λ l, l) map_to_list ex_match_input Hm)
    as (r & Hr & _ & _ & Hv).
  - vm_compute in Hm. injection Hm as <-. reflexivity.
  - intros m ps Hps. cbn [bw_clearing_prices ex_matched] in Hps. unfold ex_prices in Hps. apply lookup_singleton_Some in Hps as [<- <-]. reflexivity.
  - vm_compute. discriminate.
  - intros f Hf. exact (ab_accounts ex_admissible f Hf).
  - vm_compute. eauto.
  - vm_compute. discriminate.
  - vm_compute. discriminate.
  - intros m. vm_compute. reflexivity.
  - intros m. reflexivity.
  - exists r. split; [exact Hr|exact Hv].
Defined.
