(* ===== verification/OrdersVerifier.v ===== *)
(** * OrdersVerifier: layer 4 re-checks admission

    Models [crates/sybil-verifier/src/orders.rs]: accepted orders are checked
    against the accounts after system events, buys against what earlier orders
    of the block left of the balance, sells against the position; rejections are
    checked against their stated reason.  Details of violations are left out. *)
From S2P Require Import Prelude Types Order EngineSettlement MmConstraint Account Validation OrderBook Snapshots BookInvariant BookOps BookSafety Digest BatchSettlement Finalize Conservation Witness Sidecar SettlementVerifier VerifierAgreement MatchVerifier.

(** [positions.iter().find(..).map(..).unwrap_or(0)] *)
Definition snapshot_position (s : AccountSnapshot) (market : MarketId) (out : Z) : Z :=
  default 0 (snd <$> (list_find (λ p : Z * Z * Z, p.1 = (market, out)) (asn_positions s) ≫= λ '(_, p), Some p)).

(** The sell branch: one check per negative payoff. *)
Definition check_sell_state {E} (o : Order) (market : MarketId) (s : AccountSnapshot) (i : nat)
    : outcome E (list Violation) :=
  p ← idx (ord_payoffs o) i;
  if negb (p <? 0) then Ok [] else
  match (raw ← checked_position_qty p (ord_max_fill o); chk I64 (- raw)) with
  | None => Ok [VK.SettlementOverflow]
  | Some sell_qty => Ok (flag (snapshot_position s market (Z.of_nat i) <? sell_qty) VK.InsufficientPosition)
  end.

(** The coverage check of a public order, with the balances reserved so far. *)
Definition check_coverage {E} (reserved_balance : gmap Z Z) (account_id : Z) (o : Order) (s : AccountSnapshot)
    : outcome E (list Violation * gmap Z Z) :=
  pos ← has_positive o;
  neg ← has_negative o;
  if (pos : bool) && negb neg then
    match checked_price_qty_ceil (ord_limit_price o) (ord_max_fill o) with
    | None => Ok ([VK.SettlementOverflow], reserved_balance)
    | Some max_cost =>
        let reserved := get0 reserved_balance account_id in
        match chk I64 (asn_balance s - reserved) with
        | None => Ok ([VK.SettlementOverflow], reserved_balance)
        | Some available =>
            let vs := flag (available <? max_cost) VK.InsufficientBalance in
            match chk I64 (reserved + max_cost) with
            | None => Ok (vs ++ [VK.SettlementOverflow], <[account_id := reserved]> reserved_balance)
            | Some updated => Ok (vs, <[account_id := updated]> reserved_balance)
            end
        end
    end
  else if (neg : bool) && negb pos then
    if ord_num_markets o =? 1 then
      market ← idx (ord_markets o) 0;
      vs ← omapM (check_sell_state o market s) (seq 0 (num_states o));
      Ok (concat vs, reserved_balance)
    else Ok ([], reserved_balance)
  else Ok ([], reserved_balance).

Definition verify_order_step {E} (accounts : gmap Z AccountSnapshot) (height : Z)
    (acc : list Violation * gmap Z Z) (wo : WitnessOrder) : outcome E (list Violation * gmap Z Z) :=
  let '(vs, reserved_balance) := acc in
  let o := wo_order wo in
  if NANOS_PER_DOLLAR <? ord_limit_price o then Ok (vs ++ [VK.SettlementOverflow], reserved_balance) else
  match validate_binary_one_hot o with
  | Panic => Panic
  | Err _ => Ok (vs ++ [VK.InvalidOrder], reserved_balance)
  | Ok _ =>
      let vs := vs ++ match ord_expires_at_block o with
                      | Some e => flag (e <? height) VK.OrderExpiryViolation
                      | None => []
                      end in
      if wo_is_mm wo then Ok (vs, reserved_balance) else
      match accounts !! wo_account_id wo with
      | None => Ok (vs ++ [VK.AcceptedOrderMissingAccount], reserved_balance)
      | Some s =>
          '(vs', reserved_balance) ← check_coverage reserved_balance (wo_account_id wo) o s;
          Ok (vs ++ vs', reserved_balance)
      end
  end.

(** The atomic-bundle reason: one constraint, rejected as a whole. *)
Definition check_atomic_bundle (w : BlockWitness) (rej : WitnessRejection) : list Violation :=
  match filter (λ c, ord_id (wr_order rej) ∈ mm_order_ids c) (bw_mm_constraints w) with
  | [c] =>
      let all_rejected_together := forallb (λ order_id, existsb (λ cand,
        (ord_id (wr_order cand) =? order_id) && (wr_account_id cand =? wr_account_id rej) &&
        match wr_reason cand with Reason.AtomicBundle => true | _ => false end) (bw_rejections w)) (mm_order_ids c) in
      let any_accepted := existsb (λ cand, bool_decide (ord_id (wo_order cand) ∈ mm_order_ids c)) (bw_orders w) in
      flag (negb all_rejected_together || any_accepted) VK.IncorrectRejectionReason
  | _ => [VK.IncorrectRejectionReason]
  end.

Definition verify_rejection {E} (w : BlockWitness) (accounts : gmap Z AccountSnapshot) (rej : WitnessRejection)
    : outcome E (list Violation) :=
  let o := wr_order rej in
  match accounts !! wr_account_id rej with
  | None => Ok (match wr_reason rej with Reason.AccountNotFound => [] | _ => [VK.IncorrectRejectionReason] end)
  | Some s =>
      match wr_reason rej with
      | Reason.InsufficientBalance required _ =>
          pos ← has_positive o;
          neg ← has_negative o;
          if (pos : bool) && negb neg then
            match checked_price_qty_ceil (ord_limit_price o) (ord_max_fill o) with
            | None => Ok [VK.SettlementOverflow]
            | Some max_cost => Ok (flag (negb (max_cost =? required)) VK.IncorrectRejectionReason)
            end
          else Ok []
      | Reason.InsufficientPosition market out _ available =>
          Ok (flag (negb (snapshot_position s market out =? available)) VK.IncorrectRejectionReason)
      | Reason.AccountNotFound => Ok [VK.FalseRejection]
      | Reason.CompleteSetFormation => Ok []
      | Reason.AtomicBundle => Ok (check_atomic_bundle w rej)
      | Reason.InvalidOrder _ =>
          match validate_binary_one_hot o with
          | Panic => Panic
          | Ok _ => Ok [VK.FalseRejection]
          | Err _ => Ok []
          end
      | Reason.Expired current_block expires_at_block =>
          Ok (flag (current_block <=? expires_at_block) VK.IncorrectRejectionReason)
      end
  end.

Definition verify_orders {E} (w : BlockWitness) : outcome E VerificationResult :=
  let accounts := keyed asn_id (bw_post_system_state w) in
  '(vs, _) ← ofold (verify_order_step accounts (hd_height (bw_header w))) ([], ∅) (bw_orders w);
  rs ← omapM (verify_rejection w accounts) (bw_rejections w);
  Ok (from_violations (vs ++ concat rs)).

(** ** What the layer promises about accepted orders *)

Definition order_unexpired (height : Z) (o : Order) : Prop :=
  match ord_expires_at_block o with Some e => height ≤ e | None => True end.

(** Shape, expiry, and for a public order an account that holds what it sells. *)
Definition order_ok (accounts : gmap Z AccountSnapshot) (height : Z) (wo : WitnessOrder) : Prop :=
  ∃ m d, one_hot (wo_order wo) m d ∧ order_unexpired height (wo_order wo) ∧
    (wo_is_mm wo = false → ∃ s, accounts !! wo_account_id wo = Some s ∧
      (is_sell d = true → ord_max_fill (wo_order wo) ≤ snapshot_position s m (dir_outcome d))).

Definition public_buy (wo : WitnessOrder) : Prop :=
  wo_is_mm wo = false ∧ is_seller (E := unit) (wo_order wo) = Ok false.

(** The worst-case cash of an account's public orders. *)
Definition buy_cost (aid : Z) (wo : WitnessOrder) : Z :=
  if decide (wo_is_mm wo = false ∧ wo_account_id wo = aid)
  then match balance_reservation (wo_order wo) with Ok c => c | _ => 0 end else 0.

Lemma one_hot_unique o m d m' d' : one_hot o m d → one_hot o m' d' → m' = m ∧ d' = d.
Proof.
  intros H H'. pose proof (one_hot_active _ _ _ H') as Hm. rewrite (one_hot_active _ _ _ H) in Hm. injection Hm as ->.
  pose proof (one_hot_direction _ _ _ H' (E := unit) 0) as Hd. rewrite (one_hot_direction _ _ _ H) in Hd. by injection Hd as ->.
Qed.

Lemma one_hot_buy_cost wo m d aid : order_wf (wo_order wo) → one_hot (wo_order wo) m d →
  buy_cost aid wo = (if decide (wo_is_mm wo = false ∧ wo_account_id wo = aid)
    then bal_res d (ord_limit_price (wo_order wo)) (ord_max_fill (wo_order wo)) else 0) ∧
  0 ≤ buy_cost aid wo ≤ 1000000000000000.
Proof.
  intros Hwf Hoh. destruct (wf_limit _ Hwf) as [Hl0 _], (wf_max_fill _ Hwf) as [Hq0 _].
  pose proof (one_hot_bounds _ _ _ Hoh Hl0 Hq0) as [Hl Hq].
  unfold buy_cost. rewrite (one_hot_balance_reservation _ _ _ Hoh Hl0 Hq0).
  split; [reflexivity|]. case_decide; [exact (bal_res_bounds d _ _ Hl Hq)|lia].
Qed.

Lemma buy_cost_nonneg aid wo : order_wf (wo_order wo) → 0 ≤ buy_cost aid wo.
Proof.
  intros Hwf. destruct (wf_limit _ Hwf) as [Hl _], (wf_max_fill _ Hwf) as [Hq _]. unfold buy_cost. case_decide; [|done].
  destruct (balance_reservation (wo_order wo)) as [c| |] eqn:Hc; [|done..]. unfold balance_reservation in Hc.
  destruct (has_positive _) as [p| |]; [|done..]. destruct (has_negative _) as [n| |]; [|done..]. cbn [mbind outcome_bind] in Hc.
  destruct (p && negb n); [|by simplify_eq]. unfold v_checked_notional_ceil_i64 in Hc.
  destruct (chk I128 _) as [x|] eqn:Hx in Hc; [|done]. apply chk_Some in Hx as [-> _]. cbn [ok_or mbind outcome_bind] in Hc.
  destruct (chk I128 _) as [x|] eqn:Hx in Hc; [|done]. apply chk_Some in Hx as [-> _]. cbn [ok_or mbind outcome_bind] in Hc.
  destruct (chk I64 _) as [x|] eqn:Hx in Hc; [|done]. apply chk_Some in Hx as [-> _]. simplify_eq/=.
  apply Z.quot_pos; mnia.
Qed.

Lemma buy_cost_public aid wo : order_wf (wo_order wo) → (∃ m d, one_hot (wo_order wo) m d) →
  buy_cost aid wo ≠ 0 → public_buy wo ∧ wo_account_id wo = aid.
Proof.
  intros Hwf (m & d & Hoh). destruct (one_hot_buy_cost wo m d aid Hwf Hoh) as [-> _]. destruct (decide _) as [[Hmm Hid]|]; [|done].
  unfold bal_res. destruct (is_sell d) eqn:Hd; [done|]. intros _. split; [|done]. split; [done|]. by rewrite (one_hot_is_seller _ _ _ Hoh), Hd.
Qed.

(** ** Coverage of one order *)

Section coverage.
Context (o : Order) (m : MarketId) (d : OrderDirection) (Hwf : order_wf o) (Hoh : one_hot o m d).
Context (s : AccountSnapshot) (res : gmap Z Z) (aid : Z).

Lemma coverage_sell {E} : is_sell d = true →
  @check_coverage E res aid o s = Ok (flag (snapshot_position s m (dir_outcome d) <? ord_max_fill o) VK.InsufficientPosition, res).
Proof.
  intros Hd. unfold check_coverage. rewrite (one_hot_has_positive _ _ _ Hoh), (one_hot_has_negative _ _ _ Hoh), Hd.
  rewrite (oh_num_markets _ _ _ Hoh), (oh_markets _ _ _ Hoh). unfold num_states. rewrite (oh_num_states _ _ _ Hoh).
  change (seq 0 (Z.to_nat 2)) with [0%nat; 1%nat]. cbn [negb andb mbind outcome_bind Z.eqb Pos.eqb idx lookup list_lookup expect omapM].
  destruct (wf_max_fill _ Hwf) as [? _]. pose proof (oh_max_fill _ _ _ Hoh).
  assert ((raw ← checked_position_qty (-1) (ord_max_fill o); chk I64 (- raw)) = Some (ord_max_fill o)) as Hq.
  { unfold checked_position_qty. rewrite chk_in by mlia. cbn [mbind option_bind]. rewrite chk_in by mlia. cbn [mbind option_bind].
    rewrite chk_in by mlia. f_equal. lia. }
  unfold check_sell_state. rewrite (oh_payoffs _ _ _ Hoh).
  destruct d; try discriminate Hd; cbn -[checked_position_qty chk]; rewrite Hq; cbn; by rewrite ?app_nil_r.
Qed.

Lemma coverage_buy {E} : is_sell d = false → 0 ≤ get0 res aid → i64 (asn_balance s) →
  (get0 res aid = 0 ∨ get0 res aid ≤ asn_balance s) →
  let cost := bal_res d (ord_limit_price o) (ord_max_fill o) in
  ∃ vs res', @check_coverage E res aid o s = Ok (vs, res') ∧
    (vs = [] ↔ get0 res aid + cost ≤ asn_balance s) ∧
    (vs = [] → res' = <[aid := get0 res aid + cost]> res).
Proof.
  intros Hd Hr Hb Hres cost. destruct (wf_limit _ Hwf) as [Hl0 _], (wf_max_fill _ Hwf) as [Hq0 _].
  pose proof (one_hot_bounds _ _ _ Hoh Hl0 Hq0) as [Hl Hq]. pose proof (bal_res_bounds d _ _ Hl Hq) as Hc. fold cost in Hc.
  unfold check_coverage. rewrite (one_hot_has_positive _ _ _ Hoh), (one_hot_has_negative _ _ _ Hoh), Hd.
  cbn [negb andb mbind outcome_bind].
  assert (checked_price_qty_ceil (ord_limit_price o) (ord_max_fill o) = Some cost) as ->.
  { unfold checked_price_qty_ceil, cost, bal_res. rewrite Hd. pose proof (admissible_notional _ _ Hl Hq).
    apply checked_notional_ceil_i64_iff; [mlia..|]. split; [done|mlia]. }
  rewrite chk_in by mlia. destruct (chk I64 (get0 res aid + cost)) as [u|] eqn:Hu.
  - apply chk_Some in Hu as [-> _]. eexists _, _. split; [reflexivity|]. rewrite flag_nil, Z.ltb_ge. split; [|done]. lia.
  - apply chk_None in Hu. eexists _, _. split; [reflexivity|]. rewrite app_nil. split; [|naive_solver].
    split; [naive_solver|]. mlia.
Qed.
End coverage.

(** ** The loop over accepted orders *)

Section accepted_orders.
Context (accounts : gmap Z AccountSnapshot) (h : Z).
Context (Hbal : ∀ id s, accounts !! id = Some s → i64 (asn_balance s)).

(** The balances reserved so far: never negative, never beyond the account. *)
Definition reserved_fine (res : gmap Z Z) : Prop :=
  ∀ aid, 0 ≤ get0 res aid ∧ ∀ s, accounts !! aid = Some s → get0 res aid = 0 ∨ get0 res aid ≤ asn_balance s.

Definition buy_covered (res : gmap Z Z) (total : Z → Z) (wo : WitnessOrder) : Prop :=
  public_buy wo → ∀ s, accounts !! wo_account_id wo = Some s →
    get0 res (wo_account_id wo) + total (wo_account_id wo) ≤ asn_balance s.

Lemma verify_order_step_iff {E} vs res wo :
  order_wf (wo_order wo) → reserved_fine res →
  ∃ vs' res', @verify_order_step E accounts h (vs, res) wo = Ok (vs ++ vs', res') ∧
    (vs' = [] ↔ order_ok accounts h wo ∧ buy_covered res (λ aid, buy_cost aid wo) wo) ∧
    (vs' = [] → ∀ aid, get0 res' aid = get0 res aid + buy_cost aid wo).
Proof.
  intros Hwf Hfine. unfold verify_order_step.
  destruct (Z.ltb_spec NANOS_PER_DOLLAR (ord_limit_price (wo_order wo))).
  { eexists _, _. split; [reflexivity|]. split; [|done]. split; [done|]. intros [(m & d & Hoh & _) _]. pose proof (oh_limit _ _ _ Hoh). lia. }
  destruct (validate_binary_one_hot (wo_order wo)) as [[]|e|] eqn:Hv.
  3: by destruct (validate_not_Panic _ Hwf).
  2: { eexists _, _. split; [reflexivity|]. split; [|done]. split; [done|]. intros [(m & d & Hoh & _) _].
       rewrite (validate_one_hot _ _ _ Hoh) in Hv. done. }
  destruct (one_hot_validate _ Hwf Hv) as (m & d & Hoh).
  set (ev := match ord_expires_at_block (wo_order wo) with Some e => flag (e <? h) VK.OrderExpiryViolation | None => [] end).
  assert (ev = [] ↔ order_unexpired h (wo_order wo)) as Hev.
  { unfold ev, order_unexpired. destruct (ord_expires_at_block _); [|done]. by rewrite flag_nil, Z.ltb_ge. }
  assert (∀ aid, buy_cost aid wo = _) as Hcost by (intros aid; apply (one_hot_buy_cost wo m d aid Hwf Hoh)).
  destruct (wo_is_mm wo) eqn:Hmm.
  { exists ev, res. split; [done|]. split.
    - rewrite Hev. split; [|by intros [(? & ? & _ & ? & _) _]]. intros. split; [exists m, d; by rewrite Hmm|]. intros [? _]. congruence.
    - intros _ aid. rewrite Hcost, decide_False by (intros [? _]; congruence). lia. }
  destruct (accounts !! wo_account_id wo) as [s|] eqn:Hs.
  2: { eexists _, _. rewrite <- app_assoc. split; [reflexivity|]. rewrite app_nil. split; [|naive_solver].
       split; [naive_solver|]. intros [(? & ? & ? & ? & Hx) _]. destruct (Hx Hmm) as (? & ? & _). congruence. }
  destruct (Hfine (wo_account_id wo)) as [Hr0 Hr]. specialize (Hr s Hs).
  destruct (is_sell d) eqn:Hd.
  - rewrite (coverage_sell _ _ _ Hwf Hoh) by done. cbn [mbind outcome_bind]. rewrite <- app_assoc. eexists _, _. split; [reflexivity|].
    rewrite app_nil, Hev, flag_nil, Z.ltb_ge. split.
    + split.
      * intros [? ?]. split; [exists m, d; split_and!; [done..|intros _; exists s; done]|]. intros [_ Hsl].
        rewrite (one_hot_is_seller _ _ _ Hoh), Hd in Hsl. done.
      * intros [(m' & d' & Hoh' & ? & Hx) _]. destruct (one_hot_unique _ _ _ _ _ Hoh Hoh') as [-> ->]. split; [done|].
        destruct (Hx Hmm) as (s' & Hs' & Hle). simplify_eq. auto.
    + intros _ aid. rewrite Hcost. unfold bal_res. rewrite Hd. destruct (decide _); lia.
  - destruct (coverage_buy (E := E) _ _ _ Hwf Hoh s res (wo_account_id wo) Hd Hr0 (Hbal _ _ Hs) Hr) as (vs' & res' & -> & Hiff & Hres').
    cbn [mbind outcome_bind]. rewrite <- app_assoc. eexists _, _. split; [reflexivity|]. rewrite app_nil, Hev, Hiff.
    assert (buy_cost (wo_account_id wo) wo = bal_res d (ord_limit_price (wo_order wo)) (ord_max_fill (wo_order wo))) as Hown
      by (rewrite Hcost, decide_True; done). split.
    + split.
      * intros [? ?]. split; [exists m, d; split_and!; [done..|intros _; exists s; split; [done|congruence]]|].
        intros _ s' Hs'. simplify_eq. by rewrite Hown.
      * intros [(m' & d' & Hoh' & ? & Hx) Hcov]. split; [done|]. rewrite <- Hown. apply Hcov; [|done].
        split; [done|]. by rewrite (one_hot_is_seller _ _ _ Hoh), Hd.
    + intros [_ ?] aid. rewrite (Hres' (proj2 Hiff ltac:(done))), get0_insert, Hcost.
      repeat case_decide; subst; try lia; naive_solver.
Qed.

(** Whatever the reservations, a step returns and only adds violations. *)
Lemma verify_order_step_total {E} vs res wo : order_wf (wo_order wo) →
  ∃ vs' res', @verify_order_step E accounts h (vs, res) wo = Ok (vs ++ vs', res').
Proof.
  intros Hwf. unfold verify_order_step. case_match; [eauto|].
  destruct (validate_binary_one_hot (wo_order wo)) as [[]|e|] eqn:Hv; [|eauto|by destruct (validate_not_Panic _ Hwf)].
  destruct (one_hot_validate _ Hwf Hv) as (m & d & Hoh). case_match; [eauto|]. case_match; [|rewrite <- app_assoc; eauto].
  assert (∃ r, @check_coverage E res (wo_account_id wo) (wo_order wo) a = Ok r) as [[v r] ->];
    [|cbn [mbind outcome_bind]; rewrite <- app_assoc; eauto].
  destruct (is_sell d) eqn:Hd; [rewrite (coverage_sell _ _ _ Hwf Hoh) by done; eauto|].
  unfold check_coverage. rewrite (one_hot_has_positive _ _ _ Hoh), (one_hot_has_negative _ _ _ Hoh), Hd. cbn [negb andb mbind outcome_bind].
  repeat case_match; eauto.
Qed.

Lemma verify_orders_total {E} orders vs res : Forall (λ wo, order_wf (wo_order wo)) orders →
  ∃ vs' res', ofold (@verify_order_step E accounts h) (vs, res) orders = Ok (vs ++ vs', res').
Proof.
  intros Hf. revert vs res. induction Hf as [|wo orders Hwo _ IH]; intros vs res; [exists [], res; by rewrite app_nil_r|].
  destruct (verify_order_step_total (E := E) vs res wo Hwo) as (v1 & r1 & Hs). cbn [ofold]. rewrite Hs. cbn [mbind outcome_bind].
  destruct (IH (vs ++ v1) r1) as (v2 & r2 & ->). rewrite <- app_assoc. eauto.
Qed.

(** The loop accepts exactly the batches whose orders are fine and whose public
    buys each account can pay together. *)
Lemma verify_orders_loop {E} orders res :
  Forall (λ wo, order_wf (wo_order wo)) orders → reserved_fine res →
  ∃ vs res', ofold (@verify_order_step E accounts h) ([], res) orders = Ok (vs, res') ∧
    (vs = [] ↔ Forall (order_ok accounts h) orders ∧
      Forall (buy_covered res (λ aid, sumZ (buy_cost aid) orders)) orders).
Proof.
  intros Hf. revert res. induction Hf as [|wo orders Hwo Hf IH]; intros res Hfine; [by exists [], res|].
  destruct (verify_order_step_iff (E := E) [] res wo Hwo Hfine) as (v1 & r1 & Hs & Hiff & Hres). cbn [app] in Hs.
  cbn [ofold]. rewrite Hs. cbn [mbind outcome_bind]. destruct v1 as [|v v1].
  - destruct (proj1 Hiff eq_refl) as [Hok Hcov]. specialize (Hres eq_refl).
    assert (reserved_fine r1) as Hfine1.
    { intros aid. destruct (Hfine aid) as [Hr0 Hr]. pose proof (buy_cost_nonneg aid wo Hwo). rewrite Hres. split; [lia|].
      intros s Hs'. destruct (decide (buy_cost aid wo = 0)) as [->|Hne]; [rewrite Z.add_0_r; auto|]. right.
      destruct (buy_cost_public aid wo Hwo) as [Hb <-]; [destruct Hok as (m & d & ? & _); eauto|done|]. by apply Hcov. }
    destruct (IH r1 Hfine1) as (v2 & r2 & -> & Hiff2). exists v2, r2. split; [done|].
    assert (∀ x, buy_covered r1 (λ aid, sumZ (buy_cost aid) orders) x ↔ buy_covered res (λ aid, sumZ (buy_cost aid) (wo :: orders)) x) as Hsame.
    { intros x. unfold buy_covered. cbn [sumZ]. rewrite Hres. by rewrite Z.add_assoc. }
    rewrite Hiff2, !Forall_cons, (Forall_iff _ _ _ Hsame). split; [|tauto]. intros [Hoks Hcovs]. split_and!; [done..| |done].
    intros Hb s Hs'. cbn [sumZ]. destruct (decide (sumZ (buy_cost (wo_account_id wo)) orders = 0)) as [->|Hne].
    { rewrite Z.add_0_r. by apply Hcov. }
    destruct (sumZ_nonzero (buy_cost (wo_account_id wo)) orders Hne) as (x & Hx & Hxne).
    rewrite Forall_forall in Hf, Hoks, Hcovs. destruct (Hoks x Hx) as (m & d & Hoh & _).
    destruct (buy_cost_public (wo_account_id wo) x (Hf x Hx)) as [Hxb Hxa]; [eauto|done|]. specialize (Hcovs x Hx Hxb s). rewrite Hxa in Hcovs. by apply Hcovs.
  - destruct (verify_orders_total (E := E) orders (v :: v1) r1 Hf) as (v2 & r2 & ->).
    eexists _, _. split; [reflexivity|]. split; [done|]. rewrite !Forall_cons. intros [[Hok _] [Hcov _]].
    enough (v :: v1 = []) by done. apply Hiff. split; [done|]. intros Hb s Hs'. specialize (Hcov Hb s Hs'). cbn [sumZ] in Hcov.
    assert (0 ≤ sumZ (buy_cost (wo_account_id wo)) orders); [|lia]. rewrite Forall_forall in Hf.
    apply sumZ_nonneg. intros x Hx. by apply buy_cost_nonneg, Hf.
Qed.
End accepted_orders.

(** ** Snapshots of the account store *)

Lemma find_position l (k : Z * Z) : NoDup l.*1 →
  default 0 (snd <$> (list_find (λ p : Z * Z * Z, p.1 = k) l ≫= λ '(_, p), Some p)) = get0 (positions_map l) k.
Proof.
  intros Hnd. unfold get0. destruct (list_find _ l) as [[i [k' q]]|] eqn:Hf.
  - apply list_find_Some in Hf as (Hl & Hk & _). simpl in Hk. subst k'.
    by rewrite (proj2 (positions_map_lookup l k q Hnd) (list_elem_of_lookup_2 _ _ _ Hl)).
  - destruct (positions_map l !! k) as [q|] eqn:Hq; [|done]. apply positions_map_lookup in Hq; [|done].
    apply list_find_None in Hf. rewrite Forall_forall in Hf. by destruct (Hf _ Hq).
Qed.

Lemma snapshot_position_get0 a m out :
  snapshot_position (canonicalize_snapshot (snapshot_account a)) m out = get0 (acc_positions a) (m, out).
Proof.
  rewrite <- (canonical_positions_get0 (acc_positions a) _ _ (snapshot_positions_perm a)). apply find_position.
  rewrite snapshot_positions_perm. eapply sublist_NoDup; [apply (NoDup_fst_map_to_list (acc_positions a))|]. apply fmap_sublist, sublist_filter.
Qed.

(** ** Books whose orders are all backed by their accounts *)

Section backed.
Context (accounts : gmap Z Account) (h : Z).

Definition resting_backed (b : OrderBook) (ro : RestingOrder) : Prop :=
  order_unexpired h (ro_order ro) ∧ ∃ a m d, accounts !! ro_account_id ro = Some a ∧ one_hot (ro_order ro) m d ∧
    if is_sell d then sumZ (pos_of (ro_account_id ro, (m, dir_outcome d))) (ob_orders b) ≤ acc_position a m (dir_outcome d)
    else sumZ (worst_of (ro_account_id ro)) (ob_orders b) ≤ acc_balance a.

Definition backed (b : OrderBook) : Prop := book_inv b ∧ Forall (resting_backed b) (ob_orders b).

Lemma accept_validated o aid a ms b b' acc :
  accept o aid a h ms b = SOk b' acc →
  ∃ cost, validate_order_with_reservation o a (reserved_balance b aid) (acct_position_reservations b aid) = Ok cost.
Proof.
  unfold accept. rewrite sget_bind. cbv zeta. destruct (validate_order_with_reservation _ _ _ _) as [c|e|] eqn:Hv; [eauto|done..].
Qed.

Lemma worst_le_reserved b aid : book_inv b → sumZ (worst_of aid) (ob_orders b) ≤ reserved_balance b aid.
Proof.
  intros [Hall Hagg]. unfold reserved_balance. rewrite (agg_bal _ _ _ Hagg). rewrite Forall_forall in Hall.
  apply sumZ_le. intros ro Hin. by apply worst_of_le, Hall.
Qed.

Lemma backed_accept b b' o aid a ms acc :
  backed b → order_wf o → accounts !! aid = Some a → acct_ok a → order_unexpired h o →
  accept o aid a h ms b = SOk b' acc → backed b'.
Proof.
  intros [Hinv Hb] Hwf Ha Hok Hexp Hacc. destruct (accept_validated _ _ _ _ _ _ _ Hacc) as (cost & Hval).
  destruct (accept_ok b o aid a h ms Hinv Hwf Hok) as [(e & _ & He)|(b1 & acc1 & Hok1 & Hinv1 & Ho1 & _ & _ & _ & Hro & Hra & _)]; [congruence|].
  rewrite Hacc in Hok1. injection Hok1 as <- <-. split; [done|].
  destruct (validate_with_reservation_Ok _ _ _ _ _ Hwf Hval) as (m & d & Hoh & -> & Hcov).
  set (ro := ac_resting_order acc) in *.
  assert (covered ro m d) as Hc.
  { pose proof (bi_orders _ Hinv1) as Hall. rewrite Forall_forall in Hall. destruct (Hall ro) as (m' & d' & Hc); [rewrite Ho1; set_solver|].
    pose proof (cov_shape _ _ _ Hc) as Hoh'. rewrite Hro in Hoh'. by destruct (one_hot_unique _ _ _ _ _ Hoh Hoh') as [<- <-]. }
  assert (∀ k, pos_of k ro = if decide (is_sell d = true ∧ k = (aid, (m, dir_outcome d))) then ord_max_fill o else 0) as Hpo.
  { intros k. rewrite (pos_of_pos_res k ro m d) by apply (cov_pos _ _ _ Hc). by rewrite Hra, Hro. }
  assert (∀ x, worst_of x ro = if decide (aid = x) then bal_res d (ord_limit_price o) (ord_max_fill o) else 0) as Hwo.
  { intros x. unfold worst_of. rewrite Hra, (worst_cost_covered _ _ _ Hc). by rewrite Hro. }
  rewrite Ho1. apply Forall_app. split.
  - rewrite !Forall_forall in *. intros x Hx. destruct (Hb x Hx) as (He & a' & m' & d' & Ha' & Hoh' & Hbk). split; [done|].
    exists a', m', d'. split; [done|]. split; [done|]. rewrite Ho1. destruct (is_sell d') eqn:Hd'.
    + rewrite sumZ_app. cbn [sumZ]. rewrite Hpo. destruct (decide _) as [Hk|]; [|lia]. destruct Hk as [Hd Heq]. injection Heq as Hid -> Hout. rewrite Hid in Ha' |- *.
      rewrite Hd, acct_position_reservations_get, (agg_pos _ _ _ (bi_agg _ Hinv)) in Hcov. rewrite Hout. assert (a' = a) as -> by congruence. lia.
    + rewrite sumZ_app. cbn [sumZ]. rewrite Hwo. destruct (decide _) as [Hk|]; [|lia]. subst aid. assert (a' = a) as -> by congruence.
      rewrite Hk in Hcov. pose proof (worst_le_reserved b (ro_account_id x) Hinv). unfold bal_res in *. destruct (is_sell d); lia.
  - apply Forall_singleton. unfold resting_backed. rewrite Hro, Hra. split; [done|]. exists a, m, d. split; [done|]. split; [done|].
    rewrite Ho1. destruct (is_sell d) eqn:Hd; rewrite sumZ_app; cbn [sumZ].
    + rewrite Hpo, decide_True by done. rewrite acct_position_reservations_get, (agg_pos _ _ _ (bi_agg _ Hinv)) in Hcov. lia.
    + rewrite Hwo, decide_True by done. pose proof (worst_le_reserved b aid Hinv). lia.
Qed.

(** Revalidation backs whatever it keeps. *)
Lemma backed_revalidate b b' active removed :
  book_inv b → accounts_ok b accounts → Forall (λ ro, order_unexpired h (ro_order ro)) (ob_orders b) →
  revalidate accounts active b = SOk b' removed → backed b'.
Proof.
  intros Hinv Hacc Hexp Hrev. destruct (revalidate_ok b accounts active Hinv Hacc) as (b1 & Hr & Ho & _ & Hinv').
  rewrite Hrev in Hr. injection Hr as <- _. split; [done|]. rewrite Forall_forall in Hexp |- *. intros ro Hin. rewrite Ho in Hin.
  apply list_elem_of_filter in Hin as [Hv Hin]. split; [auto|].
  destruct (proj2 (revalidate_order_ok (E := unit) b accounts active ro Hinv Hacc Hin) Hv) as (a & m & d & Ha & Hpos & Hc & Hs).
  exists a, m, d. split; [done|]. split; [apply (cov_shape _ _ _ Hc)|].
  destruct (collateral_after_revalidation b b' accounts active _ a Hinv Hacc Ha ltac:(lia) Hinv' Ho) as [Hcash Hsh].
  destruct (is_sell d); [|done]. rewrite <- (agg_pos _ _ _ (bi_agg _ Hinv')). apply Hsh.
  pose proof (agg_pos_range _ _ _ (bi_agg _ Hinv) (ro_account_id ro, (m, dir_outcome d))) as R. cbv beta in R.
  rewrite <- (agg_pos _ _ _ (bi_agg _ Hinv)) in R. unfold acc_position in Hs. lia.
Qed.

Lemma worst_of_nonneg x ro : ro_ok ro → 0 ≤ worst_of x ro.
Proof.
  intros (m & d & Hc). unfold worst_of. rewrite (worst_cost_covered _ _ _ Hc). pose proof (cov_wf _ _ _ Hc) as Hwf. destruct (wf_limit _ Hwf), (wf_max_fill _ Hwf).
  unfold bal_res. destruct (decide _); [|done]. destruct (is_sell d); [done|]. apply div_ceil_nonneg; mnia.
Qed.
Lemma sumZ_delete {A} (f : A → Z) i l : (∀ x, x ∈ l → 0 ≤ f x) → sumZ f (delete i l) ≤ sumZ f l.
Proof.
  revert i. induction l as [|x l IH]; intros i Hf; [done|]. pose proof (Hf x ltac:(left)). destruct i as [|i]; [cbn; lia|].
  change (delete (S i) (x :: l)) with (x :: delete i l). cbn [sumZ]. specialize (IH i ltac:(intros; apply Hf; by right)). lia.
Qed.
(** Undoing an acceptance leaves every other order as it was backed. *)
Lemma backed_cancel b b' acc ro : backed b → cancel_accepted acc b = SOk b' ro → backed b'.
Proof.
  intros [Hinv Hb] Hc. unfold cancel_accepted in Hc. pose proof (cancel_ok b (ac_account_id acc) (ord_id (ac_order acc)) Hinv) as Hok.
  destruct (cancel_index _ _ _) as [i|e|]; [|congruence|done]. destruct Hok as (ro' & b1 & _ & _ & _ & Hc' & Ho & _ & Hinv1). rewrite Hc in Hc'. injection Hc' as <- <-.
  pose proof (bi_orders _ Hinv) as Hall. rewrite Forall_forall in Hall. split; [done|]. rewrite Ho, Forall_forall in *. intros x Hx.
  assert (x ∈ ob_orders b) as Hin by (eapply elem_of_submseteq; [exact Hx|]; apply sublist_submseteq, sublist_delete).
  destruct (Hb x Hin) as (He & a & m & d & Ha & Hoh & Hbk). split; [done|]. exists a, m, d. split; [done|]. split; [done|]. rewrite Ho. destruct (is_sell d).
  - etrans; [|exact Hbk]. apply sumZ_delete. intros y Hy. apply pos_of_nonneg, ro_ok_nonneg, Hall, Hy.
  - etrans; [|exact Hbk]. apply sumZ_delete. intros y Hy. apply worst_of_nonneg, Hall, Hy.
Qed.

(** The submissions of a block that the book accepts one after the other; one that
    would complete a set is accepted and taken back. *)
Inductive admits : OrderBook → OrderBook → Prop :=
  | admits_done b : admits b b
  | admits_next b b1 b2 o aid a ms acc :
      order_wf o → accounts !! aid = Some a → acct_ok a → h ≤ effective_expires_at_block o h (ob_ttl b) →
      accept o aid a h ms b = SOk b1 acc → admits b1 b2 → admits b b2
  | admits_undone b b1 b1' b2 o aid a ms acc ro :
      order_wf o → accounts !! aid = Some a → acct_ok a → h ≤ effective_expires_at_block o h (ob_ttl b) →
      accept o aid a h ms b = SOk b1 acc → cancel_accepted acc b1 = SOk b1' ro → admits b1' b2 → admits b b2.

Lemma effective_unexpired o ttl : h ≤ effective_expires_at_block o h ttl → order_unexpired h o.
Proof. unfold effective_expires_at_block, order_unexpired. destruct (ord_expires_at_block o); [|done]. simpl. lia. Qed.

Lemma backed_admits b b' : admits b b' → backed b → backed b'.
Proof.
  induction 1 as [|b b1 b2 o aid a ms acc Hwf Ha Hok Hexp Hacc _ IH|b b1 b1' b2 o aid a ms acc ro Hwf Ha Hok Hexp Hacc Hundo _ IH]; intros Hb; [done|..].
  - apply IH. eapply backed_accept; [done..| |done]. by eapply effective_unexpired.
  - apply IH. eapply backed_cancel; [|exact Hundo]. eapply backed_accept; [done..| |done]. by eapply effective_unexpired.
Qed.

Definition resting_witness (ro : RestingOrder) : WitnessOrder := mkWitnessOrder (ro_order ro) (ro_account_id ro) false.

Lemma buy_cost_worst aid ro : buy_cost aid (resting_witness ro) = worst_of aid ro.
Proof.
  unfold buy_cost, worst_of, worst_cost, resting_witness. cbn [wo_is_mm wo_account_id wo_order].
  repeat case_decide; naive_solver.
Qed.
End backed.

(** ** The sequencer's batch passes the layer *)

Definition convert_rejection_reason (r : RejectionReason) : Reason.RejectionReason :=
  match r with
  | InsufficientBalance required available => Reason.InsufficientBalance required available
  | InsufficientPosition market out required available => Reason.InsufficientPosition market out required available
  | AccountNotFound => Reason.AccountNotFound
  | CompleteSetFormation => Reason.CompleteSetFormation
  | AtomicBundle => Reason.AtomicBundle
  | InvalidOrder reason => Reason.InvalidOrder reason
  | Expired current_block expires_at_block => Reason.Expired current_block expires_at_block
  end.

(** How block production comes to reject a public order; a refused sell whose
    shares other orders have reserved is not covered (see [reserved_sell_flagged]). *)
Inductive sequencer_rejection (accounts : gmap Z Account) (h : Z) (rej : WitnessRejection) : Prop :=
  | rej_no_account : accounts !! wr_account_id rej = None → wr_reason rej = Reason.AccountNotFound →
      sequencer_rejection accounts h rej
  | rej_expired a e : accounts !! wr_account_id rej = Some a → e < h → wr_reason rej = Reason.Expired h e →
      sequencer_rejection accounts h rej
  | rej_complete_set a : accounts !! wr_account_id rej = Some a → wr_reason rej = Reason.CompleteSetFormation →
      sequencer_rejection accounts h rej
  | rej_book a b ms e : accounts !! wr_account_id rej = Some a → book_inv b → order_wf (wr_order rej) → acct_ok a →
      accept (wr_order rej) (wr_account_id rej) a h ms b = SErr b e → wr_reason rej = convert_rejection_reason e →
      (∀ m out req av, e = InsufficientPosition m out req av →
         get0 (ob_position_reservations b) (wr_account_id rej, (m, out)) = 0) →
      sequencer_rejection accounts h rej.

(** Why the book refuses an order. *)
Lemma accept_refuses o aid a h ms b e :
  book_inv b → order_wf o → acct_ok a → accept o aid a h ms b = SErr b e →
  (∃ why, e = InvalidOrder why ∧ validate_binary_one_hot o ≠ Ok ()) ∨
  ∃ m d, one_hot o m d ∧
    if is_sell d
    then e = InsufficientPosition m (dir_outcome d) (ord_max_fill o)
           (acc_position a m (dir_outcome d) - get0 (ob_position_reservations b) (aid, (m, dir_outcome d)))
    else ∃ av, e = InsufficientBalance (bal_res d (ord_limit_price o) (ord_max_fill o)) av.
Proof.
  intros Hinv Hwf Hok He. destruct (accept_ok b o aid a h ms Hinv Hwf Hok) as [(e' & Hv & He')|(b1 & acc & Hacc & _)]; [|congruence].
  rewrite He in He'. injection He' as <-.
  destruct (validate_binary_one_hot o) as [[]|why|] eqn:Hs; [right|left|by destruct (validate_not_Panic o Hwf)].
  - destruct (one_hot_validate o Hwf Hs) as (m & d & Hoh). exists m, d. split; [done|].
    rewrite (one_hot_validate_with_reservation o m d) in Hv; [|done|apply Hwf..].
    destruct (is_sell d); (destruct (arith _ _) as [av|e'|] eqn:Hav; [|by apply arith_not_Err in Hav|done]; apply arith_Ok in Hav as [-> _];
      cbn [mbind outcome_bind] in Hv; case_match; [|done]; injection Hv as <-); [|eauto].
    by rewrite acct_position_reservations_get.
  - unfold validate_order_with_reservation, validate_order_shape in Hv. rewrite Hs in Hv. injection Hv as <-. eauto.
Qed.

Lemma rejection_verifies {E} w accounts snaps h rej :
  (∀ id, snaps !! id = (λ a, canonicalize_snapshot (snapshot_account a)) <$> accounts !! id) →
  sequencer_rejection accounts h rej → @verify_rejection E w snaps rej = Ok [].
Proof.
  intros Hsnaps Hrej. unfold verify_rejection. rewrite Hsnaps.
  destruct Hrej as [Ha Hr|a e Ha He Hr|a Ha Hr|a b ms e Ha Hinv Hwf Hok Hacc Hr Hfree]; rewrite Ha, Hr; cbn [fmap option_fmap option_map]; try done.
  { by rewrite (proj2 (Z.leb_gt h e) He). }
  destruct (accept_refuses _ _ _ _ _ _ _ Hinv Hwf Hok Hacc) as [(why & -> & Hv)|(m & d & Hoh & Hrefuse)]; cbn [convert_rejection_reason].
  { destruct (validate_binary_one_hot (wr_order rej)) as [[]| |] eqn:Hs; [done|done|by destruct (validate_not_Panic _ Hwf)]. }
  destruct (is_sell d) eqn:Hd; [subst e|destruct Hrefuse as (av & ->)]; cbn [convert_rejection_reason].
  - rewrite snapshot_position_get0, (Hfree _ _ _ _ eq_refl). unfold acc_position. rewrite Z.sub_0_r, Z.eqb_refl. done.
  - rewrite (one_hot_has_positive _ _ _ Hoh), (one_hot_has_negative _ _ _ Hoh), Hd. cbn [negb andb mbind outcome_bind].
    destruct (wf_limit _ Hwf) as [Hl0 _], (wf_max_fill _ Hwf) as [Hq0 _]. pose proof (one_hot_bounds _ _ _ Hoh Hl0 Hq0) as [Hl Hq].
    pose proof (admissible_notional _ _ Hl Hq). unfold checked_price_qty_ceil.
    rewrite (proj2 (checked_notional_ceil_i64_iff (ord_limit_price (wr_order rej)) (ord_max_fill (wr_order rej))
      (bal_res d (ord_limit_price (wr_order rej)) (ord_max_fill (wr_order rej))) ltac:(mlia) ltac:(mlia))); [by rewrite Z.eqb_refl|].
    unfold bal_res. rewrite Hd. split; [done|mlia].
Qed.

(** A market-maker submission after its ids were assigned: its constraint lists
    exactly its orders, and the whole bundle is either admitted or rejected. *)
Record mm_bundle := mkMmBundle { mb_account_id : AccountId; mb_orders : list Order; mb_constraint : MmConstraint; mb_failure : bool }.
Definition bundle_orders (mb : mm_bundle) : list WitnessOrder :=
  if mb_failure mb then [] else (λ o, mkWitnessOrder o (mb_account_id mb) true) <$> mb_orders mb.
Definition bundle_rejections (mb : mm_bundle) : list WitnessRejection :=
  if mb_failure mb then (λ o, mkWitnessRejection o (mb_account_id mb) (convert_rejection_reason AtomicBundle)) <$> mb_orders mb else [].
Definition bundle_ids (mb : mm_bundle) : list Z := ord_id <$> mb_orders mb.

(** The witness of a block whose batch came from a revalidated book, the
    submissions the book accepted and market-maker bundles, in any interleaving;
    order ids come from one counter. *)
Record batch_witness (iter : gmap Z Account → list (Z * Account)) (accounts : gmap Z Account) (b : OrderBook) (bundles : list mm_bundle) (w : BlockWitness) : Prop := {
  bwt_state : bw_post_system_state w = CanonicalState_from_accounts (iter accounts);
  bwt_public : filter (λ wo, wo_is_mm wo = false) (bw_orders w) ≡ₚ resting_witness <$> ob_orders b;
  bwt_bundles : filter (λ wo, wo_is_mm wo = true) (bw_orders w) ≡ₚ bundles ≫= bundle_orders;
  bwt_constraints : bw_mm_constraints w = mb_constraint <$> bundles;
  bwt_covered mb : mb ∈ bundles → is_Some (accounts !! mb_account_id mb) ∧ mm_order_ids (mb_constraint mb) = bundle_ids mb;
  bwt_admitted mb o : mb ∈ bundles → mb_failure mb = false → o ∈ mb_orders mb →
    order_wf o ∧ validate_binary_one_hot o = Ok () ∧ order_unexpired (hd_height (bw_header w)) o;
  bwt_ids : NoDup (((λ ro, ord_id (ro_order ro)) <$> ob_orders b) ++ (bundles ≫= bundle_ids));
  bwt_rejections : ∃ rejs, Forall (sequencer_rejection accounts (hd_height (bw_header w))) rejs ∧
    bw_rejections w ≡ₚ rejs ++ (bundles ≫= bundle_rejections);
}.

Section batch.
Context (iter : gmap Z Account → list (Z * Account)) (accounts : gmap Z Account) (b : OrderBook) (bundles : list mm_bundle) (w : BlockWitness).
Context (BW : batch_witness iter accounts b bundles w) (HB : backed accounts (hd_height (bw_header w)) b).
Context (Hiter : ∀ m, iter m ≡ₚ map_to_list m) (Hids : ∀ id a, accounts !! id = Some a → acc_id a = id).
Notation snaps := (keyed asn_id (bw_post_system_state w)).

Lemma batch_snaps id : snaps !! id = (λ a, canonicalize_snapshot (snapshot_account a)) <$> accounts !! id.
Proof. rewrite (bwt_state _ _ _ _ _ BW). by apply canonical_lookup. Qed.

Lemma batch_public wo : wo ∈ bw_orders w → wo_is_mm wo = false → ∃ ro, ro ∈ ob_orders b ∧ wo = resting_witness ro.
Proof.
  intros Hin Hmm. assert (wo ∈ resting_witness <$> ob_orders b) as (ro & -> & ?)%list_elem_of_fmap; [|eauto].
  rewrite <- (bwt_public _ _ _ _ _ BW). by apply list_elem_of_filter.
Qed.

Lemma batch_mm wo : wo ∈ bw_orders w → wo_is_mm wo = true → ∃ mb, mb ∈ bundles ∧ mb_failure mb = false ∧ wo_order wo ∈ mb_orders mb.
Proof.
  intros Hin Hmm. assert (wo ∈ bundles ≫= bundle_orders) as (mb & Hwo & Hmb)%list_elem_of_bind.
  { rewrite <- (bwt_bundles _ _ _ _ _ BW). by apply list_elem_of_filter. }
  exists mb. unfold bundle_orders in Hwo. destruct (mb_failure mb); [by apply not_elem_of_nil in Hwo|]. apply list_elem_of_fmap in Hwo as (o & -> & Ho). done.
Qed.
Lemma batch_mm_ok wo : wo ∈ bw_orders w → wo_is_mm wo = true →
  order_wf (wo_order wo) ∧ validate_binary_one_hot (wo_order wo) = Ok () ∧ order_unexpired (hd_height (bw_header w)) (wo_order wo).
Proof. intros Hin Hmm. destruct (batch_mm wo Hin Hmm) as (mb & ? & ? & ?). by eapply (bwt_admitted _ _ _ _ _ BW). Qed.

Lemma batch_costs aid : sumZ (buy_cost aid) (bw_orders w) = sumZ (worst_of aid) (ob_orders b).
Proof.
  assert (sumZ (buy_cost aid) (bw_orders w) = sumZ (buy_cost aid) (filter (λ wo, wo_is_mm wo = false) (bw_orders w))) as ->.
  { induction (bw_orders w) as [|wo l IH]; [done|]. rewrite filter_cons. cbn [sumZ]. rewrite IH. case_decide as Hmm; [done|].
    unfold buy_cost at 1. rewrite decide_False by (intros [? _]; done). lia. }
  rewrite (sumZ_perm _ _ _ (bwt_public _ _ _ _ _ BW)), sumZ_fmap. apply sumZ_ext. intros. apply buy_cost_worst.
Qed.

Lemma batch_orders_wf : Forall (λ wo, order_wf (wo_order wo)) (bw_orders w).
Proof.
  apply Forall_forall. intros wo Hin. destruct (wo_is_mm wo) eqn:Hmm; [by apply batch_mm_ok|].
  destruct (batch_public wo Hin Hmm) as (ro & Hro & ->). destruct HB as [Hinv _]. pose proof (bi_orders _ Hinv) as Hall.
  rewrite Forall_forall in Hall. destruct (Hall ro Hro) as (m & d & Hc). apply (cov_wf _ _ _ Hc).
Qed.

Lemma batch_orders_ok : Forall (order_ok snaps (hd_height (bw_header w))) (bw_orders w) ∧
  Forall (buy_covered snaps ∅ (λ aid, sumZ (buy_cost aid) (bw_orders w))) (bw_orders w).
Proof.
  destruct HB as [Hinv Hb]. rewrite !Forall_forall in *. split; intros wo Hin.
  - destruct (wo_is_mm wo) eqn:Hmm.
    + destruct (batch_mm_ok wo Hin Hmm) as (Hwf & (m & d & Hoh)%one_hot_validate & Hexp); [|done]. exists m, d. by rewrite Hmm.
    + destruct (batch_public wo Hin Hmm) as (ro & Hro & ->). destruct (Hb ro Hro) as (Hexp & a & m & d & Ha & Hoh & Hbk).
      exists m, d. split; [done|]. split; [done|]. intros _. rewrite batch_snaps. cbn [resting_witness wo_account_id wo_order]. rewrite Ha.
      eexists. split; [reflexivity|]. intros Hd. rewrite Hd in Hbk. rewrite snapshot_position_get0. etrans; [|exact Hbk].
      pose proof (bi_orders _ Hinv) as Hall. rewrite Forall_forall in Hall. destruct (Hall ro Hro) as (m' & d' & Hc).
      destruct (one_hot_unique _ _ _ _ _ Hoh (cov_shape _ _ _ Hc)) as [-> ->].
      assert (pos_of (ro_account_id ro, (m, dir_outcome d)) ro = ord_max_fill (ro_order ro)) as <-.
      { rewrite (pos_of_pos_res _ ro m d), decide_True by (done || apply (cov_pos _ _ _ Hc)). done. }
      apply sumZ_le_elem; [|done]. intros x Hx. apply pos_of_nonneg, ro_ok_nonneg. auto.
  - intros [Hmm Hbuy] s Hs. rewrite get0_empty, batch_costs. destruct (batch_public wo Hin Hmm) as (ro & Hro & ->).
    destruct (Hb ro Hro) as (_ & a & m & d & Ha & Hoh & Hbk). rewrite batch_snaps in Hs.
    cbn [resting_witness wo_account_id wo_order] in *. rewrite Ha in Hs. injection Hs as <-.
    rewrite (one_hot_is_seller _ _ _ Hoh) in Hbuy. injection Hbuy as Hd. rewrite Hd in Hbk. cbn. lia.
Qed.

(** A bundle's ids belong to no other bundle and to no other order. *)
Lemma bundle_id_unique id mb mb' : mb ∈ bundles → mb' ∈ bundles → id ∈ bundle_ids mb → id ∈ bundle_ids mb' → mb = mb'.
Proof.
  pose proof (bwt_ids _ _ _ _ _ BW) as (_ & _ & Hnd)%NoDup_app. revert Hnd. clear. induction bundles as [|x l IH]; [by intros _ ?%not_elem_of_nil|].
  cbn [mbind list_bind]. intros (_ & Hdis & Hnd)%NoDup_app. intros [->|Hmb]%elem_of_cons [->|Hmb']%elem_of_cons Hid Hid'; [done|..].
  - exfalso. apply (Hdis id Hid). apply list_elem_of_bind. eauto.
  - exfalso. apply (Hdis id Hid'). apply list_elem_of_bind. eauto.
  - by apply IH.
Qed.
Lemma bundle_constraint mb id : mb ∈ bundles → id ∈ bundle_ids mb → filter (λ c, id ∈ mm_order_ids c) (bw_mm_constraints w) = [mb_constraint mb].
Proof.
  intros Hmb Hid. rewrite (bwt_constraints _ _ _ _ _ BW). pose proof (λ m Hm, proj2 (bwt_covered _ _ _ _ _ BW m Hm)) as Hcov.
  pose proof (bwt_ids _ _ _ _ _ BW) as (_ & _ & Hnd)%NoDup_app. revert Hmb Hcov Hnd. clear -Hid. induction bundles as [|x l IH]; [by intros ?%not_elem_of_nil|].
  intros Hmb Hcov Hnd. cbn [mbind list_bind] in Hnd. apply NoDup_app in Hnd as (_ & Hdis & Hnd). rewrite fmap_cons, filter_cons, (Hcov x) by left.
  apply elem_of_cons in Hmb as [->|Hmb].
  - rewrite decide_True by done. f_equal. assert (∀ m, m ∈ l → id ∉ bundle_ids m) as Hno by (intros m Hm Hi; apply (Hdis id Hid), list_elem_of_bind; eauto).
    assert (∀ m, m ∈ l → mm_order_ids (mb_constraint m) = bundle_ids m) as Hcov' by (intros; apply Hcov; by right). clear -Hno Hcov'. induction l as [|y l IH]; [done|].
    rewrite fmap_cons, filter_cons, (Hcov' y) by left. rewrite decide_False by (apply Hno; left). apply IH; intros; [apply Hno|apply Hcov']; by right.
  - rewrite decide_False; [|intros Hi; apply (Hdis id Hi), list_elem_of_bind; eauto]. apply IH; [done|intros; apply Hcov; by right|done].
Qed.

(** A bundle rejected whole passes the atomic-bundle check. *)
Lemma bundle_verifies {E} mb rej : mb ∈ bundles → rej ∈ bundle_rejections mb → @verify_rejection E w snaps rej = Ok [].
Proof.
  intros Hmb Hrej. unfold bundle_rejections in Hrej. destruct (mb_failure mb) eqn:Hf; [|by apply not_elem_of_nil in Hrej].
  apply list_elem_of_fmap in Hrej as (o & -> & Ho). destruct (bwt_covered _ _ _ _ _ BW mb Hmb) as [[a Ha] Hids']. assert (ord_id o ∈ bundle_ids mb) as Hid by (by apply list_elem_of_fmap_2).
  unfold verify_rejection. cbn [wr_account_id wr_reason wr_order convert_rejection_reason]. rewrite batch_snaps, Ha. cbn [fmap option_fmap option_map]. f_equal.
  unfold check_atomic_bundle. cbn [wr_order wr_account_id]. rewrite (bundle_constraint mb (ord_id o) Hmb Hid), Hids'.
  destruct (bwt_rejections _ _ _ _ _ BW) as (rejs & _ & Hrejs). rewrite (proj2 (forallb_forall _ _)); cbn [negb orb].
  - assert (existsb (λ cand, bool_decide (ord_id (wo_order cand) ∈ bundle_ids mb)) (bw_orders w) = false) as ->; [|done].
    apply not_true_is_false. intros (wo & Hwo%list_elem_of_In & Hin%bool_decide_eq_true)%existsb_exists. destruct (wo_is_mm wo) eqn:Hmm.
    + destruct (batch_mm wo Hwo Hmm) as (mb' & Hmb' & Hf' & Ho'). rewrite (bundle_id_unique (ord_id (wo_order wo)) mb mb') in Hf; [congruence|done..|by apply list_elem_of_fmap_2].
    + destruct (batch_public wo Hwo Hmm) as (ro & Hro & ->). pose proof (bwt_ids _ _ _ _ _ BW) as (_ & Hdis & _)%NoDup_app.
      apply (Hdis (ord_id (ro_order ro))); [by apply (list_elem_of_fmap_2 (λ ro, ord_id (ro_order ro)))|]. apply list_elem_of_bind. by exists mb.
  - intros id (o' & -> & Ho')%list_elem_of_In%list_elem_of_fmap. apply existsb_exists. exists (mkWitnessRejection o' (mb_account_id mb) Reason.AtomicBundle). cbn. rewrite !Z.eqb_refl. split; [|done].
    apply list_elem_of_In. rewrite Hrejs, elem_of_app. right. apply list_elem_of_bind. exists mb. split; [|done]. unfold bundle_rejections. rewrite Hf. apply list_elem_of_fmap. by exists o'.
Qed.
End batch.

(** ** What the verdict means *)

Definition snapshots_i64 (w : BlockWitness) : Prop :=
  ∀ id s, keyed asn_id (bw_post_system_state w) !! id = Some s → i64 (asn_balance s).

(** Acceptance of layer 4: its order loop raised nothing. *)
Lemma verify_orders_sound {E} w res :
  Forall (λ wo, order_wf (wo_order wo)) (bw_orders w) → snapshots_i64 w →
  @verify_orders E w = Ok res → vr_valid res = true →
  Forall (order_ok (keyed asn_id (bw_post_system_state w)) (hd_height (bw_header w))) (bw_orders w) ∧
  Forall (buy_covered (keyed asn_id (bw_post_system_state w)) ∅ (λ aid, sumZ (buy_cost aid) (bw_orders w))) (bw_orders w).
Proof.
  intros Hwf Hbal Hv Hvalid. unfold verify_orders in Hv.
  destruct (verify_orders_loop (E := E) _ (hd_height (bw_header w)) Hbal (bw_orders w) ∅ Hwf) as (vs & r & Hl & Hiff).
  { intros aid. rewrite get0_empty. split; [done|]. auto. }
  rewrite Hl in Hv. cbn [mbind outcome_bind] in Hv. destruct (omapM _ _) as [rs| |]; [|done..]. cbn [mbind outcome_bind] in Hv.
  injection Hv as <-. unfold from_violations in Hvalid. cbn [vr_valid] in Hvalid. apply bool_decide_eq_true, app_nil in Hvalid as [Hnil _].
  by apply Hiff.
Qed.

(** ** Properties *)

(** C26: the order layer accepts the batch the sequencer admits.  The book has had its
    expired orders removed; revalidation carries over the rest; the submissions are
    accepted one after the other (one that would complete a set is taken back);
    market-maker bundles are admitted or rejected whole, in any interleaving; and
    orders are rejected for a missing account, expiry, a complete set, an atomic
    bundle, or the book's own reasons.  Excluded is a sell refused while other orders
    of the account have reserved some of its shares ([reserved_sell_flagged] shows
    that the layer flags it).  Assumed of the accounts that own or submit public
    orders: balances and positions not below -1 ([acct_ok]); of order ids: that they
    are distinct. *)
Theorem admitted_batch_verifies (b b1 b2 : OrderBook) (accounts : gmap Z Account) (active : gset Z)
    (removed : list (RestingOrder * RestingRevalidationExit)) (bundles : list mm_bundle) (iter : gmap Z Account → list (Z * Account)) (w : BlockWitness) :
  let h := hd_height (bw_header w) in
  book_inv b → accounts_ok b accounts → Forall (λ ro, order_unexpired h (ro_order ro)) (ob_orders b) →
  revalidate accounts active b = SOk b1 removed → admits accounts h b1 b2 →
  (∀ m, iter m ≡ₚ map_to_list m) → (∀ id a, accounts !! id = Some a → acc_id a = id ∧ i64 (acc_balance a)) →
  batch_witness iter accounts b2 bundles w →
  verify_orders (E := unit) w = Ok (from_violations []).
Proof.
  intros h Hinv Hok Hexp Hrev Hadm Hiter Hacc BW.
  assert (backed accounts h b2) as HB by (eapply backed_admits; [done|]; by eapply backed_revalidate).
  assert (∀ id a, accounts !! id = Some a → acc_id a = id) as Hids by (intros; by apply Hacc).
  assert (snapshots_i64 w) as Hbal.
  { intros id s Hs. rewrite (batch_snaps _ _ _ _ _ BW Hiter Hids) in Hs. apply fmap_Some in Hs as (a & Ha & ->). by apply (Hacc id). }
  unfold verify_orders.
  destruct (verify_orders_loop (E := unit) _ h Hbal (bw_orders w) ∅ (batch_orders_wf _ _ _ _ _ BW HB)) as (vs & r & Hl & Hiff).
  { intros aid. rewrite get0_empty. split; [done|]. auto. }
  fold h. rewrite Hl. cbn [mbind outcome_bind]. rewrite (proj2 Hiff (batch_orders_ok _ _ _ _ _ BW HB Hiter Hids)).
  destruct (omapM_nil (E := unit) (verify_rejection w (keyed asn_id (bw_post_system_state w))) (bw_rejections w)) as (rs & -> & Hrs).
  { intros rej Hrej. destruct (bwt_rejections _ _ _ _ _ BW) as (rejs & Hall & Hp). rewrite Hp, elem_of_app, list_elem_of_bind in Hrej. destruct Hrej as [Hrej|(mb & Hrej & Hmb)].
    - eapply rejection_verifies; [intros id; by apply (batch_snaps _ _ _ _ _ BW)|]. by eapply Forall_forall.
    - by eapply (bundle_verifies _ _ _ _ _ BW Hiter Hids mb). }
  cbn [mbind outcome_bind]. by rewrite Hrs.
Qed.

(** A carried buy, an accepted one, an admitted market-maker bundle, a bundle
    rejected whole and a refused buy. *)
Definition ex_accept_order : Order := binary_order 8 3 BuyNo 300000000 2000.
Definition ex_big_order : Order := binary_order 9 3 BuyNo 900000000 9000.
Definition ex_kept : OrderBook := default ex_book (left_state (revalidate {[1 := ex_acct]} {[3]} ex_book)).
Definition ex_grown : OrderBook := default ex_kept (left_state (accept ex_accept_order 1 ex_acct 11 0 ex_kept)).
Definition ex_constraint (ids : list Z) : MmConstraint := foldl (λ c id, add_order id SellYes c) (MmConstraint_new 1 1000) ids.
Definition ex_bundle : mm_bundle := mkMmBundle 1 [binary_order 10 3 SellYes 500000000 4000] (ex_constraint [10]) false.
Definition ex_refused_bundle : mm_bundle := mkMmBundle 1 [binary_order 11 3 SellYes 500000000 4000; binary_order 12 3 SellYes 600000000 4000] (ex_constraint [11; 12]) true.
Definition ex_orders_witness : BlockWitness :=
  mkBlockWitness (ex_header 11) (Some (ex_header 10)) []
    [mkWitnessOrder ex_order 1 false; mkWitnessOrder (binary_order 10 3 SellYes 500000000 4000) 1 true; mkWitnessOrder ex_accept_order 1 false]
    (mkWitnessRejection ex_big_order 1 (Reason.InsufficientBalance 8100000000 1999399994) :: bundle_rejections ex_refused_bundle) []
    (mkDepositAccumulatorWitness [] 0 []) [] ∅ 0 0 [mb_constraint ex_bundle; mb_constraint ex_refused_bundle] [] [] (CanonicalState_from_accounts [(1, ex_acct)]) [] []
    (ex_sidecar ex_book) (ex_sidecar ex_book) [].

Lemma ex_wf_orders o : o ∈ [ex_accept_order; ex_big_order; binary_order 10 3 SellYes 500000000 4000] → order_wf o.
Proof.
  rewrite !elem_of_cons. intros [->|[->|[->|Hn]]]; [..|by apply not_elem_of_nil in Hn];
    apply binary_order_wf; vm_compute; split; discriminate.
Qed.

Lemma admitted_batch_verifies_witness :
  (vr_valid <$> verify_orders (E := unit) ex_orders_witness) = Ok true ∧
  verify_orders (E := unit) ex_orders_witness = Ok (from_violations []).
Proof.
  split; [vm_compute; reflexivity|].
  apply (admitted_batch_verifies ex_book ex_kept ex_grown {[1 := ex_acct]} {[3]} [] [ex_bundle; ex_refused_bundle] map_to_list ex_orders_witness).
  - exact ex_book_inv.
  - intros ro a _ [_ <-]%lookup_singleton_Some. exact ex_acct_ok.
  - vm_compute. repeat constructor.
  - vm_compute. reflexivity.
  - eapply (admits_next _ _ ex_kept ex_grown ex_grown ex_accept_order 1 ex_acct 0).
    + apply ex_wf_orders. left.
    + reflexivity.
    + exact ex_acct_ok.
    + vm_compute. discriminate.
    + vm_compute. reflexivity.
    + constructor.
  - intros m. reflexivity.
  - intros id a [<- <-]%lookup_singleton_Some. split; [reflexivity|]. vm_compute. split; discriminate.
  - constructor.
    + vm_compute. reflexivity.
    + vm_compute. reflexivity.
    + vm_compute. reflexivity.
    + reflexivity.
    + intros mb [->|[->|Hn%not_elem_of_nil]%elem_of_cons]%elem_of_cons; [..|done]; (split; [by exists ex_acct|vm_compute; reflexivity]).
    + intros mb o [->|[->|Hn%not_elem_of_nil]%elem_of_cons]%elem_of_cons Hf; [|discriminate Hf|done]. intros ->%list_elem_of_singleton.
      split; [apply ex_wf_orders; right; right; left|]. split; vm_compute; reflexivity.
    + apply (bool_decide_unpack (NoDup _)). vm_compute. exact I.
    + exists [mkWitnessRejection ex_big_order 1 (Reason.InsufficientBalance 8100000000 1999399994)]. split; [|vm_compute; reflexivity].
      apply Forall_singleton. eapply (rej_book _ _ _ ex_acct ex_book 0).
      * reflexivity.
      * exact ex_book_inv.
      * apply ex_wf_orders. right. left.
      * exact ex_acct_ok.
      * vm_compute. reflexivity.
      * vm_compute. reflexivity.
      * intros m out req av He. vm_compute in He. discriminate He.
Defined.

(** A rejection the layer does not accept although the sequencer produced it:
    the account holds 500 shares of which a resting sell has reserved 300; a
    second sell of 300 is refused with 200 available, which layer 4 compares
    with the whole position. *)
Definition ex_seller : Account := set_positions {[(3, 0) := 500]} (Account_new (λ _, []) 1 1000000000).
Definition ex_sell (id : Z) : Order := binary_order id 3 SellYes 400000000 300.
Definition ex_selling : OrderBook :=
  default (OrderBook_new 100) (left_state (accept (ex_sell 1) 1 ex_seller 10 0 (OrderBook_new 100))).

Example reserved_sell_flagged :
  accept (ex_sell 2) 1 ex_seller 10 0 ex_selling = SErr ex_selling (InsufficientPosition 3 0 300 200) ∧
  ∀ w, verify_rejection (E := unit) w {[1 := canonicalize_snapshot (snapshot_account ex_seller)]}
    (mkWitnessRejection (ex_sell 2) 1 (convert_rejection_reason (InsufficientPosition 3 0 300 200))) =
  Ok [VK.IncorrectRejectionReason].
Proof. split; [vm_compute; reflexivity|]. intros w. vm_compute. reflexivity. Qed.
