(* ===== verification/Solvency.v ===== *)
(** * Solvency: verified batches cannot overdraw an account

    Composes layers 1 and 4 of the verifier ([MatchVerifier], [OrdersVerifier])
    with block finalisation ([Finalize]): if both layers accept a block and its fills
    are booked to the owners of their orders (which layer 2 checks), the only accounts that finalisation can leave overdrawn are those of market
    makers, whose orders are exempt from the coverage check. *)
From S2P Require Import Prelude Types Order EngineSettlement MmConstraint Account Validation OrderBook Snapshots BookInvariant BookSafety Digest BatchSettlement Finalize Conservation Witness Sidecar SettlementVerifier VerifierAgreement MatchVerifier OrdersVerifier.

(** ** The balance of one account *)

(** The cash the fills of account [id] move. *)
Definition account_cash (om : gmap Z Order) (id : Z) (f : Fill) : Z :=
  if decide (fill_account_id f = id) then cash_term om f else 0.

Lemma settle_step_account {E : Type} blake3 om h s f s' id a :
  settle_batch_step (E := E) blake3 om h s f = Ok s' → bs_accounts s !! id = Some a →
  ∃ a', bs_accounts s' !! id = Some a' ∧ acc_balance a' = acc_balance a + account_cash om id f.
Proof.
  intros H Ha. unfold settle_batch_step in H. unfold account_cash.
  destruct (Z.eqb_spec (fill_qty f) 0) as [Hq|Hq].
  { simplify_eq. exists a. rewrite (cash_term_zero om f Hq). split; [done|]. case_decide; lia. }
  unfold cash_term. destruct (om !! fill_order_id f) as [o|] eqn:Ho.
  2: { injection H as <-. exists a. split; [done|]. case_decide; lia. }
  destruct (bs_accounts s !! fill_account_id f) as [b|] eqn:Hb.
  2: { injection H as <-. exists a. split; [done|]. rewrite decide_False by congruence. lia. }
  unfold settle_fill_with_delta, compute_fill_settlement in H.
  destruct (compute_fill_settlement_checked o f) as [[d|]| |]; cbn [mbind outcome_bind] in H; [|injection H as <-; exists a; split; [done|]; case_decide; lia..|done].
  destruct (arith I64 _) as [bal| |] eqn:Hbal; [|done..]. apply arith_Ok in Hbal as [-> _]. cbn [mbind outcome_bind] in H.
  destruct (apply_positions _ _) as [p| |]; [|done..]. cbn [mbind outcome_bind] in H. injection H as <-. cbn [bs_accounts].
  rewrite lookup_insert. case_decide as Heq; [|exists a; split; [done|]; lia].
  subst id. simplify_eq. eexists. split; [reflexivity|]. done.
Qed.

Lemma settle_account {E : Type} blake3 om h fills s s' id a :
  ofold (settle_batch_step (E := E) blake3 om h) s fills = Ok s' → bs_accounts s !! id = Some a →
  ∃ a', bs_accounts s' !! id = Some a' ∧ acc_balance a' = acc_balance a + sumZ (account_cash om id) fills.
Proof.
  revert s a. induction fills as [|f fills IH]; intros s a H Ha; [simplify_eq/=; exists a; split; [done|lia]|].
  cbn [ofold] in H. destruct (settle_batch_step blake3 om h s f) as [s1| |] eqn:Hs; [|done..]. cbn [mbind outcome_bind] in H.
  destruct (settle_step_account _ _ _ _ _ _ _ _ Hs Ha) as (a1 & Ha1 & Hb1). destruct (IH s1 a1 H Ha1) as (a2 & ? & ?).
  exists a2. split; [done|]. cbn [sumZ]. lia.
Qed.

(** Minting touches only the MINT account. *)
Lemma mint_phase_other {E : Type} blake3 accounts adjs h accounts' id :
  mint_phase (E := E) blake3 accounts adjs h = Ok accounts' → id ≠ AccountId_MINT → accounts' !! id = accounts !! id.
Proof.
  unfold mint_phase. destruct adjs as [|adj adjs]; [by intros [= <-]|]. intros H Hid.
  destruct (expect (accounts !! AccountId_MINT)) as [mint| |]; [|done..]. cbn [mbind outcome_bind] in H.
  destruct (apply_minting _ _ _ _) as [mint'| |]; [|done..]. injection H as <-. by rewrite lookup_insert_ne.
Qed.

(** ** A fill costs at most the worst case of its order *)

Lemma fill_cash_bound om f o m d :
  om !! fill_order_id f = Some o → one_hot o m d → order_wf o → fill_wf f → 0 < fill_qty f ≤ ord_max_fill o →
  fill_price f ≤ NANOS_PER_DOLLAR → within_limit o d f →
  - bal_res d (ord_limit_price o) (ord_max_fill o) ≤ cash_term om f.
Proof.
  intros Ho Hoh Hwf [_ Hfp] Hq Hp Hlim. pose proof (oh_max_fill _ _ _ Hoh). destruct (wf_limit _ Hwf) as [Hl0 _].
  unfold cash_term. rewrite Ho, (one_hot_settlement_admitted o m d) by (mlia || done). cbn [settle_spec sd_balance_delta].
  unfold within_limit, bal_res in *. destruct (dir_sign_cases d) as [[-> Hs]|[-> Hs]]; rewrite Hs in *.
  - assert (fill_price f * fill_qty f / SHARE_SCALE ≤ div_ceil (ord_limit_price o * ord_max_fill o) SHARE_SCALE); [|lia].
    transitivity (div_ceil (fill_price f * fill_qty f) SHARE_SCALE); [apply div_le_div_ceil; done|].
    apply div_ceil_mono; [done|]. apply Z.mul_le_mono_nonneg; mlia.
  - assert (0 ≤ fill_price f * fill_qty f / SHARE_SCALE); [|lia]. apply Z.div_pos; mnia.
Qed.

(** ** An account's fills cost at most its orders' worst cases *)

Lemma sumZ_submseteq {A} (f : A → Z) l k : l ⊆+ k → (∀ x, x ∈ k → 0 ≤ f x) → sumZ f l ≤ sumZ f k.
Proof.
  intros [r Hk]%submseteq_Permutation Hf. rewrite (sumZ_perm _ _ _ Hk), sumZ_app.
  assert (0 ≤ sumZ f r); [|lia]. apply sumZ_nonneg. intros x Hx. apply Hf. rewrite Hk. set_solver.
Qed.

Section verified.
Context {w : BlockWitness} (HI : match_input w) (HV : match_valid w).
Context (Howner : ∀ f wo, f ∈ bw_fills w → wo ∈ bw_orders w → ord_id (wo_order wo) = fill_order_id f →
  fill_account_id f = wo_account_id wo).
Notation om := (witness_order_map w).

(** [wo] is the witness order that [f] fills. *)
Definition fills_order (f : Fill) (wo : WitnessOrder) : Prop :=
  f ∈ bw_fills w ∧ wo ∈ bw_orders w ∧ ord_id (wo_order wo) = fill_order_id f ∧ om !! fill_order_id f = Some (wo_order wo).

Lemma fills_have_orders : ∃ wos, Forall2 fills_order (bw_fills w) wos.
Proof.
  assert (Forall (λ f, ∃ wo, fills_order f wo) (bw_fills w)) as H.
  { pose proof (mv_fills _ HV) as Hf. rewrite Forall_forall in *. intros f Hin. destruct (Hf f Hin) as (o & m & d & Ho & _).
    pose proof Ho as Ho'. unfold witness_order_map in Ho. apply lookup_fmap_Some in Ho as (wo & <- & Hk).
    exists wo. apply keyed_lookup in Hk as [? ?]; [|apply (mv_ids _ HV)]. done. }
  by apply Forall_choose.
Qed.

Lemma filled_orders_distinct wos : Forall2 fills_order (bw_fills w) wos → wos ⊆+ bw_orders w.
Proof.
  intros Hw. apply NoDup_submseteq.
  - apply (NoDup_fmap_1 (λ wo, ord_id (wo_order wo))). replace ((λ wo, ord_id (wo_order wo)) <$> wos) with (fill_order_id <$> bw_fills w); [apply (mv_once _ HV)|].
    clear -Hw. induction Hw as [|f wo fills wos (_ & _ & Hid & _) _ IH]; [done|]. cbn. by rewrite Hid, IH.
  - intros wo Hin. apply list_elem_of_lookup in Hin as [i Hi]. destruct (Forall2_lookup_r _ _ _ _ _ Hw Hi) as (f & _ & _ & Hx & _). done.
Qed.

Lemma account_outflow id :
  (∀ wo, wo ∈ bw_orders w → wo_account_id wo = id → wo_is_mm wo = false) →
  - sumZ (buy_cost id) (bw_orders w) ≤ sumZ (account_cash om id) (bw_fills w).
Proof.
  intros Hpub. destruct fills_have_orders as (wos & Hw). pose proof (mi_orders _ HI) as Hwf. rewrite Forall_forall in Hwf.
  assert (sumZ (buy_cost id) wos ≤ sumZ (buy_cost id) (bw_orders w)).
  { apply sumZ_submseteq; [by apply filled_orders_distinct|]. intros wo Hin. apply buy_cost_nonneg. by apply Hwf. }
  enough (- sumZ (buy_cost id) wos ≤ sumZ (account_cash om id) (bw_fills w)) by lia.
  enough (Forall2 (λ f wo, - buy_cost id wo ≤ account_cash om id f) (bw_fills w) wos) as Hle.
  { clear -Hle. induction Hle; cbn [sumZ]; lia. }
  eapply Forall2_impl; [exact Hw|]. intros f wo (Hf & Hwo & Hid & Hom). destruct (Hwf wo Hwo) as [Hwfo _]. unfold account_cash.
  pose proof (buy_cost_nonneg id wo Hwfo). case_decide as Heq; [|lia].
  pose proof (mv_fills _ HV) as Hfs. pose proof (mi_fills _ HI) as Hfw. rewrite Forall_forall in Hfs, Hfw.
  destruct (Hfs f Hf) as (o & m & d & Ho & Hoh & Hq & Hp & Hlim). rewrite Hom in Ho. injection Ho as <-.
  rewrite (Howner f wo Hf Hwo Hid) in Heq. destruct (one_hot_buy_cost wo m d id Hwfo Hoh) as [-> _].
  rewrite decide_True by (split; [by apply Hpub|done]). by apply (fill_cash_bound om f (wo_order wo) m d); try apply Hfw.
Qed.

(** No public order's account can be overdrawn by the batch. *)
Lemma account_stays_solvent accounts id s :
  Forall (buy_covered accounts ∅ (λ aid, sumZ (buy_cost aid) (bw_orders w))) (bw_orders w) →
  (∀ wo, wo ∈ bw_orders w → wo_account_id wo = id → wo_is_mm wo = false) →
  accounts !! id = Some s → 0 ≤ asn_balance s → 0 ≤ asn_balance s + sumZ (account_cash om id) (bw_fills w).
Proof.
  intros Hcov Hpub Hs Hb. pose proof (account_outflow id Hpub). pose proof (mi_orders _ HI) as Hwf. rewrite Forall_forall in Hwf, Hcov.
  destruct (decide (sumZ (buy_cost id) (bw_orders w) = 0)) as [|Hne]; [lia|].
  destruct (sumZ_nonzero _ _ Hne) as (wo & Hwo & Hc). destruct (Hwf wo Hwo) as [Hwfo Hval].
  destruct (buy_cost_public id wo Hwfo) as [Hbuy Hid]; [by apply one_hot_validate|done|].
  specialize (Hcov wo Hwo Hbuy s). rewrite Hid, get0_empty in Hcov. specialize (Hcov Hs). lia.
Qed.
End verified.

(** ** What layer 2 says of the owners *)

Section owners.
Context (blake3 : Bytes → Bytes) (iterd : gmap Z DerivedAccountState → list (Z * DerivedAccountState)).

(** Violations are only ever added. *)
Lemma fill_step_violations om h r f r' : derive_fill_step (E := unit) blake3 om h r f = Ok r' →
  (∀ v, v ∈ dse_violations r → v ∈ dse_violations r') ∧
  (∀ wo, fill_qty f ≠ 0 → om !! fill_order_id f = Some wo → fill_account_id f ≠ 0 → fill_account_id f ≠ wo_account_id wo → VK.FillAccountMismatch ∈ dse_violations r').
Proof.
  unfold derive_fill_step. destruct (Z.eqb_spec (fill_qty f) 0) as [|Hq]; [by intros [= <-]|]. destruct (om !! fill_order_id f) as [wo|]; [|by intros [= <-]].
  set (r0 := if _ && _ then push_violations [VK.FillAccountMismatch] r else r).
  assert ((∀ v, v ∈ dse_violations r → v ∈ dse_violations r0) ∧ (fill_account_id f ≠ 0 → fill_account_id f ≠ wo_account_id wo → VK.FillAccountMismatch ∈ dse_violations r0)) as [Hin Hbad].
  { subst r0. destruct (Z.eqb_spec (fill_account_id f) 0), (Z.eqb_spec (fill_account_id f) (wo_account_id wo)); cbn; split; intros; try done; apply elem_of_app; first [by left|right; by left]. }
  assert (∀ vs, dse_violations r' = dse_violations r0 ++ vs → (∀ v, v ∈ dse_violations r → v ∈ dse_violations r') ∧
    (∀ wo', fill_qty f ≠ 0 → Some wo = Some wo' → fill_account_id f ≠ 0 → fill_account_id f ≠ wo_account_id wo' → VK.FillAccountMismatch ∈ dse_violations r')) as Hext.
  { intros vs ->. split; [intros v Hv; apply elem_of_app; left; auto|]. intros wo' _ [= <-] ? ?. apply elem_of_app. left. auto. }
  clearbody r0. intros H. apply (Hext (drop (length (dse_violations r0)) (dse_violations r'))). revert H. clear.
  assert (∀ vs x, Ok (E := unit) (push_violations vs x) = Ok r' → dse_violations x = dse_violations r0 → dse_violations r' = dse_violations r0 ++ drop (length (dse_violations r0)) (dse_violations r')) as Hp.
  { intros vs x [= <-] Hx. cbn. rewrite Hx, drop_app_length. done. }
  assert (∀ x, Ok (E := unit) x = Ok r' → dse_violations x = dse_violations r0 → dse_violations r' = dse_violations r0 ++ drop (length (dse_violations r0)) (dse_violations r')) as Hx.
  { intros x [= <-] Hx. rewrite Hx, drop_all, app_nil_r. done. }
  destruct (_ <? _); [intros H; by eapply Hp|]. destruct (_ <? _); [intros H; by eapply Hp|].
  destruct (compute_fill_settlement_checked _ _) as [[d|]| |]; [|intros H; by eapply Hx|intros H; by eapply Hp|done].
  destruct (chk I64 _); [|intros H; by eapply Hp]. destruct (chk I64 _); [|intros H; by eapply Hp].
  destruct (foldl _ _ _) as [pos vs]. intros H. by eapply Hp.
Qed.
Lemma fill_steps_violations om h fills r r' : ofold (derive_fill_step (E := unit) blake3 om h) r fills = Ok r' →
  (∀ v, v ∈ dse_violations r → v ∈ dse_violations r') ∧
  (∀ f wo, f ∈ fills → fill_qty f ≠ 0 → om !! fill_order_id f = Some wo → fill_account_id f ≠ 0 → fill_account_id f ≠ wo_account_id wo → VK.FillAccountMismatch ∈ dse_violations r').
Proof.
  revert r. induction fills as [|f fills IH]; intros r; cbn [ofold]; [intros [= <-]; split; [done|by intros f wo ?%not_elem_of_nil]|].
  intros (r1 & [H1 H1']%fill_step_violations & [H2 H2']%IH)%obind_Ok. split; [auto|]. intros g wo [->|Hg]%elem_of_cons ? ? ? ?; [eauto|by eapply H2'].
Qed.
Lemma mint_phase_violations prices h r r' v : derive_mint_phase (E := unit) blake3 iterd prices h r = Ok r' → v ∈ dse_violations r → v ∈ dse_violations r'.
Proof.
  unfold derive_mint_phase. cbn zeta. set (r1 := match mapM _ _ with Some _ => r | None => push_overflow r end).
  intros H Hv. assert (v ∈ dse_violations r1) as Hv1 by (subst r1; destruct (mapM _ _); [done|]; apply elem_of_app; by left). clearbody r1. clear Hv.
  apply obind_Ok in H as ([adjs r2] & H2 & H). assert (v ∈ dse_violations r2) as Hv2.
  { destruct (derive_minting_checked _ _); [by injection H2 as <- <-|injection H2 as <- <-; apply elem_of_app; by left|done]. }
  clear H2 Hv1. revert H. set (r3 := match minting_cost_from_fill_balance_delta_checked _ with Ok _ => _ | _ => _ end).
  assert (v ∈ dse_violations r3) as Hv3 by (subst r3; destruct (minting_cost_from_fill_balance_delta_checked _); [done|apply elem_of_app; by left..]). clearbody r3.
  destruct adjs as [|adj adjs]; [by intros [= <-]|]. destruct (foldl derive_mint_step _ _) as [mint vs]. intros [= <-]. cbn. rewrite !elem_of_app. by left; left.
Qed.

Lemma layer2_owners w r2 : match_valid w → verify_settlement (E := unit) blake3 iterd w = Ok r2 → VK.FillAccountMismatch ∉ vr_violations r2 →
  ∀ f wo, f ∈ bw_fills w → wo ∈ bw_orders w → ord_id (wo_order wo) = fill_order_id f → fill_account_id f ≠ 0 → fill_account_id f = wo_account_id wo.
Proof.
  intros HV (d & (r1 & [_ Hbad]%fill_steps_violations & Hm)%obind_Ok & H)%obind_Ok Hno f wo Hf Hwo Hid Hz. destruct (decide (fill_account_id f = wo_account_id wo)) as [|Hne]; [done|].
  exfalso. apply Hno. injection H as <-. cbn [vr_violations]. apply elem_of_app. left. apply (mint_phase_violations _ _ _ _ _ Hm). apply (Hbad f wo Hf); [| |done|done].
  - pose proof (mv_fills _ HV) as Hfs. rewrite Forall_forall in Hfs. destruct (Hfs f Hf) as (o & m & dd & _ & _ & Hq & _). lia.
  - apply keyed_lookup; [apply (mv_ids _ HV)|]. done.
Qed.
End owners.

(** ** Properties *)

(** C5: a block that layers 1 and 4 accept, and in which layer 2 finds no fill
    booked to another account than its order's owner, is finalised without loss.
    On accounts of bounded volume with non-negative balances and balanced binary
    markets, with orders of admitted shape and at most 4000 fills on existing
    accounts, finalisation returns,
    conserves value up to rounding, and its only possible failures are overdrawn
    accounts that own a market-maker order of the block; without market makers it
    reports no failure at all.  Layer 2 reads the account id 0 of a fill as unset, so
    fills that name account 0 are assumed to be of its own orders. *)
Theorem verified_block_finalises (w : BlockWitness) (diagnostics : bool) (r1 r2 r4 : VerificationResult) (accounts : gmap Z Account)
    (markets : list MarketId) (blake3 : Bytes → Bytes) (iter : gmap Z Account → list (Z * Account))
    (iterd : gmap Z DerivedAccountState → list (Z * DerivedAccountState)) :
  let orders := wo_order <$> bw_orders w in
  let M := (map_to_list (bw_clearing_prices w)).*1 in
  match_input w → verify_match (E := unit) w diagnostics = Ok r1 → vr_valid r1 = true →
  verify_orders (E := unit) w = Ok r4 → vr_valid r4 = true →
  verify_settlement (E := unit) blake3 iterd w = Ok r2 → VK.FillAccountMismatch ∉ vr_violations r2 →
  (∀ f wo, f ∈ bw_fills w → wo ∈ bw_orders w → ord_id (wo_order wo) = fill_order_id f → fill_account_id f = 0 → wo_account_id wo = 0) →
  bw_post_system_state w = CanonicalState_from_accounts (iter accounts) →
  (∀ m ps, bw_clearing_prices w !! m = Some ps → length ps = 2%nat) →
  Z.of_nat (length (bw_fills w)) ≤ 4000 → (∀ f, f ∈ bw_fills w → is_Some (accounts !! fill_account_id f)) →
  is_Some (accounts !! AccountId_MINT) → cash_volume accounts ≤ 1000000000000000000 →
  share_volume accounts ≤ 1000000000000000000 →
  (∀ id a, accounts !! id = Some a → acc_id a = id ∧ (id ≠ AccountId_MINT → 0 ≤ acc_balance a)) →
  (∀ m, pos_total (m, 0) accounts = pos_total (m, 1) accounts) → (∀ m, iter m ≡ₚ map_to_list m) →
  ∃ r, finalize_block_state_phase (E := unit) blake3 iter accounts markets orders (bw_fills w) (bw_clearing_prices w) (hd_height (bw_header w)) = Ok r ∧
    (∀ m, pos_total (m, 0) (fbs_accounts r) = pos_total (m, 1) (fbs_accounts r)) ∧
    Z.abs (value M (fbs_accounts r) - value M accounts) ≤ SHARE_SCALE * (Z.of_nat (length (bw_fills w)) + Z.of_nat (length M)) ∧
    ∀ x, x ∈ fbs_invariant_failures r → overdrawn (fbs_accounts r) x ∧
      ∃ wo b, wo ∈ bw_orders w ∧ wo_is_mm wo = true ∧ x = NegativeBalance (wo_account_id wo) b.
Proof.
  intros orders M HI Hm Hv1 Ho Hv4 Hs2 Hnone Hzero Hstate Hbin Hcnt Hfacc Hmint Hcash Hsh Hacc Hbal Hiter.
  destruct (verify_match_iff (E := unit) w diagnostics HI) as (r1' & Hm' & Hiff & _). rewrite Hm in Hm'. injection Hm' as <-.
  apply Hiff in Hv1 as HV.
  assert (∀ f wo, f ∈ bw_fills w → wo ∈ bw_orders w → ord_id (wo_order wo) = fill_order_id f → fill_account_id f = wo_account_id wo) as Howner.
  { intros f wo Hf Hwo Hid. destruct (decide (fill_account_id f = 0)) as [Hz|Hz]; [by rewrite (Hzero f wo)|by eapply (layer2_owners blake3 iterd w r2)]. }
  destruct (accepted_outcome HI HV blake3 iter Hiter accounts markets Hbin) as (r & Hr & Hb & Hfail & Hval); [done..|].
  exists r. split; [done|]. split; [done|]. split; [done|]. intros x Hx. specialize (Hfail x Hx). split; [done|].
  destruct Hfail as (id & a' & -> & Ha' & Hneg & Hid).
  destruct (finalize_traced _ _ _ _ _ _ _ _ _ Hiter Hr) as (s & totals & adjs & T).
  rewrite (mint_phase_other _ _ _ _ _ _ (ft_minted T) Hid) in Ha'.
  pose proof (ft_settled T) as Hset. unfold settle_batch_with_position_deltas in Hset.
  assert (∃ a, accounts !! id = Some a) as [a Ha].
  { apply settle_loop_Ok in Hset as (_ & _ & Hdom & _). apply Hdom. by rewrite Ha'. }
  destruct (settle_account _ _ _ _ _ _ id a Hset Ha) as (a1 & Ha1 & Hbal1). rewrite Ha' in Ha1. injection Ha1 as <-.
  assert (∀ id, keyed asn_id (bw_post_system_state w) !! id = (λ a, canonicalize_snapshot (snapshot_account a)) <$> accounts !! id) as Hsn.
  { intros i. rewrite Hstate. apply canonical_lookup; [done|]. intros; by apply Hacc. }
  destruct (decide (Exists (λ wo, wo_account_id wo = id ∧ wo_is_mm wo = true) (bw_orders w))) as [Hmm|Hno].
  { apply Exists_exists in Hmm as (wo & Hwo & <- & Hmm). eauto. }
  exfalso. assert (snapshots_i64 w) as Hi64.
  { intros i sn Hsni. rewrite Hsn in Hsni. apply fmap_Some in Hsni as (b & Hib & ->). cbn. destruct (volume_bounded accounts i b Hib). mlia. }
  destruct (verify_orders_sound (E := unit) w r4) as [_ Hcov]; [|done..|].
  { eapply Forall_impl; [apply (mi_orders _ HI)|]. by intros ? [? _]. }
  assert (0 ≤ asn_balance (canonicalize_snapshot (snapshot_account a)) + sumZ (account_cash (witness_order_map w) id) (bw_fills w)) as Hge.
  { eapply (account_stays_solvent HI HV Howner (keyed asn_id (bw_post_system_state w))); [done|..].
    - intros wo Hwo Hwid. destruct (wo_is_mm wo) eqn:Hmm; [|done]. exfalso. apply Hno, Exists_exists. eauto.
    - by rewrite Hsn, Ha.
    - cbn. by apply (Hacc id a). }
  rewrite witness_order_map_eq in Hge. cbn in Hge. lia.
Qed.

(** The block of [ex_matched] with the accounts it was produced from. *)
Definition ex_verified : BlockWitness :=
  mkBlockWitness (ex_header 9) (Some (ex_header 8)) [] (bw_orders ex_matched) [] [] (mkDepositAccumulatorWitness [] 0 [])
    ex_fills ex_prices 220000000 2280000000 (bw_mm_constraints ex_matched) [] [] (CanonicalState_from_accounts (map_to_list ex_accounts))
    [] [] (ex_sidecar ex_post) (ex_sidecar ex_post) [7].

Lemma ex_verified_input : match_input ex_verified.
Proof. destruct ex_match_input as [H1 H2 H3 H4 H5]. by constructor. Qed.

Lemma verified_block_finalises_witness :
  ∃ r, finalize_block_state_phase (E := unit) (λ l, l) map_to_list ex_accounts [3] ex_orders ex_fills ex_prices 9 = Ok r ∧
    (∀ m, pos_total (m, 0) (fbs_accounts r) = pos_total (m, 1) (fbs_accounts r)) ∧
    ∀ x, x ∈ fbs_invariant_failures r → ∃ wo b, wo ∈ bw_orders ex_verified ∧ wo_is_mm wo = true ∧ x = NegativeBalance (wo_account_id wo) b.
Proof.
  destruct (verify_match (E := unit) ex_verified true) as [r1| |] eqn:H1; [|vm_compute in H1; discriminate H1..].
  destruct (verify_orders (E := unit) ex_verified) as [r4| |] eqn:H4; [|vm_compute in H4; discriminate H4..].
  destruct (verify_settlement (E := unit) (λ l, l) map_to_list ex_verified) as [r2| |] eqn:H2; [|vm_compute in H2; discriminate H2..].
  destruct (verified_block_finalises ex_verified true r1 r2 r4 ex_accounts [3] (λ l, l) map_to_list map_to_list ex_verified_input H1)
    as (r & Hr & Hb & _ & Hf).
  - vm_compute in H1. injection H1 as <-. reflexivity.
  - exact H4.
  - vm_compute in H4. injection H4 as <-. reflexivity.
  - exact H2.
  - vm_compute in H2. injection H2 as <-. apply (bool_decide_unpack (VK.FillAccountMismatch ∉ _)). vm_compute. exact I.
  - clear H1 H2 H4. intros f wo Hf Hwo. cbn [bw_fills bw_orders ex_verified ex_matched] in Hf, Hwo. unfold ex_fills in Hf. rewrite !elem_of_cons in Hf. unfold ex_verified, ex_matched in Hwo. cbn [bw_orders] in Hwo. rewrite !elem_of_cons in Hwo.
    destruct Hf as [->|[->|Hf]]; [..|by apply not_elem_of_nil in Hf];
      (destruct Hwo as [->|[->|Hwo]]; [..|by apply not_elem_of_nil in Hwo]);
      intros Heq Hz; exfalso; vm_compute in Hz; discriminate Hz.
  - reflexivity.
  - clear H1 H2 H4. intros m ps Hps. cbn [bw_clearing_prices ex_verified] in Hps. unfold ex_prices in Hps. apply lookup_singleton_Some in Hps as [<- <-]. reflexivity.
  - vm_compute. discriminate.
  - intros f Hf. exact (ab_accounts ex_admissible f Hf).
  - vm_compute. eauto.
  - vm_compute. discriminate.
  - vm_compute. discriminate.
  - clear H1 H2 H4. intros id a Ha. unfold ex_accounts in Ha. rewrite !lookup_insert_Some, lookup_singleton_Some in Ha.
    destruct Ha as [[<- <-]|[_ [[<- <-]|[_ [<- <-]]]]]; split; try reflexivity; intros; vm_compute; discriminate.
  - intros m. vm_compute. reflexivity.
  - intros m. reflexivity.
  - exists r. split; [exact Hr|]. split; [exact Hb|]. intros x Hx. destruct (Hf x Hx) as [_ Hmm]. exact Hmm.
Defined.
