(* ===== verification/L1Protocol.v ===== *)
(** * L1Protocol: ABI words and vault event logs

    Models the byte-level half of [crates/sybil-l1-protocol/src/lib.rs]: the
    big-endian ABI words, the parsers of the vault's [DepositReceived] and
    withdrawal events, and [abi_encode_domain_and_words], whose hash names a
    deposit or a withdrawal.  Keccak-256 is the parameter of the section. *)
From S2P Require Import Prelude Types Account Digest.
From Stdlib Require Import Ascii.

(** [b"..."] and [str::as_bytes]. *)
Fixpoint ascii_bytes (s : string) : Bytes :=
  match s with
  | EmptyString => []
  | String c s => Z.of_N (N_of_ascii c) :: ascii_bytes s
  end.

(** [u64::to_be_bytes] and [u64::from_be_bytes]. *)
Definition be_bytes (n : nat) (z : Z) : Bytes := reverse (le_bytes n z).
Definition from_be_bytes (l : Bytes) : Z := foldl (λ a b, a * 256 + b) 0 l.

Definition DEPOSIT_DOMAIN : Bytes := ascii_bytes "sybil/l1-deposit/v1".
Definition WITHDRAWAL_NULLIFIER_DOMAIN : Bytes := ascii_bytes "sybil/withdrawal-nullifier/v1".
Definition DEPOSIT_RECEIVED_SIGNATURE : string :=
  "DepositReceived(uint64,address,bytes32,address,uint256,bytes32)".
Definition WITHDRAWAL_QUEUED_SIGNATURE : string :=
  "WithdrawalQueued(bytes32,address,address,uint256,bytes32,uint64,uint64,uint64)".
Definition WITHDRAWAL_FINALIZED_SIGNATURE : string :=
  "WithdrawalFinalized(bytes32,address,uint256,uint64,uint64)".
Definition WITHDRAWAL_CANCELLED_SIGNATURE : string :=
  "WithdrawalCancelled(bytes32,address,uint256,uint64,uint64,string)".
Definition DEPOSIT_ROOT_BY_COUNT_SIGNATURE : string := "depositRootByCount(uint64)".

Inductive L1ProtocolError :=
  | UnexpectedTopicCount (n : Z)
  | UnexpectedTopic0
  | UnexpectedDataLength (n : Z)
  | UnexpectedEventTopicCount (event : string) (expected actual : Z)
  | UnexpectedVaultEventTopic0
  | UnexpectedEventDataLength (event : string) (expected actual : Z)
  | UnexpectedDynamicOffset (event field : string) (expected actual : Z)
  | DynamicLengthOverflow (event field : string)
  | NonZeroDynamicPadding (event field : string)
  | NonZeroHighBytes (field : string).

Record L1Log := mkL1Log {
  log_address : Bytes;
  log_topics : list Bytes;
  log_data : Bytes;
}.

Record DepositReceived := mkDepositReceived {
  dr_deposit_id : Z;
  dr_sender : Bytes;
  dr_sybil_account_key : Bytes;
  dr_token_address : Bytes;
  dr_amount_token_units : Z;
  dr_deposit_root : Bytes;
}.

Record DepositLeaf := mkDepositLeaf {
  dl_chain_id : Z;
  dl_vault_address : Bytes;
  dl_deposit_id : Z;
  dl_token_address : Bytes;
  dl_sender : Bytes;
  dl_sybil_account_key : Bytes;
  dl_amount_token_units : Z;
}.

Record WithdrawalQueued := mkWithdrawalQueued {
  wq_nullifier : Bytes;
  wq_recipient : Bytes;
  wq_token_address : Bytes;
  wq_amount_token_units : Z;
  wq_state_root : Bytes;
  wq_height : Z;
  wq_requested_at_unix : Z;
  wq_executable_at_unix : Z;
}.

(** [WithdrawalFinalized] and [WithdrawalCancelled] have the same five fields;
    the fourth is [finalized_at_unix], respectively [cancelled_at_unix]. *)
Record WithdrawalFinalized := mkWithdrawalFinalized {
  wf_nullifier : Bytes;
  wf_recipient : Bytes;
  wf_amount_token_units : Z;
  wf_finalized_at_unix : Z;
  wf_executable_at_unix : Z;
}.

Record WithdrawalCancelled := mkWithdrawalCancelled {
  wc_nullifier : Bytes;
  wc_recipient : Bytes;
  wc_amount_token_units : Z;
  wc_cancelled_at_unix : Z;
  wc_executable_at_unix : Z;
}.

Inductive WithdrawalEvent :=
  | Queued (e : WithdrawalQueued)
  | Finalized (e : WithdrawalFinalized)
  | Cancelled (e : WithdrawalCancelled).

Definition into_deposit_leaf (d : DepositReceived) (chain_id : Z) (vault_address : Bytes) : DepositLeaf :=
  mkDepositLeaf chain_id vault_address (dr_deposit_id d) (dr_token_address d) (dr_sender d)
    (dr_sybil_account_key d) (dr_amount_token_units d).

(** ** Words *)

(** [any(|byte| *byte != 0)] *)
Definition any_nonzero (l : Bytes) : bool := existsb (λ b, negb (b =? 0)) l.

Definition abi_u64_word (value : Z) : Bytes := replicate 24 0 ++ be_bytes 8 value.
Definition abi_usize_word (value : Z) : Bytes := replicate 24 0 ++ be_bytes 8 (wrap U64 value).
Definition padded_len (len : Z) : Z := div_ceil len 32 * 32.

Definition data_word {E} (data : Bytes) (i : nat) : outcome E Bytes :=
  if decide ((i + 1) * 32 ≤ length data)%nat then Ok (take 32 (drop (i * 32) data)) else Panic.

Definition decode_u64_word (word : Bytes) (field : string) : outcome L1ProtocolError Z :=
  if any_nonzero (take 24 word) then Err (NonZeroHighBytes field) else Ok (from_be_bytes (drop 24 word)).

Definition decode_address_word (word : Bytes) (field : string) : outcome L1ProtocolError Bytes :=
  if any_nonzero (take 12 word) then Err (NonZeroHighBytes field) else Ok (drop 12 word).

(** [usize] is 64 bits wide, so [usize::try_from] of a [u64] succeeds. *)
Definition ensure_canonical_string_tail (event : string) (data : Bytes)
    (static_words_before_offset : nat) (field : string) : outcome L1ProtocolError unit :=
  let offset := ((static_words_before_offset + 1) * 32)%nat in
  let tail_header_end := (offset + 32)%nat in
  if Z.of_nat (length data) <? Z.of_nat tail_header_end
  then Err (UnexpectedEventDataLength event (Z.of_nat tail_header_end) (Z.of_nat (length data))) else
  w ← data_word data static_words_before_offset;
  actual_offset ← decode_u64_word w field;
  if negb (actual_offset =? Z.of_nat offset)
  then Err (UnexpectedDynamicOffset event field (Z.of_nat offset) actual_offset) else
  w ← data_word data (offset / 32)%nat;
  dynamic_len ← decode_u64_word w field;
  len31 ← ok_or (chk U64 (dynamic_len + 31)) (DynamicLengthOverflow event field);
  expected_data_len ← ok_or (chk U64 (Z.of_nat tail_header_end + len31 / 32 * 32)) (DynamicLengthOverflow event field);
  if negb (Z.of_nat (length data) =? expected_data_len)
  then Err (UnexpectedEventDataLength event expected_data_len (Z.of_nat (length data))) else
  padding_start ← arith U64 (Z.of_nat tail_header_end + dynamic_len);
  if any_nonzero (drop (Z.to_nat padding_start) (take (Z.to_nat expected_data_len) data))
  then Err (NonZeroDynamicPadding event field) else Ok ().

(** One static ABI word after the domain string. *)
Inductive AbiWord :=
  | Uint (value : Z)
  | Address (address : Bytes)
  | Bytes32 (bytes : Bytes).

Definition encode_abi_word (w : AbiWord) : Bytes :=
  match w with
  | Uint value => abi_u64_word value
  | Address address => replicate 12 0 ++ address
  | Bytes32 bytes => bytes
  end.

Definition abi_encode_domain_and_words (domain : Bytes) (words : list AbiWord) : Bytes :=
  let head_words := 1 + Z.of_nat (length words) in
  let n := Z.of_nat (length domain) in
  abi_usize_word (head_words * 32) ++ concat (encode_abi_word <$> words) ++
  abi_usize_word n ++ domain ++ replicate (Z.to_nat (padded_len n - n)) 0.

Section keccak.
Context (keccak256 : Bytes → Bytes).

Definition deposit_received_topic0 : Bytes := keccak256 (ascii_bytes DEPOSIT_RECEIVED_SIGNATURE).
Definition withdrawal_queued_topic0 : Bytes := keccak256 (ascii_bytes WITHDRAWAL_QUEUED_SIGNATURE).
Definition withdrawal_finalized_topic0 : Bytes := keccak256 (ascii_bytes WITHDRAWAL_FINALIZED_SIGNATURE).
Definition withdrawal_cancelled_topic0 : Bytes := keccak256 (ascii_bytes WITHDRAWAL_CANCELLED_SIGNATURE).

Definition deposit_root_by_count_calldata (count : Z) : Bytes :=
  take 4 (keccak256 (ascii_bytes DEPOSIT_ROOT_BY_COUNT_SIGNATURE)) ++ abi_u64_word count.

Definition ensure_event_header (event : string) (topics : list Bytes) (topic0 : Bytes)
    (expected_topics : nat) : outcome L1ProtocolError unit :=
  if negb (Z.of_nat (length topics) =? Z.of_nat expected_topics)
  then Err (UnexpectedEventTopicCount event (Z.of_nat expected_topics) (Z.of_nat (length topics))) else
  t ← idx topics 0;
  if decide (t = topic0) then Ok () else Err UnexpectedVaultEventTopic0.

Definition ensure_event_shape (event : string) (topics : list Bytes) (data topic0 : Bytes)
    (expected_topics expected_data_len : nat) : outcome L1ProtocolError unit :=
  _ ← ensure_event_header event topics topic0 expected_topics;
  if negb (Z.of_nat (length data) =? Z.of_nat expected_data_len)
  then Err (UnexpectedEventDataLength event (Z.of_nat expected_data_len) (Z.of_nat (length data))) else Ok ().

Definition parse_deposit_received (topics : list Bytes) (data : Bytes) : outcome L1ProtocolError DepositReceived :=
  if negb (Z.of_nat (length topics) =? 4) then Err (UnexpectedTopicCount (Z.of_nat (length topics))) else
  t0 ← idx topics 0;
  if decide (t0 = deposit_received_topic0) then
    if negb (Z.of_nat (length data) =? 96) then Err (UnexpectedDataLength (Z.of_nat (length data))) else
    t1 ← idx topics 1; deposit_id ← decode_u64_word t1 "depositId";
    t2 ← idx topics 2; sender ← decode_address_word t2 "sender";
    sybil_account_key ← idx topics 3;
    w0 ← data_word data 0; token_address ← decode_address_word w0 "token";
    w1 ← data_word data 1; amount_token_units ← decode_u64_word w1 "amount";
    deposit_root ← data_word data 2;
    Ok (mkDepositReceived deposit_id sender sybil_account_key token_address amount_token_units deposit_root)
  else Err UnexpectedTopic0.

Definition parse_deposit_received_log (log : L1Log) : outcome L1ProtocolError DepositReceived :=
  parse_deposit_received (log_topics log) (log_data log).

Definition parse_withdrawal_queued (topics : list Bytes) (data : Bytes) : outcome L1ProtocolError WithdrawalQueued :=
  _ ← ensure_event_shape "WithdrawalQueued" topics data withdrawal_queued_topic0 3 192;
  nullifier ← idx topics 1;
  t2 ← idx topics 2; recipient ← decode_address_word t2 "recipient";
  w0 ← data_word data 0; token_address ← decode_address_word w0 "token";
  w1 ← data_word data 1; amount_token_units ← decode_u64_word w1 "amount";
  state_root ← data_word data 2;
  w3 ← data_word data 3; height ← decode_u64_word w3 "height";
  w4 ← data_word data 4; requested_at_unix ← decode_u64_word w4 "requestedAt";
  w5 ← data_word data 5; executable_at_unix ← decode_u64_word w5 "executableAt";
  Ok (mkWithdrawalQueued nullifier recipient token_address amount_token_units state_root height
        requested_at_unix executable_at_unix).

Definition parse_withdrawal_finalized (topics : list Bytes) (data : Bytes) : outcome L1ProtocolError WithdrawalFinalized :=
  _ ← ensure_event_shape "WithdrawalFinalized" topics data withdrawal_finalized_topic0 3 96;
  nullifier ← idx topics 1;
  t2 ← idx topics 2; recipient ← decode_address_word t2 "recipient";
  w0 ← data_word data 0; amount_token_units ← decode_u64_word w0 "amount";
  w1 ← data_word data 1; finalized_at_unix ← decode_u64_word w1 "finalizedAt";
  w2 ← data_word data 2; executable_at_unix ← decode_u64_word w2 "executableAt";
  Ok (mkWithdrawalFinalized nullifier recipient amount_token_units finalized_at_unix executable_at_unix).

Definition parse_withdrawal_cancelled (topics : list Bytes) (data : Bytes) : outcome L1ProtocolError WithdrawalCancelled :=
  _ ← ensure_event_header "WithdrawalCancelled" topics withdrawal_cancelled_topic0 3;
  _ ← ensure_canonical_string_tail "WithdrawalCancelled" data 3 "reason";
  nullifier ← idx topics 1;
  t2 ← idx topics 2; recipient ← decode_address_word t2 "recipient";
  w0 ← data_word data 0; amount_token_units ← decode_u64_word w0 "amount";
  w1 ← data_word data 1; cancelled_at_unix ← decode_u64_word w1 "cancelledAt";
  w2 ← data_word data 2; executable_at_unix ← decode_u64_word w2 "executableAt";
  Ok (mkWithdrawalCancelled nullifier recipient amount_token_units cancelled_at_unix executable_at_unix).

Definition parse_withdrawal_event_log (log : L1Log) : outcome L1ProtocolError WithdrawalEvent :=
  match log_topics log with
  | [] => Err UnexpectedVaultEventTopic0
  | topic0 :: _ =>
      if decide (topic0 = withdrawal_queued_topic0)
      then Queued <$> parse_withdrawal_queued (log_topics log) (log_data log)
      else if decide (topic0 = withdrawal_finalized_topic0)
      then Finalized <$> parse_withdrawal_finalized (log_topics log) (log_data log)
      else if decide (topic0 = withdrawal_cancelled_topic0)
      then Cancelled <$> parse_withdrawal_cancelled (log_topics log) (log_data log)
      else Err UnexpectedVaultEventTopic0
  end.

Definition abi_keccak256_domain_and_words (domain : Bytes) (words : list AbiWord) : Bytes :=
  keccak256 (abi_encode_domain_and_words domain words).

Definition deposit_leaf_words (deposit : DepositLeaf) : list AbiWord :=
  [Uint (dl_chain_id deposit); Address (dl_vault_address deposit); Uint (dl_deposit_id deposit);
   Address (dl_token_address deposit); Address (dl_sender deposit);
   Bytes32 (dl_sybil_account_key deposit); Uint (dl_amount_token_units deposit)].

Definition deposit_leaf (deposit : DepositLeaf) : Bytes :=
  keccak256 (abi_encode_domain_and_words DEPOSIT_DOMAIN (deposit_leaf_words deposit)).

Definition deposit_tree_leaf (deposit : DepositLeaf) : Bytes := keccak256 ([0] ++ deposit_leaf deposit).

Definition withdrawal_nullifier (chain_id : Z) (vault_address : Bytes) (withdrawal_id account_id : Z)
    (recipient token_address : Bytes) (amount_token_units : Z) : Bytes :=
  keccak256 (abi_encode_domain_and_words WITHDRAWAL_NULLIFIER_DOMAIN
    [Uint chain_id; Address vault_address; Uint withdrawal_id; Uint account_id; Address recipient;
     Address token_address; Uint amount_token_units]).
End keccak.

(** ** Words read back what they encode *)

Definition byte (b : Z) : Prop := 0 ≤ b ≤ int_max U8.
#[global] Instance byte_dec b : Decision (byte b) := ltac:(unfold byte; apply _).
Definition bytesn (n : nat) (l : Bytes) : Prop := length l = n ∧ Forall byte l.

#[global] Instance bytesn_dec n l : Decision (bytesn n l) := ltac:(unfold bytesn; apply _).

Definition abi_word_ok (w : AbiWord) : Prop :=
  match w with Uint v => u64 v | Address a => bytesn 20 a | Bytes32 b => bytesn 32 b end.

#[global] Instance abi_word_ok_dec w : Decision (abi_word_ok w) := ltac:(destruct w; apply _).

Lemma any_nonzero_false l : any_nonzero l = false ↔ l = replicate (length l) 0.
Proof.
  unfold any_nonzero. induction l as [|b l IH]; simpl; [done|]. rewrite orb_false_iff, IH, negb_false_iff, Z.eqb_eq.
  split; [intros [-> ?]; congruence|intros [= -> ?]; done].
Qed.

Lemma from_be_app l b : from_be_bytes (l ++ [b]) = from_be_bytes l * 256 + b.
Proof. unfold from_be_bytes. by rewrite foldl_app. Qed.

Lemma be_bytes_S n z : be_bytes (S n) z = be_bytes n (z / 256) ++ [z mod 256].
Proof. unfold be_bytes. cbn [le_bytes]. by rewrite reverse_cons. Qed.

Lemma be_bytes_length n z : length (be_bytes n z) = n.
Proof. unfold be_bytes. by rewrite length_reverse, le_bytes_length. Qed.

Lemma from_be_be n z : from_be_bytes (be_bytes n z) = z mod 256 ^ Z.of_nat n.
Proof.
  revert z. induction n as [|n IH]; intros z; [by rewrite Z.mod_1_r|].
  rewrite be_bytes_S, from_be_app, IH, Nat2Z.inj_succ, Z.pow_succ_r by lia.
  rewrite Z.rem_mul_r by lia. lia.
Qed.

Lemma from_be_bytesn n l : bytesn n l → 0 ≤ from_be_bytes l < 256 ^ Z.of_nat n ∧ be_bytes n (from_be_bytes l) = l.
Proof.
  revert n. induction l as [|b l IH] using rev_ind; intros n [Hn Hl].
  - rewrite length_nil in Hn. subst n. split; [|done]. cbn. lia.
  - rewrite length_app in Hn. cbn [length] in Hn. destruct n as [|n]; [lia|].
    apply Forall_app in Hl as [Hl [Hb _]%Forall_cons]. unfold byte, int_max in Hb.
    destruct (IH n) as [Hr Hbe]; [split; [lia|done]|].
    rewrite from_be_app, be_bytes_S, Nat2Z.inj_succ, Z.pow_succ_r by lia.
    rewrite Z.div_add_l, Z.div_small, Z.add_0_r, Hbe by lia.
    rewrite (Z.add_comm _ b), Z.mod_add, Z.mod_small by lia. split; [lia|done].
Qed.

Lemma le_bytes_byte n z : Forall byte (le_bytes n z).
Proof.
  revert z. induction n as [|n IH]; intros z; cbn [le_bytes]; [done|]. constructor; [|done].
  unfold byte, int_max. pose proof (Z.mod_pos_bound z 256). lia.
Qed.

Lemma zeros_byte n : Forall byte (replicate n 0).
Proof. apply Forall_replicate. unfold byte, int_max. lia. Qed.

Lemma abi_u64_word_ok v : bytesn 32 (abi_u64_word v).
Proof.
  unfold abi_u64_word, be_bytes. split; [by rewrite length_app, length_replicate, length_reverse, le_bytes_length|].
  apply Forall_app. split; [apply zeros_byte|]. apply Forall_reverse, le_bytes_byte.
Qed.

Lemma encode_abi_word_ok w : abi_word_ok w → bytesn 32 (encode_abi_word w).
Proof.
  destruct w as [v|a|b]; cbn [abi_word_ok encode_abi_word]; [intros; apply abi_u64_word_ok| |done].
  intros [Ha Hb]. split; [by rewrite length_app, length_replicate, Ha|]. apply Forall_app. split; [apply zeros_byte|done].
Qed.

(** A byte string whose first [n] bytes are zero. *)
Lemma any_nonzero_take n l : (n ≤ length l)%nat → any_nonzero (take n l) = false ↔ l = replicate n 0 ++ drop n l.
Proof.
  intros Hn. rewrite any_nonzero_false, length_take, Nat.min_l by done. split.
  - intros H. rewrite <- H. by rewrite take_drop.
  - intros ->. by rewrite take_app_length' by (by rewrite length_replicate).
Qed.

Lemma decode_u64_iff w f v : bytesn 32 w → decode_u64_word w f = Ok v ↔ u64 v ∧ w = abi_u64_word v.
Proof.
  intros [Hl Hb]. unfold decode_u64_word, abi_u64_word.
  assert (Hd : bytesn 8 (drop 24 w)) by (split; [by rewrite length_drop, Hl|by apply Forall_drop]).
  destruct (from_be_bytesn _ _ Hd) as [Hr Hbe]. change (256 ^ Z.of_nat 8) with 18446744073709551616 in Hr.
  pose proof (any_nonzero_take 24 w ltac:(lia)) as Hz. destruct (any_nonzero (take 24 w)).
  - split; [done|]. intros [_ ->]. rewrite drop_app_length' in Hz by done. by destruct Hz as [_ Hz]; specialize (Hz eq_refl).
  - split.
    + intros [= <-]. split; [unfold u64; int_lia|]. rewrite Hbe. by apply Hz.
    + intros [Hv ->]. rewrite drop_app_length' by done. rewrite from_be_be. f_equal. apply Z.mod_small. unfold u64 in Hv. simpl in *. lia.
Qed.

Lemma decode_address_iff w f a : bytesn 32 w → decode_address_word w f = Ok a ↔ bytesn 20 a ∧ w = encode_abi_word (Address a).
Proof.
  intros [Hl Hb]. unfold decode_address_word. cbn [encode_abi_word].
  pose proof (any_nonzero_take 12 w ltac:(lia)) as Hz. destruct (any_nonzero (take 12 w)).
  - split; [done|]. intros [_ ->]. rewrite drop_app_length' in Hz by done. by destruct Hz as [_ Hz]; specialize (Hz eq_refl).
  - split.
    + intros [= <-]. split; [|by apply Hz]. split; [by rewrite length_drop, Hl|by apply Forall_drop].
    + intros [Hv ->]. by rewrite drop_app_length' by done.
Qed.

(** Decoding a word never panics. *)
Lemma decode_u64_not_Panic w f : decode_u64_word w f ≠ Panic.
Proof. unfold decode_u64_word. by destruct (any_nonzero _). Qed.
Lemma decode_address_not_Panic w f : decode_address_word w f ≠ Panic.
Proof. unfold decode_address_word. by destruct (any_nonzero _). Qed.

(** ** Reading the words of a byte string *)

Lemma data_word_concat {E} ws tail i :
  Forall (bytesn 32) ws → (i < length ws)%nat → @data_word E (concat ws ++ tail) i = expect (ws !! i).
Proof.
  revert i. induction ws as [|w ws IH]; intros i Hws Hi; [cbn in Hi; lia|].
  apply Forall_cons in Hws as [[Hw _] Hws]. cbn [concat]. rewrite <- (assoc_L (++)). unfold data_word in *.
  cbn [length] in Hi. destruct i as [|i]; cbn [lookup list_lookup].
  - rewrite length_app, decide_True by lia. change (0 * 32)%nat with 0%nat. by rewrite drop_0, take_app_length'.
  - rewrite <- IH by (done || lia). rewrite length_app.
    rewrite (decide_ext _ ((i + 1) * 32 ≤ length (concat ws ++ tail))%nat) by lia. destruct (decide _); [|done].
    rewrite drop_app_ge by lia. do 3 f_equal. lia.
Qed.

(** A byte string that is long enough starts with [n] words. *)
Lemma split_words n l : Forall byte l → (32 * n ≤ length l)%nat →
  ∃ ws tail, l = concat ws ++ tail ∧ length ws = n ∧ Forall (bytesn 32) ws ∧ Forall byte tail.
Proof.
  revert l. induction n as [|n IH]; intros l Hb Hl; [by exists [], l|].
  destruct (IH (drop 32 l)) as (ws & tail & Hd & Hws & Hok & Ht); [by apply Forall_drop|rewrite length_drop; lia|].
  exists (take 32 l :: ws), tail. cbn [concat]. rewrite <- (assoc_L (++)), <- Hd, take_drop. split_and!; [done|cbn; lia| |done].
  constructor; [|done]. split; [rewrite length_take; lia|by apply Forall_take].
Qed.

Lemma concat_words_length ws : Forall (bytesn 32) ws → length (concat ws) = (32 * length ws)%nat.
Proof. induction 1 as [|w ws [Hw _] _ IH]; cbn [concat length]; [done|]. rewrite length_app. lia. Qed.

(** A byte string of exactly [n] words. *)
Lemma split_exact n l : Forall byte l → length l = (32 * n)%nat →
  ∃ ws, l = concat ws ++ [] ∧ length ws = n ∧ Forall (bytesn 32) ws.
Proof.
  intros Hb Hl. destruct (split_words n l Hb ltac:(lia)) as (ws & tail & -> & Hn & Hws & _).
  exists ws. rewrite length_app, concat_words_length in Hl by done.
  by rewrite (nil_length_inv tail) by lia.
Qed.

Lemma decode_u64_word_abi v f : u64 v → decode_u64_word (encode_abi_word (Uint v)) f = Ok v.
Proof. intros Hv. by apply decode_u64_iff; [apply abi_u64_word_ok|]. Qed.

Lemma decode_address_word_abi a f : bytesn 20 a → decode_address_word (encode_abi_word (Address a)) f = Ok a.
Proof. intros Ha. by apply decode_address_iff; [apply encode_abi_word_ok|]. Qed.

(** ** The logs the vault emits

    Solidity's ABI encoding of the events: indexed arguments are topics, the
    others one word each of the data, a dynamic [string] as an offset in the
    head and a length-prefixed, zero-padded tail. *)

Section logs.
Context (keccak256 : Bytes → Bytes).

Definition deposit_received_wf (d : DepositReceived) : Prop :=
  u64 (dr_deposit_id d) ∧ bytesn 20 (dr_sender d) ∧ bytesn 32 (dr_sybil_account_key d) ∧
  bytesn 20 (dr_token_address d) ∧ u64 (dr_amount_token_units d) ∧ bytesn 32 (dr_deposit_root d).

#[global] Instance deposit_received_wf_dec d : Decision (deposit_received_wf d) := ltac:(unfold deposit_received_wf; apply _).

Definition deposit_received_topics (d : DepositReceived) : list Bytes :=
  deposit_received_topic0 keccak256 :: (encode_abi_word <$>
    [Uint (dr_deposit_id d); Address (dr_sender d); Bytes32 (dr_sybil_account_key d)]).
Definition deposit_received_data (d : DepositReceived) : Bytes :=
  concat (encode_abi_word <$>
    [Address (dr_token_address d); Uint (dr_amount_token_units d); Bytes32 (dr_deposit_root d)]).

Definition withdrawal_event_wf (e : WithdrawalEvent) : Prop :=
  match e with
  | Queued q =>
      bytesn 32 (wq_nullifier q) ∧ bytesn 20 (wq_recipient q) ∧ bytesn 20 (wq_token_address q) ∧
      u64 (wq_amount_token_units q) ∧ bytesn 32 (wq_state_root q) ∧ u64 (wq_height q) ∧
      u64 (wq_requested_at_unix q) ∧ u64 (wq_executable_at_unix q)
  | Finalized q =>
      bytesn 32 (wf_nullifier q) ∧ bytesn 20 (wf_recipient q) ∧ u64 (wf_amount_token_units q) ∧
      u64 (wf_finalized_at_unix q) ∧ u64 (wf_executable_at_unix q)
  | Cancelled q =>
      bytesn 32 (wc_nullifier q) ∧ bytesn 20 (wc_recipient q) ∧ u64 (wc_amount_token_units q) ∧
      u64 (wc_cancelled_at_unix q) ∧ u64 (wc_executable_at_unix q)
  end.

#[global] Instance withdrawal_event_wf_dec e : Decision (withdrawal_event_wf e) := ltac:(destruct e; apply _).

Definition withdrawal_event_topics (e : WithdrawalEvent) : list Bytes :=
  match e with
  | Queued q => withdrawal_queued_topic0 keccak256 :: (encode_abi_word <$> [Bytes32 (wq_nullifier q); Address (wq_recipient q)])
  | Finalized q => withdrawal_finalized_topic0 keccak256 :: (encode_abi_word <$> [Bytes32 (wf_nullifier q); Address (wf_recipient q)])
  | Cancelled q => withdrawal_cancelled_topic0 keccak256 :: (encode_abi_word <$> [Bytes32 (wc_nullifier q); Address (wc_recipient q)])
  end.

(** The tail of a [string] argument: its length, its bytes and zero padding. *)
Definition string_tail (s : Bytes) : Bytes :=
  abi_u64_word (Z.of_nat (length s)) ++ s ++ replicate (Z.to_nat (padded_len (Z.of_nat (length s))) - length s) 0.

(** [Cancelled] carries a free-form reason the parser checks and drops. *)
Definition withdrawal_event_data (e : WithdrawalEvent) (reason : Bytes) : Bytes :=
  match e with
  | Queued q => concat (encode_abi_word <$>
      [Address (wq_token_address q); Uint (wq_amount_token_units q); Bytes32 (wq_state_root q);
       Uint (wq_height q); Uint (wq_requested_at_unix q); Uint (wq_executable_at_unix q)])
  | Finalized q => concat (encode_abi_word <$>
      [Uint (wf_amount_token_units q); Uint (wf_finalized_at_unix q); Uint (wf_executable_at_unix q)])
  | Cancelled q => concat (encode_abi_word <$>
      [Uint (wc_amount_token_units q); Uint (wc_cancelled_at_unix q); Uint (wc_executable_at_unix q); Uint 128])
      ++ string_tail reason
  end.
End logs.

(** Turn a successful decoding of a word into the shape of the word. *)
Ltac decoded := repeat match goal with
  | H : decode_u64_word _ _ = Ok _ |- _ => apply decode_u64_iff in H as [? ->]; [|done]
  | H : decode_address_word _ _ = Ok _ |- _ => apply decode_address_iff in H as [? ->]; [|done]
  end.

Ltac redecode := repeat (first
  [rewrite decode_u64_word_abi by done | rewrite decode_address_word_abi by done]; cbn [mbind outcome_bind]).

(** A length check of a log of known shape passes. *)
Ltac pass_length := match goal with |- context [negb ?b] => change b with true; cbn [negb] end.

Ltac forall_cons := repeat match goal with
  | H : Forall _ (_ :: _) |- _ => apply Forall_cons in H as [? H]
  end.

Lemma words_ok ws : Forall abi_word_ok ws → Forall (bytesn 32) (encode_abi_word <$> ws).
Proof. intros H. apply Forall_fmap. eapply Forall_impl; [done|]. intros w Hw. by apply encode_abi_word_ok. Qed.

(** Name the words at the front of the data of a log, and read them. *)
Ltac read_words Hws := rewrite !data_word_concat by (first [exact Hws | cbn; lia]); cbn [expect lookup list_lookup mbind outcome_bind fmap list_fmap].
Ltac read_words_in Hws H := rewrite !data_word_concat in H by (first [exact Hws | cbn; lia]); cbn [expect lookup list_lookup mbind outcome_bind] in H.

(** ** The dynamic tail of [WithdrawalCancelled] *)

Lemma padded_len_ge n : 0 ≤ n → n ≤ padded_len n.
Proof. intros Hn. apply div_ceil_ge. lia. Qed.

Lemma string_tail_length s : Z.of_nat (length (string_tail s)) = 32 + padded_len (Z.of_nat (length s)).
Proof.
  unfold string_tail. pose proof (padded_len_ge (Z.of_nat (length s)) ltac:(lia)).
  rewrite !length_app, length_replicate, (proj1 (abi_u64_word_ok _)). lia.
Qed.

(** Dropping the bytes of the string leaves zero padding. *)
Lemma split_padding n l :
  (n ≤ length l)%nat → any_nonzero (drop n l) = false → l = take n l ++ replicate (length l - n) 0.
Proof. intros Hn Hz. apply any_nonzero_false in Hz. rewrite length_drop in Hz. by rewrite <- Hz, take_drop. Qed.

(** The checks that follow the length word of a string, on the 160 bytes of
    [head] and the bytes after it. *)
Lemma string_body_iff ev field head tail len :
  length head = 160%nat → u64 len → Z.of_nat (160 + length tail) ≤ int_max U64 →
  (len31 ← ok_or (chk U64 (len + 31)) (DynamicLengthOverflow ev field);
   expected ← ok_or (chk U64 (Z.of_nat 160 + len31 / 32 * 32)) (DynamicLengthOverflow ev field);
   if negb (Z.of_nat (160 + length tail) =? expected)
   then Err (UnexpectedEventDataLength ev expected (Z.of_nat (160 + length tail))) else
   start ← arith U64 (Z.of_nat 160 + len);
   if any_nonzero (drop (Z.to_nat start) (take (Z.to_nat expected) (head ++ tail)))
   then Err (NonZeroDynamicPadding ev field) else Ok ()) = Ok () ↔
  ∃ s, Z.of_nat (length s) = len ∧ tail = s ++ replicate (Z.to_nat (padded_len len) - length s) 0.
Proof.
  intros Hh Hlen Hmax. unfold u64 in Hlen. pose proof (padded_len_ge len ltac:(lia)) as Hge. split.
  - intros H. destruct (chk U64 (len + 31)) as [l31|] eqn:E1; [|done]. apply chk_Some in E1 as [-> _]. cbn [ok_or mbind outcome_bind] in H.
    change (len + 31) with (len + (32 - 1)) in H. rewrite (div_ceil_add len 32 ltac:(lia)) in H. fold (padded_len len) in H.
    destruct (chk U64 (Z.of_nat 160 + _)) as [ex|] eqn:E2; [|done]. apply chk_Some in E2 as [-> Hex]. cbn [ok_or mbind outcome_bind] in H.
    destruct (Z.eqb_spec (Z.of_nat (160 + length tail)) (Z.of_nat 160 + padded_len len)) as [Hl|]; [|done]. cbn [negb] in H.
    rewrite arith_in in H by int_lia. cbn [mbind outcome_bind] in H.
    rewrite take_ge in H by (rewrite length_app; lia).
    replace (Z.to_nat (Z.of_nat 160 + len)) with (160 + Z.to_nat len)%nat in H by lia.
    rewrite <- drop_drop, drop_app_length' in H by done.
    destruct (any_nonzero _) eqn:Ez; [done|]. exists (take (Z.to_nat len) tail).
    rewrite length_take, Nat.min_l by lia. split; [lia|].
    replace (Z.to_nat (padded_len len)) with (length tail) by lia. apply split_padding; [lia|done].
  - intros (s & Hs & ->). rewrite length_app, length_replicate in *.
    rewrite chk_in by int_lia. cbn [ok_or mbind outcome_bind]. change (len + 31) with (len + (32 - 1)). rewrite (div_ceil_add len 32 ltac:(lia)). fold (padded_len len).
    rewrite chk_in by int_lia. cbn [ok_or mbind outcome_bind].
    rewrite (proj2 (Z.eqb_eq _ _)) by lia. cbn [negb]. rewrite arith_in by int_lia. cbn [mbind outcome_bind].
    rewrite take_ge by (rewrite !length_app, length_replicate; lia).
    replace (Z.to_nat (Z.of_nat 160 + len)) with (160 + length s)%nat by lia.
    rewrite <- drop_drop, drop_app_length' by done. rewrite drop_app_length.
    by rewrite (proj2 (any_nonzero_false _)) by (by rewrite length_replicate).
Qed.

(** The string check passes exactly on three words, the offset of the tail and
    the canonical tail of some string. *)
Lemma canonical_string_tail_iff ev field data :
  Forall byte data → Z.of_nat (length data) ≤ int_max U64 →
  ensure_canonical_string_tail ev data 3 field = Ok () ↔
  ∃ ws s, length ws = 3%nat ∧ Forall (bytesn 32) ws ∧
    data = concat (ws ++ [encode_abi_word (Uint 128)]) ++ string_tail s.
Proof.
  intros Hb Hmax. unfold ensure_canonical_string_tail. change ((3 + 1) * 32)%nat with 128%nat.
  change (128 + 32)%nat with 160%nat. change (128 / 32)%nat with 4%nat.
  split.
  - intros Hc. destruct (Z.ltb_spec (Z.of_nat (length data)) (Z.of_nat 160)); [done|].
    destruct (split_words 5 data Hb ltac:(lia)) as (ws & tail & -> & Hn & Hws & Ht).
    destruct ws as [|w0 [|w1 [|w2 [|w3 [|w4 [|]]]]]]; try done.
    pose proof (concat_words_length _ Hws) as Hcl. read_words_in Hws Hc. rewrite length_app, Hcl in *.
    change (32 * length [w0; w1; w2; w3; w4])%nat with 160%nat in *. forall_cons.
    destruct (decode_u64_word w3 field) as [off| |] eqn:E3; cbn [mbind outcome_bind] in Hc; [|done..].
    destruct (Z.eqb_spec off (Z.of_nat 128)) as [->|]; cbn [negb] in Hc; [|done].
    destruct (decode_u64_word w4 field) as [len| |] eqn:E4; cbn [mbind outcome_bind] in Hc; [|done..].
    decoded. apply string_body_iff in Hc as (s & <- & ->); [|done..].
    exists [w0; w1; w2], s. split_and!; [done|by repeat (constructor; [done|])|]. unfold string_tail. cbn [concat app].
    by rewrite <- !(assoc_L (++)).
  - intros (ws & s & Hlw & Hws & ->). destruct ws as [|w0 [|w1 [|w2 [|]]]]; try done.
    assert (Hs : Z.of_nat (length s) ≤ int_max U64).
    { rewrite length_app in Hmax. pose proof (string_tail_length s). pose proof (padded_len_ge (Z.of_nat (length s))). lia. }
    set (ws := [w0; w1; w2; encode_abi_word (Uint 128); encode_abi_word (Uint (Z.of_nat (length s)))]).
    assert (Hw5 : Forall (bytesn 32) ws) by (forall_cons; repeat (constructor; [first [done|apply abi_u64_word_ok]|]); done).
    pose proof (concat_words_length _ Hw5) as Hcl. change (32 * length ws)%nat with 160%nat in Hcl.
    assert (Heq : concat ([w0; w1; w2] ++ [encode_abi_word (Uint 128)]) ++ string_tail s =
      concat ws ++ s ++ replicate (Z.to_nat (padded_len (Z.of_nat (length s))) - length s) 0).
    { unfold string_tail. cbn [ws concat app]. rewrite ?app_nil_r, <- !(assoc_L (++)). done. }
    rewrite Heq in *. clear Heq. read_words Hw5. rewrite length_app, Hcl in *.
    rewrite (proj2 (Z.ltb_ge _ _)) by lia.
    change (ws !! 3%nat) with (Some (encode_abi_word (Uint 128))).
    change (ws !! 4%nat) with (Some (encode_abi_word (Uint (Z.of_nat (length s))))). cbn [expect mbind outcome_bind].
    rewrite !decode_u64_word_abi by (unfold u64; int_lia). cbn [mbind outcome_bind]. change (negb (128 =? Z.of_nat 128)) with false. cbv iota.
    cbn [mbind outcome_bind].
    apply string_body_iff; [done|unfold u64; int_lia|done|]. by exists s.
Qed.

(** The deposit parser is exact: on topics of 32 bytes and any data it
    returns a deposit exactly when the log is the canonical ABI encoding of
    that deposit (four topics with the event's signature hash first, three data
    words, zero high bytes of every narrower field), with all fields in range. *)
Theorem deposit_log_parse_exact (keccak256 : Bytes → Bytes) (topics : list Bytes) (data : Bytes) (d : DepositReceived) :
  Forall (bytesn 32) topics → Forall byte data →
  parse_deposit_received keccak256 topics data = Ok d ↔
  deposit_received_wf d ∧ topics = deposit_received_topics keccak256 d ∧ data = deposit_received_data d.
Proof.
  intros Ht Hd. unfold parse_deposit_received. split.
  - intros H. destruct (Z.eqb_spec (Z.of_nat (length topics)) 4) as [Hlt|]; [|done]. cbn [negb] in H.
    destruct topics as [|t0 [|t1 [|t2 [|t3 [|]]]]]; try (cbn in Hlt; lia).
    cbn [idx expect lookup list_lookup mbind outcome_bind] in H.
    destruct (decide (t0 = _)) as [->|]; [|done]. destruct (Z.eqb_spec (Z.of_nat (length data)) 96) as [Hl|]; [|done].
    destruct (split_exact 3 data Hd ltac:(lia)) as (ws & -> & Hn & Hws).
    destruct ws as [|w0 [|w1 [|w2 [|]]]]; try done. cbn [negb] in H.
    read_words_in Hws H. forall_cons. omonad H. decoded.
    split; [unfold deposit_received_wf; cbn; tauto|]. split; [done|]. by rewrite app_nil_r.
  - intros [(Hi & Hs & Hk & Ht' & Ha & Hr) [-> ->]]. unfold deposit_received_data.
    assert (Hws := words_ok [Address (dr_token_address d); Uint (dr_amount_token_units d); Bytes32 (dr_deposit_root d)]
      ltac:(by rewrite !Forall_cons)). rewrite <- (app_nil_r (concat _)).
    rewrite length_app, concat_words_length by exact Hws. cbn [deposit_received_topics idx expect lookup list_lookup mbind outcome_bind fmap list_fmap].
    rewrite decide_True by done. read_words Hws. do 2 pass_length. redecode. by destruct d.
Qed.

Lemma event_header_iff ev topics topic0 :
  ensure_event_header ev topics topic0 3 = Ok () ↔ ∃ t1 t2, topics = [topic0; t1; t2].
Proof.
  unfold ensure_event_header. split.
  - destruct (Z.eqb_spec (Z.of_nat (length topics)) (Z.of_nat 3)) as [Hl|]; [|done].
    destruct topics as [|t0 [|t1 [|t2 [|]]]]; cbn in Hl; try lia. cbn. case_decide; [|done]. subst. eauto.
  - intros (t1 & t2 & ->). cbn. by rewrite decide_True.
Qed.

Lemma event_shape_iff ev topics data topic0 n :
  ensure_event_shape ev topics data topic0 3 (32 * n) = Ok () ↔
  (∃ t1 t2, topics = [topic0; t1; t2]) ∧ length data = (32 * n)%nat.
Proof.
  unfold ensure_event_shape. rewrite <- (event_header_iff ev).
  destruct (ensure_event_header _ _ _ _) as [[]| |]; cbn [mbind outcome_bind]; [|naive_solver..].
  destruct (Z.eqb_spec (Z.of_nat (length data)) (Z.of_nat (32 * n))); cbn [negb]; split; [intros _; split; [done|lia]|done|done|lia].
Qed.

(** Parsing a fixed-size log: consume the shape check, name the words. *)
Ltac shaped H n :=
  let H' := fresh "Hshape" in
  destruct (ensure_event_shape _ _ _ _ _ _) as [[]| |] eqn:H'; cbn [mbind outcome_bind] in H; [|done..];
  apply (event_shape_iff _ _ _ _ n) in H' as [(? & ? & ->) H'].

(** The words of an encoding are 32 bytes each. *)
Ltac name_words Hws :=
  match goal with |- context [concat (encode_abi_word <$> ?l)] =>
    assert (Hws := words_ok l ltac:(rewrite !Forall_cons; cbn [abi_word_ok]; first [done | unfold u64; int_lia])) end.

Section withdrawals.
Context (keccak256 : Bytes → Bytes) (topics : list Bytes) (data : Bytes).
Hypothesis Htopics : Forall (bytesn 32) topics.
Hypothesis Hdata : Forall byte data.

Lemma parse_queued_iff q :
  parse_withdrawal_queued keccak256 topics data = Ok q ↔
  withdrawal_event_wf (Queued q) ∧ topics = withdrawal_event_topics keccak256 (Queued q) ∧
  data = withdrawal_event_data (Queued q) [].
Proof.
  unfold parse_withdrawal_queued. change 192%nat with (32 * 6)%nat. split.
  - intros H. shaped H 6%nat. destruct (split_exact 6 data Hdata Hshape) as (ws & -> & Hn & Hws).
    destruct ws as [|w0 [|w1 [|w2 [|w3 [|w4 [|w5 [|]]]]]]]; try done.
    cbn [idx expect lookup list_lookup mbind outcome_bind] in H. read_words_in Hws H. forall_cons. omonad H. decoded.
    unfold withdrawal_event_wf. cbn [wq_nullifier wq_recipient wq_token_address wq_amount_token_units wq_state_root wq_height wq_requested_at_unix wq_executable_at_unix].
    split; [tauto|]. split; [done|]. by rewrite app_nil_r.
  - intros [(H1 & H2 & H3 & H4 & H5 & H6 & H7 & H8) [-> ->]]. cbn [withdrawal_event_data].
    name_words Hws.
    rewrite <- (app_nil_r (concat _)). rewrite (proj2 (event_shape_iff _ _ _ _ 6%nat)).
    2:{ split; [by eexists _, _|]. by rewrite app_nil_r, (concat_words_length _ Hws). }
    cbn [idx expect lookup list_lookup mbind outcome_bind withdrawal_event_topics fmap list_fmap]. read_words Hws. redecode.
    by destruct q.
Qed.

Lemma parse_finalized_iff q :
  parse_withdrawal_finalized keccak256 topics data = Ok q ↔
  withdrawal_event_wf (Finalized q) ∧ topics = withdrawal_event_topics keccak256 (Finalized q) ∧
  data = withdrawal_event_data (Finalized q) [].
Proof.
  unfold parse_withdrawal_finalized. change 96%nat with (32 * 3)%nat. split.
  - intros H. shaped H 3%nat. destruct (split_exact 3 data Hdata Hshape) as (ws & -> & Hn & Hws).
    destruct ws as [|w0 [|w1 [|w2 [|]]]]; try done.
    cbn [idx expect lookup list_lookup mbind outcome_bind] in H. read_words_in Hws H. forall_cons. omonad H. decoded.
    unfold withdrawal_event_wf. cbn [wf_nullifier wf_recipient wf_amount_token_units wf_finalized_at_unix wf_executable_at_unix].
    split; [tauto|]. split; [done|]. by rewrite app_nil_r.
  - intros [(H1 & H2 & H3 & H4 & H5) [-> ->]]. cbn [withdrawal_event_data]. name_words Hws.
    rewrite <- (app_nil_r (concat _)). rewrite (proj2 (event_shape_iff _ _ _ _ 3%nat)).
    2:{ split; [by eexists _, _|]. by rewrite app_nil_r, (concat_words_length _ Hws). }
    cbn [idx expect lookup list_lookup mbind outcome_bind withdrawal_event_topics fmap list_fmap]. read_words Hws. redecode.
    by destruct q.
Qed.

Hypothesis Hlen : Z.of_nat (length data) ≤ int_max U64.

Lemma parse_cancelled_iff q :
  parse_withdrawal_cancelled keccak256 topics data = Ok q ↔
  withdrawal_event_wf (Cancelled q) ∧ topics = withdrawal_event_topics keccak256 (Cancelled q) ∧
  ∃ reason, data = withdrawal_event_data (Cancelled q) reason.
Proof.
  unfold parse_withdrawal_cancelled. split.
  - intros H. destruct (ensure_event_header _ _ _ _) as [[]| |] eqn:E1; cbn [mbind outcome_bind] in H; [|done..].
    apply event_header_iff in E1 as (t1 & t2 & ->).
    destruct (ensure_canonical_string_tail _ _ _ _) as [[]| |] eqn:E2; cbn [mbind outcome_bind] in H; [|done..].
    apply canonical_string_tail_iff in E2 as (ws & s & Hn & Hws & ->); [|done..].
    destruct ws as [|w0 [|w1 [|w2 [|]]]]; try done. cbn [app] in *.
    assert (Hws4 : Forall (bytesn 32) [w0; w1; w2; encode_abi_word (Uint 128)])
      by (forall_cons; repeat (constructor; [first [done|apply abi_u64_word_ok]|]); done).
    cbn [idx expect lookup list_lookup mbind outcome_bind] in H. read_words_in Hws4 H. clear Hws4. forall_cons. omonad H. decoded.
    unfold withdrawal_event_wf. cbn [wc_nullifier wc_recipient wc_amount_token_units wc_cancelled_at_unix wc_executable_at_unix].
    split; [tauto|]. split; [done|]. by exists s.
  - intros [(H1 & H2 & H3 & H4 & H5) [-> [s ->]]].
    rewrite (proj2 (event_header_iff _ _ _)) by (by eexists _, _). cbn [mbind outcome_bind].
    rewrite (proj2 (canonical_string_tail_iff _ _ _ Hdata Hlen)).
    2:{ eexists (encode_abi_word <$> [Uint _; Uint _; Uint _]), s. split_and!; [done| |done].
        apply words_ok. by rewrite !Forall_cons. }
    cbn [withdrawal_event_data]. name_words Hws.
    cbn [idx expect lookup list_lookup mbind outcome_bind withdrawal_event_topics]. cbn [fmap list_fmap]. read_words Hws. redecode.
    by destruct q.
Qed.
End withdrawals.

(** The withdrawal-event parser is exact: when the three event signatures
    hash apart, a log parses to an event exactly when its topics and data are
    the canonical ABI encoding of that event, fields in range; for a
    cancellation, the head words followed by the offset 128 and the
    zero-padded encoding of some reason string. *)
Theorem withdrawal_log_parse_exact (keccak256 : Bytes → Bytes) (log : L1Log) (e : WithdrawalEvent) :
  NoDup [withdrawal_queued_topic0 keccak256; withdrawal_finalized_topic0 keccak256; withdrawal_cancelled_topic0 keccak256] →
  Forall (bytesn 32) (log_topics log) → Forall byte (log_data log) → Z.of_nat (length (log_data log)) ≤ int_max U64 →
  parse_withdrawal_event_log keccak256 log = Ok e ↔
  withdrawal_event_wf e ∧ log_topics log = withdrawal_event_topics keccak256 e ∧
  ∃ reason, log_data log = withdrawal_event_data e reason.
Proof.
  intros Hnd Ht Hd Hl. destruct log as [addr topics data]; cbn [log_topics log_data] in *.
  apply NoDup_cons in Hnd as [Hq [Hf _]%NoDup_cons]. rewrite !not_elem_of_cons in Hq, Hf.
  destruct Hq as [Hqf [Hqc _]%not_elem_of_cons], Hf as [Hfc _].
  pose proof (parse_queued_iff keccak256 topics data Ht Hd) as Pq.
  pose proof (parse_finalized_iff keccak256 topics data Ht Hd) as Pf.
  pose proof (parse_cancelled_iff keccak256 topics data Ht Hd Hl) as Pc.
  unfold parse_withdrawal_event_log. cbn [log_topics log_data]. split.
  - intros H. destruct topics as [|t0 ts]; [done|]. repeat (case_decide; subst); [| | |done].
    all: match type of H with _ <$> ?p = _ => destruct p as [q| |] eqn:E end; cbn [fmap outcome_fmap] in H; [injection H as <-|done|done].
    + destruct (proj1 (Pq q) eq_refl) as (? & ? & ?). eauto.
    + destruct (proj1 (Pf q) eq_refl) as (? & ? & ?). eauto.
    + exact (proj1 (Pc q) eq_refl).
  - intros (Hw & Htp & r & Hdt). destruct e as [q|q|q]; cbn [withdrawal_event_topics] in Htp.
    + rewrite (proj2 (Pq q)) by done. rewrite Htp. by rewrite decide_True.
    + rewrite (proj2 (Pf q)) by done. rewrite Htp. rewrite decide_False by done. by rewrite decide_True.
    + rewrite (proj2 (Pc q)) by eauto. rewrite Htp. do 2 rewrite decide_False by done. by rewrite decide_True.
Qed.

(** ** No input makes the parsers panic *)

Lemma bind_not_Panic {E A B} (m : outcome E A) (f : A → outcome E B) :
  m ≠ Panic → (∀ a, m = Ok a → f a ≠ Panic) → m ≫= f ≠ Panic.
Proof. destruct m; naive_solver. Qed.

Lemma data_word_not_Panic {E} data i : ((i + 1) * 32 ≤ length data)%nat → @data_word E data i ≠ Panic.
Proof. intros H. unfold data_word. by rewrite decide_True. Qed.

Lemma idx_not_Panic {E A} (l : list A) i : (i < length l)%nat → @idx E A l i ≠ Panic.
Proof. intros H. unfold idx. destruct (lookup_lt_is_Some_2 l i H) as [x ->]. done. Qed.

Lemma ok_or_not_Panic {E A} (o : option A) (e : E) : ok_or o e ≠ Panic.
Proof. by destruct o. Qed.

Create HintDb no_panic.
#[local] Hint Resolve decode_u64_not_Panic decode_address_not_Panic ok_or_not_Panic : no_panic.
#[local] Hint Extern 1 (data_word _ _ ≠ Panic) => apply data_word_not_Panic; lia : no_panic.
#[local] Hint Extern 1 (idx _ _ ≠ Panic) => apply idx_not_Panic; lia : no_panic.
#[local] Hint Extern 9 (Ok _ ≠ Panic) => discriminate : no_panic.
#[local] Hint Extern 9 (Err _ ≠ Panic) => discriminate : no_panic.

(** Walk down a chain of binds and checks. *)
Ltac no_panic := repeat first
  [progress auto with no_panic nocore
  |apply bind_not_Panic; [solve [auto with no_panic nocore]|intros ? ?]
  |match goal with
   | |- context [Z.eqb ?a ?b] => destruct (Z.eqb_spec a b); cbn [negb]
   | |- (if decide ?P then _ else _) ≠ _ => destruct (decide P)
   | |- (if any_nonzero ?l then _ else _) ≠ _ => destruct (any_nonzero l)
   end].

Lemma ok_or_Ok {E A} (o : option A) (e : E) a : ok_or o e = Ok a → o = Some a.
Proof. destruct o; naive_solver. Qed.

Lemma data_word_bytesn {E} data i w : Forall byte data → @data_word E data i = Ok w → bytesn 32 w.
Proof.
  intros Hb. unfold data_word. case_decide; [|done]. intros [= <-].
  split; [rewrite length_take, length_drop; lia|by apply Forall_take, Forall_drop].
Qed.

Lemma string_tail_not_Panic ev field data : Forall byte data → ensure_canonical_string_tail ev data 3 field ≠ Panic.
Proof.
  intros Hb. unfold ensure_canonical_string_tail. change ((3 + 1) * 32)%nat with 128%nat.
  change (128 + 32)%nat with 160%nat. change (128 / 32)%nat with 4%nat.
  destruct (Z.ltb_spec (Z.of_nat (length data)) (Z.of_nat 160)); [done|]. no_panic.
  match goal with H : data_word data 4 = Ok _ |- _ => apply (data_word_bytesn _ _ _ Hb) in H; rename H into Hw end.
  match goal with H : decode_u64_word _ _ = Ok ?n |- context [_ + ?n] => apply decode_u64_iff in H as [[? _] _]; [|done] end.
  repeat match goal with H : ok_or _ _ = Ok _ |- _ => apply ok_or_Ok, chk_Some in H as [-> ?] end.
  rewrite arith_in.
  - cbn [mbind outcome_bind]. by destruct (any_nonzero _).
  - unfold int_min, int_max in *. Z.div_mod_to_equations. lia.
Qed.

Lemma event_header_not_Panic ev topics topic0 : ensure_event_header ev topics topic0 3 ≠ Panic.
Proof. unfold ensure_event_header. no_panic. Qed.

Lemma event_shape_not_Panic ev topics data topic0 n : ensure_event_shape ev topics data topic0 3 n ≠ Panic.
Proof. unfold ensure_event_shape. apply bind_not_Panic; [apply event_header_not_Panic|]. no_panic. Qed.

#[local] Hint Resolve event_header_not_Panic event_shape_not_Panic string_tail_not_Panic : no_panic.

Lemma queued_not_Panic keccak256 topics data : parse_withdrawal_queued keccak256 topics data ≠ Panic.
Proof.
  unfold parse_withdrawal_queued. apply bind_not_Panic; [auto with no_panic nocore|]. intros [] H.
  apply (event_shape_iff _ _ _ _ 6) in H as [(t1 & t2 & ->) H]. change (length data = 192%nat) in H. cbn [idx expect lookup list_lookup mbind outcome_bind]. no_panic.
Qed.

Lemma finalized_not_Panic keccak256 topics data : parse_withdrawal_finalized keccak256 topics data ≠ Panic.
Proof.
  unfold parse_withdrawal_finalized. apply bind_not_Panic; [auto with no_panic nocore|]. intros [] H.
  apply (event_shape_iff _ _ _ _ 3) in H as [(t1 & t2 & ->) H]. change (length data = 96%nat) in H. cbn [idx expect lookup list_lookup mbind outcome_bind]. no_panic.
Qed.

Lemma cancelled_not_Panic keccak256 topics data : Forall byte data → parse_withdrawal_cancelled keccak256 topics data ≠ Panic.
Proof.
  intros Hb. unfold parse_withdrawal_cancelled. apply bind_not_Panic; [auto with no_panic nocore|]. intros [] H.
  apply event_header_iff in H as (t1 & t2 & ->). apply bind_not_Panic; [auto with no_panic nocore|]. intros [] H.
  assert (160 ≤ length data)%nat.
  { unfold ensure_canonical_string_tail in H. cbn zeta in H. change ((3 + 1) * 32 + 32)%nat with 160%nat in H.
    destruct (Z.ltb_spec (Z.of_nat (length data)) (Z.of_nat 160)); [done|lia]. }
  cbn [idx expect lookup list_lookup mbind outcome_bind]. no_panic.
Qed.

(** No log makes the parsers panic: whatever the number of topics and the
    bytes of the data (empty, truncated, with a hostile offset or a string
    length near [u64::MAX]), the deposit and the withdrawal parser return a
    value or an error. *)
Theorem log_parsers_total (keccak256 : Bytes → Bytes) (log : L1Log) :
  Forall byte (log_data log) →
  parse_deposit_received_log keccak256 log ≠ Panic ∧ parse_withdrawal_event_log keccak256 log ≠ Panic.
Proof.
  destruct log as [addr topics data]. cbn [log_data]. intros Hb. split.
  - unfold parse_deposit_received_log, parse_deposit_received. cbn [log_topics log_data]. no_panic.
  - unfold parse_withdrawal_event_log. cbn [log_topics log_data]. destruct topics as [|t0 ts]; [done|].
    assert (Hf : ∀ {A B} (g : A → B) (m : outcome L1ProtocolError A), m ≠ Panic → g <$> m ≠ Panic) by (intros ???[]; naive_solver).
    repeat case_decide; try apply Hf; [apply queued_not_Panic|apply finalized_not_Panic|by apply cancelled_not_Panic|done].
Qed.

(** ** Witnesses *)

Definition ex_keccak (b : Bytes) : Bytes := replicate 31 0 ++ [Z.of_nat (length b) mod 256].
Definition ex_deposit : DepositReceived :=
  mkDepositReceived 7 (replicate 20 51) (replicate 32 68) (replicate 20 34) 1000000 (replicate 32 153).
Definition ex_cancelled : WithdrawalEvent :=
  Cancelled (mkWithdrawalCancelled (replicate 32 171) (replicate 20 51) 1000000 1700000000 1700086400).
Definition ex_log : L1Log :=
  mkL1Log (replicate 20 17) (withdrawal_event_topics ex_keccak ex_cancelled)
    (withdrawal_event_data ex_cancelled (ascii_bytes "operator veto")).

Lemma deposit_log_parse_exact_witness :
  parse_deposit_received ex_keccak (deposit_received_topics ex_keccak ex_deposit) (deposit_received_data ex_deposit) = Ok ex_deposit.
Proof.
  apply deposit_log_parse_exact; [by apply (bool_decide_unpack _); vm_compute..|].
  split; [by apply (bool_decide_unpack _); vm_compute|done].
Defined.

Lemma withdrawal_log_parse_exact_witness : parse_withdrawal_event_log ex_keccak ex_log = Ok ex_cancelled.
Proof.
  apply withdrawal_log_parse_exact; [by apply (bool_decide_unpack _); vm_compute|by apply (bool_decide_unpack _); vm_compute|by apply (bool_decide_unpack _); vm_compute|vm_compute; discriminate|].
  split; [by apply (bool_decide_unpack _); vm_compute|]. split; [done|]. by exists (ascii_bytes "operator veto").
Defined.

Lemma log_parsers_total_witness :
  parse_withdrawal_event_log ex_keccak (mkL1Log [] (log_topics ex_log) (take 160 (log_data ex_log))) ≠ Panic.
Proof. apply log_parsers_total. by apply (bool_decide_unpack _); vm_compute. Defined.
