(* ===== verification/DepositFrontier.v ===== *)
(** * DepositFrontier: the incremental Merkle tree of L1 deposits

    Models the tree half of [crates/sybil-l1-protocol/src/lib.rs]: zero hashes,
    the frontier of left siblings, appending a deposit, and the root read off a
    frontier.  The specification is the root of the full binary tree of depth 32
    over the leaves, padded with zero leaves; the frontier code never builds it. *)
From S2P Require Import Prelude Types Account Digest L1Protocol.

Definition DEPOSIT_TREE_DEPTH : nat := 32.
Definition deposit_tree_capacity : Z := Z.shiftl 1 (Z.of_nat DEPOSIT_TREE_DEPTH).

Section frontier.
Context (keccak256 : Bytes → Bytes).

Definition hash_node (left right : Bytes) : Bytes := keccak256 ([1] ++ left ++ right).

(** [for level in 0..DEPOSIT_TREE_DEPTH], the array updated in place. *)
Definition zero_hashes_step (zero_hashes : list Bytes) (level : nat) : list Bytes :=
  <[S level := hash_node (zero_hashes !!! level) (zero_hashes !!! level)]> zero_hashes.
Definition deposit_zero_hashes : list Bytes :=
  foldl zero_hashes_step (replicate (DEPOSIT_TREE_DEPTH + 1) (replicate 32 0)) (seq 0 DEPOSIT_TREE_DEPTH).

Definition empty_deposit_root : Bytes := deposit_zero_hashes !!! DEPOSIT_TREE_DEPTH.
Definition empty_deposit_frontier : list Bytes := replicate DEPOSIT_TREE_DEPTH (replicate 32 0).

Definition root_step (frontier : list Bytes) (count : Z) (root : Bytes) (level : nat) : Bytes :=
  if Z.land (Z.shiftr count (Z.of_nat level)) 1 =? 1
  then hash_node (frontier !!! level) root
  else hash_node root (deposit_zero_hashes !!! level).

Definition deposit_root_from_frontier (frontier : list Bytes) (count : Z) : option Bytes :=
  if count >? deposit_tree_capacity then None
  else Some (foldl (root_step frontier count) (deposit_zero_hashes !!! 0%nat) (seq 0 DEPOSIT_TREE_DEPTH)).

(** The loop state: the frontier, the remaining index bits and the running hash. *)
Definition append_step (s : list Bytes * Z * Bytes) (level : nat) : list Bytes * Z * Bytes :=
  let '(frontier, index, root) := s in
  if Z.land index 1 =? 0
  then (<[level := root]> frontier, Z.shiftr index 1, hash_node root (deposit_zero_hashes !!! level))
  else (frontier, Z.shiftr index 1, hash_node (frontier !!! level) root).

Definition append_deposit_frontier (frontier : list Bytes) (pre_count : Z) (deposit : DepositLeaf) :
    option (list Bytes * Bytes) :=
  if pre_count >=? deposit_tree_capacity then None
  else
    let '(frontier, _, root) :=
      foldl append_step (frontier, pre_count, deposit_tree_leaf keccak256 deposit) (seq 0 DEPOSIT_TREE_DEPTH) in
    Some (frontier, root).

(** [for (offset, deposit) in deposits.iter().enumerate()]; [index] is
    [pre_count + offset], which stays below the checked [post_count]. *)
Fixpoint append_all (frontier : list Bytes) (index : Z) (deposits : list DepositLeaf) : option (list Bytes * list Bytes) :=
  match deposits with
  | [] => Some (frontier, [])
  | deposit :: deposits =>
      '(frontier, root) ← append_deposit_frontier frontier index deposit;
      '(frontier, roots) ← append_all frontier (index + 1) deposits;
      Some (frontier, root :: roots)
  end.

Definition post_count_ok (pre_count : Z) (deposits : list DepositLeaf) : option unit :=
  post_count ← chk U64 (pre_count + Z.of_nat (length deposits));
  if post_count >? deposit_tree_capacity then None else Some ().

Definition deposit_frontier_prefix_roots (pre_frontier : list Bytes) (pre_count : Z) (deposits : list DepositLeaf) :
    option (list Bytes) :=
  _ ← post_count_ok pre_count deposits; snd <$> append_all pre_frontier pre_count deposits.

Definition deposit_frontier_after_prefix (pre_frontier : list Bytes) (pre_count : Z) (deposits : list DepositLeaf) :
    option (list Bytes) :=
  _ ← post_count_ok pre_count deposits; fst <$> append_all pre_frontier pre_count deposits.

Definition deposit_prefix_roots {E} (deposits : list DepositLeaf) : outcome E (list Bytes) :=
  expect (deposit_frontier_prefix_roots empty_deposit_frontier 0 deposits).

Definition deposit_root_from_prefix {E} (deposits : list DepositLeaf) : outcome E Bytes :=
  roots ← deposit_prefix_roots deposits; Ok (default empty_deposit_root (last roots)).

(** ** Specification: the root of the full tree *)

(** The hash of the subtree of depth [d] whose leaves are [k * 2^d, (k+1) * 2^d). *)
Fixpoint tree (leaves : list Bytes) (d : nat) (k : Z) : Bytes :=
  match d with
  | O => default (replicate 32 0) (leaves !! Z.to_nat k)
  | S d => hash_node (tree leaves d (2 * k)) (tree leaves d (2 * k + 1))
  end.
Definition merkle_root (leaves : list Bytes) : Bytes := tree leaves DEPOSIT_TREE_DEPTH 0.

Fixpoint zero_hash (d : nat) : Bytes :=
  match d with O => replicate 32 0 | S d => hash_node (zero_hash d) (zero_hash d) end.

(** At every level where the count has a bit, the frontier holds the complete
    left sibling of the path to the next leaf. *)
Definition represents (frontier : list Bytes) (leaves : list Bytes) : Prop :=
  length frontier = DEPOSIT_TREE_DEPTH ∧
  let count := Z.of_nat (length leaves) in
  ∀ l, (l < DEPOSIT_TREE_DEPTH)%nat → Z.testbit count (Z.of_nat l) = true →
    frontier !! l = Some (tree leaves l (Z.shiftr count (Z.of_nat l) - 1)).

(** ** Zero hashes *)

Lemma zero_hashes_prefix n : (n ≤ DEPOSIT_TREE_DEPTH)%nat →
  let zh := foldl zero_hashes_step (replicate (DEPOSIT_TREE_DEPTH + 1) (replicate 32 0)) (seq 0 n) in
  length zh = (DEPOSIT_TREE_DEPTH + 1)%nat ∧ ∀ l, (l ≤ n)%nat → zh !!! l = zero_hash l.
Proof.
  induction n as [|n IH]; intros Hn.
  - split; [done|]. intros l Hl. by replace l with 0%nat by lia.
  - rewrite seq_S, foldl_app. cbn [foldl Nat.add]. destruct IH as [Hlen IH]; [lia|]. cbv zeta in *.
    set (zh := foldl _ _ (seq 0 n)) in *. unfold zero_hashes_step. rewrite length_insert. split; [done|].
    intros l Hl. destruct (decide (l = S n)) as [->|].
    + rewrite list_lookup_total_insert_eq by lia. cbn [zero_hash]. by rewrite IH by lia.
    + rewrite list_lookup_total_insert_ne by done. apply IH. lia.
Qed.

Lemma deposit_zero_hashes_lookup l : (l ≤ DEPOSIT_TREE_DEPTH)%nat → deposit_zero_hashes !!! l = zero_hash l.
Proof. intros Hl. by apply (zero_hashes_prefix DEPOSIT_TREE_DEPTH). Qed.

(** ** Subtrees *)

(** A subtree beyond the leaves is empty. *)
Lemma tree_beyond leaves d k : 0 ≤ k → Z.of_nat (length leaves) ≤ k * 2 ^ Z.of_nat d → tree leaves d k = zero_hash d.
Proof.
  revert k. induction d as [|d IH]; intros k Hk Hl; cbn [tree zero_hash].
  - rewrite lookup_ge_None_2; [done|]. cbn in Hl. lia.
  - rewrite Nat2Z.inj_succ, Z.pow_succ_r in Hl by lia. rewrite !IH by nia. done.
Qed.

(** A subtree that ends before the appended leaf is unchanged. *)
Lemma tree_app leaves x d k : 0 ≤ k → (k + 1) * 2 ^ Z.of_nat d ≤ Z.of_nat (length leaves) →
  tree (leaves ++ [x]) d k = tree leaves d k.
Proof.
  revert k. induction d as [|d IH]; intros k Hk Hl; cbn [tree].
  - rewrite lookup_app_l; [done|]. cbn in Hl. lia.
  - rewrite Nat2Z.inj_succ, Z.pow_succ_r in Hl by lia. rewrite !IH by nia. done.
Qed.

(** ** Index bits *)

Lemma land_1 i : Z.land i 1 = i mod 2.
Proof. apply (Z.land_ones i 1). lia. Qed.

Lemma shiftr_S c l : Z.shiftr c (Z.of_nat (S l)) = Z.shiftr c (Z.of_nat l) / 2.
Proof. rewrite Nat2Z.inj_succ, <- Z.add_1_r, <- Z.shiftr_shiftr, (Z.shiftr_div_pow2 _ 1) by lia. done. Qed.

Lemma shiftr_bounds c l : 0 ≤ c →
  0 ≤ Z.shiftr c (Z.of_nat l) ∧ Z.shiftr c (Z.of_nat l) * 2 ^ Z.of_nat l ≤ c < (Z.shiftr c (Z.of_nat l) + 1) * 2 ^ Z.of_nat l.
Proof.
  intros Hc. rewrite Z.shiftr_div_pow2 by lia. pose proof (Z.pow_pos_nonneg 2 (Z.of_nat l)).
  pose proof (Z.div_pos c (2 ^ Z.of_nat l)). pose proof (Z.mul_div_le c (2 ^ Z.of_nat l)).
  pose proof (Z.mul_succ_div_gt c (2 ^ Z.of_nat l)). lia.
Qed.

(** Whether bit [l] of the count is set is the parity of the shifted count. *)
Lemma testbit_mod c l : Z.testbit c (Z.of_nat l) = true ↔ Z.shiftr c (Z.of_nat l) mod 2 = 1.
Proof. rewrite Z.testbit_odd, Zmod_odd. destruct (Z.odd _); naive_solver. Qed.

(** The successor of a count at level [l]. *)
Lemma shiftr_succ c l : 0 ≤ c →
  Z.shiftr (c + 1) (Z.of_nat l) = Z.shiftr c (Z.of_nat l) ∨ Z.shiftr (c + 1) (Z.of_nat l) = Z.shiftr c (Z.of_nat l) + 1.
Proof.
  intros Hc. pose proof (shiftr_bounds c l Hc). pose proof (shiftr_bounds (c + 1) l ltac:(lia)).
  pose proof (Z.pow_pos_nonneg 2 (Z.of_nat l)). nia.
Qed.

(** ** Appending a leaf *)

Lemma append_loop frontier leaves x n :
  represents frontier leaves → (n ≤ DEPOSIT_TREE_DEPTH)%nat →
  let c := Z.of_nat (length leaves) in
  ∃ frontier', foldl append_step (frontier, c, x) (seq 0 n) =
      (frontier', Z.shiftr c (Z.of_nat n), tree (leaves ++ [x]) n (Z.shiftr c (Z.of_nat n))) ∧
    length frontier' = DEPOSIT_TREE_DEPTH ∧
    ∀ l, frontier' !! l =
      if decide ((l < n)%nat ∧ Z.testbit c (Z.of_nat l) = false)
      then Some (tree (leaves ++ [x]) l (Z.shiftr c (Z.of_nat l))) else frontier !! l.
Proof.
  intros [Hlen Hrep] Hn c. induction n as [|n IH].
  - exists frontier. cbn [seq foldl]. rewrite Z.shiftr_0_r. split; [|split; [done|]].
    + cbn [tree]. unfold c. rewrite Nat2Z.id. by rewrite lookup_app_r, Nat.sub_diag by done.
    + intros l. rewrite decide_False by lia. done.
  - destruct IH as (F & Hfold & HF & Hl); [lia|]. rewrite seq_S, foldl_app, Hfold. cbn [foldl append_step Nat.add].
    set (i := Z.shiftr c (Z.of_nat n)) in *.
    destruct (shiftr_bounds c n ltac:(lia)) as (Hi & Hic & Hci). fold i in Hi, Hic, Hci.
    rewrite land_1, shiftr_S, Z.shiftr_div_pow2 by lia. fold i. change (2 ^ 1) with 2.
    pose proof (Z.div_mod i 2 ltac:(lia)) as Hdm. pose proof (Z.mod_pos_bound i 2 ltac:(lia)).
    assert (Hbit : Z.testbit c (Z.of_nat n) = true ↔ i mod 2 = 1) by apply testbit_mod.
    rewrite (deposit_zero_hashes_lookup n) by lia.
    destruct (Z.eqb_spec (i mod 2) 0) as [He|He]; eexists; (split; [f_equal|]).
    + cbn [tree]. replace (2 * (i / 2)) with i by lia. f_equal. symmetry. apply tree_beyond; [lia|].
      rewrite length_app. cbn [length]. lia.
    + split; [by rewrite length_insert|]. intros l. destruct (decide (l = n)) as [->|].
      * rewrite list_lookup_insert_eq by lia. rewrite decide_True; [done|]. split; [lia|].
        destruct (Z.testbit _ _); [|done]. lia.
      * rewrite list_lookup_insert_ne by done. rewrite Hl. apply decide_ext. split; intros []; split; done || lia.
    + cbn [tree]. replace (2 * (i / 2)) with (i - 1) by lia. replace (i - 1 + 1) with i by lia. f_equal.
      rewrite (list_lookup_total_correct _ _ (tree leaves n (i - 1))).
      * symmetry. apply tree_app; [lia|]. fold c. lia.
      * rewrite Hl, decide_False by lia. apply Hrep; [lia|]. apply testbit_mod. fold c i. lia.
    + split; [done|]. intros l. rewrite Hl. destruct (decide (l = n)) as [->|].
      * rewrite !decide_False; [done| |lia]. intros [_ Hb]. rewrite (proj2 Hbit) in Hb by lia. done.
      * apply decide_ext. split; intros []; split; done || lia.
Qed.

Lemma append_represents frontier leaves deposit :
  represents frontier leaves → Z.of_nat (length leaves) < deposit_tree_capacity →
  let leaves' := leaves ++ [deposit_tree_leaf keccak256 deposit] in
  ∃ frontier', append_deposit_frontier frontier (Z.of_nat (length leaves)) deposit = Some (frontier', merkle_root leaves') ∧
    represents frontier' leaves'.
Proof.
  intros Hrep Hc leaves'. set (c := Z.of_nat (length leaves)) in *.
  destruct (append_loop frontier leaves (deposit_tree_leaf keccak256 deposit) DEPOSIT_TREE_DEPTH Hrep ltac:(done)) as (F & Hfold & HF & Hl).
  fold c leaves' in Hfold, Hl. exists F. unfold append_deposit_frontier.
  destruct (Z.geb_spec c deposit_tree_capacity); [lia|]. rewrite Hfold. split.
  - do 2 f_equal. unfold merkle_root. f_equal. rewrite Z.shiftr_div_pow2 by lia.
    apply Z.div_small. unfold deposit_tree_capacity in Hc. rewrite Z.shiftl_mul_pow2 in Hc by lia. lia.
  - split; [done|]. cbv zeta. intros l Hld Hbit. unfold leaves' in *. rewrite length_app in *. cbn [length] in *.
    rewrite Nat2Z.inj_add in *. fold c in Hbit |- *. change (Z.of_nat 1) with 1 in *. rewrite Hl.
    apply testbit_mod in Hbit. pose proof (testbit_mod c l) as Hold.
    pose proof (Z.mod_pos_bound (Z.shiftr c (Z.of_nat l)) 2 ltac:(lia)).
    destruct (shiftr_succ c l ltac:(lia)) as [Hs|Hs]; rewrite Hs in *.
    + rewrite decide_False by (intros [_ Hb]; rewrite (proj2 Hold) in Hb; done). destruct Hrep as [_ Hrep].
      rewrite Hrep by (done || by apply Hold). f_equal. symmetry. pose proof (shiftr_bounds c l ltac:(lia)).
      apply tree_app; [|fold c; lia]. fold c. Z.div_mod_to_equations. lia.
    + rewrite decide_True; [do 2 f_equal; lia|]. split; [done|]. destruct (Z.testbit c _); [|done].
      assert (Z.shiftr c (Z.of_nat l) mod 2 = 1) by (by apply Hold). Z.div_mod_to_equations. lia.
Qed.

(** ** The root of a frontier *)

Lemma root_loop frontier leaves n :
  represents frontier leaves → (n ≤ DEPOSIT_TREE_DEPTH)%nat →
  let c := Z.of_nat (length leaves) in
  foldl (root_step frontier c) (deposit_zero_hashes !!! 0%nat) (seq 0 n) = tree leaves n (Z.shiftr c (Z.of_nat n)).
Proof.
  intros [Hlen Hrep] Hn c. induction n as [|n IH].
  - cbn [seq foldl tree]. rewrite deposit_zero_hashes_lookup by lia. rewrite Z.shiftr_0_r. unfold c.
    by rewrite Nat2Z.id, lookup_ge_None_2.
  - rewrite seq_S, foldl_app, IH by lia. cbn [foldl Nat.add]. unfold root_step. rewrite land_1, shiftr_S.
    set (i := Z.shiftr c (Z.of_nat n)). destruct (shiftr_bounds c n ltac:(lia)) as (Hi & Hic & Hci). fold i in Hi, Hic, Hci.
    pose proof (Z.div_mod i 2 ltac:(lia)). pose proof (Z.mod_pos_bound i 2 ltac:(lia)). cbn [tree].
    destruct (Z.eqb_spec (i mod 2) 1) as [Ho|Ho].
    + replace (2 * (i / 2)) with (i - 1) by lia. replace (i - 1 + 1) with i by lia. f_equal.
      apply list_lookup_total_correct. apply Hrep; [lia|]. by apply testbit_mod.
    + replace (2 * (i / 2)) with i by lia. f_equal. rewrite (deposit_zero_hashes_lookup n) by lia.
      symmetry. apply tree_beyond; [lia|]. fold c. lia.
Qed.

Lemma shiftr_below_capacity c : 0 ≤ c < deposit_tree_capacity → Z.shiftr c (Z.of_nat DEPOSIT_TREE_DEPTH) = 0.
Proof.
  intros Hc. rewrite Z.shiftr_div_pow2 by lia. apply Z.div_small. unfold deposit_tree_capacity in Hc.
  rewrite Z.shiftl_mul_pow2 in Hc by lia. lia.
Qed.

Lemma root_of_represents frontier leaves :
  represents frontier leaves → Z.of_nat (length leaves) < deposit_tree_capacity →
  deposit_root_from_frontier frontier (Z.of_nat (length leaves)) = Some (merkle_root leaves).
Proof.
  intros Hrep Hc. unfold deposit_root_from_frontier. rewrite Z.gtb_ltb, (proj2 (Z.ltb_ge _ _)) by lia.
  rewrite (root_loop _ leaves) by done. unfold merkle_root. by rewrite shiftr_below_capacity by lia.
Qed.

Lemma represents_empty : represents empty_deposit_frontier [].
Proof. split; [done|]. intros count l _ H. unfold count in H. cbn [length Z.of_nat] in H. by rewrite Z.bits_0 in H. Qed.

(** ** Appending a batch *)

Lemma append_all_represents frontier leaves deposits :
  represents frontier leaves → Z.of_nat (length leaves + length deposits) ≤ deposit_tree_capacity →
  let all := leaves ++ (deposit_tree_leaf keccak256 <$> deposits) in
  ∃ frontier', append_all frontier (Z.of_nat (length leaves)) deposits =
      Some (frontier', (λ k, merkle_root (take k all)) <$> seq (S (length leaves)) (length deposits)) ∧
    represents frontier' all.
Proof.
  revert frontier leaves. induction deposits as [|d ds IH]; intros F leaves Hrep Hc all; cbn [append_all length] in *.
  - exists F. unfold all. by rewrite app_nil_r.
  - destruct (append_represents F leaves d Hrep ltac:(lia)) as (F1 & -> & Hrep1). cbn [mbind option_bind].
    destruct (IH F1 _ Hrep1) as (F2 & HF2 & Hrep2); [rewrite length_app; cbn; lia|].
    assert (Hall : (leaves ++ [deposit_tree_leaf keccak256 d]) ++ (deposit_tree_leaf keccak256 <$> ds) = all)
      by (unfold all; cbn; by rewrite <- (assoc_L (++))).
    rewrite Hall in *. rewrite length_app in HF2. cbn [length] in HF2.
    replace (Z.of_nat (length leaves) + 1) with (Z.of_nat (length leaves + 1)) by lia. rewrite HF2. cbn [mbind option_bind].
    exists F2. split; [|done]. do 2 f_equal. cbn [seq fmap list_fmap]. rewrite Nat.add_1_r. f_equal.
    f_equal. rewrite <- Hall. rewrite take_app_length'; [done|]. rewrite length_app. cbn. lia.
Qed.

Lemma post_count_ok_iff c deposits : 0 ≤ c →
  post_count_ok c deposits = if decide (c + Z.of_nat (length deposits) ≤ deposit_tree_capacity) then Some () else None.
Proof.
  intros Hc. unfold post_count_ok. change deposit_tree_capacity with 4294967296.
  destruct (chk U64 _) as [n|] eqn:E; cbn [mbind option_bind].
  - apply chk_Some in E as [-> _]. rewrite Z.gtb_ltb. destruct (Z.ltb_spec 4294967296 (c + Z.of_nat (length deposits))); case_decide; done || lia.
  - apply chk_None in E. rewrite decide_False; [done|]. unfold int_min, int_max in E. lia.
Qed.

Lemma deposit_root_from_prefix_Ok {E} deposits root :
  @deposit_root_from_prefix E deposits = Ok root →
  Z.of_nat (length deposits) ≤ deposit_tree_capacity ∧ merkle_root (deposit_tree_leaf keccak256 <$> deposits) = root.
Proof.
  unfold deposit_root_from_prefix, deposit_prefix_roots, deposit_frontier_prefix_roots. rewrite post_count_ok_iff by lia.
  case_decide as Hc; [|done]. cbn [mbind option_bind]. rewrite Z.add_0_l in Hc.
  destruct (append_all_represents empty_deposit_frontier [] deposits represents_empty Hc) as (F & Happ & _).
  change (Z.of_nat (length [])) with 0 in Happ. cbn [app] in Happ. rewrite Happ. cbn [fmap option_fmap option_map fst snd expect mbind outcome_bind].
  intros [= <-]. split; [done|]. destruct deposits as [|d ds] using rev_ind.
  - cbn [length seq fmap list_fmap last default]. unfold empty_deposit_root. rewrite deposit_zero_hashes_lookup by done.
    unfold merkle_root. by rewrite tree_beyond.
  - rewrite length_app. cbn [length]. rewrite Nat.add_1_r, seq_S. set (all := deposit_tree_leaf keccak256 <$> _).
    rewrite fmap_app. cbn [fmap list_fmap]. rewrite last_snoc. cbn [default from_option].
    rewrite take_ge by (unfold all; rewrite length_fmap, length_app; cbn; lia). unfold id. reflexivity.
Qed.
End frontier.

(** ** Binding: a root determines the deposits, up to a hash collision *)

Definition collision (keccak256 : Bytes → Bytes) : Prop := ∃ x y, x ≠ y ∧ keccak256 x = keccak256 y.

Section binding.
Context (keccak256 : Bytes → Bytes).
Hypothesis keccak_length : ∀ b, length (keccak256 b) = 32%nat.

Lemma keccak_eq x y : keccak256 x = keccak256 y → x = y ∨ collision keccak256.
Proof. intros H. destruct (decide (x = y)); [by left|right]. by exists x, y. Qed.

Lemma tree_length leaves d k : Forall (λ b, length b = 32%nat) leaves → length (tree keccak256 leaves d k) = 32%nat.
Proof.
  intros Hl. destruct d as [|d]; cbn [tree]; [|apply keccak_length].
  destruct (leaves !! Z.to_nat k) as [b|] eqn:E; cbn [default]; [|done]. by apply (Forall_lookup_1 _ _ _ _ Hl E).
Qed.

Lemma tree_binds la lb d k :
  Forall (λ b, length b = 32%nat) la → Forall (λ b, length b = 32%nat) lb → 0 ≤ k →
  tree keccak256 la d k = tree keccak256 lb d k →
  collision keccak256 ∨ ∀ i, k * 2 ^ Z.of_nat d ≤ i < (k + 1) * 2 ^ Z.of_nat d →
    default (replicate 32 0) (la !! Z.to_nat i) = default (replicate 32 0) (lb !! Z.to_nat i).
Proof.
  intros Ha Hb. revert k. induction d as [|d IH]; intros k Hk; cbn [tree].
  - intros H. right. intros i Hi. cbn in Hi. by replace i with k by lia.
  - intros [H|]%keccak_eq; [|by left]. apply field_inj in H as [_ H]; [|done].
    apply field_inj in H as [H1 H2]; [|by rewrite !tree_length].
    apply IH in H1 as [|H1]; [by left| |lia]. apply IH in H2 as [|H2]; [by left| |lia]. right.
    intros i. rewrite Nat2Z.inj_succ, Z.pow_succ_r by lia. intros Hi.
    destruct (decide (i < (2 * k + 1) * 2 ^ Z.of_nat d)); [apply H1|apply H2]; lia.
Qed.

Lemma tree_root_binds d la lb :
  Forall (λ b, length b = 32%nat) la → Forall (λ b, length b = 32%nat) lb →
  length la = length lb → Z.of_nat (length la) ≤ 2 ^ Z.of_nat d →
  tree keccak256 la d 0 = tree keccak256 lb d 0 → la = lb ∨ collision keccak256.
Proof.
  intros Ha Hb Hl Hc H. apply tree_binds in H as [|H]; [by right| |done..]. left.
  apply list_eq_same_length with (length la); [done|done|]. intros i x y Hi Hx Hy.
  specialize (H (Z.of_nat i)). rewrite Nat2Z.id, Hx, Hy in H. apply H. lia.
Qed.

Lemma merkle_root_binds la lb :
  Forall (λ b, length b = 32%nat) la → Forall (λ b, length b = 32%nat) lb →
  length la = length lb → Z.of_nat (length la) ≤ deposit_tree_capacity →
  merkle_root keccak256 la = merkle_root keccak256 lb → la = lb ∨ collision keccak256.
Proof. intros Ha Hb Hl Hc. apply (tree_root_binds DEPOSIT_TREE_DEPTH la lb Ha Hb Hl). exact Hc. Qed.

(** Words of the same kinds are determined by their encoding. *)
Definition same_kind (w w' : AbiWord) : Prop :=
  match w, w' with Uint _, Uint _ | Address _, Address _ | Bytes32 _, Bytes32 _ => True | _, _ => False end.

Lemma encode_abi_word_inj w w' :
  abi_word_ok w → abi_word_ok w' → same_kind w w' → encode_abi_word w = encode_abi_word w' → w = w'.
Proof.
  destruct w as [v|a|b], w' as [v'|a'|b']; cbn [abi_word_ok same_kind]; try done; intros Hw Hw' _ H.
  - assert (Hd := decode_u64_word_abi v EmptyString Hw). rewrite H, decode_u64_word_abi in Hd by done. congruence.
  - assert (Hd := decode_address_word_abi a EmptyString Hw). rewrite H, decode_address_word_abi in Hd by done. congruence.
  - cbn in H. congruence.
Qed.

Lemma encode_words_inj ws ws' tail tail' :
  Forall abi_word_ok ws → Forall abi_word_ok ws' → Forall2 same_kind ws ws' →
  concat (encode_abi_word <$> ws) ++ tail = concat (encode_abi_word <$> ws') ++ tail' → ws = ws'.
Proof.
  intros Hw Hw' Hk. induction Hk as [|w w' ws ws' Hk _ IH]; [done|]. forall_cons. cbn [fmap list_fmap concat].
  rewrite <- !(assoc_L (++)). intros H'. apply field_inj in H' as [H1 H2].
  - f_equal; [by apply encode_abi_word_inj|]. by apply IH.
  - destruct (encode_abi_word_ok w), (encode_abi_word_ok w'); congruence || done.
Qed.

Lemma abi_encode_inj domain ws ws' :
  Forall abi_word_ok ws → Forall abi_word_ok ws' → Forall2 same_kind ws ws' →
  abi_encode_domain_and_words domain ws = abi_encode_domain_and_words domain ws' → ws = ws'.
Proof.
  intros Hw Hw' Hk H. unfold abi_encode_domain_and_words in H. rewrite (Forall2_length _ _ _ Hk) in H.
  apply field_inj in H as [_ H]; [|done]. by eapply encode_words_inj.
Qed.

Definition deposit_wf (d : DepositLeaf) : Prop := Forall abi_word_ok (deposit_leaf_words d).
#[global] Instance deposit_wf_dec d : Decision (deposit_wf d) := ltac:(unfold deposit_wf; apply _).

Lemma deposit_tree_leaf_binds d d' :
  deposit_wf d → deposit_wf d' → deposit_tree_leaf keccak256 d = deposit_tree_leaf keccak256 d' →
  d = d' ∨ collision keccak256.
Proof.
  intros Hd Hd' [H|]%keccak_eq; [|by right]. injection H as H%keccak_eq. destruct H as [H|]; [|by right]. left.
  apply abi_encode_inj in H; [|done|done|by repeat constructor]. destruct d, d'. cbn in H. by simplify_eq.
Qed.

Lemma deposit_leaves_bind da db :
  Forall deposit_wf da → Forall deposit_wf db →
  deposit_tree_leaf keccak256 <$> da = deposit_tree_leaf keccak256 <$> db → da = db ∨ collision keccak256.
Proof.
  intros Ha. revert db. induction Ha as [|d da Hd Ha IH]; intros [|d' db] Hb H; cbn in H; try done; [by left|].
  injection H as H1 H2. forall_cons. apply deposit_tree_leaf_binds in H1 as [->|]; [|by right|done..].
  apply IH in H2 as [->|]; [by left|by right|done].
Qed.
End binding.

(** ** Properties *)

(** C21: the incremental deposit tree is the Merkle tree: from a frontier that
    represents the first [length leaves] leaves, the roots returned for a batch
    of deposits are the roots of the full depth-32 tree over each prefix, the
    frontier left behind represents the extended leaves and the root read off
    it (below capacity) is the same; a batch that exceeds [2^32] leaves returns
    nothing. *)
Theorem incremental_tree_is_merkle_tree (keccak256 : Bytes → Bytes) (frontier leaves : list Bytes) (deposits : list DepositLeaf) :
  represents keccak256 frontier leaves →
  let count := Z.of_nat (length leaves) in
  let post := count + Z.of_nat (length deposits) in
  let all := leaves ++ (deposit_tree_leaf keccak256 <$> deposits) in
  if decide (post ≤ deposit_tree_capacity) then
    deposit_frontier_prefix_roots keccak256 frontier count deposits =
      Some ((λ k, merkle_root keccak256 (take k all)) <$> seq (S (length leaves)) (length deposits)) ∧
    ∃ frontier', deposit_frontier_after_prefix keccak256 frontier count deposits = Some frontier' ∧
      represents keccak256 frontier' all ∧
      (post < deposit_tree_capacity → deposit_root_from_frontier keccak256 frontier' post = Some (merkle_root keccak256 all))
  else deposit_frontier_prefix_roots keccak256 frontier count deposits = None ∧
    deposit_frontier_after_prefix keccak256 frontier count deposits = None.
Proof.
  intros Hrep count post all. unfold deposit_frontier_prefix_roots, deposit_frontier_after_prefix.
  rewrite post_count_ok_iff by lia. fold post. destruct (decide (post ≤ deposit_tree_capacity)) as [Hc|Hc]; [|done]. cbn [mbind option_bind].
  destruct (append_all_represents keccak256 frontier leaves deposits Hrep ltac:(lia)) as (F & Happ & HF). fold count in Happ. rewrite Happ.
  cbn [fmap option_fmap option_map fst snd]. split; [done|]. exists F. split_and!; [done..|]. intros Hlt.
  replace post with (Z.of_nat (length all)); [apply root_of_represents; [done|]|]; unfold all; rewrite length_app, length_fmap; lia.
Qed.

(** C32: a deposit root binds the deposit log: for a hash of 32 bytes, two logs
    of well-typed deposits of the same length, no longer than the capacity,
    whose computed roots are equal are the same deposits in the same order, or
    the proof exhibits two inputs with the same hash. *)
Theorem deposit_root_binds_log (keccak256 : Bytes → Bytes) (da db : list DepositLeaf) (root : Bytes) :
  (∀ b, length (keccak256 b) = 32%nat) →
  Forall deposit_wf da → Forall deposit_wf db → length da = length db →
  @deposit_root_from_prefix keccak256 Empty_set da = Ok root → @deposit_root_from_prefix keccak256 Empty_set db = Ok root →
  da = db ∨ collision keccak256.
Proof.
  intros Hk Ha Hb Hl Hra Hrb.
  assert (Hroot : ∀ ds, @deposit_root_from_prefix keccak256 Empty_set ds = Ok root →
    Z.of_nat (length ds) ≤ deposit_tree_capacity ∧ merkle_root keccak256 (deposit_tree_leaf keccak256 <$> ds) = root).
  { intros ds. apply deposit_root_from_prefix_Ok. }
  destruct (Hroot da Hra) as [Hca Hma], (Hroot db Hrb) as [_ Hmb].
  assert (Hleaf : ∀ ds, Forall (λ b, length b = 32%nat) (deposit_tree_leaf keccak256 <$> ds))
    by (intros ds; apply Forall_fmap, Forall_forall; intros; apply Hk).
  destruct (merkle_root_binds keccak256 Hk _ _ (Hleaf da) (Hleaf db)) as [H|]; [by rewrite !length_fmap|by rewrite length_fmap|congruence| |by right].
  by apply deposit_leaves_bind.
Qed.

(** A withdrawal's nullifier identifies it: equal nullifiers of two
    well-typed withdrawals mean the same chain, vault, withdrawal id, account,
    recipient, token and amount, or two inputs with the same hash. *)
Theorem nullifier_identifies_withdrawal (keccak256 : Bytes → Bytes)
    (chain chain' id id' acct acct' amt amt' : Z) (vault vault' rcpt rcpt' tok tok' : Bytes) :
  Forall u64 [chain; chain'; id; id'; acct; acct'; amt; amt'] → Forall (bytesn 20) [vault; vault'; rcpt; rcpt'; tok; tok'] →
  withdrawal_nullifier keccak256 chain vault id acct rcpt tok amt =
  withdrawal_nullifier keccak256 chain' vault' id' acct' rcpt' tok' amt' →
  (chain, vault, id, acct, rcpt, tok, amt) = (chain', vault', id', acct', rcpt', tok', amt') ∨ collision keccak256.
Proof.
  intros Hn Hb [H|]%keccak_eq; [|by right]. left. forall_cons.
  apply abi_encode_inj in H; [|by rewrite !Forall_cons..|by repeat constructor]. by simplify_eq.
Qed.

Lemma full_loop keccak256 frontier n : (n ≤ DEPOSIT_TREE_DEPTH)%nat →
  foldl (root_step keccak256 frontier deposit_tree_capacity) (deposit_zero_hashes keccak256 !!! 0%nat) (seq 0 n) =
  zero_hash keccak256 n.
Proof.
  induction n as [|n IH]; intros Hn; [by apply deposit_zero_hashes_lookup|].
  rewrite seq_S, foldl_app, IH by lia. cbn [foldl Nat.add zero_hash]. unfold root_step.
  rewrite (deposit_zero_hashes_lookup keccak256 n) by lia.
  assert (Hbits : Forall (λ l, Z.land (Z.shiftr deposit_tree_capacity (Z.of_nat l)) 1 =? 1 = false) (seq 0 32)) by (vm_compute; repeat constructor).
  rewrite Forall_forall in Hbits. rewrite (Hbits n); [reflexivity|]. apply elem_of_seq. unfold DEPOSIT_TREE_DEPTH in Hn. lia.
Qed.

(** C40: at exactly full capacity the frontier loses the root: the guard admits
    a count of [2^32], every tested bit of which is zero, so the root read off
    any frontier is the root of the empty tree, whatever was appended. *)
Theorem full_frontier_reads_empty (keccak256 : Bytes → Bytes) (frontier : list Bytes) :
  deposit_root_from_frontier keccak256 frontier deposit_tree_capacity = Some (empty_deposit_root keccak256).
Proof.
  unfold deposit_root_from_frontier, empty_deposit_root. rewrite Z.gtb_ltb, Z.ltb_irrefl.
  rewrite (full_loop keccak256 frontier DEPOSIT_TREE_DEPTH (le_n _)).
  rewrite (deposit_zero_hashes_lookup keccak256 DEPOSIT_TREE_DEPTH (le_n _)). reflexivity.
Qed.

(** ** Witnesses *)

Definition ex_leaf (id amount : Z) : DepositLeaf :=
  mkDepositLeaf 1 (replicate 20 17) id (replicate 20 34) (replicate 20 51) (replicate 32 68) amount.

(** A toy hash of 32 bytes for the examples. *)
Definition ex_hash (b : Bytes) : Bytes := replicate 31 7 ++ [foldl (λ a x, (a * 31 + x) mod 251) 7 b].

Lemma incremental_tree_is_merkle_tree_witness :
  deposit_frontier_prefix_roots ex_hash (empty_deposit_frontier) 0 [ex_leaf 1 500; ex_leaf 2 700] =
  Some [merkle_root ex_hash [deposit_tree_leaf ex_hash (ex_leaf 1 500)];
        merkle_root ex_hash [deposit_tree_leaf ex_hash (ex_leaf 1 500); deposit_tree_leaf ex_hash (ex_leaf 2 700)]].
Proof. exact (proj1 (incremental_tree_is_merkle_tree ex_hash empty_deposit_frontier [] [ex_leaf 1 500; ex_leaf 2 700] (represents_empty ex_hash))). Defined.

Lemma deposit_root_binds_log_witness :
  [ex_leaf 1 500; ex_leaf 2 700] = [ex_leaf 1 500; ex_leaf 2 700] ∨ collision ex_hash.
Proof.
  destruct (@deposit_root_from_prefix ex_hash Empty_set [ex_leaf 1 500; ex_leaf 2 700]) as [r|e|] eqn:E; [|destruct e|vm_compute in E; discriminate E].
  apply (deposit_root_binds_log ex_hash [ex_leaf 1 500; ex_leaf 2 700] [ex_leaf 1 500; ex_leaf 2 700] r); [done| | |done|exact E|exact E].
  all: by apply (bool_decide_unpack _); vm_compute.
Defined.

Lemma nullifier_identifies_withdrawal_witness :
  (1, replicate 20 17, 5, 9, replicate 20 51, replicate 20 34, 700) = (1, replicate 20 17, 5, 9, replicate 20 51, replicate 20 34, 700) ∨ collision ex_hash.
Proof. apply nullifier_identifies_withdrawal; [by apply (bool_decide_unpack _); vm_compute..|reflexivity]. Defined.
