(* ===== verification/AccountKeys.v ===== *)
(** * AccountKeys: the signing-key set of an account

    Models [crates/sybil-verifier/src/account_keys.rs]: the digest of a key set
    and the messages a key owner signs to change it.  SHA-256 is the parameter
    of the digest. *)
From S2P Require Import Prelude Types Account Digest L1Protocol.

Definition ACCOUNT_KEYS_DIGEST_DOMAIN : Bytes := ascii_bytes "sybil/state/account-keys-digest/v2".
Definition MAX_KEYS_PER_ACCOUNT : Z := 16.
Definition MAX_KEY_OPS_PER_BLOCK : Z := 64.
Definition FULL_CAPABILITY_MASK : Z := int_max U32.

#[global] Instance KeyRecord_eq_dec : EqDecision KeyRecord.
Proof. solve_decision. Defined.

(** [Ord] on byte arrays: lexicographic. *)
Fixpoint bytes_le (a b : Bytes) : Prop :=
  match a, b with
  | [], _ => True
  | _ :: _, [] => False
  | x :: a, y :: b => x < y ∨ x = y ∧ bytes_le a b
  end.
#[global] Instance bytes_le_dec : RelDecision bytes_le.
Proof. intros a. induction a as [|x a IH]; intros [|y b]; cbn; apply _. Defined.

(** [canonical_sort_key]: the tuple [(pubkey_sec1, auth_scheme)], compared
    lexicographically. *)
Definition canonical_sort_key (k : KeyRecord) : Bytes * Z := (kr_pubkey_sec1 k, kr_auth_scheme k).
Definition key_record_le (k k' : KeyRecord) : Prop :=
  let '(p, s) := canonical_sort_key k in
  let '(p', s') := canonical_sort_key k' in
  (p = p' ∧ s ≤ s') ∨ (p ≠ p' ∧ bytes_le p p').
#[global] Instance key_record_le_dec : RelDecision key_record_le.
Proof. intros k k'. unfold key_record_le. cbn. apply _. Defined.

Definition encode_key_record (k : KeyRecord) : Bytes :=
  [kr_auth_scheme k] ++ kr_pubkey_sec1 k ++ le_bytes 4 (kr_capability_mask k).

Definition account_keys_preimage (account_id : Z) (keys : list KeyRecord) : Bytes :=
  let keys := stable_sort key_record_le keys in
  ACCOUNT_KEYS_DIGEST_DOMAIN ++ le_bytes 8 account_id ++ le_bytes 8 (Z.of_nat (length keys)) ++
  concat (encode_key_record <$> keys).

Definition account_keys_digest (sha256 : Bytes → Bytes) (account_id : Z) (keys : list KeyRecord) : Bytes :=
  sha256 (account_keys_preimage account_id keys).

Definition empty_account_keys_digest (sha256 : Bytes → Bytes) (account_id : Z) : Bytes :=
  account_keys_digest sha256 account_id [].

Definition canonical_key_op_bytes (domain genesis_hash : Bytes) (account_id : Z) (key : KeyRecord)
    (bound_keys_digest bound_events_digest : Bytes) : Bytes :=
  domain ++ genesis_hash ++ le_bytes 8 account_id ++ [kr_auth_scheme key] ++ kr_pubkey_sec1 key ++
  le_bytes 4 (kr_capability_mask key) ++ bound_keys_digest ++ bound_events_digest.

Definition canonical_key_registration_bytes (genesis_hash : Bytes) (account_id : Z) (key : KeyRecord)
    (bound_keys_digest bound_events_digest : Bytes) : Bytes :=
  canonical_key_op_bytes (ascii_bytes "sybil/keyop/register/v1") genesis_hash account_id key
    bound_keys_digest bound_events_digest.

Definition canonical_key_revocation_bytes (genesis_hash : Bytes) (account_id : Z) (key : KeyRecord)
    (bound_keys_digest bound_events_digest : Bytes) : Bytes :=
  canonical_key_op_bytes (ascii_bytes "sybil/keyop/revoke/v1") genesis_hash account_id key
    bound_keys_digest bound_events_digest.

Definition canonical_escape_claim_bytes (genesis_hash : Bytes) (chain_id : Z) (vault_address state_root : Bytes)
    (height account_id : Z) (recipient : Bytes) (amount_token_units : Z) : Bytes :=
  ascii_bytes "sybil/escape-claim/v1" ++ genesis_hash ++ le_bytes 8 chain_id ++ vault_address ++ state_root ++
  le_bytes 8 height ++ le_bytes 8 account_id ++ recipient ++ le_bytes 8 amount_token_units.

(** ** The key order *)

Lemma bytes_le_refl a : bytes_le a a.
Proof. induction a; cbn; auto. Qed.

Lemma bytes_le_trans a b c : bytes_le a b → bytes_le b c → bytes_le a c.
Proof.
  revert b c. induction a as [|x a IH]; intros [|y b] [|z c]; cbn; try done.
  intros [|[-> ?]] [|[-> ?]]; [left; lia|by left|by left|right]. eauto.
Qed.

Lemma bytes_le_total a b : bytes_le a b ∨ bytes_le b a.
Proof.
  revert b. induction a as [|x a IH]; intros [|y b]; cbn; auto.
  destruct (Z.lt_trichotomy x y) as [|[->|]]; [auto| |auto]. destruct (IH b); auto.
Qed.

Lemma bytes_le_antisym a b : bytes_le a b → bytes_le b a → a = b.
Proof.
  revert b. induction a as [|x a IH]; intros [|y b]; cbn; try done.
  intros [|[-> ?]] [|[? ?]]; try lia. f_equal. auto.
Qed.

#[global] Instance key_record_le_trans : Transitive key_record_le.
Proof.
  intros [s p m] [s' p' m'] [s'' p'' m'']. unfold key_record_le. cbn.
  intros [[-> ?]|[? Hp]] [[-> ?]|[? Hp']]; [left; split; [done|lia]|by right|by right|right].
  split; [|by eapply bytes_le_trans]. intros ->. by apply H, bytes_le_antisym.
Qed.

#[global] Instance key_record_le_total : Total key_record_le.
Proof.
  intros [s p m] [s' p' m']. unfold key_record_le. cbn.
  destruct (decide (p = p')) as [->|]; [destruct (Z.le_ge_cases s s'); auto|].
  destruct (bytes_le_total p p'); auto.
Qed.

Lemma key_record_le_antisym k k' :
  key_record_le k k' → key_record_le k' k → canonical_sort_key k = canonical_sort_key k'.
Proof.
  destruct k as [s p m], k' as [s' p' m']. unfold key_record_le. cbn.
  intros [[-> Hs]|[Hp Hb]] [[Hp' Hs']|[Hp' Hb']]; [unfold canonical_sort_key; cbn; f_equal; lia|done|by destruct Hp|]. destruct Hp. by apply bytes_le_antisym.
Qed.

(** Key sets have one record per [(pubkey, scheme)]. *)
Definition key_set_ok (keys : list KeyRecord) : Prop :=
  NoDup (canonical_sort_key <$> keys) ∧ Forall key_wf keys.

#[global] Instance key_wf_dec k : Decision (key_wf k) := ltac:(unfold key_wf; apply _).
#[global] Instance key_set_ok_dec keys : Decision (key_set_ok keys) := ltac:(unfold key_set_ok; apply _).

Lemma same_key_in keys k k' : NoDup (canonical_sort_key <$> keys) → k ∈ keys → k' ∈ keys →
  canonical_sort_key k = canonical_sort_key k' → k = k'.
Proof.
  intros Hnd (i & Hi)%list_elem_of_lookup (j & Hj)%list_elem_of_lookup Heq.
  assert (i = j) as ->; [|congruence].
  apply (NoDup_lookup _ _ _ (canonical_sort_key k) Hnd); rewrite list_lookup_fmap; [by rewrite Hi|by rewrite Hj, Heq].
Qed.

(** Sorting forgets the order in which the registry lists the keys. *)
Lemma sorted_keys_unique keys keys' :
  NoDup (canonical_sort_key <$> keys) → keys ≡ₚ keys' → stable_sort key_record_le keys = stable_sort key_record_le keys'.
Proof.
  intros Hnd Hp. apply (StronglySorted_unique_strong key_record_le).
  - intros k k'. rewrite !stable_sort_Permutation, <- Hp. intros Hk Hk' H1 H2.
    apply (same_key_in keys); [done..|]. by apply key_record_le_antisym.
  - apply StronglySorted_stable_sort; apply _.
  - apply StronglySorted_stable_sort; apply _.
  - by rewrite !stable_sort_Permutation.
Qed.

(** ** Encodings *)

Lemma encode_key_record_length k : key_wf k → length (encode_key_record k) = 38%nat.
Proof. intros [Hl _]. unfold encode_key_record. by rewrite !length_app, Hl, le_bytes_length. Qed.

Lemma encode_key_record_inj k k' : key_wf k → key_wf k' → encode_key_record k = encode_key_record k' → k = k'.
Proof.
  destruct k as [s p m], k' as [s' p' m']. intros [Hp Hm] [Hp' Hm'] H. unfold encode_key_record in H.
  cbn [kr_auth_scheme kr_pubkey_sec1 kr_capability_mask] in *.
  apply field_inj in H as [H1 H]; [|done]. apply field_inj in H as [H2 H]; [|congruence].
  apply le_u32_inj in H; [|done..]. by simplify_eq.
Qed.

Lemma encode_key_records_inj l l' :
  Forall key_wf l → Forall key_wf l' → length l = length l' →
  concat (encode_key_record <$> l) = concat (encode_key_record <$> l') → l = l'.
Proof.
  intros Hl. revert l'. induction Hl as [|k l Hk Hl IH]; intros [|k' l'] Hl' Hlen H; try done.
  apply Forall_cons in Hl' as [Hk' Hl']. cbn [fmap list_fmap concat] in H.
  apply field_inj in H as [H1 H]; [|by rewrite !encode_key_record_length].
  f_equal; [by apply encode_key_record_inj|]. apply IH; [done| |done]. by injection Hlen.
Qed.

Lemma account_keys_preimage_inj id id' keys keys' :
  u64 id → u64 id' → Forall key_wf keys → Forall key_wf keys' →
  u64 (Z.of_nat (length keys)) → u64 (Z.of_nat (length keys')) →
  account_keys_preimage id keys = account_keys_preimage id' keys' → id = id' ∧ keys ≡ₚ keys'.
Proof.
  intros Hid Hid' Hk Hk' Hn Hn' H. unfold account_keys_preimage in H.
  apply field_inj in H as [_ H]; [|done].
  rewrite <- (Permutation_length (stable_sort_Permutation key_record_le keys)) in Hn.
  rewrite <- (Permutation_length (stable_sort_Permutation key_record_le keys')) in Hn'.
  peel H. apply field_inj in H as [Hlen H]; [|by rewrite !le_bytes_length]. apply le_u64_inj in Hlen; [|done..].
  apply encode_key_records_inj in H.
  - split; [done|]. by rewrite <- (stable_sort_Permutation key_record_le keys), H, stable_sort_Permutation.
  - by rewrite stable_sort_Permutation.
  - by rewrite stable_sort_Permutation.
  - lia.
Qed.

Inductive KeyOp := OpRegister | OpRevoke.

Definition key_op_message (op : KeyOp) (genesis : Bytes) (id : Z) (key : KeyRecord) (kd ed : Bytes) : Bytes :=
  match op with
  | OpRegister => canonical_key_registration_bytes genesis id key kd ed
  | OpRevoke => canonical_key_revocation_bytes genesis id key kd ed
  end.

(** ** Properties *)

(** The digest of an account's key set is canonical and binding: it does
    not depend on the order in which the registry lists the keys, and two key
    lists with the same digest belong to the same account and hold the same
    keys, or exhibit two inputs with the same hash. *)
Theorem keys_digest_canonical (sha256 : Bytes → Bytes) (id id' : Z) (keys keys' : list KeyRecord) :
  u64 id → u64 id' → key_set_ok keys → key_set_ok keys' →
  u64 (Z.of_nat (length keys)) → u64 (Z.of_nat (length keys')) →
  (id = id' → keys ≡ₚ keys' → account_keys_digest sha256 id keys = account_keys_digest sha256 id' keys') ∧
  (account_keys_digest sha256 id keys = account_keys_digest sha256 id' keys' →
    (id = id' ∧ keys ≡ₚ keys') ∨ ∃ x y, x ≠ y ∧ sha256 x = sha256 y).
Proof.
  intros Hid Hid' [Hnd Hk] [_ Hk'] Hn Hn'. split.
  - intros <- Hp. unfold account_keys_digest, account_keys_preimage. by rewrite (sorted_keys_unique keys keys').
  - intros H. destruct (decide (account_keys_preimage id keys = account_keys_preimage id' keys')) as [He|Hne].
    + left. by apply account_keys_preimage_inj.
    + right. by exists (account_keys_preimage id keys), (account_keys_preimage id' keys').
Qed.

(** A signed key-operation message authorises one operation: the bytes of
    two messages, of either kind, agree only if the kind, the deployment, the
    account, the key record and the two bound digests all agree. *)
Theorem key_op_message_injective (op op' : KeyOp) (g g' kd kd' ed ed' : Bytes) (id id' : Z) (k k' : KeyRecord) :
  Forall (λ b, length b = 32%nat) [g; g'; kd; kd'; ed; ed'] → u64 id → u64 id' → key_wf k → key_wf k' →
  key_op_message op g id k kd ed = key_op_message op' g' id' k' kd' ed' →
  (op, g, id, k, kd, ed) = (op', g', id', k', kd', ed').
Proof.
  intros Hl Hid Hid' Hk Hk' H. forall_cons.
  assert (Hop : op = op').
  { apply (f_equal length) in H. unfold key_op_message, canonical_key_registration_bytes, canonical_key_revocation_bytes, canonical_key_op_bytes in H.
    destruct op, op'; try done; exfalso; rewrite !length_app in H; destruct Hk as [Hk _], Hk' as [Hk' _];
      cbn [ascii_bytes length] in H; rewrite !le_bytes_length in H; lia. }
  subst op'. assert (Hb : ∃ d, canonical_key_op_bytes d g id k kd ed = canonical_key_op_bytes d g' id' k' kd' ed') by (destruct op; by eexists).
  destruct Hb as [d Hb]. unfold canonical_key_op_bytes in Hb. destruct k as [s p m], k' as [s' p' m'], Hk as [Hp Hm], Hk' as [Hp' Hm'].
  cbn [kr_auth_scheme kr_pubkey_sec1 kr_capability_mask] in *.
  apply field_inj in Hb as [_ Hb]; [|done]. apply field_inj in Hb as [-> Hb]; [|congruence]. peel Hb.
  apply field_inj in Hb as [Hs Hb]; [|done]. apply field_inj in Hb as [-> Hb]; [|congruence]. peel Hb.
  apply field_inj in Hb as [-> ->]; [|congruence]. by simplify_eq.
Qed.

(** ** Witnesses *)

Definition ex_key (b : Z) : KeyRecord := mkKeyRecord 0 (2 :: replicate 32 b) FULL_CAPABILITY_MASK.

Lemma keys_digest_canonical_witness :
  account_keys_digest id 7 [ex_key 9; ex_key 3] = account_keys_digest id 7 [ex_key 3; ex_key 9].
Proof.
  apply keys_digest_canonical; [by apply (bool_decide_unpack _); vm_compute..| |].
  - done.
  - apply Permutation_swap.
Defined.

Lemma key_op_message_injective_witness :
  (OpRegister, replicate 32 1, 7, ex_key 3, replicate 32 2, replicate 32 4) =
  (OpRegister, replicate 32 1, 7, ex_key 3, replicate 32 2, replicate 32 4).
Proof.
  apply key_op_message_injective; [repeat constructor|by apply (bool_decide_unpack _); vm_compute..|reflexivity].
Defined.
