(* ===== verification/WebAuthn.v ===== *)
(** * WebAuthn: authorisation of key operations and client actions

    Models [crates/sybil-verifier/src/key_op_auth.rs]: the check that an
    authorisation comes from an active key, the WebAuthn envelope, and the JSON
    parser for [clientDataJSON].  The parser is its unread suffix
    ([bytes[offset..]]), so [peek] is the head of that list.  P-256 verification
    is third-party code and a parameter; sha256 is the hash parameter. *)
From S2P Require Import Prelude Types Order Account Digest Finalize Witness AccountKeys.

(** ** Errors *)

Module Json.
Inductive JsonError :=
  | InvalidByte | UnterminatedString | NotUtf8 | UnescapedControl | InvalidBoolean | UnterminatedEscape
  | InvalidSurrogatePair | UnpairedLowSurrogate | InvalidUnicodeEscape | InvalidEscape
  | TruncatedUnicodeEscape | NonHexEscape | TooDeep | InvalidValue | InvalidLiteral
  | InvalidNumber | InvalidFraction | InvalidExponent
  | MissingTypeAndChallenge | DuplicateMember (name : string) | MissingMember (name : string) | TrailingBytes
  | OutOfFuel  (** not an error of the code: the recursion bound of the model ran out *).
End Json.
Abbreviation JsonError := Json.JsonError (only parsing).
Abbreviation parser := (st Bytes JsonError) (only parsing).

(** ** UTF-8 ([core::str::from_utf8] and [char::encode_utf8]) *)

Definition between (lo b hi : Z) : bool := (lo <=? b) && (b <=? hi).
Definition continuation (b : Z) : bool := between 128 b 191.

(** The second byte of a sequence led by [b0]. *)
Definition second_byte (b0 b1 : Z) : bool :=
  if b0 =? 224 then between 160 b1 191 else
  if b0 =? 237 then between 128 b1 159 else
  if b0 =? 240 then between 144 b1 191 else
  if b0 =? 244 then between 128 b1 143 else continuation b1.

Fixpoint from_utf8 (l : Bytes) : bool :=
  match l with
  | [] => true
  | b0 :: l =>
      if b0 <? 128 then from_utf8 l else
      if between 194 b0 223 then match l with b1 :: l => continuation b1 && from_utf8 l | _ => false end else
      if between 224 b0 239 then
        match l with b1 :: b2 :: l => second_byte b0 b1 && continuation b2 && from_utf8 l | _ => false end else
      if between 240 b0 244 then
        match l with b1 :: b2 :: b3 :: l => second_byte b0 b1 && continuation b2 && continuation b3 && from_utf8 l | _ => false end
      else false
  end.

Definition char_from_u32 (c : Z) : option Z :=
  if (0 <=? c) && (c <? 1114112) && negb (between 55296 c 57343) then Some c else None.

Definition encode_utf8 (c : Z) : Bytes :=
  if c <? 128 then [c] else
  if c <? 2048 then [192 + c / 64; 128 + c mod 64] else
  if c <? 65536 then [224 + c / 4096; 128 + (c / 64) mod 64; 128 + c mod 64] else
  [240 + c / 262144; 128 + (c / 4096) mod 64; 128 + (c / 64) mod 64; 128 + c mod 64].

(** ** Elementary parsers *)

Definition is_ws (b : Z) : bool := (b =? 32) || (b =? 10) || (b =? 13) || (b =? 9).
Definition is_digit (b : Z) : bool := between 48 b 57.

Fixpoint drop_while (p : Z → bool) (l : Bytes) : Bytes :=
  match l with b :: l' => if p b then drop_while p l' else l | [] => [] end.

Definition skip_ws : parser unit := smodify (drop_while is_ws).
Definition peek : parser (option Z) := s ← sget; mret (head s).
Definition advance : parser unit := smodify tail.
Definition take_byte (byte : Z) : parser bool :=
  s ← sget;
  match s with
  | b :: _ => if b =? byte then advance;; mret true else mret false
  | [] => mret false
  end.
Definition expect_byte (byte : Z) : parser unit :=
  taken ← take_byte byte;
  if (taken : bool) then mret () else sfail Json.InvalidByte.

Definition expect_literal (literal : Bytes) : parser unit :=
  s ← sget;
  if decide (take (length literal) s = literal) then smodify (drop (length literal)) else sfail Json.InvalidLiteral.

(** ** Strings *)

Definition hex_nibble (byte : Z) : option Z :=
  if between 48 byte 57 then Some (byte - 48) else
  if between 97 byte 102 then Some (byte - 97 + 10) else
  if between 65 byte 70 then Some (byte - 65 + 10) else None.

Definition next_byte (e : JsonError) : parser Z :=
  s ← sget;
  match s with b :: _ => advance;; mret b | [] => sfail e end.

Definition hex_step (value : Z) : parser Z :=
  byte ← next_byte Json.TruncatedUnicodeEscape;
  match hex_nibble byte with
  | Some nibble => mret (Z.lor (Z.shiftl value 4 mod 65536) nibble)
  | None => sfail Json.NonHexEscape
  end.
Definition parse_hex_quad : parser Z :=
  a ← hex_step 0; b ← hex_step a; c ← hex_step b; hex_step c.

(** The bytes an escape sequence stands for ([out.push], [out.extend_from_slice]). *)
Definition parse_escape : parser Bytes :=
  escaped ← next_byte Json.UnterminatedEscape;
  if (escaped =? 34) || (escaped =? 92) || (escaped =? 47) then mret [escaped] else
  if escaped =? 98 then mret [8] else
  if escaped =? 102 then mret [12] else
  if escaped =? 110 then mret [10] else
  if escaped =? 114 then mret [13] else
  if escaped =? 116 then mret [9] else
  if escaped =? 117 then
    first ← parse_hex_quad;
    scalar ←
      (if between 55296 first 56319 then
         expect_byte 92;;
         expect_byte 117;;
         second ← parse_hex_quad;
         if negb (between 56320 second 57343) then sfail Json.InvalidSurrogatePair else
         mret (65536 + Z.lor (Z.shiftl (first - 55296) 10) (second - 56320))
       else if between 56320 first 57343 then sfail Json.UnpairedLowSurrogate
       else mret first);
    match char_from_u32 scalar with
    | Some ch => mret (encode_utf8 ch)
    | None => sfail Json.InvalidUnicodeEscape
    end
  else sfail Json.InvalidEscape.

Fixpoint parse_string_loop (fuel : nat) (out : Bytes) : parser Bytes :=
  match fuel with
  | O => sfail Json.OutOfFuel
  | S fuel =>
      byte ← next_byte Json.UnterminatedString;
      if byte =? 34 then (if from_utf8 out then mret out else sfail Json.NotUtf8) else
      if byte =? 92 then esc ← parse_escape; parse_string_loop fuel (out ++ esc) else
      if byte <? 32 then sfail Json.UnescapedControl else
      parse_string_loop fuel (out ++ [byte])
  end.

(** Every round of the loop reads a byte, so the unread length is enough fuel. *)
Definition parse_string : parser Bytes :=
  expect_byte 34;;
  s ← sget;
  parse_string_loop (S (length s)) [].

Definition parse_bool : parser bool :=
  first ← peek;
  match first with
  | Some b => if b =? 116 then expect_literal (string_bytes "true");; mret true else
              if b =? 102 then expect_literal (string_bytes "false");; mret false else sfail Json.InvalidBoolean
  | None => sfail Json.InvalidBoolean
  end.

(** ** Values that are skipped *)

Definition MAX_JSON_DEPTH : Z := 32.

Definition digits_or (e : JsonError) : parser unit :=
  s ← sget;
  match s with b :: _ => if is_digit b then smodify (drop_while is_digit) else sfail e | [] => sfail e end.

Definition skip_number : parser unit :=
  take_byte 45;;
  first ← peek;
  match first with
  | Some b => if b =? 48 then advance else
              if between 49 b 57 then advance;; smodify (drop_while is_digit) else sfail Json.InvalidNumber
  | None => sfail Json.InvalidNumber
  end;;
  dot ← take_byte 46;
  (if (dot : bool) then digits_or Json.InvalidFraction else mret ());;
  e ← peek;
  match e with
  | Some b =>
      if (b =? 101) || (b =? 69) then
        advance;;
        sign ← peek;
        match sign with Some c => if (c =? 43) || (c =? 45) then advance else mret () | None => mret () end;;
        digits_or Json.InvalidExponent
      else mret ()
  | None => mret ()
  end.

Fixpoint skip_value (fuel : nat) (depth : Z) : parser unit :=
  match fuel with
  | O => sfail Json.OutOfFuel
  | S fuel =>
      if depth >? MAX_JSON_DEPTH then sfail Json.TooDeep else
      skip_ws;;
      first ← peek;
      match first with
      | None => sfail Json.InvalidValue
      | Some b =>
          if b =? 34 then parse_string;; mret () else
          if b =? 123 then skip_object fuel (depth + 1) else
          if b =? 91 then skip_array fuel (depth + 1) else
          if b =? 116 then expect_literal (string_bytes "true") else
          if b =? 102 then expect_literal (string_bytes "false") else
          if b =? 110 then expect_literal (string_bytes "null") else
          if (b =? 45) || is_digit b then skip_number else sfail Json.InvalidValue
      end
  end
with skip_object (fuel : nat) (depth : Z) : parser unit :=
  match fuel with
  | O => sfail Json.OutOfFuel
  | S fuel =>
      expect_byte 123;;
      skip_ws;;
      closed ← take_byte 125;
      if (closed : bool) then mret () else skip_members fuel depth
  end
with skip_members (fuel : nat) (depth : Z) : parser unit :=
  match fuel with
  | O => sfail Json.OutOfFuel
  | S fuel =>
      parse_string;;
      skip_ws;;
      expect_byte 58;;
      skip_value fuel depth;;
      skip_ws;;
      closed ← take_byte 125;
      if (closed : bool) then mret () else
      expect_byte 44;;
      skip_ws;;
      skip_members fuel depth
  end
with skip_array (fuel : nat) (depth : Z) : parser unit :=
  match fuel with
  | O => sfail Json.OutOfFuel
  | S fuel =>
      expect_byte 91;;
      skip_ws;;
      closed ← take_byte 93;
      if (closed : bool) then mret () else skip_elements fuel depth
  end
with skip_elements (fuel : nat) (depth : Z) : parser unit :=
  match fuel with
  | O => sfail Json.OutOfFuel
  | S fuel =>
      skip_value fuel depth;;
      skip_ws;;
      closed ← take_byte 93;
      if (closed : bool) then mret () else
      expect_byte 44;;
      skip_ws;;
      skip_elements fuel depth
  end.

(** Between two bytes read, at most three of these functions are entered. *)
Definition value_fuel (s : Bytes) : nat := 3 * length s + 2.
Definition skip_one_value : parser unit := s ← sget; skip_value (value_fuel s) 0.

(** ** The members of clientDataJSON *)

Record ClientDataFields := mkClientDataFields {
  cd_type : Bytes;
  cd_challenge : Bytes;
  cd_origin : Bytes;
  cd_cross_origin : bool;
}.

Record FoundFields := mkFoundFields {
  ff_type : option Bytes;
  ff_challenge : option Bytes;
  ff_origin : option Bytes;
  ff_cross_origin : option bool;
}.

Definition once {A} (name : string) (o : option A) (p : parser A) : parser (option A) :=
  match o with Some _ => sfail (Json.DuplicateMember name) | None => a ← p; mret (Some a) end.

Definition read_member (key : Bytes) (f : FoundFields) : parser FoundFields :=
  if decide (key = string_bytes "type") then
    v ← once "type" (ff_type f) parse_string; mret (mkFoundFields v (ff_challenge f) (ff_origin f) (ff_cross_origin f))
  else if decide (key = string_bytes "challenge") then
    v ← once "challenge" (ff_challenge f) parse_string; mret (mkFoundFields (ff_type f) v (ff_origin f) (ff_cross_origin f))
  else if decide (key = string_bytes "origin") then
    v ← once "origin" (ff_origin f) parse_string; mret (mkFoundFields (ff_type f) (ff_challenge f) v (ff_cross_origin f))
  else if decide (key = string_bytes "crossOrigin") then
    v ← once "crossOrigin" (ff_cross_origin f) parse_bool; mret (mkFoundFields (ff_type f) (ff_challenge f) (ff_origin f) v)
  else skip_one_value;; mret f.

Fixpoint member_loop (fuel : nat) (f : FoundFields) : parser FoundFields :=
  match fuel with
  | O => sfail Json.OutOfFuel
  | S fuel =>
      key ← parse_string;
      skip_ws;;
      expect_byte 58;;
      skip_ws;;
      f ← read_member key f;
      skip_ws;;
      closed ← take_byte 125;
      if (closed : bool) then mret f else
      expect_byte 44;;
      skip_ws;;
      member_loop fuel f
  end.

Definition required {A} (name : string) (o : option A) : parser A :=
  match o with Some a => mret a | None => sfail (Json.MissingMember name) end.

Definition client_data_parser : parser ClientDataFields :=
  skip_ws;;
  expect_byte 123;;
  skip_ws;;
  closed ← take_byte 125;
  if (closed : bool) then sfail Json.MissingTypeAndChallenge else
  s ← sget;
  f ← member_loop (S (length s)) (mkFoundFields None None None None);
  skip_ws;;
  rest ← sget;
  (if decide (rest = []) then mret () else sfail Json.TrailingBytes);;
  t ← required "type" (ff_type f);
  c ← required "challenge" (ff_challenge f);
  o ← required "origin" (ff_origin f);
  mret (mkClientDataFields t c o (default false (ff_cross_origin f))).

Definition extract_client_data_fields (bytes : Bytes) : outcome JsonError ClientDataFields :=
  match client_data_parser bytes with SOk _ f => Ok f | SErr _ e => Err e | SPanic => Panic end.

(** ** The envelope *)

Definition EXPECTED_WEBAUTHN_ORIGIN : Bytes := string_bytes "https://app.sybil.exchange".
Definition EXPECTED_RP_ID_HASH : Bytes :=
  [14; 169; 148; 9; 176; 146; 58; 153; 177; 91; 58; 200; 46; 177; 187; 6;
   222; 208; 47; 171; 254; 205; 91; 124; 195; 12; 218; 17; 187; 214; 10; 108].
Definition FLAG_UP : Z := 1.
Definition FLAG_UV : Z := 4.
Definition MAX_WEBAUTHN_AUTHENTICATOR_DATA_BYTES : Z := 512.
Definition MAX_WEBAUTHN_CLIENT_DATA_JSON_BYTES : Z := 2048.

Definition BASE64URL_TABLE : Bytes := string_bytes "ABCDEFGHIJKLMNOPQRSTUVWXYZabcdefghijklmnopqrstuvwxyz0123456789-_".

(** [TABLE[((chunk >> shift) & 0x3f) as usize]] *)
Definition sextet (chunk shift : Z) : Z := BASE64URL_TABLE !!! Z.to_nat (Z.land (Z.shiftr chunk shift) 63).

(** Three bytes give four characters, the last two give three. *)
Fixpoint base64url (digest : Bytes) : Bytes :=
  match digest with
  | a :: b :: c :: digest =>
      let chunk := Z.lor (Z.lor (Z.shiftl a 16) (Z.shiftl b 8)) c in
      [sextet chunk 18; sextet chunk 12; sextet chunk 6; sextet chunk 0] ++ base64url digest
  | [a; b] =>
      let chunk := Z.lor (Z.shiftl a 16) (Z.shiftl b 8) in
      [sextet chunk 18; sextet chunk 12; sextet chunk 6]
  | _ => []
  end.
Definition base64url_sha256 (digest : Bytes) : Bytes := base64url digest.

Module Auth.
Inductive AuthError :=
  | SignerNotActive | AuthenticatorDataTooLong | ClientDataTooLong | AuthenticatorDataTooShort | WrongRpId
  | NoUserPresence | NoUserVerification | WrongType | WrongOrigin | CrossOrigin | ChallengeMismatch
  | ClientData (e : JsonError) | BadSignature.
End Auth.
Abbreviation AuthError := Auth.AuthError (only parsing).

Definition signer_pubkey (a : KeyOpAuth) : Bytes := match a with RawP256 pk _ | WebAuthn pk _ _ _ => pk end.
Definition signer_auth_scheme (a : KeyOpAuth) : Z := match a with RawP256 _ _ => 0 | WebAuthn _ _ _ _ => 1 end.

Section auth.
Context (sha256 : Bytes → Bytes).
(** [p256 pubkey signature prehash]: point, signature and verification succeed. *)
Context (p256 : Bytes → Bytes → Bytes → bool).

Definition verify_webauthn_envelope (canonical_bytes authenticator_data client_data_json : Bytes) : outcome AuthError unit :=
  reject_if (Z.of_nat (length authenticator_data) >? MAX_WEBAUTHN_AUTHENTICATOR_DATA_BYTES) Auth.AuthenticatorDataTooLong;;
  reject_if (Z.of_nat (length client_data_json) >? MAX_WEBAUTHN_CLIENT_DATA_JSON_BYTES) Auth.ClientDataTooLong;;
  reject_if (Z.of_nat (length authenticator_data) <? 37) Auth.AuthenticatorDataTooShort;;
  reject_if (bool_decide (take 32 authenticator_data ≠ EXPECTED_RP_ID_HASH)) Auth.WrongRpId;;
  let flags := authenticator_data !!! 32%nat in
  reject_if (Z.land flags FLAG_UP =? 0) Auth.NoUserPresence;;
  reject_if (Z.land flags FLAG_UV =? 0) Auth.NoUserVerification;;
  fields ← map_err Auth.ClientData (extract_client_data_fields client_data_json);
  reject_if (bool_decide (cd_type fields ≠ string_bytes "webauthn.get")) Auth.WrongType;;
  reject_if (bool_decide (cd_origin fields ≠ EXPECTED_WEBAUTHN_ORIGIN)) Auth.WrongOrigin;;
  reject_if (cd_cross_origin fields) Auth.CrossOrigin;;
  reject_if (bool_decide (cd_challenge fields ≠ base64url_sha256 (sha256 canonical_bytes))) Auth.ChallengeMismatch.

Definition verify_p256_prehash (pubkey signature prehash : Bytes) : outcome AuthError unit :=
  reject_if (negb (p256 pubkey signature prehash)) Auth.BadSignature.

Definition active_signer (a : KeyOpAuth) (k : KeyRecord) : bool :=
  bool_decide (kr_pubkey_sec1 k = signer_pubkey a) && (kr_auth_scheme k =? signer_auth_scheme a).

Definition verify_keyop_auth (authorization : KeyOpAuth) (active_keys : list KeyRecord) (canonical_bytes : Bytes)
    : outcome AuthError unit :=
  reject_if (negb (existsb (active_signer authorization) active_keys)) Auth.SignerNotActive;;
  match authorization with
  | RawP256 pubkey signature => verify_p256_prehash pubkey signature (sha256 canonical_bytes)
  | WebAuthn pubkey authenticator_data client_data_json signature =>
      verify_webauthn_envelope canonical_bytes authenticator_data client_data_json;;
      let client_data_hash := sha256 client_data_json in
      verify_p256_prehash pubkey signature (sha256 (authenticator_data ++ client_data_hash))
  end.
End auth.

(** ** Evaluation on the shapes browsers send *)

Example parse_browser_json :
  extract_client_data_fields (string_bytes "{ 'type':'webauthn.get' , 'challenge':'AbC-_', 'tokenBinding':{'status':[1,-2.5e+3,null,{}]}, 'origin':'https:\/\/app.sybil.exchange','crossOrigin':false}" ≫= λ b, [if b =? 39 then 34 else b]) =
  Ok (mkClientDataFields (string_bytes "webauthn.get") (string_bytes "AbC-_") EXPECTED_WEBAUTHN_ORIGIN false).
Proof. vm_compute. reflexivity. Qed.
Example parse_duplicate_type :
  extract_client_data_fields (string_bytes "{'t\u0079pe':'x','type':'y'}" ≫= λ b, [if b =? 39 then 34 else b]) = Err (Json.DuplicateMember "type").
Proof. vm_compute. reflexivity. Qed.
Example parse_surrogates :
  parse_string ([34] ++ string_bytes "\ud83d\ude00" ++ [34; 44]) = SOk [44] [240; 159; 152; 128].
Proof. vm_compute. reflexivity. Qed.
