(* ===== verification/WebAuthnProofs.v ===== *)
(** * WebAuthnProofs: the clientDataJSON parser and the WebAuthn binding

    The parser returns on every input, accepts exactly the JSON texts of an
    object with the members the check needs, however they are spelled, and an
    accepted WebAuthn authorisation binds the message it was made for. *)
From S2P Require Import Prelude Types Order Account Digest Finalize Witness L1Protocol DepositFrontier AccountKeys WebAuthn.

(** ** Termination *)

(** The parser returns, not by exhausting its bound, and a success has read at
    least [k] bytes. *)
Definition runs {A} (k : nat) (m : st Bytes JsonError A) (s : Bytes) : Prop :=
  match m s with
  | SOk s' _ => (length s' + k ≤ length s)%nat
  | SErr _ e => e ≠ Json.OutOfFuel
  | SPanic => False
  end.

Lemma runs_bind {A B} j k (m : st Bytes JsonError A) (f : A → st Bytes JsonError B) s : runs j m s →
  (∀ a s', (length s' + j ≤ length s)%nat → runs k (f a) s') → runs (j + k) (m ≫= f) s.
Proof.
  unfold runs, mbind, st_bind. intros Hm Hf. destruct (m s) as [s' a|s' e|]; [|done..]. specialize (Hf a s' Hm).
  destruct (f a s'); [lia|done..].
Qed.
Lemma runs_le {A} j k (m : st Bytes JsonError A) s : runs k m s → (j ≤ k)%nat → runs j m s.
Proof. unfold runs. destruct (m s); [lia|done..]. Qed.
Lemma runs_then {A B} j (m : st Bytes JsonError A) (f : A → st Bytes JsonError B) s : runs 0 m s →
  (∀ a s', (length s' ≤ length s)%nat → runs j (f a) s') → runs j (m ≫= f) s.
Proof. intros Hm Hf. apply (runs_bind 0 j); [done|]. intros a s' H. apply Hf. lia. Qed.
Lemma runs_mret {A} (a : A) s : runs 0 (mret a) s.
Proof. unfold runs. cbn. lia. Qed.
Lemma runs_sfail {A} k (e : JsonError) s : e ≠ Json.OutOfFuel → runs k (sfail (A := A) e) s.
Proof. done. Qed.
Lemma runs_sget k {B} (f : Bytes → st Bytes JsonError B) s : runs k (f s) s → runs k (sget ≫= f) s.
Proof. done. Qed.
Lemma runs_smodify f s : (length (f s) ≤ length s)%nat → runs 0 (smodify f) s.
Proof. unfold runs. cbn. lia. Qed.
Create HintDb runs.
#[export] Hint Resolve runs_mret : runs.
#[export] Hint Extern 1 (runs _ (sfail _) _) => apply runs_sfail; discriminate : runs.

Lemma drop_while_length p s : (length (drop_while p s) ≤ length s)%nat.
Proof. induction s as [|b s IH]; cbn; [lia|]. destruct (p b); cbn; lia. Qed.
Lemma skip_ws_runs s : runs 0 skip_ws s.
Proof. apply runs_smodify, drop_while_length. Qed.
Lemma digits_runs s : runs 0 (smodify (drop_while is_digit)) s.
Proof. apply runs_smodify, drop_while_length. Qed.
Lemma advance_runs s : runs 0 advance s.
Proof. apply runs_smodify. destruct s; cbn; lia. Qed.
Lemma peek_runs s : runs 0 peek s.
Proof. unfold peek. apply runs_sget. auto with runs. Qed.
Lemma take_byte_runs b s : runs 0 (take_byte b) s.
Proof. unfold take_byte. apply runs_sget. destruct s as [|x s]; [auto with runs|]. destruct (x =? b); [|auto with runs]. unfold runs, mbind, st_bind. cbn. lia. Qed.
Lemma expect_byte_runs b s : runs 1 (expect_byte b) s.
Proof.
  unfold expect_byte, take_byte, runs, mbind, st_bind. cbn. destruct s as [|x s]; cbn; [done|]. destruct (x =? b); cbn; [lia|done].
Qed.
Lemma next_byte_runs e s : e ≠ Json.OutOfFuel → runs 1 (next_byte e) s.
Proof. intros He. unfold next_byte, runs, mbind, st_bind. destruct s; cbn; [done|lia]. Qed.
Lemma expect_literal_runs l s : runs (length l) (expect_literal l) s.
Proof.
  unfold expect_literal. apply runs_sget. case_decide as Hl; [|by apply runs_sfail]. unfold runs. cbn.
  assert (length (take (length l) s) = length l) as H by (by rewrite Hl). rewrite length_take in H. rewrite length_drop. lia.
Qed.
#[export] Hint Resolve skip_ws_runs digits_runs advance_runs peek_runs take_byte_runs expect_byte_runs expect_literal_runs : runs.
#[export] Hint Extern 1 (runs 1 (next_byte _) _) => apply next_byte_runs; discriminate : runs.
#[export] Hint Extern 1 (runs 0 (next_byte _) _) => apply (runs_le 0 1); [apply next_byte_runs; discriminate|lia] : runs.

(** Walk down the binds, keeping the lower bound on what was read. *)
Ltac runs_step := match goal with
  | |- runs _ (sget ≫= _) _ => apply runs_sget; cbv beta
  | |- runs _ (mret _) _ => auto with runs
  | |- runs _ (sfail _) _ => auto with runs
  | |- runs _ (_ ≫= _) _ => apply runs_then; [first [solve [auto with runs] | solve [eapply runs_le; [solve [auto with runs]|lia]] | idtac]|intros]
  | |- runs _ (if ?b then _ else _) _ => destruct b
  | |- runs _ (match ?o with _ => _ end) _ => destruct o
  end.
Ltac runs_walk := repeat runs_step; try solve [auto with runs | eapply runs_le; [solve [auto with runs]|lia]].

Lemma hex_step_runs v s : runs 1 (hex_step v) s.
Proof. unfold hex_step. apply (runs_bind 1 0); [auto with runs|]. intros. runs_walk. Qed.
#[export] Hint Resolve hex_step_runs : runs.
Lemma parse_hex_quad_runs s : runs 0 parse_hex_quad s.
Proof. unfold parse_hex_quad. runs_walk. Qed.
#[export] Hint Resolve parse_hex_quad_runs : runs.
Lemma parse_escape_runs s : runs 0 parse_escape s.
Proof. unfold parse_escape. runs_walk. Qed.
#[export] Hint Resolve parse_escape_runs : runs.

Lemma parse_string_loop_runs fuel : ∀ out s, (length s < fuel)%nat → runs 1 (parse_string_loop fuel out) s.
Proof.
  induction fuel as [|fuel IH]; intros out s Hs; [lia|]. cbn [parse_string_loop]. apply (runs_bind 1 0); [auto with runs|]. intros b s' Hl.
  destruct (b =? 34); [runs_walk|]. destruct (b =? 92).
  - apply runs_then; [auto with runs|]. intros esc s2 H2. eapply runs_le; [apply IH; lia|lia].
  - destruct (b <? 32); [auto with runs|]. eapply runs_le; [apply IH; lia|lia].
Qed.
Lemma parse_string_runs s : runs 2 parse_string s.
Proof. unfold parse_string. apply (runs_bind 1 1); [auto with runs|]. intros [] s' H. apply runs_sget. apply parse_string_loop_runs. lia. Qed.
#[export] Hint Resolve parse_string_runs : runs.
Lemma parse_bool_runs s : runs 0 parse_bool s.
Proof. unfold parse_bool. runs_walk. Qed.
#[export] Hint Resolve parse_bool_runs : runs.

Lemma digits_or_runs e s : e ≠ Json.OutOfFuel → runs 0 (digits_or e) s.
Proof. intros He. unfold digits_or. apply runs_sget. destruct s as [|b s]; [by apply runs_sfail|]. destruct (is_digit b); [auto with runs|by apply runs_sfail]. Qed.
#[export] Hint Extern 1 (runs 0 (digits_or _) _) => apply digits_or_runs; discriminate : runs.
Lemma skip_number_runs s : runs 0 skip_number s.
Proof. unfold skip_number. repeat (apply runs_then; [runs_walk|intros]). runs_walk. Qed.
#[export] Hint Resolve skip_number_runs : runs.

(** Entering a value needs three units of fuel per unread byte. *)
Lemma skip_runs fuel : ∀ depth s,
  ((3 * length s + 2 ≤ fuel)%nat → runs 0 (skip_value fuel depth) s) ∧
  ((3 * length s + 1 ≤ fuel)%nat → runs 0 (skip_object fuel depth) s) ∧
  ((3 * length s + 3 ≤ fuel)%nat → runs 0 (skip_members fuel depth) s) ∧
  ((3 * length s + 1 ≤ fuel)%nat → runs 0 (skip_array fuel depth) s) ∧
  ((3 * length s + 3 ≤ fuel)%nat → runs 0 (skip_elements fuel depth) s).
Proof.
  induction fuel as [|fuel IH]; intros depth s; [split_and!; lia|].
  assert (∀ depth s, (3 * length s + 2 ≤ fuel)%nat → runs 0 (skip_value fuel depth) s) as IV by (intros; by apply IH).
  assert (∀ depth s, (3 * length s + 1 ≤ fuel)%nat → runs 0 (skip_object fuel depth) s) as IO by (intros; by apply IH).
  assert (∀ depth s, (3 * length s + 3 ≤ fuel)%nat → runs 0 (skip_members fuel depth) s) as IM by (intros; by apply IH).
  assert (∀ depth s, (3 * length s + 1 ≤ fuel)%nat → runs 0 (skip_array fuel depth) s) as IA by (intros; by apply IH).
  assert (∀ depth s, (3 * length s + 3 ≤ fuel)%nat → runs 0 (skip_elements fuel depth) s) as IE by (intros; by apply IH).
  split_and!; intros Hf; cbn [skip_value skip_object skip_members skip_array skip_elements].
  - destruct (depth >? MAX_JSON_DEPTH); [auto with runs|]. apply runs_then; [auto with runs|]. intros [] s1 H1.
    apply runs_then; [auto with runs|]. intros first s2 H2. destruct first as [b|]; [|auto with runs].
    destruct (b =? 34); [runs_walk|]. destruct (b =? 123); [apply IO; lia|]. destruct (b =? 91); [apply IA; lia|]. runs_walk.
  - eapply (runs_le 0 1); [|lia]. apply (runs_bind 1 0); [auto with runs|]. intros [] s1 H1. apply runs_then; [auto with runs|]. intros [] s2 H2.
    apply runs_then; [auto with runs|]. intros closed s3 H3. destruct closed; [auto with runs|]. apply IM. lia.
  - eapply (runs_le 0 2); [|lia]. apply (runs_bind 2 0); [auto with runs|]. intros key s1 H1. apply runs_then; [auto with runs|]. intros [] s2 H2.
    apply runs_then; [eapply runs_le; [auto with runs|lia]|]. intros [] s3 H3. apply runs_then; [apply IV; lia|]. intros [] s4 H4.
    apply runs_then; [auto with runs|]. intros [] s5 H5. apply runs_then; [auto with runs|]. intros closed s6 H6. destruct closed; [auto with runs|].
    apply runs_then; [eapply runs_le; [auto with runs|lia]|]. intros [] s7 H7. apply runs_then; [auto with runs|]. intros [] s8 H8. apply IM. lia.
  - eapply (runs_le 0 1); [|lia]. apply (runs_bind 1 0); [auto with runs|]. intros [] s1 H1. apply runs_then; [auto with runs|]. intros [] s2 H2.
    apply runs_then; [auto with runs|]. intros closed s3 H3. destruct closed; [auto with runs|]. apply IE. lia.
  - apply runs_then; [apply IV; lia|]. intros [] s1 H1. apply runs_then; [auto with runs|]. intros [] s2 H2. apply runs_then; [auto with runs|].
    intros closed s3 H3. destruct closed; [auto with runs|]. eapply (runs_le 0 1); [|lia]. apply (runs_bind 1 0); [auto with runs|]. intros [] s4 H4.
    apply runs_then; [auto with runs|]. intros [] s5 H5. apply IE. lia.
Qed.

Lemma skip_one_value_runs s : runs 0 skip_one_value s.
Proof. unfold skip_one_value. apply runs_sget. apply skip_runs. unfold value_fuel. lia. Qed.
#[export] Hint Resolve skip_one_value_runs : runs.

Lemma once_runs {A} name (o : option A) p s : runs 0 p s → runs 0 (once name o p) s.
Proof. intros Hp. unfold once. destruct o; [auto with runs|]. apply runs_then; [done|]. auto with runs. Qed.

Lemma read_member_runs key f s : runs 0 (read_member key f) s.
Proof.
  unfold read_member. repeat case_decide; (apply runs_then; [|auto with runs]); try apply once_runs; eauto using runs_le with runs.
  all: eapply runs_le; [apply parse_string_runs|lia].
Qed.
#[export] Hint Resolve read_member_runs : runs.

Lemma member_loop_runs fuel : ∀ f s, (length s < fuel)%nat → runs 0 (member_loop fuel f) s.
Proof.
  induction fuel as [|fuel IH]; intros f s Hs; [lia|]. cbn [member_loop]. eapply (runs_le 0 2); [|lia]. apply (runs_bind 2 0); [auto with runs|].
  intros key s1 H1. repeat (apply runs_then; [solve [auto with runs | eapply runs_le; [auto with runs|lia]]|intros]).
  match goal with |- runs 0 (if ?b then _ else _) _ => destruct b end; [auto with runs|].
  repeat (apply runs_then; [solve [auto with runs | eapply runs_le; [auto with runs|lia]]|intros]). apply IH. lia.
Qed.

Lemma client_data_parser_runs s : runs 0 client_data_parser s.
Proof.
  unfold client_data_parser. apply runs_then; [auto with runs|]. intros [] s1 H1. apply runs_then; [eapply runs_le; [auto with runs|lia]|]. intros [] s2 H2.
  apply runs_then; [auto with runs|]. intros [] s3 H3. apply runs_then; [auto with runs|]. intros closed s4 H4. destruct closed; [auto with runs|].
  apply runs_sget. apply runs_then; [apply member_loop_runs; lia|]. intros f s5 H5. unfold required. runs_walk.
Qed.

(** C36: the clientDataJSON parser terminates on every input, however nested or
    malformed: with the recursion bounds of the model (the unread length for
    strings and members, three per unread byte for nested values) it always
    returns the fields or one of the code's errors, never runs out of its bound
    and never panics. *)
Theorem client_data_parser_total (bytes : Bytes) :
  (∃ fields, extract_client_data_fields bytes = Ok fields) ∨ (∃ e, extract_client_data_fields bytes = Err e ∧ e ≠ Json.OutOfFuel).
Proof.
  pose proof (client_data_parser_runs bytes) as H. unfold extract_client_data_fields, runs in *.
  destruct (client_data_parser bytes) as [s f|s e|]; [left; eauto|right; eauto|done].
Qed.

(** ** The grammar of JSON texts

    Every spelling the standard allows: blanks at each structural position,
    all escape classes, surrogate pairs, hexadecimal digits in either case and
    both exponent letters.  A text is related to the value it spells. *)

Definition blank (w : Bytes) : Prop := Forall (λ b, is_ws b = true) w.

(** A hexadecimal digit and four of them. *)
Definition hex_value (d n : Z) : Prop := (0 ≤ n < 10 ∧ d = 48 + n) ∨ (10 ≤ n < 16 ∧ (d = 87 + n ∨ d = 55 + n)).
Inductive quad : Z → Bytes → Prop :=
  | quad_digits d1 d2 d3 d4 n1 n2 n3 n4 : hex_value d1 n1 → hex_value d2 n2 → hex_value d3 n3 → hex_value d4 n4 →
      quad (4096 * n1 + 256 * n2 + 16 * n3 + n4) [d1; d2; d3; d4].

(** What may follow a backslash, with the bytes it stands for. *)
Definition short_escapes : list (Z * Z) := [(34, 34); (92, 92); (47, 47); (98, 8); (102, 12); (110, 10); (114, 13); (116, 9)].
Inductive escape : Bytes → Bytes → Prop :=
  | escape_short e b : (e, b) ∈ short_escapes → escape [b] [e]
  | escape_unicode c h : quad c h → ¬ 55296 ≤ c < 57344 → escape (encode_utf8 c) (117 :: h)
  | escape_pair hi lo h1 h2 : quad hi h1 → quad lo h2 → 55296 ≤ hi < 56320 → 56320 ≤ lo < 57344 →
      escape (encode_utf8 (65536 + 1024 * (hi - 55296) + (lo - 56320))) (117 :: h1 ++ [92; 117] ++ h2).

(** A string body, piece by piece, and a quoted string of UTF-8 text. *)
Inductive pieces : Bytes → Bytes → Prop :=
  | pieces_nil : pieces [] []
  | pieces_raw b v t : 32 ≤ b → b ≠ 34 → b ≠ 92 → pieces v t → pieces (b :: v) (b :: t)
  | pieces_escape d e v t : escape d e → pieces v t → pieces (d ++ v) (92 :: e ++ t).
Inductive spells_string : Bytes → Bytes → Prop :=
  | spells_quoted s t : pieces s t → from_utf8 s = true → spells_string s (34 :: t ++ [34]).

(** Values; a number keeps its digits, and its exponent letter and sign. *)
Inductive json :=
  | JNull | JBool (b : bool)
  | JNum (neg : bool) (int : Bytes) (frac : option Bytes) (exp : option (Z * option Z * Bytes))
  | JStr (s : Bytes) | JArr (l : list json) | JObj (l : list (Bytes * json)).

Definition digits (l : Bytes) : Prop := l ≠ [] ∧ Forall (λ b, is_digit b = true) l.
Definition int_ok (int : Bytes) : Prop := int = [48] ∨ ∃ d ds, int = d :: ds ∧ between 49 d 57 = true ∧ Forall (λ b, is_digit b = true) ds.
Definition frac_ok (frac : option Bytes) : Prop := from_option digits True frac.
Definition exp_ok (exp : option (Z * option Z * Bytes)) : Prop :=
  match exp with Some (e, sign, d) => (e = 101 ∨ e = 69) ∧ digits d ∧ from_option (λ c, c = 43 ∨ c = 45) True sign | None => True end.

Definition frac_text (f : option Bytes) : Bytes := match f with Some d => 46 :: d | None => [] end.
Definition exp_text (e : option (Z * option Z * Bytes)) : Bytes :=
  match e with Some (e, sign, d) => e :: match sign with Some c => c :: d | None => d end | None => [] end.
Definition number_text (neg : bool) (int : Bytes) (frac : option Bytes) (exp : option (Z * option Z * Bytes)) : Bytes :=
  (if neg then [45] else []) ++ int ++ frac_text frac ++ exp_text exp.

(** [array_body] and [object_body] run up to the closing bracket. *)
Inductive spells : json → Bytes → Prop :=
  | spells_null : spells JNull (string_bytes "null")
  | spells_bool (b : bool) : spells (JBool b) (string_bytes (if b then "true" else "false"))
  | spells_num neg int frac exp : int_ok int → frac_ok frac → exp_ok exp → spells (JNum neg int frac exp) (number_text neg int frac exp)
  | spells_str s t : spells_string s t → spells (JStr s) t
  | spells_arr_empty w : blank w → spells (JArr []) (91 :: w ++ [93])
  | spells_arr w l t : blank w → array_body l t → spells (JArr l) (91 :: w ++ t)
  | spells_obj_empty w : blank w → spells (JObj []) (123 :: w ++ [125])
  | spells_obj w l t : blank w → object_body l t → spells (JObj l) (123 :: w ++ t)
with array_body : list json → Bytes → Prop :=
  | array_body_last j t w : spells j t → blank w → array_body [j] (t ++ w ++ [93])
  | array_body_cons j t w w' l tl : spells j t → blank w → blank w' → array_body l tl → array_body (j :: l) (t ++ w ++ 44 :: w' ++ tl)
with object_body : list (Bytes * json) → Bytes → Prop :=
  | object_body_last e t w : member e t → blank w → object_body [e] (t ++ w ++ [125])
  | object_body_cons e t w w' l tl : member e t → blank w → blank w' → object_body l tl → object_body (e :: l) (t ++ w ++ 44 :: w' ++ tl)
with member : Bytes * json → Bytes → Prop :=
  | member_pair k j tk w w' t : spells_string k tk → blank w → blank w' → spells j t → member (k, j) (tk ++ w ++ 58 :: w' ++ t).

Scheme spells_mut := Induction for spells Sort Prop
  with array_body_mut := Induction for array_body Sort Prop
  with object_body_mut := Induction for object_body Sort Prop
  with member_mut := Induction for member Sort Prop.
Combined Scheme spells_mutind from spells_mut, array_body_mut, object_body_mut, member_mut.

(** A whole text: one object with members, blanks around it. *)
Inductive document : list (Bytes * json) → Bytes → Prop :=
  | document_object ms w w' t w'' : blank w → blank w' → object_body ms t → blank w'' → document ms (w ++ 123 :: w' ++ t ++ w'').

(** How deep values nest: a scalar is one level. *)
Fixpoint height (j : json) : Z :=
  match j with
  | JArr l => 1 + foldr Z.max 0 (height <$> l)
  | JObj l => 1 + foldr Z.max 0 ((λ e, height e.2) <$> l)
  | _ => 1
  end.
Definition fits (depth : Z) (j : json) : Prop := depth + height j ≤ MAX_JSON_DEPTH + 1.

(** ** Elementary parsers, read both ways *)

Lemma next_byte_cons e b s : next_byte e (b :: s) = SOk s b.
Proof. done. Qed.
Lemma take_byte_hit b s : take_byte b (b :: s) = SOk s true.
Proof. unfold take_byte. rewrite sget_bind, Z.eqb_refl. done. Qed.
Lemma take_byte_miss b c s : c ≠ b → take_byte b (c :: s) = SOk (c :: s) false.
Proof. intros H. unfold take_byte. by rewrite sget_bind, (proj2 (Z.eqb_neq _ _) H). Qed.
Lemma expect_byte_cons b s : expect_byte b (b :: s) = SOk s ().
Proof. unfold expect_byte. by rewrite (sbind_SOk _ _ _ _ _ (take_byte_hit b s)). Qed.
Lemma peek_bind {B} (f : option Z → st Bytes JsonError B) s : (peek ≫= f) s = f (head s) s.
Proof. done. Qed.
Lemma advance_bind {B} (f : unit → st Bytes JsonError B) b s : (advance ≫= f) (b :: s) = f () s.
Proof. done. Qed.

Ltac eat := repeat first
  [ rewrite (sbind_SOk _ _ _ _ _ (next_byte_cons _ _ _))
  | rewrite (sbind_SOk _ _ _ _ _ (expect_byte_cons _ _))
  | rewrite (sbind_SOk _ _ _ _ _ (take_byte_hit _ _))
  | rewrite sget_bind | rewrite smret_bind ].

Lemma next_byte_inv e s r b : next_byte e s = SOk r b → s = b :: r.
Proof. unfold next_byte. destruct s; cbn; [done|]. by intros [= -> ->]. Qed.
Lemma take_byte_inv b s r t : take_byte b s = SOk r t → s = if (t : bool) then b :: r else r.
Proof.
  unfold take_byte. rewrite sget_bind. destruct s as [|c s]; [by intros [= <- <-]|]. destruct (Z.eqb_spec c b) as [->|]; by intros [= <- <-].
Qed.
Lemma expect_byte_inv b s r u : expect_byte b s = SOk r u → s = b :: r.
Proof. unfold expect_byte. intros (s1 & t & ->%take_byte_inv & H)%sbind_SOk_inv. destruct t; [|done]. by injection H as ->. Qed.
Lemma drop_while_split p s : ∃ w, s = w ++ drop_while p s ∧ Forall (λ b, p b = true) w.
Proof.
  induction s as [|b s (w & E & Hw)]; [by exists []|]. cbn. destruct (p b) eqn:Hp; [|by exists []].
  exists (b :: w). split; [by rewrite E at 1|by constructor].
Qed.
Lemma skip_ws_inv s r u : skip_ws s = SOk r u → ∃ w, s = w ++ r ∧ blank w.
Proof. intros [= <- _]. apply drop_while_split. Qed.
Lemma drop_while_app p w rest : Forall (λ b, p b = true) w → (∀ b, head rest = Some b → p b = false) → drop_while p (w ++ rest) = rest.
Proof.
  induction 1 as [|b w Hb _ IH]; intros Hr; cbn; [|rewrite Hb; by apply IH]. destruct rest as [|b rest]; [done|]. cbn. by rewrite (Hr b eq_refl).
Qed.
Lemma skip_blank {B} (f : unit → st Bytes JsonError B) w b s : blank w → is_ws b = false → (skip_ws ≫= f) (w ++ b :: s) = f () (b :: s).
Proof. intros Hw Hb. unfold skip_ws. rewrite smodify_bind, drop_while_app; [done|done|]. by intros ? [= <-]. Qed.
Lemma expect_literal_app l rest : expect_literal l (l ++ rest) = SOk rest ().
Proof. unfold expect_literal. rewrite sget_bind, decide_True by (by rewrite take_app_length). unfold smodify. by rewrite drop_app_length. Qed.
Lemma expect_literal_inv l s r u : expect_literal l s = SOk r u → s = l ++ r.
Proof. unfold expect_literal. rewrite sget_bind. case_decide as E; [|done]. intros [= <- _]. rewrite <- (take_drop (length l) s) at 1. by rewrite E. Qed.

(** ** Strings *)

Lemma hex_nibble_exact d n : hex_nibble d = Some n ↔ hex_value d n.
Proof.
  unfold hex_nibble, hex_value, between. destruct (Z.leb_spec 48 d), (Z.leb_spec d 57), (Z.leb_spec 97 d), (Z.leb_spec d 102), (Z.leb_spec 65 d), (Z.leb_spec d 70);
    cbn; first [lia|split; [first [discriminate|intros [= <-]; lia]|intros; first [exfalso; lia|f_equal; lia]]].
Qed.
Lemma hex_value_range d n : hex_value d n → 0 ≤ n < 16.
Proof. unfold hex_value. lia. Qed.

Lemma low_bits a n k : 0 < k → 0 ≤ n < 2 ^ k → Z.lor (Z.shiftl a k) n = 2 ^ k * a + n.
Proof.
  intros Hk Hn. rewrite Z.shiftl_mul_pow2 by lia. rewrite <- Z.add_nocarry_lor; [lia|].
  apply Z.bits_inj'. intros i Hi. rewrite Z.land_spec, Z.bits_0. destruct (Z.ltb_spec i k).
  - by rewrite (Z.mul_pow2_bits_low a k i) by lia.
  - rewrite (Z.bits_above_log2 n i); [apply andb_false_r|lia|]. destruct (decide (n = 0)) as [->|]; [cbn; lia|].
    apply Z.log2_lt_pow2; [lia|]. assert (2 ^ k ≤ 2 ^ i) by (apply Z.pow_le_mono_r; lia). lia.
Qed.

Lemma hex_step_exact v s r c : 0 ≤ v < 4096 → hex_step v s = SOk r c ↔ ∃ d n, s = d :: r ∧ hex_value d n ∧ c = 16 * v + n.
Proof.
  intros Hv. assert (∀ n, 0 ≤ n < 16 → Z.lor (Z.shiftl v 4 mod 65536) n = 16 * v + n) as Hlor.
  { intros n Hn. rewrite Z.mod_small by (rewrite Z.shiftl_mul_pow2 by lia; change (2 ^ 4) with 16; lia). by rewrite low_bits by lia. }
  unfold hex_step. split.
  - intros (s1 & d & ->%next_byte_inv & H)%sbind_SOk_inv. destruct (hex_nibble d) as [n|] eqn:E; [|done]. injection H as -> <-.
    apply hex_nibble_exact in E. exists d, n. split_and!; [done..|]. apply Hlor. by eapply hex_value_range.
  - intros (d & n & -> & Hd & ->). eat. rewrite (proj2 (hex_nibble_exact d n) Hd). unfold mret, st_ret. by rewrite Hlor by (by eapply hex_value_range).
Qed.

Lemma parse_hex_quad_exact s r c : parse_hex_quad s = SOk r c ↔ ∃ h, s = h ++ r ∧ quad c h.
Proof.
  unfold parse_hex_quad. split.
  - intros (s1 & v1 & (d1 & n1 & -> & X1 & ->)%hex_step_exact & H)%sbind_SOk_inv; [|lia]. pose proof (hex_value_range _ _ X1).
    apply sbind_SOk_inv in H as (s2 & v2 & (d2 & n2 & -> & X2 & ->)%hex_step_exact & H); [|lia]. pose proof (hex_value_range _ _ X2).
    apply sbind_SOk_inv in H as (s3 & v3 & (d3 & n3 & -> & X3 & ->)%hex_step_exact & H); [|lia]. pose proof (hex_value_range _ _ X3).
    apply hex_step_exact in H as (d4 & n4 & -> & X4 & ->); [|lia]. exists [d1; d2; d3; d4]. split; [done|].
    replace (16 * _ + n4) with (4096 * n1 + 256 * n2 + 16 * n3 + n4) by lia. by constructor.
  - intros (h & -> & Hq). destruct Hq as [d1 d2 d3 d4 n1 n2 n3 n4 X1 X2 X3 X4]. cbn [app].
    pose proof (hex_value_range _ _ X1). pose proof (hex_value_range _ _ X2). pose proof (hex_value_range _ _ X3).
    rewrite (sbind_SOk _ _ _ _ _ (proj2 (hex_step_exact 0 _ _ (16 * 0 + n1) ltac:(lia)) (ex_intro _ d1 (ex_intro _ n1 (conj eq_refl (conj X1 eq_refl)))))).
    rewrite (sbind_SOk _ _ _ _ _ (proj2 (hex_step_exact (16 * 0 + n1) _ _ _ ltac:(lia)) (ex_intro _ d2 (ex_intro _ n2 (conj eq_refl (conj X2 eq_refl)))))).
    rewrite (sbind_SOk _ _ _ _ _ (proj2 (hex_step_exact (16 * (16 * 0 + n1) + n2) _ _ _ ltac:(lia)) (ex_intro _ d3 (ex_intro _ n3 (conj eq_refl (conj X3 eq_refl)))))).
    apply hex_step_exact; [lia|]. exists d4, n4. split_and!; [done|done|lia].
Qed.

Lemma short_escape_loop e b s : (e, b) ∈ short_escapes → parse_escape (e :: s) = SOk s [b].
Proof. intros H. unfold short_escapes in H. repeat (apply elem_of_cons in H as [[= -> ->]|H]; [reflexivity|]). by apply not_elem_of_nil in H. Qed.

Lemma scalar_some c : 0 ≤ c < 1114112 → ¬ 55296 ≤ c < 57344 → char_from_u32 c = Some c.
Proof.
  intros Hc Hs. unfold char_from_u32, between. rewrite (proj2 (Z.leb_le 0 c)), (proj2 (Z.ltb_lt c 1114112)) by lia. cbn [andb].
  destruct (Z.leb_spec 55296 c), (Z.leb_spec c 57343); cbn; [lia|done..].
Qed.
Lemma quad_range c h : quad c h → 0 ≤ c < 65536.
Proof.
  intros [d1 d2 d3 d4 n1 n2 n3 n4 X1 X2 X3 X4]. pose proof (hex_value_range _ _ X1). pose proof (hex_value_range _ _ X2).
  pose proof (hex_value_range _ _ X3). pose proof (hex_value_range _ _ X4). lia.
Qed.
Lemma between_spec lo b hi : between lo b hi = true ↔ lo ≤ b ≤ hi.
Proof. unfold between. rewrite andb_true_iff, !Z.leb_le. done. Qed.
Lemma between_false lo b hi : between lo b hi = false ↔ ¬ lo ≤ b ≤ hi.
Proof. rewrite <- between_spec, not_true_iff_false. done. Qed.

(** The code point of a [\u] escape, with the second half of a pair. *)
Lemma parse_escape_complete d t r : escape d t → parse_escape (t ++ r) = SOk r d.
Proof.
  destruct 1 as [e b H|c h Hq Hc|hi lo h1 h2 H1 H2 Hhi Hlo].
  - by apply short_escape_loop.
  - cbn [app]. pose proof (quad_range c h Hq). unfold parse_escape. eat. cbn [Z.eqb Pos.eqb orb].
    rewrite (sbind_SOk _ _ _ _ _ (proj2 (parse_hex_quad_exact (h ++ r) r c) (ex_intro _ h (conj eq_refl Hq)))).
    rewrite (proj2 (between_false 55296 c 56319)), (proj2 (between_false 56320 c 57343)) by lia. eat. by rewrite scalar_some by lia.
  - cbn [app]. rewrite <- (assoc_L (++)). cbn [app]. unfold parse_escape. eat. cbn [Z.eqb Pos.eqb orb].
    rewrite (sbind_SOk _ _ _ _ _ (proj2 (parse_hex_quad_exact (h1 ++ 92 :: 117 :: h2 ++ r) _ hi) (ex_intro _ h1 (conj eq_refl H1)))).
    rewrite (proj2 (between_spec 55296 hi 56319)) by lia. unfold mbind at 1, st_bind at 1. eat.
    rewrite (sbind_SOk _ _ _ _ _ (proj2 (parse_hex_quad_exact (h2 ++ r) r lo) (ex_intro _ h2 (conj eq_refl H2)))).
    rewrite (proj2 (between_spec 56320 lo 57343)) by lia. cbn [negb]. unfold mret, st_ret.
    rewrite low_bits by lia. change (2 ^ 10) with 1024. rewrite scalar_some by lia. by rewrite Z.add_assoc.
Qed.

Lemma parse_escape_sound s r d : parse_escape s = SOk r d → ∃ t, s = t ++ r ∧ escape d t.
Proof.
  unfold parse_escape. intros (s1 & e & ->%next_byte_inv & H)%sbind_SOk_inv.
  assert (∀ b, (e, b) ∈ short_escapes → (mret [b] : st Bytes JsonError Bytes) s1 = SOk r d → ∃ t, e :: s1 = t ++ r ∧ escape d t) as Hshort.
  { intros b Hb [= -> <-]. exists [e]. split; [done|]. by constructor. }
  destruct (Z.eqb_spec e 34) as [E34|E34]; [apply (Hshort e); [rewrite E34; apply (bool_decide_unpack _); reflexivity|exact H]|].
  destruct (Z.eqb_spec e 92) as [E92|E92]; [apply (Hshort e); [rewrite E92; apply (bool_decide_unpack _); reflexivity|exact H]|].
  destruct (Z.eqb_spec e 47) as [E47|E47]; [apply (Hshort e); [rewrite E47; apply (bool_decide_unpack _); reflexivity|exact H]|]. cbn [orb] in H.
  destruct (Z.eqb_spec e 98) as [E98|E98]; [apply (Hshort 8); [rewrite E98; apply (bool_decide_unpack _); reflexivity|exact H]|].
  destruct (Z.eqb_spec e 102) as [E102|E102]; [apply (Hshort 12); [rewrite E102; apply (bool_decide_unpack _); reflexivity|exact H]|].
  destruct (Z.eqb_spec e 110) as [E110|E110]; [apply (Hshort 10); [rewrite E110; apply (bool_decide_unpack _); reflexivity|exact H]|].
  destruct (Z.eqb_spec e 114) as [E114|E114]; [apply (Hshort 13); [rewrite E114; apply (bool_decide_unpack _); reflexivity|exact H]|].
  destruct (Z.eqb_spec e 116) as [E116|E116]; [apply (Hshort 9); [rewrite E116; apply (bool_decide_unpack _); reflexivity|exact H]|].
  clear Hshort. destruct (Z.eqb_spec e 117) as [E117|]; [|done]. subst e.
  apply sbind_SOk_inv in H as (s2 & c & (h & -> & Hq)%parse_hex_quad_exact & H). pose proof (quad_range c h Hq).
  apply sbind_SOk_inv in H as (s3 & v & Hv & H). destruct (between 55296 c 56319) eqn:Hhi.
  - apply between_spec in Hhi. apply sbind_SOk_inv in Hv as (s4 & u & ->%expect_byte_inv & Hv).
    apply sbind_SOk_inv in Hv as (s5 & u' & ->%expect_byte_inv & Hv). apply sbind_SOk_inv in Hv as (s6 & lo & (h2 & -> & Hlo)%parse_hex_quad_exact & Hv).
    destruct (between 56320 lo 57343) eqn:Hb; [|done]. apply between_spec in Hb. cbn in Hv. injection Hv as -> <-.
    rewrite low_bits in H by lia. change (2 ^ 10) with 1024 in H. rewrite scalar_some in H by lia. injection H as -> <-.
    exists (117 :: h ++ [92; 117] ++ h2). split; [cbn [app]; by rewrite <- (assoc_L (++))|]. rewrite Z.add_assoc. by constructor; [..|lia|lia].
  - apply between_false in Hhi. destruct (between 56320 c 57343) eqn:Hb; [done|]. apply between_false in Hb. injection Hv as -> <-.
    rewrite scalar_some in H by lia. injection H as -> <-. exists (117 :: h). split; [done|]. constructor; [done|lia].
Qed.

Lemma string_loop_complete v t : pieces v t → ∀ fuel out rest, (length t < fuel)%nat → from_utf8 (out ++ v) = true →
  parse_string_loop fuel out (t ++ 34 :: rest) = SOk rest (out ++ v).
Proof.
  induction 1 as [|b v t Hb H34 H92 Hp IH|d e v t He Hp IH]; intros [|fuel] out rest Hf Hu; try lia; cbn [parse_string_loop app]; eat.
  - rewrite app_nil_r in *. cbn. by rewrite Hu.
  - rewrite (proj2 (Z.eqb_neq _ _) H34), (proj2 (Z.eqb_neq _ _) H92), (proj2 (Z.ltb_ge b 32)) by lia.
    rewrite IH; [by rewrite <- (assoc_L (++))|cbn in Hf; lia|by rewrite <- (assoc_L (++))].
  - change (92 =? 34) with false. change (92 =? 92) with true. cbn iota. rewrite <- (assoc_L (++)).
    rewrite (sbind_SOk _ _ _ _ _ (parse_escape_complete d e _ He)). cbn [length] in Hf. rewrite length_app in Hf.
    rewrite IH; [by rewrite <- (assoc_L (++))|lia|by rewrite <- (assoc_L (++))].
Qed.

Lemma string_loop_sound fuel : ∀ out s r u, parse_string_loop fuel out s = SOk r u →
  ∃ v t, s = t ++ 34 :: r ∧ pieces v t ∧ u = out ++ v ∧ from_utf8 u = true.
Proof.
  induction fuel as [|fuel IH]; intros out s r u H; [done|]. cbn [parse_string_loop] in H.
  apply sbind_SOk_inv in H as (s1 & b & ->%next_byte_inv & H). destruct (Z.eqb_spec b 34) as [H34|H34].
  { subst b. destruct (from_utf8 out) eqn:Hu; [|done]. injection H as -> <-. exists [], []. rewrite app_nil_r. split_and!; [done|constructor|done..]. }
  destruct (Z.eqb_spec b 92) as [H92|H92].
  - subst b. apply sbind_SOk_inv in H as (s2 & d & (e & -> & He)%parse_escape_sound & H). apply IH in H as (v & t & -> & Hp & -> & Hu).
    exists (d ++ v), (92 :: e ++ t). split_and!; [cbn [app]; by rewrite <- (assoc_L (++))|by constructor|by rewrite (assoc_L (++))|done].
  - destruct (Z.ltb_spec b 32); [done|]. apply IH in H as (v & t & -> & Hp & -> & Hu).
    exists (b :: v), (b :: t). split_and!; [done|by constructor|by rewrite <- (assoc_L (++))|done].
Qed.

Lemma parse_string_exact s r v : parse_string s = SOk r v ↔ ∃ t, s = t ++ r ∧ spells_string v t.
Proof.
  unfold parse_string. split.
  - intros (s1 & u & ->%expect_byte_inv & H)%sbind_SOk_inv. rewrite sget_bind in H. apply string_loop_sound in H as (v' & t & -> & Hp & -> & Hu).
    exists (34 :: t ++ [34]). split; [cbn [app]; by rewrite <- (assoc_L (++))|by constructor].
  - intros (t & -> & Ht). destruct Ht as [v t Hp Hu]. cbn [app]. rewrite <- (assoc_L (++)). cbn [app]. eat.
    apply (string_loop_complete v t Hp); [rewrite length_app; cbn [length]; lia|done].
Qed.
Lemma parse_spelled v t r : spells_string v t → parse_string (t ++ r) = SOk r v.
Proof. intros H. apply parse_string_exact. eauto. Qed.

(** ** Numbers *)

(** What follows a value: a comma, a closing bracket or a blank. *)
Definition stop (b : Z) : bool := is_ws b || (b =? 44) || (b =? 93) || (b =? 125).
Definition ends (rest : Bytes) : Prop := from_option (λ b, stop b = true) True (head rest).

Lemma stop_inv b : stop b = true → b = 32 ∨ b = 10 ∨ b = 13 ∨ b = 9 ∨ b = 44 ∨ b = 93 ∨ b = 125.
Proof. unfold stop, is_ws. rewrite !orb_true_iff, !Z.eqb_eq. lia. Qed.
Lemma ends_blank w b rest : blank w → stop b = true → ends (w ++ b :: rest).
Proof. intros [|c w' Hc _] Hb; cbn; [done|]. unfold stop. by rewrite Hc. Qed.

Definition skip_exponent : st Bytes JsonError unit :=
  e ← peek;
  match e with
  | Some b =>
      if (b =? 101) || (b =? 69) then
        advance;;
        sign ← peek;
        match sign with Some c => if (c =? 43) || (c =? 45) then advance else mret () | None => mret () end;;
        digits_or Json.InvalidExponent
      else mret ()
  | None => mret ()
  end.

Lemma digits_or_app e d rest : digits d → (∀ b, head rest = Some b → is_digit b = false) → digits_or e (d ++ rest) = SOk rest ().
Proof.
  intros [Hne Hds] Hr. destruct d as [|b d]; [done|]. unfold digits_or. rewrite sget_bind. cbn [app]. pose proof Hds as [Hb _]%Forall_cons. rewrite Hb.
  unfold smodify. f_equal. by apply (drop_while_app is_digit (b :: d)).
Qed.
Lemma digits_or_inv e s r u : digits_or e s = SOk r u → ∃ d, s = d ++ r ∧ digits d.
Proof.
  unfold digits_or. rewrite sget_bind. destruct s as [|b s]; [done|]. destruct (is_digit b) eqn:Hb; [|done]. intros [= <- _].
  destruct (drop_while_split is_digit (b :: s)) as (w & E & Hw). exists w. cbn [drop_while] in *. rewrite Hb in *. split; [done|]. split; [|done].
  intros ->. cbn in E. apply (f_equal length) in E. pose proof (drop_while_length is_digit s). cbn in E. lia.
Qed.
Lemma ends_no_digit rest b : ends rest → head rest = Some b → is_digit b = false ∧ b ≠ 46 ∧ b ≠ 101 ∧ b ≠ 69.
Proof. unfold ends. intros H E. rewrite E in H. apply stop_inv in H as [->|[->|[->|[->|[->|[->| ->]]]]]]; done. Qed.

Lemma digit_range b : is_digit b = true ↔ 48 ≤ b ≤ 57.
Proof. apply between_spec. Qed.

Lemma skip_exponent_app exp rest : exp_ok exp → ends rest → skip_exponent (exp_text exp ++ rest) = SOk rest ().
Proof.
  intros He Hr. assert (∀ b, head rest = Some b → is_digit b = false) as Hnd by (intros b Hb; by destruct (ends_no_digit rest b Hr Hb)).
  unfold skip_exponent. rewrite peek_bind. destruct exp as [[[e sign] d]|]; cbn [exp_text app head].
  - destruct He as (He & Hd & Hs). assert ((e =? 101) || (e =? 69) = true) as -> by (destruct He as [->| ->]; done). rewrite advance_bind, peek_bind.
    destruct sign as [c|]; cbn [app head].
    + assert ((c =? 43) || (c =? 45) = true) as -> by (destruct Hs as [->| ->]; done). rewrite advance_bind. by apply digits_or_app.
    + destruct d as [|b d]; [by destruct Hd|]. pose proof Hd as [_ [Hb%digit_range _]%Forall_cons]. cbn [app head].
      assert ((b =? 43) || (b =? 45) = false) as -> by (rewrite !(proj2 (Z.eqb_neq _ _)) by lia; done).
      rewrite smret_bind. by apply (digits_or_app _ (b :: d)).
  - destruct rest as [|b rest]; [done|]. cbn [head]. destruct (ends_no_digit _ b Hr eq_refl) as (_ & _ & H1 & H2).
    by rewrite (proj2 (Z.eqb_neq _ _) H1), (proj2 (Z.eqb_neq _ _) H2).
Qed.
Lemma skip_exponent_inv s r u : skip_exponent s = SOk r u → ∃ exp, s = exp_text exp ++ r ∧ exp_ok exp.
Proof.
  unfold skip_exponent. rewrite peek_bind. destruct s as [|e s]; cbn [head]; [intros [= <- _]; by exists None|].
  destruct ((e =? 101) || (e =? 69)) eqn:He; [|intros [= <- _]; by exists None]. rewrite advance_bind, peek_bind.
  apply orb_true_iff in He. rewrite !Z.eqb_eq in He. destruct s as [|c s]; [done|]. cbn [head].
  destruct ((c =? 43) || (c =? 45)) eqn:Hc.
  - rewrite advance_bind. intros (d & -> & Hd)%digits_or_inv. exists (Some (e, Some c, d)). split; [done|]. apply orb_true_iff in Hc. rewrite !Z.eqb_eq in Hc. done.
  - rewrite smret_bind. intros (d & -> & Hd)%digits_or_inv. exists (Some (e, None, d)). done.
Qed.

Definition number_tail : st Bytes JsonError unit :=
  dot ← take_byte 46;
  (if (dot : bool) then digits_or Json.InvalidFraction else mret ());;
  skip_exponent.

Lemma exp_text_head exp rest b : exp_ok exp → ends rest → head (exp_text exp ++ rest) = Some b → is_digit b = false ∧ b ≠ 46.
Proof.
  intros He Hr H. destruct exp as [[[e sign] d]|]; cbn in H; [injection H as <-; by destruct He as [[->| ->] _]|].
  destruct (ends_no_digit rest b Hr H) as (? & ? & _). done.
Qed.
Lemma number_tail_app frac exp rest : frac_ok frac → exp_ok exp → ends rest → number_tail (frac_text frac ++ exp_text exp ++ rest) = SOk rest ().
Proof.
  intros Hf He Hr. unfold number_tail. pose proof (λ b, exp_text_head exp rest b He Hr) as Hx. destruct frac as [d|]; cbn [frac_text app].
  - eat. rewrite (sbind_SOk _ _ _ _ _ (digits_or_app _ d _ Hf (λ b H, proj1 (Hx b H)))). by apply skip_exponent_app.
  - assert (take_byte 46 (exp_text exp ++ rest) = SOk (exp_text exp ++ rest) false) as Ht.
    { destruct (exp_text exp ++ rest) as [|b s]; [done|]. apply take_byte_miss. by destruct (Hx b eq_refl). }
    rewrite (sbind_SOk _ _ _ _ _ Ht), smret_bind. by apply skip_exponent_app.
Qed.
Lemma number_tail_inv s r u : number_tail s = SOk r u → ∃ frac exp, s = frac_text frac ++ exp_text exp ++ r ∧ frac_ok frac ∧ exp_ok exp.
Proof.
  unfold number_tail. intros (s1 & dot & ->%take_byte_inv & H)%sbind_SOk_inv. apply sbind_SOk_inv in H as (s2 & u' & Hf & (exp & -> & He)%skip_exponent_inv).
  destruct dot.
  - apply digits_or_inv in Hf as (d & -> & Hd). by exists (Some d), exp.
  - injection Hf as ->. by exists None, exp.
Qed.

Lemma skip_number_app neg int frac exp rest : int_ok int → frac_ok frac → exp_ok exp → ends rest →
  skip_number (number_text neg int frac exp ++ rest) = SOk rest ().
Proof.
  intros Hi Hf He Hr. unfold number_text. rewrite <- !(assoc_L (++)). set (tl := frac_text frac ++ exp_text exp ++ rest).
  assert (take_byte 45 ((if neg then [45] else []) ++ int ++ tl) = SOk (int ++ tl) neg) as Ht.
  { destruct neg; cbn [app]; [apply take_byte_hit|]. destruct Hi as [->|(d & ds & -> & Hb%between_spec & _)]; cbn [app]; apply take_byte_miss; lia. }
  unfold skip_number. rewrite (sbind_SOk _ _ _ _ _ Ht), peek_bind.
  match goal with |- (?m ;; _) ?s = _ => assert (m s = SOk tl ()) as Hm end.
  { destruct Hi as [->|(d & ds & -> & Hb & Hds)]; [done|]. cbn [app head]. pose proof Hb as Hb'%between_spec. rewrite (proj2 (Z.eqb_neq d 48)) by lia.
    rewrite Hb, advance_bind. unfold smodify. f_equal. apply drop_while_app; [done|]. intros b H.
    subst tl. destruct frac as [f|]; cbn in H; [by injection H as <-|]. by destruct (exp_text_head exp rest b He Hr H). }
  rewrite (sbind_SOk _ _ _ _ _ Hm). by apply number_tail_app.
Qed.
Lemma skip_number_inv s r u : skip_number s = SOk r u →
  ∃ neg int frac exp, s = number_text neg int frac exp ++ r ∧ int_ok int ∧ frac_ok frac ∧ exp_ok exp.
Proof.
  unfold skip_number. intros (s1 & neg & ->%take_byte_inv & H)%sbind_SOk_inv. rewrite peek_bind in H. apply sbind_SOk_inv in H as (s2 & u' & Hi & H).
  apply number_tail_inv in H as (frac & exp & -> & Hf & He). set (tl := frac_text frac ++ exp_text exp ++ r) in *.
  assert (∃ int, s1 = int ++ tl ∧ int_ok int) as (int & -> & Hint).
  { destruct s1 as [|b s1]; [done|]. cbn [head] in Hi. destruct (Z.eqb_spec b 48) as [E|].
    - injection Hi as ->. exists [48]. split; [by rewrite E|by left].
    - destruct (between 49 b 57) eqn:Hb; [|done]. rewrite advance_bind in Hi. injection Hi as Hi. destruct (drop_while_split is_digit s1) as (w & E & Hw).
      rewrite Hi in E. exists (b :: w). split; [by rewrite E|]. right. eauto. }
  exists neg, int, frac, exp. split; [|done]. unfold number_text. rewrite <- !(assoc_L (++)). by destruct neg.
Qed.

(** ** Skipped values *)

Lemma foldr_max_le l k : 0 ≤ k → Forall (λ x, x ≤ k) l ↔ foldr Z.max 0 l ≤ k.
Proof. intros Hk. induction l as [|x l IH]; cbn; [split; [lia|constructor]|]. rewrite Forall_cons, IH. lia. Qed.
Lemma fits_list {A} (f : A → json) depth l : depth ≤ MAX_JSON_DEPTH →
  depth + (1 + foldr Z.max 0 ((λ x, height (f x)) <$> l)) ≤ MAX_JSON_DEPTH + 1 ↔ Forall (λ x, fits (depth + 1) (f x)) l.
Proof.
  intros Hd. transitivity (foldr Z.max 0 ((λ x, height (f x)) <$> l) ≤ MAX_JSON_DEPTH - depth); [lia|].
  rewrite <- foldr_max_le, Forall_fmap by lia. unfold fits. split; intros HF; (eapply Forall_impl; [exact HF|]); cbn; intros; lia.
Qed.
Lemma height_pos j : 1 ≤ height j.
Proof.
  destruct j as [|?|? ? ? ?|?|l|l]; cbn [height]; try lia; match goal with |- context [foldr Z.max 0 ?l] => assert (0 ≤ foldr Z.max 0 l) by (induction l; cbn; lia) end; lia.
Qed.

(** Where a value, a string, a member starts. *)
Lemma string_head k t : spells_string k t → ∃ s, t = 34 :: s.
Proof. destruct 1. eauto. Qed.
Lemma spells_head j t : spells j t → ∃ b s, t = b :: s ∧ is_ws b = false ∧ b ≠ 93.
Proof.
  destruct 1 as [|[]|neg int frac exp Hi _ _|s t [t' ->]%string_head|w|w l t|w|w l t]; try (eexists _, _; split_and!; [reflexivity|done..]).
  unfold number_text. destruct neg; cbn [app]; [eexists _, _; split_and!; [reflexivity|done..]|].
  destruct Hi as [->|(d & ds & -> & Hb%between_spec & _)]; cbn [app]; (eexists _, _; split_and!; [reflexivity|..]); try done; [|lia].
  unfold is_ws. by rewrite !(proj2 (Z.eqb_neq _ _)) by lia.
Qed.
Lemma array_body_head l t : array_body l t → ∃ b s, t = b :: s ∧ is_ws b = false ∧ b ≠ 93.
Proof. destruct 1 as [j t w Hj|j t w w' l tl Hj]; destruct (spells_head _ _ Hj) as (b & s & -> & ?); by eexists b, _. Qed.
Lemma object_body_head l t : object_body l t → ∃ s, t = 34 :: s.
Proof. destruct 1 as [e t w Hm|e t w w' l tl Hm]; destruct Hm as [k j tk w1 w2 tj Hk]; destruct (string_head _ _ Hk) as [s ->]; eauto. Qed.

(** After an item: the closing byte, or a comma and the next item. *)
Definition continue {A} (close : Z) (a : A) (next : st Bytes JsonError A) : st Bytes JsonError A :=
  skip_ws;; closed ← take_byte close; if (closed : bool) then mret a else expect_byte 44;; skip_ws;; next.
Lemma continue_close {A} close (a : A) next w rest : blank w → is_ws close = false → continue close a next (w ++ close :: rest) = SOk rest a.
Proof. intros Hw Hc. unfold continue. rewrite skip_blank by done. by eat. Qed.
Lemma continue_comma {A} close (a : A) next w w' b s : blank w → blank w' → close ≠ 44 → is_ws b = false →
  continue close a next (w ++ 44 :: w' ++ b :: s) = next (b :: s).
Proof.
  intros Hw Hw' Hc Hb. unfold continue. rewrite skip_blank by done. rewrite (sbind_SOk _ _ _ _ _ (take_byte_miss close 44 _ ltac:(lia))). eat.
  by rewrite skip_blank by done.
Qed.
Lemma continue_inv {A} close (a : A) next s r u : continue close a next s = SOk r u →
  ∃ w, blank w ∧ (s = w ++ close :: r ∧ u = a ∨ ∃ w' s', s = w ++ 44 :: w' ++ s' ∧ blank w' ∧ next s' = SOk r u).
Proof.
  unfold continue. intros (s1 & ? & (w & -> & Hw)%skip_ws_inv & H)%sbind_SOk_inv. exists w. split; [done|].
  apply sbind_SOk_inv in H as (s2 & closed & ->%take_byte_inv & H). destruct closed.
  - injection H as -> <-. by left.
  - right. apply sbind_SOk_inv in H as (s3 & ? & ->%expect_byte_inv & H). apply sbind_SOk_inv in H as (s4 & ? & (w' & -> & Hw')%skip_ws_inv & H). eauto.
Qed.

(** Skipping consumes exactly one spelled value, element list, member list or member. *)
Definition skips_value (j : json) (t : Bytes) : Prop := ∀ fuel depth w rest, blank w → fits depth j → ends rest →
  (3 * length (w ++ t ++ rest) + 2 ≤ fuel)%nat → skip_value fuel depth (w ++ t ++ rest) = SOk rest ().
Definition skips_elements (l : list json) (t : Bytes) : Prop := ∀ fuel depth rest, Forall (fits depth) l →
  (3 * length (t ++ rest) + 3 ≤ fuel)%nat → skip_elements fuel depth (t ++ rest) = SOk rest ().
Definition skips_members (l : list (Bytes * json)) (t : Bytes) : Prop := ∀ fuel depth rest, Forall (λ e, fits depth e.2) l →
  (3 * length (t ++ rest) + 3 ≤ fuel)%nat → skip_members fuel depth (t ++ rest) = SOk rest ().
Definition skips_member (e : Bytes * json) (t : Bytes) : Prop := ∀ fuel depth rest, fits depth e.2 → ends rest →
  (3 * length (t ++ rest) ≤ fuel)%nat → skip_members (S fuel) depth (t ++ rest) = continue 125 () (skip_members fuel depth) rest.

Lemma skip_value_dispatch fuel depth w j b s : blank w → fits depth j → is_ws b = false →
  skip_value (S fuel) depth (w ++ b :: s) =
  (if b =? 34 then parse_string;; mret () else
   if b =? 123 then skip_object fuel (depth + 1) else
   if b =? 91 then skip_array fuel (depth + 1) else
   if b =? 116 then expect_literal (string_bytes "true") else
   if b =? 102 then expect_literal (string_bytes "false") else
   if b =? 110 then expect_literal (string_bytes "null") else
   if (b =? 45) || is_digit b then skip_number else sfail Json.InvalidValue) (b :: s).
Proof.
  intros Hw Hj Hb. cbn [skip_value]. pose proof (height_pos j). unfold fits in Hj. rewrite Z.gtb_ltb, (proj2 (Z.ltb_ge _ _)) by lia.
  by rewrite skip_blank, peek_bind by done.
Qed.

Lemma skips_number neg int frac exp : int_ok int → frac_ok frac → exp_ok exp → skips_value (JNum neg int frac exp) (number_text neg int frac exp).
Proof.
  intros Hi Hf He [|fuel] depth w rest Hw Hj Hr Hfuel; [lia|]. pose proof (skip_number_app neg int frac exp rest Hi Hf He Hr) as Hn.
  assert (∃ b s, number_text neg int frac exp ++ rest = b :: s ∧ (b = 45 ∨ 48 ≤ b ≤ 57)) as (b & s & E & Hb).
  { unfold number_text. destruct neg; cbn [app]; [eexists _, _; split; [reflexivity|lia]|].
    destruct Hi as [->|(d & ds & -> & Hd%between_spec & _)]; cbn [app]; (eexists _, _; split; [reflexivity|lia]). }
  rewrite E in Hn |- *. rewrite (skip_value_dispatch _ _ _ (JNum neg int frac exp)); [|done|done|unfold is_ws; by rewrite !(proj2 (Z.eqb_neq _ _)) by lia].
  rewrite (proj2 (Z.eqb_neq b 34)), (proj2 (Z.eqb_neq b 123)), (proj2 (Z.eqb_neq b 91)), (proj2 (Z.eqb_neq b 116)), (proj2 (Z.eqb_neq b 102)), (proj2 (Z.eqb_neq b 110)) by lia.
  assert ((b =? 45) || is_digit b = true) as -> by (rewrite orb_true_iff, Z.eqb_eq, digit_range; lia). done.
Qed.

Lemma skips_literal fuel depth w j lit rest : blank w → fits depth j → lit ∈ ["null"; "true"; "false"]%string →
  skip_value (S fuel) depth (w ++ string_bytes lit ++ rest) = SOk rest ().
Proof.
  intros Hw Hj Hl. assert (∃ b s, string_bytes lit = b :: s ∧ is_ws b = false) as (b & s & E & Hb).
  { rewrite !elem_of_cons in Hl. destruct Hl as [->|[->|[->|?%not_elem_of_nil]]]; [eexists _, _; split; reflexivity..|done]. }
  pose proof (expect_literal_app (string_bytes lit) rest) as He. rewrite E in He |- *. cbn [app] in *. rewrite (skip_value_dispatch _ _ _ j) by done.
  rewrite !elem_of_cons in Hl. destruct Hl as [->|[->|[->|?%not_elem_of_nil]]]; [injection E as <- <-; exact He..|done].
Qed.

(** Entering a bracket: either it closes at once or its items follow. *)
Lemma skip_array_open fuel depth w b s : blank w → is_ws b = false →
  skip_array (S fuel) depth (91 :: w ++ b :: s) = if b =? 93 then SOk s () else skip_elements fuel depth (b :: s).
Proof.
  intros Hw Hb. cbn [skip_array]. eat. rewrite skip_blank by done. destruct (Z.eqb_spec b 93) as [->|]; [by eat|].
  by rewrite (sbind_SOk _ _ _ _ _ (take_byte_miss 93 b s ltac:(done))).
Qed.
Lemma skip_object_open fuel depth w b s : blank w → is_ws b = false →
  skip_object (S fuel) depth (123 :: w ++ b :: s) = if b =? 125 then SOk s () else skip_members fuel depth (b :: s).
Proof.
  intros Hw Hb. cbn [skip_object]. eat. rewrite skip_blank by done. destruct (Z.eqb_spec b 125) as [->|]; [by eat|].
  by rewrite (sbind_SOk _ _ _ _ _ (take_byte_miss 125 b s ltac:(done))).
Qed.

(** The fuel bound of a suffix, from the bound [H] of the whole. *)
Ltac measure H := revert H; clear; repeat (rewrite length_app || cbn [length app]); intros H; lia.

Lemma skips_all : (∀ j t, spells j t → skips_value j t) ∧ (∀ l t, array_body l t → skips_elements l t) ∧
  (∀ l t, object_body l t → skips_members l t) ∧ (∀ e t, member e t → skips_member e t).
Proof.
  apply spells_mutind.
  - intros [|fuel] depth w rest Hw Hj Hr Hf; [lia|]. apply (skips_literal _ _ _ JNull); [done|done|set_solver].
  - intros b [|fuel] depth w rest Hw Hj Hr Hf; [lia|]. apply (skips_literal _ _ _ (JBool b)); [done|done|destruct b; set_solver].
  - apply skips_number.
  - intros s t Ht [|fuel] depth w rest Hw Hj Hr Hf; [lia|]. destruct (string_head s t Ht) as [t' E]. pose proof (parse_spelled s t rest Ht) as Hp.
    rewrite E in Hp |- *. cbn [app] in *. rewrite (skip_value_dispatch _ _ _ (JStr s)) by done. cbn [Z.eqb Pos.eqb].
    by rewrite (sbind_SOk _ _ _ _ _ Hp).
  - intros w' Hw' [|[|fuel]] depth w rest Hw Hj Hr Hf; [measure Hf..|]. cbn [app]. rewrite <- (assoc_L (++)). cbn [app].
    rewrite (skip_value_dispatch _ _ _ (JArr [])) by done. cbn [Z.eqb Pos.eqb]. by rewrite skip_array_open.
  - intros w' l t Hw' Hl IH [|[|fuel]] depth w rest Hw Hj Hr Hf; [measure Hf..|]. cbn [app] in *. rewrite <- (assoc_L (++)) in *.
    rewrite (skip_value_dispatch _ _ _ (JArr l)) by done. cbn [Z.eqb Pos.eqb]. destruct (array_body_head l t Hl) as (b & s & E & Hb & H93).
    specialize (IH fuel (depth + 1) rest). rewrite E in IH, Hf |- *. cbn [app] in *. rewrite skip_array_open, (proj2 (Z.eqb_neq _ _) H93) by done.
    apply IH; [|measure Hf]. apply (fits_list id) in Hj; [done|]. pose proof (height_pos (JArr l)). unfold fits in Hj. lia.
  - intros w' Hw' [|[|fuel]] depth w rest Hw Hj Hr Hf; [measure Hf..|]. cbn [app]. rewrite <- (assoc_L (++)). cbn [app].
    rewrite (skip_value_dispatch _ _ _ (JObj [])) by done. cbn [Z.eqb Pos.eqb]. by rewrite skip_object_open.
  - intros w' l t Hw' Hl IH [|[|fuel]] depth w rest Hw Hj Hr Hf; [measure Hf..|]. cbn [app] in *. rewrite <- (assoc_L (++)) in *.
    rewrite (skip_value_dispatch _ _ _ (JObj l)) by done. cbn [Z.eqb Pos.eqb]. destruct (object_body_head l t Hl) as (s & E).
    specialize (IH fuel (depth + 1) rest). rewrite E in IH, Hf |- *. cbn [app] in *. rewrite skip_object_open by done. cbn [Z.eqb Pos.eqb].
    apply IH; [|measure Hf]. apply (fits_list snd) in Hj; [done|]. pose proof (height_pos (JObj l)). unfold fits in Hj. lia.
  - intros j t w Hj IH Hw [|fuel] depth rest [Hd _]%Forall_cons Hf; [lia|]. cbn [skip_elements]. rewrite <- !(assoc_L (++)) in *. cbn [app] in *.
    erewrite sbind_SOk; [|apply (IH fuel depth []); [constructor|done|by apply ends_blank|measure Hf]].
    by apply (continue_close 93).
  - intros j t w w' l tl Hj IH Hw Hw' Hl IHl [|fuel] depth rest [Hd Hds]%Forall_cons Hf; [lia|]. cbn [skip_elements]. rewrite <- !(assoc_L (++)) in *. cbn [app] in *.
    erewrite sbind_SOk; [|apply (IH fuel depth []); [constructor|done|by apply ends_blank|measure Hf]].
    specialize (IHl fuel depth rest Hds). destruct (array_body_head l tl Hl) as (b & s & E & Hb & _). rewrite <- (assoc_L (++)) in *. rewrite E in IHl, Hf |- *. cbn [app] in *.
    etransitivity; [apply (continue_comma 93); done|]. apply IHl. measure Hf.
  - intros e t w He IH Hw [|fuel] depth rest [Hd _]%Forall_cons Hf; [lia|]. rewrite <- !(assoc_L (++)) in *. cbn [app] in *.
    rewrite IH; [by apply continue_close|done|by apply ends_blank|measure Hf].
  - intros e t w w' l tl He IH Hw Hw' Hl IHl [|fuel] depth rest [Hd Hds]%Forall_cons Hf; [lia|]. rewrite <- !(assoc_L (++)) in *. cbn [app] in *.
    rewrite IH; [|done|by apply ends_blank|measure Hf]. specialize (IHl fuel depth rest Hds). destruct (object_body_head l tl Hl) as (s & E).
    rewrite <- (assoc_L (++)) in *. rewrite E in IHl, Hf |- *. cbn [app] in *. rewrite continue_comma by done. apply IHl. measure Hf.
  - intros k j tk w w' t Hk Hw Hw' Hj IH fuel depth rest Hd Hr Hf. cbn [skip_members snd] in *. rewrite <- !(assoc_L (++)) in *.
    rewrite (sbind_SOk _ _ _ _ _ (parse_spelled k tk _ Hk)). cbn [app] in *. rewrite skip_blank by done. eat. rewrite <- (assoc_L (++)) in *.
    destruct (string_head k tk Hk) as (s & ->). erewrite sbind_SOk; [|apply (IH fuel depth w' rest); [done..|measure Hf]]. done.
Qed.

(** What was skipped is a spelled value. *)
Definition skipped_value (depth : Z) (s r : Bytes) : Prop := ∃ w j t, s = w ++ t ++ r ∧ blank w ∧ spells j t ∧ fits depth j.
Definition skipped_elements (depth : Z) (s r : Bytes) : Prop := ∃ w l t, s = w ++ t ++ r ∧ blank w ∧ array_body l t ∧ Forall (fits depth) l.
Definition skipped_members (depth : Z) (s r : Bytes) : Prop := ∃ l t, s = t ++ r ∧ object_body l t ∧ Forall (λ e, fits depth e.2) l.
Definition skipped_array (depth : Z) (s r : Bytes) : Prop := ∃ l t, s = t ++ r ∧ spells (JArr l) t ∧ Forall (fits depth) l.
Definition skipped_object (depth : Z) (s r : Bytes) : Prop := ∃ l t, s = t ++ r ∧ spells (JObj l) t ∧ Forall (λ e, fits depth e.2) l.

Lemma skip_array_sound fuel depth s r u : (∀ s, skip_elements fuel depth s = SOk r u → skipped_elements depth s r) →
  skip_array (S fuel) depth s = SOk r u → skipped_array depth s r.
Proof.
  intros IE. cbn [skip_array]. intros (s1 & ? & ->%expect_byte_inv & H)%sbind_SOk_inv. apply sbind_SOk_inv in H as (s2 & ? & (w & -> & Hw)%skip_ws_inv & H).
  apply sbind_SOk_inv in H as (s3 & closed & ->%take_byte_inv & H). destruct closed.
  - injection H as ->. exists [], (91 :: w ++ [93]). split_and!; [cbn [app]; by rewrite <- (assoc_L (++))|by constructor|constructor].
  - apply IE in H as (w' & l & t & -> & Hw' & Hl & Hd). exists l, (91 :: (w ++ w') ++ t).
    split_and!; [cbn [app]; by rewrite <- !(assoc_L (++))|constructor; [by apply Forall_app|done]|done].
Qed.
Lemma skip_object_sound fuel depth s r u : (∀ s, skip_members fuel depth s = SOk r u → skipped_members depth s r) →
  skip_object (S fuel) depth s = SOk r u → skipped_object depth s r.
Proof.
  intros IM. cbn [skip_object]. intros (s1 & ? & ->%expect_byte_inv & H)%sbind_SOk_inv. apply sbind_SOk_inv in H as (s2 & ? & (w & -> & Hw)%skip_ws_inv & H).
  apply sbind_SOk_inv in H as (s3 & closed & ->%take_byte_inv & H). destruct closed.
  - injection H as ->. exists [], (123 :: w ++ [125]). split_and!; [cbn [app]; by rewrite <- (assoc_L (++))|by constructor|constructor].
  - apply IM in H as (l & t & -> & Hl & Hd). exists l, (123 :: w ++ t). split_and!; [cbn [app]; by rewrite <- (assoc_L (++))|by constructor|done].
Qed.
Lemma skip_elements_sound fuel depth s r u : (∀ s r u, skip_value fuel depth s = SOk r u → skipped_value depth s r) →
  (∀ s, skip_elements fuel depth s = SOk r u → skipped_elements depth s r) →
  skip_elements (S fuel) depth s = SOk r u → skipped_elements depth s r.
Proof.
  intros IV IE. cbn [skip_elements]. intros (s1 & ? & (w & j & t & -> & Hw & Hj & Hd)%IV & H)%sbind_SOk_inv.
  apply (continue_inv 93) in H as (w1 & Hw1 & [[-> _]|(w2 & s2 & -> & Hw2 & (w3 & l & tl & -> & Hw3 & Hl & Hds)%IE)]).
  - exists w, [j], (t ++ w1 ++ [93]). split_and!; [by rewrite <- !(assoc_L (++))|done|by constructor|by constructor].
  - exists w, (j :: l), (t ++ w1 ++ 44 :: (w2 ++ w3) ++ tl).
    split_and!; [by rewrite <- !(assoc_L (++)); cbn [app]; rewrite <- !(assoc_L (++))|done|constructor; [done|done|by apply Forall_app|done]|by constructor].
Qed.
Lemma skip_members_sound fuel depth s r u : (∀ s r u, skip_value fuel depth s = SOk r u → skipped_value depth s r) →
  (∀ s, skip_members fuel depth s = SOk r u → skipped_members depth s r) →
  skip_members (S fuel) depth s = SOk r u → skipped_members depth s r.
Proof.
  intros IV IM. cbn [skip_members]. intros (s1 & k & (tk & -> & Hk)%parse_string_exact & H)%sbind_SOk_inv.
  apply sbind_SOk_inv in H as (s2 & ? & (w & -> & Hw)%skip_ws_inv & H). apply sbind_SOk_inv in H as (s3 & ? & ->%expect_byte_inv & H).
  apply sbind_SOk_inv in H as (s4 & ? & (w' & j & t & -> & Hw' & Hj & Hd)%IV & H).
  pose proof (member_pair k j tk w w' t Hk Hw Hw' Hj) as Hm.
  apply (continue_inv 125) in H as (w1 & Hw1 & [[-> _]|(w2 & s5 & -> & Hw2 & (l & tl & -> & Hl & Hds)%IM)]).
  - eexists [(k, j)], _. split_and!; [|by apply (object_body_last _ _ w1 Hm)|by constructor]. repeat (rewrite <- (assoc_L (++)); cbn [app]). done.
  - eexists ((k, j) :: l), _. split_and!; [|by apply (object_body_cons _ _ w1 w2 l tl Hm)|by constructor]. repeat (rewrite <- (assoc_L (++)); cbn [app]). done.
Qed.
Lemma skip_value_sound fuel depth s r u : (∀ s r u, skip_array fuel (depth + 1) s = SOk r u → skipped_array (depth + 1) s r) →
  (∀ s r u, skip_object fuel (depth + 1) s = SOk r u → skipped_object (depth + 1) s r) →
  skip_value (S fuel) depth s = SOk r u → skipped_value depth s r.
Proof.
  intros IA IO. cbn [skip_value]. destruct (Z.gtb_spec depth MAX_JSON_DEPTH) as [|Hd]; [done|].
  intros (s1 & ? & (w & -> & Hw)%skip_ws_inv & H)%sbind_SOk_inv. rewrite peek_bind in H. destruct s1 as [|b s1]; [done|]. cbn [head] in H.
  assert (∀ j t, height j = 1 → b :: s1 = t ++ r → spells j t → skipped_value depth (w ++ b :: s1) r) as Hscalar.
  { intros j t Hj E Ht. exists w, j, t. rewrite E. split_and!; [done..|]. unfold fits. lia. }
  destruct (b =? 34). { apply sbind_SOk_inv in H as (s2 & v & (t & E & Ht)%parse_string_exact & H). injection H as ->. apply (Hscalar (JStr v) t); [done..|by constructor]. }
  destruct (b =? 123). { apply IO in H as (l & t & E & Ht & Hl). exists w, (JObj l), t. rewrite E. split_and!; [done..|]. by apply (fits_list snd). }
  destruct (b =? 91). { apply IA in H as (l & t & E & Ht & Hl). exists w, (JArr l), t. rewrite E. split_and!; [done..|]. by apply (fits_list id). }
  destruct (b =? 116). { apply expect_literal_inv in H. eapply (Hscalar (JBool true)); [done|exact H|constructor]. }
  destruct (b =? 102). { apply expect_literal_inv in H. eapply (Hscalar (JBool false)); [done|exact H|constructor]. }
  destruct (b =? 110). { apply expect_literal_inv in H. eapply (Hscalar JNull); [done|exact H|constructor]. }
  destruct ((b =? 45) || is_digit b); [|done]. apply skip_number_inv in H as (neg & int & frac & exp & E & Hi & Hf & He).
  eapply (Hscalar (JNum neg int frac exp)); [done|exact E|by constructor].
Qed.

Lemma skips_sound fuel : ∀ depth s r u,
  (skip_value fuel depth s = SOk r u → skipped_value depth s r) ∧ (skip_object fuel depth s = SOk r u → skipped_object depth s r) ∧
  (skip_members fuel depth s = SOk r u → skipped_members depth s r) ∧ (skip_array fuel depth s = SOk r u → skipped_array depth s r) ∧
  (skip_elements fuel depth s = SOk r u → skipped_elements depth s r).
Proof.
  induction fuel as [|fuel IH]; intros depth s r u; [split_and!; done|]. split_and!.
  - apply skip_value_sound; intros; by eapply IH.
  - apply skip_object_sound; intros; by eapply IH.
  - apply skip_members_sound; intros; by eapply IH.
  - apply skip_array_sound; intros; by eapply IH.
  - apply skip_elements_sound; intros; by eapply IH.
Qed.

Lemma skip_one_value_complete j t rest : spells j t → fits 0 j → ends rest → skip_one_value (t ++ rest) = SOk rest ().
Proof. intros Hj Hd Hr. unfold skip_one_value. rewrite sget_bind. apply (proj1 skips_all j t Hj _ _ []); [constructor|done..]. Qed.
Lemma skip_one_value_sound s r u : skip_one_value s = SOk r u → skipped_value 0 s r.
Proof. unfold skip_one_value. rewrite sget_bind. by apply skips_sound. Qed.

(** ** The extracted members *)

(** The values of the members called [k], in order. *)
Definition named (k : string) (ms : list (Bytes * json)) : list json := (filter (λ e, e.1 = string_bytes k) ms).*2.
Definition found {A} (c : A → json) (o : option A) : list json := match o with Some a => [c a] | None => [] end.

(** The fields found so far are those of the members read so far. *)
Definition holds (ms : list (Bytes * json)) (f : FoundFields) : Prop :=
  named "type" ms = found JStr (ff_type f) ∧ named "challenge" ms = found JStr (ff_challenge f) ∧
  named "origin" ms = found JStr (ff_origin f) ∧ named "crossOrigin" ms = found JBool (ff_cross_origin f).

Lemma named_app k p q : named k (p ++ q) = named k p ++ named k q.
Proof. unfold named. by rewrite filter_app, fmap_app. Qed.
Lemma named_hit k j : named k [(string_bytes k, j)] = [j].
Proof. unfold named. by rewrite filter_cons_True. Qed.
Lemma named_miss k key j : key ≠ string_bytes k → named k [(key, j)] = [].
Proof. intros H. unfold named. by rewrite filter_cons_False. Qed.
Lemma found_prefix {A} (c : A → json) l l' o : l ++ l' = found c o → ∃ o', l = found c o'.
Proof. destruct l as [|x l]; [by exists None|]. destruct o as [a|]; [|done]. intros [= -> [-> _]%app_eq_nil]. by exists (Some a). Qed.
Lemma holds_prefix p q f : holds (p ++ q) f → ∃ f', holds p f'.
Proof.
  unfold holds. rewrite !named_app. intros ([o1 ?]%found_prefix & [o2 ?]%found_prefix & [o3 ?]%found_prefix & [o4 ?]%found_prefix).
  by exists (mkFoundFields o1 o2 o3 o4).
Qed.
Lemma found_inj {A} (c : A → json) (Hc : Inj (=) (=) c) o o' : found c o = found c o' → o = o'.
Proof. destruct o, o'; cbn; intros H; try done. injection H as H%Hc. by subst. Qed.
Lemma holds_inj ms f f' : holds ms f → holds ms f' → f = f'.
Proof.
  assert (Inj (=) (=) JStr ∧ Inj (=) (=) JBool) as [? ?] by (split; intros ? ? [=]; done).
  destruct f, f'. intros (E1 & E2 & E3 & E4) (F1 & F2 & F3 & F4). cbn in *. rewrite E1 in F1. rewrite E2 in F2. rewrite E3 in F3. rewrite E4 in F4.
  apply found_inj in F1, F2, F3, F4; [|done..]. by subst.
Qed.

Lemma once_inv {A} name (o : option A) p s r v : once name o p s = SOk r v → o = None ∧ ∃ a, v = Some a ∧ p s = SOk r a.
Proof. unfold once. destruct o; [done|]. intros (s1 & a & Hp & H)%sbind_SOk_inv. injection H as -> <-. eauto. Qed.
Lemma once_fresh {A} name (p : st Bytes JsonError A) s r a : p s = SOk r a → once name None p s = SOk r (Some a).
Proof. intros H. unfold once. by rewrite (sbind_SOk _ _ _ _ _ H). Qed.
Lemma parse_bool_spelled (b : bool) rest : parse_bool (string_bytes (if b then "true" else "false") ++ rest) = SOk rest b.
Proof. by destruct b. Qed.
Lemma parse_bool_inv s r (b : bool) : parse_bool s = SOk r b → s = string_bytes (if b then "true" else "false") ++ r.
Proof.
  unfold parse_bool. rewrite peek_bind. destruct (head s) as [c|]; [|done].
  destruct (c =? 116); [|destruct (c =? 102); [|done]]; intros (s1 & ? & ->%expect_literal_inv & [= -> <-])%sbind_SOk_inv; done.
Qed.

(** Reading one more member of a given kind of key. *)
Ltac by_key k := destruct (decide (k = string_bytes "type")) as [E1|N1]; [|destruct (decide (k = string_bytes "challenge")) as [E2|N2];
  [|destruct (decide (k = string_bytes "origin")) as [E3|N3]; [|destruct (decide (k = string_bytes "crossOrigin")) as [E4|N4]]]].

Lemma extend_hit {A} (c : A → json) k p j (o o' : option A) : named k p = found c o → named k (p ++ [(string_bytes k, j)]) = found c o' →
  o = None ∧ ∃ a, o' = Some a ∧ j = c a.
Proof.
  intros Hp. rewrite named_app, named_hit, Hp. destruct o as [a|], o' as [a'|]; cbn; try done. intros [= ->]. eauto.
Qed.
Lemma extend_miss {A} (c : A → json) (Hc : Inj (=) (=) c) k key p j (o o' : option A) : key ≠ string_bytes k → named k p = found c o →
  named k (p ++ [(key, j)]) = found c o' → o' = o.
Proof. intros Hk Hp. rewrite named_app, named_miss, app_nil_r, Hp by done. intros H. symmetry. by eapply found_inj. Qed.
#[global] Instance JStr_inj : Inj (=) (=) JStr.
Proof. by intros ? ? [=]. Qed.
#[global] Instance JBool_inj : Inj (=) (=) JBool.
Proof. by intros ? ? [=]. Qed.

(** The other fields are kept. *)
Ltac settle_misses := repeat match goal with
  | Hp : named ?n ?p = found ?c ?o, H : named ?n (?p ++ [(?k, ?j)]) = found ?c ?o' |- _ => assert (o' = o) by (apply (extend_miss c _ n k p j); done); clear H; subst o'
  end.
Ltac one_more := split_and!; [reflexivity|constructor|by constructor|unfold fits, MAX_JSON_DEPTH; cbn; lia|..];
  rewrite named_app; first [rewrite named_hit|rewrite named_miss, app_nil_r by done]; first [done|match goal with H : named _ _ = _ |- _ => by rewrite H end].

Lemma read_member_complete p f f' k j t rest : holds p f → holds (p ++ [(k, j)]) f' → spells j t → fits 0 j → ends rest →
  read_member k f (t ++ rest) = SOk rest f'.
Proof.
  destruct f as [o1 o2 o3 o4], f' as [o1' o2' o3' o4']. intros (H1 & H2 & H3 & H4) (F1 & F2 & F3 & F4) Ht Hd Hr. cbn [ff_type ff_challenge ff_origin ff_cross_origin] in *.
  assert (∀ v, j = JStr v → parse_string (t ++ rest) = SOk rest v) as Hs by (intros v ->; inversion Ht; by apply parse_spelled).
  assert (∀ v, j = JBool v → parse_bool (t ++ rest) = SOk rest v) as Hb by (intros v ->; inversion Ht; by apply parse_bool_spelled).
  unfold read_member. cbn [ff_type ff_challenge ff_origin ff_cross_origin].
  by_key k.
  - subst k. apply (extend_hit _ _ _ _ _ _ H1) in F1 as (-> & v & -> & Hv). settle_misses. by rewrite (sbind_SOk _ _ _ _ _ (once_fresh _ _ _ _ _ (Hs v Hv))).
  - subst k. apply (extend_hit _ _ _ _ _ _ H2) in F2 as (-> & v & -> & Hv). settle_misses. by rewrite (sbind_SOk _ _ _ _ _ (once_fresh _ _ _ _ _ (Hs v Hv))).
  - subst k. apply (extend_hit _ _ _ _ _ _ H3) in F3 as (-> & v & -> & Hv). settle_misses. by rewrite (sbind_SOk _ _ _ _ _ (once_fresh _ _ _ _ _ (Hs v Hv))).
  - subst k. apply (extend_hit _ _ _ _ _ _ H4) in F4 as (-> & v & -> & Hv). settle_misses. by rewrite (sbind_SOk _ _ _ _ _ (once_fresh _ _ _ _ _ (Hb v Hv))).
  - settle_misses. by rewrite (sbind_SOk _ _ _ _ _ (skip_one_value_complete j t rest Ht Hd Hr)).
Qed.

Lemma read_member_sound p f f' k s r : holds p f → read_member k f s = SOk r f' →
  ∃ w j t, s = w ++ t ++ r ∧ blank w ∧ spells j t ∧ fits 0 j ∧ holds (p ++ [(k, j)]) f'.
Proof.
  destruct f as [o1 o2 o3 o4]. intros (H1 & H2 & H3 & H4). cbn [ff_type ff_challenge ff_origin ff_cross_origin] in *.
  unfold read_member. cbn [ff_type ff_challenge ff_origin ff_cross_origin]. unfold holds.
  by_key k; intros (s1 & v & H & [= -> <-])%sbind_SOk_inv; cbn [ff_type ff_challenge ff_origin ff_cross_origin].
  - apply once_inv in H as (-> & a & -> & (t & -> & Ht)%parse_string_exact). exists [], (JStr a), t. subst k. one_more.
  - apply once_inv in H as (-> & a & -> & (t & -> & Ht)%parse_string_exact). exists [], (JStr a), t. subst k. one_more.
  - apply once_inv in H as (-> & a & -> & (t & -> & Ht)%parse_string_exact). exists [], (JStr a), t. subst k. one_more.
  - apply once_inv in H as (-> & a & -> & ->%parse_bool_inv). exists [], (JBool a). eexists. subst k. one_more.
  - apply skip_one_value_sound in H as (w & j & t & -> & Hw & Hj & Hd). exists w, j, t. split_and!; [done..| | | |]; rewrite named_app, named_miss, app_nil_r by done; done.
Qed.

Lemma member_step fuel f e t rest : member e t → ∃ k j tk w w' tj, e = (k, j) ∧ t = tk ++ w ++ 58 :: w' ++ tj ∧ spells j tj ∧
  ∀ f', read_member k f (tj ++ rest) = SOk rest f' → member_loop (S fuel) f (t ++ rest) = continue 125 f' (member_loop fuel f') rest.
Proof.
  destruct 1 as [k j tk w w' tj Hk Hw Hw' Hj]. exists k, j, tk, w, w', tj. split_and!; [done..|]. intros f' Hf. cbn [member_loop].
  repeat (rewrite <- (assoc_L (++)); cbn [app]). rewrite (sbind_SOk _ _ _ _ _ (parse_spelled k tk _ Hk)), skip_blank by done. eat.
  destruct (spells_head j tj Hj) as (b & s & -> & Hb & _). cbn [app] in *. rewrite skip_blank by done. by rewrite (sbind_SOk _ _ _ _ _ Hf).
Qed.

Lemma member_loop_complete ms t : object_body ms t → ∀ fuel p f f' rest, holds p f → holds (p ++ ms) f' → Forall (λ e, fits 0 e.2) ms →
  (length t < fuel)%nat → member_loop fuel f (t ++ rest) = SOk rest f'.
Proof.
  induction 1 as [e t w He Hw|e t w w' l tl He Hw Hw' Hl IH]; intros [|fuel] p f f' rest Hp Hf' Hd Hfuel; try lia.
  all: apply Forall_cons in Hd as [Hd Hds]; repeat (rewrite <- (assoc_L (++)); cbn [app]).
  - destruct (member_step fuel f e t (w ++ 125 :: rest) He) as (k & j & tk & w1 & w2 & tj & -> & -> & Hj & Hstep).
    rewrite (Hstep f'); [by apply continue_close|]. eapply read_member_complete; [done..|by apply ends_blank].
  - destruct (member_step fuel f e t (w ++ 44 :: w' ++ tl ++ rest) He) as (k & j & tk & w1 & w2 & tj & -> & -> & Hj & Hstep).
    rewrite cons_middle, (assoc_L (++)) in Hf'. destruct (holds_prefix _ _ _ Hf') as [f1 Hf1].
    rewrite (Hstep f1); [|by eapply read_member_complete; [..|by apply ends_blank]].
    specialize (IH fuel _ f1 f' rest Hf1 Hf' Hds). destruct (object_body_head l tl Hl) as [s E]. rewrite E in IH, Hfuel |- *. cbn [app] in *.
    rewrite continue_comma by done. apply IH. revert Hfuel. rewrite !length_app. cbn [length]. rewrite !length_app. cbn [length]. lia.
Qed.

Lemma member_loop_sound fuel : ∀ p f f' s r, holds p f → member_loop fuel f s = SOk r f' →
  ∃ ms t, s = t ++ r ∧ object_body ms t ∧ Forall (λ e, fits 0 e.2) ms ∧ holds (p ++ ms) f'.
Proof.
  induction fuel as [|fuel IH]; intros p f f' s r Hp H; [done|]. cbn [member_loop] in H.
  apply sbind_SOk_inv in H as (s1 & k & (tk & -> & Hk)%parse_string_exact & H). apply sbind_SOk_inv in H as (s2 & ? & (w & -> & Hw)%skip_ws_inv & H).
  apply sbind_SOk_inv in H as (s3 & ? & ->%expect_byte_inv & H). apply sbind_SOk_inv in H as (s4 & ? & (w' & -> & Hw')%skip_ws_inv & H).
  apply sbind_SOk_inv in H as (s5 & f1 & Hr & H). destruct (read_member_sound p f f1 k s4 s5 Hp Hr) as (w2 & j & t & -> & Hw2 & Hj & Hd & Hf1).
  pose proof (member_pair k j tk w (w' ++ w2) t Hk Hw ltac:(by apply Forall_app) Hj) as Hm.
  apply (continue_inv 125) in H as (w3 & Hw3 & [[-> ->]|(w4 & s6 & -> & Hw4 & H)]).
  - eexists [(k, j)], _. split_and!; [|by apply (object_body_last _ _ w3 Hm)|by constructor|done]. repeat (rewrite <- (assoc_L (++)); cbn [app]). done.
  - destruct (IH _ _ _ _ _ Hf1 H) as (l & tl & -> & Hl & Hds & Hf'). eexists ((k, j) :: l), _.
    split_and!; [|by apply (object_body_cons _ _ w3 w4 l tl Hm)|by constructor|by rewrite cons_middle, (assoc_L (++))].
    repeat (rewrite <- (assoc_L (++)); cbn [app]). done.
Qed.

(** The members a clientDataJSON object must have to yield [f]: one string
    each of [type], [challenge] and [origin], at most one boolean [crossOrigin]. *)
Definition client_data (ms : list (Bytes * json)) (f : ClientDataFields) : Prop :=
  named "type" ms = [JStr (cd_type f)] ∧ named "challenge" ms = [JStr (cd_challenge f)] ∧ named "origin" ms = [JStr (cd_origin f)] ∧
  (named "crossOrigin" ms = [JBool (cd_cross_origin f)] ∨ named "crossOrigin" ms = [] ∧ cd_cross_origin f = false).

Lemma client_data_holds ms f : client_data ms f ↔ ∃ x, holds ms (mkFoundFields (Some (cd_type f)) (Some (cd_challenge f)) (Some (cd_origin f)) x) ∧
  default false x = cd_cross_origin f.
Proof.
  unfold client_data, holds. cbn. split.
  - intros (H1 & H2 & H3 & [H4|[H4 H5]]); [by exists (Some (cd_cross_origin f))|by exists None].
  - intros (x & (H1 & H2 & H3 & H4) & Hx). split_and!; [done..|]. destruct x as [x|]; cbn in *; subst; auto.
Qed.

Lemma required_inv {A} name (o : option A) s r a : required name o s = SOk r a → o = Some a.
Proof. unfold required. destruct o; [|done]. by intros [= _ ->]. Qed.

(** C35: the clientDataJSON parser accepts a text exactly when it spells, in any
    of the ways JSON allows (blanks at every structural position, every escape
    class with surrogate pairs, members in any order, numbers in any form, other
    members of any value nested up to the depth limit and repeated at will), one
    object whose decoded keys include [type], [challenge] and [origin] once, each with a
    string, and [crossOrigin] at most once, with a boolean; and what it returns
    is exactly the decoded values of those members (false when
    [crossOrigin] is absent). *)
Theorem client_data_fields_exact (bytes : Bytes) (f : ClientDataFields) :
  extract_client_data_fields bytes = Ok f ↔
  ∃ ms, document ms bytes ∧ Forall (λ e, height e.2 ≤ MAX_JSON_DEPTH + 1) ms ∧ client_data ms f.
Proof.
  transitivity (∃ r, client_data_parser bytes = SOk r f).
  { unfold extract_client_data_fields. destruct (client_data_parser bytes); naive_solver. }
  unfold client_data_parser. split.
  - intros (r & H). apply sbind_SOk_inv in H as (s1 & ? & (w & -> & Hw)%skip_ws_inv & H). apply sbind_SOk_inv in H as (s2 & ? & ->%expect_byte_inv & H).
    apply sbind_SOk_inv in H as (s3 & ? & (w' & -> & Hw')%skip_ws_inv & H). apply sbind_SOk_inv in H as (s4 & closed & ->%take_byte_inv & H).
    destruct closed; [done|]. rewrite sget_bind in H. apply sbind_SOk_inv in H as (s5 & g & (ms & t & -> & Hms & Hd & Hg)%(member_loop_sound _ []) & H); [|done].
    apply sbind_SOk_inv in H as (s6 & ? & (w'' & -> & Hw'')%skip_ws_inv & H). rewrite sget_bind in H. case_decide as E; [subst s6|done].
    rewrite smret_bind in H. apply sbind_SOk_inv in H as (? & ty & H1%required_inv & H). apply sbind_SOk_inv in H as (? & ch & H2%required_inv & H).
    apply sbind_SOk_inv in H as (? & or & H3%required_inv & [= _ <-]). rewrite app_nil_r. exists ms. split; [by constructor|]. split; [done|].
    apply client_data_holds. destruct g. cbn in *. subst. eauto.
  - intros (ms & Hdoc & Hd & (x & Hx & Hc)%client_data_holds). exists []. destruct Hdoc as [ms w w' t w'' Hw Hw' Hms Hw''].
    rewrite skip_blank by done. eat. pose proof (member_loop_complete ms t Hms (S (length (t ++ w''))) [] (mkFoundFields None None None None) _ w'' ltac:(done) Hx Hd) as Hl.
    destruct (object_body_head ms t Hms) as [s Hs]. rewrite Hs in Hl |- *. cbn [app] in *. rewrite skip_blank by done.
    rewrite (sbind_SOk _ _ _ _ _ (take_byte_miss 125 34 _ ltac:(lia))). eat. rewrite (sbind_SOk _ _ _ _ _ (Hl ltac:(cbn [length]; rewrite length_app; lia))).
    unfold skip_ws. rewrite smodify_bind, <- (app_nil_r w''), drop_while_app by done. eat. rewrite decide_True by done. eat. cbn. rewrite Hc. by destruct f.
Qed.

(** ** The challenge determines the digest *)

Section challenge.
Lemma sextet_table i j : 0 ≤ i < 64 → 0 ≤ j < 64 → BASE64URL_TABLE !!! Z.to_nat i = BASE64URL_TABLE !!! Z.to_nat j → i = j.
Proof.
  intros Hi Hj H. assert (NoDup BASE64URL_TABLE) as Hn by (apply (bool_decide_unpack (NoDup _)); vm_compute; reflexivity).
  assert (length BASE64URL_TABLE = 64%nat) as Hl by reflexivity.
  destruct (lookup_lt_is_Some_2 BASE64URL_TABLE (Z.to_nat i)) as [x Hx]; [lia|]. destruct (lookup_lt_is_Some_2 BASE64URL_TABLE (Z.to_nat j)) as [y Hy]; [lia|].
  rewrite (list_lookup_total_correct _ _ _ Hx), (list_lookup_total_correct _ _ _ Hy) in H. subst y.
  pose proof (NoDup_lookup _ _ _ _ Hn Hx Hy). lia.
Qed.

Lemma sextet_inj c c' shift : 0 ≤ shift → sextet c shift = sextet c' shift → (c / 2 ^ shift) mod 64 = (c' / 2 ^ shift) mod 64.
Proof.
  intros Hs H. unfold sextet in H. change 63 with (Z.ones 6) in H. rewrite !Z.land_ones, !Z.shiftr_div_pow2 in H by lia.
  apply sextet_table in H; [done|apply Z.mod_pos_bound; lia..].
Qed.

Lemma chunk_add a b : 0 ≤ b < 256 → Z.lor (Z.shiftl a 8) b = a * 256 + b.
Proof.
  intros Hb. rewrite Z.shiftl_mul_pow2 by lia. rewrite <- Z.lxor_lor, <- Z.add_nocarry_lxor; [done|..].
  all: apply Z.bits_inj'; intros n Hn; rewrite Z.land_spec, Z.bits_0; destruct (Z.lt_ge_cases n 8); [rewrite Z.mul_pow2_bits_low by lia; done|].
  all: rewrite (Z.bits_above_log2 b n), andb_false_r; try lia; destruct (decide (b = 0)) as [->|]; [cbn; lia|].
  all: assert (Z.log2 b < 8) by (apply Z.log2_lt_pow2; lia); lia.
Qed.

Lemma chunk_value a b c : 0 ≤ b < 256 → 0 ≤ c < 256 → Z.lor (Z.lor (Z.shiftl a 16) (Z.shiftl b 8)) c = a * 65536 + b * 256 + c.
Proof.
  intros Hb Hc. assert (Z.lor (Z.shiftl a 16) (Z.shiftl b 8) = Z.shiftl (Z.lor (Z.shiftl a 8) b) 8) as ->
    by (rewrite Z.shiftl_lor, Z.shiftl_shiftl by lia; done).
  rewrite !chunk_add by done. lia.
Qed.

Lemma chunk_eq c c' : 0 ≤ c < 16777216 → 0 ≤ c' < 16777216 → sextet c 18 = sextet c' 18 → sextet c 12 = sextet c' 12 → sextet c 6 = sextet c' 6 →
  c mod 64 = c' mod 64 → c = c'.
Proof.
  intros Hc Hc' H1%sextet_inj H2%sextet_inj H3%sextet_inj H4; [|lia..]. cbn in H1, H2, H3. Z.div_mod_to_equations. lia.
Qed.

Lemma base64url_inj n : ∀ d d', length d = (3 * n + 2)%nat → length d' = (3 * n + 2)%nat → Forall byte d → Forall byte d' →
  base64url d = base64url d' → d = d'.
Proof.
  induction n as [|n IH]; intros d d' Hl Hl' Hd Hd' H.
  - destruct d as [|a [|b [|]]]; try discriminate Hl. destruct d' as [|a' [|b' [|]]]; try discriminate Hl'.
    rewrite !Forall_cons in Hd, Hd'. destruct Hd as (Ha & Hb & _), Hd' as (Ha' & Hb' & _). unfold byte in *. change (int_max U8) with 255 in *.
    pose proof (chunk_value a b 0) as Hv. pose proof (chunk_value a' b' 0) as Hv'. rewrite Z.lor_0_r in Hv, Hv'.
    cbn [base64url] in H. rewrite Hv, Hv' in H by lia. injection H as H1 H2 H3.
    assert (a * 65536 + b * 256 + 0 = a' * 65536 + b' * 256 + 0) as He by (apply chunk_eq; try lia; Z.div_mod_to_equations; lia).
    assert (a = a') by lia. assert (b = b') by lia. by subst.
  - destruct d as [|a [|b [|c d]]]; try (cbn in Hl; lia). destruct d' as [|a' [|b' [|c' d']]]; try (cbn in Hl'; lia).
    rewrite !Forall_cons in Hd, Hd'. destruct Hd as (Ha & Hb & Hc & Hd), Hd' as (Ha' & Hb' & Hc' & Hd'). unfold byte in *. change (int_max U8) with 255 in *.
    cbn [base64url] in H. cbv zeta in H. rewrite !chunk_value in H by lia. cbn [app] in H. injection H as H1 H2 H3 H4 H5.
    apply sextet_inj in H4; [|lia]. change (2 ^ 0) with 1 in H4. rewrite !Z.div_1_r in H4.
    assert (a * 65536 + b * 256 + c = a' * 65536 + b' * 256 + c') as He by (apply chunk_eq; try lia; done).
    assert (a = a') by lia. assert (b = b') by lia. assert (c = c') by lia. subst. f_equal. f_equal. f_equal.
    apply IH; [cbn in Hl; lia|cbn in Hl'; lia|done..].
Qed.
End challenge.

(** ** What an accepted authorisation shows *)

Section acceptance.
Context (sha256 : Bytes → Bytes) (p256 : Bytes → Bytes → Bytes → bool).

Lemma client_data_Ok {A B} (m : outcome JsonError A) (f : A → outcome AuthError B) r :
  (map_err Auth.ClientData m ≫= f) = Ok r → ∃ a, m = Ok a ∧ f a = Ok r.
Proof. intros (a & H%map_err_Ok & Hf)%obind_Ok. eauto. Qed.
Lemma bool_decide_ne_false {A} `{EqDecision A} (x y : A) : bool_decide (x ≠ y) = false → x = y.
Proof. intros H%bool_decide_eq_false. by destruct (decide (x = y)). Qed.

Lemma envelope_Ok m ad cdj : verify_webauthn_envelope sha256 m ad cdj = Ok () →
  ∃ f, extract_client_data_fields cdj = Ok f ∧ cd_type f = string_bytes "webauthn.get" ∧ cd_origin f = EXPECTED_WEBAUTHN_ORIGIN ∧
    cd_cross_origin f = false ∧ cd_challenge f = base64url_sha256 (sha256 m) ∧ take 32 ad = EXPECTED_RP_ID_HASH ∧
    Z.land (ad !!! 32%nat) FLAG_UP ≠ 0 ∧ Z.land (ad !!! 32%nat) FLAG_UV ≠ 0.
Proof.
  unfold verify_webauthn_envelope. intros [_ [_ [_ [Hrp [Hup [Huv (f & Hf & H)%client_data_Ok]%reject_if_bind]%reject_if_bind]%reject_if_bind]%reject_if_bind]%reject_if_bind]%reject_if_bind.
  apply reject_if_bind in H as [Ht [Ho [Hx Hc%reject_if_Ok]%reject_if_bind]%reject_if_bind].
  exists f. split_and!; first [done|by apply bool_decide_ne_false|by apply Z.eqb_neq].
Qed.

Lemma keyop_auth_Ok a keys m : verify_keyop_auth sha256 p256 a keys m = Ok () →
  (∃ k, k ∈ keys ∧ kr_pubkey_sec1 k = signer_pubkey a ∧ kr_auth_scheme k = signer_auth_scheme a) ∧
  match a with
  | RawP256 pk sig => p256 pk sig (sha256 m) = true
  | WebAuthn pk ad cdj sig => verify_webauthn_envelope sha256 m ad cdj = Ok () ∧ p256 pk sig (sha256 (ad ++ sha256 cdj)) = true
  end.
Proof.
  unfold verify_keyop_auth. intros [He%negb_false_iff H]%reject_if_bind. split.
  - apply existsb_exists in He as (k & Hk & [Hp%bool_decide_eq_true Hs%Z.eqb_eq]%andb_true_iff). exists k. split_and!; [by apply list_elem_of_In|done..].
  - destruct a as [pk sig|pk ad cdj sig].
    + by apply reject_if_Ok, negb_false_iff in H.
    + destruct (verify_webauthn_envelope sha256 m ad cdj) as [[]| |] eqn:E; try discriminate. cbn in H. by apply reject_if_Ok, negb_false_iff in H.
Qed.
End acceptance.

(** A WebAuthn authorisation is accepted only from an active key of that scheme, over a
    [webauthn.get] assertion made at the expected origin and relying party with user presence and
    verification, and it binds its message: the same authorisation is accepted, against whatever key set, for another
    message only if that message has the same sha256 digest. *)
Theorem webauthn_binds_message (sha256 : Bytes → Bytes) (p256 : Bytes → Bytes → Bytes → bool) (pk ad cdj sig : Bytes) (keys : list KeyRecord) (m : Bytes) :
  (∀ b, length (sha256 b) = 32%nat ∧ Forall byte (sha256 b)) →
  verify_keyop_auth sha256 p256 (WebAuthn pk ad cdj sig) keys m = Ok () →
  (∃ k, k ∈ keys ∧ kr_pubkey_sec1 k = pk ∧ kr_auth_scheme k = 1) ∧
  p256 pk sig (sha256 (ad ++ sha256 cdj)) = true ∧
  (∃ f, extract_client_data_fields cdj = Ok f ∧ cd_type f = string_bytes "webauthn.get" ∧ cd_origin f = EXPECTED_WEBAUTHN_ORIGIN ∧ cd_cross_origin f = false) ∧
  take 32 ad = EXPECTED_RP_ID_HASH ∧ Z.land (ad !!! 32%nat) FLAG_UP ≠ 0 ∧ Z.land (ad !!! 32%nat) FLAG_UV ≠ 0 ∧
  ∀ keys' m', verify_keyop_auth sha256 p256 (WebAuthn pk ad cdj sig) keys' m' = Ok () → sha256 m' = sha256 m.
Proof.
  intros Hsha H. apply keyop_auth_Ok in H as [Hk [He Hp]]. apply envelope_Ok in He as (f & Hf & Ht & Ho & Hx & Hc & Hrp & Hup & Huv).
  split_and!; [done|done|by exists f|done..|]. intros keys' m' H'. apply keyop_auth_Ok in H' as [_ [He' _]].
  apply envelope_Ok in He' as (f' & Hf' & _ & _ & _ & Hc' & _). rewrite Hf in Hf'. injection Hf' as <-. rewrite Hc in Hc'.
  symmetry. apply (base64url_inj 10); [apply Hsha..|exact Hc'].
Qed.

(** An assertion with a constant digest. *)
Definition ex_sha (b : Bytes) : Bytes := replicate 32 (match b with x :: _ => x mod 256 | [] => 7 end).
Definition quoted (s : string) : Bytes := string_bytes s ≫= λ b, [if b =? 39 then 34 else b].
Definition ex_text (challenge : Bytes) : Bytes :=
  quoted "{ 'type' : 'webauthn.get', 'challenge':'" ++ challenge ++ quoted "','origin':'https:\/\/app.sybil\u002eexchange' }".
Definition ex_client_data : Bytes := ex_text (base64url (replicate 32 5)).
Lemma ex_assertion : verify_keyop_auth ex_sha (λ _ _ _, true) (WebAuthn [2] (EXPECTED_RP_ID_HASH ++ [5; 0; 0; 0; 1]) ex_client_data [9]) [mkKeyRecord 1 [2] 0] [5; 6] = Ok ().
Proof. vm_compute. reflexivity. Qed.
Lemma webauthn_binds_message_witness : ∀ keys' m',
  verify_keyop_auth ex_sha (λ _ _ _, true) (WebAuthn [2] (EXPECTED_RP_ID_HASH ++ [5; 0; 0; 0; 1]) ex_client_data [9]) keys' m' = Ok () → ex_sha m' = ex_sha [5; 6].
Proof.
  apply (webauthn_binds_message ex_sha (λ _ _ _, true) [2] (EXPECTED_RP_ID_HASH ++ [5; 0; 0; 0; 1]) ex_client_data [9] [mkKeyRecord 1 [2] 0] [5; 6]); [|exact ex_assertion].
  intros b. split; [apply length_replicate|]. apply Forall_replicate. unfold byte. change (int_max U8) with 255. destruct b as [|x b]; [lia|].
  pose proof (Z.mod_pos_bound x 256). lia.
Defined.
