(* ===== verification/Signing.v ===== *)
(** * Signing: the canonical bytes clients sign

    Models [crates/sybil-signing/src/lib.rs]: every message is a domain string
    followed by the Borsh serialisation of a request that carries the genesis
    hash.  Borsh is a third-party format: its encoders are the class
    [BorshFormat], what the code relies on is [BorshLaws] (encodings are
    self-delimiting), and a derived struct is its fields in order. *)
From S2P Require Import Prelude Types Order MmConstraint Account Digest Finalize L1Protocol.

(** ** The serialisation interface *)

(** An encoding that determines its value and where it ends. *)
Definition delimits {A} (P : A → Prop) (enc : A → Bytes) : Prop :=
  ∀ x y r r', P x → P y → enc x ++ r = enc y ++ r' → x = y ∧ r = r'.

Class BorshFormat := {
  borsh_u8 : Z → Bytes;
  borsh_i8 : Z → Bytes;
  borsh_u32 : Z → Bytes;
  borsh_u64 : Z → Bytes;
  borsh_variant : nat → Bytes;
  borsh_option : ∀ {A}, (A → Bytes) → option A → Bytes;
  borsh_vec : ∀ {A}, (A → Bytes) → list A → Bytes;
  borsh_string : Bytes → Bytes;
}.

Definition i8 (z : Z) : Prop := -128 ≤ z ≤ 127.
Definition of_option {A} (P : A → Prop) (o : option A) : Prop := match o with Some x => P x | None => True end.
Definition of_vec {A} (P : A → Prop) (l : list A) : Prop := Forall P l ∧ u32 (Z.of_nat (length l)).

Class BorshLaws (B : BorshFormat) : Prop := {
  u8_delimits : delimits byte borsh_u8;
  i8_delimits : delimits i8 borsh_i8;
  u32_delimits : delimits u32 borsh_u32;
  u64_delimits : delimits u64 borsh_u64;
  variant_delimits : delimits (λ n, n < 256)%nat borsh_variant;
  option_delimits {A} (P : A → Prop) enc : delimits P enc → delimits (of_option P) (borsh_option enc);
  vec_delimits {A} (P : A → Prop) enc : delimits P enc → delimits (of_vec P) (borsh_vec enc);
  string_delimits : delimits (of_vec byte) borsh_string;
}.

(** ** Message bodies *)

Record CanonicalOrder := mkCanonicalOrder {
  co_markets : list MarketId;
  co_num_markets : Z;
  co_payoffs : list Z;
  co_num_states : Z;
  co_limit_price : Z;
  co_max_fill : Z;
  co_condition : option PriceCondition;
  co_expires_at_block : option Z;
  co_nonce : Z;
}.

Record CanonicalMmBundleOrder := mkCanonicalMmBundleOrder {
  bo_markets : list MarketId;
  bo_num_markets : Z;
  bo_payoffs : list Z;
  bo_num_states : Z;
  bo_limit_price : Z;
  bo_max_fill : Z;
  bo_condition : option PriceCondition;
  bo_expires_at_block : option Z;
  bo_side : MmSide;
}.

Record CanonicalMmBundle := mkCanonicalMmBundle {
  cb_account_id : Z;
  cb_bundle_id : Bytes;
  cb_revision : Z;
  cb_orders : list CanonicalMmBundleOrder;
  cb_max_capital : Z;
  cb_nonce : Z;
}.

Record CanonicalMmBundleReplace := mkCanonicalMmBundleReplace {
  cr_expected_revision : Z;
  cr_replacement : CanonicalMmBundle;
}.

Record CanonicalMmBundleCancel := mkCanonicalMmBundleCancel {
  cc_account_id : Z;
  cc_bundle_id : Bytes;
  cc_expected_revision : Z;
  cc_nonce : Z;
}.

Record CanonicalWithdrawal := mkCanonicalWithdrawal {
  cw_account_id : Z;
  cw_chain_id : Z;
  cw_vault_address : Bytes;
  cw_recipient : Bytes;
  cw_token_address : Bytes;
  cw_amount_token_units : Z;
  cw_expiry_height : Z;
  cw_nonce : Z;
}.

Record CanonicalAttestation := mkCanonicalAttestation {
  ca_market_id : MarketId;
  ca_payout_nanos : Z;
  ca_nonce : Z;
}.

(** ** Domains *)

Definition ORDER_DOMAIN : Bytes := ascii_bytes "sybil/signing/order/v1".
Definition CANCEL_DOMAIN : Bytes := ascii_bytes "sybil/signing/cancel/v1".
Definition MM_BUNDLE_DOMAIN : Bytes := ascii_bytes "sybil/signing/mm-bundle/v1".
Definition MM_BUNDLE_REPLACE_DOMAIN : Bytes := ascii_bytes "sybil/signing/mm-bundle-replace/v1".
Definition MM_BUNDLE_CANCEL_DOMAIN : Bytes := ascii_bytes "sybil/signing/mm-bundle-cancel/v1".
Definition PROFILE_UPDATE_DOMAIN : Bytes := ascii_bytes "sybil/signing/profile-update/v1".
Definition API_KEY_CREATE_DOMAIN : Bytes := ascii_bytes "sybil/signing/read-api-key-create/v1".
Definition API_KEY_REVOKE_DOMAIN : Bytes := ascii_bytes "sybil/signing/read-api-key-revoke/v1".
Definition BRIDGE_WITHDRAWAL_DOMAIN : Bytes := ascii_bytes "sybil/signing/bridge-withdrawal/v1".
Definition RESOLUTION_ATTESTATION_DOMAIN : Bytes := ascii_bytes "sybil/signing/resolution-attestation/v1".

(** ** Serialisation of the bodies *)

Section bytes.
Context `{B : BorshFormat}.

Definition borsh_array {A} (enc : A → Bytes) (l : list A) : Bytes := concat (enc <$> l).
Definition borsh_hash : Bytes → Bytes := borsh_array borsh_u8.

Definition borsh_condition_dir (d : ConditionDir) : Bytes := borsh_variant (match d with Above => 0 | Below => 1 end)%nat.
Definition borsh_mm_side (s : MmSide) : Bytes :=
  borsh_variant (match s with SellYes => 0 | BuyYes => 1 | SellNo => 2 | BuyNo => 3 end)%nat.
Definition borsh_condition (c : PriceCondition) : Bytes :=
  borsh_u32 (pc_market c) ++ borsh_u64 (pc_threshold c) ++ borsh_condition_dir (pc_direction c).

Definition borsh_order (o : CanonicalOrder) : Bytes :=
  borsh_array borsh_u32 (co_markets o) ++ borsh_u8 (co_num_markets o) ++ borsh_array borsh_i8 (co_payoffs o) ++
  borsh_u8 (co_num_states o) ++ borsh_u64 (co_limit_price o) ++ borsh_u64 (co_max_fill o) ++
  borsh_option borsh_condition (co_condition o) ++ borsh_option borsh_u64 (co_expires_at_block o) ++ borsh_u64 (co_nonce o).
Definition borsh_mm_bundle_order (o : CanonicalMmBundleOrder) : Bytes :=
  borsh_array borsh_u32 (bo_markets o) ++ borsh_u8 (bo_num_markets o) ++ borsh_array borsh_i8 (bo_payoffs o) ++
  borsh_u8 (bo_num_states o) ++ borsh_u64 (bo_limit_price o) ++ borsh_u64 (bo_max_fill o) ++
  borsh_option borsh_condition (bo_condition o) ++ borsh_option borsh_u64 (bo_expires_at_block o) ++ borsh_mm_side (bo_side o).
Definition borsh_mm_bundle (b : CanonicalMmBundle) : Bytes :=
  borsh_u64 (cb_account_id b) ++ borsh_hash (cb_bundle_id b) ++ borsh_u64 (cb_revision b) ++
  borsh_vec borsh_mm_bundle_order (cb_orders b) ++ borsh_u64 (cb_max_capital b) ++ borsh_u64 (cb_nonce b).
Definition borsh_mm_bundle_replace (r : CanonicalMmBundleReplace) : Bytes :=
  borsh_u64 (cr_expected_revision r) ++ borsh_mm_bundle (cr_replacement r).
Definition borsh_mm_bundle_cancel (c : CanonicalMmBundleCancel) : Bytes :=
  borsh_u64 (cc_account_id c) ++ borsh_hash (cc_bundle_id c) ++ borsh_u64 (cc_expected_revision c) ++ borsh_u64 (cc_nonce c).
Definition borsh_withdrawal (w : CanonicalWithdrawal) : Bytes :=
  borsh_u64 (cw_account_id w) ++ borsh_u64 (cw_chain_id w) ++ borsh_hash (cw_vault_address w) ++ borsh_hash (cw_recipient w) ++
  borsh_hash (cw_token_address w) ++ borsh_u64 (cw_amount_token_units w) ++ borsh_u64 (cw_expiry_height w) ++ borsh_u64 (cw_nonce w).
Definition borsh_attestation (a : CanonicalAttestation) : Bytes :=
  borsh_u32 (ca_market_id a) ++ borsh_u64 (ca_payout_nanos a) ++ borsh_u64 (ca_nonce a).

(** ** Canonical messages *)

Definition domain_separated_bytes (domain payload : Bytes) : Bytes := domain ++ payload.

Definition signing_order_bytes (order : CanonicalOrder) (genesis_hash : Bytes) : Bytes :=
  domain_separated_bytes ORDER_DOMAIN (borsh_hash genesis_hash ++ borsh_order order).
Definition signing_mm_bundle_bytes (bundle : CanonicalMmBundle) (genesis_hash : Bytes) : Bytes :=
  domain_separated_bytes MM_BUNDLE_DOMAIN (borsh_hash genesis_hash ++ borsh_mm_bundle bundle).
Definition signing_mm_bundle_replace_bytes (r : CanonicalMmBundleReplace) (genesis_hash : Bytes) : Bytes :=
  domain_separated_bytes MM_BUNDLE_REPLACE_DOMAIN (borsh_hash genesis_hash ++ borsh_mm_bundle_replace r).
Definition signing_mm_bundle_cancel_bytes (c : CanonicalMmBundleCancel) (genesis_hash : Bytes) : Bytes :=
  domain_separated_bytes MM_BUNDLE_CANCEL_DOMAIN (borsh_hash genesis_hash ++ borsh_mm_bundle_cancel c).
Definition signing_cancel_bytes (account_id order_id nonce : Z) (genesis_hash : Bytes) : Bytes :=
  domain_separated_bytes CANCEL_DOMAIN (borsh_hash genesis_hash ++ borsh_u64 account_id ++ borsh_u64 order_id ++ borsh_u64 nonce).
Definition canonical_attestation_bytes (a : CanonicalAttestation) (genesis_hash : Bytes) : Bytes :=
  domain_separated_bytes RESOLUTION_ATTESTATION_DOMAIN (borsh_hash genesis_hash ++ borsh_attestation a).
Definition canonical_bridge_withdrawal_bytes (w : CanonicalWithdrawal) (genesis_hash : Bytes) : Bytes :=
  domain_separated_bytes BRIDGE_WITHDRAWAL_DOMAIN (borsh_hash genesis_hash ++ borsh_withdrawal w).
Definition canonical_profile_update_bytes (account_id : Z) (display_name avatar_seed : option Bytes) (nonce : Z) (genesis_hash : Bytes) : Bytes :=
  domain_separated_bytes PROFILE_UPDATE_DOMAIN
    (borsh_hash genesis_hash ++ borsh_u64 account_id ++ borsh_option borsh_string display_name ++ borsh_option borsh_string avatar_seed ++ borsh_u64 nonce).
Definition canonical_api_key_create_bytes (account_id : Z) (label : option Bytes) (nonce : Z) (genesis_hash : Bytes) : Bytes :=
  domain_separated_bytes API_KEY_CREATE_DOMAIN
    (borsh_hash genesis_hash ++ borsh_u64 account_id ++ borsh_option borsh_string label ++ borsh_u64 nonce).
Definition canonical_api_key_revoke_bytes (account_id api_key_id nonce : Z) (genesis_hash : Bytes) : Bytes :=
  domain_separated_bytes API_KEY_REVOKE_DOMAIN (borsh_hash genesis_hash ++ borsh_u64 account_id ++ borsh_u64 api_key_id ++ borsh_u64 nonce).
End bytes.

(** ** Signed messages *)

(** The message kinds of the crate, each with the values it commits to. *)
Inductive SignedMessage :=
  | SmOrder (o : CanonicalOrder)
  | SmCancel (account_id order_id nonce : Z)
  | SmMmBundle (b : CanonicalMmBundle)
  | SmMmBundleReplace (r : CanonicalMmBundleReplace)
  | SmMmBundleCancel (c : CanonicalMmBundleCancel)
  | SmProfileUpdate (account_id : Z) (display_name avatar_seed : option Bytes) (nonce : Z)
  | SmApiKeyCreate (account_id : Z) (label : option Bytes) (nonce : Z)
  | SmApiKeyRevoke (account_id api_key_id nonce : Z)
  | SmWithdrawal (w : CanonicalWithdrawal)
  | SmAttestation (a : CanonicalAttestation).

Definition message_bytes `{BorshFormat} (genesis_hash : Bytes) (m : SignedMessage) : Bytes :=
  match m with
  | SmOrder o => signing_order_bytes o genesis_hash
  | SmCancel a o n => signing_cancel_bytes a o n genesis_hash
  | SmMmBundle b => signing_mm_bundle_bytes b genesis_hash
  | SmMmBundleReplace r => signing_mm_bundle_replace_bytes r genesis_hash
  | SmMmBundleCancel c => signing_mm_bundle_cancel_bytes c genesis_hash
  | SmProfileUpdate a d v n => canonical_profile_update_bytes a d v n genesis_hash
  | SmApiKeyCreate a l n => canonical_api_key_create_bytes a l n genesis_hash
  | SmApiKeyRevoke a k n => canonical_api_key_revoke_bytes a k n genesis_hash
  | SmWithdrawal w => canonical_bridge_withdrawal_bytes w genesis_hash
  | SmAttestation a => canonical_attestation_bytes a genesis_hash
  end.

(** The values are of their Rust types. *)
Definition array_of {A} (n : nat) (P : A → Prop) (l : list A) : Prop := length l = n ∧ Forall P l.
Definition condition_ok (c : PriceCondition) : Prop := u32 (pc_market c) ∧ u64 (pc_threshold c).
Definition order_body_ok (markets : list MarketId) (nm : Z) (payoffs : list Z) (ns limit max : Z) (c : option PriceCondition) (x : option Z) : Prop :=
  array_of MAX_MARKETS_PER_ORDER u32 markets ∧ byte nm ∧ array_of MAX_STATES i8 payoffs ∧ byte ns ∧ u64 limit ∧ u64 max ∧
  of_option condition_ok c ∧ of_option u64 x.
Definition canonical_order_ok (o : CanonicalOrder) : Prop :=
  order_body_ok (co_markets o) (co_num_markets o) (co_payoffs o) (co_num_states o) (co_limit_price o) (co_max_fill o) (co_condition o)
    (co_expires_at_block o) ∧ u64 (co_nonce o).
Definition bundle_order_ok (o : CanonicalMmBundleOrder) : Prop :=
  order_body_ok (bo_markets o) (bo_num_markets o) (bo_payoffs o) (bo_num_states o) (bo_limit_price o) (bo_max_fill o) (bo_condition o)
    (bo_expires_at_block o).
Definition bundle_ok (b : CanonicalMmBundle) : Prop :=
  u64 (cb_account_id b) ∧ array_of 32 byte (cb_bundle_id b) ∧ u64 (cb_revision b) ∧ of_vec bundle_order_ok (cb_orders b) ∧
  u64 (cb_max_capital b) ∧ u64 (cb_nonce b).
Definition message_ok (m : SignedMessage) : Prop :=
  match m with
  | SmOrder o => canonical_order_ok o
  | SmCancel a o n => u64 a ∧ u64 o ∧ u64 n
  | SmMmBundle b => bundle_ok b
  | SmMmBundleReplace r => u64 (cr_expected_revision r) ∧ bundle_ok (cr_replacement r)
  | SmMmBundleCancel c => u64 (cc_account_id c) ∧ array_of 32 byte (cc_bundle_id c) ∧ u64 (cc_expected_revision c) ∧ u64 (cc_nonce c)
  | SmProfileUpdate a d v n => u64 a ∧ of_option (of_vec byte) d ∧ of_option (of_vec byte) v ∧ u64 n
  | SmApiKeyCreate a l n => u64 a ∧ of_option (of_vec byte) l ∧ u64 n
  | SmApiKeyRevoke a k n => u64 a ∧ u64 k ∧ u64 n
  | SmWithdrawal w => u64 (cw_account_id w) ∧ u64 (cw_chain_id w) ∧ array_of 20 byte (cw_vault_address w) ∧
      array_of 20 byte (cw_recipient w) ∧ array_of 20 byte (cw_token_address w) ∧ u64 (cw_amount_token_units w) ∧
      u64 (cw_expiry_height w) ∧ u64 (cw_nonce w)
  | SmAttestation a => u32 (ca_market_id a) ∧ u64 (ca_payout_nanos a) ∧ u64 (ca_nonce a)
  end.

(** ** Messages determine what was signed *)

Section injectivity.
Context `{B : BorshFormat} {L : BorshLaws B}.

Lemma array_delimits {A} n (P : A → Prop) enc : delimits P enc → delimits (array_of n P) (borsh_array enc).
Proof.
  intros He. induction n as [|n IH]; intros x y r r' [Hx Px] [Hy Py] Heq.
  - apply nil_length_inv in Hx as ->, Hy as ->. done.
  - destruct x as [|a x], y as [|b y]; try done. apply Forall_cons in Px as [Pa Px], Py as [Pb Py]. unfold borsh_array in Heq. cbn [fmap list_fmap concat] in Heq.
    rewrite <- !(assoc_L (++)) in Heq. apply He in Heq as [-> Heq]; [|done..]. apply IH in Heq as [-> ->]; [done|split; [by injection Hx|done]|split; [by injection Hy|done]].
Qed.
Lemma hash_delimits n : delimits (array_of n byte) borsh_hash.
Proof. apply array_delimits, u8_delimits. Qed.

Lemma condition_dir_delimits : delimits (λ _, True) borsh_condition_dir.
Proof. intros x y r r' _ _ Heq. apply variant_delimits in Heq as [Heq ->]; [|destruct x; lia|destruct y; lia]. by destruct x, y. Qed.
Lemma mm_side_delimits : delimits (λ _, True) borsh_mm_side.
Proof. intros x y r r' _ _ Heq. apply variant_delimits in Heq as [Heq ->]; [|destruct x; lia|destruct y; lia]. by destruct x, y. Qed.

(** Reads the next field of two equal serialisations. *)
Ltac field lem Heq := let E := fresh "E" in apply lem in Heq as [E Heq]; [|tauto..].

Lemma condition_delimits : delimits condition_ok borsh_condition.
Proof.
  intros [m t d] [m' t' d'] r r' [? ?] [? ?] Heq. unfold borsh_condition in Heq. cbn [pc_market pc_threshold pc_direction] in *. rewrite <- !(assoc_L (++)) in Heq.
  field u32_delimits Heq. field u64_delimits Heq. field condition_dir_delimits Heq. by subst.
Qed.

Lemma array_u32_delimits n : delimits (array_of n u32) (borsh_array borsh_u32).
Proof. apply array_delimits, u32_delimits. Qed.
Lemma array_i8_delimits n : delimits (array_of n i8) (borsh_array borsh_i8).
Proof. apply array_delimits, i8_delimits. Qed.
Lemma option_condition_delimits : delimits (of_option condition_ok) (borsh_option borsh_condition).
Proof. apply option_delimits, condition_delimits. Qed.
Lemma option_u64_delimits : delimits (of_option u64) (borsh_option borsh_u64).
Proof. apply option_delimits, u64_delimits. Qed.
Lemma option_string_delimits : delimits (of_option (of_vec byte)) (borsh_option borsh_string).
Proof. apply option_delimits, string_delimits. Qed.

Lemma order_body_delimits mk nm py ns li mx c x r mk' nm' py' ns' li' mx' c' x' r' :
  order_body_ok mk nm py ns li mx c x → order_body_ok mk' nm' py' ns' li' mx' c' x' →
  borsh_array borsh_u32 mk ++ borsh_u8 nm ++ borsh_array borsh_i8 py ++ borsh_u8 ns ++ borsh_u64 li ++ borsh_u64 mx ++
    borsh_option borsh_condition c ++ borsh_option borsh_u64 x ++ r =
  borsh_array borsh_u32 mk' ++ borsh_u8 nm' ++ borsh_array borsh_i8 py' ++ borsh_u8 ns' ++ borsh_u64 li' ++ borsh_u64 mx' ++
    borsh_option borsh_condition c' ++ borsh_option borsh_u64 x' ++ r' →
  (mk, nm, py, ns, li, mx, c, x) = (mk', nm', py', ns', li', mx', c', x') ∧ r = r'.
Proof.
  intros (? & ? & ? & ? & ? & ? & ? & ?) (? & ? & ? & ? & ? & ? & ? & ?) Heq.
  field (array_u32_delimits MAX_MARKETS_PER_ORDER) Heq. field u8_delimits Heq. field (array_i8_delimits MAX_STATES) Heq. field u8_delimits Heq.
  field u64_delimits Heq. field u64_delimits Heq. field option_condition_delimits Heq. field option_u64_delimits Heq. by subst.
Qed.

Lemma order_delimits : delimits canonical_order_ok borsh_order.
Proof.
  intros [] [] r r' [? ?] [? ?] Heq. unfold borsh_order in Heq. cbn in *. rewrite <- !(assoc_L (++)) in Heq.
  field order_body_delimits Heq. field u64_delimits Heq. by simplify_eq.
Qed.
Lemma bundle_order_delimits : delimits bundle_order_ok borsh_mm_bundle_order.
Proof.
  intros [] [] r r' ? ? Heq. unfold borsh_mm_bundle_order in Heq. cbn in *. rewrite <- !(assoc_L (++)) in Heq.
  field order_body_delimits Heq. field mm_side_delimits Heq. by simplify_eq.
Qed.
Lemma bundle_orders_delimits : delimits (of_vec bundle_order_ok) (borsh_vec borsh_mm_bundle_order).
Proof. apply vec_delimits, bundle_order_delimits. Qed.
Lemma bundle_delimits : delimits bundle_ok borsh_mm_bundle.
Proof.
  intros [] [] r r' (? & ? & ? & ? & ? & ?) (? & ? & ? & ? & ? & ?) Heq. unfold borsh_mm_bundle in Heq. cbn in *. rewrite <- !(assoc_L (++)) in Heq.
  field u64_delimits Heq. field (hash_delimits 32) Heq. field u64_delimits Heq. field bundle_orders_delimits Heq. field u64_delimits Heq. field u64_delimits Heq. by subst.
Qed.

(** No domain is a prefix of another. *)
Definition domain_of (m : SignedMessage) : Bytes :=
  match m with
  | SmOrder _ => ORDER_DOMAIN | SmCancel _ _ _ => CANCEL_DOMAIN | SmMmBundle _ => MM_BUNDLE_DOMAIN
  | SmMmBundleReplace _ => MM_BUNDLE_REPLACE_DOMAIN | SmMmBundleCancel _ => MM_BUNDLE_CANCEL_DOMAIN
  | SmProfileUpdate _ _ _ _ => PROFILE_UPDATE_DOMAIN | SmApiKeyCreate _ _ _ => API_KEY_CREATE_DOMAIN
  | SmApiKeyRevoke _ _ _ => API_KEY_REVOKE_DOMAIN | SmWithdrawal _ => BRIDGE_WITHDRAWAL_DOMAIN
  | SmAttestation _ => RESOLUTION_ATTESTATION_DOMAIN
  end.
Definition body_of (m : SignedMessage) : Bytes :=
  match m with
  | SmOrder o => borsh_order o
  | SmCancel a o n => borsh_u64 a ++ borsh_u64 o ++ borsh_u64 n
  | SmMmBundle b => borsh_mm_bundle b
  | SmMmBundleReplace r => borsh_mm_bundle_replace r
  | SmMmBundleCancel c => borsh_mm_bundle_cancel c
  | SmProfileUpdate a d v n => borsh_u64 a ++ borsh_option borsh_string d ++ borsh_option borsh_string v ++ borsh_u64 n
  | SmApiKeyCreate a l n => borsh_u64 a ++ borsh_option borsh_string l ++ borsh_u64 n
  | SmApiKeyRevoke a k n => borsh_u64 a ++ borsh_u64 k ++ borsh_u64 n
  | SmWithdrawal w => borsh_withdrawal w
  | SmAttestation a => borsh_attestation a
  end.
Lemma message_layout g m : message_bytes g m = domain_of m ++ borsh_hash g ++ body_of m.
Proof. by destruct m. Qed.

Definition DOMAINS : list Bytes :=
  [ORDER_DOMAIN; CANCEL_DOMAIN; MM_BUNDLE_DOMAIN; MM_BUNDLE_REPLACE_DOMAIN; MM_BUNDLE_CANCEL_DOMAIN; PROFILE_UPDATE_DOMAIN;
   API_KEY_CREATE_DOMAIN; API_KEY_REVOKE_DOMAIN; BRIDGE_WITHDRAWAL_DOMAIN; RESOLUTION_ATTESTATION_DOMAIN].
Lemma domains_prefix_free : Forall (λ d, Forall (λ d', d `prefix_of` d' → d = d') DOMAINS) DOMAINS.
Proof. apply (bool_decide_unpack (Forall _ _)). vm_compute. reflexivity. Qed.
Lemma domain_listed m : domain_of m ∈ DOMAINS.
Proof. unfold DOMAINS. destruct m; cbn [domain_of]; set_solver. Qed.

Lemma domains_apart m m' r r' : domain_of m ++ r = domain_of m' ++ r' → domain_of m = domain_of m'.
Proof.
  intros Heq. pose proof domains_prefix_free as Hf. rewrite Forall_forall in Hf.
  assert (∀ a b, domain_of a `prefix_of` domain_of b → domain_of a = domain_of b) as Hp.
  { intros a b. specialize (Hf _ (domain_listed a)). rewrite Forall_forall in Hf. exact (Hf _ (domain_listed b)). }
  destruct (prefix_weak_total (domain_of m) (domain_of m') (domain_of m ++ r)) as [?|?]; [by apply prefix_app_r|rewrite Heq; by apply prefix_app_r|auto|].
  symmetry. auto.
Qed.

Lemma body_inj m m' : domain_of m = domain_of m' → message_ok m → message_ok m' → body_of m = body_of m' → m = m'.
Proof.
  intros Hd Hm Hm' Heq. apply (f_equal (λ b, b ++ [])) in Heq.
  destruct m, m'; try (vm_compute in Hd; discriminate Hd); cbn [body_of message_ok] in *.
  - field order_delimits Heq. by subst.
  - rewrite <- !(assoc_L (++)) in Heq. field u64_delimits Heq. field u64_delimits Heq. field u64_delimits Heq. by subst.
  - field bundle_delimits Heq. by subst.
  - destruct r, r0. unfold borsh_mm_bundle_replace in Heq. cbn in *. rewrite <- !(assoc_L (++)) in Heq. field u64_delimits Heq. field bundle_delimits Heq. by subst.
  - destruct c, c0. unfold borsh_mm_bundle_cancel in Heq. cbn in *. rewrite <- !(assoc_L (++)) in Heq.
    field u64_delimits Heq. field (hash_delimits 32) Heq. field u64_delimits Heq. field u64_delimits Heq. by subst.
  - rewrite <- !(assoc_L (++)) in Heq. field u64_delimits Heq. field option_string_delimits Heq. field option_string_delimits Heq. field u64_delimits Heq. by subst.
  - rewrite <- !(assoc_L (++)) in Heq. field u64_delimits Heq. field option_string_delimits Heq. field u64_delimits Heq. by subst.
  - rewrite <- !(assoc_L (++)) in Heq. field u64_delimits Heq. field u64_delimits Heq. field u64_delimits Heq. by subst.
  - destruct w, w0. unfold borsh_withdrawal in Heq. cbn in *. rewrite <- !(assoc_L (++)) in Heq. do 2 field u64_delimits Heq.
    do 3 field (hash_delimits 20) Heq. do 3 field u64_delimits Heq. by subst.
  - destruct a, a0. unfold borsh_attestation in Heq. cbn in *. rewrite <- !(assoc_L (++)) in Heq. field u32_delimits Heq. do 2 field u64_delimits Heq. by subst.
Qed.

Lemma message_bytes_inj g g' m m' : array_of 32 byte g → array_of 32 byte g' → message_ok m → message_ok m' →
  message_bytes g m = message_bytes g' m' → g = g' ∧ m = m'.
Proof.
  intros Hg Hg' Hm Hm' Heq. rewrite !message_layout in Heq. pose proof (domains_apart m m' _ _ Heq) as Hd. rewrite Hd in Heq. apply app_inv_head in Heq.
  apply (hash_delimits 32) in Heq as [-> Heq]; [|done..]. split; [done|]. by apply body_inj.
Qed.
End injectivity.

(** ** The Borsh format as its specification documents it *)

Definition borsh_vec_le {A} (enc : A → Bytes) (l : list A) : Bytes := le_bytes 4 (Z.of_nat (length l)) ++ concat (enc <$> l).
#[export] Instance borsh_le : BorshFormat := {|
  borsh_u8 := le_bytes 1;
  borsh_i8 := le_bytes 1;
  borsh_u32 := le_bytes 4;
  borsh_u64 := le_bytes 8;
  borsh_variant n := [Z.of_nat n];
  borsh_option A enc o := match o with Some x => 1 :: enc x | None => [0] end;
  borsh_vec A := borsh_vec_le;
  borsh_string s := le_bytes 4 (Z.of_nat (length s)) ++ s;
|}.

Lemma le_bytes_delimits n (P : Z → Prop) : (∀ x y, P x → P y → le_bytes n x = le_bytes n y → x = y) → delimits P (le_bytes n).
Proof. intros Hi x y r r' Hx Hy H. apply field_inj in H as [H ->]; [|by rewrite !le_bytes_length]. split; [|done]. by apply Hi. Qed.

Lemma elements_delimits {A} (P : A → Prop) enc : delimits P enc → ∀ x y r r', Forall P x → Forall P y → length x = length y →
  concat (enc <$> x) ++ r = concat (enc <$> y) ++ r' → x = y ∧ r = r'.
Proof.
  intros He. induction x as [|a x IH]; intros [|b y] r r' Hx Hy Hl H; try done. apply Forall_cons in Hx as [Ha Hx], Hy as [Hb Hy].
  cbn [fmap list_fmap concat] in H. rewrite <- !(assoc_L (++)) in H. apply He in H as [-> H]; [|done..].
  apply IH in H as [-> ->]; [done..|]. by injection Hl.
Qed.

#[export] Instance borsh_le_laws : BorshLaws borsh_le.
Proof.
  split; cbn [borsh_u8 borsh_i8 borsh_u32 borsh_u64 borsh_variant borsh_option borsh_vec borsh_string borsh_le].
  - apply le_bytes_delimits. intros x y Hx Hy H%le_bytes_inj. unfold byte in *. change (int_max U8) with 255 in *.
    change (256 ^ Z.of_nat 1) with 256 in H. rewrite !Z.mod_small in H by lia. done.
  - apply le_bytes_delimits. intros x y Hx Hy H%le_bytes_inj. unfold i8 in *. change (256 ^ Z.of_nat 1) with 256 in H. Z.div_mod_to_equations. lia.
  - apply le_bytes_delimits, le_u32_inj.
  - apply le_bytes_delimits, le_u64_inj.
  - intros x y r r' _ _ H. injection H as H ->. split; [lia|done].
  - intros A P enc He [x|] [y|] r r' Hx Hy H; cbn in *; try discriminate; injection H as H; [|done].
    apply He in H as [-> ->]; done.
  - intros A P enc He x y r r' [Hx Lx] [Hy Ly] H. unfold borsh_vec_le in H. rewrite <- !(assoc_L (++)) in H.
    apply field_inj in H as [Hl H]; [|by rewrite !le_bytes_length]. apply le_u32_inj in Hl; [|done..]. apply (elements_delimits P enc He) in H; try done. lia.
  - intros x y r r' [Hx Lx] [Hy Ly] H. rewrite <- !(assoc_L (++)) in H. apply field_inj in H as [Hl H]; [|by rewrite !le_bytes_length].
    apply le_u32_inj in Hl; [|done..]. apply field_inj in H; [done|lia].
Qed.
