(* ===== verification/ClientAction.v ===== *)
(** * ClientAction: signed client actions and the effects they authorise

    Models [crates/sybil-verifier/src/client_action.rs]: the canonical bytes of
    each action and [verify_bindings], which ties every authorisation event of a
    block to the order, bundle or cancellation it authorised. *)
From S2P Require Import Prelude Types Order MmConstraint Account Digest Finalize Witness L1Protocol AccountKeys WebAuthn Signing Snapshots.

(** ** Canonical bytes *)

(** Both arrays have [MAX_MARKETS_PER_ORDER] slots; the loop zips them. *)
Definition signed_markets (markets : list MarketId) : list MarketId :=
  take MAX_MARKETS_PER_ORDER markets ++ replicate (MAX_MARKETS_PER_ORDER - length markets) (int_max U32).

Definition to_canonical_order (o : Order) (nonce : Z) : CanonicalOrder :=
  mkCanonicalOrder (signed_markets (ord_markets o)) (ord_num_markets o) (ord_payoffs o) (ord_num_states o)
    (ord_limit_price o) (ord_max_fill o) (ord_condition o) (ord_expires_at_block o) nonce.

Definition to_canonical_mm_bundle_order (o : Order) (side : MmSide) : CanonicalMmBundleOrder :=
  let c := to_canonical_order o 0 in
  mkCanonicalMmBundleOrder (co_markets c) (co_num_markets c) (co_payoffs c) (co_num_states c) (co_limit_price c) (co_max_fill c)
    (co_condition c) (co_expires_at_block c) side.

Module Binding.
Inductive BindingError :=
  | LengthMismatch | RevisionExhausted | RevisionNotNext
  | DuplicateOrderResult (id : Z) | AlreadyInPreState (id : Z) | AuthorizedTwice (id : Z) | NoEffect (id : Z)
  | NoCancellation (id : Z) | NonzeroRevision | EmptyOrMismatched | PartiallyAdmitted | NoExactConstraint | ConstraintRetained.
End Binding.
Abbreviation BindingError := Binding.BindingError (only parsing).

Section canonical.
Context `{B : BorshFormat}.

Definition canonical_order_bytes (o : Order) (nonce : Z) (genesis_hash : Bytes) : Bytes :=
  signing_order_bytes (to_canonical_order o nonce) genesis_hash.

Definition canonical_cancel_bytes (account_id order_id nonce : Z) (genesis_hash : Bytes) : Bytes :=
  signing_cancel_bytes account_id order_id nonce genesis_hash.

Definition canonical_mm_bundle_bytes (account_id : Z) (bundle_id : Bytes) (revision : Z) (orders : list Order) (order_sides : list MmSide)
    (max_capital : Nanos) (nonce : Z) (genesis_hash : Bytes) : outcome BindingError Bytes :=
  reject_if (negb (length orders =? length order_sides)%nat) Binding.LengthMismatch;;
  let orders := zip_with to_canonical_mm_bundle_order orders order_sides in
  Ok (signing_mm_bundle_bytes (mkCanonicalMmBundle account_id bundle_id revision orders max_capital nonce) genesis_hash).

Definition canonical_mm_bundle_replace_bytes (account_id : Z) (bundle_id : Bytes) (expected_revision new_revision : Z) (orders : list Order)
    (order_sides : list MmSide) (max_capital : Nanos) (nonce : Z) (genesis_hash : Bytes) : outcome BindingError Bytes :=
  next ← ok_or (chk U64 (expected_revision + 1)) Binding.RevisionExhausted;
  reject_if (negb (new_revision =? next)) Binding.RevisionNotNext;;
  reject_if (negb (length orders =? length order_sides)%nat) Binding.LengthMismatch;;
  let orders := zip_with to_canonical_mm_bundle_order orders order_sides in
  Ok (signing_mm_bundle_replace_bytes
        (mkCanonicalMmBundleReplace expected_revision
           (mkCanonicalMmBundle account_id bundle_id new_revision orders max_capital nonce)) genesis_hash).

Definition canonical_mm_bundle_cancel_bytes (account_id : Z) (bundle_id : Bytes) (expected_revision nonce : Z) (genesis_hash : Bytes) : Bytes :=
  signing_mm_bundle_cancel_bytes (mkCanonicalMmBundleCancel account_id bundle_id expected_revision nonce) genesis_hash.
End canonical.

(** ** Order results of the block *)

Abbreviation results := (gmap Z (Z * Order)) (only parsing).

Definition add_result (m : results) (e : Z * Order) : outcome BindingError results :=
  match m !! ord_id e.2 with
  | Some _ => Err (Binding.DuplicateOrderResult (ord_id e.2))
  | None => Ok (<[ord_id e.2 := e]> m)
  end.
Definition or_insert_result (m : results) (e : Z * Order) : results :=
  match m !! ord_id e.2 with Some _ => m | None => <[ord_id e.2 := e]> m end.

Definition witness_results (w : BlockWitness) : outcome BindingError results :=
  accepted ← ofold add_result ∅ ((λ a, (wo_account_id a, wo_order a)) <$> bw_orders w);
  rejected ← ofold add_result accepted ((λ r, (wr_account_id r, wr_order r)) <$> bw_rejections w);
  Ok (fold_left or_insert_result ((λ r, (ros_account_id r, ros_order r)) <$> ss_resting_orders (bw_state_sidecar w)) rejected).

Definition pre_resting_ids (w : BlockWitness) : gset Z :=
  list_to_set ((λ r, ord_id (ros_order r)) <$> ss_resting_orders (bw_pre_state_sidecar w)).
Definition accepted_mm_ids (w : BlockWitness) : gset Z :=
  list_to_set ((λ a, ord_id (wo_order a)) <$> filter (λ a, wo_is_mm a = true) (bw_orders w)).
Definition rejected_ids (w : BlockWitness) : gset Z := list_to_set ((λ r, ord_id (wr_order r)) <$> bw_rejections w).

Definition has_result (order_results : results) (account_id : Z) (o : Order) : bool :=
  match order_results !! ord_id o with
  | Some (a, o') => bool_decide (a = account_id) && bool_decide (o' = o)
  | None => false
  end.

(** [OrderCancelled] of this account and order among the later events. *)
Definition is_cancellation (account_id order_id : Z) (e : Event.SystemEventWitness) : bool :=
  match e with
  | Event.OrderCancelled a o _ _ _ => bool_decide (a = account_id) && bool_decide (o = order_id)
  | _ => false
  end.
Definition is_resolution_of (o : Order) (e : Event.SystemEventWitness) : bool :=
  match e with
  | Event.MarketResolved m _ _ => existsb (λ active, bool_decide (active = m)) (active_markets o)
  | _ => false
  end.
Definition is_bundle_of (account_id : Z) (e : Event.SystemEventWitness) : bool :=
  match e with
  | Event.ClientActionAuthorized (Action.MmBundle a _ _ _ _ _ _ _)
  | Event.ClientActionAuthorized (Action.MmBundleReplace a _ _ _ _ _ _ _ _) => bool_decide (a = account_id)
  | _ => false
  end.

(** ** Bundles *)

Abbreviation authorized := (gmap Z (nat * Z)) (only parsing).

Definition exact_constraint (account_id : Z) (orders : list Order) (order_sides : list MmSide) (max_capital : Nanos) (c : MmConstraint) : bool :=
  bool_decide (mm_id c = account_id) && bool_decide (mm_max_capital c = max_capital) &&
  (length (mm_order_ids c) =? length orders)%nat && (size (mm_order_sides c) =? length orders)%nat &&
  forallb (λ '(o, side), bool_decide (ord_id o ∈ mm_order_ids c) && bool_decide (mm_order_sides c !! ord_id o = Some side))
    (zip orders order_sides).

Section bindings.
Context (w : BlockWitness) (order_results : results).

Definition bind_mm_order (event_index : nat) (account_id : Z) (acc : gset Z * authorized) (o : Order) : outcome BindingError (gset Z * authorized) :=
  let '(ids, authorized_orders) := acc in
  reject_if (bool_decide (ord_id o ∈ pre_resting_ids w)) (Binding.AlreadyInPreState (ord_id o));;
  reject_if (bool_decide (ord_id o ∈ ids) || bool_decide (is_Some (authorized_orders !! ord_id o))) (Binding.AuthorizedTwice (ord_id o));;
  reject_if (negb (has_result order_results account_id o)) (Binding.NoEffect (ord_id o));;
  Ok ({[ord_id o]} ∪ ids, <[ord_id o := (event_index, account_id)]> authorized_orders).

Definition verify_mm_bundle_binding (authorized_orders : authorized) (event_index : nat) (account_id : Z) (orders : list Order)
    (order_sides : list MmSide) (max_capital : Nanos) : outcome BindingError authorized :=
  reject_if ((length orders =? 0)%nat || negb (length orders =? length order_sides)%nat) Binding.EmptyOrMismatched;;
  '(ids, authorized_orders) ← ofold (bind_mm_order event_index account_id) (∅, authorized_orders) orders;
  let accepted := size (filter (λ id, id ∈ accepted_mm_ids w) ids) in
  let rejected := size (filter (λ id, id ∈ rejected_ids w) ids) in
  reject_if (negb (accepted =? size ids)%nat && negb (rejected =? size ids)%nat) Binding.PartiallyAdmitted;;
  reject_if (negb (existsb (exact_constraint account_id orders order_sides max_capital) (bw_mm_constraints w))) Binding.NoExactConstraint;;
  Ok authorized_orders.

(** One authorisation event; [later] is [witness.system_events[index + 1..]]. *)
Definition bind_action (authorized_orders : authorized) (index : nat) (action : Action.ClientActionWitness)
    (later : list Event.SystemEventWitness) : outcome BindingError authorized :=
  match action with
  | Action.Order account_id o _ _ =>
      reject_if (bool_decide (ord_id o ∈ pre_resting_ids w)) (Binding.AlreadyInPreState (ord_id o));;
      reject_if (bool_decide (is_Some (authorized_orders !! ord_id o))) (Binding.AuthorizedTwice (ord_id o));;
      reject_if (negb (has_result order_results account_id o) && negb (existsb (is_cancellation account_id (ord_id o)) later) &&
                 negb (existsb (is_resolution_of o) later)) (Binding.NoEffect (ord_id o));;
      Ok (<[ord_id o := (index, account_id)]> authorized_orders)
  | Action.Cancel account_id order_id _ _ =>
      reject_if (negb (existsb (is_cancellation account_id order_id) later)) (Binding.NoCancellation order_id);;
      Ok authorized_orders
  | Action.MmBundle account_id _ revision orders order_sides max_capital _ _ =>
      reject_if (negb (revision =? 0)) Binding.NonzeroRevision;;
      verify_mm_bundle_binding authorized_orders index account_id orders order_sides max_capital
  | Action.MmBundleReplace account_id _ expected_revision new_revision orders order_sides max_capital _ _ =>
      next ← ok_or (chk U64 (expected_revision + 1)) Binding.RevisionExhausted;
      reject_if (negb (new_revision =? next)) Binding.RevisionNotNext;;
      verify_mm_bundle_binding authorized_orders index account_id orders order_sides max_capital
  | Action.MmBundleCancel account_id _ _ _ _ =>
      reject_if (negb (existsb (is_bundle_of account_id) later) &&
                 existsb (λ c, bool_decide (mm_id c = account_id)) (bw_mm_constraints w)) Binding.ConstraintRetained;;
      Ok authorized_orders
  end.

Fixpoint bind_events (authorized_orders : authorized) (index : nat) (events : list Event.SystemEventWitness) : outcome BindingError unit :=
  match events with
  | [] => Ok ()
  | Event.ClientActionAuthorized action :: later =>
      authorized_orders ← bind_action authorized_orders index action later;
      bind_events authorized_orders (S index) later
  | _ :: later => bind_events authorized_orders (S index) later
  end.
End bindings.

Definition verify_bindings (w : BlockWitness) : outcome BindingError unit :=
  order_results ← witness_results w;
  bind_events w order_results ∅ 0 (bw_system_events w).

Definition verify_client_action_bindings (w : BlockWitness) : VerificationResult :=
  match verify_bindings w with Ok _ => from_violations [] | _ => from_violations [VK.ClientActionMismatch] end.
