(* ===== verification/ClientActionProofs.v ===== *)
(** * ClientActionProofs: what the client-action binding check decides

    [verify_bindings] accepts exactly the blocks whose authorisations are each
    followed by their effect, with every order authorised once. *)
From S2P Require Import Prelude Types Order MmConstraint Account Digest Finalize Witness L1Protocol AccountKeys WebAuthn Signing Snapshots ClientAction.

(** ** Deciding computations *)

(** The computation returns exactly when [P] holds, and then with a result in [Q]. *)
Definition decides {E A} (m : outcome E A) (P : Prop) (Q : A → Prop) : Prop :=
  match m with Ok a => P ∧ Q a | Err _ => ¬ P | Panic => False end.

Lemma decides_bind {E A B} (m : outcome E A) (f : A → outcome E B) P P' Q Q' :
  decides m P Q → (∀ a, P → Q a → decides (f a) P' Q') → decides (m ≫= f) (P ∧ P') Q'.
Proof.
  unfold decides. intros Hm Hf. destruct m as [a|e|]; cbn; [|tauto..]. destruct Hm as [HP HQ]. specialize (Hf a HP HQ). destruct (f a); tauto.
Qed.
Lemma decides_iff {E A} (m : outcome E A) P P' Q Q' : decides m P Q → (P ↔ P') → (∀ a, P → Q a → Q' a) → decides m P' Q'.
Proof. unfold decides. intros Hm HP HQ. destruct m; [|tauto..]. destruct Hm. split; [tauto|auto]. Qed.
Lemma decides_reject {E} b (e : E) : decides (reject_if b e) (b = false) (λ _, True).
Proof. unfold decides, reject_if. by destruct b. Qed.
Lemma decides_reject_bind {E B} b (e : E) (f : unit → outcome E B) P Q :
  (b = false → decides (f ()) P Q) → decides (reject_if b e ≫= f) (b = false ∧ P) Q.
Proof. intros Hf. eapply decides_bind; [apply decides_reject|]. intros [] H _. auto. Qed.
Lemma decides_ret {E A} (a : A) (P : Prop) (Q : A → Prop) : P → Q a → decides (Ok a : outcome E A) P Q.
Proof. by split. Qed.
Lemma decides_Ok {E A} (m : outcome E A) P Q : decides m P Q → ((∃ a, m = Ok a) ↔ P).
Proof. unfold decides. destruct m as [a|e|]; intros H; split; try tauto; try (intros [? [=]]; done); eauto. Qed.

(** ** Results *)

Definition first_result (l : list (Z * Order)) (id : Z) : option (Z * Order) := head (filter (λ e, ord_id e.2 = id) l).
Definition result_ids (l : list (Z * Order)) : list Z := (λ e, ord_id e.2) <$> l.

Lemma first_result_cons e l id : first_result (e :: l) id = if decide (ord_id e.2 = id) then Some e else first_result l id.
Proof. unfold first_result. rewrite filter_cons. by destruct (decide (ord_id e.2 = id)). Qed.
Lemma first_result_None l id : first_result l id = None ↔ id ∉ result_ids l.
Proof.
  induction l as [|e l IH]; [split; [intros _; apply not_elem_of_nil|done]|]. rewrite first_result_cons. cbn. rewrite not_elem_of_cons.
  destruct (decide (ord_id e.2 = id)) as [<-|]; [split; [done|by intros [[] _]]|]. rewrite IH. naive_solver.
Qed.
Lemma first_result_app l l' id : first_result (l ++ l') id = match first_result l id with Some e => Some e | None => first_result l' id end.
Proof. induction l as [|e l IH]; [done|]. cbn [app]. rewrite !first_result_cons, IH. by destruct (decide _). Qed.

Lemma add_results l : ∀ m, decides (ofold add_result m l) (NoDup (result_ids l) ∧ ∀ id, id ∈ result_ids l → m !! id = None)
  (λ m', ∀ id, m' !! id = match m !! id with Some e => Some e | None => first_result l id end).
Proof.
  induction l as [|e l IH]; intros m; cbn [ofold].
  - apply decides_ret; [split; [apply NoDup_nil_2|by intros id ?%not_elem_of_nil]|]. intros id. by destruct (m !! id).
  - cbn [result_ids fmap list_fmap]. fold (result_ids l).
    destruct (m !! ord_id e.2) as [x|] eqn:E; (replace (add_result m e) with (match m !! ord_id e.2 with Some _ => Err (Binding.DuplicateOrderResult (ord_id e.2)) | None => Ok (<[ord_id e.2 := e]> m) end) by done); rewrite E; cbn [mbind outcome_bind].
    + unfold decides. intros [_ H]. specialize (H (ord_id e.2) ltac:(left)). congruence.
    + eapply decides_iff; [apply IH| |].
      * rewrite NoDup_cons. setoid_rewrite elem_of_cons. split.
        -- intros [Hn Hm]. split_and!; [|done|].
           ++ intros Hin. specialize (Hm _ Hin). by rewrite lookup_insert_eq in Hm.
           ++ intros id [->|Hin]; [done|]. specialize (Hm _ Hin). by apply lookup_insert_None in Hm as [? _].
        -- intros [[Hni Hnd] Hm]. split; [done|]. intros id Hin. rewrite lookup_insert_ne; [auto|]. by intros <-.
      * cbn beta. intros m' _ Hm' id. rewrite Hm', first_result_cons. destruct (decide (ord_id e.2 = id)) as [Heq|Hne]; [subst id; by rewrite lookup_insert_eq, E|].
        by rewrite lookup_insert_ne.
Qed.

Lemma or_insert_results l : ∀ m id, fold_left or_insert_result l m !! id = match m !! id with Some e => Some e | None => first_result l id end.
Proof.
  induction l as [|e l IH]; intros m id; cbn [fold_left]; [by destruct (m !! id)|]. rewrite IH, first_result_cons. unfold or_insert_result.
  destruct (m !! ord_id e.2) as [x|] eqn:E; destruct (decide (ord_id e.2 = id)) as [<-|Hne]; rewrite ?E, ?lookup_insert_eq, ?lookup_insert_ne by done; done.
Qed.

Definition batch_results (w : BlockWitness) : list (Z * Order) :=
  ((λ a, (wo_account_id a, wo_order a)) <$> bw_orders w) ++ ((λ r, (wr_account_id r, wr_order r)) <$> bw_rejections w).
Definition block_results (w : BlockWitness) : list (Z * Order) :=
  batch_results w ++ ((λ r, (ros_account_id r, ros_order r)) <$> ss_resting_orders (bw_state_sidecar w)).

Lemma witness_results_decides w : decides (witness_results w) (NoDup (result_ids (batch_results w)))
  (λ m, ∀ id, m !! id = first_result (block_results w) id).
Proof.
  unfold witness_results, block_results, batch_results. set (a := _ <$> bw_orders w). set (r := _ <$> bw_rejections w). set (s := _ <$> ss_resting_orders _).
  eapply (decides_iff _ (_ ∧ (NoDup (result_ids r) ∧ ∀ id, id ∈ result_ids r → id ∉ result_ids a) ∧ True) _
    (λ m, ∀ id, m !! id = match match first_result a id with Some e => Some e | None => first_result r id end with Some e => Some e | None => first_result s id end)).
  - eapply decides_bind; [apply (add_results a ∅)|]. intros m _ Hm. cbn beta in Hm. setoid_rewrite lookup_empty in Hm.
    eapply decides_bind; [eapply decides_iff; [apply (add_results r m)| |intros m' _ Hm'; exact Hm']|].
    + setoid_rewrite Hm. by setoid_rewrite first_result_None.
    + cbn beta. intros m' _ Hm'. apply decides_ret; [done|]. intros id. by rewrite or_insert_results, Hm', Hm.
  - unfold result_ids. rewrite fmap_app, NoDup_app. setoid_rewrite lookup_empty. naive_solver.
  - cbn beta. intros m _ Hm id. rewrite Hm, !first_result_app. done.
Qed.

(** ** The effects an authorisation needs *)

Definition action_orders (a : Action.ClientActionWitness) : list Order :=
  match a with
  | Action.Order _ o _ _ => [o]
  | Action.MmBundle _ _ _ orders _ _ _ _ | Action.MmBundleReplace _ _ _ _ orders _ _ _ _ => orders
  | _ => []
  end.
Definition event_action (e : Event.SystemEventWitness) : option Action.ClientActionWitness :=
  match e with Event.ClientActionAuthorized a => Some a | _ => None end.
Definition authorised_orders (events : list Event.SystemEventWitness) : list Order := omap event_action events ≫= action_orders.

(** The block's own outcome for the order: an accepted or rejected order of the
    batch, else an order resting in the committed sidecar. *)
Definition outcome_of (w : BlockWitness) (account_id : Z) (o : Order) : Prop :=
  first_result (block_results w) (ord_id o) = Some (account_id, o).
Definition cancelled_in (later : list Event.SystemEventWitness) (account_id order_id : Z) : Prop :=
  ∃ ms s q, Event.OrderCancelled account_id order_id ms s q ∈ later.
Definition resolved_in (later : list Event.SystemEventWitness) (o : Order) : Prop :=
  ∃ m p l, Event.MarketResolved m p l ∈ later ∧ m ∈ active_markets o.

Definition bundle_spec (w : BlockWitness) (account_id : Z) (orders : list Order) (sides : list MmSide) (max_capital : Nanos) : Prop :=
  orders ≠ [] ∧ length orders = length sides ∧ Forall (outcome_of w account_id) orders ∧
  (Forall (λ o, ord_id o ∈ accepted_mm_ids w) orders ∨ Forall (λ o, ord_id o ∈ rejected_ids w) orders) ∧
  ∃ c, c ∈ bw_mm_constraints w ∧ mm_id c = account_id ∧ mm_max_capital c = max_capital ∧
    length (mm_order_ids c) = length orders ∧ size (mm_order_sides c) = length orders ∧
    Forall (λ e, ord_id e.1 ∈ mm_order_ids c ∧ mm_order_sides c !! ord_id e.1 = Some e.2) (zip orders sides).

Definition effect_spec (w : BlockWitness) (a : Action.ClientActionWitness) (later : list Event.SystemEventWitness) : Prop :=
  match a with
  | Action.Order id o _ _ => outcome_of w id o ∨ cancelled_in later id (ord_id o) ∨ resolved_in later o
  | Action.Cancel id order_id _ _ => cancelled_in later id order_id
  | Action.MmBundle id _ revision orders sides max_capital _ _ => revision = 0 ∧ bundle_spec w id orders sides max_capital
  | Action.MmBundleReplace id _ expected new orders sides max_capital _ _ =>
      new = expected + 1 ∧ int_min U64 ≤ new ≤ int_max U64 ∧ bundle_spec w id orders sides max_capital
  | Action.MmBundleCancel id _ _ _ _ =>
      (∃ e, e ∈ later ∧ is_bundle_of id e = true) ∨ Forall (λ c, mm_id c ≠ id) (bw_mm_constraints w)
  end.

Section bindings_proof.
Context (w : BlockWitness) (res : gmap Z (Z * Order)).
Hypothesis Hres : ∀ id, res !! id = first_result (block_results w) id.

Lemma has_result_spec a o : has_result res a o = true ↔ outcome_of w a o.
Proof.
  unfold has_result, outcome_of. rewrite Hres. destruct (first_result _ _) as [[a' o']|]; [|split; [done|by intros [=]]].
  rewrite andb_true_iff, !bool_decide_eq_true. naive_solver.
Qed.
Lemma existsb_spec {A} (f : A → bool) l : existsb f l = true ↔ ∃ x, x ∈ l ∧ f x = true.
Proof. rewrite existsb_exists. by setoid_rewrite <- list_elem_of_In. Qed.

Lemma cancelled_spec later a o : existsb (is_cancellation a o) later = true ↔ cancelled_in later a o.
Proof.
  rewrite existsb_spec. unfold cancelled_in. split.
  - intros (e & He & Hc). destruct e; try discriminate. cbn in Hc. rewrite andb_true_iff, !bool_decide_eq_true in Hc. destruct Hc as [-> ->]. eauto.
  - intros (ms & s & q & H). eexists. split; [exact H|]. cbn. by rewrite !bool_decide_eq_true_2.
Qed.
Lemma resolved_spec later o : existsb (is_resolution_of o) later = true ↔ resolved_in later o.
Proof.
  rewrite existsb_spec. unfold resolved_in. split.
  - intros (e & He & Hc). destruct e; try discriminate. cbn in Hc. apply existsb_spec in Hc as (m & Hm & ->%bool_decide_eq_true). eauto 10.
  - intros (m & p & l & H & Hm). eexists. split; [exact H|]. cbn. apply existsb_spec. exists m. by rewrite bool_decide_eq_true_2.
Qed.

Lemma exact_constraint_spec id orders sides cap c : exact_constraint id orders sides cap c = true ↔
  mm_id c = id ∧ mm_max_capital c = cap ∧ length (mm_order_ids c) = length orders ∧ size (mm_order_sides c) = length orders ∧
  Forall (λ e, ord_id e.1 ∈ mm_order_ids c ∧ mm_order_sides c !! ord_id e.1 = Some e.2) (zip orders sides).
Proof.
  unfold exact_constraint. rewrite !andb_true_iff, !bool_decide_eq_true, !Nat.eqb_eq, forallb_forall, Forall_forall. setoid_rewrite <- list_elem_of_In.
  assert ((∀ x, x ∈ zip orders sides → (let '(o, side) := x in bool_decide (ord_id o ∈ mm_order_ids c) && bool_decide (mm_order_sides c !! ord_id o = Some side)) = true) ↔
    (∀ e, e ∈ zip orders sides → ord_id e.1 ∈ mm_order_ids c ∧ mm_order_sides c !! ord_id e.1 = Some e.2)) as ->; [|tauto].
  apply forall_proper. intros [o s]. by rewrite andb_true_iff, !bool_decide_eq_true.
Qed.

(** Orders are authorised once, and not while they rest in the pre-state. *)
Definition fresh_orders (seen : gset Z) (orders : list Order) : Prop :=
  NoDup (ord_id <$> orders) ∧ ∀ o, o ∈ orders → ord_id o ∉ seen ∧ ord_id o ∉ pre_resting_ids w.

Lemma fresh_orders_cons seen o orders : fresh_orders seen (o :: orders) ↔
  (ord_id o ∉ seen ∧ ord_id o ∉ pre_resting_ids w) ∧ fresh_orders ({[ord_id o]} ∪ seen) orders.
Proof.
  unfold fresh_orders. cbn. rewrite NoDup_cons. setoid_rewrite elem_of_cons. setoid_rewrite not_elem_of_union. setoid_rewrite not_elem_of_singleton.
  setoid_rewrite list_elem_of_fmap. split.
  - intros [[Hn Hd] Hf]. split; [apply Hf; by left|]. split; [done|]. intros o' Ho'. destruct (Hf o' ltac:(by right)). split_and!; try done.
    intros Heq. apply Hn. eauto.
  - intros [Ho [Hd Hf]]. split; [split; [|done]|].
    + intros (o' & Heq & Ho'). by destruct (Hf o' Ho') as [[? _] _].
    + intros o' [->|Ho']; [done|]. destruct (Hf o' Ho') as [[_ ?] ?]. done.
Qed.
Lemma fresh_orders_app seen l l' : fresh_orders seen (l ++ l') ↔ fresh_orders seen l ∧ fresh_orders (seen ∪ list_to_set (ord_id <$> l)) l'.
Proof.
  revert seen. induction l as [|o l IH]; intros seen; cbn [app].
  - replace (seen ∪ list_to_set (ord_id <$> [])) with seen by set_solver. split; [|tauto]. intros H. split; [split; [apply NoDup_nil_2|by intros ? ?%not_elem_of_nil]|done].
  - rewrite !fresh_orders_cons, IH. replace ({[ord_id o]} ∪ seen ∪ list_to_set (ord_id <$> l)) with (seen ∪ list_to_set (ord_id <$> o :: l)) by set_solver. tauto.
Qed.

Lemma bind_mm_orders_decides i a orders : ∀ ids m, ids ⊆ dom m →
  decides (ofold (bind_mm_order w res i a) (ids, m) orders) (fresh_orders (dom m) orders ∧ Forall (outcome_of w a) orders)
    (λ r, r.1 = ids ∪ list_to_set (ord_id <$> orders) ∧ dom r.2 = dom m ∪ list_to_set (ord_id <$> orders)).
Proof.
  induction orders as [|o orders IH]; intros ids m Hs; cbn [ofold].
  - apply decides_ret; [|cbn; set_solver]. split; [split; [apply NoDup_nil_2|by intros ? ?%not_elem_of_nil]|apply Forall_nil_2].
  - eapply decides_iff.
    + eapply (decides_bind _ _ _ (fresh_orders ({[ord_id o]} ∪ dom m) orders ∧ Forall (outcome_of w a) orders) (λ r, r = ({[ord_id o]} ∪ ids, <[ord_id o := (i, a)]> m))).
      * unfold bind_mm_order. do 3 (apply decides_reject_bind; intros _). by apply decides_ret.
      * intros r _ ->. eapply decides_iff; [apply IH; set_solver| |intros r _ Hr; exact Hr]. by rewrite dom_insert_L.
    + rewrite fresh_orders_cons, Forall_cons, orb_false_iff, !bool_decide_eq_false, negb_false_iff, has_result_spec.
      rewrite <- (elem_of_dom m). naive_solver.
    + cbn. intros r _ [-> ->]. rewrite dom_insert_L. split; set_solver.
Qed.

Lemma size_filter_all (X Y : gset Z) : size (filter (λ id, id ∈ Y) X) = size X ↔ X ⊆ Y.
Proof.
  split.
  - intros H id Hid. assert (filter (λ id, id ∈ Y) X = X) as Hf by (apply leibniz_equiv, set_subseteq_size_equiv; [set_solver|lia]). set_solver.
  - intros H. f_equal. set_solver.
Qed.
Lemma ids_subseteq orders (Y : gset Z) : list_to_set (ord_id <$> orders) ⊆ Y ↔ Forall (λ o, ord_id o ∈ Y) orders.
Proof. rewrite Forall_forall. set_solver. Qed.

Lemma bundle_decides i id orders sides cap m :
  decides (verify_mm_bundle_binding w res m i id orders sides cap) (fresh_orders (dom m) orders ∧ bundle_spec w id orders sides cap)
    (λ m', dom m' = dom m ∪ list_to_set (ord_id <$> orders)).
Proof.
  unfold verify_mm_bundle_binding. eapply decides_iff.
  - apply decides_reject_bind. intros _.
    eapply (decides_bind _ _ _ (_ ∧ _ ∧ True) _ (λ m', dom m' = dom m ∪ list_to_set (ord_id <$> orders))); [apply bind_mm_orders_decides; set_solver|].
    intros [ids m'] _ [Hi Hd]. cbn in Hi, Hd. subst ids. rewrite (left_id_L ∅ (∪)). do 2 (apply decides_reject_bind; intros _). by apply decides_ret.
  - rewrite orb_false_iff, andb_false_iff, !negb_false_iff, !Nat.eqb_eq, Nat.eqb_neq, !size_filter_all, !ids_subseteq, existsb_spec.
    setoid_rewrite exact_constraint_spec. unfold bundle_spec. assert (length orders ≠ 0%nat ↔ orders ≠ []) as ->; [by destruct orders|]. tauto.
  - done.
Qed.

Lemma bind_action_decides i a later m :
  decides (bind_action w res m i a later) (fresh_orders (dom m) (action_orders a) ∧ effect_spec w a later)
    (λ m', dom m' = dom m ∪ list_to_set (ord_id <$> action_orders a)).
Proof.
  assert (fresh_orders (dom m) []) as Hnil by (split; [apply NoDup_nil_2|by intros ? ?%not_elem_of_nil]).
  destruct a as [id o nonce auth|id oid nonce auth|id bid rev orders sides cap nonce auth|id bid rev new orders sides cap nonce auth|id bid rev nonce auth];
    cbn [bind_action action_orders effect_spec].
  - eapply decides_iff; [do 3 (apply decides_reject_bind; intros _); apply (decides_ret _ True (λ m', m' = <[ord_id o := (i, id)]> m)); [done|reflexivity]| |].
    + rewrite fresh_orders_cons, !bool_decide_eq_false, !andb_false_iff, !negb_false_iff, has_result_spec, cancelled_spec, resolved_spec, <- elem_of_dom.
      assert (fresh_orders ({[ord_id o]} ∪ dom m) []) by (split; [apply NoDup_nil_2|by intros ? ?%not_elem_of_nil]). tauto.
    + cbn. intros m' _ ->. rewrite dom_insert_L. set_solver.
  - eapply decides_iff; [apply decides_reject_bind; intros _; apply (decides_ret _ True (λ m', m' = m)); done| |].
    + rewrite negb_false_iff, cancelled_spec. tauto.
    + cbn. intros m' _ ->. set_solver.
  - eapply decides_iff; [apply decides_reject_bind; intros _; apply bundle_decides| |done]. rewrite negb_false_iff, Z.eqb_eq. tauto.
  - eapply (decides_iff _ (int_min U64 ≤ rev + 1 ≤ int_max U64 ∧ negb (new =? rev + 1) = false ∧ fresh_orders (dom m) orders ∧ bundle_spec w id orders sides cap) _
      (λ m', dom m' = dom m ∪ list_to_set (ord_id <$> orders))); [| |auto].
    + eapply (decides_bind _ _ _ _ (λ n, n = rev + 1)).
      * destruct (chk U64 (rev + 1)) as [z|] eqn:E; cbn [ok_or]; unfold decides; [by apply chk_Some in E as [-> ?]|apply chk_None in E; intros Hr; clear - E Hr; lia].
      * intros n _ ->. apply decides_reject_bind. intros _. apply bundle_decides.
    + rewrite negb_false_iff, Z.eqb_eq. split; [intros (? & -> & ? & ?)|intros (? & -> & ? & ?)]; tauto.
  - eapply decides_iff; [apply decides_reject_bind; intros _; apply (decides_ret _ True (λ m', m' = m)); done| |].
    + rewrite andb_false_iff, negb_false_iff, existsb_spec, <- not_true_iff_false, existsb_spec, Forall_forall. setoid_rewrite bool_decide_eq_true. naive_solver.
    + cbn. intros m' _ ->. set_solver.
Qed.

Lemma bind_events_decides events : ∀ m i, decides (bind_events w res m i events)
  (fresh_orders (dom m) (authorised_orders events) ∧
   ∀ k a, events !! k = Some (Event.ClientActionAuthorized a) → effect_spec w a (drop (S k) events)) (λ _, True).
Proof.
  induction events as [|e events IH]; intros m i.
  - apply decides_ret; [|done]. split; [split; [apply NoDup_nil_2|by intros ? ?%not_elem_of_nil]|done].
  - assert ((∀ k a, (e :: events) !! k = Some (Event.ClientActionAuthorized a) → effect_spec w a (drop (S k) (e :: events))) ↔
      (∀ a, event_action e = Some a → effect_spec w a events) ∧
      (∀ k a, events !! k = Some (Event.ClientActionAuthorized a) → effect_spec w a (drop (S k) events))) as Hsplit.
    { split.
      - intros H. split; [|intros k a Hk; exact (H (S k) a Hk)]. intros a Ha. destruct e; try discriminate. injection Ha as ->. exact (H O a eq_refl).
      - intros [H0 H] [|k] a Hk; [|exact (H k a Hk)]. injection Hk as ->. exact (H0 a eq_refl). }
    destruct (event_action e) as [a|] eqn:Ea.
    + destruct e; try discriminate. injection Ea as ->. cbn [bind_events]. eapply decides_iff.
      * eapply (decides_bind _ _ _ (fresh_orders (dom m ∪ list_to_set (ord_id <$> action_orders a)) (authorised_orders events) ∧ _)); [apply bind_action_decides|].
        intros m' _ Hm'. cbn in Hm'. rewrite <- Hm'. apply IH.
      * rewrite Hsplit. unfold authorised_orders. cbn [omap list_omap event_action]. rewrite bind_cons, fresh_orders_app. naive_solver.
      * done.
    + assert (bind_events w res m i (e :: events) = bind_events w res m (S i) events) as -> by (by destruct e).
      eapply decides_iff; [apply IH| |done]. rewrite Hsplit. unfold authorised_orders. cbn [omap list_omap]. rewrite Ea. naive_solver.
Qed.
End bindings_proof.

(** C16: the client-action check accepts a block exactly when the batch gives no order two results, every
    authorised order is authorised once and was not resting before, and every authorisation has its effect among the
    events that follow it, the block's results and its market-maker constraints: an order is
    accepted, rejected, resting, cancelled or resolved away; a bundle is wholly accepted or wholly rejected under the
    exact budget that was signed. *)
Theorem client_actions_bound (w : BlockWitness) : vr_valid (verify_client_action_bindings w) = true ↔
  NoDup (result_ids (batch_results w)) ∧ NoDup (ord_id <$> authorised_orders (bw_system_events w)) ∧
  Forall (λ o, ord_id o ∉ pre_resting_ids w) (authorised_orders (bw_system_events w)) ∧
  ∀ k a, bw_system_events w !! k = Some (Event.ClientActionAuthorized a) → effect_spec w a (drop (S k) (bw_system_events w)).
Proof.
  assert (decides (verify_bindings w) (NoDup (result_ids (batch_results w)) ∧ fresh_orders w (dom (∅ : gmap Z (nat * Z))) (authorised_orders (bw_system_events w)) ∧
    ∀ k a, bw_system_events w !! k = Some (Event.ClientActionAuthorized a) → effect_spec w a (drop (S k) (bw_system_events w))) (λ _, True)) as Hd.
  { eapply decides_bind; [apply witness_results_decides|]. intros res _ Hres. by apply bind_events_decides. }
  assert (vr_valid (verify_client_action_bindings w) = true ↔ ∃ a, verify_bindings w = Ok a) as ->.
  { unfold verify_client_action_bindings. destruct (verify_bindings w); split; try done; [eauto|by intros [? [=]]..]. }
  rewrite (decides_Ok _ _ _ Hd), Forall_forall. unfold fresh_orders. rewrite dom_empty_L.
  assert (∀ o : Order, ord_id o ∉ (∅ : gset Z)) as He by set_solver. naive_solver.
Qed.
