(* ===== verification/KeyTransition.v ===== *)
(** * KeyTransition: verification of the signing-key universe

    Models [crates/sybil-verifier/src/key_transition.rs]: from the key sets the
    witness claims after the block, the verifier undoes the block's key events
    to recover the sets before it, ties both ends to the committed digests, and
    replays the events forward checking every authorisation.  Key sets are
    [BTreeSet]s (sets listed in the derived order), SHA-256, BLAKE3, P-256 and the
    Borsh format are parameters. *)
From S2P Require Import Prelude Types Order MmConstraint Account Digest Finalize Witness L1Protocol AccountKeys WebAuthn Signing Snapshots ClientAction.

#[global] Instance KeyRecord_countable : Countable KeyRecord.
Proof.
  apply (inj_countable' (λ k, (kr_auth_scheme k, kr_pubkey_sec1 k, kr_capability_mask k)) (λ '(s, p, m), mkKeyRecord s p m)). by intros [].
Defined.

(** [derive(Ord)]: the fields in declaration order. *)
Definition key_ord (k k' : KeyRecord) : Prop :=
  kr_auth_scheme k < kr_auth_scheme k' ∨ kr_auth_scheme k = kr_auth_scheme k' ∧
  ((kr_pubkey_sec1 k ≠ kr_pubkey_sec1 k' ∧ bytes_le (kr_pubkey_sec1 k) (kr_pubkey_sec1 k')) ∨
   kr_pubkey_sec1 k = kr_pubkey_sec1 k' ∧ kr_capability_mask k ≤ kr_capability_mask k').
#[global] Instance key_ord_dec : RelDecision key_ord.
Proof. intros k k'. unfold key_ord. apply _. Defined.
Definition set_iter (s : gset KeyRecord) : list KeyRecord := stable_sort key_ord (elements s).

Abbreviation KeyMap := (gmap Z (gset KeyRecord)) (only parsing).

Module KT.
Inductive KeyError :=
  | DuplicateAccount (id : Z) | DuplicateKeysEntry (id : Z) | UnknownKeysAccount (id : Z)
  | TooManyKeys (id : Z) | UnsupportedScheme | NotCompressed | PartialCapability | DuplicatePubkey (id : Z)
  | AbsentFromUniverse (id : Z) | PostDigestMismatch (id : Z) | SharedPubkey (owner id : Z)
  | TooManyKeyOps | KeyEventAfterOther (id : Z)
  | ReverseNoAccount (id : Z) | ReverseKeyMissing (id : Z) | ReverseKeyPresent (id : Z) | ReverseCreateMismatch (id : Z)
  | CreatedInPreState (id : Z) | NoPreLeaf (id : Z) | MissingRecovered (id : Z) | PreDigestMismatch (id : Z)
  | UntouchedAbsent (id : Z) | UnwitnessedChange (id : Z)
  | CreateDuplicate (id : Z) | KeyCollision (id owner : Z) | DuplicateRegistration (id : Z)
  | NoRunningAccount (id : Z) | NoRunningDigest (id : Z) | Unauthorized (id : Z) (e : Auth.AuthError)
  | RegistrationLimit (id : Z) | LastKey (id : Z) | RevokeMissing (id : Z) | Canonical (e : Binding.BindingError)
  | ReplayMismatch.
End KT.
Abbreviation KeyError := KT.KeyError (only parsing).

(** ** Maps and validation *)

Definition add_account (m : gmap Z AccountSnapshot) (a : AccountSnapshot) : outcome KeyError (gmap Z AccountSnapshot) :=
  match m !! asn_id a with Some _ => Err (KT.DuplicateAccount (asn_id a)) | None => Ok (<[asn_id a := a]> m) end.
Definition account_map (accounts : list AccountSnapshot) : outcome KeyError (gmap Z AccountSnapshot) := ofold add_account ∅ accounts.

Definition validate_key_record (k : KeyRecord) : outcome KeyError unit :=
  reject_if (kr_auth_scheme k >? 1) KT.UnsupportedScheme;;
  first ← idx (kr_pubkey_sec1 k) 0;
  reject_if (negb ((first =? 2) || (first =? 3))) KT.NotCompressed;;
  reject_if (negb (kr_capability_mask k =? FULL_CAPABILITY_MASK)) KT.PartialCapability.

Definition validate_key (account_id : Z) (pubkeys : gset Bytes) (k : KeyRecord) : outcome KeyError (gset Bytes) :=
  validate_key_record k;;
  reject_if (bool_decide (kr_pubkey_sec1 k ∈ pubkeys)) (KT.DuplicatePubkey account_id);;
  Ok ({[kr_pubkey_sec1 k]} ∪ pubkeys).
Definition validate_key_list (account_id : Z) (keys : list KeyRecord) : outcome KeyError unit :=
  reject_if (Z.of_nat (length keys) >? MAX_KEYS_PER_ACCOUNT) (KT.TooManyKeys account_id);;
  ofold (validate_key account_id) ∅ keys;;
  Ok ().

Definition add_opened (post_accounts : gmap Z AccountSnapshot) (acc : KeyMap * gset Z) (e : Z * list KeyRecord) : outcome KeyError (KeyMap * gset Z) :=
  let '(out, seen) := acc in
  let '(account_id, keys) := e in
  reject_if (bool_decide (account_id ∈ seen)) (KT.DuplicateKeysEntry account_id);;
  reject_if (bool_decide (post_accounts !! account_id = None)) (KT.UnknownKeysAccount account_id);;
  validate_key_list account_id keys;;
  Ok (<[account_id := list_to_set keys]> out, {[account_id]} ∪ seen).
Definition normalized_post_key_map (w : BlockWitness) (post_accounts : gmap Z AccountSnapshot) : outcome KeyError KeyMap :=
  r ← ofold (add_opened post_accounts) (gset_to_gmap ∅ (dom post_accounts), ∅) (bw_account_keys w);
  Ok r.1.

Definition own_pubkey (account_id : Z) (out : gmap Bytes Z) (k : KeyRecord) : outcome KeyError (gmap Bytes Z) :=
  match out !! kr_pubkey_sec1 k with
  | Some previous => Err (KT.SharedPubkey previous account_id)
  | None => Ok (<[kr_pubkey_sec1 k := account_id]> out)
  end.
Definition own_pubkeys (out : gmap Bytes Z) (e : Z * gset KeyRecord) : outcome KeyError (gmap Bytes Z) :=
  ofold (own_pubkey e.1) out (set_iter e.2).
Definition pubkey_owner_map (keys : KeyMap) : outcome KeyError (gmap Bytes Z) := ofold own_pubkeys ∅ (btree_iter keys).
Definition ensure_global_pubkey_uniqueness (keys : KeyMap) : outcome KeyError unit := pubkey_owner_map keys;; Ok ().

Definition insert_globally_unique_key (account_id : Z) (k : KeyRecord) (account_keys : gset KeyRecord) (pubkeys : gmap Bytes Z)
    : outcome KeyError (gset KeyRecord * gmap Bytes Z) :=
  match pubkeys !! kr_pubkey_sec1 k with
  | Some owner => Err (KT.KeyCollision account_id owner)
  | None =>
      reject_if (bool_decide (k ∈ account_keys)) (KT.DuplicateRegistration account_id);;
      Ok ({[k]} ∪ account_keys, <[kr_pubkey_sec1 k := account_id]> pubkeys)
  end.

(** ** Event order *)

Definition key_event_account (e : Event.SystemEventWitness) : option Z :=
  match e with
  | Event.CreateAccount account_id _ _ | Event.KeyRegistered account_id _ _ | Event.KeyRevoked account_id _ _ => Some account_id
  | _ => None
  end.
Definition key_touched_accounts (events : list Event.SystemEventWitness) : gset Z := list_to_set (omap key_event_account events).

Definition action_account (a : Action.ClientActionWitness) : Z :=
  match a with
  | Action.Order account_id _ _ _ | Action.Cancel account_id _ _ _ | Action.MmBundle account_id _ _ _ _ _ _ _
  | Action.MmBundleReplace account_id _ _ _ _ _ _ _ _ | Action.MmBundleCancel account_id _ _ _ _ => account_id
  end.
Definition event_account_ids (e : Event.SystemEventWitness) : list Z :=
  match e with
  | Event.CreateAccount account_id _ _ | Event.Deposit account_id _ | Event.L1Deposit account_id _ _ _ _
  | Event.WithdrawalCreated account_id _ _ _ _ _ _ _ | Event.WithdrawalRefunded account_id _ _ _ | Event.WithdrawalFinalized account_id _ _
  | Event.OrderCancelled account_id _ _ _ _ | Event.KeyRegistered account_id _ _ | Event.KeyRevoked account_id _ _ => [account_id]
  | Event.ClientActionAuthorized action => [action_account action]
  | Event.QuarantineClaimed account_id _ _ => [account_id]
  | Event.MarketResolved _ _ affected_accounts => affected_accounts
  | Event.L1BlockObserved _ | Event.MarketGroupExtended _ _ | Event.DepositQuarantined _ _ _ _ => []
  end.

Definition order_event (saw_non_key_event : gset Z) (e : Event.SystemEventWitness) : outcome KeyError (gset Z) :=
  ofold (λ seen account_id,
      match e with
      | Event.ClientActionAuthorized _ => Ok seen
      | Event.CreateAccount _ _ _ | Event.KeyRegistered _ _ _ | Event.KeyRevoked _ _ _ =>
          reject_if (bool_decide (account_id ∈ seen)) (KT.KeyEventAfterOther account_id);; Ok seen
      | _ => Ok ({[account_id]} ∪ seen)
      end) saw_non_key_event (event_account_ids e).
Definition verify_key_event_order (events : list Event.SystemEventWitness) : outcome KeyError unit := ofold order_event ∅ events;; Ok ().

Definition is_key_mutation (e : Event.SystemEventWitness) : bool :=
  match e with Event.KeyRegistered _ _ _ | Event.KeyRevoked _ _ _ => true | _ => false end.

(** ** Reverse replay *)

Definition undo_event (post_keys : KeyMap) (e : Event.SystemEventWitness) : outcome KeyError KeyMap :=
  match e with
  | Event.KeyRegistered account_id k _ =>
      keys ← ok_or (post_keys !! account_id) (KT.ReverseNoAccount account_id);
      reject_if (negb (bool_decide (k ∈ keys))) (KT.ReverseKeyMissing account_id);;
      Ok (<[account_id := keys ∖ {[k]}]> post_keys)
  | Event.KeyRevoked account_id k _ =>
      keys ← ok_or (post_keys !! account_id) (KT.ReverseNoAccount account_id);
      reject_if (bool_decide (k ∈ keys)) (KT.ReverseKeyPresent account_id);;
      Ok (<[account_id := {[k]} ∪ keys]> post_keys)
  | Event.CreateAccount account_id _ initial_keys =>
      validate_key_list account_id initial_keys;;
      actual ← ok_or (post_keys !! account_id) (KT.ReverseNoAccount account_id);
      reject_if (negb (bool_decide (actual = list_to_set initial_keys))) (KT.ReverseCreateMismatch account_id);;
      Ok (delete account_id post_keys)
  | _ => Ok post_keys
  end.

Section verify.
Context (sha256 blake3 : Bytes → Bytes) (p256 : Bytes → Bytes → Bytes → bool) `{B : BorshFormat}.

Definition set_digest (account_id : Z) (keys : gset KeyRecord) : Bytes := account_keys_digest sha256 account_id (set_iter keys).

Definition weld_account (keys : KeyMap) (_ : unit) (e : Z * AccountSnapshot) : outcome KeyError unit :=
  active ← ok_or (keys !! e.1) (KT.AbsentFromUniverse e.1);
  reject_if (negb (bool_decide (asn_keys_digest e.2 = set_digest e.1 active))) (KT.PostDigestMismatch e.1).
Definition weld_post_keys (keys : KeyMap) (accounts : gmap Z AccountSnapshot) : outcome KeyError unit :=
  ofold (weld_account keys) () (btree_iter accounts).

Definition is_creation_of (account_id : Z) (e : Event.SystemEventWitness) : bool :=
  match e with Event.CreateAccount id _ _ => bool_decide (id = account_id) | _ => false end.

Definition check_touched (events : list Event.SystemEventWitness) (pre_accounts : gmap Z AccountSnapshot) (recovered : KeyMap)
    (_ : unit) (account_id : Z) : outcome KeyError unit :=
  if existsb (is_creation_of account_id) events then
    reject_if (bool_decide (is_Some (pre_accounts !! account_id))) (KT.CreatedInPreState account_id)
  else
    pre ← ok_or (pre_accounts !! account_id) (KT.NoPreLeaf account_id);
    keys ← ok_or (recovered !! account_id) (KT.MissingRecovered account_id);
    reject_if (negb (bool_decide (asn_keys_digest pre = set_digest account_id keys))) (KT.PreDigestMismatch account_id).

Definition check_untouched (touched : gset Z) (pre_accounts : gmap Z AccountSnapshot) (_ : unit) (e : Z * AccountSnapshot) : outcome KeyError unit :=
  if decide (e.1 ∈ touched) then Ok () else
  pre ← ok_or (pre_accounts !! e.1) (KT.UntouchedAbsent e.1);
  reject_if (negb (bool_decide (asn_keys_digest pre = asn_keys_digest e.2))) (KT.UnwitnessedChange e.1).

(** ** Forward replay *)

Record Replay := mkReplay {
  rp_running : gmap Z (gset KeyRecord);
  rp_pubkeys : gmap Bytes Z;
  rp_events : gmap Z Bytes;
}.

Definition action_canonical (genesis_hash : Bytes) (a : Action.ClientActionWitness) : outcome BindingError Bytes :=
  match a with
  | Action.Order _ o nonce _ => Ok (canonical_order_bytes o nonce genesis_hash)
  | Action.Cancel account_id order_id nonce _ => Ok (canonical_cancel_bytes account_id order_id nonce genesis_hash)
  | Action.MmBundle account_id bundle_id revision orders sides max_capital nonce _ =>
      canonical_mm_bundle_bytes account_id bundle_id revision orders sides max_capital nonce genesis_hash
  | Action.MmBundleReplace account_id bundle_id expected new orders sides max_capital nonce _ =>
      canonical_mm_bundle_replace_bytes account_id bundle_id expected new orders sides max_capital nonce genesis_hash
  | Action.MmBundleCancel account_id bundle_id expected nonce _ =>
      Ok (canonical_mm_bundle_cancel_bytes account_id bundle_id expected nonce genesis_hash)
  end.
Definition action_authorization (a : Action.ClientActionWitness) : KeyOpAuth :=
  match a with
  | Action.Order _ _ _ auth | Action.Cancel _ _ _ auth | Action.MmBundle _ _ _ _ _ _ _ auth
  | Action.MmBundleReplace _ _ _ _ _ _ _ _ auth | Action.MmBundleCancel _ _ _ _ auth => auth
  end.

Definition insert_initial (account_id : Z) (acc : gset KeyRecord * gmap Bytes Z) (k : KeyRecord) : outcome KeyError (gset KeyRecord * gmap Bytes Z) :=
  insert_globally_unique_key account_id k acc.1 acc.2.

(** [running_events.insert(account_id, update_digest(&events_digest, &encoded))] *)
Definition advance_digest (account_id : Z) (digest encoded : Bytes) (m : gmap Z Bytes) : gmap Z Bytes :=
  <[account_id := update_digest blake3 digest encoded]> m.

Definition replay_event (genesis_hash : Bytes) (height : Z) (r : Replay) (e : Event.SystemEventWitness) : outcome KeyError Replay :=
  match e with
  | Event.CreateAccount account_id initial_balance initial_keys =>
      reject_if (bool_decide (is_Some (rp_running r !! account_id))) (KT.CreateDuplicate account_id);;
      validate_key_list account_id initial_keys;;
      ks ← ofold (insert_initial account_id) (∅, rp_pubkeys r) initial_keys;
      Ok (mkReplay (<[account_id := ks.1]> (rp_running r)) ks.2
            (advance_digest account_id (replicate 32 0) (encode_create_account_event initial_balance height) (rp_events r)))
  | Event.KeyRegistered account_id k authorization =>
      validate_key_record k;;
      keys ← ok_or (rp_running r !! account_id) (KT.NoRunningAccount account_id);
      events_digest ← ok_or (rp_events r !! account_id) (KT.NoRunningDigest account_id);
      let canonical := canonical_key_registration_bytes genesis_hash account_id k (set_digest account_id keys) events_digest in
      map_err (KT.Unauthorized account_id) (verify_keyop_auth sha256 p256 authorization (set_iter keys) canonical);;
      reject_if (Z.of_nat (size keys) >=? MAX_KEYS_PER_ACCOUNT) (KT.RegistrationLimit account_id);;
      ks ← insert_globally_unique_key account_id k keys (rp_pubkeys r);
      Ok (mkReplay (<[account_id := ks.1]> (rp_running r)) ks.2
            (advance_digest account_id events_digest (encode_key_event 10 k height) (rp_events r)))
  | Event.KeyRevoked account_id k authorization =>
      validate_key_record k;;
      keys ← ok_or (rp_running r !! account_id) (KT.NoRunningAccount account_id);
      events_digest ← ok_or (rp_events r !! account_id) (KT.NoRunningDigest account_id);
      let canonical := canonical_key_revocation_bytes genesis_hash account_id k (set_digest account_id keys) events_digest in
      map_err (KT.Unauthorized account_id) (verify_keyop_auth sha256 p256 authorization (set_iter keys) canonical);;
      reject_if (Z.of_nat (size keys) <=? 1) (KT.LastKey account_id);;
      reject_if (negb (bool_decide (k ∈ keys))) (KT.RevokeMissing account_id);;
      Ok (mkReplay (<[account_id := keys ∖ {[k]}]> (rp_running r)) (delete (kr_pubkey_sec1 k) (rp_pubkeys r))
            (advance_digest account_id events_digest (encode_key_event 11 k height) (rp_events r)))
  | Event.ClientActionAuthorized action =>
      canonical ← map_err KT.Canonical (action_canonical genesis_hash action);
      keys ← ok_or (rp_running r !! action_account action) (KT.NoRunningAccount (action_account action));
      map_err (KT.Unauthorized (action_account action))
        (verify_keyop_auth sha256 p256 (action_authorization action) (set_iter keys) canonical);;
      Ok r
  | _ => Ok r
  end.

Definition verify (w : BlockWitness) : outcome KeyError unit :=
  pre_accounts ← account_map (bw_pre_state w);
  post_system_accounts ← account_map (bw_post_system_state w);
  post_accounts ← account_map (bw_post_state w);
  post_keys ← normalized_post_key_map w post_accounts;
  weld_post_keys post_keys post_system_accounts;;
  weld_post_keys post_keys post_accounts;;
  ensure_global_pubkey_uniqueness post_keys;;
  reject_if (Z.of_nat (length (filter (λ e, is_key_mutation e = true) (bw_system_events w))) >? MAX_KEY_OPS_PER_BLOCK) KT.TooManyKeyOps;;
  verify_key_event_order (bw_system_events w);;
  let touched := key_touched_accounts (bw_system_events w) in
  recovered ← ofold undo_event post_keys (reverse (bw_system_events w));
  ensure_global_pubkey_uniqueness recovered;;
  ofold (check_touched (bw_system_events w) pre_accounts recovered) () (stable_sort Z.le (elements touched));;
  ofold (check_untouched touched pre_accounts) () (btree_iter post_accounts);;
  pubkeys ← pubkey_owner_map recovered;
  r ← ofold (replay_event (bw_genesis_hash w) (hd_height (bw_header w)))
        (mkReplay recovered pubkeys (asn_events_digest <$> pre_accounts)) (bw_system_events w);
  expected_post ← normalized_post_key_map w post_accounts;
  reject_if (negb (bool_decide (rp_running r = expected_post))) KT.ReplayMismatch.

Definition verify_key_transitions (w : BlockWitness) : VerificationResult :=
  match verify w with Ok _ => from_violations [] | _ => from_violations [VK.KeyTransitionMismatch] end.
End verify.
