(* ===== verification/KeyTransitionProofs.v ===== *)
(** * KeyTransitionProofs: an accepted block is a run of the key machine

    The abstract machine changes the key universe one authorised event at a
    time.  [verify] accepts a block only if its events are a run of that machine
    from key sets committed before the block to the sets committed after it, so
    an account's keys change only on the authority of a key it had. *)
From S2P Require Import Prelude Types Order MmConstraint Account Digest Finalize Witness L1Protocol DepositFrontier AccountKeys WebAuthn WebAuthnProofs Signing Snapshots ClientAction ClientActionProofs KeyTransition.

(** ** The abstract key machine *)

Definition pubkey_free (K : gmap Z (gset KeyRecord)) (pk : Bytes) : Prop :=
  ∀ id ks k, K !! id = Some ks → k ∈ ks → kr_pubkey_sec1 k ≠ pk.
(** No public key is active twice, on one account or on two. *)
Definition unique_owner (K : gmap Z (gset KeyRecord)) : Prop :=
  ∀ id id' ks ks' k k', K !! id = Some ks → K !! id' = Some ks' → k ∈ ks → k' ∈ ks' → kr_pubkey_sec1 k = kr_pubkey_sec1 k' → id = id' ∧ k = k'.

Definition valid_key (k : KeyRecord) : Prop :=
  kr_auth_scheme k ≤ 1 ∧ (∃ b r, kr_pubkey_sec1 k = b :: r ∧ (b = 2 ∨ b = 3)) ∧ kr_capability_mask k = FULL_CAPABILITY_MASK.

Section machine.
Context (sha256 blake3 : Bytes → Bytes) (p256 : Bytes → Bytes → Bytes → bool) `{B : BorshFormat} (genesis : Bytes) (height : Z).

Definition authorised_by (keys : gset KeyRecord) (auth : KeyOpAuth) (message : Bytes) : Prop :=
  verify_keyop_auth sha256 p256 auth (elements keys) message = Ok ().

Inductive key_step : gmap Z (gset KeyRecord) * gmap Z Bytes → Event.SystemEventWitness → gmap Z (gset KeyRecord) * gmap Z Bytes → Prop :=
  | step_create K D id bal keys : K !! id = None → Z.of_nat (length keys) ≤ MAX_KEYS_PER_ACCOUNT → Forall valid_key keys →
      NoDup (kr_pubkey_sec1 <$> keys) → Forall (λ k, pubkey_free K (kr_pubkey_sec1 k)) keys →
      key_step (K, D) (Event.CreateAccount id bal keys)
        (<[id := list_to_set keys]> K, <[id := update_digest blake3 (replicate 32 0) (encode_create_account_event bal height)]> D)
  | step_register K D id ks d k auth : K !! id = Some ks → D !! id = Some d → valid_key k →
      authorised_by ks auth (canonical_key_registration_bytes genesis id k (set_digest sha256 id ks) d) →
      Z.of_nat (size ks) < MAX_KEYS_PER_ACCOUNT → pubkey_free K (kr_pubkey_sec1 k) →
      key_step (K, D) (Event.KeyRegistered id k auth)
        (<[id := {[k]} ∪ ks]> K, <[id := update_digest blake3 d (encode_key_event 10 k height)]> D)
  | step_revoke K D id ks d k auth : K !! id = Some ks → D !! id = Some d → valid_key k →
      authorised_by ks auth (canonical_key_revocation_bytes genesis id k (set_digest sha256 id ks) d) →
      1 < Z.of_nat (size ks) → k ∈ ks →
      key_step (K, D) (Event.KeyRevoked id k auth)
        (<[id := ks ∖ {[k]}]> K, <[id := update_digest blake3 d (encode_key_event 11 k height)]> D)
  | step_action K D a ks m : K !! action_account a = Some ks → action_canonical genesis a = Ok m → authorised_by ks (action_authorization a) m →
      key_step (K, D) (Event.ClientActionAuthorized a) (K, D)
  | step_other K D e : key_event_account e = None → event_action e = None → key_step (K, D) e (K, D).

Inductive key_run : gmap Z (gset KeyRecord) * gmap Z Bytes → list Event.SystemEventWitness → gmap Z (gset KeyRecord) * gmap Z Bytes → Prop :=
  | run_nil s : key_run s [] s
  | run_cons s s' s'' e l : key_step s e s' → key_run s' l s'' → key_run s (e :: l) s''.

End machine.

(** ** Owners of public keys *)

Definition owners (K : gmap Z (gset KeyRecord)) (P : gmap Bytes Z) : Prop :=
  ∀ pk id, P !! pk = Some id ↔ ∃ ks k, K !! id = Some ks ∧ k ∈ ks ∧ kr_pubkey_sec1 k = pk.

Lemma set_iter_perm s : set_iter s ≡ₚ elements s.
Proof. apply stable_sort_Permutation. Qed.
Lemma elem_of_set_iter s k : k ∈ set_iter s ↔ k ∈ s.
Proof. by rewrite set_iter_perm, elem_of_elements. Qed.
Lemma elem_of_btree_iter {A} (m : gmap Z A) e : e ∈ btree_iter m ↔ m !! e.1 = Some e.2.
Proof. unfold btree_iter. rewrite sort_by_key_perm. destruct e. by rewrite elem_of_map_to_list. Qed.

Definition owned (l : list (Z * gset KeyRecord)) : list (Z * KeyRecord) := l ≫= λ e, pair e.1 <$> set_iter e.2.
Lemma elem_of_owned l id k : (id, k) ∈ owned l ↔ ∃ ks, (id, ks) ∈ l ∧ k ∈ ks.
Proof.
  unfold owned. rewrite list_elem_of_bind. split.
  - intros ([i ks] & Hin & He). cbn in Hin. apply list_elem_of_fmap in Hin as (k' & [= -> ->] & Hk). rewrite elem_of_set_iter in Hk. eauto.
  - intros (ks & Hl & Hk). exists (id, ks). split; [|done]. apply list_elem_of_fmap. exists k. by rewrite elem_of_set_iter.
Qed.

Lemma own_pubkeys_owned l P : ofold own_pubkeys P l = ofold (λ out e, own_pubkey e.1 out e.2) P (owned l).
Proof.
  revert P. induction l as [|[id ks] l IH]; intros P; [done|]. unfold owned. rewrite bind_cons. cbn [ofold]. rewrite ofold_app. fold (owned l).
  assert (own_pubkeys P (id, ks) = ofold (λ out e, own_pubkey e.1 out e.2) P (pair id <$> set_iter ks)) as ->.
  { unfold own_pubkeys. cbn. generalize (set_iter ks). intros kl. revert P. induction kl as [|k kl IHk]; intros P; [done|]. cbn [fmap list_fmap ofold fst snd].
    destruct (own_pubkey id P k); [apply IHk|done..]. }
  destruct (ofold _ _ _); [apply IH|done..].
Qed.

Lemma own_list l : ∀ P P', ofold (λ out e, own_pubkey e.1 out e.2) P l = Ok P' →
  NoDup ((λ e, kr_pubkey_sec1 e.2) <$> l) ∧ (∀ e, e ∈ l → P !! kr_pubkey_sec1 e.2 = None) ∧
  ∀ pk id, P' !! pk = Some id ↔ P !! pk = Some id ∨ ∃ k, (id, k) ∈ l ∧ kr_pubkey_sec1 k = pk.
Proof.
  induction l as [|[i k] l IH]; intros P P'; cbn [ofold fst snd].
  - intros [= <-]. split; [apply NoDup_nil_2|]. split; [by intros ? ?%not_elem_of_nil|]. intros pk id. split; [by left|]. intros [|(? & ?%not_elem_of_nil & _)]; done.
  - destruct (own_pubkey i P k) as [P1| |] eqn:E; [|done..]. cbn [mbind outcome_bind]. unfold own_pubkey in E.
    destruct (P !! kr_pubkey_sec1 k) as [x|] eqn:Ek; [done|]. injection E as <-. rename Ek into E. intros H.
    apply IH in H as (Hn & Hf & Hp). split_and!.
    + cbn. apply NoDup_cons. split; [|done]. intros (e & He & Hin)%list_elem_of_fmap. specialize (Hf e Hin). rewrite <- He, lookup_insert_eq in Hf. done.
    + intros e [->|Hin]%elem_of_cons; [done|]. specialize (Hf e Hin). by apply lookup_insert_None in Hf as [? _].
    + intros pk id. rewrite Hp. setoid_rewrite elem_of_cons. destruct (decide (pk = kr_pubkey_sec1 k)) as [->|Hne].
      * rewrite lookup_insert_eq, E. split.
        -- intros [[= <-]|(k' & Hin & Hk')]; [right; exists k; auto|]. specialize (Hf _ Hin). cbn in Hf. rewrite Hk', lookup_insert_eq in Hf. done.
        -- intros [?|(k' & [[= -> ->]|Hin] & Hk')]; [done|by left|]. right. eauto.
      * rewrite lookup_insert_ne by done. split; [intros [|(k' & ? & ?)]; eauto 6|]. intros [|(k' & [[= -> ->]|Hin] & Hk')]; eauto. by destruct Hne.
Qed.

Lemma pubkey_owner_map_Ok K P : pubkey_owner_map K = Ok P → unique_owner K ∧ owners K P.
Proof.
  unfold pubkey_owner_map. rewrite own_pubkeys_owned. intros H. apply own_list in H as (Hn & _ & Hp).
  assert (∀ id k, (id, k) ∈ owned (btree_iter K) ↔ ∃ ks, K !! id = Some ks ∧ k ∈ ks) as Hin.
  { intros id k. rewrite elem_of_owned. by setoid_rewrite elem_of_btree_iter. }
  split.
  - intros id id' ks ks' k k' Hk Hk' Hks Hks' Heq.
    assert ((id, k) ∈ owned (btree_iter K)) as (i & Hi)%list_elem_of_lookup by (apply Hin; eauto).
    assert ((id', k') ∈ owned (btree_iter K)) as (j & Hj)%list_elem_of_lookup by (apply Hin; eauto).
    assert (i = j) as ->; [|naive_solver]. apply (NoDup_lookup _ _ _ (kr_pubkey_sec1 k) Hn); rewrite list_lookup_fmap; [by rewrite Hi|rewrite Hj, Heq; done].
  - intros pk id. rewrite Hp, lookup_empty. setoid_rewrite Hin. naive_solver.
Qed.

(** ** Validation *)

Lemma validate_key_record_Ok k : validate_key_record k = Ok () → valid_key k.
Proof.
  unfold validate_key_record. intros [Hs (b & Hb & [Hc Hm%reject_if_Ok]%reject_if_bind)%obind_Ok]%reject_if_bind.
  unfold idx in Hb. destruct (kr_pubkey_sec1 k) as [|b' r] eqn:E; [done|]. injection Hb as ->. rewrite negb_false_iff in Hc, Hm.
  split; [bdestruct; lia|]. split; [|by apply Z.eqb_eq]. exists b, r. split; [done|]. apply orb_true_iff in Hc as [?%Z.eqb_eq|?%Z.eqb_eq]; auto.
Qed.

Lemma validate_keys_Ok id keys : ∀ seen seen', ofold (validate_key id) seen keys = Ok seen' →
  Forall valid_key keys ∧ NoDup (kr_pubkey_sec1 <$> keys) ∧ (∀ k, k ∈ keys → kr_pubkey_sec1 k ∉ seen).
Proof.
  induction keys as [|k keys IH]; intros seen seen'; cbn [ofold].
  - intros _. split; [done|]. split; [apply NoDup_nil_2|by intros ? ?%not_elem_of_nil].
  - intros (s1 & Hk & H)%obind_Ok. apply IH in H as (Hv & Hn & Hd). unfold validate_key in Hk.
    apply obind_Ok in Hk as ([] & Hk%validate_key_record_Ok & [Hs Heq]%reject_if_bind). injection Heq as <-. apply bool_decide_eq_false in Hs.
    split; [by constructor|]. split.
    + cbn. apply NoDup_cons. split; [|done]. intros (k' & He & Hin)%list_elem_of_fmap. apply (Hd k' Hin). set_solver.
    + intros k' [->|Hin]%elem_of_cons; [done|]. specialize (Hd k' Hin). set_solver.
Qed.
Lemma validate_key_list_Ok id keys : validate_key_list id keys = Ok () →
  Z.of_nat (length keys) ≤ MAX_KEYS_PER_ACCOUNT ∧ Forall valid_key keys ∧ NoDup (kr_pubkey_sec1 <$> keys).
Proof.
  unfold validate_key_list. intros [Hl (s & Hk & _)%obind_Ok]%reject_if_bind. apply validate_keys_Ok in Hk as (Hv & Hn & _).
  split_and!; [|done..]. rewrite Z.gtb_ltb in Hl. by apply Z.ltb_ge in Hl.
Qed.

(** ** Forward replay *)

Lemma owners_free K P pk : owners K P → P !! pk = None → pubkey_free K pk.
Proof. intros Ho Hp id ks k Hk Hin Heq. assert (P !! pk = Some id) by (apply Ho; eauto). congruence. Qed.

(** Adding a key with a free public key to one account. *)
Lemma owners_insert K P id ks k : unique_owner K → owners K P → default ∅ (K !! id) = ks → P !! kr_pubkey_sec1 k = None →
  unique_owner (<[id := {[k]} ∪ ks]> K) ∧ owners (<[id := {[k]} ∪ ks]> K) (<[kr_pubkey_sec1 k := id]> P).
Proof.
  intros Hu Ho Hks Hp. pose proof (owners_free K P _ Ho Hp) as Hf.
  assert (∀ i ks' k', <[id := {[k]} ∪ ks]> K !! i = Some ks' → k' ∈ ks' → (i = id ∧ k' = k) ∨ ∃ ks0, K !! i = Some ks0 ∧ k' ∈ ks0) as Hcase.
  { intros i ks' k' [[<- <-]|[Hne Hi]]%lookup_insert_Some Hin; [|eauto]. apply elem_of_union in Hin as [->%elem_of_singleton|Hin]; [auto|].
    destruct (K !! id) as [ks0|] eqn:E; cbn in Hks; subst ks; [eauto|by apply not_elem_of_empty in Hin]. }
  assert (∀ i ks0 k', K !! i = Some ks0 → k' ∈ ks0 → ∃ ks', <[id := {[k]} ∪ ks]> K !! i = Some ks' ∧ k' ∈ ks') as Hold.
  { intros i ks0 k' Hi Hin. destruct (decide (i = id)) as [->|]; [|exists ks0; by rewrite lookup_insert_ne].
    exists ({[k]} ∪ ks). rewrite lookup_insert_eq. split; [done|]. rewrite Hi in Hks. cbn in Hks. set_solver. }
  split.
  - intros i i' ks1 ks2 k1 k2 H1 H2 Hk1 Hk2 Heq. destruct (Hcase _ _ _ H1 Hk1) as [[-> ->]|(a & Ha & Ha')], (Hcase _ _ _ H2 Hk2) as [[-> ->]|(b & Hb & Hb')].
    + done.
    + by destruct (Hf i' b k2).
    + by destruct (Hf i a k1).
    + eapply Hu; eauto.
  - intros pk i. destruct (decide (pk = kr_pubkey_sec1 k)) as [->|Hne].
    + rewrite lookup_insert_eq. split.
      * intros [= <-]. exists ({[k]} ∪ ks), k. rewrite lookup_insert_eq. set_solver.
      * intros (ks' & k' & Hi & Hk' & Heq). destruct (Hcase _ _ _ Hi Hk') as [[-> ->]|(a & Ha & Ha')]; [done|]. by destruct (Hf i a k').
    + rewrite lookup_insert_ne by done. rewrite (Ho pk i). split.
      * intros (ks0 & k' & Hi & Hk' & Heq). destruct (Hold _ _ _ Hi Hk') as (ks' & ? & ?). eauto.
      * intros (ks' & k' & Hi & Hk' & Heq). destruct (Hcase _ _ _ Hi Hk') as [[-> ->]|(a & Ha & Ha')]; [by destruct Hne|eauto].
Qed.

Lemma insert_key_Ok id k ks P r : insert_globally_unique_key id k ks P = Ok r →
  P !! kr_pubkey_sec1 k = None ∧ r = ({[k]} ∪ ks, <[kr_pubkey_sec1 k := id]> P).
Proof. unfold insert_globally_unique_key. destruct (P !! kr_pubkey_sec1 k); [done|]. intros [_ [= <-]]%reject_if_bind. done. Qed.

Lemma insert_initial_Ok K id keys : K !! id = None → ∀ ks P r, unique_owner (<[id := ks]> K) → owners (<[id := ks]> K) P →
  ofold (insert_initial id) (ks, P) keys = Ok r →
  r.1 = ks ∪ list_to_set keys ∧ unique_owner (<[id := r.1]> K) ∧ owners (<[id := r.1]> K) r.2 ∧ Forall (λ k, pubkey_free K (kr_pubkey_sec1 k)) keys.
Proof.
  intros HK. induction keys as [|k keys IH]; intros ks P r Hu Ho; cbn [ofold].
  - intros [= <-]. cbn. split_and!; [set_solver|done..|apply Forall_nil_2].
  - intros (s & Hs & H)%obind_Ok. unfold insert_initial in Hs. apply insert_key_Ok in Hs as [Hp ->]. cbn [fst snd] in *.
    destruct (owners_insert _ _ id ks k Hu Ho ltac:(by rewrite lookup_insert_eq) Hp) as [Hu' Ho']. rewrite insert_insert_eq in Hu', Ho'.
    apply IH in H as (-> & ? & ? & Hf); [|done..]. split_and!; [set_solver|done..|]. constructor; [|done].
    intros i ks' k' Hi Hin. apply (owners_free _ _ _ Ho Hp i ks' k'); [|done]. rewrite lookup_insert_ne; [done|]. intros ->. congruence.
Qed.

Lemma owners_remove K P id ks k : unique_owner K → owners K P → K !! id = Some ks → k ∈ ks →
  unique_owner (<[id := ks ∖ {[k]}]> K) ∧ owners (<[id := ks ∖ {[k]}]> K) (delete (kr_pubkey_sec1 k) P).
Proof.
  intros Hu Ho HK Hk.
  assert (∀ i k', (∃ ks', <[id := ks ∖ {[k]}]> K !! i = Some ks' ∧ k' ∈ ks') ↔ (∃ ks0, K !! i = Some ks0 ∧ k' ∈ ks0) ∧ (i, k') ≠ (id, k)) as Hiff.
  { intros i k'. destruct (decide (i = id)) as [->|Hne].
    - rewrite lookup_insert_eq. split; [intros (? & [= <-] & Hin)|intros [(? & Hi & Hin) Hp]].
      + apply elem_of_difference in Hin as [Hin Hk']. split; [eauto|]. intros [= ->]. set_solver.
      + eexists. split; [done|]. assert (k' ≠ k) by congruence. simplify_eq. set_solver.
    - rewrite lookup_insert_ne by done. split; [|by intros [? _]]. intros ?. split; [done|]. congruence. }
  split.
  - intros i i' ks1 ks2 k1 k2 H1 H2 Hk1 Hk2 Heq. destruct (proj1 (Hiff i k1)) as [(a & ? & ?) _]; [eauto|]. destruct (proj1 (Hiff i' k2)) as [(b & ? & ?) _]; [eauto|].
    eapply Hu; eauto.
  - intros pk i. rewrite lookup_delete_Some, (Ho pk i). split.
    + intros [Hne (ks0 & k' & Hi & Hin & Heq)]. destruct (proj2 (Hiff i k')) as (ks' & ? & ?); [split; [eauto|]; congruence|]. eauto.
    + intros (ks' & k' & Hi & Hin & Heq). destruct (proj1 (Hiff i k')) as [(ks0 & Hi0 & Hin0) Hp]; [eauto|]. split; [|eauto].
      intros Hpk. destruct (Hu id i ks ks0 k k' HK Hi0 Hk Hin0 ltac:(congruence)) as [-> ->]. done.
Qed.

Section forward.
Context (sha256 blake3 : Bytes → Bytes) (p256 : Bytes → Bytes → Bytes → bool) `{B : BorshFormat} (genesis : Bytes) (height : Z).

Lemma verify_keyop_auth_ext auth keys keys' m : (∀ k, k ∈ keys ↔ k ∈ keys') →
  verify_keyop_auth sha256 p256 auth keys m = verify_keyop_auth sha256 p256 auth keys' m.
Proof.
  intros Hk. unfold verify_keyop_auth. enough (existsb (active_signer auth) keys = existsb (active_signer auth) keys') as -> by done.
  apply eq_true_iff_eq. rewrite !existsb_spec. by setoid_rewrite Hk.
Qed.
Lemma set_authorised ks auth m : verify_keyop_auth sha256 p256 auth (set_iter ks) m = Ok () → authorised_by sha256 p256 ks auth m.
Proof. intros H. unfold authorised_by. rewrite <- H. apply verify_keyop_auth_ext. intros k. by rewrite elem_of_set_iter, elem_of_elements. Qed.

Lemma replay_event_Ok r e r' : unique_owner (rp_running r) → owners (rp_running r) (rp_pubkeys r) →
  replay_event sha256 blake3 p256 genesis height r e = Ok r' →
  key_step sha256 blake3 p256 genesis height (rp_running r, rp_events r) e (rp_running r', rp_events r') ∧ unique_owner (rp_running r') ∧ owners (rp_running r') (rp_pubkeys r').
Proof.
  intros Hu Ho H. destruct r as [K P D]. cbn [rp_running rp_pubkeys rp_events] in *.
  destruct e; cbn [replay_event rp_running rp_pubkeys rp_events] in H;
    try (injection H as <-; cbn; split_and!; [by apply step_other|done..]).
  - apply reject_if_bind in H as [Hn ([] & Hv%validate_key_list_Ok & (ks & Hks & [= <-])%obind_Ok)%obind_Ok]. destruct Hv as (Hl & Hv & Hd).
    apply bool_decide_eq_false, eq_None_not_Some in Hn. cbn [rp_running rp_pubkeys rp_events].
    assert (unique_owner (<[account_id := ∅]> K) ∧ owners (<[account_id := ∅]> K) P) as [Hu0 Ho0].
    { split.
      - intros i i' ks1 ks2 k1 k2 [[<- <-]|[_ H1]]%lookup_insert_Some [[<- <-]|[_ H2]]%lookup_insert_Some H3 H4; try set_solver. eapply Hu; eauto.
      - intros pk i. rewrite (Ho pk i). split; intros (ks0 & k & Hi & Hk & Hp).
        + exists ks0, k. rewrite lookup_insert_ne; [done|]. intros ->. congruence.
        + apply lookup_insert_Some in Hi as [[<- <-]|[_ Hi]]; [set_solver|eauto]. }
    apply (insert_initial_Ok K account_id initial_keys Hn) in Hks as (-> & ? & ? & ?); [|done..]. rewrite (left_id_L ∅ (∪)) in *.
    split_and!; [by apply step_create|done..].
  - apply obind_Ok in H as ([] & Hv%validate_key_record_Ok & (ks & HK%ok_or_Ok & (d & HD%ok_or_Ok & ([] & Ha%map_err_Ok%set_authorised & [Hn (s & Hs%insert_key_Ok & [= <-])%obind_Ok]%reject_if_bind)%obind_Ok)%obind_Ok)%obind_Ok).
    destruct Hs as [Hp ->]. cbn [rp_running rp_pubkeys rp_events fst snd]. rewrite Z.geb_leb in Hn. apply Z.leb_gt in Hn.
    destruct (owners_insert K P account_id ks key Hu Ho ltac:(by rewrite HK) Hp) as [Hu' Ho'].
    split_and!; [|done..]. apply step_register; try done. by eapply owners_free.
  - apply obind_Ok in H as ([] & Hv%validate_key_record_Ok & (ks & HK%ok_or_Ok & (d & HD%ok_or_Ok & ([] & Ha%map_err_Ok%set_authorised & [Hn [Hk [= <-]]%reject_if_bind]%reject_if_bind)%obind_Ok)%obind_Ok)%obind_Ok).
    rewrite negb_false_iff, bool_decide_eq_true in Hk. apply Z.leb_gt in Hn. cbn [rp_running rp_pubkeys rp_events].
    destruct (owners_remove K P account_id ks key Hu Ho HK Hk) as [Hu' Ho']. split_and!; [|done..]. by apply step_revoke.
  - apply obind_Ok in H as (m & Hm%map_err_Ok & (ks & HK%ok_or_Ok & ([] & Ha%map_err_Ok%set_authorised & [= <-])%obind_Ok)%obind_Ok).
    cbn [rp_running rp_pubkeys rp_events]. split_and!; [|done..]. by eapply step_action.
Qed.

Lemma replay_events_Ok events : ∀ r r', unique_owner (rp_running r) → owners (rp_running r) (rp_pubkeys r) →
  ofold (replay_event sha256 blake3 p256 genesis height) r events = Ok r' →
  key_run sha256 blake3 p256 genesis height (rp_running r, rp_events r) events (rp_running r', rp_events r').
Proof.
  induction events as [|e events IH]; intros r r' Hu Ho; cbn [ofold]; [intros [= <-]; constructor|].
  intros (r1 & He & H)%obind_Ok. apply replay_event_Ok in He as (Hs & Hu1 & Ho1); [|done..]. econstructor; [done|]. by apply IH.
Qed.

End forward.

(** ** Reverse replay *)

Lemma undo_event_frame K e K' : undo_event K e = Ok K' →
  (∀ id, K !! id = None → K' !! id = None) ∧ (∀ id, key_event_account e ≠ Some id → K' !! id = K !! id) ∧
  (∀ id, is_creation_of id e = true → K' !! id = None).
Proof.
  destruct e; cbn [undo_event key_event_account is_creation_of]; try (intros [= <-]; done).
  - intros ([] & _ & (ks & HK%ok_or_Ok & [_ [= <-]]%reject_if_bind)%obind_Ok)%obind_Ok. split_and!.
    + intros id Hid. apply lookup_delete_None. by right.
    + intros id Hne. apply lookup_delete_ne. congruence.
    + intros id <-%bool_decide_eq_true. apply lookup_delete_eq.
  - intros (ks & HK%ok_or_Ok & [_ [= <-]]%reject_if_bind)%obind_Ok. split_and!; [| |done]; intros id Hid; rewrite lookup_insert_ne; congruence.
  - intros (ks & HK%ok_or_Ok & [_ [= <-]]%reject_if_bind)%obind_Ok. split_and!; [| |done]; intros id Hid; rewrite lookup_insert_ne; congruence.
Qed.

Lemma undo_events_frame l : ∀ K K', ofold undo_event K l = Ok K' →
  (∀ id, K !! id = None → K' !! id = None) ∧ (∀ id, id ∉ omap key_event_account l → K' !! id = K !! id) ∧
  (∀ id, existsb (is_creation_of id) l = true → K' !! id = None).
Proof.
  induction l as [|e l IH]; intros K K'; cbn [ofold]; [by intros [= <-]|]. intros (K1 & He & H)%obind_Ok.
  apply undo_event_frame in He as (F1 & F2 & F3). apply IH in H as (G1 & G2 & G3). split_and!.
  - auto.
  - intros id Hid. cbn in Hid. rewrite G2, F2; [done| |].
    + intros E. rewrite E in Hid. set_solver.
    + destruct (key_event_account e); set_solver.
  - intros id [Hc|Hc]%orb_true_iff; auto.
Qed.

(** ** The committed ends *)

Lemma account_map_Ok l m : account_map l = Ok m → ∀ id a, m !! id = Some a ↔ a ∈ l ∧ asn_id a = id.
Proof.
  unfold account_map.
  assert (∀ l m0 m, ofold add_account m0 l = Ok m → ∀ id a, m !! id = Some a ↔ m0 !! id = Some a ∨ a ∈ l ∧ asn_id a = id) as H.
  { clear. induction l as [|x l IH]; intros m0 m; cbn [ofold].
    - intros [= <-] id a. split; [by left|]. intros [|[?%not_elem_of_nil _]]; done.
    - intros (m1 & Hx & H)%obind_Ok id a. rewrite (IH _ _ H id a). unfold add_account in Hx. destruct (m0 !! asn_id x) eqn:E; [done|]. injection Hx as <-.
      rewrite lookup_insert_Some, elem_of_cons. destruct (decide (asn_id x = id)) as [<-|Hne]; [rewrite E|]; naive_solver. }
  intros Hl id a. rewrite (H _ _ _ Hl id a), lookup_empty. naive_solver.
Qed.

Lemma normalized_Ok w post K : normalized_post_key_map w post = Ok K →
  dom K = dom post ∧ (∀ e, e ∈ bw_account_keys w → K !! e.1 = Some (list_to_set e.2)) ∧
  (∀ id ks, K !! id = Some ks → ks = ∅ ∨ ∃ keys, (id, keys) ∈ bw_account_keys w ∧ ks = list_to_set keys).
Proof.
  unfold normalized_post_key_map. intros (r & H & [= <-])%obind_Ok.
  assert (∀ l acc r, ofold (add_opened post) acc l = Ok r → dom acc.1 = dom post → dom r.1 = dom post ∧
    (∀ id, id ∈ acc.2 → r.1 !! id = acc.1 !! id) ∧ (∀ e, e ∈ l → r.1 !! e.1 = Some (list_to_set e.2)) ∧
    (∀ id ks, r.1 !! id = Some ks → acc.1 !! id = Some ks ∨ ∃ keys, (id, keys) ∈ l ∧ ks = list_to_set keys)) as Hl.
  { clear. induction l as [|[id keys] l IH]; intros [out seen] r; cbn [ofold].
    - intros [= <-] Hd. split_and!; [done..|by intros ? ?%not_elem_of_nil|auto].
    - intros ([out1 seen1] & He & H)%obind_Ok Hd. cbn in He. apply reject_if_bind in He as [Hs [Hp ([] & _ & [= <- <-])%obind_Ok]%reject_if_bind].
      apply bool_decide_eq_false in Hs, Hp. apply IH in H as (H1 & H2 & H3 & H4); [|cbn in *; rewrite dom_insert_L, Hd; enough (id ∈ dom post) by set_solver; apply elem_of_dom; by destruct (post !! id)].
      cbn [fst snd] in *. split_and!; [done| | |].
      + intros i Hi. rewrite H2 by set_solver. rewrite lookup_insert_ne; [done|]. by intros <-.
      + intros e [->|He]%elem_of_cons; [|auto]. cbn. rewrite H2 by set_solver. by rewrite lookup_insert_eq.
      + intros i ks Hi. destruct (H4 i ks Hi) as [Hi'|(ks' & Hin & ->)].
        * apply lookup_insert_Some in Hi' as [[<- <-]|[_ ?]]; [|auto]. right. exists keys. split; [left|done].
        * right. exists ks'. split; [by right|done]. }
  apply Hl in H as (H1 & _ & H3 & H4); [|cbn; apply dom_gset_to_gmap]. split_and!; [done..|]. intros id ks Hk. destruct (H4 id ks Hk) as [Hg|?]; [|auto].
  apply lookup_gset_to_gmap_Some in Hg as [_ <-]. by left.
Qed.

Section refinement.
Context (sha256 blake3 : Bytes → Bytes) (p256 : Bytes → Bytes → Bytes → bool) `{B : BorshFormat}.

Lemma weld_Ok K accounts : weld_post_keys sha256 K accounts = Ok () → ∀ id a, accounts !! id = Some a →
  ∃ ks, K !! id = Some ks ∧ asn_keys_digest a = set_digest sha256 id ks.
Proof.
  intros H id a Ha. pose proof (ofold_checks _ _ H (id, a) ltac:(by apply elem_of_btree_iter)) as Hc. unfold weld_account in Hc. cbn in Hc.
  apply obind_Ok in Hc as (ks & HK%ok_or_Ok & Hd%reject_if_Ok). rewrite negb_false_iff, bool_decide_eq_true in Hd. eauto.
Qed.

(** What the committed states and the witnessed keys say about a run. *)
Record committed_run (w : BlockWitness) (K0 : gmap Z (gset KeyRecord)) (D0 : gmap Z Bytes) (K1 : gmap Z (gset KeyRecord)) (D1 : gmap Z Bytes) : Prop := {
  cr_run : key_run sha256 blake3 p256 (bw_genesis_hash w) (hd_height (bw_header w)) (K0, D0) (bw_system_events w) (K1, D1);
  cr_pre : ∀ id ks, K0 !! id = Some ks → ∃ a, a ∈ bw_pre_state w ∧ asn_id a = id ∧ asn_keys_digest a = set_digest sha256 id ks;
  cr_events : ∀ a, a ∈ bw_pre_state w → D0 !! asn_id a = Some (asn_events_digest a);
  cr_post : ∀ a, a ∈ bw_post_system_state w ++ bw_post_state w → ∃ ks, K1 !! asn_id a = Some ks ∧ asn_keys_digest a = set_digest sha256 (asn_id a) ks;
  cr_dom : ∀ id, is_Some (K1 !! id) ↔ id ∈ asn_id <$> bw_post_state w;
  cr_keys : ∀ id keys, (id, keys) ∈ bw_account_keys w → K1 !! id = Some (list_to_set keys);
  cr_created : ∀ id bal keys, Event.CreateAccount id bal keys ∈ bw_system_events w → id ∉ asn_id <$> bw_pre_state w;
  cr_pre_one : ∀ a b, a ∈ bw_pre_state w → b ∈ bw_pre_state w → asn_id a = asn_id b → a = b;
  cr_start : unique_owner K0;
  cr_end : unique_owner K1;
}.

(** The key sets of both ends come from the witness. *)
Definition witnessed_keys (w : BlockWitness) : list KeyRecord :=
  concat (snd <$> bw_account_keys w) ++ omap (λ e, match e with Event.KeyRevoked _ k _ => Some k | _ => None end) (bw_system_events w).

Lemma undo_keys l : ∀ K K', ofold undo_event K l = Ok K' → ∀ id ks k, K' !! id = Some ks → k ∈ ks →
  (∃ id' ks', K !! id' = Some ks' ∧ k ∈ ks') ∨ k ∈ omap (λ e, match e with Event.KeyRevoked _ k _ => Some k | _ => None end) l.
Proof.
  induction l as [|e l IH]; intros K K'; cbn [ofold]; [intros [= <-]; eauto|]. intros (K1 & He & H)%obind_Ok id ks k Hk Hin.
  destruct (IH _ _ H id ks k Hk Hin) as [(id' & ks' & Hk' & Hin')|Hr]; [|right; cbn; destruct e; cbn; set_solver].
  destruct e; cbn [undo_event] in He; try (injection He as <-; eauto).
  - apply obind_Ok in He as ([] & _ & (x & _ & [_ [= <-]]%reject_if_bind)%obind_Ok). apply lookup_delete_Some in Hk' as [_ Hk']. eauto.
  - apply obind_Ok in He as (x & Hx%ok_or_Ok & [_ [= <-]]%reject_if_bind). apply lookup_insert_Some in Hk' as [[<- <-]|[_ Hk']]; [|eauto]. left. set_solver.
  - apply obind_Ok in He as (x & Hx%ok_or_Ok & [_ [= <-]]%reject_if_bind). apply lookup_insert_Some in Hk' as [[<- <-]|[_ Hk']]; [|eauto].
    apply elem_of_union in Hin' as [->%elem_of_singleton|?]; [right; cbn; set_solver|eauto].
Qed.

Lemma verify_run w : verify sha256 blake3 p256 w = Ok () → ∃ K0 D0 K1 D1, committed_run w K0 D0 K1 D1 ∧
  (∀ id ks k, K0 !! id = Some ks ∨ K1 !! id = Some ks → k ∈ ks → k ∈ witnessed_keys w).
Proof.
  unfold verify. intros (pre & Hpre & (psys & Hpsys & (post & Hpost & (K1 & HK1 & H)%obind_Ok)%obind_Ok)%obind_Ok)%obind_Ok.
  apply obind_Ok in H as ([] & Hw1 & ([] & Hw2 & ([] & Hu1 & [_ ([] & _ & (K0 & HK0 & H)%obind_Ok)%obind_Ok]%reject_if_bind)%obind_Ok)%obind_Ok).
  apply obind_Ok in H as ([] & _ & ([] & Ht & ([] & Hun & (P & HP & (r & Hr & (K1' & HK1' & Heq%reject_if_Ok)%obind_Ok)%obind_Ok)%obind_Ok)%obind_Ok)%obind_Ok).
  rewrite HK1 in HK1'. injection HK1' as <-. rewrite negb_false_iff, bool_decide_eq_true in Heq.
  apply obind_Ok in Hu1 as (P1 & [Hu1 _]%pubkey_owner_map_Ok & _). apply pubkey_owner_map_Ok in HP as [Hu0 Ho0].
  pose proof (account_map_Ok _ _ Hpre) as Mpre. pose proof (account_map_Ok _ _ Hpsys) as Msys. pose proof (account_map_Ok _ _ Hpost) as Mpost.
  apply normalized_Ok in HK1 as (Hdom & Hkeys & Hfrom). apply (replay_events_Ok sha256 blake3 p256) in Hr; [|done..]. cbn [rp_running rp_events] in Hr. rewrite Heq in Hr.
  pose proof (undo_events_frame _ _ _ HK0) as (_ & Fr & Fc).
  exists K0, (asn_events_digest <$> pre), K1, (rp_events r). split.
  - split; [done| | | | | | | |done..].
    + intros id ks Hk. destruct (decide (id ∈ key_touched_accounts (bw_system_events w))) as [Hin|Hout].
      * pose proof (ofold_checks _ _ Ht id ltac:(by rewrite stable_sort_Permutation, elem_of_elements)) as Hc. unfold check_touched in Hc.
        destruct (existsb (is_creation_of id) (bw_system_events w)) eqn:Ec.
        -- rewrite Fc in Hk; [done|]. apply existsb_spec in Ec as (e & He & Hc'). apply existsb_spec. exists e. by rewrite elem_of_reverse.
        -- apply obind_Ok in Hc as (a & Ha%ok_or_Ok & (ks' & Hks%ok_or_Ok & Hd%reject_if_Ok)%obind_Ok). rewrite negb_false_iff, bool_decide_eq_true in Hd.
           apply Mpre in Ha as [? ?]. exists a. by simplify_eq.
      * rewrite Fr in Hk; [|unfold key_touched_accounts in Hout; rewrite elem_of_list_to_set, !list_elem_of_omap in *; setoid_rewrite elem_of_reverse; done].
        assert (id ∈ dom post) as [a Ha]%elem_of_dom by (rewrite <- Hdom; apply elem_of_dom; eauto).
        pose proof (ofold_checks _ _ Hun (id, a) ltac:(by apply elem_of_btree_iter)) as Hc. unfold check_untouched in Hc. cbn in Hc. rewrite decide_False in Hc by done.
        apply obind_Ok in Hc as (b & Hb%ok_or_Ok & Hd%reject_if_Ok). rewrite negb_false_iff, bool_decide_eq_true in Hd. apply Mpre in Hb as [? ?].
        destruct (weld_Ok _ _ Hw2 id a Ha) as (ks' & ? & ?). exists b. simplify_eq. split_and!; congruence.
    + intros a Ha. rewrite lookup_fmap. by rewrite (proj2 (Mpre (asn_id a) a) (conj Ha eq_refl)).
    + intros a [Ha|Ha]%elem_of_app; [apply (weld_Ok _ _ Hw1), Msys; done|apply (weld_Ok _ _ Hw2), Mpost; done].
    + intros id. rewrite <- elem_of_dom, Hdom, elem_of_dom, list_elem_of_fmap. split; [intros [a [? ?]%Mpost]; eauto|].
      intros (a & -> & Ha). exists a. by apply Mpost.
    + intros id keys Hk. exact (Hkeys (id, keys) Hk).
    + intros id bal keys He (a & -> & Ha)%list_elem_of_fmap.
      assert (existsb (is_creation_of (asn_id a)) (bw_system_events w) = true) as Ec by (apply existsb_spec; eexists; split; [exact He|cbn; by rewrite bool_decide_eq_true_2]).
      assert (asn_id a ∈ key_touched_accounts (bw_system_events w)) as Hin by (unfold key_touched_accounts; rewrite elem_of_list_to_set, list_elem_of_omap; eauto).
      pose proof (ofold_checks _ _ Ht (asn_id a) ltac:(by rewrite stable_sort_Permutation, elem_of_elements)) as Hc. unfold check_touched in Hc. rewrite Ec in Hc.
      apply reject_if_Ok, bool_decide_eq_false in Hc. apply Hc. exists a. by apply Mpre.
    + intros a b Ha Hb Heq'. pose proof (proj2 (Mpre (asn_id b) a) (conj Ha Heq')). pose proof (proj2 (Mpre (asn_id b) b) (conj Hb eq_refl)). congruence.
  - assert (∀ id ks k, K1 !! id = Some ks → k ∈ ks → k ∈ concat (snd <$> bw_account_keys w)) as Hw.
    { intros id ks k Hk Hin. destruct (Hfrom id ks Hk) as [->|(keys & Hl & ->)]; [by apply not_elem_of_empty in Hin|].
      apply list_elem_of_In, in_concat. exists keys. split; [apply list_elem_of_In, list_elem_of_fmap; by exists (id, keys)|]. apply list_elem_of_In. set_solver. }
    intros id ks k [Hk|Hk] Hin; unfold witnessed_keys; rewrite elem_of_app; [|eauto].
    destruct (undo_keys _ _ _ HK0 id ks k Hk Hin) as [(id' & ks' & ? & ?)|Hr']; [eauto|]. right. rewrite list_elem_of_omap in *. by setoid_rewrite elem_of_reverse in Hr'.
Qed.

(** ** Runs seen from one account *)

Abbreviation run := (key_run sha256 blake3 p256).

Lemma step_frame g h K D e K' D' id : key_step sha256 blake3 p256 g h (K, D) e (K', D') → key_event_account e ≠ Some id → K' !! id = K !! id ∧ D' !! id = D !! id.
Proof. inversion 1; subst; cbn; intros Hne; rewrite ?lookup_insert_ne by congruence; done. Qed.

Lemma run_frame g h l : ∀ K D K' D' id, run g h (K, D) l (K', D') → id ∉ omap key_event_account l → K' !! id = K !! id ∧ D' !! id = D !! id.
Proof.
  induction l as [|e l IH]; intros K D K' D' id Hr Hid; inversion Hr as [|? [K1 D1] ? ? ? Hs Hl]; subst; [done|]. cbn in Hid.
  destruct (step_frame _ _ _ _ _ _ _ id Hs) as [<- <-]; [intros E; rewrite E in Hid; set_solver|]. apply IH; [done|]. destruct (key_event_account e); set_solver.
Qed.

(** The first key event of an existing account is authorised by the keys and bound to the digest it starts from. *)
Lemma run_first_key_event g h l : ∀ K D s' id ks, run g h (K, D) l s' → K !! id = Some ks → id ∈ omap key_event_account l →
  ∃ d k auth, D !! id = Some d ∧
    (Event.KeyRegistered id k auth ∈ l ∧ authorised_by sha256 p256 ks auth (canonical_key_registration_bytes g id k (set_digest sha256 id ks) d) ∨
     Event.KeyRevoked id k auth ∈ l ∧ authorised_by sha256 p256 ks auth (canonical_key_revocation_bytes g id k (set_digest sha256 id ks) d)).
Proof.
  induction l as [|e l IH]; intros K D s' id ks Hr Hk Hid; [by apply not_elem_of_nil in Hid|]. inversion Hr as [|? [K1 D1] ? ? ? Hs Hl]; subst.
  destruct (decide (key_event_account e = Some id)) as [He|Hne].
  - inversion Hs; subst; cbn in He; simplify_eq.
    + exists d, k, auth. split; [done|]. left. split; [left|done].
    + exists d, k, auth. split; [done|]. right. split; [left|done].
  - destruct (step_frame _ _ _ _ _ _ _ id Hs Hne) as [HK HD]. cbn in Hid.
    destruct (IH K1 D1 s' id ks Hl ltac:(congruence)) as (d & k & auth & Hd & Hcase); [destruct (key_event_account e); set_solver|].
    exists d, k, auth. split; [congruence|]. destruct Hcase as [[? ?]|[? ?]]; [left|right]; (split; [by right|done]).
Qed.

Lemma run_creation g h l : ∀ K D K' D' id, run g h (K, D) l (K', D') → K !! id = None → is_Some (K' !! id) → ∃ bal keys, Event.CreateAccount id bal keys ∈ l.
Proof.
  induction l as [|e l IH]; intros K D K' D' id Hr Hk [ks Hk']; inversion Hr as [|? [K1 D1] ? ? ? Hs Hl]; subst; [congruence|].
  destruct (K1 !! id) as [ks1|] eqn:E; [|destruct (IH _ _ _ _ _ Hl E ltac:(eauto)) as (b & ks' & ?); exists b, ks'; by right].
  destruct (decide (key_event_account e = Some id)) as [He|Hne]; [|destruct (step_frame _ _ _ _ _ _ _ id Hs Hne); congruence].
  inversion Hs; subst; cbn in He; simplify_eq. eexists _, _. left.
Qed.

Lemma keys_digest_inj id S S' : Forall key_wf S → Forall key_wf S' → account_keys_digest sha256 id S = account_keys_digest sha256 id S' →
  S ≡ₚ S' ∨ collision sha256.
Proof.
  intros HS HS' H. destruct (keccak_eq sha256 _ _ H) as [He|?]; [left|by right]. unfold account_keys_preimage in He. cbv zeta in He.
  assert (∀ l, Forall key_wf l → Forall key_wf (stable_sort key_record_le l)) as Hm by (intros l Hl; by rewrite stable_sort_Permutation).
  apply field_inj in He as [_ He]; [|done]. apply field_inj in He as [_ He]; [|by rewrite !le_bytes_length].
  assert (∀ l, Forall key_wf l → length (concat (encode_key_record <$> l)) = (38 * length l)%nat) as Hc.
  { induction 1 as [|k l Hk Hl IH]; [done|]. cbn [fmap list_fmap concat]. rewrite length_app, encode_key_record_length, IH by done. cbn [length]. lia. }
  pose proof (f_equal length He) as Hlen. rewrite !length_app, !le_bytes_length, !Hc in Hlen by auto. apply field_inj in He as [_ He]; [|by rewrite !le_bytes_length].
  apply encode_key_records_inj in He; [|by auto..|lia]. by rewrite <- (stable_sort_Permutation key_record_le S), He, stable_sort_Permutation.
Qed.
End refinement.

Lemma key_valid_Ok sha256 blake3 p256 `{BorshFormat} w : vr_valid (verify_key_transitions sha256 blake3 p256 w) = true → verify sha256 blake3 p256 w = Ok ().
Proof. unfold verify_key_transitions. by destruct (verify sha256 blake3 p256 w) as [[]| |]. Qed.

(** C13: a block passes the key check only if its events are a run of the key machine: created
    accounts start with at most sixteen valid keys nobody else holds, keys are added and removed one at a time on the
    authority of a key active at that moment, the last key is never removed, and every client action is signed by a key then active
    on its account.  The run starts from key sets and event digests committed before the block and ends in the sets
    committed after it, with no public key active twice at either end. *)
Theorem key_transition_refines (sha256 blake3 : Bytes → Bytes) (p256 : Bytes → Bytes → Bytes → bool) (B : BorshFormat) (w : BlockWitness) :
  vr_valid (verify_key_transitions sha256 blake3 p256 w) = true → ∃ K0 D0 K1 D1, committed_run sha256 blake3 p256 w K0 D0 K1 D1.
Proof. intros (K0 & D0 & K1 & D1 & H & _)%key_valid_Ok%verify_run. by exists K0, D0, K1, D1. Qed.

(** C14: the keys of an account that existed before the block change only on the authority of a key it had
    committed: if the pre- and post-state digests are of different key sets, the block holds a registration or revocation for
    that account whose authorisation verifies against the committed keys, over a message bound to the
    committed key and event digests (or two inputs with the same hash are exhibited). *)
Theorem key_change_needs_committed_key (sha256 blake3 : Bytes → Bytes) (p256 : Bytes → Bytes → Bytes → bool) (B : BorshFormat) (w : BlockWitness)
    (pre post : AccountSnapshot) (S S' : list KeyRecord) :
  vr_valid (verify_key_transitions sha256 blake3 p256 w) = true → Forall key_wf (witnessed_keys w) →
  pre ∈ bw_pre_state w → post ∈ bw_post_state w → asn_id post = asn_id pre → Forall key_wf S → Forall key_wf S' →
  asn_keys_digest pre = account_keys_digest sha256 (asn_id pre) S → asn_keys_digest post = account_keys_digest sha256 (asn_id pre) S' →
  ¬ S ≡ₚ S' → collision sha256 ∨ ∃ k auth,
    Event.KeyRegistered (asn_id pre) k auth ∈ bw_system_events w ∧ verify_keyop_auth sha256 p256 auth S
      (canonical_key_registration_bytes (bw_genesis_hash w) (asn_id pre) k (asn_keys_digest pre) (asn_events_digest pre)) = Ok () ∨
    Event.KeyRevoked (asn_id pre) k auth ∈ bw_system_events w ∧ verify_keyop_auth sha256 p256 auth S
      (canonical_key_revocation_bytes (bw_genesis_hash w) (asn_id pre) k (asn_keys_digest pre) (asn_events_digest pre)) = Ok ().
Proof.
  intros (K0 & D0 & K1 & D1 & Hr & Hwf)%key_valid_Ok%verify_run Hkw Hpre Hpost Hid HS HS' Hd Hd' Hne.
  pose proof (cr_run _ _ _ _ _ _ _ _ Hr) as Hrun. destruct (cr_post _ _ _ _ _ _ _ _ Hr post ltac:(apply elem_of_app; by right)) as (ks1 & HK1 & Hp1). rewrite Hid in HK1, Hp1.
  destruct (K0 !! asn_id pre) as [ks0|] eqn:HK0.
  2: { destruct (run_creation sha256 blake3 p256 _ _ _ _ _ _ _ _ Hrun HK0 ltac:(eauto)) as (b & keys & Hc).
       destruct (cr_created _ _ _ _ _ _ _ _ Hr _ _ _ Hc). apply list_elem_of_fmap. eauto. }
  destruct (cr_pre _ _ _ _ _ _ _ _ Hr _ _ HK0) as (a & Ha & Hai & Hp0). pose proof (cr_pre_one _ _ _ _ _ _ _ _ Hr a pre Ha Hpre Hai) as ->.
  assert (∀ ks, K0 !! asn_id pre = Some ks ∨ K1 !! asn_id pre = Some ks → Forall key_wf (set_iter ks)) as Hw.
  { intros ks Hks. rewrite Forall_forall in *. intros k Hk. apply Hkw. eapply Hwf; [exact Hks|by apply elem_of_set_iter]. }
  destruct (keys_digest_inj sha256 (asn_id pre) (set_iter ks0) S ltac:(auto) HS ltac:(unfold set_digest in *; congruence)) as [HS0|]; [|by left].
  destruct (keys_digest_inj sha256 (asn_id pre) (set_iter ks1) S' ltac:(auto) HS' ltac:(unfold set_digest in *; congruence)) as [HS1|]; [|by left].
  right. destruct (decide (asn_id pre ∈ omap key_event_account (bw_system_events w))) as [Hin|Hout].
  - destruct (run_first_key_event _ _ _ _ _ _ _ _ _ _ _ Hrun HK0 Hin) as (d & k & auth & HD & Hcase). rewrite (cr_events _ _ _ _ _ _ _ _ Hr pre Hpre) in HD. injection HD as <-.
    rewrite <- Hp0 in Hcase. exists k, auth. unfold authorised_by in Hcase.
    rewrite !(verify_keyop_auth_ext sha256 p256 auth (elements ks0) S) in Hcase by (intros k'; by rewrite <- HS0, elem_of_set_iter, elem_of_elements). exact Hcase.
  - destruct (run_frame _ _ _ _ _ _ _ _ _ _ _ Hrun Hout) as [He _]. rewrite HK0, HK1 in He. injection He as ->. by destruct Hne; rewrite <- HS0.
Qed.

(** ** Witnesses *)

(** A block in which account 7 registers a second key and then trades with it. *)
Definition ex_account (keys : list KeyRecord) : AccountSnapshot := mkAccountSnapshot 7 0 0 [] [1] (account_keys_digest id 7 keys) 0.
Definition ex_key_block : BlockWitness :=
  mkBlockWitness (mkWitnessBlockHeader 2 [] [] [] 0 0 0) None (replicate 32 4) [] []
    [Event.KeyRegistered 7 (ex_key 3) (RawP256 (kr_pubkey_sec1 (ex_key 9)) []);
     Event.ClientActionAuthorized (Action.Cancel 7 11 1 (RawP256 (kr_pubkey_sec1 (ex_key 3)) []))]
    (mkDepositAccumulatorWitness [] 0 []) [] ∅ 0 0 [] [] [ex_account [ex_key 9]] [ex_account [ex_key 9; ex_key 3]] [ex_account [ex_key 9; ex_key 3]]
    [(7, [ex_key 9; ex_key 3])]
    (mkStateSidecarSnapshot (mkBridgeStateSnapshot 0 [] 0 0 [] []) [] [] [] []) (mkStateSidecarSnapshot (mkBridgeStateSnapshot 0 [] 0 0 [] []) [] [] [] []) [].
Lemma ex_key_block_valid : vr_valid (verify_key_transitions id id (λ _ _ _, true) ex_key_block) = true.
Proof. vm_compute. reflexivity. Qed.

Lemma key_transition_refines_witness : ∃ K0 D0 K1 D1, committed_run id id (λ _ _ _, true) ex_key_block K0 D0 K1 D1.
Proof. exact (key_transition_refines id id (λ _ _ _, true) borsh_le ex_key_block ex_key_block_valid). Defined.

Lemma key_change_needs_committed_key_witness : collision id ∨ ∃ k auth,
  Event.KeyRegistered 7 k auth ∈ bw_system_events ex_key_block ∧ verify_keyop_auth id (λ _ _ _, true) auth [ex_key 9]
    (canonical_key_registration_bytes (replicate 32 4) 7 k (account_keys_digest id 7 [ex_key 9]) [1]) = Ok () ∨
  Event.KeyRevoked 7 k auth ∈ bw_system_events ex_key_block ∧ verify_keyop_auth id (λ _ _ _, true) auth [ex_key 9]
    (canonical_key_revocation_bytes (replicate 32 4) 7 k (account_keys_digest id 7 [ex_key 9]) [1]) = Ok ().
Proof.
  apply (key_change_needs_committed_key id id (λ _ _ _, true) borsh_le ex_key_block (ex_account [ex_key 9]) (ex_account [ex_key 9; ex_key 3]) [ex_key 9] [ex_key 9; ex_key 3]).
  - exact ex_key_block_valid.
  - apply (bool_decide_unpack (Forall _ _)). vm_compute. reflexivity.
  - left.
  - left.
  - reflexivity.
  - apply (bool_decide_unpack (Forall _ _)). vm_compute. reflexivity.
  - apply (bool_decide_unpack (Forall _ _)). vm_compute. reflexivity.
  - reflexivity.
  - reflexivity.
  - intros H%Permutation_length. discriminate H.
Defined.
