(* ===== verification/WitnessBytes.v ===== *)
(** * WitnessBytes: the canonical byte schemas

    Models the encoders of [crates/sybil-verifier/src]: [canonical.rs] (orders),
    [snapshot_schema.rs] (accounts and sidecar), [event_schema.rs] (event leaves)
    and the encoder of [witness_schema.rs] (the full witness).  An [append_*]
    function that pushes onto a buffer is the bytes it pushes. *)
From S2P Require Import Prelude Types Order MmConstraint Account Digest Snapshots Finalize Witness L1Protocol AccountKeys.

(** ** Primitives *)

(** [v.sort_by_key(|x| key(x))], which is stable. *)
Definition key_before {A} (key : A → Z) (a b : A) : Prop := key a ≤ key b.
#[global] Instance key_before_dec {A} (key : A → Z) : RelDecision (key_before key) := λ a b, Z_le_dec (key a) (key b).
Definition sort_on {A} (key : A → Z) (l : list A) : list A := stable_sort (key_before key) l.

Definition append_u32 (value : Z) : Bytes := le_bytes 4 value.
Definition append_u64 (value : Z) : Bytes := le_bytes 8 value.
Definition append_i64 (value : Z) : Bytes := le_bytes 8 value.
Definition append_market_id (market : MarketId) : Bytes := append_u32 market.
Definition append_str (value : string) : Bytes := append_u64 (Z.of_nat (length (string_bytes value))) ++ string_bytes value.
Definition append_optional_string (value : option string) : Bytes := match value with Some value => [1] ++ append_str value | None => [0] end.

(** [append_u64(v.len()); for x in v { append(x) }] *)
Definition append_counted {A} (append : A → Bytes) (l : list A) : Bytes := append_u64 (Z.of_nat (length l)) ++ (l ≫= append).

(** ** Orders ([canonical.rs]) *)

Definition append_condition (c : option PriceCondition) : Bytes :=
  match c with
  | None => [0]
  | Some c => [1] ++ le_bytes 4 (pc_market c) ++ le_bytes 8 (pc_threshold c) ++ [match pc_direction c with Above => 0 | Below => 1 end]
  end.
Definition append_expiry (e : option Z) : Bytes := match e with None => [0] | Some e => [1] ++ le_bytes 8 e end.
Definition append_order (o : Order) : Bytes :=
  le_bytes 8 (ord_id o) ++ [ord_num_markets o] ++ (take (num_markets o) (ord_markets o) ≫= append_market_id) ++
  [ord_num_states o] ++ (take (Z.to_nat (ord_num_states o)) (ord_payoffs o) ≫= le_bytes 1) ++
  le_bytes 8 (ord_limit_price o) ++ le_bytes 8 (ord_max_fill o) ++ append_condition (ord_condition o) ++ append_expiry (ord_expires_at_block o).

(** ** Snapshots ([snapshot_schema.rs]) *)

Inductive PositionEncoding := StateRoot | WitnessPositions.

(** The order of [(market, outcome, quantity)]. *)
Definition position_le (a b : Z * Z * Z) : Prop :=
  a.1.1 < b.1.1 ∨ a.1.1 = b.1.1 ∧ (a.1.2 < b.1.2 ∨ a.1.2 = b.1.2 ∧ a.2 ≤ b.2).
#[global] Instance position_le_dec : RelDecision position_le.
Proof. intros a b. unfold position_le. apply _. Defined.

Definition encoded_positions (e : PositionEncoding) (positions : list (Z * Z * Z)) : list (Z * Z * Z) :=
  match e with
  | StateRoot => filter (λ p, p.2 ≠ 0) (sort_positions positions)
  | WitnessPositions => stable_sort position_le positions
  end.
Definition append_position (p : Z * Z * Z) : Bytes := append_market_id p.1.1 ++ [p.1.2] ++ append_i64 p.2.
Definition append_positions (e : PositionEncoding) (positions : list (Z * Z * Z)) : Bytes :=
  append_counted append_position (encoded_positions e positions).

Definition append_account_fields (e : PositionEncoding) (a : AccountSnapshot) : Bytes :=
  append_u64 (asn_id a) ++ append_i64 (asn_balance a) ++ append_i64 (asn_total_deposited a) ++ append_positions e (asn_positions a) ++
  asn_events_digest a ++ asn_keys_digest a ++ append_u64 (asn_last_trading_nonce a).

Definition append_oracle_source (s : OracleSourceSnapshot) : Bytes :=
  match s with SourceAdmin => [0] | SourceDataFeed feed_id => [1] ++ append_u64 feed_id end.
Definition append_resolution_record (r : ResolutionRecordSnapshot) : Bytes :=
  append_u64 (rr_payout_nanos r) ++ append_oracle_source (rr_resolved_by r) ++ append_u64 (rr_resolved_at_ms r).
Definition append_market_status (s : MarketStatusSnapshot) : Bytes :=
  match s with StatusActive => [0] | StatusResolved record => [1] ++ append_resolution_record record end.

Definition append_market_snapshot_fields (m : MarketSnapshot) : Bytes :=
  append_market_id (msn_market_id m) ++ append_str (msn_name m) ++ [msn_num_outcomes m] ++ append_market_status (msn_status m) ++
  msn_metadata_digest m ++ append_str (msn_resolution_template m) ++ append_counted append_u64 (msn_last_clearing_prices m).
Definition append_market_group_fields (g : MarketGroupSnapshot) : Bytes :=
  append_u64 (mgs_group_id g) ++ append_str (mgs_name g) ++ append_optional_string (mgs_creation_key g) ++
  append_counted append_market_id (sort_on id (mgs_markets g)).
Definition append_withdrawal_fields (w : WithdrawalSnapshot) : Bytes :=
  append_u64 (ws_withdrawal_id w) ++ append_u64 (ws_account_id w) ++ ws_recipient w ++ ws_token w ++ append_u64 (ws_amount_token_units w) ++
  append_u64 (ws_amount_nanos w) ++ append_u64 (ws_expiry_height w) ++ ws_nullifier w.

Definition append_state_account_leaf_value (a : AccountSnapshot) : Bytes := ascii_bytes "sybil/state/acct" ++ append_account_fields StateRoot a.
Definition append_witness_account (a : AccountSnapshot) : Bytes := ascii_bytes "sybil/witness/account" ++ append_account_fields WitnessPositions a.
Definition append_state_market_leaf_value (m : MarketSnapshot) : Bytes := ascii_bytes "sybil/state/market" ++ append_market_snapshot_fields m.
Definition append_state_market_group_leaf_value (g : MarketGroupSnapshot) : Bytes := ascii_bytes "sybil/state/market-group" ++ append_market_group_fields g.
Definition append_state_withdrawal_leaf_value (w : WithdrawalSnapshot) : Bytes := ascii_bytes "sybil/state/withdrawal" ++ append_withdrawal_fields w.
Definition append_state_resting_order_leaf_value (r : RestingOrderSnapshot) : Bytes :=
  ascii_bytes "sybil/state/order" ++ append_u64 (ros_account_id r) ++ append_u64 (ros_created_at r) ++ append_u64 (ros_expires_at_block r) ++
  append_i64 (ros_reserved_balance r) ++ append_positions StateRoot (ros_reserved_positions r) ++ append_order (ros_order r).
Definition append_witness_resting_order (r : RestingOrderSnapshot) : Bytes :=
  append_order (ros_order r) ++ append_u64 (ros_account_id r) ++ append_u64 (ros_created_at r) ++ append_u64 (ros_expires_at_block r) ++
  append_i64 (ros_reserved_balance r) ++ append_positions WitnessPositions (ros_reserved_positions r).
Definition append_state_account_reservation_leaf_value (r : AccountReservationSnapshot) : Bytes :=
  ascii_bytes "sybil/state/acct-resv" ++ append_u64 (ars_account_id r) ++ append_i64 (ars_reserved_balance r) ++
  append_positions StateRoot (ars_reserved_positions r).
Definition append_witness_account_reservation (r : AccountReservationSnapshot) : Bytes :=
  append_u64 (ars_account_id r) ++ append_i64 (ars_reserved_balance r) ++ append_positions WitnessPositions (ars_reserved_positions r).

Definition quarantine_le (a b : QuarantineEntrySnapshot) : Prop := bytes_le (qe_sybil_account_key a) (qe_sybil_account_key b).
#[global] Instance quarantine_le_dec : RelDecision quarantine_le.
Proof. intros a b. unfold quarantine_le. apply _. Defined.
Definition append_quarantine_entry (e : QuarantineEntrySnapshot) : Bytes := qe_sybil_account_key e ++ append_i64 (qe_amount e).
Definition append_witness_bridge (b : BridgeStateSnapshot) : Bytes :=
  append_u64 (br_deposit_cursor b) ++ br_deposit_root b ++ append_u64 (br_observed_l1_height b) ++ append_u64 (br_next_withdrawal_id b) ++
  append_counted append_withdrawal_fields (sort_on ws_withdrawal_id (br_withdrawals b)) ++
  append_counted append_quarantine_entry (stable_sort quarantine_le (br_quarantine b)).

Definition append_witness_state_sidecar_with_domain (domain : Bytes) (s : StateSidecarSnapshot) : Bytes :=
  domain ++ append_witness_bridge (ss_bridge s) ++
  append_counted append_market_snapshot_fields (sort_on msn_market_id (ss_markets s)) ++
  append_counted append_market_group_fields (sort_on mgs_group_id (ss_market_groups s)) ++
  append_counted append_witness_resting_order (sort_on (λ r, ord_id (ros_order r)) (ss_resting_orders s)) ++
  append_counted append_witness_account_reservation (sort_on ars_account_id (ss_account_reservations s)).
Definition append_witness_state_sidecar (s : StateSidecarSnapshot) : Bytes :=
  append_witness_state_sidecar_with_domain (ascii_bytes "sybil/witness/state-sidecar") s.
Definition append_witness_pre_state_sidecar (s : StateSidecarSnapshot) : Bytes :=
  append_witness_state_sidecar_with_domain (ascii_bytes "sybil/witness/pre-state-sidecar") s.

(** ** Event leaves ([event_schema.rs]) *)

Definition append_key_record (k : KeyRecord) : Bytes := [kr_auth_scheme k] ++ kr_pubkey_sec1 k ++ le_bytes 4 (kr_capability_mask k).
Definition append_key_records (keys : list KeyRecord) : Bytes := append_counted append_key_record (stable_sort key_record_le keys).
Definition append_blob (b : Bytes) : Bytes := le_bytes 8 (Z.of_nat (length b)) ++ b.
Definition append_key_op_auth (a : KeyOpAuth) : Bytes :=
  match a with
  | RawP256 signer_pubkey signature => [0] ++ signer_pubkey ++ signature
  | WebAuthn signer_pubkey authenticator_data client_data_json signature =>
      [1] ++ signer_pubkey ++ append_blob authenticator_data ++ append_blob client_data_json ++ signature
  end.
Definition append_mm_side (s : MmSide) : Bytes := [match s with SellYes => 0 | BuyYes => 1 | SellNo => 2 | BuyNo => 3 end].

Definition append_client_action (a : Action.ClientActionWitness) : Bytes :=
  match a with
  | Action.Order account_id o nonce authorization =>
      [0] ++ le_bytes 8 account_id ++ append_order o ++ le_bytes 8 nonce ++ append_key_op_auth authorization
  | Action.Cancel account_id order_id nonce authorization =>
      [1] ++ le_bytes 8 account_id ++ le_bytes 8 order_id ++ le_bytes 8 nonce ++ append_key_op_auth authorization
  | Action.MmBundle account_id bundle_id revision orders order_sides max_capital nonce authorization =>
      [2] ++ le_bytes 8 account_id ++ bundle_id ++ le_bytes 8 revision ++ append_counted append_order orders ++
      append_counted append_mm_side order_sides ++ le_bytes 8 max_capital ++ le_bytes 8 nonce ++ append_key_op_auth authorization
  | Action.MmBundleReplace account_id bundle_id expected_revision new_revision orders order_sides max_capital nonce authorization =>
      [3] ++ le_bytes 8 account_id ++ bundle_id ++ le_bytes 8 expected_revision ++ le_bytes 8 new_revision ++ append_counted append_order orders ++
      append_counted append_mm_side order_sides ++ le_bytes 8 max_capital ++ le_bytes 8 nonce ++ append_key_op_auth authorization
  | Action.MmBundleCancel account_id bundle_id expected_revision nonce authorization =>
      [4] ++ le_bytes 8 account_id ++ bundle_id ++ le_bytes 8 expected_revision ++ le_bytes 8 nonce ++ append_key_op_auth authorization
  end.

Definition append_refund_reason (r : WithdrawalRefundReason) : Bytes :=
  match r with L1Cancelled => [0] | L1Expired observed_l1_height => [1] ++ le_bytes 8 observed_l1_height end.

Definition append_system_event (e : Event.SystemEventWitness) : Bytes :=
  match e with
  | Event.CreateAccount account_id initial_balance initial_keys =>
      [0] ++ le_bytes 8 account_id ++ le_bytes 8 initial_balance ++ append_key_records initial_keys
  | Event.Deposit account_id amount => [1] ++ le_bytes 8 account_id ++ le_bytes 8 amount
  | Event.L1Deposit account_id amount deposit_id deposit_root sybil_account_key =>
      [2] ++ le_bytes 8 account_id ++ le_bytes 8 amount ++ le_bytes 8 deposit_id ++ deposit_root ++ sybil_account_key
  | Event.WithdrawalCreated account_id amount withdrawal_id recipient token amount_token_units expiry_height nullifier =>
      [3] ++ le_bytes 8 account_id ++ le_bytes 8 amount ++ le_bytes 8 withdrawal_id ++ recipient ++ token ++
      le_bytes 8 amount_token_units ++ le_bytes 8 expiry_height ++ nullifier
  | Event.MarketResolved market_id payout_nanos affected_accounts =>
      [4] ++ append_market_id market_id ++ le_bytes 8 payout_nanos ++ append_counted append_u64 (sort_on id affected_accounts)
  | Event.OrderCancelled account_id order_id market_ids side remaining_quantity =>
      [5] ++ le_bytes 8 account_id ++ le_bytes 8 order_id ++ append_counted append_market_id (sort_on id market_ids) ++
      [OrderDirection_to_byte side] ++ le_bytes 8 remaining_quantity
  | Event.MarketGroupExtended group_id market_id => [6] ++ le_bytes 8 group_id ++ append_market_id market_id
  | Event.WithdrawalRefunded account_id withdrawal_id amount reason =>
      [7] ++ le_bytes 8 account_id ++ le_bytes 8 withdrawal_id ++ le_bytes 8 amount ++ append_refund_reason reason
  | Event.WithdrawalFinalized account_id withdrawal_id amount => [8] ++ le_bytes 8 account_id ++ le_bytes 8 withdrawal_id ++ le_bytes 8 amount
  | Event.L1BlockObserved height => [9] ++ le_bytes 8 height
  | Event.KeyRegistered account_id key authorization => [10] ++ le_bytes 8 account_id ++ append_key_record key ++ append_key_op_auth authorization
  | Event.KeyRevoked account_id key authorization => [11] ++ le_bytes 8 account_id ++ append_key_record key ++ append_key_op_auth authorization
  | Event.DepositQuarantined amount deposit_id deposit_root sybil_account_key =>
      [12] ++ le_bytes 8 amount ++ le_bytes 8 deposit_id ++ deposit_root ++ sybil_account_key
  | Event.QuarantineClaimed account_id amount sybil_account_key => [13] ++ le_bytes 8 account_id ++ le_bytes 8 amount ++ sybil_account_key
  | Event.ClientActionAuthorized action => [14] ++ append_client_action action
  end.
Definition system_event_leaf_value (e : Event.SystemEventWitness) : Bytes := ascii_bytes "sybil/event/system" ++ append_system_event e.

Definition push_str (text : string) : Bytes := le_bytes 4 (Z.of_nat (length (string_bytes text))) ++ string_bytes text.
Definition append_rejection_reason (r : Reason.RejectionReason) : Bytes :=
  match r with
  | Reason.InsufficientBalance required available => [0] ++ le_bytes 8 required ++ le_bytes 8 available
  | Reason.InsufficientPosition market out required available =>
      [1] ++ append_market_id market ++ [out] ++ le_bytes 8 required ++ le_bytes 8 available
  | Reason.AccountNotFound => [2]
  | Reason.CompleteSetFormation => [3]
  | Reason.AtomicBundle => [6]
  | Reason.InvalidOrder reason => [5] ++ push_str reason
  | Reason.Expired current_block expires_at_block => [4] ++ le_bytes 8 current_block ++ le_bytes 8 expires_at_block
  end.

Definition order_accepted_leaf_value (o : WitnessOrder) : Bytes :=
  ascii_bytes "sybil/event/order-accepted" ++ le_bytes 8 (wo_account_id o) ++ [if wo_is_mm o then 1 else 0] ++ append_order (wo_order o).
Definition order_rejected_leaf_value (r : WitnessRejection) : Bytes :=
  ascii_bytes "sybil/event/order-rejected" ++ le_bytes 8 (wr_account_id r) ++ append_order (wr_order r) ++ append_rejection_reason (wr_reason r).
Definition fill_leaf_value (f : Fill) : Bytes :=
  ascii_bytes "sybil/event/fill" ++ le_bytes 8 (fill_order_id f) ++ le_bytes 8 (fill_qty f) ++ le_bytes 8 (fill_price f) ++ le_bytes 8 (fill_account_id f).

Definition event_leaf_values (system_events : list Event.SystemEventWitness) (orders : list WitnessOrder) (rejections : list WitnessRejection)
    (fills : list Fill) : list Bytes :=
  (system_event_leaf_value <$> system_events) ++ (order_accepted_leaf_value <$> orders) ++ (order_rejected_leaf_value <$> rejections) ++
  (fill_leaf_value <$> fills).

(** ** The full witness ([witness_schema.rs]) *)

Definition WITNESS_FORMAT_VERSION : Z := 14.

Definition append_header (h : WitnessBlockHeader) : Bytes :=
  append_u64 (hd_height h) ++ hd_parent_hash h ++ hd_state_root h ++ hd_events_root h ++ append_u32 (hd_order_count h) ++
  append_u32 (hd_fill_count h) ++ append_u64 (hd_timestamp_ms h).
Definition append_previous_header (h : option WitnessBlockHeader) : Bytes := match h with Some h => [1] ++ append_header h | None => [0] end.

Definition append_l1_deposit (d : L1DepositWitness) : Bytes :=
  ascii_bytes "sybil/witness/l1-deposit" ++ append_u64 (dw_deposit_id d) ++ append_u64 (dw_chain_id d) ++ dw_vault_address d ++ dw_token_address d ++
  dw_sender d ++ dw_sybil_account_key d ++ append_u64 (dw_amount_token_units d) ++ dw_deposit_root d.
Definition append_deposit_accumulator (d : DepositAccumulatorWitness) : Bytes :=
  ascii_bytes "sybil/witness/deposit-accumulator" ++ concat (da_pre_frontier d) ++ append_u64 (da_pre_count d) ++
  append_counted append_l1_deposit (da_new_deposits d).

Definition append_market_prices (e : Z * list Nanos) : Bytes := append_market_id e.1 ++ append_u32 (Z.of_nat (length e.2)) ++ (e.2 ≫= append_u64).
Definition append_clearing_prices (prices : gmap Z (list Nanos)) : Bytes := append_counted append_market_prices (btree_iter prices).

Definition append_side (e : Z * MmSide) : Bytes := append_u64 e.1 ++ append_mm_side e.2.
Definition append_mm_constraint (c : MmConstraint) : Bytes :=
  append_u64 (mm_id c) ++ append_u64 (mm_max_capital c) ++ append_counted append_u64 (sort_on id (mm_order_ids c)) ++
  append_counted append_side (btree_iter (mm_order_sides c)).
Definition append_mm_constraints (l : list MmConstraint) : Bytes := append_counted append_mm_constraint (sort_on mm_id l).

(** [left_first.cmp(&right_first).then(left.name.cmp(&right.name))] *)
Definition first_market (g : MarketGroup) : Z := match mg_markets g with [] => int_max U32 | m :: l => foldr Z.min m l end.
Definition group_le (a b : MarketGroup) : Prop :=
  first_market a < first_market b ∨ first_market a = first_market b ∧ bytes_le (string_bytes (mg_name a)) (string_bytes (mg_name b)).
#[global] Instance group_le_dec : RelDecision group_le.
Proof. intros a b. unfold group_le. apply _. Defined.
Definition append_market_group (g : MarketGroup) : Bytes :=
  append_str (mg_name g) ++ append_optional_string (mg_creation_key g) ++ append_counted append_market_id (sort_on id (mg_markets g)).
Definition append_market_groups (l : list MarketGroup) : Bytes := append_counted append_market_group (stable_sort group_le l).

Definition append_account_section (l : list AccountSnapshot) : Bytes := append_counted append_witness_account (sort_on asn_id l).

Definition append_account_key_set (e : Z * list KeyRecord) : Bytes := append_u64 e.1 ++ append_key_records e.2.
Definition append_account_keys (l : list (Z * list KeyRecord)) : Bytes :=
  ascii_bytes "sybil/witness/account-keys" ++ append_counted append_account_key_set (sort_on fst l).

Definition canonical_witness_bytes (w : BlockWitness) : Bytes :=
  [WITNESS_FORMAT_VERSION] ++ append_header (bw_header w) ++ append_previous_header (bw_previous_header w) ++ bw_genesis_hash w ++
  append_counted order_accepted_leaf_value (sort_on (λ o, ord_id (wo_order o)) (bw_orders w)) ++
  append_counted order_rejected_leaf_value (sort_on (λ r, ord_id (wr_order r)) (bw_rejections w)) ++
  append_counted system_event_leaf_value (bw_system_events w) ++
  append_deposit_accumulator (bw_deposit_accumulator w) ++
  append_counted fill_leaf_value (bw_fills w) ++
  append_clearing_prices (bw_clearing_prices w) ++
  append_i64 (bw_total_welfare w) ++ append_i64 (bw_minting_cost w) ++
  append_mm_constraints (bw_mm_constraints w) ++ append_market_groups (bw_market_groups w) ++
  append_account_section (bw_pre_state w) ++ append_account_section (bw_post_system_state w) ++ append_account_section (bw_post_state w) ++
  append_account_keys (bw_account_keys w) ++
  append_witness_state_sidecar (bw_state_sidecar w) ++ append_witness_pre_state_sidecar (bw_pre_state_sidecar w) ++
  append_counted append_market_id (sort_on id (bw_resolved_markets w)).
