(* ===== verification/WitnessDecode.v ===== *)
(** * WitnessDecode: reading the canonical witness bytes

    Models [WitnessReader] and [decode_canonical_witness_bytes] of
    [crates/sybil-verifier/src/witness_schema.rs].  The reader is the unread
    suffix with its offset; [usize] is 64 bits wide. *)
From S2P Require Import Prelude Types Order MmConstraint Account Digest Snapshots Finalize Witness L1Protocol DepositFrontier AccountKeys WebAuthn WitnessBytes.

Module Decode.
Inductive WitnessDecodeError :=
  | UnexpectedEof (offset needed remaining : Z)
  | TrailingBytes (offset trailing : Z)
  | UnknownVersion (version : Z)
  | InvalidTag (field : string) (tag offset : Z)
  | DomainMismatch (field : string) (offset : Z)
  | InvalidUtf8 (field : string) (offset : Z)
  | CountTooLarge (field : string) (count : Z)
  | InvalidValue (field : string) (offset : Z) (details : string)
  | NonCanonical.
End Decode.
Abbreviation WitnessDecodeError := Decode.WitnessDecodeError (only parsing).

Record WitnessReader := mkWitnessReader { wr_offset : Z; wr_rest : Bytes }.
Abbreviation reader := (st WitnessReader WitnessDecodeError) (only parsing).

(** ** Primitives *)

Definition current_offset : reader Z := r ← sget; mret (wr_offset r).

(** The bytes [self.bytes[self.offset..self.offset + n]], which are consumed. *)
Definition read_slice (n : Z) : reader Bytes :=
  r ← sget;
  if Z.of_nat (length (wr_rest r)) <? n then sfail (Decode.UnexpectedEof (wr_offset r) n (Z.of_nat (length (wr_rest r)))) else
  smodify (λ r, mkWitnessReader (wr_offset r + n) (drop (Z.to_nat n) (wr_rest r)));;
  mret (take (Z.to_nat n) (wr_rest r)).
Definition read_exact (n : nat) : reader Bytes := read_slice (Z.of_nat n).

Definition read_domain (expected : Bytes) (field : string) : reader unit :=
  r ← sget;
  if Z.of_nat (length (wr_rest r)) <? Z.of_nat (length expected)
  then sfail (Decode.UnexpectedEof (wr_offset r) (Z.of_nat (length expected)) (Z.of_nat (length (wr_rest r)))) else
  if decide (take (length expected) (wr_rest r) = expected)
  then smodify (λ r, mkWitnessReader (wr_offset r + Z.of_nat (length expected)) (drop (length expected) (wr_rest r)))
  else sfail (Decode.DomainMismatch field (wr_offset r)).

Fixpoint from_le (b : Bytes) : Z := match b with [] => 0 | x :: b => x + 256 * from_le b end.
Definition from_le_i64 (b : Bytes) : Z := wrap I64 (from_le b).

Definition read_u8 : reader Z := b ← read_exact 1; mret (from_le b).
Definition read_u32 : reader Z := b ← read_exact 4; mret (from_le b).
Definition read_u64 : reader Z := b ← read_exact 8; mret (from_le b).
Definition read_i64 : reader Z := b ← read_exact 8; mret (from_le_i64 b).
Definition read_hash32 : reader Bytes := read_exact 32.
Definition read_pubkey33 : reader Bytes := read_exact 33.
Definition read_signature64 : reader Bytes := read_exact 64.
Definition read_address20 : reader Bytes := read_exact 20.
Definition read_market_id : reader MarketId := read_u32.

Definition read_len (field : string) : reader Z :=
  count ← read_u64;
  if count >? int_max U64 then sfail (Decode.CountTooLarge field count) else mret count.

Definition bytes_string (b : Bytes) : string := String.string_of_list_ascii ((λ x, Ascii.ascii_of_N (Z.to_N x)) <$> b).
Definition read_text (field : string) (len : Z) : reader string :=
  offset ← current_offset;
  b ← read_slice len;
  if from_utf8 b then mret (bytes_string b) else sfail (Decode.InvalidUtf8 field offset).
Definition read_string (field : string) : reader string := len ← read_len field; read_text field len.
Definition read_u32_len_string (field : string) : reader string := len ← read_u32; read_text field len.
Definition read_bytes (field : string) (max_len : Z) : reader Bytes :=
  offset ← current_offset;
  len ← read_len field;
  if len >? max_len then sfail (Decode.InvalidValue field offset "length exceeds protocol cap") else read_slice len.

Fixpoint read_items {A} (item : reader A) (count : nat) : reader (list A) :=
  match count with
  | O => mret []
  | S count => x ← item; l ← read_items item count; mret (x :: l)
  end.
Definition read_vec {A} (field : string) (item : reader A) : reader (list A) := count ← read_len field; read_items item (Z.to_nat count).

(** A one-byte tag dispatched over the cases of an enum. *)
Definition read_tagged {A} (field : string) (cases : Z → option (reader A)) : reader A :=
  offset ← current_offset;
  tag ← read_u8;
  match cases tag with Some m => m | None => sfail (Decode.InvalidTag field tag offset) end.

Definition read_optional_string (field : string) : reader (option string) :=
  read_tagged field (λ tag,
    if tag =? 0 then Some (mret None) else
    if tag =? 1 then Some (s ← read_string field; mret (Some s)) else None).

(** ** Orders and events *)

Definition read_header : reader WitnessBlockHeader :=
  height ← read_u64; parent_hash ← read_hash32; state_root ← read_hash32; events_root ← read_hash32;
  order_count ← read_u32; fill_count ← read_u32; timestamp_ms ← read_u64;
  mret (mkWitnessBlockHeader height parent_hash state_root events_root order_count fill_count timestamp_ms).

Definition read_direction : reader ConditionDir :=
  read_tagged "condition.direction" (λ tag, if tag =? 0 then Some (mret Above) else if tag =? 1 then Some (mret Below) else None).
Definition read_condition : reader (option PriceCondition) :=
  read_tagged "order.condition" (λ tag,
    if tag =? 0 then Some (mret None) else
    if tag =? 1 then Some (market ← read_market_id; threshold ← read_u64; direction ← read_direction;
                           mret (Some (mkPriceCondition market threshold direction))) else None).
Definition read_expiry : reader (option Z) :=
  read_tagged "order.expires_at_block" (λ tag,
    if tag =? 0 then Some (mret None) else if tag =? 1 then Some (e ← read_u64; mret (Some e)) else None).

(** [self.read_u8()? as i8] *)
Definition read_payoff : reader Z := b ← read_u8; mret (wrap I8 b).

Definition read_order : reader Order :=
  order_id ← read_u64;
  num_markets ← read_u8;
  offset ← current_offset;
  (if num_markets >? Z.of_nat MAX_MARKETS_PER_ORDER
   then sfail (Decode.InvalidValue "order.num_markets" (offset - 1) "exceeds MAX_MARKETS_PER_ORDER") else mret ());;
  markets ← read_items read_market_id (Z.to_nat num_markets);
  num_states ← read_u8;
  offset ← current_offset;
  (if num_states >? Z.of_nat MAX_STATES
   then sfail (Decode.InvalidValue "order.num_states" (offset - 1) "exceeds MAX_STATES") else mret ());;
  payoffs ← read_items read_payoff (Z.to_nat num_states);
  limit_price ← read_u64;
  max_fill ← read_u64;
  condition ← read_condition;
  expires_at_block ← read_expiry;
  mret (mkOrder order_id (markets ++ replicate (MAX_MARKETS_PER_ORDER - length markets) (int_max U32)) num_markets
          (payoffs ++ replicate (MAX_STATES - length payoffs) 0) num_states limit_price max_fill condition expires_at_block).

Definition read_witness_order : reader WitnessOrder :=
  read_domain (ascii_bytes "sybil/event/order-accepted") "order_accepted";;
  account_id ← read_u64;
  is_mm ← read_tagged "order_accepted.is_mm" (λ tag, if tag =? 0 then Some (mret false) else if tag =? 1 then Some (mret true) else None);
  order ← read_order;
  mret (mkWitnessOrder order account_id is_mm).

Definition read_rejection_reason : reader Reason.RejectionReason :=
  read_tagged "rejection_reason" (λ tag,
    if tag =? 0 then Some (required ← read_i64; available ← read_i64; mret (Reason.InsufficientBalance required available)) else
    if tag =? 1 then Some (market ← read_market_id; out ← read_u8; required ← read_i64; available ← read_i64;
                           mret (Reason.InsufficientPosition market out required available)) else
    if tag =? 2 then Some (mret Reason.AccountNotFound) else
    if tag =? 3 then Some (mret Reason.CompleteSetFormation) else
    if tag =? 4 then Some (current_block ← read_u64; expires_at_block ← read_u64; mret (Reason.Expired current_block expires_at_block)) else
    if tag =? 5 then Some (reason ← read_u32_len_string "rejection_reason.invalid_order"; mret (Reason.InvalidOrder reason)) else
    if tag =? 6 then Some (mret Reason.AtomicBundle) else None).
Definition read_witness_rejection : reader WitnessRejection :=
  read_domain (ascii_bytes "sybil/event/order-rejected") "order_rejected";;
  account_id ← read_u64; order ← read_order; reason ← read_rejection_reason;
  mret (mkWitnessRejection order account_id reason).

Definition read_key_record : reader KeyRecord :=
  auth_scheme ← read_u8; pubkey_sec1 ← read_pubkey33; capability_mask ← read_u32; mret (mkKeyRecord auth_scheme pubkey_sec1 capability_mask).
Definition read_key_records (field : string) : reader (list KeyRecord) :=
  keys ← read_vec field read_key_record;
  offset ← current_offset;
  if Z.of_nat (length keys) >? MAX_KEYS_PER_ACCOUNT
  then sfail (Decode.InvalidValue field offset "key count exceeds MAX_KEYS_PER_ACCOUNT") else mret keys.
Definition read_key_op_auth : reader KeyOpAuth :=
  read_tagged "key_op_auth" (λ tag,
    if tag =? 0 then Some (signer ← read_pubkey33; signature ← read_signature64; mret (RawP256 signer signature)) else
    if tag =? 1 then Some (signer ← read_pubkey33;
        authenticator_data ← read_bytes "key_op_auth.authenticator_data" MAX_WEBAUTHN_AUTHENTICATOR_DATA_BYTES;
        client_data_json ← read_bytes "key_op_auth.client_data_json" MAX_WEBAUTHN_CLIENT_DATA_JSON_BYTES;
        signature ← read_signature64; mret (WebAuthn signer authenticator_data client_data_json signature)) else None).

Definition read_order_direction : reader OrderDirection :=
  read_tagged "order_direction" (λ tag,
    if tag =? 0 then Some (mret BuyYes) else if tag =? 1 then Some (mret SellYes) else
    if tag =? 2 then Some (mret BuyNo) else if tag =? 3 then Some (mret SellNo) else None).
Definition read_mm_side : reader MmSide :=
  read_tagged "mm_side" (λ tag,
    if tag =? 0 then Some (mret SellYes) else if tag =? 1 then Some (mret BuyYes) else
    if tag =? 2 then Some (mret SellNo) else if tag =? 3 then Some (mret BuyNo) else None).
Definition read_refund_reason : reader WithdrawalRefundReason :=
  read_tagged "withdrawal_refund_reason" (λ tag,
    if tag =? 0 then Some (mret L1Cancelled) else if tag =? 1 then Some (h ← read_u64; mret (L1Expired h)) else None).

Definition read_client_action : reader Action.ClientActionWitness :=
  read_tagged "client_action" (λ tag,
    if tag =? 0 then Some (a ← read_u64; o ← read_order; n ← read_u64; auth ← read_key_op_auth; mret (Action.Order a o n auth)) else
    if tag =? 1 then Some (a ← read_u64; o ← read_u64; n ← read_u64; auth ← read_key_op_auth; mret (Action.Cancel a o n auth)) else
    if tag =? 2 then Some (a ← read_u64; b ← read_hash32; r ← read_u64; orders ← read_vec "client_action.mm_bundle.orders" read_order;
        sides ← read_vec "client_action.mm_bundle.order_sides" read_mm_side; c ← read_u64; n ← read_u64; auth ← read_key_op_auth;
        mret (Action.MmBundle a b r orders sides c n auth)) else
    if tag =? 3 then Some (a ← read_u64; b ← read_hash32; e ← read_u64; r ← read_u64;
        orders ← read_vec "client_action.mm_bundle_replace.orders" read_order;
        sides ← read_vec "client_action.mm_bundle_replace.order_sides" read_mm_side; c ← read_u64; n ← read_u64; auth ← read_key_op_auth;
        mret (Action.MmBundleReplace a b e r orders sides c n auth)) else
    if tag =? 4 then Some (a ← read_u64; b ← read_hash32; e ← read_u64; n ← read_u64; auth ← read_key_op_auth; mret (Action.MmBundleCancel a b e n auth))
    else None).

Definition read_system_event : reader Event.SystemEventWitness :=
  read_domain (ascii_bytes "sybil/event/system") "system_event";;
  read_tagged "system_event" (λ tag,
    if tag =? 0 then Some (a ← read_u64; b ← read_i64; keys ← read_key_records "system_event.initial_keys"; mret (Event.CreateAccount a b keys)) else
    if tag =? 1 then Some (a ← read_u64; m ← read_i64; mret (Event.Deposit a m)) else
    if tag =? 2 then Some (a ← read_u64; m ← read_i64; d ← read_u64; r ← read_hash32; k ← read_hash32; mret (Event.L1Deposit a m d r k)) else
    if tag =? 3 then Some (a ← read_u64; m ← read_i64; w ← read_u64; r ← read_address20; t ← read_address20; u ← read_u64; e ← read_u64; n ← read_hash32;
                           mret (Event.WithdrawalCreated a m w r t u e n)) else
    if tag =? 4 then Some (m ← read_market_id; p ← read_u64; l ← read_vec "system_event.affected_accounts" read_u64; mret (Event.MarketResolved m p l)) else
    if tag =? 5 then Some (a ← read_u64; o ← read_u64; l ← read_vec "system_event.market_ids" read_market_id; s ← read_order_direction; q ← read_u64;
                           mret (Event.OrderCancelled a o l s q)) else
    if tag =? 6 then Some (g ← read_u64; m ← read_market_id; mret (Event.MarketGroupExtended g m)) else
    if tag =? 7 then Some (a ← read_u64; w ← read_u64; m ← read_i64; r ← read_refund_reason; mret (Event.WithdrawalRefunded a w m r)) else
    if tag =? 8 then Some (a ← read_u64; w ← read_u64; m ← read_i64; mret (Event.WithdrawalFinalized a w m)) else
    if tag =? 9 then Some (h ← read_u64; mret (Event.L1BlockObserved h)) else
    if tag =? 10 then Some (a ← read_u64; k ← read_key_record; auth ← read_key_op_auth; mret (Event.KeyRegistered a k auth)) else
    if tag =? 11 then Some (a ← read_u64; k ← read_key_record; auth ← read_key_op_auth; mret (Event.KeyRevoked a k auth)) else
    if tag =? 12 then Some (m ← read_i64; d ← read_u64; r ← read_hash32; k ← read_hash32; mret (Event.DepositQuarantined m d r k)) else
    if tag =? 13 then Some (a ← read_u64; m ← read_i64; k ← read_hash32; mret (Event.QuarantineClaimed a m k)) else
    if tag =? 14 then Some (a ← read_client_action; mret (Event.ClientActionAuthorized a)) else None).

(** ** The other sections *)

Definition read_l1_deposit : reader L1DepositWitness :=
  read_domain (ascii_bytes "sybil/witness/l1-deposit") "l1_deposit";;
  i ← read_u64; c ← read_u64; v ← read_address20; t ← read_address20; s ← read_address20; k ← read_hash32; u ← read_u64; r ← read_hash32;
  mret (mkL1DepositWitness i c v t s k u r).
Definition read_deposit_accumulator : reader DepositAccumulatorWitness :=
  read_domain (ascii_bytes "sybil/witness/deposit-accumulator") "deposit_accumulator";;
  frontier ← read_items read_hash32 DEPOSIT_TREE_DEPTH;
  count ← read_u64;
  deposits ← read_vec "deposit_accumulator.new_deposits" read_l1_deposit;
  mret (mkDepositAccumulatorWitness frontier count deposits).

Definition read_fill : reader Fill :=
  read_domain (ascii_bytes "sybil/event/fill") "fill";;
  o ← read_u64; q ← read_u64; p ← read_u64; a ← read_u64; mret (mkFill o q p a).

Definition read_market_prices : reader (Z * list Nanos) :=
  market ← read_market_id; outcome_count ← read_u32; outcomes ← read_items read_u64 (Z.to_nat outcome_count); mret (market, outcomes).
(** [entries.into_iter().collect()]: a later entry replaces an earlier one. *)
Definition collect_map {A} (entries : list (Z * A)) : gmap Z A := list_to_map (reverse entries).
Definition read_clearing_prices : reader (gmap Z (list Nanos)) :=
  entries ← read_vec "clearing_prices" read_market_prices; mret (collect_map entries).

Definition read_side : reader (Z * MmSide) := order_id ← read_u64; side ← read_mm_side; mret (order_id, side).
Definition read_mm_constraint : reader MmConstraint :=
  i ← read_u64; c ← read_u64; order_ids ← read_vec "mm_constraint.order_ids" read_u64; sides ← read_vec "mm_constraint.order_sides" read_side;
  mret (mkMmConstraint i c order_ids (collect_map sides)).
Definition read_market_group : reader MarketGroup :=
  n ← read_string "market_group.name"; k ← read_optional_string "market_group.creation_key"; l ← read_vec "market_group.markets" read_market_id;
  mret (mkMarketGroup n k l).

Definition read_position : reader (Z * Z * Z) := m ← read_market_id; o ← read_u8; q ← read_i64; mret (m, o, q).
Definition read_positions (field : string) : reader (list (Z * Z * Z)) := read_vec field read_position.
Definition read_account_fields : reader AccountSnapshot :=
  i ← read_u64; b ← read_i64; t ← read_i64; p ← read_positions "account.positions"; e ← read_hash32; k ← read_hash32; n ← read_u64;
  mret (mkAccountSnapshot i b t p e k n).
Definition read_witness_account : reader AccountSnapshot := read_domain (ascii_bytes "sybil/witness/account") "account";; read_account_fields.
Definition read_account_key_set : reader (Z * list KeyRecord) := a ← read_u64; keys ← read_key_records "account_keys.keys"; mret (a, keys).
Definition read_account_keys : reader (list (Z * list KeyRecord)) :=
  read_domain (ascii_bytes "sybil/witness/account-keys") "account_keys";; read_vec "account_keys" read_account_key_set.

Definition read_oracle_source : reader OracleSourceSnapshot :=
  read_tagged "oracle_source" (λ tag, if tag =? 0 then Some (mret SourceAdmin) else if tag =? 1 then Some (f ← read_u64; mret (SourceDataFeed f)) else None).
Definition read_resolution_record : reader ResolutionRecordSnapshot :=
  p ← read_u64; s ← read_oracle_source; t ← read_u64; mret (mkResolutionRecordSnapshot p s t).
Definition read_market_status : reader MarketStatusSnapshot :=
  read_tagged "market.status" (λ tag, if tag =? 0 then Some (mret StatusActive) else
    if tag =? 1 then Some (r ← read_resolution_record; mret (StatusResolved r)) else None).
Definition read_market_snapshot : reader MarketSnapshot :=
  i ← read_market_id; n ← read_string "market.name"; o ← read_u8; s ← read_market_status; d ← read_hash32;
  t ← read_string "market.resolution_template"; p ← read_vec "market.last_clearing_prices" read_u64;
  mret (mkMarketSnapshot i n o s d t p).
Definition read_market_group_snapshot : reader MarketGroupSnapshot :=
  i ← read_u64; n ← read_string "sidecar.market_group.name"; k ← read_optional_string "sidecar.market_group.creation_key";
  l ← read_vec "sidecar.market_group.markets" read_market_id; mret (mkMarketGroupSnapshot i n k l).
Definition read_withdrawal : reader WithdrawalSnapshot :=
  i ← read_u64; a ← read_u64; r ← read_address20; t ← read_address20; u ← read_u64; m ← read_u64; e ← read_u64; n ← read_hash32;
  mret (mkWithdrawalSnapshot i a r t u m e n).
Definition read_quarantine_entry : reader QuarantineEntrySnapshot := k ← read_hash32; a ← read_i64; mret (mkQuarantineEntrySnapshot k a).
Definition read_bridge : reader BridgeStateSnapshot :=
  c ← read_u64; r ← read_hash32; h ← read_u64; n ← read_u64; ws ← read_vec "bridge.withdrawals" read_withdrawal;
  q ← read_vec "bridge.quarantine" read_quarantine_entry; mret (mkBridgeStateSnapshot c r h n ws q).
Definition read_resting_order : reader RestingOrderSnapshot :=
  o ← read_order; a ← read_u64; c ← read_u64; e ← read_u64; b ← read_i64; p ← read_positions "resting_order.reserved_positions";
  mret (mkRestingOrderSnapshot o a c e b p).
Definition read_account_reservation : reader AccountReservationSnapshot :=
  a ← read_u64; b ← read_i64; p ← read_positions "account_reservation.reserved_positions"; mret (mkAccountReservationSnapshot a b p).
Definition read_state_sidecar (domain : Bytes) (field : string) : reader StateSidecarSnapshot :=
  read_domain domain field;;
  b ← read_bridge; m ← read_vec "sidecar.markets" read_market_snapshot; g ← read_vec "sidecar.market_groups" read_market_group_snapshot;
  o ← read_vec "sidecar.resting_orders" read_resting_order; r ← read_vec "sidecar.account_reservations" read_account_reservation;
  mret (mkStateSidecarSnapshot b m g o r).

Definition read_previous_header : reader (option WitnessBlockHeader) :=
  read_tagged "previous_header" (λ tag, if tag =? 0 then Some (mret None) else if tag =? 1 then Some (h ← read_header; mret (Some h)) else None).

(** ** The witness *)

Definition read_witness : reader BlockWitness :=
  version ← read_u8;
  (if negb (version =? WITNESS_FORMAT_VERSION) then sfail (Decode.UnknownVersion version) else mret ());;
  header ← read_header;
  previous_header ← read_previous_header;
  genesis_hash ← read_hash32;
  orders ← read_vec "orders" read_witness_order;
  rejections ← read_vec "rejections" read_witness_rejection;
  system_events ← read_vec "system_events" read_system_event;
  deposit_accumulator ← read_deposit_accumulator;
  fills ← read_vec "fills" read_fill;
  clearing_prices ← read_clearing_prices;
  total_welfare ← read_i64;
  minting_cost ← read_i64;
  mm_constraints ← read_vec "mm_constraints" read_mm_constraint;
  market_groups ← read_vec "market_groups" read_market_group;
  pre_state ← read_vec "pre_state" read_witness_account;
  post_system_state ← read_vec "post_system_state" read_witness_account;
  post_state ← read_vec "post_state" read_witness_account;
  account_keys ← read_account_keys;
  state_sidecar ← read_state_sidecar (ascii_bytes "sybil/witness/state-sidecar") "state_sidecar";
  pre_state_sidecar ← read_state_sidecar (ascii_bytes "sybil/witness/pre-state-sidecar") "pre_state_sidecar";
  resolved_markets ← read_vec "resolved_markets" read_market_id;
  mret (mkBlockWitness header previous_header genesis_hash orders rejections system_events deposit_accumulator fills clearing_prices
          total_welfare minting_cost mm_constraints market_groups pre_state post_system_state post_state account_keys state_sidecar
          pre_state_sidecar resolved_markets).

Definition decode_canonical_witness_bytes (bytes : Bytes) : outcome WitnessDecodeError BlockWitness :=
  match read_witness (mkWitnessReader 0 bytes) with
  | SOk r w =>
      reject_if (negb (bool_decide (wr_rest r = []))) (Decode.TrailingBytes (wr_offset r) (Z.of_nat (length (wr_rest r))));;
      reject_if (negb (bool_decide (canonical_witness_bytes w = bytes))) Decode.NonCanonical;;
      Ok w
  | SErr _ e => Err e
  | SPanic => Panic
  end.
