(* ===== verification/WitnessTyping.v ===== *)
(** * WitnessTyping: values of their Rust types, and canonical witnesses

    [*_typed] says that a value of the model is one the Rust type can hold (its
    integers in range, its arrays of their length, its strings UTF-8) and within
    the caps of the byte schema.  [norm_*] is the canonical form the encoding
    keeps: sections in their canonical order, unused array slots blank. *)
From S2P Require Import Prelude Types Order MmConstraint Account Digest Snapshots Finalize Witness L1Protocol DepositFrontier AccountKeys WebAuthn Signing WitnessBytes WitnessDecode.

(** ** Types *)

Definition vec_of {A} (P : A → Prop) (l : list A) : Prop := Forall P l ∧ u64 (Z.of_nat (length l)).
Definition text_typed (s : string) : Prop := from_utf8 (string_bytes s) = true ∧ u64 (Z.of_nat (length (string_bytes s))).
Definition blob_typed (cap : Z) (b : Bytes) : Prop := Forall byte b ∧ Z.of_nat (length b) ≤ cap.

Record order_typed (o : Order) : Prop := {
  ot_id : u64 (ord_id o);
  ot_num_markets : 0 ≤ ord_num_markets o ≤ Z.of_nat MAX_MARKETS_PER_ORDER;
  ot_markets : array_of MAX_MARKETS_PER_ORDER u32 (ord_markets o);
  ot_num_states : 0 ≤ ord_num_states o ≤ Z.of_nat MAX_STATES;
  ot_payoffs : array_of MAX_STATES i8 (ord_payoffs o);
  ot_limit_price : u64 (ord_limit_price o);
  ot_max_fill : u64 (ord_max_fill o);
  ot_condition : of_option condition_ok (ord_condition o);
  ot_expires_at_block : of_option u64 (ord_expires_at_block o);
}.

Definition key_record_typed (k : KeyRecord) : Prop := byte (kr_auth_scheme k) ∧ bytesn 33 (kr_pubkey_sec1 k) ∧ u32 (kr_capability_mask k).
Definition keys_typed (l : list KeyRecord) : Prop := Forall key_record_typed l ∧ Z.of_nat (length l) ≤ MAX_KEYS_PER_ACCOUNT.
Definition auth_typed (a : KeyOpAuth) : Prop :=
  match a with
  | RawP256 signer signature => bytesn 33 signer ∧ bytesn 64 signature
  | WebAuthn signer authenticator_data client_data_json signature =>
      bytesn 33 signer ∧ blob_typed MAX_WEBAUTHN_AUTHENTICATOR_DATA_BYTES authenticator_data ∧
      blob_typed MAX_WEBAUTHN_CLIENT_DATA_JSON_BYTES client_data_json ∧ bytesn 64 signature
  end.

Definition action_typed (a : Action.ClientActionWitness) : Prop :=
  match a with
  | Action.Order account_id o nonce auth => u64 account_id ∧ order_typed o ∧ u64 nonce ∧ auth_typed auth
  | Action.Cancel account_id order_id nonce auth => u64 account_id ∧ u64 order_id ∧ u64 nonce ∧ auth_typed auth
  | Action.MmBundle account_id bundle_id revision orders sides max_capital nonce auth =>
      u64 account_id ∧ bytesn 32 bundle_id ∧ u64 revision ∧ vec_of order_typed orders ∧ u64 (Z.of_nat (length sides)) ∧ u64 max_capital ∧
      u64 nonce ∧ auth_typed auth
  | Action.MmBundleReplace account_id bundle_id expected_revision new_revision orders sides max_capital nonce auth =>
      u64 account_id ∧ bytesn 32 bundle_id ∧ u64 expected_revision ∧ u64 new_revision ∧ vec_of order_typed orders ∧
      u64 (Z.of_nat (length sides)) ∧ u64 max_capital ∧ u64 nonce ∧ auth_typed auth
  | Action.MmBundleCancel account_id bundle_id expected_revision nonce auth =>
      u64 account_id ∧ bytesn 32 bundle_id ∧ u64 expected_revision ∧ u64 nonce ∧ auth_typed auth
  end.

Definition refund_typed (r : WithdrawalRefundReason) : Prop := match r with L1Cancelled => True | L1Expired h => u64 h end.

Definition event_typed (e : Event.SystemEventWitness) : Prop :=
  match e with
  | Event.CreateAccount account_id initial_balance keys => u64 account_id ∧ i64 initial_balance ∧ keys_typed keys
  | Event.Deposit account_id amount => u64 account_id ∧ i64 amount
  | Event.L1Deposit account_id amount deposit_id deposit_root key =>
      u64 account_id ∧ i64 amount ∧ u64 deposit_id ∧ bytesn 32 deposit_root ∧ bytesn 32 key
  | Event.WithdrawalCreated account_id amount withdrawal_id recipient token units expiry nullifier =>
      u64 account_id ∧ i64 amount ∧ u64 withdrawal_id ∧ bytesn 20 recipient ∧ bytesn 20 token ∧ u64 units ∧ u64 expiry ∧ bytesn 32 nullifier
  | Event.MarketResolved market payout affected => u32 market ∧ u64 payout ∧ vec_of u64 affected
  | Event.OrderCancelled account_id order_id markets side remaining => u64 account_id ∧ u64 order_id ∧ vec_of u32 markets ∧ u64 remaining
  | Event.MarketGroupExtended group market => u64 group ∧ u32 market
  | Event.WithdrawalRefunded account_id withdrawal_id amount reason => u64 account_id ∧ u64 withdrawal_id ∧ i64 amount ∧ refund_typed reason
  | Event.WithdrawalFinalized account_id withdrawal_id amount => u64 account_id ∧ u64 withdrawal_id ∧ i64 amount
  | Event.L1BlockObserved height => u64 height
  | Event.KeyRegistered account_id key auth | Event.KeyRevoked account_id key auth => u64 account_id ∧ key_record_typed key ∧ auth_typed auth
  | Event.DepositQuarantined amount deposit_id deposit_root key => i64 amount ∧ u64 deposit_id ∧ bytesn 32 deposit_root ∧ bytesn 32 key
  | Event.QuarantineClaimed account_id amount key => u64 account_id ∧ i64 amount ∧ bytesn 32 key
  | Event.ClientActionAuthorized action => action_typed action
  end.

Definition reason_typed (r : Reason.RejectionReason) : Prop :=
  match r with
  | Reason.InsufficientBalance required available => i64 required ∧ i64 available
  | Reason.InsufficientPosition market out required available => u32 market ∧ byte out ∧ i64 required ∧ i64 available
  | Reason.InvalidOrder why => from_utf8 (string_bytes why) = true ∧ u32 (Z.of_nat (length (string_bytes why)))
  | Reason.Expired current expires => u64 current ∧ u64 expires
  | _ => True
  end.

Definition witness_order_typed (o : WitnessOrder) : Prop := order_typed (wo_order o) ∧ u64 (wo_account_id o).
Definition rejection_typed (r : WitnessRejection) : Prop := order_typed (wr_order r) ∧ u64 (wr_account_id r) ∧ reason_typed (wr_reason r).
Definition fill_typed (f : Fill) : Prop := u64 (fill_order_id f) ∧ u64 (fill_qty f) ∧ u64 (fill_price f) ∧ u64 (fill_account_id f).

Definition header_typed (h : WitnessBlockHeader) : Prop :=
  u64 (hd_height h) ∧ bytesn 32 (hd_parent_hash h) ∧ bytesn 32 (hd_state_root h) ∧ bytesn 32 (hd_events_root h) ∧ u32 (hd_order_count h) ∧
  u32 (hd_fill_count h) ∧ u64 (hd_timestamp_ms h).
Definition l1_deposit_typed (d : L1DepositWitness) : Prop :=
  u64 (dw_deposit_id d) ∧ u64 (dw_chain_id d) ∧ bytesn 20 (dw_vault_address d) ∧ bytesn 20 (dw_token_address d) ∧ bytesn 20 (dw_sender d) ∧
  bytesn 32 (dw_sybil_account_key d) ∧ u64 (dw_amount_token_units d) ∧ bytesn 32 (dw_deposit_root d).
Definition accumulator_typed (d : DepositAccumulatorWitness) : Prop :=
  array_of DEPOSIT_TREE_DEPTH (bytesn 32) (da_pre_frontier d) ∧ u64 (da_pre_count d) ∧ vec_of l1_deposit_typed (da_new_deposits d).

Definition map_typed {A} (P : Z → Prop) (Q : A → Prop) (m : gmap Z A) : Prop := map_Forall (λ k x, P k ∧ Q x) m ∧ u64 (Z.of_nat (size m)).
Definition outcomes_typed (l : list Nanos) : Prop := Forall u64 l ∧ u32 (Z.of_nat (length l)).
Definition constraint_typed (c : MmConstraint) : Prop :=
  u64 (mm_id c) ∧ u64 (mm_max_capital c) ∧ vec_of u64 (mm_order_ids c) ∧ map_typed u64 (λ _, True) (mm_order_sides c).
Definition group_typed (g : MarketGroup) : Prop := text_typed (mg_name g) ∧ of_option text_typed (mg_creation_key g) ∧ vec_of u32 (mg_markets g).

Definition position_typed (p : Z * Z * Z) : Prop := u32 p.1.1 ∧ byte p.1.2 ∧ i64 p.2.
Definition account_typed (a : AccountSnapshot) : Prop :=
  u64 (asn_id a) ∧ i64 (asn_balance a) ∧ i64 (asn_total_deposited a) ∧ vec_of position_typed (asn_positions a) ∧ bytesn 32 (asn_events_digest a) ∧
  bytesn 32 (asn_keys_digest a) ∧ u64 (asn_last_trading_nonce a).
Definition key_set_typed (e : Z * list KeyRecord) : Prop := u64 e.1 ∧ keys_typed e.2.

Definition source_typed (s : OracleSourceSnapshot) : Prop := match s with SourceAdmin => True | SourceDataFeed f => u64 f end.
Definition record_typed (r : ResolutionRecordSnapshot) : Prop := u64 (rr_payout_nanos r) ∧ source_typed (rr_resolved_by r) ∧ u64 (rr_resolved_at_ms r).
Definition status_typed (s : MarketStatusSnapshot) : Prop := match s with StatusActive => True | StatusResolved r => record_typed r end.
Definition market_typed (m : MarketSnapshot) : Prop :=
  u32 (msn_market_id m) ∧ text_typed (msn_name m) ∧ byte (msn_num_outcomes m) ∧ status_typed (msn_status m) ∧ bytesn 32 (msn_metadata_digest m) ∧
  text_typed (msn_resolution_template m) ∧ vec_of u64 (msn_last_clearing_prices m).
Definition group_snapshot_typed (g : MarketGroupSnapshot) : Prop :=
  u64 (mgs_group_id g) ∧ text_typed (mgs_name g) ∧ of_option text_typed (mgs_creation_key g) ∧ vec_of u32 (mgs_markets g).
Definition withdrawal_typed (w : WithdrawalSnapshot) : Prop :=
  u64 (ws_withdrawal_id w) ∧ u64 (ws_account_id w) ∧ bytesn 20 (ws_recipient w) ∧ bytesn 20 (ws_token w) ∧ u64 (ws_amount_token_units w) ∧
  u64 (ws_amount_nanos w) ∧ u64 (ws_expiry_height w) ∧ bytesn 32 (ws_nullifier w).
Definition quarantine_typed (e : QuarantineEntrySnapshot) : Prop := bytesn 32 (qe_sybil_account_key e) ∧ i64 (qe_amount e).
Definition bridge_typed (b : BridgeStateSnapshot) : Prop :=
  u64 (br_deposit_cursor b) ∧ bytesn 32 (br_deposit_root b) ∧ u64 (br_observed_l1_height b) ∧ u64 (br_next_withdrawal_id b) ∧
  vec_of withdrawal_typed (br_withdrawals b) ∧ vec_of quarantine_typed (br_quarantine b).
Definition resting_typed (r : RestingOrderSnapshot) : Prop :=
  order_typed (ros_order r) ∧ u64 (ros_account_id r) ∧ u64 (ros_created_at r) ∧ u64 (ros_expires_at_block r) ∧ i64 (ros_reserved_balance r) ∧
  vec_of position_typed (ros_reserved_positions r).
Definition reservation_typed (r : AccountReservationSnapshot) : Prop :=
  u64 (ars_account_id r) ∧ i64 (ars_reserved_balance r) ∧ vec_of position_typed (ars_reserved_positions r).
Definition sidecar_typed (s : StateSidecarSnapshot) : Prop :=
  bridge_typed (ss_bridge s) ∧ vec_of market_typed (ss_markets s) ∧ vec_of group_snapshot_typed (ss_market_groups s) ∧
  vec_of resting_typed (ss_resting_orders s) ∧ vec_of reservation_typed (ss_account_reservations s).

Record witness_typed (w : BlockWitness) : Prop := {
  wt_header : header_typed (bw_header w);
  wt_previous_header : of_option header_typed (bw_previous_header w);
  wt_genesis_hash : bytesn 32 (bw_genesis_hash w);
  wt_orders : vec_of witness_order_typed (bw_orders w);
  wt_rejections : vec_of rejection_typed (bw_rejections w);
  wt_system_events : vec_of event_typed (bw_system_events w);
  wt_deposit_accumulator : accumulator_typed (bw_deposit_accumulator w);
  wt_fills : vec_of fill_typed (bw_fills w);
  wt_clearing_prices : map_typed u32 outcomes_typed (bw_clearing_prices w);
  wt_total_welfare : i64 (bw_total_welfare w);
  wt_minting_cost : i64 (bw_minting_cost w);
  wt_mm_constraints : vec_of constraint_typed (bw_mm_constraints w);
  wt_market_groups : vec_of group_typed (bw_market_groups w);
  wt_pre_state : vec_of account_typed (bw_pre_state w);
  wt_post_system_state : vec_of account_typed (bw_post_system_state w);
  wt_post_state : vec_of account_typed (bw_post_state w);
  wt_account_keys : vec_of key_set_typed (bw_account_keys w);
  wt_state_sidecar : sidecar_typed (bw_state_sidecar w);
  wt_pre_state_sidecar : sidecar_typed (bw_pre_state_sidecar w);
  wt_resolved_markets : vec_of u32 (bw_resolved_markets w);
}.

(** ** Canonical forms *)

(** The first [n] slots of an array, the rest blank. *)
Definition pad (cap : nat) (blank : Z) (n : Z) (l : list Z) : list Z := take (Z.to_nat n) l ++ replicate (cap - Z.to_nat n) blank.
Definition norm_order (o : Order) : Order :=
  mkOrder (ord_id o) (pad MAX_MARKETS_PER_ORDER (int_max U32) (ord_num_markets o) (ord_markets o)) (ord_num_markets o)
    (pad MAX_STATES 0 (ord_num_states o) (ord_payoffs o)) (ord_num_states o) (ord_limit_price o) (ord_max_fill o) (ord_condition o)
    (ord_expires_at_block o).
Definition norm_keys (l : list KeyRecord) : list KeyRecord := stable_sort key_record_le l.
Definition norm_positions (l : list (Z * Z * Z)) : list (Z * Z * Z) := stable_sort position_le l.

Definition norm_action (a : Action.ClientActionWitness) : Action.ClientActionWitness :=
  match a with
  | Action.Order account_id o nonce auth => Action.Order account_id (norm_order o) nonce auth
  | Action.MmBundle account_id bundle_id revision orders sides max_capital nonce auth =>
      Action.MmBundle account_id bundle_id revision (norm_order <$> orders) sides max_capital nonce auth
  | Action.MmBundleReplace account_id bundle_id expected_revision new_revision orders sides max_capital nonce auth =>
      Action.MmBundleReplace account_id bundle_id expected_revision new_revision (norm_order <$> orders) sides max_capital nonce auth
  | a => a
  end.
Definition norm_event (e : Event.SystemEventWitness) : Event.SystemEventWitness :=
  match e with
  | Event.CreateAccount account_id initial_balance keys => Event.CreateAccount account_id initial_balance (norm_keys keys)
  | Event.MarketResolved market payout affected => Event.MarketResolved market payout (sort_on id affected)
  | Event.OrderCancelled account_id order_id markets side remaining => Event.OrderCancelled account_id order_id (sort_on id markets) side remaining
  | Event.ClientActionAuthorized action => Event.ClientActionAuthorized (norm_action action)
  | e => e
  end.
Definition norm_witness_order (o : WitnessOrder) : WitnessOrder := mkWitnessOrder (norm_order (wo_order o)) (wo_account_id o) (wo_is_mm o).
Definition norm_rejection (r : WitnessRejection) : WitnessRejection := mkWitnessRejection (norm_order (wr_order r)) (wr_account_id r) (wr_reason r).
Definition norm_constraint (c : MmConstraint) : MmConstraint := mkMmConstraint (mm_id c) (mm_max_capital c) (sort_on id (mm_order_ids c)) (mm_order_sides c).
Definition norm_group (g : MarketGroup) : MarketGroup := mkMarketGroup (mg_name g) (mg_creation_key g) (sort_on id (mg_markets g)).
Definition norm_account (a : AccountSnapshot) : AccountSnapshot :=
  mkAccountSnapshot (asn_id a) (asn_balance a) (asn_total_deposited a) (norm_positions (asn_positions a)) (asn_events_digest a) (asn_keys_digest a)
    (asn_last_trading_nonce a).
Definition norm_key_set (e : Z * list KeyRecord) : Z * list KeyRecord := (e.1, norm_keys e.2).
Definition norm_group_snapshot (g : MarketGroupSnapshot) : MarketGroupSnapshot :=
  mkMarketGroupSnapshot (mgs_group_id g) (mgs_name g) (mgs_creation_key g) (sort_on id (mgs_markets g)).
Definition norm_bridge (b : BridgeStateSnapshot) : BridgeStateSnapshot :=
  mkBridgeStateSnapshot (br_deposit_cursor b) (br_deposit_root b) (br_observed_l1_height b) (br_next_withdrawal_id b)
    (sort_on ws_withdrawal_id (br_withdrawals b)) (stable_sort quarantine_le (br_quarantine b)).
Definition norm_resting (r : RestingOrderSnapshot) : RestingOrderSnapshot :=
  mkRestingOrderSnapshot (norm_order (ros_order r)) (ros_account_id r) (ros_created_at r) (ros_expires_at_block r) (ros_reserved_balance r)
    (norm_positions (ros_reserved_positions r)).
Definition norm_reservation (r : AccountReservationSnapshot) : AccountReservationSnapshot :=
  mkAccountReservationSnapshot (ars_account_id r) (ars_reserved_balance r) (norm_positions (ars_reserved_positions r)).
Definition norm_sidecar (s : StateSidecarSnapshot) : StateSidecarSnapshot :=
  mkStateSidecarSnapshot (norm_bridge (ss_bridge s)) (sort_on msn_market_id (ss_markets s))
    (norm_group_snapshot <$> sort_on mgs_group_id (ss_market_groups s))
    (norm_resting <$> sort_on (λ r, ord_id (ros_order r)) (ss_resting_orders s))
    (norm_reservation <$> sort_on ars_account_id (ss_account_reservations s)).

Definition norm_witness (w : BlockWitness) : BlockWitness :=
  mkBlockWitness (bw_header w) (bw_previous_header w) (bw_genesis_hash w)
    (norm_witness_order <$> sort_on (λ o, ord_id (wo_order o)) (bw_orders w))
    (norm_rejection <$> sort_on (λ r, ord_id (wr_order r)) (bw_rejections w))
    (norm_event <$> bw_system_events w) (bw_deposit_accumulator w) (bw_fills w) (bw_clearing_prices w) (bw_total_welfare w) (bw_minting_cost w)
    (norm_constraint <$> sort_on mm_id (bw_mm_constraints w)) (norm_group <$> stable_sort group_le (bw_market_groups w))
    (norm_account <$> sort_on asn_id (bw_pre_state w)) (norm_account <$> sort_on asn_id (bw_post_system_state w))
    (norm_account <$> sort_on asn_id (bw_post_state w)) (norm_key_set <$> sort_on fst (bw_account_keys w))
    (norm_sidecar (bw_state_sidecar w)) (norm_sidecar (bw_pre_state_sidecar w)) (sort_on id (bw_resolved_markets w)).
