(* ===== verification/WitnessRoundtrip.v ===== *)
(** * WitnessRoundtrip: decoding what was encoded

    The decoder inverts the encoder up to the canonical order of the witness's
    unordered sections, and accepts only canonical bytes. *)
From S2P Require Import Prelude Types Order MmConstraint Account Digest Snapshots Finalize Witness L1Protocol DepositFrontier AccountKeys WebAuthn Signing WitnessBytes WitnessDecode WitnessTyping.

(** ** Readers that decode an encoding *)

Definition decodes {A} (m : st WitnessReader WitnessDecodeError A) (b : Bytes) (v : A) : Prop :=
  ∀ off rest, m (mkWitnessReader off (b ++ rest)) = SOk (mkWitnessReader (off + Z.of_nat (length b)) rest) v.

Lemma decodes_ret {A} (v v' : A) : v = v' → decodes (mret v) [] v'.
Proof. intros <- off rest. cbn. by rewrite Z.add_0_r. Qed.
Lemma decodes_bind {A B} m (f : A → st WitnessReader WitnessDecodeError B) b a b' v : decodes m b a → decodes (f a) b' v → decodes (m ≫= f) (b ++ b') v.
Proof.
  intros Hm Hf off rest. rewrite <- (assoc_L (++)). rewrite (sbind_SOk _ _ _ _ _ (Hm off (b' ++ rest))), Hf. rewrite length_app. do 2 f_equal. lia.
Qed.
Lemma decodes_last {A B} m (f : A → st WitnessReader WitnessDecodeError B) b a v : decodes m b a → decodes (f a) [] v → decodes (m ≫= f) b v.
Proof. intros Hm Hf. rewrite <- (app_nil_r b). by eapply decodes_bind. Qed.
Lemma decodes_offset {B} (f : Z → st WitnessReader WitnessDecodeError B) b v : (∀ off, decodes (f off) b v) → decodes (current_offset ≫= f) b v.
Proof. intros Hf off rest. apply Hf. Qed.
Lemma decodes_guard {B} (c : bool) e (m : st WitnessReader WitnessDecodeError B) b v : c = false → decodes m b v → decodes (if c then sfail e else m) b v.
Proof. by intros ->. Qed.
Lemma decodes_guard_then {B} (c : bool) e (m : st WitnessReader WitnessDecodeError B) b v : c = false → decodes m b v →
  decodes ((if c then sfail e else mret ());; m) b v.
Proof. by intros ->. Qed.

Lemma decodes_slice n b : Z.of_nat (length b) = n → decodes (read_slice n) b b.
Proof.
  intros <- off rest. unfold read_slice. rewrite sget_bind. cbn [wr_rest wr_offset]. rewrite length_app.
  destruct (Z.ltb_spec (Z.of_nat (length b + length rest)) (Z.of_nat (length b))); [lia|]. rewrite smodify_bind. cbn [wr_rest wr_offset].
  rewrite Nat2Z.id, drop_app_length, take_app_length. done.
Qed.
Lemma decodes_exact n b : length b = n → decodes (read_exact n) b b.
Proof. intros <-. by apply decodes_slice. Qed.
Lemma decodes_bytesn n b : bytesn n b → decodes (read_exact n) b b.
Proof. intros [Hl _]. by apply decodes_exact. Qed.
Lemma decodes_domain d field : decodes (read_domain d field) d ().
Proof.
  intros off rest. unfold read_domain. rewrite sget_bind. cbn [wr_rest wr_offset]. rewrite length_app.
  destruct (Z.ltb_spec (Z.of_nat (length d + length rest)) (Z.of_nat (length d))); [lia|]. rewrite decide_True by (by rewrite take_app_length).
  unfold smodify. cbn [wr_rest wr_offset]. by rewrite drop_app_length.
Qed.

Lemma from_le_bytes n z : from_le (le_bytes n z) = z mod 256 ^ Z.of_nat n.
Proof.
  revert z. induction n as [|n IH]; intros z; cbn [le_bytes from_le]; [by rewrite Z.mod_1_r|]. rewrite IH, Nat2Z.inj_succ, Z.pow_succ_r by lia.
  rewrite Z.rem_mul_r by lia. lia.
Qed.
Lemma decodes_u8 z : byte z → decodes read_u8 [z] z.
Proof.
  intros Hz. unfold read_u8. eapply decodes_last; [by apply decodes_exact|]. apply decodes_ret. cbn. lia.
Qed.
Lemma decodes_u32 z : u32 z → decodes read_u32 (le_bytes 4 z) z.
Proof.
  intros Hz. unfold read_u32. eapply decodes_last; [apply decodes_exact, le_bytes_length|]. apply decodes_ret. rewrite from_le_bytes.
  apply Z.mod_small. unfold u32 in Hz. change (int_max U32) with 4294967295 in Hz. change (256 ^ Z.of_nat 4) with 4294967296. lia.
Qed.
Lemma decodes_u64 z : u64 z → decodes read_u64 (le_bytes 8 z) z.
Proof.
  intros Hz. unfold read_u64. eapply decodes_last; [apply decodes_exact, le_bytes_length|]. apply decodes_ret. rewrite from_le_bytes.
  apply Z.mod_small. unfold u64 in Hz. change (int_max U64) with 18446744073709551615 in Hz. change (256 ^ Z.of_nat 8) with 18446744073709551616. lia.
Qed.
Lemma decodes_i64 z : i64 z → decodes read_i64 (le_bytes 8 z) z.
Proof.
  intros Hz. unfold read_i64. eapply decodes_last; [apply decodes_exact, le_bytes_length|]. apply decodes_ret. unfold from_le_i64. rewrite from_le_bytes.
  unfold wrap, i64 in *. change (256 ^ Z.of_nat 8) with 18446744073709551616. change (int_min I64) with (-9223372036854775808) in *.
  change (int_max I64) with 9223372036854775807 in *. Z.div_mod_to_equations. lia.
Qed.
Lemma decodes_payoff z : i8 z → decodes read_payoff (le_bytes 1 z) z.
Proof.
  intros Hz. unfold read_payoff. eapply decodes_last.
  - apply decodes_u8. unfold byte. change (int_max U8) with 255. pose proof (Z.mod_pos_bound z 256). lia.
  - apply decodes_ret. unfold wrap, i8 in *. change (int_min I8) with (-128). change (int_max I8) with 127. Z.div_mod_to_equations. lia.
Qed.
Lemma decodes_len field z : u64 z → decodes (read_len field) (le_bytes 8 z) z.
Proof.
  intros Hz. unfold read_len. eapply decodes_last; [by apply decodes_u64|]. apply decodes_guard; [|by apply decodes_ret].
  rewrite Z.gtb_ltb. apply Z.ltb_ge. apply Hz.
Qed.

Lemma decodes_tagged {A} field (cases : Z → option (st WitnessReader WitnessDecodeError A)) t m b v : byte t → cases t = Some m → decodes m b v →
  decodes (read_tagged field cases) ([t] ++ b) v.
Proof. intros Ht Hc Hm. unfold read_tagged. apply decodes_offset. intros off. eapply decodes_bind; [by apply decodes_u8|]. by rewrite Hc. Qed.
Lemma decodes_tag {A} field (cases : Z → option (st WitnessReader WitnessDecodeError A)) t m v : byte t → cases t = Some m → decodes m [] v →
  decodes (read_tagged field cases) [t] v.
Proof. apply (decodes_tagged field cases t m []). Qed.

Lemma decodes_items {A B} (item : st WitnessReader WitnessDecodeError B) (enc : A → Bytes) (view : A → B) l :
  (∀ x, x ∈ l → decodes item (enc x) (view x)) → decodes (read_items item (length l)) (l ≫= enc) (view <$> l).
Proof.
  induction l as [|x l IH]; intros H; cbn [read_items length fmap list_fmap]; [by apply decodes_ret|]. rewrite bind_cons.
  eapply decodes_bind; [apply H; left|]. eapply decodes_last; [apply IH; intros y Hy; apply H; by right|]. by apply decodes_ret.
Qed.
Lemma decodes_vec {A B} field (item : st WitnessReader WitnessDecodeError B) (enc : A → Bytes) (view : A → B) l : u64 (Z.of_nat (length l)) →
  (∀ x, x ∈ l → decodes item (enc x) (view x)) → decodes (read_vec field item) (append_counted enc l) (view <$> l).
Proof.
  intros Hn H. unfold read_vec, append_counted. eapply decodes_bind; [by apply decodes_len|]. rewrite Nat2Z.id. by apply decodes_items.
Qed.
Lemma decodes_vec_id {A} field (item : st WitnessReader WitnessDecodeError A) (enc : A → Bytes) l : u64 (Z.of_nat (length l)) →
  (∀ x, x ∈ l → decodes item (enc x) x) → decodes (read_vec field item) (append_counted enc l) l.
Proof. intros Hn H. rewrite <- (list_fmap_id l) at 2. by apply (decodes_vec field item enc id). Qed.
Lemma decodes_items_id {A} (item : st WitnessReader WitnessDecodeError A) (enc : A → Bytes) l :
  (∀ x, x ∈ l → decodes item (enc x) x) → decodes (read_items item (length l)) (l ≫= enc) l.
Proof. intros H. rewrite <- (list_fmap_id l) at 3. by apply (decodes_items item enc id). Qed.

(** ** Text *)

Lemma bytes_string_inv s : bytes_string (string_bytes s) = s.
Proof.
  unfold bytes_string, string_bytes. rewrite <- list_fmap_compose. rewrite <- (String.string_of_list_ascii_of_string s) at 2. f_equal.
  rewrite <- (list_fmap_id (String.list_ascii_of_string s)) at 2. apply list_fmap_ext. intros _ c _. cbn. by rewrite N2Z.id, Ascii.ascii_N_embedding.
Qed.
Lemma decodes_text field s : from_utf8 (string_bytes s) = true → decodes (read_text field (Z.of_nat (length (string_bytes s)))) (string_bytes s) s.
Proof.
  intros Hu. unfold read_text. apply decodes_offset. intros off. eapply decodes_last; [by apply decodes_slice|]. rewrite Hu.
  apply decodes_ret, bytes_string_inv.
Qed.
Lemma decodes_string field s : text_typed s → decodes (read_string field) (append_str s) s.
Proof. intros [Hu Hl]. eapply decodes_bind; [by apply decodes_len|]. by apply decodes_text. Qed.
Lemma decodes_u32_string field s : from_utf8 (string_bytes s) = true → u32 (Z.of_nat (length (string_bytes s))) →
  decodes (read_u32_len_string field) (push_str s) s.
Proof. intros Hu Hl. eapply decodes_bind; [by apply decodes_u32|]. by apply decodes_text. Qed.

(** The digit 0..14 of an enum tag. *)
Lemma small_byte t : 0 ≤ t ≤ 14 → byte t.
Proof. intros H. unfold byte. change (int_max U8) with 255. lia. Qed.
Create HintDb decodes.
#[export] Hint Constants Opaque : decodes.
#[export] Hint Transparent append_u32 append_u64 append_i64 append_market_id : decodes.
#[export] Hint Resolve decodes_u8 decodes_u32 decodes_u64 decodes_i64 decodes_bytesn decodes_domain decodes_string decodes_payoff : decodes.
#[export] Hint Extern 1 (decodes read_market_id _ _) => apply decodes_u32; assumption : decodes.
#[export] Hint Extern 1 (decodes read_hash32 _ _) => apply decodes_bytesn; assumption : decodes.
#[export] Hint Extern 1 (decodes read_address20 _ _) => apply decodes_bytesn; assumption : decodes.
#[export] Hint Extern 1 (decodes read_pubkey33 _ _) => apply decodes_bytesn; assumption : decodes.
#[export] Hint Extern 1 (decodes read_signature64 _ _) => apply decodes_bytesn; assumption : decodes.

(** Reads the fields of a record or of the case of an enum, in order. *)
Ltac fields := repeat match goal with
  | |- decodes (mret _) [] _ => apply decodes_ret; reflexivity
  | |- decodes (_ ≫= _) (_ ++ _) _ => eapply decodes_bind; [solve [eauto with decodes]|]
  | |- decodes (_ ≫= _) _ _ => eapply decodes_last; [solve [eauto with decodes]|]
  end.
Ltac tagged := first [eapply decodes_tagged; [apply small_byte; lia|reflexivity|]|eapply decodes_tag; [apply small_byte; lia|reflexivity|]].

Lemma decodes_optional_string field s : of_option text_typed s → decodes (read_optional_string field) (append_optional_string s) s.
Proof. destruct s as [s|]; unfold of_option, append_optional_string, read_optional_string; intros H; tagged; fields. Qed.
#[export] Hint Resolve decodes_optional_string : decodes.

(** ** Orders *)

Lemma decodes_direction d : decodes read_direction [match d with Above => 0 | Below => 1 end] d.
Proof. destruct d; unfold read_direction; tagged; fields. Qed.
#[export] Hint Resolve decodes_direction : decodes.
Lemma decodes_condition c : of_option condition_ok c → decodes read_condition (append_condition c) c.
Proof. destruct c as [[m t d]|]; unfold read_condition, append_condition; [intros [Hm Ht]; cbn in Hm, Ht|intros _]; tagged; cbn [pc_market pc_threshold pc_direction]; fields. Qed.
Lemma decodes_expiry e : of_option u64 e → decodes read_expiry (append_expiry e) e.
Proof. destruct e as [e|]; unfold read_expiry, append_expiry, of_option; intros H; tagged; fields. Qed.
#[export] Hint Resolve decodes_condition decodes_expiry : decodes.

Lemma take_array {A} n (P : A → Prop) cap l : array_of cap P l → 0 ≤ n ≤ Z.of_nat cap →
  length (take (Z.to_nat n) l) = Z.to_nat n ∧ ∀ x, x ∈ take (Z.to_nat n) l → P x.
Proof.
  intros [Hl HP] Hn. split; [rewrite length_take; lia|]. intros x (i & Hi)%list_elem_of_lookup. rewrite Forall_lookup in HP.
  apply lookup_take_Some in Hi as [Hi _]. by apply (HP i).
Qed.
Lemma decodes_prefix {A} n (P : A → Prop) cap l item (enc : A → Bytes) : array_of cap P l → 0 ≤ n ≤ Z.of_nat cap → (∀ x, P x → decodes item (enc x) x) →
  decodes (read_items item (Z.to_nat n)) (take (Z.to_nat n) l ≫= enc) (take (Z.to_nat n) l).
Proof.
  intros Hl Hn H. destruct (take_array n P cap l Hl Hn) as [Hlen HP]. rewrite <- Hlen at 1. apply decodes_items_id. eauto.
Qed.
Lemma decodes_order o : order_typed o → decodes read_order (append_order o) (norm_order o).
Proof.
  intros [Hi Hn Hm Hns Hp Hl Hf Hc He]. unfold read_order, append_order, num_markets. fields.
  eapply decodes_bind. { apply decodes_u8. unfold byte. change (int_max U8) with 255. change MAX_MARKETS_PER_ORDER with 5%nat in Hn. lia. }
  apply decodes_offset. intros off. apply decodes_guard_then; [rewrite Z.gtb_ltb; apply Z.ltb_ge; lia|].
  eapply decodes_bind. { eapply decodes_prefix; [done..|]. intros x Hx. by apply decodes_u32. }
  eapply decodes_bind. { apply decodes_u8. unfold byte. change (int_max U8) with 255. change MAX_STATES with 32%nat in Hns. lia. }
  apply decodes_offset. intros off'. apply decodes_guard_then; [rewrite Z.gtb_ltb; apply Z.ltb_ge; lia|].
  eapply decodes_bind. { eapply decodes_prefix; [done..|]. intros x Hx. by apply decodes_payoff. }
  eapply decodes_bind; [solve [eauto with decodes]|]. eapply decodes_bind; [solve [eauto with decodes]|].
  eapply decodes_bind; [solve [eauto with decodes]|]. eapply decodes_last; [solve [eauto with decodes]|].
  apply decodes_ret. unfold norm_order, pad. destruct (take_array _ _ _ _ Hm Hn) as [-> _]. destruct (take_array _ _ _ _ Hp Hns) as [-> _]. done.
Qed.
#[export] Hint Resolve decodes_order : decodes.

(** ** Authorisations and events *)

Lemma decodes_sorted {A B} field (item : st WitnessReader WitnessDecodeError B) (enc : A → Bytes) (view : A → B) (P : A → Prop) R `{!RelDecision R} l : vec_of P l →
  (∀ x, P x → decodes item (enc x) (view x)) → decodes (read_vec field item) (append_counted enc (stable_sort R l)) (view <$> stable_sort R l).
Proof.
  intros [HP Hn] H. apply decodes_vec; [by rewrite stable_sort_Permutation|]. intros x. rewrite stable_sort_Permutation. rewrite Forall_forall in HP. eauto.
Qed.
Lemma decodes_sorted_id {A} field (item : st WitnessReader WitnessDecodeError A) (enc : A → Bytes) (P : A → Prop) R `{!RelDecision R} l : vec_of P l →
  (∀ x, P x → decodes item (enc x) x) → decodes (read_vec field item) (append_counted enc (stable_sort R l)) (stable_sort R l).
Proof. intros Hl H. rewrite <- (list_fmap_id (stable_sort R l)) at 2. by apply (decodes_sorted field item enc id P). Qed.
Lemma decodes_typed {A B} field (item : st WitnessReader WitnessDecodeError B) (enc : A → Bytes) (view : A → B) (P : A → Prop) l : vec_of P l →
  (∀ x, P x → decodes item (enc x) (view x)) → decodes (read_vec field item) (append_counted enc l) (view <$> l).
Proof. intros [HP Hn] H. apply decodes_vec; [done|]. rewrite Forall_forall in HP. eauto. Qed.
Lemma decodes_typed_id {A} field (item : st WitnessReader WitnessDecodeError A) (enc : A → Bytes) (P : A → Prop) l : vec_of P l →
  (∀ x, P x → decodes item (enc x) x) → decodes (read_vec field item) (append_counted enc l) l.
Proof. intros Hl H. rewrite <- (list_fmap_id l) at 2. by apply (decodes_typed field item enc id P). Qed.
Lemma decodes_u64s field l : vec_of u64 l → decodes (read_vec field read_u64) (append_counted append_u64 l) l.
Proof. intros Hl. eapply decodes_typed_id; [done|]. apply decodes_u64. Qed.
Lemma decodes_sorted_u64s field l : vec_of u64 l → decodes (read_vec field read_u64) (append_counted append_u64 (sort_on id l)) (sort_on id l).
Proof. intros Hl. eapply decodes_sorted_id; [done|]. apply decodes_u64. Qed.
Lemma decodes_sorted_markets field l : vec_of u32 l → decodes (read_vec field read_market_id) (append_counted append_market_id (sort_on id l)) (sort_on id l).
Proof. intros Hl. eapply decodes_sorted_id; [done|]. apply decodes_u32. Qed.
#[export] Hint Resolve decodes_u64s decodes_sorted_u64s decodes_sorted_markets : decodes.

Lemma decodes_key_record k : key_record_typed k → decodes read_key_record (append_key_record k) k.
Proof. destruct k as [s p m]. intros (Hs & Hp & Hm). unfold read_key_record, append_key_record. cbn [kr_auth_scheme kr_pubkey_sec1 kr_capability_mask] in *. fields. Qed.
#[export] Hint Resolve decodes_key_record : decodes.
Lemma keys_vec l : keys_typed l → vec_of key_record_typed l.
Proof. intros [Hl Hn]. split; [done|]. unfold u64. change MAX_KEYS_PER_ACCOUNT with 16 in Hn. change (int_max U64) with 18446744073709551615. lia. Qed.
Lemma decodes_key_records field l : keys_typed l → decodes (read_key_records field) (append_key_records l) (norm_keys l).
Proof.
  intros Hl. unfold read_key_records, append_key_records. eapply decodes_last.
  - eapply decodes_sorted_id; [by apply keys_vec|]. apply decodes_key_record.
  - apply decodes_offset. intros off. apply decodes_guard; [|by apply decodes_ret]. rewrite stable_sort_Permutation, Z.gtb_ltb. apply Z.ltb_ge, Hl.
Qed.
Lemma decodes_blob field cap b : cap ≤ 2048 → blob_typed cap b → decodes (read_bytes field cap) (append_blob b) b.
Proof.
  intros Hcap [_ Hc]. unfold read_bytes, append_blob. apply decodes_offset. intros off. eapply decodes_bind.
  - apply decodes_len. unfold u64. change (int_max U64) with 18446744073709551615. lia.
  - apply decodes_guard; [rewrite Z.gtb_ltb; by apply Z.ltb_ge|]. by apply decodes_slice.
Qed.
#[export] Hint Resolve decodes_key_records : decodes.
#[export] Hint Extern 1 (decodes (read_bytes _ _) _ _) => apply decodes_blob; [unfold MAX_WEBAUTHN_AUTHENTICATOR_DATA_BYTES, MAX_WEBAUTHN_CLIENT_DATA_JSON_BYTES; lia|assumption] : decodes.
Lemma decodes_key_op_auth a : auth_typed a → decodes read_key_op_auth (append_key_op_auth a) a.
Proof. unfold read_key_op_auth. destruct a; cbn [auth_typed append_key_op_auth]; intros H; destruct_and? H; tagged; fields. Qed.
Lemma decodes_mm_side s : decodes read_mm_side (append_mm_side s) s.
Proof. unfold read_mm_side, append_mm_side. destruct s; tagged; fields. Qed.
Lemma decodes_order_direction d : decodes read_order_direction [OrderDirection_to_byte d] d.
Proof. unfold read_order_direction. destruct d; cbn [OrderDirection_to_byte]; tagged; fields. Qed.
Lemma decodes_refund_reason r : refund_typed r → decodes read_refund_reason (append_refund_reason r) r.
Proof. unfold read_refund_reason. destruct r; cbn [refund_typed append_refund_reason]; intros H; tagged; fields. Qed.
#[export] Hint Resolve decodes_key_op_auth decodes_mm_side decodes_order_direction decodes_refund_reason : decodes.

Lemma decodes_orders field l : vec_of order_typed l → decodes (read_vec field read_order) (append_counted append_order l) (norm_order <$> l).
Proof. intros Hl. eapply decodes_typed; [done|]. apply decodes_order. Qed.
Lemma decodes_sides field l : u64 (Z.of_nat (length l)) → decodes (read_vec field read_mm_side) (append_counted append_mm_side l) l.
Proof. intros Hl. apply decodes_vec_id; [done|]. intros x _. apply decodes_mm_side. Qed.
#[export] Hint Resolve decodes_orders decodes_sides : decodes.
Lemma decodes_client_action a : action_typed a → decodes read_client_action (append_client_action a) (norm_action a).
Proof. unfold read_client_action. destruct a; cbn [action_typed append_client_action norm_action]; intros H; destruct_and? H; tagged; fields. Qed.
#[export] Hint Resolve decodes_client_action : decodes.

Lemma decodes_system_event e : event_typed e → decodes read_system_event (system_event_leaf_value e) (norm_event e).
Proof.
  intros H. unfold read_system_event, system_event_leaf_value. eapply decodes_bind; [apply decodes_domain|].
  destruct e; cbn [event_typed append_system_event norm_event] in *; destruct_and? H; tagged; fields.
Qed.

(** ** Orders, rejections, fills and deposits *)

Lemma decodes_rejection_reason r : reason_typed r → decodes read_rejection_reason (append_rejection_reason r) r.
Proof.
  unfold read_rejection_reason. destruct r; cbn [reason_typed append_rejection_reason]; intros H; destruct_and? H; tagged; fields.
  eapply decodes_last; [by apply decodes_u32_string|]. by apply decodes_ret.
Qed.
#[export] Hint Resolve decodes_rejection_reason : decodes.
Lemma decodes_is_mm field (b : bool) :
  decodes (read_tagged field (λ tag, if tag =? 0 then Some (mret false) else if tag =? 1 then Some (mret true) else None)) [if b then 1 else 0] b.
Proof. destruct b; tagged; fields. Qed.
#[export] Hint Resolve decodes_is_mm : decodes.
Lemma decodes_witness_order o : witness_order_typed o → decodes read_witness_order (order_accepted_leaf_value o) (norm_witness_order o).
Proof. intros [Ho Ha]. unfold read_witness_order, order_accepted_leaf_value. fields. Qed.
Lemma decodes_witness_rejection r : rejection_typed r → decodes read_witness_rejection (order_rejected_leaf_value r) (norm_rejection r).
Proof. intros (Ho & Ha & Hr). unfold read_witness_rejection, order_rejected_leaf_value. fields. Qed.
Lemma decodes_fill f : fill_typed f → decodes read_fill (fill_leaf_value f) f.
Proof. intros H. unfold fill_typed in H. destruct_and? H. unfold read_fill, fill_leaf_value. fields; apply decodes_ret; by destruct f. Qed.

Lemma decodes_header h : header_typed h → decodes read_header (append_header h) h.
Proof. intros H. unfold header_typed in H. destruct_and? H. unfold read_header, append_header. fields; apply decodes_ret; by destruct h. Qed.
#[export] Hint Resolve decodes_header : decodes.
Lemma decodes_previous_header h : of_option header_typed h → decodes read_previous_header (append_previous_header h) h.
Proof. unfold read_previous_header, append_previous_header. destruct h; cbn [of_option]; intros H; tagged; fields. Qed.

Lemma decodes_l1_deposit d : l1_deposit_typed d → decodes read_l1_deposit (append_l1_deposit d) d.
Proof. intros H. unfold l1_deposit_typed in H. destruct_and? H. unfold read_l1_deposit, append_l1_deposit. fields; apply decodes_ret; by destruct d. Qed.
Lemma decodes_l1_deposits field l : vec_of l1_deposit_typed l → decodes (read_vec field read_l1_deposit) (append_counted append_l1_deposit l) l.
Proof. intros Hl. eapply decodes_typed_id; [done|]. apply decodes_l1_deposit. Qed.
Lemma decodes_frontier l : array_of DEPOSIT_TREE_DEPTH (bytesn 32) l → decodes (read_items read_hash32 DEPOSIT_TREE_DEPTH) (concat l) l.
Proof.
  intros [Hn Hl]. rewrite <- Hn. assert (concat l = l ≫= id) as ->. { clear. induction l as [|x l IH]; [done|]. cbn. by rewrite IH. }
  apply decodes_items_id. intros x Hx. rewrite Forall_forall in Hl. by apply decodes_bytesn, Hl.
Qed.
#[export] Hint Resolve decodes_l1_deposits decodes_frontier : decodes.
Lemma decodes_deposit_accumulator d : accumulator_typed d → decodes read_deposit_accumulator (append_deposit_accumulator d) d.
Proof. intros H. unfold accumulator_typed in H. destruct_and? H. unfold read_deposit_accumulator, append_deposit_accumulator. fields; apply decodes_ret; by destruct d. Qed.

(** ** Maps *)

Lemma btree_iter_perm {A} (m : gmap Z A) : btree_iter m ≡ₚ map_to_list m.
Proof. apply sort_by_key_perm. Qed.
Lemma collect_map_btree_iter {A} (m : gmap Z A) : collect_map (btree_iter m) = m.
Proof.
  unfold collect_map. assert (reverse (btree_iter m) ≡ₚ map_to_list m) as Hp by (by rewrite reverse_Permutation, btree_iter_perm).
  rewrite (list_to_map_proper _ (map_to_list m)); [apply list_to_map_to_list| |done]. rewrite Hp. apply NoDup_fst_map_to_list.
Qed.
Lemma map_vec {A} (P : Z → Prop) (Q : A → Prop) (m : gmap Z A) : map_typed P Q m → vec_of (λ e, P e.1 ∧ Q e.2) (btree_iter m).
Proof.
  intros [HP Hn]. split; [|by rewrite btree_iter_perm, length_map_to_list]. rewrite btree_iter_perm. apply Forall_forall. intros [k x] Hx.
  rewrite elem_of_map_to_list in Hx. by apply (HP k).
Qed.
Lemma decodes_market_prices e : u32 e.1 ∧ outcomes_typed e.2 → decodes read_market_prices (append_market_prices e) e.
Proof.
  destruct e as [m l]. intros (Hm & Hl & Hn). cbn [fst snd] in *. unfold read_market_prices, append_market_prices. cbn [fst snd]. fields.
  eapply decodes_last; [|by apply decodes_ret]. rewrite Nat2Z.id. apply decodes_items_id. intros x Hx. rewrite Forall_forall in Hl. by apply decodes_u64, Hl.
Qed.
Lemma decodes_clearing_prices m : map_typed u32 outcomes_typed m → decodes read_clearing_prices (append_clearing_prices m) m.
Proof.
  intros Hm%map_vec. unfold read_clearing_prices, append_clearing_prices. eapply decodes_last; [eapply decodes_typed_id; [done|apply decodes_market_prices]|].
  apply decodes_ret, collect_map_btree_iter.
Qed.
Lemma decodes_side e : u64 e.1 ∧ True → decodes read_side (append_side e) e.
Proof. destruct e as [i s]. intros [Hi _]. cbn in Hi. unfold read_side, append_side. cbn [fst snd]. fields. Qed.
Lemma decodes_side_map field m : map_typed u64 (λ _, True) m → decodes (read_vec field read_side) (append_counted append_side (btree_iter m)) (btree_iter m).
Proof. intros Hm%map_vec. eapply decodes_typed_id; [done|apply decodes_side]. Qed.
#[export] Hint Resolve decodes_side_map : decodes.
Lemma decodes_mm_constraint c : constraint_typed c → decodes read_mm_constraint (append_mm_constraint c) (norm_constraint c).
Proof.
  intros H. unfold constraint_typed in H. destruct_and? H. unfold read_mm_constraint, append_mm_constraint. fields.
  apply decodes_ret. by rewrite collect_map_btree_iter.
Qed.
Lemma decodes_market_group g : group_typed g → decodes read_market_group (append_market_group g) (norm_group g).
Proof. intros H. unfold group_typed in H. destruct_and? H. unfold read_market_group, append_market_group. fields; apply decodes_ret; by destruct g. Qed.

(** ** Accounts and the sidecar *)

Lemma decodes_position p : position_typed p → decodes read_position (append_position p) p.
Proof. destruct p as [[m o] q]. intros (Hm & Ho & Hq). cbn [fst snd] in *. unfold read_position, append_position. cbn [fst snd]. fields. Qed.
Lemma decodes_positions field l : vec_of position_typed l → decodes (read_positions field) (append_positions WitnessPositions l) (norm_positions l).
Proof. intros Hl. eapply decodes_sorted_id; [done|apply decodes_position]. Qed.
#[export] Hint Resolve decodes_positions : decodes.
Lemma decodes_account a : account_typed a → decodes read_witness_account (append_witness_account a) (norm_account a).
Proof. intros H. unfold account_typed in H. destruct_and? H. unfold read_witness_account, append_witness_account, read_account_fields, append_account_fields. fields; apply decodes_ret; by destruct a. Qed.
Lemma decodes_key_set e : key_set_typed e → decodes read_account_key_set (append_account_key_set e) (norm_key_set e).
Proof. destruct e as [i l]. intros [Hi Hl]. cbn [fst snd] in *. unfold read_account_key_set, append_account_key_set. cbn [fst snd]. fields. Qed.
Lemma decodes_account_keys l : vec_of key_set_typed l → decodes read_account_keys (append_account_keys l) (norm_key_set <$> sort_on fst l).
Proof.
  intros Hl. unfold read_account_keys, append_account_keys. eapply decodes_bind; [apply decodes_domain|]. eapply decodes_sorted; [done|apply decodes_key_set].
Qed.

Lemma decodes_oracle_source s : source_typed s → decodes read_oracle_source (append_oracle_source s) s.
Proof. unfold read_oracle_source. destruct s; cbn [source_typed append_oracle_source]; intros H; tagged; fields. Qed.
#[export] Hint Resolve decodes_oracle_source : decodes.
Lemma decodes_resolution_record r : record_typed r → decodes read_resolution_record (append_resolution_record r) r.
Proof. intros H. unfold record_typed in H. destruct_and? H. unfold read_resolution_record, append_resolution_record. fields; apply decodes_ret; by destruct r. Qed.
#[export] Hint Resolve decodes_resolution_record : decodes.
Lemma decodes_market_status s : status_typed s → decodes read_market_status (append_market_status s) s.
Proof. unfold read_market_status. destruct s; cbn [status_typed append_market_status]; intros H; tagged; fields. Qed.
#[export] Hint Resolve decodes_market_status : decodes.
Lemma decodes_market_snapshot m : market_typed m → decodes read_market_snapshot (append_market_snapshot_fields m) m.
Proof. intros H. unfold market_typed in H. destruct_and? H. unfold read_market_snapshot, append_market_snapshot_fields. fields; apply decodes_ret; by destruct m. Qed.
Lemma decodes_group_snapshot g : group_snapshot_typed g → decodes read_market_group_snapshot (append_market_group_fields g) (norm_group_snapshot g).
Proof. intros H. unfold group_snapshot_typed in H. destruct_and? H. unfold read_market_group_snapshot, append_market_group_fields. fields; apply decodes_ret; by destruct g. Qed.
Lemma decodes_withdrawal w : withdrawal_typed w → decodes read_withdrawal (append_withdrawal_fields w) w.
Proof. intros H. unfold withdrawal_typed in H. destruct_and? H. unfold read_withdrawal, append_withdrawal_fields. fields; apply decodes_ret; by destruct w. Qed.
Lemma decodes_quarantine e : quarantine_typed e → decodes read_quarantine_entry (append_quarantine_entry e) e.
Proof. intros H. unfold quarantine_typed in H. destruct_and? H. unfold read_quarantine_entry, append_quarantine_entry. fields; apply decodes_ret; by destruct e. Qed.

Ltac sorted_section := first [
    eapply decodes_sorted_id; [eassumption|solve [eauto 2 with decodes]]
  | eapply decodes_sorted; [eassumption|solve [eauto 2 with decodes]]].
Ltac section_read := match goal with
  | |- decodes (read_vec _ _) (append_counted _ (sort_on _ _)) _ => sorted_section
  | |- decodes (read_vec _ _) (append_counted _ (stable_sort _ _)) _ => sorted_section
  | |- decodes (read_vec _ _) (append_counted _ _) _ => first [
      eapply decodes_typed_id; [eassumption|solve [eauto 2 with decodes]]
    | eapply decodes_typed; [eassumption|solve [eauto 2 with decodes]]]
  end.
#[export] Hint Resolve decodes_withdrawal decodes_quarantine decodes_market_snapshot decodes_group_snapshot decodes_previous_header decodes_witness_order
  decodes_witness_rejection decodes_system_event decodes_deposit_accumulator decodes_fill decodes_clearing_prices decodes_mm_constraint
  decodes_market_group decodes_account decodes_account_keys : decodes.
#[export] Hint Extern 2 (decodes (read_vec _ _) _ _) => section_read : decodes.

Lemma decodes_bridge b : bridge_typed b → decodes read_bridge (append_witness_bridge b) (norm_bridge b).
Proof. intros H. unfold bridge_typed in H. destruct_and? H. unfold read_bridge, append_witness_bridge. fields. Qed.
Lemma decodes_resting_order r : resting_typed r → decodes read_resting_order (append_witness_resting_order r) (norm_resting r).
Proof. intros H. unfold resting_typed in H. destruct_and? H. unfold read_resting_order, append_witness_resting_order. fields. Qed.
Lemma decodes_account_reservation r : reservation_typed r → decodes read_account_reservation (append_witness_account_reservation r) (norm_reservation r).
Proof. intros H. unfold reservation_typed in H. destruct_and? H. unfold read_account_reservation, append_witness_account_reservation. fields. Qed.
#[export] Hint Resolve decodes_bridge decodes_resting_order decodes_account_reservation : decodes.
Lemma decodes_sidecar domain field s : sidecar_typed s →
  decodes (read_state_sidecar domain field) (append_witness_state_sidecar_with_domain domain s) (norm_sidecar s).
Proof. intros H. unfold sidecar_typed in H. destruct_and? H. unfold read_state_sidecar, append_witness_state_sidecar_with_domain. fields. Qed.
#[export] Hint Resolve decodes_sidecar : decodes.
#[export] Hint Extern 1 (decodes _ (append_witness_state_sidecar _) _) => apply decodes_sidecar : decodes.
#[export] Hint Extern 1 (decodes _ (append_witness_pre_state_sidecar _) _) => apply decodes_sidecar : decodes.

Lemma decodes_witness w : witness_typed w → decodes read_witness (canonical_witness_bytes w) (norm_witness w).
Proof.
  intros []. unfold read_witness, canonical_witness_bytes, append_mm_constraints, append_market_groups, append_account_section. eapply decodes_bind; [apply decodes_u8, small_byte; unfold WITNESS_FORMAT_VERSION; lia|].
  apply decodes_guard_then; [done|]. fields.
Qed.

(** ** The encoding does not depend on what normalisation changes *)

Lemma append_counted_fmap {A} (enc : A → Bytes) (norm : A → A) l : (∀ x, x ∈ l → enc (norm x) = enc x) → append_counted enc (norm <$> l) = append_counted enc l.
Proof.
  intros H. unfold append_counted. rewrite length_fmap. f_equal. induction l as [|x l IH]; [done|]. rewrite fmap_cons, !bind_cons.
  rewrite H by left. f_equal. apply IH. intros y Hy. apply H. by right.
Qed.
Lemma Sorted_fmap_mono {A} (R : relation A) f l : (∀ x y, R x y → R (f x) (f y)) → Sorted R l → Sorted R (f <$> l).
Proof. intros Hf. induction 1 as [|x l Hl IH Hx]; cbn; constructor; [done|]. destruct Hx; cbn; constructor; auto. Qed.
Lemma append_sorted_norm {A} (enc : A → Bytes) (norm : A → A) (P : A → Prop) R `{!RelDecision R, !Total R} l : Forall P l →
  (∀ x y, R x y → R (norm x) (norm y)) → (∀ x, P x → enc (norm x) = enc x) →
  append_counted enc (stable_sort R (norm <$> stable_sort R l)) = append_counted enc (stable_sort R l).
Proof.
  intros HP Hm He. rewrite (stable_sort_sorted R (norm <$> _)) by (apply Sorted_fmap_mono, Sorted_stable_sort; auto).
  apply append_counted_fmap. intros x. rewrite stable_sort_Permutation. rewrite Forall_forall in HP. eauto.
Qed.

#[global] Instance key_before_total {A} (key : A → Z) : Total (key_before key).
Proof. intros x y. unfold key_before. lia. Qed.
#[global] Instance position_le_total : Total position_le.
Proof. intros x y. unfold position_le. lia. Qed.
#[global] Instance quarantine_le_total : Total quarantine_le.
Proof. intros x y. apply bytes_le_total. Qed.
#[global] Instance group_le_total : Total group_le.
Proof. intros x y. unfold group_le. destruct (bytes_le_total (string_bytes (mg_name x)) (string_bytes (mg_name y))); lia || (destruct (Z.lt_trichotomy (first_market x) (first_market y)) as [|[|]]; eauto). Qed.

Lemma append_sort_on_norm {A} key (enc : A → Bytes) (norm : A → A) (P : A → Prop) l : Forall P l → (∀ x, key (norm x) = key x) → (∀ x, P x → enc (norm x) = enc x) →
  append_counted enc (sort_on key (norm <$> sort_on key l)) = append_counted enc (sort_on key l).
Proof. intros HP Hk He. apply (append_sorted_norm _ _ P); [apply _|done| |done]. intros x y. unfold key_before. by rewrite !Hk. Qed.
Lemma sort_on_idemp {A} (key : A → Z) l : sort_on key (sort_on key l) = sort_on key l.
Proof. apply stable_sort_idemp; apply _. Qed.
#[export] Hint Rewrite @sort_on_idemp : sybil_rw.

Lemma take_pad cap blank n l : length l = cap → take (Z.to_nat n) (pad cap blank n l) = take (Z.to_nat n) l.
Proof.
  intros Hl. unfold pad. destruct (decide (Z.to_nat n ≤ cap)%nat).
  - by rewrite take_app_length' by (rewrite length_take; lia).
  - replace (cap - Z.to_nat n)%nat with 0%nat by lia. cbn. rewrite app_nil_r, take_take. f_equal. lia.
Qed.
Lemma append_order_norm o : order_typed o → append_order (norm_order o) = append_order o.
Proof. intros H. unfold append_order, norm_order, num_markets. cbn. rewrite !take_pad by (apply H). done. Qed.
Lemma append_orders_norm l : vec_of order_typed l → append_counted append_order (norm_order <$> l) = append_counted append_order l.
Proof. intros [Hl _]. apply append_counted_fmap. intros x Hx. rewrite Forall_forall in Hl. by apply append_order_norm, Hl. Qed.
Lemma append_key_records_norm l : append_key_records (norm_keys l) = append_key_records l.
Proof. unfold append_key_records, norm_keys. by rewrite stable_sort_idemp by apply _. Qed.
Lemma append_positions_norm l : append_positions WitnessPositions (norm_positions l) = append_positions WitnessPositions l.
Proof. unfold append_positions, encoded_positions, norm_positions. by rewrite stable_sort_idemp by apply _. Qed.
#[export] Hint Rewrite append_key_records_norm append_positions_norm : sybil_rw.

Lemma append_action_norm a : action_typed a → append_client_action (norm_action a) = append_client_action a.
Proof.
  destruct a; cbn [action_typed norm_action append_client_action]; intros H; destruct_and? H; rewrite ?append_order_norm, ?append_orders_norm by done; done.
Qed.
Lemma append_event_norm e : event_typed e → system_event_leaf_value (norm_event e) = system_event_leaf_value e.
Proof.
  intros H. unfold system_event_leaf_value. f_equal. destruct e; cbn [event_typed norm_event append_system_event] in *; autorewrite with sybil_rw; rewrite ?append_action_norm by done; done.
Qed.
Lemma append_witness_order_norm o : witness_order_typed o → order_accepted_leaf_value (norm_witness_order o) = order_accepted_leaf_value o.
Proof. intros [Ho _]. unfold order_accepted_leaf_value, norm_witness_order. cbn [wo_order wo_account_id wo_is_mm]. by rewrite append_order_norm. Qed.
Lemma append_rejection_norm r : rejection_typed r → order_rejected_leaf_value (norm_rejection r) = order_rejected_leaf_value r.
Proof. intros [Ho _]. unfold order_rejected_leaf_value, norm_rejection. cbn [wr_order wr_account_id wr_reason]. by rewrite append_order_norm. Qed.
Lemma append_constraint_norm c : append_mm_constraint (norm_constraint c) = append_mm_constraint c.
Proof. unfold append_mm_constraint, norm_constraint. cbn [mm_id mm_max_capital mm_order_ids mm_order_sides]. by autorewrite with sybil_rw. Qed.
Lemma append_group_norm g : append_market_group (norm_group g) = append_market_group g.
Proof. unfold append_market_group, norm_group. cbn [mg_name mg_creation_key mg_markets]. by autorewrite with sybil_rw. Qed.
Lemma append_account_norm a : append_witness_account (norm_account a) = append_witness_account a.
Proof. unfold append_witness_account, append_account_fields, norm_account. cbn [asn_id asn_balance asn_total_deposited asn_positions asn_events_digest asn_keys_digest asn_last_trading_nonce]. by autorewrite with sybil_rw. Qed.
Lemma append_key_set_norm e : append_account_key_set (norm_key_set e) = append_account_key_set e.
Proof. unfold append_account_key_set, norm_key_set. cbn [fst snd]. by autorewrite with sybil_rw. Qed.
Lemma append_group_snapshot_norm g : append_market_group_fields (norm_group_snapshot g) = append_market_group_fields g.
Proof. unfold append_market_group_fields, norm_group_snapshot. cbn [mgs_group_id mgs_name mgs_creation_key mgs_markets]. by autorewrite with sybil_rw. Qed.
Lemma append_resting_norm r : resting_typed r → append_witness_resting_order (norm_resting r) = append_witness_resting_order r.
Proof. intros [Ho _]. unfold append_witness_resting_order, norm_resting. cbn [ros_order ros_account_id ros_created_at ros_expires_at_block ros_reserved_balance ros_reserved_positions]. rewrite append_order_norm by done. by autorewrite with sybil_rw. Qed.
Lemma append_reservation_norm r : append_witness_account_reservation (norm_reservation r) = append_witness_account_reservation r.
Proof. unfold append_witness_account_reservation, norm_reservation. cbn [ars_account_id ars_reserved_balance ars_reserved_positions]. by autorewrite with sybil_rw. Qed.
Lemma append_bridge_norm b : append_witness_bridge (norm_bridge b) = append_witness_bridge b.
Proof. unfold append_witness_bridge, norm_bridge. cbn [br_deposit_cursor br_deposit_root br_observed_l1_height br_next_withdrawal_id br_withdrawals br_quarantine]. autorewrite with sybil_rw. by rewrite stable_sort_idemp by apply _. Qed.

Lemma append_sidecar_norm domain s : sidecar_typed s →
  append_witness_state_sidecar_with_domain domain (norm_sidecar s) = append_witness_state_sidecar_with_domain domain s.
Proof.
  intros (_ & _ & [Hg _] & [Hr _] & [Ha _]). unfold append_witness_state_sidecar_with_domain, norm_sidecar.
  cbn [ss_bridge ss_markets ss_market_groups ss_resting_orders ss_account_reservations]. rewrite append_bridge_norm. autorewrite with sybil_rw.
  rewrite (append_sort_on_norm _ _ _ _ _ Hg) by (done || intros; apply append_group_snapshot_norm).
  rewrite (append_sort_on_norm _ _ _ _ _ Hr) by (done || apply append_resting_norm).
  by rewrite (append_sort_on_norm _ _ _ _ _ Ha) by (done || intros; apply append_reservation_norm).
Qed.

Lemma foldr_min_spec m l : foldr Z.min m l ∈ m :: l ∧ ∀ x, x ∈ m :: l → foldr Z.min m l ≤ x.
Proof.
  induction l as [|y l [IH1 IH2]]; cbn.
  - split; [left|]. intros x [->|[]%not_elem_of_nil]%elem_of_cons. lia.
  - split; [destruct (Z.min_spec y (foldr Z.min m l)) as [[_ ->]|[_ ->]]; set_solver|]. intros x Hx.
    destruct (decide (x = y)) as [->|Hne]; [lia|]. assert (foldr Z.min m l ≤ x) by (apply IH2; set_solver). lia.
Qed.
Lemma first_market_norm g : first_market (norm_group g) = first_market g.
Proof.
  unfold first_market, norm_group. cbn [mg_markets]. assert (sort_on id (mg_markets g) ≡ₚ mg_markets g) as Hp by apply stable_sort_Permutation.
  destruct (mg_markets g) as [|m l]; [done|]. destruct (sort_on id (m :: l)) as [|m' l']; [by apply Permutation_nil_cons in Hp|].
  destruct (foldr_min_spec m l) as [H1 H2], (foldr_min_spec m' l') as [H1' H2']. setoid_rewrite Hp in H2'. rewrite Hp in H1'.
  apply Z.le_antisymm; auto.
Qed.
Lemma norm_group_mono x y : group_le x y → group_le (norm_group x) (norm_group y).
Proof. unfold group_le. by rewrite !first_market_norm. Qed.

Lemma canonical_witness_bytes_norm w : witness_typed w → canonical_witness_bytes (norm_witness w) = canonical_witness_bytes w.
Proof.
  intros Hw. unfold canonical_witness_bytes, norm_witness, append_mm_constraints, append_market_groups, append_account_section, append_account_keys.
  cbn [bw_header bw_previous_header bw_genesis_hash bw_orders bw_rejections bw_system_events bw_deposit_accumulator bw_fills bw_clearing_prices
    bw_total_welfare bw_minting_cost bw_mm_constraints bw_market_groups bw_pre_state bw_post_system_state bw_post_state bw_account_keys
    bw_state_sidecar bw_pre_state_sidecar bw_resolved_markets].
  rewrite (append_sort_on_norm _ _ _ _ _ (proj1 (wt_orders w Hw))) by (done || apply append_witness_order_norm).
  rewrite (append_sort_on_norm _ _ _ _ _ (proj1 (wt_rejections w Hw))) by (done || apply append_rejection_norm).
  rewrite (append_counted_fmap system_event_leaf_value) by (intros x Hx; apply append_event_norm; by eapply Forall_forall; [apply (wt_system_events w Hw)|]).
  rewrite (append_sort_on_norm _ _ _ _ _ (proj1 (wt_mm_constraints w Hw))) by (done || intros; apply append_constraint_norm).
  rewrite (append_sorted_norm _ norm_group _ group_le _ (proj1 (wt_market_groups w Hw))) by (apply norm_group_mono || (intros; apply append_group_norm)).
  rewrite (append_sort_on_norm _ _ _ _ _ (proj1 (wt_pre_state w Hw))) by (done || intros; apply append_account_norm).
  rewrite (append_sort_on_norm _ _ _ _ _ (proj1 (wt_post_system_state w Hw))) by (done || intros; apply append_account_norm).
  rewrite (append_sort_on_norm _ _ _ _ _ (proj1 (wt_post_state w Hw))) by (done || intros; apply append_account_norm).
  rewrite (append_sort_on_norm _ _ _ _ _ (proj1 (wt_account_keys w Hw))) by (done || intros; apply append_key_set_norm).
  unfold append_witness_state_sidecar, append_witness_pre_state_sidecar. rewrite !append_sidecar_norm by apply Hw. by autorewrite with sybil_rw.
Qed.

Lemma decode_encode w : witness_typed w → decode_canonical_witness_bytes (canonical_witness_bytes w) = Ok (norm_witness w).
Proof.
  intros Hw. unfold decode_canonical_witness_bytes. pose proof (decodes_witness w Hw 0 []) as H. rewrite app_nil_r in H. rewrite H. cbn [wr_rest wr_offset].
  rewrite bool_decide_true by (by apply canonical_witness_bytes_norm). by rewrite bool_decide_true.
Qed.
