(* ===== verification/WitnessExact.v ===== *)
(** * WitnessExact: the decoder accepts exactly the canonical encodings

    What the reader yields is well typed, and a decoded witness is in canonical
    form: with the round trip, decoding is a bijection between the accepted byte
    strings and the canonical witnesses. *)
From S2P Require Import Prelude Types Order MmConstraint Account Digest Snapshots Finalize Witness L1Protocol DepositFrontier AccountKeys WebAuthn Signing WitnessBytes WitnessDecode WitnessTyping WitnessRoundtrip.

(** ** Readers that yield well-typed values *)

Definition yields {A} (m : st WitnessReader WitnessDecodeError A) (P : A → Prop) : Prop :=
  ∀ r r' v, Forall byte (wr_rest r) → m r = SOk r' v → Forall byte (wr_rest r') ∧ P v.

Lemma yields_ret {A} (v : A) (P : A → Prop) : P v → yields (mret v) P.
Proof. intros Hv r r' v' Hr [= <- <-]. done. Qed.
Lemma yields_bind {A B} m (f : A → st WitnessReader WitnessDecodeError B) (P : A → Prop) Q : yields m P → (∀ a, P a → yields (f a) Q) → yields (m ≫= f) Q.
Proof.
  intros Hm Hf r r' v Hr H. unfold mbind, st_bind in H. destruct (m r) as [s a|s e|] eqn:E; [|done..]. destruct (Hm r s a Hr E) as [Hs Ha]. by eapply Hf.
Qed.
Lemma yields_mono {A} (m : st WitnessReader WitnessDecodeError A) (P Q : A → Prop) : yields m P → (∀ a, P a → Q a) → yields m Q.
Proof. intros Hm H r r' v Hr E. destruct (Hm r r' v Hr E). auto. Qed.
Lemma yields_fail {A} e (P : A → Prop) : yields (sfail e) P.
Proof. intros r r' v _ [=]. Qed.
Lemma yields_if {A} (c : bool) (m m' : st WitnessReader WitnessDecodeError A) P : (c = true → yields m P) → (c = false → yields m' P) → yields (if c then m else m') P.
Proof. destruct c; auto. Qed.
Lemma yields_offset : yields current_offset (λ _, True).
Proof. intros r r' v Hr [= <- <-]. done. Qed.
Lemma yields_slice n : 0 ≤ n → yields (read_slice n) (λ b, Forall byte b ∧ Z.of_nat (length b) = n).
Proof.
  intros Hn r r' v Hr. unfold read_slice. rewrite sget_bind. destruct (Z.ltb_spec (Z.of_nat (length (wr_rest r))) n); [done|]. rewrite smodify_bind. intros [= <- <-]. cbn.
  split; [by apply Forall_drop|]. split; [by apply Forall_take|]. rewrite length_take. lia.
Qed.
Lemma yields_exact n : yields (read_exact n) (bytesn n).
Proof. eapply yields_mono; [apply yields_slice; lia|]. intros b [Hb Hl]. split; [lia|done]. Qed.
Lemma yields_domain d field : yields (read_domain d field) (λ _, True).
Proof.
  intros r r' v Hr. unfold read_domain. rewrite sget_bind. destruct (_ <? _); [done|]. case_decide; [|done]. intros [= <- <-]. cbn. split; [by apply Forall_drop|done].
Qed.

Lemma from_le_bound b : Forall byte b → 0 ≤ from_le b < 256 ^ Z.of_nat (length b).
Proof.
  induction 1 as [|x b Hx _ IH]; [cbn; lia|]. cbn [from_le length]. rewrite Nat2Z.inj_succ, Z.pow_succ_r by lia. unfold byte in Hx. change (int_max U8) with 255 in Hx. nia.
Qed.
Lemma yields_u8 : yields read_u8 byte.
Proof.
  eapply yields_bind; [apply yields_exact|]. intros b [Hl Hb]. apply yields_ret. apply from_le_bound in Hb. rewrite Hl in Hb. unfold byte. change (int_max U8) with 255.
  change (256 ^ Z.of_nat 1) with 256 in Hb. lia.
Qed.
Lemma yields_u32 : yields read_u32 u32.
Proof.
  eapply yields_bind; [apply yields_exact|]. intros b [Hl Hb]. apply yields_ret. apply from_le_bound in Hb. rewrite Hl in Hb. unfold u32. change (int_max U32) with 4294967295.
  change (256 ^ Z.of_nat 4) with 4294967296 in Hb. lia.
Qed.
Lemma yields_u64 : yields read_u64 u64.
Proof.
  eapply yields_bind; [apply yields_exact|]. intros b [Hl Hb]. apply yields_ret. apply from_le_bound in Hb. rewrite Hl in Hb. unfold u64. change (int_max U64) with 18446744073709551615.
  change (256 ^ Z.of_nat 8) with 18446744073709551616 in Hb. lia.
Qed.
Lemma yields_i64 : yields read_i64 i64.
Proof.
  eapply yields_bind; [apply yields_exact|]. intros b _. apply yields_ret. unfold from_le_i64, wrap, i64. change (int_min I64) with (-9223372036854775808).
  change (int_max I64) with 9223372036854775807. Z.div_mod_to_equations. lia.
Qed.
Lemma yields_payoff : yields read_payoff i8.
Proof.
  eapply yields_bind; [apply yields_u8|]. intros b _. apply yields_ret. unfold wrap, i8. change (int_min I8) with (-128). change (int_max I8) with 127. Z.div_mod_to_equations. lia.
Qed.
Lemma yields_len field : yields (read_len field) u64.
Proof. eapply yields_bind; [apply yields_u64|]. intros n Hn. apply yields_if; intros _; [apply yields_fail|by apply yields_ret]. Qed.

Lemma yields_items {A} (item : st WitnessReader WitnessDecodeError A) P n : yields item P → yields (read_items item n) (array_of n P).
Proof.
  intros Hi. induction n as [|n IH]; cbn [read_items]; [by apply yields_ret|]. eapply yields_bind; [done|]. intros x Hx. eapply yields_bind; [done|].
  intros l [Hl HP]. apply yields_ret. split; [cbn; lia|by constructor].
Qed.
Lemma yields_vec {A} field (item : st WitnessReader WitnessDecodeError A) P : yields item P → yields (read_vec field item) (vec_of P).
Proof.
  intros Hi. eapply yields_bind; [apply yields_len|]. intros n Hn. eapply yields_mono; [by apply yields_items|]. intros l [Hl HP]. split; [done|].
  unfold u64 in *. lia.
Qed.
Lemma yields_tagged {A} field (cases : Z → option (st WitnessReader WitnessDecodeError A)) P : (∀ t m, cases t = Some m → yields m P) → yields (read_tagged field cases) P.
Proof.
  intros Hc. eapply yields_bind; [apply yields_offset|]. intros off _. eapply yields_bind; [apply yields_u8|]. intros t _.
  destruct (cases t) eqn:E; [by eapply Hc|apply yields_fail].
Qed.

Lemma string_bytes_inv b : Forall byte b → string_bytes (bytes_string b) = b.
Proof.
  intros Hb. unfold string_bytes, bytes_string. rewrite String.list_ascii_of_string_of_list_ascii, <- list_fmap_compose.
  induction Hb as [|x b Hx _ IH]; [done|]. cbn. rewrite IH. f_equal. unfold byte in Hx. change (int_max U8) with 255 in Hx.
  rewrite Ascii.N_ascii_embedding by lia. lia.
Qed.
Lemma yields_text field n : 0 ≤ n → yields (read_text field n) (λ s, from_utf8 (string_bytes s) = true ∧ Z.of_nat (length (string_bytes s)) = n).
Proof.
  intros Hn. eapply yields_bind; [apply yields_offset|]. intros off _. eapply yields_bind; [by apply yields_slice|]. intros b [Hb Hl].
  apply yields_if; intros E; [|apply yields_fail]. apply yields_ret. by rewrite string_bytes_inv.
Qed.
Lemma yields_string field : yields (read_string field) text_typed.
Proof.
  eapply yields_bind; [apply yields_len|]. intros n Hn. eapply yields_mono; [apply yields_text, Hn|]. intros s [Hs Hl]. split; [done|]. by rewrite Hl.
Qed.
Lemma yields_u32_string field : yields (read_u32_len_string field) (λ s, from_utf8 (string_bytes s) = true ∧ u32 (Z.of_nat (length (string_bytes s)))).
Proof.
  eapply yields_bind; [apply yields_u32|]. intros n Hn. eapply yields_mono; [apply yields_text, Hn|]. intros s [Hs Hl]. split; [done|]. by rewrite Hl.
Qed.
Lemma yields_bytes field cap : yields (read_bytes field cap) (blob_typed cap).
Proof.
  eapply yields_bind; [apply yields_offset|]. intros off _. eapply yields_bind; [apply yields_len|]. intros n Hn. apply yields_if; intros E; [apply yields_fail|].
  eapply yields_mono; [apply yields_slice, Hn|]. intros b [Hb Hl]. split; [done|]. rewrite Z.gtb_ltb in E. apply Z.ltb_ge in E. lia.
Qed.

Create HintDb yields.
#[export] Hint Constants Opaque : yields.
#[export] Hint Resolve yields_u8 yields_u32 yields_u64 yields_i64 yields_payoff yields_exact yields_domain yields_string yields_u32_string yields_bytes
  yields_offset yields_vec yields_items yields_fail : yields.
#[export] Hint Transparent read_hash32 read_address20 read_pubkey33 read_signature64 read_market_id read_positions : yields.

(** The fields of a record in turn, then the record itself. *)
Ltac parts := repeat match goal with
  | |- yields (_ ≫= _) _ => eapply yields_bind; [solve [eauto with yields]|intros ? ?]
  end; apply yields_ret.
Ltac cases := apply yields_tagged; intros ? ? ?; repeat case_match; simplify_eq; try done; parts.

(** ** Orders and events *)

Lemma yields_optional_string field : yields (read_optional_string field) (of_option text_typed).
Proof. unfold read_optional_string. cases; done. Qed.
Lemma yields_direction : yields read_direction (λ _, True).
Proof. unfold read_direction. cases; done. Qed.
#[export] Hint Resolve yields_optional_string yields_direction : yields.
Lemma yields_condition : yields read_condition (of_option condition_ok).
Proof. unfold read_condition. cases; done. Qed.
Lemma yields_expiry : yields read_expiry (of_option u64).
Proof. unfold read_expiry. cases; done. Qed.
#[export] Hint Resolve yields_condition yields_expiry : yields.
Lemma yields_guard (c : bool) e : yields (if c then sfail e else mret ()) (λ _, c = false).
Proof. apply yields_if; intros ->; [apply yields_fail|by apply yields_ret]. Qed.
#[export] Hint Resolve yields_guard : yields.
Lemma padded cap (P : Z → Prop) blank n l : array_of (Z.to_nat n) P l → 0 ≤ n ≤ Z.of_nat cap → P blank → array_of cap P (l ++ replicate (cap - length l) blank).
Proof. intros [Hl HP] Hn Hb. split; [rewrite length_app, length_replicate; lia|]. apply Forall_app. split; [done|]. by apply Forall_replicate. Qed.
Lemma yields_order : yields read_order order_typed.
Proof.
  unfold read_order. parts. rewrite Z.gtb_ltb, Z.ltb_ge in *. unfold byte in *.
  constructor; cbn [ord_id ord_markets ord_num_markets ord_payoffs ord_num_states ord_limit_price ord_max_fill ord_condition ord_expires_at_block]; try done; try lia.
  - eapply padded; [done|lia|]. unfold u32. by vm_compute.
  - eapply padded; [done|lia|]. unfold i8. lia.
Qed.
#[export] Hint Resolve yields_order : yields.

Lemma yields_is_mm field : yields (read_tagged field (λ tag, if tag =? 0 then Some (mret false) else if tag =? 1 then Some (mret true) else None)) (λ _, True).
Proof. cases; done. Qed.
#[export] Hint Resolve yields_is_mm : yields.
Lemma yields_witness_order : yields read_witness_order witness_order_typed.
Proof. unfold read_witness_order. parts. done. Qed.
Lemma yields_rejection_reason : yields read_rejection_reason reason_typed.
Proof. unfold read_rejection_reason. cases; done. Qed.
#[export] Hint Resolve yields_rejection_reason : yields.
Lemma yields_witness_rejection : yields read_witness_rejection rejection_typed.
Proof. unfold read_witness_rejection. parts. done. Qed.

Lemma yields_key_record : yields read_key_record key_record_typed.
Proof. unfold read_key_record. parts. done. Qed.
#[export] Hint Resolve yields_key_record : yields.
Lemma yields_key_records field : yields (read_key_records field) keys_typed.
Proof.
  unfold read_key_records. eapply yields_bind; [eauto with yields|]. intros l [Hl _]. eapply yields_bind; [apply yields_offset|]. intros off _.
  apply yields_if; intros E; [apply yields_fail|]. apply yields_ret. split; [done|]. rewrite Z.gtb_ltb in E. by apply Z.ltb_ge in E.
Qed.
Lemma yields_key_op_auth : yields read_key_op_auth auth_typed.
Proof. unfold read_key_op_auth. cases; done. Qed.
Lemma yields_mm_side : yields read_mm_side (λ _, True).
Proof. unfold read_mm_side. cases; done. Qed.
Lemma yields_order_direction : yields read_order_direction (λ _, True).
Proof. unfold read_order_direction. cases; done. Qed.
Lemma yields_refund_reason : yields read_refund_reason refund_typed.
Proof. unfold read_refund_reason. cases; done. Qed.
#[export] Hint Resolve yields_key_records yields_key_op_auth yields_mm_side yields_order_direction yields_refund_reason : yields.
Lemma yields_client_action : yields read_client_action action_typed.
Proof. unfold read_client_action. cases; cbn [action_typed]; unfold vec_of in *; naive_solver. Qed.
#[export] Hint Resolve yields_client_action : yields.
Lemma yields_system_event : yields read_system_event event_typed.
Proof. unfold read_system_event. eapply yields_bind; [apply yields_domain|]. intros _ _. cases; done. Qed.

(** ** The other sections *)

Lemma yields_header : yields read_header header_typed.
Proof. unfold read_header. parts. done. Qed.
#[export] Hint Resolve yields_header : yields.
Lemma yields_previous_header : yields read_previous_header (of_option header_typed).
Proof. unfold read_previous_header. cases; done. Qed.
Lemma yields_l1_deposit : yields read_l1_deposit l1_deposit_typed.
Proof. unfold read_l1_deposit. parts. done. Qed.
#[export] Hint Resolve yields_l1_deposit : yields.
Lemma yields_deposit_accumulator : yields read_deposit_accumulator accumulator_typed.
Proof. unfold read_deposit_accumulator. parts. done. Qed.
Lemma yields_fill : yields read_fill fill_typed.
Proof. unfold read_fill. parts. done. Qed.

Lemma collect_map_lookup {A} (l : list (Z * A)) k x : collect_map l !! k = Some x → (k, x) ∈ l.
Proof. unfold collect_map. intros H%elem_of_list_to_map_2. by rewrite elem_of_reverse in H. Qed.
Lemma collect_map_size {A} (l : list (Z * A)) : (size (collect_map l) ≤ length l)%nat.
Proof.
  unfold collect_map. rewrite <- (length_reverse l). generalize (reverse l). clear l. intros l. induction l as [|[k x] l IH]; cbn; [by rewrite map_size_empty|].
  rewrite map_size_insert. case_match; unfold id; cbn in *; lia.
Qed.
Lemma collect_map_typed {A} (P : Z → Prop) (Q : A → Prop) l : vec_of (λ e, P e.1 ∧ Q e.2) l → map_typed P Q (collect_map l).
Proof.
  intros [Hl Hn]. split.
  - intros k x Hx%collect_map_lookup. rewrite Forall_forall in Hl. apply (Hl _ Hx).
  - unfold u64 in *. pose proof (collect_map_size l). lia.
Qed.
Lemma yields_market_prices : yields read_market_prices (λ e, u32 e.1 ∧ outcomes_typed e.2).
Proof.
  unfold read_market_prices. parts. split; [done|]. destruct H1 as [Hl HP]. split; [done|]. cbn [snd]. rewrite Hl. unfold u32 in *. lia.
Qed.
#[export] Hint Resolve yields_market_prices : yields.
Lemma yields_clearing_prices : yields read_clearing_prices (map_typed u32 outcomes_typed).
Proof. unfold read_clearing_prices. parts. by apply collect_map_typed. Qed.
Lemma yields_side : yields read_side (λ e, u64 e.1 ∧ True).
Proof. unfold read_side. parts. done. Qed.
#[export] Hint Resolve yields_side : yields.
Lemma yields_mm_constraint : yields read_mm_constraint constraint_typed.
Proof. unfold read_mm_constraint. parts. split_and!; [done..|]. by apply (collect_map_typed u64 (λ _, True)). Qed.
Lemma yields_market_group : yields read_market_group group_typed.
Proof. unfold read_market_group. parts. done. Qed.
Lemma yields_position : yields read_position position_typed.
Proof. unfold read_position. parts. done. Qed.
#[export] Hint Resolve yields_position : yields.
Lemma yields_account : yields read_witness_account account_typed.
Proof. unfold read_witness_account, read_account_fields. parts. done. Qed.
Lemma yields_key_set : yields read_account_key_set key_set_typed.
Proof. unfold read_account_key_set. parts. done. Qed.
#[export] Hint Resolve yields_key_set : yields.
Lemma yields_account_keys : yields read_account_keys (vec_of key_set_typed).
Proof. unfold read_account_keys. eapply yields_bind; [apply yields_domain|]. intros _ _. eauto with yields. Qed.
Lemma yields_oracle_source : yields read_oracle_source source_typed.
Proof. unfold read_oracle_source. cases; done. Qed.
#[export] Hint Resolve yields_oracle_source : yields.
Lemma yields_resolution_record : yields read_resolution_record record_typed.
Proof. unfold read_resolution_record. parts. done. Qed.
#[export] Hint Resolve yields_resolution_record : yields.
Lemma yields_market_status : yields read_market_status status_typed.
Proof. unfold read_market_status. cases; done. Qed.
#[export] Hint Resolve yields_market_status : yields.
Lemma yields_market_snapshot : yields read_market_snapshot market_typed.
Proof. unfold read_market_snapshot. parts. done. Qed.
Lemma yields_group_snapshot : yields read_market_group_snapshot group_snapshot_typed.
Proof. unfold read_market_group_snapshot. parts. done. Qed.
Lemma yields_withdrawal : yields read_withdrawal withdrawal_typed.
Proof. unfold read_withdrawal. parts. done. Qed.
Lemma yields_quarantine : yields read_quarantine_entry quarantine_typed.
Proof. unfold read_quarantine_entry. parts. done. Qed.
#[export] Hint Resolve yields_market_snapshot yields_group_snapshot yields_withdrawal yields_quarantine : yields.
Lemma yields_bridge : yields read_bridge bridge_typed.
Proof. unfold read_bridge. parts. done. Qed.
Lemma yields_resting_order : yields read_resting_order resting_typed.
Proof. unfold read_resting_order. parts. done. Qed.
Lemma yields_account_reservation : yields read_account_reservation reservation_typed.
Proof. unfold read_account_reservation. parts. done. Qed.
#[export] Hint Resolve yields_bridge yields_resting_order yields_account_reservation : yields.
Lemma yields_sidecar domain field : yields (read_state_sidecar domain field) sidecar_typed.
Proof. unfold read_state_sidecar. parts. done. Qed.
#[export] Hint Resolve yields_previous_header yields_witness_order yields_witness_rejection yields_system_event yields_deposit_accumulator yields_fill
  yields_clearing_prices yields_mm_constraint yields_market_group yields_account yields_account_keys yields_sidecar : yields.

Lemma yields_witness : yields read_witness witness_typed.
Proof. unfold read_witness. parts. constructor; assumption. Qed.

Lemma decode_Ok bs w : decode_canonical_witness_bytes bs = Ok w →
  ∃ r, read_witness (mkWitnessReader 0 bs) = SOk r w ∧ wr_rest r = [] ∧ canonical_witness_bytes w = bs.
Proof.
  unfold decode_canonical_witness_bytes. destruct (read_witness _) as [r v|r e|] eqn:E; [|done..]. intros ([] & ?%reject_if_Ok & H)%obind_Ok.
  apply obind_Ok in H as ([] & ?%reject_if_Ok & [= <-]). exists r. rewrite negb_false_iff, bool_decide_eq_true in *. done.
Qed.

(** ** The codec of the witness *)

(** C9: encoding a witness of its Rust types, within the caps of the schema, and decoding the bytes gives the
    witness in canonical form, and witnesses with equal bytes have equal
    canonical forms. *)
Theorem witness_roundtrip w : witness_typed w →
  decode_canonical_witness_bytes (canonical_witness_bytes w) = Ok (norm_witness w) ∧
  (∀ w', witness_typed w' → canonical_witness_bytes w' = canonical_witness_bytes w → norm_witness w' = norm_witness w).
Proof.
  intros Hw. split; [by apply decode_encode|]. intros w' Hw' Heq. pose proof (decode_encode w' Hw') as H'. rewrite Heq, decode_encode in H' by done. congruence.
Qed.

(** C30: what the decoder accepts is a witness of its Rust types in canonical form
    (sections in order, unused array slots blank) whose encoding is the input. *)
Theorem decoded_witness_typed bs w : Forall byte bs → decode_canonical_witness_bytes bs = Ok w →
  witness_typed w ∧ canonical_witness_bytes w = bs ∧ norm_witness w = w.
Proof.
  intros Hb H. pose proof (decode_Ok bs w H) as (r & Hr & _ & Hc). destruct (yields_witness (mkWitnessReader 0 bs) r w Hb Hr) as [_ Hw]. split; [done|]. split; [done|].
  pose proof (decode_encode w Hw) as He. rewrite Hc, H in He. congruence.
Qed.

(** A witness with its sections out of order. *)
Definition ex_hash (b : Z) : Bytes := replicate 32 b.
Definition ex_wire_order (oid : Z) : Order :=
  mkOrder oid [7; 3; 3; 3; 3] 1 ([-1; 1] ++ replicate 30 5) 2 600 40 (Some (mkPriceCondition 2 500 Below)) (Some 9).
Definition ex_wire_header (h : Z) : WitnessBlockHeader := mkWitnessBlockHeader h (ex_hash 1) (ex_hash 2) (ex_hash 3) 2 1 1000.
Definition ex_wire_sidecar : StateSidecarSnapshot :=
  mkStateSidecarSnapshot (mkBridgeStateSnapshot 1 (ex_hash 4) 5 6 [] [mkQuarantineEntrySnapshot (ex_hash 9) 3; mkQuarantineEntrySnapshot (ex_hash 8) (-3)])
    [mkMarketSnapshot 7 "m" 2 (StatusResolved (mkResolutionRecordSnapshot 1000 (SourceDataFeed 3) 77)) (ex_hash 1) "t" [400; 600]]
    [mkMarketGroupSnapshot 0 "g" (Some "k"%string) [9; 7]] [mkRestingOrderSnapshot (ex_wire_order 5) 1 2 3 (-4) [(7, 1, 5); (7, 0, 6)]] [].
Definition ex_wire : BlockWitness :=
  mkBlockWitness (ex_wire_header 2) (Some (ex_wire_header 1)) (ex_hash 0)
    [mkWitnessOrder (ex_wire_order 2) 1 true; mkWitnessOrder (ex_wire_order 1) 1 false]
    [mkWitnessRejection (ex_wire_order 4) 1 (Reason.InvalidOrder "bad")]
    [Event.MarketResolved 7 1000 [3; 1]; Event.CreateAccount 8 (-5) [mkKeyRecord 1 (replicate 33 4) 3; mkKeyRecord 0 (replicate 33 2) 1];
     Event.ClientActionAuthorized (Action.Order 1 (ex_wire_order 1) 2 (RawP256 (replicate 33 2) (replicate 64 3)))]
    (mkDepositAccumulatorWitness (replicate 32 (ex_hash 0)) 0 []) [mkFill 1 5 400 1] {[7 := [400; 600]]} (-12) 0
    [mkMmConstraint 1 100 [2; 1] {[1 := BuyYes]}] [mkMarketGroup "g" None [9; 7]]
    [mkAccountSnapshot 2 1 1 [] (ex_hash 1) (ex_hash 2) 0; mkAccountSnapshot 1 (-7) 1 [(7, 1, 5); (7, 0, -6)] (ex_hash 1) (ex_hash 2) 3] [] []
    [(1, [])] ex_wire_sidecar ex_wire_sidecar [7; 3].

(** Evaluates a typing statement about closed values. *)
Ltac ground_list l := let l' := eval hnf in l in change l with l'.
Ltac ground := repeat lazymatch goal with
  | |- u64 _ => by vm_compute
  | |- u32 _ => by vm_compute
  | |- i64 _ => by vm_compute
  | |- i8 _ => by vm_compute
  | |- byte _ => by vm_compute
  | |- text_typed _ => by vm_compute
  | |- bytesn _ _ => apply (bool_decide_unpack _); vm_compute; exact I
  | |- _ = _ => by vm_compute
  | |- _ ≤ _ => by vm_compute
  | |- True => exact I
  | |- _ ∧ _ => split
  | |- order_typed _ => constructor
  | |- map_Forall _ _ => apply map_Forall_singleton
  | |- Forall _ (replicate _ _) => apply Forall_replicate
  | |- Forall _ [] => apply Forall_nil_2
  | |- Forall _ (_ :: _) => apply Forall_cons_2
  | |- Forall ?P ?l => ground_list l
  | |- _ => progress hnf
  end.
Lemma ex_wire_typed : witness_typed ex_wire.
Proof. constructor. all: ground. Qed.

Lemma witness_roundtrip_witness : decode_canonical_witness_bytes (canonical_witness_bytes ex_wire) = Ok (norm_witness ex_wire) ∧ norm_witness ex_wire ≠ ex_wire.
Proof.
  split; [apply (witness_roundtrip ex_wire ex_wire_typed)|]. intros H%(f_equal (λ w, ord_id ∘ wo_order <$> bw_orders w)). vm_compute in H. done.
Defined.

Lemma ex_wire_bytes : Forall byte (canonical_witness_bytes ex_wire).
Proof. apply (bool_decide_unpack (Forall (λ b, 0 ≤ b ∧ b ≤ 255) _)). vm_compute. reflexivity. Qed.
(** Computed by the decoder, not through the round trip. *)
Lemma ex_wire_decodes : decode_canonical_witness_bytes (canonical_witness_bytes ex_wire) = Ok (norm_witness ex_wire).
Proof. vm_compute. reflexivity. Qed.
Lemma decoded_witness_typed_witness : norm_witness (norm_witness ex_wire) = norm_witness ex_wire.
Proof. exact (proj2 (proj2 (decoded_witness_typed _ _ ex_wire_bytes ex_wire_decodes))). Defined.
