(* ===== verification/SystemVerifier.v ===== *)
(** * SystemVerifier: replay of the system events of a block

    Models [crates/sybil-verifier/src/system.rs]: from the authenticated
    snapshots before the block, the verifier applies the value effects of every
    system event and compares the result with the claimed snapshots after
    system events.  The byte encodings are those of [Digest]; an event that
    fails is recorded as a violation and keeps what it changed before failing. *)
From S2P Require Import Prelude Types Order EngineSettlement Account Digest BatchSettlement Snapshots Finalize Witness Sidecar AccountKeys.

Definition set_asn_balance (z : Z) (s : AccountSnapshot) : AccountSnapshot :=
  mkAccountSnapshot (asn_id s) z (asn_total_deposited s) (asn_positions s) (asn_events_digest s) (asn_keys_digest s)
    (asn_last_trading_nonce s).
Definition set_asn_total_deposited (z : Z) (s : AccountSnapshot) : AccountSnapshot :=
  mkAccountSnapshot (asn_id s) (asn_balance s) z (asn_positions s) (asn_events_digest s) (asn_keys_digest s)
    (asn_last_trading_nonce s).
Definition set_asn_positions (l : list (MarketId * Z * Z)) (s : AccountSnapshot) : AccountSnapshot :=
  mkAccountSnapshot (asn_id s) (asn_balance s) (asn_total_deposited s) l (asn_events_digest s) (asn_keys_digest s)
    (asn_last_trading_nonce s).
Definition set_asn_events_digest (d : Bytes) (s : AccountSnapshot) : AccountSnapshot :=
  mkAccountSnapshot (asn_id s) (asn_balance s) (asn_total_deposited s) (asn_positions s) d (asn_keys_digest s)
    (asn_last_trading_nonce s).
Definition set_asn_last_trading_nonce (z : Z) (s : AccountSnapshot) : AccountSnapshot :=
  mkAccountSnapshot (asn_id s) (asn_balance s) (asn_total_deposited s) (asn_positions s) (asn_events_digest s)
    (asn_keys_digest s) z.

(** The account and nonce of a client action. *)
Definition action_account_nonce (a : Action.ClientActionWitness) : Z * Z :=
  match a with
  | Action.Order account_id _ nonce _ => (account_id, nonce)
  | Action.Cancel account_id _ nonce _ => (account_id, nonce)
  | Action.MmBundle account_id _ _ _ _ _ nonce _ => (account_id, nonce)
  | Action.MmBundleReplace account_id _ _ _ _ _ _ nonce _ => (account_id, nonce)
  | Action.MmBundleCancel account_id _ _ nonce _ => (account_id, nonce)
  end.

(** [retain] with a captured [quantity]: the last removed quantity, or zero. *)
Definition remove_position (s : AccountSnapshot) (market : MarketId) (out : Z) : AccountSnapshot * Z :=
  let hit := λ p : MarketId * Z * Z, bool_decide (p.1.1 = market ∧ p.1.2 = out) in
  (set_asn_positions (filter (λ p, hit p = false) (asn_positions s)) s,
   from_option snd 0 (last (filter (λ p, hit p = true) (asn_positions s)))).

Definition signed_notional (price : Nanos) (quantity : Z) : option Z :=
  signed ← chk I64 (notional_nanos price (Z.abs quantity));
  chk I64 (signed * Z.sgn quantity).

Definition normalized_positions (s : AccountSnapshot) : gmap (Z * Z) Z :=
  foldl (λ m p, <[p.1 := p.2]> m) ∅ (filter (λ p, p.2 ≠ 0) (asn_positions s)).

(** ** Replay

    The state is the map of accounts; an error is a [String] whose text is not
    modelled. *)
Abbreviation replay := (st (gmap Z AccountSnapshot) unit) (only parsing).

Definition account_mut (id : Z) : replay AccountSnapshot :=
  accounts ← sget; slift (ok_or (accounts !! id) ()).
Definition put_account (id : Z) (s : AccountSnapshot) : replay unit := smodify (λ accounts, <[id := s]> accounts).

(** [checked_add(value, delta, account_id)?] and [checked_sub]. *)
Definition checked_i64 (z : Z) : replay Z := slift (ok_or (chk I64 z) ()).

Section replay.
Context (blake3 sha256 : Bytes → Bytes).

(** [account.events_digest = update_digest(&account.events_digest, &encoded)] *)
Definition fold_event (encoded : Bytes) (s : AccountSnapshot) : AccountSnapshot :=
  set_asn_events_digest (update_digest blake3 (asn_events_digest s) encoded) s.

(** The credit shared by the deposit-like events: balance, then total
    deposited, then the digest. *)
Definition credit_deposit (account_id amount : Z) (encoded : Bytes) : replay unit :=
  a ← account_mut account_id;
  b ← checked_i64 (asn_balance a + amount);
  put_account account_id (set_asn_balance b a);;
  t ← checked_i64 (asn_total_deposited a + amount);
  put_account account_id (fold_event encoded (set_asn_total_deposited t (set_asn_balance b a))).

(** A change of the balance alone. *)
Definition credit_balance (account_id amount : Z) (encoded : Bytes) : replay unit :=
  a ← account_mut account_id;
  b ← checked_i64 (asn_balance a + amount);
  put_account account_id (fold_event encoded (set_asn_balance b a)).

Definition fold_only (account_id : Z) (encoded : Bytes) : replay unit :=
  a ← account_mut account_id;
  put_account account_id (fold_event encoded a).

(** The loop body of [MarketResolved]. *)
Definition replay_resolution (market_id : MarketId) (payout_nanos : Nanos) (block_height : Z) (account_id : Z) : replay unit :=
  let no_payout := sat U64 (NANOS_PER_DOLLAR - payout_nanos) in
  a ← account_mut account_id;
  let '(a, yes) := remove_position a market_id 0 in
  let '(a, no) := remove_position a market_id 1 in
  put_account account_id a;;
  yes_value ← slift (ok_or (signed_notional payout_nanos yes) ());
  no_value ← slift (ok_or (signed_notional no_payout no) ());
  b1 ← checked_i64 (asn_balance a + yes_value);
  put_account account_id (set_asn_balance b1 a);;
  b2 ← checked_i64 (b1 + no_value);
  put_account account_id
    (fold_event (encode_resolution_event market_id payout_nanos block_height) (set_asn_balance b2 a)).

Definition apply_event (event : Event.SystemEventWitness) (block_height : Z) : replay unit :=
  match event with
  | Event.CreateAccount account_id initial_balance initial_keys =>
      accounts ← sget;
      match accounts !! account_id with
      | Some _ => sfail ()
      | None =>
          put_account account_id
            (mkAccountSnapshot account_id initial_balance initial_balance []
               (update_digest blake3 (replicate 32 0) (encode_create_account_event initial_balance block_height))
               (account_keys_digest sha256 account_id initial_keys) 0)
      end
  | Event.Deposit account_id amount => credit_deposit account_id amount (encode_deposit_event amount block_height)
  | Event.L1Deposit account_id amount deposit_id deposit_root _ =>
      credit_deposit account_id amount (encode_l1_deposit_event deposit_id amount deposit_root block_height)
  | Event.WithdrawalCreated account_id amount withdrawal_id _ _ _ _ nullifier =>
      a ← account_mut account_id;
      b ← checked_i64 (asn_balance a - amount);
      put_account account_id
        (fold_event (encode_withdrawal_created_event withdrawal_id amount nullifier block_height) (set_asn_balance b a))
  | Event.WithdrawalRefunded account_id withdrawal_id amount reason =>
      credit_balance account_id amount (encode_withdrawal_refunded_event withdrawal_id amount reason block_height)
  | Event.MarketResolved market_id payout_nanos affected_accounts =>
      sforeach (replay_resolution market_id payout_nanos block_height) affected_accounts
  | Event.OrderCancelled account_id order_id market_ids side remaining_quantity =>
      fold_only account_id (encode_order_cancelled_event order_id market_ids side remaining_quantity block_height)
  | Event.KeyRegistered account_id key _ => fold_only account_id (encode_key_event 10 key block_height)
  | Event.KeyRevoked account_id key _ => fold_only account_id (encode_key_event 11 key block_height)
  | Event.QuarantineClaimed account_id amount _ =>
      credit_deposit account_id amount (encode_quarantine_claimed_event amount block_height)
  | Event.ClientActionAuthorized action =>
      let '(account_id, nonce) := action_account_nonce action in
      a ← account_mut account_id;
      if nonce <=? asn_last_trading_nonce a then sfail ()
      else put_account account_id (set_asn_last_trading_nonce nonce a)
  | Event.DepositQuarantined _ _ _ _ | Event.WithdrawalFinalized _ _ _
  | Event.L1BlockObserved _ | Event.MarketGroupExtended _ _ => mret ()
  end.

(** The loop over the events: an error becomes a violation and the replay goes on. *)
Definition replay_step (block_height : Z) (acc : gmap Z AccountSnapshot * list Violation) (event : Event.SystemEventWitness)
    : outcome Empty_set (gmap Z AccountSnapshot * list Violation) :=
  let '(accounts, vs) := acc in
  match apply_event event block_height accounts with
  | SOk accounts' _ => Ok (accounts', vs)
  | SErr accounts' _ => Ok (accounts', vs ++ [VK.SystemStateMismatch])
  | SPanic => Panic
  end.

(** The comparison of one account id. *)
Definition compare_system (expected actual : option AccountSnapshot) : outcome Empty_set (list Violation) :=
  match expected, actual with
  | Some e, Some a =>
      Ok (if bool_decide (asn_balance e ≠ asn_balance a) || bool_decide (asn_total_deposited e ≠ asn_total_deposited a) ||
             bool_decide (normalized_positions e ≠ normalized_positions a) ||
             bool_decide (asn_events_digest e ≠ asn_events_digest a) ||
             bool_decide (asn_last_trading_nonce e ≠ asn_last_trading_nonce a)
          then [VK.SystemStateMismatch] else [])
  | Some _, None | None, Some _ => Ok [VK.SystemStateMismatch]
  | None, None => Panic
  end.

(** The ids of both maps, in ascending order ([BTreeSet]). *)
Definition all_ids (m m' : gmap Z AccountSnapshot) : list Z := stable_sort Z.le (elements (dom m ∪ dom m')).

Definition verify_system_transition (w : BlockWitness) : outcome Empty_set VerificationResult :=
  '(accounts, vs) ← ofold (replay_step (hd_height (bw_header w))) (keyed asn_id (bw_pre_state w), []) (bw_system_events w);
  let claimed := keyed asn_id (bw_post_system_state w) in
  more ← ofold (λ acc id, r ← compare_system (accounts !! id) (claimed !! id); Ok (acc ++ r)) [] (all_ids accounts claimed);
  Ok (from_violations (vs ++ more)).
End replay.
