(* ===== verification/Oracle.v ===== *)
(** * Oracle: feeds, templates and resolution policies

    Models [crates/sybil-oracle/src]: the registry of data feeds, the resolution
    templates and the immediate policies that turn a signed attestation, or an
    administrator's decision, into a resolution record.  Signatures are verified
    by the caller, outside this crate. *)
From S2P Require Import Prelude Types Account Digest.

Abbreviation FeedPubkey := Bytes (only parsing).
Abbreviation FeedId := Z (only parsing).

Record DataFeed := mkDataFeed {
  df_id : FeedId;
  df_pubkey : FeedPubkey;
  df_name : string;
  df_created_at_ms : Z;
}.

Inductive OracleSource := SourceIsAdmin | SourceIsDataFeed (id : FeedId).

Record ResolutionRecord := mkResolutionRecord {
  rec_payout_nanos : Nanos;
  rec_resolved_by : OracleSource;
  rec_resolved_at_ms : Z;
}.

Inductive MarketStatus := Active | Resolved (record : ResolutionRecord).

#[global] Instance OracleSource_eq_dec : EqDecision OracleSource.
Proof. solve_decision. Defined.
#[global] Instance ResolutionRecord_eq_dec : EqDecision ResolutionRecord.
Proof. solve_decision. Defined.
#[global] Instance MarketStatus_eq_dec : EqDecision MarketStatus.
Proof. solve_decision. Defined.

Definition is_tradeable (s : MarketStatus) : bool := match s with Active => true | Resolved _ => false end.

Definition MarketStatus_as_str (s : MarketStatus) : string :=
  match s with Active => "active" | Resolved _ => "resolved" end.

Definition status_payout_nanos (s : MarketStatus) : option Nanos :=
  match s with Resolved record => Some (rec_payout_nanos record) | Active => None end.

Record ResolutionAttestation := mkResolutionAttestation {
  att_market_id : MarketId;
  att_payout_nanos : Nanos;
  att_nonce : Z;
}.

Record SignedAttestation := mkSignedAttestation {
  sa_attestation : ResolutionAttestation;
  sa_signer : FeedPubkey;
  sa_signature_der : Bytes;
}.

(** The messages carried by [InvalidAttestation] name the two ids compared. *)
Module Oracle.
Inductive OracleError :=
  | AlreadyResolved
  | InvalidPayout (payout : Z)
  | UnknownFeed
  | UnknownTemplate (name : string)
  | InvalidAttestation (actual expected : Z).
End Oracle.
Abbreviation OracleError := Oracle.OracleError (only parsing).

(** ** Policies *)

Inductive ResolutionPolicy := Immediate (feed_id : FeedId).

Definition evaluate_immediate (policy_feed_id : FeedId) (feed : DataFeed) (market_id : MarketId)
    (signed : SignedAttestation) (current_status : MarketStatus) (timestamp_ms : Z)
    : outcome OracleError ResolutionRecord :=
  if decide (df_id feed ≠ policy_feed_id) then Err (Oracle.InvalidAttestation (df_id feed) policy_feed_id) else
  let att := sa_attestation signed in
  if decide (att_market_id att ≠ market_id) then Err (Oracle.InvalidAttestation (att_market_id att) market_id) else
  if att_payout_nanos att >? NANOS_PER_DOLLAR then Err (Oracle.InvalidPayout (att_payout_nanos att)) else
  match current_status with
  | Resolved _ => Err Oracle.AlreadyResolved
  | Active => Ok (mkResolutionRecord (att_payout_nanos att) (SourceIsDataFeed (df_id feed)) timestamp_ms)
  end.

Definition evaluate_admin_immediate (payout_nanos : Nanos) (current_status : MarketStatus) (timestamp_ms : Z)
    : outcome OracleError ResolutionRecord :=
  if payout_nanos >? NANOS_PER_DOLLAR then Err (Oracle.InvalidPayout payout_nanos) else
  match current_status with
  | Resolved _ => Err Oracle.AlreadyResolved
  | Active => Ok (mkResolutionRecord payout_nanos SourceIsAdmin timestamp_ms)
  end.

(** ** Templates *)

Record ResolutionTemplate := mkResolutionTemplate { rt_id : string; rt_policy : ResolutionPolicy }.

Abbreviation TemplateRegistry := (gmap string ResolutionTemplate) (only parsing).

Definition install (t : ResolutionTemplate) (m : TemplateRegistry) : TemplateRegistry := <[rt_id t := t]> m.
Definition template_get (m : TemplateRegistry) (id : string) : option ResolutionTemplate := m !! id.

(** ** The feed registry *)

Record FeedRegistry := mkFeedRegistry {
  fr_feeds : gmap FeedId DataFeed;
  fr_by_pubkey : gmap FeedPubkey FeedId;
  fr_next_id : Z;
}.

Definition FeedRegistry_default : FeedRegistry := mkFeedRegistry ∅ ∅ 0.

Definition register {E} (pubkey : FeedPubkey) (name : string) (now_ms : Z) : st FeedRegistry E FeedId :=
  r ← sget;
  match fr_by_pubkey r !! pubkey with
  | Some existing => mret existing
  | None =>
      let id := fr_next_id r in
      next ← slift (arith U64 (fr_next_id r + 1));
      smodify (λ r, mkFeedRegistry (<[id := mkDataFeed id pubkey name now_ms]> (fr_feeds r)) (<[pubkey := id]> (fr_by_pubkey r)) next);;
      mret id
  end.

Definition restore_feed {E} (feed : DataFeed) : st FeedRegistry E unit :=
  r ← sget;
  n1 ← slift (arith U64 (df_id feed + 1));
  let next := if n1 >? fr_next_id r then n1 else fr_next_id r in
  smodify (λ r, mkFeedRegistry (<[df_id feed := feed]> (fr_feeds r)) (<[df_pubkey feed := df_id feed]> (fr_by_pubkey r)) next).

Definition feed_get (r : FeedRegistry) (id : FeedId) : option DataFeed := fr_feeds r !! id.
Definition resolve_pubkey (r : FeedRegistry) (pubkey : FeedPubkey) : option DataFeed :=
  id ← fr_by_pubkey r !! pubkey; fr_feeds r !! id.

(** ** The registry is a bijection *)

(** Every pubkey names one feed and every feed is found by its pubkey. *)
Record registry_ok (r : FeedRegistry) : Prop := {
  ro_by_id : ∀ id f, fr_feeds r !! id = Some f → df_id f = id ∧ fr_by_pubkey r !! df_pubkey f = Some id ∧ id < fr_next_id r;
  ro_by_pubkey : ∀ k id, fr_by_pubkey r !! k = Some id → ∃ f, fr_feeds r !! id = Some f ∧ df_pubkey f = k;
}.

Lemma registry_default_ok : registry_ok FeedRegistry_default.
Proof. split; intros ? ?; cbn; by rewrite lookup_empty. Qed.

Lemma registry_insert r id f next : registry_ok r → df_id f = id → fr_by_pubkey r !! df_pubkey f = None → fr_feeds r !! id = None →
  id < next → fr_next_id r ≤ next →
  registry_ok (mkFeedRegistry (<[id := f]> (fr_feeds r)) (<[df_pubkey f := id]> (fr_by_pubkey r)) next).
Proof.
  intros [H1 H2] Hid Hk Hf Hlt Hle. split; cbn.
  - intros i g. rewrite lookup_insert_Some. intros [[<- <-]|[Hi Hg]]; [by rewrite lookup_insert_eq|].
    destruct (H1 i g Hg) as (? & Hp & ?). split_and!; [done| |lia]. rewrite lookup_insert_ne; [done|]. congruence.
  - intros k i. rewrite lookup_insert_Some. intros [[<- <-]|[Hne Hi]].
    + exists f. by rewrite lookup_insert_eq.
    + destruct (H2 k i Hi) as (g & Hg & <-). exists g. split; [|done]. rewrite lookup_insert_ne; [done|]. congruence.
Qed.

(** Registering a key returns the id of the feed holding it, new or old. *)
Lemma register_spec {E} pubkey name now_ms r r' id : registry_ok r → @register E pubkey name now_ms r = SOk r' id →
  registry_ok r' ∧ (∃ f, fr_feeds r' !! id = Some f ∧ df_pubkey f = pubkey) ∧ fr_by_pubkey r' !! pubkey = Some id ∧
  (∀ i f, fr_feeds r !! i = Some f → fr_feeds r' !! i = Some f) ∧ (is_Some (fr_by_pubkey r !! pubkey) → r' = r).
Proof.
  intros Hok H. unfold register in H. rewrite sget_bind in H. destruct (fr_by_pubkey r !! pubkey) as [i|] eqn:Hk.
  - injection H as <- <-. split_and!; try done. by apply (ro_by_pubkey _ Hok).
  - apply sbind_SOk_inv in H as (r1 & next & E1 & H). unfold slift in E1. destruct (arith U64 _) as [z| |] eqn:Ha; simplify_eq.
    apply arith_Ok in Ha as [-> _]. rewrite smodify_bind in H. injection H as <- <-.
    assert (fr_feeds r1 !! fr_next_id r1 = None) as Hf.
    { destruct (fr_feeds r1 !! fr_next_id r1) eqn:Hf; [|done]. apply (ro_by_id _ Hok) in Hf as (_ & _ & ?). lia. }
    split_and!.
    + apply registry_insert; cbn; done || lia.
    + exists (mkDataFeed (fr_next_id r1) pubkey name now_ms). cbn. by rewrite lookup_insert_eq.
    + cbn. by rewrite lookup_insert_eq.
    + intros i f Hi. cbn. rewrite lookup_insert_ne; [done|]. congruence.
    + by intros [? ?].
Qed.
