(* ===== verification/Bridge.v ===== *)
(** * Bridge: deposits, withdrawals and the withdrawal state machine

    Models [crates/matching-sequencer/src/bridge.rs]: the bridge ledger, token
    unit conversion, and the life cycle of a withdrawal driven by L1 events and
    by the observed L1 height.  Keccak-256 and BLAKE3 are parameters. *)
From S2P Require Import Prelude Types Account Digest Finalize Witness L1Protocol DepositFrontier.

Definition NANOS_PER_TOKEN_UNIT : Z := 1000.
Definition DEFAULT_WITHDRAWAL_EXPIRY_BLOCKS : Z := 120960.

Record L1Deposit := mkL1Deposit {
  ld_deposit_id : Z;
  ld_account_id : option AccountId;
  ld_chain_id : Z;
  ld_vault_address : Bytes;
  ld_token_address : Bytes;
  ld_sender : Bytes;
  ld_sybil_account_key : Bytes;
  ld_amount_token_units : Z;
  ld_deposit_root : Bytes;
}.

Record BridgeWithdrawalRequest := mkBridgeWithdrawalRequest {
  rq_account_id : AccountId;
  rq_chain_id : Z;
  rq_vault_address : Bytes;
  rq_recipient : Bytes;
  rq_token_address : Bytes;
  rq_amount_token_units : Z;
  rq_expiry_height : Z;
}.

Module Status.
Inductive L1WithdrawalStatus := NotRequested | Queued | Finalized | Cancelled | Refunded.
End Status.
#[global] Instance L1WithdrawalStatus_eq_dec : EqDecision Status.L1WithdrawalStatus.
Proof. solve_decision. Defined.

Definition L1WithdrawalStatus_as_str (s : Status.L1WithdrawalStatus) : string :=
  match s with
  | Status.NotRequested => "not_requested"
  | Status.Queued => "queued"
  | Status.Finalized => "finalized"
  | Status.Cancelled => "cancelled"
  | Status.Refunded => "refunded"
  end.

Module Transition.
Inductive WithdrawalTransition := Unchanged | Queued | Finalized | Refunded (reason : WithdrawalRefundReason).
End Transition.

Record BridgeWithdrawalL1Event := mkBridgeWithdrawalL1Event {
  le_nullifier : Bytes;
  le_status : Status.L1WithdrawalStatus;
  le_event_at_unix : Z;
  le_executable_at_unix : option Z;
  le_tx_hash : option Bytes;
  le_l1_block_height : Z;
}.

Inductive BridgeL1Input :=
  | InputWithdrawalEvent (e : BridgeWithdrawalL1Event)
  | InputObservedHeight (height : Z).

Record WithdrawalLeaf := mkWithdrawalLeaf {
  wl_withdrawal_id : Z;
  wl_account_id : AccountId;
  wl_recipient : Bytes;
  wl_token_address : Bytes;
  wl_amount_token_units : Z;
  wl_amount_nanos : Z;
  wl_expiry_height : Z;
  wl_nullifier : Bytes;
  wl_created_at_height : Z;
  wl_l1_status : Status.L1WithdrawalStatus;
  wl_l1_requested_at_unix : option Z;
  wl_l1_executable_at_unix : option Z;
  wl_l1_finalized_at_unix : option Z;
  wl_l1_cancelled_at_unix : option Z;
  wl_l1_tx_hash : option Bytes;
}.

(** The fields the state machine mutates. *)
Definition set_l1 (status : Status.L1WithdrawalStatus) (requested executable finalized cancelled : option Z)
    (tx_hash : option Bytes) (w : WithdrawalLeaf) : WithdrawalLeaf :=
  mkWithdrawalLeaf (wl_withdrawal_id w) (wl_account_id w) (wl_recipient w) (wl_token_address w)
    (wl_amount_token_units w) (wl_amount_nanos w) (wl_expiry_height w) (wl_nullifier w) (wl_created_at_height w)
    status requested executable finalized cancelled tx_hash.

Definition terminal (w : WithdrawalLeaf) : bool :=
  match wl_l1_status w with Status.Finalized | Status.Refunded => true | _ => false end.

(** [a.or(b)] *)
Definition or_opt {A} (a b : option A) : option A := match a with Some _ => a | None => b end.

Definition apply_l1_event (w : WithdrawalLeaf) (event : BridgeWithdrawalL1Event)
    : WithdrawalLeaf * Transition.WithdrawalTransition :=
  if terminal w then (w, Transition.Unchanged) else
  let w := set_l1 (wl_l1_status w) (wl_l1_requested_at_unix w)
             (or_opt (le_executable_at_unix event) (wl_l1_executable_at_unix w)) (wl_l1_finalized_at_unix w)
             (wl_l1_cancelled_at_unix w) (or_opt (le_tx_hash event) (wl_l1_tx_hash w)) w in
  match le_status event with
  | Status.NotRequested => (w, Transition.Unchanged)
  | Status.Queued =>
      if decide (wl_l1_status w = Status.NotRequested)
      then (set_l1 Status.Queued (Some (le_event_at_unix event)) (wl_l1_executable_at_unix w)
              (wl_l1_finalized_at_unix w) (wl_l1_cancelled_at_unix w) (wl_l1_tx_hash w) w, Transition.Queued)
      else (w, Transition.Unchanged)
  | Status.Finalized =>
      (set_l1 Status.Finalized (wl_l1_requested_at_unix w) (wl_l1_executable_at_unix w)
         (Some (le_event_at_unix event)) (wl_l1_cancelled_at_unix w) (wl_l1_tx_hash w) w, Transition.Finalized)
  | Status.Cancelled =>
      (set_l1 Status.Refunded (wl_l1_requested_at_unix w) (wl_l1_executable_at_unix w) (wl_l1_finalized_at_unix w)
         (Some (le_event_at_unix event)) (wl_l1_tx_hash w) w, Transition.Refunded L1Cancelled)
  | Status.Refunded => (w, Transition.Unchanged)
  end.

Definition observe_l1_height (w : WithdrawalLeaf) (l1_height : Z) : WithdrawalLeaf * Transition.WithdrawalTransition :=
  if terminal w || (l1_height <=? wl_expiry_height w) then (w, Transition.Unchanged)
  else (set_l1 Status.Refunded (wl_l1_requested_at_unix w) (wl_l1_executable_at_unix w) (wl_l1_finalized_at_unix w)
          (wl_l1_cancelled_at_unix w) (wl_l1_tx_hash w) w, Transition.Refunded (L1Expired l1_height)).

(** [BTreeMap]s are maps; [quarantine] is keyed by the raw account key. *)
Record BridgeState := mkBridgeState {
  bs_deposit_cursor : Z;
  bs_deposit_root : Bytes;
  bs_deposit_frontier : list Bytes;
  bs_observed_l1_height : Z;
  bs_next_withdrawal_id : Z;
  bs_withdrawals : gmap Z WithdrawalLeaf;
  bs_quarantine : gmap Bytes Z;
}.

Module Err.
Inductive BridgeError :=
  | AmountZero
  | AmountOverflow
  | QuarantineOverflow
  | AccountKeyMismatch
  | NonSequentialDeposit (expected actual : Z)
  | DepositRootMismatch (expected actual : Bytes)
  | InsufficientAvailableBalance (required available : Z)
  | WithdrawalExpired (expiry_height observed_l1_height : Z)
  | UnknownWithdrawalNullifier (nullifier : Bytes).
End Err.

Inductive DepositDisposition :=
  | Credited (account : Account)
  | Quarantined (sybil_account_key : Bytes) (amount_nanos : Z).

Record BridgeBlockData := mkBridgeBlockData {
  bbd_deposit_count : Z;
  bbd_deposit_root : Bytes;
  bbd_consumed_deposits : list L1Deposit;
  bbd_withdrawal_leaves : list WithdrawalLeaf;
}.

Definition amount_token_units_to_nanos (amount_token_units : Z) : outcome Err.BridgeError Z :=
  if amount_token_units =? 0 then Err Err.AmountZero
  else ok_or (chk U64 (amount_token_units * NANOS_PER_TOKEN_UNIT)) Err.AmountOverflow.

Definition amount_token_units_to_i64_nanos (amount_token_units : Z) : outcome Err.BridgeError Z :=
  amount ← amount_token_units_to_nanos amount_token_units;
  ok_or (chk I64 amount) Err.AmountOverflow.

Definition account_key (blake3 : Bytes → Bytes) (account_id : AccountId) : Bytes :=
  blake3 (ascii_bytes "sybil/bridge/account-key/v1" ++ le_bytes 8 account_id).

Definition deposit_leaf_for_protocol (d : L1Deposit) : DepositLeaf :=
  mkDepositLeaf (ld_chain_id d) (ld_vault_address d) (ld_deposit_id d) (ld_token_address d) (ld_sender d)
    (ld_sybil_account_key d) (ld_amount_token_units d).

Section keccak.
Context (keccak256 : Bytes → Bytes).

(** The loop of [bridge::empty_deposit_root]. *)
Fixpoint hash_zeros (n : nat) (root : Bytes) : Bytes :=
  match n with O => root | S n => hash_zeros n (keccak256 ([1] ++ root ++ root)) end.
Definition bridge_empty_deposit_root : Bytes := hash_zeros DEPOSIT_TREE_DEPTH (replicate 32 0).

Definition BridgeState_default : BridgeState :=
  mkBridgeState 0 bridge_empty_deposit_root empty_deposit_frontier 0 1 ∅ ∅.

Definition bridge_deposit_leaf (d : L1Deposit) : Bytes := deposit_leaf keccak256 (deposit_leaf_for_protocol d).
Definition bridge_deposit_tree_leaf (d : L1Deposit) : Bytes := deposit_tree_leaf keccak256 (deposit_leaf_for_protocol d).

Definition deposit_log_root {E} (deposits : list L1Deposit) : outcome E Bytes :=
  deposit_root_from_prefix keccak256 (deposit_leaf_for_protocol <$> deposits).

Definition deposit_frontier_root (frontier : list Bytes) (count : Z) : option Bytes :=
  deposit_root_from_frontier keccak256 frontier count.

Definition bridge_append_deposit_frontier (frontier : list Bytes) (pre_count : Z) (deposit : L1Deposit) :
    option (list Bytes * Bytes) :=
  append_deposit_frontier keccak256 frontier pre_count (deposit_leaf_for_protocol deposit).

(** [bridge::withdrawal_nullifier] forwards to the protocol crate's. *)
Definition bridge_withdrawal_nullifier (request : BridgeWithdrawalRequest) (withdrawal_id : Z) : Bytes :=
  withdrawal_nullifier keccak256 (rq_chain_id request) (rq_vault_address request) withdrawal_id
    (rq_account_id request) (rq_recipient request) (rq_token_address request) (rq_amount_token_units request).
End keccak.

Definition withdrawal_leaf_bytes (leaf : WithdrawalLeaf) : Bytes :=
  ascii_bytes "sybil/state/withdrawal" ++ le_bytes 8 (wl_withdrawal_id leaf) ++ le_bytes 8 (wl_account_id leaf) ++
  wl_recipient leaf ++ wl_token_address leaf ++ le_bytes 8 (wl_amount_token_units leaf) ++
  le_bytes 8 (wl_amount_nanos leaf) ++ le_bytes 8 (wl_expiry_height leaf) ++ wl_nullifier leaf.

Definition withdrawal_leaf_digest (blake3 : Bytes → Bytes) (leaf : WithdrawalLeaf) : Bytes :=
  blake3 (ascii_bytes "sybil/state-leaf/withdrawal" ++ withdrawal_leaf_bytes leaf).

Definition withdrawal_snapshot (w : WithdrawalLeaf) : WithdrawalSnapshot :=
  mkWithdrawalSnapshot (wl_withdrawal_id w) (wl_account_id w) (wl_recipient w) (wl_token_address w)
    (wl_amount_token_units w) (wl_amount_nanos w) (wl_expiry_height w) (wl_nullifier w).

Definition withdrawal_id_le (a b : WithdrawalSnapshot) : Prop := ws_withdrawal_id a ≤ ws_withdrawal_id b.
#[global] Instance withdrawal_id_le_dec : RelDecision withdrawal_id_le.
Proof. intros a b. unfold withdrawal_id_le. apply _. Defined.

(** [quarantine_iter] is the ascending iteration of the [BTreeMap]. *)
Definition bridge_state_snapshot (quarantine_iter : list (Bytes * Z)) (state : BridgeState) : BridgeStateSnapshot :=
  mkBridgeStateSnapshot (bs_deposit_cursor state) (bs_deposit_root state) (bs_observed_l1_height state)
    (bs_next_withdrawal_id state)
    (stable_sort withdrawal_id_le ((λ e, withdrawal_snapshot e.2) <$> map_to_list (bs_withdrawals state)))
    ((λ e, mkQuarantineEntrySnapshot e.1 e.2) <$> quarantine_iter).

(** ** The two computations of the empty root agree *)

Lemma hash_zeros_zero_hash keccak256 n d :
  hash_zeros keccak256 n (zero_hash keccak256 d) = zero_hash keccak256 (n + d).
Proof.
  revert d. induction n as [|n IH]; intros d; cbn [hash_zeros]; [done|].
  change (keccak256 _) with (zero_hash keccak256 (S d)). by rewrite IH, Nat.add_succ_r.
Qed.

Lemma bridge_empty_deposit_root_eq keccak256 : bridge_empty_deposit_root keccak256 = empty_deposit_root keccak256.
Proof.
  unfold empty_deposit_root. rewrite (deposit_zero_hashes_lookup keccak256 DEPOSIT_TREE_DEPTH (le_n _)).
  unfold bridge_empty_deposit_root. change (replicate 32 0) with (zero_hash keccak256 0).
  rewrite hash_zeros_zero_hash, Nat.add_0_r. reflexivity.
Qed.

(** ** Runs of the withdrawal state machine *)

Definition leaf_input (w : WithdrawalLeaf) (i : BridgeL1Input) : WithdrawalLeaf * Transition.WithdrawalTransition :=
  match i with
  | InputWithdrawalEvent e => apply_l1_event w e
  | InputObservedHeight h => observe_l1_height w h
  end.

(** Feed a sequence of inputs; the transitions are what the sequencer acts on. *)
Fixpoint leaf_run (w : WithdrawalLeaf) (inputs : list BridgeL1Input) : WithdrawalLeaf * list Transition.WithdrawalTransition :=
  match inputs with
  | [] => (w, [])
  | i :: inputs =>
      let '(w1, t) := leaf_input w i in
      let '(w2, ts) := leaf_run w1 inputs in (w2, t :: ts)
  end.

(** The transitions that end a withdrawal: its money is paid out on L1, or refunded. *)
Definition settles (t : Transition.WithdrawalTransition) : bool :=
  match t with Transition.Finalized | Transition.Refunded _ => true | _ => false end.

Definition settled_status (t : Transition.WithdrawalTransition) : option Status.L1WithdrawalStatus :=
  match t with
  | Transition.Finalized => Some Status.Finalized
  | Transition.Refunded _ => Some Status.Refunded
  | _ => None
  end.

(** What identifies a withdrawal and its amount. *)
Definition leaf_identity (w : WithdrawalLeaf) : Z * AccountId * Bytes * Bytes * Z * Z * Z * Bytes * Z :=
  (wl_withdrawal_id w, wl_account_id w, wl_recipient w, wl_token_address w, wl_amount_token_units w,
   wl_amount_nanos w, wl_expiry_height w, wl_nullifier w, wl_created_at_height w).

Lemma leaf_input_terminal w i : terminal w = true → leaf_input w i = (w, Transition.Unchanged).
Proof.
  intros Ht. destruct i; cbn [leaf_input]; unfold apply_l1_event, observe_l1_height; by rewrite Ht.
Qed.

Lemma leaf_input_step w i w' t : leaf_input w i = (w', t) →
  leaf_identity w' = leaf_identity w ∧ (terminal w = false → terminal w' = settles t) ∧
  ∀ st, settled_status t = Some st → wl_l1_status w' = st.
Proof.
  destruct i as [e|h]; cbn [leaf_input]; unfold apply_l1_event, observe_l1_height.
  - destruct (terminal w) eqn:Ht; [intros [= <- <-]; split_and!; done|].
    destruct (le_status e); try case_decide; intros [= <- <-]; split_and!; try done; naive_solver.
  - destruct (terminal w) eqn:Ht; cbn [orb]; [intros [= <- <-]; split_and!; done|].
    destruct (h <=? _); intros [= <- <-]; split_and!; try done; naive_solver.
Qed.

Lemma leaf_run_terminal w inputs : terminal w = true →
  (leaf_run w inputs).1 = w ∧ Forall (λ t, t = Transition.Unchanged) (leaf_run w inputs).2.
Proof.
  intros Ht. induction inputs as [|i inputs IH]; cbn [leaf_run]; [done|].
  rewrite leaf_input_terminal by done. destruct (leaf_run w inputs) as [w2 ts]. cbn in *. destruct IH as [-> IH]. by repeat constructor.
Qed.

Lemma unchanged_not_settles ts : Forall (λ t, t = Transition.Unchanged) ts → filter (λ t, settles t = true) ts = [].
Proof. induction 1 as [|t ts -> _ IH]; [done|]. rewrite filter_cons, decide_False by done. done. Qed.

(** What a run does to a live withdrawal: at most one settling transition, and
    it fixes the final status. *)
Lemma leaf_run_live w inputs w' ts : terminal w = false → leaf_run w inputs = (w', ts) →
  match filter (λ t, settles t = true) ts with
  | [] => terminal w' = false
  | [t] => settled_status t = Some (wl_l1_status w')
  | _ => False
  end.
Proof.
  revert w w' ts. induction inputs as [|i inputs IH]; intros w w' ts Ht; cbn [leaf_run].
  - by intros [= <- <-].
  - destruct (leaf_input w i) as [w1 t] eqn:Hi. destruct (leaf_run w1 inputs) as [w2 us] eqn:Hr. intros [= <- <-].
    destruct (leaf_input_step _ _ _ _ Hi) as (_ & Hterm & Hst). specialize (Hterm Ht). rewrite filter_cons.
    destruct (settles t) eqn:Hs.
    + rewrite decide_True by done. destruct (leaf_run_terminal w1 inputs Hterm) as [Hw Hu]. rewrite Hr in Hw, Hu. cbn in Hw, Hu. subst w2.
      rewrite (unchanged_not_settles us Hu). destruct t; try done; cbn; by rewrite (Hst _ eq_refl).
    + rewrite decide_False by done. by apply (IH w1).
Qed.

Lemma leaf_run_identity w inputs : leaf_identity (leaf_run w inputs).1 = leaf_identity w.
Proof.
  revert w. induction inputs as [|i inputs IH]; intros w; cbn [leaf_run]; [done|].
  destruct (leaf_input w i) as [w1 t] eqn:Hi. specialize (IH w1). destruct (leaf_run w1 inputs) as [w2 ts]. cbn in *.
  rewrite IH. by apply leaf_input_step in Hi as [-> _].
Qed.

(** An input past the expiry, or a final L1 event, ends a withdrawal. *)
Definition ends (w : WithdrawalLeaf) (i : BridgeL1Input) : bool :=
  match i with
  | InputWithdrawalEvent e => match le_status e with Status.Finalized | Status.Cancelled => true | _ => false end
  | InputObservedHeight h => wl_expiry_height w <? h
  end.

Lemma leaf_input_ends w i : ends w i = true → terminal (leaf_input w i).1 = true.
Proof.
  destruct i as [e|h]; cbn [ends leaf_input]; unfold apply_l1_event, observe_l1_height; destruct (terminal w) eqn:Ht; try done.
  - by destruct (le_status e).
  - cbn [orb]. destruct (Z.leb_spec h (wl_expiry_height w)); [lia|done].
Qed.

(** ** Properties *)

(** C33: a withdrawal is settled at most once: along any sequence of L1 events
    and observed heights, its identity and amount never change, at most one
    transition finalises or refunds it, the first one to do so fixes its final
    status, and a settled withdrawal absorbs every later input. *)
Theorem withdrawal_settles_at_most_once (w : WithdrawalLeaf) (inputs : list BridgeL1Input) :
  let '(w', ts) := leaf_run w inputs in
  leaf_identity w' = leaf_identity w ∧
  (if terminal w then w' = w ∧ filter (λ t, settles t = true) ts = []
   else match filter (λ t, settles t = true) ts with
        | [] => terminal w' = false
        | [t] => settled_status t = Some (wl_l1_status w')
        | _ => False
        end).
Proof.
  destruct (leaf_run w inputs) as [w' ts] eqn:Hr. split.
  - pose proof (leaf_run_identity w inputs) as H. by rewrite Hr in H.
  - destruct (terminal w) eqn:Ht; [|by eapply leaf_run_live].
    destruct (leaf_run_terminal w inputs Ht) as [Hw Hu]. rewrite Hr in Hw, Hu. split; [done|]. by apply unchanged_not_settles.
Qed.

(** C34: no withdrawal is stuck: once an L1 height past its expiry, a
    finalisation or a cancellation has been fed to it, in any order with other
    inputs, the withdrawal is finalised or refunded. *)
Theorem withdrawal_eventually_settles (w : WithdrawalLeaf) (before after : list BridgeL1Input) (i : BridgeL1Input) :
  ends w i = true → terminal (leaf_run w (before ++ i :: after)).1 = true.
Proof.
  revert w. induction before as [|j before IH]; intros w He; cbn [leaf_run app].
  - pose proof (leaf_input_ends w i He) as Ht. destruct (leaf_input w i) as [w1 t]. cbn in Ht.
    destruct (leaf_run_terminal w1 after Ht) as [Hw _]. destruct (leaf_run w1 after). cbn in *. by subst.
  - destruct (leaf_input w j) as [w1 t] eqn:Hj. apply leaf_input_step in Hj as [Hid _].
    specialize (IH w1). destruct (leaf_run w1 (before ++ i :: after)). apply IH.
    destruct i; [done|]. cbn in *. unfold leaf_identity in Hid. congruence.
Qed.

Definition ex_withdrawal : WithdrawalLeaf :=
  mkWithdrawalLeaf 1 4 (replicate 20 51) (replicate 20 34) 700 700000 5000 (replicate 32 9) 12 Status.NotRequested
    None None None None None.
Definition ex_l1_event (s : Status.L1WithdrawalStatus) : BridgeL1Input :=
  InputWithdrawalEvent (mkBridgeWithdrawalL1Event (replicate 32 9) s 1700000000 None None 4900).

Lemma withdrawal_eventually_settles_witness :
  terminal (leaf_run ex_withdrawal ([ex_l1_event Status.Queued] ++ InputObservedHeight 5001 :: [ex_l1_event Status.Cancelled])).1 = true.
Proof. apply withdrawal_eventually_settles. reflexivity. Defined.
