(* ===== verification/Sequencer.v ===== *)
(** * Sequencer: pending system events and account operations

    Models the account half of [crates/matching-sequencer/src/sequencer.rs] and
    [sequencer/accounts.rs], the registry types of [crypto.rs], [system_event.rs]
    and [cancel_pending_order_at] of [sequencer/admission.rs]: every operation
    that changes an account between two blocks captures the account's baseline
    and stages a system event for the next block.  Serving analytics (account
    history) are left out; they never enter the state root. *)
From S2P Require Import Prelude Types Order Account Digest Validation OrderBook BatchSettlement Finalize Witness L1Protocol DepositFrontier AccountKeys SystemVerifier Oracle Bridge.

(** ** Signing keys *)

Inductive AccountAuthScheme := SchemeRawP256 | SchemeWebAuthn.
Definition canonical_byte (s : AccountAuthScheme) : Z :=
  match s with SchemeRawP256 => 0 | SchemeWebAuthn => 1 end.

Inductive KeyScope := ScopePrimary | ScopeAgent | ScopeCustom.

Record RegisteredPubkey := mkRegisteredPubkey {
  rp_account_id : AccountId;
  rp_auth_scheme : AccountAuthScheme;
  rp_label : option string;
  rp_scope : KeyScope;
  rp_created_at_ms : Z;
}.

Definition RegisteredPubkey_primary (account_id : AccountId) (auth_scheme : AccountAuthScheme) : RegisteredPubkey :=
  mkRegisteredPubkey account_id auth_scheme None ScopePrimary 0.

Definition set_rp_account_id (id : AccountId) (r : RegisteredPubkey) : RegisteredPubkey :=
  mkRegisteredPubkey id (rp_auth_scheme r) (rp_label r) (rp_scope r) (rp_created_at_ms r).

Definition MAX_SIGNING_KEY_LABEL_BYTES : Z := 128.

(** A public key is its 33 compressed bytes. *)
Definition key_record (pubkey : Bytes) (registered : RegisteredPubkey) : KeyRecord :=
  mkKeyRecord (canonical_byte (rp_auth_scheme registered)) pubkey FULL_CAPABILITY_MASK.

(** ** Events and errors *)

Module Sys.
Inductive SystemEvent :=
  | CreateAccount (account_id : AccountId) (initial_balance : Z) (initial_keys : list KeyRecord)
  | Deposit (account_id : AccountId) (amount : Z)
  | L1Deposit (account_id : AccountId) (amount : Z) (deposit : Bridge.L1Deposit)
  | WithdrawalCreated (account_id : AccountId) (amount : Z) (withdrawal : WithdrawalLeaf)
  | WithdrawalRefunded (account_id : AccountId) (withdrawal_id amount : Z) (reason : WithdrawalRefundReason)
  | WithdrawalFinalized (account_id : AccountId) (withdrawal_id amount : Z)
  | L1BlockObserved (height : Z)
  | MarketResolved (market_id : MarketId) (payout_nanos : Nanos) (affected_accounts : list AccountId)
  | OrderCancelled (account_id : AccountId) (order_id : Z) (market_ids : list MarketId) (side : OrderDirection)
      (remaining_quantity : Z)
  | MarketGroupExtended (group_id : Z) (market_id : MarketId)
  | KeyRegistered (account_id : AccountId) (key : KeyRecord) (authorization : KeyOpAuth)
  | KeyRevoked (account_id : AccountId) (key : KeyRecord) (authorization : KeyOpAuth)
  | DepositQuarantined (amount : Z) (deposit : Bridge.L1Deposit)
  | QuarantineClaimed (account_id : AccountId) (amount : Z) (sybil_account_key : Bytes)
  | ClientActionAuthorized (action : Action.ClientActionWitness).
End Sys.

(** The errors raised by the operations modelled here; [BridgeText] is a
    [Bridge] error with a literal message. *)
Module SeqErr.
Inductive SequencerError :=
  | Rejected (r : Rejection)
  | ReservationInvariant (e : ReservationError)
  | SignerAccountMismatch
  | ReplayNonceStale (account_id : AccountId) (nonce last_nonce : Z)
  | InvalidMmBundle (why : string)
  | AccountAlreadyRegistered
  | FirstKeyMustBeInitial
  | SigningKeyLimit
  | KeyNotFound
  | LastSigningKey
  | SigningKeyLabelTooLong (bytes limit : Z)
  | KeyOpLimit (count limit : Z)
  | OrderNotFound
  | OrderOwnershipMismatch
  | Bridge (e : Err.BridgeError)
  | BridgeText (why : string)
  | Persistence (why : string)
  | OracleRejected (e : OracleError)
  | MarketNotFound (market_id : MarketId)
  | MarketNotTradeable (market_id : MarketId) (status : string)
  | MarketAlreadyGrouped (group_id : Z)
  | MarketGroupNotFound
  | InvalidMarketCreationKey (why : string)
  | InvalidMarketGroupCreationKey (why : string)
  | MarketCreationKeyConflict (key : string) (existing_market_id : MarketId)
  | MarketGroupCreationKeyConflict (key : string) (existing_group_id : Z).
End SeqErr.
Abbreviation SequencerError := SeqErr.SequencerError (only parsing).

Definition account_not_found (id : AccountId) : SequencerError :=
  SeqErr.Rejected (mkRejection 0 id AccountNotFound).

(** ** State *)

Record Sequencer := mkSequencer {
  sq_accounts : AccountStore;
  sq_order_book : OrderBook;
  sq_height : Z;
  sq_pubkey_registry : gmap Bytes RegisteredPubkey;
  sq_bridge : BridgeState;
  sq_pending_system_events : list Sys.SystemEvent;
  sq_baselines : gmap Z (option Account);
  sq_market_groups : list MarketGroup;
}.

Definition set_accounts (a : AccountStore) (s : Sequencer) : Sequencer :=
  mkSequencer a (sq_order_book s) (sq_height s) (sq_pubkey_registry s) (sq_bridge s) (sq_pending_system_events s)
    (sq_baselines s) (sq_market_groups s).
Definition set_order_book (b : OrderBook) (s : Sequencer) : Sequencer :=
  mkSequencer (sq_accounts s) b (sq_height s) (sq_pubkey_registry s) (sq_bridge s) (sq_pending_system_events s)
    (sq_baselines s) (sq_market_groups s).
Definition set_height (h : Z) (s : Sequencer) : Sequencer :=
  mkSequencer (sq_accounts s) (sq_order_book s) h (sq_pubkey_registry s) (sq_bridge s) (sq_pending_system_events s)
    (sq_baselines s) (sq_market_groups s).
Definition set_pubkey_registry (r : gmap Bytes RegisteredPubkey) (s : Sequencer) : Sequencer :=
  mkSequencer (sq_accounts s) (sq_order_book s) (sq_height s) r (sq_bridge s) (sq_pending_system_events s)
    (sq_baselines s) (sq_market_groups s).
Definition set_bridge (b : BridgeState) (s : Sequencer) : Sequencer :=
  mkSequencer (sq_accounts s) (sq_order_book s) (sq_height s) (sq_pubkey_registry s) b (sq_pending_system_events s)
    (sq_baselines s) (sq_market_groups s).
Definition set_events (l : list Sys.SystemEvent) (s : Sequencer) : Sequencer :=
  mkSequencer (sq_accounts s) (sq_order_book s) (sq_height s) (sq_pubkey_registry s) (sq_bridge s) l
    (sq_baselines s) (sq_market_groups s).
Definition set_baselines (m : gmap Z (option Account)) (s : Sequencer) : Sequencer :=
  mkSequencer (sq_accounts s) (sq_order_book s) (sq_height s) (sq_pubkey_registry s) (sq_bridge s)
    (sq_pending_system_events s) m (sq_market_groups s).
Definition set_market_groups (g : list MarketGroup) (s : Sequencer) : Sequencer :=
  mkSequencer (sq_accounts s) (sq_order_book s) (sq_height s) (sq_pubkey_registry s) (sq_bridge s)
    (sq_pending_system_events s) (sq_baselines s) g.

Definition get_account (s : Sequencer) (id : AccountId) : option Account := as_get (sq_accounts s) id.
Definition put (id : AccountId) (a : Account) (s : Sequencer) : Sequencer :=
  set_accounts (as_insert id a (sq_accounts s)) s.

Definition set_last_nonce (z : Z) (a : Account) : Account :=
  mkAccount (acc_id a) (acc_balance a) (acc_positions a) (acc_total_deposited a) z
    (acc_last_trading_nonce a) (acc_events_digest a) (acc_keys_digest a) (acc_profile a)
    (acc_api_keys a) (acc_next_api_key_id a).
Definition set_last_trading_nonce (z : Z) (a : Account) : Account :=
  mkAccount (acc_id a) (acc_balance a) (acc_positions a) (acc_total_deposited a) (acc_last_nonce a)
    z (acc_events_digest a) (acc_keys_digest a) (acc_profile a) (acc_api_keys a) (acc_next_api_key_id a).
Definition set_keys_digest (d : Bytes) (a : Account) : Account :=
  mkAccount (acc_id a) (acc_balance a) (acc_positions a) (acc_total_deposited a) (acc_last_nonce a)
    (acc_last_trading_nonce a) (acc_events_digest a) d (acc_profile a) (acc_api_keys a) (acc_next_api_key_id a).

Abbreviation op := (st Sequencer SequencerError) (only parsing).

(** [self.accounts.get_mut(id).ok_or(e)?], [Option::ok_or(e)?] and [return Err(e)] on a condition. *)
Definition account_or (e : SequencerError) (id : AccountId) : op Account := s ← sget; slift (ok_or (get_account s id) e).
Definition try_opt {A} (o : option A) (e : SequencerError) : op A := slift (ok_or o e).
Definition guard_err (b : bool) (e : SequencerError) : op unit := if b then sfail e else mret ().

(** ** Baselines and the event queue *)

Definition capture_system_account_baseline (account_id : AccountId) : op unit :=
  smodify (λ s, match sq_baselines s !! account_id with
                | Some _ => s
                | None => set_baselines (<[account_id := get_account s account_id]> (sq_baselines s)) s
                end).

Definition capture_missing_system_account (account_id : AccountId) : op unit :=
  smodify (λ s, match sq_baselines s !! account_id with
                | Some _ => s
                | None => set_baselines (<[account_id := None]> (sq_baselines s)) s
                end).

Definition record_system_event (event : Sys.SystemEvent) : op unit :=
  smodify (λ s, set_events (sq_pending_system_events s ++ [event]) s).

(** ** Nonces *)

Definition validate_replay_nonce (account_id : AccountId) (nonce : Z) : op unit :=
  account ← account_or (account_not_found account_id) account_id;
  guard_err (nonce <=? acc_last_nonce account) (SeqErr.ReplayNonceStale account_id nonce (acc_last_nonce account)).

Definition advance_replay_nonce (account_id : AccountId) (nonce : Z) : op unit :=
  validate_replay_nonce account_id nonce;;
  account ← account_or (account_not_found account_id) account_id;
  smodify (put account_id (set_last_nonce nonce account)).

Definition apply_client_action_authorized (action : Action.ClientActionWitness) : op unit :=
  let '(account_id, nonce) := action_account_nonce action in
  capture_system_account_baseline account_id;;
  advance_replay_nonce account_id nonce;;
  s ← sget;
  account ← slift (expect (get_account s account_id));
  smodify (put account_id (set_last_trading_nonce nonce account));;
  record_system_event (Sys.ClientActionAuthorized action).

(** The account of an MM lifecycle action. *)
Definition mm_action_account (a : Action.ClientActionWitness) : option AccountId :=
  match a with
  | Action.MmBundle account_id _ _ _ _ _ _ _ => Some account_id
  | Action.MmBundleReplace account_id _ _ _ _ _ _ _ _ => Some account_id
  | Action.MmBundleCancel account_id _ _ _ _ => Some account_id
  | _ => None
  end.

(** [matches!]: a queued MM action of the account. *)
Definition is_mm_action_of (account_id : AccountId) (e : Sys.SystemEvent) : bool :=
  match e with
  | Sys.ClientActionAuthorized a => bool_decide (mm_action_account a = Some account_id)
  | _ => false
  end.

(** Only the last pre-cutoff MM action of an account stays queued. *)
Definition apply_mm_lifecycle_action_authorized (action : Action.ClientActionWitness) : op unit :=
  match mm_action_account action with
  | None => sfail (SeqErr.InvalidMmBundle "non-MM action used at MM lifecycle boundary")
  | Some account_id =>
      smodify (λ s, set_events (filter (λ e, is_mm_action_of account_id e = false) (sq_pending_system_events s)) s);;
      apply_client_action_authorized action
  end.

(** ** Quarantine claims *)

Section hashes.
Context (blake3 sha256 : Bytes → Bytes).

Definition set_quarantine (q : gmap Bytes Z) (b : BridgeState) : BridgeState :=
  mkBridgeState (bs_deposit_cursor b) (bs_deposit_root b) (bs_deposit_frontier b) (bs_observed_l1_height b)
    (bs_next_withdrawal_id b) (bs_withdrawals b) q.

Definition claim_quarantine_for_account (account_id : AccountId) : op (option Z) :=
  let key := account_key blake3 account_id in
  s ← sget;
  match bs_quarantine (sq_bridge s) !! key with
  | None => mret None
  | Some amount =>
      capture_system_account_baseline account_id;;
      account ← account_or (SeqErr.BridgeText "quarantine claim account is missing") account_id;
      balance ← try_opt (chk I64 (acc_balance account + amount)) (SeqErr.Bridge Err.AmountOverflow);
      total_deposited ← try_opt (chk I64 (acc_total_deposited account + amount)) (SeqErr.Bridge Err.AmountOverflow);
      smodify (put account_id (set_total_deposited total_deposited (set_balance balance account)));;
      smodify (λ s, set_bridge (set_quarantine (delete key (bs_quarantine (sq_bridge s))) (sq_bridge s)) s);;
      record_system_event (Sys.QuarantineClaimed account_id amount key);;
      mret (Some amount)
  end.

Definition validate_quarantine_claim_for_account (account_id : AccountId) : op unit :=
  s ← sget;
  match bs_quarantine (sq_bridge s) !! account_key blake3 account_id with
  | None => mret ()
  | Some amount =>
      account ← account_or (SeqErr.BridgeText "quarantine claim account is missing") account_id;
      _ ← try_opt (chk I64 (acc_balance account + amount)) (SeqErr.Bridge Err.AmountOverflow);
      _ ← try_opt (chk I64 (acc_total_deposited account + amount)) (SeqErr.Bridge Err.AmountOverflow);
      mret ()
  end.

(** ** Signing keys *)

Definition validate_label (label : option string) : op unit :=
  match label with
  | Some label =>
      let bytes := Z.of_nat (String.length label) in
      guard_err (bytes >? MAX_SIGNING_KEY_LABEL_BYTES) (SeqErr.SigningKeyLabelTooLong bytes MAX_SIGNING_KEY_LABEL_BYTES)
  | None => mret ()
  end.

(** The keys the registry holds for an account, in some order. *)
Definition registry_keys (registry : gmap Bytes RegisteredPubkey) (account_id : AccountId) : list KeyRecord :=
  (λ e, key_record e.1 e.2) <$> filter (λ e, rp_account_id e.2 = account_id) (map_to_list registry).

Definition registry_keys_digest (registry : gmap Bytes RegisteredPubkey) (account_id : AccountId) : Bytes :=
  account_keys_digest sha256 account_id (registry_keys registry account_id).

Definition refresh_account_keys_digest (account_id : AccountId) : op unit :=
  smodify (λ s, match get_account s account_id with
                | Some a => put account_id (set_keys_digest (registry_keys_digest (sq_pubkey_registry s) account_id) a) s
                | None => s
                end).

Definition apply_pubkey_registration (account_id : AccountId) (pubkey : Bytes) (meta : RegisteredPubkey) : op unit :=
  smodify (λ s, set_pubkey_registry (<[pubkey := meta]> (sq_pubkey_registry s)) s);;
  refresh_account_keys_digest account_id.

Definition key_count (s : Sequencer) (account_id : AccountId) : Z :=
  Z.of_nat (length (registry_keys (sq_pubkey_registry s) account_id)).

Definition can_register_pubkey (account_id : AccountId) (pubkey : Bytes) : op unit :=
  s ← sget;
  guard_err (bool_decide (get_account s account_id = None)) (account_not_found account_id);;
  guard_err (bool_decide (is_Some (sq_pubkey_registry s !! pubkey))) SeqErr.AccountAlreadyRegistered;;
  guard_err (MAX_KEYS_PER_ACCOUNT <=? key_count s account_id) SeqErr.SigningKeyLimit.

Definition is_key_op (e : Sys.SystemEvent) : bool :=
  match e with Sys.KeyRegistered _ _ _ | Sys.KeyRevoked _ _ _ => true | _ => false end.

Definition can_accept_key_op : op unit :=
  s ← sget;
  let count := Z.of_nat (length (filter (λ e, is_key_op e = true) (sq_pending_system_events s))) in
  guard_err (MAX_KEY_OPS_PER_BLOCK <=? count) (SeqErr.KeyOpLimit count MAX_KEY_OPS_PER_BLOCK).

Definition can_register_authorized_pubkey (account_id : AccountId) (pubkey : Bytes) : op unit :=
  can_register_pubkey account_id pubkey;; can_accept_key_op.

Definition can_register_first_pubkey (account_id : AccountId) (pubkey : Bytes) : op unit :=
  can_register_pubkey account_id pubkey;;
  s ← sget;
  guard_err (0 <? key_count s account_id) SeqErr.AccountAlreadyRegistered.

Definition register_pubkey_with_meta (account_id : AccountId) (pubkey : Bytes) (meta : RegisteredPubkey) : op unit :=
  validate_label (rp_label meta);;
  s ← sget;
  guard_err (negb (sq_height s =? 0)) SeqErr.FirstKeyMustBeInitial;;
  can_register_pubkey account_id pubkey;;
  validate_quarantine_claim_for_account account_id;;
  apply_pubkey_registration account_id pubkey (set_rp_account_id account_id meta);;
  claim_quarantine_for_account account_id;;
  mret ().

(** Push a key onto the last pending [CreateAccount] of the account, if any:
    [iter_mut().rev().find_map(..)]. *)
Fixpoint push_initial_key (account_id : AccountId) (key : KeyRecord) (events_rev : list Sys.SystemEvent) : option (list Sys.SystemEvent) :=
  match events_rev with
  | [] => None
  | Sys.CreateAccount id balance keys :: rest =>
      if decide (id = account_id) then Some (Sys.CreateAccount id balance (keys ++ [key]) :: rest)
      else (λ l, Sys.CreateAccount id balance keys :: l) <$> push_initial_key account_id key rest
  | e :: rest => (λ l, e :: l) <$> push_initial_key account_id key rest
  end.

Definition register_first_pubkey_with_meta (account_id : AccountId) (pubkey : Bytes) (meta : RegisteredPubkey) : op unit :=
  validate_label (rp_label meta);;
  can_register_first_pubkey account_id pubkey;;
  validate_quarantine_claim_for_account account_id;;
  let meta := set_rp_account_id account_id meta in
  s ← sget;
  match push_initial_key account_id (key_record pubkey meta) (rev (sq_pending_system_events s)) with
  | Some events => smodify (set_events (rev events))
  | None => guard_err (negb (sq_height s =? 0)) SeqErr.FirstKeyMustBeInitial
  end;;
  apply_pubkey_registration account_id pubkey meta;;
  claim_quarantine_for_account account_id;;
  mret ().

(** [account.events_digest = update_digest(&account.events_digest, &encoded)], the
    account being present. *)
Definition fold_digest (account_id : AccountId) (encoded : Z → Bytes) : op unit :=
  s ← sget;
  account ← slift (expect (get_account s account_id));
  smodify (put account_id
    (set_events_digest (update_digest blake3 (acc_events_digest account) (encoded (sat U64 (sq_height s + 1)))) account)).

Definition register_pubkey_with_meta_authorized (account_id : AccountId) (pubkey : Bytes) (meta : RegisteredPubkey)
    (authorization : KeyOpAuth) : op unit :=
  validate_label (rp_label meta);;
  can_register_authorized_pubkey account_id pubkey;;
  validate_quarantine_claim_for_account account_id;;
  capture_system_account_baseline account_id;;
  let meta := set_rp_account_id account_id meta in
  let key := key_record pubkey meta in
  apply_pubkey_registration account_id pubkey meta;;
  fold_digest account_id (encode_key_registered_event key);;
  record_system_event (Sys.KeyRegistered account_id key authorization);;
  claim_quarantine_for_account account_id;;
  mret ().

Definition can_revoke_signing_key (account_id : AccountId) (target : Bytes) : op unit :=
  can_accept_key_op;;
  s ← sget;
  registered ← try_opt (sq_pubkey_registry s !! target) SeqErr.KeyNotFound;
  guard_err (negb (rp_account_id registered =? account_id)) SeqErr.SignerAccountMismatch;;
  guard_err (key_count s account_id <=? 1) SeqErr.LastSigningKey.

Definition revoke_signing_key (account_id : AccountId) (target : Bytes) (authorization : KeyOpAuth) : op unit :=
  can_revoke_signing_key account_id target;;
  capture_system_account_baseline account_id;;
  s ← sget;
  registered ← slift (expect (sq_pubkey_registry s !! target));
  let key := key_record target registered in
  smodify (λ s, set_pubkey_registry (delete target (sq_pubkey_registry s)) s);;
  refresh_account_keys_digest account_id;;
  fold_digest account_id (encode_key_revoked_event key);;
  record_system_event (Sys.KeyRevoked account_id key authorization).

(** ** Account creation and funding *)

Definition store_create_account (balance : Z) : op AccountId := λ s,
  match create_account (empty_account_keys_digest sha256) balance (sq_accounts s) with
  | SOk st id => SOk (set_accounts st s) id
  | SErr st e => SErr (set_accounts st s) e
  | SPanic => SPanic
  end.

Definition apply_account_creation_at (initial_balance : Z) (initial_key : option (Bytes * RegisteredPubkey)) : op AccountId :=
  account_id ← store_create_account initial_balance;
  capture_missing_system_account account_id;;
  initial_keys ← match initial_key with
                 | Some (pubkey, meta) =>
                     let meta := set_rp_account_id account_id meta in
                     apply_pubkey_registration account_id pubkey meta;;
                     mret [key_record pubkey meta]
                 | None => mret []
                 end;
  record_system_event (Sys.CreateAccount account_id initial_balance initial_keys);;
  mret account_id.

Definition create_account_at (initial_balance : Z) : op AccountId := apply_account_creation_at initial_balance None.

Record PreparedQuarantineClaim := mkPreparedQuarantineClaim {
  pq_key : Bytes;
  pq_amount : Z;
  pq_balance : Z;
  pq_total_deposited : Z;
}.

Record PreparedAccountWithInitialKey := mkPreparedAccountWithInitialKey {
  pk_account_id : AccountId;
  pk_initial_balance : Z;
  pk_pubkey : Bytes;
  pk_meta : RegisteredPubkey;
  pk_quarantine_claim : option PreparedQuarantineClaim;
}.

Definition prepare_account_with_initial_key (initial_balance : Z) (pubkey : Bytes) (meta : RegisteredPubkey)
    : op PreparedAccountWithInitialKey :=
  validate_label (rp_label meta);;
  s ← sget;
  guard_err (bool_decide (is_Some (sq_pubkey_registry s !! pubkey))) SeqErr.AccountAlreadyRegistered;;
  let account_id := as_next_id (sq_accounts s) in
  guard_err (account_id =? AccountId_MINT) (SeqErr.Persistence "account id space is exhausted");;
  let key := account_key blake3 account_id in
  claim ← match bs_quarantine (sq_bridge s) !! key with
          | None => mret None
          | Some amount =>
              balance ← try_opt (chk I64 (initial_balance + amount)) (SeqErr.Bridge Err.AmountOverflow);
              total_deposited ← try_opt (chk I64 (initial_balance + amount)) (SeqErr.Bridge Err.AmountOverflow);
              mret (Some (mkPreparedQuarantineClaim key amount balance total_deposited))
          end;
  mret (mkPreparedAccountWithInitialKey account_id initial_balance pubkey (set_rp_account_id account_id meta) claim).

Definition apply_prepared_account_with_initial_key (prepared : PreparedAccountWithInitialKey) : op AccountId :=
  account_id ← apply_account_creation_at (pk_initial_balance prepared) (Some (pk_pubkey prepared, pk_meta prepared));
  slift (assert_ (account_id =? pk_account_id prepared));;
  match pk_quarantine_claim prepared with
  | None => mret ()
  | Some claim =>
      s ← sget;
      slift (assert_ (bool_decide (bs_quarantine (sq_bridge s) !! pq_key claim = Some (pq_amount claim))));;
      smodify (λ s, set_bridge (set_quarantine (delete (pq_key claim) (bs_quarantine (sq_bridge s))) (sq_bridge s)) s);;
      s ← sget;
      account ← slift (expect (get_account s account_id));
      smodify (put account_id (set_total_deposited (pq_total_deposited claim) (set_balance (pq_balance claim) account)));;
      record_system_event (Sys.QuarantineClaimed account_id (pq_amount claim) (pq_key claim))
  end;;
  mret account_id.

(** Unchecked [+=]: an overflow panics. *)
Definition fund_account_at (account_id : AccountId) (amount : Z) : op Account :=
  capture_system_account_baseline account_id;;
  account ← account_or (account_not_found account_id) account_id;
  balance ← slift (arith I64 (acc_balance account + amount));
  total_deposited ← slift (arith I64 (acc_total_deposited account + amount));
  let updated := set_total_deposited total_deposited (set_balance balance account) in
  smodify (put account_id updated);;
  record_system_event (Sys.Deposit account_id amount);;
  mret updated.
End hashes.

(** ** Order cancellation *)

Definition cancel_error_to_sequencer_error (e : CancelError) : SequencerError :=
  match e with
  | CancelNotFound => SeqErr.OrderNotFound
  | CancelWrongOwner => SeqErr.OrderOwnershipMismatch
  | CancelReservation e => SeqErr.ReservationInvariant e
  end.

(** Run an operation of the order book on the sequencer. *)
Definition on_book {A} (m : st OrderBook CancelError A) : op A := λ s,
  match m (sq_order_book s) with
  | SOk b a => SOk (set_order_book b s) a
  | SErr b e => SErr (set_order_book b s) (cancel_error_to_sequencer_error e)
  | SPanic => SPanic
  end.

Definition cancel_pending_order_at (account_id : AccountId) (order_id : Z) : op unit :=
  ro ← on_book (cancel account_id order_id);
  capture_system_account_baseline account_id;;
  let market_ids := active_markets (ro_order ro) in
  let primary_market := default MarketId_NONE (head market_ids) in
  side ← slift (derive_order_direction (ro_order ro) primary_market);
  record_system_event (Sys.OrderCancelled account_id order_id market_ids side (ord_max_fill (ro_order ro))).

(** ** Market resolution *)

Definition shrink_group (market_id : MarketId) (g : MarketGroup) : option MarketGroup :=
  if decide (market_id ∈ mg_markets g) then
    let members := filter (λ m, m ≠ market_id) (mg_markets g) in
    if (2 <=? Z.of_nat (length members)) then Some (mkMarketGroup (mg_name g) (mg_creation_key g) members) else None
  else Some g.

Definition shrink_market_groups_after_resolution (market_id : MarketId) : op unit :=
  smodify (λ s, set_market_groups (omap (shrink_group market_id) (sq_market_groups s)) s).

(** Accounts with a position in the market, in the iteration order of the store. *)
Definition holders (s : Sequencer) (ids : list AccountId) (market_id : MarketId) : list AccountId :=
  filter (λ id, from_option (λ a, negb (acc_position a market_id 0 =? 0) || negb (acc_position a market_id 1 =? 0)) false
                  (get_account s id) = true) ids.

(** [ids] is the iteration order of the account store. *)
Definition execute_resolution (ids : list AccountId) (market_id : MarketId) (payout_nanos : Nanos) : op unit :=
  s ← sget;
  sforeach capture_system_account_baseline (holders s ids market_id);;
  s ← sget;
  '(accounts, affected) ← slift (resolve_market (as_accounts (sq_accounts s)) ids market_id payout_nanos);
  smodify (set_accounts (mkAccountStore accounts (as_next_id (sq_accounts s))));;
  record_system_event (Sys.MarketResolved market_id payout_nanos affected);;
  shrink_market_groups_after_resolution market_id.

(** ** Stepping through operations *)

Lemma account_or_SOk e id s s' a : account_or e id s = SOk s' a → s' = s ∧ get_account s id = Some a.
Proof. unfold account_or, slift. cbv [mbind st_bind sget]. destruct (get_account s id); cbn; naive_solver. Qed.

Lemma try_opt_SOk {A} (o : option A) e s s' a : try_opt o e s = SOk s' a → s' = s ∧ o = Some a.
Proof. destruct o; cbv; naive_solver. Qed.

Lemma guard_err_SOk b e s s' u : guard_err b e s = SOk s' u → s' = s ∧ b = false.
Proof. destruct b; cbv; naive_solver. Qed.

Lemma slift_SOk {S E A} (m : outcome E A) (s s' : S) a : slift m s = SOk s' a → s' = s ∧ m = Ok a.
Proof. destruct m; cbv; naive_solver. Qed.

Lemma account_or_SErr e id s s' e' : account_or e id s = SErr s' e' → s' = s.
Proof. unfold account_or, slift. cbv [mbind st_bind sget]. destruct (get_account s id); cbn; naive_solver. Qed.

Lemma try_opt_SErr {A} (o : option A) e s s' e' : try_opt o e s = SErr s' e' → s' = s ∧ o = None.
Proof. destruct o; cbv; naive_solver. Qed.

Lemma guard_err_SErr b e s s' e' : guard_err b e s = SErr s' e' → s' = s ∧ b = true.
Proof. destruct b; cbv; naive_solver. Qed.

Lemma slift_SErr {S E A} (m : outcome E A) (s s' : S) e : slift m s = SErr s' e → s' = s ∧ m = Err e.
Proof. destruct m; cbv; naive_solver. Qed.

Lemma sbind_SErr_inv {S E A B} (m : st S E A) (f : A → st S E B) s s' e :
  (m ≫= f) s = SErr s' e → m s = SErr s' e ∨ ∃ s1 a, m s = SOk s1 a ∧ f a s1 = SErr s' e.
Proof. unfold mbind, st_bind. destruct (m s); naive_solver. Qed.

(** [capture_system_account_baseline] as a function of the state. *)
Definition captured (id : AccountId) (s : Sequencer) : Sequencer :=
  match sq_baselines s !! id with
  | Some _ => s
  | None => set_baselines (<[id := get_account s id]> (sq_baselines s)) s
  end.
Definition recorded (e : Sys.SystemEvent) (s : Sequencer) : Sequencer := set_events (sq_pending_system_events s ++ [e]) s.

Lemma capture_eq id s : capture_system_account_baseline id s = SOk (captured id s) ().
Proof. done. Qed.
Lemma record_eq e s : record_system_event e s = SOk (recorded e s) ().
Proof. done. Qed.

(** Capturing a baseline changes nothing else. *)
Lemma captured_frame id s :
  sq_accounts (captured id s) = sq_accounts s ∧ sq_order_book (captured id s) = sq_order_book s ∧
  sq_height (captured id s) = sq_height s ∧ sq_pubkey_registry (captured id s) = sq_pubkey_registry s ∧
  sq_bridge (captured id s) = sq_bridge s ∧ sq_pending_system_events (captured id s) = sq_pending_system_events s ∧
  sq_market_groups (captured id s) = sq_market_groups s.
Proof. unfold captured. by destruct (sq_baselines s !! id). Qed.

Lemma captured_accounts id s : sq_accounts (captured id s) = sq_accounts s.
Proof. apply captured_frame. Qed.
Lemma captured_bridge id s : sq_bridge (captured id s) = sq_bridge s.
Proof. apply captured_frame. Qed.
Lemma captured_events id s : sq_pending_system_events (captured id s) = sq_pending_system_events s.
Proof. apply captured_frame. Qed.
Lemma captured_height id s : sq_height (captured id s) = sq_height s.
Proof. apply captured_frame. Qed.
Lemma captured_registry id s : sq_pubkey_registry (captured id s) = sq_pubkey_registry s.
Proof. apply captured_frame. Qed.
Lemma captured_get id id' s : get_account (captured id s) id' = get_account s id'.
Proof. unfold get_account. by rewrite captured_accounts. Qed.

#[export] Hint Rewrite captured_accounts captured_bridge captured_events captured_height captured_registry captured_get : sybil_rw.

(** Invert a successful operation step by step: [E] is what one primitive did. *)
Ltac sprim E := first
  [ apply account_or_SOk in E as [-> E] | apply try_opt_SOk in E as [-> E] | apply guard_err_SOk in E as [-> E]
  | apply slift_SOk in E as [-> E]
  | rewrite capture_eq in E; injection E as <- <- | rewrite record_eq in E; injection E as <- <-
  | cbv [sget smodify mret st_ret] in E; injection E as <- <- | idtac ].

Ltac sinv H := repeat match type of H with
  | (_ ≫= _) _ = SOk _ _ =>
      let s := fresh "s" in let a := fresh "a" in let E := fresh "E" in
      apply sbind_SOk_inv in H as (s & a & E & H); sprim E
  | mret _ _ = SOk _ _ => cbv [mret st_ret] in H; injection H as H; subst
  | (let '(_, _) := ?p in _) _ = SOk _ _ => destruct p eqn:?
  end.

(** ** Operations that only read *)

Definition reads {A} (m : op A) : Prop :=
  ∀ s, match m s with SOk s' _ | SErr s' _ => s' = s | SPanic => True end.

Lemma reads_bind {A B} (m : op A) (f : A → op B) : reads m → (∀ a, reads (f a)) → reads (m ≫= f).
Proof.
  intros Hm Hf s. unfold mbind, st_bind. specialize (Hm s). destruct (m s) as [s1 a|s1 e|]; [|done..]. subst s1. apply Hf.
Qed.
Lemma reads_mret {A} (a : A) : reads (mret a).
Proof. by intros s. Qed.
Lemma reads_sget : reads sget.
Proof. by intros s. Qed.
Lemma reads_slift {A} (m : outcome SequencerError A) : reads (slift m).
Proof. intros s. by destruct m. Qed.
Lemma reads_try_opt {A} (o : option A) e : reads (try_opt o e).
Proof. apply reads_slift. Qed.
Lemma reads_guard_err b e : reads (guard_err b e).
Proof. intros s. by destruct b. Qed.
Lemma reads_account_or e id : reads (account_or e id).
Proof. apply reads_bind; [apply reads_sget|]. intros. apply reads_slift. Qed.

Create HintDb reads.
#[export] Hint Resolve reads_bind reads_mret reads_sget reads_slift reads_try_opt reads_guard_err reads_account_or : reads.

(** Prove that an operation reads by walking down its binds and cases. *)
Ltac reads_only := repeat first
  [ solve [auto with reads nocore]
  | apply reads_bind; [|intros ?]
  | match goal with
    | |- reads (match ?o with _ => _ end) => destruct o
    end ].

Lemma reads_SOk {A} (m : op A) s s' a : reads m → m s = SOk s' a → s' = s.
Proof. intros Hm H. specialize (Hm s). by rewrite H in Hm. Qed.
Lemma reads_SErr {A} (m : op A) s s' e : reads m → m s = SErr s' e → s' = s.
Proof. intros Hm H. specialize (Hm s). by rewrite H in Hm. Qed.
