(* ===== verification/MarketLifecycle.v ===== *)
(** * MarketLifecycle: creating, grouping and resolving markets

    Models [crates/matching-sequencer/src/market_lifecycle.rs], [market_info.rs]
    and [sequencer/markets.rs]: market and group creation with idempotency keys,
    extension of mutually exclusive groups, and resolution by the administrator
    or by a signed attestation.  [iter] is the iteration order of a [HashMap],
    [ids] that of the account store. *)
From S2P Require Import Prelude Types Order Market Account Digest Finalize Witness SystemVerifier Oracle Bridge Sequencer.

(** ** Metadata *)

Record MarketMetadata := mkMarketMetadata {
  mm_description : string;
  mm_category : string;
  mm_tags : list string;
  mm_resolution_criteria : string;
  mm_expiry_timestamp_ms : Z;
  mm_created_at_ms : Z;
  mm_resolution_config : option string;  (** the template of a [ResolutionConfig] *)
  mm_creation_key : option string;
  mm_committed_metadata_digest : option Bytes;
}.

Definition ADMIN_IMMEDIATE_TEMPLATE : string := "admin_immediate".

Definition effective_template (m : MarketMetadata) : string := default "admin_immediate"%string (mm_resolution_config m).

(** [tags.sort()]: [Ord] on strings is byte-wise lexicographic. *)
Definition string_le (a b : string) : Prop := String.leb a b = true.
#[global] Instance string_le_dec : RelDecision string_le.
Proof. intros a b. unfold string_le. apply _. Defined.
Definition sort_tags (tags : list string) : list string := stable_sort string_le tags.

Definition same_creation_fields (a b : MarketMetadata) : bool :=
  bool_decide (mm_description a = mm_description b) && bool_decide (mm_category a = mm_category b) &&
  bool_decide (sort_tags (mm_tags a) = sort_tags (mm_tags b)) &&
  bool_decide (mm_resolution_criteria a = mm_resolution_criteria b) &&
  (mm_expiry_timestamp_ms a =? mm_expiry_timestamp_ms b) &&
  bool_decide (mm_resolution_config a = mm_resolution_config b) &&
  bool_decide (mm_creation_key a = mm_creation_key b).

(** ** The life cycle *)

Record MarketLifecycle := mkMarketLifecycle {
  lc_market_statuses : gmap Z MarketStatus;
  lc_market_metadata : gmap Z MarketMetadata;
  lc_feeds : FeedRegistry;
  lc_templates : gmap string ResolutionTemplate;
}.

Definition MarketLifecycle_new : MarketLifecycle := mkMarketLifecycle ∅ ∅ FeedRegistry_default ∅.

Definition market_status (l : MarketLifecycle) (id : MarketId) : MarketStatus := default Active (lc_market_statuses l !! id).
Definition set_market_status (id : MarketId) (status : MarketStatus) (l : MarketLifecycle) : MarketLifecycle :=
  mkMarketLifecycle (<[id := status]> (lc_market_statuses l)) (lc_market_metadata l) (lc_feeds l) (lc_templates l).
Definition lc_set_market_metadata (id : MarketId) (m : MarketMetadata) (l : MarketLifecycle) : MarketLifecycle :=
  mkMarketLifecycle (lc_market_statuses l) (<[id := m]> (lc_market_metadata l)) (lc_feeds l) (lc_templates l).
Definition set_feeds (r : FeedRegistry) (l : MarketLifecycle) : MarketLifecycle :=
  mkMarketLifecycle (lc_market_statuses l) (lc_market_metadata l) r (lc_templates l).
Definition lc_install_template (t : ResolutionTemplate) (l : MarketLifecycle) : MarketLifecycle :=
  mkMarketLifecycle (lc_market_statuses l) (lc_market_metadata l) (lc_feeds l) (install t (lc_templates l)).

Definition template_for_market (l : MarketLifecycle) (id : MarketId) : string :=
  default ADMIN_IMMEDIATE_TEMPLATE (m ← lc_market_metadata l !! id; mm_resolution_config m).

Definition commit_resolution (id : MarketId) (record : ResolutionRecord) (l : MarketLifecycle) : MarketLifecycle :=
  set_market_status id (Resolved record) l.

Abbreviation lop := (st MarketLifecycle SequencerError) (only parsing).

(** [.map_err(|e| SequencerError::OracleError(e.to_string()))] *)
Definition oracle {A} (m : outcome OracleError A) : lop A := slift (map_err SeqErr.OracleRejected m).

Definition lc_resolve_market (market_id : MarketId) (payout_nanos : Nanos) (timestamp_ms : Z) : lop ResolutionRecord :=
  l ← sget;
  record ← oracle (evaluate_admin_immediate payout_nanos (market_status l market_id) timestamp_ms);
  smodify (commit_resolution market_id record);;
  mret record.

Definition resolve_from_attestation (market_id : MarketId) (signed : SignedAttestation) (timestamp_ms : Z) : lop ResolutionRecord :=
  l ← sget;
  let template_name := template_for_market l market_id in
  template ← oracle (ok_or (template_get (lc_templates l) template_name) (Oracle.UnknownTemplate template_name));
  record ← match rt_policy template with
           | Immediate feed_id =>
               signer_feed ← oracle (ok_or (resolve_pubkey (lc_feeds l) (sa_signer signed)) Oracle.UnknownFeed);
               oracle (evaluate_immediate feed_id signer_feed market_id signed (market_status l market_id) timestamp_ms)
           end;
  smodify (commit_resolution market_id record);;
  mret record.

(** ** The sequencer's market state *)

Record MarketSequencer := mkMarketSequencer {
  mq_seq : Sequencer;
  mq_markets : MarketSet;
  mq_lifecycle : MarketLifecycle;
}.

Abbreviation mop := (st MarketSequencer SequencerError) (only parsing).

Definition mq_groups (s : MarketSequencer) : list MarketGroup := sq_market_groups (mq_seq s).
Definition set_mq_groups (g : list MarketGroup) (s : MarketSequencer) : MarketSequencer :=
  mkMarketSequencer (set_market_groups g (mq_seq s)) (mq_markets s) (mq_lifecycle s).
Definition set_mq_lifecycle (l : MarketLifecycle) (s : MarketSequencer) : MarketSequencer :=
  mkMarketSequencer (mq_seq s) (mq_markets s) l.

(** Run an operation on a field: [self.lifecycle.f(..)?]. *)
Definition on_seq {A} (m : op A) : mop A := λ s,
  match m (mq_seq s) with
  | SOk q a => SOk (mkMarketSequencer q (mq_markets s) (mq_lifecycle s)) a
  | SErr q e => SErr (mkMarketSequencer q (mq_markets s) (mq_lifecycle s)) e
  | SPanic => SPanic
  end.
Definition on_markets {A} (m : st MarketSet SequencerError A) : mop A := λ s,
  match m (mq_markets s) with
  | SOk k a => SOk (mkMarketSequencer (mq_seq s) k (mq_lifecycle s)) a
  | SErr k e => SErr (mkMarketSequencer (mq_seq s) k (mq_lifecycle s)) e
  | SPanic => SPanic
  end.
Definition on_lifecycle {A} (m : lop A) : mop A := λ s,
  match m (mq_lifecycle s) with
  | SOk l a => SOk (set_mq_lifecycle l s) a
  | SErr l e => SErr (set_mq_lifecycle l s) e
  | SPanic => SPanic
  end.

Definition mguard (b : bool) (e : SequencerError) : mop unit := if b then sfail e else mret ().

(** ** Creation keys *)

Definition MAX_MARKET_CREATION_KEY_BYTES : Z := MAX_OPERATOR_CREATION_KEY_BYTES.

Definition validate_creation_key_shape (key : string) : outcome string unit :=
  if bool_decide (key = ""%string) then Err "key must not be empty"%string else
  if Z.of_nat (String.length key) >? MAX_MARKET_CREATION_KEY_BYTES then Err "key is too long"%string else
  if negb (operator_creation_key_is_valid key) then Err "key has an invalid character"%string else Ok ().

Definition validate_market_creation_key (key : string) : outcome SequencerError unit :=
  map_err SeqErr.InvalidMarketCreationKey (validate_creation_key_shape key).
Definition validate_market_group_creation_key (key : string) : outcome SequencerError unit :=
  map_err SeqErr.InvalidMarketGroupCreationKey (validate_creation_key_shape key).

(** ** Markets *)

Section iteration.
Context (iter : gmap Z MarketMetadata → list (Z * MarketMetadata)).

Definition create_market (name : string) : mop MarketId := on_markets (add_binary name).

Definition existing_market_for_creation (name : string) (metadata : MarketMetadata) : mop (option MarketId) :=
  match mm_creation_key metadata with
  | None => mret None
  | Some key =>
      slift (validate_market_creation_key key);;
      s ← sget;
      match list_find (λ e, mm_creation_key e.2 = Some key) (iter (lc_market_metadata (mq_lifecycle s))) with
      | None => mret None
      | Some (_, (market_id, existing)) =>
          market ← slift (ok_or (ms_get (mq_markets s) market_id)
                            (SeqErr.Persistence "market creation key references missing market"));
          if bool_decide (mk_name market = name) && same_creation_fields existing metadata then mret (Some market_id)
          else sfail (SeqErr.MarketCreationKeyConflict key market_id)
      end
  end.

Definition set_market_metadata (market_id : MarketId) (metadata : MarketMetadata) : mop unit :=
  smodify (λ s, set_mq_lifecycle (lc_set_market_metadata market_id metadata (mq_lifecycle s)) s).

Definition create_market_with_metadata (name : string) (metadata : MarketMetadata) : mop MarketId :=
  existing ← existing_market_for_creation name metadata;
  match existing with
  | Some market_id => mret market_id
  | None =>
      market_id ← create_market name;
      set_market_metadata market_id metadata;;
      mret market_id
  end.
End iteration.

(** ** Groups *)

(** [Vec::dedup]: drop consecutive repetitions. *)
Fixpoint dedup (l : list Z) : list Z :=
  match l with
  | [] => []
  | x :: l => match l with
              | y :: _ => if decide (x = y) then dedup l else x :: dedup l
              | [] => [x]
              end
  end.

(** [sort_by_key(|m| m.0)] then [dedup]. *)
Definition canonical_markets (ids : list MarketId) : list MarketId := dedup (stable_sort Z.le ids).

Definition group_with (market_id : MarketId) (g : MarketGroup) : Prop := market_id ∈ mg_markets g.
#[global] Instance group_with_dec m g : Decision (group_with m g).
Proof. unfold group_with. apply _. Defined.

Definition existing_market_group_for_creation (name : string) (creation_key : option string) (market_ids : list MarketId)
    : mop (option (Z * MarketGroup)) :=
  match creation_key with
  | None => mret None
  | Some key =>
      slift (validate_market_group_creation_key key);;
      s ← sget;
      match list_find (λ g, mg_creation_key g = Some key) (mq_groups s) with
      | None => mret None
      | Some (i, existing) =>
          if bool_decide (mg_name existing = name) &&
             bool_decide (canonical_markets (mg_markets existing) = canonical_markets market_ids)
          then mret (Some (Z.of_nat i, existing))
          else sfail (SeqErr.MarketGroupCreationKeyConflict key (Z.of_nat i))
      end
  end.

(** The checks on one member: it exists, trades, and is in no group ([find]). *)
Definition check_member (market_id : MarketId) : mop unit :=
  s ← sget;
  mguard (bool_decide (ms_get (mq_markets s) market_id = None)) (SeqErr.MarketNotFound market_id);;
  let status := market_status (mq_lifecycle s) market_id in
  mguard (negb (is_tradeable status)) (SeqErr.MarketNotTradeable market_id (MarketStatus_as_str status));;
  match list_find (group_with market_id) (mq_groups s) with
  | Some (i, _) => sfail (SeqErr.MarketAlreadyGrouped (Z.of_nat i))
  | None => mret ()
  end.

Definition can_create_market_group (name : string) (creation_key : option string) (market_ids : list MarketId)
    : mop (option (Z * MarketGroup)) :=
  existing ← existing_market_group_for_creation name creation_key market_ids;
  match existing with
  | Some e => mret (Some e)
  | None => sforeach check_member market_ids;; mret None
  end.

Definition create_market_group_with_key (name : string) (creation_key : option string) (market_ids : list MarketId)
    : mop (Z * MarketGroup) :=
  let market_ids := canonical_markets market_ids in
  existing ← can_create_market_group name creation_key market_ids;
  match existing with
  | Some e => mret e
  | None =>
      s ← sget;
      let group_id := Z.of_nat (length (mq_groups s)) in
      let group := mkMarketGroup name creation_key market_ids in
      smodify (λ s, set_mq_groups (mq_groups s ++ [group]) s);;
      mret (group_id, group)
  end.

(** [.expect(..)] *)
Definition create_market_group (name : string) (market_ids : list MarketId) : mop (Z * MarketGroup) := λ s,
  match create_market_group_with_key name None market_ids s with SErr _ _ => SPanic | r => r end.

(** Another group holding the market. *)
Definition other_group (group_index : nat) (market_id : MarketId) (groups : list MarketGroup) : option (nat * (nat * MarketGroup)) :=
  list_find (λ e, e.1 ≠ group_index ∧ group_with market_id e.2) (zip (seq 0 (length groups)) groups).

Definition validate_market_group_extension (group_id : Z) (market_id : MarketId) : mop (nat * bool) :=
  s ← sget;
  mguard (bool_decide (ms_get (mq_markets s) market_id = None)) (SeqErr.MarketNotFound market_id);;
  let status := market_status (mq_lifecycle s) market_id in
  mguard (negb (is_tradeable status)) (SeqErr.MarketNotTradeable market_id (MarketStatus_as_str status));;
  let group_index := Z.to_nat group_id in
  group ← slift (ok_or (mq_groups s !! group_index) SeqErr.MarketGroupNotFound);
  if decide (group_with market_id group) then mret (group_index, false) else
  match other_group group_index market_id (mq_groups s) with
  | Some (_, (i, _)) => sfail (SeqErr.MarketAlreadyGrouped (Z.of_nat i))
  | None => mret (group_index, true)
  end.

Definition can_extend_market_group (group_id : Z) (market_id : MarketId) : mop unit :=
  validate_market_group_extension group_id market_id;; mret ().

Definition extend_market_group (group_id : Z) (market_id : MarketId) : mop (MarketGroup * bool) :=
  '(group_index, should_insert) ← validate_market_group_extension group_id market_id;
  s ← sget;
  group ← slift (expect (mq_groups s !! group_index));
  if negb should_insert then mret (group, false) else
  let updated := mkMarketGroup (mg_name group) (mg_creation_key group) (mg_markets group ++ [market_id]) in
  smodify (λ s, set_mq_groups (<[group_index := updated]> (mq_groups s)) s);;
  on_seq (record_system_event (Sys.MarketGroupExtended group_id market_id));;
  mret (updated, true).

(** ** Resolution *)

Definition seq_resolve_market (ids : list AccountId) (market_id : MarketId) (payout_nanos : Nanos) (timestamp_ms : Z) : mop ResolutionRecord :=
  s ← sget;
  mguard (bool_decide (ms_get (mq_markets s) market_id = None)) (SeqErr.MarketNotFound market_id);;
  record ← on_lifecycle (lc_resolve_market market_id payout_nanos timestamp_ms);
  on_seq (execute_resolution ids market_id (rec_payout_nanos record));;
  mret record.

Definition resolve_market_attested (ids : list AccountId) (market_id : MarketId) (signed : SignedAttestation) (timestamp_ms : Z)
    : mop ResolutionRecord :=
  s ← sget;
  mguard (bool_decide (ms_get (mq_markets s) market_id = None)) (SeqErr.MarketNotFound market_id);;
  record ← on_lifecycle (resolve_from_attestation market_id signed timestamp_ms);
  on_seq (execute_resolution ids market_id (rec_payout_nanos record));;
  mret record.

Definition register_feed (pubkey : Bytes) (name : string) (now_ms : Z) : mop FeedId := λ s,
  match register pubkey name now_ms (lc_feeds (mq_lifecycle s)) with
  | SOk r id => SOk (set_mq_lifecycle (set_feeds r (mq_lifecycle s)) s) id
  | SErr r e => SErr (set_mq_lifecycle (set_feeds r (mq_lifecycle s)) s) e
  | SPanic => SPanic
  end.

Definition install_template (t : ResolutionTemplate) : mop unit :=
  smodify (λ s, set_mq_lifecycle (lc_install_template t (mq_lifecycle s)) s).
