(* ===== verification/MarketGroups.v ===== *)
(** * MarketGroups: what the market life cycle guarantees

    Groups stay disjoint sets of live markets, creation keys stay unique and
    creation is idempotent, resolution happens once and is final, and an attested
    resolution needs exactly the signer the market's template names. *)
From S2P Require Import Prelude Types Order Market Account OrderBook Digest Finalize Witness SystemVerifier Oracle Bridge Sequencer MarketLifecycle.

(** ** Inverting operations *)

(** An operation that leaves the state alone when it succeeds. *)
Definition pure_st {S E A} (m : st S E A) : Prop := ∀ s s' a, m s = SOk s' a → s' = s.

Lemma pure_bind {S E A B} (m : st S E A) (f : A → st S E B) : pure_st m → (∀ a, pure_st (f a)) → pure_st (m ≫= f).
Proof. intros Hm Hf s s' b H. apply sbind_SOk_inv in H as (s1 & a & E1 & H). apply Hm in E1 as ->. by eapply Hf. Qed.
Lemma pure_mret {S E A} (a : A) : pure_st (S := S) (E := E) (mret a).
Proof. by intros s s' b [= <- _]. Qed.
Lemma pure_sget {S E} : pure_st (S := S) (E := E) sget.
Proof. by intros s s' b [= <- _]. Qed.
Lemma pure_slift {S E A} (m : outcome E A) : pure_st (S := S) (slift m).
Proof. intros s s' b. by destruct m; intros [= <- _]. Qed.
Lemma pure_sfail {S E A} (e : E) : pure_st (S := S) (A := A) (sfail e).
Proof. by intros s s' b. Qed.
Lemma pure_sforeach {S E A} (f : A → st S E unit) l : (∀ x, pure_st (f x)) → pure_st (sforeach f l).
Proof. intros Hf. induction l as [|x l IH]; cbn [sforeach]; [apply pure_mret|]. by apply pure_bind. Qed.
Lemma pure_mguard b e : pure_st (mguard b e).
Proof. destruct b; [apply pure_sfail|apply pure_mret]. Qed.

Ltac pure_walk := repeat match goal with
  | |- pure_st (_ ≫= _) => apply pure_bind; [|intros ?]
  | |- pure_st (mret _) => apply pure_mret
  | |- pure_st sget => apply pure_sget
  | |- pure_st (slift _) => apply pure_slift
  | |- pure_st (sfail _) => apply pure_sfail
  | |- pure_st (mguard _ _) => apply pure_mguard
  | |- pure_st (sforeach _ _) => apply pure_sforeach; intros ?
  | |- pure_st (let '(_, _) := ?x in _) => destruct x
  | |- pure_st (match ?x with _ => _ end) => destruct x
  end.

Lemma existing_market_pure iter name md : pure_st (existing_market_for_creation iter name md).
Proof. unfold existing_market_for_creation. pure_walk. Qed.
Lemma check_member_pure m : pure_st (check_member m).
Proof. unfold check_member. pure_walk. Qed.
Lemma can_create_pure name key ids : pure_st (can_create_market_group name key ids).
Proof. unfold can_create_market_group, existing_market_group_for_creation. pure_walk. apply check_member_pure. Qed.
Lemma validate_extension_pure g m : pure_st (validate_market_group_extension g m).
Proof. unfold validate_market_group_extension. pure_walk. Qed.

Lemma mguard_SOk b e s s' u : mguard b e s = SOk s' u → s' = s ∧ b = false.
Proof. destruct b; cbv; naive_solver. Qed.

(** ** Operations as functions *)

Lemma check_member_SOk m s s' u : check_member m s = SOk s' u →
  is_Some (ms_get (mq_markets s) m) ∧ market_status (mq_lifecycle s) m = Active ∧ Forall (λ g, m ∉ mg_markets g) (mq_groups s).
Proof.
  unfold check_member. intros H. rewrite sget_bind in H. apply sbind_SOk_inv in H as (s1 & [] & E1 & H). apply mguard_SOk in E1 as [-> E1].
  apply sbind_SOk_inv in H as (s1 & [] & E2 & H). apply mguard_SOk in E2 as [-> E2]. apply bool_decide_eq_false in E1. split_and!.
  - by apply not_eq_None_Some.
  - by destruct (market_status _ m).
  - destruct (list_find _ _) as [[]|] eqn:Hf; [done|]. by apply list_find_None in Hf.
Qed.

Lemma check_members_SOk ms s s' u : sforeach check_member ms s = SOk s' u → ∀ m, m ∈ ms →
  is_Some (ms_get (mq_markets s) m) ∧ market_status (mq_lifecycle s) m = Active ∧ Forall (λ g, m ∉ mg_markets g) (mq_groups s).
Proof.
  induction ms as [|x ms IH]; intros H m Hm; [by apply not_elem_of_nil in Hm|]. cbn [sforeach] in H.
  apply sbind_SOk_inv in H as (s1 & [] & E1 & H). pose proof (check_member_pure _ _ _ _ E1) as ->.
  apply elem_of_cons in Hm as [->|Hm]; [by eapply check_member_SOk|by apply IH].
Qed.

Lemma valid_group_key k u : validate_market_group_creation_key k = Ok u → operator_creation_key_is_valid k = true.
Proof.
  unfold validate_market_group_creation_key, validate_creation_key_shape. case_bool_decide; [done|]. destruct (_ >? _); [done|].
  by destruct (operator_creation_key_is_valid k).
Qed.

(** A group is created from live ungrouped markets under a fresh key, or found. *)
Lemma create_group_SOk name key ids s s' r : create_market_group_with_key name key ids s = SOk s' r →
  (s' = s ∧ ∃ i g, r = (Z.of_nat i, g) ∧ mq_groups s !! i = Some g ∧ is_Some key ∧ mg_creation_key g = key ∧ mg_name g = name) ∨
  (∃ g, g = mkMarketGroup name key (canonical_markets ids) ∧ r = (Z.of_nat (length (mq_groups s)), g) ∧ s' = set_mq_groups (mq_groups s ++ [g]) s ∧
    (∀ k, key = Some k → operator_creation_key_is_valid k = true ∧ Forall (λ g, mg_creation_key g ≠ Some k) (mq_groups s)) ∧
    ∀ m, m ∈ canonical_markets ids →
      is_Some (ms_get (mq_markets s) m) ∧ market_status (mq_lifecycle s) m = Active ∧ Forall (λ g, m ∉ mg_markets g) (mq_groups s)).
Proof.
  unfold create_market_group_with_key. intros H. apply sbind_SOk_inv in H as (s1 & e & E1 & H).
  pose proof (can_create_pure _ _ _ _ _ _ E1) as ->. unfold can_create_market_group in E1.
  apply sbind_SOk_inv in E1 as (s1 & e1 & E0 & E1).
  assert (s1 = s ∧ match e1 with
    | Some (i, g) => ∃ n, i = Z.of_nat n ∧ mq_groups s !! n = Some g ∧ is_Some key ∧ mg_creation_key g = key ∧ mg_name g = name
    | None => ∀ k, key = Some k → operator_creation_key_is_valid k = true ∧ Forall (λ g, mg_creation_key g ≠ Some k) (mq_groups s)
    end) as [-> He1].
  { unfold existing_market_group_for_creation in E0. destruct key as [k|]; [|injection E0 as <- <-; naive_solver].
    apply sbind_SOk_inv in E0 as (s2 & [] & Ev & E0). apply slift_SOk in Ev as [-> Ev]. rewrite sget_bind in E0.
    destruct (list_find _ _) as [[n g]|] eqn:Hf.
    - apply list_find_Some in Hf as (Hn & Hk & _). case_bool_decide as Hname; [|done]. case_bool_decide; [|done].
      injection E0 as <- <-. split; [done|]. exists n. naive_solver.
    - injection E0 as <- <-. split; [done|]. intros ? [= <-]. split; [by eapply valid_group_key|]. by apply list_find_None in Hf. }
  destruct e1 as [[i g]|].
  - injection E1 as <-. injection H as <- <-. left. split; [done|]. destruct He1 as (n & -> & ?). by exists n, g.
  - apply sbind_SOk_inv in E1 as (s2 & [] & E2 & E1). injection E1 as -> <-. pose proof (check_members_SOk _ _ _ _ E2) as Hm.
    rewrite sget_bind, smodify_bind in H. injection H as <- <-. right. eexists. split_and!; try done.
Qed.

(** The group a market is added to, and its members afterwards. *)
Lemma extend_SOk gid m s s' r : extend_market_group gid m s = SOk s' r →
  ∃ g, mq_groups s !! Z.to_nat gid = Some g ∧
    ((r = (g, false) ∧ m ∈ mg_markets g ∧ s' = s) ∨
     (∃ g', r = (g', true) ∧ g' = mkMarketGroup (mg_name g) (mg_creation_key g) (mg_markets g ++ [m]) ∧
       is_Some (ms_get (mq_markets s) m) ∧ market_status (mq_lifecycle s) m = Active ∧
       Forall (λ g, m ∉ mg_markets g) (mq_groups s) ∧
       s' = mkMarketSequencer (recorded (Sys.MarketGroupExtended gid m) (set_market_groups (<[Z.to_nat gid := g']> (mq_groups s)) (mq_seq s)))
              (mq_markets s) (mq_lifecycle s))).
Proof.
  unfold extend_market_group. intros H. apply sbind_SOk_inv in H as (s1 & [i b] & E1 & H).
  pose proof (validate_extension_pure _ _ _ _ _ E1) as ->. unfold validate_market_group_extension in E1. rewrite sget_bind in E1.
  apply sbind_SOk_inv in E1 as (s1 & [] & G1 & E1). apply mguard_SOk in G1 as [-> G1]. apply bool_decide_eq_false in G1.
  apply sbind_SOk_inv in E1 as (s1 & [] & G2 & E1). apply mguard_SOk in G2 as [-> G2].
  apply sbind_SOk_inv in E1 as (s1 & g & G3 & E1). apply slift_SOk in G3 as [-> G3].
  destruct (mq_groups s !! Z.to_nat gid) as [g0|] eqn:Hg; [|done]. cbn in G3. injection G3 as ->. exists g. split; [done|].
  case_decide as Hin.
  - injection E1 as <- <-. left. rewrite sget_bind, Hg in H. by injection H as <- <-.
  - right. exists (mkMarketGroup (mg_name g) (mg_creation_key g) (mg_markets g ++ [m])).
    destruct (other_group _ _ _) as [[n [k x]]|] eqn:Ho; [done|]. injection E1 as <- <-. unfold other_group in Ho.
    rewrite sget_bind, Hg in H. cbn [expect negb] in H. rewrite slift_Ok_bind, smodify_bind in H.
    apply sbind_SOk_inv in H as (s2 & [] & E2 & H). injection H as <- <-. unfold on_seq in E2. rewrite record_eq in E2. injection E2 as <-.
    split_and!; [done|done|by apply not_eq_None_Some|by destruct (market_status _ m)| |done].
    apply list_find_None in Ho. apply Forall_lookup. intros n x Hx. destruct (decide (n = Z.to_nat gid)) as [->|Hne]; [by rewrite Hg in Hx; simplify_eq|].
    intros Hmx. rewrite Forall_lookup in Ho. apply (Ho n (n, x)); [|done]. apply lookup_zip_Some. split; [|done].
    apply lookup_seq. split; [done|]. by apply lookup_lt_Some in Hx.
Qed.

Lemma execute_resolution_SOk ids m y s s' u : execute_resolution ids m y s = SOk s' u →
  sq_market_groups s' = omap (shrink_group m) (sq_market_groups s) ∧
  ∃ affected, sq_pending_system_events s' = sq_pending_system_events s ++ [Sys.MarketResolved m y affected].
Proof.
  unfold execute_resolution. intros H. rewrite sget_bind in H. apply sbind_SOk_inv in H as (s1 & [] & E1 & H).
  assert (sq_market_groups s1 = sq_market_groups s ∧ sq_pending_system_events s1 = sq_pending_system_events s) as [Hg He].
  { revert E1. generalize (holders s ids m) as l. intros l. revert s. clear. induction l as [|x l IH]; intros s; cbn [sforeach]; [by intros [= <-]|].
    rewrite (sbind_SOk _ _ _ _ _ (capture_eq x s)). intros H. apply IH in H as [-> ->]. rewrite captured_events. split; [apply captured_frame|done]. }
  rewrite sget_bind in H. apply sbind_SOk_inv in H as (s2 & [acc aff] & E2 & H). apply slift_SOk in E2 as [-> _].
  rewrite smodify_bind, (sbind_SOk _ _ _ _ _ (record_eq _ _)) in H. injection H as <-. cbn. rewrite Hg, He. eauto.
Qed.

(** Both resolutions commit a record and shrink the groups. *)
Definition resolved_to (s s' : MarketSequencer) (m : MarketId) (r : ResolutionRecord) : Prop :=
  is_Some (ms_get (mq_markets s) m) ∧ market_status (mq_lifecycle s) m = Active ∧ rec_payout_nanos r ≤ NANOS_PER_DOLLAR ∧
  mq_lifecycle s' = commit_resolution m r (mq_lifecycle s) ∧ mq_markets s' = mq_markets s ∧
  mq_groups s' = omap (shrink_group m) (mq_groups s) ∧
  (∃ affected, sq_pending_system_events (mq_seq s') = sq_pending_system_events (mq_seq s) ++ [Sys.MarketResolved m (rec_payout_nanos r) affected]) ∧
  ∃ ids, execute_resolution ids m (rec_payout_nanos r) (mq_seq s) = SOk (mq_seq s') ().

Lemma lc_resolve_SOk m y t l l' r : lc_resolve_market m y t l = SOk l' r ↔
  market_status l m = Active ∧ y ≤ NANOS_PER_DOLLAR ∧ r = mkResolutionRecord y SourceIsAdmin t ∧ l' = commit_resolution m r l.
Proof.
  unfold lc_resolve_market, evaluate_admin_immediate. rewrite sget_bind. rewrite Z.gtb_ltb. destruct (Z.ltb_spec NANOS_PER_DOLLAR y).
  - split; [done|]. intros (_ & ? & _). lia.
  - destruct (market_status l m) eqn:Hs; cbn.
    + split; [intros [= <- <-]; naive_solver|intros (_ & _ & -> & ->); done].
    + split; [done|]. by intros [? _].
Qed.

Lemma attested_SOk m signed t l l' r : resolve_from_attestation m signed t l = SOk l' r ↔
  ∃ tpl feed, template_get (lc_templates l) (template_for_market l m) = Some tpl ∧
    resolve_pubkey (lc_feeds l) (sa_signer signed) = Some feed ∧ rt_policy tpl = Immediate (df_id feed) ∧
    att_market_id (sa_attestation signed) = m ∧ att_payout_nanos (sa_attestation signed) ≤ NANOS_PER_DOLLAR ∧
    market_status l m = Active ∧ r = mkResolutionRecord (att_payout_nanos (sa_attestation signed)) (SourceIsDataFeed (df_id feed)) t ∧
    l' = commit_resolution m r l.
Proof.
  unfold resolve_from_attestation, oracle. rewrite sget_bind.
  destruct (template_get _ _) as [tpl|]; [|by split; [|intros (? & ? & ? & _)]]. cbn [ok_or map_err]. rewrite slift_Ok_bind.
  destruct (rt_policy tpl) as [fid] eqn:Hpol. destruct (resolve_pubkey _ _) as [feed|]; [|by split; [|intros (? & ? & ? & ? & _)]].
  cbn [ok_or map_err]. cbv [mbind st_bind slift map_err mret st_ret smodify]. unfold evaluate_immediate. rewrite Z.gtb_ltb.
  destruct (decide (df_id feed ≠ fid)) as [Hne|Heq].
  { split; [done|]. intros (? & ? & ? & ? & ? & _). simplify_eq. congruence. }
  apply dec_stable in Heq as <-. destruct (Z.eqb_spec (att_market_id (sa_attestation signed)) m) as [Hm|Hm].
  2: { rewrite decide_True by done. split; [done|]. naive_solver. }
  rewrite decide_False by (by intros Hne). destruct (Z.ltb_spec NANOS_PER_DOLLAR (att_payout_nanos (sa_attestation signed))).
  { split; [done|]. intros (? & ? & _ & _ & _ & _ & ? & _). lia. }
  destruct (market_status l m) eqn:Hs; cbn.
  - split; [intros [= <- <-]; exists tpl, feed; naive_solver|]. intros (? & ? & ? & ? & _ & _ & _ & _ & -> & ->). by simplify_eq.
  - split; [done|]. naive_solver.
Qed.

Lemma resolved_SOk ids m s s' (lm : st MarketLifecycle SequencerError ResolutionRecord) r :
  (∀ l l' r, lm l = SOk l' r → market_status l m = Active ∧ rec_payout_nanos r ≤ NANOS_PER_DOLLAR ∧ l' = commit_resolution m r l) →
  (s ← sget;
   mguard (bool_decide (ms_get (mq_markets s) m = None)) (SeqErr.MarketNotFound m);;
   record ← on_lifecycle lm;
   on_seq (execute_resolution ids m (rec_payout_nanos record));; mret record) s = SOk s' r → resolved_to s s' m r.
Proof.
  intros Hlm H. rewrite sget_bind in H. apply sbind_SOk_inv in H as (s1 & [] & G & H). apply mguard_SOk in G as [-> G].
  apply bool_decide_eq_false in G. apply sbind_SOk_inv in H as (s1 & rec & E1 & H). unfold on_lifecycle in E1.
  destruct (lm (mq_lifecycle s)) as [l rr| |] eqn:El; [|done..]. injection E1 as <- <-. apply Hlm in El as (Ha & Hp & ->).
  apply sbind_SOk_inv in H as (s2 & [] & E2 & H). injection H as <- <-. unfold on_seq in E2.
  destruct (execute_resolution _ _ _ _) as [q []| |] eqn:Ex; [|done..]. injection E2 as <-. pose proof (execute_resolution_SOk _ _ _ _ _ _ Ex) as [Hg He].
  split_and!; try done; [by apply not_eq_None_Some|by exists ids].
Qed.

Lemma seq_resolve_SOk ids m y t s s' r : seq_resolve_market ids m y t s = SOk s' r → resolved_to s s' m r.
Proof. apply resolved_SOk. intros l l' rec (? & ? & -> & ->)%lc_resolve_SOk. done. Qed.

Lemma seq_attested_SOk ids m signed t s s' r : resolve_market_attested ids m signed t s = SOk s' r → resolved_to s s' m r.
Proof. apply resolved_SOk. intros l l' rec (? & ? & _ & _ & _ & _ & ? & ? & -> & ->)%attested_SOk. done. Qed.

(** ** The invariant *)

Record market_inv (s : MarketSequencer) : Prop := {
  mi_ids : ∀ id m, ms_markets (mq_markets s) !! id = Some m → mk_id m = id ∧ 0 ≤ id < ms_next_id (mq_markets s);
  mi_next : 0 ≤ ms_next_id (mq_markets s) ≤ int_max U32;
  mi_statuses : ∀ id st, lc_market_statuses (mq_lifecycle s) !! id = Some st →
    is_Some (ms_markets (mq_markets s) !! id) ∧ ∀ r, st = Resolved r → rec_payout_nanos r ≤ NANOS_PER_DOLLAR;
  mi_metadata : ∀ id md, lc_market_metadata (mq_lifecycle s) !! id = Some md → is_Some (ms_markets (mq_markets s) !! id);
  mi_keys : ∀ i j mi mj k, lc_market_metadata (mq_lifecycle s) !! i = Some mi → lc_market_metadata (mq_lifecycle s) !! j = Some mj →
    mm_creation_key mi = Some k → mm_creation_key mj = Some k → i = j;
  mi_disjoint : NoDup (concat (mg_markets <$> mq_groups s));
  mi_members : ∀ g m, g ∈ mq_groups s → m ∈ mg_markets g →
    is_Some (ms_get (mq_markets s) m) ∧ market_status (mq_lifecycle s) m = Active;
  mi_group_keys : NoDup (omap mg_creation_key (mq_groups s));
  mi_valid_keys : Forall (λ g, ∀ k, mg_creation_key g = Some k → operator_creation_key_is_valid k = true) (mq_groups s);
  mi_feeds : registry_ok (lc_feeds (mq_lifecycle s));
}.

(** One successful operation of the market component. *)
Inductive market_step (iter : gmap Z MarketMetadata → list (Z * MarketMetadata)) : MarketSequencer → MarketSequencer → Prop :=
  | mstep_create name s s' id : create_market name s = SOk s' id → market_step iter s s'
  | mstep_create_with name md s s' id : create_market_with_metadata iter name md s = SOk s' id → market_step iter s s'
  | mstep_group name ids s s' r : create_market_group name ids s = SOk s' r → market_step iter s s'
  | mstep_group_key name key ids s s' r : create_market_group_with_key name key ids s = SOk s' r → market_step iter s s'
  | mstep_extend gid m s s' r : 0 ≤ gid → extend_market_group gid m s = SOk s' r → market_step iter s s'
  | mstep_resolve ids m y t s s' r : seq_resolve_market ids m y t s = SOk s' r → market_step iter s s'
  | mstep_attest ids m signed t s s' r : resolve_market_attested ids m signed t s = SOk s' r → market_step iter s s'
  | mstep_feed pk name t s s' id : register_feed pk name t s = SOk s' id → market_step iter s s'
  | mstep_template tpl s s' u : install_template tpl s = SOk s' u → market_step iter s s'.

(** Creating a market. *)
Lemma create_market_SOk name s s' id : create_market name s = SOk s' id →
  id = ms_next_id (mq_markets s) ∧ int_min U32 ≤ id + 1 ≤ int_max U32 ∧
  s' = mkMarketSequencer (mq_seq s) (mkMarketSet (<[id := mkMarket id name]> (ms_markets (mq_markets s))) (id + 1)) (mq_lifecycle s).
Proof.
  unfold create_market, on_markets, add_binary. rewrite sget_bind. cbv [mbind st_bind slift]. 
  destruct (arith U32 _) as [n| |] eqn:Ha; [|done..]. apply arith_Ok in Ha as [-> Hr]. by intros [= <- <-].
Qed.

Lemma is_none_small id : id + 1 ≤ int_max U32 → is_none id = false.
Proof. intros H. unfold is_none. apply Z.eqb_neq. unfold MarketId_NONE. int_lia. Qed.

Lemma ms_get_insert k id name next j : ms_markets k !! id = None → is_none id = false →
  ms_get (mkMarketSet (<[id := mkMarket id name]> (ms_markets k)) next) j = if decide (id = j) then Some (mkMarket id name) else ms_get k j.
Proof.
  intros Hf Hn. unfold ms_get. cbn. rewrite lookup_insert. case_decide as Hj; [subst; by rewrite Hn|done].
Qed.

(** A market with new metadata under a key that is free. *)
Definition key_free (s : MarketSequencer) (md : option MarketMetadata) : Prop :=
  ∀ k j mj, md ≫= mm_creation_key = Some k → lc_market_metadata (mq_lifecycle s) !! j = Some mj → mm_creation_key mj ≠ Some k.

Lemma create_inv s name md (id := ms_next_id (mq_markets s)) (l := mq_lifecycle s) : market_inv s → int_min U32 ≤ id + 1 ≤ int_max U32 → key_free s md →
  market_inv (mkMarketSequencer (mq_seq s) (mkMarketSet (<[id := mkMarket id name]> (ms_markets (mq_markets s))) (id + 1))
    (match md with Some md => lc_set_market_metadata id md l | None => l end)).
Proof.
  intros [H1 Hnx H2 H3 H4 H5 H6 H7 Hv H8] Hr Hfree.
  assert (ms_markets (mq_markets s) !! id = None) as Hfresh.
  { destruct (_ !! id) eqn:E; [|done]. apply H1 in E as [_ E]. unfold id in E. lia. }
  assert (lc_market_metadata l !! id = None) as Hmd.
  { destruct (lc_market_metadata l !! id) eqn:E; [|done]. apply H3 in E as [? E]. congruence. }
  assert (∀ j, is_Some (ms_markets (mq_markets s) !! j) → is_Some (<[id := mkMarket id name]> (ms_markets (mq_markets s)) !! j)) as Hmono.
  { intros j [x Hx]. rewrite lookup_insert. case_decide; eauto. }
  set (l' := match md with Some _ => _ | None => _ end).
  assert (lc_market_statuses l' = lc_market_statuses l ∧ lc_feeds l' = lc_feeds l) as [Hst Hfd] by (by destruct md).
  split; cbn [mq_markets mq_lifecycle mq_seq ms_markets ms_next_id mq_groups]; rewrite ?Hst, ?Hfd; try done.
  - intros j x. rewrite lookup_insert_Some. unfold id. intros [[<- <-]|[_ Hx]]; [cbn; lia|]. apply H1 in Hx. lia.
  - intros j st Hj. destruct (H2 j st Hj). eauto.
  - intros j x. unfold l'. destruct md as [md|]; cbn; [|intros Hx; eauto]. rewrite lookup_insert_Some.
    intros [[<- _]|[_ Hx]]; [by rewrite lookup_insert_eq|eauto].
  - intros i j mi mj k. unfold l'. destruct md as [md|]; cbn; [|apply H4]. rewrite !lookup_insert_Some.
    intros [[<- <-]|[_ Hi]] [[<- <-]|[_ Hj]] Hki Hkj; [done| | |by eapply H4]; exfalso.
    + by apply (Hfree k j mj).
    + by apply (Hfree k i mi).
  - intros g m Hg Hm. destruct (H6 g m Hg Hm) as [Hex Ha]. unfold market_status. rewrite Hst.
    rewrite ms_get_insert by (done || apply is_none_small; int_lia). case_decide; [|done]. split; [eauto|]. done.
Qed.

(** ** Canonical member lists *)

Lemma dedup_elem l x : x ∈ dedup l ↔ x ∈ l.
Proof.
  induction l as [|y l IH]; [done|]. cbn [dedup]. destruct l as [|z l]; [done|]. case_decide as Hyz.
  - rewrite IH. subst. set_solver.
  - rewrite elem_of_cons, IH. set_solver.
Qed.

Lemma dedup_sorted l : StronglySorted Z.le l → StronglySorted Z.lt (dedup l).
Proof.
  induction 1 as [|x l Hs IH Hx]; [constructor|]. cbn [dedup]. destruct l as [|y l]; [repeat constructor|]. case_decide as Hxy; [done|].
  constructor; [done|]. apply Forall_forall. intros z Hz. rewrite dedup_elem in Hz. rewrite Forall_forall in Hx.
  assert (x < y) by (specialize (Hx y ltac:(left)); lia). apply elem_of_cons in Hz as [->|Hz]; [done|].
  apply StronglySorted_inv in Hs as [_ Hy]. rewrite Forall_forall in Hy. specialize (Hy z Hz). lia.
Qed.

Lemma canonical_sorted ids : StronglySorted Z.lt (canonical_markets ids).
Proof. apply dedup_sorted. apply Sorted_StronglySorted; [intros ???; apply Z.le_trans|]. apply Sorted_stable_sort. intros x y. lia. Qed.

Lemma canonical_NoDup ids : NoDup (canonical_markets ids).
Proof.
  pose proof (canonical_sorted ids) as H. induction H as [|x l _ IH Hx]; [constructor|]. constructor; [|done].
  intros Hin. rewrite Forall_forall in Hx. specialize (Hx x Hin). lia.
Qed.

(** ** Preservation *)

Lemma members_elem gs m : m ∈ concat (mg_markets <$> gs) ↔ ∃ g, g ∈ gs ∧ m ∈ mg_markets g.
Proof.
  induction gs as [|g gs IH]; cbn; [set_solver|]. rewrite elem_of_app, IH. setoid_rewrite elem_of_cons. naive_solver.
Qed.

Lemma concat_snoc_NoDup gs g : NoDup (concat (mg_markets <$> gs)) → NoDup (mg_markets g) →
  (∀ m, m ∈ mg_markets g → Forall (λ g', m ∉ mg_markets g') gs) → NoDup (concat (mg_markets <$> gs ++ [g])).
Proof.
  intros Hd Hg Hm. rewrite fmap_app, concat_app. cbn. rewrite app_nil_r. apply NoDup_app. split_and!; [done| |done].
  intros m Hin Hmg. apply Hm in Hmg. apply members_elem in Hin as (g' & Hg' & Hin). rewrite Forall_forall in Hmg. by apply (Hmg g').
Qed.

Lemma group_inv name key ids s s' r : market_inv s → create_market_group_with_key name key ids s = SOk s' r → market_inv s'.
Proof.
  intros Hinv [[-> _]|(g & -> & _ & -> & Hk & Hm)]%create_group_SOk; [done|].
  destruct Hinv as [H1 Hnx H2 H3 H4 H5 H6 H7 Hv H8]. split; try done.
  - cbn. apply concat_snoc_NoDup; [done|apply canonical_NoDup|]. cbn. intros m Hin. by apply Hm.
  - intros g m. cbn. rewrite elem_of_app, list_elem_of_singleton. intros [Hg| ->] Hmg; [by eapply H6|]. by apply Hm in Hmg as (? & ? & _).
  - cbn. rewrite omap_app. cbn. destruct key as [k|]; cbn; [|by rewrite app_nil_r]. apply NoDup_app. split_and!; [done| |by repeat constructor; apply not_elem_of_nil].
    intros x Hx. rewrite list_elem_of_singleton. intros ->. apply list_elem_of_omap in Hx as (g' & Hg' & Hkey).
    destruct (Hk k eq_refl) as [_ Hk']. rewrite Forall_forall in Hk'. by apply (Hk' g').
  - cbn. apply Forall_app. split; [done|]. apply Forall_singleton. cbn. intros k Hkey. by destruct (Hk k Hkey).
Qed.

Lemma concat_insert_NoDup gs i g m : NoDup (concat (mg_markets <$> gs)) → gs !! i = Some g → Forall (λ g', m ∉ mg_markets g') gs →
  NoDup (concat (mg_markets <$> <[i := mkMarketGroup (mg_name g) (mg_creation_key g) (mg_markets g ++ [m])]> gs)).
Proof.
  intros Hd Hg Hm. assert (concat (mg_markets <$> <[i := mkMarketGroup (mg_name g) (mg_creation_key g) (mg_markets g ++ [m])]> gs)
    ≡ₚ m :: concat (mg_markets <$> gs)) as ->.
  { clear Hd Hm. revert i Hg. induction gs as [|h gs IH]; intros [|i] Hg; cbn in *; simplify_eq.
    - cbn. rewrite <- (assoc_L (++)). by rewrite Permutation_middle.
    - rewrite (IH i Hg). by rewrite Permutation_middle. }
  constructor; [|done]. intros Hin. apply members_elem in Hin as (g' & Hg' & Hin). rewrite Forall_forall in Hm. by apply (Hm g').
Qed.

Lemma extend_inv gid m s s' r : market_inv s → extend_market_group gid m s = SOk s' r → market_inv s'.
Proof.
  intros Hinv (g & Hg & [(_ & _ & ->)|(g' & _ & -> & Hex & Ha & Hm & ->)])%extend_SOk; [done|].
  destruct Hinv as [H1 Hnx H2 H3 H4 H5 H6 H7 Hv H8]. split; try done.
  - cbn. by apply concat_insert_NoDup.
  - intros h x. cbn. intros Hh Hx. apply list_elem_of_lookup_1 in Hh as (j & Hj). apply list_lookup_insert_Some in Hj as [(<- & <- & _)|[_ Hj]].
    + cbn in Hx. apply elem_of_app in Hx as [Hx|Hx%list_elem_of_singleton]; [|by subst]. apply (H6 g); [by eapply list_elem_of_lookup_2|done].
    + apply (H6 h); [by eapply list_elem_of_lookup_2|done].
  - cbn. assert (omap mg_creation_key (<[Z.to_nat gid := mkMarketGroup (mg_name g) (mg_creation_key g) (mg_markets g ++ [m])]> (mq_groups s))
      = omap mg_creation_key (mq_groups s)) as ->; [|done].
    revert Hg. generalize (mq_groups s) (Z.to_nat gid). intros gs i. clear. revert i. induction gs as [|h gs IH]; intros [|i] Hg; cbn in *; simplify_eq; [done|].
    by rewrite IH.
  - cbn. apply Forall_insert; [done|]. cbn. rewrite Forall_lookup in Hv. by apply (Hv _ _ Hg).
Qed.

Lemma shrink_group_Some m g g' : shrink_group m g = Some g' →
  mg_name g' = mg_name g ∧ mg_creation_key g' = mg_creation_key g ∧ mg_markets g' = filter (λ x, x ≠ m) (mg_markets g).
Proof.
  unfold shrink_group. case_decide as Hm.
  - destruct (_ <=? _); [|done]. by intros [= <-].
  - intros [= <-]. split_and!; try done. induction (mg_markets g) as [|x l IH]; [done|]. rewrite filter_cons, decide_True by set_solver.
    f_equal. apply IH. set_solver.
Qed.

Lemma shrink_sublist m gs : sublist (concat (mg_markets <$> omap (shrink_group m) gs)) (concat (mg_markets <$> gs)) ∧
  sublist (omap mg_creation_key (omap (shrink_group m) gs)) (omap mg_creation_key gs).
Proof.
  induction gs as [|g gs [IH1 IH2]]; [done|]. cbn. destruct (shrink_group m g) as [g'|] eqn:Hg; cbn.
  - apply shrink_group_Some in Hg as (_ & Hk & Hms). rewrite Hms, Hk. split; [apply sublist_app; [apply sublist_filter|done]|].
    destruct (mg_creation_key g); [by apply sublist_skip|done].
  - split; [by apply sublist_inserts_l|]. destruct (mg_creation_key g); [by apply sublist_cons|done].
Qed.

Lemma resolve_inv s s' m r : market_inv s → resolved_to s s' m r → market_inv s'.
Proof.
  intros [H1 Hnx H2 H3 H4 H5 H6 H7 Hv H8] (Hex & Ha & Hp & Hl & Hm & Hg & _). destruct (shrink_sublist m (mq_groups s)) as [S1 S2].
  split; rewrite ?Hm, ?Hl, ?Hg; try done.
  - intros id st. cbn. rewrite lookup_insert_Some. intros [[<- <-]|[_ Hst]]; [|by apply H2]. split; [|by intros ? [= <-]].
    unfold ms_get in Hex. destruct (is_none m); [by destruct Hex|done].
  - by eapply sublist_NoDup.
  - intros g x Hin Hx. apply list_elem_of_omap in Hin as (g0 & Hg0 & Hs). apply shrink_group_Some in Hs as (_ & _ & Hms).
    rewrite Hms in Hx. apply list_elem_of_filter in Hx as [Hne Hx]. destruct (H6 g0 x Hg0 Hx) as [? Hax]. split; [done|].
    unfold market_status, commit_resolution, set_market_status. cbn. by rewrite lookup_insert_ne.
  - by eapply sublist_NoDup.
  - apply Forall_forall. intros g Hin k Hk. apply list_elem_of_omap in Hin as (g0 & Hg0 & Hs). apply shrink_group_Some in Hs as (_ & Hkey & _).
    rewrite Forall_forall in Hv. apply (Hv g0 Hg0). congruence.
Qed.

Lemma existing_None iter name md s s' : (∀ m, iter m ≡ₚ map_to_list m) → existing_market_for_creation iter name md s = SOk s' None → key_free s (Some md).
Proof.
  intros Hiter H k j mj Hk Hj Hkj. cbn in Hk. unfold existing_market_for_creation in H. rewrite Hk in H.
  apply sbind_SOk_inv in H as (s1 & [] & E & H). pose proof (pure_slift _ _ _ _ E) as ->. rewrite sget_bind in H.
  destruct (list_find _ _) as [[n [id e]]|] eqn:Hf.
  - apply sbind_SOk_inv in H as (s2 & mk & _ & H). by destruct (_ && _).
  - apply list_find_None in Hf. rewrite Forall_forall in Hf. apply (Hf (j, mj)); [|done]. rewrite Hiter. by apply elem_of_map_to_list.
Qed.

Lemma create_with_SOk iter name md s s' id : create_market_with_metadata iter name md s = SOk s' id →
  (s' = s ∧ existing_market_for_creation iter name md s = SOk s (Some id)) ∨
  (existing_market_for_creation iter name md s = SOk s None ∧ id = ms_next_id (mq_markets s) ∧ int_min U32 ≤ id + 1 ≤ int_max U32 ∧
   s' = mkMarketSequencer (mq_seq s) (mkMarketSet (<[id := mkMarket id name]> (ms_markets (mq_markets s))) (id + 1))
          (lc_set_market_metadata id md (mq_lifecycle s))).
Proof.
  unfold create_market_with_metadata. intros H. apply sbind_SOk_inv in H as (s1 & e & E & H). pose proof (existing_market_pure _ _ _ _ _ _ E) as ->.
  destruct e as [i|]; [injection H as <- <-; by left|]. right. apply sbind_SOk_inv in H as (s1 & i & E1 & H).
  apply create_market_SOk in E1 as (-> & Hr & ->). unfold set_market_metadata in H. rewrite smodify_bind in H. injection H as <- <-. done.
Qed.

Lemma market_step_inv iter s s' : (∀ m, iter m ≡ₚ map_to_list m) → market_step iter s s' → market_inv s → market_inv s'.
Proof.
  intros Hiter Hstep Hinv. destruct Hstep as [name s s' id H|name md s s' id H|name ids s s' r H|name key ids s s' r H|gid m s s' r Hgid H
    |ids m y t s s' r H|ids m signed t s s' r H|pk name t s s' id H|tpl s s' u H].
  - apply create_market_SOk in H as (-> & Hr & ->). by apply (create_inv s name None).
  - apply create_with_SOk in H as [[-> _]|(He & -> & Hr & ->)]; [done|]. apply (create_inv s name (Some md)); [done|done|]. by eapply existing_None.
  - eapply group_inv; [done|]. unfold create_market_group in H. destruct (create_market_group_with_key _ _ _ _) eqn:E; [|done..]. by simplify_eq.
  - by eapply group_inv.
  - by eapply extend_inv.
  - by eapply resolve_inv, seq_resolve_SOk.
  - by eapply resolve_inv, seq_attested_SOk.
  - unfold register_feed in H. destruct (register _ _ _ _) as [fr i| |] eqn:E; [|done..]. injection H as <- <-.
    apply register_spec in E as [Hok _]; [|apply Hinv]. destruct Hinv. by split.
  - injection H as <-. destruct Hinv. by split.
Qed.

(** ** What a step keeps *)

(** A market keeps its name and metadata, and a resolution its record. *)
Record market_kept (s s' : MarketSequencer) : Prop := {
  mk_names : ms_markets (mq_markets s) ⊆ ms_markets (mq_markets s');
  mk_metadata : ∀ id, is_Some (ms_markets (mq_markets s) !! id) → lc_market_metadata (mq_lifecycle s') !! id = lc_market_metadata (mq_lifecycle s) !! id;
  mk_resolved : ∀ id r, market_status (mq_lifecycle s) id = Resolved r → market_status (mq_lifecycle s') id = Resolved r;
}.

#[global] Instance market_kept_preorder : PreOrder market_kept.
Proof.
  split; [by split|]. intros s1 s2 s3 [N1 M1 R1] [N2 M2 R2]. split; [by etrans| |by eauto].
  intros id Hid. rewrite M2 by (destruct Hid as [x Hx]; exists x; by eapply lookup_weaken). by apply M1.
Qed.

Lemma kept_get s s' id x : market_kept s s' → ms_get (mq_markets s) id = Some x → ms_get (mq_markets s') id = Some x.
Proof. intros [N _ _]. unfold ms_get. destruct (is_none id); [done|]. intros Hx. by eapply lookup_weaken. Qed.

Lemma created_kept s name md (id := ms_next_id (mq_markets s)) (l := mq_lifecycle s) : market_inv s → int_min U32 ≤ id + 1 ≤ int_max U32 →
  market_kept s (mkMarketSequencer (mq_seq s) (mkMarketSet (<[id := mkMarket id name]> (ms_markets (mq_markets s))) (id + 1))
    (match md with Some md => lc_set_market_metadata id md l | None => l end)).
Proof.
  intros Hinv Hr. assert (ms_markets (mq_markets s) !! id = None) as Hfresh.
  { destruct (_ !! id) eqn:E; [|done]. apply (mi_ids _ Hinv) in E as [_ E]. unfold id in E. lia. }
  split; cbn [mq_markets mq_lifecycle].
  - by apply insert_subseteq.
  - intros j [x Hx]. destruct md; [|done]. cbn. rewrite lookup_insert_ne; [done|]. congruence.
  - by destruct md.
Qed.

Lemma resolved_kept s s' m r : resolved_to s s' m r → market_kept s s'.
Proof.
  intros (_ & Ha & _ & Hl & Hm & _). split; rewrite ?Hm, ?Hl; try done. intros id x Hx. unfold market_status in *. cbn.
  rewrite lookup_insert_ne; [done|]. intros ->. congruence.
Qed.

Lemma market_step_kept iter s s' : market_step iter s s' → market_inv s → market_kept s s'.
Proof.
  intros Hstep Hinv. destruct Hstep as [name s s' id H|name md s s' id H|name ids s s' r H|name key ids s s' r H|gid m s s' r Hgid H
    |ids m y t s s' r H|ids m signed t s s' r H|pk name t s s' id H|tpl s s' u H].
  - apply create_market_SOk in H as (-> & Hr & ->). by apply (created_kept s name None).
  - apply create_with_SOk in H as [[-> _]|(_ & -> & Hr & ->)]; [done|]. by apply (created_kept s name (Some md)).
  - unfold create_market_group in H. destruct (create_market_group_with_key _ _ _ _) eqn:E; [|done..]. simplify_eq.
    apply create_group_SOk in E as [[-> _]|(g & _ & _ & -> & _)]; [done|by split].
  - apply create_group_SOk in H as [[-> _]|(g & _ & _ & -> & _)]; [done|by split].
  - apply extend_SOk in H as (g & _ & [(_ & _ & ->)|(g' & _ & _ & _ & _ & _ & ->)]); [done|by split].
  - by eapply resolved_kept, seq_resolve_SOk.
  - by eapply resolved_kept, seq_attested_SOk.
  - unfold register_feed in H. destruct (register _ _ _ _) as [fr i| |]; [|done..]. injection H as <- <-. by split.
  - injection H as <-. by split.
Qed.

Section runs.
Context (iter : gmap Z MarketMetadata → list (Z * MarketMetadata)) (iter_perm : ∀ m, iter m ≡ₚ map_to_list m).

Lemma market_steps_inv s s' : rtc (market_step iter) s s' → market_inv s → market_inv s' ∧ market_kept s s'.
Proof.
  induction 1 as [s|s s1 s' H _ IH]; intros Hinv; [done|]. destruct IH as [? ?]; [by eapply market_step_inv|].
  split; [done|]. etrans; [by eapply market_step_kept|done].
Qed.

Lemma market_init_inv q : sq_market_groups q = [] → market_inv (mkMarketSequencer q MarketSet_new MarketLifecycle_new).
Proof.
  intros Hg. split; unfold mq_groups; cbn; rewrite ?Hg; try (by intros *; rewrite lookup_empty); try (by constructor); try int_lia.
  intros g m. by rewrite elem_of_nil.
Qed.

(** C19: whatever sequence of market operations succeeds from an empty market set
    (creation with or without metadata and keys, groups, extensions, resolutions
    by the administrator or by attestation, feeds and templates), the groups are
    disjoint sets without repetition of markets that exist and still trade, no two
    markets and no two groups share a creation key, every status and every
    metadata entry belongs to a market, payouts are at most one dollar, and the
    feed registry is a bijection between keys and feeds. *)
Theorem market_state_invariant q s : sq_market_groups q = [] →
  rtc (market_step iter) (mkMarketSequencer q MarketSet_new MarketLifecycle_new) s → market_inv s.
Proof. intros Hq Hrun. by apply (market_steps_inv _ s Hrun), market_init_inv. Qed.

(** A resolution is final.  Once a market is resolved, no later run of market
    operations changes its record or lists it in a group; a second resolution by
    the administrator with an admissible payout fails with [AlreadyResolved] and
    changes nothing, and no attestation, whoever signed it, succeeds. *)
Theorem resolution_is_final ids m y t s s1 r s2 : market_inv s → seq_resolve_market ids m y t s = SOk s1 r → rtc (market_step iter) s1 s2 →
  market_status (mq_lifecycle s2) m = Resolved r ∧ Forall (λ g, m ∉ mg_markets g) (mq_groups s2) ∧
  (∀ ids' y' t', y' ≤ NANOS_PER_DOLLAR → seq_resolve_market ids' m y' t' s2 = SErr s2 (SeqErr.OracleRejected Oracle.AlreadyResolved)) ∧
  (∀ ids' signed t' s3 r', resolve_market_attested ids' m signed t' s2 ≠ SOk s3 r').
Proof.
  intros Hinv Hres Hrun. pose proof (seq_resolve_SOk _ _ _ _ _ _ _ Hres) as Hto.
  destruct (market_steps_inv _ _ Hrun (resolve_inv _ _ _ _ Hinv Hto)) as [Hinv2 Hkept].
  destruct Hto as (Hex & Ha & Hp & Hl & Hm & _).
  assert (market_status (mq_lifecycle s2) m = Resolved r) as Hst.
  { apply Hkept. rewrite Hl. unfold market_status. cbn. by rewrite lookup_insert_eq. }
  destruct Hex as [x Hx]. rewrite <- Hm in Hx. apply (kept_get _ _ _ _ Hkept) in Hx. split_and!; [done| | |].
  - apply Forall_forall. intros g Hg2 Hmg. destruct (mi_members _ Hinv2 g m Hg2 Hmg) as [_ ?]. congruence.
  - intros ids' y' t' Hy. unfold seq_resolve_market. rewrite sget_bind, bool_decide_eq_false_2 by congruence.
    unfold mguard, on_lifecycle, lc_resolve_market, evaluate_admin_immediate. cbv [mbind st_bind sget mret st_ret]. rewrite Hst.
    rewrite Z.gtb_ltb, (proj2 (Z.ltb_ge _ _)) by lia. cbn. by destruct s2.
  - intros ids' signed t' s3 r' H. apply seq_attested_SOk in H as (_ & H & _). congruence.
Qed.

Lemma existing_Some name md s id : existing_market_for_creation iter name md s = SOk s (Some id) →
  ∃ e x, lc_market_metadata (mq_lifecycle s) !! id = Some e ∧ is_Some (mm_creation_key md) ∧ mm_creation_key e = mm_creation_key md ∧
    ms_get (mq_markets s) id = Some x ∧ mk_name x = name ∧ same_creation_fields e md = true.
Proof.
  unfold existing_market_for_creation. destruct (mm_creation_key md) as [k|]; [|done]. intros H.
  apply sbind_SOk_inv in H as (s1 & [] & E & H). pose proof (pure_slift _ _ _ _ E) as ->. rewrite sget_bind in H.
  destruct (list_find _ _) as [[n [i e]]|] eqn:Hf; [|done]. apply list_find_Some in Hf as (Hn & Hk & _).
  apply list_elem_of_lookup_2 in Hn. rewrite iter_perm, elem_of_map_to_list in Hn.
  apply sbind_SOk_inv in H as (s2 & x & E2 & H). apply slift_SOk in E2 as [-> E2]. destruct (ms_get (mq_markets s) i) as [x'|] eqn:Hx; [|done].
  injection E2 as ->. case_bool_decide as Hname; [|done]. destruct (same_creation_fields e md) eqn:Hs; [|done]. injection H as <-. eauto 10.
Qed.

(** The key of a stored market finds that market. *)
Lemma existing_by_key name md s id e x k : market_inv s → lc_market_metadata (mq_lifecycle s) !! id = Some e → ms_get (mq_markets s) id = Some x →
  mm_creation_key e = Some k → mm_creation_key md = Some k → validate_market_creation_key k = Ok () →
  existing_market_for_creation iter name md s =
    if bool_decide (mk_name x = name) && same_creation_fields e md then SOk s (Some id) else SErr s (SeqErr.MarketCreationKeyConflict k id).
Proof.
  intros Hinv He Hx Hke Hk Hv. unfold existing_market_for_creation. rewrite Hk, Hv, slift_Ok_bind, sget_bind.
  destruct (list_find _ _) as [[n [i e']]|] eqn:Hf.
  - apply list_find_Some in Hf as (Hn & Hk' & _). apply list_elem_of_lookup_2 in Hn. rewrite iter_perm, elem_of_map_to_list in Hn.
    assert (i = id) as -> by (by eapply (mi_keys _ Hinv)). rewrite He in Hn. injection Hn as <-. rewrite Hx. cbn [ok_or]. rewrite slift_Ok_bind.
    by destruct (_ && _).
  - apply list_find_None in Hf. rewrite Forall_forall in Hf. destruct (Hf (id, e)); [|done]. by rewrite iter_perm, elem_of_map_to_list.
Qed.

Lemma same_fields_refl md : same_creation_fields md md = true.
Proof. unfold same_creation_fields. rewrite !bool_decide_eq_true_2, Z.eqb_refl by done. done. Qed.

Lemma existing_valid name md s r k : existing_market_for_creation iter name md s = SOk s r → mm_creation_key md = Some k →
  validate_market_creation_key k = Ok ().
Proof.
  unfold existing_market_for_creation. intros H Hk. rewrite Hk in H. apply sbind_SOk_inv in H as (s1 & [] & E & _). by apply slift_SOk in E as [_ ?].
Qed.

(** Creation under a key is idempotent.  After a market was created under a
    key, a retry of the same request at any later point of the run returns the
    same identifier and changes nothing; a request that reuses the key for
    another name or for metadata that differs from the stored ones is refused
    with a conflict naming that market, and changes nothing. *)
Theorem keyed_creation_idempotent name md k s s1 id s2 : market_inv s → mm_creation_key md = Some k →
  create_market_with_metadata iter name md s = SOk s1 id → rtc (market_step iter) s1 s2 →
  create_market_with_metadata iter name md s2 = SOk s2 id ∧
  ∃ e, lc_market_metadata (mq_lifecycle s2) !! id = Some e ∧
    ∀ name' md', mm_creation_key md' = Some k → name' ≠ name ∨ same_creation_fields e md' = false →
      create_market_with_metadata iter name' md' s2 = SErr s2 (SeqErr.MarketCreationKeyConflict k id).
Proof.
  intros Hinv Hk Hc Hrun. assert (market_inv s1) as Hinv1 by (eapply market_step_inv; [done|by eapply mstep_create_with|done]).
  destruct (market_steps_inv _ _ Hrun Hinv1) as [Hinv2 Hkept].
  assert (validate_market_creation_key k = Ok () ∧ ∃ e x, lc_market_metadata (mq_lifecycle s1) !! id = Some e ∧ mm_creation_key e = Some k ∧
    ms_get (mq_markets s1) id = Some x ∧ mk_name x = name ∧ same_creation_fields e md = true) as (Hv & e & x & He & Hke & Hx & Hn & Hs).
  { apply create_with_SOk in Hc as [[-> H]|(H & -> & Hr & ->)]; (split; [by eapply existing_valid|]).
    - apply existing_Some in H as (e & x & ? & _ & ? & ? & ? & ?). exists e, x. by rewrite <- Hk.
    - exists md, (mkMarket (ms_next_id (mq_markets s)) name). cbn. rewrite lookup_insert_eq. split_and!; try done; [|apply same_fields_refl].
      unfold ms_get. cbn. by rewrite is_none_small, lookup_insert_eq by lia. }
  rewrite <- (mk_metadata _ _ Hkept) in He by (by eapply (mi_metadata _ Hinv1)). apply (kept_get _ _ _ _ Hkept) in Hx.
  assert (∀ name' md', mm_creation_key md' = Some k → existing_market_for_creation iter name' md' s2 =
    if bool_decide (name = name') && same_creation_fields e md' then SOk s2 (Some id) else SErr s2 (SeqErr.MarketCreationKeyConflict k id)) as Hex.
  { intros name' md' Hk'. rewrite <- Hn. by apply existing_by_key. }
  split; [|exists e; split; [done|]].
  - unfold create_market_with_metadata, mbind, st_bind. rewrite (Hex name md Hk), bool_decide_eq_true_2, Hs by done. done.
  - intros name' md' Hk' Hdiff. unfold create_market_with_metadata, mbind, st_bind. rewrite (Hex name' md' Hk').
    destruct Hdiff as [Hne| ->]; [by rewrite bool_decide_eq_false_2|]. by rewrite andb_false_r.
Qed.
End runs.

(** An attested resolution succeeds exactly when the market's template (the
    administrator template when it has none) is installed and names a registered
    feed, the attestation is signed under that feed's key, concerns this market,
    promises at most one dollar, and the market still trades; the record then
    holds the attested payout and that feed, and only the market's status
    changes. *)
Theorem attested_resolution_exact m signed t l l' r : registry_ok (lc_feeds l) →
  resolve_from_attestation m signed t l = SOk l' r ↔
  ∃ fid feed, template_get (lc_templates l) (template_for_market l m) = Some (mkResolutionTemplate fid (Immediate (df_id feed))) ∧
    feed_get (lc_feeds l) (df_id feed) = Some feed ∧ df_pubkey feed = sa_signer signed ∧
    att_market_id (sa_attestation signed) = m ∧ att_payout_nanos (sa_attestation signed) ≤ NANOS_PER_DOLLAR ∧ market_status l m = Active ∧
    r = mkResolutionRecord (att_payout_nanos (sa_attestation signed)) (SourceIsDataFeed (df_id feed)) t ∧
    l' = commit_resolution m r l.
Proof.
  intros [H1 H2]. rewrite attested_SOk. unfold resolve_pubkey, feed_get. split.
  - intros ([tid pol] & feed & Ht & Hr & Hp & ?). cbn in Hp. subst pol. exists tid, feed. apply bind_Some in Hr as (i & Hi & Hf).
    destruct (H1 i feed Hf) as (<- & _). destruct (H2 _ _ Hi) as (f & Hf' & Hpk). rewrite Hf in Hf'. injection Hf' as <-. done.
  - intros (tid & feed & Ht & Hf & Hpk & ?). exists (mkResolutionTemplate tid (Immediate (df_id feed))), feed. split_and!; try done; try by naive_solver.
    apply bind_Some. exists (df_id feed). split; [|done]. destruct (H1 _ _ Hf) as (_ & Hb & _). by rewrite <- Hpk.
Qed.

(** ** Witnesses *)

(** Three markets, the first under a key, grouped; a fourth joins the group; the
    second market resolves. *)
Definition ex_md (key : option string) : MarketMetadata := mkMarketMetadata "who wins" "sport" ["b"; "a"]%string "official result" 0 0 None key None.
Definition ex_q : Sequencer :=
  mkSequencer (AccountStore_new (λ _, [])) (OrderBook_new 100) 1 ∅ (BridgeState_default (λ _, [])) [] ∅ [].
Definition ex_m0 : MarketSequencer := mkMarketSequencer ex_q MarketSet_new MarketLifecycle_new.
Definition after {A} (m : st MarketSequencer SequencerError A) (s : MarketSequencer) : MarketSequencer :=
  match m s with SOk s' _ => s' | _ => s end.
Definition ex_m1 : MarketSequencer := after (create_market_with_metadata map_to_list "A" (ex_md (Some "k1"%string))) ex_m0.
Definition ex_m2 : MarketSequencer := after (create_market "C") (after (create_market "B") ex_m1).
Definition ex_m3 : MarketSequencer := after (create_market_group_with_key "race" (Some "g1"%string) [2; 0; 2]) ex_m2.
Definition ex_m4 : MarketSequencer := after (extend_market_group 0 1) ex_m3.
Definition ex_m5 : MarketSequencer := after (seq_resolve_market [] 2 700 5) ex_m4.

Definition gets_ok {A} (m : st MarketSequencer SequencerError A) (s : MarketSequencer) : bool :=
  match m s with SOk _ _ => true | _ => false end.

Lemma step_after {A} (m : st MarketSequencer SequencerError A) s : gets_ok m s = true → ∃ a, m s = SOk (after m s) a.
Proof. unfold gets_ok, after. destruct (m s) as [s' a| |]; [by exists a|done..]. Qed.

Lemma ex_run1 : rtc (market_step map_to_list) ex_m0 ex_m1.
Proof. apply rtc_once. destruct (step_after (create_market_with_metadata map_to_list "A" (ex_md (Some "k1"%string))) ex_m0) as [a Ha]; [by vm_compute|]. by eapply mstep_create_with. Qed.
Lemma ex_run4 : rtc (market_step map_to_list) ex_m1 ex_m4.
Proof.
  destruct (step_after (create_market "B") ex_m1) as [a1 H1]; [by vm_compute|].
  destruct (step_after (create_market "C") (after (create_market "B") ex_m1)) as [a2 H2]; [by vm_compute|].
  destruct (step_after (create_market_group_with_key "race" (Some "g1"%string) [2; 0; 2]) ex_m2) as [a3 H3]; [by vm_compute|].
  destruct (step_after (extend_market_group 0 1) ex_m3) as [a4 H4]; [by vm_compute|].
  eapply rtc_l; [by eapply mstep_create|]. eapply rtc_l; [by eapply mstep_create|]. eapply rtc_l; [by eapply mstep_group_key|].
  apply rtc_once. by eapply mstep_extend.
Qed.
Lemma ex_resolves : ∃ r, seq_resolve_market [] 2 700 5 ex_m4 = SOk ex_m5 r.
Proof. apply step_after. by vm_compute. Qed.
Lemma ex_m4_inv : market_inv ex_m4.
Proof.
  eapply market_steps_inv; [|etrans; [apply ex_run1|apply ex_run4]|by apply market_init_inv]. done.
Qed.
Lemma ex_m4_groups : mq_groups ex_m4 = [mkMarketGroup "race" (Some "g1"%string) [0; 2; 1]].
Proof. by vm_compute. Qed.

Lemma market_state_invariant_witness : mq_groups ex_m4 = [mkMarketGroup "race" (Some "g1"%string) [0; 2; 1]] ∧ market_inv ex_m4.
Proof.
  split; [apply ex_m4_groups|]. apply (market_state_invariant map_to_list (λ m, reflexivity _) ex_q ex_m4); [reflexivity|].
  etrans; [apply ex_run1|apply ex_run4].
Defined.

Lemma resolution_is_final_witness : ∃ r, market_status (mq_lifecycle ex_m5) 2 = Resolved r ∧
  seq_resolve_market [] 2 0 9 ex_m5 = SErr ex_m5 (SeqErr.OracleRejected Oracle.AlreadyResolved).
Proof.
  destruct ex_resolves as [r Hr]. exists r.
  destruct (resolution_is_final map_to_list (λ m, reflexivity _) [] 2 700 5 ex_m4 ex_m5 r ex_m5 ex_m4_inv Hr (rtc_refl _ _)) as (H1 & _ & H2 & _).
  split; [exact H1|]. apply H2. unfold NANOS_PER_DOLLAR. lia.
Defined.

Lemma ex_created : ∃ id, create_market_with_metadata map_to_list "A" (ex_md (Some "k1"%string)) ex_m0 = SOk ex_m1 id.
Proof. apply step_after. by vm_compute. Qed.

Lemma keyed_creation_idempotent_witness : ∃ id,
  create_market_with_metadata map_to_list "A" (ex_md (Some "k1"%string)) ex_m4 = SOk ex_m4 id ∧
  create_market_with_metadata map_to_list "Z" (ex_md (Some "k1"%string)) ex_m4 = SErr ex_m4 (SeqErr.MarketCreationKeyConflict "k1" id).
Proof.
  destruct ex_created as [id Hid]. exists id.
  destruct (keyed_creation_idempotent map_to_list (λ m, reflexivity _) "A" (ex_md (Some "k1"%string)) "k1" ex_m0 ex_m1 id ex_m4
    (market_init_inv ex_q eq_refl) eq_refl Hid ex_run4) as (H1 & e & _ & H2).
  split; [exact H1|]. apply H2; [reflexivity|]. left. discriminate.
Defined.

(** A feed with key [07], the template of market 0 and an attestation for it. *)
Definition ex_feed : DataFeed := mkDataFeed 0 [7] "news" 1.
Definition ex_lc : MarketLifecycle :=
  mkMarketLifecycle ∅ {[ 0 := mkMarketMetadata "" "" [] "" 0 0 (Some "tpl"%string) None None ]}
    (mkFeedRegistry {[ 0 := ex_feed ]} {[ [7] := 0 ]} 1) {[ "tpl"%string := mkResolutionTemplate "tpl" (Immediate 0) ]}.
Definition ex_signed : SignedAttestation := mkSignedAttestation (mkResolutionAttestation 0 700 3) [7] [].
Lemma ex_lc_ok : registry_ok (lc_feeds ex_lc).
Proof. split; cbn; intros ? ? [<- <-]%lookup_singleton_Some; [done|]. by exists ex_feed. Qed.

Lemma attested_resolution_exact_witness :
  resolve_from_attestation 0 ex_signed 9 ex_lc =
  SOk (commit_resolution 0 (mkResolutionRecord 700 (SourceIsDataFeed 0) 9) ex_lc) (mkResolutionRecord 700 (SourceIsDataFeed 0) 9).
Proof.
  apply (attested_resolution_exact 0 ex_signed 9 ex_lc); [exact ex_lc_ok|]. exists "tpl"%string, ex_feed.
  split_and!; try reflexivity. unfold NANOS_PER_DOLLAR. cbn. lia.
Defined.
