(* ===== verification/BridgeOps.v ===== *)
(** * BridgeOps: bridge operations of the sequencer

    Models [crates/matching-sequencer/src/sequencer/bridge_ops.rs]: ingesting
    L1 deposits in sequence, requesting withdrawals, and driving withdrawals by
    L1 events and observed heights.  [leaves_of] is the ascending iteration of
    the withdrawal [BTreeMap]. *)
From S2P Require Import Prelude Types Order Account Digest Validation OrderBook BatchSettlement Finalize Witness L1Protocol DepositFrontier AccountKeys SystemVerifier Bridge Sequencer.

Section ops.
Context (blake3 keccak256 : Bytes → Bytes).

Definition set_withdrawals (w : gmap Z WithdrawalLeaf) (b : BridgeState) : BridgeState :=
  mkBridgeState (bs_deposit_cursor b) (bs_deposit_root b) (bs_deposit_frontier b) (bs_observed_l1_height b)
    (bs_next_withdrawal_id b) w (bs_quarantine b).
Definition set_observed (h : Z) (b : BridgeState) : BridgeState :=
  mkBridgeState (bs_deposit_cursor b) (bs_deposit_root b) (bs_deposit_frontier b) h
    (bs_next_withdrawal_id b) (bs_withdrawals b) (bs_quarantine b).
Definition set_deposits (cursor : Z) (root : Bytes) (frontier : list Bytes) (b : BridgeState) : BridgeState :=
  mkBridgeState cursor root frontier (bs_observed_l1_height b) (bs_next_withdrawal_id b) (bs_withdrawals b) (bs_quarantine b).
Definition set_next_withdrawal_id (n : Z) (b : BridgeState) : BridgeState :=
  mkBridgeState (bs_deposit_cursor b) (bs_deposit_root b) (bs_deposit_frontier b) (bs_observed_l1_height b)
    n (bs_withdrawals b) (bs_quarantine b).

Definition on_bridge (f : BridgeState → BridgeState) (s : Sequencer) : Sequencer := set_bridge (f (sq_bridge s)) s.
Definition put_withdrawal (id : Z) (w : WithdrawalLeaf) : Sequencer → Sequencer :=
  on_bridge (λ b, set_withdrawals (<[id := w]> (bs_withdrawals b)) b).

(** [withdrawals.get(&id).expect(..)] *)
Definition withdrawal (id : Z) : op WithdrawalLeaf :=
  s ← sget; slift (expect (bs_withdrawals (sq_bridge s) !! id)).

(** The keys of the [BTreeMap] in ascending order. *)
Definition withdrawal_ids (s : Sequencer) : list Z := stable_sort Z.le (map_to_list (bs_withdrawals (sq_bridge s))).*1.

Definition apply_withdrawal_transition (withdrawal_id : Z) (transition : Transition.WithdrawalTransition) : op unit :=
  w ← withdrawal withdrawal_id;
  amount ← try_opt (chk I64 (wl_amount_nanos w)) (SeqErr.Bridge Err.AmountOverflow);
  match transition with
  | Transition.Unchanged | Transition.Queued => mret ()
  | Transition.Finalized =>
      capture_system_account_baseline (wl_account_id w);;
      record_system_event (Sys.WithdrawalFinalized (wl_account_id w) withdrawal_id amount)
  | Transition.Refunded reason =>
      capture_system_account_baseline (wl_account_id w);;
      account ← account_or (account_not_found (wl_account_id w)) (wl_account_id w);
      balance ← try_opt (chk I64 (acc_balance account + amount)) (SeqErr.Bridge Err.AmountOverflow);
      smodify (put (wl_account_id w) (set_balance balance account));;
      record_system_event (Sys.WithdrawalRefunded (wl_account_id w) withdrawal_id amount reason)
  end.

(** The loop body of [observe_bridge_l1_height]. *)
Definition observe_withdrawal (l1_height : Z) (refunded : list WithdrawalLeaf) (withdrawal_id : Z) : op (list WithdrawalLeaf) :=
  w ← withdrawal withdrawal_id;
  let '(w', transition) := observe_l1_height w l1_height in
  smodify (put_withdrawal withdrawal_id w');;
  apply_withdrawal_transition withdrawal_id transition;;
  match transition with
  | Transition.Refunded _ => w ← withdrawal withdrawal_id; mret (refunded ++ [w])
  | _ => mret refunded
  end.

Definition observe_bridge_l1_height (l1_height : Z) : op (list WithdrawalLeaf) :=
  s ← sget;
  if l1_height <=? bs_observed_l1_height (sq_bridge s) then mret [] else
  smodify (on_bridge (set_observed l1_height));;
  record_system_event (Sys.L1BlockObserved l1_height);;
  s ← sget;
  sfold (observe_withdrawal l1_height) [] (withdrawal_ids s).

(** [values().find(|w| w.nullifier == event.nullifier).map(|w| w.withdrawal_id)] *)
Definition find_nullifier (s : Sequencer) (nullifier : Bytes) : option Z :=
  wl_withdrawal_id <$>
    head (filter (λ w, wl_nullifier w = nullifier) (omap (λ id, bs_withdrawals (sq_bridge s) !! id) (withdrawal_ids s))).

Definition apply_bridge_withdrawal_l1_event (event : BridgeWithdrawalL1Event) : op (option WithdrawalLeaf) :=
  s ← sget;
  let withdrawal_id := find_nullifier s (le_nullifier event) in
  match withdrawal_id with
  | None => mret ()
  | Some id =>
      w ← withdrawal id;
      let '(w', transition) := apply_l1_event w event in
      smodify (put_withdrawal id w');;
      apply_withdrawal_transition id transition
  end;;
  observe_bridge_l1_height (le_l1_block_height event);;
  match withdrawal_id with
  | None => mret None
  | Some id => w ← withdrawal id; mret (Some w)
  end.

Definition validate_l1_deposit (deposit : L1Deposit) : op Z :=
  s ← sget;
  let expected_id := sat U64 (bs_deposit_cursor (sq_bridge s) + 1) in
  guard_err (negb (ld_deposit_id deposit =? expected_id))
    (SeqErr.Bridge (Err.NonSequentialDeposit expected_id (ld_deposit_id deposit)));;
  match ld_account_id deposit with
  | None => mret ()
  | Some account_id =>
      guard_err (bool_decide (get_account s account_id = None)) (account_not_found account_id);;
      guard_err (bool_decide (ld_sybil_account_key deposit ≠ account_key blake3 account_id)) (SeqErr.Bridge Err.AccountKeyMismatch)
  end;;
  '(_, expected_root) ←
    try_opt (bridge_append_deposit_frontier keccak256 (bs_deposit_frontier (sq_bridge s)) (bs_deposit_cursor (sq_bridge s)) deposit)
      (SeqErr.BridgeText "deposit frontier is at capacity");
  guard_err (bool_decide (ld_deposit_root deposit ≠ expected_root))
    (SeqErr.Bridge (Err.DepositRootMismatch expected_root (ld_deposit_root deposit)));;
  slift (map_err SeqErr.Bridge (amount_token_units_to_i64_nanos (ld_amount_token_units deposit))).

(** The credit or quarantine of a validated deposit. *)
Definition dispose_deposit (deposit : L1Deposit) (amount : Z) : op DepositDisposition :=
  match ld_account_id deposit with
  | Some account_id =>
      capture_system_account_baseline account_id;;
      account ← account_or (account_not_found account_id) account_id;
      balance ← try_opt (chk I64 (acc_balance account + amount)) (SeqErr.Bridge Err.AmountOverflow);
      total_deposited ← try_opt (chk I64 (acc_total_deposited account + amount)) (SeqErr.Bridge Err.AmountOverflow);
      let updated := set_total_deposited total_deposited (set_balance balance account) in
      smodify (put account_id updated);;
      record_system_event (Sys.L1Deposit account_id amount deposit);;
      mret (Credited updated)
  | None =>
      let key := ld_sybil_account_key deposit in
      smodify (on_bridge (λ b, set_quarantine (<[key := get0 (bs_quarantine b) key]> (bs_quarantine b)) b));;
      s ← sget;
      total ← try_opt (chk I64 (get0 (bs_quarantine (sq_bridge s)) key + amount)) (SeqErr.Bridge Err.QuarantineOverflow);
      smodify (on_bridge (λ b, set_quarantine (<[key := total]> (bs_quarantine b)) b));;
      record_system_event (Sys.DepositQuarantined amount deposit);;
      mret (Quarantined key amount)
  end.

(** [debug_assert_eq!] is compiled out of release builds. *)
Definition ingest_l1_deposit (deposit : L1Deposit) : op DepositDisposition :=
  amount ← validate_l1_deposit deposit;
  disposition ← dispose_deposit deposit amount;
  s ← sget;
  '(frontier, _) ←
    try_opt (bridge_append_deposit_frontier keccak256 (bs_deposit_frontier (sq_bridge s)) (bs_deposit_cursor (sq_bridge s)) deposit)
      (SeqErr.BridgeText "deposit frontier is at capacity");
  smodify (on_bridge (set_deposits (ld_deposit_id deposit) (ld_deposit_root deposit) frontier));;
  mret disposition.

Definition validate_bridge_withdrawal (request : BridgeWithdrawalRequest) : op Z :=
  account ← account_or (account_not_found (rq_account_id request)) (rq_account_id request);
  amount ← slift (map_err SeqErr.Bridge (amount_token_units_to_i64_nanos (rq_amount_token_units request)));
  s ← sget;
  guard_err (rq_expiry_height request <? bs_observed_l1_height (sq_bridge s))
    (SeqErr.Bridge (Err.WithdrawalExpired (rq_expiry_height request) (bs_observed_l1_height (sq_bridge s))));;
  available ← slift (arith I64 (acc_balance account - reserved_balance (sq_order_book s) (rq_account_id request)));
  guard_err (available <? amount) (SeqErr.Bridge (Err.InsufficientAvailableBalance amount available));;
  mret amount.

Definition request_bridge_withdrawal (request : BridgeWithdrawalRequest) : op WithdrawalLeaf :=
  amount_i64 ← validate_bridge_withdrawal request;
  amount_nanos ← slift (map_err SeqErr.Bridge (amount_token_units_to_nanos (rq_amount_token_units request)));
  s ← sget;
  let withdrawal_id := bs_next_withdrawal_id (sq_bridge s) in
  let nullifier := bridge_withdrawal_nullifier keccak256 request withdrawal_id in
  let leaf := mkWithdrawalLeaf withdrawal_id (rq_account_id request) (rq_recipient request) (rq_token_address request)
    (rq_amount_token_units request) amount_nanos (rq_expiry_height request) nullifier (sat U64 (sq_height s + 1))
    Status.NotRequested None None None None None in
  capture_system_account_baseline (rq_account_id request);;
  account ← account_or (account_not_found (rq_account_id request)) (rq_account_id request);
  balance ← slift (arith I64 (acc_balance account - amount_i64));
  smodify (put (rq_account_id request) (set_balance balance account));;
  smodify (on_bridge (set_next_withdrawal_id (sat U64 (withdrawal_id + 1))));;
  smodify (put_withdrawal withdrawal_id leaf);;
  record_system_event (Sys.WithdrawalCreated (rq_account_id request) amount_i64 leaf);;
  mret leaf.
End ops.

(** ** The assets the sequencer is accountable for

    Cash balances, quarantined deposits and the amounts of withdrawals that are
    neither paid out nor refunded. *)

Definition active_amount (w : WithdrawalLeaf) : Z := if terminal w then 0 else wl_amount_nanos w.

Definition bridge_assets (s : Sequencer) : Z :=
  bal_total (as_accounts (sq_accounts s)) + msum id (bs_quarantine (sq_bridge s)) +
  msum active_amount (bs_withdrawals (sq_bridge s)).

(** Every leaf is stored under its id, below the next one to be issued. *)
Definition ledger_wf (s : Sequencer) : Prop :=
  ∀ id w, bs_withdrawals (sq_bridge s) !! id = Some w → wl_withdrawal_id w = id ∧ id < bs_next_withdrawal_id (sq_bridge s).

Lemma msum_get0 `{Countable K} (m : gmap K Z) k x : msum id (<[k := get0 m k + x]> m) = msum id m + x.
Proof.
  unfold get0. destruct (m !! k) as [v|] eqn:Hk; cbn [default from_option id].
  - rewrite (msum_update _ _ _ v) by done. unfold id. lia.
  - rewrite msum_insert by done. unfold id. lia.
Qed.

Lemma bal_total_put id a a' s : get_account s id = Some a →
  bal_total (as_accounts (sq_accounts (put id a' s))) = bal_total (as_accounts (sq_accounts s)) + (acc_balance a' - acc_balance a).
Proof. intros Ha. unfold bal_total. cbn. by apply msum_update. Qed.

Lemma active_amount_put s k w w' : bs_withdrawals (sq_bridge s) !! k = Some w →
  msum active_amount (bs_withdrawals (sq_bridge (put_withdrawal k w' s))) =
  msum active_amount (bs_withdrawals (sq_bridge s)) + (active_amount w' - active_amount w).
Proof. intros Hw. cbn. by apply msum_update. Qed.

Lemma withdrawal_SOk id s s' w : withdrawal id s = SOk s' w → s' = s ∧ bs_withdrawals (sq_bridge s) !! id = Some w.
Proof. unfold withdrawal. intros H. sinv H. apply slift_SOk in H as [-> H]. split; [done|]. by destruct (_ !! _); simplify_eq/=. Qed.

(** What a transition pays out on L1. *)
Definition outflow (t : Transition.WithdrawalTransition) (w : WithdrawalLeaf) : Z :=
  match t with Transition.Finalized => wl_amount_nanos w | _ => 0 end.

(** One input to one withdrawal, followed by the sequencer's reaction. *)
Lemma transition_effect s id w i w' t s' :
  bs_withdrawals (sq_bridge s) !! id = Some w → leaf_input w i = (w', t) →
  apply_withdrawal_transition id t (put_withdrawal id w' s) = SOk s' () →
  bridge_assets s' = bridge_assets s - outflow t w ∧
  bs_withdrawals (sq_bridge s') = <[id := w']> (bs_withdrawals (sq_bridge s)) ∧
  bs_next_withdrawal_id (sq_bridge s') = bs_next_withdrawal_id (sq_bridge s) ∧
  bs_observed_l1_height (sq_bridge s') = bs_observed_l1_height (sq_bridge s).
Proof.
  intros Hw Hi H. pose proof (leaf_input_step _ _ _ _ Hi) as (Hid & Hterm & _).
  assert (Hamt : wl_amount_nanos w' = wl_amount_nanos w) by (unfold leaf_identity in Hid; congruence).
  assert (Hact : active_amount w' = active_amount w - (if settles t then wl_amount_nanos w else 0)).
  { unfold active_amount. rewrite Hamt. destruct (terminal w) eqn:Ht.
    - rewrite (leaf_input_terminal w i Ht) in Hi. injection Hi as <- <-. rewrite Ht. cbn. lia.
    - rewrite Hterm by done. destruct (settles t); lia. }
  unfold apply_withdrawal_transition in H. apply sbind_SOk_inv in H as (s1 & w1 & E & H).
  apply withdrawal_SOk in E as [-> E]. cbn in E. rewrite lookup_insert_eq in E. injection E as <-.
  apply sbind_SOk_inv in H as (s2 & amt & E & H). apply try_opt_SOk in E as [-> E]. apply chk_Some in E as [-> _].
  unfold bridge_assets. destruct t as [| | |r]; cbn [outflow settles] in *; sinv H.
  - rewrite (active_amount_put s id w w' Hw). cbn. split_and!; done || lia.
  - rewrite (active_amount_put s id w w' Hw). cbn. split_and!; done || lia.
  - rewrite record_eq in H. injection H as <-. cbn. autorewrite with sybil_rw.
    rewrite (active_amount_put s id w w' Hw). cbn. split_and!; done || lia.
  - rewrite record_eq in H. injection H as <-. apply chk_Some in E0 as [-> _]. unfold recorded, set_events. cbn [sq_accounts sq_bridge].
    rewrite (bal_total_put _ _ _ _ E). cbn [put set_accounts sq_bridge sq_accounts]. autorewrite with sybil_rw.
    rewrite (active_amount_put s id w w' Hw). cbn. split_and!; done || lia.
Qed.

Lemma observe_loop_effect h ids refunded s s' l :
  sfold (observe_withdrawal h) refunded ids s = SOk s' l →
  bridge_assets s' = bridge_assets s ∧
  dom (bs_withdrawals (sq_bridge s')) = dom (bs_withdrawals (sq_bridge s)) ∧
  bs_next_withdrawal_id (sq_bridge s') = bs_next_withdrawal_id (sq_bridge s) ∧
  bs_observed_l1_height (sq_bridge s') = bs_observed_l1_height (sq_bridge s) ∧
  ∀ id w, bs_withdrawals (sq_bridge s) !! id = Some w →
    bs_withdrawals (sq_bridge s') !! id = Some (if decide (id ∈ ids) then (observe_l1_height w h).1 else w).
Proof.
  revert refunded s. induction ids as [|id ids IH]; intros refunded s H; cbn [sfold] in H.
  { sinv H. split_and!; [done..|]. intros id w Hw. by rewrite decide_False by apply not_elem_of_nil. }
  apply sbind_SOk_inv in H as (s1 & refunded1 & E & H). unfold observe_withdrawal in E.
  apply sbind_SOk_inv in E as (s2 & w & E1 & E). apply withdrawal_SOk in E1 as [-> Hw].
  destruct (observe_l1_height w h) as [w' t] eqn:Ho. rewrite smodify_bind in E.
  apply sbind_SOk_inv in E as (s3 & [] & E1 & E).
  destruct (transition_effect s id w (InputObservedHeight h) w' t s3 Hw Ho E1) as (Ha & Hws & Hn & Hh).
  assert (Hout : outflow t w = 0) by (unfold observe_l1_height in Ho; destruct (_ || _); injection Ho as <- <-; done).
  assert (s1 = s3) as ->.
  { destruct t; sinv E; try done; apply withdrawal_SOk in E0 as [-> _]; done. }
  destruct (IH _ _ H) as (Ha' & Hd & Hn' & Hh' & Hl). split_and!.
  - lia.
  - rewrite Hd, Hws, dom_insert_L. apply elem_of_dom_2 in Hw. set_solver.
  - congruence.
  - congruence.
  - intros k v Hk. destruct (decide (k = id)) as [->|Hne].
    + rewrite (Hl id w') by (by rewrite Hws, lookup_insert_eq). f_equal. destruct (decide (id ∈ id :: ids)) as [_|Hn0]; [|by destruct Hn0; left].
      rewrite Hw in Hk. injection Hk as <-. rewrite Ho. cbn [fst]. case_decide; [|done].
      assert (Hi : terminal w' = true ∨ t = Transition.Unchanged ∧ w' = w).
      { unfold observe_l1_height in Ho. destruct (_ || _); injection Ho as <- <-; [by right|by left]. }
      destruct Hi as [Ht|[-> ->]]; [by rewrite (leaf_input_terminal w' (InputObservedHeight h) Ht : observe_l1_height w' h = _)|by rewrite Ho].
    + rewrite (Hl k v) by (by rewrite Hws, lookup_insert_ne). f_equal.
      apply decide_ext. rewrite elem_of_cons. naive_solver.
Qed.

(** Whether a withdrawal is live, after a height has been observed. *)
Lemma observe_effect h s s' l :
  observe_bridge_l1_height h s = SOk s' l →
  bridge_assets s' = bridge_assets s ∧
  dom (bs_withdrawals (sq_bridge s')) = dom (bs_withdrawals (sq_bridge s)) ∧
  bs_next_withdrawal_id (sq_bridge s') = bs_next_withdrawal_id (sq_bridge s) ∧
  bs_observed_l1_height (sq_bridge s') = Z.max h (bs_observed_l1_height (sq_bridge s)) ∧
  ∀ id w, bs_withdrawals (sq_bridge s) !! id = Some w →
    bs_withdrawals (sq_bridge s') !! id =
      Some (if h <=? bs_observed_l1_height (sq_bridge s) then w else (observe_l1_height w h).1).
Proof.
  intros H. unfold observe_bridge_l1_height in H. sinv H.
  destruct (Z.leb_spec h (bs_observed_l1_height (sq_bridge s))).
  - sinv H. split_and!; [done..|lia|done].
  - sinv H. apply observe_loop_effect in H as (Ha & Hd & Hn & Hh & Hl). cbn in *. split_and!.
    + rewrite Ha. unfold bridge_assets. by cbn.
    + done.
    + done.
    + lia.
    + intros id w Hw. rewrite (Hl id w Hw). rewrite decide_True; [done|].
      unfold withdrawal_ids. rewrite stable_sort_Permutation. apply list_elem_of_fmap. exists (id, w).
      split; [done|]. by apply elem_of_map_to_list.
Qed.

(** ** The effect of each operation *)

(** The amount an L1 event pays out: that of the live withdrawal it finalises. *)
Definition finalised_amount (event : BridgeWithdrawalL1Event) (s : Sequencer) : Z :=
  match find_nullifier s (le_nullifier event) with
  | Some id => from_option (λ w, outflow (apply_l1_event w event).2 w) 0 (bs_withdrawals (sq_bridge s) !! id)
  | None => 0
  end.

Lemma l1_event_effect event s s' r :
  ledger_wf s → apply_bridge_withdrawal_l1_event event s = SOk s' r →
  ledger_wf s' ∧ bridge_assets s' = bridge_assets s - finalised_amount event s.
Proof.
  intros Hwf H. unfold apply_bridge_withdrawal_l1_event in H. rewrite sget_bind in H. unfold finalised_amount.
  apply sbind_SOk_inv in H as (s1 & [] & E & H). apply sbind_SOk_inv in H as (s2 & l & E2 & H).
  assert (s' = s2) as ->.
  { by destruct (find_nullifier s _); sinv H. }
  apply observe_effect in E2 as (Ha & Hd & Hn & _ & Hl).
  assert (Hs1 : ledger_wf s1 ∧ bridge_assets s1 = bridge_assets s - finalised_amount event s).
  { unfold finalised_amount. destruct (find_nullifier s _) as [id|]; [|sinv E; split; [done|lia]].
    apply sbind_SOk_inv in E as (s3 & w & E1 & E). apply withdrawal_SOk in E1 as [-> Hw]. rewrite Hw. cbn [from_option].
    destruct (apply_l1_event w event) as [w' t] eqn:Hev. rewrite smodify_bind in E.
    destruct (transition_effect s id w (InputWithdrawalEvent event) w' t s1 Hw Hev E) as (Ha1 & Hws & Hn1 & _).
    split; [|done]. intros k v. rewrite Hws, Hn1, lookup_insert. case_decide as Hk; [|by apply Hwf].
    intros [= <-]. subst k. destruct (leaf_input_step w (InputWithdrawalEvent event) w' t Hev) as [Hid _].
    destruct (Hwf id w Hw). unfold leaf_identity in Hid. split; [congruence|done]. }
  destruct Hs1 as [Hwf1 Ha1]. split; [|by rewrite Ha, Ha1].
  intros k v Hv. assert (is_Some (bs_withdrawals (sq_bridge s1) !! k)) as [v1 Hv1].
  { apply elem_of_dom. rewrite <- Hd. by apply elem_of_dom_2 in Hv. }
  rewrite (Hl k v1 Hv1) in Hv. injection Hv as <-. destruct (Hwf1 k v1 Hv1) as [Hk Hlt]. rewrite Hn. split; [|done].
  destruct (_ <=? _); [done|]. destruct (observe_l1_height v1 _) as [v2 t] eqn:Ho.
  destruct (leaf_input_step v1 (InputObservedHeight _) v2 t Ho) as [Hid _]. unfold leaf_identity in Hid. cbn. congruence.
Qed.

Lemma height_effect h s s' l :
  ledger_wf s → observe_bridge_l1_height h s = SOk s' l → ledger_wf s' ∧ bridge_assets s' = bridge_assets s.
Proof.
  intros Hwf H. apply observe_effect in H as (Ha & Hd & Hn & _ & Hl). split; [|done].
  intros k v Hv. assert (is_Some (bs_withdrawals (sq_bridge s) !! k)) as [v1 Hv1].
  { apply elem_of_dom. rewrite <- Hd. by apply elem_of_dom_2 in Hv. }
  rewrite (Hl k v1 Hv1) in Hv. injection Hv as <-. destruct (Hwf k v1 Hv1) as [Hk Hlt]. rewrite Hn. split; [|done].
  destruct (_ <=? _); [done|]. destruct (observe_l1_height v1 _) as [v2 t] eqn:Ho.
  destruct (leaf_input_step v1 (InputObservedHeight _) v2 t Ho) as [Hid _]. unfold leaf_identity in Hid. cbn. congruence.
Qed.

Lemma token_amount_Ok {A} (f : Err.BridgeError → A) units n :
  map_err f (amount_token_units_to_i64_nanos units) = Ok n →
  n = units * NANOS_PER_TOKEN_UNIT ∧ units ≠ 0 ∧ amount_token_units_to_nanos units = Ok n.
Proof.
  unfold amount_token_units_to_i64_nanos, amount_token_units_to_nanos. destruct (Z.eqb_spec units 0); cbn; [done|].
  destruct (chk U64 _) as [z|] eqn:E; cbn; [|done]. apply chk_Some in E as [-> _].
  destruct (chk I64 _) as [z|] eqn:E; cbn; [|done]. apply chk_Some in E as [-> _]. by intros [= <-].
Qed.

(** Checked sums that succeeded. *)
Ltac chks := repeat match goal with
  | H : chk _ _ = Some _ |- _ => apply chk_Some in H as [-> ?]
  | H : arith _ _ = Ok _ |- _ => apply arith_Ok in H as [-> ?]
  end.

Section effects.
Context (blake3 keccak256 : Bytes → Bytes).

Lemma validate_l1_deposit_SOk d s s' n :
  validate_l1_deposit blake3 keccak256 d s = SOk s' n → s' = s ∧ n = ld_amount_token_units d * NANOS_PER_TOKEN_UNIT ∧
  ld_deposit_id d = sat U64 (bs_deposit_cursor (sq_bridge s) + 1) ∧
  (∀ id, ld_account_id d = Some id → is_Some (get_account s id) ∧ ld_sybil_account_key d = account_key blake3 id) ∧
  ∃ frontier, bridge_append_deposit_frontier keccak256 (bs_deposit_frontier (sq_bridge s)) (bs_deposit_cursor (sq_bridge s)) d =
    Some (frontier, ld_deposit_root d).
Proof.
  unfold validate_l1_deposit. intros H. sinv H.
  apply negb_false_iff, Z.eqb_eq in E.
  assert (s0 = s ∧ ∀ id, ld_account_id d = Some id → is_Some (get_account s id) ∧ ld_sybil_account_key d = account_key blake3 id) as [-> Hacc].
  { destruct (ld_account_id d) as [id|]; [|sinv E0; naive_solver].
    sinv E0. apply guard_err_SOk in E0 as [-> E0]. apply bool_decide_eq_false in E0, E3. split; [done|]. intros ? [= <-].
    split; [by apply not_eq_None_Some|]. by apply dec_stable. }
  apply bool_decide_eq_false, dec_stable in E2. apply slift_SOk in H as [-> H]. apply token_amount_Ok in H as (-> & _ & _).
  split_and!; try done. rewrite E2. by eexists.
Qed.

(** ** Deposits *)

Lemma dispose_effect d n s s' disp :
  dispose_deposit d n s = SOk s' disp →
  bridge_assets s' = bridge_assets s + n ∧ bs_withdrawals (sq_bridge s') = bs_withdrawals (sq_bridge s) ∧
  bs_next_withdrawal_id (sq_bridge s') = bs_next_withdrawal_id (sq_bridge s) ∧
  bs_deposit_frontier (sq_bridge s') = bs_deposit_frontier (sq_bridge s) ∧
  bs_deposit_cursor (sq_bridge s') = bs_deposit_cursor (sq_bridge s).
Proof.
  unfold dispose_deposit. intros E. destruct (ld_account_id d) as [id|]; sinv E; chks.
  - rewrite captured_get in *. unfold bridge_assets, recorded, set_events. cbn [sq_accounts sq_bridge].
    erewrite bal_total_put by (by rewrite captured_get). cbn. autorewrite with sybil_rw. split_and!; done || lia.
  - unfold bridge_assets. cbn. rewrite insert_insert_eq, get0_insert, decide_True, msum_get0 by done. split_and!; done || lia.
Qed.

Lemma ingest_effect d s s' disp :
  ingest_l1_deposit blake3 keccak256 d s = SOk s' disp →
  bridge_assets s' = bridge_assets s + ld_amount_token_units d * NANOS_PER_TOKEN_UNIT ∧
  bs_withdrawals (sq_bridge s') = bs_withdrawals (sq_bridge s) ∧
  bs_next_withdrawal_id (sq_bridge s') = bs_next_withdrawal_id (sq_bridge s) ∧
  bs_deposit_cursor (sq_bridge s') = ld_deposit_id d ∧ bs_deposit_root (sq_bridge s') = ld_deposit_root d ∧
  ∃ root, bridge_append_deposit_frontier keccak256 (bs_deposit_frontier (sq_bridge s)) (bs_deposit_cursor (sq_bridge s)) d =
    Some (bs_deposit_frontier (sq_bridge s'), root).
Proof.
  intros H. unfold ingest_l1_deposit in H. apply sbind_SOk_inv in H as (s1 & n & E & H).
  apply validate_l1_deposit_SOk in E as (-> & -> & _ & Hacc & _).
  apply sbind_SOk_inv in H as (s2 & dsp & E & H). sinv H.
  apply dispose_effect in E as (Ha & Hw & Hn & Hf & Hc). rewrite Hf, Hc in *. unfold bridge_assets in *. cbn in *. split_and!; try done.
  by eexists.
Qed.

(** ** Withdrawal requests *)

Lemma validate_bridge_withdrawal_SOk q s s' n :
  validate_bridge_withdrawal q s = SOk s' n → s' = s ∧ n = rq_amount_token_units q * NANOS_PER_TOKEN_UNIT ∧
  amount_token_units_to_nanos (rq_amount_token_units q) = Ok n ∧ bs_observed_l1_height (sq_bridge s) ≤ rq_expiry_height q ∧
  ∃ a, get_account s (rq_account_id q) = Some a ∧ n ≤ acc_balance a - reserved_balance (sq_order_book s) (rq_account_id q).
Proof.
  intros H. unfold validate_bridge_withdrawal in H. sinv H. chks.
  match goal with H : map_err _ _ = Ok _ |- _ => apply token_amount_Ok in H as (-> & _ & Hn) end.
  repeat match goal with H : (_ <? _) = false |- _ => apply Z.ltb_ge in H end.
  split_and!; try done. eauto.
Qed.

(** The leaf a request creates. *)
Definition requested_leaf (q : BridgeWithdrawalRequest) (s : Sequencer) : WithdrawalLeaf :=
  let id := bs_next_withdrawal_id (sq_bridge s) in
  mkWithdrawalLeaf id (rq_account_id q) (rq_recipient q) (rq_token_address q) (rq_amount_token_units q)
    (rq_amount_token_units q * NANOS_PER_TOKEN_UNIT) (rq_expiry_height q) (bridge_withdrawal_nullifier keccak256 q id)
    (sat U64 (sq_height s + 1)) Status.NotRequested None None None None None.

Lemma request_SOk q s s' leaf :
  request_bridge_withdrawal keccak256 q s = SOk s' leaf →
  leaf = requested_leaf q s ∧
  bs_withdrawals (sq_bridge s') = <[bs_next_withdrawal_id (sq_bridge s) := leaf]> (bs_withdrawals (sq_bridge s)) ∧
  bs_next_withdrawal_id (sq_bridge s') = sat U64 (bs_next_withdrawal_id (sq_bridge s) + 1) ∧
  bs_quarantine (sq_bridge s') = bs_quarantine (sq_bridge s) ∧
  ∃ a, get_account s (rq_account_id q) = Some a ∧
    wl_amount_nanos leaf ≤ acc_balance a - reserved_balance (sq_order_book s) (rq_account_id q) ∧
    sq_accounts s' = sq_accounts (put (rq_account_id q) (set_balance (acc_balance a - wl_amount_nanos leaf) a) s).
Proof.
  intros H. unfold request_bridge_withdrawal in H. apply sbind_SOk_inv in H as (s1 & n & E & H).
  apply validate_bridge_withdrawal_SOk in E as (-> & -> & Hn & _ & a & Ha & Hle). rewrite Hn in H. cbn [map_err] in H.
  sinv H. chks. rewrite captured_get in *. simplify_eq. cbn. autorewrite with sybil_rw. split_and!; try done.
  exists a. by autorewrite with sybil_rw.
Qed.

Lemma request_effect q s s' leaf :
  ledger_wf s → bs_next_withdrawal_id (sq_bridge s) < int_max U64 →
  request_bridge_withdrawal keccak256 q s = SOk s' leaf →
  ledger_wf s' ∧ bridge_assets s' = bridge_assets s.
Proof.
  intros Hwf Hmax H. apply request_SOk in H as (-> & Hw & Hn & Hq & a & Ha & _ & Hacc).
  assert (Hfresh : bs_withdrawals (sq_bridge s) !! bs_next_withdrawal_id (sq_bridge s) = None).
  { destruct (_ !! _) eqn:E'; [|done]. apply Hwf in E'. lia. }
  split.
  - intros id w. rewrite Hw, Hn, lookup_insert. unfold sat. case_decide as Hid.
    + intros [= <-]. subst id. split; [done|]. cbn [int_min int_max] in *. lia.
    + intros [Hk Hlt]%Hwf. split; [done|]. cbn [int_min int_max] in *. lia.
  - unfold bridge_assets. rewrite Hw, Hq, Hacc, msum_insert, (bal_total_put _ a) by done. cbn. lia.
Qed.

Lemma claim_effect id s s' r :
  claim_quarantine_for_account blake3 id s = SOk s' r →
  bs_withdrawals (sq_bridge s') = bs_withdrawals (sq_bridge s) ∧
  bs_next_withdrawal_id (sq_bridge s') = bs_next_withdrawal_id (sq_bridge s) ∧ bridge_assets s' = bridge_assets s.
Proof.
  intros H. unfold claim_quarantine_for_account in H. rewrite sget_bind in H. destruct (_ !! _) as [n|] eqn:Hq; sinv H; [|done].
  chks. rewrite captured_get in *. unfold bridge_assets, recorded, set_events. cbn [sq_accounts sq_bridge set_bridge].
  erewrite bal_total_put by (by rewrite captured_get). cbn. autorewrite with sybil_rw. cbn. autorewrite with sybil_rw. split_and!; [done..|].
  rewrite (msum_delete Datatypes.id (bs_quarantine (sq_bridge s)) _ n Hq). unfold Datatypes.id at 2. lia.
Qed.
End effects.

(** ** Sequences of bridge operations *)

(** One successful operation and the value it moves across the bridge. *)
Inductive bridge_step (blake3 keccak256 : Bytes → Bytes) : Sequencer → Z → Sequencer → Prop :=
  | step_deposit s d s' disp :
      ingest_l1_deposit blake3 keccak256 d s = SOk s' disp →
      bridge_step blake3 keccak256 s (ld_amount_token_units d * NANOS_PER_TOKEN_UNIT) s'
  | step_request s q s' leaf :
      bs_next_withdrawal_id (sq_bridge s) < int_max U64 →
      request_bridge_withdrawal keccak256 q s = SOk s' leaf → bridge_step blake3 keccak256 s 0 s'
  | step_l1_event s e s' r :
      apply_bridge_withdrawal_l1_event e s = SOk s' r → bridge_step blake3 keccak256 s (- finalised_amount e s) s'
  | step_height s h s' l :
      observe_bridge_l1_height h s = SOk s' l → bridge_step blake3 keccak256 s 0 s'
  | step_claim s id s' r :
      claim_quarantine_for_account blake3 id s = SOk s' r → bridge_step blake3 keccak256 s 0 s'.

Inductive bridge_steps (blake3 keccak256 : Bytes → Bytes) : Sequencer → Z → Sequencer → Prop :=
  | steps_refl s : bridge_steps blake3 keccak256 s 0 s
  | steps_step s v s1 v' s2 :
      bridge_step blake3 keccak256 s v s1 → bridge_steps blake3 keccak256 s1 v' s2 →
      bridge_steps blake3 keccak256 s (v + v') s2.

Lemma bridge_step_effect blake3 keccak256 s v s' :
  bridge_step blake3 keccak256 s v s' → ledger_wf s → ledger_wf s' ∧ bridge_assets s' = bridge_assets s + v.
Proof.
  intros [s0 d s1 disp H|s0 q s1 leaf Hmax H|s0 e s1 r H|s0 h s1 l H|s0 id s1 r H] Hwf.
  - apply ingest_effect in H as (Ha & Hw & Hn & _). split; [|done]. intros id w. rewrite Hw, Hn. apply Hwf.
  - destruct (request_effect keccak256 q s0 s1 leaf Hwf Hmax H) as [? ->]. split; [done|lia].
  - destruct (l1_event_effect e s0 s1 r Hwf H) as [? ->]. split; [done|lia].
  - destruct (height_effect h s0 s1 l Hwf H) as [? ->]. split; [done|lia].
  - apply claim_effect in H as (Hw & Hn & Ha). split; [|lia]. intros k w. rewrite Hw, Hn. apply Hwf.
Qed.

(** ** The deposit log *)

(** The abstract state of the deposit side: the deposits consumed so far. *)
Definition deposit_log (keccak256 : Bytes → Bytes) (s : Sequencer) (log : list L1Deposit) : Prop :=
  let leaves := bridge_deposit_tree_leaf keccak256 <$> log in
  bs_deposit_cursor (sq_bridge s) = Z.of_nat (length log) ∧
  bs_deposit_root (sq_bridge s) = merkle_root keccak256 leaves ∧
  represents keccak256 (bs_deposit_frontier (sq_bridge s)) leaves ∧
  ∀ i d, log !! i = Some d → ld_deposit_id d = Z.of_nat i + 1.

Lemma append_next keccak256 s log d :
  deposit_log keccak256 s log → Z.of_nat (length log) < deposit_tree_capacity →
  ∃ f, bridge_append_deposit_frontier keccak256 (bs_deposit_frontier (sq_bridge s)) (bs_deposit_cursor (sq_bridge s)) d =
    Some (f, merkle_root keccak256 (bridge_deposit_tree_leaf keccak256 <$> log ++ [d])) ∧
    represents keccak256 f (bridge_deposit_tree_leaf keccak256 <$> log ++ [d]).
Proof.
  intros (Hc & _ & Hrep & _) Hcap. rewrite Hc.
  destruct (append_represents keccak256 _ _ (deposit_leaf_for_protocol d) Hrep) as (f & Hf & Hr); [by rewrite length_fmap|].
  rewrite length_fmap in Hf. exists f. rewrite fmap_app. split; [exact Hf|exact Hr].
Qed.

(** ** Properties *)

(** C20: the bridge conserves value: along any sequence of successful deposits,
    withdrawal requests, L1 events, height observations and quarantine claims,
    the cash of all accounts plus the quarantine plus the withdrawals still
    outstanding changes exactly by the deposits credited minus the withdrawals
    finalised on L1; a refund or a request only moves value inside. *)
Theorem bridge_conserves_value (blake3 keccak256 : Bytes → Bytes) (s s' : Sequencer) (v : Z) :
  ledger_wf s → bridge_steps blake3 keccak256 s v s' → ledger_wf s' ∧ bridge_assets s' = bridge_assets s + v.
Proof.
  intros Hwf Hs. induction Hs as [s|s v s1 v' s2 Hstep _ IH]; [split; [done|lia]|].
  destruct (bridge_step_effect _ _ _ _ _ Hstep Hwf) as [Hwf1 Ha1]. destruct (IH Hwf1) as [Hwf2 Ha2]. split; [done|lia].
Qed.

(** C22: the sequencer consumes the L1 deposit log in order: when its cursor,
    root and frontier are those of the deposits consumed so far, a deposit it
    accepts has the next id, carries the Merkle root of the log extended by
    it, names an existing account by that account's bridge key (or none), and
    leaves the state of the extended log. *)
Theorem deposits_follow_l1_log (blake3 keccak256 : Bytes → Bytes) (s s' : Sequencer) (log : list L1Deposit)
    (d : L1Deposit) (disp : DepositDisposition) :
  deposit_log keccak256 s log → Z.of_nat (length log) < deposit_tree_capacity →
  ingest_l1_deposit blake3 keccak256 d s = SOk s' disp →
  deposit_log keccak256 s' (log ++ [d]) ∧ ld_deposit_id d = Z.of_nat (length log) + 1 ∧
  ld_deposit_root d = merkle_root keccak256 (bridge_deposit_tree_leaf keccak256 <$> log ++ [d]) ∧
  ∀ id, ld_account_id d = Some id → is_Some (get_account s id) ∧ ld_sybil_account_key d = account_key blake3 id.
Proof.
  intros Hlog Hcap H. destruct (append_next keccak256 s log d Hlog Hcap) as (f & Hf & Hrep).
  pose proof H as Hv. unfold ingest_l1_deposit in Hv. apply sbind_SOk_inv in Hv as (s1 & n & E & _).
  apply validate_l1_deposit_SOk in E as (_ & _ & Hid & Hacc & f' & Hf'). rewrite Hf in Hf'. injection Hf' as <- Hroot.
  apply ingest_effect in H as (_ & _ & _ & Hc & Hr & root & Hfr). rewrite Hf in Hfr. injection Hfr as Hfr _.
  destruct Hlog as (Hcur & _ & _ & Hids).
  assert (Hid' : ld_deposit_id d = Z.of_nat (length log) + 1).
  { rewrite Hid, Hcur. apply sat_in. change deposit_tree_capacity with 4294967296 in Hcap. cbn [int_min int_max]. lia. }
  split_and!; try done. unfold deposit_log. rewrite Hc, Hr, <- Hfr. split_and!; try done.
  - rewrite length_app. cbn. lia.
  - intros i x Hx. apply lookup_snoc_Some in Hx as [[_ Hx]|[-> <-]]; [by apply Hids|done].
Qed.

(** What a failed deposit or withdrawal request may have touched: at most the
    baseline of an account, and a zero quarantine entry. *)
Definition untouched (s s' : Sequencer) : Prop :=
  sq_accounts s' = sq_accounts s ∧ sq_order_book s' = sq_order_book s ∧
  sq_pending_system_events s' = sq_pending_system_events s ∧
  bs_deposit_cursor (sq_bridge s') = bs_deposit_cursor (sq_bridge s) ∧ bs_deposit_root (sq_bridge s') = bs_deposit_root (sq_bridge s) ∧
  bs_deposit_frontier (sq_bridge s') = bs_deposit_frontier (sq_bridge s) ∧ bs_withdrawals (sq_bridge s') = bs_withdrawals (sq_bridge s) ∧
  bs_next_withdrawal_id (sq_bridge s') = bs_next_withdrawal_id (sq_bridge s) ∧
  ∀ key, get0 (bs_quarantine (sq_bridge s')) key = get0 (bs_quarantine (sq_bridge s)) key.

Lemma untouched_refl s : untouched s s.
Proof. by split_and!. Qed.

Lemma untouched_captured id s : untouched s (captured id s).
Proof. unfold untouched. destruct (captured_frame id s) as (-> & -> & _ & _ & -> & -> & _). by split_and!. Qed.

Create HintDb untouched.
#[local] Hint Resolve untouched_refl untouched_captured : untouched.

(** Invert a failing operation: the error came from the first step or a later one. *)
Ltac serr H := apply sbind_SErr_inv in H as [H|H]; [|let E := fresh "E" in destruct H as (? & ? & E & H); sprim E].
Ltac sfails H := first
  [ apply account_or_SErr in H as -> | apply try_opt_SErr in H as [-> _] | apply guard_err_SErr in H as [-> _]
  | apply slift_SErr in H as [-> _] ].

Lemma validate_l1_deposit_reads blake3 keccak256 d : reads (validate_l1_deposit blake3 keccak256 d).
Proof. unfold validate_l1_deposit. reads_only. Qed.

Lemma validate_bridge_withdrawal_reads q : reads (validate_bridge_withdrawal q).
Proof. unfold validate_bridge_withdrawal. reads_only. Qed.

Lemma dispose_rejected d n s s' e : dispose_deposit d n s = SErr s' e → untouched s s'.
Proof.
  unfold dispose_deposit. intros H. destruct (ld_account_id d) as [id|].
  - serr H; [done|]. do 3 (serr H; [sfails H; auto with untouched|]). done.
  - rewrite smodify_bind, sget_bind in H. serr H; [sfails H|done].
    unfold untouched. cbn. split_and!; try done. intros key. rewrite get0_insert. case_decide; by subst.
Qed.

(** C39: a deposit or a withdrawal request that is rejected changes nothing:
    whatever the error (sequence, account, key, root, capacity, amount,
    expiry, balance, overflow), accounts, order book, queued events, deposit
    cursor, root and frontier, withdrawals and quarantined amounts are as
    before. *)
Theorem rejected_bridge_call_changes_nothing (blake3 keccak256 : Bytes → Bytes) (d : L1Deposit) (q : BridgeWithdrawalRequest)
    (s s' : Sequencer) (e : SequencerError) :
  ingest_l1_deposit blake3 keccak256 d s = SErr s' e ∨ request_bridge_withdrawal keccak256 q s = SErr s' e → untouched s s'.
Proof.
  intros [H|H].
  - unfold ingest_l1_deposit in H. serr H; [apply reads_SErr in H as ->; [auto with untouched|apply validate_l1_deposit_reads]|].
    apply validate_l1_deposit_SOk in E as (-> & -> & _ & _ & f & Hf). serr H; [by eapply dispose_rejected|].
    apply dispose_effect in E as (_ & _ & _ & Hfr & Hc). rewrite sget_bind, Hfr, Hc, Hf in H. done.
  - unfold request_bridge_withdrawal in H. serr H; [apply reads_SErr in H as ->; [auto with untouched|apply validate_bridge_withdrawal_reads]|].
    apply validate_bridge_withdrawal_SOk in E as (-> & -> & Hn & _ & a & Ha & Hle). rewrite Hn in H.
    serr H; [done|]. rewrite sget_bind in H. serr H; [done|]. do 2 (serr H; [sfails H; auto with untouched|]). done.
Qed.

(** ** Witnesses *)

(** The state a successful operation leaves. *)
Definition after {A} (m : op A) (s : Sequencer) : Sequencer := match m s with SOk s' _ => s' | _ => s end.

Definition ex_store : AccountStore :=
  mkAccountStore {[AccountId_MINT := Account_new (λ _, []) AccountId_MINT 0; 4 := Account_new (λ _, []) 4 2500000]} 5.
Definition ex_seq : Sequencer :=
  mkSequencer ex_store (mkOrderBook [] ∅ ∅ 100) 12 ∅ (BridgeState_default ex_hash) [] ∅ [].

Definition ex_l1_deposit : L1Deposit :=
  let d := λ root, mkL1Deposit 1 (Some 4) 1 (replicate 20 17) (replicate 20 34) (replicate 20 51) (account_key ex_hash 4) 9000 root in
  d (from_option snd [] (bridge_append_deposit_frontier ex_hash empty_deposit_frontier 0 (d []))).
Definition ex_request : BridgeWithdrawalRequest :=
  mkBridgeWithdrawalRequest 4 1 (replicate 20 17) (replicate 20 51) (replicate 20 34) 700 5000.

Definition ex_s1 : Sequencer := after (ingest_l1_deposit ex_hash ex_hash ex_l1_deposit) ex_seq.
Definition ex_s2 : Sequencer := after (request_bridge_withdrawal ex_hash ex_request) ex_s1.
Definition ex_s3 : Sequencer := after (observe_bridge_l1_height 5001) ex_s2.

Lemma ex_s1_ok : ∃ r, ingest_l1_deposit ex_hash ex_hash ex_l1_deposit ex_seq = SOk ex_s1 r.
Proof. eexists. vm_compute. reflexivity. Qed.
Lemma ex_s2_ok : ∃ r, request_bridge_withdrawal ex_hash ex_request ex_s1 = SOk ex_s2 r.
Proof. eexists. vm_compute. reflexivity. Qed.
Lemma ex_s3_ok : ∃ r, observe_bridge_l1_height 5001 ex_s2 = SOk ex_s3 r.
Proof. eexists. vm_compute. reflexivity. Qed.

Lemma bridge_conserves_value_witness : bridge_assets ex_s3 = bridge_assets ex_seq + (9000 * NANOS_PER_TOKEN_UNIT + (0 + (0 + 0))).
Proof.
  destruct ex_s1_ok as [r1 H1], ex_s2_ok as [r2 H2], ex_s3_ok as [r3 H3].
  apply (bridge_conserves_value ex_hash ex_hash ex_seq ex_s3).
  - intros id w. cbn. by rewrite lookup_empty.
  - eapply steps_step; [exact (step_deposit _ _ _ _ _ _ H1)|].
    eapply steps_step; [refine (step_request _ _ _ _ _ _ _ H2); vm_compute; reflexivity|].
    eapply steps_step; [exact (step_height _ _ _ _ _ _ H3)|]. apply steps_refl.
Defined.

Lemma ex_seq_log : deposit_log ex_hash ex_seq [].
Proof.
  unfold deposit_log. split_and!; [done| | |done].
  - cbn [ex_seq sq_bridge BridgeState_default bs_deposit_root fmap list_fmap].
    rewrite bridge_empty_deposit_root_eq. unfold empty_deposit_root.
    rewrite (deposit_zero_hashes_lookup ex_hash DEPOSIT_TREE_DEPTH (le_n _)).
    unfold merkle_root. symmetry. apply tree_beyond; [lia|]. cbn [length]. lia.
  - apply represents_empty.
Qed.

Lemma deposits_follow_l1_log_witness : deposit_log ex_hash ex_s1 ([] ++ [ex_l1_deposit]).
Proof.
  destruct ex_s1_ok as [r1 H1].
  apply (deposits_follow_l1_log ex_hash ex_hash ex_seq ex_s1 [] ex_l1_deposit r1); [exact ex_seq_log|vm_compute; reflexivity|exact H1].
Defined.

Lemma rejected_bridge_call_changes_nothing_witness : untouched ex_s1 ex_s1.
Proof.
  apply (rejected_bridge_call_changes_nothing ex_hash ex_hash ex_l1_deposit ex_request ex_s1 ex_s1
    (SeqErr.Bridge (Err.NonSequentialDeposit 2 1))).
  left. vm_compute. reflexivity.
Defined.
