(* ===== verification/SystemPhase.v ===== *)
(** * SystemPhase: the system phase of block production

    Models the first part of [produce_block_in_place]
    ([crates/matching-sequencer/src/sequencer/production/mod.rs]): the queued
    system events are partitioned into the authorization phase and the rest,
    folded into the account digests, terminal withdrawals are dropped, and the
    witness conversions of [production/witness.rs] are applied. *)
From S2P Require Import Prelude Types Order Account Digest Validation OrderBook BatchSettlement Snapshots Finalize Witness Sidecar L1Protocol DepositFrontier AccountKeys SystemVerifier Bridge Sequencer BridgeOps.

(** Account creation, key operations and client actions form phase 0. *)
Definition authorization_event (e : Sys.SystemEvent) : bool :=
  match e with
  | Sys.CreateAccount _ _ _ | Sys.KeyRegistered _ _ _ | Sys.KeyRevoked _ _ _ | Sys.ClientActionAuthorized _ => true
  | _ => false
  end.

(** [sort_by_key] on a [bool] key is stable: a partition. *)
Definition sort_system_events (l : list Sys.SystemEvent) : list Sys.SystemEvent :=
  filter (λ e, authorization_event e = true) l ++ filter (λ e, authorization_event e = false) l.

Section phase.
Context (blake3 : Bytes → Bytes).

(** [if let Some(account) = self.accounts.get_mut(id) { account.events_digest = .. }] *)
Definition fold_account_event (encoded : Bytes) (accounts : AccountStore) (id : AccountId) : AccountStore :=
  match as_get accounts id with
  | Some a => as_insert id (set_events_digest (update_digest blake3 (acc_events_digest a) encoded) a) accounts
  | None => accounts
  end.

(** The body of the loop over the sorted events. *)
Definition fold_system_event (height : Z) (accounts : AccountStore) (e : Sys.SystemEvent) : AccountStore :=
  match e with
  | Sys.CreateAccount account_id initial_balance _ =>
      fold_account_event (encode_create_account_event initial_balance height) accounts account_id
  | Sys.Deposit account_id amount => fold_account_event (encode_deposit_event amount height) accounts account_id
  | Sys.L1Deposit account_id amount d =>
      fold_account_event (encode_l1_deposit_event (ld_deposit_id d) amount (ld_deposit_root d) height) accounts account_id
  | Sys.WithdrawalCreated account_id amount w =>
      fold_account_event (encode_withdrawal_created_event (wl_withdrawal_id w) amount (wl_nullifier w) height)
        accounts account_id
  | Sys.WithdrawalRefunded account_id withdrawal_id amount reason =>
      fold_account_event (encode_withdrawal_refunded_event withdrawal_id amount reason height) accounts account_id
  | Sys.MarketResolved market_id payout_nanos affected_accounts =>
      foldl (fold_account_event (encode_resolution_event market_id payout_nanos height)) accounts affected_accounts
  | Sys.OrderCancelled account_id order_id market_ids side remaining_quantity =>
      fold_account_event (encode_order_cancelled_event order_id market_ids side remaining_quantity height)
        accounts account_id
  | Sys.QuarantineClaimed account_id amount _ =>
      fold_account_event (encode_quarantine_claimed_event amount height) accounts account_id
  | Sys.WithdrawalFinalized _ _ _ | Sys.L1BlockObserved _ | Sys.MarketGroupExtended _ _ | Sys.DepositQuarantined _ _
  | Sys.KeyRegistered _ _ _ | Sys.KeyRevoked _ _ _ | Sys.ClientActionAuthorized _ => accounts
  end.

(** The withdrawal whose terminal event this is. *)
Definition terminal_withdrawal (e : Sys.SystemEvent) : option Z :=
  match e with
  | Sys.WithdrawalRefunded _ withdrawal_id _ _ | Sys.WithdrawalFinalized _ withdrawal_id _ => Some withdrawal_id
  | _ => None
  end.

Definition bridge_block_data (system_events : list Sys.SystemEvent) (b : BridgeState) : BridgeBlockData :=
  mkBridgeBlockData (bs_deposit_cursor b) (bs_deposit_root b)
    (omap (λ e, match e with Sys.L1Deposit _ _ d | Sys.DepositQuarantined _ d => Some d | _ => None end) system_events)
    (omap (λ e, match e with Sys.WithdrawalCreated _ _ w => Some w | _ => None end) system_events).

(** The system phase: the sorted events, the baselines and the bridge data of
    the block. *)
Definition system_phase : op (list Sys.SystemEvent * gmap Z (option Account) * BridgeBlockData) :=
  s ← sget;
  height ← slift (arith U64 (sq_height s + 1));
  smodify (set_height height);;
  s ← sget;
  let system_events := sort_system_events (sq_pending_system_events s) in
  let baselines := sq_baselines s in
  smodify (set_events []);;
  smodify (set_baselines ∅);;
  smodify (λ s, set_accounts (foldl (fold_system_event height) (sq_accounts s) system_events) s);;
  smodify (on_bridge (λ b, set_withdrawals
    (foldl (λ m id, delete id m) (bs_withdrawals b) (omap terminal_withdrawal system_events)) b));;
  s ← sget;
  mret (system_events, baselines, bridge_block_data system_events (sq_bridge s)).
End phase.

(** ** Witness conversion *)

Definition l1_deposit_witness (d : L1Deposit) : L1DepositWitness :=
  mkL1DepositWitness (ld_deposit_id d) (ld_chain_id d) (ld_vault_address d) (ld_token_address d) (ld_sender d)
    (ld_sybil_account_key d) (ld_amount_token_units d) (ld_deposit_root d).

Definition convert_system_event (e : Sys.SystemEvent) : Event.SystemEventWitness :=
  match e with
  | Sys.CreateAccount account_id initial_balance initial_keys => Event.CreateAccount account_id initial_balance initial_keys
  | Sys.Deposit account_id amount => Event.Deposit account_id amount
  | Sys.L1Deposit account_id amount d =>
      Event.L1Deposit account_id amount (ld_deposit_id d) (ld_deposit_root d) (ld_sybil_account_key d)
  | Sys.WithdrawalCreated account_id amount w =>
      Event.WithdrawalCreated account_id amount (wl_withdrawal_id w) (wl_recipient w) (wl_token_address w)
        (wl_amount_token_units w) (wl_expiry_height w) (wl_nullifier w)
  | Sys.WithdrawalRefunded account_id withdrawal_id amount reason =>
      Event.WithdrawalRefunded account_id withdrawal_id amount reason
  | Sys.WithdrawalFinalized account_id withdrawal_id amount => Event.WithdrawalFinalized account_id withdrawal_id amount
  | Sys.L1BlockObserved height => Event.L1BlockObserved height
  | Sys.MarketResolved market_id payout_nanos affected_accounts => Event.MarketResolved market_id payout_nanos affected_accounts
  | Sys.OrderCancelled account_id order_id market_ids side remaining_quantity =>
      Event.OrderCancelled account_id order_id market_ids side remaining_quantity
  | Sys.MarketGroupExtended group_id market_id => Event.MarketGroupExtended group_id market_id
  | Sys.KeyRegistered account_id key authorization => Event.KeyRegistered account_id key authorization
  | Sys.KeyRevoked account_id key authorization => Event.KeyRevoked account_id key authorization
  | Sys.DepositQuarantined amount d =>
      Event.DepositQuarantined amount (ld_deposit_id d) (ld_deposit_root d) (ld_sybil_account_key d)
  | Sys.QuarantineClaimed account_id amount sybil_account_key => Event.QuarantineClaimed account_id amount sybil_account_key
  | Sys.ClientActionAuthorized action => Event.ClientActionAuthorized action
  end.

(** The deposits of the accumulator witness, from [assemble_witness_artifacts]. *)
Definition new_deposits (events : list Sys.SystemEvent) : list L1DepositWitness :=
  omap (λ e, match e with
             | Sys.L1Deposit _ _ d | Sys.DepositQuarantined _ d => Some (l1_deposit_witness d)
             | _ => None
             end) events.

(** The snapshot of an account at block start: its baseline, if it was touched. *)
Definition block_start_account (baselines : gmap Z (option Account)) (e : Z * Account) : option AccountSnapshot :=
  match baselines !! e.1 with
  | Some (Some baseline) => Some (snapshot_account baseline)
  | Some None => None
  | None => Some (snapshot_account e.2)
  end.

(** [entries] is the iteration order of the account store. *)
Definition build_witness_phase_snapshots (entries : list (Z * Account)) (baselines : gmap Z (option Account))
    : list AccountSnapshot * list AccountSnapshot :=
  (from_snapshot_iter (omap (block_start_account baselines) entries), CanonicalState_from_accounts entries).
