(* ===== verification/MarketRuns.v ===== *)
(** * MarketRuns: markets and groups between two blocks

    What a run of sequencer operations between two blocks does to markets and
    groups, told by the queued events: which markets resolved and at what payout,
    and which members every group gained or lost. *)
From S2P Require Import Prelude Types Order Market Account OrderBook Digest Finalize Witness SystemVerifier Oracle Bridge Sequencer MarketLifecycle MarketGroups SystemPhase.

(** ** The events of markets *)

Definition resolution_of (e : Sys.SystemEvent) : option (Z * Nanos) :=
  match e with Sys.MarketResolved m y _ => Some (m, y) | _ => None end.
Definition extension_of (e : Sys.SystemEvent) : option (Z * MarketId) :=
  match e with Sys.MarketGroupExtended g m => Some (g, m) | _ => None end.

Definition resolutions (s : MarketSequencer) : list (Z * Nanos) := omap resolution_of (sq_pending_system_events (mq_seq s)).
Definition extensions (s : MarketSequencer) : list (Z * MarketId) := omap extension_of (sq_pending_system_events (mq_seq s)).
Definition resolved_now (s : MarketSequencer) (m : MarketId) : Prop := m ∈ (resolutions s).*1.

(** Sorting the events of a block keeps those of markets, in order. *)
Lemma omap_phase {A} (f : Sys.SystemEvent → option A) l : (∀ e, authorization_event e = true → f e = None) →
  omap f (sort_system_events l) = omap f l.
Proof.
  intros Hf. unfold sort_system_events. rewrite omap_app.
  assert (omap f (filter (λ e, authorization_event e = true) l) = []) as ->.
  { induction l as [|e l IH]; [done|]. rewrite filter_cons. case_decide as He; [|done]. cbn [omap list_omap]. by rewrite (Hf e He). }
  induction l as [|e l IH]; [done|]. rewrite filter_cons. case_decide as He; cbn [omap list_omap app]; [by rewrite <- IH|].
  rewrite (Hf e); [done|]. by destruct (authorization_event e).
Qed.

(** ** Operations of a block *)

(** An operation on markets, or one that leaves groups and market events alone. *)
Inductive block_op (iter : gmap Z MarketMetadata → list (Z * MarketMetadata)) : MarketSequencer → MarketSequencer → Prop :=
  | op_market s s' : market_step iter s s' → block_op iter s s'
  | op_other s q : sq_market_groups q = mq_groups s →
      omap resolution_of (sq_pending_system_events q) = resolutions s → omap extension_of (sq_pending_system_events q) = extensions s →
      block_op iter s (mkMarketSequencer q (mq_markets s) (mq_lifecycle s)).

(** How the events explain a step: nothing, an extension, or a resolution. *)
Inductive explained (s s' : MarketSequencer) : Prop :=
  | ex_same news : resolutions s' = resolutions s → extensions s' = extensions s →
      (∀ m, market_status (mq_lifecycle s') m = market_status (mq_lifecycle s) m) → mq_groups s' = mq_groups s ++ news → explained s s'
  | ex_extended i g m : resolutions s' = resolutions s → extensions s' = extensions s ++ [(Z.of_nat i, m)] →
      mq_lifecycle s' = mq_lifecycle s → market_status (mq_lifecycle s) m = Active → mq_groups s !! i = Some g →
      mq_groups s' = <[i := mkMarketGroup (mg_name g) (mg_creation_key g) (mg_markets g ++ [m])]> (mq_groups s) → explained s s'
  | ex_resolved m r : resolutions s' = resolutions s ++ [(m, rec_payout_nanos r)] → extensions s' = extensions s →
      resolved_to s s' m r → explained s s'.

Lemma group_explained name key ids s s' r : create_market_group_with_key name key ids s = SOk s' r → explained s s'.
Proof.
  intros [[-> _]|(g & _ & _ & -> & _)]%create_group_SOk; [apply (ex_same _ _ []); by rewrite ?app_nil_r|]. by apply (ex_same _ _ [g]).
Qed.

Lemma extend_explained gid m s s' r : 0 ≤ gid → extend_market_group gid m s = SOk s' r → explained s s'.
Proof.
  intros Hgid (g & Hg & [(_ & _ & ->)|(g' & _ & -> & _ & Ha & _ & ->)])%extend_SOk; [apply (ex_same _ _ []); by rewrite ?app_nil_r|].
  apply (ex_extended _ _ (Z.to_nat gid) g m); try done; unfold resolutions, extensions; cbn; rewrite omap_app; cbn; [by rewrite app_nil_r|].
  by rewrite Z2Nat.id.
Qed.

Lemma resolved_explained s s' m r : resolved_to s s' m r → explained s s'.
Proof.
  intros Hto. pose proof Hto as (_ & _ & _ & _ & _ & _ & (aff & He) & _).
  apply (ex_resolved _ _ m r); try done; unfold resolutions, extensions; rewrite He, omap_app; [done|]. cbn. apply app_nil_r.
Qed.

Lemma step_explained iter s s' : block_op iter s s' → explained s s'.
Proof.
  intros Hop. destruct Hop as [s s' Hstep|s q Hg Hr He]; [|apply (ex_same _ _ []); try done; by rewrite app_nil_r].
  destruct Hstep as [name s s' id H|name md s s' id H|name ids s s' r H|name key ids s s' r H|gid m s s' r Hgid H
    |ids m y t s s' r H|ids m signed t s s' r H|pk name t s s' id H|tpl s s' u H].
  - apply create_market_SOk in H as (_ & _ & ->). apply (ex_same _ _ []); try done. by rewrite app_nil_r.
  - apply create_with_SOk in H as [[-> _]|(_ & _ & _ & ->)]; apply (ex_same _ _ []); try done; by rewrite app_nil_r.
  - unfold create_market_group in H. destruct (create_market_group_with_key _ _ _ _) eqn:E; [|done..]. simplify_eq. by eapply group_explained.
  - by eapply group_explained.
  - by eapply extend_explained.
  - by eapply resolved_explained, seq_resolve_SOk.
  - by eapply resolved_explained, seq_attested_SOk.
  - unfold register_feed in H. destruct (register _ _ _ _) as [fr i| |]; [|done..]. injection H as <- <-. apply (ex_same _ _ []); try done. by rewrite app_nil_r.
  - injection H as <-. apply (ex_same _ _ []); try done. by rewrite app_nil_r.
Qed.

(** ** Runs *)

Record market_run (s0 s : MarketSequencer) : Prop := {
  mru_inv : market_inv s;
  mru_kept : market_kept s0 s;
  mru_once : NoDup (resolutions s).*1;
  mru_event : ∀ m y, (m, y) ∈ resolutions s →
    is_Some (ms_markets (mq_markets s) !! m) ∧ y ≤ NANOS_PER_DOLLAR ∧ market_status (mq_lifecycle s0) m = Active ∧
    ∃ r, market_status (mq_lifecycle s) m = Resolved r ∧ rec_payout_nanos r = y;
  mru_same : ∀ m, ¬ resolved_now s m → market_status (mq_lifecycle s) m = market_status (mq_lifecycle s0) m;
}.

Lemma run_start s : market_inv s → resolutions s = [] → market_run s s.
Proof. intros Hinv Hr. split; rewrite ?Hr; try done; [constructor|]. intros m y. by rewrite elem_of_nil. Qed.

Lemma block_op_inv iter s s' : (∀ m, iter m ≡ₚ map_to_list m) → block_op iter s s' → market_inv s → market_inv s' ∧ market_kept s s'.
Proof.
  intros Hiter [s1 s1' Hstep|s1 q Hg _ _] Hinv; [split; [by eapply market_step_inv|by eapply market_step_kept]|].
  destruct Hinv as [H1 H2 H3 H4 H5 H6 H7 H8 H9 H10]. assert (mq_groups (mkMarketSequencer q (mq_markets s1) (mq_lifecycle s1)) = mq_groups s1) as Hq by done.
  split; [split; rewrite ?Hq; done|by split].
Qed.

Lemma resolved_active s0 s m : market_run s0 s → market_status (mq_lifecycle s) m = Active → ¬ resolved_now s m.
Proof.
  intros Hrun Ha Hm. unfold resolved_now in Hm. apply list_elem_of_fmap in Hm as ([x y] & -> & Hin).
  apply (mru_event _ _ Hrun) in Hin as (_ & _ & _ & r & Hr & _). cbn in *. congruence.
Qed.

Lemma market_run_step iter s0 s s' : (∀ m, iter m ≡ₚ map_to_list m) → block_op iter s s' → market_run s0 s → market_run s0 s'.
Proof.
  intros Hiter Hop Hrun. destruct (block_op_inv _ _ _ Hiter Hop (mru_inv _ _ Hrun)) as [Hinv Hkept].
  assert (∀ m, is_Some (ms_markets (mq_markets s) !! m) → is_Some (ms_markets (mq_markets s') !! m)) as Hmono.
  { intros m [x Hx]. exists x. eapply lookup_weaken; [done|apply Hkept]. }
  pose proof Hrun as [_ K O E S]. unfold resolved_now in *.
  destruct (step_explained _ _ _ Hop) as [news Hr _ Hs _|i g m Hr _ Hl _ _ _|m r Hr _ Hto].
  - split; unfold resolved_now; rewrite ?Hr; [done|by etrans|done| |by intros m Hm; rewrite Hs, S].
    intros m y (? & ? & ? & r & ? & ?)%E. split_and!; [by apply Hmono|done..|]. exists r. by rewrite Hs.
  - split; unfold resolved_now; rewrite ?Hr, ?Hl; [done|by etrans|done| |done].
    intros x y (? & ? & ? & ?)%E. split_and!; [by apply Hmono|done..].
  - pose proof Hto as (Hex & Ha & Hp & Hl & Hm & _).
    assert (¬ resolved_now s m) as Hnew by (by eapply resolved_active).
    assert (∀ x, market_status (mq_lifecycle s') x = if decide (m = x) then Resolved r else market_status (mq_lifecycle s) x) as Hst.
    { intros x. rewrite Hl. unfold market_status. cbn. rewrite lookup_insert. by destruct (decide (m = x)). }
    split; unfold resolved_now; rewrite ?Hr, ?fmap_app; [done|by etrans| | |].
    + apply NoDup_app. split_and!; [done| |by apply NoDup_singleton]. intros x Hx. cbn. rewrite list_elem_of_singleton. by intros ->.
    + intros x y. rewrite elem_of_app, list_elem_of_singleton. intros [Hin|[= -> ->]].
      * pose proof Hin as (? & ? & ? & r' & Hr' & ?)%E. split_and!; [by apply Hmono|done..|]. exists r'. split; [|done].
        rewrite Hst, decide_False; [done|]. intros ->. apply Hnew. unfold resolved_now. apply list_elem_of_fmap. by exists (x, y).
      * split_and!; [|done| |].
        -- rewrite Hm. destruct Hex as [z Hz]. unfold ms_get in Hz. destruct (is_none m); [done|eauto].
        -- by rewrite <- S.
        -- exists r. by rewrite Hst, decide_True.
    + intros x Hx. rewrite not_elem_of_app in Hx. destruct Hx as [Hx Hne]. rewrite Hst, decide_False; [by apply S|].
      intros ->. apply Hne. cbn. by apply list_elem_of_singleton.
Qed.

Lemma market_run_steps iter s0 s s' : (∀ m, iter m ≡ₚ map_to_list m) → rtc (block_op iter) s s' → market_run s0 s → market_run s0 s'.
Proof. intros Hiter. induction 1 as [|? ? ? H _ IH]; intros Hrun; [done|]. by eapply IH, market_run_step. Qed.

(** ** Runs in which no group is dissolved *)

Definition keeps_groups (s s' : MarketSequencer) : Prop := (length (mq_groups s) ≤ length (mq_groups s'))%nat.
Definition stable_op (iter : gmap Z MarketMetadata → list (Z * MarketMetadata)) (s s' : MarketSequencer) : Prop :=
  block_op iter s s' ∧ keeps_groups s s'.

(** Every group keeps its position, name and key; its members are the old ones
    and the added ones, without those resolved. *)
Definition group_run (s0 s : MarketSequencer) : Prop := ∀ i g0, mq_groups s0 !! i = Some g0 →
  ∃ g, mq_groups s !! i = Some g ∧ mg_name g = mg_name g0 ∧ mg_creation_key g = mg_creation_key g0 ∧
    ∀ m, m ∈ mg_markets g ↔ (m ∈ mg_markets g0 ∨ (Z.of_nat i, m) ∈ extensions s) ∧ ¬ resolved_now s m.

Lemma omap_total {A B} (f : A → option B) l i x : (length l ≤ length (omap f l))%nat → l !! i = Some x →
  ∃ y, f x = Some y ∧ omap f l !! i = Some y.
Proof.
  assert (∀ l, (length (omap f l) ≤ length l)%nat) as Hle.
  { intros k. induction k as [|a k IH]; [done|]. cbn [omap list_omap]. destruct (f a); cbn [length]; lia. }
  revert i. induction l as [|a l IH]; intros i Hl Hi; [done|]. cbn [omap list_omap] in *. specialize (Hle l). destruct (f a) as [b|] eqn:Hf; cbn [length] in *; [|lia].
  destruct i as [|i]; cbn in Hi; [simplify_eq; eauto|]. apply IH; [lia|done].
Qed.

Lemma group_run_step iter s0 s s' : (∀ m, iter m ≡ₚ map_to_list m) → stable_op iter s s' → market_run s0 s → group_run s0 s → group_run s0 s'.
Proof.
  intros Hiter [Hop Hkeep] Hrun Hgr i g0 Hg0. destruct (Hgr i g0 Hg0) as (g & Hg & Hn & Hk & Hms). unfold resolved_now in *.
  destruct (step_explained _ _ _ Hop) as [news Hr He _ Hgs|j h m Hr He _ Ha Hh Hgs|m r Hr He (_ & _ & _ & _ & _ & Hgs & _)].
  - exists g. rewrite Hgs, Hr, He. split_and!; try done. by apply lookup_app_l_Some.
  - rewrite Hgs, Hr, He. destruct (decide (j = i)) as [->|Hne].
    + rewrite Hg in Hh. injection Hh as <-. rewrite list_lookup_insert_eq by (by eapply lookup_lt_Some). eexists. split; [done|]. cbn. split_and!; [done..|].
      intros x. rewrite !elem_of_app, !list_elem_of_singleton, Hms. pose proof (resolved_active _ _ _ Hrun Ha) as Hna. unfold resolved_now in Hna.
      split; [intros [?| ->]; naive_solver|]. intros [[?|[?|[= ->]]] ?]; naive_solver.
    + rewrite list_lookup_insert_ne by done. exists g. split_and!; try done. intros x. rewrite Hms, elem_of_app, list_elem_of_singleton. naive_solver.
  - rewrite Hr, He, Hgs. unfold keeps_groups in Hkeep. rewrite Hgs in Hkeep.
    destruct (omap_total _ _ _ _ Hkeep Hg) as (g' & Hs & Hi). exists g'. apply shrink_group_Some in Hs as (Hn' & Hk' & Hm').
    split_and!; [done|congruence..|]. intros x. rewrite Hm', list_elem_of_filter, Hms, fmap_app, not_elem_of_app. cbn. rewrite list_elem_of_singleton. tauto.
Qed.

Lemma stable_run iter s0 s s' : (∀ m, iter m ≡ₚ map_to_list m) → rtc (stable_op iter) s s' → market_run s0 s → group_run s0 s →
  market_run s0 s' ∧ group_run s0 s'.
Proof.
  intros Hiter. induction 1 as [|s s1 s' H _ IH]; intros Hrun Hgr; [done|]. apply IH; [by eapply market_run_step; [|apply H|]|by eapply group_run_step].
Qed.
