(* ===== verification/SystemEffects.v ===== *)
(** * SystemEffects: system events seen from one account

    Every system event acts on accounts independently.  [effects] lists what an
    event does to one account, [run] replays such a list on its snapshot, and
    the verifier's replay of [SystemVerifier] is shown to be [run] on every
    account at once.  The lemmas at the end relate the value part of a run to
    the account records of the sequencer. *)
From S2P Require Import Prelude Types Order EngineSettlement Account Digest BatchSettlement Snapshots Finalize Witness Sidecar SettlementVerifier VerifierAgreement L1Protocol DepositFrontier AccountKeys SystemVerifier Bridge Sequencer BridgeOps SystemPhase.

Inductive effect :=
  | Created (balance : Z) (keys : list KeyRecord) (encoded : Bytes)
  | Credited (amount : Z) (deposit : bool) (encoded : Bytes)
  | Resolved (market : MarketId) (payout : Nanos) (encoded : Bytes)
  | Folded (encoded : Bytes)
  | KeyFolded (encoded : Bytes)
  | Acted (nonce : Z).

Definition on_account (id id' : Z) (v : effect) : list effect := if decide (id = id') then [v] else [].

(** What event [e] of a block at height [h] does to account [id]. *)
Definition effects (h id : Z) (e : Sys.SystemEvent) : list effect :=
  match e with
  | Sys.CreateAccount i b ks => on_account id i (Created b ks (encode_create_account_event b h))
  | Sys.Deposit i n => on_account id i (Credited n true (encode_deposit_event n h))
  | Sys.L1Deposit i n d => on_account id i (Credited n true (encode_l1_deposit_event (ld_deposit_id d) n (ld_deposit_root d) h))
  | Sys.WithdrawalCreated i n w =>
      on_account id i (Credited (- n) false (encode_withdrawal_created_event (wl_withdrawal_id w) n (wl_nullifier w) h))
  | Sys.WithdrawalRefunded i wid n r => on_account id i (Credited n false (encode_withdrawal_refunded_event wid n r h))
  | Sys.MarketResolved m y ids => if decide (id ∈ ids) then [Resolved m y (encode_resolution_event m y h)] else []
  | Sys.OrderCancelled i oid ms side q => on_account id i (Folded (encode_order_cancelled_event oid ms side q h))
  | Sys.QuarantineClaimed i n _ => on_account id i (Credited n true (encode_quarantine_claimed_event n h))
  | Sys.KeyRegistered i k _ => on_account id i (KeyFolded (encode_key_registered_event k h))
  | Sys.KeyRevoked i k _ => on_account id i (KeyFolded (encode_key_revoked_event k h))
  | Sys.ClientActionAuthorized a => on_account id (action_account_nonce a).1 (Acted (action_account_nonce a).2)
  | Sys.WithdrawalFinalized _ _ _ | Sys.L1BlockObserved _ | Sys.MarketGroupExtended _ _ | Sys.DepositQuarantined _ _ => []
  end.

(** Each account is resolved at most once per event. *)
Definition event_wf (e : Sys.SystemEvent) : Prop :=
  match e with Sys.MarketResolved _ _ ids => NoDup ids | _ => True end.

Section run.
Context (blake3 sha256 : Bytes → Bytes).

(** One effect on the snapshot of account [id]; [None] is a replay error. *)
Definition apply_effect (id : Z) (x : option AccountSnapshot) (v : effect) : option (option AccountSnapshot) :=
  match v, x with
  | Created b ks enc, None =>
      Some (Some (mkAccountSnapshot id b b [] (update_digest blake3 (replicate 32 0) enc) (account_keys_digest sha256 id ks) 0))
  | Credited n dep enc, Some s =>
      b ← chk I64 (asn_balance s + n);
      t ← (if (dep : bool) then chk I64 (asn_total_deposited s + n) else Some (asn_total_deposited s));
      Some (Some (fold_event blake3 enc (set_asn_total_deposited t (set_asn_balance b s))))
  | Resolved m y enc, Some s =>
      let '(s, yes) := remove_position s m 0 in
      let '(s, no) := remove_position s m 1 in
      v1 ← signed_notional y yes;
      v2 ← signed_notional (sat U64 (NANOS_PER_DOLLAR - y)) no;
      b1 ← chk I64 (asn_balance s + v1);
      b2 ← chk I64 (b1 + v2);
      Some (Some (fold_event blake3 enc (set_asn_balance b2 s)))
  | Folded enc, Some s | KeyFolded enc, Some s => Some (Some (fold_event blake3 enc s))
  | Acted n, Some s => if n <=? asn_last_trading_nonce s then None else Some (Some (set_asn_last_trading_nonce n s))
  | _, _ => None
  end.

Fixpoint run (id : Z) (x : option AccountSnapshot) (vs : list effect) : option (option AccountSnapshot) :=
  match vs with
  | [] => Some x
  | v :: vs => x' ← apply_effect id x v; run id x' vs
  end.

Lemma run_app id x vs vs' : run id x (vs ++ vs') = (x' ← run id x vs; run id x' vs').
Proof. revert x. induction vs as [|v vs IH]; intros x; cbn; [done|]. destruct (apply_effect id x v); cbn; auto. Qed.

Lemma run_snoc id x vs v : run id x (vs ++ [v]) = (x' ← run id x vs; apply_effect id x' v).
Proof. rewrite run_app. destruct (run id x vs) as [y|]; cbn; [|done]. by destruct (apply_effect id y v). Qed.

(** ** The verifier's replay, account by account *)

Lemma account_mut_bind {B} id (M : gmap Z AccountSnapshot) s (f : AccountSnapshot → st _ unit B) :
  M !! id = Some s → (account_mut id ≫= f) M = f s M.
Proof. intros Hs. cbv [account_mut mbind st_bind sget slift]. by rewrite Hs. Qed.

Lemma checked_bind {B} z b (M : gmap Z AccountSnapshot) (f : Z → st _ unit B) :
  chk I64 z = Some b → (checked_i64 z ≫= f) M = f b M.
Proof. intros Hz. cbv [checked_i64 mbind st_bind slift]. by rewrite Hz. Qed.

Lemma put_bind {B} id s (M : gmap Z AccountSnapshot) (f : unit → st _ unit B) :
  (put_account id s ≫= f) M = f () (<[id := s]> M).
Proof. done. Qed.

(** Step through the replay of an event whose checks are known to succeed. *)
Ltac replay_steps := repeat first
  [ erewrite account_mut_bind by eassumption | erewrite checked_bind by eassumption | rewrite put_bind
  | progress sstep ].

Lemma resolution_step h m y id M s' :
  apply_effect id (M !! id) (Resolved m y (encode_resolution_event m y h)) = Some s' →
  replay_resolution blake3 m y h id M = SOk (partial_alter (λ _, s') id M) ().
Proof.
  cbn [apply_effect]. destruct (M !! id) as [s|] eqn:Hs; [|done]. intros H. unfold replay_resolution. replay_steps.
  destruct (remove_position s m 0) as [s1 yes], (remove_position s1 m 1) as [s2 no].
  destruct (signed_notional y yes) as [v1|]; [|done]. destruct (signed_notional _ no) as [v2|]; [|done].
  cbn [mbind option_bind] in H. destruct (chk I64 (asn_balance s2 + v1)) as [b1|] eqn:H1; [|done].
  cbn [mbind option_bind] in H. destruct (chk I64 (b1 + v2)) as [b2|] eqn:H2; [|done]. injection H as <-.
  cbn [ok_or]. replay_steps. cbv [put_account smodify]. f_equal. rewrite !insert_insert_eq. done.
Qed.

Lemma resolution_loop h m y ids M (f : Z → option AccountSnapshot) :
  NoDup ids →
  (∀ id, id ∈ ids → apply_effect id (M !! id) (Resolved m y (encode_resolution_event m y h)) = Some (f id)) →
  ∃ M', sforeach (replay_resolution blake3 m y h) ids M = SOk M' () ∧
    ∀ id, M' !! id = if decide (id ∈ ids) then f id else M !! id.
Proof.
  revert M. induction ids as [|i ids IH]; intros M Hnd Hf.
  { exists M. split; [done|]. intros id. by rewrite decide_False by apply not_elem_of_nil. }
  apply NoDup_cons in Hnd as [Hi Hnd]. cbn [sforeach].
  destruct (IH (partial_alter (λ _, f i) i M) Hnd) as (M' & HM & Hlk).
  { intros id Hid. rewrite lookup_partial_alter_ne by set_solver. apply Hf. set_solver. }
  exists M'. split.
  - by rewrite (sbind_SOk _ _ _ _ _ (resolution_step _ _ _ _ _ _ (Hf i ltac:(left)))).
  - intros id. rewrite Hlk. destruct (decide (id = i)) as [->|Hne].
    + rewrite decide_False, decide_True by set_solver. by rewrite lookup_partial_alter_eq.
    + rewrite lookup_partial_alter_ne by done. destruct (decide (id ∈ ids)), (decide (id ∈ i :: ids)); set_solver.
Qed.

(** The event acts on a single account. *)
Lemma single_account i v (M : gmap Z AccountSnapshot) (f : Z → option AccountSnapshot) :
  (∀ id, run id (M !! id) (on_account id i v) = Some (f id)) →
  apply_effect i (M !! i) v = Some (f i) ∧ ∀ id, partial_alter (λ _, f i) i M !! id = f id.
Proof.
  intros H. split.
  - specialize (H i). unfold on_account in H. rewrite decide_True in H by done. cbn in H.
    by destruct (apply_effect i (M !! i) v).
  - intros id. destruct (decide (id = i)) as [->|Hne]; [by rewrite lookup_partial_alter_eq|].
    rewrite lookup_partial_alter_ne by done. specialize (H id). unfold on_account in H. rewrite decide_False in H by done.
    by injection H.
Qed.

Lemma none_replays (M : gmap Z AccountSnapshot) (f : Z → option AccountSnapshot) :
  (∀ id, run id (M !! id) [] = Some (f id)) → ∀ id, M !! id = f id.
Proof. intros H id. specialize (H id). by injection H. Qed.

(** The building blocks of the replay, as effects. *)
Lemma credit_deposit_run id n enc M x :
  apply_effect id (M !! id) (Credited n true enc) = Some x →
  credit_deposit blake3 id n enc M = SOk (partial_alter (λ _, x) id M) ().
Proof.
  cbn [apply_effect]. destruct (M !! id) as [s|] eqn:Hs; [|done].
  destruct (chk I64 (asn_balance s + n)) as [b|] eqn:Hb; [|done]. cbn [mbind option_bind].
  destruct (chk I64 (asn_total_deposited s + n)) as [t|] eqn:Ht; [|done]. intros [= <-].
  unfold credit_deposit. replay_steps. cbv [put_account smodify]. f_equal. by rewrite !insert_insert_eq.
Qed.

Lemma credit_balance_run id n enc M x :
  apply_effect id (M !! id) (Credited n false enc) = Some x →
  credit_balance blake3 id n enc M = SOk (partial_alter (λ _, x) id M) ().
Proof.
  cbn [apply_effect]. destruct (M !! id) as [s|] eqn:Hs; [|done].
  destruct (chk I64 (asn_balance s + n)) as [b|] eqn:Hb; [|done]. intros [= <-].
  unfold credit_balance. by replay_steps.
Qed.

Lemma fold_only_run id enc M x :
  apply_effect id (M !! id) (Folded enc) = Some x → fold_only blake3 id enc M = SOk (partial_alter (λ _, x) id M) ().
Proof.
  cbn [apply_effect]. destruct (M !! id) as [s|] eqn:Hs; [|done]. intros [= <-]. unfold fold_only. by replay_steps.
Qed.

Lemma apply_event_run h e M (f : Z → option AccountSnapshot) :
  event_wf e → (∀ id, run id (M !! id) (effects h id e) = Some (f id)) →
  ∃ M', apply_event blake3 sha256 (convert_system_event e) h M = SOk M' () ∧ ∀ id, M' !! id = f id.
Proof.
  intros Hwf H. destruct e as [i b ks|i n|i n d|i n w|i wid n r| | |m y ids|i oid ms side q| |i k au|i k au| |i n k|a];
    cbn [convert_system_event effects] in *; cbn [apply_event];
    try (exists M; split; [done|by apply none_replays]); try (apply single_account in H as [H Hf]; eexists; split; [|exact Hf]).
  - rewrite sget_bind. cbn [apply_effect] in H. destruct (M !! i); [done|]. by injection H as <-.
  - by apply credit_deposit_run.
  - by apply credit_deposit_run.
  - apply (credit_balance_run i (- n)). done.
  - by apply credit_balance_run.
  - destruct (resolution_loop h m y ids M f Hwf) as (M' & HM & Hlk).
    { intros id Hid. specialize (H id). rewrite decide_True in H by done. cbn [run] in H. by destruct (apply_effect _ _ _). }
    exists M'. split; [done|]. intros id. rewrite Hlk. case_decide; [done|]. specialize (H id).
    rewrite decide_False in H by done. by injection H.
  - by apply fold_only_run.
  - by apply fold_only_run.
  - by apply fold_only_run.
  - by apply credit_deposit_run.
  - destruct (action_account_nonce a) as [i n]. cbn [fst snd apply_effect] in *. destruct (M !! i) as [s|] eqn:Hs; [|done].
    replay_steps. destruct (n <=? asn_last_trading_nonce s); [done|]. by injection H as <-.
Qed.

Lemma replay_run h l M (f : Z → option AccountSnapshot) :
  Forall event_wf l → (∀ id, run id (M !! id) (l ≫= effects h id) = Some (f id)) →
  ∃ M', ofold (replay_step blake3 sha256 h) (M, []) (convert_system_event <$> l) = Ok (M', []) ∧ ∀ id, M' !! id = f id.
Proof.
  revert M. induction l as [|e l IH]; intros M Hwf H.
  { exists M. split; [done|]. by apply none_replays. }
  apply Forall_cons in Hwf as [He Hwf].
  destruct (apply_event_run h e M (λ id, default None (run id (M !! id) (effects h id e))) He) as (M1 & HM1 & Hlk1).
  { intros id. specialize (H id). rewrite bind_cons, run_app in H. by destruct (run id (M !! id) (effects h id e)). }
  destruct (IH M1 Hwf) as (M' & HM' & Hlk').
  { intros id. rewrite Hlk1. specialize (H id). rewrite bind_cons, run_app in H.
    by destruct (run id (M !! id) (effects h id e)). }
  exists M'. split; [|done]. rewrite fmap_cons. cbn [ofold].
  assert (replay_step blake3 sha256 h (M, []) (convert_system_event e) = Ok (M1, [])) as -> by (unfold replay_step; by rewrite HM1).
  exact HM'.
Qed.

(** ** Values

    The balance, the total deposited and the positions of an account against
    those of a snapshot whose position keys are distinct. *)
Record vsim (a : Account) (s : AccountSnapshot) : Prop := {
  vs_balance : acc_balance a = asn_balance s;
  vs_total : acc_total_deposited a = asn_total_deposited s;
  vs_position : ∀ k, get0 (acc_positions a) k = get0 (positions_map (asn_positions s)) k;
  vs_keys : NoDup (asn_positions s).*1;
}.

Definition values (s : AccountSnapshot) : Z * Z * list (MarketId * Z * Z) :=
  (asn_balance s, asn_total_deposited s, asn_positions s).

Definition snap (a : Account) : AccountSnapshot := canonicalize_snapshot (snapshot_account a).

Lemma vsim_snap a : vsim a (snap a).
Proof.
  pose proof (snapshot_positions_perm a) as Hp. split; [done|done| |].
  - intros k. symmetry. by apply canonical_positions_get0.
  - unfold snap. rewrite Hp. eapply sublist_NoDup; [apply (NoDup_fst_map_to_list (acc_positions a))|]. apply fmap_sublist, sublist_filter.
Qed.

Lemma vsim_same a s s' : vsim a s → values s = values s' → vsim a s'.
Proof. intros [? ? ? ?] [= Hb Ht Hp]. split; rewrite <- ?Hb, <- ?Ht, <- ?Hp; done. Qed.

(** Value effects: those of the second phase. *)
Definition value_effect (v : effect) : bool :=
  match v with Created _ _ _ | KeyFolded _ | Acted _ => false | _ => true end.

(** What block production folds into the digest of an account for an effect;
    key operations were folded when they were admitted. *)
Definition block_digest (d : Bytes) (v : effect) : Bytes :=
  match v with
  | Created _ _ enc | Credited _ _ enc | Resolved _ _ enc | Folded enc => update_digest blake3 d enc
  | KeyFolded _ | Acted _ => d
  end.

Definition remove_key (m : MarketId) (o : Z) (p : list (MarketId * Z * Z)) : list (MarketId * Z * Z) :=
  filter (λ e, bool_decide (e.1.1 = m ∧ e.1.2 = o) = false) p.
Definition removed (m : MarketId) (o : Z) (p : list (MarketId * Z * Z)) : Z :=
  from_option snd 0 (last (filter (λ e, bool_decide (e.1.1 = m ∧ e.1.2 = o) = true) p)).

(** The value part of an effect. *)
Definition value_step (v : effect) (x : Z * Z * list (MarketId * Z * Z)) : option (Z * Z * list (MarketId * Z * Z)) :=
  let '(b, t, p) := x in
  match v with
  | Credited n dep _ =>
      b' ← chk I64 (b + n);
      t' ← (if (dep : bool) then chk I64 (t + n) else Some t);
      Some (b', t', p)
  | Resolved m y _ =>
      let p' := remove_key m 0 p in
      v1 ← signed_notional y (removed m 0 p);
      v2 ← signed_notional (sat U64 (NANOS_PER_DOLLAR - y)) (removed m 1 p');
      b1 ← chk I64 (b + v1);
      b2 ← chk I64 (b1 + v2);
      Some (b2, t, remove_key m 1 p')
  | _ => Some (b, t, p)
  end.

Definition with_values (x : Z * Z * list (MarketId * Z * Z)) (d : Bytes) (s : AccountSnapshot) : AccountSnapshot :=
  mkAccountSnapshot (asn_id s) x.1.1 x.1.2 x.2 d (asn_keys_digest s) (asn_last_trading_nonce s).

Lemma apply_value_effect id s v : value_effect v = true →
  apply_effect id (Some s) v = (λ x, Some (with_values x (block_digest (asn_events_digest s) v) s)) <$> value_step v (values s).
Proof.
  intros Hv. destruct v as [|n dep enc|m y enc|enc| |]; try discriminate Hv; cbn [apply_effect value_step values].
  - destruct (chk I64 (asn_balance s + n)) as [b|]; [|done]. cbn [mbind option_bind].
    by destruct (if dep then chk I64 (asn_total_deposited s + n) else _).
  - unfold remove_position. cbn [asn_positions set_asn_positions asn_balance].
    unfold removed, remove_key. destruct (signed_notional y _) as [v1|]; [|done]. cbn [mbind option_bind].
    destruct (signed_notional _ _) as [v2|]; [|done]. cbn [mbind option_bind].
    destruct (chk I64 (_ + v1)) as [b1|]; [|done]. cbn [mbind option_bind]. by destruct (chk I64 (b1 + v2)).
  - reflexivity.
Qed.

Fixpoint value_run (x : Z * Z * list (MarketId * Z * Z)) (vs : list effect) : option (Z * Z * list (MarketId * Z * Z)) :=
  match vs with [] => Some x | v :: vs => x' ← value_step v x; value_run x' vs end.

(** A run of value effects is a run of their values and a fold of their digests. *)
Lemma run_values id s vs : Forall (λ v, value_effect v = true) vs →
  run id (Some s) vs =
    (λ x, Some (with_values x (foldl block_digest (asn_events_digest s) vs) s)) <$> value_run (values s) vs.
Proof.
  intros Hvs. revert s. induction Hvs as [|v vs Hv _ IH]; intros s; cbn [run value_run foldl]; [by destruct s|].
  rewrite apply_value_effect by done. destruct (value_step v (values s)) as [[[b t] p]|]; [|done].
  cbn [fmap option_fmap option_map mbind option_bind]. by rewrite IH.
Qed.

(** ** Value effects and account records *)

Lemma removed_get0 m o p : NoDup p.*1 → removed m o p = get0 (positions_map p) (m, o).
Proof.
  intros Hnd. unfold removed, get0.
  destruct (last (filter _ p)) as [[[m' o'] q]|] eqn:Hl.
  - apply last_Some_elem_of, list_elem_of_filter in Hl as [Hh Hin]. apply bool_decide_eq_true in Hh as [Hm Ho].
    cbn in Hm, Ho. subst. cbn. by rewrite (proj2 (positions_map_lookup p (m, o) q Hnd) Hin).
  - destruct (positions_map p !! (m, o)) as [q|] eqn:Hq; [|done].
    apply positions_map_lookup in Hq; [|done]. apply last_None in Hl.
    assert (((m, o), q) ∈ filter (λ e : Z * Z * Z, bool_decide (e.1.1 = m ∧ e.1.2 = o) = true) p) as Hin.
    { apply list_elem_of_filter. split; [by apply bool_decide_eq_true|done]. }
    rewrite Hl in Hin. by apply not_elem_of_nil in Hin.
Qed.

Lemma remove_key_NoDup m o p : NoDup p.*1 → NoDup (remove_key m o p).*1.
Proof. intros. eapply sublist_NoDup; [done|]. apply fmap_sublist, sublist_filter. Qed.

Lemma remove_key_get0 m o p k : NoDup p.*1 →
  get0 (positions_map (remove_key m o p)) k = if decide ((m, o) = k) then 0 else get0 (positions_map p) k.
Proof.
  intros Hnd. pose proof (remove_key_NoDup m o p Hnd) as Hnd'.
  assert (∀ q, positions_map (remove_key m o p) !! k = Some q ↔ positions_map p !! k = Some q ∧ (m, o) ≠ k) as Hk.
  { intros q. rewrite !positions_map_lookup by done. unfold remove_key. rewrite list_elem_of_filter, bool_decide_eq_false.
    destruct k as [k1 k2]. cbn. naive_solver. }
  unfold get0. destruct (positions_map p !! k) as [q|] eqn:Hp.
  - case_decide as Hc; [|by rewrite (proj2 (Hk q) (conj eq_refl Hc))].
    destruct (positions_map (remove_key m o p) !! k) as [q'|]; [|done]. by destruct (proj1 (Hk q') eq_refl).
  - destruct (positions_map (remove_key m o p) !! k) as [q'|]; [|by case_decide]. by destruct (proj1 (Hk q') eq_refl).
Qed.

Lemma credited_vsim a s n (dep : bool) enc b t :
  vsim a s → chk I64 (acc_balance a + n) = Some b →
  (if dep then chk I64 (acc_total_deposited a + n) else Some (acc_total_deposited a)) = Some t →
  ∃ x, value_step (Credited n dep enc) (values s) = Some x ∧
    ∀ d, vsim (set_total_deposited t (set_balance b a)) (with_values x d s).
Proof.
  intros [Hb Ht Hp Hk] H1 H2. cbn [value_step values]. rewrite <- Hb, <- Ht, H1. cbn [mbind option_bind]. rewrite H2.
  eexists. split; [done|]. by split.
Qed.

Lemma signed_notional_payout y p : 0 ≤ y ≤ NANOS_PER_DOLLAR → Z.abs p ≤ 2000000000000 →
  signed_notional y p = Some (payout_of y p) ∧ Z.abs (payout_of y p) ≤ 2000000000000000000.
Proof.
  intros Hy Hp. rewrite payout_of_abs by lia.
  assert (0 ≤ y * Z.abs p / SHARE_SCALE ≤ 2000000000000000000) as Hq.
  { split; [apply Z.div_pos; mnia|]. apply Z.div_le_upper_bound; mnia. }
  assert (Z.abs (Z.sgn p * (y * Z.abs p / SHARE_SCALE)) ≤ 2000000000000000000) as Hs
    by (destruct (Z.sgn_spec p) as [[? ->]|[[? ->]|[? ->]]]; lia).
  split; [|done]. unfold signed_notional, notional_nanos. rewrite (wrap_in U64) by mlia.
  rewrite (chk_in I64) by mlia. cbn [mbind option_bind]. rewrite chk_in by mlia. f_equal. lia.
Qed.

Lemma resolved_vsim a s m y enc :
  vsim a s → 0 ≤ y ≤ NANOS_PER_DOLLAR → Z.abs (acc_balance a) ≤ 4000000000000000000 →
  (∀ k, Z.abs (get0 (acc_positions a) k) ≤ 2000000000000) →
  ∃ x, value_step (Resolved m y enc) (values s) = Some x ∧ ∀ d, vsim (resolved m y a) (with_values x d s).
Proof.
  intros [Hb Ht Hp Hk] Hy Hbal Hpos. cbn [value_step values]. pose proof (remove_key_NoDup m 0 _ Hk) as Hk'.
  rewrite !removed_get0, remove_key_get0, decide_False by done. rewrite <- !Hp, sat_in by mlia.
  destruct (signed_notional_payout y (get0 (acc_positions a) (m, 0)) Hy (Hpos _)) as [-> H1]. cbn [mbind option_bind].
  destruct (signed_notional_payout (NANOS_PER_DOLLAR - y) (get0 (acc_positions a) (m, 1))) as [-> H2]; [mlia|apply Hpos|].
  cbn [mbind option_bind]. rewrite <- Hb, chk_in by mlia. cbn [mbind option_bind]. rewrite chk_in by mlia. cbn [mbind option_bind].
  eexists. split; [done|]. intros d. split; cbn; [done|done| |by apply remove_key_NoDup].
  intros k. rewrite !remove_key_get0, !get0_delete, Hp by done. done.
Qed.

(** Resolution leaves the values of an account that holds nothing unchanged. *)
Lemma resolved_idle_vsim a s m y : holds m a = false → vsim a s → vsim (resolved m y a) s.
Proof.
  unfold holds. rewrite orb_false_iff, !negb_false_iff, !Z.eqb_eq. intros [H0 H1] [Hb Ht Hp Hk].
  split; cbn; [|done| |done].
  - rewrite H0, H1, Hb. unfold payout_of. rewrite !Z.mul_0_r, !Z.quot_0_l by done. lia.
  - intros k. rewrite !get0_delete, <- Hp. repeat case_decide; subst; done.
Qed.

(** Canonical positions depend on the non-zero entries only. *)
#[local] Instance pos_key_le_total : Total pos_key_le.
Proof. intros a b. unfold pos_key_le. lia. Qed.
#[local] Instance pos_key_le_trans : Transitive pos_key_le.
Proof. intros a b c. unfold pos_key_le. lia. Qed.

Lemma sort_positions_unique l l' : NoDup l.*1 → l ≡ₚ l' → sort_positions l = sort_positions l'.
Proof.
  intros Hnd Hp. unfold sort_positions.
  apply (StronglySorted_unique_strong pos_key_le); [|apply StronglySorted_stable_sort; apply _..|by rewrite !stable_sort_Permutation].
  intros x1 x2. rewrite !stable_sort_Permutation, <- Hp. intros H1 H2 H12 H21.
  assert (x1.1 = x2.1) as Hk.
  { destruct x1 as [[a b] q], x2 as [[c d] r]. unfold pos_key_le in *. cbn in *. f_equal; lia. }
  apply list_elem_of_lookup in H1 as [i Hi], H2 as [j Hj].
  assert (i = j) as ->; [|congruence].
  eapply NoDup_lookup; [exact Hnd|by rewrite list_lookup_fmap, Hi|by rewrite list_lookup_fmap, Hj; cbn; rewrite Hk].
Qed.

Lemma snapshot_positions_eq (p p' : gmap (Z * Z) Z) : (∀ k, get0 p k = get0 p' k) →
  sort_positions (filter (λ e, e.2 ≠ 0) (map_to_list p)) = sort_positions (filter (λ e, e.2 ≠ 0) (map_to_list p')).
Proof.
  intros Hp. assert (∀ p : gmap (Z * Z) Z, NoDup (filter (λ e, e.2 ≠ 0) (map_to_list p)).*1) as Hnd.
  { intros q. eapply sublist_NoDup; [apply (NoDup_fst_map_to_list q)|]. apply fmap_sublist, sublist_filter. }
  apply sort_positions_unique; [done|]. apply NoDup_Permutation; [eapply NoDup_fmap_1, Hnd..|].
  assert (∀ p : gmap (Z * Z) Z, ∀ x, x ∈ filter (λ e : Z * Z * Z, e.2 ≠ 0) (map_to_list p) ↔ x.2 ≠ 0 ∧ get0 p x.1 = x.2) as Hin.
  { intros q [k v]. rewrite list_elem_of_filter, elem_of_map_to_list. cbn. unfold get0. destruct (q !! k); naive_solver. }
  intros x. by rewrite !Hin, Hp.
Qed.

Lemma resolved_idle_snap a m y : holds m a = false → snap (resolved m y a) = snap a.
Proof.
  unfold holds. rewrite orb_false_iff, !negb_false_iff, !Z.eqb_eq. intros [H0 H1].
  unfold snap. f_equal. unfold snapshot_account, canonicalize_snapshot.
  cbn [asn_id asn_balance asn_total_deposited asn_positions asn_events_digest asn_keys_digest asn_last_trading_nonce resolved
       set_balance set_positions acc_id acc_balance acc_total_deposited acc_positions acc_events_digest acc_keys_digest acc_last_trading_nonce].
  f_equal.
  - rewrite H0, H1. unfold payout_of. rewrite !Z.mul_0_r, !Z.quot_0_l by done. lia.
  - apply snapshot_positions_eq. intros k. rewrite !get0_delete. repeat case_decide; subst; done.
Qed.

(** Equal values have equal normalised positions. *)
Lemma vsim_normalized a s : vsim a s → normalized_positions s = normalized_positions (snap a).
Proof.
  assert (∀ s, vsim a s → ∀ k q, normalized_positions s !! k = Some q ↔ q ≠ 0 ∧ get0 (acc_positions a) k = q) as H.
  { intros s' [_ _ Hp Hk] k q. unfold normalized_positions. rewrite Hp.
    assert (NoDup (filter (λ p : Z * Z * Z, p.2 ≠ 0) (asn_positions s')).*1) as Hnd.
    { eapply sublist_NoDup; [exact Hk|]. apply fmap_sublist, sublist_filter. }
    pose proof (positions_map_lookup _ k q Hnd) as Hl. unfold positions_map in Hl. rewrite Hl, list_elem_of_filter. cbn.
    unfold get0. split.
    - intros [Hq Hin]. split; [done|]. by rewrite (proj2 (positions_map_lookup _ k q Hk) Hin).
    - intros [Hq Hg]. split; [done|]. apply positions_map_lookup; [done|].
      destruct (positions_map _ !! k); cbn in Hg; congruence. }
  intros Hs. apply map_eq. intros k. apply option_eq. intros q.
  rewrite (H s Hs k q), (H (snap a) (vsim_snap a) k q). done.
Qed.
End run.
