(* ===== verification/SystemAgreement.v ===== *)
(** * SystemAgreement: the verifier accepts the sequencer's system phase

    Between two blocks the sequencer changes accounts and queues system events;
    at block start it folds the events into digests and hands the verifier the
    block-start snapshots, the sorted events and the resulting snapshots.  The
    invariant of this file says that, for every account, replaying the queued
    events from the block-start snapshot gives the live account.  It is kept by
    every operation of [Sequencer] and [BridgeOps], and implies that
    [verify_system_transition] finds no violation. *)
From S2P Require Import Prelude Types Order EngineSettlement Account Digest Validation OrderBook BatchSettlement Snapshots Finalize Witness Sidecar SettlementVerifier VerifierAgreement L1Protocol DepositFrontier AccountKeys SystemVerifier Bridge Sequencer BridgeOps SystemPhase SystemEffects.

Section agreement.
Context (blake3 sha256 : Bytes → Bytes) (h : Z).

Definition phase0 (id : Z) (L : list Sys.SystemEvent) : list effect :=
  filter (λ e, authorization_event e = true) L ≫= effects h id.
Definition phase1 (id : Z) (L : list Sys.SystemEvent) : list effect :=
  filter (λ e, authorization_event e = false) L ≫= effects h id.

(** Replaying the queued events [L] from the block-start account [base] gives
    account [a]: its nonce (up to [R]) and values, and, once block production
    has folded its digests, its digest. *)
Definition tracked (R : Z → Z → Prop) (id : Z) (base : option Account) (a : Account) (L : list Sys.SystemEvent) : Prop :=
  ∃ s0 x,
    run blake3 sha256 id (snap <$> base) (phase0 id L) = Some (Some s0) ∧
    value_run (values s0) (phase1 id L) = Some x ∧ (∀ d, vsim a (with_values x d s0)) ∧
    R (asn_last_trading_nonce s0) (acc_last_trading_nonce a) ∧
    asn_events_digest s0 = foldl (block_digest blake3) (acc_events_digest a) (phase0 id L).

Definition acct_ok (R : Z → Z → Prop) (id : Z) (base cur : option Account) (L : list Sys.SystemEvent) : Prop :=
  match cur with
  | None => base = None ∧ phase0 id L = [] ∧ phase1 id L = []
  | Some a => acc_id a = id ∧ (∀ b, base = Some b → acc_id b = id) ∧ acc_last_trading_nonce a ≤ acc_last_nonce a ∧
      tracked R id base a L
  end.

(** ** Lists of effects *)

Lemma phase0_app id L L' : phase0 id (L ++ L') = phase0 id L ++ phase0 id L'.
Proof. unfold phase0. by rewrite filter_app, bind_app. Qed.
Lemma phase1_app id L L' : phase1 id (L ++ L') = phase1 id L ++ phase1 id L'.
Proof. unfold phase1. by rewrite filter_app, bind_app. Qed.

Lemma phase0_cons id e L : phase0 id (e :: L) = phase0 id [e] ++ phase0 id L.
Proof. apply (phase0_app id [e] L). Qed.
Lemma phase1_cons id e L : phase1 id (e :: L) = phase1 id [e] ++ phase1 id L.
Proof. apply (phase1_app id [e] L). Qed.

Lemma phase0_single id e : phase0 id [e] = if authorization_event e then effects h id e else [].
Proof. unfold phase0. rewrite filter_cons, filter_nil. destruct (authorization_event e); [apply bind_singleton|done]. Qed.
Lemma phase1_single id e : phase1 id [e] = if authorization_event e then [] else effects h id e.
Proof. unfold phase1. rewrite filter_cons, filter_nil. destruct (authorization_event e); [done|apply bind_singleton]. Qed.

Lemma value_run_app x vs vs' : value_run x (vs ++ vs') = (x' ← value_run x vs; value_run x' vs').
Proof. revert x. induction vs as [|v vs IH]; intros x; cbn; [done|]. destruct (value_step v x); cbn; auto. Qed.

Lemma effects_phase id e : Forall (λ v, value_effect v = negb (authorization_event e)) (effects h id e).
Proof. destruct e; cbn; unfold on_account; repeat case_decide; repeat constructor. Qed.

Lemma phase1_values id L : Forall (λ v, value_effect v = true) (phase1 id L).
Proof.
  unfold phase1. apply Forall_bind, Forall_forall. intros e [He _]%list_elem_of_filter.
  pose proof (effects_phase id e) as H. by rewrite He in H.
Qed.

(** Phase 0 never meets a second creation, and none at all on an account that
    existed at block start. *)
Definition is_created (v : effect) : bool := match v with Created _ _ _ => true | _ => false end.

Lemma run_present id s vs x : run blake3 sha256 id (Some s) vs = Some x →
  Forall (λ v, is_created v = false) vs ∧ is_Some x.
Proof.
  revert s. induction vs as [|v vs IH]; intros s; cbn [run]; [by intros [= <-]|].
  destruct (apply_effect blake3 sha256 id (Some s) v) as [[s1|]|] eqn:Hv; cbn [mbind option_bind]; [|..|done].
  - intros H. apply IH in H as [H1 H2]. split; [|done]. constructor; [|done]. by destruct v.
  - exfalso. destruct (value_effect v) eqn:Hval.
    + rewrite apply_value_effect in Hv by done. by destruct (value_step _ _).
    + destruct v; cbn in Hv; try discriminate; repeat case_match; discriminate.
Qed.

Lemma digest_idle d vs : Forall (λ v, value_effect v = false ∧ is_created v = false) vs → foldl (block_digest blake3) d vs = d.
Proof. revert d. induction 1 as [|v vs [Hv Hc] _ IH]; [done|]. cbn [foldl]. by destruct v. Qed.

Lemma phase0_not_values id L : Forall (λ v, value_effect v = false) (phase0 id L).
Proof.
  unfold phase0. apply Forall_bind, Forall_forall. intros e [He _]%list_elem_of_filter.
  pose proof (effects_phase id e) as H. by rewrite He in H.
Qed.

(** On an account that existed at block start, phase 0 folds nothing at block production. *)
Lemma phase0_idle id b L s0 d :
  run blake3 sha256 id (Some (snap b)) (phase0 id L) = Some (Some s0) → foldl (block_digest blake3) d (phase0 id L) = d.
Proof.
  intros H. apply run_present in H as [H _]. apply digest_idle. pose proof (phase0_not_values id L) as Hv.
  rewrite !Forall_forall in *. intros v Hin. auto.
Qed.

(** ** One account, one event *)

(** An event that does not concern the account. *)
Lemma acct_other R id base cur L e : effects h id e = [] → acct_ok R id base cur L → acct_ok R id base cur (L ++ [e]).
Proof.
  intros He. assert (phase0 id (L ++ [e]) = phase0 id L) as H0.
  { rewrite phase0_app, phase0_single, He. destruct (authorization_event e); apply app_nil_r. }
  assert (phase1 id (L ++ [e]) = phase1 id L) as H1.
  { rewrite phase1_app, phase1_single, He. destruct (authorization_event e); apply app_nil_r. }
  unfold acct_ok, tracked. by rewrite H0, H1.
Qed.

(** The identity, nonces and digest of an account. *)
Definition marks (a : Account) : Z * Z * Z * Bytes :=
  (acc_id a, acc_last_trading_nonce a, acc_last_nonce a, acc_events_digest a).

Lemma acct_value R id base a a' L e v :
  acct_ok R id base (Some a) L → authorization_event e = false → effects h id e = [v] → marks a' = marks a →
  (∀ s, vsim a s → ∃ x, value_step v (values s) = Some x ∧ ∀ d, vsim a' (with_values x d s)) →
  acct_ok R id base (Some a') (L ++ [e]).
Proof.
  intros (Hid & Hb & Hn & s0 & x & H0 & H1 & Hv & HR & Hd) He Hv1 [= M1 M2 M3 M4] Hstep. cbn.
  rewrite M1, M2, M3. split_and!; [done..|]. destruct (Hstep _ (Hv (asn_events_digest s0))) as (x' & Hx & Hv').
  exists s0, x'. rewrite phase0_app, phase1_app, phase0_single, phase1_single, He, Hv1, app_nil_r, M2, M4.
  split_and!; [done| |done..]. rewrite value_run_app, H1. destruct x as [[b t] p].
  change (value_step v (b, t, p) = Some x') in Hx. cbn [mbind option_bind value_run]. by rewrite Hx.
Qed.

(** A change that touches neither the marks nor the values. *)
Lemma acct_inert R id base a a' L :
  acct_ok R id base (Some a) L → marks a' = marks a → (∀ s, vsim a s → vsim a' s) → acct_ok R id base (Some a') L.
Proof.
  intros (Hid & Hb & Hn & s0 & x & H0 & H1 & Hv & HR & Hd) [= M1 M2 M3 M4] Hsim. cbn.
  rewrite M1, M2, M3. split_and!; [done..|]. exists s0, x. rewrite M2, M4. split_and!; auto.
Qed.

(** ** Phase-0 events *)

Definition set_asn_keys_digest (d : Bytes) (s : AccountSnapshot) : AccountSnapshot :=
  mkAccountSnapshot (asn_id s) (asn_balance s) (asn_total_deposited s) (asn_positions s) (asn_events_digest s) d
    (asn_last_trading_nonce s).

(** A run on a present account followed by one more effect. *)
Lemma tracked_snoc R id base a L e v s0 x t0 :
  run blake3 sha256 id (snap <$> base) (phase0 id L) = Some (Some s0) →
  value_run (values s0) (phase1 id L) = Some x →
  authorization_event e = true → effects h id e = [v] →
  apply_effect blake3 sha256 id (Some s0) v = Some (Some t0) → values t0 = values s0 →
  (∀ d, vsim a (with_values x d t0)) → R (asn_last_trading_nonce t0) (acc_last_trading_nonce a) →
  asn_events_digest t0 = foldl (block_digest blake3) (acc_events_digest a) (phase0 id L ++ [v]) →
  tracked R id base a (L ++ [e]).
Proof.
  intros H0 H1 He Hv Ht Hval Hsim HR Hd. exists t0, x.
  rewrite phase0_app, phase1_app, phase0_single, phase1_single, He, Hv, app_nil_r, run_snoc, H0, Hval.
  split_and!; done.
Qed.

(** A key operation on an account that existed at block start. *)
Lemma acct_key id b a a' L e enc :
  acct_ok eq id (Some b) (Some a) L → authorization_event e = true → effects h id e = [KeyFolded enc] →
  acc_id a' = acc_id a → acc_last_trading_nonce a' = acc_last_trading_nonce a → acc_last_nonce a' = acc_last_nonce a →
  acc_events_digest a' = update_digest blake3 (acc_events_digest a) enc → (∀ s, vsim a s → vsim a' s) →
  acct_ok eq id (Some b) (Some a') (L ++ [e]).
Proof.
  intros (Hid & Hb & Hn & s0 & x & H0 & H1 & Hv & HR & Hd) He Hk M1 M2 M3 M4 Hsim. cbn.
  rewrite M1, M2, M3. split_and!; [done..|].
  apply (tracked_snoc eq id (Some b) a' L e (KeyFolded enc) s0 x (fold_event blake3 enc s0)); try done.
  - intros d. apply Hsim, Hv.
  - cbn. by rewrite M2.
  - rewrite (phase0_idle id b L s0 _ H0) in Hd. rewrite foldl_app, (phase0_idle id b L s0 _ H0), M4, <- Hd. done.
Qed.

(** An authorised client action with a nonce above the last one. *)
Lemma acct_action id base a a' L e n :
  acct_ok Z.le id base (Some a) L → authorization_event e = true → effects h id e = [Acted n] →
  acc_last_nonce a < n → acc_id a' = acc_id a → acc_last_trading_nonce a' = n → acc_last_nonce a' = n →
  acc_events_digest a' = acc_events_digest a → (∀ s, vsim a s → vsim a' s) →
  acct_ok eq id base (Some a') (L ++ [e]).
Proof.
  intros (Hid & Hb & Hn & s0 & x & H0 & H1 & Hv & HR & Hd) He Hk Hlt M1 M2 M3 M4 Hsim. cbn.
  rewrite M1, M2, M3. split_and!; [done..|lia|].
  apply (tracked_snoc eq id base a' L e (Acted n) s0 x (set_asn_last_trading_nonce n s0)); try done.
  - cbn. destruct (Z.leb_spec n (asn_last_trading_nonce s0)); [lia|done].
  - intros d. apply Hsim, (vsim_same _ (with_values x d s0)); done.
  - rewrite foldl_app. cbn. by rewrite M4.
Qed.

(** The creation of an account. *)
Lemma acct_create id a L e b ks :
  acct_ok eq id None None L → authorization_event e = true → effects h id e = [Created b ks (encode_create_account_event b h)] →
  marks a = (id, 0, 0, replicate 32 0) → acc_balance a = b → acc_total_deposited a = b → acc_positions a = ∅ →
  acct_ok eq id None (Some a) (L ++ [e]).
Proof.
  intros (_ & H0 & H1) He Hk [= M1 M2 M3 M4] Hb Ht Hp. cbn. rewrite M1, M2, M3. split_and!; [done..|]. unfold tracked.
  rewrite phase0_app, phase1_app, phase0_single, phase1_single, He, Hk, H0, H1, M2, M4. eexists _, _. split_and!; [done|done| |done..].
  intros d. split; cbn; [done|done|by rewrite Hp|constructor].
Qed.

Lemma apply_effect_keys id kd s v :
  apply_effect blake3 sha256 id (Some (set_asn_keys_digest kd s)) v =
  (λ x, option_map (set_asn_keys_digest kd) x) <$> apply_effect blake3 sha256 id (Some s) v.
Proof.
  destruct (value_effect v) eqn:Hv.
  - rewrite !apply_value_effect by done. change (values (set_asn_keys_digest kd s)) with (values s).
    by destruct (value_step v (values s)).
  - destruct v; try done. cbn. by case_match.
Qed.

Lemma run_keys id kd s vs :
  run blake3 sha256 id (Some (set_asn_keys_digest kd s)) vs =
  (λ x, option_map (set_asn_keys_digest kd) x) <$> run blake3 sha256 id (Some s) vs.
Proof.
  revert s. induction vs as [|v vs IH]; intros s; cbn [run]; [done|]. rewrite apply_effect_keys.
  destruct (apply_effect blake3 sha256 id (Some s) v) as [[t|]|] eqn:Ht; cbn; [apply IH| |done].
  exfalso. destruct (run_present id s [v] None) as [_ [? ?]]; [cbn; by rewrite Ht|done].
Qed.

(** A key pushed onto the pending creation of the account. *)
Lemma push_initial_key_spec id key l l' : push_initial_key id key l = Some l' →
  ∃ l1 b ks l2, l = l1 ++ Sys.CreateAccount id b ks :: l2 ∧ l' = l1 ++ Sys.CreateAccount id b (ks ++ [key]) :: l2.
Proof.
  revert l'. induction l as [|e l IH]; intros l'; [done|]. cbn [push_initial_key].
  assert ((λ l, e :: l) <$> push_initial_key id key l = Some l' →
    ∃ l1 b ks l2, e :: l = l1 ++ Sys.CreateAccount id b ks :: l2 ∧ l' = l1 ++ Sys.CreateAccount id b (ks ++ [key]) :: l2) as Hrec.
  { intros (l0 & H & ->)%fmap_Some. destruct (IH _ H) as (l1 & b & ks & l2 & -> & ->). by exists (e :: l1), b, ks, l2. }
  destruct e; try exact Hrec. case_decide as Hid; [|exact Hrec]. intros [= <-]. subst. by eexists [], _, _, _.
Qed.

Lemma acct_push R id base a L1 b ks ks' L2 :
  acct_ok R id base (Some a) (L1 ++ Sys.CreateAccount id b ks :: L2) →
  acct_ok R id base (Some a) (L1 ++ Sys.CreateAccount id b ks' :: L2).
Proof.
  intros (Hid & Hb & Hn & s0 & x & H0 & H1 & Hv & HR & Hd). cbn. split_and!; [done..|]. unfold tracked.
  assert (Hp : ∀ ks, phase0 id (L1 ++ Sys.CreateAccount id b ks :: L2) =
    phase0 id L1 ++ Created b ks (encode_create_account_event b h) :: phase0 id L2).
  { intros k. rewrite phase0_app, (phase0_cons id), phase0_single. cbn. unfold on_account. by rewrite decide_True. }
  assert (Hq : ∀ ks, phase1 id (L1 ++ Sys.CreateAccount id b ks :: L2) = phase1 id L1 ++ phase1 id L2).
  { intros k. by rewrite phase1_app, (phase1_cons id), phase1_single. }
  rewrite Hp, Hq in *. rewrite foldl_app in *. rewrite run_app in H0 |- *.
  destruct (run blake3 sha256 id (snap <$> base) (phase0 id L1)) as [[t|]|]; [done| |done]. cbn in H0 |- *.
  set (kd := account_keys_digest sha256 id ks') in *.
  match type of H0 with run _ _ _ (Some ?s) ?vs = _ => pose proof (run_keys id kd s vs) as Hk end. rewrite H0 in Hk.
  exists (set_asn_keys_digest kd s0), x. split_and!; [exact Hk|done| |done..].
  intros d. apply (vsim_same _ (with_values x d s0)); done.
Qed.

(** Dropping client actions lowers the nonce a replay ends with. *)
Inductive dropped : list effect → list effect → Prop :=
  | dropped_nil : dropped [] []
  | dropped_keep v vs vs' : dropped vs vs' → dropped (v :: vs) (v :: vs')
  | dropped_act n vs vs' : dropped vs vs' → dropped (Acted n :: vs) vs'.

Lemma dropped_refl vs : dropped vs vs.
Proof. induction vs; by constructor. Qed.

Lemma dropped_app vs vs' us us' : dropped vs vs' → dropped us us' → dropped (vs ++ us) (vs' ++ us').
Proof. induction 1; cbn; intros; try constructor; auto. Qed.

Lemma dropped_digest vs vs' d : dropped vs vs' → foldl (block_digest blake3) d vs' = foldl (block_digest blake3) d vs.
Proof. intros H. revert d. induction H; intros d; cbn; auto. Qed.

Lemma phase0_dropped id (P : Sys.SystemEvent → Prop) `{!∀ e, Decision (P e)} L :
  (∀ e, e ∈ L → ¬ P e → ∃ act, e = Sys.ClientActionAuthorized act) → dropped (phase0 id L) (phase0 id (filter P L)).
Proof.
  induction L as [|e L IH]; intros HP; [constructor|]. rewrite filter_cons, (phase0_cons id e L).
  assert (dropped (phase0 id L) (phase0 id (filter P L))) as Hd by (apply IH; set_solver).
  case_decide as He.
  - rewrite (phase0_cons id e (filter P L)). apply dropped_app; [apply dropped_refl|done].
  - destruct (HP e ltac:(left) He) as [act ->]. rewrite phase0_single. cbn. unfold on_account.
    case_decide; cbn; [by constructor|done].
Qed.

Lemma phase1_filter id (P : Sys.SystemEvent → Prop) `{!∀ e, Decision (P e)} L :
  (∀ e, e ∈ L → ¬ P e → ∃ act, e = Sys.ClientActionAuthorized act) → phase1 id (filter P L) = phase1 id L.
Proof.
  induction L as [|e L IH]; intros HP; [done|]. rewrite filter_cons, (phase1_cons id e L).
  rewrite <- IH by set_solver. case_decide as He; [by rewrite (phase1_cons id e (filter P L))|].
  by destruct (HP e ltac:(left) He) as [act ->].
Qed.

Lemma run_dropped id vs vs' s s0 n :
  dropped vs vs' → Forall (λ v, value_effect v = false) vs → n ≤ asn_last_trading_nonce s →
  run blake3 sha256 id (Some s) vs = Some (Some s0) →
  ∃ n', n' ≤ asn_last_trading_nonce s0 ∧
    run blake3 sha256 id (Some (set_asn_last_trading_nonce n s)) vs' = Some (Some (set_asn_last_trading_nonce n' s0)).
Proof.
  intros Hd. revert s n. induction Hd as [|v vs vs' Hd IH|m vs vs' Hd IH]; intros s n Hvs Hn H.
  { injection H as <-. by exists n. }
  - apply Forall_cons in Hvs as [Hv Hvs]. cbn [run] in H |- *. destruct v as [| | | |enc|m]; try discriminate.
    + apply (IH (fold_event blake3 enc s) n Hvs Hn H).
    + cbn [apply_effect] in H |- *. destruct (Z.leb_spec m (asn_last_trading_nonce s)); [done|].
      change (asn_last_trading_nonce (set_asn_last_trading_nonce n s)) with n. destruct (Z.leb_spec m n); [lia|].
      apply (IH (set_asn_last_trading_nonce m s) m Hvs (Z.le_refl _) H).
  - apply Forall_cons in Hvs as [_ Hvs]. cbn [run apply_effect] in H.
    destruct (Z.leb_spec m (asn_last_trading_nonce s)); [done|].
    apply (IH (set_asn_last_trading_nonce m s) n Hvs ltac:(cbn; lia) H).
Qed.

Lemma run_dropped_any id x vs vs' s0 :
  dropped vs vs' → Forall (λ v, value_effect v = false) vs → run blake3 sha256 id x vs = Some (Some s0) →
  ∃ n', n' ≤ asn_last_trading_nonce s0 ∧ run blake3 sha256 id x vs' = Some (Some (set_asn_last_trading_nonce n' s0)).
Proof.
  intros Hd Hvs H. destruct x as [s|].
  - destruct (run_dropped id vs vs' s s0 (asn_last_trading_nonce s) Hd Hvs (Z.le_refl _) H) as (n' & Hn & Hr).
    exists n'. split; [done|]. by destruct s.
  - destruct Hd as [|v vs vs' Hd|]; [done| |done]. apply Forall_cons in Hvs as [_ Hvs]. destruct v as [b ks enc| | | | |]; try done.
    cbn [run apply_effect] in H |- *. cbn [mbind option_bind] in H. apply (run_dropped id vs vs' _ s0 0 Hd Hvs) in H as (n' & Hn & Hr); [by exists n'|done].
Qed.

Lemma acct_drop id base cur (P : Sys.SystemEvent → Prop) `{!∀ e, Decision (P e)} L :
  (∀ e, e ∈ L → ¬ P e → ∃ act, e = Sys.ClientActionAuthorized act) →
  acct_ok eq id base cur L → acct_ok Z.le id base cur (filter P L).
Proof.
  intros HP. destruct cur as [a|]; cbn.
  - intros (Hid & Hb & Hn & s0 & x & H0 & H1 & Hv & HR & Hd). split_and!; [done..|].
    destruct (run_dropped_any _ _ _ _ _ (phase0_dropped id P L HP) (phase0_not_values id L) H0) as (n & Hle & Hr).
    exists (set_asn_last_trading_nonce n s0), x. rewrite phase1_filter by done. rewrite (dropped_digest (phase0 id L)) by by apply phase0_dropped.
    split_and!; try done; [|cbn; lia]. intros d. apply (vsim_same _ (with_values x d s0)); done.
  - intros (? & H0 & H1). rewrite phase1_filter by done. split_and!; [done| |done].
    pose proof (phase0_dropped id P L HP) as Hd. rewrite H0 in Hd. by inversion Hd.
Qed.

(** Dropping events that do not concern the account. *)
Lemma acct_drop_other R id base cur (P : Sys.SystemEvent → Prop) `{!∀ e, Decision (P e)} L :
  (∀ e, e ∈ L → ¬ P e → effects h id e = []) → acct_ok R id base cur L → acct_ok R id base cur (filter P L).
Proof.
  intros HP. assert (phase0 id (filter P L) = phase0 id L ∧ phase1 id (filter P L) = phase1 id L) as [H0 H1].
  { induction L as [|e L IH]; [done|]. rewrite filter_cons, (phase0_cons id e L), (phase1_cons id e L).
    destruct IH as [<- <-]; [set_solver|]. case_decide as He; [by rewrite (phase0_cons id e (filter P L)), (phase1_cons id e (filter P L))|].
    rewrite phase0_single, phase1_single, (HP e ltac:(left) He). by destruct (authorization_event e). }
  unfold acct_ok, tracked. by rewrite H0, H1.
Qed.
End agreement.
