(* ===== verification/SystemInvariant.v ===== *)
(** * SystemInvariant: system operations keep accounts replayable

    Lifts the per-account lemmas of [SystemAgreement] to the operations of the
    sequencer: every operation between two blocks preserves the invariant that
    replaying the queued events from the captured baselines gives the live
    accounts. *)
From S2P Require Import Prelude Types Order EngineSettlement Account Digest Validation OrderBook BatchSettlement Snapshots Finalize Witness Sidecar SettlementVerifier VerifierAgreement L1Protocol DepositFrontier AccountKeys SystemVerifier Bridge Sequencer BridgeOps SystemPhase SystemEffects SystemAgreement.

(** The account at block start: its baseline, if one was captured. *)
Definition base (s : Sequencer) (id : Z) : option Account :=
  match sq_baselines s !! id with Some o => o | None => get_account s id end.

(** The height of the block being built. *)
Definition next_height (s : Sequencer) : Z := sat U64 (sq_height s + 1).

Section ops.
Context (blake3 sha256 keccak256 : Bytes → Bytes).

(** The invariant, with the nonce of one account possibly behind. *)
Record sys_inv_at (R : Z → Z → Z → Prop) (s : Sequencer) : Prop := {
  si_events : Forall event_wf (sq_pending_system_events s);
  si_ids : ∀ id, is_Some (get_account s id) → id = AccountId_MINT ∨ 0 ≤ id < as_next_id (sq_accounts s);
  si_touched : ∀ id, sq_baselines s !! id = None → sq_pending_system_events s ≫= effects (next_height s) id = [];
  si_accounts : ∀ id, acct_ok blake3 sha256 (next_height s) (R id) id (base s id) (get_account s id) (sq_pending_system_events s);
}.
Definition sys_inv : Sequencer → Prop := sys_inv_at (λ _, eq).

(** ** Frames *)

Lemma bind_filter_nil {A B} (P : A → Prop) `{!∀ x, Decision (P x)} (f : A → list B) l : l ≫= f = [] → filter P l ≫= f = [].
Proof.
  induction l as [|x l IH]; [done|]. rewrite bind_cons. intros [Hx Hl]%app_eq_nil. rewrite filter_cons.
  case_decide; [rewrite bind_cons, Hx|]; by apply IH.
Qed.

Lemma inv_frame R s s' :
  sq_accounts s' = sq_accounts s → sq_baselines s' = sq_baselines s →
  sq_pending_system_events s' = sq_pending_system_events s → sq_height s' = sq_height s → sys_inv_at R s → sys_inv_at R s'.
Proof.
  intros Ha Hb He Hh [H1 H2 Ht H3]. split; rewrite ?He.
  - done.
  - intros id. unfold get_account. rewrite Ha. apply H2.
  - intros id. unfold next_height. rewrite Hb, Hh. apply Ht.
  - intros id. unfold base, next_height, get_account. rewrite Ha, Hb, Hh. apply H3.
Qed.

Lemma base_captured id i s : base (captured id s) i = base s i.
Proof.
  unfold base, captured. destruct (sq_baselines s !! id) eqn:Hid; [done|]. cbn [sq_baselines set_baselines].
  rewrite lookup_insert. case_decide as Hi; [subst; by rewrite Hid|done].
Qed.

Lemma captured_has id s : is_Some (sq_baselines (captured id s) !! id).
Proof.
  unfold captured. destruct (sq_baselines s !! id) eqn:Hid; [by rewrite Hid|]. cbn. rewrite lookup_insert_eq. eauto.
Qed.

Lemma base_put id a i s : is_Some (sq_baselines s !! id) → base (put id a s) i = base s i.
Proof.
  intros [o Ho]. unfold base. cbn [put set_accounts sq_baselines]. destruct (sq_baselines s !! i) eqn:Hi; [done|].
  unfold get_account, as_get. cbn. rewrite lookup_insert_ne by congruence. done.
Qed.

Lemma as_insert_twice id a a' st : as_insert id a' (as_insert id a st) = as_insert id a' st.
Proof. unfold as_insert. cbn. by rewrite insert_insert_eq. Qed.

Lemma get_account_put id a i s : get_account (put id a s) i = if decide (id = i) then Some a else get_account s i.
Proof. unfold get_account, as_get. cbn. apply lookup_insert. Qed.

Lemma inv_captured R id s : sys_inv_at R s → sys_inv_at R (captured id s).
Proof.
  intros [H1 H2 Ht H3]. split.
  - by rewrite captured_events.
  - intros i. rewrite captured_get, captured_accounts. apply H2.
  - intros i Hi. unfold next_height. rewrite captured_events, captured_height. apply Ht. unfold captured in Hi.
    destruct (sq_baselines s !! id) eqn:Hid; [done|]. cbn in Hi. by apply lookup_insert_None in Hi as [Hi _].
  - intros i. unfold next_height. rewrite base_captured, captured_get, captured_events, captured_height. apply H3.
Qed.

(** Replace an account whose baseline is known, and queue an event. *)
Lemma inv_record (R R' : Z → Z → Z → Prop) s id a' e :
  sys_inv_at R s → is_Some (get_account s id) → is_Some (sq_baselines s !! id) → event_wf e →
  (∀ i, i ≠ id → effects (next_height s) i e = [] ∧ R' i = R i) →
  acct_ok blake3 sha256 (next_height s) (R' id) id (base s id) (Some a') (sq_pending_system_events s ++ [e]) →
  sys_inv_at R' (recorded e (put id a' s)).
Proof.
  intros [H1 H2 Ht H3] Ha Hb He Hother Hid. split.
  - cbn. apply Forall_app. split; [done|]. by constructor.
  - intros i. cbn [recorded set_events sq_accounts put set_accounts as_insert as_next_id].
    change (get_account (recorded e (put id a' s)) i) with (get_account (put id a' s) i). rewrite get_account_put.
    case_decide as Hi; [subst; intros _; by apply H2|apply H2].
  - intros i Hi. cbn [recorded set_events sq_pending_system_events put set_accounts]. rewrite bind_app, bind_singleton.
    change (next_height (recorded e (put id a' s))) with (next_height s). rewrite Ht by done. apply Hother.
    intros ->. cbn in Hi. destruct Hb as [? Hb]. congruence.
  - intros i. change (base (recorded e (put id a' s)) i) with (base (put id a' s) i).
    change (get_account (recorded e (put id a' s)) i) with (get_account (put id a' s) i).
    rewrite base_put, get_account_put by done. cbn [recorded set_events sq_pending_system_events put set_accounts].
    change (next_height (recorded e (put id a' s))) with (next_height s). case_decide as Hi; [by subst|].
    destruct (Hother i ltac:(congruence)) as [Hz ->]. by apply acct_other.
Qed.

(** An event that changes values of one account. *)
Lemma inv_value s id a a' e v :
  sys_inv s → get_account s id = Some a → authorization_event e = false → event_wf e →
  (∀ i, effects (next_height s) i e = on_account i id v) → marks a' = marks a →
  (∀ t, vsim a t → ∃ x, value_step v (values t) = Some x ∧ ∀ d, vsim a' (with_values x d t)) →
  sys_inv (recorded e (put id a' (captured id s))).
Proof.
  intros Hinv Ha He Hwf Hv Hm Hsim. eapply (inv_record (λ _, eq) (λ _, eq)); [by apply inv_captured| |apply captured_has|done| |].
  - by rewrite captured_get, Ha.
  - intros i Hi. unfold next_height. rewrite captured_height. split; [|done]. rewrite Hv. unfold on_account. by rewrite decide_False.
  - unfold next_height. rewrite captured_height, base_captured, captured_events.
    eapply acct_value; [|done| |done|done].
    + pose proof (si_accounts _ _ Hinv id) as H. by rewrite Ha in H.
    + rewrite Hv. unfold on_account. by rewrite decide_True.
Qed.

(** An event that concerns no account. *)
Lemma inv_idle R s e :
  sys_inv_at R s → event_wf e → (∀ i, effects (next_height s) i e = []) → sys_inv_at R (recorded e s).
Proof.
  intros [H1 H2 Ht H3] Hwf He. split; [|done| |].
  - cbn. apply Forall_app. split; [done|]. by constructor.
  - intros i Hi. cbn [recorded set_events sq_pending_system_events]. rewrite bind_app, bind_singleton, He, app_nil_r. by apply Ht.
  - intros i. apply acct_other; [apply He|apply H3].
Qed.

(** A change of one account that nothing replayed depends on. *)
Lemma inv_inert R s id a a' :
  sys_inv_at R s → get_account s id = Some a → is_Some (sq_baselines s !! id) → marks a' = marks a →
  (∀ t, vsim a t → vsim a' t) → sys_inv_at R (put id a' s).
Proof.
  intros [H1 H2 Ht H3] Ha Hb Hm Hsim. split; [done| |done|].
  - intros i. rewrite get_account_put. case_decide; [|apply H2]. intros _. apply H2. by subst; rewrite Ha.
  - intros i. rewrite base_put, get_account_put by done. change (next_height (put id a' s)) with (next_height s).
    case_decide as Hi; [|apply H3]. subst. eapply acct_inert; [|done|done]. specialize (H3 i). by rewrite Ha in H3.
Qed.

(** ** Operations *)

Lemma inv_credit s id a n (dep : bool) e enc b t :
  sys_inv s → get_account s id = Some a → authorization_event e = false → event_wf e →
  (∀ i, effects (next_height s) i e = on_account i id (Credited n dep enc)) →
  chk I64 (acc_balance a + n) = Some b →
  (if dep then chk I64 (acc_total_deposited a + n) else Some (acc_total_deposited a)) = Some t →
  sys_inv (recorded e (put id (set_total_deposited t (set_balance b a)) (captured id s))).
Proof.
  intros Hinv Ha He Hwf Hv Hb Ht. eapply inv_value; try done. intros u Hu. by eapply credited_vsim.
Qed.

Lemma fund_inv id n s s' a : sys_inv s → fund_account_at id n s = SOk s' a → sys_inv s'.
Proof.
  intros Hinv H. unfold fund_account_at in H. sinv H. rewrite captured_get in *.
  apply arith_Ok in E0 as [-> Hb], E1 as [-> Ht].
  eapply (inv_credit s id a0 n true); try done; by apply chk_in.
Qed.

Lemma claim_inv id s s' r : sys_inv s → claim_quarantine_for_account blake3 id s = SOk s' r → sys_inv s'.
Proof.
  intros Hinv H. unfold claim_quarantine_for_account in H. rewrite sget_bind in H.
  destruct (_ !! _) as [n|] eqn:Hq; sinv H; [|done]. rewrite captured_get in *.
  eapply inv_frame; [| | | |eapply (inv_credit s id a n true (Sys.QuarantineClaimed id n (account_key blake3 id))); done]; done.
Qed.

Lemma dispose_inv d n s s' r : sys_inv s → dispose_deposit d n s = SOk s' r → sys_inv s'.
Proof.
  intros Hinv H. unfold dispose_deposit in H. destruct (ld_account_id d) as [id|]; sinv H.
  - rewrite captured_get in *. eapply (inv_credit s id a n true); done.
  - apply inv_idle; [|done|done]. eapply inv_frame; [| | | |exact Hinv]; done.
Qed.

Lemma ingest_inv d s s' r : sys_inv s → ingest_l1_deposit blake3 keccak256 d s = SOk s' r → sys_inv s'.
Proof.
  intros Hinv H. unfold ingest_l1_deposit in H. apply sbind_SOk_inv in H as (s1 & n & E & H).
  apply validate_l1_deposit_SOk in E as (-> & _). apply sbind_SOk_inv in H as (s2 & r' & E & H). sinv H.
  eapply inv_frame; [| | | |eapply dispose_inv; done]; done.
Qed.

Lemma request_inv q s s' r : sys_inv s → request_bridge_withdrawal keccak256 q s = SOk s' r → sys_inv s'.
Proof.
  intros Hinv H. unfold request_bridge_withdrawal in H. apply sbind_SOk_inv in H as (s1 & n & E & H).
  apply validate_bridge_withdrawal_SOk in E as (-> & _). sinv H. rewrite captured_get in *.
  match goal with H : arith I64 _ = Ok _ |- _ => apply arith_Ok in H as [-> Hb] end.
  eapply inv_frame; [| | | |eapply (inv_credit s _ _ (- n) false (Sys.WithdrawalCreated _ n _)); try done; by apply chk_in]; done.
Qed.

Lemma transition_inv id tr s s' u : sys_inv s → apply_withdrawal_transition id tr s = SOk s' u → sys_inv s'.
Proof.
  intros Hinv H. unfold apply_withdrawal_transition in H. apply sbind_SOk_inv in H as (s1 & w & E & H).
  apply withdrawal_SOk in E as [-> Hw]. sinv H. destruct tr as [| | |r]; sinv H; [done|done| |].
  - rewrite record_eq in H. injection H as <-. apply inv_idle; [by apply inv_captured|done|done].
  - rewrite captured_get in *. rewrite record_eq in H. injection H as <-. eapply (inv_credit s _ _ a false); done.
Qed.

Lemma observe_loop_inv l1 ids acc s s' l : sys_inv s → sfold (observe_withdrawal l1) acc ids s = SOk s' l → sys_inv s'.
Proof.
  revert acc s. induction ids as [|id ids IH]; intros acc s Hinv H; cbn [sfold] in H; [by sinv H|].
  apply sbind_SOk_inv in H as (s1 & acc1 & E & H). eapply IH; [|exact H]. clear H IH.
  unfold observe_withdrawal in E. apply sbind_SOk_inv in E as (s2 & w & E1 & E). apply withdrawal_SOk in E1 as [-> Hw].
  destruct (observe_l1_height w l1) as [w' tr]. rewrite smodify_bind in E. apply sbind_SOk_inv in E as (s3 & [] & E1 & E).
  assert (s1 = s3) as ->.
  { destruct tr; [by sinv E..|]. apply sbind_SOk_inv in E as (s4 & w4 & E2 & E). apply withdrawal_SOk in E2 as [-> _]. by sinv E. }
  eapply transition_inv; [|exact E1]. eapply inv_frame; [| | | |exact Hinv]; done.
Qed.

Lemma observe_inv l1 s s' l : sys_inv s → observe_bridge_l1_height l1 s = SOk s' l → sys_inv s'.
Proof.
  intros Hinv H. unfold observe_bridge_l1_height in H. rewrite sget_bind in H. destruct (_ <=? _); [by sinv H|].
  rewrite smodify_bind in H. apply sbind_SOk_inv in H as (s1 & [] & E & H). rewrite record_eq in E. injection E as <-.
  rewrite sget_bind in H. eapply observe_loop_inv; [|exact H]. apply inv_idle; [|done|done].
  eapply inv_frame; [| | | |exact Hinv]; done.
Qed.

Lemma l1_event_inv e s s' r : sys_inv s → apply_bridge_withdrawal_l1_event e s = SOk s' r → sys_inv s'.
Proof.
  intros Hinv H. unfold apply_bridge_withdrawal_l1_event in H. rewrite sget_bind in H.
  apply sbind_SOk_inv in H as (s1 & [] & E & H). apply sbind_SOk_inv in H as (s2 & l & E2 & H).
  assert (s' = s2) as ->.
  { destruct (find_nullifier s _); [|by sinv H]. apply sbind_SOk_inv in H as (s4 & w4 & E4 & H).
    apply withdrawal_SOk in E4 as [-> _]. by sinv H. }
  eapply observe_inv; [|exact E2]. clear E2 H. destruct (find_nullifier s _) as [id|]; [|by sinv E].
  apply sbind_SOk_inv in E as (s3 & w & E3 & E). apply withdrawal_SOk in E3 as [-> _].
  destruct (apply_l1_event w e) as [w' tr]. rewrite smodify_bind in E. eapply transition_inv; [|exact E].
  eapply inv_frame; [| | | |exact Hinv]; done.
Qed.

Lemma cancel_inv id oid s s' u :
  sys_inv s → is_Some (get_account s id) → cancel_pending_order_at id oid s = SOk s' u → sys_inv s'.
Proof.
  intros Hinv [a Ha] H. unfold cancel_pending_order_at in H. apply sbind_SOk_inv in H as (s1 & ro & E & H).
  unfold on_book in E. destruct (cancel id oid (sq_order_book s)) as [b ro'| |]; [|done|done]. injection E as <- <-. sinv H.
  rewrite record_eq in H. injection H as <-.
  set (s1 := set_order_book b s). assert (sys_inv s1) as Hinv1 by (eapply inv_frame; [| | | |exact Hinv]; done).
  match goal with |- sys_inv (recorded ?e _) =>
    assert (sys_inv (recorded e (put id a (captured id s1)))) as Hput by
      (eapply (inv_value s1 id a a e); try done; intros t Ht; eexists; split; [done|]; intros d; by apply (vsim_same _ t)) end.
  eapply inv_frame; [| | | |exact Hput]; try done. cbn. rewrite captured_accounts. cbn.
  destruct (sq_accounts s) as [m n] eqn:Hs. unfold as_insert. cbn. f_equal. symmetry. apply insert_id.
  unfold get_account in Ha. by rewrite Hs in Ha.
Qed.

(** Only account [id] may be behind. *)
Definition behind (id i : Z) : Z → Z → Prop := if decide (i = id) then Z.le else eq.

Lemma acct_ok_weaken id' h id b c L : acct_ok blake3 sha256 h eq id b c L → acct_ok blake3 sha256 h (behind id' id) id b c L.
Proof.
  unfold behind. case_decide; [|done]. destruct c as [a|]; [|done]. intros (? & ? & ? & s0 & x & ? & ? & ? & HR & ?).
  split_and!; [done..|]. exists s0, x. rewrite HR. split_and!; try done.
Qed.

Lemma action_inv_at act s s' u :
  sys_inv_at (behind (action_account_nonce act).1) s → apply_client_action_authorized act s = SOk s' u → sys_inv s'.
Proof.
  destruct (action_account_nonce act) as [id n] eqn:Hact. cbn [fst]. intros Hinv H.
  unfold apply_client_action_authorized in H. rewrite Hact in H. rewrite (sbind_SOk _ _ _ _ _ (capture_eq id s)) in H.
  apply sbind_SOk_inv in H as (s1 & [] & E & H). unfold advance_replay_nonce, validate_replay_nonce in E. sinv E.
  sinv E0. apply guard_err_SOk in E0 as [-> Hlt]. rewrite captured_get in *. simplify_eq. rename a1 into a0, E2 into E1.
  apply Z.leb_gt in Hlt. injection E as <-. rewrite sget_bind, get_account_put, decide_True in H by done. cbn [expect] in H.
  rewrite slift_Ok_bind, smodify_bind, record_eq in H. injection H as <-.
  assert (sys_inv (recorded (Sys.ClientActionAuthorized act)
    (put id (set_last_trading_nonce n (set_last_nonce n a0)) (captured id s)))) as Hput.
  - eapply (inv_record (behind id)); [by apply inv_captured|by rewrite captured_get, E1|apply captured_has|done| |].
    + intros i Hi. cbn. rewrite Hact. unfold on_account, behind. by rewrite !decide_False by done.
    + unfold next_height. rewrite captured_height, base_captured, captured_events.
      eapply (acct_action _ _ _ id _ a0 _ _ _ n); try done.
      * pose proof (si_accounts _ _ Hinv id) as Hok. unfold behind in Hok. rewrite decide_True, E1 in Hok by done. exact Hok.
      * cbn. rewrite Hact. unfold on_account. by rewrite decide_True.
      * intros t [? ? ? ?]. by split.
  - eapply inv_frame; [| | | |exact Hput]; try done. apply as_insert_twice.
Qed.

Lemma action_inv act s s' u : sys_inv s → apply_client_action_authorized act s = SOk s' u → sys_inv s'.
Proof.
  intros [H1 H2 Ht H3] H. eapply action_inv_at; [|exact H]. split; [done..|]. intros id. apply acct_ok_weaken, H3.
Qed.

Lemma mm_action_inv act s s' u : sys_inv s → apply_mm_lifecycle_action_authorized act s = SOk s' u → sys_inv s'.
Proof.
  intros [H1 H2 Ht H3] H. unfold apply_mm_lifecycle_action_authorized in H.
  destruct (mm_action_account act) as [id|] eqn:Hmm; [|done]. rewrite smodify_bind in H.
  eapply action_inv_at; [|exact H].
  assert ((action_account_nonce act).1 = id) as -> by (destruct act; cbn in *; congruence).
  assert (∀ e, is_mm_action_of id e ≠ false → ∃ act', e = Sys.ClientActionAuthorized act' ∧ (action_account_nonce act').1 = id) as Hdrop.
  { intros e He. destruct e; try done. cbn in He. apply not_false_iff_true, bool_decide_eq_true in He.
    eexists. split; [done|]. destruct action; cbn in *; congruence. }
  split; cbn [sq_pending_system_events set_events].
  - by apply Forall_filter_keep.
  - done.
  - intros i Hi. specialize (Ht i Hi). change (next_height (set_events _ s)) with (next_height s). by apply bind_filter_nil.
  - intros i. unfold behind. case_decide as Hi.
    + apply acct_drop; [|apply H3]. intros e _ He. destruct (Hdrop e He) as (act' & -> & _). eauto.
    + apply acct_drop_other; [|apply H3]. intros e _ He. destruct (Hdrop e He) as (act' & -> & Hid). cbn.
      unfold on_account. by rewrite decide_False by congruence.
Qed.

(** ** Keys *)

Lemma can_register_authorized_SOk id pk s s' u :
  can_register_authorized_pubkey id pk s = SOk s' u → s' = s ∧ is_Some (get_account s id).
Proof.
  unfold can_register_authorized_pubkey, can_register_pubkey, can_accept_key_op. intros H.
  sinv H. sinv E. apply guard_err_SOk in E as [-> _]. apply guard_err_SOk in H as [-> _]. split; [done|].
  apply bool_decide_eq_false in E0. by destruct (get_account s id).
Qed.

Lemma validate_label_reads l : reads (validate_label l).
Proof. unfold validate_label. reads_only. Qed.
Lemma validate_claim_reads id : reads (validate_quarantine_claim_for_account blake3 id).
Proof. unfold validate_quarantine_claim_for_account. reads_only. Qed.

(** The digest refresh changes nothing replayed, whatever the registry. *)
Definition rekeyed (s : Sequencer) (id : Z) (a : Account) : Account :=
  set_keys_digest (registry_keys_digest sha256 (sq_pubkey_registry s) id) a.

(** A key operation on an account that existed at block start: refresh the key
    digest, fold the event, queue it. *)
Lemma key_op_inv s s1 id a b encoded e :
  sys_inv s → get_account s id = Some a → base s id = Some b → authorization_event e = true → event_wf e →
  (∀ i, effects (next_height s) i e = on_account i id (KeyFolded (encoded (next_height s)))) →
  sq_accounts s1 = sq_accounts s → sq_baselines s1 = sq_baselines (captured id s) →
  sq_pending_system_events s1 = sq_pending_system_events s → sq_height s1 = sq_height s →
  ∀ s' u, (refresh_account_keys_digest sha256 id;; fold_digest blake3 id encoded;; record_system_event e) s1 = SOk s' u →
  sys_inv s'.
Proof.
  intros Hinv Ha Hbase He Hwf Hv A B C D s' u H. unfold refresh_account_keys_digest in H. rewrite smodify_bind in H.
  assert (get_account s1 id = Some a) as Ha1 by (unfold get_account; by rewrite A). rewrite Ha1 in H.
  unfold fold_digest in H. apply sbind_SOk_inv in H as (s2 & [] & E & H).
  rewrite sget_bind, get_account_put, decide_True in E by done. injection E as <-. rewrite record_eq in H. injection H as <-.
  set (a1 := set_keys_digest _ a). set (a2 := set_events_digest _ a1).
  assert (sys_inv (recorded e (put id a2 (captured id s)))) as Hput.
  - eapply (inv_record (λ _, eq)); [by apply inv_captured|by rewrite captured_get, Ha|apply captured_has|done| |].
    + intros i Hi. unfold next_height. rewrite captured_height, Hv. unfold on_account. by rewrite decide_False.
    + unfold next_height. rewrite captured_height, base_captured, captured_events, Hbase.
      eapply (acct_key _ _ _ id b a _ _ _ (encoded (next_height s))); try done.
      * pose proof (si_accounts _ _ Hinv id) as Hok. rewrite Ha, Hbase in Hok. exact Hok.
      * rewrite Hv. unfold on_account. by rewrite decide_True.
      * cbn. by rewrite D.
      * intros t [? ? ? ?]. by split.
  - eapply inv_frame; [| | | |exact Hput]; cbn; rewrite ?A, ?B, ?C, ?D; autorewrite with sybil_rw; try done. apply as_insert_twice.
Qed.

Lemma register_inv id pk meta au s s' u :
  sys_inv s → is_Some (base s id) → register_pubkey_with_meta_authorized blake3 sha256 id pk meta au s = SOk s' u → sys_inv s'.
Proof.
  intros Hinv [b Hb] H. unfold register_pubkey_with_meta_authorized in H.
  apply sbind_SOk_inv in H as (s1 & [] & E & H). apply reads_SOk in E as ->; [|apply validate_label_reads].
  apply sbind_SOk_inv in H as (s2 & [] & E & H). apply can_register_authorized_SOk in E as [-> [a Ha]].
  apply sbind_SOk_inv in H as (s3 & [] & E & H). apply reads_SOk in E as ->; [|apply validate_claim_reads].
  rewrite (sbind_SOk _ _ _ _ _ (capture_eq id s)) in H. set (key := key_record pk (set_rp_account_id id meta)) in H.
  apply sbind_SOk_inv in H as (s4 & [] & E1 & H). apply sbind_SOk_inv in H as (s5 & [] & E2 & H).
  apply sbind_SOk_inv in H as (s6 & [] & E3 & H). apply sbind_SOk_inv in H as (s7 & r & E4 & H). sinv H.
  eapply claim_inv; [|exact E4]. unfold apply_pubkey_registration in E1. rewrite smodify_bind in E1.
  match type of E1 with _ ?t = _ => eapply (key_op_inv s t id a b (encode_key_registered_event key) (Sys.KeyRegistered id key au)) end;
    try done;
    try first [apply captured_accounts|apply captured_events|apply captured_height].
  rewrite (sbind_SOk _ _ _ _ _ E1), (sbind_SOk _ _ _ _ _ E2). exact E3.
Qed.

Lemma revoke_inv id pk au s s' u :
  sys_inv s → is_Some (base s id) → revoke_signing_key blake3 sha256 id pk au s = SOk s' u → sys_inv s'.
Proof.
  intros Hinv [b Hb] H. unfold revoke_signing_key in H. apply sbind_SOk_inv in H as (s1 & [] & E & H).
  apply reads_SOk in E as ->; [|unfold can_revoke_signing_key, can_accept_key_op; reads_only].
  rewrite (sbind_SOk _ _ _ _ _ (capture_eq id s)), sget_bind in H.
  apply sbind_SOk_inv in H as (s2 & reg & E & H). apply slift_SOk in E as [-> Hreg]. rewrite smodify_bind in H.
  destruct (get_account s id) as [a|] eqn:Ha; last first.
  { unfold refresh_account_keys_digest, fold_digest in H. rewrite smodify_bind in H.
    assert (get_account (set_pubkey_registry (delete pk (sq_pubkey_registry (captured id s))) (captured id s)) id = None) as Hn
      by (rewrite <- Ha; apply captured_get). rewrite Hn in H.
    apply sbind_SOk_inv in H as (s3 & [] & E & _). rewrite sget_bind, Hn in E. done. }
  eapply (key_op_inv s (set_pubkey_registry _ (captured id s)) id a b (encode_key_revoked_event (key_record pk reg))
    (Sys.KeyRevoked id (key_record pk reg) au)); try done;
    first [apply captured_accounts|apply captured_events|apply captured_height].
Qed.

(** ** Creation *)

Lemma store_create_SOk b s s' id :
  store_create_account sha256 b s = SOk s' id →
  id = as_next_id (sq_accounts s) ∧ id < int_max U64 ∧
  s' = set_accounts (mkAccountStore (<[id := Account_new (empty_account_keys_digest sha256) id b]> (as_accounts (sq_accounts s))) (id + 1)) s.
Proof.
  unfold store_create_account, create_account. rewrite sget_bind. unfold arith.
  destruct (fits U64 (as_next_id (sq_accounts s) + 1)) eqn:Hf; [|done]. rewrite slift_Ok_bind, smodify_bind. intros [= <- <-].
  apply fits_iff in Hf. split_and!; [done|int_lia|done].
Qed.

(** [capture_missing_system_account] as a function of the state. *)
Definition missing (id : Z) (s : Sequencer) : Sequencer :=
  match sq_baselines s !! id with Some _ => s | None => set_baselines (<[id := None]> (sq_baselines s)) s end.

Lemma capture_missing_frame id s :
  sq_accounts (missing id s) = sq_accounts s ∧ sq_pending_system_events (missing id s) = sq_pending_system_events s ∧
  sq_height (missing id s) = sq_height s ∧ sq_bridge (missing id s) = sq_bridge s.
Proof. unfold missing. by destruct (sq_baselines s !! id). Qed.

Definition initial_keys (id : Z) (k : option (Bytes * RegisteredPubkey)) : list KeyRecord :=
  match k with Some (pk, meta) => [key_record pk (set_rp_account_id id meta)] | None => [] end.

Lemma missing_base id j s st : get_account s id = None → base s id = None → (∀ j, j ≠ id → as_get st j = get_account s j) →
  base (set_accounts st (missing id s)) j = base s j.
Proof.
  intros Hg Hb Hst. unfold missing, base in *. destruct (sq_baselines s !! id) as [o|] eqn:Hi; cbn [set_accounts set_baselines sq_baselines].
  - destruct (sq_baselines s !! j) eqn:Hj; [done|]. apply Hst. congruence.
  - rewrite lookup_insert. case_decide as Hj; [subst; by rewrite Hi, Hg|]. destruct (sq_baselines s !! j) eqn:Hj'; [done|].
    apply Hst. congruence.
Qed.

Lemma creation_SOk b k s s' id :
  apply_account_creation_at sha256 b k s = SOk s' id →
  id = as_next_id (sq_accounts s) ∧ id < int_max U64 ∧
  ∃ a r, s' = recorded (Sys.CreateAccount id b (initial_keys id k))
      (set_pubkey_registry r (set_accounts (mkAccountStore (<[id := a]> (as_accounts (sq_accounts s))) (id + 1)) (missing id s))) ∧
    marks a = (id, 0, 0, replicate 32 0) ∧ acc_balance a = b ∧ acc_total_deposited a = b ∧ acc_positions a = ∅.
Proof.
  intros H. unfold apply_account_creation_at in H. apply sbind_SOk_inv in H as (s1 & i & E & H).
  apply store_create_SOk in E as (-> & Hmax & ->). set (i := as_next_id (sq_accounts s)) in *.
  set (new := Account_new (empty_account_keys_digest sha256) i b) in *.
  set (st := mkAccountStore (<[i := new]> (as_accounts (sq_accounts s))) (i + 1)) in *.
  assert (capture_missing_system_account i (set_accounts st s) = SOk (set_accounts st (missing i s)) ()) as Hc.
  { unfold capture_missing_system_account, smodify, missing. cbn. by destruct (sq_baselines s !! i). }
  rewrite (sbind_SOk _ _ _ _ _ Hc) in H. destruct k as [[pk meta]|]; cbn [initial_keys].
  - unfold apply_pubkey_registration, refresh_account_keys_digest in H. sinv H.
    match goal with |- context [get_account ?t i] => assert (get_account t i = Some new) as Hn by (apply lookup_insert_eq) end.
    rewrite Hn. split_and!; [done|done|]. eexists (set_keys_digest _ new), _. split; [|by split_and!].
    unfold put, as_insert. cbn. by rewrite insert_insert_eq.
  - sinv H. split_and!; [done|done|]. exists new, (sq_pubkey_registry (missing i s)). split; [|by split_and!]. done.
Qed.

Lemma creation_inv b k s s' id :
  sys_inv s → 0 ≤ as_next_id (sq_accounts s) → apply_account_creation_at sha256 b k s = SOk s' id → sys_inv s'.
Proof.
  intros Hinv Hnn H. apply creation_SOk in H as (-> & Hmax & a & r & -> & M & Hbal & Htot & Hpos).
  set (i := as_next_id (sq_accounts s)) in *. set (st := mkAccountStore _ _).
  assert (get_account s i = None) as Hfresh.
  { destruct (get_account s i) eqn:Hg; [|done]. destruct (si_ids _ _ Hinv i) as [Hi|Hi]; [by rewrite Hg| |lia].
    unfold AccountId_MINT in Hi. lia. }
  pose proof (si_accounts _ _ Hinv i) as Hok. rewrite Hfresh in Hok. pose proof Hok as (Hbase & _). rewrite Hbase in Hok.
  destruct (capture_missing_frame i s) as (_ & C & D & _).
  eapply (inv_frame _ (recorded (Sys.CreateAccount i b (initial_keys i k)) (set_accounts st (missing i s)))); [done..|].
  split.
  - cbn. rewrite C. apply Forall_app. split; [apply (si_events _ _ Hinv)|by constructor].
  - intros j. unfold get_account, as_get. cbn. rewrite lookup_insert. case_decide as Hj; [intros _; right; lia|].
    intros Hs. apply (si_ids _ _ Hinv) in Hs. fold i in Hs. unfold AccountId_MINT in Hs. cbn in Hs. lia.
  - intros j Hj. unfold next_height. cbn [recorded set_events sq_pending_system_events sq_height set_accounts]. rewrite C, D, bind_app, bind_singleton.
    cbn [recorded set_events sq_baselines set_accounts] in Hj. unfold missing in Hj. cbn [effects]. unfold on_account.
    destruct (sq_baselines s !! i) eqn:Hi.
    + rewrite decide_False by congruence. rewrite app_nil_r. by apply (si_touched _ _ Hinv).
    + cbn in Hj. apply lookup_insert_None in Hj as [Hj Hne]. rewrite decide_False by congruence. rewrite app_nil_r. by apply (si_touched _ _ Hinv).
  - intros j. change (base (recorded ?e ?t) j) with (base t j). rewrite missing_base by (done || (intros j' Hj'; by apply lookup_insert_ne)).
    unfold next_height, get_account, as_get. cbn [recorded set_events set_accounts sq_accounts sq_height sq_pending_system_events as_accounts st].
    rewrite C, D, lookup_insert. case_decide as Hj; [subst j; rewrite Hbase|].
    + eapply acct_create; try done. cbn. unfold on_account. by rewrite decide_True.
    + apply acct_other; [|apply (si_accounts _ _ Hinv)]. cbn. unfold on_account. by rewrite decide_False.
Qed.

Lemma captured_id id s : is_Some (sq_baselines s !! id) → captured id s = s.
Proof. intros [o Ho]. unfold captured. by rewrite Ho. Qed.

Lemma creation_after b k s s' id :
  apply_account_creation_at sha256 b k s = SOk s' id →
  is_Some (sq_baselines s' !! id) ∧ ∃ a, get_account s' id = Some a ∧ acc_balance a = b ∧ acc_total_deposited a = b.
Proof.
  intros H. apply creation_SOk in H as (_ & _ & a & r & -> & _ & Hb & Ht & _). split.
  - cbn. unfold missing. destruct (sq_baselines s !! id) eqn:Hi; cbn; [by rewrite Hi|]. rewrite lookup_insert_eq. eauto.
  - exists a. split; [|done]. apply lookup_insert_eq.
Qed.

Lemma prepared_inv b pk meta s s' id :
  sys_inv s → 0 ≤ as_next_id (sq_accounts s) →
  (prepared ← prepare_account_with_initial_key blake3 b pk meta; apply_prepared_account_with_initial_key sha256 prepared) s = SOk s' id →
  sys_inv s'.
Proof.
  intros Hinv Hnn H. apply sbind_SOk_inv in H as (s1 & p & E & H).
  assert (s1 = s ∧ pk_initial_balance p = b ∧ pk_account_id p = as_next_id (sq_accounts s) ∧
    ∀ c, pk_quarantine_claim p = Some c → chk I64 (b + pq_amount c) = Some (pq_balance c) ∧ pq_total_deposited c = pq_balance c)
    as (-> & Hb & Hid & Hclaim).
  { unfold prepare_account_with_initial_key in E. apply sbind_SOk_inv in E as (s2 & [] & E1 & E).
    apply reads_SOk in E1 as ->; [|apply validate_label_reads]. sinv E.
    destruct (bs_quarantine _ !! _) as [n|]; sinv E2; split_and!; try done. intros c [= <-]. cbn. split; congruence. }
  unfold apply_prepared_account_with_initial_key in H. apply sbind_SOk_inv in H as (s2 & id' & E1 & H). rewrite Hb in E1.
  pose proof (creation_inv _ _ _ _ _ Hinv Hnn E1) as Hinv2.
  apply creation_after in E1 as (Hbl & a & Ha & Hbal & Htot).
  apply sbind_SOk_inv in H as (s3 & [] & E1 & H). apply slift_SOk in E1 as [-> _].
  apply sbind_SOk_inv in H as (s4 & [] & E1 & H). sinv H.
  destruct (pk_quarantine_claim p) as [c|]; [|by sinv E1]. destruct (Hclaim c eq_refl) as [H1 H2]. sinv E1.
  rewrite record_eq in E1. injection E1 as <-. set (s3 := set_bridge _ s2) in *.
  assert (get_account s3 id = Some a) as Ha3 by exact Ha. rewrite Ha3 in E2. injection E2 as <-.
  rewrite <- (captured_id id s3) by exact Hbl.
  eapply (inv_credit s3 id a (pq_amount c) true); try done.
  - eapply inv_frame; [| | | |exact Hinv2]; done.
  - rewrite Htot, H2. congruence.
Qed.

(** ** Initial keys *)

Lemma pending_create_base id a L1 b ks L2 base0 h :
  acct_ok blake3 sha256 h eq id base0 (Some a) (L1 ++ Sys.CreateAccount id b ks :: L2) → base0 = None.
Proof.
  intros (_ & _ & _ & s0 & x & H0 & _). destruct base0 as [b0|]; [|done]. apply run_present in H0 as [H0 _].
  rewrite phase0_app, phase0_cons, phase0_single in H0. cbn in H0. unfold on_account in H0. rewrite decide_True in H0 by done.
  apply Forall_app in H0 as [_ H0]. by inversion H0.
Qed.

Lemma inv_push s id a L1 b ks ks' L2 :
  sys_inv s → get_account s id = Some a → sq_pending_system_events s = L1 ++ Sys.CreateAccount id b ks :: L2 →
  sys_inv (set_events (L1 ++ Sys.CreateAccount id b ks' :: L2) s).
Proof.
  intros [H1 H2 Ht H3] Ha HL. rewrite HL in H1, Ht. split; cbn [sq_pending_system_events set_events]; [|done| |].
  - apply Forall_app in H1 as [H1a H1b]. apply Forall_cons in H1b as [_ H1b]. apply Forall_app. split; [done|by constructor].
  - intros j Hj. specialize (Ht j Hj). change (next_height (set_events ?L s)) with (next_height s).
    rewrite bind_app, bind_cons in Ht |- *. cbn [effects] in *. unfold on_account in *.
    case_decide; [by apply app_eq_nil in Ht as [_ Ht]|exact Ht].
  - intros j. specialize (H3 j). rewrite HL in H3. change (base (set_events ?L s) j) with (base s j).
    change (get_account (set_events ?L s) j) with (get_account s j). change (next_height (set_events ?L s)) with (next_height s).
    destruct (decide (j = id)) as [->|Hj]; [rewrite Ha in *; by eapply acct_push|].
    unfold acct_ok, tracked in *. rewrite !phase0_app, !phase1_app, (phase0_cons _ j _ L2), (phase1_cons _ j _ L2) in H3.
    rewrite !phase0_app, !phase1_app, (phase0_cons _ j _ L2), (phase1_cons _ j _ L2).
    rewrite !phase0_single, !phase1_single in *. cbn [authorization_event effects] in *. unfold on_account in *.
    rewrite decide_False in H3 |- * by done. exact H3.
Qed.

Lemma first_key_inv id pk meta s s' u :
  sys_inv s → sq_height s ≠ 0 → register_first_pubkey_with_meta blake3 sha256 id pk meta s = SOk s' u → sys_inv s'.
Proof.
  intros Hinv Hh H. unfold register_first_pubkey_with_meta in H.
  apply sbind_SOk_inv in H as (s1 & [] & E & H). apply reads_SOk in E as ->; [|apply validate_label_reads].
  apply sbind_SOk_inv in H as (s2 & [] & E & H). unfold can_register_first_pubkey, can_register_pubkey in E. sinv E.
  sinv E0. apply guard_err_SOk in E as [-> _]. apply guard_err_SOk in E0 as [-> _].
  apply bool_decide_eq_false in E1. destruct (get_account s id) as [acct|] eqn:Ha; [|done].
  apply sbind_SOk_inv in H as (s3 & [] & E & H). apply reads_SOk in E as ->; [|apply validate_claim_reads].
  rewrite sget_bind in H. set (key := key_record pk _) in H. apply sbind_SOk_inv in H as (s4 & [] & E & H).
  apply sbind_SOk_inv in H as (s5 & [] & E5 & H). apply sbind_SOk_inv in H as (s6 & r & E6 & H). sinv H.
  eapply claim_inv; [|exact E6]. clear E6.
  destruct (push_initial_key id key _) as [l'|] eqn:Hpush; last first.
  { apply guard_err_SOk in E as [_ E]. apply negb_false_iff, Z.eqb_eq in E. done. }
  injection E as <-. apply push_initial_key_spec in Hpush as (l1 & b & ks & l2 & Hl & ->).
  assert (sq_pending_system_events s = rev l2 ++ Sys.CreateAccount id b ks :: rev l1) as HL.
  { rewrite <- (rev_involutive (sq_pending_system_events s)), Hl, rev_app_distr. cbn. by rewrite <- (assoc_L (++)). }
  assert (rev (l1 ++ Sys.CreateAccount id b (ks ++ [key]) :: l2) = rev l2 ++ Sys.CreateAccount id b (ks ++ [key]) :: rev l1) as HL'.
  { rewrite rev_app_distr. cbn. by rewrite <- (assoc_L (++)). }
  rewrite HL' in E5. pose proof (inv_push s id acct (rev l2) b ks (ks ++ [key]) (rev l1) Hinv Ha HL) as Hinv'.
  set (L' := rev l2 ++ _ :: rev l1) in E5, Hinv'.
  unfold apply_pubkey_registration, refresh_account_keys_digest in E5. rewrite smodify_bind in E5. injection E5 as <-.
  set (r' := <[pk := _]> _). change (get_account _ id) with (get_account s id). rewrite Ha.
  pose proof (si_accounts _ _ Hinv id) as Hok. rewrite Ha, HL in Hok. apply pending_create_base in Hok as Hb.
  eapply inv_frame; [| | | |eapply (inv_inert _ (set_events L' s) id acct (set_keys_digest (registry_keys_digest sha256 r' id) acct))]; try done.
  - unfold base in Hb. cbn. destruct (sq_baselines s !! id) as [o|]; [eauto|congruence].
  - intros t [? ? ? ?]. by split.
Qed.

(** ** Resolution *)

(** Capturing several baselines. *)
Lemma capture_all ids s : sforeach capture_system_account_baseline ids s = SOk (foldl (λ s id, captured id s) s ids) ().
Proof. revert s. induction ids as [|id ids IH]; intros s; cbn [sforeach foldl]; [done|]. by rewrite (sbind_SOk _ _ _ _ _ (capture_eq id s)). Qed.

Lemma capture_all_inv R ids s : sys_inv_at R s →
  let s' := foldl (λ s id, captured id s) s ids in
  sys_inv_at R s' ∧ sq_accounts s' = sq_accounts s ∧ (∀ id, id ∈ ids ∨ is_Some (sq_baselines s !! id) → is_Some (sq_baselines s' !! id)).
Proof.
  revert s. induction ids as [|i ids IH]; intros s Hinv; cbn [foldl].
  { split_and!; [done..|]. intros id [Hid|]; [by apply not_elem_of_nil in Hid|done]. }
  destruct (IH (captured i s)) as (H1 & H2 & H3); [by apply inv_captured|]. rewrite captured_accounts in H2. split_and!; [done..|].
  intros id Hid. apply H3. destruct (decide (id = i)) as [->|Hne]; [right; apply captured_has|].
  destruct Hid as [Hid|[o Ho]]; [left; set_solver|]. right. unfold captured.
  destruct (sq_baselines s !! i); [eauto|]. cbn. rewrite lookup_insert_ne by done. eauto.
Qed.

(** Replace the block-start account by one with the same snapshot. *)
Lemma acct_rebase R h id b b' a L :
  acct_ok blake3 sha256 h R id (Some b) (Some a) L → snap b' = snap b → acct_ok blake3 sha256 h R id (Some b') (Some a) L.
Proof.
  intros (Hid & Hb & Hn & Ht) Hs. split_and!; [done| |done|].
  - intros ? [= <-]. assert (asn_id (snap b') = asn_id (snap b)) as Hi by congruence. rewrite <- (Hb b eq_refl). exact Hi.
  - unfold tracked in *. cbn [fmap option_fmap option_map] in *. by rewrite Hs.
Qed.

Lemma resolution_account m y ids s1 (affected := filter (λ id, holds m <$> as_accounts (sq_accounts s1) !! id = Some true) ids) j :
  sys_inv s1 → 0 ≤ y ≤ NANOS_PER_DOLLAR → bounded 4000000000000000000 2000000000000 (as_accounts (sq_accounts s1)) →
  (∀ id, is_Some (get_account s1 id) → id ∈ ids) →
  (∀ id a, get_account s1 id = Some a → holds m a = true → is_Some (sq_baselines s1 !! id)) →
  acct_ok blake3 sha256 (next_height s1) eq j
    (match sq_baselines s1 !! j with Some o => o | None => resolved m y <$> get_account s1 j end)
    (resolved m y <$> get_account s1 j) (sq_pending_system_events s1 ++ [Sys.MarketResolved m y affected]).
Proof.
  intros Hinv Hy Hb Hids Hhas. pose proof (si_accounts _ _ Hinv j) as Hok. unfold base in Hok.
  assert (j ∈ affected ↔ ∃ a, get_account s1 j = Some a ∧ holds m a = true) as Haff.
  { unfold affected. rewrite list_elem_of_filter, fmap_Some. split.
    - intros [(a & Ha & Hh) _]. eauto.
    - intros (a & Ha & Hh). split; [by exists a|]. apply Hids. by rewrite Ha. }
  destruct (get_account s1 j) as [a|] eqn:Ha; cbn [fmap option_fmap option_map].
  - destruct (holds m a) eqn:Hh.
    + destruct (Hhas j a Ha Hh) as [o Ho]. rewrite Ho in *. destruct (Hb j a Ha) as [Hbal Hpos].
      eapply acct_value; [exact Hok|done| |done|].
      * cbn. rewrite decide_True; [done|]. apply Haff. eauto.
      * intros t Ht. by apply resolved_vsim.
    + apply acct_other; [cbn; rewrite decide_False; [done|]; rewrite Haff; intros (a' & Ha' & Hh'); congruence|].
      apply (acct_inert _ _ _ _ _ _ a); [|done|intros t; by apply resolved_idle_vsim].
      destruct (sq_baselines s1 !! j); [done|]. by eapply acct_rebase, resolved_idle_snap.
  - apply acct_other; [cbn; rewrite decide_False; [done|]; rewrite Haff; intros (a' & Ha' & Hh'); congruence|]. by destruct (sq_baselines s1 !! j).
Qed.

Lemma resolution_inv ids m y s s' u :
  sys_inv s → 0 ≤ y ≤ NANOS_PER_DOLLAR → ids ≡ₚ (map_to_list (as_accounts (sq_accounts s))).*1 →
  bounded 4000000000000000000 2000000000000 (as_accounts (sq_accounts s)) →
  execute_resolution ids m y s = SOk s' u → sys_inv s'.
Proof.
  intros Hinv Hy Hids Hb H. unfold execute_resolution in H. rewrite sget_bind, (sbind_SOk _ _ _ _ _ (capture_all _ _)), sget_bind in H.
  destruct (capture_all_inv _ (holders s ids m) s Hinv) as (Hinv1 & Hacc & Hhas). set (s1 := foldl _ s _) in *.
  rewrite Hacc, resolve_market_ok in H by done. rewrite slift_Ok_bind, smodify_bind in H. sinv H.
  injection H as <-. eapply (inv_frame _ (recorded _ _)); [done..|]. rewrite <- Hacc in Hids, Hb |- *.
  assert (∀ id, is_Some (get_account s1 id) → id ∈ ids) as Hin.
  { intros id [a Ha]. rewrite Hids, list_elem_of_fmap. exists (id, a). split; [done|]. by apply elem_of_map_to_list. }
  split.
  - cbn. apply Forall_app. split; [apply (si_events _ _ Hinv1)|]. constructor; [|done].
    apply NoDup_filter. rewrite Hids. apply NoDup_fst_map_to_list.
  - intros j. unfold get_account, as_get. cbn. rewrite lookup_fmap, fmap_is_Some. apply (si_ids _ _ Hinv1).
  - intros j Hj. cbn [recorded set_events sq_pending_system_events set_accounts sq_baselines] in *.
    change (next_height _) with (next_height s1). rewrite bind_app, bind_singleton, (si_touched _ _ Hinv1) by done. cbn.
    rewrite decide_False; [done|]. intros [Hh Hji]%list_elem_of_filter. apply fmap_Some in Hh as (a & Ha & Hh).
    destruct (Hhas j) as [? Hs]; [|congruence]. left. unfold holders. apply list_elem_of_filter.
    split; [|done]. unfold get_account, as_get. rewrite <- Hacc, Ha. exact (eq_sym Hh).
  - intros j. pose proof (resolution_account m y ids s1 j Hinv1 Hy Hb Hin) as Hj.
    unfold base, get_account, as_get in *. cbn [recorded set_events set_accounts sq_baselines sq_accounts as_accounts sq_pending_system_events].
    rewrite lookup_fmap. apply Hj. intros id a Ha Hh. apply Hhas. left. unfold holders. apply list_elem_of_filter.
    split; [|apply Hin; by rewrite Ha]. unfold get_account, as_get. rewrite <- Hacc, Ha. exact Hh.
Qed.
(** ** Runs between two blocks *)

(** A committed block leaves no pending events and no baselines. *)
Record block_start (s : Sequencer) : Prop := {
  bs_no_events : sq_pending_system_events s = [];
  bs_no_baselines : sq_baselines s = ∅;
  bs_store : ∀ id a, get_account s id = Some a →
    acc_id a = id ∧ acc_last_trading_nonce a ≤ acc_last_nonce a ∧ (id = AccountId_MINT ∨ 0 ≤ id < as_next_id (sq_accounts s));
}.

(** One successful operation.  Key operations act on accounts that existed at
    block start, cancellations on existing accounts, and resolutions on amounts
    in range. *)
Inductive sys_step : Sequencer → Sequencer → Prop :=
  | sys_action act s s' u : apply_client_action_authorized act s = SOk s' u → sys_step s s'
  | sys_mm_action act s s' u : apply_mm_lifecycle_action_authorized act s = SOk s' u → sys_step s s'
  | sys_first_key id pk meta s s' u :
      sq_height s ≠ 0 → register_first_pubkey_with_meta blake3 sha256 id pk meta s = SOk s' u → sys_step s s'
  | sys_register id pk meta au s s' u :
      is_Some (base s id) → register_pubkey_with_meta_authorized blake3 sha256 id pk meta au s = SOk s' u → sys_step s s'
  | sys_revoke id pk au s s' u :
      is_Some (base s id) → revoke_signing_key blake3 sha256 id pk au s = SOk s' u → sys_step s s'
  | sys_create b s s' id :
      0 ≤ as_next_id (sq_accounts s) → create_account_at sha256 b s = SOk s' id → sys_step s s'
  | sys_create_with_key b pk meta s s' id :
      0 ≤ as_next_id (sq_accounts s) →
      (prepared ← prepare_account_with_initial_key blake3 b pk meta; apply_prepared_account_with_initial_key sha256 prepared) s = SOk s' id →
      sys_step s s'
  | sys_fund id n s s' a : fund_account_at id n s = SOk s' a → sys_step s s'
  | sys_cancel id oid s s' u : is_Some (get_account s id) → cancel_pending_order_at id oid s = SOk s' u → sys_step s s'
  | sys_resolve ids m y s s' u :
      0 ≤ y ≤ NANOS_PER_DOLLAR → ids ≡ₚ (map_to_list (as_accounts (sq_accounts s))).*1 →
      bounded 4000000000000000000 2000000000000 (as_accounts (sq_accounts s)) →
      execute_resolution ids m y s = SOk s' u → sys_step s s'
  | sys_deposit d s s' r : ingest_l1_deposit blake3 keccak256 d s = SOk s' r → sys_step s s'
  | sys_request q s s' r : request_bridge_withdrawal keccak256 q s = SOk s' r → sys_step s s'
  | sys_l1_event e s s' r : apply_bridge_withdrawal_l1_event e s = SOk s' r → sys_step s s'
  | sys_height l1 s s' l : observe_bridge_l1_height l1 s = SOk s' l → sys_step s s'.

Lemma step_inv s s' : sys_step s s' → sys_inv s → sys_inv s'.
Proof.
  intros Hstep Hinv; destruct Hstep.
  - by eapply action_inv.
  - by eapply mm_action_inv.
  - by eapply first_key_inv.
  - by eapply register_inv.
  - by eapply revoke_inv.
  - by eapply creation_inv.
  - by eapply prepared_inv.
  - by eapply fund_inv.
  - by eapply cancel_inv.
  - by eapply resolution_inv.
  - by eapply ingest_inv.
  - by eapply request_inv.
  - by eapply l1_event_inv.
  - by eapply observe_inv.
Qed.

Lemma start_inv s : block_start s → sys_inv s.
Proof.
  intros [He Hb Hs]. split; rewrite ?He.
  - constructor.
  - intros id [a Ha]. by apply Hs in Ha as (_ & _ & ?).
  - done.
  - intros id. unfold base. rewrite Hb, lookup_empty. destruct (get_account s id) as [a|] eqn:Ha; [|done].
    apply Hs in Ha as (Hid & Hn & _). split_and!; [done|by intros ? [= <-]|done|].
    exists (snap a), (values (snap a)). split_and!; [done|done| |done|done]. intros d. apply (vsim_same _ (snap a)); [apply vsim_snap|done].
Qed.

Lemma steps_inv s s' : block_start s → rtc sys_step s s' → sys_inv s'.
Proof. intros Hs Hr. apply start_inv in Hs. induction Hr as [|s s1 s2 Hst _ IH]; [done|]. eauto using step_inv. Qed.

End ops.
