(* ===== verification/SystemVerified.v ===== *)
(** * SystemVerified: every admissible run of system operations verifies

    Block production folds the queued events into the digests and hands the
    verifier snapshots; by the invariant of [SystemInvariant] the replay of
    [verify_system_transition] agrees with the live accounts.  The last theorem
    shows why key operations on accounts created in the same block are
    excluded. *)
From S2P Require Import Prelude Types Order EngineSettlement Account Digest Validation OrderBook BatchSettlement Snapshots Finalize Witness Sidecar SettlementVerifier VerifierAgreement L1Protocol DepositFrontier AccountKeys SystemVerifier Bridge Sequencer BridgeOps SystemPhase SystemEffects SystemAgreement SystemInvariant.

Section ops.
Context (blake3 sha256 : Bytes → Bytes).

(** ** Block production *)

Lemma fold_account_event_get enc st i id :
  as_get (fold_account_event blake3 enc st i) id =
  (λ a, if decide (id = i) then set_events_digest (update_digest blake3 (acc_events_digest a) enc) a else a) <$> as_get st id.
Proof.
  unfold fold_account_event. destruct (as_get st i) as [a|] eqn:Ha.
  - unfold as_get in *. cbn. rewrite lookup_insert. case_decide as Hi; [subst; rewrite Ha; cbn; by rewrite decide_True|].
    destruct (as_accounts st !! id); cbn; [|done]. by rewrite decide_False by congruence.
  - case_decide as Hi; [subst; by rewrite Ha|]. by destruct (as_get st id).
Qed.

Definition folded (vs : list effect) (a : Account) : Account :=
  set_events_digest (foldl (block_digest blake3) (acc_events_digest a) vs) a.

Lemma fold_resolution_get m y enc ids st id : NoDup ids →
  as_get (foldl (fold_account_event blake3 enc) st ids) id =
  folded (if decide (id ∈ ids) then [Resolved m y enc] else []) <$> as_get st id.
Proof.
  revert st. induction ids as [|i ids IH]; intros st Hnd; cbn [foldl].
  { rewrite decide_False by apply not_elem_of_nil. by destruct (as_get st id) as [[]|]. }
  apply NoDup_cons in Hnd as [Hi Hnd]. rewrite IH, fold_account_event_get by done.
  destruct (as_get st id) as [a|]; [|done]. cbn. destruct (decide (id = i)) as [->|Hne].
  - rewrite decide_False, decide_True by set_solver. done.
  - destruct (decide (id ∈ ids)), (decide (id ∈ i :: ids)); set_solver.
Qed.

Lemma fold_system_event_get h st e id : event_wf e →
  as_get (fold_system_event blake3 h st e) id = folded (effects h id e) <$> as_get st id.
Proof.
  intros Hwf. assert (as_get st id = folded [] <$> as_get st id) as Hnil by (by destruct (as_get st id) as [[]|]).
  destruct e; cbn [fold_system_event effects]; try exact Hnil;
    try (rewrite fold_account_event_get; unfold on_account; case_decide; by destruct (as_get st id) as [[]|]);
    try (unfold on_account; case_decide; [by destruct (as_get st id) as [[]|]|exact Hnil]).
  by apply fold_resolution_get.
Qed.

Lemma fold_events_get h st L id : Forall event_wf L →
  as_get (foldl (fold_system_event blake3 h) st L) id = folded (L ≫= effects h id) <$> as_get st id.
Proof.
  intros HL. revert st. induction HL as [|e L He _ IH]; intros st; cbn [foldl].
  { by destruct (as_get st id) as [[]|]. }
  rewrite IH, fold_system_event_get by done. rewrite bind_cons. destruct (as_get st id) as [a|]; [|done].
  cbn [fmap option_fmap option_map]. unfold folded. by rewrite foldl_app.
Qed.

(** Replaying the sorted events from the block-start snapshots gives accounts
    that compare equal to the live ones after folding. *)
Lemma compare_ok h id base0 cur L : acct_ok blake3 sha256 h eq id base0 cur L →
  ∃ x, run blake3 sha256 id (snap <$> base0) (phase0 h id L ++ phase1 h id L) = Some x ∧
    match cur with
    | None => x = None ∧ base0 = None
    | Some a => compare_system x (Some (snap (folded (phase0 h id L ++ phase1 h id L) a))) = Ok []
    end.
Proof.
  destruct cur as [a|]; last first.
  { intros (-> & H0 & H1). rewrite H0, H1. by exists None. }
  intros (_ & _ & _ & s0 & x & H0 & H1 & Hv & HR & Hd). eexists. split.
  - rewrite run_app, H0. cbn [mbind option_bind]. rewrite run_values, H1 by apply phase1_values. reflexivity.
  - unfold compare_system. rewrite Hd. set (d := foldl _ _ (phase1 h id L)).
    destruct (Hv d) as [V1 V2 V3 V4].
    assert (vsim (folded (phase0 h id L ++ phase1 h id L) a) (with_values x d s0)) as Hsim by (by split).
    rewrite (vsim_normalized _ _ Hsim). unfold folded. rewrite foldl_app. fold d.
    cbn [asn_balance asn_total_deposited asn_events_digest asn_last_trading_nonce with_values snap canonicalize_snapshot snapshot_account
         set_events_digest acc_balance acc_total_deposited acc_events_digest acc_last_trading_nonce].
    cbn in V1, V2. rewrite <- V1, <- V2, HR. by rewrite !bool_decide_eq_false_2 by (intros Hne; by apply Hne).
Qed.
(** ** The witness snapshots *)

Section witness.
Context (s : Sequencer) (Hinv : sys_inv blake3 sha256 s) (h : Z) (Hh : h = next_height s).
Let evs := sort_system_events (sq_pending_system_events s).
Let st := foldl (fold_system_event blake3 h) (sq_accounts s) evs.
Context (iter : gmap Z Account → list (Z * Account)) (Hiter : ∀ m, iter m ≡ₚ map_to_list m).
Let entries := iter (as_accounts st).

Lemma sorted_effects id : evs ≫= effects h id = phase0 h id (sq_pending_system_events s) ++ phase1 h id (sq_pending_system_events s).
Proof. unfold evs, sort_system_events. by rewrite bind_app. Qed.

Lemma sorted_wf : Forall event_wf evs.
Proof. unfold evs, sort_system_events. pose proof (si_events _ _ _ _ Hinv). apply Forall_app. split; by apply Forall_filter_keep. Qed.

Lemma after_get id : as_get st id = folded (evs ≫= effects h id) <$> get_account s id.
Proof. apply fold_events_get, sorted_wf. Qed.

Lemma untouched_folds id a : sq_baselines s !! id = None → folded (evs ≫= effects h id) a = a.
Proof.
  intros Hn. pose proof (si_touched _ _ _ _ Hinv id Hn) as Ht. rewrite <- Hh in Ht. rewrite sorted_effects. unfold phase0, phase1.
  rewrite !bind_filter_nil by done. by destruct a.
Qed.

(** The entries of the store, by id. *)
Lemma entries_elem id a : (id, a) ∈ entries ↔ as_get st id = Some a.
Proof. unfold entries. rewrite Hiter. apply elem_of_map_to_list. Qed.

Lemma entry_id id a : as_get st id = Some a → acc_id a = id.
Proof.
  rewrite after_get. intros (a0 & Ha & ->)%fmap_Some. pose proof (si_accounts _ _ _ _ Hinv id) as Hok. rewrite Ha in Hok.
  by destruct Hok as [Hid _].
Qed.

Lemma start_entry id a : as_get st id = Some a →
  block_start_account (sq_baselines s) (id, a) = snapshot_account <$> base s id.
Proof.
  intros Ha. pose proof Ha as Ha'. rewrite after_get in Ha'. apply fmap_Some in Ha' as (a0 & Ha0 & ->).
  unfold block_start_account, base. cbn. destruct (sq_baselines s !! id) as [[b|]|] eqn:Hb; [done|done|].
  rewrite Ha0. cbn. by rewrite untouched_folds.
Qed.

Lemma pre_elem x : x ∈ from_snapshot_iter (omap (block_start_account (sq_baselines s)) entries) ↔
  ∃ id b, is_Some (get_account s id) ∧ base s id = Some b ∧ x = snap b.
Proof.
  unfold from_snapshot_iter. rewrite stable_sort_Permutation, list_elem_of_fmap. split.
  - intros (y & -> & ([id a] & Hin & Hy)%list_elem_of_omap). apply entries_elem in Hin. rewrite start_entry in Hy by done.
    apply fmap_Some in Hy as (b & Hb & ->). exists id, b. split_and!; [|done|done].
    rewrite after_get in Hin. apply fmap_Some in Hin as (a0 & -> & _). eauto.
  - intros (id & b & [a Ha] & Hb & ->). exists (snapshot_account b). split; [done|]. apply list_elem_of_omap.
    exists (id, folded (evs ≫= effects h id) a). assert (as_get st id = Some (folded (evs ≫= effects h id) a)) as Hst by (by rewrite after_get, Ha).
    split; [by apply entries_elem|]. rewrite start_entry by done. by rewrite Hb.
Qed.

Lemma start_ids_sublist (f : Z * Account → option AccountSnapshot) l :
  (∀ e x, e ∈ l → f e = Some x → asn_id x = e.1) → sublist (asn_id <$> omap f l) l.*1.
Proof.
  induction l as [|e l IH]; intros Hf; [constructor|]. cbn. destruct (f e) as [x|] eqn:Hx; cbn.
  - rewrite (Hf e x ltac:(left) Hx). apply sublist_skip, IH. intros. apply Hf; [by right|done].
  - apply sublist_cons, IH. intros. apply Hf; [by right|done].
Qed.

Lemma base_id id b : is_Some (get_account s id) → base s id = Some b → acc_id b = id.
Proof.
  intros [a Ha] Hb. pose proof (si_accounts _ _ _ _ Hinv id) as Hok. rewrite Ha in Hok. destruct Hok as (_ & H & _). auto.
Qed.

Lemma pre_ids : NoDup (asn_id <$> from_snapshot_iter (omap (block_start_account (sq_baselines s)) entries)).
Proof.
  unfold from_snapshot_iter. rewrite stable_sort_Permutation, <- list_fmap_compose.
  eapply sublist_NoDup; [|apply (start_ids_sublist (block_start_account (sq_baselines s)) entries)].
  - unfold entries. rewrite Hiter. apply NoDup_fst_map_to_list.
  - intros [id a] x Hin Hx. apply entries_elem in Hin. rewrite start_entry in Hx by done.
    apply fmap_Some in Hx as (b & Hb & ->). cbn. apply (base_id id b); [|done].
    rewrite after_get in Hin. apply fmap_Some in Hin as (a0 & -> & _). eauto.
Qed.

Lemma pre_lookup id :
  keyed asn_id (from_snapshot_iter (omap (block_start_account (sq_baselines s)) entries)) !! id = snap <$> base s id.
Proof.
  apply option_eq. intros x. rewrite keyed_lookup by apply pre_ids. rewrite pre_elem, fmap_Some. split.
  - intros ((i & b & Ha & Hb & ->) & <-). exists b. split; [|done]. cbn. by rewrite (base_id i b Ha Hb).
  - intros (b & Hb & ->).
    assert (is_Some (get_account s id)) as Hs.
    { pose proof (si_accounts _ _ _ _ Hinv id) as Hok. destruct (get_account s id); [eauto|]. destruct Hok as [Hn _]. congruence. }
    split; [by exists id, b|]. cbn. by apply (base_id id b).
Qed.

Lemma post_lookup id : keyed asn_id (CanonicalState_from_accounts entries) !! id =
  snap <$> (folded (evs ≫= effects h id) <$> get_account s id).
Proof.
  unfold entries. rewrite (canonical_lookup iter Hiter); [|by intros i a Ha; apply entry_id].
  change (as_accounts st !! id) with (as_get st id). by rewrite after_get.
Qed.

Lemma system_phase_compares (w : BlockWitness) :
  hd_height (bw_header w) = h → bw_system_events w = convert_system_event <$> evs →
  (bw_pre_state w, bw_post_system_state w) = build_witness_phase_snapshots entries (sq_baselines s) →
  verify_system_transition blake3 sha256 w = Ok (from_violations []).
Proof.
  intros Hhw Hev [= Hpre Hpost]. unfold verify_system_transition. rewrite Hhw, Hev, Hpre, Hpost.
  destruct (replay_run blake3 sha256 h evs (keyed asn_id (from_snapshot_iter (omap (block_start_account (sq_baselines s)) entries)))
    (λ id, default None (run blake3 sha256 id (snap <$> base s id) (evs ≫= effects h id)))) as (M & HM & Hlk).
  { apply sorted_wf. }
  { intros id. rewrite pre_lookup. destruct (compare_ok h id _ _ _ ltac:(rewrite Hh; apply (si_accounts _ _ _ _ Hinv id))) as (x & Hx & _).
    by rewrite sorted_effects, Hx. }
  rewrite HM. cbn [mbind outcome_bind].
  assert (∀ id, M !! id = None ∧ get_account s id = None ∨
    compare_system (M !! id) (keyed asn_id (CanonicalState_from_accounts entries) !! id) = Ok []) as Hcmp.
  { intros id. rewrite post_lookup, Hlk, sorted_effects.
    destruct (compare_ok h id _ _ _ ltac:(rewrite Hh; apply (si_accounts _ _ _ _ Hinv id))) as (x & -> & Hc).
    destruct (get_account s id) as [a|]; [by right|]. left. by destruct Hc. }
  assert (∀ ids, (∀ id, id ∈ ids → is_Some (M !! id) ∨ is_Some (get_account s id)) →
    ofold (λ acc id, r ← compare_system (M !! id) (keyed asn_id (CanonicalState_from_accounts entries) !! id); Ok (acc ++ r)) [] ids =
      @Ok Empty_set _ []) as Hall.
  { induction ids as [|id ids IH]; intros Hids; [done|]. cbn [ofold].
    destruct (Hcmp id) as [[H1 H2]|Hc]; [destruct (Hids id ltac:(left)) as [[? ?]|[? ?]]; congruence|].
    rewrite Hc. cbn. apply IH. set_solver. }
  rewrite Hall; [done|]. intros id. unfold all_ids. rewrite stable_sort_Permutation, elem_of_elements, elem_of_union, !elem_of_dom.
  rewrite post_lookup, !fmap_is_Some. done.
Qed.
End witness.
End ops.

(** ** Properties *)

(** C17: the verifier accepts every system phase the sequencer produces: from a
    committed block, after any sequence of client actions, market-maker
    actions, first keys of new accounts, key registrations and revocations on
    existing accounts, account creations, funding, cancellations, market
    resolutions, deposits, withdrawal requests, L1 events and L1 heights, the
    system phase succeeds and [verify_system_transition] finds no violation in
    the snapshots and events the block witness carries. *)
Theorem system_phase_verifies (blake3 sha256 keccak256 : Bytes → Bytes) (iter : gmap Z Account → list (Z * Account))
    (s0 s : Sequencer) :
  (∀ m, iter m ≡ₚ map_to_list m) → block_start s0 → rtc (sys_step blake3 sha256 keccak256) s0 s →
  0 ≤ sq_height s < int_max U64 →
  ∃ s' events baselines bridge_data, system_phase blake3 s = SOk s' (events, baselines, bridge_data) ∧
    ∀ w : BlockWitness, hd_height (bw_header w) = sq_height s' →
      bw_system_events w = convert_system_event <$> events →
      (bw_pre_state w, bw_post_system_state w) =
        build_witness_phase_snapshots (iter (as_accounts (sq_accounts s'))) baselines →
      verify_system_transition blake3 sha256 w = Ok (from_violations []).
Proof.
  intros Hiter Hstart Hsteps Hheight. pose proof (steps_inv _ _ _ _ _ Hstart Hsteps) as Hinv.
  assert (sq_height s + 1 = next_height s) as Hn by (unfold next_height; rewrite sat_in; [done|int_lia]).
  unfold system_phase. rewrite sget_bind, arith_in by int_lia. eexists _, _, _, _. split; [reflexivity|].
  intros w Hw1 Hw2 Hw3. by eapply (system_phase_compares blake3 sha256 s Hinv _ Hn iter Hiter w).
Qed.

Lemma ex_seq_start : block_start ex_seq.
Proof.
  split; [done|done|]. intros id a. unfold get_account, as_get. cbn [ex_seq sq_accounts ex_store as_accounts as_next_id].
  rewrite lookup_insert. case_decide as Hid; [intros [= <-]; subst; vm_compute; naive_solver|].
  intros [<- <-]%lookup_singleton_Some. split_and!; [done|done|right; lia].
Qed.

Definition ex_action : Action.ClientActionWitness := Action.Cancel 4 9 1 (RawP256 [] []).
Definition ex_s2' : Sequencer := after (apply_client_action_authorized ex_action) ex_s2.

Lemma ex_s2'_ok : ∃ r, apply_client_action_authorized ex_action ex_s2 = SOk ex_s2' r.
Proof. eexists. vm_compute. reflexivity. Qed.

Lemma ex_run : rtc (sys_step ex_hash ex_hash ex_hash) ex_seq ex_s2'.
Proof.
  destruct ex_s1_ok as [r1 H1], ex_s2_ok as [r2 H2], ex_s2'_ok as [r3 H3].
  eapply rtc_l; [exact (sys_deposit _ _ _ _ _ _ _ H1)|]. eapply rtc_l; [exact (sys_request _ _ _ _ _ _ _ H2)|].
  eapply rtc_l; [exact (sys_action _ _ _ _ _ _ _ H3)|]. apply rtc_refl.
Qed.

Lemma system_phase_verifies_witness : ∃ s' events baselines bridge_data,
  system_phase ex_hash ex_s2' = SOk s' (events, baselines, bridge_data) ∧ length events = 3%nat ∧
    ∀ w : BlockWitness, hd_height (bw_header w) = sq_height s' → bw_system_events w = convert_system_event <$> events →
      (bw_pre_state w, bw_post_system_state w) = build_witness_phase_snapshots (map_to_list (as_accounts (sq_accounts s'))) baselines →
      verify_system_transition ex_hash ex_hash w = Ok (from_violations []).
Proof.
  destruct (system_phase_verifies ex_hash ex_hash ex_hash map_to_list ex_seq ex_s2') as (s' & ev & bl & bd & H & Hw);
    [done|exact ex_seq_start|exact ex_run|vm_compute; split; [discriminate|reflexivity]|].
  exists s', ev, bl, bd. split_and!; [exact H| |exact Hw].
  assert (match system_phase ex_hash ex_s2' with SOk _ (e, _, _) => length e = 3%nat | _ => False end) as Hl by (vm_compute; reflexivity).
  by rewrite H in Hl.
Defined.

(** ** Key operations on an account created in the same block *)

Lemma prepared_unclaimed blake3 sha256 b pk meta s s' id :
  bs_quarantine (sq_bridge s) !! account_key blake3 id = None →
  (prepared ← prepare_account_with_initial_key blake3 b pk meta; apply_prepared_account_with_initial_key sha256 prepared) s = SOk s' id →
  ∃ k, apply_account_creation_at sha256 b (Some k) s = SOk s' id.
Proof.
  intros Hq H. apply sbind_SOk_inv in H as (s1 & p & E & H). unfold prepare_account_with_initial_key in E.
  apply sbind_SOk_inv in E as (s2 & [] & E1 & E). apply reads_SOk in E1 as ->; [|apply validate_label_reads]. sinv E.
  unfold apply_prepared_account_with_initial_key in H. cbn [pk_initial_balance pk_pubkey pk_meta pk_quarantine_claim pk_account_id] in H.
  apply sbind_SOk_inv in H as (s3 & id' & E3 & H). apply sbind_SOk_inv in H as (s4 & [] & E4 & H).
  apply slift_SOk in E4 as [-> E4]. apply sbind_SOk_inv in H as (s5 & [] & E5 & H). sinv H.
  assert (id = as_next_id (sq_accounts s)) as Hid.
  { unfold assert_ in E4. destruct (Z.eqb_spec id (as_next_id (sq_accounts s))); done. }
  rewrite <- Hid, Hq in E2. sinv E2. sinv E5. eexists. exact E3.
Qed.

Lemma register_unclaimed blake3 sha256 id pk meta au s s' u :
  bs_quarantine (sq_bridge s) !! account_key blake3 id = None →
  register_pubkey_with_meta_authorized blake3 sha256 id pk meta au s = SOk s' u →
  ∃ a kd r, get_account s id = Some a ∧
    let key := key_record pk (set_rp_account_id id meta) in
    s' = recorded (Sys.KeyRegistered id key au)
      (set_pubkey_registry r (put id (set_events_digest (update_digest blake3 (acc_events_digest a) (encode_key_registered_event key (next_height s)))
        (set_keys_digest kd a)) (captured id s))).
Proof.
  intros Hq H. unfold register_pubkey_with_meta_authorized in H.
  apply sbind_SOk_inv in H as (s1 & [] & E & H). apply reads_SOk in E as ->; [|apply validate_label_reads].
  apply sbind_SOk_inv in H as (s2 & [] & E & H). apply can_register_authorized_SOk in E as [-> [a Ha]].
  apply sbind_SOk_inv in H as (s3 & [] & E & H). apply reads_SOk in E as ->; [|apply validate_claim_reads].
  rewrite (sbind_SOk _ _ _ _ _ (capture_eq id s)) in H. set (key := key_record pk (set_rp_account_id id meta)) in *.
  apply sbind_SOk_inv in H as (s4 & [] & E1 & H). apply sbind_SOk_inv in H as (s5 & [] & E2 & H).
  rewrite (sbind_SOk _ _ _ _ _ (record_eq _ _)) in H. apply sbind_SOk_inv in H as (s6 & r & E3 & H). sinv H.
  unfold apply_pubkey_registration, refresh_account_keys_digest in E1. rewrite smodify_bind in E1. injection E1 as <-.
  set (t := set_pubkey_registry _ (captured id s)) in *.
  assert (get_account t id = Some a) as Ha1 by (unfold t, get_account; cbn; by rewrite captured_accounts). rewrite Ha1 in E2.
  unfold fold_digest in E2. rewrite sget_bind, get_account_put, decide_True in E2 by done. injection E2 as <-.
  unfold claim_quarantine_for_account in E3. rewrite sget_bind in E3. cbn in E3. rewrite captured_bridge, Hq in E3. sinv E3.
  eexists a, _, _. split; [done|]. unfold t, put, recorded. cbn. rewrite captured_height, as_insert_twice. reflexivity.
Qed.

Lemma compare_fold_bad (M claimed : gmap Z AccountSnapshot) ids id acc :
  (∀ i, i ∈ ids → is_Some (M !! i) ∨ is_Some (claimed !! i)) →
  acc ≠ [] ∨ id ∈ ids ∧ compare_system (M !! id) (claimed !! id) = Ok [VK.SystemStateMismatch] →
  ∃ out, ofold (λ acc id, r ← compare_system (M !! id) (claimed !! id); Ok (acc ++ r)) acc ids = Ok out ∧ out ≠ [].
Proof.
  revert acc. induction ids as [|i ids IH]; intros acc Hids Hbad; cbn [ofold].
  { exists acc. split; [done|]. destruct Hbad as [|[H _]]; [done|]. by apply not_elem_of_nil in H. }
  destruct (compare_system (M !! i) (claimed !! i)) as [r|[]|] eqn:Hc; cbn [mbind outcome_bind]; last first.
  { exfalso. destruct (Hids i ltac:(left)) as [[x Hx]|[x Hx]]; rewrite Hx in Hc; cbn in Hc; destruct (claimed !! i), (M !! i); done. }
  apply IH; [intros; apply Hids; by right|]. destruct Hbad as [Hacc|[Hin Hm]]; [left; by destruct acc|].
  apply elem_of_cons in Hin as [->|Hin]; [|by right]. left. rewrite Hm in Hc. injection Hc as <-. by destruct acc.
Qed.

Lemma keyed_None {A} (key : A → Z) L i : (∀ x, x ∈ L → key x ≠ i) → keyed key L !! i = None.
Proof.
  unfold keyed. assert (∀ m : gmap Z A, m !! i = None → (∀ x, x ∈ L → key x ≠ i) → foldl (λ m x, <[key x := x]> m) m L !! i = None) as H.
  { induction L as [|x L IH]; intros m Hm HL; cbn; [done|]. apply IH; [|set_solver].
    rewrite lookup_insert_ne; [done|]. apply HL. left. }
  intros HL. by apply H.
Qed.

Lemma swapped_digests blake3 c k :
  (∀ x, length (blake3 x) = 32%nat) → length c ≠ length k →
  update_digest blake3 (update_digest blake3 (replicate 32 0) c) k ≠ update_digest blake3 (update_digest blake3 (replicate 32 0) k) c ∨
  collision blake3.
Proof.
  intros Hlen Hne.
  destruct (decide (update_digest blake3 (update_digest blake3 (replicate 32 0) c) k =
    update_digest blake3 (update_digest blake3 (replicate 32 0) k) c)) as [Heq|]; [|by left].
  right. unfold update_digest in Heq. eexists _, _. split; [|exact Heq]. intros H%(f_equal length).
  rewrite !length_app, !Hlen in H. lia.
Qed.

(** The witness of a block on the two events. *)
Lemma same_block_replay blake3 sha256 id b ks key au h (M : gmap Z AccountSnapshot) : M !! id = None →
  ofold (replay_step blake3 sha256 h) (M, []) [Event.CreateAccount id b ks; Event.KeyRegistered id key au] =
  @Ok Empty_set _ (<[id := fold_event blake3 (encode_key_event 10 key h)
    (mkAccountSnapshot id b b [] (update_digest blake3 (replicate 32 0) (encode_create_account_event b h)) (account_keys_digest sha256 id ks) 0)]> M, []).
Proof.
  intros HM. cbn [ofold]. unfold replay_step at 2. cbn [apply_event]. cbv [mbind st_bind sget] in *. rewrite HM. cbn.
  unfold put_account, smodify. cbn. unfold fold_only, account_mut, put_account, smodify, slift. cbv [mbind st_bind sget].
  rewrite lookup_insert_eq. cbn. by rewrite insert_insert_eq.
Qed.

Lemma system_phase_SOk blake3 s s' events baselines bridge_data :
  system_phase blake3 s = SOk s' (events, baselines, bridge_data) →
  sq_height s' = sq_height s + 1 ∧ events = sort_system_events (sq_pending_system_events s) ∧ baselines = sq_baselines s ∧
  sq_height s + 1 ≤ int_max U64 ∧ 0 ≤ sq_height s + 1 ∧ sq_accounts s' = foldl (fold_system_event blake3 (sq_height s + 1)) (sq_accounts s) events.
Proof.
  intros H. unfold system_phase in H. rewrite sget_bind in H. apply sbind_SOk_inv in H as (t & h & E & H).
  apply slift_SOk in E as [-> E]. apply arith_Ok in E as [-> Hh]. rewrite smodify_bind, sget_bind, !smodify_bind, sget_bind in H.
  injection H as <- <- <- <-. split_and!; done || int_lia.
Qed.

(** The state after the two operations. *)
Lemma same_block_state blake3 sha256 s0 s1 s2 b id pk pk' meta meta' au :
  block_start s0 → bs_quarantine (sq_bridge s0) !! account_key blake3 id = None →
  (prepared ← prepare_account_with_initial_key blake3 b pk meta; apply_prepared_account_with_initial_key sha256 prepared) s0 = SOk s1 id →
  register_pubkey_with_meta_authorized blake3 sha256 id pk' meta' au s1 = SOk s2 () →
  let key := key_record pk' (set_rp_account_id id meta') in
  ∃ ks a, sq_pending_system_events s2 = [Sys.CreateAccount id b ks; Sys.KeyRegistered id key au] ∧
    sq_baselines s2 = {[id := None]} ∧ sq_height s2 = sq_height s0 ∧
    as_accounts (sq_accounts s2) = <[id := a]> (as_accounts (sq_accounts s0)) ∧ acc_id a = id ∧
    acc_events_digest a = update_digest blake3 (replicate 32 0) (encode_key_registered_event key (next_height s0)).
Proof.
  intros [He0 Hb0 Hs0] Hq H1 H2 key. apply prepared_unclaimed in H1 as [k H1]; [|done].
  apply creation_SOk in H1 as (Hid & Hmax & a & r & -> & [= M1 M2 M3 M4] & _).
  destruct (capture_missing_frame id s0) as (_ & C & D & F).
  apply register_unclaimed in H2 as (a1 & kd & r' & Ha1 & ->); [|cbn; by rewrite F].
  unfold get_account, as_get in Ha1. cbn in Ha1. rewrite lookup_insert_eq in Ha1. injection Ha1 as <-.
  assert (sq_baselines (missing id s0) = {[id := None]}) as Hb.
  { unfold missing. rewrite Hb0, lookup_empty. cbn. apply insert_empty. }
  rewrite captured_id by (cbn; rewrite Hb, lookup_singleton_eq; eauto).
  eexists _, (set_events_digest _ (set_keys_digest kd a)). unfold next_height. split_and!.
  - cbn. by rewrite C, He0.
  - exact Hb.
  - exact D.
  - cbn. apply insert_insert_eq.
  - exact M1.
  - cbn. by rewrite D, M4.
Qed.

Lemma same_block_accounts blake3 s0 s2 s3 id b ks key au h a :
  block_start s0 → as_accounts (sq_accounts s2) = <[id := a]> (as_accounts (sq_accounts s0)) → acc_id a = id →
  sq_accounts s3 = foldl (fold_system_event blake3 h) (sq_accounts s2) [Sys.CreateAccount id b ks; Sys.KeyRegistered id key au] →
  (∀ j aj, as_accounts (sq_accounts s3) !! j = Some aj → acc_id aj = j) ∧
  as_accounts (sq_accounts s3) !! id = Some (set_events_digest (update_digest blake3 (acc_events_digest a) (encode_create_account_event b h)) a) ∧
  ∀ j, j ≠ id → as_accounts (sq_accounts s3) !! j = as_accounts (sq_accounts s0) !! j.
Proof.
  intros [_ _ Hs0] Hacc Hida Hacc3.
  assert (∀ j, as_accounts (sq_accounts s3) !! j =
    folded blake3 ([Sys.CreateAccount id b ks; Sys.KeyRegistered id key au] ≫= effects h j) <$> <[id := a]> (as_accounts (sq_accounts s0)) !! j) as HG.
  { intros j. rewrite Hacc3, <- Hacc. apply (fold_events_get blake3 blake3 h (sq_accounts s2)). by repeat constructor. }
  assert (as_accounts (sq_accounts s3) !! id =
    Some (set_events_digest (update_digest blake3 (acc_events_digest a) (encode_create_account_event b h)) a)) as Hget.
  { rewrite HG, lookup_insert_eq. cbn. unfold on_account. by rewrite !decide_True by done. }
  assert (∀ j, j ≠ id → as_accounts (sq_accounts s3) !! j = as_accounts (sq_accounts s0) !! j) as Hother.
  { intros j Hj. rewrite HG, lookup_insert_ne by done. cbn. unfold on_account. rewrite !decide_False by done.
    by destruct (as_accounts (sq_accounts s0) !! j) as [[]|]. }
  split_and!; [|done|done]. intros j aj. destruct (decide (j = id)) as [->|Hj]; [rewrite Hget; by intros [= <-]|].
  rewrite Hother by done. intros H. by apply Hs0 in H as [? _].
Qed.

(** C38: a block that the sequencer produces and the verifier rejects.  From the start
    of a block, with no quarantined deposit for the account, let the only operations
    be the creation of an account with an initial key and one signed registration
    of a second key for it.  Both are admitted and the system phase runs; at
    admission the key event is folded into the still empty digest and the creation
    event only at block start, while the verifier replays the creation first.  Unless
    the digest hash has a collision, the system layer rejects this block. *)
Theorem same_block_key_operation_rejected (blake3 sha256 : Bytes → Bytes) (iter : gmap Z Account → list (Z * Account))
    (s0 s1 s2 s3 : Sequencer) (b id : Z) (pk pk' : Bytes) (meta meta' : RegisteredPubkey) (au : KeyOpAuth)
    (events : list Sys.SystemEvent) (baselines : gmap Z (option Account)) (bridge_data : BridgeBlockData) (w : BlockWitness) :
  (∀ x, length (blake3 x) = 32%nat) → (∀ m, iter m ≡ₚ map_to_list m) → block_start s0 → length pk' = 33%nat →
  bs_quarantine (sq_bridge s0) !! account_key blake3 id = None →
  (prepared ← prepare_account_with_initial_key blake3 b pk meta; apply_prepared_account_with_initial_key sha256 prepared) s0 = SOk s1 id →
  register_pubkey_with_meta_authorized blake3 sha256 id pk' meta' au s1 = SOk s2 () →
  system_phase blake3 s2 = SOk s3 (events, baselines, bridge_data) →
  hd_height (bw_header w) = sq_height s3 → bw_system_events w = convert_system_event <$> events →
  (bw_pre_state w, bw_post_system_state w) = build_witness_phase_snapshots (iter (as_accounts (sq_accounts s3))) baselines →
  (∃ r, verify_system_transition blake3 sha256 w = Ok r ∧ vr_valid r = false) ∨ collision blake3.
Proof.
  intros Hlen Hiter Hstart Hpk Hq H1 H2 H3 Hw1 Hw2 [= Hpre Hpost].
  destruct (same_block_state _ _ _ _ _ _ _ _ _ _ _ _ Hstart Hq H1 H2) as (ks & a & HL & Hbl & Hhs & Hacc & Hida & Hda).
  set (key := key_record pk' _) in *. apply system_phase_SOk in H3 as (Hh3 & -> & -> & Hmax & Hmin & Hacc3).
  assert (Hh : next_height s0 = sq_height s2 + 1) by (unfold next_height; rewrite <- Hhs; apply sat_in; int_lia).
  rewrite HL in *. change (sort_system_events _) with [Sys.CreateAccount id b ks; Sys.KeyRegistered id key au] in *.
  set (h := sq_height s2 + 1) in *. set (c := encode_create_account_event b h). set (kb := encode_key_event 10 key h).
  destruct (swapped_digests blake3 c kb Hlen) as [Hne|]; [|left|by right].
  { unfold c, kb, encode_create_account_event, encode_key_event. rewrite !length_app, !le_bytes_length. cbn. rewrite Hpk. lia. }
  unfold verify_system_transition. rewrite Hw1, Hw2, Hh3, Hpre, Hpost. cbn [fmap list_fmap convert_system_event].
  destruct (same_block_accounts blake3 s0 s2 s3 id b ks key au h a Hstart Hacc Hida Hacc3) as (Hids & Hget & Hother).
  rewrite same_block_replay.
  2: { apply keyed_None. intros x. unfold from_snapshot_iter. rewrite stable_sort_Permutation, list_elem_of_fmap.
    intros (y & -> & ([j aj] & Hin & Hy)%list_elem_of_omap). rewrite Hiter in Hin. apply elem_of_map_to_list in Hin.
    unfold block_start_account in Hy. rewrite Hbl in Hy. cbn in Hy. destruct (decide (j = id)) as [->|Hj].
    - by rewrite lookup_singleton_eq in Hy.
    - rewrite lookup_singleton_ne in Hy by done. injection Hy as <-. cbn. by rewrite (Hids j aj Hin). }
  cbn [mbind outcome_bind].
  match goal with |- context [ofold _ [] (all_ids ?M ?C)] => set (Mx := M); set (Cx := C) end.
  destruct (compare_fold_bad Mx Cx (all_ids Mx Cx) id []) as (out & Hout & Hbad).
  - intros i. unfold all_ids. rewrite stable_sort_Permutation, elem_of_elements, elem_of_union, !elem_of_dom. done.
  - right. split.
    + unfold all_ids. rewrite stable_sort_Permutation, elem_of_elements, elem_of_union, elem_of_dom. left. unfold Mx. rewrite lookup_insert_eq. eauto.
    + unfold Mx, Cx. rewrite lookup_insert_eq, (canonical_lookup iter Hiter) by exact Hids. rewrite Hget. cbn [fmap option_fmap option_map].
      unfold compare_system. f_equal. rewrite (bool_decide_eq_true_2 (asn_events_digest _ ≠ _)); [by rewrite orb_true_r|].
      cbn. rewrite Hda, Hh. exact Hne.
  - rewrite Hout. eexists. split; [reflexivity|]. cbn. by apply bool_decide_eq_false.
Qed.


(** An account with an initial key, and a second key registered in the same block. *)
Definition ex_key_meta : RegisteredPubkey := RegisteredPubkey_primary 0 SchemeRawP256.
Definition ex_c1 : Sequencer :=
  after (prepared ← prepare_account_with_initial_key ex_hash 900 (replicate 33 2) ex_key_meta;
         apply_prepared_account_with_initial_key ex_hash prepared) ex_seq.
Definition ex_c2 : Sequencer :=
  after (register_pubkey_with_meta_authorized ex_hash ex_hash 5 (replicate 33 3) ex_key_meta (RawP256 [] [])) ex_c1.
Definition ex_phase : option (Sequencer * list Sys.SystemEvent * gmap Z (option Account) * BridgeBlockData) :=
  match system_phase ex_hash ex_c2 with SOk s (ev, bl, bd) => Some (s, ev, bl, bd) | _ => None end.
Definition ex_system_witness : BlockWitness :=
  let '(s, ev, bl, _) := default (ex_c2, [], ∅, mkBridgeBlockData 0 [] [] []) ex_phase in
  let '(pre, post) := build_witness_phase_snapshots (map_to_list (as_accounts (sq_accounts s))) bl in
  mkBlockWitness (ex_header (sq_height s)) None [] [] [] (convert_system_event <$> ev)
    (mkDepositAccumulatorWitness [] 0 []) [] ∅ 0 0 [] [] pre post [] [] (ex_sidecar (sq_order_book s)) (ex_sidecar (sq_order_book s)) [].

Lemma same_block_key_operation_rejected_witness :
  verify_system_transition ex_hash ex_hash ex_system_witness = Ok (from_violations [VK.SystemStateMismatch]) ∧
  ((∃ r, verify_system_transition ex_hash ex_hash ex_system_witness = Ok r ∧ vr_valid r = false) ∨ collision ex_hash).
Proof.
  split; [vm_compute; reflexivity|].
  destruct (system_phase ex_hash ex_c2) as [s3 [[ev bl] bd]| |] eqn:Hphase; [|vm_compute in Hphase; discriminate Hphase..].
  apply (same_block_key_operation_rejected ex_hash ex_hash map_to_list ex_seq ex_c1 ex_c2 s3 900 5 (replicate 33 2) (replicate 33 3)
    ex_key_meta ex_key_meta (RawP256 [] []) ev bl bd).
  - reflexivity.
  - reflexivity.
  - exact ex_seq_start.
  - reflexivity.
  - vm_compute. reflexivity.
  - vm_compute. reflexivity.
  - vm_compute. reflexivity.
  - exact Hphase.
  - unfold ex_system_witness, ex_phase. rewrite Hphase. reflexivity.
  - unfold ex_system_witness, ex_phase. rewrite Hphase. reflexivity.
  - unfold ex_system_witness, ex_phase. rewrite Hphase. reflexivity.
Defined.
