(* ===== verification/BridgeSidecar.v ===== *)
(** * BridgeSidecar: the verifier's view of the bridge ledger

    Models the bridge checks of [crates/sybil-verifier/src/sidecar.rs]
    ([verify_withdrawal_transition], [verify_deposit_accumulator],
    [verify_l1_deposit_events_match_delta]) and the quarantine replay of
    [crates/sybil-verifier/src/quarantine.rs].  The verifier sees the bridge
    leaves before and after a block and the block's system events; it recomputes
    which withdrawals exist, the deposit frontier and the quarantine ledger. *)
From S2P Require Import Prelude Types Order Account Digest Finalize Witness Sidecar L1Protocol DepositFrontier AccountKeys SystemVerifier Bridge.

#[global] Instance WithdrawalSnapshot_eq_dec : EqDecision WithdrawalSnapshot.
Proof. solve_decision. Defined.

(** ** Withdrawals *)

Definition keyed_withdrawals (l : list WithdrawalSnapshot) : gmap Z WithdrawalSnapshot * list Violation :=
  (keyed ws_withdrawal_id l, collect_dups ws_withdrawal_id (λ _, VK.SidecarWithdrawalMismatch) ∅ l).

(** One violation if the condition holds. *)
Definition flag (b : bool) (v : Violation) : list Violation := if b then [v] else [].

(** The three collections built by the first loop over the events. *)
Record WithdrawalEvents := mkWithdrawalEvents {
  we_created : gmap Z Event.SystemEventWitness;
  we_terminal : gmap Z Event.SystemEventWitness;
  we_observed_heights : gset Z;
}.

Definition index_withdrawal_event (acc : WithdrawalEvents * list Violation) (event : Event.SystemEventWitness)
    : WithdrawalEvents * list Violation :=
  let '(we, violations) := acc in
  match event with
  | Event.WithdrawalCreated _ _ withdrawal_id _ _ _ _ _ =>
      (mkWithdrawalEvents (<[withdrawal_id := event]> (we_created we)) (we_terminal we) (we_observed_heights we),
       violations ++ flag (bool_decide (is_Some (we_created we !! withdrawal_id))) VK.SidecarWithdrawalMismatch)
  | Event.WithdrawalRefunded _ withdrawal_id _ _ | Event.WithdrawalFinalized _ withdrawal_id _ =>
      (mkWithdrawalEvents (we_created we) (<[withdrawal_id := event]> (we_terminal we)) (we_observed_heights we),
       violations ++ flag (bool_decide (is_Some (we_terminal we !! withdrawal_id))) VK.SidecarWithdrawalMismatch)
  | Event.L1BlockObserved height =>
      (mkWithdrawalEvents (we_created we) (we_terminal we) ({[height]} ∪ we_observed_heights we),
       violations ++ flag (bool_decide (height ∈ we_observed_heights we)) VK.SidecarWithdrawalMismatch)
  | _ => (we, violations)
  end.

Definition index_withdrawal_events (events : list Event.SystemEventWitness) : WithdrawalEvents * list Violation :=
  foldl index_withdrawal_event (mkWithdrawalEvents ∅ ∅ ∅, []) events.

(** The second loop: the observed height only advances. *)
Definition observe_step (acc : Z * list Violation) (event : Event.SystemEventWitness) : Z * list Violation :=
  let '(expected, violations) := acc in
  match event with
  | Event.L1BlockObserved height =>
      if height <=? expected then (expected, violations ++ [VK.SidecarWithdrawalMismatch]) else (height, violations)
  | _ => acc
  end.

(** A leaf of the pre-state is pruned exactly when it has a terminal event, and
    is otherwise unchanged. *)
Definition check_pre_withdrawal (terminal : gmap Z Event.SystemEventWitness) (post : gmap Z WithdrawalSnapshot)
    (e : Z * WithdrawalSnapshot) : list Violation :=
  let '(withdrawal_id, pre_leaf) := e in
  match terminal !! withdrawal_id, post !! withdrawal_id with
  | Some _, None => []
  | None, Some post_leaf => if decide (post_leaf = pre_leaf) then [] else [VK.SidecarWithdrawalMismatch]
  | _, _ => [VK.SidecarWithdrawalMismatch]
  end.

(** A created withdrawal has a matching leaf, unless it ended in the same block.
    The [created] map holds [WithdrawalCreated] events only: [unreachable!]. *)
Definition check_created {E} (terminal : gmap Z Event.SystemEventWitness) (post : gmap Z WithdrawalSnapshot)
    (e : Z * Event.SystemEventWitness) : outcome E (list Violation) :=
  let '(withdrawal_id, event) := e in
  match event with
  | Event.WithdrawalCreated account_id amount _ recipient token amount_token_units expiry_height nullifier =>
      Ok match chk U64 amount with
         | None => [VK.SidecarWithdrawalMismatch]
         | Some amount_nanos =>
             match terminal !! withdrawal_id with
             | Some _ => flag (bool_decide (is_Some (post !! withdrawal_id))) VK.SidecarWithdrawalMismatch
             | None =>
                 match post !! withdrawal_id with
                 | None => [VK.SidecarWithdrawalMismatch]
                 | Some w =>
                     flag (negb (ws_account_id w =? account_id) || bool_decide (ws_recipient w ≠ recipient) ||
                           bool_decide (ws_token w ≠ token) || negb (ws_amount_token_units w =? amount_token_units) ||
                           negb (ws_amount_nanos w =? amount_nanos) || negb (ws_expiry_height w =? expiry_height) ||
                           bool_decide (ws_nullifier w ≠ nullifier)) VK.SidecarWithdrawalMismatch
                 end
             end
         end
  | _ => Panic
  end.

(** The account, amount and expiry a terminal event must agree with. *)
Definition terminal_source (pre post : gmap Z WithdrawalSnapshot) (created : gmap Z Event.SystemEventWitness)
    (withdrawal_id : Z) : option (Z * Z * Z) :=
  match or_opt (pre !! withdrawal_id) (post !! withdrawal_id) with
  | Some leaf => Some (ws_account_id leaf, ws_amount_nanos leaf, ws_expiry_height leaf)
  | None =>
      match created !! withdrawal_id with
      | Some (Event.WithdrawalCreated account_id amount _ _ _ _ expiry_height _) =>
          Some (account_id, Z.abs amount, expiry_height)
      | _ => None
      end
  end.

Definition check_terminal {E} (pre post : gmap Z WithdrawalSnapshot) (we : WithdrawalEvents)
    (e : Z * Event.SystemEventWitness) : outcome E (list Violation) :=
  let '(withdrawal_id, event) := e in
  match terminal_source pre post (we_created we) withdrawal_id with
  | None => Ok [VK.SidecarWithdrawalMismatch]
  | Some (leaf_account, leaf_amount, leaf_expiry) =>
      '(vs, account_id, amount) ←
        match event with
        | Event.WithdrawalRefunded account_id _ amount reason =>
            Ok (match reason with
                | L1Expired observed_l1_height =>
                    flag ((observed_l1_height <=? leaf_expiry) ||
                          bool_decide (observed_l1_height ∉ we_observed_heights we)) VK.SidecarWithdrawalMismatch
                | L1Cancelled => []
                end, account_id, amount)
        | Event.WithdrawalFinalized account_id _ amount => Ok ([], account_id, amount)
        | _ => Panic
        end;
      Ok (vs ++ flag (negb (account_id =? leaf_account) || bool_decide (chk U64 amount ≠ Some leaf_amount))
                  VK.SidecarWithdrawalMismatch)
  end.

Definition verify_withdrawal_transition {E} (w : BlockWitness) : outcome E (list Violation) :=
  let pre_bridge := ss_bridge (bw_pre_state_sidecar w) in
  let post_bridge := ss_bridge (bw_state_sidecar w) in
  let '(pre, v1) := keyed_withdrawals (br_withdrawals pre_bridge) in
  let '(post, v2) := keyed_withdrawals (br_withdrawals post_bridge) in
  let v3 := match last (btree_iter post) with
            | Some (max_withdrawal_id, _) =>
                flag (br_next_withdrawal_id post_bridge <=? max_withdrawal_id) VK.SidecarWithdrawalMismatch
            | None => []
            end in
  let '(we, v4) := index_withdrawal_events (bw_system_events w) in
  let '(expected_observed_height, v5) := foldl observe_step (br_observed_l1_height pre_bridge, []) (bw_system_events w) in
  let v6 := flag (negb (br_observed_l1_height post_bridge =? expected_observed_height)) VK.SidecarWithdrawalMismatch in
  let v7 := btree_iter pre ≫= check_pre_withdrawal (we_terminal we) post in
  v8 ← omapM (check_created (we_terminal we) post) (btree_iter (we_created we));
  v9 ← omapM (check_terminal pre post we) (btree_iter (we_terminal we));
  let expected_next := sat U64 (br_next_withdrawal_id pre_bridge + Z.of_nat (size (we_created we))) in
  let v10 := flag (negb (br_next_withdrawal_id post_bridge =? expected_next)) VK.SidecarWithdrawalMismatch in
  Ok (v1 ++ v2 ++ v3 ++ v4 ++ v5 ++ v6 ++ v7 ++ concat v8 ++ concat v9 ++ v10).

(** ** Deposits *)

Definition deposit_leaf_from_witness (d : L1DepositWitness) : DepositLeaf :=
  mkDepositLeaf (dw_chain_id d) (dw_vault_address d) (dw_deposit_id d) (dw_token_address d) (dw_sender d)
    (dw_sybil_account_key d) (dw_amount_token_units d).

Definition deposit_amount_nanos (d : L1DepositWitness) : option Z :=
  amount ← chk U64 (dw_amount_token_units d * 1000); chk I64 amount.

Definition bridge_account_key (blake3 : Bytes → Bytes) (account_id : Z) : Bytes :=
  blake3 (ascii_bytes "sybil/bridge/account-key/v1" ++ le_bytes 8 account_id).

(** [for (i, x) in l.iter().enumerate()] *)
Definition enumerate {A} (l : list A) : list (nat * A) := zip (seq 0 (length l)) l.

(** An event that says what became of a deposit: the credited account, if any,
    the amount, the deposit id, its root and the account key. *)
Definition disposition (event : Event.SystemEventWitness) : option (option Z * Z * Z * Bytes * Bytes) :=
  match event with
  | Event.L1Deposit account_id amount deposit_id deposit_root sybil_account_key =>
      Some (Some account_id, amount, deposit_id, deposit_root, sybil_account_key)
  | Event.DepositQuarantined amount deposit_id deposit_root sybil_account_key =>
      Some (None, amount, deposit_id, deposit_root, sybil_account_key)
  | _ => None
  end.

Section hashes.
Context (blake3 keccak256 : Bytes → Bytes).

(** The body of the loop over the disposition events. *)
Definition check_disposition (prefix_roots : list Bytes) (new_deposits : list L1DepositWitness)
    (e : nat * (option Z * Z * Z * Bytes * Bytes)) : list Violation :=
  let '(index, (account_id, amount, deposit_id, deposit_root, sybil_account_key)) := e in
  match new_deposits !! index with
  | None => []
  | Some d =>
      flag (negb (dw_deposit_id d =? deposit_id)) VK.SidecarDepositCursorMismatch ++
      flag (bool_decide (deposit_root ≠ default (dw_deposit_root d) (prefix_roots !! index))) VK.SidecarDepositRootMismatch ++
      flag (bool_decide (dw_sybil_account_key d ≠ sybil_account_key)) VK.SidecarDepositRootMismatch ++
      match account_id with
      | Some account_id =>
          flag (bool_decide (sybil_account_key ≠ bridge_account_key blake3 account_id)) VK.SidecarDepositRootMismatch
      | None => []
      end ++
      match deposit_amount_nanos d with
      | None => [VK.SettlementOverflow]
      | Some expected_amount => flag (negb (amount =? expected_amount)) VK.SidecarDepositRootMismatch
      end
  end.

Definition verify_l1_deposit_events_match_delta (w : BlockWitness) (prefix_roots : list Bytes) : list Violation :=
  let disposition_events := omap disposition (bw_system_events w) in
  let new_deposits := da_new_deposits (bw_deposit_accumulator w) in
  flag (negb (bool_decide (length disposition_events = length new_deposits))) VK.SidecarDepositCursorMismatch ++
  (enumerate disposition_events ≫= check_disposition prefix_roots new_deposits).

(** [pre_count + index + 1] cannot overflow: the checked sum bounds it. *)
Definition verify_deposit_accumulator (w : BlockWitness) : list Violation :=
  let acc := bw_deposit_accumulator w in
  let pre_bridge := ss_bridge (bw_pre_state_sidecar w) in
  let post_bridge := ss_bridge (bw_state_sidecar w) in
  let v1 := flag (negb (da_pre_count acc =? br_deposit_cursor pre_bridge)) VK.SidecarDepositCursorMismatch in
  let v2 := match deposit_root_from_frontier keccak256 (da_pre_frontier acc) (da_pre_count acc) with
            | Some root => flag (bool_decide (root ≠ br_deposit_root pre_bridge)) VK.SidecarDepositRootMismatch
            | None => [VK.SidecarDepositCursorMismatch]
            end in
  match chk U64 (da_pre_count acc + Z.of_nat (length (da_new_deposits acc))) with
  | None => v1 ++ v2 ++ [VK.SidecarDepositCursorMismatch]
  | Some expected_post_count =>
      let v3 := flag (negb (br_deposit_cursor post_bridge =? expected_post_count)) VK.SidecarDepositCursorMismatch in
      let v4 := enumerate (da_new_deposits acc) ≫= λ '(index, d),
                  flag (negb (dw_deposit_id d =? da_pre_count acc + Z.of_nat index + 1)) VK.SidecarDepositCursorMismatch in
      let leaves := deposit_leaf_from_witness <$> da_new_deposits acc in
      match deposit_frontier_prefix_roots keccak256 (da_pre_frontier acc) (da_pre_count acc) leaves with
      | None => v1 ++ v2 ++ v3 ++ v4 ++ [VK.SidecarDepositCursorMismatch]
      | Some prefix_roots =>
          let v5 := zip (da_new_deposits acc) prefix_roots ≫= λ '(d, expected_root),
                      flag (bool_decide (dw_deposit_root d ≠ expected_root)) VK.SidecarDepositRootMismatch in
          let expected_root := default (br_deposit_root pre_bridge) (last prefix_roots) in
          let v6 := flag (bool_decide (br_deposit_root post_bridge ≠ expected_root)) VK.SidecarDepositRootMismatch in
          v1 ++ v2 ++ v3 ++ v4 ++ v5 ++ v6 ++ verify_l1_deposit_events_match_delta w prefix_roots
      end
  end.

(** ** Quarantine *)

(** An error is a [String] whose text is not modelled. *)
Definition ledger_step (ledger : gmap Bytes Z) (entry : QuarantineEntrySnapshot) : outcome unit (gmap Bytes Z) :=
  if qe_amount entry <=? 0 then Err () else
  match ledger !! qe_sybil_account_key entry with
  | Some _ => Err ()
  | None => Ok (<[qe_sybil_account_key entry := qe_amount entry]> ledger)
  end.

Definition ledger_map (entries : list QuarantineEntrySnapshot) : outcome unit (gmap Bytes Z) := ofold ledger_step ∅ entries.

(** [entry(key).or_default()] leaves a zero entry behind when the sum overflows. *)
Definition quarantine (key : Bytes) (amount : Z) : st (gmap Bytes Z) unit unit :=
  if amount <=? 0 then sfail () else
  smodify (λ ledger, <[key := get0 ledger key]> ledger);;
  ledger ← sget;
  total ← slift (ok_or (chk I64 (get0 ledger key + amount)) ());
  smodify (<[key := total]>).

Definition claim (account_id : Z) (key : Bytes) (amount : Z) : st (gmap Bytes Z) unit unit :=
  if decide (bridge_account_key blake3 account_id = key) then
    ledger ← sget;
    match ledger !! key with
    | None => sfail ()
    | Some parked =>
        smodify (delete key);;
        if decide (parked = amount) then mret () else sfail ()
    end
  else sfail ().

Definition quarantine_event (event : Event.SystemEventWitness) : st (gmap Bytes Z) unit unit :=
  match event with
  | Event.DepositQuarantined amount _ _ sybil_account_key => quarantine sybil_account_key amount
  | Event.QuarantineClaimed account_id amount sybil_account_key => claim account_id sybil_account_key amount
  | _ => mret ()
  end.

(** The replay loop: an error is recorded and the replay goes on. *)
Definition quarantine_step (acc : gmap Bytes Z * list Violation) (event : Event.SystemEventWitness)
    : outcome Empty_set (gmap Bytes Z * list Violation) :=
  let '(ledger, violations) := acc in
  match quarantine_event event ledger with
  | SOk ledger' _ => Ok (ledger', violations)
  | SErr ledger' _ => Ok (ledger', violations ++ [VK.SidecarDepositCursorMismatch])
  | SPanic => Panic
  end.

Definition verify_quarantine_transition (w : BlockWitness) : outcome Empty_set VerificationResult :=
  '(ledger, v1) ← match ledger_map (br_quarantine (ss_bridge (bw_pre_state_sidecar w))) with
                  | Ok ledger => Ok (ledger, [])
                  | Err _ => Ok (∅, [VK.SidecarDepositCursorMismatch])
                  | Panic => Panic
                  end;
  let v2 := flag (bool_decide (bw_previous_header w = None) && negb (bool_decide (ledger = ∅))) VK.SidecarDepositCursorMismatch in
  '(ledger, v3) ← ofold quarantine_step (ledger, v1 ++ v2) (bw_system_events w);
  match ledger_map (br_quarantine (ss_bridge (bw_state_sidecar w))) with
  | Ok claimed => Ok (from_violations (v3 ++ flag (bool_decide (claimed ≠ ledger)) VK.SidecarDepositCursorMismatch))
  | Err _ => Ok (from_violations (v3 ++ [VK.SidecarDepositCursorMismatch]))
  | Panic => Panic
  end.

End hashes.

(** ** The ledger commitment *)

(** [entries.sort_by_key(|e| e.sybil_account_key)]: lexicographic on the key bytes. *)
Definition entry_le (a b : QuarantineEntrySnapshot) : Prop :=
  bytes_le (qe_sybil_account_key a) (qe_sybil_account_key b).
#[global] Instance entry_le_dec : RelDecision entry_le.
Proof. intros a b. unfold entry_le. apply _. Defined.

Definition quarantine_ledger_preimage (entries : list QuarantineEntrySnapshot) : Bytes :=
  let entries := stable_sort entry_le entries in
  ascii_bytes "sybil/state/deposit-quarantine-digest/v1" ++ le_bytes 8 (Z.of_nat (length entries)) ++
  (entries ≫= λ e, qe_sybil_account_key e ++ le_bytes 8 (qe_amount e)).

Definition quarantine_ledger_digest (sha256 : Bytes → Bytes) (entries : list QuarantineEntrySnapshot) : Bytes :=
  sha256 (quarantine_ledger_preimage entries).
