(* ===== verification/BridgeRuns.v ===== *)
(** * BridgeRuns: the bridge ledger between two blocks

    The operations of the sequencer keep the bridge ledger explainable by the
    queued events: replaying the events from the ledger of the last block, the
    way the verifier does, gives the live withdrawals, deposit frontier and
    quarantine.  [BridgeVerified] turns this into the acceptance of every block. *)
From S2P Require Import Prelude Types Order Account Digest Validation OrderBook BatchSettlement Finalize Witness Sidecar L1Protocol DepositFrontier AccountKeys SystemVerifier Bridge Sequencer BridgeOps SystemPhase SystemInvariant BridgeSidecar.

(** ** Operations that preserve a predicate *)

Definition preserves {A} (I : Sequencer → Prop) (m : op A) : Prop := ∀ s s' a, I s → m s = SOk s' a → I s'.

Lemma preserves_bind {A B} I (m : op A) (f : A → op B) : preserves I m → (∀ a, preserves I (f a)) → preserves I (m ≫= f).
Proof. intros Hm Hf s s' b Hs H. apply sbind_SOk_inv in H as (s1 & a & E & H). eapply Hf, H. eapply Hm, E. done. Qed.
Lemma preserves_reads {A} I (m : op A) : reads m → preserves I m.
Proof. intros Hm s s' a Hs H. by rewrite (reads_SOk m s s' a Hm H). Qed.
Lemma preserves_mret {A} I (a : A) : preserves I (mret a).
Proof. apply preserves_reads, reads_mret. Qed.
Lemma preserves_smodify I (f : Sequencer → Sequencer) : (∀ s, I s → I (f s)) → preserves I (smodify f).
Proof. intros Hf s s' [] Hs [= <-]. by apply Hf. Qed.
Lemma preserves_sforeach {A} I (f : A → op unit) l : (∀ x, preserves I (f x)) → preserves I (sforeach f l).
Proof. intros Hf. induction l as [|x l IH]; cbn [sforeach]; [apply preserves_mret|]. apply preserves_bind; [done|]. by intros []. Qed.
Lemma preserves_sfold {A B} I (f : B → A → op B) b l : (∀ b x, preserves I (f b x)) → preserves I (sfold f b l).
Proof. intros Hf. revert b. induction l as [|x l IH]; intros b; cbn [sfold]; [apply preserves_mret|]. by apply preserves_bind. Qed.

(** ** Events the bridge leaves behind *)

Definition bridge_event (e : Sys.SystemEvent) : bool :=
  match e with
  | Sys.L1Deposit _ _ _ | Sys.WithdrawalCreated _ _ _ | Sys.WithdrawalRefunded _ _ _ _ | Sys.WithdrawalFinalized _ _ _
  | Sys.L1BlockObserved _ | Sys.DepositQuarantined _ _ | Sys.QuarantineClaimed _ _ _ => true
  | _ => false
  end.

Definition bridge_events (l : list Sys.SystemEvent) : list Sys.SystemEvent := filter (λ e, bridge_event e = true) l.
Definition queued (s : Sequencer) : list Sys.SystemEvent := bridge_events (sq_pending_system_events s).

Lemma bridge_events_app l k : bridge_events (l ++ k) = bridge_events l ++ bridge_events k.
Proof. apply filter_app. Qed.

Lemma filter_filter_keep {A} (P Q : A → Prop) `{!∀ x, Decision (P x), !∀ x, Decision (Q x)} (l : list A) :
  (∀ x, P x → Q x) → filter P (filter Q l) = filter P l.
Proof.
  intros HPQ. induction l as [|x l IH]; [done|]. rewrite (filter_cons Q). case_decide as HQ; rewrite !filter_cons; rewrite IH; [done|].
  by rewrite (decide_False (P := P x)) by naive_solver.
Qed.

Lemma filter_filter_drop {A} (P Q : A → Prop) `{!∀ x, Decision (P x), !∀ x, Decision (Q x)} (l : list A) :
  (∀ x, P x → ¬ Q x) → filter P (filter Q l) = [].
Proof.
  intros HPQ. induction l as [|x l IH]; [done|]. rewrite (filter_cons Q). case_decide as HQ; [|done]. rewrite filter_cons, IH.
  by rewrite (decide_False (P := P x)) by naive_solver.
Qed.

(** Sorting keeps the bridge events and their order. *)
Lemma bridge_events_sorted l : bridge_events (sort_system_events l) = bridge_events l.
Proof.
  unfold sort_system_events. rewrite bridge_events_app. unfold bridge_events.
  rewrite filter_filter_drop, filter_filter_keep; [done|by intros [] ?|by intros [] ?].
Qed.

(** The bridge and its events are left alone. *)
Definition bridge_frame (s s' : Sequencer) : Prop := sq_bridge s' = sq_bridge s ∧ queued s' = queued s.
Definition framed (I : Sequencer → Prop) : Prop := ∀ s s', bridge_frame s s' → I s → I s'.

Section frames.
Context (blake3 sha256 : Bytes → Bytes) (I : Sequencer → Prop) (HI : framed I).

Lemma frame_captured id s : I s → I (captured id s).
Proof. apply HI. unfold bridge_frame, queued. by rewrite captured_bridge, captured_events. Qed.

Lemma preserves_capture id : preserves I (capture_system_account_baseline id).
Proof. apply preserves_smodify. apply frame_captured. Qed.

Lemma preserves_record e : bridge_event e = false → preserves I (record_system_event e).
Proof.
  intros He. apply preserves_smodify. intros s. apply HI. split; [done|]. unfold queued. cbn [set_events sq_pending_system_events].
  rewrite bridge_events_app. unfold bridge_events at 2. rewrite filter_cons, decide_False by congruence. apply app_nil_r.
Qed.

Lemma preserves_accounts f : preserves I (smodify (λ s, set_accounts (f s) s)).
Proof. apply preserves_smodify. intros s. by apply HI. Qed.

Lemma preserves_put id a : preserves I (smodify (put id a)).
Proof. apply preserves_accounts. Qed.

Lemma preserves_account_or e id : preserves I (account_or e id).
Proof. apply preserves_reads, reads_account_or. Qed.
Lemma preserves_try_opt {A} (o : option A) e : preserves I (try_opt o e).
Proof. apply preserves_reads, reads_try_opt. Qed.
Lemma preserves_guard b e : preserves I (guard_err b e).
Proof. apply preserves_reads, reads_guard_err. Qed.
Lemma preserves_slift {A} (m : outcome SequencerError A) : preserves I (slift m).
Proof. apply preserves_reads, reads_slift. Qed.
Lemma preserves_sget : preserves I sget.
Proof. apply preserves_reads, reads_sget. Qed.

(** Walk down the binds of an operation; what is left touches the state. *)
Ltac frame_walk := repeat match goal with
  | |- preserves _ (_ ≫= _) => apply preserves_bind; [|intros ?]
  | |- preserves _ (mret _) => apply preserves_mret
  | |- preserves _ sget => apply preserves_sget
  | |- preserves _ (slift _) => apply preserves_slift
  | |- preserves _ (guard_err _ _) => apply preserves_guard
  | |- preserves _ (try_opt _ _) => apply preserves_try_opt
  | |- preserves _ (account_or _ _) => apply preserves_account_or
  | |- preserves _ (smodify (put _ _)) => apply preserves_put
  | |- preserves _ (capture_system_account_baseline _) => apply preserves_capture
  | |- preserves _ (record_system_event _) => apply preserves_record; reflexivity
  | |- preserves _ (let '(_, _) := ?x in _) => destruct x
  | |- preserves _ (match ?x with _ => _ end) => destruct x
  end.

Lemma preserves_action act : preserves I (apply_client_action_authorized act).
Proof. unfold apply_client_action_authorized, advance_replay_nonce, validate_replay_nonce. frame_walk. Qed.

Lemma preserves_mm_action act : preserves I (apply_mm_lifecycle_action_authorized act).
Proof.
  unfold apply_mm_lifecycle_action_authorized. destruct (mm_action_account act) as [id|]; [|by intros s s' a _ H].
  apply preserves_bind; [|intros _; apply preserves_action]. apply preserves_smodify. intros s. apply HI. split; [done|].
  unfold queued, bridge_events. cbn. apply filter_filter_keep. by intros [] ?.
Qed.

Lemma preserves_refresh id : preserves I (refresh_account_keys_digest sha256 id).
Proof. apply preserves_smodify. intros s Hs. destruct (get_account s id); [|done]. by apply (HI s). Qed.

Lemma preserves_registration id pk meta : preserves I (apply_pubkey_registration sha256 id pk meta).
Proof. apply preserves_bind; [|intros; apply preserves_refresh]. apply preserves_smodify. intros s. by apply HI. Qed.

Lemma preserves_fold_digest id enc : preserves I (fold_digest blake3 id enc).
Proof. unfold fold_digest. frame_walk. Qed.

Lemma preserves_revoke id pk au : preserves I (revoke_signing_key blake3 sha256 id pk au).
Proof.
  unfold revoke_signing_key, can_revoke_signing_key, can_accept_key_op. frame_walk.
  all: first [apply preserves_refresh | apply preserves_fold_digest | apply preserves_smodify; intros s; by apply HI].
Qed.

Lemma preserves_create b k : preserves I (apply_account_creation_at sha256 b k).
Proof.
  unfold apply_account_creation_at. frame_walk; try apply preserves_registration.
  - intros s s' id Hs. unfold store_create_account. destruct (create_account _ _ _); intros [= <- <-]. by apply (HI s).
  - apply preserves_smodify. intros s Hs. destruct (sq_baselines s !! _); [done|]. by apply (HI s).
Qed.

Lemma preserves_fund id n : preserves I (fund_account_at id n).
Proof. unfold fund_account_at. frame_walk. Qed.

Lemma preserves_cancel id oid : preserves I (cancel_pending_order_at id oid).
Proof.
  unfold cancel_pending_order_at. frame_walk. intros s s' ro Hs. unfold on_book.
  destruct (cancel id oid (sq_order_book s)); intros [= <- <-]. by apply (HI s).
Qed.

Lemma preserves_resolution ids m y : preserves I (execute_resolution ids m y).
Proof.
  unfold execute_resolution. frame_walk.
  - apply preserves_sforeach, preserves_capture.
  - apply preserves_smodify. intros s. by apply HI.
  - apply preserves_smodify. intros s. by apply HI.
Qed.

Lemma bridge_events_push id key l l' : push_initial_key id key (rev l) = Some l' → bridge_events (rev l') = bridge_events l.
Proof.
  rewrite <- (rev_involutive l) at 2. generalize (rev l) as k. clear l. intros k. revert l'.
  assert (∀ q, bridge_events (rev q) = rev (bridge_events q)) as Hrev.
  { intros q. induction q as [|e q IH]; [done|]. cbn [rev]. rewrite bridge_events_app, IH. unfold bridge_events. rewrite !filter_cons.
    case_decide; [done|]. apply app_nil_r. }
  intros l' Hp. rewrite !Hrev. f_equal. revert l' Hp. induction k as [|e k IH]; intros l' Hp; [done|]. unfold bridge_events in *.
  destruct e; cbn [push_initial_key] in Hp; try (apply fmap_Some in Hp as (l & Hl & ->); rewrite !filter_cons, (IH l) by done; done).
  case_decide; [injection Hp as <-; by rewrite !filter_cons|]. apply fmap_Some in Hp as (l & Hl & ->). by rewrite !filter_cons, (IH l).
Qed.

(** The operations that may claim quarantined funds. *)
Context (Hclaim : ∀ id, preserves I (claim_quarantine_for_account blake3 id)).

Lemma preserves_first_key id pk meta : preserves I (register_first_pubkey_with_meta blake3 sha256 id pk meta).
Proof.
  intros s s' u Hs H. unfold register_first_pubkey_with_meta in H.
  apply sbind_SOk_inv in H as (s1 & [] & E & H). apply (reads_SOk _ _ _ _ (validate_label_reads _)) in E as ->.
  apply sbind_SOk_inv in H as (s1 & [] & E & H).
  apply reads_SOk in E as ->; [|unfold can_register_first_pubkey, can_register_pubkey; reads_only].
  apply sbind_SOk_inv in H as (s1 & [] & E & H). apply (reads_SOk _ _ _ _ (validate_claim_reads _ _)) in E as ->.
  rewrite sget_bind in H. apply sbind_SOk_inv in H as (s1 & [] & E & H).
  assert (I s1) as Hs1.
  { destruct (push_initial_key _ _ _) as [l|] eqn:Hp.
    - injection E as <-. apply (HI s); [|done]. split; [done|]. unfold queued. cbn. by apply bridge_events_push in Hp.
    - by apply guard_err_SOk in E as [-> _]. }
  revert H. eapply preserves_bind; [apply preserves_registration| |done].
  intros _. apply preserves_bind; [apply Hclaim|]. intros _. apply preserves_mret.
Qed.

Lemma preserves_register id pk meta au : preserves I (register_pubkey_with_meta_authorized blake3 sha256 id pk meta au).
Proof.
  unfold register_pubkey_with_meta_authorized, can_register_authorized_pubkey, can_register_pubkey, can_accept_key_op. frame_walk.
  all: first [apply Hclaim | apply preserves_registration | apply preserves_fold_digest
    | apply preserves_reads, validate_label_reads | apply preserves_reads, validate_claim_reads].
Qed.
End frames.

(** ** Replaying the queued events *)

Definition witnessed (s : Sequencer) : list Event.SystemEventWitness := convert_system_event <$> queued s.

Definition deposits_of (l : list Sys.SystemEvent) : list L1Deposit :=
  omap (λ e, match e with Sys.L1Deposit _ _ d | Sys.DepositQuarantined _ d => Some d | _ => None end) l.

(** A terminal event tells the truth about the leaf it ends. *)
Definition terminal_ok (heights : gset Z) (w : WithdrawalLeaf) (e : Event.SystemEventWitness) : Prop :=
  match e with
  | Event.WithdrawalRefunded id _ n reason =>
      id = wl_account_id w ∧ n = wl_amount_nanos w ∧
      match reason with L1Expired h => wl_expiry_height w < h ∧ h ∈ heights | L1Cancelled => True end
  | Event.WithdrawalFinalized id _ n => id = wl_account_id w ∧ n = wl_amount_nanos w
  | _ => False
  end.

Definition created_event (w : WithdrawalLeaf) : Event.SystemEventWitness :=
  convert_system_event (Sys.WithdrawalCreated (wl_account_id w) (wl_amount_nanos w) w).

(** A leaf is the one of the last block or was created since, and is terminal
    exactly when a terminal event is queued. *)
Record leaf_ok (we : WithdrawalEvents) (next id : Z) (pre cur : option WithdrawalLeaf) : Prop := {
  lo_created : match we_created we !! id with
               | None => withdrawal_snapshot <$> cur = withdrawal_snapshot <$> pre
               | Some e => pre = None ∧ ∃ w, cur = Some w ∧ e = created_event w
               end;
  lo_terminal : match we_terminal we !! id with
                | None => ∀ w, cur = Some w → terminal w = false
                | Some e => ∃ w, cur = Some w ∧ terminal w = true ∧ terminal_ok (we_observed_heights we) w e
                end;
  lo_leaf : ∀ w, cur = Some w → wl_withdrawal_id w = id ∧ id < next ∧ 0 ≤ wl_amount_nanos w ≤ int_max U64;
}.

Lemma index_snoc l e : index_withdrawal_events (l ++ [e]) = index_withdrawal_event (index_withdrawal_events l) e.
Proof. unfold index_withdrawal_events. by rewrite foldl_app. Qed.

Lemma index_heights l h : h ∈ we_observed_heights (index_withdrawal_events l).1 ↔ Event.L1BlockObserved h ∈ l.
Proof.
  induction l as [|e l IH] using rev_ind; [set_solver|]. rewrite index_snoc, elem_of_app, list_elem_of_singleton, <- IH.
  destruct (index_withdrawal_events l) as [we vs]. destruct e; cbn; try (split; [by left|intros [|]; done]).
  rewrite elem_of_union, elem_of_singleton. naive_solver.
Qed.

(** Events of the other components do not matter. *)
Lemma witnessed_frame {A} (f : A → Event.SystemEventWitness → A) a l :
  (∀ a e, bridge_event e = false → f a (convert_system_event e) = a) →
  foldl f a (convert_system_event <$> l) = foldl f a (convert_system_event <$> bridge_events l).
Proof.
  intros Hf. revert a. induction l as [|e l IH]; intros a; [done|]. unfold bridge_events. rewrite filter_cons. cbn [fmap list_fmap foldl].
  case_decide as He; [apply IH|]. rewrite Hf by (by apply not_true_iff_false). apply IH.
Qed.

Section runs.
Context (blake3 sha256 keccak256 : Bytes → Bytes) (s0 : Sequencer).

Abbreviation b0 := (sq_bridge s0).

Record withdrawal_run (s : Sequencer) (we : WithdrawalEvents) : Prop := {
  wr_index : index_withdrawal_events (witnessed s) = (we, []);
  wr_observed : foldl observe_step (bs_observed_l1_height b0, []) (witnessed s) = (bs_observed_l1_height (sq_bridge s), []);
  wr_heights : ∀ h, h ∈ we_observed_heights we → h ≤ bs_observed_l1_height (sq_bridge s);
  wr_next : bs_next_withdrawal_id (sq_bridge s) = bs_next_withdrawal_id b0 + Z.of_nat (size (we_created we));
  wr_leaves : ∀ id, leaf_ok we (bs_next_withdrawal_id (sq_bridge s)) id (bs_withdrawals b0 !! id) (bs_withdrawals (sq_bridge s) !! id);
}.

(** What a queued deposit event says about its deposit. *)
Definition disposed (e : Sys.SystemEvent) : Prop :=
  match e with
  | Sys.L1Deposit id n d =>
      ld_sybil_account_key d = account_key blake3 id ∧ amount_token_units_to_i64_nanos (ld_amount_token_units d) = Ok n
  | Sys.DepositQuarantined n d => amount_token_units_to_i64_nanos (ld_amount_token_units d) = Ok n
  | _ => True
  end.

Record deposit_run (s : Sequencer) : Prop := {
  dr_cursor : bs_deposit_cursor (sq_bridge s) = bs_deposit_cursor b0 + Z.of_nat (length (deposits_of (queued s)));
  dr_append : append_all keccak256 (bs_deposit_frontier b0) (bs_deposit_cursor b0) (deposit_leaf_for_protocol <$> deposits_of (queued s)) =
    Some (bs_deposit_frontier (sq_bridge s), ld_deposit_root <$> deposits_of (queued s));
  dr_root : bs_deposit_root (sq_bridge s) = default (bs_deposit_root b0) (last (ld_deposit_root <$> deposits_of (queued s)));
  dr_ids : ∀ i d, deposits_of (queued s) !! i = Some d → ld_deposit_id d = bs_deposit_cursor b0 + Z.of_nat i + 1;
  dr_disposed : Forall disposed (queued s);
  dr_capacity : bs_deposit_cursor (sq_bridge s) ≤ deposit_tree_capacity;
}.

Record quarantine_run (s : Sequencer) : Prop := {
  qr_replay : ofold (quarantine_step blake3) (bs_quarantine b0, []) (witnessed s) = Ok (bs_quarantine (sq_bridge s), []);
  qr_positive : ∀ k n, bs_quarantine (sq_bridge s) !! k = Some n → 0 < n;
}.

(** As long as withdrawal ids are not exhausted. *)
Record bridge_run (s : Sequencer) : Prop := {
  run_withdrawals : bs_next_withdrawal_id (sq_bridge s) < int_max U64 → ∃ we, withdrawal_run s we;
  run_deposits : deposit_run s;
  run_quarantine : quarantine_run s;
}.

Lemma bridge_run_framed : framed bridge_run.
Proof.
  intros s s' [Hb Hq] [Hw Hd Hr]. split; rewrite ?Hb.
  - intros Hn. destruct (Hw Hn) as [we []]. exists we. split; unfold witnessed in *; by rewrite ?Hb, ?Hq.
  - destruct Hd. split; by rewrite ?Hb, ?Hq.
  - destruct Hr. split; unfold witnessed in *; by rewrite ?Hb, ?Hq.
Qed.

(** ** One event at a time *)

Lemma queued_recorded e s : bridge_event e = true → queued (recorded e s) = queued s ++ [e].
Proof. intros He. unfold queued, recorded. cbn. rewrite bridge_events_app. unfold bridge_events at 2. by rewrite filter_cons, decide_True. Qed.

Lemma witnessed_snoc s s' e : queued s' = queued s ++ [e] → witnessed s' = witnessed s ++ [convert_system_event e].
Proof. intros Hq. unfold witnessed. by rewrite Hq, fmap_app. Qed.

Definition withdrawal_event (e : Sys.SystemEvent) : bool :=
  match e with
  | Sys.WithdrawalCreated _ _ _ | Sys.WithdrawalRefunded _ _ _ _ | Sys.WithdrawalFinalized _ _ _ | Sys.L1BlockObserved _ => true
  | _ => false
  end.
Definition deposit_event (e : Sys.SystemEvent) : bool :=
  match e with Sys.L1Deposit _ _ _ | Sys.DepositQuarantined _ _ => true | _ => false end.
Definition quarantine_event' (e : Sys.SystemEvent) : bool :=
  match e with Sys.QuarantineClaimed _ _ _ | Sys.DepositQuarantined _ _ => true | _ => false end.

Lemma wrun_skip s s' e we : queued s' = queued s ++ [e] → withdrawal_event e = false →
  bs_observed_l1_height (sq_bridge s') = bs_observed_l1_height (sq_bridge s) →
  bs_next_withdrawal_id (sq_bridge s') = bs_next_withdrawal_id (sq_bridge s) →
  bs_withdrawals (sq_bridge s') = bs_withdrawals (sq_bridge s) → withdrawal_run s we → withdrawal_run s' we.
Proof.
  intros Hq He Ho Hn Hw []. split; rewrite ?(witnessed_snoc _ _ _ Hq), ?Ho, ?Hn, ?Hw; [| |done..].
  - rewrite index_snoc, wr_index0. by destruct e.
  - rewrite foldl_app, wr_observed0. by destruct e.
Qed.

Lemma deposits_snoc l e : deposit_event e = false → deposits_of (l ++ [e]) = deposits_of l.
Proof. intros He. unfold deposits_of. rewrite omap_app. destruct e; try done; by rewrite app_nil_r. Qed.

Lemma drun_skip s s' e : queued s' = queued s ++ [e] → deposit_event e = false →
  bs_deposit_cursor (sq_bridge s') = bs_deposit_cursor (sq_bridge s) →
  bs_deposit_root (sq_bridge s') = bs_deposit_root (sq_bridge s) →
  bs_deposit_frontier (sq_bridge s') = bs_deposit_frontier (sq_bridge s) → deposit_run s → deposit_run s'.
Proof.
  intros Hq He Hc Hr Hf []. split; rewrite ?Hq, ?Hc, ?Hr, ?Hf, ?deposits_snoc by done; try done.
  apply Forall_app. split; [done|]. by destruct e; repeat constructor.
Qed.

Lemma qrun_skip s s' e : queued s' = queued s ++ [e] → quarantine_event' e = false →
  bs_quarantine (sq_bridge s') = bs_quarantine (sq_bridge s) → quarantine_run s → quarantine_run s'.
Proof.
  intros Hq He Hr []. split; rewrite ?(witnessed_snoc _ _ _ Hq), ?Hr; [|done].
  rewrite ofold_app, qr_replay0. by destruct e.
Qed.

Lemma qrun_step s s' e : queued s' = queued s ++ [e] → quarantine_run s →
  quarantine_event blake3 (convert_system_event e) (bs_quarantine (sq_bridge s)) = SOk (bs_quarantine (sq_bridge s')) () →
  (∀ k n, bs_quarantine (sq_bridge s') !! k = Some n → 0 < n) → quarantine_run s'.
Proof.
  intros Hq [] He Hp. split; [|done]. rewrite (witnessed_snoc _ _ _ Hq), ofold_app, qr_replay0.
  cbn [mbind outcome_bind ofold quarantine_step]. by rewrite He.
Qed.

(** ** Quarantine claims *)

Lemma claimed_run s s' id n : bridge_run s → bs_quarantine (sq_bridge s) !! account_key blake3 id = Some n →
  sq_bridge s' = set_quarantine (delete (account_key blake3 id) (bs_quarantine (sq_bridge s))) (sq_bridge s) →
  queued s' = queued s ++ [Sys.QuarantineClaimed id n (account_key blake3 id)] → bridge_run s'.
Proof.
  intros [Hw Hd Hr] Hn Hb Hq. split; rewrite ?Hb.
  - intros Hmax. destruct (Hw Hmax) as [we Hwe]. exists we. eapply wrun_skip; [done|done|by rewrite Hb..|done].
  - eapply drun_skip; [done|done|by rewrite Hb..|done].
  - eapply qrun_step; [done|done| |].
    + rewrite Hb. cbn [quarantine_event convert_system_event]. unfold claim. rewrite decide_True by done. rewrite sget_bind, Hn, smodify_bind.
      by rewrite decide_True.
    + intros k m. rewrite Hb. cbn. rewrite lookup_delete_Some. intros [_ Hm]. by eapply qr_positive.
Qed.

Lemma claim_run id : preserves bridge_run (claim_quarantine_for_account blake3 id).
Proof.
  intros s s' r Hs H. unfold claim_quarantine_for_account in H. rewrite sget_bind in H.
  destruct (_ !! _) as [n|] eqn:Hn; [|sinv H; done]. sinv H. eapply (claimed_run s _ id n Hs Hn).
  - cbn. by autorewrite with sybil_rw.
  - rewrite queued_recorded by done. f_equal. unfold queued. cbn. by rewrite captured_events.
Qed.

Lemma prepared_run b pk meta :
  preserves bridge_run (prepared ← prepare_account_with_initial_key blake3 b pk meta; apply_prepared_account_with_initial_key sha256 prepared).
Proof.
  intros s s' id Hs H. apply sbind_SOk_inv in H as (s1 & p & E & H). unfold prepare_account_with_initial_key in E.
  apply sbind_SOk_inv in E as (s2 & [] & E1 & E). apply (reads_SOk _ _ _ _ (validate_label_reads _)) in E1 as ->. rewrite sget_bind in E.
  sinv E.
  assert (s1 = s ∧ ∀ c, a1 = Some c → pq_key c = account_key blake3 (as_next_id (sq_accounts s))) as [-> Hc].
  { destruct (bs_quarantine _ !! _); sinv E2; (split; [done|]); intros c Hc; by simplify_eq. }
  unfold apply_prepared_account_with_initial_key in H. apply sbind_SOk_inv in H as (s2 & acct & E & H).
  cbn [pk_initial_balance pk_pubkey pk_meta pk_account_id pk_quarantine_claim] in *.
  eapply (preserves_create sha256 _ bridge_run_framed) in E; [|done].
  apply sbind_SOk_inv in H as (s3 & [] & E3 & H). apply slift_SOk in E3 as [-> E3].
  assert (acct = as_next_id (sq_accounts s)) as -> by (unfold assert_ in E3; by destruct (Z.eqb_spec acct (as_next_id (sq_accounts s)))).
  destruct a1 as [c|]; [|by sinv H]. specialize (Hc c eq_refl).
  apply sbind_SOk_inv in H as (s3 & [] & Es & H). sinv H. sinv Es. rewrite record_eq in Es. injection Es as <-.
  match goal with E : assert_ (bool_decide _) = _ |- _ => unfold assert_ in E; case_bool_decide as Hq; [|done] end. rewrite Hc in *.
  eapply (claimed_run s2 _ (as_next_id (sq_accounts s)) _ E Hq); [done|]. by rewrite queued_recorded.
Qed.

(** ** Deposits *)

Lemma validated_amount d s s' n : validate_l1_deposit blake3 keccak256 d s = SOk s' n →
  amount_token_units_to_i64_nanos (ld_amount_token_units d) = Ok n.
Proof.
  unfold validate_l1_deposit. intros H. sinv H. apply slift_SOk in H as [_ H].
  destruct (amount_token_units_to_i64_nanos _); cbn in H; congruence.
Qed.

Lemma token_amount_positive units n : amount_token_units_to_i64_nanos units = Ok n → 0 < n ≤ int_max I64.
Proof.
  unfold amount_token_units_to_i64_nanos, amount_token_units_to_nanos, NANOS_PER_TOKEN_UNIT. destruct (Z.eqb_spec units 0); [done|].
  destruct (chk U64 _) as [z|] eqn:Hz; [|done]. cbn. apply chk_Some in Hz as [-> Hz]. destruct (chk I64 _) eqn:Hi; [|done].
  cbn. apply chk_Some in Hi as [-> Hi]. intros [= <-]. int_lia.
Qed.

(** The event a deposit leaves, and its effect on the quarantine. *)
Lemma dispose_SOk d n s s' r : dispose_deposit d n s = SOk s' r →
  ∃ e, queued s' = queued s ++ [e] ∧
    match ld_account_id d with
    | Some id => e = Sys.L1Deposit id n d ∧ sq_bridge s' = sq_bridge s
    | None => e = Sys.DepositQuarantined n d ∧
        chk I64 (get0 (bs_quarantine (sq_bridge s)) (ld_sybil_account_key d) + n) =
          Some (get0 (bs_quarantine (sq_bridge s)) (ld_sybil_account_key d) + n) ∧
        sq_bridge s' = set_quarantine
          (<[ld_sybil_account_key d := get0 (bs_quarantine (sq_bridge s)) (ld_sybil_account_key d) + n]> (bs_quarantine (sq_bridge s)))
          (sq_bridge s)
    end.
Proof.
  unfold dispose_deposit. intros H. destruct (ld_account_id d) as [id|]; sinv H; eexists.
  - rewrite queued_recorded by done. unfold queued. cbn. autorewrite with sybil_rw. done.
  - rewrite queued_recorded by done. split; [done|]. split; [done|].
    match goal with E : chk I64 _ = Some _ |- _ => cbn in E; rewrite get0_insert, decide_True in E by done; pose proof E as E'; apply chk_Some in E' as [-> _] end.
    split; [done|]. cbn. unfold set_quarantine. cbn. by rewrite insert_insert_eq.
Qed.

Lemma append_all_snoc f c ds d f' roots f'' root :
  append_all keccak256 f c ds = Some (f', roots) → append_deposit_frontier keccak256 f' (c + Z.of_nat (length ds)) d = Some (f'', root) →
  append_all keccak256 f c (ds ++ [d]) = Some (f'', roots ++ [root]).
Proof.
  revert f c roots. induction ds as [|x ds IH]; intros f c roots H Hd.
  - cbn [append_all app length] in *. injection H as <- <-. rewrite Z.add_0_r in Hd. by rewrite Hd.
  - cbn [append_all app length] in *. destruct (append_deposit_frontier keccak256 f c x) as [[f1 r1]|]; [|done]. cbn [mbind option_bind] in *.
    destruct (append_all keccak256 f1 (c + 1) ds) as [[f2 rs]|] eqn:E; [|done]. cbn [mbind option_bind] in *. injection H as <- <-.
    rewrite (IH f1 (c + 1) rs E); [done|]. rewrite <- Hd. f_equal. lia.
Qed.

Lemma append_below_capacity f c d x : append_deposit_frontier keccak256 f c d = Some x → c < deposit_tree_capacity.
Proof.
  unfold append_deposit_frontier. destruct (c >=? deposit_tree_capacity) eqn:E; [done|]. intros _.
  rewrite Z.geb_leb in E. by apply Z.leb_gt.
Qed.

Context (Hcursor : 0 ≤ bs_deposit_cursor b0) (Hids : 0 ≤ bs_next_withdrawal_id b0).

(** A deposit extends the log by itself. *)
Lemma drun_deposit s s' e d f : deposit_run s → queued s' = queued s ++ [e] → deposits_of [e] = [d] → disposed e →
  ld_deposit_id d = sat U64 (bs_deposit_cursor (sq_bridge s) + 1) →
  bridge_append_deposit_frontier keccak256 (bs_deposit_frontier (sq_bridge s)) (bs_deposit_cursor (sq_bridge s)) d =
    Some (f, ld_deposit_root d) →
  bs_deposit_cursor (sq_bridge s') = ld_deposit_id d → bs_deposit_root (sq_bridge s') = ld_deposit_root d →
  bs_deposit_frontier (sq_bridge s') = f → deposit_run s'.
Proof.
  intros [Hc Ha Hr Hi Hd Hcap] Hq He Hdis Hid Happ Hc' Hr' Hf'.
  pose proof (append_below_capacity _ _ _ _ Happ) as Hlt. change deposit_tree_capacity with 4294967296 in *.
  rewrite sat_in in Hid by int_lia.
  assert (deposits_of (queued s') = deposits_of (queued s) ++ [d]) as Hds.
  { rewrite Hq. unfold deposits_of at 1. rewrite omap_app. by f_equal. }
  split; rewrite ?Hds, ?Hc', ?Hr', ?Hf', ?length_app, ?fmap_app.
  - cbn [length]. lia.
  - eapply append_all_snoc; [exact Ha|]. rewrite length_fmap, <- Hc. exact Happ.
  - by rewrite last_app.
  - intros i x. rewrite lookup_app_Some. intros [Hx|[Hlen Hx]]; [by apply Hi|].
    destruct (i - length (deposits_of (queued s)))%nat eqn:Hi'; [|done]. cbn in Hx. injection Hx as <-. lia.
  - rewrite Hq. apply Forall_app. by repeat constructor.
  - change deposit_tree_capacity with 4294967296. lia.
Qed.

Lemma ingest_run d : preserves bridge_run (ingest_l1_deposit blake3 keccak256 d).
Proof.
  intros s s' r [Hw Hd Hq] H. unfold ingest_l1_deposit in H. apply sbind_SOk_inv in H as (s1 & n & E & H).
  pose proof (validated_amount _ _ _ _ E) as Hn.
  apply validate_l1_deposit_SOk in E as (-> & Hn' & Hid & Hacc & f & Hf).
  apply sbind_SOk_inv in H as (s2 & r2 & E & H). pose proof (dispose_effect _ _ _ _ _ E) as (_ & Hw2 & Hn2 & Hf2 & Hc2).
  apply dispose_SOk in E as (e & Hqe & He). sinv H. rewrite Hf2, Hc2, Hf in *.
  match goal with E : Some _ = Some _ |- _ => injection E as <- <- end.
  set (s' := on_bridge _ s2).
  assert (queued s' = queued s ++ [e]) as Hqs by exact Hqe.
  assert (withdrawal_event e = false ∧ deposits_of [e] = [d] ∧ disposed e) as (Hwe & Hde & Hdis).
  { destruct (ld_account_id d) as [id|] eqn:Hac; destruct He as [-> _]; split_and!; try done. cbn. split; [|done]. by apply Hacc. }
  assert (bs_observed_l1_height (sq_bridge s2) = bs_observed_l1_height (sq_bridge s)) as Ho2.
  { destruct (ld_account_id d); [by destruct He as [_ ->]|by destruct He as (_ & _ & ->)]. }
  split.
  - intros Hmax. destruct Hw as [we Hwe']; [cbn in Hmax; by rewrite Hn2 in Hmax|]. exists we. eapply wrun_skip; eauto.
  - eapply drun_deposit; eauto.
  - destruct (ld_account_id d) as [id|]; [destruct He as [-> Hb]|destruct He as (-> & Hch & Hb)].
    + eapply qrun_skip; [done|done| |done]. cbn. by rewrite Hb.
    + pose proof (token_amount_positive _ _ Hn) as Hpos. eapply qrun_step; [done|done| |].
      * cbn [s' on_bridge sq_bridge set_bridge set_deposits bs_quarantine quarantine_event convert_system_event]. rewrite Hb.
        unfold quarantine. rewrite (proj2 (Z.leb_gt _ _)) by lia. rewrite smodify_bind, sget_bind, get0_insert, decide_True by done.
        rewrite Hch. cbn [ok_or]. rewrite slift_Ok_bind. unfold smodify. by rewrite insert_insert_eq.
      * intros k m. cbn. rewrite Hb. cbn. rewrite lookup_insert_Some. intros [[<- <-]|[_ Hm]]; [|by eapply qr_positive].
        unfold get0. destruct (_ !! _) as [z|] eqn:Hz; cbn; [|lia]. apply (qr_positive _ Hq) in Hz. lia.
Qed.

(** ** Withdrawals *)

Lemma same_identity w w' : leaf_identity w' = leaf_identity w →
  withdrawal_snapshot w' = withdrawal_snapshot w ∧ created_event w' = created_event w ∧
  (∀ hs e, terminal_ok hs w e → terminal_ok hs w' e) ∧ wl_withdrawal_id w' = wl_withdrawal_id w ∧
  wl_account_id w' = wl_account_id w ∧ wl_amount_nanos w' = wl_amount_nanos w ∧ wl_expiry_height w' = wl_expiry_height w.
Proof.
  destruct w, w'. unfold leaf_identity. cbn. intros Heq. simplify_eq. split_and!; try done.
Qed.

Lemma terminal_ok_mono hs hs' w e : hs ⊆ hs' → terminal_ok hs w e → terminal_ok hs' w e.
Proof. intros Hs. destruct e; cbn; try done. destruct reason; set_solver. Qed.

Lemma wrun_created s s' w we : withdrawal_run s we →
  queued s' = queued s ++ [Sys.WithdrawalCreated (wl_account_id w) (wl_amount_nanos w) w] →
  bs_observed_l1_height (sq_bridge s') = bs_observed_l1_height (sq_bridge s) →
  bs_next_withdrawal_id (sq_bridge s') = bs_next_withdrawal_id (sq_bridge s) + 1 →
  bs_withdrawals (sq_bridge s') = <[bs_next_withdrawal_id (sq_bridge s) := w]> (bs_withdrawals (sq_bridge s)) →
  wl_withdrawal_id w = bs_next_withdrawal_id (sq_bridge s) → terminal w = false → 0 ≤ wl_amount_nanos w ≤ int_max U64 →
  ∃ we', withdrawal_run s' we'.
Proof.
  intros [Hix Hob Hh Hnx Hl] Hq Ho Hn Hw Hid Ht Hamt. set (id := bs_next_withdrawal_id (sq_bridge s)) in *.
  destruct (Hl id) as [Hc Hte Hle].
  assert (bs_withdrawals (sq_bridge s) !! id = None) as Hnone.
  { destruct (bs_withdrawals (sq_bridge s) !! id) as [v|] eqn:E; [|done]. destruct (Hle v eq_refl) as (_ & ? & _). lia. }
  rewrite Hnone in *. assert (we_created we !! id = None) as Hcr.
  { destruct (we_created we !! id); [|done]. destruct Hc as (_ & v & ? & _). done. }
  assert (we_terminal we !! id = None) as Htr.
  { destruct (we_terminal we !! id); [|done]. destruct Hte as (v & ? & _). done. }
  rewrite Hcr in Hc. assert (bs_withdrawals b0 !! id = None) as Hpre by (by destruct (bs_withdrawals b0 !! id)).
  exists (mkWithdrawalEvents (<[id := created_event w]> (we_created we)) (we_terminal we) (we_observed_heights we)).
  split; rewrite ?(witnessed_snoc _ _ _ Hq), ?Ho, ?Hn, ?Hw.
  - rewrite index_snoc, Hix. cbn -[created_event]. rewrite Hid, Hcr. rewrite bool_decide_eq_false_2 by (by intros [? ?]). unfold created_event. cbn. by rewrite Hid.
  - by rewrite foldl_app, Hob.
  - done.
  - cbn. rewrite map_size_insert_None by done. lia.
  - intros k. cbn. destruct (decide (k = id)) as [->|Hk].
    + split; cbn; rewrite ?lookup_insert_eq.
      * split; [done|]. by exists w.
      * rewrite Htr. by intros v [= <-].
      * intros v [= <-]. split; [done|]. int_lia.
    + rewrite lookup_insert_ne by done. destruct (Hl k) as [Hk1 Hk2 Hk3]. split; cbn; [by rewrite lookup_insert_ne|done|].
      intros v Hv. destruct (Hk3 v Hv) as (? & ? & ?). split_and!; int_lia.
Qed.

Lemma token_nanos_range units n : amount_token_units_to_nanos units = Ok n → 0 ≤ n ≤ int_max U64.
Proof.
  unfold amount_token_units_to_nanos. destruct (units =? 0); [done|]. destruct (chk U64 _) as [z|] eqn:Hz; [|done].
  intros [= <-]. apply chk_Some in Hz as [-> Hz]. int_lia.
Qed.

Lemma request_run q : preserves bridge_run (request_bridge_withdrawal keccak256 q).
Proof.
  intros s s' leaf [Hw Hd Hr] H. pose proof H as H'. apply request_SOk in H' as (Hleaf & Hws & Hn & Hqr & _).
  unfold request_bridge_withdrawal in H. apply sbind_SOk_inv in H as (s1 & n & E & H).
  apply validate_bridge_withdrawal_SOk in E as (-> & -> & Hnn & _). rewrite Hnn in H. cbn [map_err] in H. sinv H. match goal with E : Ok _ = Ok _ |- _ => injection E as <- end.
  set (s' := recorded _ _) in *.
  assert (queued s' = queued s ++ [Sys.WithdrawalCreated (rq_account_id q) (rq_amount_token_units q * NANOS_PER_TOKEN_UNIT) (requested_leaf keccak256 q s)]) as Hqs.
  { unfold s'. rewrite queued_recorded by done. unfold queued. cbn. by rewrite captured_events. }
  assert (bs_observed_l1_height (sq_bridge s') = bs_observed_l1_height (sq_bridge s) ∧ bs_deposit_cursor (sq_bridge s') = bs_deposit_cursor (sq_bridge s) ∧
    bs_deposit_root (sq_bridge s') = bs_deposit_root (sq_bridge s) ∧ bs_deposit_frontier (sq_bridge s') = bs_deposit_frontier (sq_bridge s)) as (Ho & Hc & Hrt & Hf).
  { cbn. by autorewrite with sybil_rw. }
  split.
  - intros Hmax. rewrite Hn in Hmax. unfold sat in *. destruct Hw as [we Hwe]; [int_lia|].
    eapply (wrun_created s s' (requested_leaf keccak256 q s)); [done|exact Hqs|exact Ho| |exact Hws|done|done|].
    + rewrite Hn. pose proof (wr_next _ _ Hwe). unfold sat. int_lia.
    + by apply token_nanos_range in Hnn.
  - eapply drun_skip; [exact Hqs|done..].
  - eapply qrun_skip; [exact Hqs|done..].
Qed.

Lemma wrun_observed s s' h we : withdrawal_run s we → queued s' = queued s ++ [Sys.L1BlockObserved h] →
  bs_observed_l1_height (sq_bridge s) < h → sq_bridge s' = set_observed h (sq_bridge s) → ∃ we', withdrawal_run s' we'.
Proof.
  intros [Hix Hob Hh Hnx Hl] Hq Hlt Hb.
  exists (mkWithdrawalEvents (we_created we) (we_terminal we) ({[h]} ∪ we_observed_heights we)).
  split; rewrite ?(witnessed_snoc _ _ _ Hq), ?Hb.
  - rewrite index_snoc, Hix. cbn. rewrite bool_decide_eq_false_2; [done|]. intros Hin. apply Hh in Hin. lia.
  - rewrite foldl_app, Hob. cbn. by rewrite (proj2 (Z.leb_gt _ _)) by lia.
  - intros k. cbn. rewrite elem_of_union, elem_of_singleton. intros [->|Hk]; [done|]. apply Hh in Hk. lia.
  - done.
  - intros id. destruct (Hl id) as [H1 H2 H3]. split; cbn; [done| |done]. destruct (we_terminal we !! id); [|done].
    destruct H2 as (w & ? & ? & Hok). exists w. split_and!; [done..|]. eapply terminal_ok_mono, Hok. set_solver.
Qed.

(** The event a transition queues. *)
Definition transition_events (id : Z) (w : WithdrawalLeaf) (t : Transition.WithdrawalTransition) : list Sys.SystemEvent :=
  match t with
  | Transition.Unchanged | Transition.Queued => []
  | Transition.Finalized => [Sys.WithdrawalFinalized (wl_account_id w) id (wl_amount_nanos w)]
  | Transition.Refunded reason => [Sys.WithdrawalRefunded (wl_account_id w) id (wl_amount_nanos w) reason]
  end.

Lemma transition_SOk id t s s' w : bs_withdrawals (sq_bridge s) !! id = Some w → apply_withdrawal_transition id t s = SOk s' () →
  sq_bridge s' = sq_bridge s ∧ queued s' = queued s ++ transition_events id w t.
Proof.
  intros Hw H. unfold apply_withdrawal_transition in H. apply sbind_SOk_inv in H as (s1 & w1 & E & H).
  apply withdrawal_SOk in E as [-> E]. rewrite Hw in E. injection E as <-. sinv H. chks.
  destruct t; sinv H; try (rewrite record_eq in H; injection H as <-); rewrite ?queued_recorded by done; cbn [transition_events];
    rewrite ?app_nil_r; try done; unfold queued; cbn; by autorewrite with sybil_rw.
Qed.

(** What justifies a terminal transition. *)
Definition justified (hs : gset Z) (w : WithdrawalLeaf) (t : Transition.WithdrawalTransition) : Prop :=
  match t with Transition.Refunded (L1Expired h) => wl_expiry_height w < h ∧ h ∈ hs | _ => True end.

Lemma leaf_ok_same we next id pre w w' : leaf_identity w' = leaf_identity w → terminal w' = terminal w →
  leaf_ok we next id pre (Some w) → leaf_ok we next id pre (Some w').
Proof.
  intros (Hs & Hc & Hto & Hi & _ & Ha & _)%same_identity Ht [H1 H2 H3]. split.
  - destruct (we_created we !! id).
    + destruct H1 as (? & v & [= <-] & ->). split; [done|]. by exists w'.
    + rewrite <- H1. cbn. by rewrite Hs.
  - destruct (we_terminal we !! id).
    + destruct H2 as (v & [= <-] & Hv & Hok). exists w'. split_and!; [done|congruence|by apply Hto].
    + intros v [= <-]. rewrite Ht. by apply H2.
  - intros v [= <-]. rewrite Hi, Ha. by apply H3.
Qed.

Lemma wrun_transition s s' id w i w' t we : withdrawal_run s we → bs_withdrawals (sq_bridge s) !! id = Some w →
  leaf_input w i = (w', t) → justified (we_observed_heights we) w t →
  sq_bridge s' = set_withdrawals (<[id := w']> (bs_withdrawals (sq_bridge s))) (sq_bridge s) →
  queued s' = queued s ++ transition_events id w' t → ∃ we', withdrawal_run s' we' ∧ we_observed_heights we' = we_observed_heights we.
Proof.
  intros [Hix Hob Hh Hnx Hl] Hw Hi Hj Hb Hq. destruct (leaf_input_step _ _ _ _ Hi) as (Hsame & Hterm & _).
  pose proof (Hl id) as Hid. rewrite Hw in Hid. pose proof (same_identity _ _ Hsame) as (Hsn & Hce & _ & Hwid & Hacc & Hamt & Hexp).
  destruct (settles t) eqn:Hset; last first.
  { assert (terminal w' = terminal w) as Ht.
    { destruct (terminal w) eqn:E; [|by rewrite Hterm]. rewrite leaf_input_terminal in Hi by done. by injection Hi as <- _. }
    assert (transition_events id w' t = []) as Hev by (by destruct t). rewrite Hev, app_nil_r in Hq.
    exists we. split; [|done]. split; unfold witnessed; rewrite ?Hq, ?Hb; try done. intros k. cbn.
    rewrite lookup_insert. case_decide as Hk; [|apply Hl]. subst k. eapply leaf_ok_same; eauto. }
  assert (terminal w = false) as Htw.
  { destruct (terminal w) eqn:E; [|done]. rewrite leaf_input_terminal in Hi by done. by injection Hi as _ <-. }
  rewrite Htw in Hterm. destruct Hid as [H1 H2 H3]. assert (we_terminal we !! id = None) as Hnt.
  { destruct (we_terminal we !! id); [|done]. destruct H2 as (v & [= <-] & Hv & _). congruence. }
  assert (∃ e, transition_events id w' t = [e] ∧ terminal_ok (we_observed_heights we) w' (convert_system_event e) ∧
    index_withdrawal_event (we, []) (convert_system_event e) =
      (mkWithdrawalEvents (we_created we) (<[id := convert_system_event e]> (we_terminal we)) (we_observed_heights we), []) ∧
    ∀ acc, observe_step acc (convert_system_event e) = acc) as (e & He & Hok & Hie & Hoe).
  { destruct t as [| | |reason]; try done; eexists; (split; [reflexivity|]); cbn; rewrite Hnt, bool_decide_eq_false_2 by (by intros [? ?]);
      split_and!; try done; try (by intros []). destruct reason; [done|]. rewrite Hexp. exact Hj. }
  rewrite He in Hq.
  exists (mkWithdrawalEvents (we_created we) (<[id := convert_system_event e]> (we_terminal we)) (we_observed_heights we)).
  split; [|reflexivity]. split; rewrite ?(witnessed_snoc _ _ _ Hq), ?Hb.
  - by rewrite index_snoc, Hix, Hie.
  - rewrite foldl_app, Hob. cbn [foldl]. by rewrite Hoe.
  - done.
  - done.
  - intros k. cbn [set_withdrawals bs_withdrawals bs_next_withdrawal_id]. destruct (decide (id = k)) as [<-|Hk].
    + rewrite lookup_insert_eq. split; cbn.
      * destruct (we_created we !! id); [|rewrite <- H1; cbn; by rewrite Hsn].
        destruct H1 as (? & v & [= <-] & ->). split; [done|]. by exists w'.
      * rewrite lookup_insert_eq. exists w'. split_and!; [done|by apply Hterm|done].
      * intros v [= <-]. rewrite Hwid, Hamt. by apply H3.
    + rewrite lookup_insert_ne by done. destruct (Hl k) as [K1 K2 K3]. split; cbn; [done| |done]. by rewrite lookup_insert_ne.
Qed.

Lemma transition_run s s' id w i w' t : bridge_run s → bs_withdrawals (sq_bridge s) !! id = Some w → leaf_input w i = (w', t) →
  (∀ h, t = Transition.Refunded (L1Expired h) → wl_expiry_height w < h ∧ Sys.L1BlockObserved h ∈ queued s) →
  apply_withdrawal_transition id t (put_withdrawal id w' s) = SOk s' () →
  bridge_run s' ∧ ∀ h, Sys.L1BlockObserved h ∈ queued s → Sys.L1BlockObserved h ∈ queued s'.
Proof.
  intros [Hw Hd Hr] Hid Hi Hj H. apply (transition_SOk _ _ _ _ w') in H as [Hb Hq]; [|cbn; by rewrite lookup_insert_eq].
  change (queued (put_withdrawal id w' s)) with (queued s) in Hq.
  split; [|intros h Hh; rewrite Hq; by apply elem_of_app; left]. split.
  - rewrite Hb. intros Hmax. destruct (Hw Hmax) as [we Hwe].
    destruct (wrun_transition s s' id w i w' t we) as (we' & ? & _); try done; [|by exists we'].
    destruct t as [| | |[|h]]; try done. destruct (Hj h eq_refl) as [? Hin]. split; [done|].
    pose proof (index_heights (witnessed s) h) as Hx. rewrite (wr_index _ _ Hwe) in Hx. apply Hx. unfold witnessed.
    by apply (list_elem_of_fmap_2 convert_system_event) in Hin.
  - destruct (transition_events id w' t) as [|e [|]] eqn:He; [|eapply drun_skip; [exact Hq| |by rewrite Hb..|done]; destruct t; simplify_eq/=; done|by destruct t].
    rewrite app_nil_r in Hq. destruct Hd. split; by rewrite ?Hb, ?Hq.
  - destruct (transition_events id w' t) as [|e [|]] eqn:He; [|eapply qrun_skip; [exact Hq| |by rewrite Hb..|done]; destruct t; simplify_eq/=; done|by destruct t].
    rewrite app_nil_r in Hq. destruct Hr. split; unfold witnessed in *; by rewrite ?Hb, ?Hq.
Qed.

Lemma observe_loop_run h : ∀ acc ids,
  preserves (λ s, bridge_run s ∧ Sys.L1BlockObserved h ∈ queued s) (sfold (observe_withdrawal h) acc ids).
Proof.
  intros acc ids. apply preserves_sfold. clear acc ids. intros acc id s s' r [Hs Hin] H. unfold observe_withdrawal in H.
  apply sbind_SOk_inv in H as (s1 & w & E & H). apply withdrawal_SOk in E as [-> Hw].
  destruct (observe_l1_height w h) as [w' t] eqn:Ho. rewrite smodify_bind in H. apply sbind_SOk_inv in H as (s1 & [] & E & H).
  assert (s' = s1) as ->.
  { destruct t; sinv H; try done; by apply withdrawal_SOk in E0 as [-> _]. }
  destruct (transition_run s s1 id w (InputObservedHeight h) w' t Hs Hw Ho) as [Hs1 Hk]; [|exact E|].
  - intros h' ->. unfold observe_l1_height in Ho. destruct (terminal w || (h <=? wl_expiry_height w)) eqn:Hc; simplify_eq.
    apply orb_false_iff in Hc as [_ Hc]. apply Z.leb_gt in Hc. done.
  - split; [done|]. by apply Hk.
Qed.

Lemma observe_run h : preserves bridge_run (observe_bridge_l1_height h).
Proof.
  intros s s' l Hs H. unfold observe_bridge_l1_height in H. rewrite sget_bind in H.
  destruct (Z.leb_spec h (bs_observed_l1_height (sq_bridge s))) as [|Hlt]; [by sinv H|].
  rewrite smodify_bind in H. apply sbind_SOk_inv in H as (s1 & [] & E & H). rewrite record_eq in E. injection E as <-.
  rewrite sget_bind in H. set (s1 := recorded _ _) in *. assert (queued s1 = queued s ++ [Sys.L1BlockObserved h]) as Hq by exact (queued_recorded (Sys.L1BlockObserved h) (on_bridge (set_observed h) s) eq_refl).
  eapply (observe_loop_run h) in H as [? _]; [done|]. split; [|rewrite Hq; apply elem_of_app; right; by left].
  destruct Hs as [Hw Hd Hr]. split.
  - intros Hmax. destruct (Hw Hmax) as [we Hwe]. by eapply wrun_observed.
  - eapply drun_skip; [exact Hq|done..].
  - eapply qrun_skip; [exact Hq|done..].
Qed.

Lemma l1_event_run ev : preserves bridge_run (apply_bridge_withdrawal_l1_event ev).
Proof.
  intros s s' r Hs H. unfold apply_bridge_withdrawal_l1_event in H. rewrite sget_bind in H.
  apply sbind_SOk_inv in H as (s1 & [] & E & H). apply sbind_SOk_inv in H as (s2 & l & E2 & H).
  assert (s' = s2) as ->.
  { by destruct (find_nullifier s _); sinv H. }
  eapply observe_run; [|exact E2]. destruct (find_nullifier s _) as [id|]; [|by sinv E].
  apply sbind_SOk_inv in E as (s3 & w & E1 & E). apply withdrawal_SOk in E1 as [-> Hw].
  destruct (apply_l1_event w ev) as [w' t] eqn:Hev. rewrite smodify_bind in E.
  destruct (transition_run s s1 id w (InputWithdrawalEvent ev) w' t Hs Hw Hev) as [? _]; [|exact E|done].
  intros h ->. unfold apply_l1_event in Hev. destruct (terminal w); [done|]. destruct (le_status ev); try case_decide; simplify_eq.
Qed.

(** Every operation between two blocks. *)
Lemma sys_step_run s s' : sys_step blake3 sha256 keccak256 s s' → bridge_run s → bridge_run s'.
Proof.
  intros Hstep Hs. pose proof bridge_run_framed as HF. pose proof claim_run as HC. destruct Hstep as
    [act s s' u H|act s s' u H|id pk meta s s' u _ H|id pk meta au s s' u _ H|id pk au s s' u _ H|b s s' id _ H|b pk meta s s' id _ H
    |id n s s' a H|id oid s s' u _ H|ids m y s s' u _ _ _ H|d s s' r H|q s s' r H|e s s' r H|l1 s s' l H]; revert H.
  - by apply preserves_action.
  - by apply preserves_mm_action.
  - by apply preserves_first_key.
  - by apply preserves_register.
  - by apply preserves_revoke.
  - by apply preserves_create.
  - by apply prepared_run.
  - by apply preserves_fund.
  - by apply preserves_cancel.
  - by apply preserves_resolution.
  - by apply ingest_run.
  - by apply request_run.
  - by apply l1_event_run.
  - by apply observe_run.
Qed.

Lemma sys_steps_run s s' : rtc (sys_step blake3 sha256 keccak256) s s' → bridge_run s → bridge_run s'.
Proof. induction 1; eauto using sys_step_run. Qed.
End runs.
