(* ===== verification/BridgeVerified.v ===== *)
(** * BridgeVerified: the verifier accepts every bridge transition

    A run of sequencer operations followed by the system phase of block
    production gives a block whose withdrawal, deposit and quarantine checks all
    pass, and a ledger from which the next block can start. *)
From S2P Require Import Prelude Types Order Account Digest Validation OrderBook BatchSettlement Finalize Witness Sidecar L1Protocol DepositFrontier AccountKeys SystemVerifier Bridge Sequencer BridgeOps SystemPhase SystemInvariant BridgeSidecar BridgeRuns.

(** ** Ledgers between blocks *)

Record bridge_start (keccak256 : Bytes → Bytes) (s : Sequencer) : Prop := {
  bst_next : 0 ≤ bs_next_withdrawal_id (sq_bridge s);
  bst_leaves : ∀ id w, bs_withdrawals (sq_bridge s) !! id = Some w →
    wl_withdrawal_id w = id ∧ id < bs_next_withdrawal_id (sq_bridge s) ∧ 0 ≤ wl_amount_nanos w ≤ int_max U64 ∧ terminal w = false;
  bst_log : ∃ log, deposit_log keccak256 s log ∧ Z.of_nat (length log) ≤ deposit_tree_capacity;
  bst_quarantine : ∀ k n, bs_quarantine (sq_bridge s) !! k = Some n → 0 < n;
}.

(** What the witness of a block says about the bridge: the ledgers before and
    after, the events, and the deposits with the frontier they extend. *)
Record bridge_witness (s0 s' : Sequencer) (evs : list Sys.SystemEvent) (w : BlockWitness) : Prop := {
  bwt_pre : ∃ iter, iter ≡ₚ map_to_list (bs_quarantine (sq_bridge s0)) ∧
    ss_bridge (bw_pre_state_sidecar w) = bridge_state_snapshot iter (sq_bridge s0);
  bwt_post : ∃ iter, iter ≡ₚ map_to_list (bs_quarantine (sq_bridge s')) ∧
    ss_bridge (bw_state_sidecar w) = bridge_state_snapshot iter (sq_bridge s');
  bwt_events : bw_system_events w = convert_system_event <$> evs;
  bwt_deposits : bw_deposit_accumulator w =
    mkDepositAccumulatorWitness (bs_deposit_frontier (sq_bridge s0)) (bs_deposit_cursor (sq_bridge s0)) (new_deposits evs);
  bwt_genesis : bw_previous_header w = None → bs_quarantine (sq_bridge s0) = ∅;
}.

Section verified.
Context (blake3 sha256 keccak256 : Bytes → Bytes).

Lemma start_cursor s : bridge_start keccak256 s → 0 ≤ bs_deposit_cursor (sq_bridge s) ≤ deposit_tree_capacity.
Proof. intros [_ _ (log & (Hc & _) & Hl) _]. lia. Qed.

Lemma start_run s : sq_pending_system_events s = [] → bridge_start keccak256 s → bridge_run blake3 keccak256 s s.
Proof.
  intros He Hst. assert (queued s = []) as Hq by (unfold queued; by rewrite He).
  pose proof (start_cursor s Hst) as Hc. destruct Hst as [Hn Hl _ Hqr]. split.
  - intros _. exists (mkWithdrawalEvents ∅ ∅ ∅). split; unfold witnessed; rewrite ?Hq; try done.
    + cbn. rewrite map_size_empty. lia.
    + intros id. split; cbn; rewrite ?lookup_empty; [done| |].
      * intros w Hw. by apply Hl in Hw as (_ & _ & _ & ?).
      * intros w Hw. apply Hl in Hw as (? & ? & ? & _). done.
  - split; rewrite ?Hq; cbn; try done; lia.
  - split; unfold witnessed; rewrite ?Hq; done.
Qed.

(** ** Collections without duplicates *)

Lemma option_fmap_Some {A B} (f : A → B) x : f <$> Some x = Some (f x).
Proof. done. Qed.

Lemma snapshot_withdrawals iter b : (∀ id w, bs_withdrawals b !! id = Some w → wl_withdrawal_id w = id) →
  keyed_withdrawals (br_withdrawals (bridge_state_snapshot iter b)) = (withdrawal_snapshot <$> bs_withdrawals b, []).
Proof.
  intros Hid. unfold keyed_withdrawals. cbn [bridge_state_snapshot br_withdrawals].
  set (l := stable_sort _ _). assert (l ≡ₚ (λ e, withdrawal_snapshot e.2) <$> map_to_list (bs_withdrawals b)) as Hl by apply stable_sort_Permutation.
  assert (NoDup (ws_withdrawal_id <$> l)) as Hnd.
  { rewrite Hl, <- list_fmap_compose. erewrite (list_fmap_ext _ fst); [apply NoDup_fst_map_to_list|].
    intros i [id w] Hi. apply list_elem_of_lookup_2, elem_of_map_to_list in Hi. cbn. by apply Hid. }
  f_equal; [|apply collect_dups_nil; [done|set_solver]].
  apply map_eq. intros id. apply option_eq. intros x. rewrite keyed_lookup by done. rewrite Hl, list_elem_of_fmap, lookup_fmap, fmap_Some.
  split.
  - intros [([k w] & -> & Hin) Hk]. apply elem_of_map_to_list in Hin. exists w. cbn in *. rewrite (Hid k w Hin) in Hk. by subst.
  - intros (w & Hw & ->). split; [|cbn; by apply Hid]. exists (id, w). split; [done|]. by apply elem_of_map_to_list.
Qed.

Lemma ledger_map_perm (m : gmap Bytes Z) iter : iter ≡ₚ map_to_list m → (∀ k n, m !! k = Some n → 0 < n) →
  ledger_map ((λ e, mkQuarantineEntrySnapshot e.1 e.2) <$> iter) = Ok m.
Proof.
  intros Hi Hp. unfold ledger_map.
  assert (∀ l acc, NoDup (l.*1 ++ (map_to_list acc).*1) → (∀ e, e ∈ l → 0 < e.2) →
    ofold ledger_step acc ((λ e, mkQuarantineEntrySnapshot e.1 e.2) <$> l) = Ok (list_to_map l ∪ acc)) as Hgen.
  { induction l as [|[k n] l IH]; intros acc Hnd Hl; cbn [fmap list_fmap ofold].
    - cbn. by rewrite (left_id_L ∅ (∪)).
    - cbn in Hnd. apply NoDup_cons in Hnd as [Hk Hnd]. rewrite not_elem_of_app in Hk. destruct Hk as [Hk1 Hk2].
      assert (acc !! k = None) as Hacc.
      { destruct (acc !! k) as [v|] eqn:E; [|done]. destruct Hk2. apply list_elem_of_fmap. exists (k, v). split; [done|]. by apply elem_of_map_to_list. }
      assert (ledger_step acc (mkQuarantineEntrySnapshot (k, n).1 (k, n).2) = Ok (<[k := n]> acc)) as ->.
      { unfold ledger_step. cbn. rewrite Hacc, (proj2 (Z.leb_gt _ _)) by (by apply (Hl (k, n)); left). done. }
      cbn [mbind outcome_bind]. rewrite IH.
      + f_equal. cbn [list_to_map foldr]. rewrite <- insert_union_l, <- insert_union_r; [done|]. by apply not_elem_of_list_to_map_1.
      + rewrite map_to_list_insert by done. cbn. rewrite <- Permutation_middle. by apply NoDup_cons; rewrite not_elem_of_app.
      + intros e He. apply Hl. by right. }
  rewrite Hgen.
  - assert (NoDup iter.*1) as Hnd by (rewrite Hi; apply NoDup_fst_map_to_list).
    by rewrite (right_id_L ∅ (∪)), (list_to_map_proper _ _ Hnd Hi), list_to_map_to_list.
  - rewrite map_to_list_empty. cbn. rewrite app_nil_r, Hi. apply NoDup_fst_map_to_list.
  - intros [k n] Hin. rewrite Hi in Hin. apply elem_of_map_to_list in Hin. by eapply Hp.
Qed.

(** ** The events of the block *)

Lemma omap_bridge {A} (f : Sys.SystemEvent → option A) l :
  (∀ e, bridge_event e = false → f e = None) → omap f l = omap f (bridge_events l).
Proof.
  intros Hf. induction l as [|e l IH]; [done|]. unfold bridge_events. rewrite filter_cons. cbn [omap list_omap].
  case_decide as He; cbn [omap list_omap]; [by rewrite IH|]. by rewrite Hf, IH by (by apply not_true_iff_false).
Qed.

Lemma quarantine_frame acc l :
  ofold (quarantine_step blake3) acc (convert_system_event <$> l) = ofold (quarantine_step blake3) acc (convert_system_event <$> bridge_events l).
Proof.
  revert acc. induction l as [|e l IH]; intros acc; [done|]. unfold bridge_events. rewrite filter_cons. cbn [fmap list_fmap ofold].
  case_decide as He; cbn [fmap list_fmap ofold].
  - destruct (quarantine_step blake3 acc (convert_system_event e)); cbn [mbind outcome_bind]; [apply IH|done..].
  - assert (quarantine_step blake3 acc (convert_system_event e) = Ok acc) as -> by (destruct acc; by destruct e). apply IH.
Qed.

Lemma index_terminal l id :
  is_Some (we_terminal (index_withdrawal_events (convert_system_event <$> l)).1 !! id) ↔ id ∈ omap terminal_withdrawal l.
Proof.
  induction l as [|e l IH] using rev_ind; [cbn; rewrite lookup_empty, elem_of_nil; by split; [intros [? ?]|]|].
  rewrite fmap_app. change (convert_system_event <$> [e]) with [convert_system_event e]. rewrite index_snoc, omap_app, elem_of_app, <- IH. destruct (index_withdrawal_events _) as [we vs]. cbn [fst].
  destruct e; cbn; rewrite ?elem_of_nil, ?list_elem_of_singleton; try tauto; rewrite lookup_insert; case_decide; naive_solver.
Qed.

Lemma foldl_delete_lookup {A} ids (m : gmap Z A) id :
  foldl (λ m id, delete id m) m ids !! id = if decide (id ∈ ids) then None else m !! id.
Proof.
  revert m. induction ids as [|i ids IH]; intros m; cbn [foldl]; [by rewrite decide_False by apply not_elem_of_nil|].
  rewrite IH, lookup_delete. destruct (decide (id ∈ ids)); [rewrite decide_True by (by right); done|].
  destruct (decide (i = id)) as [->|]; [by rewrite decide_True by left|]. rewrite decide_False; [done|]. by rewrite elem_of_cons; intros [|].
Qed.

(** What the system phase does to the bridge. *)
Lemma phase_SOk s s' evs bl bd : system_phase blake3 s = SOk s' (evs, bl, bd) →
  evs = sort_system_events (sq_pending_system_events s) ∧ sq_pending_system_events s' = [] ∧
  sq_bridge s' = set_withdrawals (foldl (λ m id, delete id m) (bs_withdrawals (sq_bridge s)) (omap terminal_withdrawal evs)) (sq_bridge s).
Proof. unfold system_phase. intros H. sinv H. done. Qed.

Section block.
Context (s0 s s' : Sequencer) (evs : list Sys.SystemEvent) (bl : gmap Z (option Account)) (bd : BridgeBlockData) (w : BlockWitness).
Context (Hstart : bridge_start keccak256 s0) (Hrun : bridge_run blake3 keccak256 s0 s).
Context (Hphase : system_phase blake3 s = SOk s' (evs, bl, bd)) (Hwit : bridge_witness s0 s' evs w).

Lemma block_events : bridge_events evs = queued s.
Proof. destruct (phase_SOk _ _ _ _ _ Hphase) as (-> & _). apply bridge_events_sorted. Qed.

Lemma block_bridge : sq_bridge s' =
  set_withdrawals (foldl (λ m id, delete id m) (bs_withdrawals (sq_bridge s)) (omap terminal_withdrawal evs)) (sq_bridge s).
Proof. by destruct (phase_SOk _ _ _ _ _ Hphase) as (_ & _ & ?). Qed.

Lemma block_index : index_withdrawal_events (bw_system_events w) = index_withdrawal_events (witnessed s).
Proof.
  rewrite (bwt_events _ _ _ _ Hwit). unfold index_withdrawal_events, witnessed. rewrite <- block_events.
  apply witnessed_frame. intros [] e He. by destruct e.
Qed.

Lemma block_observed a : foldl observe_step a (bw_system_events w) = foldl observe_step a (witnessed s).
Proof.
  rewrite (bwt_events _ _ _ _ Hwit). unfold witnessed. rewrite <- block_events.
  apply witnessed_frame. intros [] e He. by destruct e.
Qed.

Section withdrawals.
Context (we : WithdrawalEvents) (Hwe : withdrawal_run s0 s we) (Hmax : bs_next_withdrawal_id (sq_bridge s) < int_max U64).

(** The leaf of a withdrawal after the block. *)
Lemma post_leaf id : bs_withdrawals (sq_bridge s') !! id =
  match we_terminal we !! id with Some _ => None | None => bs_withdrawals (sq_bridge s) !! id end.
Proof.
  rewrite block_bridge. cbn [set_withdrawals bs_withdrawals]. rewrite foldl_delete_lookup.
  assert (id ∈ omap terminal_withdrawal evs ↔ is_Some (we_terminal we !! id)) as Hiff.
  { rewrite (omap_bridge terminal_withdrawal), block_events by (by intros []). rewrite <- index_terminal.
    change (convert_system_event <$> queued s) with (witnessed s). by rewrite (wr_index _ _ _ Hwe). }
  destruct (we_terminal we !! id) as [e|].
  - rewrite decide_True; [done|]. apply Hiff. eauto.
  - rewrite decide_False; [done|]. rewrite Hiff. by intros [? ?].
Qed.

Let pre := withdrawal_snapshot <$> bs_withdrawals (sq_bridge s0).
Let post := withdrawal_snapshot <$> bs_withdrawals (sq_bridge s').

Lemma pre_checked e : e ∈ btree_iter pre → check_pre_withdrawal (we_terminal we) post e = [].
Proof.
  destruct e as [id x]. unfold btree_iter. rewrite sort_by_key_perm, elem_of_map_to_list. unfold pre. rewrite lookup_fmap. intros Hx.
  unfold check_pre_withdrawal, post. rewrite lookup_fmap, post_leaf. destruct (wr_leaves _ _ _ Hwe id) as [Hc Ht _].
  destruct (we_terminal we !! id); [done|]. destruct (we_created we !! id); [destruct Hc as [Hc _]; by rewrite Hc in Hx|].
  rewrite Hc, Hx. by rewrite decide_True.
Qed.

Lemma created_checked {E} e : e ∈ btree_iter (we_created we) → @check_created E (we_terminal we) post e = Ok [].
Proof.
  destruct e as [id x]. unfold btree_iter. rewrite sort_by_key_perm, elem_of_map_to_list. intros Hx.
  destruct (wr_leaves _ _ _ Hwe id) as [Hc _ Hl]. rewrite Hx in Hc. destruct Hc as (_ & v & Hv & ->). destruct (Hl v Hv) as (_ & _ & Hr).
  unfold check_created, created_event, post. cbn [convert_system_event]. rewrite chk_in by int_lia. rewrite lookup_fmap, post_leaf.
  destruct (we_terminal we !! id); [done|]. rewrite Hv. cbn. rewrite !Z.eqb_refl, !bool_decide_eq_false_2 by (intros Hne; by apply Hne). done.
Qed.

Lemma terminal_checked {E} e : e ∈ btree_iter (we_terminal we) → @check_terminal E pre post we e = Ok [].
Proof.
  destruct e as [id x]. unfold btree_iter. rewrite sort_by_key_perm, elem_of_map_to_list. intros Hx.
  destruct (wr_leaves _ _ _ Hwe id) as [Hc Ht Hl]. rewrite Hx in Ht. destruct Ht as (v & Hv & _ & Hok). destruct (Hl v Hv) as (_ & _ & Hr).
  assert (terminal_source pre post (we_created we) id = Some (wl_account_id v, wl_amount_nanos v, wl_expiry_height v)) as Hsrc.
  { unfold terminal_source, pre, post. rewrite !lookup_fmap, post_leaf, Hx. rewrite Hv in Hc. destruct (we_created we !! id) as [c|].
    - destruct Hc as (-> & v' & [= <-] & ->). cbn. by rewrite Z.abs_eq by lia.
    - cbn in Hc. rewrite <- Hc. done. }
  unfold check_terminal. rewrite Hsrc. destruct x; try done; cbn in Hok |- *.
  - destruct Hok as (-> & -> & Hr'). rewrite Z.eqb_refl, chk_in, bool_decide_eq_false_2 by (int_lia || (intros Hne; by apply Hne)).
    destruct reason as [|h]; [done|]. destruct Hr' as [Hlt Hin]. rewrite (proj2 (Z.leb_gt _ _)) by lia.
    by rewrite bool_decide_eq_false_2 by (intros Hne; by apply Hne).
  - destruct Hok as [-> ->]. by rewrite Z.eqb_refl, chk_in, bool_decide_eq_false_2 by (int_lia || (intros Hne; by apply Hne)).
Qed.

Lemma withdrawals_verify {E} : @verify_withdrawal_transition E w = Ok [].
Proof.
  destruct (bwt_pre _ _ _ _ Hwit) as (i0 & _ & Hpre), (bwt_post _ _ _ _ Hwit) as (i1 & _ & Hpost).
  assert (∀ id v, bs_withdrawals (sq_bridge s') !! id = Some v → wl_withdrawal_id v = id ∧ id < bs_next_withdrawal_id (sq_bridge s)) as Hids.
  { intros id v. rewrite post_leaf. destruct (we_terminal we !! id); [done|]. intros Hv.
    destruct (lo_leaf _ _ _ _ _ (wr_leaves _ _ _ Hwe id) v Hv) as (? & ? & _). done. }
  assert (bs_next_withdrawal_id (sq_bridge s') = bs_next_withdrawal_id (sq_bridge s) ∧
    bs_observed_l1_height (sq_bridge s') = bs_observed_l1_height (sq_bridge s)) as [Hnx Hobs] by (by rewrite block_bridge).
  unfold verify_withdrawal_transition. rewrite Hpre, Hpost, !snapshot_withdrawals, block_index, (wr_index _ _ _ Hwe), block_observed.
  2: { intros id v Hv. by apply Hids. }
  2: { intros id v Hv. by apply (bst_leaves _ _ Hstart) in Hv as (? & _). }
  cbn [bridge_state_snapshot br_observed_l1_height br_next_withdrawal_id]. rewrite (wr_observed _ _ _ Hwe).
  destruct (omapM_nil (E := E) (check_created (we_terminal we) post) (btree_iter (we_created we))) as (v8 & H8 & C8); [apply created_checked|].
  destruct (omapM_nil (E := E) (check_terminal pre post we) (btree_iter (we_terminal we))) as (v9 & H9 & C9); [apply terminal_checked|].
  fold pre post. rewrite H8. cbn [mbind outcome_bind]. rewrite H9. cbn [mbind outcome_bind]. rewrite C8, C9, Hnx, Hobs, Z.eqb_refl.
  rewrite <- (wr_next _ _ _ Hwe), sat_in, Z.eqb_refl; last first.
  { pose proof (bst_next _ _ Hstart). pose proof (wr_next _ _ _ Hwe). int_lia. }
  assert (btree_iter pre ≫= check_pre_withdrawal (we_terminal we) post = []) as ->.
  { pose proof pre_checked as Hp. induction (btree_iter pre) as [|e l IH]; [done|]. rewrite bind_cons, Hp by left. apply IH.
    intros x Hx. apply Hp. by right. }
  destruct (last (btree_iter post)) as [[id x]|] eqn:Hlast; [|done].
  apply last_Some_elem_of in Hlast. unfold btree_iter, post in Hlast. rewrite sort_by_key_perm, elem_of_map_to_list, lookup_fmap in Hlast.
  apply fmap_Some in Hlast as (v & Hv & _). destruct (Hids id v Hv). by rewrite (proj2 (Z.leb_gt _ _)) by lia.
Qed.
End withdrawals.

(** ** Deposits *)

Let D := deposits_of (queued s).

Lemma block_deposits : new_deposits evs = l1_deposit_witness <$> D.
Proof.
  unfold D. unfold new_deposits. rewrite omap_bridge, block_events by (by intros []). unfold deposits_of. generalize (queued s) as l.
  intros l. induction l as [|e l IH]; [done|]. by destruct e; cbn; rewrite ?IH.
Qed.

Lemma deposit_amount d n : amount_token_units_to_i64_nanos (ld_amount_token_units d) = Ok n → deposit_amount_nanos (l1_deposit_witness d) = Some n.
Proof.
  unfold amount_token_units_to_i64_nanos, amount_token_units_to_nanos, deposit_amount_nanos. cbn. destruct (_ =? 0); [done|].
  unfold NANOS_PER_TOKEN_UNIT. destruct (chk U64 _) as [z|]; [|done]. cbn. destruct (chk I64 z); [|done]. cbn. by intros [= <-].
Qed.

(** Disposition events match the deposits one by one. *)
Lemma dispositions_match l : Forall (disposed blake3) l →
  Forall2 (λ x d, ∃ id n, x = (id, n, ld_deposit_id d, ld_deposit_root d, ld_sybil_account_key d) ∧
      deposit_amount_nanos (l1_deposit_witness d) = Some n ∧ ∀ i, id = Some i → ld_sybil_account_key d = account_key blake3 i)
    (omap (λ e, disposition (convert_system_event e)) l) (deposits_of l).
Proof.
  induction 1 as [|e l He _ IH]; [constructor|]. destruct e; cbn; try exact IH.
  - constructor; [|exact IH]. destruct He as [Hk Hn]. eexists _, _. split_and!; [done|by apply deposit_amount|]. by intros ? [= <-].
  - constructor; [|exact IH]. eexists _, _. split_and!; [done|by apply deposit_amount|done].
Qed.

Lemma block_dispositions : omap disposition (bw_system_events w) = omap (λ e, disposition (convert_system_event e)) (queued s).
Proof.
  rewrite (bwt_events _ _ _ _ Hwit), <- block_events, <- omap_bridge by (by intros []).
  generalize evs as l. intros l. induction l as [|e l IH]; [done|]. cbn. by rewrite IH.
Qed.

Lemma flags_nil {A B} (f : A → list B) l : (∀ x, x ∈ l → f x = []) → l ≫= f = [].
Proof.
  intros Hf. induction l as [|x l IH]; [done|]. rewrite bind_cons, Hf by left. apply IH. intros y Hy. apply Hf. by right.
Qed.

Lemma enumerate_elem {A} (l : list A) i x : (i, x) ∈ enumerate l → l !! i = Some x.
Proof.
  unfold enumerate. intros (k & Hk)%list_elem_of_lookup_1. apply lookup_zip_Some in Hk as [Hs Hx].
  apply lookup_seq in Hs as [-> _]. done.
Qed.

Lemma delta_matches roots : roots = ld_deposit_root <$> D → deposit_run blake3 keccak256 s0 s →
  verify_l1_deposit_events_match_delta blake3 w roots = [].
Proof.
  intros -> Hd. pose proof (dispositions_match _ (dr_disposed _ _ _ _ Hd)) as Hm. unfold verify_l1_deposit_events_match_delta.
  rewrite block_dispositions, (bwt_deposits _ _ _ _ Hwit). cbn [da_new_deposits]. rewrite block_deposits.
  rewrite length_fmap, (Forall2_length _ _ _ Hm). fold D. rewrite bool_decide_eq_true_2 by done. cbn [negb flag app].
  apply flags_nil. intros [i x] Hx%enumerate_elem. destruct (Forall2_lookup_l _ _ _ _ _ Hm Hx) as (d & Hdi & id & n & -> & Hn & Hk).
  fold D in Hdi. unfold check_disposition. rewrite !list_lookup_fmap, Hdi. cbn -[deposit_amount_nanos]. rewrite Hn.
  rewrite !Z.eqb_refl, !bool_decide_eq_false_2 by (intros Hne; by apply Hne). cbn [negb flag app].
  destruct id as [id|]; [|done]. rewrite bool_decide_eq_false_2; [done|]. intros Hne. apply Hne. by rewrite (Hk id eq_refl).
Qed.

(** The log of the deposits, extended by those of the block. *)
Lemma block_log : deposit_run blake3 keccak256 s0 s → ∃ log, deposit_log keccak256 s0 log ∧ deposit_log keccak256 s' (log ++ D) ∧
  Z.of_nat (length (log ++ D)) ≤ deposit_tree_capacity.
Proof.
  intros [Hc Ha Hr Hi _ Hcap]. destruct (bst_log _ _ Hstart) as (log & Hlog & Hl). exists log. fold D in Hc, Ha, Hr, Hi.
  pose proof Hlog as (Hc0 & Hr0 & Hrep0 & Hi0). rewrite Hc0 in *. split; [done|]. split; [|rewrite length_app; lia].
  destruct (append_all_represents keccak256 _ _ (deposit_leaf_for_protocol <$> D) Hrep0) as (f & Hf & Hrep).
  { rewrite !length_fmap. lia. }
  rewrite !length_fmap in Hf. rewrite Ha in Hf. injection Hf as <- Hroots. rewrite <- list_fmap_compose in *.
  unfold deposit_log. rewrite block_bridge. cbn [set_withdrawals bs_deposit_cursor bs_deposit_root bs_deposit_frontier].
  rewrite length_app, fmap_app. split_and!.
  - lia.
  - rewrite Hr, Hroots. destruct (decide (D = [])) as [->|Hne]; [cbn [length seq fmap list_fmap last default from_option]; rewrite app_nil_r; exact Hr0|].
    assert (∃ n, length D = S n) as [n Hn] by (destruct D; [done|]; by eexists). rewrite Hn, seq_S, fmap_app, last_app. cbn [last fmap list_fmap default from_option].
    f_equal. rewrite take_ge; [done|]. rewrite length_app, !length_fmap. lia.
  - exact Hrep.
  - intros i d. rewrite lookup_app_Some. intros [Hd|[Hle Hd]]; [by apply Hi0|]. rewrite (Hi _ _ Hd). lia.
Qed.

Lemma deposits_verify : deposit_run blake3 keccak256 s0 s → bs_deposit_cursor (sq_bridge s0) < deposit_tree_capacity →
  verify_deposit_accumulator blake3 keccak256 w = [].
Proof.
  intros Hd Hlt. pose proof (start_cursor s0 Hstart) as Hc0. pose proof (delta_matches _ eq_refl Hd) as Hdelta.
  destruct Hd as [Hc Ha Hr Hi _ Hcap]. fold D in Hc, Ha, Hr, Hi.
  destruct (bwt_pre _ _ _ _ Hwit) as (i0 & _ & Hpre), (bwt_post _ _ _ _ Hwit) as (i1 & _ & Hpost).
  assert (deposit_root_from_frontier keccak256 (bs_deposit_frontier (sq_bridge s0)) (bs_deposit_cursor (sq_bridge s0)) = Some (bs_deposit_root (sq_bridge s0))) as Hroot0.
  { destruct (bst_log _ _ Hstart) as (log & (Hcl & Hrl & Hrep & _) & _). rewrite Hcl in *. rewrite Hrl.
    pose proof (root_of_represents keccak256 _ _ Hrep) as Hx. rewrite length_fmap in Hx. by apply Hx. }
  assert (deposit_leaf_from_witness <$> (l1_deposit_witness <$> D) = deposit_leaf_for_protocol <$> D) as Hleaves.
  { by rewrite <- list_fmap_compose. }
  unfold verify_deposit_accumulator. rewrite Hpre, Hpost, (bwt_deposits _ _ _ _ Hwit), block_deposits.
  cbn [da_pre_count da_pre_frontier da_new_deposits bridge_state_snapshot br_deposit_cursor br_deposit_root].
  rewrite Hroot0, Hleaves, length_fmap, block_bridge. cbn [set_withdrawals bs_deposit_cursor bs_deposit_root]. rewrite <- Hc.
  change deposit_tree_capacity with 4294967296 in *. rewrite chk_in by int_lia.
  unfold deposit_frontier_prefix_roots. rewrite post_count_ok_iff, length_fmap, <- Hc by lia.
  change deposit_tree_capacity with 4294967296. rewrite decide_True by lia. cbn [mbind option_bind]. rewrite Ha, option_fmap_Some. cbn [snd].
  rewrite !Z.eqb_refl, Hdelta, <- Hr, !bool_decide_eq_false_2 by (intros Hne; by apply Hne). cbn [negb flag app].
  rewrite !flags_nil; [done|..].
  - intros [d r] Hdr. apply list_elem_of_lookup_1 in Hdr as (k & Hk). apply lookup_zip_Some in Hk as [Hk1 Hk2].
    rewrite list_lookup_fmap in Hk1. rewrite list_lookup_fmap in Hk2. destruct (D !! k); simplify_eq/=. by rewrite bool_decide_eq_false_2 by (intros Hne; by apply Hne).
  - intros [k d] Hkd%enumerate_elem. rewrite list_lookup_fmap in Hkd. destruct (D !! k) as [x|] eqn:Hx; simplify_eq/=.
    by rewrite (Hi k x Hx), Z.eqb_refl.
Qed.

Lemma quarantine_verifies : quarantine_run blake3 s0 s →
  ∃ r, verify_quarantine_transition blake3 w = Ok r ∧ vr_valid r = true.
Proof.
  intros [Hq Hp]. destruct (bwt_pre _ _ _ _ Hwit) as (i0 & Hi0 & Hpre), (bwt_post _ _ _ _ Hwit) as (i1 & Hi1 & Hpost).
  unfold verify_quarantine_transition. rewrite Hpre, Hpost. cbn [bridge_state_snapshot br_quarantine].
  rewrite (ledger_map_perm _ _ Hi0) by apply (bst_quarantine _ _ Hstart).
  assert (bs_quarantine (sq_bridge s') = bs_quarantine (sq_bridge s)) as Hqs by (by rewrite block_bridge).
  rewrite (ledger_map_perm _ _ Hi1) by (by rewrite Hqs). rewrite Hqs. cbn [mbind outcome_bind].
  assert (bool_decide (bw_previous_header w = None) && negb (bool_decide (bs_quarantine (sq_bridge s0) = ∅)) = false) as ->.
  { case_bool_decide as Hg; [|done]. apply (bwt_genesis _ _ _ _ Hwit) in Hg. by rewrite bool_decide_eq_true_2. }
  cbn [flag app]. rewrite (bwt_events _ _ _ _ Hwit), quarantine_frame, block_events. change (convert_system_event <$> queued s) with (witnessed s).
  rewrite Hq. cbn [mbind outcome_bind]. rewrite bool_decide_eq_false_2 by (intros Hne; by apply Hne). by eexists.
Qed.

Lemma next_start : bs_next_withdrawal_id (sq_bridge s) < int_max U64 → bridge_start keccak256 s'.
Proof.
  intros Hmax. destruct Hrun as [Hw Hd Hq]. destruct (Hw Hmax) as [we Hwe]. split.
  - rewrite block_bridge. cbn. rewrite (wr_next _ _ _ Hwe). pose proof (bst_next _ _ Hstart). lia.
  - intros id v. rewrite (post_leaf we Hwe). destruct (wr_leaves _ _ _ Hwe id) as [_ Ht Hl].
    destruct (we_terminal we !! id); [done|]. intros Hv. destruct (Hl v Hv) as (? & ? & ?). rewrite block_bridge. split; [done|]. split; [done|]. split; [done|]. by apply Ht.
  - destruct (block_log Hd) as (log & _ & ? & ?). eauto.
  - rewrite block_bridge. apply (qr_positive _ _ _ Hq).
Qed.
End block.
End verified.

(** ** Properties *)

(** The verifier accepts the bridge part of every block: from any ledger a
    block can start from, after any run of sequencer operations and the system
    phase, the witness passes the withdrawal, deposit-accumulator and quarantine
    checks, and the resulting ledger is one the next block can start from (so
    this holds for every block of a chain).  Withdrawal ids must not be
    exhausted and the deposit tree not full. *)
Theorem bridge_transition_verifies (blake3 sha256 keccak256 : Bytes → Bytes) (s0 s s' : Sequencer) (evs : list Sys.SystemEvent)
    (bl : gmap Z (option Account)) (bd : BridgeBlockData) (w : BlockWitness) :
  sq_pending_system_events s0 = [] → bridge_start keccak256 s0 → rtc (sys_step blake3 sha256 keccak256) s0 s →
  bs_next_withdrawal_id (sq_bridge s) < int_max U64 → bs_deposit_cursor (sq_bridge s0) < deposit_tree_capacity →
  system_phase blake3 s = SOk s' (evs, bl, bd) → bridge_witness s0 s' evs w →
  @verify_withdrawal_transition Empty_set w = Ok [] ∧ verify_deposit_accumulator blake3 keccak256 w = [] ∧
  (∃ r, verify_quarantine_transition blake3 w = Ok r ∧ vr_valid r = true) ∧ bridge_start keccak256 s'.
Proof.
  intros He Hst Hsteps Hmax Hcap Hph Hwit. pose proof (start_cursor _ _ Hst) as [Hc0 _]. pose proof (bst_next _ _ Hst) as Hn0.
  pose proof (sys_steps_run blake3 sha256 keccak256 s0 Hc0 Hn0 _ _ Hsteps (start_run _ _ _ He Hst)) as Hrun.
  destruct (run_withdrawals _ _ _ _ Hrun Hmax) as [we Hwe]. split_and!.
  - by eapply withdrawals_verify.
  - eapply deposits_verify; eauto using run_deposits.
  - eapply quarantine_verifies; eauto using run_quarantine.
  - by eapply next_start.
Qed.

(** ** Witnesses *)

Definition phase_result (s : Sequencer) : Sequencer * list Sys.SystemEvent :=
  match system_phase ex_hash s with SOk s' (evs, _, _) => (s', evs) | _ => (s, []) end.
Definition ex_s4 : Sequencer * list Sys.SystemEvent := phase_result ex_s3.
Lemma ex_s4_ok : ∃ bl bd, system_phase ex_hash ex_s3 = SOk ex_s4.1 (ex_s4.2, bl, bd).
Proof. eexists _, _. vm_compute. reflexivity. Qed.

(** A witness with nothing but a bridge transition. *)
Definition bridge_sidecar (s : Sequencer) : StateSidecarSnapshot :=
  mkStateSidecarSnapshot (bridge_state_snapshot (map_to_list (bs_quarantine (sq_bridge s))) (sq_bridge s)) [] [] [] [].
Definition bridge_block (s0 s' : Sequencer) (evs : list Sys.SystemEvent) : BlockWitness :=
  let header := mkWitnessBlockHeader 13 [] [] [] 0 0 0 in
  mkBlockWitness header (Some header) [] [] [] (convert_system_event <$> evs)
    (mkDepositAccumulatorWitness (bs_deposit_frontier (sq_bridge s0)) (bs_deposit_cursor (sq_bridge s0)) (new_deposits evs))
    [] ∅ 0 0 [] [] [] [] [] [] (bridge_sidecar s') (bridge_sidecar s0) [].

Lemma bridge_block_witness s0 s' evs : bridge_witness s0 s' evs (bridge_block s0 s' evs).
Proof. split; [..|reflexivity|reflexivity|discriminate]; eexists; (split; [reflexivity|reflexivity]). Qed.

Definition ex_bridge_block : BlockWitness := bridge_block ex_seq ex_s4.1 ex_s4.2.

(** The block deposits, withdraws and refunds: four bridge events. *)
Lemma ex_bridge_events : length (bw_system_events ex_bridge_block) = 4%nat.
Proof. vm_compute. reflexivity. Qed.

Lemma ex_seq_bridge_start : bridge_start ex_hash ex_seq.
Proof.
  split.
  - cbn. lia.
  - intros id v. cbn. by rewrite lookup_empty.
  - exists []. split; [exact ex_seq_log|]. change deposit_tree_capacity with 4294967296. cbn. lia.
  - intros k n. cbn. by rewrite lookup_empty.
Qed.

Lemma bridge_transition_verifies_witness :
  @verify_withdrawal_transition Empty_set ex_bridge_block = Ok [] ∧ verify_deposit_accumulator ex_hash ex_hash ex_bridge_block = [] ∧
  (∃ r, verify_quarantine_transition ex_hash ex_bridge_block = Ok r ∧ vr_valid r = true) ∧ bridge_start ex_hash ex_s4.1.
Proof.
  destruct ex_s1_ok as [r1 H1], ex_s2_ok as [r2 H2], ex_s3_ok as [r3 H3].
  destruct ex_s4_ok as (bl & bd & H4).
  apply (bridge_transition_verifies ex_hash ex_hash ex_hash ex_seq ex_s3 ex_s4.1 ex_s4.2 bl bd ex_bridge_block).
  - reflexivity.
  - exact ex_seq_bridge_start.
  - eapply rtc_l; [exact (sys_deposit _ _ _ _ _ _ _ H1)|]. eapply rtc_l; [exact (sys_request _ _ _ _ _ _ _ H2)|].
    eapply rtc_l; [exact (sys_height _ _ _ _ _ _ _ H3)|]. apply rtc_refl.
  - vm_compute. reflexivity.
  - vm_compute. reflexivity.
  - exact H4.
  - apply bridge_block_witness.
Defined.
