(* ===== verification/SidecarMarkets.v ===== *)
(** * SidecarMarkets: market leaves and their transition check

    Models the market part of the committed sidecar: the leaves the sequencer
    publishes ([market_snapshots], [market_group_snapshots] and
    [state_sidecar_snapshot] of [crates/matching-sequencer/src/block.rs], the
    price carry-over [merge_prices] of [price_tracker.rs]) and the checks of
    [crates/sybil-verifier/src/sidecar.rs] on them, up to the whole layer
    [verify_sidecar]. *)
From S2P Require Import Prelude Types Order Market Account OrderBook Snapshots Digest Finalize Witness Sidecar MatchVerifier L1Protocol AccountKeys SystemVerifier Oracle Bridge Sequencer MarketLifecycle BridgeSidecar.

#[global] Instance OracleSourceSnapshot_eq_dec : EqDecision OracleSourceSnapshot.
Proof. solve_decision. Defined.
#[global] Instance ResolutionRecordSnapshot_eq_dec : EqDecision ResolutionRecordSnapshot.
Proof. solve_decision. Defined.
#[global] Instance MarketStatusSnapshot_eq_dec : EqDecision MarketStatusSnapshot.
Proof. solve_decision. Defined.

(** ** The committed leaves *)

Definition oracle_source_snapshot (source : OracleSource) : OracleSourceSnapshot :=
  match source with SourceIsAdmin => SourceAdmin | SourceIsDataFeed feed_id => SourceDataFeed feed_id end.

Definition resolution_record_snapshot (record : ResolutionRecord) : ResolutionRecordSnapshot :=
  mkResolutionRecordSnapshot (rec_payout_nanos record) (oracle_source_snapshot (rec_resolved_by record)) (rec_resolved_at_ms record).

Definition market_status_snapshot (status : MarketStatus) : MarketStatusSnapshot :=
  match status with Active => StatusActive | Resolved record => StatusResolved (resolution_record_snapshot record) end.

Definition append_string (text : string) : Bytes := le_bytes 8 (Z.of_nat (length (string_bytes text))) ++ string_bytes text.

Definition metadata_payload (metadata : option MarketMetadata) : Bytes :=
  match metadata with
  | None => [0]
  | Some m =>
      let tags := sort_tags (mm_tags m) in
      [1] ++ append_string (mm_description m) ++ append_string (mm_category m) ++
      le_bytes 8 (Z.of_nat (length tags)) ++ concat (append_string <$> tags) ++
      append_string (mm_resolution_criteria m) ++ le_bytes 8 (mm_expiry_timestamp_ms m) ++ le_bytes 8 (mm_created_at_ms m) ++
      append_string (effective_template m) ++
      match mm_creation_key m with None => [0] | Some key => [1] ++ append_string key end
  end.

(** The length-prefixed, domain-separated payload of [state_schema.rs]. *)
Definition metadata_preimage (payload : Bytes) : Bytes :=
  string_bytes "sybil/state/market-meta" ++ le_bytes 8 (Z.of_nat (length payload)) ++ payload.

Section hashes.
Context (sha256 : Bytes → Bytes).

Definition market_metadata_digest (metadata : option MarketMetadata) : Bytes :=
  match m ← metadata; mm_committed_metadata_digest m with
  | Some digest => digest
  | None => sha256 (metadata_preimage (metadata_payload metadata))
  end.

Definition market_snapshot (l : MarketLifecycle) (last_clearing_prices : gmap Z (list Nanos)) (market : Market) : MarketSnapshot :=
  mkMarketSnapshot (mk_id market) (mk_name market) 2 (market_status_snapshot (market_status l (mk_id market)))
    (market_metadata_digest (lc_market_metadata l !! mk_id market)) (template_for_market l (mk_id market))
    (default [] (last_clearing_prices !! mk_id market)).

Definition market_id_le (a b : MarketSnapshot) : Prop := msn_market_id a ≤ msn_market_id b.
#[global] Instance market_id_le_dec : RelDecision market_id_le.
Proof. intros a b. unfold market_id_le. apply _. Defined.

(** Sorted by id, so the iteration order of the market map does not matter. *)
Definition market_snapshots (markets : MarketSet) (l : MarketLifecycle) (last_clearing_prices : gmap Z (list Nanos)) : list MarketSnapshot :=
  stable_sort market_id_le ((λ e, market_snapshot l last_clearing_prices e.2) <$> map_to_list (ms_markets markets)).

(** The group id is the position in the vector. *)
Definition market_group_snapshots (groups : list MarketGroup) : list MarketGroupSnapshot :=
  imap (λ index group, mkMarketGroupSnapshot (Z.of_nat index) (mg_name group) (mg_creation_key group) (stable_sort Z.le (mg_markets group))) groups.

Definition state_sidecar_snapshot_from_resting_orders {E} (quarantine_iter : list (Bytes * Z)) (bridge : BridgeState) (resting_orders : list RestingOrder)
    (markets : MarketSet) (market_groups : list MarketGroup) (lifecycle : MarketLifecycle) (last_clearing_prices : gmap Z (list Nanos))
    : outcome E StateSidecarSnapshot :=
  reservations ← reservation_snapshots_from_resting_orders resting_orders;
  Ok (mkStateSidecarSnapshot (bridge_state_snapshot quarantine_iter bridge) (market_snapshots markets lifecycle last_clearing_prices)
        (market_group_snapshots market_groups) (resting_order_snapshots resting_orders) reservations).

Definition state_sidecar_snapshot {E} (quarantine_iter : list (Bytes * Z)) (s : MarketSequencer) (last_clearing_prices : gmap Z (list Nanos))
    : outcome E StateSidecarSnapshot :=
  state_sidecar_snapshot_from_resting_orders quarantine_iter (sq_bridge (mq_seq s)) (ob_orders (sq_order_book (mq_seq s)))
    (mq_markets s) (mq_groups s) (mq_lifecycle s) last_clearing_prices.
End hashes.

(** ** Prices carried between blocks *)

(** The stored prices after the block, and the view witnessed for it.
    [fresh] holds the solver's prices. *)
Definition merge_prices (fresh : option (list (Z * list Nanos))) (markets_with_fills active_markets position_markets : gset Z)
    (last_clearing_prices : gmap Z (list Nanos)) : gmap Z (list Nanos) * gmap Z (list Nanos) :=
  let stored := match fresh with
                | None => last_clearing_prices
                | Some prices => foldl (λ m e, if decide (e.1 ∈ markets_with_fills) then <[e.1 := e.2]> m else m) last_clearing_prices prices
                end in
  (stored, filter (λ e, e.1 ∈ active_markets ∨ e.1 ∈ position_markets) stored).

(** Tradeable markets, and the markets whose status is resolved. *)
Definition tradeable_markets (s : MarketSequencer) : gset Z :=
  list_to_set (filter (λ id, is_tradeable (market_status (mq_lifecycle s) id) = true) ((λ e, mk_id e.2) <$> map_to_list (ms_markets (mq_markets s)))).
Definition is_resolved (status : MarketStatus) : bool := match status with Resolved _ => true | Active => false end.
Definition resolved_market_ids (statuses_iter : list (Z * MarketStatus)) : list MarketId :=
  (filter (λ e, is_resolved e.2 = true) statuses_iter).*1.

(** ** The verifier's checks on market leaves *)

Definition market_leaf_violations (m : MarketSnapshot) : list Violation :=
  let price_count := Z.of_nat (length (msn_last_clearing_prices m)) in
  flag (negb (price_count =? 0) && negb (price_count =? msn_num_outcomes m)) VK.SidecarMarketStatusMismatch ++
  (price ← msn_last_clearing_prices m; flag (negb (price_is_in_protocol_range price)) VK.SidecarMarketStatusMismatch).

Definition keyed_market_step (acc : gmap Z MarketSnapshot * list Violation) (m : MarketSnapshot) : gmap Z MarketSnapshot * list Violation :=
  let '(out, violations) := acc in
  (<[msn_market_id m := m]> out,
   violations ++ market_leaf_violations m ++ flag (bool_decide (is_Some (out !! msn_market_id m))) VK.SidecarMarketStatusMismatch).
Definition keyed_markets (markets : list MarketSnapshot) : gmap Z MarketSnapshot * list Violation :=
  foldl keyed_market_step (∅, []) markets.

Definition market_resolution_step (acc : gmap Z Nanos * list Violation) (event : Event.SystemEventWitness) : gmap Z Nanos * list Violation :=
  let '(resolved, violations) := acc in
  match event with
  | Event.MarketResolved market_id payout_nanos _ =>
      if payout_nanos >? NANOS_PER_DOLLAR then (resolved, violations ++ [VK.SettlementOverflow]) else
      (<[market_id := payout_nanos]> resolved,
       violations ++ flag (bool_decide (is_Some (resolved !! market_id))) VK.SidecarMarketStatusMismatch)
  | _ => acc
  end.
Definition market_resolution_events (events : list Event.SystemEventWitness) : gmap Z Nanos * list Violation :=
  foldl market_resolution_step (∅, []) events.

(** The committed status is a resolution with this payout. *)
Definition resolved_with (payout_nanos : Nanos) (status : MarketStatusSnapshot) : bool :=
  match status with StatusResolved record => rr_payout_nanos record =? payout_nanos | StatusActive => false end.

Definition check_pre_market (post : gmap Z MarketSnapshot) (events : gmap Z Nanos) (e : Z * MarketSnapshot) : list Violation :=
  let '(market_id, pre_market) := e in
  match post !! market_id with
  | None => [VK.SidecarMarketStatusMismatch]
  | Some post_market =>
      flag (bool_decide (msn_name pre_market ≠ msn_name post_market) || negb (msn_num_outcomes pre_market =? msn_num_outcomes post_market) ||
            bool_decide (msn_metadata_digest pre_market ≠ msn_metadata_digest post_market) ||
            bool_decide (msn_resolution_template pre_market ≠ msn_resolution_template post_market)) VK.SidecarMarketStatusMismatch ++
      match events !! market_id with
      | Some payout_nanos => flag (negb (resolved_with payout_nanos (msn_status post_market))) VK.SidecarMarketStatusMismatch
      | None => flag (bool_decide (msn_status pre_market ≠ msn_status post_market)) VK.SidecarMarketStatusMismatch
      end
  end.

Definition check_clearing_entry (post : gmap Z MarketSnapshot) (e : Z * list Nanos) : list Violation :=
  match post !! e.1 with
  | Some post_market => flag (bool_decide (msn_last_clearing_prices post_market ≠ e.2)) VK.SidecarMarketStatusMismatch
  | None => [VK.SidecarMarketStatusMismatch]
  end.

Definition check_carried_price (clearing : gmap Z (list Nanos)) (post : gmap Z MarketSnapshot) (e : Z * MarketSnapshot) : list Violation :=
  if bool_decide (is_Some (clearing !! e.1)) then [] else
  match post !! e.1 with
  | None => []
  | Some post_market =>
      flag (bool_decide (msn_last_clearing_prices post_market ≠ msn_last_clearing_prices e.2)) VK.SidecarMarketStatusMismatch
  end.

Definition check_new_market (clearing : gmap Z (list Nanos)) (pre : gmap Z MarketSnapshot) (e : Z * MarketSnapshot) : list Violation :=
  flag (bool_decide (pre !! e.1 = None) && bool_decide (clearing !! e.1 = None) && bool_decide (msn_last_clearing_prices e.2 ≠ []))
    VK.SidecarMarketStatusMismatch.

Definition check_resolution_event (post : gmap Z MarketSnapshot) (e : Z * Nanos) : list Violation :=
  match post !! e.1 with
  | Some market => flag (negb (resolved_with e.2 (msn_status market))) VK.SidecarMarketStatusMismatch
  | None => [VK.SidecarMarketStatusMismatch]
  end.

Definition check_resolved_listed (post : gmap Z MarketSnapshot) (market_id : MarketId) : list Violation :=
  match msn_status <$> post !! market_id with
  | Some (StatusResolved _) => []
  | _ => [VK.SidecarMarketStatusMismatch]
  end.

Definition verify_market_transition (w : BlockWitness) : list Violation :=
  let '(pre, v1) := keyed_markets (ss_markets (bw_pre_state_sidecar w)) in
  let '(post, v2) := keyed_markets (ss_markets (bw_state_sidecar w)) in
  let '(events, v3) := market_resolution_events (bw_system_events w) in
  let clearing := bw_clearing_prices w in
  v1 ++ v2 ++ v3 ++
  (if bool_decide (is_Some (bw_previous_header w)) then
     (e ← btree_iter pre; check_pre_market post events e) ++
     (e ← map_to_list clearing; check_clearing_entry post e) ++
     (e ← btree_iter pre; check_carried_price clearing post e) ++
     (e ← btree_iter post; check_new_market clearing pre e)
   else []) ++
  (e ← btree_iter events; check_resolution_event post e) ++
  (m ← bw_resolved_markets w; check_resolved_listed post m).

(** ** The verifier's checks on market groups *)

Definition keyed_group_step (acc : gmap Z MarketGroupSnapshot * gset string * list Violation) (g : MarketGroupSnapshot)
    : gmap Z MarketGroupSnapshot * gset string * list Violation :=
  let '(out, creation_keys, violations) := acc in
  let '(creation_keys', v) :=
    match mgs_creation_key g with
    | None => (creation_keys, [])
    | Some key =>
        if negb (operator_creation_key_is_valid key) then (creation_keys, [VK.SidecarMarketGroupMismatch]) else
        ({[key]} ∪ creation_keys, flag (bool_decide (key ∈ creation_keys)) VK.SidecarMarketGroupMismatch)
    end in
  (<[mgs_group_id g := g]> out, creation_keys',
   violations ++ v ++ flag (bool_decide (is_Some (out !! mgs_group_id g))) VK.SidecarMarketGroupMismatch).
Definition keyed_market_groups (groups : list MarketGroupSnapshot) : gmap Z MarketGroupSnapshot * list Violation :=
  let '(out, _, violations) := foldl keyed_group_step (∅, ∅, []) groups in (out, violations).

Definition group_extension (event : Event.SystemEventWitness) : option (Z * MarketId) :=
  match event with Event.MarketGroupExtended group_id market_id => Some (group_id, market_id) | _ => None end.

Definition check_group (post : gmap Z MarketGroupSnapshot) (resolved : gset Z) (extensions : list (Z * MarketId)) (e : Z * MarketGroupSnapshot)
    : list Violation :=
  let '(group_id, pre_group) := e in
  let expected_after_resolution := filter (λ m, m ∉ resolved) (mgs_markets pre_group) in
  let expected_absent := Z.of_nat (length expected_after_resolution) <? 2 in
  match post !! group_id with
  | None => flag (negb expected_absent) VK.SidecarMarketGroupMismatch
  | Some post_group =>
      flag (bool_decide (mgs_name pre_group ≠ mgs_name post_group)) VK.SidecarMarketGroupMismatch ++
      flag (bool_decide (mgs_creation_key pre_group ≠ mgs_creation_key post_group)) VK.SidecarMarketGroupMismatch ++
      let allowed_additions := (filter (λ x, x.1 = group_id) extensions).*2 in
      let expected_markets : gset Z := list_to_set (expected_after_resolution ++ allowed_additions) in
      let post_markets : gset Z := list_to_set (mgs_markets post_group) in
      flag (bool_decide (post_markets ≠ expected_markets)) VK.SidecarMarketGroupMismatch
  end.

Definition verify_market_group_transition (w : BlockWitness) : list Violation :=
  let '(pre, v1) := keyed_market_groups (ss_market_groups (bw_pre_state_sidecar w)) in
  let '(post, v2) := keyed_market_groups (ss_market_groups (bw_state_sidecar w)) in
  let resolved := resolved_market_events (bw_system_events w) in
  let extensions := omap group_extension (bw_system_events w) in
  v1 ++ v2 ++
  (if bool_decide (bw_previous_header w = None) then [] else (e ← btree_iter pre; check_group post resolved extensions e)).

(** ** The whole layer *)

Definition verify_sidecar (blake3 keccak256 : Bytes → Bytes) (w : BlockWitness) : outcome Empty_set VerificationResult :=
  v1 ← @verify_resting_order_reservations Empty_set (ss_resting_orders (bw_pre_state_sidecar w)) (ss_account_reservations (bw_pre_state_sidecar w));
  v2 ← verify_resting_order_reservations (ss_resting_orders (bw_state_sidecar w)) (ss_account_reservations (bw_state_sidecar w));
  v3 ← verify_resting_order_transition w;
  v4 ← verify_withdrawal_transition w;
  quarantine ← verify_quarantine_transition blake3 w;
  Ok (from_violations (v1 ++ v2 ++ v3 ++ v4 ++ verify_deposit_accumulator blake3 keccak256 w ++ vr_violations quarantine ++ verify_market_transition w ++ verify_market_group_transition w)).
