(* ===== verification/MarketVerified.v ===== *)
(** * MarketVerified: the verifier and the market life cycle

    A run of sequencer operations followed by a block gives market leaves that
    pass the verifier's transition check, and group leaves that pass it as long
    as no group is dissolved and no market joins a group and resolves in the same
    block.  In those two cases the check rejects the sequencer's own block. *)
From S2P Require Import Prelude Types Order Market Account OrderBook Snapshots Digest BatchSettlement Finalize Witness Sidecar MatchVerifier L1Protocol AccountKeys SystemVerifier Oracle Bridge Sequencer MarketLifecycle MarketGroups SystemPhase MarketRuns BridgeSidecar BridgeRuns BridgeVerified SidecarMarkets.

(** ** Leaves keyed by id *)

Lemma keyed_markets_split l acc vs :
  foldl keyed_market_step (acc, vs) l =
  (foldl (λ m x, <[msn_market_id x := x]> m) acc l, vs ++ (foldl keyed_market_step (acc, []) l).2).
Proof.
  revert acc vs. induction l as [|x l IH]; intros acc vs; [by cbn; rewrite app_nil_r|]. cbn [foldl keyed_market_step].
  rewrite IH. f_equal. rewrite (IH _ ([] ++ _)). cbn [snd]. by rewrite app_nil_l, <- !(assoc_L (++)).
Qed.

Lemma keyed_markets_clean l acc : NoDup (msn_market_id <$> l) → (∀ x, x ∈ l → acc !! msn_market_id x = None) →
  Forall (λ x, market_leaf_violations x = []) l → (foldl keyed_market_step (acc, []) l).2 = [].
Proof.
  revert acc. induction l as [|x l IH]; intros acc Hnd Hacc Hl; [done|]. cbn [fmap list_fmap] in Hnd. apply NoDup_cons in Hnd as [Hx Hnd].
  apply Forall_cons in Hl as [Hv Hl]. cbn [foldl keyed_market_step]. rewrite Hv, (Hacc x) by left. cbn [app].
  rewrite bool_decide_eq_false_2 by (by intros [? ?]). cbn [flag]. apply IH; [done| |done].
  intros y Hy. rewrite lookup_insert_ne; [apply Hacc; by right|]. intros Heq. apply Hx. rewrite Heq. by apply list_elem_of_fmap_2.
Qed.

(** Prices of one leaf: none, or one per outcome and each within a dollar. *)
Definition prices_wf (ps : list Nanos) : Prop := length ps = 2%nat ∧ Forall (λ p, p ≤ NANOS_PER_DOLLAR) ps.

Section leaves.
Context (sha256 : Bytes → Bytes).

Lemma leaf_clean l lp m : (∀ ps, lp !! mk_id m = Some ps → prices_wf ps) → market_leaf_violations (market_snapshot sha256 l lp m) = [].
Proof.
  intros Hp. unfold market_leaf_violations. cbn. destruct (lp !! mk_id m) as [ps|] eqn:E; [|done]. destruct (Hp ps eq_refl) as [Hl Hf]. cbn.
  rewrite Hl. cbn. apply flags_nil. intros p Hpin. rewrite Forall_forall in Hf. unfold price_is_in_protocol_range.
  by rewrite (proj2 (Z.leb_le _ _)) by (by apply Hf).
Qed.

(** The leaf of every market, by its id. *)
Lemma keyed_snapshots s lp : market_inv s → (∀ m ps, lp !! m = Some ps → prices_wf ps) →
  keyed_markets (market_snapshots sha256 (mq_markets s) (mq_lifecycle s) lp) =
  (market_snapshot sha256 (mq_lifecycle s) lp <$> ms_markets (mq_markets s), []).
Proof.
  intros Hinv Hp. unfold keyed_markets. rewrite keyed_markets_split, app_nil_l. unfold market_snapshots. set (l := stable_sort _ _).
  assert (l ≡ₚ (λ e, market_snapshot sha256 (mq_lifecycle s) lp e.2) <$> map_to_list (ms_markets (mq_markets s))) as Hl by apply stable_sort_Permutation.
  assert (NoDup (msn_market_id <$> l)) as Hnd.
  { rewrite Hl, <- list_fmap_compose. erewrite (list_fmap_ext _ fst); [apply NoDup_fst_map_to_list|].
    intros i [id m] Hi. apply list_elem_of_lookup_2, elem_of_map_to_list in Hi. cbn. by apply (mi_ids _ Hinv). }
  f_equal.
  - apply map_eq. intros id. apply option_eq. intros x. change (foldl _ ∅ l) with (keyed msn_market_id l). rewrite keyed_lookup by done.
    rewrite Hl, list_elem_of_fmap, lookup_fmap, fmap_Some. split.
    + intros [([k m] & -> & Hin) Hk]. apply elem_of_map_to_list in Hin. exists m. cbn in *. pose proof (mi_ids _ Hinv k m Hin) as [? _]. by simplify_eq.
    + intros (m & Hm & ->). split; [|cbn; by apply (mi_ids _ Hinv)]. exists (id, m). split; [done|]. by apply elem_of_map_to_list.
  - apply keyed_markets_clean; [done|intros; apply lookup_empty|]. rewrite Hl. apply Forall_forall. intros x (e & -> & _)%list_elem_of_fmap.
    apply leaf_clean. intros ps. apply Hp.
Qed.
End leaves.

(** ** Resolutions seen by the verifier *)

Lemma resolution_events_of l : NoDup (omap resolution_of l).*1 → (∀ m y, (m, y) ∈ omap resolution_of l → y ≤ NANOS_PER_DOLLAR) →
  market_resolution_events (convert_system_event <$> l) = (list_to_map (reverse (omap resolution_of l)), []).
Proof.
  induction l as [|e l IH] using rev_ind; intros Hnd Hy; [done|]. rewrite omap_app in *. unfold market_resolution_events in *.
  rewrite fmap_app, foldl_app. rewrite fmap_app in Hnd. apply NoDup_app in Hnd as (Hnd & Hd & _).
  rewrite IH; [|done|intros m y Hin; apply (Hy m); apply elem_of_app; by left].
  rewrite reverse_app. destruct (resolution_of e) as [[m y]|] eqn:Hev; [|by destruct e]. destruct e as [| | | | | | |m' y' aff| | | | | | |]; simplify_eq/=.
  rewrite Z.gtb_ltb, (proj2 (Z.ltb_ge _ _)) by (apply (Hy m), elem_of_app; right; by left).
  rewrite not_elem_of_list_to_map_1; [by rewrite bool_decide_eq_false_2 by (by intros [? ?])|].
  intros Hin. apply (Hd m); [|by left]. by rewrite <- (reverse_Permutation (omap resolution_of l)).
Qed.

(** ** Prices *)

Definition prices_inv (s : MarketSequencer) (lp : gmap Z (list Nanos)) : Prop :=
  ∀ m ps, lp !! m = Some ps → is_Some (ms_markets (mq_markets s) !! m) ∧ prices_wf ps.

(** What the solver promises: fills only in markets that trade, and prices of the
    right shape for them. *)
Definition fresh_ok (s : MarketSequencer) (fresh : option (list (Z * list Nanos))) (filled : gset Z) : Prop :=
  filled ⊆ tradeable_markets s ∧ ∀ l m ps, fresh = Some l → (m, ps) ∈ l → m ∈ filled → prices_wf ps.

Lemma tradeable_exists s m : market_inv s → m ∈ tradeable_markets s → is_Some (ms_markets (mq_markets s) !! m).
Proof.
  intros Hinv. unfold tradeable_markets. rewrite elem_of_list_to_set, list_elem_of_filter, list_elem_of_fmap.
  intros (_ & [id x] & -> & Hin). apply elem_of_map_to_list in Hin. cbn. destruct (mi_ids _ Hinv _ _ Hin) as [-> _]. eauto.
Qed.

(** A stored price is the old one or a fresh one for a filled market. *)
Lemma stored_price fresh filled active position lp m : (merge_prices fresh filled active position lp).1 !! m = lp !! m ∨
  ∃ l ps, fresh = Some l ∧ (m, ps) ∈ l ∧ m ∈ filled ∧ (merge_prices fresh filled active position lp).1 !! m = Some ps.
Proof.
  destruct fresh as [l|]; [|by left]. cbn.
  enough (∀ acc, foldl (λ (m : gmap Z (list Nanos)) e, if decide (e.1 ∈ filled) then <[e.1 := e.2]> m else m) acc l !! m = acc !! m ∨
    ∃ ps, (m, ps) ∈ l ∧ m ∈ filled ∧ foldl (λ (m : gmap Z (list Nanos)) e, if decide (e.1 ∈ filled) then <[e.1 := e.2]> m else m) acc l !! m = Some ps) as H.
  { destruct (H lp) as [?|(ps & ?)]; [by left|right]. naive_solver. }
  induction l as [|[k ps] l IH]; intros acc; [by left|]. cbn [foldl fst snd].
  destruct (IH (if decide (k ∈ filled) then <[k := ps]> acc else acc)) as [Hm|(ps' & Hin & Hf & Hm)]; rewrite Hm.
  - case_decide as Hk; [|by left]. rewrite lookup_insert. case_decide as Hkm; [|by left]. subst. right. exists ps. split_and!; [left|done..].
  - right. exists ps'. split_and!; [by right|done..].
Qed.

Lemma merged_inv s0 s fresh filled position lp : market_inv s → market_kept s0 s → prices_inv s0 lp → fresh_ok s fresh filled →
  prices_inv s (merge_prices fresh filled (tradeable_markets s) position lp).1.
Proof.
  intros Hinv Hkept Hp [Hf Hfresh] m ps Hm. destruct (stored_price fresh filled (tradeable_markets s) position lp m) as [Heq|(l & ps' & -> & Hin & Hfm & Heq)].
  - rewrite Heq in Hm. destruct (Hp m ps Hm) as [[x Hx] Hw]. split; [|done]. exists x. eapply lookup_weaken; [done|apply Hkept].
  - rewrite Heq in Hm. injection Hm as ->. split; [apply tradeable_exists; [done|by apply Hf]|by eapply Hfresh].
Qed.

(** ** The block *)

(** The market part of a block's witness: the leaves before and after, the
    events, the prices and the resolved markets. *)
Record market_witness (sha256 : Bytes → Bytes) (s0 s : MarketSequencer) (lp0 lp clearing : gmap Z (list Nanos)) (w : BlockWitness) : Prop := {
  mw_pre : ss_markets (bw_pre_state_sidecar w) = market_snapshots sha256 (mq_markets s0) (mq_lifecycle s0) lp0;
  mw_post : ss_markets (bw_state_sidecar w) = market_snapshots sha256 (mq_markets s) (mq_lifecycle s) lp;
  mw_pre_groups : ss_market_groups (bw_pre_state_sidecar w) = market_group_snapshots (mq_groups s0);
  mw_post_groups : ss_market_groups (bw_state_sidecar w) = market_group_snapshots (mq_groups s);
  mw_events : bw_system_events w = convert_system_event <$> sort_system_events (sq_pending_system_events (mq_seq s));
  mw_clearing : bw_clearing_prices w = clearing;
  mw_resolved : ∃ iter, iter ≡ₚ map_to_list (lc_market_statuses (mq_lifecycle s)) ∧ bw_resolved_markets w = resolved_market_ids iter;
}.

Section block.
Context (sha256 : Bytes → Bytes) (s0 s : MarketSequencer) (lp0 : gmap Z (list Nanos)).
Context (fresh : option (list (Z * list Nanos))) (filled position : gset Z) (w : BlockWitness).
Let merged := merge_prices fresh filled (tradeable_markets s) position lp0.
Context (Hinv0 : market_inv s0) (Hrun : market_run s0 s) (Hp0 : prices_inv s0 lp0) (Hfresh : fresh_ok s fresh filled).
Context (Hw : market_witness sha256 s0 s lp0 merged.1 merged.2 w).

Let leaf0 := market_snapshot sha256 (mq_lifecycle s0) lp0.
Let leaf := market_snapshot sha256 (mq_lifecycle s) merged.1.

Lemma merged_prices : prices_inv s merged.1.
Proof. eapply merged_inv; [by eapply mru_inv|by eapply mru_kept|done..]. Qed.

Lemma block_resolutions : market_resolution_events (bw_system_events w) = (list_to_map (reverse (resolutions s)), []).
Proof.
  rewrite (mw_events _ _ _ _ _ _ _ Hw). assert (omap resolution_of (sort_system_events (sq_pending_system_events (mq_seq s))) = resolutions s) as Heq.
  { apply omap_phase. by intros []. }
  rewrite resolution_events_of; rewrite Heq; [done|by eapply mru_once|]. intros m y Hin. by apply (mru_event _ _ Hrun) in Hin as (_ & ? & _).
Qed.

Lemma events_lookup m y : (list_to_map (reverse (resolutions s)) : gmap Z Nanos) !! m = Some y ↔ (m, y) ∈ resolutions s.
Proof.
  rewrite <- elem_of_list_to_map; [by rewrite (reverse_Permutation (resolutions s))|]. rewrite (reverse_Permutation (resolutions s)). by eapply mru_once.
Qed.

Lemma resolved_leaf m y : (m, y) ∈ resolutions s → resolved_with y (market_status_snapshot (market_status (mq_lifecycle s) m)) = true.
Proof. intros (_ & _ & _ & r & -> & <-)%(mru_event _ _ Hrun). cbn. apply Z.eqb_refl. Qed.

Lemma market_id_of {q} {m x} : market_inv q → ms_markets (mq_markets q) !! m = Some x → mk_id x = m.
Proof. intros Hq Hx. by apply (mi_ids _ Hq) in Hx as [? _]. Qed.

Lemma pre_market_checked e : e ∈ btree_iter (leaf0 <$> ms_markets (mq_markets s0)) →
  check_pre_market (leaf <$> ms_markets (mq_markets s)) (list_to_map (reverse (resolutions s))) e = [].
Proof.
  destruct e as [m x]. unfold btree_iter. rewrite sort_by_key_perm, elem_of_map_to_list, lookup_fmap, fmap_Some. intros (mk & Hmk & ->).
  pose proof (market_id_of Hinv0 Hmk) as Hid. pose proof (mru_kept _ _ Hrun) as K. pose proof (lookup_weaken _ _ _ _ Hmk (mk_names _ _ K)) as Hmk'.
  unfold check_pre_market. rewrite lookup_fmap, Hmk'. cbn [fmap option_fmap option_map]. cbn -[market_metadata_digest template_for_market market_status resolved_with].
  rewrite Hid. unfold template_for_market. rewrite (mk_metadata _ _ K m) by eauto.
  rewrite !(bool_decide_eq_false_2 (_ ≠ _)) by (intros Hne; by apply Hne). cbn [orb flag app].
  destruct (list_to_map _ !! m) as [y|] eqn:Hy.
  - apply events_lookup in Hy. by rewrite resolved_leaf.
  - rewrite (mru_same _ _ Hrun m); [by rewrite bool_decide_eq_false_2 by (intros Hne; by apply Hne)|].
    intros Hm. apply list_elem_of_fmap in Hm as ([k y] & -> & Hin). apply events_lookup in Hin. cbn in Hy. congruence.
Qed.

Lemma clearing_checked e : e ∈ map_to_list merged.2 → check_clearing_entry (leaf <$> ms_markets (mq_markets s)) e = [].
Proof.
  destruct e as [m ps]. rewrite elem_of_map_to_list. intros Hm. apply map_lookup_filter_Some in Hm as [Hm _].
  destruct (merged_prices m ps Hm) as [[x Hx] _]. unfold check_clearing_entry. cbn [fst snd]. rewrite lookup_fmap, Hx. cbn [fmap option_fmap option_map].
  unfold leaf. cbn. rewrite (market_id_of (mru_inv _ _ Hrun) Hx), Hm. by rewrite bool_decide_eq_false_2 by (intros Hne; by apply Hne).
Qed.

(** A market with no witnessed price keeps the stored one. *)
Lemma unwitnessed_price m : merged.2 !! m = None → merged.1 !! m = lp0 !! m.
Proof.
  intros Hn. destruct (stored_price fresh filled (tradeable_markets s) position lp0 m) as [H|(l & ps & _ & _ & Hf & Heq)]; [done|].
  apply map_lookup_filter_None in Hn as [Hn|Hn]; [unfold merged in Hn; cbn in Hn; cbn in Heq; congruence|].
  destruct (Hn ps Heq). left. by apply Hfresh.
Qed.

Lemma carried_checked e : e ∈ btree_iter (leaf0 <$> ms_markets (mq_markets s0)) →
  check_carried_price merged.2 (leaf <$> ms_markets (mq_markets s)) e = [].
Proof.
  destruct e as [m x]. unfold btree_iter. rewrite sort_by_key_perm, elem_of_map_to_list, lookup_fmap, fmap_Some. intros (mk & Hmk & ->).
  unfold check_carried_price. cbn [fst snd]. case_bool_decide as Hc; [done|]. rewrite <- eq_None_not_Some in Hc.
  rewrite lookup_fmap. destruct (ms_markets (mq_markets s) !! m) as [mk'|] eqn:Hmk'; [|done]. cbn [fmap option_fmap option_map]. unfold leaf, leaf0. cbn [market_snapshot msn_last_clearing_prices].
  rewrite (market_id_of Hinv0 Hmk), (market_id_of (mru_inv _ _ Hrun) Hmk'), (unwitnessed_price m Hc).
  by rewrite bool_decide_eq_false_2 by (intros Hne; by apply Hne).
Qed.

Lemma new_market_checked e : e ∈ btree_iter (leaf <$> ms_markets (mq_markets s)) →
  check_new_market merged.2 (leaf0 <$> ms_markets (mq_markets s0)) e = [].
Proof.
  destruct e as [m x]. unfold btree_iter. rewrite sort_by_key_perm, elem_of_map_to_list, lookup_fmap, fmap_Some. intros (mk & Hmk & ->).
  unfold check_new_market. cbn [fst snd]. case_bool_decide as Hpre; [|done]. case_bool_decide as Hc; [|done]. cbn [andb].
  unfold leaf. cbn [market_snapshot msn_last_clearing_prices]. rewrite (market_id_of (mru_inv _ _ Hrun) Hmk), (unwitnessed_price m Hc).
  destruct (lp0 !! m) as [ps|] eqn:Hlp; [|done]. apply Hp0 in Hlp as [[y Hy] _]. by rewrite lookup_fmap, Hy in Hpre.
Qed.

Lemma resolution_checked e : e ∈ btree_iter (list_to_map (reverse (resolutions s)) : gmap Z Nanos) →
  check_resolution_event (leaf <$> ms_markets (mq_markets s)) e = [].
Proof.
  destruct e as [m y]. unfold btree_iter. rewrite sort_by_key_perm, elem_of_map_to_list, events_lookup. intros Hin.
  pose proof Hin as ([x Hx] & _)%(mru_event _ _ Hrun). unfold check_resolution_event. cbn [fst snd]. rewrite lookup_fmap, Hx. cbn [fmap option_fmap option_map].
  unfold leaf. cbn -[resolved_with]. by rewrite (market_id_of (mru_inv _ _ Hrun) Hx), resolved_leaf.
Qed.

Lemma listed_checked m : m ∈ bw_resolved_markets w → check_resolved_listed (leaf <$> ms_markets (mq_markets s)) m = [].
Proof.
  destruct (mw_resolved _ _ _ _ _ _ _ Hw) as (iter & Hit & ->). unfold resolved_market_ids. rewrite list_elem_of_fmap. intros ([k st] & -> & Hin).
  apply list_elem_of_filter in Hin as [Hst Hin]. rewrite Hit, elem_of_map_to_list in Hin. cbn [fst snd] in *.
  destruct (mi_statuses _ (mru_inv _ _ Hrun) _ _ Hin) as [[x Hx] _]. unfold check_resolved_listed. rewrite lookup_fmap, Hx. cbn [fmap option_fmap option_map].
  unfold leaf. cbn. rewrite (market_id_of (mru_inv _ _ Hrun) Hx). unfold market_status. rewrite Hin. by destruct st.
Qed.

Lemma block_markets_verify : verify_market_transition w = [].
Proof.
  unfold verify_market_transition. rewrite (mw_pre _ _ _ _ _ _ _ Hw), (mw_post _ _ _ _ _ _ _ Hw), (mw_clearing _ _ _ _ _ _ _ Hw).
  rewrite (keyed_snapshots sha256 s0 lp0 Hinv0) by (intros m ps H; by apply Hp0 in H as [_ ?]).
  rewrite (keyed_snapshots sha256 s merged.1 (mru_inv _ _ Hrun)) by (intros m ps H; by apply merged_prices in H as [_ ?]).
  rewrite block_resolutions. cbn [app].
  rewrite (flags_nil (check_pre_market _ _)) by apply pre_market_checked.
  rewrite (flags_nil (check_clearing_entry _)) by apply clearing_checked.
  rewrite (flags_nil (check_carried_price _ _)) by apply carried_checked.
  rewrite (flags_nil (check_new_market _ _)) by apply new_market_checked.
  rewrite (flags_nil (check_resolution_event _)) by apply resolution_checked.
  rewrite (flags_nil (check_resolved_listed _)) by apply listed_checked.
  by case_bool_decide.
Qed.
End block.

(** ** Groups keyed by position *)

Definition group_snapshot (i : nat) (g : MarketGroup) : MarketGroupSnapshot :=
  mkMarketGroupSnapshot (Z.of_nat i) (mg_name g) (mg_creation_key g) (stable_sort Z.le (mg_markets g)).

Lemma keyed_groups_acc gs acc keys vs n : NoDup (omap mg_creation_key gs) → (∀ k, k ∈ omap mg_creation_key gs → k ∉ keys) →
  Forall (λ g, ∀ k, mg_creation_key g = Some k → operator_creation_key_is_valid k = true) gs → (∀ i, (n ≤ i)%nat → acc !! Z.of_nat i = None) →
  ∃ out keys', foldl keyed_group_step (acc, keys, vs) (imap (λ i g, group_snapshot (n + i) g) gs) = (out, keys', vs) ∧
    ∀ z, out !! z = if decide (Z.of_nat n ≤ z) then (group_snapshot (Z.to_nat z)) <$> gs !! (Z.to_nat z - n)%nat else acc !! z.
Proof.
  revert acc keys n. induction gs as [|g gs IH]; intros acc keys n Hnd Hk Hv Hacc.
  { exists acc, keys. split; [done|]. intros z. case_decide; [|done]. rewrite lookup_nil. rewrite <- (Z2Nat.id z) by lia. apply Hacc. lia. }
  apply Forall_cons in Hv as [Hvg Hv]. cbn [imap foldl]. rewrite (imap_ext _ (λ i g, group_snapshot (S n + i) g)) by (intros; cbn; by rewrite Nat.add_succ_r).
  assert (∃ keys', keyed_group_step (acc, keys, vs) (group_snapshot (n + 0) g) = (<[Z.of_nat n := group_snapshot n g]> acc, keys', vs) ∧
    NoDup (omap mg_creation_key gs) ∧ ∀ k, k ∈ omap mg_creation_key gs → k ∉ keys') as (keys' & -> & Hnd' & Hk').
  { rewrite Nat.add_0_r. unfold keyed_group_step. cbn [group_snapshot mgs_creation_key mgs_group_id]. cbn [omap list_omap] in Hnd, Hk.
    rewrite Hacc by lia. rewrite (bool_decide_eq_false_2 (is_Some None)) by (by intros [? ?]).
    destruct (mg_creation_key g) as [k|]; [|exists keys; cbn; by rewrite !app_nil_r].
    rewrite (Hvg k eq_refl). cbn [negb]. rewrite bool_decide_eq_false_2 by (apply Hk; left). exists ({[k]} ∪ keys). cbn. rewrite !app_nil_r.
    apply NoDup_cons in Hnd as [Hnk Hnd]. split_and!; [done|done|]. intros k' Hin. rewrite not_elem_of_union, not_elem_of_singleton.
    split; [by intros ->|]. apply Hk. by right. }
  destruct (IH (<[Z.of_nat n := group_snapshot n g]> acc) keys' (S n) Hnd' Hk' Hv) as (out & keys2 & Hf & Hout).
  { intros i Hi. rewrite lookup_insert_ne by lia. apply Hacc. lia. }
  exists out, keys2. split; [exact Hf|]. intros z. rewrite Hout. destruct (decide (Z.of_nat n = z)) as [<-|Hne].
  - rewrite decide_False, decide_True by lia. rewrite lookup_insert_eq, Nat2Z.id. by rewrite Nat.sub_diag.
  - destruct (decide (Z.of_nat n ≤ z)).
    + rewrite decide_True by lia. replace (Z.to_nat z - n)%nat with (S (Z.to_nat z - S n)) by lia. done.
    + rewrite decide_False by lia. by rewrite lookup_insert_ne.
Qed.

Lemma keyed_groups s : market_inv s → ∃ out, keyed_market_groups (market_group_snapshots (mq_groups s)) = (out, []) ∧
  ∀ i, out !! Z.of_nat i = group_snapshot i <$> mq_groups s !! i.
Proof.
  intros Hinv. destruct (keyed_groups_acc (mq_groups s) ∅ ∅ [] 0) as (out & keys & Hf & Hout);
    [by apply mi_group_keys|intros; apply not_elem_of_empty|by apply mi_valid_keys|intros; apply lookup_empty|].
  exists out. unfold keyed_market_groups, market_group_snapshots. change (imap _ (mq_groups s)) with (imap (λ i g, group_snapshot (0 + i) g) (mq_groups s)).
  rewrite Hf. split; [done|]. intros i. rewrite Hout, decide_True, Nat2Z.id by lia. by rewrite Nat.sub_0_r.
Qed.

Lemma keyed_groups_nonneg s out z x : market_inv s → keyed_market_groups (market_group_snapshots (mq_groups s)) = (out, []) → out !! z = Some x →
  ∃ i g, z = Z.of_nat i ∧ mq_groups s !! i = Some g ∧ x = group_snapshot i g.
Proof.
  intros Hinv H Hx. destruct (keyed_groups_acc (mq_groups s) ∅ ∅ [] 0) as (out' & keys & Hf & Hout);
    [by apply mi_group_keys|intros; apply not_elem_of_empty|by apply mi_valid_keys|intros; apply lookup_empty|].
  unfold keyed_market_groups, market_group_snapshots in H. change (imap _ (mq_groups s)) with (imap (λ i g, group_snapshot (0 + i) g) (mq_groups s)) in H.
  rewrite Hf in H. injection H as ->. rewrite Hout in Hx. case_decide as Hz; [|by rewrite lookup_empty in Hx].
  rewrite Nat.sub_0_r in Hx. apply fmap_Some in Hx as (g & Hg & ->). exists (Z.to_nat z), g. split_and!; [lia|done..].
Qed.

(** ** What the verifier reads off the events *)

Lemma resolved_events_of l m : m ∈ resolved_market_events (convert_system_event <$> l) ↔ m ∈ (omap resolution_of l).*1.
Proof.
  unfold resolved_market_events. rewrite elem_of_list_to_set. induction l as [|e l IH]; [done|]. cbn.
  destruct e; cbn; rewrite ?elem_of_cons; rewrite ?IH; done.
Qed.

Lemma extensions_of (l : list Sys.SystemEvent) : omap group_extension (convert_system_event <$> l) = omap extension_of l.
Proof. induction l as [|e l IH]; [done|]. destruct e; cbn; rewrite ?IH; done. Qed.

Section groups.
Context (sha256 : Bytes → Bytes) (s0 s : MarketSequencer) (lp0 lp clearing : gmap Z (list Nanos)) (w : BlockWitness).
Context (Hinv0 : market_inv s0) (Hinv : market_inv s) (Hw : market_witness sha256 s0 s lp0 lp clearing w).

Lemma witnessed_resolved m : m ∈ resolved_market_events (bw_system_events w) ↔ resolved_now s m.
Proof.
  rewrite (mw_events _ _ _ _ _ _ _ Hw), resolved_events_of. unfold resolved_now, resolutions. rewrite omap_phase; [done|]. by intros [].
Qed.

Lemma witnessed_extensions : omap group_extension (bw_system_events w) = extensions s.
Proof. rewrite (mw_events _ _ _ _ _ _ _ Hw), extensions_of. unfold extensions. apply omap_phase. by intros []. Qed.

(** The check of one group, by position. *)
Lemma group_transition_eq : verify_market_group_transition w = [] ↔ bw_previous_header w = None ∨ ∀ i g0, mq_groups s0 !! i = Some g0 →
  match mq_groups s !! i with
  | None => (length (filter (λ m, m ∉ resolved_market_events (bw_system_events w)) (stable_sort Z.le (mg_markets g0))) < 2)%nat
  | Some g => mg_name g0 = mg_name g ∧ mg_creation_key g0 = mg_creation_key g ∧
      ∀ m, m ∈ mg_markets g ↔ (m ∈ mg_markets g0 ∧ ¬ resolved_now s m) ∨ (Z.of_nat i, m) ∈ extensions s
  end.
Proof.
  unfold verify_market_group_transition. rewrite (mw_pre_groups _ _ _ _ _ _ _ Hw), (mw_post_groups _ _ _ _ _ _ _ Hw).
  destruct (keyed_groups s0 Hinv0) as (pre & Hpre & Hprel), (keyed_groups s Hinv) as (post & Hpost & Hpostl). rewrite Hpre, Hpost. cbn [app].
  case_bool_decide as Hh; [split; [by left|done]|]. rewrite bind_nil, Forall_forall.
  assert ((∀ e, e ∈ btree_iter pre → check_group post (resolved_market_events (bw_system_events w)) (omap group_extension (bw_system_events w)) e = []) ↔
    ∀ i g0, mq_groups s0 !! i = Some g0 →
    check_group post (resolved_market_events (bw_system_events w)) (omap group_extension (bw_system_events w)) (Z.of_nat i, group_snapshot i g0) = []) as ->.
  { unfold btree_iter. setoid_rewrite sort_by_key_perm. split.
    - intros H i g0 Hg. apply H. rewrite elem_of_map_to_list, Hprel, Hg. done.
    - intros H [z x] Hin. apply elem_of_map_to_list in Hin. destruct (keyed_groups_nonneg _ _ _ _ Hinv0 Hpre Hin) as (i & g & -> & Hg & ->). by apply H. }
  rewrite witnessed_extensions. assert (∀ P Q : Prop, ¬ P → (Q ↔ P ∨ Q)) as Hor by tauto. etrans; [|exact (Hor _ _ Hh)].
  apply forall_proper. intros i. apply forall_proper. intros g0. apply imp_iff_compat_l. unfold check_group. rewrite Hpostl.
  destruct (mq_groups s !! i) as [g|]; cbn [fmap option_fmap option_map].
  - cbn [group_snapshot mgs_name mgs_creation_key mgs_markets]. rewrite !app_nil. unfold flag. 
    assert (∀ P `{Decision P}, (if bool_decide (¬ P) then [VK.SidecarMarketGroupMismatch] else []) = [] ↔ P) as Hb.
    { intros P ?. case_bool_decide as HP; [by split|]. split; [intros _|done]. by destruct (decide P). }
    rewrite !Hb. apply and_iff_compat_l, and_iff_compat_l. rewrite set_eq. apply forall_proper. intros m.
    rewrite !elem_of_list_to_set, elem_of_app, list_elem_of_filter, !stable_sort_Permutation, witnessed_resolved.
    assert (m ∈ (filter (λ x, x.1 = Z.of_nat i) (extensions s)).*2 ↔ (Z.of_nat i, m) ∈ extensions s) as ->; [|tauto].
    rewrite list_elem_of_fmap. split; [intros ([k x] & -> & [<- Hin]%list_elem_of_filter); done|].
    intros Hin. exists (Z.of_nat i, m). split; [done|]. apply list_elem_of_filter. done.
  - cbn [group_snapshot mgs_markets]. unfold flag. destruct (Z.ltb_spec (Z.of_nat (length (filter (λ m, m ∉ resolved_market_events (bw_system_events w)) (stable_sort Z.le (mg_markets g0))))) 2); cbn.
    + split; [intros _; lia|done].
    + split; [done|]. lia.
Qed.
End groups.

(** ** Acceptance *)

Section acceptance.
Context (sha256 : Bytes → Bytes) (iter : gmap Z MarketMetadata → list (Z * MarketMetadata)) (iter_perm : ∀ m, iter m ≡ₚ map_to_list m).
Context (s0 s : MarketSequencer) (lp0 lp clearing : gmap Z (list Nanos)) (w : BlockWitness).

(** The verifier accepts the market leaves of every block.  Start a block from
    a consistent market state with no market event queued, run any sequencer
    operations (creations, groups, extensions, resolutions and whatever leaves
    markets alone), and merge the solver's prices for filled markets into the
    stored ones: the leaves before and after, the queued resolutions, the
    witnessed prices and the list of resolved markets pass every check of
    [verify_market_transition], and the state and prices are again such a start. *)
Theorem market_transition_verifies fresh filled position : market_inv s0 → resolutions s0 = [] → rtc (block_op iter) s0 s →
  prices_inv s0 lp0 → fresh_ok s fresh filled → (lp, clearing) = merge_prices fresh filled (tradeable_markets s) position lp0 →
  market_witness sha256 s0 s lp0 lp clearing w → verify_market_transition w = [] ∧ market_inv s ∧ prices_inv s lp.
Proof.
  intros Hinv Hq Hops Hp Hf Hm Hw. pose proof (market_run_steps _ _ _ _ iter_perm Hops (run_start _ Hinv Hq)) as Hrun.
  assert (lp = (merge_prices fresh filled (tradeable_markets s) position lp0).1 ∧ clearing = (merge_prices fresh filled (tradeable_markets s) position lp0).2) as [-> ->]
    by (by rewrite <- Hm).
  split_and!; [by eapply block_markets_verify|by eapply mru_inv|]. by eapply merged_prices.
Qed.

Lemma group_run_start : extensions s0 = [] → resolutions s0 = [] → group_run s0 s0.
Proof.
  intros He Hr i g Hg. exists g. split_and!; try done. intros m. unfold resolved_now. rewrite He, Hr. cbn. rewrite !elem_of_nil. tauto.
Qed.

(** The verifier accepts the group leaves of a block in which no operation
    dissolves a group and no market both joins a group and resolves: positions,
    names and keys of groups are unchanged and their members are explained by the
    queued extensions and resolutions. *)
Theorem group_transition_verifies : market_inv s0 → resolutions s0 = [] → extensions s0 = [] → rtc (stable_op iter) s0 s →
  (∀ g m, (g, m) ∈ extensions s → ¬ resolved_now s m) → market_witness sha256 s0 s lp0 lp clearing w →
  verify_market_group_transition w = [].
Proof.
  intros Hinv Hr He Hops Hdisj Hw. destruct (stable_run _ s0 _ _ iter_perm Hops (run_start _ Hinv Hr) (group_run_start He Hr)) as [Hrun Hgr].
  eapply group_transition_eq; [done|by eapply mru_inv|done|]. right. intros i g0 Hg0. destruct (Hgr i g0 Hg0) as (g & -> & Hn & Hk & Hm).
  split_and!; [done..|]. intros m. rewrite Hm. specialize (Hdisj (Z.of_nat i) m). naive_solver.
Qed.
End acceptance.

(** ** Rejection *)

(** Two ways an honest block disagrees with the group check: a resolution that
    leaves one member dissolves the group and moves the groups behind it, or a
    market joins a group and resolves before the block is produced. *)
Inductive group_hazard (s0 s : MarketSequencer) : Prop :=
  | hazard_dissolved ids m y t r i g h : seq_resolve_market ids m y t s0 = SOk s r →
      mq_groups s0 !! i = Some g → shrink_group m g = None → mq_groups s0 !! S i = Some h → mg_name g ≠ mg_name h → group_hazard s0 s
  | hazard_extended gid m ids y t s1 g' r : 0 ≤ gid → extend_market_group gid m s0 = SOk s1 (g', true) →
      seq_resolve_market ids m y t s1 = SOk s r → (2 < length (mg_markets g'))%nat → group_hazard s0 s.

Lemma shrink_other m g : m ∉ mg_markets g → shrink_group m g = Some g.
Proof. intros Hm. unfold shrink_group. by rewrite decide_False. Qed.

(** A grouped market is in one group only. *)
Lemma only_group s m i g j x : market_inv s → mq_groups s !! i = Some g → m ∈ mg_markets g → mq_groups s !! j = Some x → j ≠ i → m ∉ mg_markets x.
Proof.
  intros Hinv Hg Hm Hx Hne Hmx. pose proof (mi_disjoint _ Hinv) as Hnd.
  assert (∀ k l y z, (k < l)%nat → mq_groups s !! k = Some y → mq_groups s !! l = Some z → m ∈ mg_markets y → m ∈ mg_markets z → False) as Hlt.
  { intros k l y z Hkl Hy Hz Hmy Hmz. rewrite <- (take_drop_middle _ _ _ Hz), fmap_app, concat_app in Hnd. apply NoDup_app in Hnd as (_ & Hd & _).
    apply (Hd m); [|cbn; apply elem_of_app; by left]. apply members_elem. exists y. split; [|done]. apply list_elem_of_lookup_2 with k. by rewrite lookup_take_lt. }
  destruct (Nat.lt_total j i) as [?|[?|?]]; [|done|]; by eapply Hlt.
Qed.

Lemma omap_drop {A B} (f : A → option B) l i : (∀ j x, (j < i)%nat → l !! j = Some x → is_Some (f x)) → drop i (omap f l) = omap f (drop i l).
Proof.
  revert l. induction i as [|i IH]; intros l Hl; [done|]. destruct l as [|x l]; [done|]. cbn [omap list_omap drop].
  destruct (Hl 0%nat x) as [y ->]; [lia|done|]. cbn [drop]. apply IH. intros j z Hj Hz. apply (Hl (S j)); [lia|done].
Qed.

(** Groups in front of the one that holds the market stay in place. *)
Lemma shrink_drop s m i g : market_inv s → mq_groups s !! i = Some g → m ∈ mg_markets g →
  drop i (omap (shrink_group m) (mq_groups s)) = omap (shrink_group m) (g :: drop (S i) (mq_groups s)).
Proof.
  intros Hinv Hg Hm. rewrite omap_drop; [by rewrite (drop_S _ g)|]. intros j x Hj Hx. rewrite shrink_other; [eauto|].
  apply (only_group s m i g j x); done || lia.
Qed.

Lemma shrink_lookup s m i g g' : market_inv s → mq_groups s !! i = Some g → m ∈ mg_markets g → shrink_group m g = Some g' →
  omap (shrink_group m) (mq_groups s) !! i = Some g'.
Proof.
  intros Hinv Hg Hm Hs. rewrite <- (Nat.add_0_r i), <- lookup_drop, (shrink_drop _ _ _ g) by done. cbn [omap list_omap]. by rewrite Hs.
Qed.

(** The group behind a dissolved one takes its place. *)
Lemma dissolved_shift s m i g h : market_inv s → mq_groups s !! i = Some g → shrink_group m g = None → mq_groups s !! S i = Some h →
  omap (shrink_group m) (mq_groups s) !! i = Some h.
Proof.
  intros Hinv Hg Hs Hh. assert (m ∈ mg_markets g) as Hin by (unfold shrink_group in Hs; by destruct (decide (m ∈ mg_markets g))).
  rewrite <- (Nat.add_0_r i), <- lookup_drop, (shrink_drop _ _ _ g) by done. cbn [omap list_omap]. rewrite Hs, (drop_S _ h) by done.
  cbn [omap list_omap]. rewrite (shrink_other m h); [done|]. apply (only_group s m i g (S i) h); done || lia.
Qed.

Lemma extended_group gid m s s' g' : 0 ≤ gid → extend_market_group gid m s = SOk s' (g', true) →
  ∃ g, mq_groups s !! Z.to_nat gid = Some g ∧ mq_groups s' !! Z.to_nat gid = Some g' ∧ (gid, m) ∈ extensions s' ∧ m ∈ mg_markets g'.
Proof.
  intros Hgid (g & Hg & [(? & _)|(g2 & [= ->] & -> & _ & _ & _ & ->)])%extend_SOk; [done|]. exists g. split_and!; [done| | |].
  - unfold mq_groups. cbn. apply list_lookup_insert_eq. by eapply lookup_lt_Some.
  - unfold extensions. cbn. rewrite omap_app. apply elem_of_app. right. by left.
  - cbn. apply elem_of_app. right. by left.
Qed.

Lemma shrunk_group m g : NoDup (mg_markets g) → (2 < length (mg_markets g))%nat → m ∈ mg_markets g →
  ∃ g', shrink_group m g = Some g' ∧ m ∉ mg_markets g'.
Proof.
  intros Hnd Hlen Hm. unfold shrink_group. rewrite decide_True by done.
  assert (length (mg_markets g) = S (length (filter (λ x, x ≠ m) (mg_markets g)))) as Hl.
  { clear Hlen. induction Hnd as [|x l Hx Hnd IH]; [by apply not_elem_of_nil in Hm|]. rewrite filter_cons. apply elem_of_cons in Hm as [->|Hm].
    - rewrite decide_False by (intros H; by apply H). cbn. f_equal. f_equal. clear -Hx. induction l as [|y l IH]; [done|].
      rewrite filter_cons, decide_True by set_solver. f_equal. apply IH. set_solver.
    - rewrite decide_True by (by intros ->). cbn. by rewrite IH. }
  rewrite (proj2 (Z.leb_le _ _)) by lia. eexists. split; [done|]. cbn. rewrite list_elem_of_filter. by intros [? _].
Qed.

Lemma group_NoDup s i g : market_inv s → mq_groups s !! i = Some g → NoDup (mg_markets g).
Proof.
  intros Hinv Hg. pose proof (mi_disjoint _ Hinv) as Hnd. rewrite <- (take_drop_middle _ _ _ Hg), fmap_app, concat_app in Hnd.
  apply NoDup_app in Hnd as (_ & _ & Hnd). cbn in Hnd. by apply NoDup_app in Hnd as (? & _).
Qed.

(** C37: the group check rejects these blocks although the sequencer applied every
    rule: after a group with two members loses one, the next group is committed
    under the dissolved group's identifier and its name counts as an edit; a
    market that joined a group and resolved in the block is expected among the
    members, although resolution removed it. *)
Theorem group_hazard_rejected sha256 s0 s lp0 lp clearing w : market_inv s0 → group_hazard s0 s → is_Some (bw_previous_header w) →
  market_witness sha256 s0 s lp0 lp clearing w → verify_market_group_transition w ≠ [].
Proof.
  intros Hinv Hhaz [hdr Hh] Hw Hv. destruct Hhaz as [ids m y t r i g h Hres Hg Hs Hnext Hname|gid m ids y t s1 g' r Hgid Hext Hres Hlen].
  - pose proof (seq_resolve_SOk _ _ _ _ _ _ _ Hres) as Hto. pose proof (resolve_inv _ _ _ _ Hinv Hto) as Hinv'.
    apply (group_transition_eq _ _ _ _ _ _ _ Hinv Hinv' Hw) in Hv as [Hv|Hv]; [congruence|]. specialize (Hv i g Hg).
    destruct Hto as (_ & _ & _ & _ & _ & Hgs & _). rewrite Hgs, (dissolved_shift _ _ _ _ _ Hinv Hg Hs Hnext) in Hv. by destruct Hv.
  - pose proof (extend_inv _ _ _ _ _ Hinv Hext) as Hinv1. pose proof (seq_resolve_SOk _ _ _ _ _ _ _ Hres) as Hto.
    pose proof (resolve_inv _ _ _ _ Hinv1 Hto) as Hinv'. apply (group_transition_eq _ _ _ _ _ _ _ Hinv Hinv' Hw) in Hv as [Hv|Hv]; [congruence|].
    destruct (extended_group _ _ _ _ _ Hgid Hext) as (g & Hg & Hg1 & He & Hm).
    destruct Hto as (_ & _ & _ & _ & _ & Hgs & (aff & Hq) & _). specialize (Hv (Z.to_nat gid) g Hg).
    destruct (shrunk_group m g' (group_NoDup _ _ _ Hinv1 Hg1) Hlen Hm) as (g2 & Hs2 & Hm2). assert (mq_groups s !! Z.to_nat gid = Some g2) as Hg2.
    { rewrite Hgs. by apply (shrink_lookup s1 m (Z.to_nat gid) g' g2). }
    rewrite Hg2 in Hv. destruct Hv as (_ & _ & Hv). apply Hm2, Hv. right. rewrite Z2Nat.id by done. unfold extensions. rewrite Hq, omap_app.
    apply elem_of_app. left. exact He.
Qed.

(** ** Witnesses *)

(** A witness with nothing but a market transition. *)
Definition market_sidecar (s : MarketSequencer) (lp : gmap Z (list Nanos)) : StateSidecarSnapshot :=
  mkStateSidecarSnapshot (mkBridgeStateSnapshot 0 [] 0 0 [] []) (market_snapshots (λ b, b) (mq_markets s) (mq_lifecycle s) lp)
    (market_group_snapshots (mq_groups s)) [] [].
Definition market_block (s0 s : MarketSequencer) (lp0 : gmap Z (list Nanos)) (prices : gmap Z (list Nanos) * gmap Z (list Nanos)) : BlockWitness :=
  let header := mkWitnessBlockHeader 13 [] [] [] 0 0 0 in
  mkBlockWitness header (Some header) [] [] [] (convert_system_event <$> sort_system_events (sq_pending_system_events (mq_seq s)))
    (mkDepositAccumulatorWitness [] 0 []) [] prices.2 0 0 [] [] [] [] [] [] (market_sidecar s prices.1) (market_sidecar s0 lp0)
    (resolved_market_ids (map_to_list (lc_market_statuses (mq_lifecycle s)))).

Lemma market_block_witness s0 s lp0 prices : market_witness (λ b, b) s0 s lp0 prices.1 prices.2 (market_block s0 s lp0 prices).
Proof. split; try reflexivity. eexists. split; reflexivity. Qed.

(** Market 1 joins the group of markets 0 and 2, market 2 resolves, and market 0
    trades at 40 cents. *)
Definition ex_lp : gmap Z (list Nanos) := {[ 0 := [500000000; 500000000] ]}.
Definition ex_fresh : option (list (Z * list Nanos)) := Some [(0, [400000000; 600000000])].
Definition ex_merged : gmap Z (list Nanos) * gmap Z (list Nanos) := merge_prices ex_fresh {[0]} (tradeable_markets ex_m5) ∅ ex_lp.
Definition ex_market_block : BlockWitness := market_block ex_m3 ex_m5 ex_lp ex_merged.

Lemma ex_m3_inv : market_inv ex_m3.
Proof.
  eapply (market_steps_inv map_to_list); [done| |by apply (market_init_inv ex_q)]. etrans; [apply ex_run1|].
  destruct (step_after (create_market "B") ex_m1) as [a1 H1]; [by vm_compute|].
  destruct (step_after (create_market "C") (after (create_market "B") ex_m1)) as [a2 H2]; [by vm_compute|].
  destruct (step_after (create_market_group_with_key "race" (Some "g1"%string) [2; 0; 2]) ex_m2) as [a3 H3]; [by vm_compute|].
  eapply rtc_l; [by eapply mstep_create|]. eapply rtc_l; [by eapply mstep_create|]. apply rtc_once. by eapply mstep_group_key.
Qed.
Lemma ex_m3_queue : resolutions ex_m3 = [] ∧ extensions ex_m3 = [].
Proof. by vm_compute. Qed.
Lemma ex_stable_run : rtc (stable_op map_to_list) ex_m3 ex_m5.
Proof.
  destruct (step_after (extend_market_group 0 1) ex_m3) as [a4 H4]; [by vm_compute|]. destruct ex_resolves as [r H5].
  eapply rtc_l; [split; [apply op_market; by eapply mstep_extend|]|apply rtc_once; split; [apply op_market; by eapply mstep_resolve|]];
    unfold keeps_groups; vm_compute; lia.
Qed.
Lemma ex_m5_events : resolutions ex_m5 = [(2, 700)] ∧ extensions ex_m5 = [(0, 1)].
Proof. by vm_compute. Qed.
Lemma ex_prices_start : prices_inv ex_m3 ex_lp.
Proof.
  intros m ps H. unfold ex_lp in H. apply lookup_singleton_Some in H as [<- <-]. split; [exists (mkMarket 0 "A"); by vm_compute|]. split; [done|].
  repeat constructor; unfold NANOS_PER_DOLLAR; lia.
Qed.
Lemma ex_tradeable : tradeable_markets ex_m5 = {[0; 1]}.
Proof. by vm_compute. Qed.
Lemma ex_fresh_ok : fresh_ok ex_m5 ex_fresh {[0]}.
Proof.
  split; [rewrite ex_tradeable; set_solver|]. intros l m ps [= <-] [= -> ->]%list_elem_of_singleton _. split; [done|].
  repeat constructor; unfold NANOS_PER_DOLLAR; lia.
Qed.

Lemma market_transition_verifies_witness :
  verify_market_transition ex_market_block = [] ∧ market_inv ex_m5 ∧ prices_inv ex_m5 ex_merged.1.
Proof.
  apply (market_transition_verifies (λ b, b) map_to_list (λ m, reflexivity _) ex_m3 ex_m5 ex_lp ex_merged.1 ex_merged.2 ex_market_block ex_fresh {[0]} ∅).
  - exact ex_m3_inv.
  - exact (proj1 ex_m3_queue).
  - eapply rtc_subrel; [|exact ex_stable_run]. intros x y [H _]. exact H.
  - exact ex_prices_start.
  - exact ex_fresh_ok.
  - reflexivity.
  - apply market_block_witness.
Defined.

Lemma group_transition_verifies_witness : extensions ex_m5 = [(0, 1)] ∧ verify_market_group_transition ex_market_block = [].
Proof.
  split; [exact (proj2 ex_m5_events)|].
  apply (group_transition_verifies (λ b, b) map_to_list (λ m, reflexivity _) ex_m3 ex_m5 ex_lp ex_merged.1 ex_merged.2 ex_market_block).
  - exact ex_m3_inv.
  - exact (proj1 ex_m3_queue).
  - exact (proj2 ex_m3_queue).
  - exact ex_stable_run.
  - intros g m. unfold resolved_now. rewrite (proj1 ex_m5_events), (proj2 ex_m5_events), list_elem_of_singleton. intros [= -> ->].
    cbn. rewrite list_elem_of_singleton. lia.
  - apply market_block_witness.
Defined.

(** Two groups of two; one member of the first resolves. *)
Definition ex_h0 : MarketSequencer :=
  after (create_market_group_with_key "second" None [2; 3]) (after (create_market_group_with_key "first" None [0; 1]) (after (create_market "D") ex_m2)).
Definition ex_h1 : MarketSequencer := after (seq_resolve_market [] 0 700 5) ex_h0.
Lemma ex_h0_inv : market_inv ex_h0.
Proof.
  eapply (market_steps_inv map_to_list); [done| |by apply (market_init_inv ex_q)]. etrans; [apply ex_run1|].
  destruct (step_after (create_market "B") ex_m1) as [a1 H1]; [by vm_compute|].
  destruct (step_after (create_market "C") (after (create_market "B") ex_m1)) as [a2 H2]; [by vm_compute|].
  destruct (step_after (create_market "D") ex_m2) as [a3 H3]; [by vm_compute|].
  destruct (step_after (create_market_group_with_key "first" None [0; 1]) (after (create_market "D") ex_m2)) as [a4 H4]; [by vm_compute|].
  destruct (step_after (create_market_group_with_key "second" None [2; 3]) (after (create_market_group_with_key "first" None [0; 1]) (after (create_market "D") ex_m2))) as [a5 H5]; [by vm_compute|].
  do 3 (eapply rtc_l; [by eapply mstep_create|]). eapply rtc_l; [by eapply mstep_group_key|]. apply rtc_once. by eapply mstep_group_key.
Qed.
Lemma ex_h0_groups : mq_groups ex_h0 = [mkMarketGroup "first" None [0; 1]; mkMarketGroup "second" None [2; 3]].
Proof. by vm_compute. Qed.
Lemma ex_h1_ok : ∃ r, seq_resolve_market [] 0 700 5 ex_h0 = SOk ex_h1 r.
Proof. apply step_after. by vm_compute. Qed.

Lemma group_hazard_rejected_witness : verify_market_group_transition (market_block ex_h0 ex_h1 ∅ (∅, ∅)) ≠ [].
Proof.
  apply (group_hazard_rejected (λ b, b) ex_h0 ex_h1 ∅ ∅ ∅).
  - exact ex_h0_inv.
  - destruct ex_h1_ok as [r Hr]. eapply (hazard_dissolved _ _ [] 0 700 5 r 0 _ _ Hr).
    + rewrite ex_h0_groups. reflexivity.
    + reflexivity.
    + rewrite ex_h0_groups. reflexivity.
    + discriminate.
  - eexists. reflexivity.
  - apply (market_block_witness ex_h0 ex_h1 ∅ (∅, ∅)).
Defined.
