(* ===== verification/SidecarVerified.v ===== *)
(** * SidecarVerified: the whole sidecar layer accepts an honest block

    Composes the resting-order, bridge and market results into one statement
    about [verify_sidecar]: the leaves the sequencer publishes before and after a
    block pass every check of the layer. *)
From S2P Require Import Prelude Types Order Market Account Validation OrderBook Snapshots BookInvariant BookOps Digest BatchSettlement Finalize Witness Sidecar L1Protocol DepositFrontier AccountKeys SystemVerifier Oracle Bridge Sequencer MarketLifecycle MarketGroups BridgeOps SystemPhase SystemInvariant MarketRuns BridgeSidecar BridgeRuns BridgeVerified SidecarMarkets MarketVerified.

(** ** Reservation leaves recomputed from the resting orders *)

Section leaves.
Context {E : Type}.

Definition balance_entry_step (bal : gmap Z Z) (ro : RestingOrder) : outcome E (gmap Z Z) :=
  if 0 <? ro_reserved_balance ro then add0 I64 bal (ro_account_id ro) (ro_reserved_balance ro) else Ok bal.
Definition position_entry_step (a : Z) (pos : gmap (Z * (Z * Z)) Z) (e : (Z * Z) * Z) : outcome E (gmap (Z * (Z * Z)) Z) :=
  let '(key, qty) := e in if negb (qty =? 0) then add0 I64 pos (a, key) qty else Ok pos.

Lemma balance_entry ro bal : res_nonneg ro → (∀ a, 0 ≤ get0 bal a) → (∀ a, get0 bal a + bal_of a ro ≤ int_max I64) →
  ∃ bal', balance_entry_step bal ro = Ok bal' ∧ ∀ a, get0 bal' a = get0 bal a + bal_of a ro.
Proof.
  intros [Hb _] H0 Hm. unfold balance_entry_step, bal_of. destruct (Z.ltb_spec 0 (ro_reserved_balance ro)).
  - eexists. split; [apply add0_in; specialize (H0 (ro_account_id ro)); specialize (Hm (ro_account_id ro)); unfold bal_of in Hm; rewrite decide_True in Hm by done; int_lia|].
    intros a. rewrite get0_insert. destruct (decide (ro_account_id ro = a)) as [<-|]; lia.
  - exists bal. split; [done|]. intros a. case_decide; lia.
Qed.

Lemma position_entries a l : Forall (λ '(_, q), 0 ≤ q) l → ∀ pos, (∀ k, 0 ≤ get0 pos k) →
  (∀ k, get0 pos k + (if decide (a = k.1) then key_sum k.2 l else 0) ≤ int_max I64) →
  ∃ pos', ofold (position_entry_step a) pos l = Ok pos' ∧ ∀ k, get0 pos' k = get0 pos k + (if decide (a = k.1) then key_sum k.2 l else 0).
Proof.
  induction 1 as [|[key q] l Hq Hl IH]; intros pos H0 Hm; cbn [ofold].
  { exists pos. split; [done|]. intros k. case_decide; cbn; lia. }
  assert (∀ k : Z * (Z * Z), 0 ≤ key_sum k.2 l) as Hnn.
  { intros k. apply sumZ_nonneg. intros [k' q'] Hin. rewrite Forall_forall in Hl. specialize (Hl _ Hin). cbn in Hl. case_decide; lia. }
  assert (∀ k, (if decide (a = k.1) then key_sum k.2 ((key, q) :: l) else 0) =
    (if decide ((a, key) = k) then q else 0) + (if decide (a = k.1) then key_sum k.2 l else 0)) as Hsplit.
  { intros [ka kk]. cbn [fst snd]. change (key_sum kk ((key, q) :: l)) with ((if decide (key = kk) then q else 0) + key_sum kk l). destruct (decide (a = ka)) as [<-|]; [|rewrite (decide_False (P := (a, key) = (ka, kk))) by congruence; lia].
    destruct (decide (key = kk)) as [<-|]; [by rewrite (decide_True (P := (a, key) = (a, key)))|]. rewrite (decide_False (P := (a, key) = (a, kk))) by congruence. lia. }
  assert (∃ pos1, position_entry_step a pos (key, q) = Ok pos1 ∧ ∀ k, get0 pos1 k = get0 pos k + (if decide ((a, key) = k) then q else 0)) as (pos1 & -> & H1).
  { unfold position_entry_step. destruct (Z.eqb_spec q 0) as [->|Hne]; cbn [negb].
    - exists pos. split; [done|]. intros k. case_decide; lia.
    - eexists. split; [apply add0_in|].
      + specialize (H0 (a, key)). specialize (Hm (a, key)). specialize (Hnn (a, key)). rewrite Hsplit in Hm. cbn [fst] in Hm. rewrite !decide_True in Hm by done. int_lia.
      + intros k. rewrite get0_insert. destruct (decide ((a, key) = k)) as [<-|]; lia. }
  cbn [mbind outcome_bind].
  destruct (IH pos1) as (pos' & Hf & Hp).
  - intros k. rewrite H1. specialize (H0 k). case_decide; lia.
  - intros k. specialize (Hm k). rewrite Hsplit in Hm. rewrite H1. lia.
  - exists pos'. split; [done|]. intros k. rewrite Hp, H1, Hsplit. lia.
Qed.

Lemma order_aggregates l : Forall res_nonneg l → ∀ bal pos, (∀ a, 0 ≤ get0 bal a) → (∀ k, 0 ≤ get0 pos k) →
  (∀ a, get0 bal a + sumZ (bal_of a) l ≤ int_max I64) → (∀ k, get0 pos k + sumZ (pos_of k) l ≤ int_max I64) →
  ∃ bal' pos', ofold (λ '(bal, pos) ro, bal' ← balance_entry_step bal ro; pos' ← ofold (position_entry_step (ro_account_id ro)) pos (ro_reserved_positions ro); Ok (bal', pos')) (bal, pos) l
    = Ok (bal', pos') ∧ (∀ a, get0 bal' a = get0 bal a + sumZ (bal_of a) l) ∧ (∀ k, get0 pos' k = get0 pos k + sumZ (pos_of k) l).
Proof.
  induction 1 as [|ro l Hro Hl IH]; intros bal pos Hb Hp Mb Mp; cbn [ofold].
  { exists bal, pos. split_and!; [done|intros; cbn [sumZ]; lia..]. }
  destruct (balance_entry ro bal Hro Hb) as (bal1 & -> & B1).
  { intros a. specialize (Mb a). cbn [sumZ] in Mb. pose proof (sumZ_bal_nonneg a l Hl). lia. }
  cbn [mbind outcome_bind].
  destruct (position_entries (ro_account_id ro) _ (proj2 Hro) pos Hp) as (pos1 & -> & P1).
  { intros k. specialize (Mp k). cbn [sumZ] in Mp. pose proof (sumZ_pos_nonneg k l Hl). unfold pos_of in Mp at 1. lia. }
  cbn [mbind outcome_bind].
  assert (∀ a, 0 ≤ bal_of a ro) as Hb0 by (intros a; unfold bal_of; destruct Hro; case_decide; lia).
  assert (∀ k, 0 ≤ pos_of k ro) as Hp0.
  { intros k. pose proof (sumZ_pos_nonneg k [ro] ltac:(by constructor)) as Hk. cbn [sumZ] in Hk. lia. }
  destruct (IH bal1 pos1) as (bal' & pos' & Hf & HB & HP).
  - intros a. rewrite B1. specialize (Hb a). specialize (Hb0 a). lia.
  - intros k. rewrite P1. specialize (Hp k). specialize (Hp0 k). unfold pos_of in Hp0. lia.
  - intros a. rewrite B1. specialize (Mb a). cbn [sumZ] in Mb. lia.
  - intros k. rewrite P1. specialize (Mp k). cbn [sumZ] in Mp. unfold pos_of in Mp at 1. lia.
  - exists bal', pos'. split_and!; [done| |].
    + intros a. rewrite HB, B1. cbn [sumZ]. lia.
    + intros k. rewrite HP, P1. cbn [sumZ]. unfold pos_of at 2. lia.
Qed.

(** The leaves recomputed from a consistent book pass the roll-up check. *)
Lemma order_leaves_verify b : book_inv b → NoDup ((λ ro, resting_id ro) <$> ob_orders b) →
  ∃ leaves, @reservation_snapshots_from_resting_orders E (ob_orders b) = Ok leaves ∧
    ∀ F, @verify_resting_order_reservations F (state_root_orders b) leaves = Ok [].
Proof.
  intros Hinv Hnd. destruct (book_rollup b Hinv Hnd) as (m1 & H1 & R1 & Z1). destruct Hinv as [Hall Hagg].
  assert (Forall res_nonneg (ob_orders b)) as Hnn by (eapply Forall_impl; [exact Hall|]; intros ro Hro; by apply ro_ok_nonneg).
  destruct (order_aggregates _ Hnn ∅ ∅) as (bal & pos & Hf & HB & HP); try (intros; by rewrite get0_empty).
  { intros a. rewrite get0_empty. pose proof (agg_bal_range _ _ _ Hagg a). cbv beta in *. lia. }
  { intros k. rewrite get0_empty. pose proof (agg_pos_range _ _ _ Hagg k). cbv beta in *. lia. }
  unfold reservation_snapshots_from_resting_orders. unfold balance_entry_step, position_entry_step in Hf. rewrite Hf. cbn [mbind outcome_bind].
  assert (∀ a, get0 bal a = sumZ (bal_of a) (ob_orders b)) as HB' by (intros a; rewrite HB, get0_empty; lia).
  assert (∀ k, get0 pos k = sumZ (pos_of k) (ob_orders b)) as HP' by (intros k; rewrite HP, get0_empty; lia).
  destruct (aggregates_leaves (E := E) bal pos) as (l & Hl & Hndl & Hok & LB & LP).
  - intros a z Ha. specialize (HB' a). unfold get0 in HB'. rewrite Ha in HB'. cbn in HB'. rewrite HB'. split; [by apply sumZ_bal_nonneg|]. pose proof (agg_bal_range _ _ _ Hagg a). cbv beta in *. lia.
  - intros k z Hk. specialize (HP' k). unfold get0 in HP'. rewrite Hk in HP'. cbn in HP'. rewrite HP'. split; [by apply sumZ_pos_nonneg|]. pose proof (agg_pos_range _ _ _ Hagg k). cbv beta in *. lia.
  - exists l. split; [done|]. intros F. destruct (leaves_ok l ∅ _ _ rolled_empty) as (m2 & H2 & Z2 & [C1 C2 C3]); [intros a t; by rewrite lookup_empty|done|intros; apply lookup_empty|done|].
    assert (rolled m2 (λ a, sumZ (bal_of a) (ob_orders b)) (λ k, sumZ (pos_of k) (ob_orders b))) as R2.
    { constructor; [| |done]; intros; [rewrite C1, LB, HB'|rewrite C2, LP, HP']; lia. }
    unfold verify_resting_order_reservations. rewrite H1. unfold reservations_from_account_snapshots. rewrite H2, (rolled_eq m1 m2 _ _ R1 R2 Z1 Z2). by rewrite decide_True.
Qed.
End leaves.

Lemma transition_post_inv k w : block_transition k w → book_inv (bk_post k).
Proof.
  intros T. destruct (transition_settled T) as (fq & Hfq & _).
  destruct (settle_ok _ fq (bk_mm k) (hd_height (bw_header w)) (bk_batch k) (bt_batch_inv T) Hfq) as (b2 & Hs & _ & _ & Hinv).
  destruct (bt_settle T) as [exits Hs']. rewrite Hs' in Hs. by injection Hs as -> _.
Qed.

(** ** Runs of the node *)

(** An operation on markets, or a system operation that queues no market event. *)
Inductive node_op (blake3 sha256 keccak256 : Bytes → Bytes) (iter : gmap Z MarketMetadata → list (Z * MarketMetadata))
    : MarketSequencer → MarketSequencer → Prop :=
  | node_market s s' : market_step iter s s' → node_op blake3 sha256 keccak256 iter s s'
  | node_system s q : sys_step blake3 sha256 keccak256 (mq_seq s) q → sq_market_groups q = mq_groups s →
      omap resolution_of (sq_pending_system_events q) = resolutions s → omap extension_of (sq_pending_system_events q) = extensions s →
      node_op blake3 sha256 keccak256 iter s (mkMarketSequencer q (mq_markets s) (mq_lifecycle s)).

Definition stable_node_op blake3 sha256 keccak256 iter (s s' : MarketSequencer) : Prop :=
  node_op blake3 sha256 keccak256 iter s s' ∧ keeps_groups s s'.

Section node.
Context (blake3 sha256 keccak256 : Bytes → Bytes) (iter : gmap Z MarketMetadata → list (Z * MarketMetadata)).

Lemma node_block_op s s' : stable_node_op blake3 sha256 keccak256 iter s s' → stable_op iter s s'.
Proof. intros [Hop Hk]. split; [|done]. destruct Hop; [by apply op_market|by apply op_other]. Qed.

(** Market operations leave the bridge and its events alone. *)
Lemma group_frame s g : bridge_frame s (set_market_groups g s).
Proof. done. Qed.

Lemma extension_frame e s : bridge_event e = false → bridge_frame s (recorded e s).
Proof.
  intros He. split; [done|]. unfold queued, recorded. cbn [set_events sq_pending_system_events]. rewrite bridge_events_app.
  unfold bridge_events at 2. rewrite filter_cons, decide_False by congruence. apply app_nil_r.
Qed.

Lemma market_step_framed (I : Sequencer → Prop) s s' : framed I → market_step iter s s' → I (mq_seq s) → I (mq_seq s').
Proof.
  intros HI Hstep Hs. destruct Hstep as [name s s' id H|name md s s' id H|name ids s s' r H|name key ids s s' r H|gid m s s' r Hgid H
    |ids m y t s s' r H|ids m signed t s s' r H|pk name t s s' id H|tpl s s' u H].
  - by apply create_market_SOk in H as (_ & _ & ->).
  - by apply create_with_SOk in H as [[-> _]|(_ & _ & _ & ->)].
  - unfold create_market_group in H. destruct (create_market_group_with_key _ _ _ _) eqn:E; [|done..]. simplify_eq.
    apply create_group_SOk in E as [[-> _]|(g & _ & _ & -> & _)]; [done|]. cbn. eapply HI; [apply group_frame|done].
  - apply create_group_SOk in H as [[-> _]|(g & _ & _ & -> & _)]; [done|]. cbn. eapply HI; [apply group_frame|done].
  - apply extend_SOk in H as (g & _ & [(_ & _ & ->)|(g' & _ & _ & _ & _ & _ & ->)]); [done|]. cbn.
    eapply HI; [by apply extension_frame|]. eapply HI; [apply group_frame|done].
  - apply seq_resolve_SOk in H as (_ & _ & _ & _ & _ & _ & _ & ids' & H). by eapply preserves_resolution.
  - apply seq_attested_SOk in H as (_ & _ & _ & _ & _ & _ & _ & ids' & H). by eapply preserves_resolution.
  - unfold register_feed in H. destruct (register _ _ _ _) as [fr i| |]; [|done..]. by injection H as <- <-.
  - by injection H as <-.
Qed.

Lemma node_bridge_run s0 s s' : 0 ≤ bs_deposit_cursor (sq_bridge s0) → 0 ≤ bs_next_withdrawal_id (sq_bridge s0) →
  rtc (stable_node_op blake3 sha256 keccak256 iter) s s' → bridge_run blake3 keccak256 s0 (mq_seq s) → bridge_run blake3 keccak256 s0 (mq_seq s').
Proof.
  intros Hc Hn. induction 1 as [|s s1 s' [Hop _] _ IH]; intros Hrun; [done|]. apply IH. destruct Hop as [s s1 H|s q H].
  - eapply market_step_framed; [apply bridge_run_framed|done|done].
  - by eapply sys_step_run.
Qed.
End node.

(** ** The block *)

(** A block of the node: the state [s0] the last block left, the state [s] when
    the block is produced, the system state [q] after its system phase, the books
    [k] the block goes through and the witness [w].  Revalidation reads the accounts
    of [q] and the tradeable markets of [s]. *)
Record node_block (blake3 sha256 keccak256 : Bytes → Bytes) (iter : gmap Z MarketMetadata → list (Z * MarketMetadata))
    (s0 s : MarketSequencer) (q : Sequencer) (k : block_books) (lp0 lp : gmap Z (list Nanos)) (w : BlockWitness) : Prop := {
  nb_run : rtc (stable_node_op blake3 sha256 keccak256 iter) s0 s;
  nb_no_clash : ∀ g m, (g, m) ∈ extensions s → ¬ resolved_now s m;
  nb_ids_left : bs_next_withdrawal_id (sq_bridge (mq_seq s)) < int_max U64;
  nb_tree_left : bs_deposit_cursor (sq_bridge (mq_seq s0)) < deposit_tree_capacity;
  nb_phase : ∃ bl bd, system_phase blake3 (mq_seq s) = SOk q (sort_system_events (sq_pending_system_events (mq_seq s)), bl, bd);
  nb_book : block_transition k w;
  nb_books : bk_pre k = sq_order_book (mq_seq s0) ∧ bk_accounts k = as_accounts (sq_accounts q) ∧ bk_active k = tradeable_markets s;
  nb_prices : ∃ fresh filled position, fresh_ok s fresh filled ∧ (lp, bw_clearing_prices w) = merge_prices fresh filled (tradeable_markets s) position lp0;
  nb_pre : ∃ it, it ≡ₚ map_to_list (bs_quarantine (sq_bridge (mq_seq s0))) ∧ @state_sidecar_snapshot sha256 Empty_set it s0 lp0 = Ok (bw_pre_state_sidecar w);
  nb_post : ∃ it, it ≡ₚ map_to_list (bs_quarantine (sq_bridge q)) ∧
    @state_sidecar_snapshot sha256 Empty_set it (mkMarketSequencer (set_order_book (bk_post k) q) (mq_markets s) (mq_lifecycle s)) lp
      = Ok (bw_state_sidecar w);
  nb_events : bw_system_events w = convert_system_event <$> sort_system_events (sq_pending_system_events (mq_seq s));
  nb_deposits : bw_deposit_accumulator w = mkDepositAccumulatorWitness (bs_deposit_frontier (sq_bridge (mq_seq s0)))
    (bs_deposit_cursor (sq_bridge (mq_seq s0))) (new_deposits (sort_system_events (sq_pending_system_events (mq_seq s))));
  nb_resolved : ∃ it, it ≡ₚ map_to_list (lc_market_statuses (mq_lifecycle s)) ∧ bw_resolved_markets w = resolved_market_ids it;
}.

Lemma snapshot_fields sha256 it s lp sc : @state_sidecar_snapshot sha256 Empty_set it s lp = Ok sc →
  ∃ leaves, @reservation_snapshots_from_resting_orders Empty_set (ob_orders (sq_order_book (mq_seq s))) = Ok leaves ∧
    ss_bridge sc = bridge_state_snapshot it (sq_bridge (mq_seq s)) ∧ ss_markets sc = market_snapshots sha256 (mq_markets s) (mq_lifecycle s) lp ∧
    ss_market_groups sc = market_group_snapshots (mq_groups s) ∧ ss_resting_orders sc = state_root_orders (sq_order_book (mq_seq s)) ∧
    ss_account_reservations sc = leaves.
Proof.
  unfold state_sidecar_snapshot, state_sidecar_snapshot_from_resting_orders. destruct (reservation_snapshots_from_resting_orders _) as [l|e|] eqn:E; cbn; [|done..].
  intros [= <-]. exists l. cbn. done.
Qed.

Lemma quarantine_clean blake3 w r : verify_quarantine_transition blake3 w = Ok r → vr_valid r = true → vr_violations r = [].
Proof.
  unfold verify_quarantine_transition. intros H Hv.
  assert (∀ vs, Ok (E := Empty_set) (from_violations vs) = Ok r → vr_violations r = []) as Hf.
  { intros vs [= <-]. cbn in *. by apply bool_decide_eq_true in Hv. }
  cbv [mbind outcome_bind] in H. destruct (match ledger_map _ with Ok _ => _ | _ => _ end) as [[l v1]|e|]; [|done..].
  destruct (ofold _ _ _) as [[l' v3]|e|]; [|done..].
  destruct (ledger_map _) as [c|e|]; [by apply Hf in H..|done].
Qed.

(** The reservation leaves of a snapshot pass. *)
Lemma snapshot_reservations sha256 it s lp sc F : book_inv (sq_order_book (mq_seq s)) → NoDup ((λ ro, resting_id ro) <$> ob_orders (sq_order_book (mq_seq s))) →
  @state_sidecar_snapshot sha256 Empty_set it s lp = Ok sc → @verify_resting_order_reservations F (ss_resting_orders sc) (ss_account_reservations sc) = Ok [].
Proof.
  intros Hinv Hnd (leaves & Hl & _ & _ & _ & -> & ->)%snapshot_fields. destruct (@order_leaves_verify Empty_set _ Hinv Hnd) as (l & Hl' & Hv).
  rewrite Hl in Hl'. injection Hl' as ->. apply Hv.
Qed.

Section sidecar.
Context (blake3 sha256 keccak256 : Bytes → Bytes) (iter : gmap Z MarketMetadata → list (Z * MarketMetadata)) (iter_perm : ∀ m, iter m ≡ₚ map_to_list m).
Context (s0 s : MarketSequencer) (q : Sequencer) (k : block_books) (lp0 lp : gmap Z (list Nanos)) (w : BlockWitness).
Context (Hq0 : sq_pending_system_events (mq_seq s0) = []) (Hstart : bridge_start keccak256 (mq_seq s0)) (Hinv : market_inv s0) (Hp0 : prices_inv s0 lp0).
Context (Hblk : node_block blake3 sha256 keccak256 iter s0 s q k lp0 lp w).

Lemma node_phase_groups : sq_market_groups q = mq_groups s.
Proof. destruct (nb_phase _ _ _ _ _ _ _ _ _ _ _ Hblk) as (bl & bd & H). unfold system_phase in H. sinv H. done. Qed.

Lemma node_market_witness : market_witness sha256 s0 s lp0 lp (bw_clearing_prices w) w.
Proof.
  destruct (nb_pre _ _ _ _ _ _ _ _ _ _ _ Hblk) as (i0 & _ & (l0 & _ & _ & Hm0 & Hg0 & _)%snapshot_fields).
  destruct (nb_post _ _ _ _ _ _ _ _ _ _ _ Hblk) as (i1 & _ & (l1 & _ & _ & Hm1 & Hg1 & _)%snapshot_fields).
  split; [exact Hm0|exact Hm1|exact Hg0|by rewrite <- node_phase_groups|by eapply nb_events|done|by eapply nb_resolved].
Qed.

Lemma node_bridge_witness : bridge_witness (mq_seq s0) q (sort_system_events (sq_pending_system_events (mq_seq s))) w.
Proof.
  destruct (nb_pre _ _ _ _ _ _ _ _ _ _ _ Hblk) as (i0 & Hi0 & (l0 & _ & Hb0 & _)%snapshot_fields).
  destruct (nb_post _ _ _ _ _ _ _ _ _ _ _ Hblk) as (i1 & Hi1 & (l1 & _ & Hb1 & _)%snapshot_fields).
  split; [by exists i0|by exists i1|by eapply nb_events|by eapply nb_deposits|].
  destruct (bt_prev (nb_book _ _ _ _ _ _ _ _ _ _ _ Hblk)) as [h Hh]. by rewrite Hh.
Qed.

Lemma node_bridge_verifies : @verify_withdrawal_transition Empty_set w = Ok [] ∧ verify_deposit_accumulator blake3 keccak256 w = [] ∧
  (∃ r, verify_quarantine_transition blake3 w = Ok r ∧ vr_valid r = true).
Proof.
  destruct (nb_phase _ _ _ _ _ _ _ _ _ _ _ Hblk) as (bl & bd & Hph). pose proof node_bridge_witness as Hwit.
  pose proof (start_cursor _ _ Hstart) as [Hc0 _]. pose proof (bst_next _ _ Hstart) as Hn0.
  pose proof (node_bridge_run blake3 sha256 keccak256 iter _ _ _ Hc0 Hn0 (nb_run _ _ _ _ _ _ _ _ _ _ _ Hblk) (start_run _ _ _ Hq0 Hstart)) as Hrun.
  pose proof (nb_ids_left _ _ _ _ _ _ _ _ _ _ _ Hblk) as Hmax. pose proof (nb_tree_left _ _ _ _ _ _ _ _ _ _ _ Hblk) as Hcap.
  destruct (run_withdrawals _ _ _ _ Hrun Hmax) as [we Hwe]. split_and!.
  - by eapply withdrawals_verify.
  - eapply deposits_verify; eauto using run_deposits.
  - eapply quarantine_verifies; eauto using run_quarantine.
Qed.

Lemma node_queue : resolutions s0 = [] ∧ extensions s0 = [].
Proof. unfold resolutions, extensions. by rewrite Hq0. Qed.

Lemma node_stable : rtc (stable_op iter) s0 s.
Proof. eapply rtc_subrel; [|by eapply nb_run]. intros x y. by apply node_block_op. Qed.

Lemma node_markets_verify : verify_market_transition w = [] ∧ verify_market_group_transition w = [].
Proof.
  destruct node_queue as [Hr He]. destruct (stable_run _ s0 _ _ iter_perm node_stable (run_start _ Hinv Hr) (group_run_start _ He Hr)) as [Hrun Hgr].
  destruct (nb_prices _ _ _ _ _ _ _ _ _ _ _ Hblk) as (fresh & filled & position & Hf & Hm). pose proof node_market_witness as Hw. split.
  - assert (lp = (merge_prices fresh filled (tradeable_markets s) position lp0).1) as -> by (by rewrite <- Hm).
    assert (bw_clearing_prices w = (merge_prices fresh filled (tradeable_markets s) position lp0).2) as Hc by (by rewrite <- Hm).
    rewrite Hc in Hw. by eapply block_markets_verify.
  - eapply group_transition_eq; [done|by eapply mru_inv|done|]. right. intros i g0 Hg0. destruct (Hgr i g0 Hg0) as (g & -> & Hn & Hk & Hms).
    split_and!; [done..|]. intros m. rewrite Hms. pose proof (nb_no_clash _ _ _ _ _ _ _ _ _ _ _ Hblk (Z.of_nat i) m). naive_solver.
Qed.

(** C18: what the sidecar layer says of a block of the sequencer.  From a state the
    last block left, after any run of market and system operations (no group
    dissolved, no market joining a group and resolving in the block), the system
    phase, the block-start expiry and revalidation of the book, the acceptance of
    the batch, its settlement and the merge of clearing prices, the whole of
    [verify_sidecar] (reservations before and after, resting orders, withdrawals,
    deposits, quarantine, markets and groups) returns, and accepts exactly when
    every committed order that revalidation evicted has nothing left to fill, expires
    with the block, or trades in a market resolved in it.  Other evictions are
    rejected: see [zero_balance_eviction]. *)
Theorem sidecar_layer_verifies : ∃ r, verify_sidecar blake3 keccak256 w = Ok r ∧ (vr_valid r = true ↔ evictions_explained k w).
Proof.
  pose proof (nb_book _ _ _ _ _ _ _ _ _ _ _ Hblk) as T. destruct (nb_books _ _ _ _ _ _ _ _ _ _ _ Hblk) as (Hbook & _).
  destruct (nb_pre _ _ _ _ _ _ _ _ _ _ _ Hblk) as (i0 & _ & Hpre), (nb_post _ _ _ _ _ _ _ _ _ _ _ Hblk) as (i1 & _ & Hpost).
  destruct node_bridge_verifies as (Hw & Hd & quar & Hqu & Hval), node_markets_verify as [Hm Hg].
  pose proof (bt_pre_inv T) as Hpi. pose proof (transition_pre_ids T) as Hpn. rewrite Hbook in Hpi, Hpn.
  unfold verify_sidecar. rewrite (snapshot_reservations _ _ _ _ _ _ Hpi Hpn Hpre). cbn [mbind outcome_bind].
  rewrite (snapshot_reservations _ _ (mkMarketSequencer (set_order_book (bk_post k) q) (mq_markets s) (mq_lifecycle s)) _ _ _
    (transition_post_inv _ _ T) (transition_post_ids T) Hpost). cbn [mbind outcome_bind].
  destruct (resting_transition_exact (E := Empty_set) T) as (vs & -> & Hvs). rewrite Hw, Hqu, Hd, Hm, Hg. cbn [mbind outcome_bind app]. eexists. split; [done|].
  rewrite (quarantine_clean _ _ _ Hqu Hval). cbn [app]. rewrite app_nil_r. rewrite <- Hvs. apply bool_decide_eq_true.
Qed.
End sidecar.

(** ** Witness *)

(** Market 1 joins the group of markets 0 and 2 and a deposit arrives; market 0
    trades. *)
Definition ex_n0 : MarketSequencer := mkMarketSequencer (set_market_groups (mq_groups ex_m3) ex_seq) (mq_markets ex_m3) (mq_lifecycle ex_m3).
Definition ex_n1 : MarketSequencer := MarketGroups.after (extend_market_group 0 1) ex_n0.
Definition ex_nq : Sequencer := BridgeOps.after (ingest_l1_deposit ex_hash ex_hash ex_l1_deposit) (mq_seq ex_n1).
Definition ex_n2 : MarketSequencer := mkMarketSequencer ex_nq (mq_markets ex_n1) (mq_lifecycle ex_n1).
Definition ex_n3 : Sequencer := (phase_result ex_nq).1.
Definition ex_node_prices : gmap Z (list Nanos) * gmap Z (list Nanos) := merge_prices ex_fresh {[0]} (tradeable_markets ex_n2) ∅ ex_lp.

Definition sidecar_of (s : MarketSequencer) (lp : gmap Z (list Nanos)) : StateSidecarSnapshot :=
  match @state_sidecar_snapshot ex_hash Empty_set (map_to_list (bs_quarantine (sq_bridge (mq_seq s)))) s lp with
  | Ok sc => sc
  | _ => mkStateSidecarSnapshot (mkBridgeStateSnapshot 0 [] 0 0 [] []) [] [] [] []
  end.
Definition ex_node_end : MarketSequencer := mkMarketSequencer (set_order_book (sq_order_book ex_seq) ex_n3) (mq_markets ex_n2) (mq_lifecycle ex_n2).
Definition ex_node_block : BlockWitness :=
  let header := mkWitnessBlockHeader 13 [] [] [] 0 0 0 in
  let evs := sort_system_events (sq_pending_system_events ex_nq) in
  mkBlockWitness header (Some header) [] [] [] (convert_system_event <$> evs)
    (mkDepositAccumulatorWitness (bs_deposit_frontier (sq_bridge ex_seq)) (bs_deposit_cursor (sq_bridge ex_seq)) (new_deposits evs))
    [] ex_node_prices.2 0 0 [] [] [] [] [] [] (sidecar_of ex_node_end ex_node_prices.1) (sidecar_of ex_n0 ex_lp)
    (resolved_market_ids (map_to_list (lc_market_statuses (mq_lifecycle ex_n2)))).

Lemma ex_n0_inv : market_inv ex_n0.
Proof.
  pose proof (op_other map_to_list ex_m3 (set_market_groups (mq_groups ex_m3) ex_seq) eq_refl (eq_sym (proj1 ex_m3_queue)) (eq_sym (proj2 ex_m3_queue))) as H.
  exact (proj1 (block_op_inv map_to_list ex_m3 ex_n0 (λ m, reflexivity _) H ex_m3_inv)).
Qed.
Lemma ex_n0_bridge : bridge_start ex_hash (mq_seq ex_n0).
Proof. destruct ex_seq_bridge_start as [H1 H2 H3 H4]. split; [exact H1|exact H2|exact H3|exact H4]. Qed.
Lemma ex_n1_ok : ∃ r, extend_market_group 0 1 ex_n0 = SOk ex_n1 r.
Proof. eexists. vm_compute. reflexivity. Qed.
Lemma ex_nq_ok : ∃ r, ingest_l1_deposit ex_hash ex_hash ex_l1_deposit (mq_seq ex_n1) = SOk ex_nq r.
Proof. eexists. vm_compute. reflexivity. Qed.
Lemma ex_nq_events : sq_market_groups ex_nq = mq_groups ex_n1 ∧ omap resolution_of (sq_pending_system_events ex_nq) = resolutions ex_n1 ∧
  omap extension_of (sq_pending_system_events ex_nq) = extensions ex_n1.
Proof. split_and!; vm_compute; reflexivity. Qed.
Lemma ex_node_run : rtc (stable_node_op ex_hash ex_hash ex_hash map_to_list) ex_n0 ex_n2.
Proof.
  destruct ex_n1_ok as [r1 H1], ex_nq_ok as [r2 H2], ex_nq_events as (G & R & X).
  eapply rtc_l; [split; [apply node_market; by eapply mstep_extend|vm_compute; lia]|].
  apply rtc_once. split; [apply node_system; [by eapply sys_deposit|done..]|vm_compute; lia].
Qed.
Lemma ex_n3_ok : ∃ bl bd, system_phase ex_hash ex_nq = SOk ex_n3 (sort_system_events (sq_pending_system_events ex_nq), bl, bd).
Proof. eexists _, _. vm_compute. reflexivity. Qed.
Lemma ex_n2_resolutions : resolutions ex_n2 = [].
Proof. vm_compute. reflexivity. Qed.
Lemma ex_n2_bounds : bs_next_withdrawal_id (sq_bridge (mq_seq ex_n2)) < int_max U64 ∧ bs_deposit_cursor (sq_bridge (mq_seq ex_n0)) < deposit_tree_capacity.
Proof. split; vm_compute; reflexivity. Qed.
Definition ex_node_books : block_books :=
  let b := sq_order_book ex_seq in mkBlockBooks b b b b b b [] [] [] (as_accounts (sq_accounts ex_n3)) (tradeable_markets ex_n2) ∅.
Lemma ex_node_empty : ob_orders (sq_order_book ex_seq) = [].
Proof. vm_compute. reflexivity. Qed.
Lemma ex_node_book : block_transition ex_node_books ex_node_block.
Proof.
  split; [by eexists|vm_compute; reflexivity|vm_compute; reflexivity|exact (book_inv_new 100)|exact (book_inv_new 100)|exact (book_inv_new 100)|vm_compute; reflexivity|..].
  - eexists. vm_compute. reflexivity.
  - intros ro a Hro. unfold ex_node_books in Hro. cbn [bk_unexpired] in Hro. rewrite ex_node_empty in Hro. destruct (not_elem_of_nil _ Hro).
  - vm_compute. reflexivity.
  - vm_compute. reflexivity.
  - eexists. vm_compute. reflexivity.
  - apply Forall_nil_2.
  - intros f Hf. unfold ex_node_block in Hf. cbn [bw_fills] in Hf. destruct (not_elem_of_nil _ Hf).
  - apply NoDup_nil_2.
  - intros ro Hro. unfold ex_node_books in Hro. cbn [bk_pre] in Hro. rewrite ex_node_empty in Hro. destruct (not_elem_of_nil _ Hro).
  - intros ro Hro. unfold bk_news, ex_node_books in Hro. cbn [bk_direct bk_accepted app] in Hro. destruct (not_elem_of_nil _ Hro).
Qed.
Lemma ex_n2_tradeable : tradeable_markets ex_n2 = {[0; 1; 2]}.
Proof. by vm_compute. Qed.
Lemma ex_sidecar_pre : @state_sidecar_snapshot ex_hash Empty_set (map_to_list (bs_quarantine (sq_bridge (mq_seq ex_n0)))) ex_n0 ex_lp = Ok (bw_pre_state_sidecar ex_node_block).
Proof. vm_compute. reflexivity. Qed.
Lemma ex_sidecar_post : @state_sidecar_snapshot ex_hash Empty_set (map_to_list (bs_quarantine (sq_bridge ex_n3))) ex_node_end ex_node_prices.1 = Ok (bw_state_sidecar ex_node_block).
Proof. vm_compute. reflexivity. Qed.

Lemma ex_node_block_ok : node_block ex_hash ex_hash ex_hash map_to_list ex_n0 ex_n2 ex_n3 ex_node_books ex_lp ex_node_prices.1 ex_node_block.
Proof.
  split.
  - exact ex_node_run.
  - intros g m _. unfold resolved_now. rewrite ex_n2_resolutions. apply not_elem_of_nil.
  - exact (proj1 ex_n2_bounds).
  - exact (proj2 ex_n2_bounds).
  - exact ex_n3_ok.
  - exact ex_node_book.
  - split_and!; reflexivity.
  - exists ex_fresh, {[0]}, ∅. split; [|reflexivity]. destruct ex_fresh_ok as [_ H]. split; [rewrite ex_n2_tradeable; set_solver|exact H].
  - eexists. split; [reflexivity|exact ex_sidecar_pre].
  - eexists. split; [reflexivity|exact ex_sidecar_post].
  - reflexivity.
  - reflexivity.
  - eexists. split; reflexivity.
Qed.

Lemma sidecar_layer_verifies_witness : length (bw_system_events ex_node_block) = 2%nat ∧
  ∃ r, verify_sidecar ex_hash ex_hash ex_node_block = Ok r ∧ (vr_valid r = true ↔ evictions_explained ex_node_books ex_node_block).
Proof.
  split; [vm_compute; reflexivity|].
  apply (sidecar_layer_verifies ex_hash ex_hash ex_hash map_to_list (λ m, reflexivity _) ex_n0 ex_n2 ex_n3 ex_node_books ex_lp ex_node_prices.1 ex_node_block).
  - reflexivity.
  - exact ex_n0_bridge.
  - exact ex_n0_inv.
  - exact ex_prices_start.
  - exact ex_node_block_ok.
Defined.
