(* ===== verification/StateCommitment.v ===== *)
(** * StateCommitment: what a block header commits to

    Models [crates/sybil-verifier/src/state_schema.rs] (the typed state leaves),
    [block.rs] (layer 3), [event_commitment.rs], the header hash of
    [crates/sybil-zk/src/header_hash_impl.rs], and the composition of the layers
    in [lib.rs].  The authenticated databases are third-party code: their roots
    are the parameters [qmdb_root] (of sorted key/value leaves) and
    [keyless_root] (of the appended event bytes). *)
From S2P Require Import Prelude Types Order MmConstraint Account Digest Snapshots Finalize Witness Sidecar SettlementVerifier MatchVerifier OrdersVerifier L1Protocol AccountKeys Signing ClientAction KeyTransition WitnessBytes SystemVerifier BridgeSidecar SidecarMarkets.

(** ** Leaf keys and values *)

Definition account_leaf_key (account_id : Z) : Bytes := ascii_bytes "acct/" ++ be_bytes 8 account_id.
Definition market_leaf_key (market_id : MarketId) : Bytes := ascii_bytes "market/" ++ be_bytes 4 market_id.
Definition market_group_leaf_key (group_id : Z) : Bytes := ascii_bytes "market_group/" ++ be_bytes 8 group_id.
Definition withdrawal_leaf_key (withdrawal_id : Z) : Bytes := ascii_bytes "withdrawal/" ++ be_bytes 8 withdrawal_id.
Definition resting_order_leaf_key (order_id : Z) : Bytes := ascii_bytes "order/" ++ be_bytes 8 order_id.
Definition account_reservation_leaf_key (account_id : Z) : Bytes := ascii_bytes "acct_resv/" ++ be_bytes 8 account_id.

Definition sys_u64_leaf_value (name : Bytes) (raw : Z) : Bytes :=
  ascii_bytes "sybil/state/sys" ++ [wrap U8 (Z.of_nat (length name))] ++ name ++ le_bytes 8 raw.
Definition sys_bytes32_leaf_value (name raw : Bytes) : Bytes :=
  ascii_bytes "sybil/state/sys" ++ [wrap U8 (Z.of_nat (length name))] ++ name ++ raw.

Definition account_leaf (a : AccountSnapshot) : Bytes * Bytes := (account_leaf_key (asn_id a), append_state_account_leaf_value a).
Definition market_leaf (m : MarketSnapshot) : Bytes * Bytes := (market_leaf_key (msn_market_id m), append_state_market_leaf_value m).
Definition market_group_leaf (g : MarketGroupSnapshot) : Bytes * Bytes := (market_group_leaf_key (mgs_group_id g), append_state_market_group_leaf_value g).
Definition withdrawal_leaf (w : WithdrawalSnapshot) : Bytes * Bytes := (withdrawal_leaf_key (ws_withdrawal_id w), append_state_withdrawal_leaf_value w).
Definition resting_order_leaf (r : RestingOrderSnapshot) : Bytes * Bytes :=
  (resting_order_leaf_key (ord_id (ros_order r)), append_state_resting_order_leaf_value r).
Definition account_reservation_leaf (r : AccountReservationSnapshot) : Bytes * Bytes :=
  (account_reservation_leaf_key (ars_account_id r), append_state_account_reservation_leaf_value r).

(** [leaves.sort_by(|(left, _), (right, _)| left.cmp(right))] *)
Definition leaf_le (a b : Bytes * Bytes) : Prop := bytes_le a.1 b.1.
#[global] Instance leaf_le_dec : RelDecision leaf_le.
Proof. intros a b. unfold leaf_le. apply _. Defined.

Section roots.
Context (sha256 blake3 : Bytes → Bytes) (qmdb_root : list (Bytes * Bytes) → Bytes) (keyless_root : list Bytes → Bytes).

Definition sys_leaves (b : BridgeStateSnapshot) : list (Bytes * Bytes) :=
  [(ascii_bytes "sys/deposit_cursor", sys_u64_leaf_value (ascii_bytes "deposit_cursor") (br_deposit_cursor b));
   (ascii_bytes "sys/deposit_root", sys_bytes32_leaf_value (ascii_bytes "deposit_root") (br_deposit_root b));
   (ascii_bytes "sys/quarantine_digest", sys_bytes32_leaf_value (ascii_bytes "quarantine_digest") (quarantine_ledger_digest sha256 (br_quarantine b)));
   (ascii_bytes "sys/observed_l1_height", sys_u64_leaf_value (ascii_bytes "observed_l1_height") (br_observed_l1_height b));
   (ascii_bytes "sys/next_withdrawal_id", sys_u64_leaf_value (ascii_bytes "next_withdrawal_id") (br_next_withdrawal_id b))].

Definition unsorted_leaves (accounts : list AccountSnapshot) (sidecar : StateSidecarSnapshot) : list (Bytes * Bytes) :=
  (account_leaf <$> sort_on asn_id accounts) ++ sys_leaves (ss_bridge sidecar) ++
  (market_leaf <$> sort_on msn_market_id (ss_markets sidecar)) ++
  (market_group_leaf <$> sort_on mgs_group_id (ss_market_groups sidecar)) ++
  (withdrawal_leaf <$> sort_on ws_withdrawal_id (br_withdrawals (ss_bridge sidecar))) ++
  (resting_order_leaf <$> sort_on (λ r, ord_id (ros_order r)) (ss_resting_orders sidecar)) ++
  (account_reservation_leaf <$> sort_on ars_account_id (ss_account_reservations sidecar)).
Definition state_root_leaves (accounts : list AccountSnapshot) (sidecar : StateSidecarSnapshot) : list (Bytes * Bytes) :=
  stable_sort leaf_le (unsorted_leaves accounts sidecar).

(** ** Roots *)

Definition MAX_KEY_BYTES : Z := 64.
Definition MAX_VALUE_BYTES : Z := 1048576.

(** The worker asserts the sizes; a panic there makes the caller's [expect] panic. *)
Definition leaf_fits (e : Bytes * Bytes) : bool :=
  (Z.of_nat (length e.1) <=? MAX_KEY_BYTES) && (Z.of_nat (length e.2) <=? MAX_VALUE_BYTES).
Definition state_root_from_leaves {E} (leaves : list (Bytes * Bytes)) : outcome E Bytes :=
  let leaves := stable_sort leaf_le leaves in
  if forallb leaf_fits leaves then Ok (qmdb_root leaves) else Panic.
Definition compute_state_root_with_sidecar {E} (accounts : list AccountSnapshot) (sidecar : StateSidecarSnapshot) : outcome E Bytes :=
  state_root_from_leaves (state_root_leaves accounts sidecar).

Definition events_root_from_event_bytes {E} (events : list Bytes) : outcome E Bytes :=
  if forallb (λ e, Z.of_nat (length e) <=? MAX_VALUE_BYTES) events then Ok (keyless_root events) else Panic.
Definition compute_events_root {E} (w : BlockWitness) : outcome E Bytes :=
  events_root_from_event_bytes (event_leaf_values (bw_system_events w) (bw_orders w) (bw_rejections w) (bw_fills w)).

(** ** Headers *)

Definition header_preimage (h : WitnessBlockHeader) : Bytes :=
  le_bytes 8 (hd_height h) ++ hd_parent_hash h ++ hd_state_root h ++ hd_events_root h ++ le_bytes 4 (hd_order_count h) ++
  le_bytes 4 (hd_fill_count h) ++ le_bytes 8 (hd_timestamp_ms h).
Definition hash_header (h : WitnessBlockHeader) : Bytes := blake3 (header_preimage h).

(** ** Layer 3 *)

Definition check_previous {E} (w : BlockWitness) : outcome E (list Violation) :=
  let h := bw_header w in
  match bw_previous_header w with
  | Some prev =>
      computed_pre_root ← compute_state_root_with_sidecar (bw_pre_state w) (bw_pre_state_sidecar w);
      expected_height ← arith U64 (hd_height prev + 1);
      Ok (flag (bool_decide (computed_pre_root ≠ hd_state_root prev)) VK.PreStateRootMismatch ++
          flag (bool_decide (hash_header prev ≠ hd_parent_hash h)) VK.ParentHashMismatch ++
          flag (negb (hd_height h =? expected_height)) VK.HeightNotConsecutive)
  | None =>
      Ok (flag (bool_decide (hd_parent_hash h ≠ replicate 32 0)) VK.GenesisParentHashNonZero ++
          flag (negb (hd_height h =? 1)) VK.HeightNotConsecutive)
  end.

(** [a.len() + b.len()] of two slices fits [usize]. *)
Definition verify_block {E} (w : BlockWitness) : outcome E VerificationResult :=
  let h := bw_header w in
  computed_root ← compute_state_root_with_sidecar (bw_post_state w) (bw_state_sidecar w);
  let v1 := flag (bool_decide (computed_root ≠ hd_state_root h)) VK.StateRootMismatch in
  computed_events_root ← compute_events_root w;
  let v2 := flag (bool_decide (computed_events_root ≠ hd_events_root h)) VK.EventRootMismatch in
  v3 ← check_previous w;
  let v4 := flag (negb (hd_order_count h =? wrap U32 (Z.of_nat (length (bw_orders w) + length (bw_rejections w))))) VK.OrderCountMismatch in
  let v5 := flag (negb (hd_fill_count h =? wrap U32 (Z.of_nat (length (bw_fills w))))) VK.FillCountMismatch in
  Ok (from_violations (v1 ++ v2 ++ v3 ++ v4 ++ v5)).
End roots.

(** ** The layers together ([lib.rs]) *)

Section layers.
Context (sha256 blake3 keccak256 : Bytes → Bytes) (p256 : Bytes → Bytes → Bytes → bool) `{B : BorshFormat}
  (iter : gmap Z DerivedAccountState → list (Z * DerivedAccountState))
  (qmdb_root : list (Bytes * Bytes) → Bytes) (keyless_root : list Bytes → Bytes).

Definition verify_system (w : BlockWitness) : outcome Empty_set VerificationResult :=
  result ← verify_system_transition blake3 sha256 w;
  Ok (VerificationResult_merge (VerificationResult_merge result (verify_key_transitions sha256 blake3 p256 w)) (verify_client_action_bindings w)).

Definition verify_full (w : BlockWitness) (diagnostics : bool) : outcome Empty_set VerificationResult :=
  result ← verify_match w diagnostics;
  r ← verify_system w; let result := VerificationResult_merge result r in
  r ← verify_settlement blake3 iter w; let result := VerificationResult_merge result r in
  r ← verify_block sha256 blake3 qmdb_root keyless_root w; let result := VerificationResult_merge result r in
  r ← verify_orders w; let result := VerificationResult_merge result r in
  r ← verify_sidecar blake3 keccak256 w;
  Ok (VerificationResult_merge result r).
End layers.
