(* ===== verification/StateBinding.v ===== *)
(** * StateBinding: the state leaves determine the state

    Two states with the same leaves hold the same accounts, markets, groups,
    withdrawals, resting orders and reservations, up to the order and the zero
    positions the leaves leave out. *)
From S2P Require Import Prelude Types Order MmConstraint Account Digest Snapshots Finalize Witness Sidecar SettlementVerifier MatchVerifier OrdersVerifier L1Protocol DepositFrontier AccountKeys WebAuthn Signing ClientAction KeyTransition WitnessBytes WitnessDecode WitnessTyping WitnessRoundtrip WitnessExact SystemVerifier BridgeSidecar SidecarMarkets StateCommitment.

(** ** Decodable encodings *)

Definition decode_with {A} (m : st WitnessReader WitnessDecodeError A) (b : Bytes) : option A :=
  match m (mkWitnessReader 0 b) with SOk _ v => Some v | _ => None end.
Lemma decode_with_Some {A} (m : st WitnessReader WitnessDecodeError A) b v : decodes m b v → decode_with m b = Some v.
Proof. intros H. unfold decode_with. specialize (H 0 []). rewrite app_nil_r in H. by rewrite H. Qed.
Lemma decodes_inj {A} (m : st WitnessReader WitnessDecodeError A) b v v' : decodes m b v → decodes m b v' → v = v'.
Proof. intros H%decode_with_Some H'%decode_with_Some. congruence. Qed.

(** Permuted encodings are encodings of permuted values. *)
Lemma decodes_Permutation {A B} (m : st WitnessReader WitnessDecodeError B) (enc : A → Bytes) (view : A → B) (P : A → Prop) l l' :
  (∀ x, P x → decodes m (enc x) (view x)) → Forall P l → Forall P l' → enc <$> l ≡ₚ enc <$> l' → view <$> l ≡ₚ view <$> l'.
Proof.
  intros H HP HP' Hp. assert (∀ k, Forall P k → omap (decode_with m) (enc <$> k) = view <$> k) as Ho.
  { induction 1 as [|x k Hx _ IH]; [done|]. rewrite !fmap_cons. cbn. rewrite (decode_with_Some _ _ _ (H x Hx)). cbn. f_equal. exact IH. }
  rewrite <- (Ho l HP), <- (Ho l' HP'). by rewrite Hp.
Qed.

(** ** Committed views *)

Definition committed_positions (l : list (Z * Z * Z)) : list (Z * Z * Z) := encoded_positions StateRoot l.
Definition committed_account (a : AccountSnapshot) : AccountSnapshot :=
  mkAccountSnapshot (asn_id a) (asn_balance a) (asn_total_deposited a) (committed_positions (asn_positions a)) (asn_events_digest a)
    (asn_keys_digest a) (asn_last_trading_nonce a).
Definition committed_resting (r : RestingOrderSnapshot) : RestingOrderSnapshot :=
  mkRestingOrderSnapshot (norm_order (ros_order r)) (ros_account_id r) (ros_created_at r) (ros_expires_at_block r) (ros_reserved_balance r)
    (committed_positions (ros_reserved_positions r)).
Definition committed_reservation (r : AccountReservationSnapshot) : AccountReservationSnapshot :=
  mkAccountReservationSnapshot (ars_account_id r) (ars_reserved_balance r) (committed_positions (ars_reserved_positions r)).

Lemma decodes_committed_positions field l : vec_of position_typed l → decodes (read_positions field) (append_positions StateRoot l) (committed_positions l).
Proof.
  intros [HP Hn]. apply (decodes_typed_id field read_position append_position position_typed); [|apply decodes_position].
  unfold committed_positions, encoded_positions, sort_positions. split.
  - apply Forall_forall. intros x [_ Hx]%list_elem_of_filter. rewrite stable_sort_Permutation in Hx. rewrite Forall_forall in HP. by apply HP.
  - pose proof (length_filter (λ p : Z * Z * Z, p.2 ≠ 0) (stable_sort pos_key_le l)) as Hf. rewrite (stable_sort_Permutation pos_key_le l) in Hf at 2.
    unfold u64 in *. lia.
Qed.
#[export] Hint Resolve decodes_committed_positions : decodes.

(** Readers of the leaf values. *)
Definition read_state_account : st WitnessReader WitnessDecodeError AccountSnapshot := read_domain (ascii_bytes "sybil/state/acct") "";; read_account_fields.
Definition read_state_market : st WitnessReader WitnessDecodeError MarketSnapshot := read_domain (ascii_bytes "sybil/state/market") "";; read_market_snapshot.
Definition read_state_group : st WitnessReader WitnessDecodeError MarketGroupSnapshot := read_domain (ascii_bytes "sybil/state/market-group") "";; read_market_group_snapshot.
Definition read_state_withdrawal : st WitnessReader WitnessDecodeError WithdrawalSnapshot := read_domain (ascii_bytes "sybil/state/withdrawal") "";; read_withdrawal.
Definition read_state_resting : st WitnessReader WitnessDecodeError RestingOrderSnapshot :=
  read_domain (ascii_bytes "sybil/state/order") "";; a ← read_u64; c ← read_u64; e ← read_u64; b ← read_i64; p ← read_positions ""; o ← read_order;
  mret (mkRestingOrderSnapshot o a c e b p).
Definition read_state_reservation : st WitnessReader WitnessDecodeError AccountReservationSnapshot :=
  read_domain (ascii_bytes "sybil/state/acct-resv") "";; a ← read_u64; b ← read_i64; p ← read_positions ""; mret (mkAccountReservationSnapshot a b p).

Lemma decodes_state_account a : account_typed a → decodes read_state_account (append_state_account_leaf_value a) (committed_account a).
Proof. intros H. unfold account_typed in H. destruct_and? H. unfold read_state_account, append_state_account_leaf_value, read_account_fields, append_account_fields. fields. Qed.
Lemma decodes_state_market m : market_typed m → decodes read_state_market (append_state_market_leaf_value m) (id m).
Proof. intros H. eapply decodes_bind; [apply decodes_domain|]. by apply decodes_market_snapshot. Qed.
Lemma decodes_state_group g : group_snapshot_typed g → decodes read_state_group (append_state_market_group_leaf_value g) (norm_group_snapshot g).
Proof. intros H. eapply decodes_bind; [apply decodes_domain|]. by apply decodes_group_snapshot. Qed.
Lemma decodes_state_withdrawal w : withdrawal_typed w → decodes read_state_withdrawal (append_state_withdrawal_leaf_value w) (id w).
Proof. intros H. eapply decodes_bind; [apply decodes_domain|]. by apply decodes_withdrawal. Qed.
Lemma decodes_state_resting r : resting_typed r → decodes read_state_resting (append_state_resting_order_leaf_value r) (committed_resting r).
Proof. intros H. unfold resting_typed in H. destruct_and? H. unfold read_state_resting, append_state_resting_order_leaf_value. fields. Qed.
Lemma decodes_state_reservation r : reservation_typed r → decodes read_state_reservation (append_state_account_reservation_leaf_value r) (committed_reservation r).
Proof. intros H. unfold reservation_typed in H. destruct_and? H. unfold read_state_reservation, append_state_account_reservation_leaf_value. fields. Qed.

(** ** Leaves by the class of their key *)

(** The key up to its slash. *)
Fixpoint leaf_class (k : Bytes) : Bytes := match k with [] => [] | b :: k => if b =? 47 then [] else b :: leaf_class k end.
Definition of_class (c : Bytes) (l : list (Bytes * Bytes)) : list (Bytes * Bytes) := filter (λ e, leaf_class e.1 = c) l.

Lemma of_class_app c l k : of_class c (l ++ k) = of_class c l ++ of_class c k.
Proof. apply filter_app. Qed.
Lemma of_class_all {A} c (leaf : A → Bytes * Bytes) l : (∀ x, leaf_class (leaf x).1 = c) → of_class c (leaf <$> l) = leaf <$> l.
Proof. intros H. induction l as [|x l IH]; [done|]. rewrite fmap_cons. unfold of_class. rewrite filter_cons_True by apply H. f_equal. exact IH. Qed.
Lemma of_class_none {A} c (leaf : A → Bytes * Bytes) l : (∀ x, leaf_class (leaf x).1 ≠ c) → of_class c (leaf <$> l) = [].
Proof. intros H. induction l as [|x l IH]; [done|]. rewrite fmap_cons. unfold of_class. rewrite filter_cons_False by apply H. exact IH. Qed.
Lemma of_class_Permutation c l k : l ≡ₚ k → of_class c l ≡ₚ of_class c k.
Proof. intros H. unfold of_class. by rewrite H. Qed.
Lemma sys_classes sha256 b : Forall (λ e, leaf_class e.1 = ascii_bytes "sys") (sys_leaves sha256 b).
Proof. unfold sys_leaves. repeat constructor. Qed.
Lemma of_class_sys sha256 b : of_class (ascii_bytes "sys") (sys_leaves sha256 b) = sys_leaves sha256 b.
Proof. unfold sys_leaves, of_class. repeat (rewrite filter_cons_True by done; f_equal). Qed.
Lemma of_class_not_sys sha256 b c : c ≠ ascii_bytes "sys" → of_class c (sys_leaves sha256 b) = [].
Proof. intros Hc. unfold sys_leaves, of_class. repeat rewrite filter_cons_False by (intros E; apply Hc; rewrite <- E; reflexivity). done. Qed.

Ltac classes := unfold unsorted_leaves; rewrite !of_class_app; rewrite ?of_class_sys;
  rewrite ?of_class_not_sys by done; repeat first [rewrite of_class_all by done|rewrite of_class_none by done]; cbn [app]; rewrite ?app_nil_r; reflexivity.
Section classes.
Context (sha256 : Bytes → Bytes) (accounts : list AccountSnapshot) (s : StateSidecarSnapshot).
Lemma class_acct : of_class (ascii_bytes "acct") (unsorted_leaves sha256 accounts s) = account_leaf <$> sort_on asn_id accounts.
Proof. classes. Qed.
Lemma class_sys : of_class (ascii_bytes "sys") (unsorted_leaves sha256 accounts s) = sys_leaves sha256 (ss_bridge s).
Proof. classes. Qed.
Lemma class_market : of_class (ascii_bytes "market") (unsorted_leaves sha256 accounts s) = market_leaf <$> sort_on msn_market_id (ss_markets s).
Proof. classes. Qed.
Lemma class_group : of_class (ascii_bytes "market_group") (unsorted_leaves sha256 accounts s) = market_group_leaf <$> sort_on mgs_group_id (ss_market_groups s).
Proof. classes. Qed.
Lemma class_withdrawal : of_class (ascii_bytes "withdrawal") (unsorted_leaves sha256 accounts s) = withdrawal_leaf <$> sort_on ws_withdrawal_id (br_withdrawals (ss_bridge s)).
Proof. classes. Qed.
Lemma class_order : of_class (ascii_bytes "order") (unsorted_leaves sha256 accounts s) = resting_order_leaf <$> sort_on (λ r, ord_id (ros_order r)) (ss_resting_orders s).
Proof. classes. Qed.
Lemma class_reservation : of_class (ascii_bytes "acct_resv") (unsorted_leaves sha256 accounts s) = account_reservation_leaf <$> sort_on ars_account_id (ss_account_reservations s).
Proof. classes. Qed.
End classes.

(** ** Equal leaves, equal states *)

Record same_state (accounts : list AccountSnapshot) (s : StateSidecarSnapshot) (accounts' : list AccountSnapshot) (s' : StateSidecarSnapshot) : Prop := {
  same_accounts : committed_account <$> accounts ≡ₚ committed_account <$> accounts';
  same_markets : ss_markets s ≡ₚ ss_markets s';
  same_groups : norm_group_snapshot <$> ss_market_groups s ≡ₚ norm_group_snapshot <$> ss_market_groups s';
  same_withdrawals : br_withdrawals (ss_bridge s) ≡ₚ br_withdrawals (ss_bridge s');
  same_resting : committed_resting <$> ss_resting_orders s ≡ₚ committed_resting <$> ss_resting_orders s';
  same_reservations : committed_reservation <$> ss_account_reservations s ≡ₚ committed_reservation <$> ss_account_reservations s';
  same_deposit_cursor : br_deposit_cursor (ss_bridge s) = br_deposit_cursor (ss_bridge s');
  same_deposit_root : br_deposit_root (ss_bridge s) = br_deposit_root (ss_bridge s');
  same_l1_height : br_observed_l1_height (ss_bridge s) = br_observed_l1_height (ss_bridge s');
  same_next_withdrawal : br_next_withdrawal_id (ss_bridge s) = br_next_withdrawal_id (ss_bridge s');
  same_quarantine : br_quarantine (ss_bridge s) ≡ₚ br_quarantine (ss_bridge s');
}.

Lemma sort_on_perm {A} (key : A → Z) l : sort_on key l ≡ₚ l.
Proof. apply stable_sort_Permutation. Qed.
Lemma decodes_leaves {A B} (m : st WitnessReader WitnessDecodeError B) (leaf : A → Bytes * Bytes) (view : A → B) (P : A → Prop) (key : A → Z) l l' :
  (∀ x, P x → decodes m (leaf x).2 (view x)) → Forall P l → Forall P l' → leaf <$> sort_on key l ≡ₚ leaf <$> sort_on key l' → view <$> l ≡ₚ view <$> l'.
Proof.
  intros H HP HP' Hp. apply (decodes_Permutation m (snd ∘ leaf) view P); [done..|]. rewrite !list_fmap_compose. rewrite !sort_on_perm in Hp. by rewrite Hp.
Qed.

Lemma sys_leaf_value (l l' : list (Bytes * Bytes)) k v v' : l ≡ₚ l' → NoDup l'.*1 → (k, v) ∈ l → (k, v') ∈ l' → v = v'.
Proof.
  intros Hp Hn Hk Hk'. rewrite Hp in Hk. apply list_elem_of_lookup in Hk as (i & Hi). apply list_elem_of_lookup in Hk' as (j & Hj).
  assert (i = j) as ->; [|congruence]. apply (NoDup_lookup _ _ _ k Hn); rewrite list_lookup_fmap; [by rewrite Hi|by rewrite Hj].
Qed.
Lemma sys_u64_inj name z z' : u64 z → u64 z' → sys_u64_leaf_value name z = sys_u64_leaf_value name z' → z = z'.
Proof. intros Hz Hz' H. unfold sys_u64_leaf_value in H. do 3 apply app_inv_head in H. by apply le_u64_inj. Qed.
Lemma sys_bytes32_inj name b b' : sys_bytes32_leaf_value name b = sys_bytes32_leaf_value name b' → b = b'.
Proof. intros H. unfold sys_bytes32_leaf_value in H. by do 3 apply app_inv_head in H. Qed.

Lemma quarantine_preimage_inj l l' : vec_of quarantine_typed l → vec_of quarantine_typed l' →
  quarantine_ledger_preimage l = quarantine_ledger_preimage l' → l ≡ₚ l'.
Proof.
  intros Hl Hl' H. unfold quarantine_ledger_preimage in H. cbn zeta in H. apply app_inv_head in H.
  assert (∀ k, vec_of quarantine_typed k → decodes (read_vec "" read_quarantine_entry)
    (append_counted append_quarantine_entry (stable_sort entry_le k)) (stable_sort entry_le k)) as Hd.
  { intros k Hk. eapply decodes_sorted_id; [done|apply decodes_quarantine]. }
  pose proof (Hd l Hl) as H1. pose proof (Hd l' Hl') as H2. unfold append_counted, append_quarantine_entry in H1, H2. unfold append_u64, append_i64 in *.
  rewrite H in H1. rewrite <- (stable_sort_Permutation entry_le l), <- (stable_sort_Permutation entry_le l'). by rewrite (decodes_inj _ _ _ _ H1 H2).
Qed.

Ltac pick := unfold sys_leaves; repeat first [apply list_elem_of_here|apply list_elem_of_further].
Definition sys_keys : list Bytes :=
  ascii_bytes <$> ["sys/deposit_cursor"; "sys/deposit_root"; "sys/quarantine_digest"; "sys/observed_l1_height"; "sys/next_withdrawal_id"]%string.
Lemma sys_keys_distinct : NoDup sys_keys.
Proof. apply (bool_decide_unpack (NoDup sys_keys)). vm_compute. reflexivity. Qed.

Section binding.
Context (sha256 : Bytes → Bytes).

Lemma sys_leaves_bind b b' : bridge_typed b → bridge_typed b' → sys_leaves sha256 b ≡ₚ sys_leaves sha256 b' →
  br_deposit_cursor b = br_deposit_cursor b' ∧ br_deposit_root b = br_deposit_root b' ∧ br_observed_l1_height b = br_observed_l1_height b' ∧
  br_next_withdrawal_id b = br_next_withdrawal_id b' ∧
  quarantine_ledger_digest sha256 (br_quarantine b) = quarantine_ledger_digest sha256 (br_quarantine b').
Proof.
  intros (Hc & _ & Hh & Hn & _) (Hc' & _ & Hh' & Hn' & _) Hp.
  pose proof sys_keys_distinct as Hd. change sys_keys with (sys_leaves sha256 b').*1 in Hd.
  split_and!.
  - eapply sys_u64_inj; [done..|]. eapply (sys_leaf_value _ _ (ascii_bytes "sys/deposit_cursor") _ _ Hp Hd); pick.
  - eapply sys_bytes32_inj. eapply (sys_leaf_value _ _ (ascii_bytes "sys/deposit_root") _ _ Hp Hd); pick.
  - eapply sys_u64_inj; [done..|]. eapply (sys_leaf_value _ _ (ascii_bytes "sys/observed_l1_height") _ _ Hp Hd); pick.
  - eapply sys_u64_inj; [done..|]. eapply (sys_leaf_value _ _ (ascii_bytes "sys/next_withdrawal_id") _ _ Hp Hd); pick.
  - eapply sys_bytes32_inj. eapply (sys_leaf_value _ _ (ascii_bytes "sys/quarantine_digest") _ _ Hp Hd); pick.
Qed.

Lemma leaves_bind accounts s accounts' s' : Forall account_typed accounts → Forall account_typed accounts' → sidecar_typed s → sidecar_typed s' →
  state_root_leaves sha256 accounts s ≡ₚ state_root_leaves sha256 accounts' s' → same_state accounts s accounts' s' ∨ collision sha256.
Proof.
  intros Ha Ha' (Hb & [Hm _] & [Hg _] & [Hr _] & [Hv _]) (Hb' & [Hm' _] & [Hg' _] & [Hr' _] & [Hv' _]) He.
  assert (unsorted_leaves sha256 accounts s ≡ₚ unsorted_leaves sha256 accounts' s') as Hp.
  { rewrite <- (stable_sort_Permutation leaf_le (unsorted_leaves sha256 accounts s)), <- (stable_sort_Permutation leaf_le (unsorted_leaves sha256 accounts' s')).
    unfold state_root_leaves in He. by rewrite He. }
  assert (∀ c, of_class c (unsorted_leaves sha256 accounts s) ≡ₚ of_class c (unsorted_leaves sha256 accounts' s')) as Hcl by (intros c; by apply of_class_Permutation).
  pose proof (Hcl (ascii_bytes "sys")) as Hs. rewrite !class_sys in Hs. apply sys_leaves_bind in Hs as (H1 & H2 & H3 & H4 & Hq); [|done..].
  unfold quarantine_ledger_digest in Hq.
  destruct (decide (quarantine_ledger_preimage (br_quarantine (ss_bridge s)) = quarantine_ledger_preimage (br_quarantine (ss_bridge s')))) as [Hqe|Hne];
    [|right; by exists (quarantine_ledger_preimage (br_quarantine (ss_bridge s))), (quarantine_ledger_preimage (br_quarantine (ss_bridge s')))].
  left. pose proof Hb as (_ & _ & _ & _ & [Hw _] & Hqt). pose proof Hb' as (_ & _ & _ & _ & [Hw' _] & Hqt').
  split; try done.
  - pose proof (Hcl (ascii_bytes "acct")) as H. rewrite !class_acct in H. by eapply (decodes_leaves _ account_leaf _ _ _ _ _ decodes_state_account).
  - pose proof (Hcl (ascii_bytes "market")) as H. rewrite !class_market in H. rewrite <- (list_fmap_id (ss_markets s)), <- (list_fmap_id (ss_markets s')).
    by eapply (decodes_leaves _ market_leaf _ _ _ _ _ decodes_state_market).
  - pose proof (Hcl (ascii_bytes "market_group")) as H. rewrite !class_group in H. by eapply (decodes_leaves _ market_group_leaf _ _ _ _ _ decodes_state_group).
  - pose proof (Hcl (ascii_bytes "withdrawal")) as H. rewrite !class_withdrawal in H.
    rewrite <- (list_fmap_id (br_withdrawals (ss_bridge s))), <- (list_fmap_id (br_withdrawals (ss_bridge s'))).
    by eapply (decodes_leaves _ withdrawal_leaf _ _ _ _ _ decodes_state_withdrawal).
  - pose proof (Hcl (ascii_bytes "order")) as H. rewrite !class_order in H. by eapply (decodes_leaves _ resting_order_leaf _ _ _ _ _ decodes_state_resting).
  - pose proof (Hcl (ascii_bytes "acct_resv")) as H. rewrite !class_reservation in H. by eapply (decodes_leaves _ account_reservation_leaf _ _ _ _ _ decodes_state_reservation).
  - by apply quarantine_preimage_inj.
Qed.
End binding.
