(* ===== verification/BlockChain.v ===== *)
(** * BlockChain: accepted blocks form a chain of states

    Layer 3 accepts exactly the headers that commit to the witness's states and
    events and extend the previous header; consecutive accepted blocks agree on
    the state between them. *)
From S2P Require Import Prelude Types Order MmConstraint Account Digest Snapshots Finalize Witness Sidecar SettlementVerifier MatchVerifier OrdersVerifier L1Protocol DepositFrontier AccountKeys WebAuthn Signing ClientAction KeyTransition WitnessBytes WitnessDecode WitnessTyping WitnessRoundtrip WitnessExact SystemVerifier BridgeSidecar SidecarMarkets StateCommitment StateBinding.

#[global] Instance leaf_le_total : Total leaf_le.
Proof. intros x y. apply bytes_le_total. Qed.
Lemma from_violations_valid l : vr_valid (from_violations l) = true ↔ l = [].
Proof. apply bool_decide_eq_true. Qed.
Lemma merge_valid r r' : vr_valid (VerificationResult_merge r r') = true ↔ vr_valid r = true ∧ vr_valid r' = true.
Proof. cbn. destruct (vr_valid r'); naive_solver. Qed.

Lemma header_preimage_inj h h' : header_typed h → header_typed h' → header_preimage h = header_preimage h' → h = h'.
Proof.
  intros Hh Hh' H. pose proof (decodes_header h Hh) as D. pose proof (decodes_header h' Hh') as D'. unfold append_header in D, D'.
  unfold append_u64, append_u32 in *. unfold header_preimage in H. rewrite H in D. by eapply decodes_inj.
Qed.

(** The contents of a key/value store after a batch of writes: the last write of a
    key stays. *)
Definition written (leaves : list (Bytes * Bytes)) : gmap Bytes Bytes := foldl (λ m e, <[e.1 := e.2]> m) ∅ leaves.
Lemma written_lookup l k v : NoDup l.*1 → written l !! k = Some v ↔ (k, v) ∈ l.
Proof.
  intros Hnd. unfold written. rewrite (foldl_insert_lookup fst snd); [|done|intros; apply lookup_empty]. rewrite lookup_empty. split.
  - intros [([k' v'] & Hin & Hk & Hv)|?]; [|done]. cbn in Hk, Hv. by subst.
  - intros Hin. left. by exists (k, v).
Qed.
Lemma written_inj l l' : NoDup l.*1 → NoDup l'.*1 → written l = written l' → l ≡ₚ l'.
Proof.
  intros Hl Hl' H. apply NoDup_Permutation; [by eapply NoDup_fmap_1|by eapply NoDup_fmap_1|]. intros [k v]. by rewrite <- !written_lookup, H.
Qed.

Section chain.
Context (sha256 blake3 : Bytes → Bytes) (qmdb_root : list (Bytes * Bytes) → Bytes) (keyless_root : list Bytes → Bytes).

Lemma state_root_Ok {E} accounts s root : compute_state_root_with_sidecar sha256 qmdb_root (E := E) accounts s = Ok root →
  root = qmdb_root (state_root_leaves sha256 accounts s).
Proof.
  unfold compute_state_root_with_sidecar, state_root_from_leaves. cbn zeta. unfold state_root_leaves. rewrite stable_sort_idemp by apply _.
  destruct (forallb _ _); congruence.
Qed.

(** What layer 3 establishes about a block. *)
Record block_commits (w : BlockWitness) : Prop := {
  bc_state : hd_state_root (bw_header w) = qmdb_root (state_root_leaves sha256 (bw_post_state w) (bw_state_sidecar w));
  bc_events : hd_events_root (bw_header w) =
    keyless_root (event_leaf_values (bw_system_events w) (bw_orders w) (bw_rejections w) (bw_fills w));
  bc_previous : match bw_previous_header w with
    | Some prev => hd_state_root prev = qmdb_root (state_root_leaves sha256 (bw_pre_state w) (bw_pre_state_sidecar w)) ∧
                   hd_parent_hash (bw_header w) = hash_header blake3 prev ∧ hd_height (bw_header w) = hd_height prev + 1
    | None => hd_parent_hash (bw_header w) = replicate 32 0 ∧ hd_height (bw_header w) = 1
    end;
  bc_orders : hd_order_count (bw_header w) = wrap U32 (Z.of_nat (length (bw_orders w) + length (bw_rejections w)));
  bc_fills : hd_fill_count (bw_header w) = wrap U32 (Z.of_nat (length (bw_fills w)));
}.

Lemma check_previous_nil {E} w vs : check_previous sha256 blake3 qmdb_root (E := E) w = Ok vs → vs = [] ↔
  match bw_previous_header w with
  | Some prev => hd_state_root prev = qmdb_root (state_root_leaves sha256 (bw_pre_state w) (bw_pre_state_sidecar w)) ∧
                 hd_parent_hash (bw_header w) = hash_header blake3 prev ∧ hd_height (bw_header w) = hd_height prev + 1
  | None => hd_parent_hash (bw_header w) = replicate 32 0 ∧ hd_height (bw_header w) = 1
  end.
Proof.
  unfold check_previous. cbn zeta. destruct (bw_previous_header w) as [prev|].
  - intros (root & Hr%state_root_Ok & H)%obind_Ok. apply obind_Ok in H as (n & Hn & [= <-]). apply arith_Ok in Hn as [-> _]. subst root.
    rewrite !app_nil, !flag_nil, !bool_decide_eq_false, negb_false_iff, Z.eqb_eq. split.
    + intros (H1 & H2 & H3). split_and!; [symmetry; by apply dec_stable|symmetry; by apply dec_stable|done].
    + intros (H1 & H2 & H3). split_and!; [intros H; by apply H|intros H; by apply H|done].
  - intros [= <-]. rewrite app_nil, !flag_nil, bool_decide_eq_false, negb_false_iff, Z.eqb_eq. split; intros [H1 H2]; (split; [|done]); [by apply dec_stable|intros H; by apply H].
Qed.

Lemma verify_block_exact {E} w r : verify_block sha256 blake3 qmdb_root keyless_root (E := E) w = Ok r → vr_valid r = true ↔ block_commits w.
Proof.
  unfold verify_block. cbn zeta. intros (root & Hr%state_root_Ok & H)%obind_Ok. apply obind_Ok in H as (er & He & H). apply obind_Ok in H as (v3 & Hp & [= <-]).
  unfold compute_events_root, events_root_from_event_bytes in He. destruct (forallb _ _); [|done]. injection He as <-. subst root.
  apply check_previous_nil in Hp. rewrite from_violations_valid, !app_nil, !flag_nil, !bool_decide_eq_false, !negb_false_iff, !Z.eqb_eq, Hp. split.
  - intros (H1 & H2 & H3 & H4 & H5). split; try done; symmetry; by apply dec_stable.
  - intros [H1 H2 H3 H4 H5]. split_and!; try done; intros H; by apply H.
Qed.

(** The leaves a block writes for the state it ends in, and for the one it starts from. *)
Definition post_leaves (w : BlockWitness) : list (Bytes * Bytes) := state_root_leaves sha256 (bw_post_state w) (bw_state_sidecar w).
Definition pre_leaves (w : BlockWitness) : list (Bytes * Bytes) := state_root_leaves sha256 (bw_pre_state w) (bw_pre_state_sidecar w).
(** [w'] continues [w] under the parent header [h], unless its header or its store
    contents share a hash with other ones. *)
Definition states_chain (w w' : BlockWitness) (h : WitnessBlockHeader) : Prop :=
  (h = bw_header w ∧ hd_height (bw_header w') = hd_height (bw_header w) + 1 ∧ written (post_leaves w) = written (pre_leaves w') ∧
    (NoDup (post_leaves w).*1 → NoDup (pre_leaves w').*1 →
      same_state (bw_post_state w) (bw_state_sidecar w) (bw_pre_state w') (bw_pre_state_sidecar w') ∨ collision sha256)) ∨
  (bw_header w ≠ h ∧ hash_header blake3 (bw_header w) = hash_header blake3 h) ∨
  (written (post_leaves w) ≠ written (pre_leaves w') ∧ qmdb_root (post_leaves w) = qmdb_root (pre_leaves w')).

Lemma chain_step {E E'} w w' r r' h : header_typed (bw_header w) → header_typed h → Forall account_typed (bw_post_state w) → sidecar_typed (bw_state_sidecar w) →
  Forall account_typed (bw_pre_state w') → sidecar_typed (bw_pre_state_sidecar w') →
  verify_block sha256 blake3 qmdb_root keyless_root (E := E) w = Ok r → vr_valid r = true →
  verify_block sha256 blake3 qmdb_root keyless_root (E := E') w' = Ok r' → vr_valid r' = true →
  bw_previous_header w' = Some h → hd_parent_hash (bw_header w') = hash_header blake3 (bw_header w) →
  states_chain w w' h.
Proof.
  intros Hh Hh' Ha Hs Ha' Hs' Hr Hv Hr' Hv' Hprev Hp. apply (verify_block_exact w r Hr) in Hv as [Hst _ _ _ _]. apply (verify_block_exact w' r' Hr') in Hv' as [_ _ Hl _ _].
  rewrite Hprev in Hl. destruct Hl as (Hpre & Hpar & Hheight). rewrite Hp in Hpar. unfold states_chain.
  destruct (decide (header_preimage (bw_header w) = header_preimage h)) as [E1|E1].
  2: { right. left. split; [|done]. intros Heq. apply E1. by rewrite Heq. }
  apply header_preimage_inj in E1 as <-; [|done..]. rewrite Hst in Hpre.
  destruct (decide (written (post_leaves w) = written (pre_leaves w'))) as [E2|E2]; [left|right; right; split; [done|exact Hpre]].
  split_and!; [done..|]. intros Hn Hn'. apply leaves_bind; [done..|]. by apply written_inj.
Qed.
End chain.

(** The layers accept together exactly when each does. *)
Lemma verify_full_valid sha256 blake3 keccak256 p256 {B : BorshFormat} iter qmdb_root keyless_root w d r :
  verify_full sha256 blake3 keccak256 p256 iter qmdb_root keyless_root w d = Ok r →
  ∃ r1 r2 r3 r4 r5 r6, verify_match w d = Ok (E := Empty_set) r1 ∧ verify_system sha256 blake3 p256 w = Ok r2 ∧ verify_settlement blake3 iter w = Ok (E := Empty_set) r3 ∧
    verify_block sha256 blake3 qmdb_root keyless_root w = Ok (E := Empty_set) r4 ∧ verify_orders w = Ok (E := Empty_set) r5 ∧ verify_sidecar blake3 keccak256 w = Ok r6 ∧
    (vr_valid r = true ↔ vr_valid r1 = true ∧ vr_valid r2 = true ∧ vr_valid r3 = true ∧ vr_valid r4 = true ∧ vr_valid r5 = true ∧ vr_valid r6 = true).
Proof.
  unfold verify_full. cbn zeta. intros (r1 & H1 & H)%obind_Ok. apply obind_Ok in H as (r2 & H2 & H). apply obind_Ok in H as (r3 & H3 & H).
  apply obind_Ok in H as (r4 & H4 & H). apply obind_Ok in H as (r5 & H5 & H). apply obind_Ok in H as (r6 & H6 & [= <-]).
  exists r1, r2, r3, r4, r5, r6. rewrite !merge_valid. tauto.
Qed.

(** C10: two blocks the full verifier accepts, the second naming the first as its
    parent, agree on what lies between them: the second's previous header is the
    first's header, its height is one more, and the state store it starts from has
    exactly the contents of the store the first ended with; if moreover neither
    state lists a key twice, the two states are the same (accounts, markets, groups,
    withdrawals, resting orders, reservations, bridge cursors and quarantine) unless
    sha256, under which the quarantine ledger is committed, has a collision.  The only
    escapes are that these two headers differ and share their blake3 hash, or that
    these two stores differ in contents and share their root. *)
Theorem verified_blocks_chain sha256 blake3 keccak256 p256 {B : BorshFormat} iter qmdb_root keyless_root w w' d d' r r' h :
  witness_typed w → witness_typed w' →
  verify_full sha256 blake3 keccak256 p256 iter qmdb_root keyless_root w d = Ok r → vr_valid r = true →
  verify_full sha256 blake3 keccak256 p256 iter qmdb_root keyless_root w' d' = Ok r' → vr_valid r' = true →
  hd_parent_hash (bw_header w') = hash_header blake3 (bw_header w) → bw_previous_header w' = Some h →
  states_chain sha256 blake3 qmdb_root w w' h.
Proof.
  intros Hw Hw' Hr Hv Hr' Hv' Hp E. apply verify_full_valid in Hr as (? & ? & ? & r4 & ? & ? & _ & _ & _ & Hb & _ & _ & Hr).
  apply verify_full_valid in Hr' as (? & ? & ? & r4' & ? & ? & _ & _ & _ & Hb' & _ & _ & Hr'). rewrite Hr in Hv. rewrite Hr' in Hv'. destruct_and!.
  assert (header_typed h) as Hh. { pose proof (wt_previous_header w' Hw') as Ht. by rewrite E in Ht. }
  by apply (chain_step (E := Empty_set) (E' := Empty_set) sha256 blake3 qmdb_root keyless_root w w' r4 r4' h); first [apply Hw|apply Hw'|done].
Qed.

(** ** Two empty blocks over one account *)

Definition ex_digest (b : Bytes) : Bytes := le_bytes 32 (foldl (λ a x, Z.land (a * 31 + x + 1) 65535) 7 b).
Definition ex_state_root (leaves : list (Bytes * Bytes)) : Bytes := ex_digest (leaves ≫= λ e, e.1 ++ e.2).
Definition ex_events_root (l : list Bytes) : Bytes := ex_digest (concat l).
Definition ex_frontier : list Bytes := replicate 32 (replicate 32 0).
Definition ex_link_account : AccountSnapshot := mkAccountSnapshot 1 500 500 [(7, 0, 4); (7, 1, 4)] (replicate 32 0) (account_keys_digest ex_digest 1 []) 0.
Definition ex_link_sidecar : StateSidecarSnapshot :=
  mkStateSidecarSnapshot (mkBridgeStateSnapshot 0 (default [] (deposit_root_from_frontier ex_digest ex_frontier 0)) 5 0 [] [])
    [mkMarketSnapshot 7 "m" 2 StatusActive (replicate 32 1) "t" [400000000; 600000000]] [] [] [].
Definition ex_link_header (height : Z) (parent : Bytes) : WitnessBlockHeader :=
  mkWitnessBlockHeader height parent (ex_state_root (state_root_leaves ex_digest [ex_link_account] ex_link_sidecar)) (ex_events_root []) 0 0 (1000 * height).
Definition ex_link_block (header : WitnessBlockHeader) (previous : option WitnessBlockHeader) : BlockWitness :=
  mkBlockWitness header previous (replicate 32 4) [] [] [] (mkDepositAccumulatorWitness ex_frontier 0 []) [] ∅ 0 0 [] [] [ex_link_account] [ex_link_account]
    [ex_link_account] [(1, [])] ex_link_sidecar ex_link_sidecar [].
Definition ex_link1 : BlockWitness := ex_link_block (ex_link_header 1 (replicate 32 0)) None.
Definition ex_link2 : BlockWitness := ex_link_block (ex_link_header 2 (hash_header ex_digest (bw_header ex_link1))) (Some (bw_header ex_link1)).
Definition ex_full (w : BlockWitness) : outcome Empty_set VerificationResult :=
  verify_full ex_digest ex_digest ex_digest (λ _ _ _, true) map_to_list ex_state_root ex_events_root w false.

Lemma accepted {E} (o : outcome E VerificationResult) : match o with Ok r => vr_valid r | _ => false end = true → ∃ r, o = Ok r ∧ vr_valid r = true.
Proof. destruct o as [r| |]; [by exists r|done..]. Qed.
Lemma ex_link1_valid : match ex_full ex_link1 with Ok r => vr_valid r | _ => false end = true.
Proof. vm_compute. reflexivity. Qed.
Lemma ex_link2_valid : match ex_full ex_link2 with Ok r => vr_valid r | _ => false end = true.
Proof. vm_compute. reflexivity. Qed.
Lemma ex_link_typed header previous : header_typed header → of_option header_typed previous → witness_typed (ex_link_block header previous).
Proof. intros Hh Hp. constructor; [exact Hh|exact Hp|..]. all: try match goal with |- map_typed _ _ _ => split; [apply map_Forall_empty|by vm_compute] end. all: ground. Qed.
Lemma ex_link1_typed : header_typed (bw_header ex_link1).
Proof. ground. Qed.
Lemma ex_link2_typed : header_typed (bw_header ex_link2).
Proof. ground. Qed.

Lemma verified_blocks_chain_witness : states_chain ex_digest ex_digest ex_state_root ex_link1 ex_link2 (bw_header ex_link1).
Proof.
  destruct (accepted (ex_full ex_link1) ex_link1_valid) as (r & E1 & H1). destruct (accepted (ex_full ex_link2) ex_link2_valid) as (r' & E2 & H2).
  apply (verified_blocks_chain ex_digest ex_digest ex_digest (λ _ _ _, true) map_to_list ex_state_root ex_events_root ex_link1 ex_link2 false false r r' (bw_header ex_link1)).
  - exact (ex_link_typed _ None ex_link1_typed I).
  - exact (ex_link_typed _ (Some _) ex_link2_typed ex_link1_typed).
  - exact E1.
  - exact H1.
  - exact E2.
  - exact H2.
  - reflexivity.
  - reflexivity.
Defined.
