(* ===== verification/Mmr.v ===== *)
(** * Mmr: the Merkle mountain range of the guest

    Models the operation encodings and the Merkle-mountain-range code of
    [crates/sybil-zk/src/guest_commitments.rs]: node positions, peaks, the root
    of a list of elements, and the events root computed from it.  [Option] is
    [outcome unit]: [Err ()] is [None], [Panic] an out-of-range slice. *)
From S2P Require Import Prelude Types Account Digest L1Protocol Witness WitnessBytes.

(** ** Bits of a [u64] *)

Fixpoint trailing_bits (b : bool) (fuel : nat) (i v : Z) : Z :=
  match fuel with
  | O => i
  | S fuel => if Bool.eqb (Z.testbit v i) b then trailing_bits b fuel (i + 1) v else i
  end.
Definition trailing_ones (v : Z) : Z := trailing_bits true 64 0 v.
Definition trailing_zeros (v : Z) : Z := trailing_bits false 64 0 v.
Definition leading_zeros (v : Z) : Z := if v =? 0 then 64 else 63 - Z.log2 v.
Fixpoint ones (n : nat) (v : Z) : Z := match n with O => 0 | S n => v mod 2 + ones n (v / 2) end.
Definition count_ones (v : Z) : Z := ones 64 v.

(** [1u64.checked_shl(n)] *)
Definition checked_shl1 (n : Z) : option Z := if n <? 64 then Some (2 ^ n) else None.
Definition or_none {A} (o : option A) : outcome unit A := ok_or o ().

(** ** Operation encodings *)

(** The loop of [append_u32_varint]; ten groups of seven bits hold any [u64]. *)
Fixpoint varint (fuel : nat) (value : Z) : Bytes :=
  match fuel with
  | O => []
  | S fuel => if value >=? 128 then [Z.lor (wrap U8 value) 128] ++ varint fuel (Z.shiftr value 7) else [wrap U8 value]
  end.
Definition append_u32_varint (value : Z) : Bytes := varint 5 value.
Definition append_u64_varint (value : Z) : Bytes := varint 10 value.

(** [append_len_prefixed_bytes]; [encoded_len_size] only sizes the allocation
    and fails on the same lengths. *)
Definition append_len_prefixed_bytes (bytes : Bytes) : outcome unit Bytes :=
  len ← or_none (chk U32 (Z.of_nat (length bytes)));
  Ok (append_u32_varint len ++ bytes).

Definition encode_keyless_append_operation (value : Bytes) : outcome unit Bytes :=
  body ← append_len_prefixed_bytes value; Ok ([1] ++ body).
Definition encode_metadata (metadata : option Bytes) : outcome unit Bytes :=
  match metadata with
  | Some bytes => body ← append_len_prefixed_bytes bytes; Ok ([1] ++ body)
  | None => Ok [0]
  end.
Definition encode_keyless_commit_operation (metadata : option Bytes) : outcome unit Bytes :=
  body ← encode_metadata metadata; Ok ([0] ++ body ++ append_u64_varint 0).

(** ** Positions and peaks *)

Definition MAX_MMR_LEAVES : Z := 4611686018427387904.
Definition MAX_MMR_NODES : Z := 9223372036854775807.

Definition mmr_location_to_position (loc : Z) : option Z :=
  if loc >? MAX_MMR_LEAVES then None else
  twice ← chk U64 (loc * 2); chk U64 (twice - count_ones loc).

(** The [while two_h > 1] loop.  A level takes at most two pushes and the
    halving, so 195 steps reach the end from any [u64]. *)
Definition PEAKS_FUEL : nat := 195.
Fixpoint peaks_loop (fuel : nat) (size two_h node_pos : Z) (peaks : list (Z * Z)) : list (Z * Z) :=
  match fuel with
  | O => []
  | S fuel =>
      if two_h >? 1 then
        if node_pos <? size then
          match chk U64 (node_pos + (two_h - 1)) with
          | Some next_pos => peaks_loop fuel size two_h next_pos (peaks ++ [(node_pos, trailing_zeros two_h - 1)])
          | None => []
          end
        else
          let two_h := Z.shiftr two_h 1 in
          match chk U64 (node_pos - two_h) with
          | Some next_pos => peaks_loop fuel size two_h next_pos peaks
          | None => []
          end
      else peaks
  end.
Definition mmr_peaks (size : Z) : list (Z * Z) :=
  if size =? 0 then [] else
  let start := Z.shiftr (int_max U64) (leading_zeros size) in
  if start =? int_max U64 then [] else
  let two_h := 2 ^ trailing_ones start in
  match chk U64 (start - 1) with
  | Some node_pos => peaks_loop PEAKS_FUEL size two_h node_pos []
  | None => []
  end.

(** The descent of [mmr_position_to_location]. *)
Fixpoint location_loop (fuel : nat) (pos two_h cur_node leaf_loc_floor : Z) : option Z :=
  match fuel with
  | O => None
  | S fuel =>
      if two_h >? 1 then
        if cur_node =? pos then None else
        left_pos ← chk U64 (cur_node - two_h);
        let two_h := Z.shiftr two_h 1 in
        if pos >? left_pos then
          floor ← chk U64 (leaf_loc_floor + two_h);
          cur ← chk U64 (cur_node - 1);
          location_loop fuel pos two_h cur floor
        else location_loop fuel pos two_h left_pos leaf_loc_floor
      else Some leaf_loc_floor
  end.
Definition mmr_position_to_location (pos : Z) : option Z :=
  if pos >? MAX_MMR_NODES then None else
  if pos =? 0 then Some 0 else
  let start := Z.shiftr (int_max U64) (leading_zeros (pos + 1)) in
  let height := trailing_ones start in
  if height =? 0 then None else
  cur_node ← chk U64 (start - 1);
  location_loop 65 pos (2 ^ (height - 1)) cur_node 0.
Definition mmr_leftmost_leaf (pos height : Z) : option Z :=
  h ← chk U32 (height + 1);
  shift ← checked_shl1 h;
  p ← chk U64 (pos + 2);
  leftmost_pos ← chk U64 (p - shift);
  mmr_position_to_location leftmost_pos.

(** ** Digests *)

Section sha.
Context (sha256 : Bytes → Bytes).

Definition mmr_leaf_digest (pos : Z) (element : Bytes) : Bytes := sha256 (be_bytes 8 pos ++ element).
Definition mmr_node_digest (pos : Z) (left_digest right_digest : Bytes) : Bytes := sha256 (be_bytes 8 pos ++ left_digest ++ right_digest).

Fixpoint fold_inactive (n : nat) (acc : Bytes) (rest : list Bytes) : outcome unit (Bytes * list Bytes) :=
  match n with
  | O => Ok (acc, rest)
  | S n => match rest with peak :: rest => fold_inactive n (sha256 (acc ++ peak)) rest | [] => Err () end
  end.
(** [for peak in active.iter().rev().skip(1) { folded = sha256(peak, folded) }]
    from the last peak. *)
Definition fold_active (active : list Bytes) : option Bytes :=
  folded ← last active;
  Some (foldl (λ folded peak, sha256 (peak ++ folded)) folded (drop 1 (reverse active))).
Definition mmr_root (leaves inactive_peaks_to_fold committed_inactive_peaks : Z) (peak_digests : list Bytes) : outcome unit Bytes :=
  match peak_digests with
  | [] =>
      if (inactive_peaks_to_fold =? 0) && (committed_inactive_peaks =? 0) then Ok (sha256 (be_bytes 8 leaves)) else Err ()
  | first :: rest =>
      if inactive_peaks_to_fold >? Z.of_nat (length peak_digests) then Err () else
      '(acc, rest) ← fold_inactive (Z.to_nat (sat U64 (inactive_peaks_to_fold - 1))) first rest;
      folded ← or_none (fold_active (acc :: rest));
      Ok (if committed_inactive_peaks =? 0 then sha256 (be_bytes 8 leaves ++ folded)
          else sha256 (be_bytes 8 leaves ++ be_bytes 8 committed_inactive_peaks ++ folded))
  end.

(** The recursion of [compute_mmr_peak_from_elements] on [height]. *)
Fixpoint compute_mmr_peak_from_elements (pos : Z) (height : nat) (elements : list Bytes) : outcome unit Bytes :=
  match height with
  | O => match elements with [element] => Ok (mmr_leaf_digest pos element) | _ => Err () end
  | S child_height =>
      left_width ← or_none (checked_shl1 (Z.of_nat child_height));
      if Z.of_nat (length elements) <? left_width then Panic else
      width ← or_none (checked_shl1 (Z.of_nat height));
      left_pos ← or_none (chk U64 (pos - width));
      right_pos ← or_none (chk U64 (pos - 1));
      left ← compute_mmr_peak_from_elements left_pos child_height (take (Z.to_nat left_width) elements);
      right ← compute_mmr_peak_from_elements right_pos child_height (drop (Z.to_nat left_width) elements);
      Ok (mmr_node_digest pos left right)
  end.

(** The loop over the peaks: the digests so far and the unread elements
    ([elements[leaf_cursor..]]). *)
Fixpoint peaks_of_elements (peaks : list (Z * Z)) (rest : list Bytes) : outcome unit (list Bytes) :=
  match peaks with
  | [] => if bool_decide (rest = []) then Ok [] else Err ()
  | (peak_pos, height) :: peaks =>
      width ← or_none (checked_shl1 height);
      if Z.of_nat (length rest) <? width then Err () else
      digest ← compute_mmr_peak_from_elements peak_pos (Z.to_nat height) (take (Z.to_nat width) rest);
      digests ← peaks_of_elements peaks (drop (Z.to_nat width) rest);
      Ok (digest :: digests)
  end.
Definition compute_mmr_root_from_elements (elements : list Bytes) : outcome unit Bytes :=
  let leaves := Z.of_nat (length elements) in
  if leaves >? MAX_MMR_LEAVES then Err () else
  size ← or_none (mmr_location_to_position leaves);
  peak_digests ← peaks_of_elements (mmr_peaks size) elements;
  mmr_root leaves 0 0 peak_digests.

(** ** The events root *)

Fixpoint append_operations (events : list Bytes) : outcome unit (list Bytes) :=
  match events with
  | [] => Ok []
  | event :: events => op ← encode_keyless_append_operation event; ops ← append_operations events; Ok (op :: ops)
  end.
Definition guest_events_root_from_event_bytes (events : list Bytes) : outcome unit Bytes :=
  first ← encode_keyless_commit_operation None;
  ops ← append_operations events;
  commit ← encode_keyless_commit_operation (Some (le_bytes 8 (Z.of_nat (length events))));
  compute_mmr_root_from_elements ([first] ++ ops ++ [commit]).
Definition guest_compute_events_root (w : BlockWitness) : outcome unit Bytes :=
  guest_events_root_from_event_bytes (event_leaf_values (bw_system_events w) (bw_orders w) (bw_rejections w) (bw_fills w)).
End sha.

(** Peaks of small trees: seven leaves are trees of four, two and one. *)
Example peaks_of_seven : mmr_location_to_position 7 = Some 11 ∧ mmr_peaks 11 = [(6, 2); (9, 1); (10, 0)].
Proof. done. Qed.
Example peaks_of_one : mmr_peaks 1 = [(0, 0)].
Proof. done. Qed.
Example location_of_leaves : mmr_position_to_location 0 = Some 0 ∧ mmr_position_to_location 1 = Some 1 ∧ mmr_position_to_location 2 = None ∧
  mmr_position_to_location 3 = Some 2 ∧ mmr_position_to_location 10 = Some 6 ∧ mmr_leftmost_leaf 9 1 = Some 4.
Proof. done. Qed.
