(* ===== verification/MmrProofs.v ===== *)
(** * MmrProofs: the mountain range is complete and binding

    The peaks of a range of [n] leaves are the complete trees of the bits of
    [n]; the root of any list exists; and equal roots have equal elements unless
    the hash has a collision. *)
From S2P Require Import Prelude Types Account Digest L1Protocol DepositFrontier Witness WitnessBytes Mmr.

(** ** Bits *)

Lemma ones_bound n v : 0 ≤ v → 0 ≤ ones n v ≤ v.
Proof.
  revert v. induction n as [|n IH]; intros v Hv; cbn [ones]; [lia|]. assert (0 ≤ v / 2) as H2 by (apply Z.div_pos; lia). specialize (IH _ H2).
  pose proof (Z.div_mod v 2). pose proof (Z.mod_pos_bound v 2). lia.
Qed.
Lemma ones_small n k v : 0 ≤ v < 2 ^ Z.of_nat n → (n ≤ k)%nat → ones k v = ones n v.
Proof.
  revert k v. induction n as [|n IH]; intros k v Hv Hk.
  - assert (v = 0) as -> by (cbn in Hv; lia). clear. induction k as [|k IH]; [done|]. cbn [ones]. rewrite Z.mod_0_l, Z.div_0_l by lia. exact IH.
  - destruct k as [|k]; [lia|]. cbn [ones]. f_equal. apply IH; [|lia]. rewrite Nat2Z.inj_succ, Z.pow_succ_r in Hv by lia.
    split; [apply Z.div_pos; lia|apply Z.div_lt_upper_bound; lia].
Qed.
Lemma ones_high n v : 0 ≤ v < 2 ^ Z.of_nat n → ones (S n) (2 ^ Z.of_nat n + v) = 1 + ones n v.
Proof.
  revert v. induction n as [|n IH]; intros v Hv.
  - assert (v = 0) as -> by (cbn in Hv; lia). done.
  - rewrite Nat2Z.inj_succ, Z.pow_succ_r in * by lia. change (ones (S (S n))) with (λ v, v mod 2 + ones (S n) (v / 2)). cbn beta.
    replace (2 * 2 ^ Z.of_nat n + v) with (v + 2 ^ Z.of_nat n * 2) by lia. rewrite Z.mod_add, Z.div_add by lia.
    rewrite (Z.add_comm (v / 2)), IH; [cbn [ones]; lia|]. split; [apply Z.div_pos; lia|apply Z.div_lt_upper_bound; lia].
Qed.
Lemma ones_pos n v : 0 < v < 2 ^ Z.of_nat n → 1 ≤ ones n v.
Proof.
  revert v. induction n as [|n IH]; intros v Hv; [cbn in Hv; lia|]. rewrite Nat2Z.inj_succ, Z.pow_succ_r in Hv by lia. cbn [ones].
  pose proof (Z.div_mod v 2). pose proof (Z.mod_pos_bound v 2). destruct (decide (v / 2 = 0)) as [E|].
  - pose proof (ones_bound n (v / 2)). lia.
  - assert (0 ≤ v / 2) by (apply Z.div_pos; lia). assert (v / 2 < 2 ^ Z.of_nat n) by (apply Z.div_lt_upper_bound; lia). specialize (IH (v / 2)). lia.
Qed.
Lemma count_ones_high h m : (h < 64)%nat → 0 ≤ m < 2 ^ Z.of_nat h → count_ones (2 ^ Z.of_nat h + m) = 1 + count_ones m.
Proof.
  intros Hh Hm. unfold count_ones. rewrite (ones_small (S h) 64), (ones_small h 64), ones_high by (lia || (rewrite Nat2Z.inj_succ, Z.pow_succ_r by lia; lia)). done.
Qed.

(** Facts about the sixty-four powers of two. *)
Lemma powers (P : Z → bool) : forallb P (Z.of_nat <$> seq 0 64) = true → ∀ h, 0 ≤ h < 64 → P h = true.
Proof.
  intros H h Hh. rewrite forallb_forall in H. apply H. apply list_elem_of_In, list_elem_of_fmap. exists (Z.to_nat h). split; [lia|]. apply elem_of_seq. lia.
Qed.
Lemma trailing_zeros_pow h : 0 ≤ h < 64 → trailing_zeros (2 ^ h) = h.
Proof. intros Hh. apply Z.eqb_eq. revert h Hh. apply powers. vm_compute. reflexivity. Qed.
Lemma trailing_ones_pow h : 0 ≤ h < 64 → trailing_ones (2 ^ h - 1) = h.
Proof. intros Hh. apply Z.eqb_eq. revert h Hh. apply powers. vm_compute. reflexivity. Qed.
Lemma leading_mask l : 0 ≤ l < 64 → Z.shiftr (int_max U64) (63 - l) = 2 ^ (l + 1) - 1.
Proof. intros Hh. apply Z.eqb_eq. revert l Hh. apply powers. vm_compute. reflexivity. Qed.

(** ** Peaks *)

(** The trees of the set bits of [m] from bit [h] down, the first starting at
    node [o]. *)
Fixpoint peaks_from (h : nat) (o m : Z) : list (Z * Z) :=
  match h with
  | O => []
  | S h =>
      if 2 ^ Z.of_nat h <=? m
      then (o + 2 * 2 ^ Z.of_nat h - 2, Z.of_nat h) :: peaks_from h (o + 2 * 2 ^ Z.of_nat h - 1) (m - 2 ^ Z.of_nat h)
      else peaks_from h o m
  end.

Lemma chk_U64 z : 0 ≤ z ≤ int_max U64 → chk U64 z = Some z.
Proof. intros Hz. unfold chk, fits. change (int_min U64) with 0. rewrite !(proj2 (Z.leb_le _ _)) by lia. done. Qed.
Lemma pow_pos h : 0 < 2 ^ Z.of_nat h.
Proof. apply Z.pow_pos_nonneg; lia. Qed.

Lemma peaks_loop_halve fuel size h node_pos acc : (h < 63)%nat → size ≤ node_pos → 0 ≤ node_pos - 2 ^ Z.of_nat h → node_pos ≤ int_max U64 →
  peaks_loop (S fuel) size (2 ^ Z.of_nat (S h)) node_pos acc = peaks_loop fuel size (2 ^ Z.of_nat h) (node_pos - 2 ^ Z.of_nat h) acc.
Proof.
  intros Hh Hs Hn Hm. cbn [peaks_loop]. rewrite Nat2Z.inj_succ, Z.pow_succ_r by lia. pose proof (pow_pos h).
  assert ((2 * 2 ^ Z.of_nat h >? 1) = true) as -> by (apply Z.gtb_lt; lia). assert ((node_pos <? size) = false) as -> by (apply Z.ltb_ge; lia).
  assert (Z.shiftr (2 * 2 ^ Z.of_nat h) 1 = 2 ^ Z.of_nat h) as ->. { rewrite Z.shiftr_div_pow2, Z.pow_1_r, Z.mul_comm, Z.div_mul by lia. done. }
  cbn zeta. rewrite chk_U64 by lia. done.
Qed.
Lemma peaks_loop_push fuel size h node_pos acc : (h < 63)%nat → node_pos < size → 0 ≤ node_pos → node_pos + 2 ^ Z.of_nat (S h) ≤ int_max U64 →
  peaks_loop (S fuel) size (2 ^ Z.of_nat (S h)) node_pos acc =
  peaks_loop fuel size (2 ^ Z.of_nat (S h)) (node_pos + (2 ^ Z.of_nat (S h) - 1)) (acc ++ [(node_pos, Z.of_nat h)]).
Proof.
  intros Hh Hs Hn Hm. pose proof (pow_pos h). cbn [peaks_loop]. assert (2 ^ Z.of_nat (S h) = 2 * 2 ^ Z.of_nat h) as E by (rewrite Nat2Z.inj_succ, Z.pow_succ_r by lia; lia).
  assert ((2 ^ Z.of_nat (S h) >? 1) = true) as -> by (apply Z.gtb_lt; lia). assert ((node_pos <? size) = true) as -> by (apply Z.ltb_lt; lia).
  rewrite chk_U64 by lia. rewrite trailing_zeros_pow by lia. do 4 f_equal. lia.
Qed.

Lemma peaks_loop_exact h : ∀ fuel o m acc, (h ≤ 63)%nat → (2 * h + 1 ≤ fuel)%nat → 0 ≤ m < 2 ^ Z.of_nat h → 0 ≤ o → 0 < o + m →
  o + 4 * 2 ^ Z.of_nat h ≤ 2 ^ 65 → o + 2 * m ≤ 2 ^ 63 →
  peaks_loop fuel (o + (2 * m - count_ones m)) (2 ^ Z.of_nat h) (o + 2 ^ Z.of_nat h - 2) acc = acc ++ peaks_from h o m.
Proof.
  induction h as [|h IH]; intros fuel o m acc Hh Hf Hm Ho Hom Hb Hs.
  - destruct fuel; [lia|]. cbn. by rewrite app_nil_r.
  - pose proof (pow_pos h). assert (2 ^ Z.of_nat (S h) = 2 * 2 ^ Z.of_nat h) as E by (rewrite Nat2Z.inj_succ, Z.pow_succ_r by lia; lia).
    assert (2 ^ Z.of_nat (S h) ≤ 2 ^ 63) as Hp by (apply Z.pow_le_mono_r; lia). change (2 ^ 63) with 9223372036854775808 in *. change (2 ^ 65) with 36893488147419103232 in *.
    cbn [peaks_from]. pose proof (ones_bound 64 m ltac:(lia)) as Hones. fold (count_ones m) in Hones. destruct fuel as [|fuel]; [lia|].
    destruct (Z.leb_spec (2 ^ Z.of_nat h) m) as [Hbit|Hbit].
    + set (m' := m - 2 ^ Z.of_nat h). assert (count_ones m = 1 + count_ones m') as Hc.
      { replace m with (2 ^ Z.of_nat h + m') by lia. apply count_ones_high; lia. }
      pose proof (ones_bound 64 m' ltac:(lia)) as Hones'. fold (count_ones m') in Hones'. change (int_max U64) with 18446744073709551615 in *.
      rewrite peaks_loop_push by (change (int_max U64) with 18446744073709551615; lia). destruct fuel as [|fuel]; [lia|].
      rewrite peaks_loop_halve by (change (int_max U64) with 18446744073709551615; lia).
      replace (o + (2 * m - count_ones m)) with ((o + 2 * 2 ^ Z.of_nat h - 1) + (2 * m' - count_ones m')) by lia.
      replace (o + 2 ^ Z.of_nat (S h) - 2 + (2 ^ Z.of_nat (S h) - 1) - 2 ^ Z.of_nat h) with ((o + 2 * 2 ^ Z.of_nat h - 1) + 2 ^ Z.of_nat h - 2) by lia.
      rewrite IH by lia. rewrite <- (assoc_L (++)). cbn [app]. do 3 f_equal. lia.
    + assert (0 ≤ o + 2 ^ Z.of_nat (S h) - 2 - 2 ^ Z.of_nat h) as Hn.
      { destruct (decide (h = 0%nat)) as [->|]; [cbn in Hbit; assert (m = 0) by lia; lia|]. assert (2 ^ 1 ≤ 2 ^ Z.of_nat h) by (apply Z.pow_le_mono_r; lia). lia. }
      rewrite peaks_loop_halve by (change (int_max U64) with 18446744073709551615; lia).
      replace (o + 2 ^ Z.of_nat (S h) - 2 - 2 ^ Z.of_nat h) with (o + 2 ^ Z.of_nat h - 2) by lia. apply IH; lia.
Qed.

Lemma peaks_from_small h k o m : (h ≤ k)%nat → 0 ≤ m < 2 ^ Z.of_nat h → peaks_from k o m = peaks_from h o m.
Proof.
  induction k as [|k IH]; intros Hk Hm; [by assert (h = 0)%nat as -> by lia|]. destruct (decide (h = S k)) as [->|]; [done|]. cbn [peaks_from].
  assert (2 ^ Z.of_nat h ≤ 2 ^ Z.of_nat k) by (apply Z.pow_le_mono_r; lia). destruct (Z.leb_spec (2 ^ Z.of_nat k) m); [lia|]. apply IH; lia.
Qed.

Lemma mmr_peaks_exact n : 0 ≤ n ≤ MAX_MMR_LEAVES → ∃ size, mmr_location_to_position n = Some size ∧ mmr_peaks size = peaks_from 63 0 n.
Proof.
  intros Hn. pose proof (ones_bound 64 n ltac:(lia)) as Ho. fold (count_ones n) in Ho. unfold MAX_MMR_LEAVES in Hn. exists (2 * n - count_ones n). split.
  { unfold mmr_location_to_position, MAX_MMR_LEAVES. destruct (n >? _) eqn:E; [apply Z.gtb_lt in E; lia|].
    rewrite chk_U64 by (change (int_max U64) with 18446744073709551615; lia). cbn [mbind option_bind]. rewrite chk_U64 by (change (int_max U64) with 18446744073709551615; lia). f_equal. lia. }
  destruct (decide (n = 0)) as [->|Hn0]; [done|]. assert (1 ≤ count_ones n) as Ho1 by (apply ones_pos; change (2 ^ Z.of_nat 64) with 18446744073709551616; lia). unfold mmr_peaks. destruct (Z.eqb_spec (2 * n - count_ones n) 0); [lia|]. remember (2 * n - count_ones n) as size eqn:Hsize.
  assert (0 ≤ Z.log2 size < 63) as Hl. { split; [apply Z.log2_nonneg|]. apply Z.log2_lt_pow2; [lia|]. change (2 ^ 63) with 9223372036854775808. lia. }
  unfold leading_zeros. destruct (Z.eqb_spec size 0); [lia|]. rewrite leading_mask by lia. pose proof (Z.log2_spec size ltac:(lia)) as [Hlo Hhi].
  remember (Z.log2 size + 1) as k eqn:Hkl. assert (2 ^ k ≤ 2 ^ 63) as Hk by (apply Z.pow_le_mono_r; lia). replace (Z.succ (Z.log2 size)) with k in Hhi by lia.
  change (2 ^ 63) with 9223372036854775808 in Hk. assert (0 < 2 ^ k) by (apply Z.pow_pos_nonneg; lia).
  cbn zeta. assert ((2 ^ k - 1 =? int_max U64) = false) as ->. { apply Z.eqb_neq. change (int_max U64) with 18446744073709551615. lia. }
  assert (2 ≤ 2 ^ k). { change 2 with (2 ^ 1) at 1. apply Z.pow_le_mono_r; lia. }
  rewrite trailing_ones_pow by lia. rewrite chk_U64 by (change (int_max U64) with 18446744073709551615; lia).
  pose proof (peaks_loop_exact (Z.to_nat k) PEAKS_FUEL 0 n []) as Hloop. rewrite Z2Nat.id in Hloop by lia. cbn [app] in Hloop. rewrite !Z.add_0_l, <- Hsize in Hloop.
  replace (2 ^ k - 1 - 1) with (2 ^ k - 2) by lia. unfold PEAKS_FUEL in *. change (2 ^ 65) with 36893488147419103232 in Hloop. change (2 ^ 63) with 9223372036854775808 in Hloop.
  rewrite Hloop by lia. symmetry. apply peaks_from_small; [lia|]. rewrite Z2Nat.id by lia. lia.
Qed.

(** ** Complete trees *)

Section sha.
Context (sha256 : Bytes → Bytes).

Lemma checked_shl1_Some h : (h < 64)%nat → checked_shl1 (Z.of_nat h) = Some (2 ^ Z.of_nat h).
Proof. intros Hh. unfold checked_shl1. by rewrite (proj2 (Z.ltb_lt _ _)) by lia. Qed.

(** One level of [compute_mmr_peak_from_elements]. *)
Lemma peak_step pos h l : (S h < 64)%nat → Z.of_nat (length l) = 2 ^ Z.of_nat (S h) → 2 ^ Z.of_nat (S h) ≤ pos ≤ int_max U64 →
  compute_mmr_peak_from_elements sha256 pos (S h) l =
  (left ← compute_mmr_peak_from_elements sha256 (pos - 2 ^ Z.of_nat (S h)) h (take (Z.to_nat (2 ^ Z.of_nat h)) l);
   right ← compute_mmr_peak_from_elements sha256 (pos - 1) h (drop (Z.to_nat (2 ^ Z.of_nat h)) l);
   Ok (mmr_node_digest sha256 pos left right)).
Proof.
  intros Hh Hl Hpos. pose proof (pow_pos h). assert (2 ^ Z.of_nat (S h) = 2 * 2 ^ Z.of_nat h) as E by (rewrite Nat2Z.inj_succ, Z.pow_succ_r by lia; lia).
  cbn [compute_mmr_peak_from_elements]. rewrite !checked_shl1_Some by lia. cbn [or_none ok_or mbind outcome_bind].
  destruct (Z.ltb_spec (Z.of_nat (length l)) (2 ^ Z.of_nat h)); [lia|]. rewrite !chk_U64 by lia. done.
Qed.
Lemma half_length h (l : list Bytes) : Z.of_nat (length l) = 2 ^ Z.of_nat (S h) →
  Z.of_nat (length (take (Z.to_nat (2 ^ Z.of_nat h)) l)) = 2 ^ Z.of_nat h ∧ Z.of_nat (length (drop (Z.to_nat (2 ^ Z.of_nat h)) l)) = 2 ^ Z.of_nat h.
Proof.
  intros Hl. pose proof (pow_pos h). assert (2 ^ Z.of_nat (S h) = 2 * 2 ^ Z.of_nat h) as E by (rewrite Nat2Z.inj_succ, Z.pow_succ_r by lia; lia).
  rewrite length_take, length_drop. lia.
Qed.

Lemma peak_total h : ∀ pos l, (h < 63)%nat → Z.of_nat (length l) = 2 ^ Z.of_nat h → 2 * 2 ^ Z.of_nat h - 2 ≤ pos ≤ int_max U64 →
  ∃ d, compute_mmr_peak_from_elements sha256 pos h l = Ok d.
Proof.
  induction h as [|h IH]; intros pos l Hh Hl Hpos.
  - destruct l as [|x [|y l]]; cbn in Hl; [lia| |lia]. by eexists.
  - pose proof (pow_pos h). assert (2 ^ Z.of_nat (S h) = 2 * 2 ^ Z.of_nat h) as E by (rewrite Nat2Z.inj_succ, Z.pow_succ_r by lia; lia).
    destruct (half_length h l Hl) as [Ht Hd]. rewrite peak_step by lia.
    destruct (IH (pos - 2 ^ Z.of_nat (S h)) _ ltac:(lia) Ht ltac:(lia)) as [d1 ->]. destruct (IH (pos - 1) _ ltac:(lia) Hd ltac:(lia)) as [d2 ->]. by eexists.
Qed.

Lemma peaks_total h : ∀ o m l, (h ≤ 63)%nat → 0 ≤ m < 2 ^ Z.of_nat h → Z.of_nat (length l) = m → 0 ≤ o → o + 2 * 2 ^ Z.of_nat h ≤ 2 ^ 64 →
  ∃ ds, peaks_of_elements sha256 (peaks_from h o m) l = Ok ds.
Proof.
  induction h as [|h IH]; intros o m l Hh Hm Hl Ho Hb.
  - assert (l = []) as -> by (apply length_zero_iff_nil; cbn in Hm; lia). by eexists.
  - pose proof (pow_pos h). assert (2 ^ Z.of_nat (S h) = 2 * 2 ^ Z.of_nat h) as E by (rewrite Nat2Z.inj_succ, Z.pow_succ_r by lia; lia).
    change (2 ^ 64) with 18446744073709551616 in *. cbn [peaks_from]. destruct (Z.leb_spec (2 ^ Z.of_nat h) m) as [Hbit|Hbit]; [|apply IH; lia].
    cbn [peaks_of_elements]. rewrite checked_shl1_Some by lia. cbn [or_none ok_or mbind outcome_bind]. destruct (Z.ltb_spec (Z.of_nat (length l)) (2 ^ Z.of_nat h)); [lia|].
    rewrite Nat2Z.id. destruct (peak_total h (o + 2 * 2 ^ Z.of_nat h - 2) (take (Z.to_nat (2 ^ Z.of_nat h)) l)) as [d ->];
      [lia|rewrite length_take; lia|change (int_max U64) with 18446744073709551615; lia|]. cbn [mbind outcome_bind].
    destruct (IH (o + 2 * 2 ^ Z.of_nat h - 1) (m - 2 ^ Z.of_nat h) (drop (Z.to_nat (2 ^ Z.of_nat h)) l)) as [ds ->]; [lia|lia|rewrite length_drop; lia|lia..|]. by eexists.
Qed.

Lemma fold_active_cons p q l : fold_active sha256 (p :: q :: l) = (folded ← fold_active sha256 (q :: l); Some (sha256 (p ++ folded))).
Proof.
  unfold fold_active. cbn [last]. destruct (last (q :: l)) as [f|] eqn:E; [|done]. cbn [mbind option_bind]. rewrite (reverse_cons (q :: l) p).
  destruct (reverse (q :: l)) as [|x r] eqn:Er.
  - apply (f_equal reverse) in Er. rewrite reverse_involutive in Er. done.
  - change (drop 1 ((x :: r) ++ [p])) with (r ++ [p]). change (drop 1 (x :: r)) with r. rewrite foldl_app. done.
Qed.
Lemma fold_active_Some l : l ≠ [] → ∃ d, fold_active sha256 l = Some d.
Proof.
  induction l as [|p [|q l] IH]; intros H; [done|by eexists|]. rewrite fold_active_cons. destruct IH as [d ->]; [done|]. by eexists.
Qed.
Lemma mmr_root_nil n : mmr_root sha256 n 0 0 [] = Ok (sha256 (be_bytes 8 n)).
Proof. done. Qed.
Lemma mmr_root_active n ds : ds ≠ [] → ∃ d, fold_active sha256 ds = Some d ∧ mmr_root sha256 n 0 0 ds = Ok (sha256 (be_bytes 8 n ++ d)).
Proof.
  intros Hd. destruct (fold_active_Some ds Hd) as [d Hf]. exists d. split; [done|]. destruct ds as [|x ds]; [done|]. unfold mmr_root. destruct (0 >? _) eqn:E; [apply Z.gtb_lt in E; lia|].
  change (Z.to_nat (sat U64 (0 - 1))) with 0%nat. cbn [fold_inactive mbind outcome_bind]. rewrite Hf. done.
Qed.

(** The root of every list of at most [2^62] elements exists. *)
Lemma mmr_root_total l : Z.of_nat (length l) ≤ MAX_MMR_LEAVES → ∃ root, compute_mmr_root_from_elements sha256 l = Ok root.
Proof.
  intros Hn. unfold compute_mmr_root_from_elements. cbn zeta. destruct (Z.of_nat (length l) >? MAX_MMR_LEAVES) eqn:E; [apply Z.gtb_lt in E; lia|].
  destruct (mmr_peaks_exact (Z.of_nat (length l)) ltac:(lia)) as (size & -> & Hp). cbn [or_none ok_or mbind outcome_bind]. rewrite Hp.
  destruct (peaks_total 63 0 (Z.of_nat (length l)) l) as [ds ->]; [lia|change (2 ^ Z.of_nat 63) with 9223372036854775808; unfold MAX_MMR_LEAVES in Hn; lia|done|lia|done|].
  cbn [mbind outcome_bind]. destruct ds as [|d ds]; [by eexists|]. destruct (mmr_root_active (Z.of_nat (length l)) (d :: ds)) as (x & _ & ->); [done|by eexists].
Qed.

(** ** Binding *)

Hypothesis sha256_length : ∀ b, length (sha256 b) = 32%nat.

Lemma sha_inj x y : sha256 x = sha256 y → x = y ∨ collision sha256.
Proof. intros H. destruct (decide (x = y)); [by left|right]. by exists x, y. Qed.
Lemma peak_length h pos l d : compute_mmr_peak_from_elements sha256 pos h l = Ok d → length d = 32%nat.
Proof.
  destruct h as [|h]; cbn [compute_mmr_peak_from_elements].
  - destruct l as [|x [|y l]]; [done| |done]. intros [= <-]. apply sha256_length.
  - intros (w & _ & H)%obind_Ok. destruct (_ <? _); [done|]. apply obind_Ok in H as (? & _ & H). apply obind_Ok in H as (? & _ & H). apply obind_Ok in H as (? & _ & H).
    apply obind_Ok in H as (? & _ & H). apply obind_Ok in H as (? & _ & [= <-]). apply sha256_length.
Qed.

Lemma peak_binding h : ∀ pos l l' d, compute_mmr_peak_from_elements sha256 pos h l = Ok d → compute_mmr_peak_from_elements sha256 pos h l' = Ok d →
  l = l' ∨ collision sha256.
Proof.
  induction h as [|h IH]; intros pos l l' d; cbn [compute_mmr_peak_from_elements].
  - destruct l as [|x [|y l]]; [done| |done]. destruct l' as [|x' [|y' l']]; [done| |done]. intros [= <-] [= He].
    apply sha_inj in He as [He|?]; [|by right]. left. f_equal. by apply app_inv_head in He.
  - intros (w & Hw & H)%obind_Ok (w' & Hw' & H')%obind_Ok. rewrite Hw in Hw'. injection Hw' as <-. destruct (_ <? _); [done|]. destruct (_ <? _); [done|].
    apply obind_Ok in H as (v & Hv & H). apply obind_Ok in H' as (v' & Hv' & H'). rewrite Hv in Hv'. injection Hv' as <-.
    apply obind_Ok in H as (lp & Hlp & H). apply obind_Ok in H' as (lp' & Hlp' & H'). rewrite Hlp in Hlp'. injection Hlp' as <-.
    apply obind_Ok in H as (rp & Hrp & H). apply obind_Ok in H' as (rp' & Hrp' & H'). rewrite Hrp in Hrp'. injection Hrp' as <-.
    apply obind_Ok in H as (a & Ha & H). apply obind_Ok in H' as (a' & Ha' & H'). apply obind_Ok in H as (b & Hb & [= <-]). apply obind_Ok in H' as (b' & Hb' & [= He]).
    apply sha_inj in He as [He|?]; [|by right]. apply app_inv_head in He. apply field_inj in He as [<- <-]; [|by rewrite (peak_length _ _ _ _ Ha), (peak_length _ _ _ _ Ha')].
    destruct (IH _ _ _ _ Ha Ha') as [Hl|?]; [|by right]. destruct (IH _ _ _ _ Hb Hb') as [Hr|?]; [|by right]. left.
    rewrite <- (take_drop (Z.to_nat w) l), <- (take_drop (Z.to_nat w) l'). congruence.
Qed.

Lemma peaks_binding peaks : ∀ l l' ds, peaks_of_elements sha256 peaks l = Ok ds → peaks_of_elements sha256 peaks l' = Ok ds → l = l' ∨ collision sha256.
Proof.
  induction peaks as [|[pos h] peaks IH]; intros l l' ds; cbn [peaks_of_elements].
  - repeat case_bool_decide; intros; simplify_eq; by left.
  - intros (w & Hw & H)%obind_Ok (w' & Hw' & H')%obind_Ok. rewrite Hw in Hw'. injection Hw' as <-. destruct (_ <? _); [done|]. destruct (_ <? _); [done|].
    apply obind_Ok in H as (d & Hd & H). apply obind_Ok in H as (k & Hk & [= <-]). apply obind_Ok in H' as (d' & Hd' & H'). apply obind_Ok in H' as (k' & Hk' & [= <- <-]).
    destruct (peak_binding _ _ _ _ _ Hd Hd') as [Ht|?]; [|by right]. destruct (IH _ _ _ Hk Hk') as [Hr|?]; [|by right]. left.
    rewrite <- (take_drop (Z.to_nat w) l), <- (take_drop (Z.to_nat w) l'). congruence.
Qed.
Lemma peaks_digests peaks l ds : peaks_of_elements sha256 peaks l = Ok ds → length ds = length peaks ∧ Forall (λ d, length d = 32%nat) ds.
Proof.
  revert l ds. induction peaks as [|[pos h] peaks IH]; intros l ds; cbn [peaks_of_elements].
  - case_bool_decide; [|done]. intros [= <-]. done.
  - intros (w & _ & H)%obind_Ok. destruct (_ <? _); [done|]. apply obind_Ok in H as (d & Hd & H). apply obind_Ok in H as (k & Hk & [= <-]).
    apply IH in Hk as [Hl HF]. split; [cbn; lia|]. constructor; [by eapply peak_length|done].
Qed.
Lemma fold_active_length ds x : Forall (λ d, length d = 32%nat) ds → fold_active sha256 ds = Some x → length x = 32%nat.
Proof.
  intros HF Hx. destruct ds as [|a [|b ds]]; [done| |]; [injection Hx as <-; by inversion HF|].
  rewrite fold_active_cons in Hx. destruct (fold_active sha256 _); [|done]. injection Hx as <-. apply sha256_length.
Qed.
Lemma no_peaks peaks l : peaks_of_elements sha256 peaks l = Ok [] → l = [].
Proof.
  destruct peaks as [|[? ?] ?]; cbn [peaks_of_elements]; [by case_bool_decide|]. intros (? & _ & H)%obind_Ok. destruct (_ <? _); [done|].
  apply obind_Ok in H as (? & _ & H). by apply obind_Ok in H as (? & _ & ?).
Qed.
Lemma fold_active_binding ds ds' d : length ds = length ds' → Forall (λ d, length d = 32%nat) ds → Forall (λ d, length d = 32%nat) ds' →
  fold_active sha256 ds = Some d → fold_active sha256 ds' = Some d → ds = ds' ∨ collision sha256.
Proof.
  revert ds' d. induction ds as [|x [|y ds] IH]; intros ds' d Hl HF HF' H H'; [done| |].
  - destruct ds' as [|x' [|y' ds']]; cbn in Hl; [lia| |lia]. cbn in H, H'. left. congruence.
  - destruct ds' as [|x' [|y' ds']]; cbn in Hl; [lia..|]. rewrite fold_active_cons in H. rewrite fold_active_cons in H'.
    destruct (fold_active sha256 (y :: ds)) as [f|] eqn:E; [|done]. destruct (fold_active sha256 (y' :: ds')) as [f'|] eqn:E'; [|done]. injection H as <-. injection H' as H'.
    apply Forall_cons in HF as [Hx HF]. apply Forall_cons in HF' as [Hx' HF'].
    apply sha_inj in H' as [H'|?]; [|by right]. apply field_inj in H' as [-> ->]; [|congruence]. destruct (IH (y' :: ds') f) as [->|?]; [cbn; lia|done..|by left|by right].
Qed.

Lemma be_u64_inj z z' : u64 z → u64 z' → be_bytes 8 z = be_bytes 8 z' → z = z'.
Proof. intros Hz Hz' H. unfold be_bytes in H. apply (f_equal reverse) in H. rewrite !reverse_involutive in H. by apply le_u64_inj. Qed.

Lemma mmr_root_binding l l' root : compute_mmr_root_from_elements sha256 l = Ok root → compute_mmr_root_from_elements sha256 l' = Ok root → l = l' ∨ collision sha256.
Proof.
  unfold compute_mmr_root_from_elements. cbn zeta. destruct (_ >? _) eqn:E; [done|]. destruct (_ >? _) eqn:E' in |- *; [done|]. rewrite Z.gtb_ltb, Z.ltb_ge in E, E'.
  unfold MAX_MMR_LEAVES in E, E'. assert (u64 (Z.of_nat (length l)) ∧ u64 (Z.of_nat (length l'))) as [Hu Hu'] by (unfold u64; change (int_max U64) with 18446744073709551615; lia).
  intros (size & Hs & H)%obind_Ok (size' & Hs' & H')%obind_Ok. apply obind_Ok in H as (ds & Hd & H). apply obind_Ok in H' as (ds' & Hd' & H').
  pose proof (peaks_digests _ _ _ Hd) as [Hdl HdF]. pose proof (peaks_digests _ _ _ Hd') as [Hdl' HdF'].
  assert (length (be_bytes 8 (Z.of_nat (length l))) = length (be_bytes 8 (Z.of_nat (length l')))) as Hbl by (unfold be_bytes; by rewrite !length_reverse, !le_bytes_length).
  destruct (decide (ds = [])) as [->|Hne], (decide (ds' = [])) as [->|Hne'].
  - left. by rewrite (no_peaks _ _ Hd), (no_peaks _ _ Hd').
  - destruct (mmr_root_active (Z.of_nat (length l')) ds' Hne') as (x & Hx & Hm). rewrite Hm in H'. rewrite mmr_root_nil in H.
    assert (sha256 (be_bytes 8 (Z.of_nat (length l')) ++ x) = sha256 (be_bytes 8 (Z.of_nat (length l)))) as He by congruence.
    apply sha_inj in He as [He|?]; [|by right]. apply (f_equal length) in He. rewrite length_app, (fold_active_length _ _ HdF' Hx), Hbl in He. lia.
  - destruct (mmr_root_active (Z.of_nat (length l)) ds Hne) as (x & Hx & Hm). rewrite Hm in H. rewrite mmr_root_nil in H'.
    assert (sha256 (be_bytes 8 (Z.of_nat (length l)) ++ x) = sha256 (be_bytes 8 (Z.of_nat (length l')))) as He by congruence.
    apply sha_inj in He as [He|?]; [|by right]. apply (f_equal length) in He. rewrite length_app, (fold_active_length _ _ HdF Hx), Hbl in He. lia.
  - destruct (mmr_root_active (Z.of_nat (length l)) ds Hne) as (x & Hx & Hm), (mmr_root_active (Z.of_nat (length l')) ds' Hne') as (x' & Hx' & Hm').
    rewrite Hm in H. rewrite Hm' in H'.
    assert (sha256 (be_bytes 8 (Z.of_nat (length l)) ++ x) = sha256 (be_bytes 8 (Z.of_nat (length l')) ++ x')) as He by congruence.
    apply sha_inj in He as [He|?]; [|by right]. apply field_inj in He as [Hn <-]; [|done].
    apply be_u64_inj in Hn; [|done..]. rewrite <- Hn in Hs'. rewrite Hs in Hs'. injection Hs' as <-.
    destruct (fold_active_binding ds ds' x) as [<-|?]; [congruence|done..| |by right]. by eapply peaks_binding.
Qed.
End sha.
