(* ===== verification/EventsRoot.v ===== *)
(** * EventsRoot: the events root determines the block's events

    The guest's events root exists for every block within the size limits, and
    two blocks with one root have the same system events, orders, rejections and
    fills, up to what their leaves leave out, unless SHA-256 has a collision. *)
From S2P Require Import Prelude Types Order MmConstraint Account Digest Snapshots Finalize Witness Sidecar SettlementVerifier MatchVerifier OrdersVerifier L1Protocol DepositFrontier AccountKeys WebAuthn Signing ClientAction KeyTransition WitnessBytes WitnessDecode WitnessTyping WitnessRoundtrip WitnessExact SystemVerifier BridgeSidecar SidecarMarkets StateCommitment StateBinding BlockChain Mmr MmrProofs.

(** ** Length prefixes *)

Lemma lor_128 b : 0 ≤ b < 256 → Z.lor b 128 = b mod 128 + 128.
Proof.
  intros Hb. assert (forallb (λ n, Z.lor (Z.of_nat n) 128 =? Z.of_nat n mod 128 + 128) (seq 0 256) = true) as H by (vm_compute; reflexivity).
  rewrite forallb_forall in H. specialize (H (Z.to_nat b)). rewrite Z2Nat.id in H by lia. apply Z.eqb_eq, H, list_elem_of_In, elem_of_seq. lia.
Qed.
Lemma varint_byte v : Z.lor (wrap U8 v) 128 = v mod 128 + 128.
Proof.
  unfold wrap. change (int_min U8) with 0. change (int_max U8) with 255. rewrite Z.sub_0_r, Z.add_0_r. change (255 - 0 + 1) with 256.
  rewrite lor_128 by (apply Z.mod_pos_bound; lia). f_equal. rewrite <- (Znumtheory.Zmod_div_mod 128 256 v); [done|lia..|by exists 2].
Qed.
Lemma wrap_U8_small v : 0 ≤ v < 128 → wrap U8 v = v.
Proof. intros Hv. unfold wrap. change (int_min U8) with 0. change (int_max U8) with 255. rewrite Z.mod_small; lia. Qed.
Lemma varint_inj f : ∀ v v' r r', 0 ≤ v < 128 ^ Z.of_nat f → 0 ≤ v' < 128 ^ Z.of_nat f → varint f v ++ r = varint f v' ++ r' → v = v' ∧ r = r'.
Proof.
  induction f as [|f IH]; intros v v' r r' Hv Hv'; [change (128 ^ Z.of_nat 0) with 1 in *; intros H; split; [lia|done]|]. rewrite Nat2Z.inj_succ, Z.pow_succ_r in Hv, Hv' by lia. cbn [varint].
  rewrite !Z.geb_leb. destruct (Z.leb_spec 128 v), (Z.leb_spec 128 v'); rewrite ?varint_byte, ?wrap_U8_small by lia; cbn [app]; intros Heq.
  - pose proof (Z.mod_pos_bound v 128). pose proof (Z.mod_pos_bound v' 128). injection Heq as Hb Hr. rewrite !Z.shiftr_div_pow2 in Hr by lia. change (2 ^ 7) with 128 in Hr.
    apply IH in Hr as [Hq ->]; [|split; [apply Z.div_pos; lia|apply Z.div_lt_upper_bound; lia]..]. split; [|done]. rewrite (Z.div_mod v 128), (Z.div_mod v' 128) by lia. lia.
  - pose proof (Z.mod_pos_bound v 128). injection Heq as Hb Hr. lia.
  - pose proof (Z.mod_pos_bound v' 128). injection Heq as Hb Hr. lia.
  - injection Heq as -> ->. done.
Qed.
Lemma len_prefixed_Ok b x : append_len_prefixed_bytes b = Ok x → x = append_u32_varint (Z.of_nat (length b)) ++ b ∧ u32 (Z.of_nat (length b)).
Proof.
  unfold append_len_prefixed_bytes. intros (n & Hn & [= <-])%obind_Ok. unfold or_none in Hn. destruct (chk U32 _) as [m|] eqn:E; [|done]. injection Hn as <-.
  apply chk_Some in E as [-> [? ?]]. split; [done|]. unfold u32. change (int_min U32) with 0 in *. lia.
Qed.
Lemma append_operation_inj b b' x : encode_keyless_append_operation b = Ok x → encode_keyless_append_operation b' = Ok x → b = b'.
Proof.
  unfold encode_keyless_append_operation. intros (y & [-> Hb]%len_prefixed_Ok & [= <-])%obind_Ok (y' & [-> Hb']%len_prefixed_Ok & [= H])%obind_Ok.
  unfold u32 in *. change (int_max U32) with 4294967295 in *. apply varint_inj in H as [_ ->]; [done|change (128 ^ Z.of_nat 5) with 34359738368; lia..].
Qed.
Lemma append_operations_inj l l' ops : append_operations l = Ok ops → append_operations l' = Ok ops → l = l'.
Proof.
  revert l' ops. induction l as [|x l IH]; intros l' ops; cbn [append_operations].
  - intros [= <-]. destruct l' as [|x' l']; [done|]. cbn. intros (? & _ & H)%obind_Ok. by apply obind_Ok in H as (? & _ & ?).
  - intros (o & Ho & H)%obind_Ok. apply obind_Ok in H as (os & Hos & [= <-]). destruct l' as [|x' l']; [done|]. cbn [append_operations].
    intros (o' & Ho' & H)%obind_Ok. apply obind_Ok in H as (os' & Hos' & [= -> ->]). f_equal; [by eapply append_operation_inj|by eapply IH].
Qed.

(** ** Leaves by their domain *)

Definition parts_at (i : nat) (d d' : Bytes) : Prop := ∃ x y, d !! i = Some x ∧ d' !! i = Some y ∧ x ≠ y.
Lemma domain_differs {A} i d d' field (k : unit → st WitnessReader WitnessDecodeError A) b : parts_at i d d' →
  decode_with (read_domain d field ≫= k) (d' ++ b) = None.
Proof.
  intros (x & y & Hx & Hy & Hne). unfold decode_with, read_domain. unfold mbind, st_bind. cbn [sget wr_rest wr_offset].
  destruct (_ <? _); [done|]. case_decide as E; [|done]. exfalso. apply Hne. rewrite <- E in Hx. apply lookup_take_Some in Hx as [Hx _].
  rewrite lookup_app_l in Hx by (by eapply lookup_lt_Some). congruence.
Qed.

(** Each section is recovered by the reader of its leaves. *)
Lemma omap_section {A B} (m : st WitnessReader WitnessDecodeError B) (enc : A → Bytes) (view : A → B) (P : A → Prop) l :
  Forall P l → (∀ x, P x → decodes m (enc x) (view x)) → omap (decode_with m) (enc <$> l) = view <$> l.
Proof. intros HP H. induction HP as [|x l Hx _ IH]; [done|]. rewrite !fmap_cons. cbn. rewrite (decode_with_Some _ _ _ (H x Hx)). f_equal. exact IH. Qed.
Lemma omap_other {A B} (m : st WitnessReader WitnessDecodeError B) (enc : A → Bytes) l : (∀ x, decode_with m (enc x) = None) → omap (decode_with m) (enc <$> l) = [].
Proof. intros H. induction l as [|x l IH]; [done|]. rewrite fmap_cons. cbn. by rewrite H. Qed.

Ltac differs n := intros ?; apply (domain_differs n); eexists _, _; split_and!; [vm_compute; reflexivity..|lia].
Section leaves.
Context (events : list Event.SystemEventWitness) (orders : list WitnessOrder) (rejections : list WitnessRejection) (fills : list Fill).
Lemma leaves_events : Forall event_typed events →
  omap (decode_with read_system_event) (event_leaf_values events orders rejections fills) = norm_event <$> events.
Proof.
  intros H. unfold event_leaf_values. rewrite !omap_app, (omap_section _ system_event_leaf_value norm_event event_typed) by (done || apply decodes_system_event).
  rewrite (omap_other _ order_accepted_leaf_value) by differs 12%nat. rewrite (omap_other _ order_rejected_leaf_value) by differs 12%nat.
  rewrite (omap_other _ fill_leaf_value) by differs 12%nat. by rewrite !app_nil_r.
Qed.
Lemma leaves_orders : Forall witness_order_typed orders →
  omap (decode_with read_witness_order) (event_leaf_values events orders rejections fills) = norm_witness_order <$> orders.
Proof.
  intros H. unfold event_leaf_values. rewrite !omap_app, (omap_section _ order_accepted_leaf_value norm_witness_order witness_order_typed) by (done || apply decodes_witness_order).
  rewrite (omap_other _ system_event_leaf_value) by differs 12%nat. rewrite (omap_other _ order_rejected_leaf_value) by differs 18%nat.
  rewrite (omap_other _ fill_leaf_value) by differs 12%nat. by rewrite !app_nil_r.
Qed.
Lemma leaves_rejections : Forall rejection_typed rejections →
  omap (decode_with read_witness_rejection) (event_leaf_values events orders rejections fills) = norm_rejection <$> rejections.
Proof.
  intros H. unfold event_leaf_values. rewrite !omap_app, (omap_section _ order_rejected_leaf_value norm_rejection rejection_typed) by (done || apply decodes_witness_rejection).
  rewrite (omap_other _ system_event_leaf_value) by differs 12%nat. rewrite (omap_other _ order_accepted_leaf_value) by differs 18%nat.
  rewrite (omap_other _ fill_leaf_value) by differs 12%nat. by rewrite !app_nil_r.
Qed.
Lemma leaves_fills : Forall fill_typed fills → omap (decode_with read_fill) (event_leaf_values events orders rejections fills) = fills.
Proof.
  intros H. unfold event_leaf_values. rewrite !omap_app, (omap_section _ fill_leaf_value id fill_typed) by (done || apply decodes_fill).
  rewrite (omap_other _ system_event_leaf_value) by differs 12%nat. rewrite (omap_other _ order_accepted_leaf_value) by differs 12%nat.
  rewrite (omap_other _ order_rejected_leaf_value) by differs 12%nat. apply list_fmap_id.
Qed.
End leaves.

(** ** The root *)

(** The events of a block as their leaves show them. *)
Definition block_events (w : BlockWitness) : list Event.SystemEventWitness * list WitnessOrder * list WitnessRejection * list Fill :=
  (norm_event <$> bw_system_events w, norm_witness_order <$> bw_orders w, norm_rejection <$> bw_rejections w, bw_fills w).
Definition block_leaves (w : BlockWitness) : list Bytes := event_leaf_values (bw_system_events w) (bw_orders w) (bw_rejections w) (bw_fills w).

Lemma block_leaves_inj w w' : witness_typed w → witness_typed w' → block_leaves w = block_leaves w' → block_events w = block_events w'.
Proof.
  unfold block_leaves, block_events. intros Hw Hw' H.
  assert (∀ v, witness_typed v → let l := event_leaf_values (bw_system_events v) (bw_orders v) (bw_rejections v) (bw_fills v) in
    (norm_event <$> bw_system_events v, norm_witness_order <$> bw_orders v, norm_rejection <$> bw_rejections v, bw_fills v) =
    (omap (decode_with read_system_event) l, omap (decode_with read_witness_order) l, omap (decode_with read_witness_rejection) l, omap (decode_with read_fill) l)) as Hv.
  { intros v Hv l. unfold l. rewrite leaves_events, leaves_orders, leaves_rejections, leaves_fills by apply Hv. done. }
  rewrite (Hv w Hw), (Hv w' Hw'). cbn zeta. by rewrite H.
Qed.

Lemma guest_root_Ok sha256 l root : guest_events_root_from_event_bytes sha256 l = Ok root →
  ∃ first ops commit, append_operations l = Ok ops ∧ compute_mmr_root_from_elements sha256 (first :: ops ++ [commit]) = Ok root.
Proof.
  intros (first & _ & H)%obind_Ok. apply obind_Ok in H as (ops & Hops & H). apply obind_Ok in H as (commit & _ & H). by exists first, ops, commit.
Qed.
Lemma append_operations_Ok l : Forall (λ b, u32 (Z.of_nat (length b))) l → ∃ ops, append_operations l = Ok ops ∧ length ops = length l.
Proof.
  induction 1 as [|b l Hb _ (ops & Hops & Hl)]; [by eexists|]. cbn [append_operations]. unfold encode_keyless_append_operation, append_len_prefixed_bytes, chk, fits.
  unfold u32 in Hb. change (int_min U32) with 0. rewrite !(proj2 (Z.leb_le _ _)) by lia. cbn [andb or_none ok_or mbind outcome_bind]. rewrite Hops. eexists. split; [done|]. cbn. lia.
Qed.

Lemma first_operation_Ok : ∃ first, encode_keyless_commit_operation None = Ok first.
Proof. by eexists. Qed.
Lemma commit_operation_Ok n : ∃ commit, encode_keyless_commit_operation (Some (le_bytes 8 n)) = Ok commit.
Proof. by eexists. Qed.

(** C31: the guest computes an events root for every block whose event leaves, with
    the first and the commit operation, are at most [MAX_MMR_LEAVES] (so at most
    [2^62 - 2] events), each leaf of a length that fits 32 bits: the mountain range,
    its peak loop and its slices never fail. *)
Theorem events_root_exists sha256 w : Forall (λ b, u32 (Z.of_nat (length b))) (block_leaves w) → Z.of_nat (length (block_leaves w)) + 2 ≤ MAX_MMR_LEAVES →
  ∃ root, guest_compute_events_root sha256 w = Ok root.
Proof.
  intros HF Hn. unfold guest_compute_events_root. fold (block_leaves w). unfold guest_events_root_from_event_bytes. destruct first_operation_Ok as [first ->]. cbn [mbind outcome_bind].
  destruct (append_operations_Ok _ HF) as (ops & -> & Hl). cbn [mbind outcome_bind].
  destruct (commit_operation_Ok (Z.of_nat (length (block_leaves w)))) as [commit ->]. cbn [mbind outcome_bind]. apply mmr_root_total. rewrite !length_app. cbn [length]. lia.
Qed.

(** C27: two blocks with one events root have the same system events, accepted
    orders, rejections and fills, in the same order, up to what normalisation
    changes, or SHA-256 has a collision. *)
Theorem events_root_binds_events sha256 w w' root : (∀ b, length (sha256 b) = 32%nat) → witness_typed w → witness_typed w' →
  guest_compute_events_root sha256 w = Ok root → guest_compute_events_root sha256 w' = Ok root → block_events w = block_events w' ∨ collision sha256.
Proof.
  intros Hlen Hw Hw' (f & ops & c & Ho & H)%guest_root_Ok (f' & ops' & c' & Ho' & H')%guest_root_Ok.
  destruct (mmr_root_binding sha256 Hlen _ _ _ H H') as [Heq|?]; [|by right]. injection Heq as -> Heq. apply app_inj_tail in Heq as [-> _]. left.
  apply block_leaves_inj; [done..|]. by eapply append_operations_inj.
Qed.

(** ** The same events written in another order *)

Definition ex_wire_events : list Event.SystemEventWitness :=
  [Event.MarketResolved 7 1000 [1; 3]; Event.CreateAccount 8 (-5) [mkKeyRecord 0 (replicate 33 2) 1; mkKeyRecord 1 (replicate 33 4) 3];
   Event.ClientActionAuthorized (Action.Order 1 (ex_wire_order 1) 2 (RawP256 (replicate 33 2) (replicate 64 3)))].
Definition ex_wire2 : BlockWitness :=
  mkBlockWitness (bw_header ex_wire) (bw_previous_header ex_wire) (bw_genesis_hash ex_wire) (bw_orders ex_wire) (bw_rejections ex_wire) ex_wire_events
    (bw_deposit_accumulator ex_wire) (bw_fills ex_wire) (bw_clearing_prices ex_wire) 0 0 [] [] [] [] [] [] ex_wire_sidecar ex_wire_sidecar [].
Lemma ex_wire2_typed : witness_typed ex_wire2.
Proof. constructor. all: ground. Qed.
Lemma ex_digest_length b : length (ex_digest b) = 32%nat.
Proof. apply le_bytes_length. Qed.
Definition ex_wire_root : Bytes := Eval vm_compute in match guest_compute_events_root ex_digest ex_wire with Ok root => root | _ => [] end.
Lemma ex_wire_root_ok : guest_compute_events_root ex_digest ex_wire = Ok ex_wire_root.
Proof. vm_compute. reflexivity. Qed.
Lemma ex_wire2_root_ok : guest_compute_events_root ex_digest ex_wire2 = Ok ex_wire_root.
Proof. vm_compute. reflexivity. Qed.

Lemma events_root_binds_events_witness : block_events ex_wire = block_events ex_wire2 ∨ collision ex_digest.
Proof. exact (events_root_binds_events ex_digest ex_wire ex_wire2 ex_wire_root ex_digest_length ex_wire_typed ex_wire2_typed ex_wire_root_ok ex_wire2_root_ok). Defined.
Lemma events_root_exists_witness : ∃ root, guest_compute_events_root ex_digest ex_wire = Ok root.
Proof.
  apply (events_root_exists ex_digest ex_wire).
  - apply (bool_decide_unpack (Forall (λ b, 0 ≤ Z.of_nat (length b) ∧ Z.of_nat (length b) ≤ 4294967295) (block_leaves ex_wire))). vm_compute. exact I.
  - vm_compute. discriminate.
Defined.
