(* ===== verification/QmdbProof.v ===== *)
(** * QmdbProof: state proofs checked by the guest

    Models the qMDB proof verification of
    [crates/sybil-zk/src/guest_commitments.rs]: operation encodings, range
    proofs over the grafted mountain range, inclusion and exclusion of keys, and
    the state root of a list of leaves. *)
From S2P Require Import Prelude Types Account Digest L1Protocol AccountKeys Witness WitnessBytes StateCommitment Mmr.

Record QmdbStateRangeProof := mkQmdbStateRangeProof {
  rp_leaves : Z;
  rp_inactive_peaks : Z;
  rp_digests : list Bytes;
  rp_partial_chunk_digest : option Bytes;
  rp_ops_root : Bytes;
}.
Record QmdbStateOperationProof := mkQmdbStateOperationProof {
  op_location : Z;
  op_activity_chunk : Bytes;
  op_range : QmdbStateRangeProof;
}.
Record QmdbStateKeyValueProof := mkQmdbStateKeyValueProof { kv_operation : QmdbStateOperationProof; kv_next_key : Bytes }.
Inductive QmdbStateExclusionProof :=
  | KeyValue (operation : QmdbStateOperationProof) (span_key span_value span_next_key : Bytes)
  | Commit (operation : QmdbStateOperationProof) (metadata : option Bytes).
Record QmdbStateRootProof := mkQmdbStateRootProof { sp_leaf_proofs : list QmdbStateKeyValueProof }.

(** ** Encodings *)

Definition encode_qmdb_update_operation (key value next_key : Bytes) : outcome unit Bytes :=
  k ← append_len_prefixed_bytes key; v ← append_len_prefixed_bytes value; n ← append_len_prefixed_bytes next_key;
  Ok ([210] ++ k ++ v ++ n).
Definition encode_qmdb_commit_floor_operation (metadata : option Bytes) (floor : Z) : outcome unit Bytes :=
  body ← encode_metadata metadata; Ok ([211] ++ body ++ append_u64_varint floor).

(** ** Chunks *)

Definition QMDB_STATE_CHUNK_SIZE : Z := 32.
Definition qmdb_chunk_bits : Z := QMDB_STATE_CHUNK_SIZE * 8.
Definition grafting_height : Z := trailing_zeros qmdb_chunk_bits.
Definition get_bit_from_chunk (chunk : Bytes) (bit : Z) : bool :=
  negb (Z.land (chunk !!! Z.to_nat ((bit / 8) mod QMDB_STATE_CHUNK_SIZE)) (2 ^ (bit mod 8)) =? 0).

(** [span_start >= span_end] on slices is lexicographic. *)
Definition qmdb_span_contains (span_start span_end key : Bytes) : bool :=
  if bool_decide (bytes_le span_end span_start)
  then bool_decide (bytes_le span_start key) || negb (bool_decide (bytes_le span_end key))
  else bool_decide (bytes_le span_start key) && negb (bool_decide (bytes_le span_end key)).

Section sha.
Context (sha256 : Bytes → Bytes).

(** ** Reconstructing a peak *)

Definition grafted_node_digest (pos : Z) (height : nat) (left_digest right_digest : Bytes) (start_chunk : Z) (chunk : Bytes) : Bytes :=
  let ops_subtree_root := mmr_node_digest sha256 pos left_digest right_digest in
  if negb (Z.of_nat height =? grafting_height) then ops_subtree_root else
  match mmr_leftmost_leaf pos (Z.of_nat height) with
  | None => ops_subtree_root
  | Some loc =>
      let chunk_idx := Z.shiftr loc (Z.of_nat height) in
      if negb (chunk_idx =? start_chunk) || forallb (λ b, b =? 0) chunk then ops_subtree_root
      else sha256 (chunk ++ ops_subtree_root)
  end.

(** The mutable fields of [QmdbPeakReconstruction]. *)
Record Reconstruction := mkReconstruction { rc_element : option Bytes; rc_leaf_consumed : bool; rc_sibling_cursor : nat }.
Record Scope := mkScope { sc_start : Z; sc_end : Z; sc_siblings : list Bytes; sc_start_chunk : Z; sc_chunk : Bytes }.

Definition next_sibling (sc : Scope) : st Reconstruction unit Bytes :=
  r ← sget;
  digest ← slift (or_none (sc_siblings sc !! rc_sibling_cursor r));
  smodify (λ r, mkReconstruction (rc_element r) (rc_leaf_consumed r) (S (rc_sibling_cursor r)));;
  mret digest.
Definition take_element (pos : Z) : st Reconstruction unit Bytes :=
  r ← sget;
  operation ← slift (or_none (rc_element r));
  smodify (λ r, mkReconstruction None true (rc_sibling_cursor r));;
  mret (mmr_leaf_digest sha256 pos operation).

Fixpoint reconstruct_peak (sc : Scope) (height : nat) (pos leaf_start : Z) : st Reconstruction unit Bytes :=
  width ← slift (or_none (checked_shl1 (Z.of_nat height)));
  leaf_end ← slift (or_none (chk U64 (leaf_start + width)));
  if (leaf_end <=? sc_start sc) || (leaf_start >=? sc_end sc) then next_sibling sc else
  match height with
  | O => take_element pos
  | S child_height =>
      left_pos ← slift (or_none (chk U64 (pos - width)));
      right_pos ← slift (or_none (chk U64 (pos - 1)));
      half ← slift (or_none (checked_shl1 (Z.of_nat child_height)));
      mid ← slift (or_none (chk U64 (leaf_start + half)));
      left_digest ← reconstruct_peak sc child_height left_pos leaf_start;
      right_digest ← reconstruct_peak sc child_height right_pos mid;
      mret (grafted_node_digest pos height left_digest right_digest (sc_start_chunk sc) (sc_chunk sc))
  end.

(** ** The peaks around the range *)

Record PeakCounts := mkPeakCounts {
  pc_fold_prefix : Z;
  pc_prefix_active : Z;
  pc_after_inactive : Z;
  pc_suffix_active : Z;
  pc_range_peaks : list (Z * Z * Z);
  pc_leaf_cursor : Z;
  pc_peak_count : Z;
}.
Definition PeakCounts_new : PeakCounts := mkPeakCounts 0 0 0 0 [] 0 0.
(** The counters count the peaks of a tree, at most 64. *)
Definition classify_peak (start_loc end_loc inactive_peaks : Z) (c : PeakCounts) (peak : Z * Z) : outcome unit PeakCounts :=
  let '(peak_pos, height) := peak in
  width ← or_none (checked_shl1 height);
  let leaf_start := pc_leaf_cursor c in
  leaf_end ← or_none (chk U64 (leaf_start + width));
  let c' :=
    if leaf_end <=? start_loc then
      if pc_peak_count c <? inactive_peaks
      then mkPeakCounts (pc_fold_prefix c + 1) (pc_prefix_active c) (pc_after_inactive c) (pc_suffix_active c) (pc_range_peaks c) leaf_end (pc_peak_count c + 1)
      else mkPeakCounts (pc_fold_prefix c) (pc_prefix_active c + 1) (pc_after_inactive c) (pc_suffix_active c) (pc_range_peaks c) leaf_end (pc_peak_count c + 1)
    else if leaf_start >=? end_loc then
      if pc_peak_count c >=? inactive_peaks
      then mkPeakCounts (pc_fold_prefix c) (pc_prefix_active c) (pc_after_inactive c) (pc_suffix_active c + 1) (pc_range_peaks c) leaf_end (pc_peak_count c + 1)
      else mkPeakCounts (pc_fold_prefix c) (pc_prefix_active c) (pc_after_inactive c + 1) (pc_suffix_active c) (pc_range_peaks c) leaf_end (pc_peak_count c + 1)
    else mkPeakCounts (pc_fold_prefix c) (pc_prefix_active c) (pc_after_inactive c) (pc_suffix_active c)
           (pc_range_peaks c ++ [(peak_pos, height, leaf_start)]) leaf_end (pc_peak_count c + 1) in
  Ok c'.

Definition slice (l : list Bytes) (from to : Z) : list Bytes := take (Z.to_nat (to - from)) (drop (Z.to_nat from) l).
Definition flag_count (z : Z) : Z := if negb (z =? 0) then 1 else 0.

Definition reconstruct_qmdb_mmr_root (leaves inactive_peaks : Z) (proof_digests : list Bytes) (start_loc : Z) (operation chunk : Bytes) : outcome unit Bytes :=
  if (leaves >? MAX_MMR_LEAVES) || (start_loc >=? leaves) then Err () else
  end_loc ← or_none (chk U64 (start_loc + 1));
  if end_loc >? leaves then Err () else
  size ← or_none (mmr_location_to_position leaves);
  c ← ofold (classify_peak start_loc end_loc inactive_peaks) PeakCounts_new (mmr_peaks size);
  if bool_decide (pc_range_peaks c = []) || negb (pc_leaf_cursor c =? leaves) || (inactive_peaks >? pc_peak_count c) then Err () else
  let fold_count := flag_count (pc_fold_prefix c) in
  let prefix_start := fold_count in
  let after_start := prefix_start + pc_prefix_active c in
  let suffix_start := after_start + pc_after_inactive c in
  let suffix_count := flag_count (pc_suffix_active c) in
  let siblings_start := suffix_start + suffix_count in
  if Z.of_nat (length proof_digests) <? siblings_start then Err () else
  let siblings := drop (Z.to_nat siblings_start) proof_digests in
  let sc := mkScope start_loc end_loc siblings (start_loc / qmdb_chunk_bits) chunk in
  match smap (λ '(pos, height, leaf_start), reconstruct_peak sc (Z.to_nat height) pos leaf_start) (pc_range_peaks c) (mkReconstruction (Some operation) false 0) with
  | SOk r range_digests =>
      let peak_digests := slice proof_digests 0 fold_count ++ slice proof_digests prefix_start after_start ++ range_digests ++
        slice proof_digests after_start suffix_start ++ slice proof_digests suffix_start siblings_start in
      if negb (rc_leaf_consumed r) || negb (bool_decide (rc_element r = None)) || negb (bool_decide (rc_sibling_cursor r = length siblings)) then Err () else
      inactive_peaks_to_fold ←
        (if pc_fold_prefix c =? 0 then Ok inactive_peaks
         else n ← or_none (chk U64 (inactive_peaks - pc_fold_prefix c)); or_none (chk U64 (n + 1)));
      mmr_root sha256 leaves inactive_peaks_to_fold inactive_peaks peak_digests
  | SErr _ _ => Err ()
  | SPanic => Panic
  end.

(** ** Proofs *)

(** [inactive_peaks] is a [u64] and [usize] is 64 bits wide. *)
Definition verify_qmdb_range_proof {E} (root : Bytes) (proof : QmdbStateRangeProof) (start_loc : Z) (operation chunk : Bytes) : outcome E bool :=
  match chk U64 (start_loc + 1) with
  | None => Ok false
  | Some end_loc =>
      if end_loc >? rp_leaves proof then Ok false else
      let start_chunk := start_loc / qmdb_chunk_bits in
      let end_chunk := (end_loc - 1) / qmdb_chunk_bits in
      let complete_chunks := rp_leaves proof / qmdb_chunk_bits in
      if negb (start_chunk =? end_chunk) then Ok false else
      let next_bit := rp_leaves proof mod qmdb_chunk_bits in
      let has_partial_chunk := negb (next_bit =? 0) in
      let bad_partial :=
        if has_partial_chunk then
          match rp_partial_chunk_digest proof with
          | None => true
          | Some last_chunk_digest => (end_chunk =? complete_chunks) && bool_decide (last_chunk_digest ≠ sha256 chunk)
          end
        else bool_decide (is_Some (rp_partial_chunk_digest proof)) in
      if bad_partial then Ok false else
      match reconstruct_qmdb_mmr_root (rp_leaves proof) (rp_inactive_peaks proof) (rp_digests proof) start_loc operation chunk with
      | Err _ => Ok false
      | Panic => Panic
      | Ok merkle_root =>
          let tail := if has_partial_chunk then be_bytes 8 next_bit ++ default [] (rp_partial_chunk_digest proof) else [] in
          Ok (bool_decide (sha256 (rp_ops_root proof ++ merkle_root ++ tail) = root))
      end
  end.
Definition verify_qmdb_operation_proof {E} (root operation : Bytes) (proof : QmdbStateOperationProof) : outcome E bool :=
  if negb (get_bit_from_chunk (op_activity_chunk proof) (op_location proof)) then Ok false
  else verify_qmdb_range_proof root (op_range proof) (op_location proof) operation (op_activity_chunk proof).
Definition verify_qmdb_key_value_proof {E} (root key value : Bytes) (proof : QmdbStateKeyValueProof) : outcome E bool :=
  match encode_qmdb_update_operation key value (kv_next_key proof) with
  | Ok operation => verify_qmdb_operation_proof root operation (kv_operation proof)
  | _ => Ok false
  end.
Definition verify_qmdb_exclusion_proof {E} (root key : Bytes) (proof : QmdbStateExclusionProof) : outcome E bool :=
  match proof with
  | KeyValue operation span_key span_value span_next_key =>
      if bool_decide (span_key = key) || negb (qmdb_span_contains span_key span_next_key key) then Ok false else
      match encode_qmdb_update_operation span_key span_value span_next_key with
      | Ok encoded => verify_qmdb_operation_proof root encoded operation
      | _ => Ok false
      end
  | Commit operation metadata =>
      match encode_qmdb_commit_floor_operation metadata (op_location operation) with
      | Ok encoded => verify_qmdb_operation_proof root encoded operation
      | _ => Ok false
      end
  end.
End sha.
