(* ===== verification/ZkTransition.v ===== *)
(** * ZkTransition: the state-transition statement

    Models [crates/sybil-zk/src/lib.rs]: the public inputs of a block, their
    binding to the witness, the L1 deposit checkpoint and
    [verify_state_transition_input], and the state-root check of
    [guest_commitments.rs]. *)
From S2P Require Import Prelude Types Order MmConstraint Account Digest Snapshots Finalize Witness SettlementVerifier MatchVerifier OrdersVerifier L1Protocol DepositFrontier AccountKeys Signing KeyTransition WitnessBytes BridgeSidecar SidecarMarkets StateCommitment Mmr QmdbProof.

Module Zk.
Inductive ZkTransitionError :=
  | HeaderHeightMismatch (expected actual : Z)
  | StateRootMismatch
  | EventsRootMismatch
  | EventsRootComputationFailed
  | BlockHashMismatch
  | PreviousHeightMismatch (expected actual : Z)
  | PreviousStateRootMismatch
  | ParentHashMismatch
  | NonMonotonicHeight (previous new : Z)
  | OrderCountMismatch (expected actual : Z)
  | FillCountMismatch (expected actual : Z)
  | DepositRootMismatch
  | DepositCountMismatch (expected actual : Z)
  | DepositDeltaLengthMismatch (expected actual : Z)
  | DepositDeltaIdMismatch (index expected actual : Z)
  | DepositFrontierRootMismatch (expected actual : Bytes)
  | DepositEventCountExceedsCursor (cursor events : Z)
  | DepositEventIdMismatch (expected actual : Z)
  | DepositEventMissingFromLog (deposit_id : Z)
  | DepositEventRootMismatch (deposit_id : Z) (expected actual : Bytes)
  | DepositEventAccountKeyMismatch (account_id : Z) (expected actual : Bytes)
  | DepositEventAmountMismatch (deposit_id expected actual : Z)
  | StateRootProofCountMismatch (expected actual : Z)
  | DuplicateStateLeafKey (index : Z)
  | StateRootProofVerificationFailed (index : Z)
  | StateRootNextKeyMismatch (index : Z)
  | WitnessRootMismatch
  | DaCommitmentMismatch (expected actual : Bytes)
  | VerificationLayerFailed (layer : string) (violations : Z).
End Zk.
Abbreviation ZkTransitionError := Zk.ZkTransitionError (only parsing).

Record DaCommitmentComponents := mkDaCommitmentComponents {
  dc_block_height : Z;
  dc_state_root : Bytes;
  dc_witness_root : Bytes;
  dc_payload_root : Bytes;
  dc_payload_len : Z;
  dc_provider_refs_hash : Bytes;
  dc_da_commitment : Bytes;
}.
Record StateTransitionPublicInputs := mkStateTransitionPublicInputs {
  pi_previous_height : Z;
  pi_new_height : Z;
  pi_previous_state_root : Bytes;
  pi_new_state_root : Bytes;
  pi_block_hash : Bytes;
  pi_events_root : Bytes;
  pi_witness_root : Bytes;
  pi_da_commitment : Bytes;
  pi_deposit_root : Bytes;
  pi_deposit_count : Z;
}.
#[global] Instance StateTransitionPublicInputs_eq_dec : EqDecision StateTransitionPublicInputs.
Proof. solve_decision. Defined.
Record StateTransitionGuestInput := mkStateTransitionGuestInput {
  gi_public_inputs : StateTransitionPublicInputs;
  gi_witness : BlockWitness;
  gi_da_provider_refs : list Bytes;
  gi_state_root_proof : QmdbStateRootProof;
  gi_pre_state_root_proof : QmdbStateRootProof;
}.

Definition neq (a b : Bytes) : bool := bool_decide (a ≠ b).

(** ** The state root of a list of leaves ([guest_commitments.rs]) *)

(** [for (index, window) in leaves.windows(2).enumerate()] *)
Fixpoint check_windows (index : Z) (leaves : list (Bytes * Bytes)) : outcome ZkTransitionError unit :=
  match leaves with
  | a :: ((b :: _) as rest) =>
      reject_if (bool_decide (a.1 = b.1)) (Zk.DuplicateStateLeafKey index);; check_windows (index + 1) rest
  | _ => Ok ()
  end.
Definition check_leaf (sha256 : Bytes → Bytes) (root : Bytes) (leaves : list (Bytes * Bytes)) (e : nat * ((Bytes * Bytes) * QmdbStateKeyValueProof)) :
    outcome ZkTransitionError unit :=
  let '(index, ((key, value), leaf_proof)) := e in
  verified ← verify_qmdb_key_value_proof sha256 root key value leaf_proof;
  reject_if (negb verified) (Zk.StateRootProofVerificationFailed (Z.of_nat index));;
  expected ← idx leaves ((index + 1) mod length leaves)%nat;
  reject_if (neq (kv_next_key leaf_proof) expected.1) (Zk.StateRootNextKeyMismatch (Z.of_nat index)).
Definition verify_qmdb_state_root_for (sha256 : Bytes → Bytes) (root : Bytes) (leaves : list (Bytes * Bytes)) (proof : QmdbStateRootProof) :
    outcome ZkTransitionError unit :=
  reject_if (negb (Z.of_nat (length (sp_leaf_proofs proof)) =? Z.of_nat (length leaves)))
    (Zk.StateRootProofCountMismatch (Z.of_nat (length leaves)) (Z.of_nat (length (sp_leaf_proofs proof))));;
  check_windows 0 leaves;;
  ofold (λ _, check_leaf sha256 root leaves) () (enumerate (zip leaves (sp_leaf_proofs proof))).

(** ** Commitments *)

Definition STATE_TRANSITION_DOMAIN : Bytes := ascii_bytes "sybil/openvm/state-transition/v1".
Definition WITNESS_ROOT_DOMAIN : Bytes := ascii_bytes "sybil/witness".
Definition DA_COMMITMENT_DOMAIN : Bytes := ascii_bytes "sybil/da-commitment/v1".
Definition DA_WITNESS_PAYLOAD_DOMAIN : Bytes := ascii_bytes "sybil/da/witness-payload/v1".
Definition DA_EMPTY_PROVIDER_REFS_DOMAIN : Bytes := ascii_bytes "sybil/da/provider-refs/empty/v1".
Definition DA_PROVIDER_REFS_DOMAIN : Bytes := ascii_bytes "sybil/da/provider-refs/v1".

Definition state_transition_words (inputs : StateTransitionPublicInputs) : list AbiWord :=
  [Uint (pi_previous_height inputs); Uint (pi_new_height inputs); Bytes32 (pi_previous_state_root inputs); Bytes32 (pi_new_state_root inputs);
   Bytes32 (pi_block_hash inputs); Bytes32 (pi_events_root inputs); Bytes32 (pi_witness_root inputs); Bytes32 (pi_da_commitment inputs);
   Bytes32 (pi_deposit_root inputs); Uint (pi_deposit_count inputs)].

Section hashes.
Context (sha256 blake3 keccak256 : Bytes → Bytes).

Definition state_transition_public_input_hash (inputs : StateTransitionPublicInputs) : Bytes :=
  keccak256 (abi_encode_domain_and_words STATE_TRANSITION_DOMAIN (state_transition_words inputs)).

Definition witness_root_from_bytes (witness_bytes : Bytes) : Bytes := blake3 (WITNESS_ROOT_DOMAIN ++ witness_bytes).
Definition witness_root (w : BlockWitness) : Bytes := witness_root_from_bytes (canonical_witness_bytes w).
Definition da_witness_payload_root (witness_bytes : Bytes) : Bytes :=
  blake3 (DA_WITNESS_PAYLOAD_DOMAIN ++ le_bytes 8 (Z.of_nat (length witness_bytes)) ++ witness_bytes).
Definition empty_da_provider_refs_hash : Bytes := blake3 DA_EMPTY_PROVIDER_REFS_DOMAIN.
Definition da_provider_refs_hash (provider_refs : list Bytes) : Bytes :=
  if bool_decide (provider_refs = []) then empty_da_provider_refs_hash else
  blake3 (DA_PROVIDER_REFS_DOMAIN ++ le_bytes 8 (Z.of_nat (length provider_refs)) ++
          (provider_refs ≫= λ r, le_bytes 8 (Z.of_nat (length r)) ++ r)).
Definition da_commitment_from_parts (block_height : Z) (state_root witness_root payload_root : Bytes) (payload_len : Z) (provider_refs_hash : Bytes) : Bytes :=
  blake3 (DA_COMMITMENT_DOMAIN ++ le_bytes 8 block_height ++ state_root ++ witness_root ++ payload_root ++ le_bytes 8 payload_len ++ provider_refs_hash).
Definition da_commitment_components_from_payload_and_provider_refs (w : BlockWitness) (witness_bytes : Bytes) (provider_refs : list Bytes) : DaCommitmentComponents :=
  let witness_root := witness_root_from_bytes witness_bytes in
  let payload_root := da_witness_payload_root witness_bytes in
  let payload_len := Z.of_nat (length witness_bytes) in
  let provider_refs_hash := da_provider_refs_hash provider_refs in
  let da_commitment := da_commitment_from_parts (hd_height (bw_header w)) (hd_state_root (bw_header w)) witness_root payload_root payload_len provider_refs_hash in
  mkDaCommitmentComponents (hd_height (bw_header w)) (hd_state_root (bw_header w)) witness_root payload_root payload_len provider_refs_hash da_commitment.
Definition da_commitment_components_with_provider_refs (w : BlockWitness) (provider_refs : list Bytes) : DaCommitmentComponents :=
  da_commitment_components_from_payload_and_provider_refs w (canonical_witness_bytes w) provider_refs.
Definition da_commitment_with_provider_refs (w : BlockWitness) (provider_refs : list Bytes) : Bytes :=
  dc_da_commitment (da_commitment_components_with_provider_refs w provider_refs).

Definition public_inputs_from_witness_and_provider_refs (w : BlockWitness) (provider_refs : list Bytes) : StateTransitionPublicInputs :=
  let '(previous_height, previous_state_root) :=
    match bw_previous_header w with Some previous => (hd_height previous, hd_state_root previous) | None => (0, replicate 32 0) end in
  let components := da_commitment_components_with_provider_refs w provider_refs in
  mkStateTransitionPublicInputs previous_height (hd_height (bw_header w)) previous_state_root (hd_state_root (bw_header w))
    (hash_header blake3 (bw_header w)) (hd_events_root (bw_header w)) (dc_witness_root components) (dc_da_commitment components)
    (br_deposit_root (ss_bridge (bw_state_sidecar w))) (br_deposit_cursor (ss_bridge (bw_state_sidecar w))).

(** ** The deposit checkpoint

    The guest has its own copies of the deposit helpers of the sidecar layer. *)

Definition guest_deposit_leaf_from_witness (d : L1DepositWitness) : DepositLeaf :=
  mkDepositLeaf (dw_chain_id d) (dw_vault_address d) (dw_deposit_id d) (dw_token_address d) (dw_sender d)
    (dw_sybil_account_key d) (dw_amount_token_units d).

Definition GUEST_NANOS_PER_TOKEN_UNIT : Z := 1000.
Definition guest_deposit_amount_nanos (d : L1DepositWitness) : option Z :=
  amount ← chk U64 (dw_amount_token_units d * GUEST_NANOS_PER_TOKEN_UNIT); chk I64 amount.

Definition BRIDGE_ACCOUNT_KEY_DOMAIN : Bytes := ascii_bytes "sybil/bridge/account-key/v1".
Definition guest_bridge_account_key (account_id : Z) : Bytes := blake3 (BRIDGE_ACCOUNT_KEY_DOMAIN ++ le_bytes 8 account_id).

Definition guest_disposition (event : Event.SystemEventWitness) : option (option Z * Z * Z * Bytes * Bytes) :=
  match event with
  | Event.L1Deposit account_id amount deposit_id deposit_root sybil_account_key =>
      Some (Some account_id, amount, deposit_id, deposit_root, sybil_account_key)
  | Event.DepositQuarantined amount deposit_id deposit_root sybil_account_key =>
      Some (None, amount, deposit_id, deposit_root, sybil_account_key)
  | _ => None
  end.

Definition check_delta_id (pre_count : Z) (e : nat * L1DepositWitness) : outcome ZkTransitionError unit :=
  let '(index, d) := e in
  n ← arith U64 (pre_count + Z.of_nat index);
  expected ← arith U64 (n + 1);
  reject_if (negb (dw_deposit_id d =? expected)) (Zk.DepositDeltaIdMismatch (Z.of_nat index) expected (dw_deposit_id d)).
Definition check_delta_root (prefix_roots : list Bytes) (e : nat * L1DepositWitness) : outcome ZkTransitionError unit :=
  let '(index, d) := e in
  expected ← idx prefix_roots index;
  reject_if (neq (dw_deposit_root d) expected) (Zk.DepositEventRootMismatch (dw_deposit_id d) expected (dw_deposit_root d)).
Definition check_account_key (account_id : option Z) (sybil_account_key : Bytes) : outcome ZkTransitionError unit :=
  match account_id with
  | Some account_id =>
      let expected_key := guest_bridge_account_key account_id in
      reject_if (neq sybil_account_key expected_key) (Zk.DepositEventAccountKeyMismatch account_id expected_key sybil_account_key)
  | None => Ok ()
  end.
Definition check_deposit_event (pre_count : Z) (prefix_roots : list Bytes) (new_deposits : list L1DepositWitness)
    (e : nat * (option Z * Z * Z * Bytes * Bytes)) : outcome ZkTransitionError unit :=
  let '(event_index, (account_id, amount, deposit_id, deposit_root, sybil_account_key)) := e in
  n ← arith U64 (pre_count + Z.of_nat event_index);
  expected_id ← arith U64 (n + 1);
  reject_if (negb (deposit_id =? expected_id)) (Zk.DepositEventIdMismatch expected_id deposit_id);;
  d ← ok_or (new_deposits !! event_index) (Zk.DepositEventMissingFromLog deposit_id);
  expected_root ← idx prefix_roots event_index;
  reject_if (neq deposit_root expected_root) (Zk.DepositEventRootMismatch deposit_id expected_root deposit_root);;
  reject_if (neq (dw_sybil_account_key d) sybil_account_key)
    (Zk.DepositEventAccountKeyMismatch (default 0 account_id) sybil_account_key (dw_sybil_account_key d));;
  check_account_key account_id sybil_account_key;;
  expected_amount ← ok_or (guest_deposit_amount_nanos d) (Zk.DepositEventAmountMismatch deposit_id (int_max I64) amount);
  reject_if (negb (amount =? expected_amount)) (Zk.DepositEventAmountMismatch deposit_id expected_amount amount).

Definition verify_l1_deposit_checkpoint (inputs : StateTransitionPublicInputs) (w : BlockWitness) : outcome ZkTransitionError unit :=
  let acc := bw_deposit_accumulator w in
  let pre_bridge := ss_bridge (bw_pre_state_sidecar w) in
  reject_if (negb (da_pre_count acc =? br_deposit_cursor pre_bridge)) (Zk.DepositCountMismatch (br_deposit_cursor pre_bridge) (da_pre_count acc));;
  pre_root ← ok_or (deposit_root_from_frontier keccak256 (da_pre_frontier acc) (da_pre_count acc)) (Zk.DepositCountMismatch deposit_tree_capacity (da_pre_count acc));
  reject_if (neq pre_root (br_deposit_root pre_bridge)) (Zk.DepositFrontierRootMismatch (br_deposit_root pre_bridge) pre_root);;
  expected_post_count ← ok_or (chk U64 (da_pre_count acc + Z.of_nat (length (da_new_deposits acc)))) (Zk.DepositCountMismatch (pi_deposit_count inputs) (int_max U64));
  reject_if (negb (expected_post_count =? pi_deposit_count inputs)) (Zk.DepositCountMismatch expected_post_count (pi_deposit_count inputs));;
  ofold (λ _, check_delta_id (da_pre_count acc)) () (enumerate (da_new_deposits acc));;
  prefix_roots ← ok_or (deposit_frontier_prefix_roots keccak256 (da_pre_frontier acc) (da_pre_count acc) (guest_deposit_leaf_from_witness <$> da_new_deposits acc))
    (Zk.DepositCountMismatch deposit_tree_capacity (pi_deposit_count inputs));
  let computed_root := default pre_root (last prefix_roots) in
  reject_if (neq computed_root (pi_deposit_root inputs)) (Zk.DepositFrontierRootMismatch (pi_deposit_root inputs) computed_root);;
  ofold (λ _, check_delta_root prefix_roots) () (enumerate (da_new_deposits acc));;
  let disposition_events := omap guest_disposition (bw_system_events w) in
  reject_if (negb (Z.of_nat (length disposition_events) =? Z.of_nat (length (da_new_deposits acc))))
    (Zk.DepositDeltaLengthMismatch (Z.of_nat (length (da_new_deposits acc))) (Z.of_nat (length disposition_events)));;
  ofold (λ _, check_deposit_event (da_pre_count acc) prefix_roots (da_new_deposits acc)) () (enumerate disposition_events).

(** ** Binding the public inputs *)

Definition previous_of (w : BlockWitness) : Z * Bytes * Bytes :=
  match bw_previous_header w with
  | Some previous => (hd_height previous, hd_state_root previous, hash_header blake3 previous)
  | None => (0, replicate 32 0, replicate 32 0)
  end.
Definition verify_public_input_binding (inputs : StateTransitionPublicInputs) (w : BlockWitness) (provider_refs : list Bytes) : outcome ZkTransitionError unit :=
  let h := bw_header w in
  let bridge := ss_bridge (bw_state_sidecar w) in
  reject_if (negb (pi_new_height inputs =? hd_height h)) (Zk.HeaderHeightMismatch (pi_new_height inputs) (hd_height h));;
  reject_if (neq (pi_new_state_root inputs) (hd_state_root h)) Zk.StateRootMismatch;;
  reject_if (neq (pi_events_root inputs) (hd_events_root h)) Zk.EventsRootMismatch;;
  expected_events_root ← map_err (λ _, Zk.EventsRootComputationFailed) (guest_compute_events_root sha256 w);
  reject_if (neq (hd_events_root h) expected_events_root) Zk.EventsRootMismatch;;
  reject_if (neq (pi_block_hash inputs) (hash_header blake3 h)) Zk.BlockHashMismatch;;
  reject_if (neq (pi_witness_root inputs) (witness_root w)) Zk.WitnessRootMismatch;;
  let expected_da_commitment := da_commitment_with_provider_refs w provider_refs in
  reject_if (neq (pi_da_commitment inputs) expected_da_commitment) (Zk.DaCommitmentMismatch expected_da_commitment (pi_da_commitment inputs));;
  let '(previous_height, previous_state_root, expected_parent_hash) := previous_of w in
  reject_if (negb (pi_previous_height inputs =? previous_height)) (Zk.PreviousHeightMismatch (pi_previous_height inputs) previous_height);;
  reject_if (neq (pi_previous_state_root inputs) previous_state_root) Zk.PreviousStateRootMismatch;;
  reject_if (neq (hd_parent_hash h) expected_parent_hash) Zk.ParentHashMismatch;;
  reject_if (pi_new_height inputs <=? previous_height) (Zk.NonMonotonicHeight previous_height (pi_new_height inputs));;
  let expected_order_count := wrap U32 (Z.of_nat (length (bw_orders w) + length (bw_rejections w))) in
  reject_if (negb (hd_order_count h =? expected_order_count)) (Zk.OrderCountMismatch expected_order_count (hd_order_count h));;
  let expected_fill_count := wrap U32 (Z.of_nat (length (bw_fills w))) in
  reject_if (negb (hd_fill_count h =? expected_fill_count)) (Zk.FillCountMismatch expected_fill_count (hd_fill_count h));;
  reject_if (neq (pi_deposit_root inputs) (br_deposit_root bridge)) Zk.DepositRootMismatch;;
  reject_if (negb (pi_deposit_count inputs =? br_deposit_cursor bridge)) (Zk.DepositCountMismatch (br_deposit_cursor bridge) (pi_deposit_count inputs));;
  verify_l1_deposit_checkpoint inputs w.
End hashes.

(** ** The statement *)

Definition ensure_valid (layer : string) (result : outcome Empty_set VerificationResult) : outcome ZkTransitionError unit :=
  match result with
  | Ok result => if vr_valid result then Ok () else Err (Zk.VerificationLayerFailed layer (Z.of_nat (length (vr_violations result))))
  | Err e => match e with end
  | Panic => Panic
  end.

Section statement.
Context (sha256 blake3 keccak256 : Bytes → Bytes) (p256 : Bytes → Bytes → Bytes → bool) `{B : BorshFormat}
  (iter : gmap Z DerivedAccountState → list (Z * DerivedAccountState)).

Definition verify_pre_state_root (input : StateTransitionGuestInput) : outcome ZkTransitionError unit :=
  let w := gi_witness input in
  match bw_previous_header w with
  | Some _ => verify_qmdb_state_root_for sha256 (pi_previous_state_root (gi_public_inputs input)) (state_root_leaves sha256 (bw_pre_state w) (bw_pre_state_sidecar w))
                (gi_pre_state_root_proof input)
  | None =>
      reject_if (negb (bool_decide (sp_leaf_proofs (gi_pre_state_root_proof input) = [])))
        (Zk.StateRootProofCountMismatch 0 (Z.of_nat (length (sp_leaf_proofs (gi_pre_state_root_proof input)))))
  end.
Definition verify_state_transition_input (input : StateTransitionGuestInput) : outcome ZkTransitionError Bytes :=
  let w := gi_witness input in
  verify_public_input_binding sha256 blake3 keccak256 (gi_public_inputs input) w (gi_da_provider_refs input);;
  verify_qmdb_state_root_for sha256 (pi_new_state_root (gi_public_inputs input)) (state_root_leaves sha256 (bw_post_state w) (bw_state_sidecar w))
    (gi_state_root_proof input);;
  verify_pre_state_root input;;
  ensure_valid "match" (verify_match w false);;
  ensure_valid "system" (verify_system sha256 blake3 p256 w);;
  ensure_valid "settlement" (verify_settlement blake3 iter w);;
  ensure_valid "orders" (verify_orders w);;
  ensure_valid "sidecar" (verify_sidecar blake3 keccak256 w);;
  Ok (state_transition_public_input_hash keccak256 (gi_public_inputs input)).
End statement.
