(* ===== verification/StatementExact.v ===== *)
(** * StatementExact: what an accepted state transition establishes

    The public inputs of an accepted transition are the ones its witness
    determines, the witness passes every verifier layer, and the state roots open
    to exactly the witness's state. *)
From S2P Require Import Prelude Types Order MmConstraint Account Digest Snapshots Finalize Witness Sidecar SettlementVerifier MatchVerifier OrdersVerifier L1Protocol DepositFrontier AccountKeys Signing KeyTransition WitnessBytes BridgeSidecar SidecarMarkets StateCommitment Mmr QmdbProof ZkTransition.

Lemma neq_false a b : neq a b = false ↔ a = b.
Proof. unfold neq. rewrite bool_decide_eq_false. split; [apply dec_stable|by intros -> H]. Qed.

Lemma ensure_valid_Ok layer o : ensure_valid layer o = Ok () ↔ ∃ r, o = Ok r ∧ vr_valid r = true.
Proof.
  destruct o as [r|[]|]; cbn; [|split; [done|by intros (? & ? & _)]]. destruct (vr_valid r) eqn:E; split; try done.
  - intros _. by exists r.
  - intros (r' & [= <-] & H). congruence.
Qed.

Section statement.
Context (sha256 blake3 keccak256 : Bytes → Bytes) (p256 : Bytes → Bytes → Bytes → bool) `{B : BorshFormat}
  (iter : gmap Z DerivedAccountState → list (Z * DerivedAccountState)).

(** The header of a witness commits to its events and extends the header before it. *)
Record header_binds (w : BlockWitness) : Prop := {
  hb_events : guest_compute_events_root sha256 w = Ok (hd_events_root (bw_header w));
  hb_parent : hd_parent_hash (bw_header w) = (previous_of blake3 w).2;
  hb_height : (previous_of blake3 w).1.1 < hd_height (bw_header w);
  hb_orders : hd_order_count (bw_header w) = wrap U32 (Z.of_nat (length (bw_orders w) + length (bw_rejections w)));
  hb_fills : hd_fill_count (bw_header w) = wrap U32 (Z.of_nat (length (bw_fills w)));
}.

Lemma binding_exact p w refs : verify_public_input_binding sha256 blake3 keccak256 p w refs = Ok () ↔
  p = public_inputs_from_witness_and_provider_refs blake3 w refs ∧ header_binds w ∧ verify_l1_deposit_checkpoint blake3 keccak256 p w = Ok ().
Proof.
  unfold verify_public_input_binding. cbn zeta. destruct (previous_of blake3 w) as [[ph ps] pp] eqn:Ep.
  assert (public_inputs_from_witness_and_provider_refs blake3 w refs = mkStateTransitionPublicInputs ph (hd_height (bw_header w)) ps (hd_state_root (bw_header w))
    (hash_header blake3 (bw_header w)) (hd_events_root (bw_header w)) (witness_root blake3 w) (da_commitment_with_provider_refs blake3 w refs)
    (br_deposit_root (ss_bridge (bw_state_sidecar w))) (br_deposit_cursor (ss_bridge (bw_state_sidecar w)))) as ->.
  { unfold public_inputs_from_witness_and_provider_refs. unfold previous_of in Ep. destruct (bw_previous_header w); by injection Ep as <- <- _. }
  rewrite !reject_then, !neq_false, !negb_false_iff, !Z.eqb_eq. split.
  - intros (Hh & Hs & He & H). apply obind_Ok in H as (root & Hr%map_err_const_Ok & H).
    rewrite !reject_then, !neq_false, !negb_false_iff, !Z.eqb_eq, Z.leb_gt in H. destruct H as (<- & Hb & Hw & Hd & Hph & Hps & Hpar & Hm & Ho & Hf & Hdr & Hdc & Hc).
    split_and!; [|split; rewrite ?Ep; cbn [fst snd]; done || lia|done]. destruct p; cbn in *. by subst.
  - intros (-> & [He Hp Hh Ho Hf] & Hc). rewrite Ep in Hp, Hh. cbn in Hp, Hh. split_and!; [done..|]. rewrite He. cbn [map_err mbind outcome_bind].
    rewrite !reject_then, !neq_false, !negb_false_iff, !Z.eqb_eq, Z.leb_gt. done.
Qed.
End statement.
