(* ===== verification/DepositCheckpoint.v ===== *)
(** * DepositCheckpoint: the guest's deposit check is the sidecar layer's

    The guest checks the L1 deposits of a block against the public inputs; the
    sidecar layer checks them against the post-state.  Both accept exactly the
    blocks whose deposits extend the accumulated tree. *)
From S2P Require Import Prelude Types Order Account Digest Snapshots Witness SettlementVerifier MatchVerifier L1Protocol DepositFrontier AccountKeys Signing KeyTransition WitnessBytes BridgeSidecar BridgeVerified StateCommitment Mmr QmdbProof ZkTransition StatementExact.

Lemma elem_enumerate {A} (l : list A) i x : (i, x) ∈ enumerate l ↔ l !! i = Some x.
Proof.
  split; [apply enumerate_elem|]. intros Hx. apply list_elem_of_lookup. exists i. apply lookup_zip_Some. split; [|done].
  apply lookup_seq. split; [lia|]. by eapply lookup_lt_Some.
Qed.
Lemma ofold_checks_iff {E B} (f : B → outcome E unit) l : ofold (λ _, f) () l = Ok () ↔ ∀ x, x ∈ l → f x = Ok ().
Proof.
  split; [apply (ofold_checks (λ _, f))|]. induction l as [|y l IH]; intros H; [done|]. cbn [ofold]. rewrite H by left. apply IH. intros x Hx. apply H. by right.
Qed.
Lemma bind_enumerate_nil {A B} (f : nat * A → list B) l : enumerate l ≫= f = [] ↔ ∀ i x, l !! i = Some x → f (i, x) = [].
Proof.
  rewrite bind_nil, Forall_forall. split; [|by intros H [i x] Hx%elem_enumerate; apply H]. intros H i x Hx. apply H. by apply elem_enumerate.
Qed.
Lemma ofold_enumerate {E A} (f : nat * A → outcome E unit) l : ofold (λ _, f) () (enumerate l) = Ok () ↔ ∀ i x, l !! i = Some x → f (i, x) = Ok ().
Proof.
  rewrite ofold_checks_iff. split; [|by intros H [i x] Hx%elem_enumerate; apply H]. intros H i x Hx. apply H. by apply elem_enumerate.
Qed.
Lemma append_all_length keccak256 frontier index deposits f roots : append_all keccak256 frontier index deposits = Some (f, roots) → length roots = length deposits.
Proof.
  revert frontier index f roots. induction deposits as [|d ds IH]; intros frontier index f roots; cbn [append_all]; [by intros [= _ <-]|].
  destruct (append_deposit_frontier _ _ _ _) as [[f1 r1]|]; [|done]. cbn [mbind option_bind]. destruct (append_all _ _ _ _) as [[f2 rs]|] eqn:E; [|done].
  cbn [mbind option_bind]. intros [= <- <-]. cbn [length]. by rewrite (IH _ _ _ _ E).
Qed.
Lemma prefix_roots_length keccak256 frontier count deposits roots : deposit_frontier_prefix_roots keccak256 frontier count deposits = Some roots → length roots = length deposits.
Proof.
  unfold deposit_frontier_prefix_roots. destruct (post_count_ok _ _); [|done]. cbn [mbind option_bind].
  destruct (append_all _ _ _ _) as [[f rs]|] eqn:E; [|done]. intros [= <-]. by eapply append_all_length.
Qed.

(** The guest's copies of the helpers compute what the sidecar layer's do. *)
Lemma guest_leaves_eq (l : list L1DepositWitness) : guest_deposit_leaf_from_witness <$> l = deposit_leaf_from_witness <$> l.
Proof. done. Qed.
Lemma guest_key_eq blake3 id : guest_bridge_account_key blake3 id = bridge_account_key blake3 id.
Proof. done. Qed.
Lemma guest_dispositions_eq (l : list Event.SystemEventWitness) : omap guest_disposition l = omap disposition l.
Proof. induction l as [|e l IH]; [done|]. cbn. rewrite IH. by destruct e. Qed.

Section checkpoint.
Context (blake3 keccak256 : Bytes → Bytes).

(** An event says what became of the deposit [d] whose tree root is [root]. *)
Definition accounts_for (root : Bytes) (d : L1DepositWitness) (e : option Z * Z * Z * Bytes * Bytes) : Prop :=
  let '(account_id, amount, deposit_id, deposit_root, key) := e in
  deposit_id = dw_deposit_id d ∧ deposit_root = root ∧ key = dw_sybil_account_key d ∧
  (∀ id, account_id = Some id → key = bridge_account_key blake3 id) ∧ deposit_amount_nanos d = Some amount.

(** The deposits of a block extend the tree its pre-state commits to, give the
    root and the count after it, and each has its event. *)
Record deposits_extend (w : BlockWitness) (post_root : Bytes) (post_count : Z) (roots : list Bytes) : Prop := {
  de_cursor : br_deposit_cursor (ss_bridge (bw_pre_state_sidecar w)) = da_pre_count (bw_deposit_accumulator w);
  de_root : deposit_root_from_frontier keccak256 (da_pre_frontier (bw_deposit_accumulator w)) (da_pre_count (bw_deposit_accumulator w)) =
    Some (br_deposit_root (ss_bridge (bw_pre_state_sidecar w)));
  de_count : post_count = da_pre_count (bw_deposit_accumulator w) + Z.of_nat (length (da_new_deposits (bw_deposit_accumulator w)));
  de_width : post_count ≤ int_max U64;
  de_roots : deposit_frontier_prefix_roots keccak256 (da_pre_frontier (bw_deposit_accumulator w)) (da_pre_count (bw_deposit_accumulator w))
    (deposit_leaf_from_witness <$> da_new_deposits (bw_deposit_accumulator w)) = Some roots;
  de_post : post_root = default (br_deposit_root (ss_bridge (bw_pre_state_sidecar w))) (last roots);
  de_delta : ∀ i d, da_new_deposits (bw_deposit_accumulator w) !! i = Some d →
    dw_deposit_id d = da_pre_count (bw_deposit_accumulator w) + Z.of_nat i + 1 ∧ roots !! i = Some (dw_deposit_root d);
  de_events : Forall2 (λ d e, accounts_for (dw_deposit_root d) d e) (da_new_deposits (bw_deposit_accumulator w)) (omap disposition (bw_system_events w));
}.

Lemma account_key_ok account_id key : check_account_key blake3 account_id key = Ok () ↔ ∀ id, account_id = Some id → key = bridge_account_key blake3 id.
Proof.
  destruct account_id as [id|]; cbn [check_account_key]; [|naive_solver]. rewrite guest_key_eq, reject_last, neq_false. split; [by intros -> ? [= <-]|by intros H; apply H].
Qed.
Lemma account_key_nil (account_id : option Z) key :
  match account_id with Some id => flag (bool_decide (key ≠ bridge_account_key blake3 id)) VK.SidecarDepositRootMismatch | None => [] end = [] ↔
  ∀ id, account_id = Some id → key = bridge_account_key blake3 id.
Proof.
  destruct account_id as [id|]; [|naive_solver]. rewrite flag_nil. fold (neq key (bridge_account_key blake3 id)). rewrite neq_false.
  split; [by intros -> ? [= <-]|by intros H; apply H].
Qed.

(** One event, as either verifier checks it. *)
Lemma deposit_event_ok pre_count roots ds i d root e : 0 ≤ pre_count → pre_count + Z.of_nat i + 1 ≤ int_max U64 →
  ds !! i = Some d → roots !! i = Some root → dw_deposit_id d = pre_count + Z.of_nat i + 1 →
  check_deposit_event blake3 pre_count roots ds (i, e) = Ok () ↔ accounts_for root d e.
Proof.
  intros Hp Hw Hd Hr Hid. destruct e as [[[[account_id amount] deposit_id] deposit_root] key]. unfold check_deposit_event, accounts_for.
  change (int_max U64) with 18446744073709551615 in Hw. rewrite arith_in, Ok_then, arith_in, Ok_then by int_lia. rewrite Hd, <- Hid.
  rewrite reject_then, negb_false_iff, Z.eqb_eq. unfold idx. rewrite Hr. cbn [ok_or expect]. rewrite !Ok_then, !reject_then, !neq_false, unit_then, account_key_ok.
  change (guest_deposit_amount_nanos d) with (deposit_amount_nanos d).
  destruct (deposit_amount_nanos d) as [n|]; cbn [ok_or]; [rewrite Ok_then, reject_last, negb_false_iff, Z.eqb_eq|]; naive_solver.
Qed.
Lemma disposition_nil roots ds i d root e : ds !! i = Some d → roots !! i = Some root →
  check_disposition blake3 roots ds (i, e) = [] ↔ accounts_for root d e.
Proof.
  intros Hd Hr. destruct e as [[[[account_id amount] deposit_id] deposit_root] key]. unfold check_disposition, accounts_for. rewrite Hd, Hr. change (default (dw_deposit_root d) (Some root)) with root.
  rewrite !app_nil, !flag_nil, account_key_nil, negb_false_iff, Z.eqb_eq. fold (neq deposit_root root). fold (neq (dw_sybil_account_key d) key). rewrite !neq_false.
  destruct (deposit_amount_nanos d) as [n|]; [rewrite flag_nil, negb_false_iff, Z.eqb_eq|]; intuition congruence.
Qed.

Lemma sidecar_deposits w : 0 ≤ da_pre_count (bw_deposit_accumulator w) →
  verify_deposit_accumulator blake3 keccak256 w = [] ↔
  ∃ roots, deposits_extend w (br_deposit_root (ss_bridge (bw_state_sidecar w))) (br_deposit_cursor (ss_bridge (bw_state_sidecar w))) roots.
Proof.
  intros Hpos. unfold verify_deposit_accumulator, verify_l1_deposit_events_match_delta. cbn zeta. split.
  - destruct (chk U64 _) as [n|] eqn:Hn; [|by intros [_ [_ ?]%app_nil]%app_nil]. apply chk_Some in Hn as [-> Hn].
    destruct (deposit_frontier_prefix_roots _ _ _ _) as [roots|] eqn:Hr; [|intros H; rewrite !app_nil in H; naive_solver]. pose proof (prefix_roots_length _ _ _ _ _ Hr) as Hl. rewrite length_fmap in Hl.
    rewrite !app_nil, !flag_nil, !negb_false_iff, !Z.eqb_eq, bool_decide_eq_true, bool_decide_eq_false, !bind_enumerate_nil, bind_nil, Forall_forall.
    intros (Hc & Hr0 & Hpc & Hid & Hroot & Hpr & Hlen & Hev). exists roots.
    assert (∀ i d, da_new_deposits (bw_deposit_accumulator w) !! i = Some d → dw_deposit_id d = da_pre_count (bw_deposit_accumulator w) + Z.of_nat i + 1 ∧ roots !! i = Some (dw_deposit_root d)) as Hdelta.
    { intros i d Hd. pose proof (Hid i d Hd) as Hi. rewrite flag_nil, negb_false_iff, Z.eqb_eq in Hi. split; [done|].
      destruct (lookup_lt_is_Some_2 roots i) as [r Hri]; [apply lookup_lt_Some in Hd; lia|]. rewrite Hri. f_equal.
      assert ((d, r) ∈ zip (da_new_deposits (bw_deposit_accumulator w)) roots) as Hz. { apply list_elem_of_lookup. exists i. by apply lookup_zip_Some. }
      specialize (Hroot _ Hz). cbn in Hroot. apply flag_nil in Hroot. fold (neq (dw_deposit_root d) r) in Hroot. symmetry. by apply neq_false. }
    split; [done| |done|lia|done|by apply dec_stable|done|].
    + destruct (deposit_root_from_frontier _ _ _) as [r|]; [|done]. apply flag_nil in Hr0. f_equal. by apply neq_false.
    + apply Forall2_same_length_lookup. split; [done|]. intros i d e Hd He. destruct (Hdelta i d Hd) as [_ Hri]. by eapply (disposition_nil roots (da_new_deposits (bw_deposit_accumulator w)) i); [..|apply Hev].
  - intros [roots [Hc Hr0 Hpc Hw Hr Hpr Hdelta Hev]]. rewrite chk_in by (change (int_min U64) with 0; lia). rewrite Hr, Hr0, Hc, !Z.eqb_refl, <- Hpc, Z.eqb_refl. cbn [negb].
    rewrite <- Hpr, !bool_decide_eq_false_2 by (intros H; by apply H). cbn [flag app]. rewrite !app_nil, bind_enumerate_nil, bind_nil, Forall_forall, flag_nil, bind_enumerate_nil.
    pose proof (Forall2_length _ _ _ Hev) as Hlen. split_and!.
    + intros i d Hd. destruct (Hdelta i d Hd) as [-> _]. by rewrite Z.eqb_refl.
    + intros [d r] (i & Hi)%list_elem_of_lookup_1. apply lookup_zip_Some in Hi as [Hd Hri]. destruct (Hdelta i d Hd) as [_ Hri']. rewrite Hri' in Hri. injection Hri as <-.
      by rewrite bool_decide_eq_false_2 by (intros H; by apply H).
    + rewrite bool_decide_eq_true_2; [done|symmetry; exact Hlen].
    + intros i e He. destruct (Forall2_lookup_r _ _ _ _ _ Hev He) as (d & Hd & Ha). destruct (Hdelta i d Hd) as [_ Hri]. by apply (disposition_nil roots _ i d (dw_deposit_root d)).
Qed.

Lemma guest_deposits inputs w : 0 ≤ da_pre_count (bw_deposit_accumulator w) →
  verify_l1_deposit_checkpoint blake3 keccak256 inputs w = Ok () ↔ ∃ roots, deposits_extend w (pi_deposit_root inputs) (pi_deposit_count inputs) roots.
Proof.
  intros Hpos. unfold verify_l1_deposit_checkpoint. cbn zeta. rewrite guest_leaves_eq, guest_dispositions_eq.
  rewrite reject_then, negb_false_iff, Z.eqb_eq, ok_or_then. split.
  - intros (Hc & r0 & Hr0 & H). rewrite reject_then, neq_false, ok_or_then in H. destruct H as (-> & n & [-> Hn]%chk_Some & H).
    rewrite reject_then, negb_false_iff, Z.eqb_eq, unit_then, ofold_enumerate, ok_or_then in H. destruct H as (Hpc & Hid & roots & Hr & H).
    rewrite reject_then, neq_false, unit_then, ofold_enumerate, reject_then, negb_false_iff, Z.eqb_eq, ofold_enumerate in H. destruct H as (Hpr & Hroot & Hlen & Hev). exists roots.
    assert (∀ i d, da_new_deposits (bw_deposit_accumulator w) !! i = Some d → dw_deposit_id d = da_pre_count (bw_deposit_accumulator w) + Z.of_nat i + 1 ∧ roots !! i = Some (dw_deposit_root d)) as Hdelta.
    { intros i d Hd. specialize (Hid i d Hd). specialize (Hroot i d Hd). unfold check_delta_id in Hid. unfold check_delta_root, idx in Hroot.
      apply obind_Ok in Hid as (a & [-> _]%arith_Ok & Hid). apply obind_Ok in Hid as (b & [-> _]%arith_Ok & Hid). rewrite reject_last, negb_false_iff, Z.eqb_eq in Hid. split; [done|].
      destruct (roots !! i); [|done]. cbn [expect] in Hroot. rewrite Ok_then, reject_last, neq_false in Hroot. congruence. }
    split; [done|by rewrite Hr0|lia|lia|done|done|done|].
    apply Forall2_same_length_lookup. split; [lia|]. intros i d e Hd He. destruct (Hdelta i d Hd) as [Hi Hri].
    eapply (deposit_event_ok _ roots (da_new_deposits (bw_deposit_accumulator w)) i); [exact Hpos| |done..|by apply Hev]. apply lookup_lt_Some in Hd. lia.
  - intros [roots [Hc Hr0 Hpc Hw Hr Hpr Hdelta Hev]]. pose proof (Forall2_length _ _ _ Hev) as Hlen. change (int_max U64) with 18446744073709551615 in *. split; [done|].
    exists (br_deposit_root (ss_bridge (bw_pre_state_sidecar w))). split; [done|]. rewrite reject_then, neq_false, ok_or_then. split; [done|].
    exists (pi_deposit_count inputs). split; [rewrite <- Hpc; apply chk_in; int_lia|]. rewrite reject_then, negb_false_iff, Z.eqb_eq, unit_then, ofold_enumerate, ok_or_then.
    split_and!; [done| |exists roots; split; [done|]].
    + intros i d Hd. destruct (Hdelta i d Hd) as [Hi _]. apply lookup_lt_Some in Hd. unfold check_delta_id. rewrite arith_in, Ok_then, arith_in, Ok_then by int_lia.
      rewrite reject_last, negb_false_iff, Z.eqb_eq. done.
    + rewrite reject_then, neq_false, unit_then, ofold_enumerate, reject_then, negb_false_iff, Z.eqb_eq, ofold_enumerate. split_and!; [done| |lia|].
      * intros i d Hd. destruct (Hdelta i d Hd) as [_ Hri]. unfold check_delta_root, idx. rewrite Hri. cbn [expect]. rewrite Ok_then. by apply reject_last, neq_false.
      * intros i e He. destruct (Forall2_lookup_r _ _ _ _ _ Hev He) as (d & Hd & Ha). destruct (Hdelta i d Hd) as [Hi Hri].
        apply (deposit_event_ok _ _ _ i d (dw_deposit_root d)); try done. apply lookup_lt_Some in Hd. change (int_max U64) with 18446744073709551615. lia.
Qed.

Lemma deposit_checkpoint w refs : 0 ≤ da_pre_count (bw_deposit_accumulator w) →
  verify_l1_deposit_checkpoint blake3 keccak256 (public_inputs_from_witness_and_provider_refs blake3 w refs) w = Ok () ↔
  verify_deposit_accumulator blake3 keccak256 w = [].
Proof.
  intros Hpos. rewrite guest_deposits, sidecar_deposits by done. unfold public_inputs_from_witness_and_provider_refs. by destruct (bw_previous_header w).
Qed.
End checkpoint.

(** C28: on the public inputs a witness determines, the guest's deposit checkpoint
    accepts exactly when the sidecar layer finds nothing wrong with the block's
    deposits: the two hand-written copies of the check, helpers included, are one
    predicate. *)
Theorem deposit_checkpoint_agrees blake3 keccak256 w refs : 0 ≤ da_pre_count (bw_deposit_accumulator w) →
  verify_l1_deposit_checkpoint blake3 keccak256 (public_inputs_from_witness_and_provider_refs blake3 w refs) w = Ok () ↔
  verify_deposit_accumulator blake3 keccak256 w = [].
Proof. apply deposit_checkpoint. Qed.
Lemma deposit_checkpoint_agrees_witness :
  da_new_deposits (bw_deposit_accumulator ex_bridge_block) ≠ [] ∧
  (verify_l1_deposit_checkpoint ex_hash ex_hash (public_inputs_from_witness_and_provider_refs ex_hash ex_bridge_block []) ex_bridge_block = Ok () ↔
   verify_deposit_accumulator ex_hash ex_hash ex_bridge_block = []).
Proof. split; [by vm_compute|]. apply (deposit_checkpoint_agrees ex_hash ex_hash ex_bridge_block []). vm_compute. discriminate. Defined.
