(* ===== verification/TransitionExact.v ===== *)
(** * TransitionExact: the state-transition statement as one predicate

    [verify_state_transition_input] accepts exactly the inputs whose public part
    is computed from the witness, whose state roots open to the witness's sorted
    states, and whose witness every layer accepts. *)
From S2P Require Import Prelude Types Order MmConstraint Account Digest Snapshots Finalize Witness Sidecar SettlementVerifier MatchVerifier OrdersVerifier L1Protocol DepositFrontier AccountKeys Signing KeyTransition WitnessBytes BridgeSidecar SidecarMarkets StateCommitment StateBinding BlockChain Mmr QmdbProof ZkTransition StatementExact DepositCheckpoint.

(** ** Opening a state root *)

(** The proofs open [root] at the leaves, one each, and link their keys into one cycle. *)
Record opens (sha256 : Bytes → Bytes) (root : Bytes) (leaves : list (Bytes * Bytes)) (proof : QmdbStateRootProof) : Prop := {
  op_distinct : NoDup leaves.*1;
  op_length : length (sp_leaf_proofs proof) = length leaves;
  op_leaf : ∀ i k v p, leaves !! i = Some (k, v) → sp_leaf_proofs proof !! i = Some p →
    verify_qmdb_key_value_proof sha256 root k v p = Ok (E := ZkTransitionError) true ∧
    fst <$> leaves !! ((i + 1) mod length leaves)%nat = Some (kv_next_key p);
}.

Lemma check_windows_cons i a b l : check_windows i (a :: b :: l) = (reject_if (bool_decide (a.1 = b.1)) (Zk.DuplicateStateLeafKey i);; check_windows (i + 1) (b :: l)).
Proof. done. Qed.
Lemma check_windows_exact i leaves : StronglySorted leaf_le leaves → check_windows i leaves = Ok () ↔ NoDup leaves.*1.
Proof.
  intros Hs. revert i. induction Hs as [|[k v] l Hs IH Hf]; intros i; [by split; [constructor|]|]. rewrite fmap_cons, NoDup_cons.
  destruct l as [|[k' v'] l]; [split; [|done]; intros _; split; [apply not_elem_of_nil|constructor]|]. rewrite check_windows_cons.
  cbn [fst]. rewrite reject_then, bool_decide_eq_false, IH. apply and_iff_compat_r. split; [|intros H ->; apply H; left].
  intros Hne Hin. apply Hne. apply list_elem_of_fmap in Hin as ([k'' v''] & -> & [[= -> ->]|Hin]%elem_of_cons); [done|].
  apply bytes_le_antisym; [by apply (proj1 (Forall_cons _ _ _) Hf)|]. inversion_clear Hs as [|? ? _ Hf']. exact (proj1 (Forall_forall _ _) Hf' _ Hin).
Qed.

Lemma check_leaf_exact sha256 root leaves i k v p : (i < length leaves)%nat → check_leaf sha256 root leaves (i, ((k, v), p)) = Ok () ↔
  verify_qmdb_key_value_proof sha256 root k v p = Ok (E := ZkTransitionError) true ∧ fst <$> leaves !! ((i + 1) mod length leaves)%nat = Some (kv_next_key p).
Proof.
  intros Hi. unfold check_leaf, idx. destruct (lookup_lt_is_Some_2 leaves ((i + 1) mod length leaves)) as [[k' v'] Hx]; [apply Nat.mod_upper_bound; lia|]. rewrite Hx. cbn [expect].
  destruct (verify_qmdb_key_value_proof _ _ _ _ _) as [[]| |].
  - rewrite Ok_then. cbn [negb]. rewrite reject_then, Ok_then, reject_last, neq_false. cbn. split; [by intros (_ & ->)|by intros (_ & [= ->])].
  - rewrite Ok_then. split; [done|]. by intros [? _].
  - split; [done|]. by intros [? _].
  - split; [done|]. by intros [? _].
Qed.

Lemma state_root_for_exact sha256 root leaves proof : StronglySorted leaf_le leaves →
  verify_qmdb_state_root_for sha256 root leaves proof = Ok () ↔ opens sha256 root leaves proof.
Proof.
  intros Hs. unfold verify_qmdb_state_root_for. rewrite reject_then, negb_false_iff, Z.eqb_eq, unit_then, check_windows_exact, ofold_enumerate by done. split.
  - intros (Hl & Hd & H). split; [done|lia|]. intros i k v p Hk Hp. apply check_leaf_exact; [by eapply lookup_lt_Some|]. apply (H i (k, v, p)). by apply lookup_zip_Some.
  - intros [Hd Hl H]. split_and!; [lia|done|]. intros i [[k v] p] [Hk Hp]%lookup_zip_Some. cbn in Hk, Hp. apply check_leaf_exact; [by eapply lookup_lt_Some|by apply H].
Qed.
Lemma state_leaves_sorted sha256 accounts s : StronglySorted leaf_le (state_root_leaves sha256 accounts s).
Proof. apply StronglySorted_stable_sort; [intros ? ? ?; apply bytes_le_trans|apply _]. Qed.

(** ** The statement *)

Definition accepts {E} (o : outcome E VerificationResult) : Prop := ∃ r, o = Ok r ∧ vr_valid r = true.

Lemma sidecar_accepts_deposits blake3 keccak256 w : accepts (verify_sidecar blake3 keccak256 w) → verify_deposit_accumulator blake3 keccak256 w = [].
Proof.
  unfold verify_sidecar. intros (r & H & Hv). apply obind_Ok in H as (v1 & _ & H). apply obind_Ok in H as (v2 & _ & H). apply obind_Ok in H as (v3 & _ & H).
  apply obind_Ok in H as (v4 & _ & H). apply obind_Ok in H as (q & _ & [= <-]). apply from_violations_valid in Hv. rewrite !app_nil in Hv. by destruct_and!.
Qed.

Section statement.
Context (sha256 blake3 keccak256 : Bytes → Bytes) (p256 : Bytes → Bytes → Bytes → bool) `{B : BorshFormat}
  (iter : gmap Z DerivedAccountState → list (Z * DerivedAccountState)).

Record transition_holds (input : StateTransitionGuestInput) : Prop := {
  th_inputs : gi_public_inputs input = public_inputs_from_witness_and_provider_refs blake3 (gi_witness input) (gi_da_provider_refs input);
  th_header : header_binds sha256 blake3 (gi_witness input);
  th_post : opens sha256 (hd_state_root (bw_header (gi_witness input))) (state_root_leaves sha256 (bw_post_state (gi_witness input)) (bw_state_sidecar (gi_witness input)))
    (gi_state_root_proof input);
  th_pre : match bw_previous_header (gi_witness input) with
    | Some previous => opens sha256 (hd_state_root previous) (state_root_leaves sha256 (bw_pre_state (gi_witness input)) (bw_pre_state_sidecar (gi_witness input)))
        (gi_pre_state_root_proof input)
    | None => sp_leaf_proofs (gi_pre_state_root_proof input) = []
    end;
  th_match : accepts (@verify_match Empty_set (gi_witness input) false);
  th_system : accepts (verify_system sha256 blake3 p256 (gi_witness input));
  th_settlement : accepts (@verify_settlement blake3 iter Empty_set (gi_witness input));
  th_orders : accepts (@verify_orders Empty_set (gi_witness input));
  th_sidecar : accepts (verify_sidecar blake3 keccak256 (gi_witness input));
}.

Lemma public_roots w refs : let p := public_inputs_from_witness_and_provider_refs blake3 w refs in
  pi_new_state_root p = hd_state_root (bw_header w) ∧ pi_new_height p = hd_height (bw_header w) ∧
  pi_previous_height p = (previous_of blake3 w).1.1 ∧ pi_previous_state_root p = (previous_of blake3 w).1.2 ∧
  (∀ previous, bw_previous_header w = Some previous → pi_previous_state_root p = hd_state_root previous ∧ pi_previous_height p = hd_height previous).
Proof. unfold public_inputs_from_witness_and_provider_refs, previous_of. destruct (bw_previous_header w); split_and!; try done. by intros ? [= <-]. Qed.

Lemma pre_root_exact input : gi_public_inputs input = public_inputs_from_witness_and_provider_refs blake3 (gi_witness input) (gi_da_provider_refs input) →
  verify_pre_state_root sha256 input = Ok () ↔
  match bw_previous_header (gi_witness input) with
  | Some previous => opens sha256 (hd_state_root previous) (state_root_leaves sha256 (bw_pre_state (gi_witness input)) (bw_pre_state_sidecar (gi_witness input)))
      (gi_pre_state_root_proof input)
  | None => sp_leaf_proofs (gi_pre_state_root_proof input) = []
  end.
Proof.
  intros Hi. unfold verify_pre_state_root. cbn zeta. rewrite Hi. destruct (public_roots (gi_witness input) (gi_da_provider_refs input)) as (_ & _ & _ & _ & Hprev).
  destruct (bw_previous_header (gi_witness input)) as [previous|].
  - destruct (Hprev previous eq_refl) as [-> _]. apply state_root_for_exact, state_leaves_sorted.
  - by rewrite reject_last, negb_false_iff, bool_decide_eq_true.
Qed.

Lemma transition_exact input h : 0 ≤ da_pre_count (bw_deposit_accumulator (gi_witness input)) →
  verify_state_transition_input sha256 blake3 keccak256 p256 iter input = Ok h ↔
  transition_holds input ∧ h = state_transition_public_input_hash keccak256 (gi_public_inputs input).
Proof.
  intros Hpos. unfold verify_state_transition_input. cbn zeta. rewrite !unit_then, binding_exact, !ensure_valid_Ok, state_root_for_exact by apply state_leaves_sorted. split.
  - intros ((Hi & Hh & _) & Hpost & Hpre & Hm & Hsy & Hse & Ho & Hsi & [= <-]). split; [|done]. apply pre_root_exact in Hpre; [|done].
    split; try done. rewrite Hi in Hpost. destruct (public_roots (gi_witness input) (gi_da_provider_refs input)) as (Hr & _). by rewrite Hr in Hpost.
  - intros ([Hi Hh Hpost Hpre Hm Hsy Hse Ho Hsi] & ->). split_and!; try done.
    + rewrite Hi. apply deposit_checkpoint; [done|]. by apply sidecar_accepts_deposits.
    + rewrite Hi. destruct (public_roots (gi_witness input) (gi_da_provider_refs input)) as (Hr & _). by rewrite Hr.
    + by apply pre_root_exact.
Qed.
End statement.
