(* ===== verification/EpochTransition.v ===== *)
(** * EpochTransition: the statement over a run of blocks

    Models [crates/sybil-zk/src/epoch.rs]: the accumulator that verifies blocks
    one by one and the public inputs it ends with. *)
From S2P Require Import Prelude Types Order MmConstraint Account Digest Snapshots Finalize Witness SettlementVerifier MatchVerifier OrdersVerifier L1Protocol DepositFrontier AccountKeys Signing KeyTransition WitnessBytes BridgeSidecar SidecarMarkets StateCommitment Mmr QmdbProof ZkTransition.

Definition EPOCH_TRANSITION_INPUT_VERSION : Z := 1.
Definition EPOCH_TRANSITION_DOMAIN : Bytes := ascii_bytes "sybil/openvm/epoch-transition/v1".
Definition EPOCH_BLOCKS_DOMAIN : Bytes := ascii_bytes "sybil/epoch/blocks/v1".
Definition EPOCH_BLOCKS_FOLD_DOMAIN : Bytes := ascii_bytes "sybil/epoch/blocks/fold/v1".
Definition EPOCH_DA_DOMAIN : Bytes := ascii_bytes "sybil/epoch/da/v1".
Definition EPOCH_DA_FOLD_DOMAIN : Bytes := ascii_bytes "sybil/epoch/da/fold/v1".
Definition MAX_EPOCH_BLOCKS : Z := 4096.

Record EpochTransitionPublicInputs := mkEpochTransitionPublicInputs {
  ep_start_height : Z;
  ep_end_height : Z;
  ep_start_state_root : Bytes;
  ep_end_state_root : Bytes;
  ep_block_count : Z;
  ep_blocks_commitment : Bytes;
  ep_epoch_da_commitment : Bytes;
  ep_deposit_root : Bytes;
  ep_deposit_count : Z;
}.
#[global] Instance EpochTransitionPublicInputs_eq_dec : EqDecision EpochTransitionPublicInputs.
Proof. solve_decision. Defined.
Record EpochTransitionHeader := mkEpochTransitionHeader { eh_format_version : Z; eh_public_inputs : EpochTransitionPublicInputs }.

Module Epoch.
Inductive EpochTransitionError :=
  | UnsupportedInputVersion (expected actual : Z)
  | EmptyEpoch
  | TooManyBlocks (max : Z)
  | ClaimedHeightRangeMismatch (start count end_ : Z)
  | BlockVerification (index : Z) (source : ZkTransitionError)
  | GenesisHashMismatch (index : Z)
  | HeightOverflow (previous : Z)
  | NonConsecutiveHeight (index expected actual : Z)
  | StateChainMismatch (index : Z)
  | PreviousHeaderMismatch (index : Z)
  | PublicInputsMismatch.
End Epoch.
Abbreviation EpochTransitionError := Epoch.EpochTransitionError (only parsing).

Definition EpochTransitionHeader_new (public_inputs : EpochTransitionPublicInputs) : EpochTransitionHeader :=
  mkEpochTransitionHeader EPOCH_TRANSITION_INPUT_VERSION public_inputs.
Definition EpochTransitionHeader_validate (self : EpochTransitionHeader) : outcome EpochTransitionError unit :=
  let p := eh_public_inputs self in
  reject_if (negb (eh_format_version self =? EPOCH_TRANSITION_INPUT_VERSION)) (Epoch.UnsupportedInputVersion EPOCH_TRANSITION_INPUT_VERSION (eh_format_version self));;
  reject_if (ep_block_count p =? 0) Epoch.EmptyEpoch;;
  reject_if (ep_block_count p >? MAX_EPOCH_BLOCKS) (Epoch.TooManyBlocks MAX_EPOCH_BLOCKS);;
  expected_end ← ok_or (chk U64 (ep_start_height p + ep_block_count p)) (Epoch.HeightOverflow (ep_start_height p));
  reject_if (negb (ep_end_height p =? expected_end)) (Epoch.ClaimedHeightRangeMismatch (ep_start_height p) (ep_block_count p) (ep_end_height p)).

Record EpochTransitionAccumulator := mkEpochTransitionAccumulator {
  ea_block_count : Z;
  ea_start_height : option Z;
  ea_start_state_root : option Bytes;
  ea_end_height : Z;
  ea_end_state_root : Bytes;
  ea_blocks_commitment : Bytes;
  ea_epoch_da_commitment : Bytes;
  ea_deposit_root : Bytes;
  ea_deposit_count : Z;
  ea_genesis_hash : option Bytes;
  ea_previous_header : option WitnessBlockHeader;
}.

Definition headers_equal (left right : WitnessBlockHeader) : bool :=
  (hd_height left =? hd_height right) && bool_decide (hd_parent_hash left = hd_parent_hash right) &&
  bool_decide (hd_state_root left = hd_state_root right) && bool_decide (hd_events_root left = hd_events_root right) &&
  (hd_order_count left =? hd_order_count right) && (hd_fill_count left =? hd_fill_count right) && (hd_timestamp_ms left =? hd_timestamp_ms right).

Definition epoch_words (p : EpochTransitionPublicInputs) : list AbiWord :=
  [Uint (ep_start_height p); Uint (ep_end_height p); Bytes32 (ep_start_state_root p); Bytes32 (ep_end_state_root p); Uint (ep_block_count p);
   Bytes32 (ep_blocks_commitment p); Bytes32 (ep_epoch_da_commitment p); Bytes32 (ep_deposit_root p); Uint (ep_deposit_count p)].

Section epoch.
Context (sha256 blake3 keccak256 : Bytes → Bytes) (p256 : Bytes → Bytes → Bytes → bool) `{B : BorshFormat}
  (iter : gmap Z DerivedAccountState → list (Z * DerivedAccountState)).

Definition epoch_transition_public_input_hash (inputs : EpochTransitionPublicInputs) : Bytes :=
  keccak256 (abi_encode_domain_and_words EPOCH_TRANSITION_DOMAIN (epoch_words inputs)).
Definition epoch_commitment_seed (domain : Bytes) : Bytes := blake3 domain.
Definition epoch_commitment_fold (domain previous value : Bytes) : Bytes := blake3 (domain ++ previous ++ value).

Definition EpochTransitionAccumulator_new : EpochTransitionAccumulator :=
  mkEpochTransitionAccumulator 0 None None 0 (replicate 32 0) (epoch_commitment_seed EPOCH_BLOCKS_DOMAIN) (epoch_commitment_seed EPOCH_DA_DOMAIN)
    (replicate 32 0) 0 None None.

(** The checks against the previous block of the epoch. *)
Definition check_continues (a : EpochTransitionAccumulator) (input : StateTransitionGuestInput) (expected_genesis_hash : Bytes) : outcome EpochTransitionError unit :=
  let index := ea_block_count a in
  reject_if (neq (bw_genesis_hash (gi_witness input)) expected_genesis_hash) (Epoch.GenesisHashMismatch index);;
  previous_header ← expect (ea_previous_header a);
  expected_height ← ok_or (chk U64 (hd_height previous_header + 1)) (Epoch.HeightOverflow (hd_height previous_header));
  reject_if (negb (pi_new_height (gi_public_inputs input) =? expected_height))
    (Epoch.NonConsecutiveHeight index expected_height (pi_new_height (gi_public_inputs input)));;
  reject_if (neq (pi_previous_state_root (gi_public_inputs input)) (hd_state_root previous_header)) (Epoch.StateChainMismatch index);;
  match bw_previous_header (gi_witness input) with
  | Some actual => reject_if (negb (headers_equal previous_header actual)) (Epoch.PreviousHeaderMismatch index)
  | None => Err (Epoch.PreviousHeaderMismatch index)
  end.

Definition push (a : EpochTransitionAccumulator) (input : StateTransitionGuestInput) : outcome EpochTransitionError EpochTransitionAccumulator :=
  let p := gi_public_inputs input in
  let w := gi_witness input in
  reject_if (ea_block_count a >=? MAX_EPOCH_BLOCKS) (Epoch.TooManyBlocks MAX_EPOCH_BLOCKS);;
  block_public_input_hash ← map_err (Epoch.BlockVerification (ea_block_count a)) (verify_state_transition_input sha256 blake3 keccak256 p256 iter input);
  '(start_height, start_state_root, genesis_hash) ←
    match ea_genesis_hash a with
    | Some expected => check_continues a input expected;; Ok (ea_start_height a, ea_start_state_root a, ea_genesis_hash a)
    | None => Ok (Some (pi_previous_height p), Some (pi_previous_state_root p), Some (bw_genesis_hash w))
    end;
  block_count ← arith U64 (ea_block_count a + 1);
  Ok (mkEpochTransitionAccumulator block_count start_height start_state_root (pi_new_height p) (pi_new_state_root p)
        (epoch_commitment_fold EPOCH_BLOCKS_FOLD_DOMAIN (ea_blocks_commitment a) block_public_input_hash)
        (epoch_commitment_fold EPOCH_DA_FOLD_DOMAIN (ea_epoch_da_commitment a) (pi_da_commitment p))
        (pi_deposit_root p) (pi_deposit_count p) genesis_hash (Some (bw_header w))).

Definition finish (a : EpochTransitionAccumulator) : outcome EpochTransitionError EpochTransitionPublicInputs :=
  start_height ← ok_or (ea_start_height a) Epoch.EmptyEpoch;
  start_state_root ← ok_or (ea_start_state_root a) Epoch.EmptyEpoch;
  Ok (mkEpochTransitionPublicInputs start_height (ea_end_height a) start_state_root (ea_end_state_root a) (ea_block_count a)
        (ea_blocks_commitment a) (ea_epoch_da_commitment a) (ea_deposit_root a) (ea_deposit_count a)).
Definition finish_and_verify (a : EpochTransitionAccumulator) (header : EpochTransitionHeader) : outcome EpochTransitionError Bytes :=
  EpochTransitionHeader_validate header;;
  computed ← finish a;
  reject_if (bool_decide (computed ≠ eh_public_inputs header)) Epoch.PublicInputsMismatch;;
  Ok (epoch_transition_public_input_hash (eh_public_inputs header)).
Definition verify_epoch_transition_inputs (claimed : EpochTransitionPublicInputs) (blocks : list StateTransitionGuestInput) : outcome EpochTransitionError Bytes :=
  accumulator ← ofold push EpochTransitionAccumulator_new blocks;
  finish_and_verify accumulator (EpochTransitionHeader_new claimed).
End epoch.
