(* ===== verification/TransitionExample.v ===== *)
(** * TransitionExample: two blocks with their state proofs

    A concrete pair of guest inputs over one account, built with a toy digest in
    place of the three hash functions.  The state tree holds the seven leaves of
    the state and one more, so that it is one mountain of height three. *)
From S2P Require Import Prelude Types Order MmConstraint Account Digest Snapshots Finalize Witness Sidecar SettlementVerifier MatchVerifier OrdersVerifier L1Protocol DepositFrontier AccountKeys Signing KeyTransition WitnessBytes BridgeSidecar SidecarMarkets StateCommitment StateBinding BlockChain Mmr QmdbProof ZkTransition EpochTransition.

(** ** A state tree of seven leaves *)

Section tree.
Context (leaves : list (Bytes * Bytes)).

Definition ex_next (i : nat) : Bytes := (leaves !!! ((i + 1) mod length leaves)%nat).1.
Definition ex_operation (i : nat) : Bytes :=
  match leaves !! i with
  | Some (k, v) => match encode_qmdb_update_operation k v (ex_next i) with Ok o => o | _ => [] end
  | None => []
  end.

(** The digest of a subtree, and the digests a proof of location [loc] needs from it. *)
Fixpoint ex_node (height : nat) (pos leaf_start : Z) : Bytes :=
  match height with
  | O => mmr_leaf_digest ex_digest pos (ex_operation (Z.to_nat leaf_start))
  | S h => mmr_node_digest ex_digest pos (ex_node h (pos - 2 ^ Z.of_nat height) leaf_start) (ex_node h (pos - 1) (leaf_start + 2 ^ Z.of_nat h))
  end.
Fixpoint ex_siblings (height : nat) (pos leaf_start loc : Z) : list Bytes :=
  if (leaf_start <=? loc) && (loc <? leaf_start + 2 ^ Z.of_nat height) then
    match height with
    | O => []
    | S h => ex_siblings h (pos - 2 ^ Z.of_nat height) leaf_start loc ++ ex_siblings h (pos - 1) (leaf_start + 2 ^ Z.of_nat h) loc
    end
  else [ex_node height pos leaf_start].

Definition ex_chunk : Bytes := 127 :: replicate 31 0.
Definition ex_merkle_root : Bytes := match mmr_root ex_digest 8 0 0 [ex_node 3 14 0] with Ok r => r | _ => [] end.
Definition ex_tree_root : Bytes := ex_digest (replicate 32 9 ++ ex_merkle_root ++ be_bytes 8 8 ++ ex_digest ex_chunk).
Definition ex_leaf_proof (i : nat) : QmdbStateKeyValueProof :=
  mkQmdbStateKeyValueProof (mkQmdbStateOperationProof (Z.of_nat i) ex_chunk
    (mkQmdbStateRangeProof 8 0 (ex_siblings 3 14 0 (Z.of_nat i)) (Some (ex_digest ex_chunk)) (replicate 32 9))) (ex_next i).
End tree.

Definition ex_leaves : list (Bytes * Bytes) := state_root_leaves ex_digest [ex_link_account] ex_link_sidecar.
Definition ex_root : Bytes := Eval vm_compute in ex_tree_root ex_leaves.
Definition ex_proof : QmdbStateRootProof := Eval vm_compute in mkQmdbStateRootProof (ex_leaf_proof ex_leaves <$> seq 0 (length ex_leaves)).

Lemma ex_root_opens : verify_qmdb_state_root_for ex_digest ex_root ex_leaves ex_proof = Ok ().
Proof. vm_compute. reflexivity. Qed.
Lemma ex_root_binds : verify_qmdb_state_root_for ex_digest ex_root (reverse ex_leaves) ex_proof = Err (Zk.StateRootProofVerificationFailed 0).
Proof. vm_compute. reflexivity. Qed.

(** ** The blocks *)

Definition ex_events : Bytes := Eval vm_compute in match guest_compute_events_root ex_digest ex_link1 with Ok r => r | _ => [] end.
Definition ex_step_header (height : Z) (parent : Bytes) : WitnessBlockHeader := mkWitnessBlockHeader height parent ex_root ex_events 0 0 (1000 * height).
Definition ex_input (w : BlockWitness) (pre : QmdbStateRootProof) : StateTransitionGuestInput :=
  mkStateTransitionGuestInput (public_inputs_from_witness_and_provider_refs ex_digest w [[1; 2]]) w [[1; 2]] ex_proof pre.
Definition ex_block1 : BlockWitness := ex_link_block (ex_step_header 1 (replicate 32 0)) None.
Definition ex_block2 : BlockWitness := ex_link_block (ex_step_header 2 (hash_header ex_digest (bw_header ex_block1))) (Some (bw_header ex_block1)).
Definition ex_input1 : StateTransitionGuestInput := ex_input ex_block1 (mkQmdbStateRootProof []).
Definition ex_input2 : StateTransitionGuestInput := ex_input ex_block2 ex_proof.
Definition ex_claim : EpochTransitionPublicInputs :=
  Eval vm_compute in match ofold (push ex_digest ex_digest ex_digest (λ _ _ _, true) map_to_list) (EpochTransitionAccumulator_new ex_digest) [ex_input1; ex_input2] with
  | Ok a => match finish a with Ok p => p | _ => mkEpochTransitionPublicInputs 0 0 [] [] 0 [] [] [] 0 end
  | _ => mkEpochTransitionPublicInputs 0 0 [] [] 0 [] [] [] 0
  end.
Lemma ex_input1_ok : verify_state_transition_input ex_digest ex_digest ex_digest (λ _ _ _, true) map_to_list ex_input1 = Ok (state_transition_public_input_hash ex_digest (gi_public_inputs ex_input1)).
Proof. vm_compute. reflexivity. Qed.
Lemma ex_epoch_ok : verify_epoch_transition_inputs ex_digest ex_digest ex_digest (λ _ _ _, true) map_to_list ex_claim [ex_input1; ex_input2] = Ok (epoch_transition_public_input_hash ex_digest ex_claim).
Proof. vm_compute. reflexivity. Qed.
(** The second block alone does not start the claimed range, and the blocks
    out of order do not chain. *)
Lemma ex_epoch_swapped : verify_epoch_transition_inputs ex_digest ex_digest ex_digest (λ _ _ _, true) map_to_list ex_claim [ex_input2; ex_input1] = Err (Epoch.NonConsecutiveHeight 1 3 1).
Proof. vm_compute. reflexivity. Qed.
