(* ===== verification/EpochProofs.v ===== *)
(** * EpochProofs: an accepted epoch is a chain of accepted blocks *)
From S2P Require Import Prelude Types Order MmConstraint Account Digest Snapshots Finalize Witness SettlementVerifier MatchVerifier OrdersVerifier L1Protocol DepositFrontier AccountKeys WebAuthn Signing ClientAction KeyTransition WitnessBytes WitnessDecode WitnessTyping BridgeSidecar SidecarMarkets StateCommitment StateBinding BlockChain Mmr QmdbProof ZkTransition StatementExact DepositCheckpoint TransitionExact EpochTransition.

Lemma headers_equal_true l r : headers_equal l r = true ↔ l = r.
Proof.
  unfold headers_equal. rewrite !andb_true_iff, !Z.eqb_eq, !bool_decide_eq_true. destruct l, r; cbn. split; [intros ((((((-> & ->) & ->) & ->) & ->) & ->) & ->); done|intros [= -> -> -> -> -> -> ->]; by split_and!].
Qed.

Section epoch.
Context (sha256 blake3 keccak256 : Bytes → Bytes) (p256 : Bytes → Bytes → Bytes → bool) `{B : BorshFormat}
  (iter : gmap Z DerivedAccountState → list (Z * DerivedAccountState)).

(** The second of two consecutive blocks continues the first. *)
Record continues (b b' : StateTransitionGuestInput) : Prop := {
  ct_genesis : bw_genesis_hash (gi_witness b') = bw_genesis_hash (gi_witness b);
  ct_header : bw_previous_header (gi_witness b') = Some (bw_header (gi_witness b));
  ct_height : pi_new_height (gi_public_inputs b') = hd_height (bw_header (gi_witness b)) + 1;
  ct_state : pi_previous_state_root (gi_public_inputs b') = hd_state_root (bw_header (gi_witness b));
}.

Definition verified (b : StateTransitionGuestInput) (h : Bytes) : Prop := verify_state_transition_input sha256 blake3 keccak256 p256 iter b = Ok h.

(** What the accumulator knows after the blocks [bs], whose statement hashes are [hs]. *)
Record accumulated (bs : list StateTransitionGuestInput) (hs : list Bytes) (a : EpochTransitionAccumulator) : Prop := {
  ac_count : ea_block_count a = Z.of_nat (length bs);
  ac_bound : Z.of_nat (length bs) ≤ MAX_EPOCH_BLOCKS;
  ac_verified : Forall2 verified bs hs;
  ac_chain : ∀ i b b', bs !! i = Some b → bs !! S i = Some b' → continues b b';
  ac_start : (ea_start_height a, ea_start_state_root a, ea_genesis_hash a) =
    match head bs with
    | Some b => (Some (pi_previous_height (gi_public_inputs b)), Some (pi_previous_state_root (gi_public_inputs b)), Some (bw_genesis_hash (gi_witness b)))
    | None => (None, None, None)
    end;
  ac_genesis : ∀ b, b ∈ bs → ea_genesis_hash a = Some (bw_genesis_hash (gi_witness b));
  ac_last : ea_previous_header a = bw_header ∘ gi_witness <$> last bs;
  ac_end : ∀ b, last bs = Some b → ea_end_height a = pi_new_height (gi_public_inputs b) ∧ ea_end_state_root a = pi_new_state_root (gi_public_inputs b) ∧
    ea_deposit_root a = pi_deposit_root (gi_public_inputs b) ∧ ea_deposit_count a = pi_deposit_count (gi_public_inputs b);
  ac_blocks : ea_blocks_commitment a = foldl (epoch_commitment_fold blake3 EPOCH_BLOCKS_FOLD_DOMAIN) (epoch_commitment_seed blake3 EPOCH_BLOCKS_DOMAIN) hs;
  ac_da : ea_epoch_da_commitment a = foldl (epoch_commitment_fold blake3 EPOCH_DA_FOLD_DOMAIN) (epoch_commitment_seed blake3 EPOCH_DA_DOMAIN)
    (pi_da_commitment ∘ gi_public_inputs <$> bs);
}.

Lemma accumulated_new : accumulated [] [] (EpochTransitionAccumulator_new blake3).
Proof. split; try done; intros; by set_solver. Qed.

Lemma check_continues_Ok a b g : check_continues a b g = Ok () →
  ∃ prev, ea_previous_header a = Some prev ∧ bw_genesis_hash (gi_witness b) = g ∧ pi_new_height (gi_public_inputs b) = hd_height prev + 1 ∧
    pi_previous_state_root (gi_public_inputs b) = hd_state_root prev ∧ bw_previous_header (gi_witness b) = Some prev.
Proof.
  unfold check_continues. cbn zeta. rewrite reject_then, neq_false. intros [Hg (prev & Hp & H)%obind_Ok]. exists prev.
  destruct (ea_previous_header a); [|done]. injection Hp as ->. apply ok_or_then in H as (n & [-> _]%chk_Some & H).
  rewrite reject_then, negb_false_iff, Z.eqb_eq, reject_then, neq_false in H. destruct H as (Hn & Hs & H).
  destruct (bw_previous_header (gi_witness b)) as [actual|]; [|done]. apply reject_last in H. rewrite negb_false_iff, headers_equal_true in H. subst. done.
Qed.

Lemma push_accumulates bs hs a b a' : accumulated bs hs a → push sha256 blake3 keccak256 p256 iter a b = Ok a' → ∃ h, accumulated (bs ++ [b]) (hs ++ [h]) a'.
Proof.
  intros Ha. unfold push. cbn zeta. rewrite reject_then. intros [Hc H]. rewrite Z.geb_leb, Z.leb_gt in Hc. apply obind_Ok in H as (h & Hh & H). apply map_err_Ok in Hh.
  apply obind_Ok in H as ([[sh sr] g] & Hg & H). apply obind_Ok in H as (n & [-> _]%arith_Ok & [= <-]). exists h. pose proof (ac_count _ _ _ Ha) as Hcount.
  assert ((sh, sr, g) = match head (bs ++ [b]) with
    | Some b => (Some (pi_previous_height (gi_public_inputs b)), Some (pi_previous_state_root (gi_public_inputs b)), Some (bw_genesis_hash (gi_witness b)))
    | None => (None, None, None) end ∧ (∀ x, x ∈ bs ++ [b] → g = Some (bw_genesis_hash (gi_witness x))) ∧ (∀ x, last bs = Some x → continues x b)) as (Hstart & Hgen & Hlast).
  { pose proof (ac_start _ _ _ Ha) as Hst. destruct bs as [|b0 bs]; cbn [head] in Hst.
    - injection Hst as Hs1 Hs2 Hs3. rewrite Hs3 in Hg. injection Hg as <- <- <-. split_and!; [done| |done]. intros x. cbn. rewrite list_elem_of_singleton. by intros ->.
    - injection Hst as Hs1 Hs2 Hs3. rewrite Hs3 in Hg. apply unit_then in Hg as [(prev & Hp & Hgh & Hn & Hs & Hpr)%check_continues_Ok [= <- <- <-]].
      split_and!; [by rewrite Hs1, Hs2|..].
      + intros x [Hx| ->%list_elem_of_singleton]%elem_of_app; [by rewrite <- Hs3; apply (ac_genesis _ _ _ Ha)|by rewrite Hgh].
      + intros x Hx. pose proof (ac_last _ _ _ Ha) as Hl. rewrite Hx, Hp in Hl. injection Hl as ->. split; [|done..].
        rewrite Hgh. assert (x ∈ b0 :: bs) as Hin by (by apply last_Some_elem_of). pose proof (ac_genesis _ _ _ Ha x Hin). congruence. }
  split; cbn [ea_block_count ea_start_height ea_start_state_root ea_genesis_hash ea_previous_header ea_end_height ea_end_state_root ea_deposit_root ea_deposit_count ea_blocks_commitment ea_epoch_da_commitment].
  - rewrite length_app. cbn [length]. lia.
  - rewrite length_app. cbn [length]. lia.
  - apply Forall2_app; [apply Ha|by constructor].
  - intros i x y Hx Hy. destruct (decide (S i = length bs)) as [E|E].
    + rewrite <- (Nat.add_0_r (length bs)) in E. rewrite E, lookup_app_r in Hy by lia. rewrite Nat.add_0_r, Nat.sub_diag in Hy. injection Hy as <-.
      rewrite lookup_app_l in Hx by lia. apply Hlast. rewrite last_lookup. by replace (pred (length bs)) with i by lia.
    + assert (S i < length bs)%nat as Hi. { apply lookup_lt_Some in Hy. rewrite length_app in Hy. cbn in Hy. lia. }
      rewrite lookup_app_l in Hx, Hy by lia. by apply (ac_chain _ _ _ Ha i).
  - done.
  - done.
  - by rewrite last_snoc.
  - intros x. rewrite last_snoc. by intros [= <-].
  - rewrite foldl_app. cbn. by rewrite (ac_blocks _ _ _ Ha).
  - rewrite fmap_app, foldl_app. cbn. by rewrite (ac_da _ _ _ Ha).
Qed.

Lemma push_complete bs hs a b h : accumulated bs hs a → verified b h → Z.of_nat (length bs) < MAX_EPOCH_BLOCKS → u64 (pi_new_height (gi_public_inputs b)) →
  (∀ x, last bs = Some x → continues x b) → ∃ a', push sha256 blake3 keccak256 p256 iter a b = Ok a'.
Proof.
  intros Ha Hv Hn Hu Hc. unfold MAX_EPOCH_BLOCKS in *. unfold push. cbn zeta. rewrite (ac_count _ _ _ Ha). replace (_ >=? _) with false by (symmetry; rewrite Z.geb_leb; apply Z.leb_gt; unfold MAX_EPOCH_BLOCKS; lia).
  cbn [reject_if]. rewrite Ok_then. unfold verified in Hv. rewrite Hv. cbn [map_err]. rewrite Ok_then, arith_in by int_lia.
  pose proof (ac_start _ _ _ Ha) as Hst. pose proof (ac_last _ _ _ Ha) as Hl. destruct (last bs) as [x|] eqn:El.
  - destruct bs as [|b0 bs]; [done|]. cbn [head] in Hst. injection Hst as _ _ Hg. pose proof Hg as Hg0.
    rewrite (ac_genesis _ _ _ Ha x) in Hg by (by apply last_Some_elem_of). injection Hg as Hg. rewrite Hg0. destruct (Hc x eq_refl) as [H1 H2 H3 H4].
    enough (check_continues a b (bw_genesis_hash (gi_witness b0)) = Ok ()) as -> by (rewrite Ok_then; by eexists).
    unfold check_continues. cbn zeta. unfold u64 in Hu. cbn [fmap option_fmap option_map compose] in Hl. rewrite Hl. cbn [expect]. rewrite reject_then, neq_false, Ok_then, ok_or_then. split; [congruence|].
    exists (pi_new_height (gi_public_inputs b)). rewrite <- H3. split; [apply chk_in; change (int_min U64) with 0; lia|].
    rewrite !reject_then, negb_false_iff, Z.eqb_eq, neq_false, H2, reject_last, negb_false_iff, headers_equal_true. done.
  - apply last_None in El as ->. cbn [head] in Hst. injection Hst as _ _ Hg. rewrite Hg, Ok_then. by eexists.
Qed.

(** What an epoch of blocks with statement hashes [hs] claims. *)
Definition epoch_statement (bs : list StateTransitionGuestInput) (hs : list Bytes) : option EpochTransitionPublicInputs :=
  first ← gi_public_inputs <$> head bs;
  final ← gi_public_inputs <$> last bs;
  Some (mkEpochTransitionPublicInputs (pi_previous_height first) (pi_new_height final) (pi_previous_state_root first) (pi_new_state_root final) (Z.of_nat (length bs))
    (foldl (epoch_commitment_fold blake3 EPOCH_BLOCKS_FOLD_DOMAIN) (epoch_commitment_seed blake3 EPOCH_BLOCKS_DOMAIN) hs)
    (foldl (epoch_commitment_fold blake3 EPOCH_DA_FOLD_DOMAIN) (epoch_commitment_seed blake3 EPOCH_DA_DOMAIN) (pi_da_commitment ∘ gi_public_inputs <$> bs))
    (pi_deposit_root final) (pi_deposit_count final)).

Lemma finish_accumulated bs hs a : accumulated bs hs a → finish a = ok_or (epoch_statement bs hs) Epoch.EmptyEpoch.
Proof.
  intros [Hn _ _ _ Hst _ _ He Hb Hd]. unfold finish, epoch_statement. destruct bs as [|b bs]; [by injection Hst as -> -> _|]. cbn [head] in Hst. injection Hst as -> -> _.
  destruct (last (b :: bs)) as [x|] eqn:El; [|by apply last_None in El]. destruct (He x eq_refl) as (-> & -> & -> & ->). rewrite Hn, Hb, Hd. done.
Qed.

Lemma pushes_accumulate bs a : ofold (push sha256 blake3 keccak256 p256 iter) (EpochTransitionAccumulator_new blake3) bs = Ok a → ∃ hs, accumulated bs hs a.
Proof.
  revert a. induction bs as [|b bs IH] using rev_ind; intros a; [intros [= <-]; exists []; apply accumulated_new|].
  rewrite ofold_app. intros (a' & (hs & Ha)%IH & H)%obind_Ok. cbn [ofold] in H. apply obind_Ok in H as (a'' & H & [= <-]).
  apply (push_accumulates _ _ _ _ _ Ha) in H as [h H]. by exists (hs ++ [h]).
Qed.

Definition chained (bs : list StateTransitionGuestInput) : Prop := ∀ i b b', bs !! i = Some b → bs !! S i = Some b' → continues b b'.
Lemma pushes_complete bs hs : Forall (λ b, u64 (pi_new_height (gi_public_inputs b))) bs → Forall2 verified bs hs → chained bs → Z.of_nat (length bs) ≤ MAX_EPOCH_BLOCKS →
  ∃ a, ofold (push sha256 blake3 keccak256 p256 iter) (EpochTransitionAccumulator_new blake3) bs = Ok a ∧ accumulated bs hs a.
Proof.
  revert hs. induction bs as [|b bs IH] using rev_ind; intros hs Hu Hv Hc Hn; [apply Forall2_nil_inv_l in Hv as ->; eexists; split; [done|apply accumulated_new]|].
  apply Forall2_app_inv_l in Hv as (hs1 & hs2 & Hv & Hb & ->). apply Forall2_cons_inv_l in Hb as (h & hs3 & Hb & Hb3 & ->). apply Forall2_nil_inv_l in Hb3 as ->.
  apply Forall_app in Hu as [Hu Hub]. apply Forall_cons in Hub as [Hub _]. rewrite length_app in Hn. cbn [length] in Hn.
  destruct (IH hs1 Hu Hv) as (a & Ha & Hacc); [|lia|].
  { intros i x y Hx Hy. apply (Hc i); by apply lookup_app_l_Some. }
  destruct (push_complete bs hs1 a b h Hacc Hb) as [a' Hp]; [lia|done| |].
  { intros x Hx. rewrite last_lookup in Hx. pose proof (lookup_lt_Some _ _ _ Hx). apply (Hc (pred (length bs))); [by apply lookup_app_l_Some|].
    replace (S (pred (length bs))) with (length bs) by lia. rewrite lookup_app_r by lia. by rewrite Nat.sub_diag. }
  exists a'. rewrite ofold_app, Ha, Ok_then. cbn [ofold]. rewrite Hp. split; [done|]. destruct (push_accumulates _ _ _ _ _ Hacc Hp) as [h' Hacc'].
  pose proof (ac_verified _ _ _ Hacc') as Hv'. apply Forall2_app_inv in Hv' as [_ Hb']; [|by eapply Forall2_length]. apply Forall2_cons in Hb' as [Hb' _]. unfold verified in Hb, Hb'.
  rewrite Hb in Hb'. injection Hb' as <-. done.
Qed.
End epoch.
