(* ===== verification/EpochExact.v ===== *)
(** * EpochExact: exactly which transitions and epochs are accepted *)
From S2P Require Import Prelude Types Order MmConstraint Account Digest Snapshots Finalize Witness Sidecar SettlementVerifier MatchVerifier OrdersVerifier L1Protocol DepositFrontier AccountKeys WebAuthn Signing ClientAction KeyTransition WitnessBytes WitnessDecode WitnessTyping BridgeSidecar SidecarMarkets StateCommitment StateBinding BlockChain Mmr QmdbProof ZkTransition StatementExact DepositCheckpoint TransitionExact EpochTransition TransitionExample EpochProofs.

(** C7: a state-transition input is accepted, with the hash of its public inputs,
    exactly when the public inputs are computed from the witness, the header
    commits to the events and extends its predecessor, the two state roots open to
    the witness's states at distinct keys linked in one cycle, and the match,
    system, settlement, order and sidecar layers accept; the separate deposit
    checkpoint asks for nothing more. *)
Theorem transition_statement_exact sha256 blake3 keccak256 p256 {B : BorshFormat} iter input h :
  0 ≤ da_pre_count (bw_deposit_accumulator (gi_witness input)) →
  verify_state_transition_input sha256 blake3 keccak256 p256 iter input = Ok h ↔
  transition_holds sha256 blake3 keccak256 p256 iter input ∧ h = state_transition_public_input_hash keccak256 (gi_public_inputs input).
Proof. apply transition_exact. Qed.
Lemma transition_statement_exact_witness : transition_holds ex_digest ex_digest ex_digest (λ _ _ _, true) map_to_list ex_input1.
Proof.
  apply (transition_statement_exact ex_digest ex_digest ex_digest (λ _ _ _, true) map_to_list ex_input1 (state_transition_public_input_hash ex_digest (gi_public_inputs ex_input1))).
  - vm_compute. discriminate.
  - exact ex_input1_ok.
Defined.

Section heights.
Context (sha256 blake3 keccak256 : Bytes → Bytes) (p256 : Bytes → Bytes → Bytes → bool) `{B : BorshFormat}
  (iter : gmap Z DerivedAccountState → list (Z * DerivedAccountState)).

Lemma verified_height b h : verified sha256 blake3 keccak256 p256 iter b h → pi_new_height (gi_public_inputs b) = hd_height (bw_header (gi_witness b)).
Proof.
  unfold verified, verify_state_transition_input. cbn zeta. rewrite unit_then, binding_exact. intros ((-> & _) & _).
  by destruct (public_roots blake3 (gi_witness b) (gi_da_provider_refs b)) as (_ & ? & _).
Qed.

Lemma heights_step bs hs b0 : Forall2 (verified sha256 blake3 keccak256 p256 iter) bs hs → chained bs → head bs = Some b0 →
  ∀ i b, bs !! i = Some b → pi_new_height (gi_public_inputs b) = pi_new_height (gi_public_inputs b0) + Z.of_nat i.
Proof.
  intros Hv Hc Hh i. induction i as [|i IH]; intros b Hb.
  - rewrite head_lookup in Hh. assert (b = b0) as -> by congruence. lia.
  - destruct (lookup_lt_is_Some_2 bs i) as [x Hx]; [apply lookup_lt_Some in Hb; lia|]. rewrite (ct_height _ _ (Hc i x b Hx Hb)).
    destruct (Forall2_lookup_l _ _ _ _ _ Hv Hx) as (h & _ & Hxv). rewrite <- (verified_height _ _ Hxv), (IH x Hx). lia.
Qed.

Lemma epoch_heights bs hs claimed : Forall2 (verified sha256 blake3 keccak256 p256 iter) bs hs → chained bs → epoch_statement blake3 bs hs = Some claimed →
  ep_end_height claimed = ep_start_height claimed + Z.of_nat (length bs) ↔
  ∀ i b, bs !! i = Some b → pi_new_height (gi_public_inputs b) = ep_start_height claimed + Z.of_nat i + 1.
Proof.
  unfold epoch_statement. intros Hv Hc. destruct (head bs) as [b0|] eqn:Hh; [|done]. destruct (last bs) as [x|] eqn:Hl; [|done]. intros [= <-]. cbn [ep_end_height ep_start_height].
  rewrite last_lookup in Hl. pose proof (lookup_lt_Some _ _ _ Hl) as Hn. pose proof (heights_step _ _ _ Hv Hc Hh) as Hs. pose proof (Hs _ _ Hl) as Hx. split.
  - intros He i b Hb. rewrite (Hs i b Hb). lia.
  - intros H. rewrite (H _ _ Hl). lia.
Qed.
End heights.

(** C8: an epoch is accepted exactly when it has between one and 4096 blocks,
    each accepted on its own, each continuing the one before it (same genesis,
    its header as previous header, its state root as starting root), their heights
    run without gap from the claimed start, and the claim is the one computed from
    the first and last block and the folded commitments. *)
Theorem epoch_accepts_exactly sha256 blake3 keccak256 p256 {B : BorshFormat} iter claimed blocks h :
  Forall (λ b, u64 (pi_new_height (gi_public_inputs b))) blocks →
  verify_epoch_transition_inputs sha256 blake3 keccak256 p256 iter claimed blocks = Ok h ↔
  h = epoch_transition_public_input_hash keccak256 claimed ∧ (1 ≤ length blocks ≤ 4096)%nat ∧ chained blocks ∧
  (∀ i b, blocks !! i = Some b → pi_new_height (gi_public_inputs b) = ep_start_height claimed + Z.of_nat i + 1) ∧
  ∃ hs, Forall2 (λ b h, verify_state_transition_input sha256 blake3 keccak256 p256 iter b = Ok h) blocks hs ∧ epoch_statement blake3 blocks hs = Some claimed.
Proof.
  intros Hu. unfold verify_epoch_transition_inputs, finish_and_verify, EpochTransitionHeader_validate, EpochTransitionHeader_new. cbn [eh_format_version eh_public_inputs]. split.
  - intros (a & (hs & Ha)%pushes_accumulate & H)%obind_Ok. rewrite unit_then, !reject_then, ok_or_then, (finish_accumulated _ _ _ _ _ _ _ _ Ha) in H.
    destruct H as ((_ & Hn0 & Hn & end_ & [-> _]%chk_Some & Hend) & H). rewrite ok_or_then in H. destruct H as (computed & Hs & H). rewrite reject_then in H. destruct H as [Heq%bool_decide_eq_false [= <-]].
    apply dec_stable in Heq as ->. rewrite reject_last, negb_false_iff, Z.eqb_eq in Hend. assert (ep_block_count claimed = Z.of_nat (length blocks)) as Hc.
    { unfold epoch_statement in Hs. destruct (head blocks), (last blocks); try done. by injection Hs as <-. }
    rewrite Hc in *. apply Z.eqb_neq in Hn0. rewrite Z.gtb_ltb, Z.ltb_ge in Hn. unfold MAX_EPOCH_BLOCKS in Hn.
    pose proof (ac_chain _ _ _ _ _ _ _ _ Ha) as Hch. pose proof (ac_verified _ _ _ _ _ _ _ _ Ha) as Hv.
    split_and!; [done|lia|lia|done| |by exists hs]. by apply (epoch_heights _ _ _ _ _ _ _ _ Hv Hch Hs).
  - intros (-> & Hl & Hch & Hh & hs & Hv & Hs). destruct (pushes_complete _ _ _ _ _ _ _ Hu Hv Hch) as (a & -> & Ha); [unfold MAX_EPOCH_BLOCKS; lia|].
    rewrite Ok_then, unit_then, !reject_then, ok_or_then, (finish_accumulated _ _ _ _ _ _ _ _ Ha), Hs. cbn [ok_or]. rewrite Ok_then, reject_then.
    pose proof (proj2 (epoch_heights _ _ _ _ _ _ _ _ Hv Hch Hs) Hh) as Hend. assert (ep_block_count claimed = Z.of_nat (length blocks)) as Hc.
    { unfold epoch_statement in Hs. destruct (head blocks), (last blocks); try done. by injection Hs as <-. }
    rewrite Hc, bool_decide_eq_false. split_and!; [done|apply Z.eqb_neq; lia|rewrite Z.gtb_ltb; apply Z.ltb_ge; unfold MAX_EPOCH_BLOCKS; lia| |by intros ?|done].
    exists (ep_end_height claimed). rewrite <- Hend. rewrite reject_last, negb_false_iff, Z.eqb_refl. split; [|done]. apply chk_in.
    assert (u64 (ep_end_height claimed)) as [? ?]; [|change (int_min U64) with 0; lia]. unfold epoch_statement in Hs. destruct (head blocks); [|done].
    destruct (last blocks) as [x|] eqn:El; [|done]. injection Hs as <-. exact (proj1 (Forall_forall _ _) Hu x (last_Some_elem_of _ _ El)).
Qed.
Lemma epoch_accepts_exactly_witness : chained [ex_input1; ex_input2] ∧ ep_block_count ex_claim = 2.
Proof.
  split; [|reflexivity].
  apply (epoch_accepts_exactly ex_digest ex_digest ex_digest (λ _ _ _, true) map_to_list ex_claim [ex_input1; ex_input2] (epoch_transition_public_input_hash ex_digest ex_claim)).
  - apply (bool_decide_unpack (Forall (λ b, 0 ≤ pi_new_height (gi_public_inputs b) ∧ pi_new_height (gi_public_inputs b) ≤ 18446744073709551615) [ex_input1; ex_input2])). vm_compute. exact I.
  - exact ex_epoch_ok.
Defined.
