(* ===== verification/QmdbBinding.v ===== *)
(** * QmdbBinding: a state root fixes the operation at each location

    Two accepted proofs for one root and one location prove the same operation,
    unless SHA-256 has a collision. *)
From S2P Require Import Prelude Types Account Digest Witness L1Protocol DepositFrontier AccountKeys WitnessBytes WitnessDecode WitnessTyping StateCommitment StateBinding BlockChain Mmr MmrProofs EventsRoot QmdbProof ZkTransition TransitionExample.


Definition digest (b : Bytes) : Prop := length b = 32%nat.

Section sha.
Context (sha256 : Bytes → Bytes) (sha256_length : ∀ b, length (sha256 b) = 32%nat).

(** ** One peak *)

(** Two reconstructions of the same location. *)
Record same_range (sc sc' : Scope) : Prop := {
  sr_start : sc_start sc' = sc_start sc;
  sr_end : sc_end sc' = sc_end sc;
  sr_start_chunk : sc_start_chunk sc' = sc_start_chunk sc;
  sr_active : forallb (λ b, b =? 0) (sc_chunk sc) = false ∧ forallb (λ b, b =? 0) (sc_chunk sc') = false;
  sr_chunk : digest (sc_chunk sc) ∧ digest (sc_chunk sc');
  sr_siblings : Forall digest (sc_siblings sc) ∧ Forall digest (sc_siblings sc');
}.
(** Neither has used its operation yet, or both have and it is the same one. *)
Definition aligned (op op' : Bytes) (r r' : Reconstruction) : Prop :=
  rc_element r = Some op ∧ rc_element r' = Some op' ∨ rc_element r = None ∧ rc_element r' = None ∧ op = op'.

Lemma next_sibling_SOk sc r s d : next_sibling sc r = SOk s d → rc_element s = rc_element r ∧ d ∈ sc_siblings sc.
Proof.
  unfold next_sibling. rewrite sget_bind. intros (x & Hx & H)%slift_bind. destruct (sc_siblings sc !! rc_sibling_cursor r) eqn:E; [|done]. injection Hx as ->.
  injection H as <- <-. split; [done|]. by eapply list_elem_of_lookup_2.
Qed.
Lemma take_element_SOk pos r s d : take_element sha256 pos r = SOk s d → ∃ op, rc_element r = Some op ∧ rc_element s = None ∧ d = mmr_leaf_digest sha256 pos op.
Proof.
  unfold take_element. rewrite sget_bind. intros (x & Hx & H)%slift_bind. destruct (rc_element r) eqn:E; [|done]. injection Hx as ->. injection H as <- <-. by eexists.
Qed.
Lemma grafted_length pos h l r c chunk : digest (grafted_node_digest sha256 pos h l r c chunk).
Proof. unfold grafted_node_digest, digest. cbn zeta. destruct (negb _); [apply sha256_length|]. destruct (mmr_leftmost_leaf _ _); [|apply sha256_length]. destruct (_ || _); apply sha256_length. Qed.
Lemma reconstruct_digest sc h pos ls r s d : Forall digest (sc_siblings sc) → reconstruct_peak sha256 sc h pos ls r = SOk s d → digest d.
Proof.
  intros HF. destruct h as [|h]; cbn [reconstruct_peak]; intros (w & _ & H)%slift_bind; apply slift_bind in H as (e & _ & H); destruct (_ || _).
  - apply next_sibling_SOk in H as [_ H]. by apply (proj1 (Forall_forall _ _) HF).
  - apply take_element_SOk in H as (op & _ & _ & ->). apply sha256_length.
  - apply next_sibling_SOk in H as [_ H]. by apply (proj1 (Forall_forall _ _) HF).
  - apply slift_bind in H as (? & _ & H). apply slift_bind in H as (? & _ & H). apply slift_bind in H as (? & _ & H). apply slift_bind in H as (? & _ & H).
    apply sbind_SOk_inv in H as (? & ? & _ & H). apply sbind_SOk_inv in H as (? & ? & _ & H). injection H as _ <-. apply grafted_length.
Qed.
Lemma node_binding pos l r l' r' : digest l → digest l' → mmr_node_digest sha256 pos l r = mmr_node_digest sha256 pos l' r' → (l = l' ∧ r = r') ∨ collision sha256.
Proof.
  intros Hl Hl' He. apply (sha_inj sha256) in He as [He|?]; [|by right]. apply app_inv_head in He. apply field_inj in He as [-> ->]; [by left|congruence].
Qed.
Lemma grafted_binding pos h l r l' r' c chunk chunk' : digest l → digest l' → digest chunk → digest chunk' →
  forallb (λ b, b =? 0) chunk = false → forallb (λ b, b =? 0) chunk' = false →
  grafted_node_digest sha256 pos h l r c chunk = grafted_node_digest sha256 pos h l' r' c chunk' → (l = l' ∧ r = r') ∨ collision sha256.
Proof.
  intros Hl Hl' Hc Hc' Hz Hz'. unfold grafted_node_digest. cbn zeta. rewrite Hz, Hz'. destruct (negb _); [by apply node_binding|].
  destruct (mmr_leftmost_leaf _ _) as [loc|]; [|by apply node_binding]. destruct (negb _ || false); [by apply node_binding|]. intros He.
  apply (sha_inj sha256) in He as [He|?]; [|by right]. apply field_inj in He as [_ He]; [|congruence]. by apply (node_binding pos).
Qed.

Lemma reconstruct_binding sc sc' op op' : same_range sc sc' → ∀ h pos ls r r' s s' d, aligned op op' r r' →
  reconstruct_peak sha256 sc h pos ls r = SOk s d → reconstruct_peak sha256 sc' h pos ls r' = SOk s' d → aligned op op' s s' ∨ collision sha256.
Proof.
  intros [Hst Hen Hsc [Ha Ha'] [Hc Hc'] [HF HF']] h. induction h as [|h IH]; intros pos ls r r' s s' d Hal; cbn [reconstruct_peak].
  - intros (w & Hw & H)%slift_bind (w' & Hw' & H')%slift_bind. rewrite Hw in Hw'. injection Hw' as <-. apply slift_bind in H as (e & He & H). apply slift_bind in H' as (e' & He' & H').
    rewrite He in He'. injection He' as <-. rewrite Hst, Hen in H'. destruct (_ || _).
    + apply next_sibling_SOk in H as [Hs _]. apply next_sibling_SOk in H' as [Hs' _]. left. unfold aligned. by rewrite Hs, Hs'.
    + apply take_element_SOk in H as (x & Hx & Hs & ->). apply take_element_SOk in H' as (x' & Hx' & Hs' & Hd). unfold mmr_leaf_digest in Hd.
      apply (sha_inj sha256) in Hd as [Hd|?]; [|by right]. apply app_inv_head in Hd. left. right. split_and!; [done..|]. unfold aligned in Hal. rewrite Hx, Hx' in Hal.
      destruct Hal as [[[= ->] [= ->]]|(? & _)]; [done|done].
  - intros (w & Hw & H)%slift_bind (w' & Hw' & H')%slift_bind. rewrite Hw in Hw'. injection Hw' as <-. apply slift_bind in H as (e & He & H). apply slift_bind in H' as (e' & He' & H').
    rewrite He in He'. injection He' as <-. rewrite Hst, Hen in H'. destruct (_ || _).
    + apply next_sibling_SOk in H as [Hs _]. apply next_sibling_SOk in H' as [Hs' _]. left. unfold aligned. by rewrite Hs, Hs'.
    + apply slift_bind in H as (lp & Hlp & H). apply slift_bind in H as (rp & Hrp & H). apply slift_bind in H as (hf & Hhf & H). apply slift_bind in H as (mid & Hm & H).
      rewrite Hlp in H'. apply slift_bind in H' as (? & [= <-] & H'). rewrite Hrp in H'. apply slift_bind in H' as (? & [= <-] & H').
      rewrite Hhf in H'. apply slift_bind in H' as (? & [= <-] & H'). rewrite Hm in H'. apply slift_bind in H' as (? & [= <-] & H').
      apply sbind_SOk_inv in H as (s1 & l & Hl & H). apply sbind_SOk_inv in H as (s2 & rr & Hr & [= <- <-]).
      apply sbind_SOk_inv in H' as (s1' & l' & Hl' & H'). apply sbind_SOk_inv in H' as (s2' & rr' & Hr' & [= <- Hd]).
      rewrite Hsc in Hd. symmetry in Hd. apply grafted_binding in Hd as [[<- <-]|?]; [|by right|exact (reconstruct_digest _ _ _ _ _ _ _ HF Hl)|exact (reconstruct_digest _ _ _ _ _ _ _ HF' Hl')|done..].
      destruct (IH _ _ _ _ _ _ _ Hal Hl Hl') as [Hal1|?]; [|by right]. exact (IH _ _ _ _ _ _ _ Hal1 Hr Hr').
Qed.

Lemma ranges_binding sc sc' op op' : same_range sc sc' → ∀ (peaks : list (Z * Z * Z)) r r' s s' ds, aligned op op' r r' →
  smap (λ '(pos, height, leaf_start), reconstruct_peak sha256 sc (Z.to_nat height) pos leaf_start) peaks r = SOk s ds →
  smap (λ '(pos, height, leaf_start), reconstruct_peak sha256 sc' (Z.to_nat height) pos leaf_start) peaks r' = SOk s' ds → aligned op op' s s' ∨ collision sha256.
Proof.
  intros Hsr peaks. induction peaks as [|[[pos h] ls] peaks IH]; intros r r' s s' ds Hal; cbn [smap].
  - intros [= <- <-] [= <-]. by left.
  - intros (s1 & d & Hd & H)%sbind_SOk_inv (s1' & d' & Hd' & H')%sbind_SOk_inv. apply sbind_SOk_inv in H as (s2 & k & Hk & [= <- <-]).
    apply sbind_SOk_inv in H' as (s2' & k' & Hk' & [= <- <- <-]). destruct (reconstruct_binding _ _ _ _ Hsr _ _ _ _ _ _ _ _ Hal Hd Hd') as [Hal1|?]; [|by right].
    exact (IH _ _ _ _ _ Hal1 Hk Hk').
Qed.
Lemma ranges_digests sc (peaks : list (Z * Z * Z)) r s ds : Forall digest (sc_siblings sc) →
  smap (λ '(pos, height, leaf_start), reconstruct_peak sha256 sc (Z.to_nat height) pos leaf_start) peaks r = SOk s ds → length ds = length peaks ∧ Forall digest ds.
Proof.
  intros HF. revert r s ds. induction peaks as [|[[pos h] ls] peaks IH]; intros r s ds; cbn [smap]; [intros [= _ <-]; done|].
  intros (s1 & d & Hd & H)%sbind_SOk_inv. apply sbind_SOk_inv in H as (s2 & k & Hk & [= <- <-]). apply IH in Hk as [Hl Hk].
  split; [cbn; lia|]. constructor; [by eapply reconstruct_digest|done].
Qed.

(** ** The bagged peaks *)

Lemma fold_inactive_shape n : ∀ acc rest a r, digest acc → Forall digest rest → fold_inactive sha256 n acc rest = Ok (a, r) → digest a ∧ Forall digest r ∧ (length r + n = length rest)%nat.
Proof.
  induction n as [|n IH]; intros acc rest a r Ha HF; cbn [fold_inactive]; [intros [= <- <-]; split_and!; [done..|lia]|].
  destruct rest as [|p rest]; [done|]. apply Forall_cons in HF as [_ HF]. intros H%IH; [|apply sha256_length|done]. cbn [length]. destruct_and!. split_and!; [done..|lia].
Qed.
Lemma fold_inactive_binding n : ∀ acc acc' rest rest' a r, digest acc → digest acc' → fold_inactive sha256 n acc rest = Ok (a, r) → fold_inactive sha256 n acc' rest' = Ok (a, r) →
  acc :: rest = acc' :: rest' ∨ collision sha256.
Proof.
  induction n as [|n IH]; intros acc acc' rest rest' a r Ha Ha'; cbn [fold_inactive]; [intros [= <- <-] [= <- <-]; by left|].
  destruct rest as [|p rest], rest' as [|p' rest']; try done. intros H H'. destruct (IH _ _ _ _ _ _ (sha256_length _) (sha256_length _) H H') as [[= He ->]|?]; [|by right].
  apply (sha_inj sha256) in He as [He|?]; [|by right]. apply field_inj in He as [-> ->]; [by left|congruence].
Qed.

Lemma mmr_root_Ok leaves n com ds root : ds ≠ [] → Forall digest ds → mmr_root sha256 leaves n com ds = Ok root → ∃ first rest acc tail folded,
  ds = first :: rest ∧ fold_inactive sha256 (Z.to_nat (sat U64 (n - 1))) first rest = Ok (acc, tail) ∧ fold_active sha256 (acc :: tail) = Some folded ∧
  digest folded ∧ root = sha256 (be_bytes 8 leaves ++ (if com =? 0 then [] else be_bytes 8 com) ++ folded).
Proof.
  intros Hne HF. destruct ds as [|first rest]; [done|]. apply Forall_cons in HF as [Hf HF]. unfold mmr_root. destruct (_ >? _); [done|].
  intros ([acc tail] & Hi & H)%obind_Ok. apply obind_Ok in H as (folded & Hfo & [= <-]). unfold or_none in Hfo. destruct (fold_active _ _) as [x|] eqn:Ex; [|done]. injection Hfo as ->.
  apply fold_inactive_shape in Hi as Hsh; [|done..]. destruct Hsh as (Hacc & Htl & _). exists first, rest, acc, tail, folded.
  assert (digest folded) by (eapply (fold_active_length sha256 sha256_length); [|done]; by constructor). split_and!; try done. by destruct (com =? 0).
Qed.
Lemma mmr_root_digest leaves n com ds root : ds ≠ [] → Forall digest ds → mmr_root sha256 leaves n com ds = Ok root → digest root.
Proof. intros Hne HF H. apply mmr_root_Ok in H as (? & ? & ? & ? & ? & _ & _ & _ & _ & ->); [|done..]. apply sha256_length. Qed.

Lemma be8_length z : length (be_bytes 8 z) = 8%nat.
Proof. apply be_bytes_length. Qed.
(** One root has one leaf count and one count of inactive peaks. *)
Lemma mmr_root_counts leaves leaves' n n' com com' ds ds' root : u64 leaves → u64 leaves' → u64 com → u64 com' → ds ≠ [] → ds' ≠ [] → Forall digest ds → Forall digest ds' →
  mmr_root sha256 leaves n com ds = Ok root → mmr_root sha256 leaves' n' com' ds' = Ok root → (leaves = leaves' ∧ com = com') ∨ collision sha256.
Proof.
  intros Hu Hu' Hc Hc' Hne Hne' HF HF' H H'. apply mmr_root_Ok in H as (_ & _ & _ & _ & x & _ & _ & _ & Hx & ->); [|done..].
  apply mmr_root_Ok in H' as (_ & _ & _ & _ & x' & _ & _ & _ & Hx' & He); [|done..]. unfold digest in Hx, Hx'. apply (sha_inj sha256) in He as [He|?]; [|by right].
  apply field_inj in He as [Hl He]; [|by rewrite !be8_length]. apply be_u64_inj in Hl as ->; [|done..]. left. split; [done|].
  pose proof (f_equal length He) as Hlen. rewrite !length_app, Hx, Hx' in Hlen.
  destruct (com =? 0) eqn:Ec, (com' =? 0) eqn:Ec'; rewrite ?be8_length in Hlen; cbn [length] in Hlen; try lia.
  apply field_inj in He as [He _]; [|by rewrite !be8_length]. by apply be_u64_inj in He.
Qed.
Lemma mmr_root_peaks leaves n com ds ds' root : length ds = length ds' → ds ≠ [] → ds' ≠ [] → Forall digest ds → Forall digest ds' →
  mmr_root sha256 leaves n com ds = Ok root → mmr_root sha256 leaves n com ds' = Ok root → ds = ds' ∨ collision sha256.
Proof.
  intros Hl Hne Hne' HF HF' H H'. apply mmr_root_Ok in H as (f & r & a & t & x & -> & Hi & Hf & _ & ->); [|done..].
  apply mmr_root_Ok in H' as (f' & r' & a' & t' & x' & -> & Hi' & Hf' & _ & He); [|done..]. apply (sha_inj sha256) in He as [He|?]; [|by right].
  apply app_inv_head in He. apply app_inv_head in He. subst x'. apply Forall_cons in HF as [Hd HF]. apply Forall_cons in HF' as [Hd' HF']. cbn [length] in Hl.
  pose proof (fold_inactive_shape _ _ _ _ _ Hd HF Hi) as (Ha & Ht & Hlt). pose proof (fold_inactive_shape _ _ _ _ _ Hd' HF' Hi') as (Ha' & Ht' & Hlt').
  destruct (fold_active_binding sha256 (a :: t) (a' :: t') x) as [[= <- <-]|?]; [cbn; lia|by constructor..|done|done| |by right].
  exact (fold_inactive_binding _ _ _ _ _ _ _ Hd Hd' Hi Hi').
Qed.

(** ** The whole reconstruction *)

Definition counts_nonneg (c : PeakCounts) : Prop := 0 ≤ pc_fold_prefix c ∧ 0 ≤ pc_prefix_active c ∧ 0 ≤ pc_after_inactive c ∧ 0 ≤ pc_suffix_active c.
Lemma classify_nonneg start_loc end_loc inactive peaks c : ofold (classify_peak start_loc end_loc inactive) PeakCounts_new peaks = Ok c → counts_nonneg c.
Proof.
  apply (ofold_inv (λ c _, counts_nonneg c)); [unfold counts_nonneg; cbn; lia|]. intros a [pos h] _ a' Ha (w & _ & H)%obind_Ok. apply obind_Ok in H as (e & _ & [= <-]).
  unfold counts_nonneg in *. destruct (e <=? start_loc), (pc_peak_count a <? inactive), (pc_leaf_cursor a >=? end_loc), (pc_peak_count a >=? inactive); cbn; lia.
Qed.
Definition siblings_start (c : PeakCounts) : Z := flag_count (pc_fold_prefix c) + pc_prefix_active c + pc_after_inactive c + flag_count (pc_suffix_active c).
(** The digests of the peaks, from the proof's and the reconstructed ones. *)
Definition all_peaks (c : PeakCounts) (ds range : list Bytes) : list Bytes :=
  slice ds 0 (flag_count (pc_fold_prefix c)) ++ slice ds (flag_count (pc_fold_prefix c)) (flag_count (pc_fold_prefix c) + pc_prefix_active c) ++ range ++
  slice ds (flag_count (pc_fold_prefix c) + pc_prefix_active c) (flag_count (pc_fold_prefix c) + pc_prefix_active c + pc_after_inactive c) ++
  slice ds (flag_count (pc_fold_prefix c) + pc_prefix_active c + pc_after_inactive c) (siblings_start c).
Definition fold_of (c : PeakCounts) (inactive : Z) : outcome unit Z :=
  if pc_fold_prefix c =? 0 then Ok inactive else n ← or_none (chk U64 (inactive - pc_fold_prefix c)); or_none (chk U64 (n + 1)).

Lemma slice_length ds a b : 0 ≤ a ≤ b → b ≤ Z.of_nat (length ds) → length (slice ds a b) = Z.to_nat (b - a).
Proof. intros Ha Hb. unfold slice. rewrite length_take, length_drop. lia. Qed.
Lemma slice_digests ds a b : Forall digest ds → Forall digest (slice ds a b).
Proof. intros H. unfold slice. by apply Forall_take, Forall_drop. Qed.
Lemma all_peaks_digests c ds range : Forall digest ds → Forall digest range → Forall digest (all_peaks c ds range).
Proof. intros H Hr. unfold all_peaks. rewrite !Forall_app. split_and!; try done; by apply slice_digests. Qed.
Lemma flag_count_nonneg z : 0 ≤ flag_count z.
Proof. unfold flag_count. destruct (negb _); lia. Qed.
Lemma all_peaks_inj c ds ds' range range' : counts_nonneg c → siblings_start c ≤ Z.of_nat (length ds) → siblings_start c ≤ Z.of_nat (length ds') → length range = length range' →
  length (all_peaks c ds range) = length (all_peaks c ds' range') ∧ (all_peaks c ds range = all_peaks c ds' range' → range = range').
Proof.
  unfold counts_nonneg, siblings_start, all_peaks. intros (? & ? & ? & ?) Hl Hl' Hr. pose proof (flag_count_nonneg (pc_fold_prefix c)). pose proof (flag_count_nonneg (pc_suffix_active c)).
  unfold siblings_start. split; [rewrite !length_app, !slice_length, Hr by lia; lia|]. intros He. apply field_inj in He as [_ He]; [|rewrite !slice_length by lia; lia].
  apply field_inj in He as [_ He]; [|rewrite !slice_length by lia; lia]. by apply field_inj in He as [He _].
Qed.

Lemma reconstruct_Ok leaves inactive ds loc op chunk root : reconstruct_qmdb_mmr_root sha256 leaves inactive ds loc op chunk = Ok root →
  ∃ size c r range n, mmr_location_to_position leaves = Some size ∧ ofold (classify_peak loc (loc + 1) inactive) PeakCounts_new (mmr_peaks size) = Ok c ∧
    pc_range_peaks c ≠ [] ∧ siblings_start c ≤ Z.of_nat (length ds) ∧
    smap (λ '(pos, height, leaf_start), reconstruct_peak sha256 (mkScope loc (loc + 1) (drop (Z.to_nat (siblings_start c)) ds) (loc / qmdb_chunk_bits) chunk) (Z.to_nat height) pos leaf_start)
      (pc_range_peaks c) (mkReconstruction (Some op) false 0) = SOk r range ∧
    rc_element r = None ∧ fold_of c inactive = Ok n ∧ mmr_root sha256 leaves n inactive (all_peaks c ds range) = Ok root.
Proof.
  unfold reconstruct_qmdb_mmr_root. cbn zeta. destruct (_ || _); [done|]. intros (e & He & H)%obind_Ok. unfold or_none in He. destruct (chk U64 _) as [x|] eqn:Ex; [|done]. injection He as ->.
  apply chk_Some in Ex as [-> _]. destruct (_ >? leaves); [done|]. apply obind_Ok in H as (size & Hs & H). unfold or_none in Hs. destruct (mmr_location_to_position _) as [y|]; [|done].
  injection Hs as ->. apply obind_Ok in H as (c & Hc & H). destruct (bool_decide (pc_range_peaks c = [])) eqn:Er; [done|]. apply bool_decide_eq_false in Er. cbn [orb] in H.
  destruct (_ || _); [done|]. destruct (_ <? _) eqn:El; [done|]. apply Z.ltb_ge in El. destruct (smap _ _ _) as [r range| |] eqn:Em; [|done..].
  destruct (negb (rc_leaf_consumed r)); [done|]. cbn [orb] in H. destruct (bool_decide (rc_element r = None)) eqn:Een; [|done]. apply bool_decide_eq_true in Een. cbn [negb orb] in H.
  destruct (negb _); [done|]. apply obind_Ok in H as (n & Hn & H). exists size, c, r, range, n. done.
Qed.

Lemma reconstruct_root_binding leaves leaves' inactive inactive' ds ds' loc op op' chunk chunk' root : u64 leaves → u64 leaves' → u64 inactive → u64 inactive' →
  Forall digest ds → Forall digest ds' → digest chunk → digest chunk' → forallb (λ b, b =? 0) chunk = false → forallb (λ b, b =? 0) chunk' = false →
  reconstruct_qmdb_mmr_root sha256 leaves inactive ds loc op chunk = Ok root → reconstruct_qmdb_mmr_root sha256 leaves' inactive' ds' loc op' chunk' = Ok root →
  op = op' ∨ collision sha256.
Proof.
  intros Hu Hu' Hi Hi' HF HF' Hd Hd' Hz Hz' (size & c & r & range & n & Hs & Hc & Hne & Hl & Hm & He & Hn & H)%reconstruct_Ok (size' & c' & r' & range' & n' & Hs' & Hc' & Hne' & Hl' & Hm' & He' & Hn' & H')%reconstruct_Ok.
  pose proof Hm as [Hrl Hr]%ranges_digests; [|by apply Forall_drop]. pose proof Hm' as [Hrl' Hr']%ranges_digests; [|by apply Forall_drop].
  assert (∀ c ds (range : list Bytes), range ≠ [] → all_peaks c ds range ≠ []) as Hnp.
  { intros k ks rs Hrs Hk. unfold all_peaks in Hk. rewrite !app_nil in Hk. by destruct_and!. }
  assert (range ≠ [] ∧ range' ≠ []) as [Hrne Hrne'] by (split; intros ->; by destruct (pc_range_peaks c), (pc_range_peaks c')).
  destruct (mmr_root_counts _ _ _ _ _ _ _ _ _ Hu Hu' Hi Hi' (Hnp c ds range Hrne) (Hnp c' ds' range' Hrne') (all_peaks_digests _ _ _ HF Hr) (all_peaks_digests _ _ _ HF' Hr') H H') as [[<- <-]|?]; [|by right].
  rewrite Hs in Hs'. injection Hs' as <-. rewrite Hc in Hc'. injection Hc' as <-. rewrite Hn in Hn'. injection Hn' as <-.
  destruct (all_peaks_inj c ds ds' range range' (classify_nonneg _ _ _ _ _ Hc) Hl Hl') as [Hlen Hinj]; [congruence|].
  destruct (mmr_root_peaks _ _ _ _ _ _ Hlen (Hnp c ds range Hrne) (Hnp c ds' range' Hrne') (all_peaks_digests _ _ _ HF Hr) (all_peaks_digests _ _ _ HF' Hr') H H') as [<-%Hinj|?]; [|by right].
  assert (same_range (mkScope loc (loc + 1) (drop (Z.to_nat (siblings_start c)) ds) (loc / qmdb_chunk_bits) chunk)
    (mkScope loc (loc + 1) (drop (Z.to_nat (siblings_start c)) ds') (loc / qmdb_chunk_bits) chunk')) as Hsr by (split; cbn; split_and?; try done; by apply Forall_drop).
  destruct (ranges_binding _ _ op op' Hsr _ (mkReconstruction (Some op) false 0) (mkReconstruction (Some op') false 0) _ _ _ ltac:(by left) Hm Hm') as [[[Hx _]|(_ & _ & ->)]|?]; [congruence|by left|by right].
Qed.

(** ** Proofs of an operation *)

Record operation_proof_typed (p : QmdbStateOperationProof) : Prop := {
  opt_leaves : u64 (rp_leaves (op_range p));
  opt_inactive : u64 (rp_inactive_peaks (op_range p));
  opt_digests : Forall digest (rp_digests (op_range p));
  opt_ops_root : digest (rp_ops_root (op_range p));
  opt_chunk : digest (op_activity_chunk p);
}.

Lemma active_chunk chunk bit : digest chunk → get_bit_from_chunk chunk bit = true → forallb (λ b, b =? 0) chunk = false.
Proof.
  unfold get_bit_from_chunk, digest. intros Hl H%negb_true_iff%Z.eqb_neq. apply not_true_iff_false. intros Hz. apply H. rewrite forallb_forall in Hz.
  destruct (lookup_lt_is_Some_2 chunk (Z.to_nat ((bit / 8) mod QMDB_STATE_CHUNK_SIZE))) as [b E].
  { unfold QMDB_STATE_CHUNK_SIZE. pose proof (Z.mod_pos_bound (bit / 8) 32). lia. }
  rewrite (list_lookup_total_correct _ _ _ E). apply list_elem_of_lookup_2, list_elem_of_In, Hz, Z.eqb_eq in E. rewrite E. apply Z.land_0_l.
Qed.
Lemma range_proof_Ok {E} root p loc op chunk : verify_qmdb_range_proof sha256 (E := E) root p loc op chunk = Ok true →
  ∃ merkle tail, reconstruct_qmdb_mmr_root sha256 (rp_leaves p) (rp_inactive_peaks p) (rp_digests p) loc op chunk = Ok merkle ∧ sha256 (rp_ops_root p ++ merkle ++ tail) = root.
Proof.
  unfold verify_qmdb_range_proof. cbn zeta. destruct (chk U64 _) as [e|]; [|done]. destruct (_ >? _); [done|]. destruct (negb (_ =? _ / _)); [done|].
  match goal with |- context [if ?b then Ok false else _] => destruct b end; [done|]. destruct (reconstruct_qmdb_mmr_root _ _ _ _ _ _ _) as [m| |]; [|done..].
  intros [= H%bool_decide_eq_true]. by eexists _, _.
Qed.
Lemma reconstruct_root_digest leaves inactive ds loc op chunk root : Forall digest ds → reconstruct_qmdb_mmr_root sha256 leaves inactive ds loc op chunk = Ok root → digest root.
Proof.
  intros HF (size & c & r & range & n & _ & _ & Hne & _ & Hm & _ & _ & H)%reconstruct_Ok. apply ranges_digests in Hm as [Hl Hr]; [|by apply Forall_drop].
  apply (mmr_root_digest _ _ _ _ _) in H; [done| |by apply all_peaks_digests]. intros Hk. unfold all_peaks in Hk. rewrite !app_nil in Hk. destruct Hk as (_ & _ & -> & _). by destruct (pc_range_peaks c).
Qed.

Lemma operation_binding {E E'} root op op' p p' : operation_proof_typed p → operation_proof_typed p' → op_location p = op_location p' →
  verify_qmdb_operation_proof sha256 (E := E) root op p = Ok true → verify_qmdb_operation_proof sha256 (E := E') root op' p' = Ok true → op = op' ∨ collision sha256.
Proof.
  intros [Hu Hi Hd Ho Hc] [Hu' Hi' Hd' Ho' Hc'] Hloc. unfold verify_qmdb_operation_proof. destruct (get_bit_from_chunk (op_activity_chunk p) _) eqn:Eb; [|done].
  destruct (get_bit_from_chunk (op_activity_chunk p') _) eqn:Eb'; [|done]. cbn [negb]. intros (m & t & Hm & H)%range_proof_Ok (m' & t' & Hm' & H')%range_proof_Ok. rewrite <- H' in H.
  apply (sha_inj sha256) in H as [H|?]; [|by right]. apply field_inj in H as [_ H]; [|congruence].
  apply field_inj in H as [<- _]; [|rewrite (reconstruct_root_digest _ _ _ _ _ _ _ Hd Hm), (reconstruct_root_digest _ _ _ _ _ _ _ Hd' Hm'); done]. rewrite <- Hloc in Hm'.
  eapply (reconstruct_root_binding (rp_leaves (op_range p)) (rp_leaves (op_range p'))); [exact Hu|exact Hu'|exact Hi|exact Hi'|exact Hd|exact Hd'|exact Hc|exact Hc'|exact (active_chunk _ _ Hc Eb)|exact (active_chunk _ _ Hc' Eb')|exact Hm|exact Hm'].
Qed.
End sha.

Lemma len_prefixed_inj b b' r r' x x' : append_len_prefixed_bytes b = Ok x → append_len_prefixed_bytes b' = Ok x' → x ++ r = x' ++ r' → b = b' ∧ r = r'.
Proof.
  intros [-> Hb]%len_prefixed_Ok [-> Hb']%len_prefixed_Ok. rewrite <- !app_assoc. unfold u32 in *. change (int_max U32) with 4294967295 in *.
  intros [Hl H]%varint_inj; [|change (128 ^ Z.of_nat 5) with 34359738368; lia..]. apply field_inj in H; [done|lia].
Qed.
Lemma update_operation_inj k v n k' v' n' o : encode_qmdb_update_operation k v n = Ok o → encode_qmdb_update_operation k' v' n' = Ok o → k = k' ∧ v = v' ∧ n = n'.
Proof.
  unfold encode_qmdb_update_operation. intros (a & Ha & H)%obind_Ok (a' & Ha' & H')%obind_Ok. apply obind_Ok in H as (b & Hb & H). apply obind_Ok in H as (c & Hc & [= <-]).
  apply obind_Ok in H' as (b' & Hb' & H'). apply obind_Ok in H' as (c' & Hc' & [= H']). symmetry in H'.
  apply (len_prefixed_inj _ _ _ _ _ _ Ha Ha') in H' as [-> H']. apply (len_prefixed_inj _ _ _ _ _ _ Hb Hb') in H' as [-> H'].
  rewrite <- (app_nil_r c), <- (app_nil_r c') in H'. by apply (len_prefixed_inj _ _ _ _ _ _ Hc Hc') in H' as [-> _].
Qed.

(** A key proved present at a location is not proved absent by that location. *)
Lemma exclusion_contradicts_inclusion {E E'} sha256 root k v p q : (∀ b, length (sha256 b) = 32%nat) → operation_proof_typed (kv_operation p) →
  let o := match q with KeyValue operation _ _ _ | Commit operation _ => operation end in
  operation_proof_typed o → op_location (kv_operation p) = op_location o →
  verify_qmdb_key_value_proof sha256 (E := E) root k v p = Ok true → verify_qmdb_exclusion_proof sha256 (E := E') root k q = Ok true → collision sha256.
Proof.
  intros Hlen Hp o Hq Hloc. unfold verify_qmdb_key_value_proof. destruct (encode_qmdb_update_operation k v _) as [x| |] eqn:Ex; [|done..]. intros H. unfold verify_qmdb_exclusion_proof. destruct q as [q sk sv sn|q md].
  - case_bool_decide as Hne; [done|]. destruct (negb _); [done|]. cbn [orb]. destruct (encode_qmdb_update_operation sk sv sn) as [y| |] eqn:Ey; [|done..]. intros H'.
    destruct (operation_binding sha256 Hlen _ _ _ _ _ Hp Hq Hloc H H') as [->|?]; [|done]. by destruct (update_operation_inj _ _ _ _ _ _ _ Ex Ey) as [<- _].
  - destruct (encode_qmdb_commit_floor_operation _ _) as [y| |] eqn:Ey; [|done..]. intros H'. destruct (operation_binding sha256 Hlen _ _ _ _ _ Hp Hq Hloc H H') as [->|?]; [|done].
    exfalso. unfold encode_qmdb_update_operation in Ex. apply obind_Ok in Ex as (? & _ & Ex). apply obind_Ok in Ex as (? & _ & Ex). apply obind_Ok in Ex as (? & _ & [= <-]).
    unfold encode_qmdb_commit_floor_operation in Ey. by apply obind_Ok in Ey as (? & _ & [= ?]).
Qed.

(** ** One location, one leaf *)

(** C12: two key/value proofs accepted for one state root at one location prove the
    same key, value and next key, whatever sizes, peaks, chunks and sibling digests
    they bring, or SHA-256 has a collision. *)
Theorem state_root_binds_location {E E'} sha256 root k v k' v' p p' : (∀ b, length (sha256 b) = 32%nat) →
  operation_proof_typed (kv_operation p) → operation_proof_typed (kv_operation p') → op_location (kv_operation p) = op_location (kv_operation p') →
  verify_qmdb_key_value_proof sha256 (E := E) root k v p = Ok true → verify_qmdb_key_value_proof sha256 (E := E') root k' v' p' = Ok true →
  (k = k' ∧ v = v' ∧ kv_next_key p = kv_next_key p') ∨ collision sha256.
Proof.
  intros Hlen Hp Hp' Hloc. unfold verify_qmdb_key_value_proof. destruct (encode_qmdb_update_operation k v _) as [x| |] eqn:Ex; [|done..].
  destruct (encode_qmdb_update_operation k' v' _) as [y| |] eqn:Ey; [|done..]. intros H H'.
  destruct (operation_binding sha256 Hlen _ _ _ _ _ Hp Hp' Hloc H H') as [->|?]; [left; by eapply update_operation_inj|by right].
Qed.

Definition ex_kv : QmdbStateKeyValueProof := ex_leaf_proof ex_leaves 2.
Definition ex_leaf_key : Bytes := (ex_leaves !!! 2%nat).1.
Definition ex_value : Bytes := (ex_leaves !!! 2%nat).2.
Lemma ex_kv_ok : verify_qmdb_key_value_proof ex_digest (E := Empty_set) ex_root ex_leaf_key ex_value ex_kv = Ok true.
Proof. vm_compute. reflexivity. Qed.
Lemma ex_kv_typed : operation_proof_typed (kv_operation ex_kv).
Proof.
  split; [by vm_compute|by vm_compute| |by vm_compute|by vm_compute].
  apply (bool_decide_unpack (Forall (λ d : Bytes, length d = 32%nat) (rp_digests (op_range (kv_operation ex_kv))))). vm_compute. exact I.
Qed.
Lemma state_root_binds_location_witness : (ex_leaf_key = ex_leaf_key ∧ ex_value = ex_value ∧ kv_next_key ex_kv = kv_next_key ex_kv) ∨ collision ex_digest.
Proof. exact (state_root_binds_location ex_digest ex_root ex_leaf_key ex_value ex_leaf_key ex_value ex_kv ex_kv ex_digest_length ex_kv_typed ex_kv_typed eq_refl ex_kv_ok ex_kv_ok). Defined.
