(* ===== verification/EscapeClaim.v ===== *)
(** * EscapeClaim: withdrawing from a committed state

    Models [crates/sybil-escape-claim/src/lib.rs]: the account, reservation and
    market leaves opened against a state root, the key set and the signature that
    authorise the claim, the valuation at the last clearing prices, the nullifier
    and the hash of the public inputs. *)
From S2P Require Import Prelude Types Order MmConstraint Account Digest Snapshots Finalize Witness L1Protocol DepositFrontier AccountKeys WebAuthn Signing WitnessBytes StateCommitment Bridge Mmr QmdbProof.

Definition ESCAPE_CLAIM_PUBLIC_INPUT_DOMAIN : Bytes := ascii_bytes "sybil/openvm/escape-claim/v1".
Definition ESCAPE_NULLIFIER_DOMAIN : Bytes := ascii_bytes "sybil/escape-nullifier/v1".
Definition MINT_ACCOUNT_ID : Z := int_max U64.

Record EscapeClaimPublicInputs := mkEscapeClaimPublicInputs {
  ec_state_root : Bytes;
  ec_height : Z;
  ec_account_id : Z;
  ec_recipient : Bytes;
  ec_amount : Z;
  ec_nullifier : Bytes;
}.
Record MarketLeafWitness := mkMarketLeafWitness { ml_market : MarketSnapshot; ml_proof : QmdbStateKeyValueProof }.
Inductive AccountReservationLeafWitness :=
  | Inclusion (reservation : AccountReservationSnapshot) (proof : QmdbStateKeyValueProof)
  | Exclusion (proof : QmdbStateExclusionProof).
Record EscapeClaimGuestInput := mkEscapeClaimGuestInput {
  eg_public_inputs : EscapeClaimPublicInputs;
  eg_genesis_hash : Bytes;
  eg_chain_id : Z;
  eg_vault_address : Bytes;
  eg_account : AccountSnapshot;
  eg_account_proof : QmdbStateKeyValueProof;
  eg_account_reservation : AccountReservationLeafWitness;
  eg_markets : list MarketLeafWitness;
  eg_active_keys : list KeyRecord;
  eg_authorization : KeyOpAuth;
}.

Module Escape.
Inductive EscapeClaimError :=
  | MintAccount
  | AccountMismatch
  | AccountProof
  | ReservationMismatch
  | ReservationProof
  | EmptyKeySet
  | TooManyKeys
  | InvalidKeySet
  | KeysDigestMismatch
  | Authorization (e : Auth.AuthError)
  | MarketProofSet
  | MarketProof
  | MarketPrices
  | PositionOutcome
  | SignedNotionalOverflow
  | AccumulationOverflow
  | NanosOutOfRange
  | AmountMismatch
  | NullifierMismatch.
End Escape.
Abbreviation EscapeClaimError := Escape.EscapeClaimError (only parsing).

(** ** Valuation *)

Definition validate_market_prices (market : MarketSnapshot) : outcome EscapeClaimError unit :=
  let count := Z.of_nat (length (msn_last_clearing_prices market)) in
  reject_if ((negb (count =? 0) && negb (count =? msn_num_outcomes market)) ||
             existsb (λ price, price >? NANOS_PER_DOLLAR) (msn_last_clearing_prices market)) Escape.MarketPrices.

Definition checked_x_nanos (balance : Z) (position_values : list Z) (reserved_balance : Z) : outcome EscapeClaimError Z :=
  value ← ofold (λ value position, ok_or (chk I128 (value + position)) Escape.AccumulationOverflow) balance position_values;
  ok_or (chk I128 (value - reserved_balance)) Escape.AccumulationOverflow.

Definition required_markets (positions : list (MarketId * Z * Z)) : gset Z :=
  list_to_set (omap (λ '(market, _, qty), if negb (qty =? 0) then Some market else None) positions).

Definition position_value (opened : gmap Z MarketSnapshot) (position : MarketId * Z * Z) : outcome EscapeClaimError Z :=
  let '(market_id, outcome, qty) := position in
  market ← ok_or (opened !! market_id) Escape.MarketProofSet;
  reject_if (outcome >=? msn_num_outcomes market) Escape.PositionOutcome;;
  if bool_decide (msn_last_clearing_prices market = []) then Ok 0 else
  price ← ok_or (msn_last_clearing_prices market !! Z.to_nat outcome) Escape.MarketPrices;
  ok_or (checked_signed_notional_nanos price qty) Escape.SignedNotionalOverflow.
Fixpoint position_values (opened : gmap Z MarketSnapshot) (positions : list (MarketId * Z * Z)) : outcome EscapeClaimError (list Z) :=
  match positions with
  | [] => Ok []
  | (market_id, outcome, qty) :: positions =>
      if qty =? 0 then position_values opened positions else
      value ← position_value opened (market_id, outcome, qty);
      values ← position_values opened positions;
      Ok (value :: values)
  end.

Section sha.
Context (sha256 keccak256 : Bytes → Bytes) (p256 : Bytes → Bytes → Bytes → bool).

Definition open_market (state_root : Bytes) (required : gset Z) (opened : gmap Z MarketSnapshot) (witnessed : MarketLeafWitness) :
    outcome EscapeClaimError (gmap Z MarketSnapshot) :=
  let market := ml_market witnessed in
  reject_if (negb (bool_decide (msn_market_id market ∈ required)) || bool_decide (is_Some (opened !! msn_market_id market))) Escape.MarketProofSet;;
  validate_market_prices market;;
  verified ← verify_qmdb_key_value_proof sha256 state_root (market_leaf market).1 (market_leaf market).2 (ml_proof witnessed);
  reject_if (negb verified) Escape.MarketProof;;
  Ok (<[msn_market_id market := market]> opened).

Definition compute_withdrawable_token_units (account : AccountSnapshot) (reserved_balance : Z) (markets : list MarketLeafWitness) (state_root : Bytes) :
    outcome EscapeClaimError Z :=
  let required := required_markets (asn_positions account) in
  opened ← ofold (open_market state_root required) ∅ markets;
  reject_if (negb (bool_decide (size opened = size required))) Escape.MarketProofSet;;
  position_values ← position_values opened (asn_positions account);
  nanos ← checked_x_nanos (asn_balance account) position_values reserved_balance;
  clamped ← ok_or (chk U64 (Z.max nanos 0)) Escape.NanosOutOfRange;
  Ok (clamped / NANOS_PER_TOKEN_UNIT).

(** ** Leaves and keys *)

Definition verify_reservation (input : EscapeClaimGuestInput) : outcome EscapeClaimError Z :=
  let account_id := ec_account_id (eg_public_inputs input) in
  let key := account_reservation_leaf_key account_id in
  match eg_account_reservation input with
  | Inclusion reservation proof =>
      reject_if (negb (ars_account_id reservation =? account_id)) Escape.ReservationMismatch;;
      verified ← verify_qmdb_key_value_proof sha256 (ec_state_root (eg_public_inputs input)) key (account_reservation_leaf reservation).2 proof;
      reject_if (negb verified) Escape.ReservationProof;;
      Ok (ars_reserved_balance reservation)
  | Exclusion proof =>
      verified ← verify_qmdb_exclusion_proof sha256 (ec_state_root (eg_public_inputs input)) key proof;
      reject_if (negb verified) Escape.ReservationProof;;
      Ok 0
  end.

Definition check_active_key (pubkeys : gset Bytes) (key : KeyRecord) : outcome EscapeClaimError (gset Bytes) :=
  reject_if (kr_auth_scheme key >? 1) Escape.InvalidKeySet;;
  first ← idx (kr_pubkey_sec1 key) 0;
  reject_if (negb ((first =? 2) || (first =? 3))) Escape.InvalidKeySet;;
  reject_if (bool_decide (kr_pubkey_sec1 key ∈ pubkeys)) Escape.InvalidKeySet;;
  Ok ({[kr_pubkey_sec1 key]} ∪ pubkeys).
Definition claim_message (input : EscapeClaimGuestInput) : Bytes :=
  let p := eg_public_inputs input in
  canonical_escape_claim_bytes (eg_genesis_hash input) (eg_chain_id input) (eg_vault_address input) (ec_state_root p) (ec_height p) (ec_account_id p)
    (ec_recipient p) (ec_amount p).
Definition verify_key_binding_and_authorization (input : EscapeClaimGuestInput) : outcome EscapeClaimError unit :=
  let keys := eg_active_keys input in
  reject_if (bool_decide (keys = [])) Escape.EmptyKeySet;;
  reject_if (Z.of_nat (length keys) >? MAX_KEYS_PER_ACCOUNT) Escape.TooManyKeys;;
  ofold check_active_key ∅ keys;;
  let digest := account_keys_digest sha256 (ec_account_id (eg_public_inputs input)) keys in
  reject_if (bool_decide (asn_keys_digest (eg_account input) ≠ digest)) Escape.KeysDigestMismatch;;
  map_err Escape.Authorization (verify_keyop_auth sha256 p256 (eg_authorization input) keys (claim_message input)).

(** ** The claim *)

Definition escape_nullifier (chain_id : Z) (vault_address : Bytes) (account_id : Z) (state_root : Bytes) : Bytes :=
  abi_keccak256_domain_and_words keccak256 ESCAPE_NULLIFIER_DOMAIN [Uint chain_id; Address vault_address; Uint account_id; Bytes32 state_root].
Definition escape_claim_public_input_hash (inputs : EscapeClaimPublicInputs) : Bytes :=
  abi_keccak256_domain_and_words keccak256 ESCAPE_CLAIM_PUBLIC_INPUT_DOMAIN
    [Bytes32 (ec_state_root inputs); Uint (ec_height inputs); Uint (ec_account_id inputs); Address (ec_recipient inputs); Uint (ec_amount inputs);
     Bytes32 (ec_nullifier inputs)].

Definition verify_escape_claim (input : EscapeClaimGuestInput) : outcome EscapeClaimError Bytes :=
  let public := eg_public_inputs input in
  reject_if (ec_account_id public =? MINT_ACCOUNT_ID) Escape.MintAccount;;
  reject_if (negb (asn_id (eg_account input) =? ec_account_id public)) Escape.AccountMismatch;;
  verified ← verify_qmdb_key_value_proof sha256 (ec_state_root public) (account_leaf_key (ec_account_id public)) (account_leaf (eg_account input)).2
    (eg_account_proof input);
  reject_if (negb verified) Escape.AccountProof;;
  reserved_balance ← verify_reservation input;
  verify_key_binding_and_authorization input;;
  amount ← compute_withdrawable_token_units (eg_account input) reserved_balance (eg_markets input) (ec_state_root public);
  reject_if (negb (ec_amount public =? amount)) Escape.AmountMismatch;;
  reject_if (bool_decide (ec_nullifier public ≠ escape_nullifier (eg_chain_id input) (eg_vault_address input) (ec_account_id public) (ec_state_root public)))
    Escape.NullifierMismatch;;
  Ok (escape_claim_public_input_hash public).
End sha.
