(* ===== verification/EscapeProofs.v ===== *)
(** * EscapeProofs: what an escape claim pays

    The valuation never overflows its accumulator, and a claim is accepted exactly
    when its leaves, keys, signature, amount and nullifier are those the state root
    and the account determine. *)
From S2P Require Import Prelude Types Order MmConstraint Account Snapshots Digest Finalize Witness Sidecar MatchVerifier L1Protocol DepositFrontier AccountKeys WebAuthn Signing WitnessBytes WitnessDecode WitnessTyping Bridge StateCommitment StateBinding BlockChain Mmr QmdbProof ZkTransition StatementExact TransitionExample EscapeClaim.

(** ** Valuation *)

(** The value of a position at the last clearing price, zero when there is none. *)
Definition position_mark (table : gmap Z MarketSnapshot) (position : MarketId * Z * Z) : Z :=
  let '(market_id, outcome, qty) := position in
  match m ← table !! market_id; msn_last_clearing_prices m !! Z.to_nat outcome with
  | Some price => Z.sgn qty * (price * Z.abs qty / SHARE_SCALE)
  | None => 0
  end.
Definition claim_nanos (account : AccountSnapshot) (reserved : Z) (table : gmap Z MarketSnapshot) : Z :=
  asn_balance account + sumZ (position_mark table) (asn_positions account) - reserved.
(** The machine types of an account's numbers; a vector holds at most [isize::MAX] elements. *)
Record claim_typed (account : AccountSnapshot) (reserved : Z) : Prop := {
  ct_balance : i64 (asn_balance account);
  ct_reserved : i64 reserved;
  ct_positions : Forall (λ '(_, outcome, qty), 0 ≤ outcome ∧ i64 qty) (asn_positions account);
  ct_length : Z.of_nat (length (asn_positions account)) ≤ int_max I64;
}.

Record market_prices_wf (m : MarketSnapshot) : Prop := {
  pw_count : msn_last_clearing_prices m = [] ∨ Z.of_nat (length (msn_last_clearing_prices m)) = msn_num_outcomes m;
  pw_range : Forall (λ price, price ≤ NANOS_PER_DOLLAR) (msn_last_clearing_prices m);
}.
Lemma market_prices_exact m : validate_market_prices m = Ok () ↔ market_prices_wf m.
Proof.
  unfold validate_market_prices. rewrite reject_last, orb_false_iff, andb_false_iff, !negb_false_iff, !Z.eqb_eq.
  assert (existsb (λ price, price >? NANOS_PER_DOLLAR) (msn_last_clearing_prices m) = false ↔ Forall (λ price, price ≤ NANOS_PER_DOLLAR) (msn_last_clearing_prices m)) as ->.
  { induction (msn_last_clearing_prices m) as [|p l IH]; cbn [existsb]; [by split; [constructor|]|]. rewrite orb_false_iff, Forall_cons, IH, Z.gtb_ltb, Z.ltb_ge. done. }
  assert (Z.of_nat (length (msn_last_clearing_prices m)) = 0 ↔ msn_last_clearing_prices m = []) as -> by (destruct (msn_last_clearing_prices m); cbn [length]; split; intros; [done|done|lia|done]).
  split; [by intros [? ?]|by intros [? ?]].
Qed.

Lemma signed_notional_exact price qty v : u64 price → i64 qty →
  checked_signed_notional_nanos price qty = Some v ↔ v = Z.sgn qty * (price * Z.abs qty / SHARE_SCALE) ∧ Z.abs v ≤ int_max I64.
Proof.
  intros Hp Hq. unfold checked_signed_notional_nanos. assert (u64 (Z.abs qty)) as Ha by (unfold u64, i64 in *; change (int_min I64) with (-9223372036854775808) in Hq; change (int_max I64) with 9223372036854775807 in Hq; change (int_max U64) with 18446744073709551615; lia).
  assert (0 ≤ price * Z.abs qty / SHARE_SCALE) as Hn by (apply Z.div_pos; [unfold u64 in *; nia|done]).
  destruct (checked_notional_i64 price (Z.abs qty)) as [n|] eqn:En.
  - apply checked_notional_i64_iff in En as [-> Hle]; [|done..]. cbn [mbind option_bind]. change (int_max I64) with 9223372036854775807 in *.
    remember (price * Z.abs qty / SHARE_SCALE) as n eqn:En. destruct (Z.ltb_spec qty 0); [rewrite Z.sgn_neg, chk_Some by lia; change (int_min I64) with (-9223372036854775808); change (int_max I64) with 9223372036854775807; lia|].
    destruct (decide (qty = 0)) as [->|]; [rewrite Z.mul_0_r in En; change (n = 0) in En; subst n; cbn; split; [by intros [= <-]|by intros [-> _]]|]. rewrite Z.sgn_pos by lia. split; [intros [= <-]; lia|intros [-> _]; f_equal; lia].
  - split; [done|]. intros [-> Hle]. destruct (decide (qty = 0)) as [->|Hz].
    + assert (checked_notional_i64 price (Z.abs 0) = Some (price * Z.abs 0 / SHARE_SCALE)) as Hx; [|congruence]. apply checked_notional_i64_iff; [done..|]. split; [done|]. by rewrite Z.mul_0_r.
    + assert (checked_notional_i64 price (Z.abs qty) = Some (price * Z.abs qty / SHARE_SCALE)) as Hx; [|congruence]. apply checked_notional_i64_iff; [done..|]. split; [done|].
      rewrite Z.abs_mul, (Z.abs_eq (_ / _)) in Hle by done. assert (Z.abs (Z.sgn qty) = 1) as H1 by (destruct qty; done). lia.
Qed.

Lemma accumulate_exact {E} (e : E) B l a : 0 ≤ B → (∀ x, x ∈ l → Z.abs x ≤ B) → Z.abs a + B * Z.of_nat (length l) ≤ int_max I128 →
  ofold (λ value position, ok_or (chk I128 (value + position)) e) a l = Ok (a + sumZ id l) ∧ Z.abs (a + sumZ id l) ≤ Z.abs a + B * Z.of_nat (length l).
Proof.
  intros HB. revert a. induction l as [|x l IH]; intros a Hx Ha; cbn [ofold sumZ length] in *; [split; [f_equal; lia|lia]|].
  pose proof (Hx x (list_elem_of_here _ _)) as Hb. unfold id at 1 3. rewrite chk_in by (change (int_min I128) with (-170141183460469231731687303715884105728); change (int_max I128) with 170141183460469231731687303715884105727 in *; lia).
  cbn [ok_or]. rewrite Ok_then. destruct (IH (a + x)) as [-> Hs]; [intros y Hy; apply Hx; by right|lia|]. split; [f_equal; lia|]. rewrite Z.add_assoc. lia.
Qed.
Lemma x_nanos_exact balance values reserved : i64 balance → i64 reserved → (∀ x, x ∈ values → Z.abs x ≤ int_max I64) → Z.of_nat (length values) ≤ int_max I64 →
  checked_x_nanos balance values reserved = Ok (balance + sumZ id values - reserved).
Proof.
  unfold i64. change (int_min I64) with (-9223372036854775808). change (int_max I64) with 9223372036854775807. intros Hb Hr Hv Hn. unfold checked_x_nanos.
  destruct (accumulate_exact Escape.AccumulationOverflow 9223372036854775807 values balance) as [-> Hs]; [lia|done|change (int_max I128) with 170141183460469231731687303715884105727; lia|].
  rewrite Ok_then, chk_in by (change (int_min I128) with (-170141183460469231731687303715884105728); change (int_max I128) with 170141183460469231731687303715884105727; lia). done.
Qed.

Definition position_ok (table : gmap Z MarketSnapshot) (position : MarketId * Z * Z) : Prop :=
  let '(market_id, outcome, _) := position in
  ∃ market, table !! market_id = Some market ∧ outcome < msn_num_outcomes market ∧ Z.abs (position_mark table position) ≤ int_max I64.
Definition table_wf (table : gmap Z MarketSnapshot) : Prop := ∀ id m, table !! id = Some m → market_prices_wf m ∧ Forall u64 (msn_last_clearing_prices m).

Lemma position_value_exact table position v : table_wf table → 0 ≤ position.1.2 → i64 position.2 →
  position_value table position = Ok v ↔ position_ok table position ∧ v = position_mark table position.
Proof.
  intros Ht Ho Hq. destruct position as [[id o] q]. cbn in Ho, Hq. unfold position_value, position_ok, position_mark. rewrite ok_or_then.
  destruct (table !! id) as [m|] eqn:Em; [|naive_solver]. destruct (Ht id m Em) as [[Hc Hr] Hu]. cbn [mbind option_bind]. transitivity (
    (reject_if (o >=? msn_num_outcomes m) Escape.PositionOutcome;;
     (if bool_decide (msn_last_clearing_prices m = []) then Ok 0 else
      price ← ok_or (msn_last_clearing_prices m !! Z.to_nat o) Escape.MarketPrices; ok_or (checked_signed_notional_nanos price q) Escape.SignedNotionalOverflow)) = Ok v).
  { split; [by intros (? & [= <-] & ?)|by intros H; exists m]. }
  rewrite reject_then, Z.geb_leb, Z.leb_gt. case_bool_decide as Hnil.
  - rewrite Hnil, lookup_nil. split; [intros (? & [= <-]); split; [by exists m|done]|]. intros ((? & [= <-] & ? & _) & ->). done.
  - destruct Hc as [|Hc]; [done|]. destruct (decide (o < msn_num_outcomes m)) as [Hlt|]; [|split; [by intros [? _]|by intros ((? & [= <-] & ? & _) & _)]].
    destruct (lookup_lt_is_Some_2 (msn_last_clearing_prices m) (Z.to_nat o)) as [price Hp]; [lia|]. rewrite Hp. cbn [ok_or]. rewrite Ok_then.
    assert (u64 price) as Hup by (by eapply (proj1 (Forall_forall _ _) Hu), list_elem_of_lookup_2).
    pose proof (signed_notional_exact price q v Hup Hq) as Hs. destruct (checked_signed_notional_nanos price q) as [x|] eqn:Ex; cbn [ok_or].
    + split; [intros (_ & [= ->]); destruct (proj1 Hs eq_refl) as [-> Hle]; split; [by exists m|done]|].
      intros ((? & [= <-] & _ & Hle) & ->). split; [done|]. f_equal. assert (Some x = Some (Z.sgn q * (price * Z.abs q / SHARE_SCALE))) as [= ->]; [|done]. apply Hs. done.
    + split; [by intros [_ ?]|]. intros ((? & [= <-] & _ & Hle) & ->). assert (None = Some (Z.sgn q * (price * Z.abs q / SHARE_SCALE))) as Hx; [|done]. apply Hs. done.
Qed.

Definition held (position : MarketId * Z * Z) : Prop := position.2 ≠ 0.
Lemma position_values_exact table positions vs : table_wf table → Forall (λ '(_, outcome, qty), 0 ≤ outcome ∧ i64 qty) positions →
  position_values table positions = Ok vs ↔
  (∀ p, p ∈ positions → held p → position_ok table p) ∧ vs = position_mark table <$> filter held positions.
Proof.
  intros Ht HF. revert vs. induction HF as [|[[id o] q] l [Ho Hq] HF IH]; intros vs; cbn [position_values].
  - split; [intros [= <-]; split; [by intros ? ?%not_elem_of_nil|done]|by intros [_ ->]].
  - rewrite filter_cons. unfold held at 2. cbn [snd]. destruct (Z.eqb_spec q 0) as [->|Hz].
    + rewrite decide_False by (intros H; by apply H). rewrite IH. apply and_iff_compat_r. split; [|intros H p Hp; apply H; by right].
      intros H p [->|Hp]%elem_of_cons; [intros Hh; by destruct Hh|by apply H].
    + rewrite decide_True by done. rewrite fmap_cons. split.
      * intros (v & Hv & H)%obind_Ok. apply obind_Ok in H as (vs' & Hvs & [= <-]). apply position_value_exact in Hv as [Hok ->]; [|done..]. apply IH in Hvs as [Hl ->].
        split; [|done]. intros p [->|Hp]%elem_of_cons; [done|by apply Hl].
      * intros [H ->]. assert (position_value table (id, o, q) = Ok (position_mark table (id, o, q))) as Hv by (apply position_value_exact; try done; split; [apply H; [left|done]|done]).
        rewrite Hv, Ok_then. assert (position_values table l = Ok (position_mark table <$> filter held l)) as Hl by (apply IH; split; [intros p Hp; apply H; by right|done]).
        by rewrite Hl.
Qed.
Lemma unheld_mark table positions : sumZ (position_mark table) (filter held positions) = sumZ (position_mark table) positions.
Proof.
  induction positions as [|[[id o] q] l IH]; [done|]. rewrite filter_cons. destruct (decide (held (id, o, q))) as [|Hn]; cbn [sumZ]; rewrite IH; [done|].
  unfold held in Hn. apply dec_stable in Hn. cbn in Hn. subst q. cbn [position_mark]. by destruct (_ ≫= _).
Qed.

(** ** Opened markets *)

Definition market_ids (ms : list MarketLeafWitness) : list Z := (λ w, msn_market_id (ml_market w)) <$> ms.
Definition market_table (ms : list MarketLeafWitness) : gmap Z MarketSnapshot := list_to_map ((λ w, (msn_market_id (ml_market w), ml_market w)) <$> ms).
Lemma market_table_ids ms : ((λ w, (msn_market_id (ml_market w), ml_market w)) <$> ms).*1 = market_ids ms.
Proof. unfold market_ids. rewrite <- list_fmap_compose. done. Qed.
Lemma market_table_dom ms : dom (market_table ms) = list_to_set (C := gset Z) (market_ids ms).
Proof. unfold market_table. by rewrite dom_list_to_map_L, market_table_ids. Qed.
Lemma market_table_elem ms id m : market_table ms !! id = Some m → ∃ w, w ∈ ms ∧ ml_market w = m.
Proof. intros H%elem_of_list_to_map_2. apply list_elem_of_fmap in H as (w & [= _ ->] & Hw). by exists w. Qed.

Section sha.
Context (sha256 keccak256 : Bytes → Bytes) (p256 : Bytes → Bytes → Bytes → bool).

Definition market_opened (root : Bytes) (w : MarketLeafWitness) : Prop :=
  market_prices_wf (ml_market w) ∧ verify_qmdb_key_value_proof sha256 (E := EscapeClaimError) root (market_leaf (ml_market w)).1 (market_leaf (ml_market w)).2 (ml_proof w) = Ok true.
(** One proof for each market the account holds, and no other. *)
Record markets_opened (root : Bytes) (required : gset Z) (ms : list MarketLeafWitness) : Prop := {
  mo_nodup : NoDup (market_ids ms);
  mo_required : list_to_set (market_ids ms) = required;
  mo_opened : Forall (market_opened root) ms;
}.

Lemma open_market_exact root required opened w opened' : open_market sha256 root required opened w = Ok opened' ↔
  msn_market_id (ml_market w) ∈ required ∧ opened !! msn_market_id (ml_market w) = None ∧ market_opened root w ∧ opened' = <[msn_market_id (ml_market w) := ml_market w]> opened.
Proof.
  unfold open_market, market_opened. cbn zeta. rewrite reject_then, unit_then, market_prices_exact, orb_false_iff, negb_false_iff, bool_decide_eq_true, bool_decide_eq_false, <- eq_None_not_Some.
  destruct (verify_qmdb_key_value_proof _ _ _ _ _) as [[]| |].
  - rewrite Ok_then. change ((reject_if (negb true) Escape.MarketProof;; Ok (<[msn_market_id (ml_market w):=ml_market w]> opened)) = Ok opened') with (Ok (E := EscapeClaimError) (<[msn_market_id (ml_market w):=ml_market w]> opened) = Ok opened').
    split; [intros ((? & ?) & ? & [= <-]); done|intros (? & ? & (? & _) & ->); done].
  - split; [by intros (_ & _ & ?)|by intros (_ & _ & (_ & ?) & _)].
  - split; [by intros (_ & _ & ?)|by intros (_ & _ & (_ & ?) & _)].
  - split; [by intros (_ & _ & ?)|by intros (_ & _ & (_ & ?) & _)].
Qed.
Lemma open_markets_exact root required ms opened : ofold (open_market sha256 root required) ∅ ms = Ok opened ↔
  NoDup (market_ids ms) ∧ Forall (λ id, id ∈ required) (market_ids ms) ∧ Forall (market_opened root) ms ∧ opened = market_table ms.
Proof.
  revert opened. induction ms as [|w ms IH] using rev_ind; intros opened.
  - split; [intros [= <-]; split_and!; constructor|by intros (_ & _ & _ & ->)].
  - unfold market_ids, market_table in *. rewrite ofold_app, !fmap_app. cbn [fmap list_fmap]. rewrite NoDup_app, !Forall_app, !Forall_singleton. split.
    + intros (o & (Hn & Hr & Ho & ->)%IH & H)%obind_Ok. cbn [ofold] in H. apply obind_Ok in H as (o' & (Hid & Hfresh & Hw & ->)%open_market_exact & [= <-]).
      apply not_elem_of_list_to_map_2 in Hfresh. rewrite market_table_ids in Hfresh. rewrite list_to_map_snoc by (by rewrite market_table_ids). split_and!; try done; [|apply NoDup_singleton].
      intros x Hx ->%list_elem_of_singleton. done.
    + intros ((Hn & Hd & _) & (Hr & Hid) & (Ho & Hw) & ->). assert (msn_market_id (ml_market w) ∉ market_ids ms) as Hfresh by (intros Hx; apply (Hd _ Hx); by apply list_elem_of_singleton).
      rewrite (proj2 (IH (list_to_map ((λ w, (msn_market_id (ml_market w), ml_market w)) <$> ms)))) by done. rewrite Ok_then. cbn [ofold]. fold (market_table ms).
      rewrite (proj2 (open_market_exact root required (market_table ms) w (<[msn_market_id (ml_market w) := ml_market w]> (market_table ms)))).
      * rewrite list_to_map_snoc by (by rewrite market_table_ids). done.
      * split_and!; try done. apply not_elem_of_list_to_map_1. by rewrite market_table_ids.
Qed.
Lemma all_markets_exact root required ms : (∃ opened, ofold (open_market sha256 root required) ∅ ms = Ok opened ∧ size opened = size required ∧ opened = market_table ms) ↔ markets_opened root required ms.
Proof.
  split.
  - intros (opened & (Hn & Hr & Ho & ->)%open_markets_exact & Hs & _). split; try done. rewrite <- size_dom, market_table_dom in Hs.
    apply set_subseteq_size_eq; [|by rewrite Hs]. intros x Hx%elem_of_list_to_set. exact (proj1 (Forall_forall _ _) Hr x Hx).
  - intros [Hn Hr Ho]. exists (market_table ms). split_and!; [|rewrite <- size_dom, market_table_dom, Hr; done|done]. apply open_markets_exact. split_and!; try done.
    apply Forall_forall. intros x Hx. rewrite <- Hr. by apply elem_of_list_to_set.
Qed.

(** The account's positions at the opened prices give the claimed amount. *)
Record valuation (account : AccountSnapshot) (reserved : Z) (ms : list MarketLeafWitness) (root : Bytes) (amount : Z) : Prop := {
  va_markets : markets_opened root (required_markets (asn_positions account)) ms;
  va_positions : ∀ p, p ∈ asn_positions account → held p → position_ok (market_table ms) p;
  va_fits : claim_nanos account reserved (market_table ms) ≤ int_max U64;
  va_amount : amount = Z.max 0 (claim_nanos account reserved (market_table ms)) / NANOS_PER_TOKEN_UNIT;
}.

Lemma table_typed root ms : Forall (λ w, Forall u64 (msn_last_clearing_prices (ml_market w))) ms → Forall (market_opened root) ms → table_wf (market_table ms).
Proof.
  intros Hu Ho id m (w & Hw & <-)%market_table_elem. rewrite Forall_forall in Hu, Ho. split; [apply (Ho w Hw)|by apply Hu].
Qed.
Lemma marks_bounded table (positions : list (MarketId * Z * Z)) : (∀ p, p ∈ positions → held p → position_ok table p) → ∀ x, x ∈ position_mark table <$> filter held positions → Z.abs x ≤ int_max I64.
Proof.
  intros H x (p & -> & [Hh Hp]%list_elem_of_filter)%list_elem_of_fmap. pose proof (H p Hp Hh) as Hok. destruct p as [[id o] q]. by destruct Hok as (? & _ & _ & ?).
Qed.
Lemma positions_nanos account reserved table : claim_typed account reserved → (∀ p, p ∈ asn_positions account → held p → position_ok table p) →
  checked_x_nanos (asn_balance account) (position_mark table <$> filter held (asn_positions account)) reserved = Ok (claim_nanos account reserved table).
Proof.
  intros [Hb Hr _ Hl] Hp. rewrite x_nanos_exact; [|done|done|by apply marks_bounded|].
  - unfold claim_nanos. by rewrite sumZ_fmap, <- (unheld_mark table (asn_positions account)).
  - rewrite length_fmap. pose proof (length_filter held (asn_positions account)). lia.
Qed.

Lemma withdrawable_exact account reserved ms root amount : claim_typed account reserved → Forall (λ w, Forall u64 (msn_last_clearing_prices (ml_market w))) ms →
  compute_withdrawable_token_units sha256 account reserved ms root = Ok amount ↔ valuation account reserved ms root amount.
Proof.
  intros Ht Hu. unfold compute_withdrawable_token_units. cbn zeta. split.
  - intros (opened & Ho & H)%obind_Ok. rewrite reject_then, negb_false_iff, bool_decide_eq_true in H. destruct H as [Hs H]. pose proof (proj1 (open_markets_exact _ _ _ _) Ho) as (_ & _ & Hall & ->).
    assert (markets_opened root (required_markets (asn_positions account)) ms) as Hm by (apply all_markets_exact; by eexists). apply obind_Ok in H as (vs & Hv & H).
    apply position_values_exact in Hv as [Hp ->]; [|by eapply table_typed|apply Ht]. rewrite positions_nanos, Ok_then, ok_or_then in H by done.
    destruct H as (n & [-> Hn]%chk_Some & [= <-]). split; try done; [lia|by rewrite Z.max_comm].
  - intros [Hm Hp Hf ->]. destruct (proj2 (all_markets_exact _ _ _) Hm) as (opened & Ho & Hs & ->). rewrite Ho, Ok_then, reject_then, negb_false_iff, bool_decide_eq_true. split; [done|].
    rewrite (proj2 (position_values_exact (market_table ms) (asn_positions account) (position_mark (market_table ms) <$> filter held (asn_positions account)) (table_typed root ms Hu (mo_opened _ _ _ Hm)) (ct_positions _ _ Ht))) by done.
    rewrite Ok_then, positions_nanos, Ok_then, ok_or_then by done. exists (Z.max 0 (claim_nanos account reserved (market_table ms))). split; [|done]. rewrite Z.max_comm. apply chk_in. change (int_min U64) with 0. change (int_max U64) with 18446744073709551615 in *. lia.
Qed.

End sha.

(** ** Keys *)

Definition active_key_ok (k : KeyRecord) : Prop := kr_auth_scheme k ≤ 1 ∧ (kr_pubkey_sec1 k !! 0%nat = Some 2 ∨ kr_pubkey_sec1 k !! 0%nat = Some 3).
Lemma active_key_exact pubkeys k s : check_active_key pubkeys k = Ok s ↔ active_key_ok k ∧ kr_pubkey_sec1 k ∉ pubkeys ∧ s = {[kr_pubkey_sec1 k]} ∪ pubkeys.
Proof.
  unfold check_active_key, active_key_ok, idx. rewrite reject_then, Z.gtb_ltb, Z.ltb_ge. destruct (kr_pubkey_sec1 k !! 0%nat) as [b|]; cbn [expect]; [|split; [by intros [_ ?]|by intros ((_ & [?|?]) & _)]].
  rewrite Ok_then, !reject_then, negb_false_iff, orb_true_iff, !Z.eqb_eq, bool_decide_eq_false. split.
  - intros (Hs & Hb & Hn & [= <-]). split_and!; try done. destruct Hb as [-> | ->]; [by left|by right].
  - intros ((Hs & Hb) & Hn & ->). split_and!; try done. destruct Hb as [[= ->]|[= ->]]; [by left|by right].
Qed.
Lemma active_keys_exact keys : (∃ s, ofold check_active_key ∅ keys = Ok s) ↔ Forall active_key_ok keys ∧ NoDup (kr_pubkey_sec1 <$> keys).
Proof.
  enough (∀ s, ofold check_active_key ∅ keys = Ok s ↔ (Forall active_key_ok keys ∧ NoDup (kr_pubkey_sec1 <$> keys)) ∧ s = list_to_set (kr_pubkey_sec1 <$> keys)) as Hx.
  { split; [by intros [s [? _]%Hx]|intros H; eexists; by apply Hx]. }
  induction keys as [|k keys IH] using rev_ind; intros s; [split; [intros [= <-]; split; [split; constructor|done]|by intros [_ ->]]|].
  rewrite ofold_app, fmap_app, Forall_app, Forall_singleton, NoDup_app. cbn [fmap list_fmap]. rewrite list_to_set_app_L. cbn [list_to_set]. split.
  - intros (s' & ((Hf & Hn) & ->)%IH & H)%obind_Ok. cbn [ofold] in H. apply obind_Ok in H as (s2 & (Hk & Hfresh & ->)%active_key_exact & [= <-]). rewrite elem_of_list_to_set in Hfresh.
    split_and!; try done; [|apply NoDup_singleton|set_solver]. intros x Hx ->%list_elem_of_singleton. done.
  - intros (((Hf & Hk) & Hn & Hd & _) & ->). rewrite (proj2 (IH (list_to_set (kr_pubkey_sec1 <$> keys)))) by done. rewrite Ok_then. cbn [ofold].
    rewrite (proj2 (active_key_exact (list_to_set (kr_pubkey_sec1 <$> keys)) k ({[kr_pubkey_sec1 k]} ∪ list_to_set (kr_pubkey_sec1 <$> keys)))); [rewrite Ok_then; f_equal; set_solver|].
    split_and!; try done. rewrite elem_of_list_to_set. intros Hx. apply (Hd _ Hx). by apply list_elem_of_singleton.
Qed.

(** ** Which claims are accepted *)

Section claim.
Context (sha256 keccak256 : Bytes → Bytes) (p256 : Bytes → Bytes → Bytes → bool).

Definition reservation_opened (input : EscapeClaimGuestInput) (reserved : Z) : Prop :=
  let root := ec_state_root (eg_public_inputs input) in
  let key := account_reservation_leaf_key (ec_account_id (eg_public_inputs input)) in
  match eg_account_reservation input with
  | Inclusion r proof => ars_account_id r = ec_account_id (eg_public_inputs input) ∧
      verify_qmdb_key_value_proof sha256 (E := EscapeClaimError) root key (account_reservation_leaf r).2 proof = Ok true ∧ reserved = ars_reserved_balance r
  | Exclusion proof => verify_qmdb_exclusion_proof sha256 (E := EscapeClaimError) root key proof = Ok true ∧ reserved = 0
  end.
Lemma reservation_exact input reserved : verify_reservation sha256 input = Ok reserved ↔ reservation_opened input reserved.
Proof.
  unfold verify_reservation, reservation_opened. cbn zeta. destruct (eg_account_reservation input) as [r p|p].
  - rewrite reject_then, negb_false_iff, Z.eqb_eq. apply and_iff_compat_l. destruct (verify_qmdb_key_value_proof _ _ _ _ _) as [[]| |]; try (split; [done|by intros [? _]]).
    rewrite Ok_then, reject_then. split; [by intros (_ & [= <-])|by intros (_ & ->)].
  - destruct (verify_qmdb_exclusion_proof _ _ _ _) as [[]| |]; try (split; [done|by intros [? _]]). rewrite Ok_then, reject_then. split; [by intros (_ & [= <-])|by intros (_ & ->)].
Qed.

(** The account's key set, and the signature of one of its keys over the claim. *)
Record claim_authorised (input : EscapeClaimGuestInput) : Prop := {
  ca_count : (1 ≤ length (eg_active_keys input) ≤ 16)%nat;
  ca_keys : Forall active_key_ok (eg_active_keys input);
  ca_distinct : NoDup (kr_pubkey_sec1 <$> eg_active_keys input);
  ca_digest : asn_keys_digest (eg_account input) = account_keys_digest sha256 (ec_account_id (eg_public_inputs input)) (eg_active_keys input);
  ca_signature : verify_keyop_auth sha256 p256 (eg_authorization input) (eg_active_keys input) (claim_message input) = Ok ();
}.
Lemma authorised_exact input : verify_key_binding_and_authorization sha256 p256 input = Ok () ↔ claim_authorised input.
Proof.
  unfold verify_key_binding_and_authorization. cbn zeta. rewrite !reject_then, first_then, reject_then, map_err_Ok_iff, active_keys_exact, Z.gtb_ltb, Z.ltb_ge, !bool_decide_eq_false.
  unfold MAX_KEYS_PER_ACCOUNT. split.
  - intros (Hne & Hl & (Hk & Hn) & Hd & Ha). split; try done; [|by apply dec_stable]. destruct (eg_active_keys input); [done|]. cbn [length] in *. lia.
  - intros [[Hne Hl] Hk Hn Hd Ha]. split_and!; try done; [by intros E; rewrite E in Hne; cbn in Hne; lia|lia|by intros ?].
Qed.

Record claim_holds (input : EscapeClaimGuestInput) : Prop := {
  ch_not_mint : ec_account_id (eg_public_inputs input) ≠ MINT_ACCOUNT_ID;
  ch_account : asn_id (eg_account input) = ec_account_id (eg_public_inputs input);
  ch_leaf : verify_qmdb_key_value_proof sha256 (E := EscapeClaimError) (ec_state_root (eg_public_inputs input)) (account_leaf (eg_account input)).1 (account_leaf (eg_account input)).2
    (eg_account_proof input) = Ok true;
  ch_value : ∃ reserved, reservation_opened input reserved ∧
    valuation sha256 (eg_account input) reserved (eg_markets input) (ec_state_root (eg_public_inputs input)) (ec_amount (eg_public_inputs input));
  ch_authorised : claim_authorised input;
  ch_nullifier : ec_nullifier (eg_public_inputs input) =
    escape_nullifier keccak256 (eg_chain_id input) (eg_vault_address input) (ec_account_id (eg_public_inputs input)) (ec_state_root (eg_public_inputs input));
}.
(** The machine types of the numbers of a claim. *)
Record input_typed (input : EscapeClaimGuestInput) : Prop := {
  it_account : claim_typed (eg_account input) 0;
  it_reservation : match eg_account_reservation input with Inclusion r _ => i64 (ars_reserved_balance r) | Exclusion _ => True end;
  it_markets : Forall (λ w, Forall u64 (msn_last_clearing_prices (ml_market w))) (eg_markets input);
}.
Lemma reserved_typed input reserved : input_typed input → reservation_opened input reserved → claim_typed (eg_account input) reserved.
Proof.
  intros [[Hb H0 Hp Hl] Hr _]. unfold reservation_opened. cbn zeta. destruct (eg_account_reservation input); [intros (_ & _ & ->)|intros (_ & ->)]; by split.
Qed.

Lemma claim_exact input h : input_typed input → verify_escape_claim sha256 keccak256 p256 input = Ok h ↔
  claim_holds input ∧ h = escape_claim_public_input_hash keccak256 (eg_public_inputs input).
Proof.
  intros Ht. unfold verify_escape_claim. cbn zeta. rewrite !reject_then, negb_false_iff, Z.eqb_eq, Z.eqb_neq. split.
  - intros (Hm & Hid & H). apply obind_Ok in H as (v & Hv & H). rewrite reject_then, negb_false_iff in H. destruct H as [-> H]. apply obind_Ok in H as (reserved & Hr%reservation_exact & H).
    rewrite unit_then, authorised_exact in H. destruct H as [Ha H]. apply obind_Ok in H as (amount & Hw & H). apply withdrawable_exact in Hw; [|by eapply reserved_typed|apply Ht].
    rewrite !reject_then, negb_false_iff, Z.eqb_eq, bool_decide_eq_false in H. destruct H as (<- & Hn & [= <-]). split; [|done]. split; try done; [|by eexists|by apply dec_stable].
    cbn [account_leaf fst]. rewrite Hid. exact Hv.
  - intros ([Hm Hid Hl (reserved & Hr & Hw) Ha Hn] & ->). split_and!; try done. cbn [account_leaf fst] in Hl. rewrite Hid in Hl. rewrite Hl, Ok_then. cbn [negb reject_if]. rewrite Ok_then.
    rewrite (proj2 (reservation_exact input reserved) Hr), Ok_then, unit_then, authorised_exact. split; [done|].
    rewrite (proj2 (withdrawable_exact _ _ _ _ _ _ (reserved_typed _ _ Ht Hr) (it_markets _ Ht)) Hw), Ok_then, !reject_then, negb_false_iff, Z.eqb_eq, bool_decide_eq_false. split_and!; try done.
    intros H. by apply H.
Qed.

Definition nullifier_words (input : EscapeClaimGuestInput) : list AbiWord :=
  [Uint (eg_chain_id input); Address (eg_vault_address input); Uint (ec_account_id (eg_public_inputs input)); Bytes32 (ec_state_root (eg_public_inputs input))].
Lemma accepted_nullifier input h : verify_escape_claim sha256 keccak256 p256 input = Ok h →
  ec_nullifier (eg_public_inputs input) = keccak256 (abi_encode_domain_and_words ESCAPE_NULLIFIER_DOMAIN (nullifier_words input)).
Proof.
  unfold verify_escape_claim. cbn zeta. rewrite !reject_then. intros (_ & _ & H). apply obind_Ok in H as (v & _ & H). rewrite reject_then in H. destruct H as [_ H].
  apply obind_Ok in H as (r & _ & H). rewrite unit_then in H. destruct H as [_ H]. apply obind_Ok in H as (a & _ & H). rewrite !reject_then, bool_decide_eq_false in H.
  destruct H as (_ & Hn & _). by apply dec_stable in Hn.
Qed.
End claim.

(** C11: an escape claim is accepted exactly when the account leaf, its reservation
    (or its absence) and one leaf for each market it holds open against the state
    root, one to sixteen distinct committed keys include the signer of this root,
    height, account, recipient and amount, the amount is the balance plus the
    positions at the last clearing prices minus the reservation, floored to zero
    and to token units, and the nullifier is the one of this vault, account and
    root; the result is then the hash of the public inputs. *)
Theorem escape_claim_exact sha256 keccak256 p256 input h : input_typed input →
  verify_escape_claim sha256 keccak256 p256 input = Ok h ↔ claim_holds sha256 keccak256 p256 input ∧ h = escape_claim_public_input_hash keccak256 (eg_public_inputs input).
Proof. apply claim_exact. Qed.

(** C29: two accepted claims carry the same nullifier exactly when they are claims
    of the same account on the same vault, chain and state root, or Keccak has a
    collision: a vault that pays a nullifier once pays an account once per root
    and never refuses another account for it. *)
Theorem escape_nullifier_once sha256 keccak256 p256 input input' h h' :
  Forall abi_word_ok (nullifier_words input) → Forall abi_word_ok (nullifier_words input') →
  verify_escape_claim sha256 keccak256 p256 input = Ok h → verify_escape_claim sha256 keccak256 p256 input' = Ok h' →
  (ec_nullifier (eg_public_inputs input) = ec_nullifier (eg_public_inputs input') ↔ nullifier_words input = nullifier_words input') ∨ collision keccak256.
Proof.
  intros Hw Hw' ->%accepted_nullifier ->%accepted_nullifier.
  destruct (decide (abi_encode_domain_and_words ESCAPE_NULLIFIER_DOMAIN (nullifier_words input) = abi_encode_domain_and_words ESCAPE_NULLIFIER_DOMAIN (nullifier_words input'))) as [He|Hne].
  - left. apply abi_encode_inj in He as ->; [done..|by repeat constructor].
  - destruct (decide (keccak256 (abi_encode_domain_and_words ESCAPE_NULLIFIER_DOMAIN (nullifier_words input)) = keccak256 (abi_encode_domain_and_words ESCAPE_NULLIFIER_DOMAIN (nullifier_words input')))) as [H|H].
    + right. by eexists _, _.
    + left. split; [by intros ?%H|]. intros He. by rewrite He in Hne.
Qed.

(** Once the positions of an account are priced, their sum with the balance
    and the reservation fits the 128-bit accumulator and is the exact value of the
    claim: the accumulation never overflows. *)
Theorem escape_accumulation_bounded account reserved ms root values : claim_typed account reserved →
  Forall (λ w, Forall u64 (msn_last_clearing_prices (ml_market w))) ms → Forall (λ w, validate_market_prices (ml_market w) = Ok ()) ms →
  position_values (market_table ms) (asn_positions account) = Ok values →
  checked_x_nanos (asn_balance account) values reserved = Ok (claim_nanos account reserved (market_table ms)) ∧ length values = length (filter held (asn_positions account)) ∧
  (∀ sha256 amount, compute_withdrawable_token_units sha256 account reserved ms root = Ok amount → 0 ≤ amount ≤ 18446744073709551).
Proof.
  intros Ht Hu Hv Hp. apply position_values_exact in Hp as [Hp ->]; [|intros id m (w & Hw & <-)%market_table_elem; rewrite Forall_forall in Hu, Hv; split; [by apply market_prices_exact, Hv|by apply Hu]|apply Ht].
  split_and!; [by apply positions_nanos|by rewrite length_fmap|]. intros sha256 amount [_ _ Hf ->]%withdrawable_exact; [|done..]. unfold NANOS_PER_TOKEN_UNIT.
  change (int_max U64) with 18446744073709551615 in Hf. split; [apply Z.div_pos; lia|]. apply Z.lt_succ_r, Z.div_lt_upper_bound; lia.
Qed.

(** ** A claim against a tree of seven leaves *)

Definition ex_key_record : KeyRecord := mkKeyRecord 0 (2 :: replicate 32 5) 1.
Definition ex_claimant : AccountSnapshot := mkAccountSnapshot 1 5000000 5000000 [(7, 0, 4); (7, 1, 4)] (replicate 32 0) (account_keys_digest ex_digest 1 [ex_key_record]) 0.
Definition ex_claim_leaves : list (Bytes * Bytes) := state_root_leaves ex_digest [ex_claimant] ex_link_sidecar.
Definition ex_claim_root : Bytes := Eval vm_compute in ex_tree_root ex_claim_leaves.
Definition ex_claim_proof (i : nat) : QmdbStateKeyValueProof := ex_leaf_proof ex_claim_leaves i.
(** The account leaf is followed by the market leaf: no reservation lies between. *)
Definition ex_no_reservation : QmdbStateExclusionProof :=
  KeyValue (kv_operation (ex_claim_proof 0)) (ex_claim_leaves !!! 0%nat).1 (ex_claim_leaves !!! 0%nat).2 (kv_next_key (ex_claim_proof 0)).
Definition ex_market : MarketSnapshot := mkMarketSnapshot 7 "m" 2 StatusActive (replicate 32 1) "t" [400000000; 600000000].
Definition ex_escape : EscapeClaimGuestInput :=
  mkEscapeClaimGuestInput (mkEscapeClaimPublicInputs ex_claim_root 1 1 (replicate 20 8) 9000 (escape_nullifier ex_digest 1 (replicate 20 7) 1 ex_claim_root))
    (replicate 32 4) 1 (replicate 20 7) ex_claimant (ex_claim_proof 0) (Exclusion ex_no_reservation) [mkMarketLeafWitness ex_market (ex_claim_proof 1)] [ex_key_record]
    (RawP256 (kr_pubkey_sec1 ex_key_record) (replicate 64 3)).
Lemma ex_escape_ok : verify_escape_claim ex_digest ex_digest (λ _ _ _, true) ex_escape = Ok (escape_claim_public_input_hash ex_digest (eg_public_inputs ex_escape)).
Proof. vm_compute. reflexivity. Qed.
Lemma ex_escape_typed : input_typed ex_escape.
Proof.
  split; [split; [by vm_compute|by vm_compute| |by vm_compute]|exact I|].
  - repeat constructor; by vm_compute.
  - repeat constructor; by vm_compute.
Qed.
Lemma ex_escape_words : Forall abi_word_ok (nullifier_words ex_escape).
Proof. apply (bool_decide_unpack (Forall abi_word_ok (nullifier_words ex_escape))). vm_compute. exact I. Qed.

Lemma escape_claim_exact_witness : claim_holds ex_digest ex_digest (λ _ _ _, true) ex_escape ∧ ec_amount (eg_public_inputs ex_escape) = 9000.
Proof.
  split; [|reflexivity].
  apply (escape_claim_exact ex_digest ex_digest (λ _ _ _, true) ex_escape (escape_claim_public_input_hash ex_digest (eg_public_inputs ex_escape)) ex_escape_typed). exact ex_escape_ok.
Defined.
Lemma escape_nullifier_once_witness :
  (ec_nullifier (eg_public_inputs ex_escape) = ec_nullifier (eg_public_inputs ex_escape) ↔ nullifier_words ex_escape = nullifier_words ex_escape) ∨ collision ex_digest.
Proof.
  exact (escape_nullifier_once ex_digest ex_digest (λ _ _ _, true) ex_escape ex_escape _ _ ex_escape_words ex_escape_words ex_escape_ok ex_escape_ok).
Defined.
Lemma escape_accumulation_bounded_witness :
  checked_x_nanos 5000000 [1600000; 2400000] 0 = Ok (claim_nanos ex_claimant 0 (market_table (eg_markets ex_escape))).
Proof.
  apply (escape_accumulation_bounded ex_claimant 0 (eg_markets ex_escape) ex_claim_root [1600000; 2400000]).
  - exact (it_account _ ex_escape_typed).
  - exact (it_markets _ ex_escape_typed).
  - repeat constructor.
  - vm_compute. reflexivity.
Defined.
