(* ===== verification/ProofProtocol.v ===== *)
(** * ProofProtocol: proof jobs and proof envelopes

    Models [crates/sybil-proof-protocol/src/job.rs] (the job the sequencer hands to
    the prover, and the guest input built from it) and [envelope.rs] (the metadata
    that binds a proof payload to an epoch statement). *)
From S2P Require Import Prelude Types Order MmConstraint Account Snapshots Digest Finalize Witness Sidecar SettlementVerifier MatchVerifier OrdersVerifier L1Protocol DepositFrontier AccountKeys WebAuthn Signing ClientAction KeyTransition WitnessBytes WitnessDecode WitnessTyping BridgeSidecar BridgeVerified SidecarMarkets StateCommitment StateBinding BlockChain Mmr QmdbProof ZkTransition StatementExact DepositCheckpoint TransitionExact EpochTransition TransitionExample.

(** ** Jobs *)

Definition STATE_TRANSITION_PROOF_JOB_VERSION : Z := 2.
Definition PROOF_JOB_TRANSPORT_DIGEST_DOMAIN : Bytes := ascii_bytes "sybil/proof-job-transport/v1".

Record StateTransitionStateLeafProof := mkStateTransitionStateLeafProof { lp_key : Bytes; lp_value : Bytes; lp_proof : QmdbStateKeyValueProof }.
Record StateTransitionProofJob := mkStateTransitionProofJob {
  pj_format_version : Z;
  pj_block_height : Z;
  pj_block_hash : Bytes;
  pj_state_root : Bytes;
  pj_witness : BlockWitness;
  pj_state_leaf_proofs : list StateTransitionStateLeafProof;
  pj_pre_state_leaf_proofs : list StateTransitionStateLeafProof;
}.
Record StateTransitionProofJobId := mkStateTransitionProofJobId { ji_block_height : Z; ji_block_hash : Bytes; ji_state_root : Bytes }.

Module Job.
Inductive ProofJobError :=
  | UnsupportedProofJobVersion (expected actual : Z)
  | ProofJobMetadataMismatch (field : string)
  | StateRootMismatch
  | ProofJobLeafCountMismatch (expected actual : Z)
  | WitnessLeafMismatch (index : Z)
  | StateRootProofFailed (source : ZkTransitionError).
End Job.
Abbreviation ProofJobError := Job.ProofJobError (only parsing).

Section job.
Context (sha256 blake3 : Bytes → Bytes).

Definition proof_job_transport_digest (bytes : Bytes) : Bytes :=
  blake3 (PROOF_JOB_TRANSPORT_DIGEST_DOMAIN ++ le_bytes 8 (Z.of_nat (length bytes)) ++ bytes).

Definition StateTransitionProofJob_new (w : BlockWitness) (state_leaf_proofs pre_state_leaf_proofs : list StateTransitionStateLeafProof) : StateTransitionProofJob :=
  mkStateTransitionProofJob STATE_TRANSITION_PROOF_JOB_VERSION (hd_height (bw_header w)) (hash_header blake3 (bw_header w)) (hd_state_root (bw_header w)) w
    state_leaf_proofs pre_state_leaf_proofs.
Definition StateTransitionProofJob_id (job : StateTransitionProofJob) : StateTransitionProofJobId :=
  mkStateTransitionProofJobId (pj_block_height job) (pj_block_hash job) (pj_state_root job).

Definition validate_job_metadata (job : StateTransitionProofJob) : outcome ProofJobError unit :=
  let h := bw_header (pj_witness job) in
  reject_if (negb (pj_format_version job =? STATE_TRANSITION_PROOF_JOB_VERSION))
    (Job.UnsupportedProofJobVersion STATE_TRANSITION_PROOF_JOB_VERSION (pj_format_version job));;
  reject_if (negb (pj_block_height job =? hd_height h)) (Job.ProofJobMetadataMismatch "block_height");;
  reject_if (neq (pj_block_hash job) (hash_header blake3 h)) (Job.ProofJobMetadataMismatch "block_hash");;
  reject_if (neq (pj_state_root job) (hd_state_root h)) Job.StateRootMismatch.

(** The loop that compares the leaves of the witness with the proved ones. *)
Definition check_job_leaf (e : nat * ((Bytes * Bytes) * StateTransitionStateLeafProof)) : outcome ProofJobError unit :=
  let '(index, ((expected_key, expected_value), proof)) := e in
  reject_if (neq (lp_key proof) expected_key || neq (lp_value proof) expected_value) (Job.WitnessLeafMismatch (Z.of_nat index)).
(** The checks on one list of leaf proofs: count, leaves, root. *)
Definition check_job_leaves (root : Bytes) (leaves : list (Bytes * Bytes)) (proofs : list StateTransitionStateLeafProof) : outcome ProofJobError QmdbStateRootProof :=
  reject_if (negb (bool_decide (length proofs = length leaves))) (Job.ProofJobLeafCountMismatch (Z.of_nat (length leaves)) (Z.of_nat (length proofs)));;
  ofold (λ _, check_job_leaf) () (enumerate (zip leaves proofs));;
  let proof := mkQmdbStateRootProof (lp_proof <$> proofs) in
  map_err Job.StateRootProofFailed (verify_qmdb_state_root_for sha256 root leaves proof);;
  Ok proof.

Definition public_inputs_from_witness (w : BlockWitness) : StateTransitionPublicInputs := public_inputs_from_witness_and_provider_refs blake3 w [].
Definition build_state_transition_guest_input (job : StateTransitionProofJob) : outcome ProofJobError StateTransitionGuestInput :=
  let w := pj_witness job in
  validate_job_metadata job;;
  state_root_proof ← check_job_leaves (pj_state_root job) (state_root_leaves sha256 (bw_post_state w) (bw_state_sidecar w)) (pj_state_leaf_proofs job);
  pre_state_root_proof ←
    match bw_previous_header w with
    | Some previous =>
        check_job_leaves (hd_state_root previous) (state_root_leaves sha256 (bw_pre_state w) (bw_pre_state_sidecar w)) (pj_pre_state_leaf_proofs job)
    | None =>
        reject_if (negb (bool_decide (pj_pre_state_leaf_proofs job = []))) (Job.ProofJobLeafCountMismatch 0 (Z.of_nat (length (pj_pre_state_leaf_proofs job))));;
        Ok (mkQmdbStateRootProof [])
    end;
  Ok (mkStateTransitionGuestInput (public_inputs_from_witness w) w [] state_root_proof pre_state_root_proof).
End job.

(** ** Envelopes *)

Definition PROOF_ENVELOPE_VERSION : Z := 1.
Definition PROOF_PAYLOAD_DIGEST_DOMAIN : Bytes := ascii_bytes "sybil/proof-payload-digest/v1".
Definition EPOCH_ID_DOMAIN : Bytes := ascii_bytes "sybil/epoch-id/v1".

Inductive ProofKind := Mock | OpenVmStark | OpenVmEvm.
Definition is_l1_submittable (k : ProofKind) : bool := match k with OpenVmEvm => true | _ => false end.

Record ProofEnvelope := mkProofEnvelope {
  pe_format_version : Z;
  pe_proof_kind : ProofKind;
  pe_epoch_id : Bytes;
  pe_public_inputs : EpochTransitionPublicInputs;
  pe_public_input_hash : Bytes;
  pe_app_exe_commit : Bytes;
  pe_app_vm_commit : Bytes;
  pe_payload_digest : Bytes;
  pe_payload_len : Z;
  pe_created_at_ms : Z;
}.

Module Envelope.
Inductive ProofEnvelopeError :=
  | UnsupportedVersion (expected actual : Z)
  | PublicInputHashMismatch
  | EpochIdMismatch
  | NotL1Submittable (proof_kind : ProofKind)
  | PayloadLengthMismatch (expected actual : Z)
  | PayloadDigestMismatch.
End Envelope.
Abbreviation ProofEnvelopeError := Envelope.ProofEnvelopeError (only parsing).

Section envelope.
Context (blake3 keccak256 : Bytes → Bytes).

Definition EpochId_from_public_inputs (inputs : EpochTransitionPublicInputs) : Bytes :=
  blake3 (EPOCH_ID_DOMAIN ++ epoch_transition_public_input_hash keccak256 inputs).
Definition proof_payload_digest (payload : Bytes) : Bytes :=
  blake3 (PROOF_PAYLOAD_DIGEST_DOMAIN ++ le_bytes 8 (Z.of_nat (length payload)) ++ payload).

Definition ProofEnvelope_new (proof_kind : ProofKind) (public_inputs : EpochTransitionPublicInputs) (app_exe_commit app_vm_commit payload_digest : Bytes)
    (payload_len created_at_ms : Z) : ProofEnvelope :=
  mkProofEnvelope PROOF_ENVELOPE_VERSION proof_kind (EpochId_from_public_inputs public_inputs) public_inputs
    (epoch_transition_public_input_hash keccak256 public_inputs) app_exe_commit app_vm_commit payload_digest payload_len created_at_ms.
Definition ProofEnvelope_validate (self : ProofEnvelope) : outcome ProofEnvelopeError unit :=
  reject_if (negb (pe_format_version self =? PROOF_ENVELOPE_VERSION)) (Envelope.UnsupportedVersion PROOF_ENVELOPE_VERSION (pe_format_version self));;
  reject_if (neq (pe_public_input_hash self) (epoch_transition_public_input_hash keccak256 (pe_public_inputs self))) Envelope.PublicInputHashMismatch;;
  reject_if (neq (pe_epoch_id self) (EpochId_from_public_inputs (pe_public_inputs self))) Envelope.EpochIdMismatch.
Definition require_l1_submittable (self : ProofEnvelope) : outcome ProofEnvelopeError unit :=
  ProofEnvelope_validate self;;
  reject_if (negb (is_l1_submittable (pe_proof_kind self))) (Envelope.NotL1Submittable (pe_proof_kind self)).
(** [u64::try_from(payload.len()).unwrap_or(u64::MAX)] *)
Definition payload_length (payload : Bytes) : Z := default (int_max U64) (chk U64 (Z.of_nat (length payload))).
Definition validate_payload (self : ProofEnvelope) (payload : Bytes) : outcome ProofEnvelopeError unit :=
  ProofEnvelope_validate self;;
  let actual_len := payload_length payload in
  reject_if (negb (pe_payload_len self =? actual_len)) (Envelope.PayloadLengthMismatch (pe_payload_len self) actual_len);;
  reject_if (neq (pe_payload_digest self) (proof_payload_digest payload)) Envelope.PayloadDigestMismatch.
End envelope.

(** ** What a job and an envelope guarantee *)

(** ** Jobs *)

Section job.
Context (sha256 blake3 keccak256 : Bytes → Bytes) (p256 : Bytes → Bytes → Bytes → bool) `{B : BorshFormat}
  (iter : gmap Z DerivedAccountState → list (Z * DerivedAccountState)).

Lemma metadata_exact job : validate_job_metadata blake3 job = Ok () ↔
  job = StateTransitionProofJob_new blake3 (pj_witness job) (pj_state_leaf_proofs job) (pj_pre_state_leaf_proofs job).
Proof.
  unfold validate_job_metadata. cbn zeta. rewrite !reject_then, reject_last, !negb_false_iff, !Z.eqb_eq, !neq_false. unfold StateTransitionProofJob_new.
  destruct job; cbn. split; [by intros (-> & -> & -> & ->)|by intros [= -> -> -> ->]].
Qed.
Lemma job_leaf_exact i kv p : check_job_leaf (i, (kv, p)) = Ok () ↔ (lp_key p, lp_value p) = kv.
Proof. destruct kv as [k v]. unfold check_job_leaf. rewrite reject_last, orb_false_iff, !neq_false. split; [by intros [-> ->]|by intros [= -> ->]]. Qed.
Lemma job_leaves_exact root leaves proofs proof : StronglySorted leaf_le leaves → check_job_leaves sha256 root leaves proofs = Ok proof ↔
  (λ p, (lp_key p, lp_value p)) <$> proofs = leaves ∧ proof = mkQmdbStateRootProof (lp_proof <$> proofs) ∧ opens sha256 root leaves proof.
Proof.
  intros Hs. unfold check_job_leaves. cbn zeta. rewrite reject_then, !unit_then, negb_false_iff, bool_decide_eq_true, ofold_enumerate. split.
  - intros (Hl & Hk & Hr%map_err_Ok & [= <-]). apply state_root_for_exact in Hr; [|done]. split_and!; try done. apply list_eq. intros i. rewrite list_lookup_fmap.
    destruct (proofs !! i) as [p|] eqn:Ep; cbn.
    + destruct (lookup_lt_is_Some_2 leaves i) as [kv Ekv]; [apply lookup_lt_Some in Ep; lia|]. rewrite Ekv. f_equal. apply (job_leaf_exact i). apply (Hk i (kv, p)). by apply lookup_zip_Some.
    + symmetry. apply lookup_ge_None. apply lookup_ge_None in Ep. lia.
  - intros (Hk & -> & Ho). split_and!; [by rewrite <- Hk, length_fmap| | |done].
    + intros i [kv p] [Hkv Hp]%lookup_zip_Some. cbn in Hkv, Hp. apply job_leaf_exact. rewrite <- Hk, list_lookup_fmap, Hp in Hkv. by injection Hkv.
    + apply state_root_for_exact in Ho; [|done]. by rewrite Ho.
Qed.

(** What is left to check once a guest input has been built from a job. *)
Record witness_accepted (w : BlockWitness) : Prop := {
  wa_header : header_binds sha256 blake3 w;
  wa_match : accepts (@verify_match Empty_set w false);
  wa_system : accepts (verify_system sha256 blake3 p256 w);
  wa_settlement : accepts (@verify_settlement blake3 iter Empty_set w);
  wa_orders : accepts (@verify_orders Empty_set w);
  wa_sidecar : accepts (verify_sidecar blake3 keccak256 w);
}.

Lemma build_exact job input : build_state_transition_guest_input sha256 blake3 job = Ok input →
  gi_witness input = pj_witness job ∧ gi_da_provider_refs input = [] ∧ gi_public_inputs input = public_inputs_from_witness blake3 (pj_witness job) ∧
  opens sha256 (hd_state_root (bw_header (gi_witness input))) (state_root_leaves sha256 (bw_post_state (gi_witness input)) (bw_state_sidecar (gi_witness input))) (gi_state_root_proof input) ∧
  match bw_previous_header (gi_witness input) with
  | Some previous => opens sha256 (hd_state_root previous) (state_root_leaves sha256 (bw_pre_state (gi_witness input)) (bw_pre_state_sidecar (gi_witness input))) (gi_pre_state_root_proof input)
  | None => sp_leaf_proofs (gi_pre_state_root_proof input) = []
  end.
Proof.
  unfold build_state_transition_guest_input. cbn zeta. rewrite unit_then, metadata_exact. intros (Hj & H). apply obind_Ok in H as (post & Hpost & H). apply obind_Ok in H as (pre & Hpre & [= <-]).
  cbn [gi_witness gi_da_provider_refs gi_public_inputs gi_state_root_proof gi_pre_state_root_proof]. apply job_leaves_exact in Hpost as (_ & _ & Hpost); [|apply state_leaves_sorted].
  assert (pj_state_root job = hd_state_root (bw_header (pj_witness job))) as Hr by (rewrite Hj; done). rewrite Hr in Hpost. split_and!; try done. destruct (bw_previous_header (pj_witness job)).
  - apply job_leaves_exact in Hpre as (_ & _ & Hpre); [done|apply state_leaves_sorted].
  - rewrite reject_then in Hpre. by destruct Hpre as [_ [= <-]].
Qed.

Lemma built_exact job input h : 0 ≤ da_pre_count (bw_deposit_accumulator (pj_witness job)) → build_state_transition_guest_input sha256 blake3 job = Ok input →
  verify_state_transition_input sha256 blake3 keccak256 p256 iter input = Ok h ↔
  witness_accepted (pj_witness job) ∧ h = state_transition_public_input_hash keccak256 (public_inputs_from_witness blake3 (pj_witness job)).
Proof.
  intros Hpos (Hw & Hrefs & Hp & Hpost & Hpre)%build_exact. rewrite transition_exact by (by rewrite Hw). rewrite Hp, <- Hw. split.
  - intros [[_ Hh _ _ H1 H2 H3 H4 H5] ->]. by split.
  - intros [[Hh H1 H2 H3 H4 H5] ->]. split; [|done]. split; try done. rewrite Hp, Hrefs, Hw. done.
Qed.

(** The job a guest input comes from. *)
Definition leaf_proofs_of (leaves : list (Bytes * Bytes)) (proof : QmdbStateRootProof) : list StateTransitionStateLeafProof :=
  zip_with (λ kv p, mkStateTransitionStateLeafProof kv.1 kv.2 p) leaves (sp_leaf_proofs proof).
Definition job_of (input : StateTransitionGuestInput) : StateTransitionProofJob :=
  let w := gi_witness input in
  StateTransitionProofJob_new blake3 w (leaf_proofs_of (state_root_leaves sha256 (bw_post_state w) (bw_state_sidecar w)) (gi_state_root_proof input))
    (match bw_previous_header w with
     | Some _ => leaf_proofs_of (state_root_leaves sha256 (bw_pre_state w) (bw_pre_state_sidecar w)) (gi_pre_state_root_proof input)
     | None => []
     end).
Lemma leaf_proofs_leaves (leaves : list (Bytes * Bytes)) proof : length (sp_leaf_proofs proof) = length leaves → (λ p, (lp_key p, lp_value p)) <$> leaf_proofs_of leaves proof = leaves.
Proof.
  unfold leaf_proofs_of. destruct proof as [ps]. cbn. intros Hl. revert ps Hl. induction leaves as [|[k v] leaves IH]; intros [|p ps] Hl; cbn in Hl; try done. cbn. f_equal. apply IH. lia.
Qed.
Lemma leaf_proofs_proof (leaves : list (Bytes * Bytes)) proof : length (sp_leaf_proofs proof) = length leaves → mkQmdbStateRootProof (lp_proof <$> leaf_proofs_of leaves proof) = proof.
Proof.
  unfold leaf_proofs_of. destruct proof as [ps]. cbn. intros Hl. f_equal. revert ps Hl. induction leaves as [|[k v] leaves IH]; intros [|p ps] Hl; cbn in Hl; try done. cbn. f_equal. apply IH. lia.
Qed.
Lemma job_leaves_of root leaves proof : StronglySorted leaf_le leaves → opens sha256 root leaves proof → check_job_leaves sha256 root leaves (leaf_proofs_of leaves proof) = Ok proof.
Proof.
  intros Hs Ho. apply job_leaves_exact; [done|]. split_and!; [apply leaf_proofs_leaves, Ho|symmetry; apply leaf_proofs_proof, Ho|done].
Qed.
Lemma job_of_builds input : transition_holds sha256 blake3 keccak256 p256 iter input → gi_da_provider_refs input = [] → build_state_transition_guest_input sha256 blake3 (job_of input) = Ok input.
Proof.
  intros [Hi _ Hpost Hpre _ _ _ _ _] Hrefs. unfold build_state_transition_guest_input, job_of. cbn zeta. cbn [pj_witness pj_state_root pj_state_leaf_proofs pj_pre_state_leaf_proofs StateTransitionProofJob_new].
  rewrite unit_then, metadata_exact. split; [done|]. rewrite job_leaves_of, Ok_then by (done || apply state_leaves_sorted).
  assert (∀ pre, gi_pre_state_root_proof input = pre → Ok (E := ProofJobError) (mkStateTransitionGuestInput (public_inputs_from_witness blake3 (gi_witness input)) (gi_witness input) [] (gi_state_root_proof input) pre) = Ok input) as Hdone.
  { intros pre <-. f_equal. destruct input. cbn in *. subst. done. }
  destruct (bw_previous_header (gi_witness input)).
  - rewrite job_leaves_of, Ok_then by (done || apply state_leaves_sorted). by apply Hdone.
  - cbn. apply Hdone. destruct (gi_pre_state_root_proof input) as [ps]. cbn in Hpre. by subst.
Qed.
End job.

(** ** Envelopes *)

Lemma validate_exact blake3 keccak256 e : ProofEnvelope_validate blake3 keccak256 e = Ok () ↔
  e = ProofEnvelope_new blake3 keccak256 (pe_proof_kind e) (pe_public_inputs e) (pe_app_exe_commit e) (pe_app_vm_commit e) (pe_payload_digest e) (pe_payload_len e) (pe_created_at_ms e).
Proof.
  unfold ProofEnvelope_validate. rewrite !reject_then, reject_last, negb_false_iff, Z.eqb_eq, !neq_false. unfold ProofEnvelope_new. destruct e; cbn.
  split; [by intros (-> & -> & ->)|by intros [= -> -> ->]].
Qed.

(** Once a guest input has been built from a proof job, the guest accepts it
    exactly when the header binds the events and the parent and the five witness
    layers accept: the state roots and the public inputs cannot fail any more. *)
Theorem built_job_exact sha256 blake3 keccak256 p256 {B : BorshFormat} iter job input h : 0 ≤ da_pre_count (bw_deposit_accumulator (pj_witness job)) →
  build_state_transition_guest_input sha256 blake3 job = Ok input →
  verify_state_transition_input sha256 blake3 keccak256 p256 iter input = Ok h ↔
  witness_accepted sha256 blake3 keccak256 p256 iter (pj_witness job) ∧ h = state_transition_public_input_hash keccak256 (public_inputs_from_witness blake3 (pj_witness job)).
Proof. apply built_exact. Qed.

(** Every input the guest accepts without provider references is built, field
    for field, from a proof job carrying its witness and its leaf proofs. *)
Theorem accepted_input_roundtrips sha256 blake3 keccak256 p256 {B : BorshFormat} iter input h : 0 ≤ da_pre_count (bw_deposit_accumulator (gi_witness input)) →
  gi_da_provider_refs input = [] → verify_state_transition_input sha256 blake3 keccak256 p256 iter input = Ok h →
  build_state_transition_guest_input sha256 blake3 (job_of sha256 blake3 input) = Ok input.
Proof. intros Hpos Hrefs [Ht _]%transition_exact; [|done]. by eapply job_of_builds. Qed.

(** Two valid proof envelopes with one epoch id and one payload digest carry the
    same epoch statement and, validated against their payloads, the same payload,
    or one of the hashes has a collision. *)
Theorem envelope_binds_statement blake3 keccak256 e e' payload payload' :
  Forall abi_word_ok (epoch_words (pe_public_inputs e)) → Forall abi_word_ok (epoch_words (pe_public_inputs e')) →
  validate_payload blake3 keccak256 e payload = Ok () → validate_payload blake3 keccak256 e' payload' = Ok () →
  pe_epoch_id e = pe_epoch_id e' → pe_payload_digest e = pe_payload_digest e' →
  (pe_public_inputs e = pe_public_inputs e' ∧ payload = payload') ∨ collision blake3 ∨ collision keccak256.
Proof.
  intros Hw Hw'. unfold validate_payload. cbn zeta. rewrite !unit_then, !reject_last, !neq_false, !validate_exact. intros (He & _ & Hd) (He' & _ & Hd') Hid Hdig.
  rewrite He, He' in Hid. cbn [pe_epoch_id ProofEnvelope_new] in Hid. unfold EpochId_from_public_inputs in Hid. rewrite Hd, Hd' in Hdig. unfold proof_payload_digest in Hdig.
  apply (keccak_eq blake3) in Hid as [Hid|?]; [|by right; left]. apply (keccak_eq blake3) in Hdig as [Hdig|?]; [|by right; left].
  apply app_inv_head in Hid. apply app_inv_head in Hdig. apply field_inj in Hdig as [_ ->]; [|by rewrite !le_bytes_length].
  unfold epoch_transition_public_input_hash in Hid. apply (keccak_eq keccak256) in Hid as [Hid|?]; [|by right; right]. apply abi_encode_inj in Hid; [|done|done|by repeat constructor].
  left. split; [|done]. destruct (pe_public_inputs e), (pe_public_inputs e'). cbn in Hid. by simplify_eq.
Qed.

(** ** The job of a second block *)

Definition ex_job_input : StateTransitionGuestInput :=
  mkStateTransitionGuestInput (public_inputs_from_witness ex_digest ex_block2) ex_block2 [] ex_proof ex_proof.
Lemma ex_job_input_ok : verify_state_transition_input ex_digest ex_digest ex_digest (λ _ _ _, true) map_to_list ex_job_input =
  Ok (state_transition_public_input_hash ex_digest (gi_public_inputs ex_job_input)).
Proof. vm_compute. reflexivity. Qed.
Lemma ex_job_builds : build_state_transition_guest_input ex_digest ex_digest (job_of ex_digest ex_digest ex_job_input) = Ok ex_job_input.
Proof. vm_compute. reflexivity. Qed.
Lemma ex_job_count : 0 ≤ da_pre_count (bw_deposit_accumulator (gi_witness ex_job_input)).
Proof. by vm_compute. Qed.

Lemma built_job_exact_witness : witness_accepted ex_digest ex_digest ex_digest (λ _ _ _, true) map_to_list ex_block2.
Proof.
  apply (built_job_exact ex_digest ex_digest ex_digest (λ _ _ _, true) map_to_list (job_of ex_digest ex_digest ex_job_input) ex_job_input
    (state_transition_public_input_hash ex_digest (gi_public_inputs ex_job_input)) ex_job_count ex_job_builds). exact ex_job_input_ok.
Defined.
Lemma accepted_input_roundtrips_witness : build_state_transition_guest_input ex_digest ex_digest (job_of ex_digest ex_digest ex_job_input) = Ok ex_job_input.
Proof. exact (accepted_input_roundtrips ex_digest ex_digest ex_digest (λ _ _ _, true) map_to_list ex_job_input _ ex_job_count eq_refl ex_job_input_ok). Defined.

Definition ex_envelope : ProofEnvelope := ProofEnvelope_new ex_digest ex_digest OpenVmEvm ex_claim (replicate 32 6) (replicate 32 7) (proof_payload_digest ex_digest [1; 2; 3]) 3 1000.
Lemma ex_envelope_ok : validate_payload ex_digest ex_digest ex_envelope [1; 2; 3] = Ok ().
Proof. vm_compute. reflexivity. Qed.
Lemma ex_envelope_words : Forall abi_word_ok (epoch_words (pe_public_inputs ex_envelope)).
Proof. apply (bool_decide_unpack (Forall abi_word_ok (epoch_words (pe_public_inputs ex_envelope)))). vm_compute. exact I. Qed.
Lemma envelope_binds_statement_witness : (pe_public_inputs ex_envelope = pe_public_inputs ex_envelope ∧ [1; 2; 3] = [1; 2; 3]) ∨ collision ex_digest ∨ collision ex_digest.
Proof.
  exact (envelope_binds_statement ex_digest ex_digest ex_envelope ex_envelope [1; 2; 3] [1; 2; 3] ex_envelope_words ex_envelope_words ex_envelope_ok ex_envelope_ok eq_refl eq_refl).
Defined.
