(* ===== verification/Admission.v ===== *)
(** * Admission: submissions and self-trade prevention

    Models [crates/matching-sequencer/src/sequencer/admission.rs]: the tracker of an
    account's bids over a market group, the checks on a submission, the assignment
    of order ids, and [try_admit_direct] and [try_admit_ioc].  A rejected
    submission is the error arm; it keeps the ids assigned before it. *)
From S2P Require Import Prelude Types Order EngineSettlement Market MmConstraint Account Validation OrderBook Digest Witness Oracle Bridge Sequencer MarketLifecycle.

Record OrderSubmission := mkOrderSubmission { os_account_id : AccountId; os_orders : list Order; os_mm_constraint : option MmConstraint }.

(** ** Coverage of a market group *)

Record BinaryBidState := mkBinaryBidState { yes_limit : option Z; no_limit : option Z }.
Definition BinaryBidState_default : BinaryBidState := mkBinaryBidState None None.
Record GroupCoverageTracker := mkGroupCoverageTracker {
  gt_market_to_group : gmap Z nat;
  gt_group_yes_limits : gmap (Z * nat) (gmap Z Z);
  gt_binary_limits : gmap (Z * Z) BinaryBidState;
  gt_group_markets : list (list MarketId);
}.

Definition register_group (m : gmap Z nat) (e : nat * MarketGroup) : gmap Z nat := foldl (λ m mid, <[mid := e.1]> m) m (mg_markets e.2).
Definition GroupCoverageTracker_new (market_groups : list MarketGroup) : GroupCoverageTracker :=
  mkGroupCoverageTracker (foldl register_group ∅ (imap pair market_groups)) ∅ ∅ (mg_markets <$> market_groups).

Definition binary_limits_cross (state : BinaryBidState) : bool :=
  match yes_limit state, no_limit state with
  | Some yes, Some no => yes + no >=? NANOS_PER_DOLLAR
  | _, _ => false
  end.
Definition record_highest_optional_limit (current : option Z) (candidate : Z) : option Z :=
  Some (match current with Some limit => Z.max limit candidate | None => candidate end).
Definition record_highest_limit (limits : gmap Z Z) (market : MarketId) (limit : Z) : gmap Z Z :=
  <[market := match limits !! market with Some current => Z.max current limit | None => limit end]> limits.
(** [try_fold] over a [u128] that holds the sum of any slice of [u64]s. *)
Fixpoint total_limit (yes_limits : gmap Z Z) (total : Z) (markets : list MarketId) : option Z :=
  match markets with
  | [] => Some total
  | m :: markets => limit ← yes_limits !! m; total_limit yes_limits (total + limit) markets
  end.
Definition complete_set_limits_cross (yes_limits : gmap Z Z) (group_markets : list MarketId) : bool :=
  match total_limit yes_limits 0 group_markets with
  | None => false
  | Some total => total >=? NANOS_PER_DOLLAR
  end.

(** The arrays of an order have a fixed size of at least two. *)
Definition only_market (o : Order) : MarketId := ord_markets o !!! 0%nat.
Definition yes_pay (o : Order) : Z := ord_payoffs o !!! 0%nat.
Definition no_pay (o : Order) : Z := ord_payoffs o !!! 1%nat.
Definition is_binary_order (o : Order) : bool := (ord_num_markets o =? 1) && (ord_num_states o =? 2).
(** The binary state with an order's limit, unless it is a sell or mixed. *)
Definition with_order (binary : BinaryBidState) (o : Order) : option BinaryBidState :=
  if (yes_pay o >? 0) && (no_pay o =? 0) then Some (mkBinaryBidState (record_highest_optional_limit (yes_limit binary) (ord_limit_price o)) (no_limit binary))
  else if (yes_pay o =? 0) && (no_pay o >? 0) then Some (mkBinaryBidState (yes_limit binary) (record_highest_optional_limit (no_limit binary) (ord_limit_price o)))
  else None.

Definition would_complete_set (t : GroupCoverageTracker) (account_id : AccountId) (o : Order) : bool :=
  if negb (is_binary_order o) then false else
  let market := only_market o in
  match gt_market_to_group t !! market with
  | None => false
  | Some gi =>
      match with_order (default BinaryBidState_default (gt_binary_limits t !! (account_id, market))) o with
      | None => false
      | Some binary =>
          if binary_limits_cross binary then true else
          if (yes_pay o <=? 0) || negb (no_pay o =? 0) then false else
          let candidate := record_highest_limit (default ∅ (gt_group_yes_limits t !! (account_id, gi))) market (ord_limit_price o) in
          complete_set_limits_cross candidate (gt_group_markets t !!! gi)
      end
  end.

Definition record_order (account_id : AccountId) (t : GroupCoverageTracker) (o : Order) : GroupCoverageTracker :=
  if negb (is_binary_order o) then t else
  let market := only_market o in
  match gt_market_to_group t !! market with
  | None => t
  | Some gi =>
      let binary := default BinaryBidState_default (gt_binary_limits t !! (account_id, market)) in
      let set_binary b := mkGroupCoverageTracker (gt_market_to_group t) (gt_group_yes_limits t) (<[(account_id, market) := b]> (gt_binary_limits t)) (gt_group_markets t) in
      match with_order binary o with
      | None => set_binary binary
      | Some binary' =>
          let t := set_binary binary' in
          if (yes_pay o >? 0) && (no_pay o =? 0) then
            mkGroupCoverageTracker (gt_market_to_group t)
              (<[(account_id, gi) := record_highest_limit (default ∅ (gt_group_yes_limits t !! (account_id, gi))) market (ord_limit_price o)]> (gt_group_yes_limits t))
              (gt_binary_limits t) (gt_group_markets t)
          else t
      end
  end.

(** ** Admission *)

(** The fields that admission reads or writes; of a pending signed bundle only its
    submission matters here. *)
Record AdmissionState := mkAdmissionState {
  ad_market : MarketSequencer;
  ad_next_order_id : Z;
  ad_pending_bundles : list OrderSubmission;
  ad_pending_signed_mm_bundles : list OrderSubmission;
  ad_min_resting_order_notional_nanos : Z;
}.
Definition ad_book (s : AdmissionState) : OrderBook := sq_order_book (mq_seq (ad_market s)).
Definition set_ad_book (b : OrderBook) (s : AdmissionState) : AdmissionState :=
  mkAdmissionState (mkMarketSequencer (set_order_book b (mq_seq (ad_market s))) (mq_markets (ad_market s)) (mq_lifecycle (ad_market s)))
    (ad_next_order_id s) (ad_pending_bundles s) (ad_pending_signed_mm_bundles s) (ad_min_resting_order_notional_nanos s).
Definition set_next_order_id (n : Z) (s : AdmissionState) : AdmissionState :=
  mkAdmissionState (ad_market s) n (ad_pending_bundles s) (ad_pending_signed_mm_bundles s) (ad_min_resting_order_notional_nanos s).
Abbreviation aop := (st AdmissionState SequencerError) (only parsing).

Inductive AdmitOutcome :=
  | OrderAdmitted (order_id : Z) (resting_order : RestingOrder)
  | Deferred (order_ids : list Z) (submission : OrderSubmission).

Definition rejected (order_id : Z) (account_id : AccountId) (reason : RejectionReason) : SequencerError :=
  SeqErr.Rejected (mkRejection order_id account_id reason).
Definition apanic {A} : aop A := λ _, SPanic.
Definition aguard (b : bool) (e : SequencerError) : aop unit := if b then sfail e else mret ().

(** Orders of one account already resting or staged. *)
Definition account_orders (s : AdmissionState) (account_id : AccountId) : list Order :=
  (ro_order <$> filter (λ ro, ro_account_id ro = account_id) (ob_orders (ad_book s))) ++
  (filter (λ b, os_account_id b = account_id) (ad_pending_bundles s) ≫= os_orders) ++
  (filter (λ b, os_account_id b = account_id) (ad_pending_signed_mm_bundles s) ≫= os_orders).
Definition seed_group_coverage_for_account (s : AdmissionState) (account_id : AccountId) (stp : GroupCoverageTracker) : GroupCoverageTracker :=
  foldl (record_order account_id) stp (account_orders s account_id).
Definition seed_group_coverage_from_all_resting (s : AdmissionState) (stp : GroupCoverageTracker) : GroupCoverageTracker :=
  foldl (λ t ro, record_order (ro_account_id ro) t (ro_order ro)) stp (ob_orders (ad_book s)).
Definition seeded_tracker (s : AdmissionState) (account_id : AccountId) : GroupCoverageTracker :=
  seed_group_coverage_for_account s account_id (GroupCoverageTracker_new (mq_groups (ad_market s))).

(** The loop over the active markets of an order. *)
Definition check_active_market (market_id : MarketId) : aop unit :=
  s ← sget;
  aguard (bool_decide (ms_get (mq_markets (ad_market s)) market_id = None)) (SeqErr.MarketNotFound market_id);;
  let status := market_status (mq_lifecycle (ad_market s)) market_id in
  aguard (negb (is_tradeable status)) (SeqErr.MarketNotTradeable market_id (MarketStatus_as_str status)).
Definition check_order_shape (submission : OrderSubmission) (o : Order) : aop unit :=
  s ← sget;
  slift (map_err (rejected 0 (os_account_id submission))
    (if bool_decide (is_Some (os_mm_constraint submission)) then validate_order_shape o
     else validate_resting_order_shape o (ad_min_resting_order_notional_nanos s)));;
  sforeach check_active_market (active_markets o).

(** The sides of a market-maker constraint against its orders. *)
Definition check_side (account_id : AccountId) (c : MmConstraint) (orders : list Order) (seen : gset Z) (e : nat * Z) : outcome SequencerError (gset Z) :=
  let '(index, order_id) := e in
  side ← ok_or (mm_order_sides c !! order_id) (SeqErr.InvalidMmBundle "shared constraint is missing an order side");
  reject_if (bool_decide (order_id ∈ seen)) (SeqErr.InvalidMmBundle "shared constraint contains a duplicate order");;
  order ← idx orders index;
  derived ← map_err (rejected order_id account_id) (mm_side_for_order order);
  reject_if (negb (bool_decide (derived = side))) (SeqErr.InvalidMmBundle "signed side does not match its order payoff");;
  Ok ({[order_id]} ∪ seen).
Definition check_coverage_step (account_id : AccountId) (t : GroupCoverageTracker) (o : Order) : outcome SequencerError GroupCoverageTracker :=
  reject_if (would_complete_set t account_id o) (rejected (ord_id o) account_id CompleteSetFormation);;
  Ok (record_order account_id t o).
Definition check_constraint (submission : OrderSubmission) (c : MmConstraint) : aop unit :=
  s ← sget;
  let account_id := os_account_id submission in
  account ← slift (ok_or (as_get (sq_accounts (mq_seq (ad_market s))) account_id) (rejected 0 account_id AccountNotFound));
  aguard (bool_decide (os_orders submission = [])) (SeqErr.InvalidMmBundle "bundle must contain at least one order");;
  aguard (mm_max_capital c =? 0) (SeqErr.InvalidMmBundle "shared budget must be greater than zero");;
  let available := Z.max (acc_balance account) 0 in
  aguard (mm_max_capital c >? available)
    (rejected 0 account_id (InsufficientBalance (default (int_max I64) (chk I64 (mm_max_capital c))) (acc_balance account)));;
  aguard (negb (bool_decide (length (mm_order_ids c) = length (os_orders submission))) ||
          negb (bool_decide (size (mm_order_sides c) = length (os_orders submission))))
    (SeqErr.InvalidMmBundle "shared constraint must cover every order exactly once");;
  slift (ofold (check_side account_id c (os_orders submission)) ∅ (imap pair (mm_order_ids c)));;
  slift (ofold (check_coverage_step account_id) (seeded_tracker s account_id) (os_orders submission));;
  mret ().

Definition set_order_id (o : Order) (id : Z) : Order :=
  mkOrder id (ord_markets o) (ord_num_markets o) (ord_payoffs o) (ord_num_states o) (ord_limit_price o) (ord_max_fill o) (ord_condition o) (ord_expires_at_block o).
Definition set_expiry (o : Order) (h : option Z) : Order :=
  mkOrder (ord_id o) (ord_markets o) (ord_num_markets o) (ord_payoffs o) (ord_num_states o) (ord_limit_price o) (ord_max_fill o) (ord_condition o) h.
Fixpoint assign_ids (next : Z) (orders : list Order) : list Order * Z :=
  match orders with
  | [] => ([], next)
  | o :: orders => let '(orders, next') := assign_ids (sat U64 (next + 1)) orders in (set_order_id o next :: orders, next')
  end.
Definition remap_constraint (c : MmConstraint) (order_ids : list Z) : MmConstraint :=
  foldl (λ remapped '(submission_index, old_id),
    match order_ids !! (submission_index : nat), mm_order_sides c !! (old_id : Z) with
    | Some order_id, Some side => add_order order_id side remapped
    | _, _ => remapped
    end) (MmConstraint_new (mm_id c) (mm_max_capital c)) (imap pair (mm_order_ids c)).
Definition assign_submission_order_ids (submission : OrderSubmission) : aop (OrderSubmission * list Z) :=
  s ← sget;
  let '(orders, next) := assign_ids (ad_next_order_id s) (os_orders submission) in
  let order_ids := ord_id <$> orders in
  smodify (set_next_order_id next);;
  mret (mkOrderSubmission (os_account_id submission) orders ((λ c, remap_constraint c order_ids) <$> os_mm_constraint submission), order_ids).

(** Insertion of a single order into the book. *)
Definition admit_single (account_id : AccountId) (order : Order) (now_ms : Z) : aop AdmitOutcome :=
  s ← sget;
  account ← slift (ok_or (as_get (sq_accounts (mq_seq (ad_market s))) account_id) (rejected 0 account_id AccountNotFound));
  let order_id := ord_id order in
  let height := sq_height (mq_seq (ad_market s)) in
  let next_batch_height := sat U64 (height + 1) in
  let expires_at_block := effective_expires_at_block order height (ob_ttl (ad_book s)) in
  aguard (next_batch_height >? expires_at_block) (rejected order_id account_id (Expired next_batch_height expires_at_block));;
  aguard (would_complete_set (seeded_tracker s account_id) account_id order) (rejected order_id account_id CompleteSetFormation);;
  match accept order account_id account height now_ms (ad_book s) with
  | SOk b accepted => smodify (set_ad_book b);; mret (OrderAdmitted (ord_id (ac_order accepted)) (ac_resting_order accepted))
  | SErr b reason => smodify (set_ad_book b);; sfail (rejected order_id account_id reason)
  | SPanic => apanic
  end.

Definition ioc_orders (height : Z) (orders : list Order) : list Order := (λ o, set_expiry o (Some (sat U64 (height + 1)))) <$> orders.
Definition try_admit_direct_with_ioc (submission : OrderSubmission) (now_ms : Z) (is_ioc : bool) : aop AdmitOutcome :=
  s ← sget;
  let submission := if is_ioc then mkOrderSubmission (os_account_id submission) (ioc_orders (sq_height (mq_seq (ad_market s))) (os_orders submission)) (os_mm_constraint submission)
                    else submission in
  sforeach (check_order_shape submission) (os_orders submission);;
  (match os_mm_constraint submission with Some c => check_constraint submission c | None => mret () end);;
  let eligible := negb (bool_decide (is_Some (os_mm_constraint submission))) && bool_decide (length (os_orders submission) = 1%nat) &&
    match os_orders submission with o :: _ => ord_num_markets o =? 1 | [] => false end in
  '(submission, order_ids) ← assign_submission_order_ids submission;
  if negb eligible then mret (Deferred order_ids submission) else
  match os_orders submission with
  | order :: _ => admit_single (os_account_id submission) order now_ms
  | [] => apanic
  end.
Definition try_admit_direct (submission : OrderSubmission) (now_ms : Z) : aop AdmitOutcome := try_admit_direct_with_ioc submission now_ms false.
Definition try_admit_ioc (submission : OrderSubmission) (now_ms : Z) : aop AdmitOutcome := try_admit_direct_with_ioc submission now_ms true.
