(* ===== verification/AdmissionProofs.v ===== *)
(** * AdmissionProofs: admission never lets an account trade with itself

    What the tracker knows is the highest bid per outcome, so its test is exactly
    the existence of a crossing complete set among the account's bids. *)
From S2P Require Import Prelude Types Order EngineSettlement Market MmConstraint Account Validation OrderBook Digest Witness Oracle Bridge Sequencer MarketLifecycle MarketGroups Admission.

(** ** Bids *)

(** An order that bids for one outcome of one binary market: the outcome, the
    market and the limit. *)
Abbreviation Bid := (bool * Z * Z)%type (only parsing).
Definition bid (o : Order) : option Bid :=
  if negb (is_binary_order o) then None
  else if (yes_pay o >? 0) && (no_pay o =? 0) then Some (true, only_market o, ord_limit_price o)
  else if (yes_pay o =? 0) && (no_pay o >? 0) then Some (false, only_market o, ord_limit_price o)
  else None.
Definition bids (l : list Order) : list Bid := omap bid l.

(** Both outcomes of a market, or YES on every market of a group, for a dollar. *)
Definition pair_crosses (m : Z) (B : list Bid) : Prop := ∃ x y, (true, m, x) ∈ B ∧ (false, m, y) ∈ B ∧ NANOS_PER_DOLLAR ≤ x + y.
Definition cover_crosses (ms : list Z) (B : list Bid) : Prop := ∃ xs, Forall2 (λ m x, (true, m, x) ∈ B) ms xs ∧ NANOS_PER_DOLLAR ≤ sumZ id xs.
Definition uncrossed (groups : list MarketGroup) (B : list Bid) : Prop :=
  ∀ g, g ∈ groups → (∀ m, m ∈ mg_markets g → ¬ pair_crosses m B) ∧ ¬ cover_crosses (mg_markets g) B.
(** A market belongs to one group at most. *)
Definition groups_disjoint (groups : list MarketGroup) : Prop :=
  ∀ i j g h m, groups !! i = Some g → groups !! j = Some h → m ∈ mg_markets g → m ∈ mg_markets h → i = j.

(** ** The highest bid *)

Definition raise (b : bool) (m : Z) (h : option Z) (e : Bid) : option Z :=
  if bool_decide (e.1 = (b, m)) then record_highest_optional_limit h e.2 else h.
Definition highest (b : bool) (m : Z) (B : list Bid) : option Z := foldl (raise b m) None B.
Lemma highest_snoc b m B e : highest b m (B ++ [e]) = raise b m (highest b m B) e.
Proof. unfold highest. by rewrite foldl_app. Qed.
Lemma highest_exact b m B : match highest b m B with
  | Some x => (b, m, x) ∈ B ∧ ∀ y, (b, m, y) ∈ B → y ≤ x
  | None => ∀ y, (b, m, y) ∉ B
  end.
Proof.
  induction B as [|[[b' m'] z] B IH] using rev_ind; [intros y; apply not_elem_of_nil|]. rewrite highest_snoc. unfold raise. cbn [fst snd].
  assert (∀ y, (b, m, y) ∈ B ++ [(b', m', z)] ↔ (b, m, y) ∈ B ∨ (b, m) = (b', m') ∧ y = z) as Hin.
  { intros y. rewrite elem_of_app, list_elem_of_singleton. split; (intros [?|H]; [by left|right]); [by injection H as -> -> ->|by destruct H as [[= -> ->] ->]]. }
  case_bool_decide as He.
  - injection He as -> ->. unfold record_highest_optional_limit. destruct (highest b m B) as [x|].
    + destruct IH as [Hx Hmax]. split; [apply Hin; destruct (Z.max_spec x z) as [[_ ->]|[_ ->]]; [by right|by left]|].
      intros y [Hy| [_ ->]]%Hin; [specialize (Hmax y Hy); lia|lia].
    + split; [apply Hin; by right|]. intros y [Hy|[_ ->]]%Hin; [by apply IH in Hy|lia].
  - destruct (highest b m B) as [x|].
    + destruct IH as [Hx Hmax]. split; [apply Hin; by left|]. intros y [Hy|[[= -> ->] _]]%Hin; [by apply Hmax|done].
    + intros y [Hy|[[= -> ->] _]]%Hin; [by apply IH in Hy|done].
Qed.

Lemma pair_exact m B : binary_limits_cross (mkBinaryBidState (highest true m B) (highest false m B)) = true ↔ pair_crosses m B.
Proof.
  unfold binary_limits_cross, pair_crosses. cbn. pose proof (highest_exact true m B) as Ht. pose proof (highest_exact false m B) as Hf.
  destruct (highest true m B) as [x|]; [|split; [done|by intros (x & _ & Hx%Ht & _)]]. destruct (highest false m B) as [y|]; [|split; [done|by intros (_ & y & _ & Hy%Hf & _)]].
  rewrite Z.geb_le. split; [intros H; by exists x, y; destruct Ht, Hf|]. intros (x' & y' & Hx & Hy & H). destruct Ht as [_ Hx']. destruct Hf as [_ Hy']. specialize (Hx' _ Hx). specialize (Hy' _ Hy). lia.
Qed.

Lemma total_exact (limits : gmap Z Z) ms : ∀ t, match total_limit limits t ms with
  | Some s => ∃ xs, Forall2 (λ m x, limits !! m = Some x) ms xs ∧ s = t + sumZ id xs
  | None => ∃ m, m ∈ ms ∧ limits !! m = None
  end.
Proof.
  induction ms as [|m ms IH]; intros t; cbn [total_limit]; [exists []; split; [constructor|cbn; lia]|].
  destruct (limits !! m) as [x|] eqn:Em; cbn [mbind option_bind]; [|exists m; split; [left|done]].
  specialize (IH (t + x)). destruct (total_limit limits (t + x) ms).
  - destruct IH as (xs & Hxs & ->). exists (x :: xs). split; [by constructor|]. cbn. unfold id. lia.
  - destruct IH as (m' & Hm & ?). exists m'. split; [by right|done].
Qed.
Lemma cover_exact (limits : gmap Z Z) ms B : (∀ m, m ∈ ms → limits !! m = highest true m B) → complete_set_limits_cross limits ms = true ↔ cover_crosses ms B.
Proof.
  intros Hl. unfold complete_set_limits_cross, cover_crosses. pose proof (total_exact limits ms 0) as Ht. destruct (total_limit limits 0 ms) as [s|].
  - destruct Ht as (xs & Hxs & ->). rewrite Z.geb_le, Z.add_0_l.
    assert (Forall2 (λ m x, (true, m, x) ∈ B) ms xs ∧ ∀ ys, Forall2 (λ m y, (true, m, y) ∈ B) ms ys → sumZ id ys ≤ sumZ id xs) as [Hin Hmax].
    { clear -Hl Hxs. induction Hxs as [|m x ms xs Hx _ IH]; [split; [constructor|]; intros ys ->%Forall2_nil_inv_l; done|].
      destruct IH as [Hin Hmax]; [intros m' Hm'; apply Hl; by right|]. rewrite Hl in Hx by left. pose proof (highest_exact true m B) as Hh. rewrite Hx in Hh. destruct Hh as [Hb Hle].
      split; [by constructor|]. intros ys (y & ys' & Hy & Hys & ->)%Forall2_cons_inv_l. cbn. specialize (Hmax ys' Hys). specialize (Hle y Hy). unfold id in *. lia. }
    split; [intros H; by exists xs|]. intros (ys & Hys & H). specialize (Hmax ys Hys). lia.
  - destruct Ht as (m & Hm & Hn). rewrite Hl in Hn by done. pose proof (highest_exact true m B) as Hh. rewrite Hn in Hh. split; [done|]. intros (xs & Hxs & _).
    apply list_elem_of_lookup_1 in Hm as (i & Hi). destruct (Forall2_lookup_l _ _ _ _ _ Hxs Hi) as (x & _ & Hx). by apply Hh in Hx.
Qed.

(** ** The groups of a tracker *)

Lemma register_lookup ms i : ∀ m (M : gmap Z nat), foldl (λ M mid, <[mid := i]> M) M ms !! m = if bool_decide (m ∈ ms) then Some i else M !! m.
Proof.
  induction ms as [|x ms IH] using rev_ind; intros m M; [by rewrite bool_decide_eq_false_2 by apply not_elem_of_nil|]. rewrite foldl_app. cbn [foldl].
  destruct (decide (x = m)) as [->|Hne].
  - rewrite lookup_insert_eq, bool_decide_eq_true_2; [done|]. apply elem_of_app. right. by left.
  - rewrite lookup_insert_ne, IH by done. assert (m ∈ ms ++ [x] ↔ m ∈ ms) as Hiff by (rewrite elem_of_app, list_elem_of_singleton; naive_solver).
    by rewrite (bool_decide_ext _ _ Hiff).
Qed.
Lemma groups_lookup groups m i : foldl register_group ∅ (imap pair groups) !! m = Some i →
  ∃ g, groups !! i = Some g ∧ m ∈ mg_markets g.
Proof.
  revert i. induction groups as [|g groups IH] using rev_ind; intros i; [done|]. rewrite imap_app, foldl_app. cbn [imap foldl]. unfold register_group at 1. cbn [fst snd compose].
  rewrite register_lookup. case_bool_decide as Hm.
  - intros [= <-]. exists g. split; [|done]. rewrite Nat.add_0_r, lookup_app_r, Nat.sub_diag by lia. done.
  - intros (g' & Hg & Hm')%IH. exists g'. split; [by apply lookup_app_l_Some|done].
Qed.
Lemma groups_registered groups i g m : groups_disjoint groups → groups !! i = Some g → m ∈ mg_markets g → foldl register_group ∅ (imap pair groups) !! m = Some i.
Proof.
  intros Hd Hg Hm. destruct (foldl register_group ∅ (imap pair groups) !! m) as [j|] eqn:E.
  - apply groups_lookup in E as (h & Hh & Hm'). f_equal. symmetry. by eapply Hd.
  - exfalso. clear Hd. revert i g Hg Hm E. induction groups as [|h groups IH] using rev_ind; intros i g Hg Hm; [done|]. rewrite imap_app, foldl_app. cbn [imap foldl]. unfold register_group at 1. cbn [fst snd compose].
    rewrite register_lookup. case_bool_decide as Hmh; [done|]. apply lookup_snoc_Some in Hg as [[_ Hg]|[_ ->]]; [by eapply IH|done].
Qed.

(** ** What the tracker knows *)

Record tracks (groups : list MarketGroup) (account_id : AccountId) (B : list Bid) (t : GroupCoverageTracker) : Prop := {
  tk_groups : gt_market_to_group t = foldl register_group ∅ (imap pair groups);
  tk_markets : gt_group_markets t = mg_markets <$> groups;
  tk_binary : ∀ m i, gt_market_to_group t !! m = Some i →
    default BinaryBidState_default (gt_binary_limits t !! (account_id, m)) = mkBinaryBidState (highest true m B) (highest false m B);
  tk_yes : ∀ m i, gt_market_to_group t !! m = Some i → default ∅ (gt_group_yes_limits t !! (account_id, i)) !! m = highest true m B;
}.
Lemma tracks_new groups account_id : tracks groups account_id [] (GroupCoverageTracker_new groups).
Proof. split; [done|done|..]; intros m i _; cbn; by rewrite ?lookup_empty. Qed.

Lemma with_order_bid binary o : is_binary_order o = true → match bid o with
  | Some e => with_order binary o = Some (mkBinaryBidState (raise true (only_market o) (yes_limit binary) e) (raise false (only_market o) (no_limit binary) e))
  | None => with_order binary o = None
  end.
Proof.
  intros Hb. unfold bid, with_order. rewrite Hb. cbn [negb]. destruct (_ && _); [|destruct (_ && _); [|done]]; unfold raise; cbn [fst snd].
  - by rewrite bool_decide_eq_true_2, bool_decide_eq_false_2 by done.
  - by rewrite (bool_decide_eq_true_2 (_ = (false, _))), bool_decide_eq_false_2 by done.
Qed.
Lemma bid_market o b m x : bid o = Some (b, m, x) → m = only_market o ∧ is_binary_order o = true ∧ (b = true ↔ (yes_pay o >? 0) && (no_pay o =? 0) = true).
Proof. unfold bid. destruct (is_binary_order o); [|done]. cbn [negb]. destruct (_ && _); [by intros [= <- <- _]|]. destruct (_ && _); [by intros [= <- <- _]|done]. Qed.
Lemma raise_other b m h e : e.1 ≠ (b, m) → raise b m h e = h.
Proof. intros H. unfold raise. by rewrite bool_decide_eq_false_2. Qed.
Lemma record_highest_lookup limits m x m' : record_highest_limit limits m x !! m' = if bool_decide (m' = m) then record_highest_optional_limit (limits !! m) x else limits !! m'.
Proof.
  unfold record_highest_limit. case_bool_decide as E; [subst; rewrite lookup_insert_eq; unfold record_highest_optional_limit; by destruct (limits !! m)|by rewrite lookup_insert_ne].
Qed.

Lemma raised_bids o B b m : highest b m (B ++ bids [o]) = match bid o with Some e => raise b m (highest b m B) e | None => highest b m B end.
Proof. unfold bids. cbn. destruct (bid o) as [e|]; [apply highest_snoc|by rewrite app_nil_r]. Qed.

Lemma record_tracks groups a B t o : tracks groups a B t → tracks groups a (B ++ bids [o]) (record_order a t o).
Proof.
  intros [Hg Hm Hb Hy]. unfold record_order. destruct (is_binary_order o) eqn:Ebin; cbn [negb].
  2: { assert (bid o = None) as E by (unfold bid; by rewrite Ebin). split; try done; intros m i Hi; rewrite !raised_bids, E; [by eapply Hb|by eapply Hy]. }
  destruct (gt_market_to_group t !! only_market o) as [gi|] eqn:Egi.
  2: { assert (∀ b m i, gt_market_to_group t !! m = Some i → highest b m (B ++ bids [o]) = highest b m B) as Hsame.
       { intros b m i Hi. rewrite raised_bids. destruct (bid o) as [[[b' m'] x]|] eqn:E; [|done]. apply bid_market in E as [-> _]. apply raise_other. cbn. intros [= _ <-]. congruence. }
       split; try done; intros m i Hi; rewrite !(Hsame _ m i Hi); [by eapply Hb|by eapply Hy]. }
  pose proof (with_order_bid (default BinaryBidState_default (gt_binary_limits t !! (a, only_market o))) o Ebin) as Hw. destruct (bid o) as [[[b' m'] x]|] eqn:E; rewrite Hw.
  - pose proof (bid_market _ _ _ _ E) as (-> & _ & Hside). rewrite (Hb _ _ Egi) in Hw |- *. cbn [yes_limit no_limit]. cbn [gt_market_to_group gt_group_yes_limits gt_binary_limits gt_group_markets].
    assert (∀ m i, gt_market_to_group t !! m = Some i → default BinaryBidState_default (<[(a, only_market o) := mkBinaryBidState (raise true (only_market o) (highest true (only_market o) B) (b', only_market o, x))
      (raise false (only_market o) (highest false (only_market o) B) (b', only_market o, x))]> (gt_binary_limits t) !! (a, m)) = mkBinaryBidState (highest true m (B ++ bids [o])) (highest false m (B ++ bids [o]))) as Hbin.
    { intros m i Hi. rewrite !raised_bids, E. destruct (decide (m = only_market o)) as [->|Hne]; [by rewrite lookup_insert_eq|]. rewrite lookup_insert_ne by congruence.
      rewrite !raise_other by (cbn; congruence). by eapply Hb. }
    destruct ((yes_pay o >? 0) && (no_pay o =? 0)) eqn:Eside.
    + assert (b' = true) as -> by (by apply Hside). assert (x = ord_limit_price o) as -> by (unfold bid in E; rewrite Ebin, Eside in E; cbn [negb] in E; congruence).
      split; cbn [gt_market_to_group gt_group_yes_limits gt_binary_limits gt_group_markets]; [done|done|done|]. intros m i Hi. rewrite raised_bids, E.
      destruct (decide (i = gi)) as [->|Hne].
      * rewrite lookup_insert_eq. cbn [default from_option]. change (id (record_highest_limit (default ∅ (gt_group_yes_limits t !! (a, gi))) (only_market o) (ord_limit_price o))) with (record_highest_limit (default ∅ (gt_group_yes_limits t !! (a, gi))) (only_market o) (ord_limit_price o)).
        rewrite record_highest_lookup. unfold raise. cbn [fst snd]. destruct (decide (m = only_market o)) as [->|Hnm]; [by rewrite !bool_decide_eq_true_2, (Hy _ _ Egi)|rewrite !bool_decide_eq_false_2 by congruence; by apply Hy].
      * rewrite lookup_insert_ne by congruence. rewrite raise_other; [by apply Hy|]. cbn. intros [= <-]. congruence.
    + assert (b' = false) as -> by (destruct b'; [by specialize (proj1 Hside eq_refl)|done]). split; cbn [gt_market_to_group gt_group_yes_limits gt_binary_limits gt_group_markets]; [done|done|done|].
      intros m i Hi. rewrite raised_bids, E, raise_other by (cbn; congruence). by apply Hy.
  - split; cbn [gt_market_to_group gt_group_yes_limits gt_binary_limits gt_group_markets]; [done|done| |]; intros m i Hi; rewrite !raised_bids, E; [|by apply Hy].
    destruct (decide (m = only_market o)) as [->|Hne]; [rewrite lookup_insert_eq; by eapply Hb|rewrite lookup_insert_ne by congruence; by eapply Hb].
Qed.
Lemma records_track groups a B t l : tracks groups a B t → tracks groups a (B ++ bids l) (foldl (record_order a) t l).
Proof.
  revert B t. induction l as [|o l IH]; intros B t Ht; cbn [foldl]; [by rewrite app_nil_r|]. replace (B ++ bids (o :: l)) with ((B ++ bids [o]) ++ bids l).
  - by apply IH, record_tracks.
  - rewrite <- (assoc_L (++)). f_equal. unfold bids. cbn. by destruct (bid o).
Qed.

(** The test is the existence of a crossing complete set with the order. *)
Lemma would_complete_exact groups a B t o : groups_disjoint groups → tracks groups a B t → would_complete_set t a o = true ↔
  ∃ e i g, bid o = Some e ∧ groups !! i = Some g ∧ only_market o ∈ mg_markets g ∧
    (pair_crosses (only_market o) (B ++ bids [o]) ∨ e.1.1 = true ∧ cover_crosses (mg_markets g) (B ++ bids [o])).
Proof.
  intros Hd Ht. pose proof (record_tracks _ _ _ _ o Ht) as Ht'. destruct Ht as [Hg Hm Hb Hy]. unfold would_complete_set. destruct (is_binary_order o) eqn:Ebin; cbn [negb].
  2: { split; [done|]. intros (e & _ & _ & E & _). unfold bid in E. by rewrite Ebin in E. }
  rewrite Hg. destruct (foldl register_group ∅ (imap pair groups) !! only_market o) as [gi|] eqn:Egi.
  2: { split; [done|]. intros (e & i & g & _ & Hi & Hin & _). by rewrite (groups_registered _ _ _ _ Hd Hi Hin) in Egi. }
  pose proof Egi as (g & Hgi & Hin)%groups_lookup.
  pose proof (with_order_bid (default BinaryBidState_default (gt_binary_limits t !! (a, only_market o))) o Ebin) as Hw. destruct (bid o) as [[[b m] x]|] eqn:E; rewrite Hw.
  2: { split; [done|]. by intros (? & _ & _ & ? & _). }
  pose proof (bid_market _ _ _ _ E) as (-> & _ & Hside). rewrite (Hb (only_market o) gi) by (by rewrite Hg). cbn [yes_limit no_limit].
  pose proof (raised_bids o B true (only_market o)) as R1. pose proof (raised_bids o B false (only_market o)) as R2. rewrite E in R1, R2. rewrite <- R1, <- R2.
  pose proof (pair_exact (only_market o) (B ++ bids [o])) as Hpair. destruct (binary_limits_cross _).
  { split; [|done]. intros _. exists (b, only_market o, x), gi, g. split_and!; try done. left. by apply Hpair. }
  assert (¬ pair_crosses (only_market o) (B ++ bids [o])) as Hnp by (by intros ?%Hpair).
  destruct ((yes_pay o <=? 0) || negb (no_pay o =? 0)) eqn:Eside.
  - assert (b = false) as ->.
    { destruct b; [|done]. destruct Hside as [Hside _]. specialize (Hside eq_refl). apply andb_true_iff in Hside as [H1 H2]. rewrite Z.gtb_lt in H1. rewrite H2 in Eside. cbn in Eside.
      rewrite orb_false_r, Z.leb_le in Eside. lia. }
    split; [done|]. intros (e & i & g' & [= <-] & _ & _ & [?|[? _]]); done.
  - apply orb_false_iff in Eside as [H1%Z.leb_gt H2%negb_false_iff].
    assert (b = true) as -> by (apply Hside; rewrite H2, andb_true_r, Z.gtb_lt; done). assert (x = ord_limit_price o) as ->.
    { unfold bid in E. rewrite Ebin in E. cbn [negb] in E. destruct (_ && _); [by injection E|]. destruct (_ && _); [by injection E|done]. }
    rewrite Hm, (list_lookup_total_correct _ gi (mg_markets g)) by (by rewrite list_lookup_fmap, Hgi). rewrite (cover_exact _ _ (B ++ bids [o])).
    + split; [intros H; exists (true, only_market o, ord_limit_price o), gi, g; split_and!; try done; by right|]. intros (e & i & g' & [= <-] & Hi & Hin' & [?|[_ ?]]); [done|].
      assert (i = gi) as -> by (by eapply Hd). assert (g' = g) as -> by congruence. done.
    + intros m Hmg. rewrite record_highest_lookup, raised_bids, E. unfold raise. cbn [fst snd]. pose proof (groups_registered _ _ _ _ Hd Hgi Hmg) as Hreg.
      destruct (decide (m = only_market o)) as [->|Hne]; [rewrite !bool_decide_eq_true_2 by done; by rewrite (Hy _ gi) by (by rewrite Hg)|rewrite !bool_decide_eq_false_2 by congruence; by apply Hy; rewrite Hg].
Qed.

(** ** An account's bids stay uncrossed *)

Lemma snoc_bid (B : list Bid) b m x b' m' y : (b', m', y) ∈ B ++ [(b, m, x)] → (b', m') ≠ (b, m) → (b', m', y) ∈ B.
Proof. rewrite elem_of_app, list_elem_of_singleton. intros [?|[= -> -> ->]]; done. Qed.
Lemma uncrossed_mono groups B B' : (∀ e, e ∈ B' → e ∈ B) → uncrossed groups B → uncrossed groups B'.
Proof.
  intros Hsub Hu g Hg. destruct (Hu g Hg) as [Hp Hc]. split.
  - intros m Hm (x & y & ? & ? & ?). apply (Hp m Hm). exists x, y. auto.
  - intros (xs & Hxs & ?). apply Hc. exists xs. split; [|done]. eapply Forall2_impl; [exact Hxs|]. cbn. auto.
Qed.
Lemma cover_snoc ms (B : list Bid) b m x : b = false ∨ m ∉ ms → cover_crosses ms (B ++ [(b, m, x)]) → cover_crosses ms B.
Proof.
  intros Hb (xs & Hxs & Hle). exists xs. split; [|done]. clear Hle. induction Hxs as [|m' y ms xs Hy _ IH]; constructor.
  - apply (snoc_bid _ _ _ _ _ _ _ Hy). intros [= <- <-]. destruct Hb as [|Hb]; [done|]. apply Hb. by left.
  - apply IH. destruct Hb as [|Hb]; [by left|right]. intros ?. apply Hb. by right.
Qed.
Lemma uncrossed_step groups a B t o : groups_disjoint groups → tracks groups a B t → uncrossed groups B → would_complete_set t a o = false →
  uncrossed groups (B ++ bids [o]).
Proof.
  intros Hd Ht Hu Hw. pose proof (would_complete_exact _ _ _ _ o Hd Ht) as Hex. rewrite Hw in Hex. unfold bids in *. cbn in *.
  destruct (bid o) as [[[b m] x]|] eqn:E; [|by rewrite app_nil_r]. pose proof (bid_market _ _ _ _ E) as (-> & _).
  intros g Hg. destruct (Hu g Hg) as [Hp Hc]. apply list_elem_of_lookup_1 in Hg as (i & Hi). split.
  - intros m Hm (x1 & y1 & Hx1 & Hy1 & Hle). destruct (decide (m = only_market o)) as [->|Hne].
    + discriminate (proj2 Hex (ex_intro _ _ (ex_intro _ i (ex_intro _ g (conj eq_refl (conj Hi (conj Hm (or_introl (ex_intro _ x1 (ex_intro _ y1 (conj Hx1 (conj Hy1 Hle))))))))))) ).
    + apply (Hp m Hm). exists x1, y1. split_and!; [eapply snoc_bid; [exact Hx1|congruence]|eapply snoc_bid; [exact Hy1|congruence]|done].
  - intros Hcross. destruct b; [|exact (Hc (cover_snoc _ _ _ _ _ (or_introl eq_refl) Hcross))].
    destruct (decide (only_market o ∈ mg_markets g)) as [Hin|Hin]; [|exact (Hc (cover_snoc _ _ _ _ _ (or_intror Hin) Hcross))].
    discriminate (proj2 Hex (ex_intro _ _ (ex_intro _ i (ex_intro _ g (conj eq_refl (conj Hi (conj Hin (or_intror (conj eq_refl Hcross))))))))).
Qed.

(** The invariant of the market lifecycle makes the groups disjoint. *)
Lemma disjoint_groups groups : NoDup (concat (mg_markets <$> groups)) → groups_disjoint groups.
Proof.
  induction groups as [|g0 groups IH]; intros Hnd i j g h m Hi Hj Hg Hh; [done|]. cbn in Hnd. apply NoDup_app in Hnd as (_ & Hdis & Hnd).
  assert (∀ k g', groups !! k = Some g' → m ∈ mg_markets g' → m ∈ concat (mg_markets <$> groups)) as Hin.
  { intros k g' Hk Hm. apply list_elem_of_In, in_concat. exists (mg_markets g'). rewrite <- !list_elem_of_In. split; [|done]. apply list_elem_of_fmap. exists g'. split; [done|]. by eapply list_elem_of_lookup_2. }
  destruct i as [|i], j as [|j]; cbn in Hi, Hj; [done|injection Hi as ->|injection Hj as ->|f_equal; by eapply IH].
  - exfalso. by eapply Hdis, Hin.
  - exfalso. by eapply Hdis, Hin.
Qed.

(** ** A submission that rests *)

Lemma foreach_invariant {S E A} (P : S → Prop) (f : A → st S E unit) l s s' r :
  (∀ x s s', P s → f x s = SOk s' () → P s') → P s → sforeach f l s = SOk s' r → P s'.
Proof.
  intros Hf. revert s. induction l as [|x l IH]; intros s Hs; cbn [sforeach]; [by intros [= <-]|]. intros (s1 & [] & E1 & H)%sbind_SOk_inv. by eapply IH; [eapply Hf|].
Qed.
Lemma aguard_Ok b e s s' r : aguard b e s = SOk s' r → b = false ∧ s' = s.
Proof. unfold aguard. destruct b; [done|]. by intros [= <-]. Qed.
Lemma aguard_then {A} b e (k : aop A) s s' r : (aguard b e;; k) s = SOk s' r → b = false ∧ k s = SOk s' r.
Proof. intros (s1 & u & [-> ->]%aguard_Ok & H)%sbind_SOk_inv. done. Qed.
Lemma check_order_keeps sub o s s' r : check_order_shape sub o s = SOk s' r → s' = s.
Proof.
  unfold check_order_shape. rewrite sget_bind. intros (_ & _ & H)%slift_bind. revert H. apply (foreach_invariant (λ x, x = s)); [|done].
  intros m s1 s2 ->. unfold check_active_market. rewrite sget_bind. intros [_ H]%aguard_then. by apply aguard_Ok in H as [_ ->].
Qed.

(** [accept] appends one resting order and touches only the aggregates besides. *)
Lemma add_reservations_keep {E} a c pos b b' : add_reservations (E := E) a c pos b = SOk b' () → ob_orders b' = ob_orders b ∧ ob_ttl b' = ob_ttl b.
Proof.
  unfold add_reservations. intros (b1 & [] & E1 & H)%sbind_SOk_inv. assert (ob_orders b1 = ob_orders b ∧ ob_ttl b1 = ob_ttl b) as H1.
  { revert E1. destruct (0 <? c); [|by intros [= <-]]. rewrite sget_bind. intros (m & _ & [= <-])%slift_bind. done. }
  revert H. apply (foreach_invariant (λ x, ob_orders x = ob_orders b ∧ ob_ttl x = ob_ttl b)); [|done].
  intros [key qty] s1 s2 Hs1. rewrite sget_bind. intros (m & _ & [= <-])%slift_bind. done.
Qed.
Lemma accept_pushes o a account height now b b' acc : accept o a account height now b = SOk b' acc →
  ac_order acc = o ∧ ro_order (ac_resting_order acc) = o ∧ ro_account_id (ac_resting_order acc) = a ∧ ob_orders b' = ob_orders b ++ [ac_resting_order acc].
Proof.
  unfold accept. rewrite sget_bind. intros (cost & _ & H)%slift_bind. apply slift_bind in H as (pos & _ & H). apply sbind_SOk_inv in H as (b1 & [] & [Ho _]%add_reservations_keep & H).
  unfold push_order in H. rewrite smodify_bind in H. cbv [mret st_ret] in H. injection H as <- <-. cbn. by rewrite Ho.
Qed.

Lemma account_bids_tracked s a : tracks (mq_groups (ad_market s)) a (bids (account_orders s a)) (seeded_tracker s a).
Proof. apply (records_track _ _ []), tracks_new. Qed.

Lemma single_admitted a o now s s' id ro : admit_single a o now s = SOk s' (OrderAdmitted id ro) →
  id = ord_id o ∧ ro_order ro = o ∧ ro_account_id ro = a ∧ would_complete_set (seeded_tracker s a) a o = false ∧
  ∃ b, s' = set_ad_book b s ∧ ob_orders b = ob_orders (ad_book s) ++ [ro].
Proof.
  unfold admit_single. rewrite sget_bind. intros (account & _ & H)%slift_bind. apply aguard_then in H as [_ H]. apply aguard_then in H as [Hw H]. revert H.
  destruct (accept _ _ _ _ _ _) as [b acc|b e|] eqn:E; [|done..]. rewrite smodify_bind. cbv [mret st_ret]. intros [= <- <- <-].
  apply accept_pushes in E as (-> & <- & <- & Hb). split_and!; try done. by exists b.
Qed.

Lemma admitted_single sub now ioc s s' id ro : try_admit_direct_with_ioc sub now ioc s = SOk s' (OrderAdmitted id ro) →
  os_mm_constraint sub = None ∧ ∃ o, os_orders sub = [o] ∧ ord_num_markets o = 1 ∧ id = ad_next_order_id s ∧ ro_account_id ro = os_account_id sub ∧
  ro_order ro = set_order_id (if ioc then set_expiry o (Some (sat U64 (sq_height (mq_seq (ad_market s)) + 1))) else o) (ad_next_order_id s) ∧
  would_complete_set (seeded_tracker s (os_account_id sub)) (os_account_id sub) (ro_order ro) = false ∧
  ∃ b, s' = set_ad_book b (set_next_order_id (sat U64 (ad_next_order_id s + 1)) s) ∧ ob_orders b = ob_orders (ad_book s) ++ [ro].
Proof.
  unfold try_admit_direct_with_ioc. rewrite sget_bind. intros (s1 & r & Es & H)%sbind_SOk_inv.
  assert (s1 = s) as -> by (revert Es; apply (foreach_invariant (λ x, x = s)); [by intros x s1' s2 -> ?%check_order_keeps|done]). clear Es r.
  apply sbind_SOk_inv in H as (s1 & u & Ec & H). destruct sub as [a orders [c|]]; destruct ioc; cbn [os_account_id os_orders os_mm_constraint fmap option_fmap option_map] in *.
  1,2: rewrite bool_decide_eq_true_2 in H by (by eexists); apply sbind_SOk_inv in H as (s2 & [x l] & _ & H); done.
  all: cbv [mret st_ret] in Ec; injection Ec as <- _; split; [done|]; apply sbind_SOk_inv in H as (s2 & [x l] & Ea & H);
    destruct orders as [|o [|o' orders]]; try done.
  all: destruct (ord_num_markets o =? 1) eqn:En; cbn in H; rewrite ?En in H; [|done].
  all: cbn in Ea; injection Ea as <- <- <-; exists o; apply Z.eqb_eq in En; cbn in H.
  all: apply single_admitted in H as (-> & -> & -> & Hw & b & -> & Hb); split_and!; try done; by exists b.
Qed.

(** ** A submission that is rejected *)

(** What the tracker reads is the same in both states. *)
Definition keeps_orders (s s' : AdmissionState) : Prop :=
  mq_groups (ad_market s') = mq_groups (ad_market s) ∧ ∀ a, account_orders s' a = account_orders s a.
Definition errors_keep {A} (m : aop A) : Prop := ∀ s s' e, m s = SErr s' e → keeps_orders s s'.

Lemma errors_bind {A B} (m : aop A) (f : A → aop B) : errors_keep m → (∀ s s' a, m s = SOk s' a → keeps_orders s s') → (∀ a, errors_keep (f a)) → errors_keep (m ≫= f).
Proof.
  intros Hm Hok Hf s s' e. unfold mbind, st_bind. destruct (m s) as [s1 a|s1 e1|] eqn:E; [|by intros [= <- <-]; eapply Hm|done].
  intros H. destruct (Hok _ _ _ E) as [Hg1 Ho1]. destruct (Hf _ _ _ _ H) as [Hg2 Ho2]. split; [congruence|]. intros a'. by rewrite Ho2, Ho1.
Qed.
Lemma errors_get {A} (f : AdmissionState → aop A) : (∀ s0, errors_keep (f s0)) → errors_keep (sget ≫= f).
Proof. intros H s s' e. rewrite sget_bind. apply H. Qed.
Lemma errors_slift {A} (m : outcome SequencerError A) : errors_keep (slift m).
Proof. intros s s' e. destruct m; [done|by intros [= <- _]|done]. Qed.
Lemma errors_slift_bind {A B} (m : outcome SequencerError A) (f : A → aop B) : (∀ a, errors_keep (f a)) → errors_keep (slift m ≫= f).
Proof. intros. apply errors_bind; [apply errors_slift|by intros s s' a [-> _]%slift_Ok|done]. Qed.
Lemma errors_aguard b e : errors_keep (aguard b e).
Proof. intros s s' e'. unfold aguard. destruct b; [by intros [= <- _]|done]. Qed.
Lemma errors_aguard_then {B} b e (k : aop B) : errors_keep k → errors_keep (aguard b e;; k).
Proof. intros. apply errors_bind; [apply errors_aguard|by intros s s' a [_ ->]%aguard_Ok|done]. Qed.
Lemma errors_foreach {A} (f : A → aop unit) l : (∀ x, errors_keep (f x)) → (∀ x s s' r, f x s = SOk s' r → s' = s) → errors_keep (sforeach f l).
Proof.
  intros He Hk. induction l as [|x l IH]; cbn [sforeach]; [done|]. apply errors_bind; [done| |done]. by intros s s' a ->%Hk.
Qed.

(** Walk down the binds of a sequence of checks. *)
Ltac errors_only := repeat lazymatch goal with
  | |- errors_keep (sget ≫= _) => apply errors_get; intros ?
  | |- errors_keep (slift _ ≫= _) => apply errors_slift_bind; intros ?
  | |- errors_keep (aguard _ _ ≫= _) => apply errors_aguard_then
  | |- errors_keep (aguard _ _) => apply errors_aguard
  | |- errors_keep (mret _) => done
  end.

Lemma check_active_errors m : errors_keep (check_active_market m).
Proof. unfold check_active_market. errors_only. Qed.
Lemma check_active_keeps m s s' r : check_active_market m s = SOk s' r → s' = s.
Proof. unfold check_active_market. rewrite sget_bind. intros [_ H]%aguard_then. by apply aguard_Ok in H as [_ ->]. Qed.
Lemma check_order_errors sub o : errors_keep (check_order_shape sub o).
Proof. unfold check_order_shape. errors_only. apply errors_foreach; [apply check_active_errors|apply check_active_keeps]. Qed.
Lemma check_constraint_errors sub c : errors_keep (check_constraint sub c).
Proof. unfold check_constraint. errors_only. Qed.
Lemma check_constraint_keeps sub c s s' r : check_constraint sub c s = SOk s' r → s' = s.
Proof.
  unfold check_constraint. rewrite sget_bind. intros (acc & _ & H)%slift_bind. do 4 apply aguard_then in H as [_ H]. apply slift_bind in H as (? & _ & H). apply slift_bind in H as (? & _ & H). by injection H as ->.
Qed.

(** [accept] fails before it touches the aggregates. *)
Lemma add0_not_Err {E} `{Countable K} t (m : gmap K Z) k v (e : E) : add0 t m k v ≠ Err e.
Proof. unfold add0. pose proof (arith_not_Err (E := E) t (get0 m k + v) e) as Ha. destruct (arith t _) as [z|e'|]; cbn; congruence. Qed.
Lemma add_reservations_total {E} a c pos b b' e : add_reservations (E := E) a c pos b ≠ SErr b' e.
Proof.
  unfold add_reservations. assert (∀ l b1, sforeach (E := E) (λ '(key, qty), b ← sget; m ← slift (add0 I64 (ob_position_reservations b) (a, key) qty); smodify (set_pos m)) l b1 ≠ SErr b' e) as Hl.
  { induction l as [|[key qty] l IH]; intros b1; cbn [sforeach]; [done|]. unfold mbind, st_bind, sget, slift, smodify.
    destruct (add0 _ _ _ _) as [m|e1|] eqn:E1; [apply IH|by apply add0_not_Err in E1|done]. }
  unfold mbind at 1, st_bind at 1. destruct (0 <? c); [|apply Hl]. unfold mbind at 1, st_bind at 1, sget at 1. unfold mbind at 1, st_bind at 1, slift at 1, smodify at 1.
  destruct (add0 _ _ _ _) as [m|e1|] eqn:E1; [apply Hl|by apply add0_not_Err in E1|done].
Qed.
Lemma accept_error o a account height now b b' e : accept o a account height now b = SErr b' e → b' = b.
Proof.
  unfold accept. rewrite sget_bind. unfold mbind, st_bind, slift. destruct (validate_order_with_reservation _ _ _ _); [|by intros [= <- _]|done]. destruct (sell_reservations o); [|by intros [= <- _]|done].
  destruct (add_reservations _ _ _ _) as [b1 u|b1 e1|] eqn:E; [done|by apply add_reservations_total in E|done].
Qed.
Lemma aguard_Err {A} b e (k : aop A) s s' e' : (aguard b e;; k) s = SErr s' e' → s' = s ∨ k s = SErr s' e'.
Proof. unfold aguard. destruct b; [by intros [= <- _]; left|by right]. Qed.
Lemma slift_Err {A C} (m : outcome SequencerError A) (f : A → aop C) s s' e : (slift m ≫= f) s = SErr s' e → s' = s ∨ ∃ a, f a s = SErr s' e.
Proof. destruct m as [a| |]; [intros H; right; by exists a|by intros [= <- _]; left|done]. Qed.
Lemma admit_single_errors a o now : errors_keep (admit_single a o now).
Proof.
  intros s s' e. unfold admit_single. rewrite sget_bind. intros [->|(account & H)]%slift_Err; [done|]. apply aguard_Err in H as [->|H]; [done|]. apply aguard_Err in H as [->|H]; [done|].
  revert H. destruct (accept _ _ _ _ _ _) as [b acc|b r|] eqn:E; [done| |done]. apply accept_error in E as ->. rewrite smodify_bind. by intros [= <- _].
Qed.
Lemma assign_keeps sub s s' r : assign_submission_order_ids sub s = SOk s' r → keeps_orders s s'.
Proof. unfold assign_submission_order_ids. rewrite sget_bind. destruct (assign_ids _ _). rewrite smodify_bind. by intros [= <- _]. Qed.
Lemma assign_errors sub : errors_keep (assign_submission_order_ids sub).
Proof. intros s s' e. unfold assign_submission_order_ids. rewrite sget_bind. by destruct (assign_ids _ _). Qed.

Lemma admission_errors sub now ioc : errors_keep (try_admit_direct_with_ioc sub now ioc).
Proof.
  unfold try_admit_direct_with_ioc. apply errors_get. intros s0. set (sub' := if ioc then _ else _). apply errors_bind.
  - apply errors_foreach; [apply check_order_errors|]. intros o s s' r. apply check_order_keeps.
  - intros s s' r H. assert (s' = s) as ->; [|done]. revert H. apply (foreach_invariant (λ x, x = s)); [by intros o s1 s2 -> ?%check_order_keeps|done].
  - intros _. apply errors_bind.
    + destruct (os_mm_constraint sub'); [apply check_constraint_errors|done].
    + intros s s' r. destruct (os_mm_constraint sub'); [by intros ->%check_constraint_keeps|by intros [= <-]].
    + intros _. apply errors_bind; [apply assign_errors|intros s s' r; apply assign_keeps|]. intros [sub1 ids]. destruct (negb _); [done|].
      destruct (os_orders sub1); [done|]. apply admit_single_errors.
Qed.
Lemma deferred_keeps sub now ioc s s' ids sub1 : try_admit_direct_with_ioc sub now ioc s = SOk s' (Deferred ids sub1) → keeps_orders s s'.
Proof.
  unfold try_admit_direct_with_ioc. rewrite sget_bind. set (sub' := if ioc then _ else _). intros (s1 & r & Es & H)%sbind_SOk_inv.
  assert (s1 = s) as -> by (revert Es; apply (foreach_invariant (λ x, x = s)); [by intros x s1' s2 -> ?%check_order_keeps|done]).
  apply sbind_SOk_inv in H as (s1 & u & Ec & H). assert (s1 = s) as ->.
  { revert Ec. destruct (os_mm_constraint sub'); [by intros ?%check_constraint_keeps|by intros [= <-]]. }
  apply sbind_SOk_inv in H as (s1 & [sub2 l] & Ea%assign_keeps & H). destruct (negb _); [by injection H as <- _|].
  destruct (os_orders sub2) as [|o os]; [done|]. revert H. unfold admit_single. rewrite sget_bind. intros (account & _ & H)%slift_bind. do 2 apply aguard_then in H as [_ H]. revert H.
  by destruct (accept _ _ _ _ _ _).
Qed.

(** ** Runs of submissions *)

(** The state after a submission, whatever its outcome; a panic is no step. *)
Definition after_submission (s : AdmissionState) (e : OrderSubmission * Z * bool) : AdmissionState :=
  match try_admit_direct_with_ioc e.1.1 e.1.2 e.2 s with SOk s' _ | SErr s' _ => s' | SPanic => s end.
Definition accounts_uncrossed (s : AdmissionState) : Prop := ∀ a, uncrossed (mq_groups (ad_market s)) (bids (account_orders s a)).

Lemma keeps_orders_uncrossed s s' : keeps_orders s s' → accounts_uncrossed s → accounts_uncrossed s'.
Proof. intros [Hg Ho] Hu a. rewrite Hg, Ho. apply Hu. Qed.

(** A resting order joins the bids of its account only. *)
Lemma rested_bids s b n ro a e : ob_orders b = ob_orders (ad_book s) ++ [ro] → e ∈ bids (account_orders (set_ad_book b (set_next_order_id n s)) a) →
  e ∈ bids (account_orders s a) ∨ ro_account_id ro = a ∧ e ∈ bids [ro_order ro].
Proof.
  intros Hb. unfold bids. rewrite !list_elem_of_omap. intros (o & Ho & He). revert Ho. unfold account_orders. cbn. rewrite Hb, filter_app, fmap_app, !elem_of_app.
  intros [[Ho|Ho]|Ho]; [left; exists o; rewrite !elem_of_app; auto| |left; exists o; rewrite !elem_of_app; auto].
  rewrite filter_cons in Ho. destruct (decide (ro_account_id ro = a)) as [Ha|]; [|by apply not_elem_of_nil in Ho]. right. split; [done|]. exists o. split; [|done].
  exact Ho.
Qed.
Lemma admitted_uncrossed sub now ioc s s' id ro : groups_disjoint (mq_groups (ad_market s)) → accounts_uncrossed s →
  try_admit_direct_with_ioc sub now ioc s = SOk s' (OrderAdmitted id ro) → mq_groups (ad_market s') = mq_groups (ad_market s) ∧ accounts_uncrossed s'.
Proof.
  intros Hd Hu (_ & o & _ & _ & _ & Ha & _ & Hw & b & -> & Hb)%admitted_single. split; [done|]. intros a. change (mq_groups (ad_market (set_ad_book b _))) with (mq_groups (ad_market s)).
  destruct (decide (ro_account_id ro = a)) as [<-|Hne].
  - rewrite Ha in *. eapply uncrossed_mono; [|exact (uncrossed_step _ _ _ _ _ Hd (account_bids_tracked s _) (Hu _) Hw)].
    intros e [?|[_ ?]]%(rested_bids _ _ _ _ _ _ Hb); apply elem_of_app; auto.
  - eapply uncrossed_mono; [|apply (Hu a)]. by intros e [?|[? _]]%(rested_bids _ _ _ _ _ _ Hb).
Qed.
Lemma submission_uncrossed s e : groups_disjoint (mq_groups (ad_market s)) → accounts_uncrossed s →
  mq_groups (ad_market (after_submission s e)) = mq_groups (ad_market s) ∧ accounts_uncrossed (after_submission s e).
Proof.
  destruct e as [[sub now] ioc]. unfold after_submission. cbn [fst snd]. intros Hd Hu. destruct (try_admit_direct_with_ioc sub now ioc s) as [s' [id ro|ids sub']|s' e|] eqn:E; [|..|done].
  - by eapply admitted_uncrossed.
  - pose proof (deferred_keeps _ _ _ _ _ _ _ E) as Hs. split; [apply Hs|by eapply keeps_orders_uncrossed].
  - pose proof (admission_errors _ _ _ _ _ _ E) as Hs. split; [apply Hs|by eapply keeps_orders_uncrossed].
Qed.

(** C24: self-trade prevention.  Take any sequence of submissions, single orders,
    bundles and market-maker bundles, good-till-cancelled or immediate-or-cancel,
    whatever their outcomes.  If the market groups share no market (which the market
    life cycle maintains) and no account's resting and staged bids cross, then
    afterwards still no account holds bids that together buy both outcomes of a
    grouped market, or YES on every market of a group, for at least a dollar.  (A
    deferred bundle is handed back to the caller; this step does not stage it.) *)
Theorem admissions_keep_uncrossed (s : AdmissionState) (submissions : list (OrderSubmission * Z * bool)) :
  NoDup (concat (mg_markets <$> mq_groups (ad_market s))) → accounts_uncrossed s →
  mq_groups (ad_market (foldl after_submission s submissions)) = mq_groups (ad_market s) ∧ accounts_uncrossed (foldl after_submission s submissions).
Proof.
  intros Hd%disjoint_groups. revert s Hd. induction submissions as [|e l IH]; intros s Hd Hu; cbn [foldl]; [done|].
  destruct (submission_uncrossed s e Hd Hu) as [Hg Hu']. destruct (IH (after_submission s e)) as [Hg' ?]; [by rewrite Hg|done|]. by rewrite Hg', Hg.
Qed.

(** C25: the incremental tracker decides exactly the reference predicate when no
    market is in two groups (an invariant of the market state).  Seeded
    with the account's resting and staged orders, it refuses an order if and only if
    the order is a pure bid in a grouped market and, among the account's bids with
    this one added, some pair of bids buys both outcomes of its market for at least a
    dollar, or the order bids YES and some choice of one YES bid per market of the
    group costs at least a dollar. *)
Theorem complete_set_test_exact (s : AdmissionState) (a : AccountId) (o : Order) :
  NoDup (concat (mg_markets <$> mq_groups (ad_market s))) →
  would_complete_set (seeded_tracker s a) a o = true ↔
  ∃ e g, bid o = Some e ∧ g ∈ mq_groups (ad_market s) ∧ only_market o ∈ mg_markets g ∧
    (pair_crosses (only_market o) (bids (account_orders s a ++ [o])) ∨ e.1.1 = true ∧ cover_crosses (mg_markets g) (bids (account_orders s a ++ [o]))).
Proof.
  intros Hd%disjoint_groups. rewrite (would_complete_exact _ _ _ _ o Hd (account_bids_tracked s a)). unfold bids. rewrite omap_app. split.
  - intros (e & i & g & He & Hi & H). exists e, g. split; [done|]. split; [by eapply list_elem_of_lookup_2|done].
  - intros (e & g & He & [i Hi]%list_elem_of_lookup_1 & H). by exists e, i, g.
Qed.

(** ** Market-maker bundles *)

Lemma coverage_fold a groups t B l t' : groups_disjoint groups → tracks groups a B t → uncrossed groups B →
  ofold (check_coverage_step a) t l = Ok t' → uncrossed groups (B ++ bids l).
Proof.
  intros Hd. revert t B. induction l as [|o l IH]; intros t B Ht Hu; cbn [ofold]; [by rewrite app_nil_r|]. intros (t1 & H1 & H)%obind_Ok.
  unfold check_coverage_step in H1. apply reject_then in H1 as [Ew [= <-]]. replace (B ++ bids (o :: l)) with ((B ++ bids [o]) ++ bids l).
  - eapply IH; [by apply record_tracks|by eapply uncrossed_step|exact H].
  - rewrite <- (assoc_L (++)). f_equal. unfold bids. cbn. by destruct (bid o).
Qed.
Lemma constraint_covers sub c s s' r : check_constraint sub c s = SOk s' r → ∃ t, ofold (check_coverage_step (os_account_id sub)) (seeded_tracker s (os_account_id sub)) (os_orders sub) = Ok t.
Proof.
  unfold check_constraint. rewrite sget_bind. intros (acc & _ & H)%slift_bind. do 4 apply aguard_then in H as [_ H]. apply slift_bind in H as (? & _ & H). apply slift_bind in H as (t & Ht & _). by exists t.
Qed.
Lemma assigned_bids next l : bids (assign_ids next l).1 = bids l.
Proof.
  revert next. induction l as [|o l IH]; intros next; [done|]. cbn [assign_ids]. specialize (IH (sat U64 (next + 1))). destruct (assign_ids _ l) as [l' n']. cbn [fst] in *.
  unfold bids in *. cbn. rewrite IH. done.
Qed.
Lemma ioc_bids h l : bids (ioc_orders h l) = bids l.
Proof. unfold bids, ioc_orders. induction l as [|o l IH]; [done|]. cbn. by rewrite IH. Qed.

(** A market-maker bundle that is deferred can be staged: the account's bids with
    the bundle's orders, under their new ids, do not cross. *)
Theorem deferred_bundle_uncrossed sub c now ioc s s' ids sub' : NoDup (concat (mg_markets <$> mq_groups (ad_market s))) → accounts_uncrossed s →
  os_mm_constraint sub = Some c → try_admit_direct_with_ioc sub now ioc s = SOk s' (Deferred ids sub') →
  ids = ord_id <$> os_orders sub' ∧ uncrossed (mq_groups (ad_market s)) (bids (account_orders s (os_account_id sub) ++ os_orders sub')).
Proof.
  intros Hd%disjoint_groups Hu Hc. destruct sub as [a orders mm]. cbn in Hc. subst mm. unfold try_admit_direct_with_ioc. rewrite sget_bind. intros (s1 & r & Es & H)%sbind_SOk_inv.
  assert (s1 = s) as -> by (revert Es; apply (foreach_invariant (λ x, x = s)); [by intros x s1' s2 -> ?%check_order_keeps|done]). clear Es.
  apply sbind_SOk_inv in H as (s1 & u & Ec & H). set (sub1 := if ioc then _ else _) in *. assert (os_mm_constraint sub1 = Some c ∧ os_account_id sub1 = a ∧ bids (os_orders sub1) = bids orders) as (Hc1 & Ha1 & Hb1).
  { subst sub1. destruct ioc; cbn; [split_and!; [done..|apply ioc_bids]|done]. }
  rewrite Hc1 in Ec, H. pose proof (check_constraint_keeps _ _ _ _ _ Ec) as ->. apply constraint_covers in Ec as (t & Ht). rewrite Ha1 in Ht.
  pose proof (coverage_fold _ _ _ _ _ _ Hd (account_bids_tracked s a) (Hu a) Ht) as Hx.
  apply sbind_SOk_inv in H as (s2 & [sub2 l] & Ea & H). rewrite bool_decide_eq_true_2 in H by (by eexists). cbn in H. injection H as -> -> ->.
  revert Ea. unfold assign_submission_order_ids. rewrite sget_bind. pose proof (assigned_bids (ad_next_order_id s) (os_orders sub1)) as Hids. destruct (assign_ids _ _) as [os n]. cbn in Hids. rewrite smodify_bind.
  intros [= _ <- <-]. cbn [os_orders os_account_id]. split; [done|]. unfold bids in *. rewrite omap_app. cbn. by rewrite Hids.
Qed.

(** ** Witnesses *)

(** An account with a thousand dollars and a group of two markets.  A YES bid at 40
    cents on one market and one at 50 cents on the other rest; raising the second
    to 60 cents would complete the set and is rejected. *)
Definition ex_trader : Account := Account_new (λ _, []) 0 (1000 * NANOS_PER_DOLLAR).
Definition ex_admission : AdmissionState :=
  mkAdmissionState (mkMarketSequencer (set_accounts (mkAccountStore {[0 := ex_trader]} 1) (mq_seq ex_m3)) (mq_markets ex_m3) (mq_lifecycle ex_m3)) 1 [] [] 1.
Definition ex_bid (market price : Z) : Order :=
  match simple_yes_buy (E := SequencerError) (mq_markets ex_m3) 0 market price 1000 with Ok o => o | _ => Order_new 0 end.
Definition ex_submission (market price : Z) : OrderSubmission * Z * bool := (mkOrderSubmission 0 [ex_bid market price] None, 7, false).
Definition ex_run : list (OrderSubmission * Z * bool) := [ex_submission 0 400000000; ex_submission 2 500000000; ex_submission 2 600000000].
Definition ex_submitted : AdmissionState := foldl after_submission ex_admission (take 2 ex_run).
Lemma ex_groups : mq_groups (ad_market ex_admission) = [mkMarketGroup "race" (Some "g1"%string) [0; 2]].
Proof. vm_compute. reflexivity. Qed.
Lemma ex_book_empty : ob_orders (ad_book ex_admission) = [].
Proof. vm_compute. reflexivity. Qed.
Lemma uncrossed_nil groups : uncrossed groups [].
Proof.
  intros g _. split; [by intros m _ (x & y & ?%not_elem_of_nil & _)|]. intros (xs & Hxs & Hle).
  destruct Hxs as [|m x ms xs Hx _]; [|by apply not_elem_of_nil in Hx]. revert Hle. unfold NANOS_PER_DOLLAR. cbn. lia.
Qed.
Lemma ex_uncrossed : accounts_uncrossed ex_admission.
Proof. intros a. unfold account_orders. rewrite ex_book_empty. apply uncrossed_nil. Qed.
Lemma ex_disjoint : NoDup (concat (mg_markets <$> mq_groups (ad_market ex_admission))).
Proof. rewrite ex_groups. apply (bool_decide_unpack _). vm_compute. exact I. Qed.
Lemma ex_rested : (λ ro, ord_id (ro_order ro)) <$> ob_orders (ad_book (foldl after_submission ex_admission ex_run)) = [1; 2].
Proof. vm_compute. reflexivity. Qed.
Lemma ex_refused : would_complete_set (seeded_tracker ex_submitted 0) 0 (ex_bid 2 600000000) = true.
Proof. vm_compute. reflexivity. Qed.
Lemma ex_submitted_groups : mq_groups (ad_market ex_submitted) = [mkMarketGroup "race" (Some "g1"%string) [0; 2]].
Proof. vm_compute. reflexivity. Qed.
Lemma ex_submitted_disjoint : NoDup (concat (mg_markets <$> mq_groups (ad_market ex_submitted))).
Proof. rewrite ex_submitted_groups. apply (bool_decide_unpack _). vm_compute. exact I. Qed.

(** Two of the three submissions rest, and the account's bids are uncrossed. *)
Lemma admissions_keep_uncrossed_witness :
  (λ ro, ord_id (ro_order ro)) <$> ob_orders (ad_book (foldl after_submission ex_admission ex_run)) = [1; 2] ∧
  accounts_uncrossed (foldl after_submission ex_admission ex_run).
Proof. split; [exact ex_rested|]. exact (proj2 (admissions_keep_uncrossed ex_admission ex_run ex_disjoint ex_uncrossed)). Defined.

(** The refusal of the third submission exhibits the crossing cover. *)
Lemma complete_set_test_exact_witness : ∃ e g, bid (ex_bid 2 600000000) = Some e ∧ g ∈ mq_groups (ad_market ex_submitted) ∧ only_market (ex_bid 2 600000000) ∈ mg_markets g ∧
    (pair_crosses (only_market (ex_bid 2 600000000)) (bids (account_orders ex_submitted 0 ++ [ex_bid 2 600000000])) ∨
     e.1.1 = true ∧ cover_crosses (mg_markets g) (bids (account_orders ex_submitted 0 ++ [ex_bid 2 600000000]))).
Proof. exact (proj1 (complete_set_test_exact ex_submitted 0 (ex_bid 2 600000000) ex_submitted_disjoint) ex_refused). Defined.
